(* ===== verification/_CoqProject ===== *)
-Q . S2P
Prelude.v
Json.v
JsMap.v
EventCache.v
ApprovalHasher.v
ApprovalRepository.v
ApprovalService.v
Policy.v
RequestIdMapper.v
RateLimit.v
IpWhitelist.v
SessionStore.v
Access.v
CacheKey.v
CachePolicy.v
CacheSerializer.v
CacheStore.v
ResultCache.v
ResultCacheCorrect.v
Singleflight.v
Effects.v
Interleaving.v
ToolCall.v
ToolCallWorld.v
ToolCallGate.v
ToolCallApproval.v
WebPlatform.v
EventStore.v
OAuthService.v
OAuthDesk.v
TokenValidators.v
ClientMetadata.v
OAuthClients.v
OAuthController.v
OAuthAuthorize.v
OAuthTables.v
OAuthGrants.v
OAuthSafety.v
OAuthWorld.v
Authentication.v
AuthSafety.v
ServerTypes.v
NodePath.v
LaunchConfig.v
CapabilityDiff.v
Monitor.v
ServerContext.v
ServerWorld.v
TokenRefresh.v
ServerStart.v
ServerManager.v
ServerQuiet.v
ServerStarts.v
ServerTimers.v
ServerOutcome.v
UserCapabilities.v
FileSystem.v
AdminTypes.v
Skills.v
SkillsContent.v
Redaction.v
Logs.v
LogsSafety.v
LogsSync.v
ProxyRequests.v
ProxyRequestsSafety.v
ProxyRouting.v
Discovery.v
DiscoverySafety.v
DiscoveryCorrect.v
DiscoveryProfiles.v
ModernRequests.v
ModernCalls.v
ModernSafety.v
ServerAdmin.v
ServerAdminSafety.v
ProviderTokens.v
ProviderSafety.v
