(* ===== verification/Prelude.v ===== *)
(** * Peta Core: a verification library

    Peta Core is a gateway for the Model Context Protocol (MCP): clients
    connect to it with a token, it starts and keeps the downstream MCP servers
    they may use, decides for every request whether it may pass, and forwards
    it.  This library translates the parts of the program that decide
    something into Rocq definitions and proves what they promise.  The program
    is under [src/src/]; paths below are relative to it.

    ** How things are modelled

    - A value of the language is a [json] ([Json]): [undefined], [null],
      booleans, numbers (the integers), strings of code units below 256,
      arrays, and objects as association lists in the order of their
      properties.  A [Map] or an object used as one is an association list in
      insertion order ([JsMap]), or a [gmap] where the order is never looked
      at.
    - Synchronous code is a function.  What may throw returns [result];
      stateful code that may throw is in the monad [M] of this file: an
      exception keeps the changes made before it.
    - Asynchronous code is a tree of calls ([Effects.prog]): what it asks
      next depends on the answers so far.  Three readings of such trees are
      used.  Every answer is possible: a property of the tree holds whatever
      the other components do (tool calls, the endpoints of the OAuth server,
      the middleware).  The calls of any number of trees are answered by one
      shared state in any order ([Interleaving]: the approval table, the tables
      of the OAuth server).  The trees are cooperative threads over shared
      objects that lose control only at their awaits ([Monitor]: the server
      manager, the log queue); there an invariant has to hold only at the
      awaits, and each thread may rely on what it alone holds, its ghost.
    - A database is the state its statements work on, each statement atomic;
      it may fail, before or after it took effect where the client cannot
      tell.  Clocks, random values and names of new objects are arguments or
      answers.
    - What is not in the repository (digests, signatures, URL parsing, the
      ZIP and front matter readers, DNS, the regular expressions users write)
      is a parameter; the theorems that need to know something about one have
      it as a named hypothesis, and an instance of each is given.

    ** The parts

    The shared ground: this file ([result], [M], sorting, strings, the hint
    databases [peta] and [peta_rw]), [Json] ([JSON.stringify], [JSON.parse]
    and their round trip, canonical forms), [JsMap] (maps, and functions on texts), [WebPlatform]
    (class of the runtime's web functions), [NodePath], [Redaction] (a
    backtracking matcher for the fixed expressions of the code),
    [FileSystem] (a disk any of whose calls may fail), [Effects],
    [Interleaving], [Monitor].

    A request of a client passes through these parts, in this order.

    - Who it is.  [TokenValidators] ([security/TokenValidator.ts],
      [OAuthTokenValidator.ts]), [Authentication] (the three middlewares of
      [middleware/] and [mcp/modern/]), [RateLimit], [IpWhitelist].
      [AuthSafety] proves that whatever interleaves, a request acts as a user
      for whom a token was validated when the session was opened
      ([requests_act_as_vouched_users], [admin_requires_role],
      [modern_identity_bound_to_resource]); [whitelist_enforced] and
      [rate_limit_bound] are about the other two.
    - Its session.  [SessionStore] ([mcp/core/SessionStore.ts]): the tables
      agree in every reachable state ([session_tables_consistent]);
      [RequestIdMapper] ([mcp/core/RequestIdMapper.ts]); [EventStore] with
      [EventCache] ([mcp/core/PersistentEventStore.ts],
      [EventCacheManager.ts]): a client that comes back gets the messages it
      missed, in order, and only them, but for those whose rows were
      committed after it had seen a later one ([replay_resumes]).
    - What it may see and call.  [Access] ([mcp/core/ClientSession.ts]):
      [tool_access_exact], [listed_tools_callable]; [UserCapabilities] and
      [CapabilityDiff] ([mcp/services/CapabilitiesService.ts]): the choices of
      one user stay his ([choices_stay_with_the_user]).
    - What policy says.  [Policy] ([mcp/services/PolicyDslEvaluator.ts],
      [PolicyEngine.ts], [repositories/PolicyRepository.ts]).
    - The tool call itself.  [ToolCall] ([handleToolCall] of
      [mcp/core/ProxySession.ts]).  [ToolCallGate] has the protocol every run
      follows ([downstream_call_cleared], [claims_settled],
      [tool_call_ends]); [ApprovalRepository], [ApprovalService],
      [ApprovalHasher] are the table of approvals, its service and the
      identity of a request ([at_most_one_execution],
      [no_execution_without_approval]); [ToolCallApproval] composes them:
      a call that needs an approval happens only after one was granted for
      this user, tool, arguments and policy ([gated_call_was_approved]).
    - What it may be answered from.  [CacheKey], [CachePolicy],
      [CacheSerializer], [CacheStore] (the interface of stores, as a class
      with its laws, and the store in the database), [ResultCache],
      [Singleflight]
      ([mcp/core/cache/]); [ResultCacheCorrect] proves over any store with the
      laws what a hit returns ([hit_was_stored]) and that purging purges.
    - The server behind it.  [ServerTypes], [LaunchConfig] (from a
      configuration to a process or address; [custom_stdio_confined]),
      [ServerContext], [ServerWorld], [TokenRefresh], [ServerStart],
      [ServerManager] ([mcp/core/ServerContext.ts],
      [mcp/core/ServerManager.ts]).  [ServerStarts] proves by the rule of
      [Monitor], over all methods of the manager, [online_has_connection], and
      [one_start_per_key] as long as a shutdown does not clear the queue of
      starts under one; [ServerOutcome] what a start leaves behind;
      [ServerTimers] the timers; [ServerOutcome] that credentials do not reach
      the process that is started.
    - What is recorded.  [Redaction] and [Logs] ([utils/logRedaction.ts],
      [log/], [repositories/LogRepository.ts]): what is stored of a field
      does not tell its secrets, as deep as the stack reaches and where texts
      are values ([redaction_hides_secrets]), accepted entries are not lost
      ([no_log_lost]), and what has been sent to the webhook is what the
      number of the last synchronised row says, but for rows committed late
      ([synced_rows_acknowledged]).

    Beside them the OAuth server ([oauth/]): [OAuthService], [OAuthDesk],
    [OAuthClients], [ClientMetadata], [OAuthController], [OAuthAuthorize] are
    its components; [OAuthTables] answers their statements; [OAuthGrants] is
    about single runs and [OAuthSafety] about all of them together
    ([code_redeemed_once], [refresh_never_widens], [revocation_final]).
    And the skills of servers ([services/SkillsService.ts]): [Skills] over
    [FileSystem]; it and [SkillsContent] prove that requests stay
    in their directory, that archives are bounded and that a skill is
    installed as it was uploaded.

    What else reaches a server or a client:

    - Reading, prompts and completions ([ProxyRequests]: the other handlers
      of [mcp/core/ProxySession.ts]).  [ProxyRequestsSafety] proves that each
      goes only where a permitted name leads ([reads_are_permitted]);
      [ProxyRouting] is about what passes between clients and servers of a
      request under way ([mcp/core/ProxySession.ts],
      [GlobalRequestRouter.ts]): cancelling and progress find it whatever
      others come and go, unless one has the text of its id within the same
      millisecond ([request_stays_routed]).
    - Discovery ([Discovery], [DiscoverySafety], [DiscoveryCorrect],
      [DiscoveryProfiles]: [mcp/services/Discovery*.ts],
      [types/discovery.types.ts], [controllers/handlers/DiscoveryHandler.ts]):
      the catalogue shows and runs what the user may use
      ([catalog_keeps_to_permissions]), its pages are the matches
      ([pages_are_the_matches]), profiles stay valid ([profiles_stay_valid]).
    - The modern protocol ([mcp/modern/]): [ModernRequests] has validation,
      headers, names and filters, [ModernCalls] the handlers and the life of a
      subscription; [ModernSafety] proves that a request is cleared before it
      reaches a server ([modern_requests_cleared]) and what a subscription is
      told ([subscription_tells_the_permitted]).
    - The administration of servers ([ServerAdmin]:
      [controllers/handlers/ServerHandler.ts], errors in [AdminTypes]).
      [ServerAdminSafety] keeps the row a request is about along the run: it
      stays well-formed and what it is ([server_rows_stay_valid]); renewing an
      authorization is guarded ([reauthorization_guarded]).
    - The tokens of providers ([ProviderTokens]: [mcp/oauth/], [mcp/auth/]).
      [ProviderSafety] reads a run by its trace: what an exchange sends and
      what its success means ([exchange_sound]), what refreshing keeps
      ([tokens_refresh_soundly]) and that a persisted configuration goes on
      ([persisted_tokens_resume]).  [ServerStart] and [ServerAdmin] call them
      through their own calls.

    Files named [...World], and the ends of other files, run the definitions on
    concrete inputs: the hypotheses of the theorems hold there, and what the code does
    that it does not mean to is shown.

    ** Bounds and fuel

    The definitions are total.  Where the code recurs on something that is
    not a part of its argument, the fuel is computed from the input and
    proved enough: what redacting a value needs without a stack that ends is the length of
    its longest text ([Redaction.JSON_parse_short]), and the code's own
    recursion ends with the stack, whose room is an argument
    ([Redaction.Stack]); the parser of JSON uses the
    length of its text ([Json]); repetition in a regular expression uses the
    length of the rest of the input, each round having to consume; copying and
    searching directories uses the depth of the disk ([SkillsContent]); globs
    use the lengths of pattern and value ([Policy]); waiting for an approval
    asks at most 20 times ([ToolCall.wait_fuel]) and waiting for a server at
    most 502 times ([ServerManager.ready_polls]), more often than their time
    limits allow with the delays between the questions ([tool_call_ends],
    [waiting_ends_truly]).

    ** Not modelled

    Log lines for operators, metrics and health reports; timers are calls that
    the environment may make at any time.  Express, the MCP SDK, Prisma,
    Docker, cloudflared, Redis and the socket library are outside; a part of
    the program that only passes requests on to one of them is listed as not
    modelled in the manifest, with the reason.  Numbers are integers: results
    that depend on fractions are not covered.  Strings are sequences of bytes;
    properties objects inherit are outside the model.

    Left out, though they decide something: the administration of users and
    policies ([controllers/handlers/UserHandler.ts], [PolicyHandler.ts] and the
    smaller handlers), the requests of users over sockets
    ([user/UserRequestHandler.ts] but for the server it removes, [socket/]),
    and the codec of the modern downstream client
    ([mcp/core/ModernHttpDownstreamCodec.ts]).
*)
From stdpp Require Import base gmap strings list fin_maps sorting.
From Stdlib Require Import Ascii ZArith Lia Sorted.

Open Scope Z_scope.

(** ** Results and the state-and-exception monad *)

Declare Scope peta_scope.
Delimit Scope peta_scope with peta.

(** What a JavaScript call can do: return a value or throw. *)
Inductive result (E A : Type) : Type :=
| Ok (a : A)
| Throw (e : E).
Arguments Ok {E A} a.
Arguments Throw {E A} e.

(** A stateful call: an exception keeps the state changes made before it. *)
Definition M (S E A : Type) : Type := S -> result E A * S.

Definition mret {S E A} (a : A) : M S E A := fun s => (Ok a, s).
Definition mthrow {S E A} (e : E) : M S E A := fun s => (Throw e, s).
Definition mbnd {S E A B} (m : M S E A) (k : A -> M S E B) : M S E B :=
  fun s => match m s with
           | (Ok a, s') => k a s'
           | (Throw e, s') => (Throw e, s')
           end.
(** A call that reads and updates the state and cannot throw. *)
Definition mlift {S E A} (f : S -> A * S) : M S E A :=
  fun s => let '(a, s') := f s in (Ok a, s').
Definition mgets {S E A} (f : S -> A) : M S E A := fun s => (Ok (f s), s).
Definition mmodify {S E} (f : S -> S) : M S E unit := fun s => (Ok tt, f s).

(** Rethrowing under another error type. *)
Definition mmap_err {S E F A} (f : E -> F) (m : M S E A) : M S F A :=
  fun s => match m s with
           | (Ok a, s') => (Ok a, s')
           | (Throw e, s') => (Throw (f e), s')
           end.

Notation "'let!' x ':=' m 'in' k" := (mbnd m (fun x => k))
  (at level 10, x name, m at level 100, k at level 200) : peta_scope.
Notation "m ';!' k" := (mbnd m (fun _ => k))
  (at level 100, k at level 200, right associativity) : peta_scope.
Open Scope peta_scope.

Definition is_ok {E A} (r : result E A) : bool :=
  match r with Ok _ => true | Throw _ => false end.

(** ** Automation *)

Create HintDb peta discriminated.
Create Rewrite HintDb peta_rw.

(** Splits a goal about boolean guards into their cases. *)
Ltac case_bool :=
  repeat match goal with
  | H : context [if ?b then _ else _] |- _ =>
      match type of b with bool => destruct b eqn:? end
  | |- context [if ?b then _ else _] =>
      match type of b with bool => destruct b eqn:? end
  end.

(** Turns boolean (in)equalities on [Z], [nat] and [bool] into propositions. *)
Ltac to_prop :=
  repeat match goal with
  | H : (_ && _)%bool = true |- _ => apply andb_true_iff in H as [? ?]
  | H : (_ || _)%bool = false |- _ => apply orb_false_iff in H as [? ?]
  | H : negb _ = true |- _ => apply negb_true_iff in H
  | H : negb _ = false |- _ => apply negb_false_iff in H
  | H : (_ <=? _)%Z = true |- _ => apply Z.leb_le in H
  | H : (_ <=? _)%Z = false |- _ => apply Z.leb_gt in H
  | H : (_ <? _)%Z = true |- _ => apply Z.ltb_lt in H
  | H : (_ <? _)%Z = false |- _ => apply Z.ltb_ge in H
  | H : (_ =? _)%Z = true |- _ => apply Z.eqb_eq in H
  | H : (_ =? _)%Z = false |- _ => apply Z.eqb_neq in H
  | H : (_ <=? _)%nat = true |- _ => apply Nat.leb_le in H
  | H : (_ <=? _)%nat = false |- _ => apply Nat.leb_gt in H
  | H : (_ <? _)%nat = true |- _ => apply Nat.ltb_lt in H
  | H : (_ <? _)%nat = false |- _ => apply Nat.ltb_ge in H
  | H : bool_decide _ = true |- _ => apply bool_decide_eq_true in H
  | H : bool_decide _ = false |- _ => apply bool_decide_eq_false in H
  end.

(** ** JavaScript strings

    A string is a sequence of code units; the model's units are the 256
    values of [ascii]. *)

Fixpoint str_mem (c : ascii) (s : string) : bool :=
  match s with
  | EmptyString => false
  | String a s' => bool_decide (a = c) || str_mem c s'
  end.

(** [s.split(c)] for a one-unit separator: never empty. *)
Fixpoint split_on (c : ascii) (s : string) : list string :=
  match s with
  | EmptyString => [""%string]
  | String a s' =>
      if bool_decide (a = c) then ""%string :: split_on c s'
      else match split_on c s' with
           | [] => [String a ""]
           | p :: ps => String a p :: ps
           end
  end.

(** [parts.join(sep)] *)
Fixpoint str_join (sep : string) (parts : list string) : string :=
  match parts with
  | [] => ""
  | [p] => p
  | p :: ps => p +:+ sep +:+ str_join sep ps
  end.

(** [s.startsWith(p)] *)
Fixpoint starts_with (p s : string) : bool :=
  match p, s with
  | EmptyString, _ => true
  | String a p', String b s' => bool_decide (a = b) && starts_with p' s'
  | _, EmptyString => false
  end.

(** [s.slice(n)] / [s.substring(n)] for [n >= 0] *)
Fixpoint str_drop (n : nat) (s : string) : string :=
  match n, s with
  | O, _ => s
  | S n', String _ s' => str_drop n' s'
  | S _, EmptyString => ""
  end.

(** [s.slice(0, n)] / [s.substring(0, n)] for [n >= 0] *)
Fixpoint str_take (n : nat) (s : string) : string :=
  match n, s with
  | S n', String a s' => String a (str_take n' s')
  | _, _ => ""
  end.

(** [s.slice(-n)] for [n > 0] *)
Definition str_last (n : nat) (s : string) : string :=
  str_drop (String.length s - n) s.

(** [s.endsWith(p)] *)
Definition ends_with (p s : string) : bool :=
  (String.length p <=? String.length s)%nat
  && bool_decide (str_last (String.length p) s = p \/ p = ""%string).

(** [s.includes(p)] *)
Fixpoint includes (p s : string) : bool :=
  starts_with p s ||
  match s with
  | EmptyString => false
  | String _ s' => includes p s'
  end.

(** [s.indexOf(p)], as an option instead of [-1] *)
Fixpoint index_of (p s : string) : option nat :=
  if starts_with p s then Some O
  else match s with
       | EmptyString => None
       | String _ s' => S <$> index_of p s'
       end.

(** [s.lastIndexOf(p)], as an option instead of [-1] *)
Fixpoint last_index_of (p s : string) : option nat :=
  match s with
  | EmptyString => if starts_with p s then Some O else None
  | String _ s' =>
      match last_index_of p s' with
      | Some n => Some (S n)
      | None => if starts_with p s then Some O else None
      end
  end.

Definition lower_ascii (c : ascii) : ascii :=
  let n := nat_of_ascii c in
  if ((65 <=? n) && (n <=? 90))%nat then ascii_of_nat (n + 32) else c.

(** [s.toLowerCase()] on the basic Latin letters *)
Fixpoint to_lower (s : string) : string :=
  match s with
  | EmptyString => ""
  | String a s' => String (lower_ascii a) (to_lower s')
  end.

Definition str_eqb (a b : string) : bool := bool_decide (a = b).

(** JavaScript truthiness of a string: the empty string is falsy. *)
Definition truthy_str (s : string) : bool := negb (str_eqb s "").

(** JavaScript truthiness of a nullable string *)
Definition truthy_ostr (o : option string) : bool :=
  match o with Some s => truthy_str s | None => false end.

(** Code-unit order of strings, the order [Array.prototype.sort] uses. *)
Fixpoint str_leb (a b : string) : bool :=
  match a, b with
  | EmptyString, _ => true
  | String _ _, EmptyString => false
  | String x a', String y b' =>
      match Nat.compare (nat_of_ascii x) (nat_of_ascii y) with
      | Lt => true
      | Gt => false
      | Eq => str_leb a' b'
      end
  end.

(** ** Sorting: stable insertion sort by a boolean order *)

Section InsertionSort.
Context {A : Type} (leb : A -> A -> bool).

Fixpoint isort_insert (x : A) (l : list A) : list A :=
  match l with
  | [] => [x]
  | y :: ys => if leb x y then x :: y :: ys else y :: isort_insert x ys
  end.

(** [arr.sort(cmp)]: the sort is stable, elements compared equal keep
    their order. *)
Fixpoint isort (l : list A) : list A :=
  match l with
  | [] => []
  | x :: xs => isort_insert x (isort xs)
  end.
End InsertionSort.

(** ** Generic lemmas: strings *)

Lemma str_app_nil_r (s : string) : s +:+ "" = s.
Proof. induction s as [|a s IH]; [done|]. change (String a (s +:+ "") = String a s). by rewrite IH. Qed.

Lemma str_app_assoc (a b c : string) : (a +:+ b) +:+ c = a +:+ (b +:+ c).
Proof. induction a as [|x a IH]; [done|]. change (String x ((a +:+ b) +:+ c) = String x (a +:+ (b +:+ c))). by rewrite IH. Qed.

Lemma str_app_inv_head (a b c : string) : a +:+ b = a +:+ c -> b = c.
Proof. induction a as [|x a IH]; [done|]. intros H. apply IH. by injection H. Qed.

Lemma str_length_app (a b : string) :
  String.length (a +:+ b) = (String.length a + String.length b)%nat.
Proof. induction a as [|x a IH]; [done|]. change (S (String.length (a +:+ b)) = S (String.length a + String.length b)). by rewrite IH. Qed.

Lemma str_mem_app (c : ascii) (a b : string) :
  str_mem c (a +:+ b) = str_mem c a || str_mem c b.
Proof.
  induction a as [|x a IH]; [done|].
  change (bool_decide (x = c) || str_mem c (a +:+ b)
          = (bool_decide (x = c) || str_mem c a) || str_mem c b).
  rewrite IH. by rewrite orb_assoc.
Qed.

(** The fundamental fact of separated keys: a separator that occurs in
    neither first component determines where they end. *)
Lemma str_sep_inj (c : ascii) (a b x y : string) :
  str_mem c a = false -> str_mem c b = false ->
  a +:+ String c x = b +:+ String c y -> a = b /\ x = y.
Proof.
  revert b. induction a as [|u a IH]; intros [|v b] Ha Hb Heq.
  - by injection Heq.
  - injection Heq as -> _. cbn in Hb. by rewrite bool_decide_true in Hb.
  - injection Heq as -> _. cbn in Ha. by rewrite bool_decide_true in Ha.
  - injection Heq as -> Heq. cbn in Ha, Hb.
    apply orb_false_iff in Ha as [_ Ha]. apply orb_false_iff in Hb as [_ Hb].
    destruct (IH b Ha Hb Heq) as [-> ->]. done.
Qed.

(** The same from the right: a separator absent from both last components. *)
Lemma str_sep_inj_r (c : ascii) (a b x y : string) :
  str_mem c x = false -> str_mem c y = false ->
  a +:+ String c x = b +:+ String c y -> a = b /\ x = y.
Proof.
  revert b. induction a as [|u a IH]; intros [|v b] Hx Hy Heq.
  - by injection Heq.
  - injection Heq as <- Heq. subst x. rewrite str_mem_app in Hx. cbn in Hx.
    rewrite bool_decide_true in Hx by done. by rewrite orb_true_r in Hx.
  - injection Heq as -> Heq. rewrite <- Heq, str_mem_app in Hy. cbn in Hy.
    rewrite bool_decide_true in Hy by done. by rewrite orb_true_r in Hy.
  - injection Heq as -> Heq. destruct (IH b Hx Hy Heq) as [-> ->]. done.
Qed.

Lemma starts_with_app (p s : string) : starts_with p (p +:+ s) = true.
Proof.
  induction p as [|a p IH]; [by destruct s|].
  change (bool_decide (a = a) && starts_with p (p +:+ s) = true).
  by rewrite bool_decide_true, IH.
Qed.

Lemma starts_with_spec (p s : string) :
  starts_with p s = true <-> exists t, s = p +:+ t.
Proof.
  split.
  - revert s. induction p as [|a p IH]; intros s H; [by exists s|].
    destruct s as [|b s]; [done|]. cbn in H. to_prop. subst.
    match goal with H' : starts_with p s = true |- _ => destruct (IH _ H') as [t ->] end.
    by exists t.
  - intros [t ->]. apply starts_with_app.
Qed.

Lemma str_drop_app (p s : string) : str_drop (String.length p) (p +:+ s) = s.
Proof. induction p as [|a p IH]; [by destruct s|]. exact IH. Qed.

Lemma str_take_app (p s : string) : str_take (String.length p) (p +:+ s) = p.
Proof.
  induction p as [|a p IH]; [by destruct s|].
  change (String a (str_take (String.length p) (p +:+ s)) = String a p). by rewrite IH.
Qed.

Lemma str_take_drop (n : nat) (s : string) : str_take n s +:+ str_drop n s = s.
Proof.
  revert s. induction n as [|n IH]; intros [|a s]; [done..|].
  change (String a (str_take n s +:+ str_drop n s) = String a s). by rewrite IH.
Qed.

Lemma str_length_take (n : nat) (s : string) :
  String.length (str_take n s) = Nat.min n (String.length s).
Proof. revert s. induction n as [|n IH]; intros [|a s]; [done..|]. cbn. by rewrite IH. Qed.

Lemma str_eqb_eq (a b : string) : str_eqb a b = true <-> a = b.
Proof. unfold str_eqb. apply bool_decide_eq_true. Qed.

Lemma str_eqb_refl (a : string) : str_eqb a a = true.
Proof. by apply str_eqb_eq. Qed.

Lemma str_eqb_neq (a b : string) : str_eqb a b = false <-> a <> b.
Proof. unfold str_eqb. apply bool_decide_eq_false. Qed.

#[export] Hint Rewrite str_app_nil_r str_app_assoc str_length_app str_mem_app
  str_eqb_refl : peta_rw.

(** Splitting at a separator undoes joining, when no part contains it. *)
Lemma split_on_nosep (c : ascii) (s : string) :
  str_mem c s = false -> split_on c s = [s].
Proof.
  induction s as [|a s IH]; [done|]. cbn. intros H.
  apply orb_false_iff in H as [Ha Hs]. by rewrite Ha, (IH Hs).
Qed.

Lemma split_on_cons (c : ascii) (a s : string) :
  str_mem c a = false -> split_on c (a +:+ String c s) = a :: split_on c s.
Proof.
  induction a as [|x a IH]; intros H.
  - change (split_on c (String c s) = ""%string :: split_on c s). cbn.
    by rewrite bool_decide_true.
  - cbn in H. apply orb_false_iff in H as [Hx Ha].
    change (split_on c (String x (a +:+ String c s)) = String x a :: split_on c s).
    cbn. by rewrite Hx, (IH Ha).
Qed.

Lemma split_join (c : ascii) (parts : list string) :
  parts <> [] -> Forall (fun p => str_mem c p = false) parts ->
  split_on c (str_join (String c "") parts) = parts.
Proof.
  induction parts as [|p ps IH]; [done|]. intros _ H.
  apply Forall_cons in H as [Hp Hps]. destruct ps as [|q ps].
  - cbn. by apply split_on_nosep.
  - change (split_on c (p +:+ String c (str_join (String c "") (q :: ps))) = p :: q :: ps).
    rewrite split_on_cons by done. by rewrite IH.
Qed.

(** ** Generic lemmas: sorting *)

Section SortLemmas.
Context {A : Type} (leb : A -> A -> bool).

Lemma isort_insert_perm (x : A) (l : list A) : isort_insert leb x l ≡ₚ x :: l.
Proof.
  induction l as [|y l IH]; [done|]. cbn. destruct (leb x y); [done|].
  rewrite IH. constructor.
Qed.

Lemma isort_perm (l : list A) : isort leb l ≡ₚ l.
Proof. induction l as [|x l IH]; [done|]. cbn. by rewrite isort_insert_perm, IH. Qed.

Hypothesis leb_total : forall x y, leb x y = true \/ leb y x = true.
Hypothesis leb_trans : forall x y z, leb x y = true -> leb y z = true -> leb x z = true.

Lemma isort_insert_sorted (x : A) (l : list A) :
  StronglySorted (fun a b => leb a b = true) l ->
  StronglySorted (fun a b => leb a b = true) (isort_insert leb x l).
Proof using leb_total leb_trans.
  induction 1 as [|y l Hl IH Hy]; [by repeat constructor|].
  cbn. destruct (leb x y) eqn:Hxy.
  - constructor; [by constructor|]. constructor; [done|].
    eapply Forall_impl; [exact Hy|]. eauto.
  - constructor; [done|]. rewrite isort_insert_perm. constructor; [|done].
    destruct (leb_total x y); congruence.
Qed.

Lemma isort_sorted (l : list A) : StronglySorted (fun a b => leb a b = true) (isort leb l).
Proof using leb_total leb_trans.
  induction l as [|x l IH]; [constructor|]. by apply isort_insert_sorted.
Qed.

Hypothesis leb_antisym : forall x y, leb x y = true -> leb y x = true -> x = y.

(** Two sorted permutations of one another are the same list. *)
Lemma sorted_perm_unique (l k : list A) :
  StronglySorted (fun a b => leb a b = true) l ->
  StronglySorted (fun a b => leb a b = true) k -> l ≡ₚ k -> l = k.
Proof using leb_antisym leb_total leb_trans.
  intros Hl. revert k. induction Hl as [|x l Hl IH Hx]; intros k Hk Hp.
  - by apply Permutation_nil in Hp.
  - destruct Hk as [|y k Hk Hy]; [by apply Permutation_sym, Permutation_nil in Hp|].
    assert (x = y) as ->.
    { assert (Hin : x ∈ y :: k) by (rewrite <- Hp; apply elem_of_cons; by left).
      assert (Hin' : y ∈ x :: l) by (rewrite Hp; apply elem_of_cons; by left).
      apply elem_of_cons in Hin as [->|Hin]; [done|].
      apply elem_of_cons in Hin' as [->|Hin']; [done|].
      rewrite Forall_forall in Hx, Hy. apply leb_antisym; auto. }
    f_equal. apply IH; [done|]. by apply Permutation_cons_inv in Hp.
Qed.

Lemma isort_perm_eq (l k : list A) : l ≡ₚ k -> isort leb l = isort leb k.
Proof using leb_antisym leb_total leb_trans.
  intros Hp. apply sorted_perm_unique; [apply isort_sorted..|].
  by rewrite !isort_perm.
Qed.
End SortLemmas.

#[export] Hint Unfold is_ok : peta.

Lemma nat_of_ascii_inj (x y : ascii) : nat_of_ascii x = nat_of_ascii y -> x = y.
Proof. intros H. by rewrite <- (ascii_nat_embedding x), <- (ascii_nat_embedding y), H. Qed.

Lemma str_leb_total (a b : string) : str_leb a b = true \/ str_leb b a = true.
Proof.
  revert b. induction a as [|x a IH]; intros [|y b]; cbn -[nat_of_ascii]; [by auto..|].
  rewrite (Nat.compare_antisym (nat_of_ascii x) (nat_of_ascii y)).
  destruct (Nat.compare (nat_of_ascii x) (nat_of_ascii y)); cbn; auto.
Qed.

Lemma str_leb_trans (a b c : string) :
  str_leb a b = true -> str_leb b c = true -> str_leb a c = true.
Proof.
  revert b c. induction a as [|x a IH]; intros [|y b] [|z c];
    cbn -[nat_of_ascii Nat.compare]; try done.
  destruct (Nat.compare_spec (nat_of_ascii x) (nat_of_ascii y)),
    (Nat.compare_spec (nat_of_ascii y) (nat_of_ascii z)),
    (Nat.compare_spec (nat_of_ascii x) (nat_of_ascii z)); try done; try lia.
  eauto.
Qed.

Lemma str_leb_antisym (a b : string) : str_leb a b = true -> str_leb b a = true -> a = b.
Proof.
  revert b. induction a as [|x a IH]; intros [|y b]; cbn -[nat_of_ascii Nat.compare]; try done.
  rewrite (Nat.compare_antisym (nat_of_ascii x) (nat_of_ascii y)).
  destruct (Nat.compare_spec (nat_of_ascii x) (nat_of_ascii y)) as [E| |]; cbn; try done.
  intros. f_equal; [by apply nat_of_ascii_inj|by apply IH].
Qed.

Lemma str_leb_refl (a : string) : str_leb a a = true.
Proof. destruct (str_leb_total a a); done. Qed.

(** ** Generic lemmas: parts of lists in their order *)

Lemma fold_left_inv {A B} (f : A -> B -> A) (P : A -> Prop) (l : list B) (a : A) :
  (forall a b, P a -> P (f a b)) -> P a -> P (fold_left f l a).
Proof. intros Hf. revert a. induction l as [|b l IH]; cbn; auto. Qed.

Lemma filter_sublist {A} (p : A -> bool) (l : list A) : List.filter p l `sublist_of` l.
Proof. induction l as [|x l IH]; [done|]. cbn. destruct (p x); by constructor. Qed.

Lemma map_sublist {A B} (f : A -> B) (l k : list A) : l `sublist_of` k -> map f l `sublist_of` map f k.
Proof. induction 1; cbn; by constructor. Qed.

Lemma omap_sublist {A B} (f : A -> option B) (l k : list A) : l `sublist_of` k -> omap f l `sublist_of` omap f k.
Proof. induction 1 as [|x l k _ IH|x l k _ IH]; cbn; [done|destruct (f x); [by constructor|done]..]. Qed.

Lemma filter_sublist_mono {A} (p : A -> bool) (l k : list A) :
  l `sublist_of` k -> List.filter p l `sublist_of` List.filter p k.
Proof. induction 1 as [|x l k _ IH|x l k _ IH]; cbn; [done|destruct (p x); [by constructor|done]..]. Qed.

Lemma sorted_sublist {A} (R : A -> A -> Prop) (l k : list A) :
  l `sublist_of` k -> StronglySorted R k -> StronglySorted R l.
Proof.
  induction 1 as [|x l k Hs IH|x l k Hs IH]; intros Hk; [done| |].
  - apply StronglySorted_inv in Hk as [Hk Hx]. constructor; [by apply IH|].
    apply Forall_forall. intros y Hy. rewrite Forall_forall in Hx. apply Hx. by eapply elem_of_sublist.
  - apply StronglySorted_inv in Hk as [Hk _]. by apply IH.
Qed.
