(* ===== verification/Json.v ===== *)
(** * JavaScript values, [JSON.stringify] / [JSON.parse] and canonical forms

    The values that tool arguments and results are made of, objects with
    their own-property order, the two JSON functions of the language, and the
    key-sorting canonicalisation that the approval hasher
    ([src/src/mcp/services/ApprovalRequestHasher.ts]) is built on.  Numbers are
    the integers; strings are sequences of code units below 256. *)
From Stdlib Require Import Ascii ZArith Lia Sorted DecimalString DecimalZ DecimalFacts.
From stdpp Require Import base gmap strings list fin_maps.
From S2P Require Import Prelude.

Open Scope Z_scope.

Inductive json : Type :=
| JUndefined
| JNull
| JBool (b : bool)
| JNum (n : Z)
| JStr (s : string)
| JArr (l : list json)
| JObj (kvs : list (string * json)).

(** The induction principle with the hypotheses for the nested lists. *)
Section JsonInd.
Variable P : json -> Prop.
Hypothesis HUndefined : P JUndefined.
Hypothesis HNull : P JNull.
Hypothesis HBool : forall b, P (JBool b).
Hypothesis HNum : forall n, P (JNum n).
Hypothesis HStr : forall s, P (JStr s).
Hypothesis HArr : forall l, Forall P l -> P (JArr l).
Hypothesis HObj : forall kvs, Forall (fun kv => P (snd kv)) kvs -> P (JObj kvs).

Fixpoint json_ind' (v : json) : P v :=
  match v with
  | JUndefined => HUndefined
  | JNull => HNull
  | JBool b => HBool b
  | JNum n => HNum n
  | JStr s => HStr s
  | JArr l =>
      HArr l ((fix go l : Forall P l :=
                 match l with
                 | [] => Forall_nil_2 _
                 | x :: xs => Forall_cons_2 _ _ _ (json_ind' x) (go xs)
                 end) l)
  | JObj kvs =>
      HObj kvs ((fix go kvs : Forall (fun kv => P (snd kv)) kvs :=
                   match kvs with
                   | [] => Forall_nil_2 _
                   | kv :: kvs' => Forall_cons_2 _ _ _ (json_ind' (snd kv)) (go kvs')
                   end) kvs)
  end.
End JsonInd.

Fixpoint json_eqb (v w : json) : bool :=
  match v, w with
  | JUndefined, JUndefined | JNull, JNull => true
  | JBool a, JBool b => Bool.eqb a b
  | JNum a, JNum b => a =? b
  | JStr a, JStr b => str_eqb a b
  | JArr l, JArr k =>
      (fix go l k := match l, k with
                     | [], [] => true
                     | x :: l', y :: k' => json_eqb x y && go l' k'
                     | _, _ => false
                     end) l k
  | JObj l, JObj k =>
      (fix go l k := match l, k with
                     | [], [] => true
                     | (a, x) :: l', (b, y) :: k' => str_eqb a b && json_eqb x y && go l' k'
                     | _, _ => false
                     end) l k
  | _, _ => false
  end.

Lemma json_eqb_eq (v w : json) : json_eqb v w = true <-> v = w.
Proof.
  split.
  - revert w. induction v as [| |b|n|s|l IH|kvs IH] using json_ind';
      intros [| |b'|n'|s'|l'|kvs']; cbn; try done.
    + by intros ->%eqb_prop.
    + by intros ->%Z.eqb_eq.
    + by intros ->%str_eqb_eq.
    + intros H. f_equal. revert l' H. induction IH as [|x l Hx Hl IHl]; intros [|y l']; try done.
      intros H. to_prop. f_equal; auto.
    + intros H. f_equal. revert kvs' H.
      induction IH as [|[a x] l Hx Hl IHl]; intros [|[b y] l']; try done.
      intros H. to_prop. f_equal; [|by auto]. f_equal; [by apply str_eqb_eq|by apply Hx].
  - intros <-. induction v as [| |b|n|s|l IH|kvs IH] using json_ind'; cbn; try done.
    + apply eqb_reflx.
    + apply Z.eqb_refl.
    + apply str_eqb_refl.
    + induction IH as [|x l Hx Hl IHl]; [done|]. by rewrite Hx, IHl.
    + induction IH as [|[a x] l Hx Hl IHl]; [done|]. cbn in Hx. by rewrite str_eqb_refl, Hx, IHl.
Qed.

#[export] Instance json_eq_dec : EqDecision json.
Proof.
  intros v w. destruct (json_eqb v w) eqn:H.
  - left. by apply json_eqb_eq.
  - right. intros E. apply json_eqb_eq in E. congruence.
Defined.

(** ** Objects: own properties and their order *)

Definition keys {A} (kvs : list (string * A)) : list string := map fst kvs.

Fixpoint assoc {A} (k : string) (kvs : list (string * A)) : option A :=
  match kvs with
  | [] => None
  | (k', v) :: kvs' => if str_eqb k k' then Some v else assoc k kvs'
  end.

(** An array index is the decimal numeral of an integer below 2^32 - 1;
    such properties come first, in numeric order. *)
Definition array_index (k : string) : option N :=
  match NilEmpty.uint_of_string k with
  | Some d =>
      let n := N.of_uint d in
      if str_eqb (NilZero.string_of_uint (N.to_uint n)) k && (n <? 4294967295)%N
      then Some n else None
  | None => None
  end.

(** Where a new property named [k] goes: before [k'] or after it. *)
Definition goes_before (k k' : string) : bool :=
  match array_index k, array_index k' with
  | Some n, Some n' => (n <? n')%N
  | Some _, None => true
  | None, _ => false
  end.

(** [CreateDataProperty]: overwrite in place, or add at the place the
    property order gives it. *)
Fixpoint obj_put {A} (k : string) (v : A) (kvs : list (string * A)) : list (string * A) :=
  match kvs with
  | [] => [(k, v)]
  | (k', v') :: kvs' =>
      if str_eqb k k' then (k, v) :: kvs'
      else if goes_before k k' && negb (existsb (fun kv => str_eqb k (fst kv)) kvs')
      then (k, v) :: (k', v') :: kvs'
      else (k', v') :: obj_put k v kvs'
  end.

(** [Object.fromEntries(entries)] *)
Definition from_entries {A} (kvs : list (string * A)) : list (string * A) :=
  fold_left (fun o kv => obj_put (fst kv) (snd kv) o) kvs [].

(** [o[k] = v] on an object literal: a property named [__proto__] is not
    created (the assignment sets the prototype or does nothing). *)
Definition obj_assign {A} (k : string) (v : A) (kvs : list (string * A)) :=
  if str_eqb k "__proto__" then kvs else obj_put k v kvs.

(** [Object.assign({}, o)], property by property. *)
Definition assign_all {A} (kvs : list (string * A)) : list (string * A) :=
  fold_left (fun o kv => obj_assign (fst kv) (snd kv) o) kvs [].

(** Property order of an object: array indices ascending, then the rest. *)
Fixpoint js_ordered {A} (kvs : list (string * A)) : bool :=
  match kvs with
  | [] => true
  | (k, _) :: kvs' => forallb (fun kv => negb (goes_before (fst kv) k)) kvs' && js_ordered kvs'
  end.

(** ** JSON.stringify *)

Definition hex_digit (n : nat) : ascii :=
  match String.get n "0123456789abcdef" with Some c => c | None => "0"%char end.

(** The escape of one code unit inside a JSON string. *)
Definition escape_unit (c : ascii) : string :=
  let n := nat_of_ascii c in
  if (n =? 34)%nat then String "\" (String c "")
  else if (n =? 92)%nat then String "\" (String c "")
  else if (n =? 8)%nat then "\b"
  else if (n =? 12)%nat then "\f"
  else if (n =? 10)%nat then "\n"
  else if (n =? 13)%nat then "\r"
  else if (n =? 9)%nat then "\t"
  else if (n <? 32)%nat then
    "\u00" +:+ String (hex_digit (n / 16)) (String (hex_digit (n mod 16)) "")
  else String c "".

Fixpoint escape (s : string) : string :=
  match s with
  | EmptyString => ""
  | String c s' => escape_unit c +:+ escape s'
  end.

Definition dquote : ascii := "034"%char.

Definition quote (s : string) : string := String dquote (escape s +:+ String dquote "").

Definition z_to_string (z : Z) : string := NilZero.string_of_int (Z.to_int z).

(** ** Coercions *)

Definition js_truthy (v : json) : bool :=
  match v with
  | JUndefined | JNull => false
  | JBool b => b
  | JNum n => negb (n =? 0)
  | JStr s => truthy_str s
  | JArr _ | JObj _ => true
  end.

(** [String(v)] *)
Fixpoint js_String (v : json) : string :=
  match v with
  | JUndefined => "undefined"
  | JNull => "null"
  | JBool b => if b then "true" else "false"
  | JNum n => z_to_string n
  | JStr s => s
  | JArr l => str_join "," (map (fun x => match x with
                                          | JUndefined | JNull => ""%string
                                          | _ => js_String x
                                          end) l)
  | JObj _ => "[object Object]"
  end.

(** [v.k]: reading a property of [undefined] or [null] throws. *)
Definition jfield (v : json) (k : string) : option json :=
  match v with
  | JUndefined | JNull => None
  | JObj kvs => Some (default JUndefined (assoc k kvs))
  | _ => Some JUndefined
  end.

(** [v?.k] *)
Definition jfield_opt (v : json) (k : string) : json := default JUndefined (jfield v k).

(** [v === w] for values of different origin: two objects are never the same
    one. *)
Definition js_strict_eq (v w : json) : bool :=
  match v with JArr _ | JObj _ => false | _ => json_eqb v w end.

(** [v ?? undefined] *)
Definition nullish_undefined (v : json) : json := match v with JNull => JUndefined | _ => v end.

(** [typeof v === 'string'] *)
Definition is_string (v : json) : bool := match v with JStr _ => true | _ => false end.

Fixpoint JSON_stringify (v : json) : option string :=
  match v with
  | JUndefined => None
  | JNull => Some "null"%string
  | JBool b => Some (if b then "true" else "false")%string
  | JNum n => Some (z_to_string n)
  | JStr s => Some (quote s)
  | JArr l =>
      Some ("[" +:+ str_join "," (map (fun x => match JSON_stringify x with
                                            | Some t => t
                                            | None => "null"%string
                                            end) l) +:+ "]")
  | JObj kvs =>
      Some ("{" +:+ str_join "," (flat_map (fun kv => match JSON_stringify (snd kv) with
                                                  | Some t => [quote (fst kv) +:+ ":" +:+ t]
                                                  | None => []
                                                  end) kvs) +:+ "}")
  end.

(** ** JSON.parse *)

Definition is_ws (c : ascii) : bool :=
  let n := nat_of_ascii c in
  ((n =? 32) || (n =? 9) || (n =? 10) || (n =? 13))%nat.

Fixpoint skip_ws (s : string) : string :=
  match s with
  | String c s' => if is_ws c then skip_ws s' else s
  | EmptyString => ""
  end.

Definition hex_value (c : ascii) : option nat :=
  let n := nat_of_ascii c in
  if ((48 <=? n) && (n <=? 57))%nat then Some (n - 48)%nat
  else if ((97 <=? n) && (n <=? 102))%nat then Some (n - 87)%nat
  else if ((65 <=? n) && (n <=? 70))%nat then Some (n - 55)%nat
  else None.

(** One unit of a JSON string body, escapes decoded; [None] at the closing
    quote, at a raw control unit or at a bad escape. *)
Definition parse_unit (s : string) : option (ascii * string) :=
  match s with
  | EmptyString => None
  | String c s' =>
      if (nat_of_ascii c =? 34)%nat then None
      else if (nat_of_ascii c =? 92)%nat then
        match s' with
        | String e s'' =>
            let n := nat_of_ascii e in
            if ((n =? 34) || (n =? 92) || (n =? 47))%nat then Some (e, s'')
            else if (n =? 98)%nat then Some (ascii_of_nat 8, s'')
            else if (n =? 102)%nat then Some (ascii_of_nat 12, s'')
            else if (n =? 110)%nat then Some (ascii_of_nat 10, s'')
            else if (n =? 114)%nat then Some (ascii_of_nat 13, s'')
            else if (n =? 116)%nat then Some (ascii_of_nat 9, s'')
            else if (n =? 117)%nat then
              match s'' with
              | String h1 (String h2 (String h3 (String h4 s4))) =>
                  match hex_value h1, hex_value h2, hex_value h3, hex_value h4 with
                  | Some O, Some O, Some a, Some b => Some (ascii_of_nat (a * 16 + b), s4)
                  | _, _, _, _ => None
                  end
              | _ => None
              end
            else None
        | EmptyString => None
        end
      else if (nat_of_ascii c <? 32)%nat then None
      else Some (c, s')
  end.

Fixpoint parse_string_body (fuel : nat) (s : string) : option (string * string) :=
  match fuel with
  | O => None
  | S fuel' =>
      match parse_unit s with
      | Some (c, s') =>
          match parse_string_body fuel' s' with
          | Some (t, r) => Some (String c t, r)
          | None => None
          end
      | None =>
          match s with
          | String c s' => if (nat_of_ascii c =? 34)%nat then Some (""%string, s') else None
          | EmptyString => None
          end
      end
  end.

Definition is_num_unit (c : ascii) : bool :=
  let n := nat_of_ascii c in
  (((48 <=? n) && (n <=? 57)) || (n =? 45) || (n =? 43) || (n =? 46)
   || (n =? 101) || (n =? 69))%nat.

Fixpoint span_num (s : string) : string * string :=
  match s with
  | String c s' =>
      if is_num_unit c then let '(a, b) := span_num s' in (String c a, b) else (""%string, s)
  | EmptyString => (""%string, ""%string)
  end.

(** An integer literal in canonical form; other number notations are outside
    the fragment and rejected. *)
Definition parse_num (s : string) : option (json * string) :=
  let '(a, r) := span_num s in
  match NilZero.int_of_string a with
  | Some i =>
      let z := Z.of_int i in
      if str_eqb (z_to_string z) a then Some (JNum z, r) else None
  | None => None
  end.

Definition head_is (c : ascii) (s : string) : option string :=
  match s with
  | String a s' => if bool_decide (a = c) then Some s' else None
  | EmptyString => None
  end.

Definition literal (lit s : string) : option string :=
  if starts_with lit s then Some (str_drop (String.length lit) s) else None.

Fixpoint parse_value (fuel : nat) (s : string) : option (json * string) :=
  match fuel with
  | O => None
  | S f =>
      let s := skip_ws s in
      match literal "null" s, literal "true" s, literal "false" s,
            head_is dquote s, head_is "["%char s, head_is "{"%char s with
      | Some r, _, _, _, _, _ => Some (JNull, r)
      | _, Some r, _, _, _, _ => Some (JBool true, r)
      | _, _, Some r, _, _, _ => Some (JBool false, r)
      | _, _, _, Some r, _, _ =>
          match parse_string_body (S (String.length r)) r with
          | Some (t, r') => Some (JStr t, r')
          | None => None
          end
      | _, _, _, _, Some r, _ =>
          match head_is "]"%char (skip_ws r) with
          | Some r' => Some (JArr [], r')
          | None => match parse_elems f r with
                    | Some (l, r') => Some (JArr l, r')
                    | None => None
                    end
          end
      | _, _, _, _, _, Some r =>
          match head_is "}"%char (skip_ws r) with
          | Some r' => Some (JObj [], r')
          | None => match parse_members f r with
                    | Some (l, r') => Some (JObj (from_entries l), r')
                    | None => None
                    end
          end
      | _, _, _, _, _, _ => parse_num s
      end
  end
with parse_elems (fuel : nat) (s : string) : option (list json * string) :=
  match fuel with
  | O => None
  | S f =>
      match parse_value f s with
      | Some (v, r) =>
          match head_is ","%char (skip_ws r), head_is "]"%char (skip_ws r) with
          | Some r', _ => match parse_elems f r' with
                          | Some (l, r'') => Some (v :: l, r'')
                          | None => None
                          end
          | None, Some r' => Some ([v], r')
          | None, None => None
          end
      | None => None
      end
  end
with parse_members (fuel : nat) (s : string) : option (list (string * json) * string) :=
  match fuel with
  | O => None
  | S f =>
      match head_is dquote (skip_ws s) with
      | None => None
      | Some r0 =>
          match parse_string_body (S (String.length r0)) r0 with
          | None => None
          | Some (k, r1) =>
              match head_is ":"%char (skip_ws r1) with
              | None => None
              | Some r2 =>
                  match parse_value f r2 with
                  | Some (v, r) =>
                      match head_is ","%char (skip_ws r), head_is "}"%char (skip_ws r) with
                      | Some r', _ => match parse_members f r' with
                                      | Some (l, r'') => Some ((k, v) :: l, r'')
                                      | None => None
                                      end
                      | None, Some r' => Some ([(k, v)], r')
                      | None, None => None
                      end
                  | None => None
                  end
              end
          end
      end
  end.

(** [JSON.parse(s)]; [None] models the SyntaxError. *)
Definition JSON_parse (s : string) : option json :=
  match parse_value (S (String.length s)) s with
  | Some (v, r) => if str_eqb (skip_ws r) "" then Some v else None
  | None => None
  end.

(** ** Well-formed values *)

(** No undefined inside, and objects have distinct keys in property order:
    what [JSON.parse] builds, and what a tool call's arguments are. *)
Fixpoint is_json (v : json) : bool :=
  match v with
  | JUndefined => false
  | JNull | JBool _ | JNum _ | JStr _ => true
  | JArr l => forallb is_json l
  | JObj kvs => forallb (fun kv => is_json (snd kv)) kvs
                && bool_decide (NoDup (keys kvs)) && js_ordered kvs
  end.

(** ** Canonical form: object keys sorted at every level *)

(** [sortKeys] of the approval hasher. *)
Fixpoint sortKeys (obj : json) : json :=
  match obj with
  | JObj kvs =>
      let sorted := map (fun kv => (fst kv, sortKeys (snd kv))) kvs in
      JObj (from_entries
              (map (fun key => (key, match assoc key sorted with
                                     | Some v => v
                                     | None => JUndefined
                                     end))
                   (isort str_leb (keys kvs))))
  | JArr l => JArr (map sortKeys l)
  | _ => obj
  end.

(** Values that differ only in the order of object properties. *)
Inductive json_equiv : json -> json -> Prop :=
| JE_atom v : json_equiv v v
| JE_arr l k : Forall2 json_equiv l k -> json_equiv (JArr l) (JArr k)
| JE_obj l l' k :
    Forall2 (fun a b => fst a = fst b /\ json_equiv (snd a) (snd b)) l l' ->
    l' ≡ₚ k -> json_equiv (JObj l) (JObj k).

(** ** Lemmas: association lists and property order *)

Section AssocLemmas.
Context {A : Type}.
Implicit Types kvs l : list (string * A).

Lemma keys_app l kvs : keys (l ++ kvs) = keys l ++ keys kvs.
Proof. apply map_app. Qed.

Lemma assoc_None k kvs : assoc k kvs = None <-> ~ In k (keys kvs).
Proof.
  induction kvs as [|[a x] kvs IH]; cbn; [tauto|].
  destruct (str_eqb k a) eqn:E.
  - apply str_eqb_eq in E as ->. split; [done|]. tauto.
  - apply str_eqb_neq in E. rewrite IH. intuition congruence.
Qed.

Lemma assoc_In k v kvs : assoc k kvs = Some v -> In (k, v) kvs.
Proof.
  induction kvs as [|[a x] kvs IH]; cbn; [done|].
  destruct (str_eqb k a) eqn:E; [|by auto].
  apply str_eqb_eq in E as ->. intros [= ->]. by left.
Qed.

Lemma In_assoc k v kvs : NoDup (keys kvs) -> In (k, v) kvs -> assoc k kvs = Some v.
Proof.
  induction kvs as [|[a x] kvs IH]; cbn; [done|].
  intros Hnd [[= <- <-]|Hin]; [by rewrite str_eqb_refl|].
  inversion_clear Hnd as [|? ? Ha Hnd']. destruct (str_eqb k a) eqn:E; [|by auto].
  apply str_eqb_eq in E as ->. exfalso. apply Ha, list_elem_of_In.
  apply in_map_iff. by exists (a, v).
Qed.

Lemma obj_put_fresh k v kvs : ~ In k (keys kvs) -> obj_put k v kvs ≡ₚ (k, v) :: kvs.
Proof.
  induction kvs as [|[a x] kvs IH]; intros Hk; [done|]. cbn in *.
  destruct (str_eqb k a) eqn:E; [apply str_eqb_eq in E; subst; tauto|].
  destruct (goes_before k a && _); [done|]. rewrite IH by tauto. constructor.
Qed.

Lemma obj_put_last k v kvs :
  ~ In k (keys kvs) -> forallb (fun kv => negb (goes_before k (fst kv))) kvs = true ->
  obj_put k v kvs = kvs ++ [(k, v)].
Proof.
  induction kvs as [|[a x] kvs IH]; intros Hk Ho; [done|]. cbn in *.
  apply andb_true_iff in Ho as [Hb Ho]. apply negb_true_iff in Hb.
  destruct (str_eqb k a) eqn:E; [apply str_eqb_eq in E; subst; tauto|].
  rewrite Hb. cbn. rewrite IH; tauto.
Qed.

Lemma assoc_obj_put k k' v kvs :
  assoc k (obj_put k' v kvs) = if str_eqb k k' then Some v else assoc k kvs.
Proof.
  induction kvs as [|[a x] kvs IH]; cbn; [done|].
  destruct (str_eqb k' a) eqn:E; cbn.
  - apply str_eqb_eq in E as ->. by destruct (str_eqb k a).
  - destruct (goes_before k' a && _); cbn; [done|]. rewrite IH.
    destruct (str_eqb k a) eqn:E1, (str_eqb k k') eqn:E2; try done.
    apply str_eqb_eq in E1 as ->. apply str_eqb_eq in E2 as ->. by rewrite str_eqb_refl in E.
Qed.

Lemma obj_put_keys k v kvs :
  In k (keys kvs) -> keys (obj_put k v kvs) = keys kvs.
Proof.
  induction kvs as [|[a x] kvs IH]; cbn; [done|]. intros Hin.
  destruct (str_eqb k a) eqn:E; [by apply str_eqb_eq in E as ->|].
  destruct Hin as [->|Hin]; [by rewrite str_eqb_refl in E|].
  assert (existsb (fun kv => str_eqb k (fst kv)) kvs = true) as ->.
  { apply existsb_exists. apply in_map_iff in Hin as [[b y] [Hb Hin]].
    cbn in Hb. subst. exists (k, y). split; [done|]. apply str_eqb_refl. }
  rewrite andb_false_r. cbn. f_equal. by apply IH.
Qed.

Lemma obj_put_NoDup k v kvs : NoDup (keys kvs) -> NoDup (keys (obj_put k v kvs)).
Proof.
  intros Hnd. destruct (in_dec String.string_dec k (keys kvs)) as [Hin|Hin].
  - by rewrite obj_put_keys.
  - assert (keys (obj_put k v kvs) ≡ₚ k :: keys kvs) as ->
      by (change (k :: keys kvs) with (keys ((k, v) :: kvs)); by apply Permutation_map, obj_put_fresh).
    constructor; [|done]. by rewrite list_elem_of_In.
Qed.

Lemma fold_obj_put_perm l kvs :
  NoDup (keys (kvs ++ l)) ->
  fold_left (fun o kv => obj_put (fst kv) (snd kv) o) l kvs ≡ₚ kvs ++ l.
Proof.
  revert kvs. induction l as [|[k v] l IH]; intros kvs Hnd; cbn; [by rewrite app_nil_r|].
  assert (Hp : obj_put k v kvs ≡ₚ (k, v) :: kvs).
  { apply obj_put_fresh. intros Hin. rewrite keys_app in Hnd. cbn in Hnd.
    apply NoDup_app in Hnd as (_ & Hdis & _).
    apply list_elem_of_In in Hin. apply (Hdis _ Hin). apply elem_of_cons. by left. }
  rewrite IH.
  - rewrite Hp. apply Permutation_middle.
  - assert (keys (obj_put k v kvs ++ l) ≡ₚ keys (kvs ++ (k, v) :: l)) as ->; [|done].
    apply Permutation_map. rewrite Hp. apply Permutation_middle.
Qed.

Lemma from_entries_perm l : NoDup (keys l) -> from_entries l ≡ₚ l.
Proof. apply (fold_obj_put_perm l []). Qed.

Lemma js_ordered_app_cons kvs k v l :
  js_ordered (kvs ++ (k, v) :: l) = true ->
  forallb (fun kv => negb (goes_before k (fst kv))) kvs = true.
Proof.
  induction kvs as [|[a x] kvs IH]; cbn; [done|]. intros Ho. to_prop.
  rewrite IH by done. rewrite andb_true_r.
  match goal with H : forallb _ (_ ++ _) = true |- _ => rewrite forallb_app in H end.
  to_prop. cbn in *. to_prop. by apply negb_true_iff.
Qed.

Lemma fold_obj_put_ordered l kvs :
  NoDup (keys (kvs ++ l)) -> js_ordered (kvs ++ l) = true ->
  fold_left (fun o kv => obj_put (fst kv) (snd kv) o) l kvs = kvs ++ l.
Proof.
  revert kvs. induction l as [|[k v] l IH]; intros kvs Hnd Ho; cbn; [by rewrite app_nil_r|].
  rewrite obj_put_last.
  - rewrite IH; rewrite <- ?app_assoc; done.
  - intros Hin. rewrite keys_app in Hnd. cbn in Hnd.
    apply NoDup_app in Hnd as (_ & Hdis & _).
    apply list_elem_of_In in Hin. apply (Hdis _ Hin). apply elem_of_cons. by left.
  - by eapply js_ordered_app_cons.
Qed.

(** Rebuilding an object from its own entries gives it back. *)
Lemma from_entries_id l : NoDup (keys l) -> js_ordered l = true -> from_entries l = l.
Proof. apply (fold_obj_put_ordered l []). Qed.
End AssocLemmas.

#[global] Arguments is_num_unit : simpl never.
#[global] Arguments is_ws : simpl never.

(** ** Lemmas: [JSON.parse] reads what [JSON.stringify] writes *)

Lemma parse_unit_escape (c : ascii) (s : string) :
  parse_unit (escape_unit c +:+ s) = Some (c, s).
Proof.
  destruct c as [[] [] [] [] [] [] [] []]; vm_compute; reflexivity.
Qed.

Lemma escape_length (s : string) : (String.length s <= String.length (escape s))%nat.
Proof.
  induction s as [|c s IH]; [done|]. cbn [escape String.length].
  rewrite str_length_app. assert (0 < String.length (escape_unit c))%nat; [|lia].
  destruct c as [[] [] [] [] [] [] [] []]; vm_compute; lia.
Qed.

Lemma parse_string_body_escape (s r : string) (fuel : nat) :
  (String.length s < fuel)%nat ->
  parse_string_body fuel (escape s +:+ String dquote r) = Some (s, r).
Proof.
  revert fuel. induction s as [|c s IH]; intros [|fuel] Hf; cbn in Hf; try lia; [done|].
  cbn [escape parse_string_body]. rewrite str_app_assoc, parse_unit_escape, IH by lia. done.
Qed.

Definition delimited (rest : string) : bool :=
  match rest with EmptyString => true | String c _ => negb (is_num_unit c) end.

Fixpoint all_num (s : string) : bool :=
  match s with EmptyString => true | String c s' => is_num_unit c && all_num s' end.

Lemma span_num_app (a r : string) :
  all_num a = true -> delimited r = true -> span_num (a +:+ r) = (a, r).
Proof.
  intros Ha Hr. induction a as [|c a IH].
  - destruct r as [|c r]; [done|]. cbn in Hr. apply negb_true_iff in Hr.
      change ((if is_num_unit c
               then let '(u, v) := span_num r in (String c u, v)
               else (""%string, String c r)) = (""%string, String c r)). by rewrite Hr.
  - cbn in Ha. to_prop.
    change ((if is_num_unit c
             then let '(u, v) := span_num (a +:+ r) in (String c u, v)
             else (""%string, String c (a +:+ r))) = (String c a, r)).
    match goal with H : is_num_unit c = true |- _ => rewrite H end.
    by rewrite IH.
Qed.

Lemma all_num_uint (d : Decimal.uint) : all_num (NilEmpty.string_of_uint d) = true.
Proof. induction d; done. Qed.

Lemma all_num_z (z : Z) : all_num (z_to_string z) = true.
Proof.
  unfold z_to_string, NilZero.string_of_int, NilZero.string_of_uint.
  destruct (Z.to_int z) as [d|d]; destruct d; cbn; try done; apply all_num_uint.
Qed.

Lemma int_of_z_string (z : Z) : NilZero.int_of_string (z_to_string z) = Some (Z.to_int z).
Proof.
  unfold z_to_string. apply NilZero.isi.
  - destruct z; cbn; [done|..]; intros [= H]; eapply DecimalPos.Unsigned.to_uint_nonnil; eauto.
  - destruct z; cbn; try done; intros [= H]; eapply DecimalPos.Unsigned.to_uint_nonnil; eauto.
Qed.

Lemma z_to_string_inj (a b : Z) : z_to_string a = z_to_string b -> a = b.
Proof.
  intros H. apply (f_equal NilZero.int_of_string) in H.
  rewrite !int_of_z_string in H. injection H as H.
  apply (f_equal Z.of_int) in H. by rewrite !DecimalZ.of_to in H.
Qed.

Lemma z_to_string_no_colon (z : Z) : str_mem ":" (z_to_string z) = false.
Proof.
  pose proof (all_num_z z) as H. induction (z_to_string z) as [|c s IH]; [done|].
  cbn in *. to_prop. rewrite IH by done. rewrite orb_false_r. apply bool_decide_false.
  by intros ->.
Qed.

Lemma parse_num_z (z : Z) (r : string) :
  delimited r = true -> parse_num (z_to_string z +:+ r) = Some (JNum z, r).
Proof.
  intros Hr. unfold parse_num. rewrite span_num_app by (done || apply all_num_z).
  rewrite int_of_z_string, DecimalZ.of_to, str_eqb_refl. done.
Qed.

Lemma z_to_string_head (z : Z) :
  exists c s, z_to_string z = String c s /\ is_num_unit c = true.
Proof.
  pose proof (all_num_z z) as H. destruct (z_to_string z) as [|c s] eqn:E.
  - exfalso. pose proof (int_of_z_string z) as Hz. by rewrite E in Hz.
  - exists c, s. split; [done|]. cbn in H. by to_prop.
Qed.

(** The first unit of a value's text: never white space or a closing bracket. *)
Definition value_head (c : ascii) : bool :=
  is_num_unit c || existsb (fun d => bool_decide (c = d)) ["n"; "t"; "f"; "["; "{"; dquote]%char.

Lemma value_head_facts (c : ascii) (s : string) :
  value_head c = true ->
  skip_ws (String c s) = String c s /\ head_is "]"%char (String c s) = None
  /\ head_is "}"%char (String c s) = None.
Proof.
  destruct c as [[] [] [] [] [] [] [] []]; vm_compute; try done.
Qed.

Lemma parse_value_num (f : nat) (z : Z) (r : string) :
  delimited r = true -> parse_value (S f) (z_to_string z +:+ r) = Some (JNum z, r).
Proof.
  intros Hr. cbn [parse_value].
  assert (H : exists c s, z_to_string z +:+ r = String c s /\ is_num_unit c = true).
  { destruct (z_to_string_head z) as (c & s & -> & Hc). by exists c, (s +:+ r). }
  destruct H as (c & s & H & Hc).
  assert (Hh : value_head c = true) by (unfold value_head; by rewrite Hc).
  rewrite H. destruct (value_head_facts c s Hh) as (-> & _ & _).
  replace (literal "null" (String c s)) with (@None string)
    by (destruct c as [[] [] [] [] [] [] [] []]; done).
  replace (literal "true" (String c s)) with (@None string)
    by (destruct c as [[] [] [] [] [] [] [] []]; done).
  replace (literal "false" (String c s)) with (@None string)
    by (destruct c as [[] [] [] [] [] [] [] []]; done).
  replace (head_is dquote (String c s)) with (@None string)
    by (destruct c as [[] [] [] [] [] [] [] []]; done).
  replace (head_is "["%char (String c s)) with (@None string)
    by (destruct c as [[] [] [] [] [] [] [] []]; done).
  replace (head_is "{"%char (String c s)) with (@None string)
    by (destruct c as [[] [] [] [] [] [] [] []]; done).
  rewrite <- H. by apply parse_num_z.
Qed.

Lemma parse_string_quote (s r : string) :
  exists u, quote s +:+ r = String dquote u
  /\ parse_string_body (S (String.length u)) u = Some (s, r).
Proof.
  exists (escape s +:+ String dquote r). split.
  - unfold quote. change (String dquote ((escape s +:+ String dquote "") +:+ r)
      = String dquote (escape s +:+ String dquote r)). by rewrite str_app_assoc.
  - apply parse_string_body_escape. rewrite str_length_app.
    pose proof (escape_length s). lia.
Qed.

Lemma parse_value_str (f : nat) (s r : string) :
  parse_value (S f) (quote s +:+ r) = Some (JStr s, r).
Proof.
  destruct (parse_string_quote s r) as (u & -> & Hu). cbn [parse_value].
  change (skip_ws (String dquote u)) with (String dquote u).
  change (match parse_string_body (S (String.length u)) u with
          | Some (t, r') => Some (JStr t, r')
          | None => None
          end = Some (JStr s, r)). by rewrite Hu.
Qed.

(** The text [t], followed by a delimiter, is read as [v]. *)
Definition reads_as (t : string) (v : json) : Prop :=
  (exists c s, t = String c s /\ value_head c = true) /\
  forall f r, (String.length t <= f)%nat ->
  delimited r = true -> parse_value f (t +:+ r) = Some (v, r).

Definition text (v : json) : string :=
  match JSON_stringify v with Some t => t | None => "null" end.

Lemma text_some (v : json) : is_json v = true -> JSON_stringify v = Some (text v).
Proof. unfold text. by destruct v. Qed.

Lemma reads_as_pos (t : string) (v : json) : reads_as t v -> (0 < String.length t)%nat.
Proof. intros [(c & s & -> & _) _]. cbn. lia. Qed.

Lemma parse_elems_join (ts : list string) (l : list json) (f : nat) (r : string) :
  l <> [] -> Forall2 reads_as ts l -> (String.length (str_join "," ts) < f)%nat ->
  parse_elems f (str_join "," ts +:+ String "]" r) = Some (l, r).
Proof.
  intros Hne Hr. revert f. induction Hr as [|t v ts l Hv Hl IH]; intros f Hf; [done|].
  destruct f as [|f]; [lia|]. pose proof (reads_as_pos _ _ Hv) as Hp.
  destruct Hv as [_ Hv]. destruct Hl as [|t' w ts l Hw Hl].
  - cbn [str_join] in *. cbn [parse_elems].
    rewrite (Hv f (String "]" r)) by (done || lia). done.
  - change (str_join "," (t :: t' :: ts)) with (t +:+ "," +:+ str_join "," (t' :: ts)) in *.
    rewrite !str_app_assoc. rewrite !str_length_app in Hf.
    change (String.length ",") with 1%nat in Hf.
    set (tl := str_join "," (t' :: ts)) in *.
    cbn [parse_elems]. rewrite (Hv f) by (done || lia).
    change (skip_ws ("," +:+ tl +:+ String "]" r)) with (String "," (tl +:+ String "]" r)).
    cbn [head_is]. rewrite bool_decide_true by done.
    rewrite IH; [done|done|]. lia.
Qed.

(** The text of an object member with the value's text given. *)
Definition entry_text (kt : string * string) : string := quote (fst kt) +:+ ":" +:+ snd kt.

Definition entry_reads (kt : string * string) (kv : string * json) : Prop :=
  fst kt = fst kv /\ reads_as (snd kt) (snd kv).

Lemma quote_length (s : string) : (2 <= String.length (quote s))%nat.
Proof. unfold quote. cbn [String.length]. rewrite str_length_app. cbn. lia. Qed.

(** One member is read up to its separator. *)
Lemma parse_members_step (k t : string) (v : json) (f : nat) (u : string) :
  reads_as t v -> (String.length t <= f)%nat -> delimited u = true ->
  parse_members (S f) (entry_text (k, t) +:+ u)
  = match head_is ","%char (skip_ws u), head_is "}"%char (skip_ws u) with
    | Some r', _ => match parse_members f r' with
                    | Some (l, r'') => Some ((k, v) :: l, r'')
                    | None => None
                    end
    | None, Some r' => Some ([(k, v)], r')
    | None, None => None
    end.
Proof.
  intros [_ Hv] Hf Hd. unfold entry_text. cbn [fst snd]. rewrite !str_app_assoc.
  destruct (parse_string_quote k (":" +:+ t +:+ u)) as (w & -> & Hw).
  cbn [parse_members]. change (head_is dquote (skip_ws (String dquote w))) with (Some w).
  cbn iota. rewrite Hw.
  change (head_is ":" (skip_ws (":" +:+ t +:+ u))) with (Some (t +:+ u)). cbn iota.
  by rewrite (Hv f u) by (done || lia).
Qed.

Lemma parse_members_join (ts : list (string * string)) (l : list (string * json))
    (f : nat) (r : string) :
  l <> [] -> Forall2 entry_reads ts l ->
  (String.length (str_join "," (map entry_text ts)) < f)%nat ->
  parse_members f (str_join "," (map entry_text ts) +:+ String "}" r) = Some (l, r).
Proof.
  intros Hne Hr. revert f.
  induction Hr as [|[k t] [k' v] ts l [Hk Hv] Hl IH]; intros f Hf; [done|].
  destruct f as [|f]; [lia|]. cbn [fst snd] in *. subst k'.
  pose proof (quote_length k) as Hq.
  assert (Hlen : String.length (entry_text (k, t)) = (String.length (quote k) + 1 + String.length t)%nat)
    by (unfold entry_text; cbn [fst snd]; rewrite !str_length_app; cbn; lia).
  destruct Hl as [|p q ts l Hw Hl].
  - cbn [map str_join] in *. by rewrite (parse_members_step k t v) by (done || lia).
  - change (str_join "," (map entry_text ((k, t) :: p :: ts)))
      with (entry_text (k, t) +:+ "," +:+ str_join "," (map entry_text (p :: ts))) in *.
    set (tl := str_join "," (map entry_text (p :: ts))) in *.
    rewrite !str_length_app in Hf. change (String.length ",") with 1%nat in Hf.
    rewrite !str_app_assoc. rewrite (parse_members_step k t v) by (done || lia).
    change (head_is "," (skip_ws ("," +:+ tl +:+ String "}" r)))
      with (Some (tl +:+ String "}" r)). cbn iota.
    rewrite IH; [done|done|]. lia.
Qed.

(** A non-empty joined list starts with the head of its first text. *)
Lemma join_head (p : string) (ps : list string) (r : string) (c : ascii) (s : string) :
  p = String c s -> exists u, str_join "," (p :: ps) +:+ r = String c u.
Proof. intros ->. destruct ps as [|q ps]; by eexists. Qed.

Lemma reads_as_num (n : Z) : reads_as (z_to_string n) (JNum n).
Proof.
  destruct (z_to_string_head n) as (c & s & E & Hc). split.
  - exists c, s. split; [done|]. unfold value_head. by rewrite Hc.
  - intros [|f] r Hf Hd; [rewrite E in Hf; cbn in Hf; lia|]. by apply parse_value_num.
Qed.

Lemma reads_as_str (s : string) : reads_as (quote s) (JStr s).
Proof.
  split; [by eexists dquote, _|]. intros [|f] r Hf Hd; [pose proof (quote_length s); lia|].
  apply parse_value_str.
Qed.

Lemma reads_as_null : reads_as "null" JNull.
Proof. split; [by exists "n"%char, "ull"%string|]. intros [|f] r Hf Hd; [cbn in Hf; lia|done]. Qed.

Lemma reads_as_bool (b : bool) : reads_as (if b then "true" else "false") (JBool b).
Proof.
  split; [destruct b; [by exists "t"%char, "rue"%string|by exists "f"%char, "alse"%string]|].
  intros [|f] r Hf Hd; [destruct b; cbn in Hf; lia|]. by destruct b.
Qed.

Lemma reads_as_arr (ts : list string) (l : list json) :
  Forall2 reads_as ts l -> reads_as ("[" +:+ str_join "," ts +:+ "]") (JArr l).
Proof.
  intros Hr. split; [by eexists "["%char, _|]. intros f r Hf Hd.
  rewrite !str_length_app in Hf. change (String.length "[") with 1%nat in Hf.
  change (String.length "]") with 1%nat in Hf. rewrite !str_app_assoc.
  destruct f as [|f]; [lia|]. cbn [parse_value].
  set (b := str_join "," ts +:+ "]" +:+ r).
  change (match head_is "]" (skip_ws b) with
          | Some r' => Some (JArr [], r')
          | None => match parse_elems f b with
                    | Some (l, r') => Some (JArr l, r')
                    | None => None
                    end
          end = Some (JArr l, r)).
  destruct Hr as [|t v ts l Hv Hl]; [done|].
  pose proof Hv as [(c & s & Hs & Hc) _].
  destruct (join_head t ts ("]" +:+ r) c s Hs) as (u & Hu).
  change (str_join "," (t :: ts) +:+ "]" +:+ r) with b in Hu.
  destruct (value_head_facts c u Hc) as (Hw & Hb & _).
  rewrite Hu, Hw, Hb, <- Hu. unfold b.
  change ("]" +:+ r) with (String "]" r).
  rewrite (parse_elems_join (t :: ts) (v :: l)); [done|done|by constructor|lia].
Qed.

Lemma reads_as_obj (ts : list (string * string)) (l : list (string * json)) :
  Forall2 entry_reads ts l ->
  reads_as ("{" +:+ str_join "," (map entry_text ts) +:+ "}") (JObj (from_entries l)).
Proof.
  intros Hr. split; [by eexists "{"%char, _|]. intros f r Hf Hd.
  rewrite !str_length_app in Hf. change (String.length "{") with 1%nat in Hf.
  change (String.length "}") with 1%nat in Hf. rewrite !str_app_assoc.
  destruct f as [|f]; [lia|]. cbn [parse_value].
  set (b := str_join "," (map entry_text ts) +:+ "}" +:+ r).
  change (match head_is "}" (skip_ws b) with
          | Some r' => Some (JObj [], r')
          | None => match parse_members f b with
                    | Some (l, r') => Some (JObj (from_entries l), r')
                    | None => None
                    end
          end = Some (JObj (from_entries l), r)).
  destruct Hr as [|[k t] v ts l Hv Hl]; [done|].
  destruct (join_head (entry_text (k, t)) (map entry_text ts) ("}" +:+ r) dquote
              (escape k +:+ String dquote "" +:+ ":" +:+ t)) as (u & Hu).
  { unfold entry_text, quote. cbn [fst snd].
    change (String dquote ((escape k +:+ String dquote "") +:+ ":" +:+ t)
      = String dquote (escape k +:+ String dquote "" +:+ ":" +:+ t)).
    by rewrite str_app_assoc. }
  change (str_join "," (entry_text (k, t) :: map entry_text ts) +:+ "}" +:+ r) with b in Hu.
  rewrite Hu. change (head_is "}" (skip_ws (String dquote u))) with (@None string).
  rewrite <- Hu. unfold b. change ("}" +:+ r) with (String "}" r).
  rewrite (parse_members_join ((k, t) :: ts) (v :: l)); [done|done|by constructor|lia].
Qed.

Lemma flat_map_entry_text (l : list (string * json)) :
  forallb (fun kv => is_json (snd kv)) l = true ->
  flat_map (fun kv => match JSON_stringify (snd kv) with
                      | Some t => [quote (fst kv) +:+ ":" +:+ t]
                      | None => []
                      end) l = map entry_text (map (fun kv => (fst kv, text (snd kv))) l).
Proof.
  induction l as [|[k v] l IH]; [done|]. cbn. intros H. to_prop.
  rewrite (text_some v) by done. cbn. by rewrite IH.
Qed.

Lemma reads_as_text (v : json) : is_json v = true -> reads_as (text v) v.
Proof.
  induction v as [| |b|n|s|l IH|kvs IH] using json_ind'; intros Hj; cbn in Hj; try done.
  - apply reads_as_null.
  - apply reads_as_bool.
  - apply reads_as_num.
  - apply reads_as_str.
  - unfold text. cbn. apply reads_as_arr. fold text.
    induction IH as [|x l Hx IH IHl]; [constructor|]. cbn in Hj. to_prop.
    constructor; [by apply Hx|by apply IHl].
  - to_prop. unfold text. cbn. rewrite flat_map_entry_text by done.
    rewrite <- (from_entries_id kvs) at 2 by done. apply reads_as_obj.
    clear -IH H. induction IH as [|x l Hx IH IHl]; [constructor|]. cbn in H. to_prop.
    constructor; [split; [done|by apply Hx]|by apply IHl].
Qed.

(** A text that reads as a value is parsed to it. *)
Lemma reads_as_parse (t : string) (v : json) : reads_as t v -> JSON_parse t = Some v.
Proof.
  intros [_ H]. unfold JSON_parse.
  replace t with (t +:+ "") at 2 by apply str_app_nil_r. by rewrite H by auto.
Qed.

(** [JSON.parse(JSON.stringify(v))] is [v]. *)
Lemma JSON_roundtrip (v : json) :
  is_json v = true -> exists t, JSON_stringify v = Some t /\ JSON_parse t = Some v.
Proof.
  intros Hj. exists (text v). split; [by apply text_some|].
  by apply reads_as_parse, reads_as_text.
Qed.

Lemma JSON_stringify_inj (v w : json) :
  is_json v = true -> is_json w = true -> JSON_stringify v = JSON_stringify w -> v = w.
Proof.
  intros Hv Hw H. destruct (JSON_roundtrip v Hv) as (t & Ht & Hp).
  destruct (JSON_roundtrip w Hw) as (u & Hu & Hq). congruence.
Qed.

(** ** Lemmas: the canonical form *)

Lemma goes_before_trans (a b c : string) :
  goes_before a b = true -> goes_before b c = true -> goes_before a c = true.
Proof.
  unfold goes_before. destruct (array_index a), (array_index b), (array_index c); try done.
  rewrite !N.ltb_lt. lia.
Qed.

Lemma forallb_perm {A} (p : A -> bool) (l k : list A) :
  l ≡ₚ k -> forallb p l = forallb p k.
Proof. induction 1; cbn; try congruence. by rewrite !andb_assoc, (andb_comm (p y)). Qed.

Section PutOrder.
Context {A : Type}.
Implicit Types kvs l : list (string * A).

Lemma obj_put_ordered k v kvs :
  ~ In k (keys kvs) -> js_ordered kvs = true -> js_ordered (obj_put k v kvs) = true.
Proof.
  induction kvs as [|[a x] kvs IH]; intros Hk Ho; [done|]. cbn in Hk, Ho |- *. to_prop.
  destruct (str_eqb k a) eqn:E; [apply str_eqb_eq in E; subst; tauto|].
  assert (existsb (fun kv => str_eqb k (fst kv)) kvs = false) as ->.
  { apply not_true_iff_false. intros Hex. apply existsb_exists in Hex as ([b y] & Hin & Hb).
    apply str_eqb_eq in Hb. cbn in Hb. subst. apply Hk. right. apply in_map_iff.
    by exists (b, y). }
  rewrite andb_true_r. destruct (goes_before k a) eqn:G; cbn.
  - rewrite H, H0, !andb_true_r. apply andb_true_iff. split.
    + unfold goes_before in *. destruct (array_index k), (array_index a); try done.
      apply N.ltb_lt in G. apply negb_true_iff, N.ltb_ge. lia.
    + apply forallb_forall. intros [b y] Hin. apply negb_true_iff. cbn.
      destruct (goes_before b k) eqn:E2; [|done].
      rewrite forallb_forall in H. specialize (H _ Hin). cbn in H.
      by rewrite (goes_before_trans b k a) in H.
  - rewrite IH by tauto. rewrite andb_true_r.
    rewrite (forallb_perm _ _ _ (obj_put_fresh k v kvs ltac:(tauto))). cbn.
    by rewrite G, H.
Qed.

Lemma fold_obj_put_js l kvs :
  NoDup (keys (kvs ++ l)) -> js_ordered kvs = true ->
  js_ordered (fold_left (fun o kv => obj_put (fst kv) (snd kv) o) l kvs) = true.
Proof.
  revert kvs. induction l as [|[k v] l IH]; intros kvs Hnd Ho; [done|]. cbn.
  assert (Hk : ~ In k (keys kvs)).
  { intros Hin. rewrite keys_app in Hnd. cbn in Hnd.
    apply NoDup_app in Hnd as (_ & Hdis & _).
    apply list_elem_of_In in Hin. apply (Hdis _ Hin). apply elem_of_cons. by left. }
  apply IH; [|by apply obj_put_ordered].
  assert (keys (obj_put k v kvs ++ l) ≡ₚ keys (kvs ++ (k, v) :: l)) as ->; [|done].
  apply Permutation_map. rewrite (obj_put_fresh k v kvs Hk). apply Permutation_middle.
Qed.

Lemma from_entries_ordered l : NoDup (keys l) -> js_ordered (from_entries l) = true.
Proof. intros. by apply fold_obj_put_js. Qed.
End PutOrder.

(** The entries [sortKeys] rebuilds an object from. *)
Definition sorted_entries (kvs : list (string * json)) : list (string * json) :=
  map (fun key => (key, match assoc key kvs with Some v => v | None => JUndefined end))
      (isort str_leb (keys kvs)).

Lemma keys_map_snd {A B} (g : A -> B) (l : list (string * A)) :
  keys (map (fun kv => (fst kv, g (snd kv))) l) = keys l.
Proof. unfold keys. rewrite map_map. by apply map_ext. Qed.

Lemma sortKeys_obj (kvs : list (string * json)) :
  sortKeys (JObj kvs)
  = JObj (from_entries (sorted_entries (map (fun kv => (fst kv, sortKeys (snd kv))) kvs))).
Proof. cbn. unfold sorted_entries. by rewrite keys_map_snd. Qed.

Lemma keys_sorted_entries (l : list (string * json)) :
  keys (sorted_entries l) = isort str_leb (keys l).
Proof. unfold sorted_entries, keys at 1. rewrite map_map. cbn. apply map_id. Qed.

Lemma sorted_entries_perm (l : list (string * json)) :
  NoDup (keys l) -> sorted_entries l ≡ₚ l.
Proof.
  intros Hnd. unfold sorted_entries. rewrite isort_perm. unfold keys. rewrite map_map.
  rewrite (map_ext_in _ (fun kv => kv)); [by rewrite map_id|].
  intros [k v] Hin. cbn. by rewrite (In_assoc k v).
Qed.

Lemma assoc_perm {A} (l k : list (string * A)) (key : string) :
  NoDup (keys l) -> l ≡ₚ k -> assoc key l = assoc key k.
Proof.
  intros Hnd Hp.
  assert (Hnd' : NoDup (keys k)).
  { assert (keys k ≡ₚ keys l) as -> by (by apply Permutation_map). done. }
  destruct (assoc key l) as [v|] eqn:E.
  - apply assoc_In in E. symmetry. apply In_assoc; [done|]. by eapply Permutation_in.
  - destruct (assoc key k) as [v|] eqn:E'; [|done]. apply assoc_In in E'.
    rewrite (In_assoc key v) in E; [done..|]. by eapply Permutation_in; [symmetry|].
Qed.

Lemma sorted_entries_eq (l k : list (string * json)) :
  NoDup (keys l) -> l ≡ₚ k -> sorted_entries l = sorted_entries k.
Proof.
  intros Hnd Hp. unfold sorted_entries.
  rewrite (isort_perm_eq str_leb str_leb_total str_leb_trans str_leb_antisym _ (keys k))
    by (by apply Permutation_map).
  apply map_ext. intros key. by rewrite (assoc_perm l k).
Qed.

Lemma is_json_obj (kvs : list (string * json)) :
  is_json (JObj kvs) = true <->
  Forall (fun kv => is_json (snd kv) = true) kvs /\ NoDup (keys kvs) /\ js_ordered kvs = true.
Proof.
  cbn. rewrite !andb_true_iff, bool_decide_eq_true, forallb_forall, Forall_forall.
  setoid_rewrite list_elem_of_In. tauto.
Qed.

Lemma is_json_arr (l : list json) :
  is_json (JArr l) = true <-> Forall (fun v => is_json v = true) l.
Proof.
  cbn. rewrite forallb_forall, Forall_forall. setoid_rewrite list_elem_of_In. tauto.
Qed.

(** [sortKeys] identifies values that differ in property order only ... *)
Lemma sortKeys_complete (v : json) :
  forall w, is_json v = true -> is_json w = true -> json_equiv v w -> sortKeys v = sortKeys w.
Proof.
  induction v as [| |b|n|s|l IH|kvs IH] using json_ind'; intros w Hv Hw E;
    inversion E as [|? k Hlk|? l' k Hlk Hp]; subst; try done.
  - cbn. f_equal. apply is_json_arr in Hv, Hw. clear E. revert Hw.
    induction Hlk as [|x y l k Hxy Hlk IHl]; intros Hw; [done|].
    inversion_clear IH. inversion_clear Hv. inversion_clear Hw. cbn. f_equal; auto.
  - apply is_json_obj in Hv as (Hv & Hnd & _). apply is_json_obj in Hw as (Hw & Hndw & _).
    rewrite !sortKeys_obj. f_equal. f_equal.
    set (g := fun kv : string * json => (fst kv, sortKeys (snd kv))).
    rewrite <- (sorted_entries_eq (map g l') (map g k)).
    + f_equal. rewrite <- Hp in Hw. clear Hp Hndw Hnd E. revert Hw.
      induction Hlk as [|[a x] [b y] l k' [Hab Hxy] Hlk IHl]; intros Hw; [done|].
      cbn in *. subst. inversion_clear IH. inversion_clear Hv. inversion_clear Hw.
      cbn in *. f_equal; [unfold g; cbn; f_equal; auto|auto].
    + unfold g. rewrite keys_map_snd.
      assert (keys l' ≡ₚ keys k) as ->; [|done]. by apply Permutation_map.
    + by apply Permutation_map.
Qed.

Lemma json_equiv_sortKeys (v : json) : is_json v = true -> json_equiv v (sortKeys v).
Proof.
  induction v as [| |b|n|s|l IH|kvs IH] using json_ind'; intros Hv; try constructor.
  - apply is_json_arr in Hv. clear -IH Hv.
    induction IH as [|x l Hx IH IHl]; [constructor|]. inversion_clear Hv.
    cbn. constructor; auto.
  - apply is_json_obj in Hv as (Hv & Hnd & _). rewrite sortKeys_obj.
    set (g := fun kv : string * json => (fst kv, sortKeys (snd kv))).
    apply (JE_obj _ (map g kvs)).
    + clear -IH Hv. induction IH as [|x l Hx IH IHl]; [constructor|]. inversion_clear Hv.
      cbn. constructor; auto.
    + assert (NoDup (keys (map g kvs))) by (unfold g; by rewrite keys_map_snd).
      rewrite from_entries_perm, sorted_entries_perm; [done|done|].
      rewrite keys_sorted_entries, isort_perm. done.
Qed.

Lemma json_equiv_sym (v w : json) : json_equiv v w -> json_equiv w v.
Proof.
  revert w. induction v as [| |b|n|s|l IH|kvs IH] using json_ind'; intros w E;
    inversion E as [|? k Hlk|? l' k Hlk Hp]; subst; try constructor.
  - clear -IH Hlk. induction Hlk as [|x y l k Hxy Hlk IHl]; [constructor|].
    inversion_clear IH. constructor; auto.
  - assert (Hs : Forall2 (fun a b => fst a = fst b /\ json_equiv (snd a) (snd b)) l' kvs).
    { clear -IH Hlk. induction Hlk as [|x y l k [Hxy1 Hxy2] Hlk IHl]; [constructor|].
      inversion_clear IH. constructor; auto. }
    destruct (Permutation_Forall2 Hp Hs) as (m & Hm & Hf).
    by apply (JE_obj _ m); [|symmetry].
Qed.

Lemma json_equiv_trans (v : json) : forall w u,
  json_equiv v w -> json_equiv w u -> json_equiv v u.
Proof.
  induction v as [| |b|n|s|l IH|kvs IH] using json_ind'; intros w u E F;
    inversion E as [|? k Hlk|? l' k Hlk Hp]; subst; try done.
  - inversion F as [|? m Hkm|]; subst; [done|]. constructor. clear -IH Hlk Hkm.
    revert m Hkm. induction Hlk as [|x y l k Hxy Hlk IHl]; intros m Hkm;
      inversion Hkm; subst; [constructor|].
    inversion_clear IH. constructor; eauto.
  - inversion F as [| |? l2 m Hkm Hq]; subst; [done|]. clear E F.
    destruct (Permutation_Forall2 (Permutation_sym Hp) Hkm) as (l3 & H3 & Hf).
    apply (JE_obj _ l3); [|by rewrite <- H3].
    clear -IH Hlk Hf. revert l3 Hf. induction Hlk as [|x y l k [Hxy1 Hxy2] Hlk IHl];
      intros l3 Hf; inversion Hf as [|? z ? ? [Hz1 Hz2]]; subst; [constructor|].
    inversion_clear IH. constructor; [split; [congruence|eauto]|auto].
Qed.

(** ... and nothing else. *)
Lemma sortKeys_sound (v w : json) :
  is_json v = true -> is_json w = true -> sortKeys v = sortKeys w -> json_equiv v w.
Proof.
  intros Hv Hw H. apply (json_equiv_trans _ (sortKeys v)); [by apply json_equiv_sortKeys|].
  rewrite H. by apply json_equiv_sym, json_equiv_sortKeys.
Qed.

Lemma is_json_sortKeys (v : json) : is_json v = true -> is_json (sortKeys v) = true.
Proof.
  induction v as [| |b|n|s|l IH|kvs IH] using json_ind'; intros Hv; try done.
  - apply is_json_arr in Hv. cbn [sortKeys]. apply is_json_arr. clear -IH Hv.
    induction IH as [|x l Hx IH IHl]; [constructor|]. inversion_clear Hv.
    cbn. constructor; auto.
  - apply is_json_obj in Hv as (Hv & Hnd & _). rewrite sortKeys_obj. apply is_json_obj.
    set (l := map (fun kv : string * json => (fst kv, sortKeys (snd kv))) kvs).
    assert (Hl : NoDup (keys l)) by (unfold l; by rewrite keys_map_snd).
    assert (Hs : NoDup (keys (sorted_entries l)))
      by (by rewrite keys_sorted_entries, isort_perm).
    split; [|split].
    + rewrite from_entries_perm, sorted_entries_perm by done. unfold l. clear -IH Hv.
      induction IH as [|x l Hx IH IHl]; [constructor|]. inversion_clear Hv.
      cbn. constructor; auto.
    + assert (keys (from_entries (sorted_entries l)) ≡ₚ keys (sorted_entries l)) as ->; [|done].
      by apply Permutation_map, from_entries_perm.
    + by apply from_entries_ordered.
Qed.

(** ** Putting and the entries there are *)

Lemma obj_put_Forall {A} (P : string * A -> Prop) k v (kvs : list (string * A)) :
  P (k, v) -> Forall P kvs -> Forall P (obj_put k v kvs).
Proof.
  intros Hk. induction 1 as [|[a x] kvs Ha Hkvs IH]; cbn; [by constructor|].
  destruct (str_eqb k a) eqn:E; [apply str_eqb_eq in E as <-; by constructor|].
  destruct (goes_before k a && _); by repeat constructor.
Qed.

Lemma obj_assign_Forall {A} (P : string * A -> Prop) k v (kvs : list (string * A)) :
  P (k, v) -> Forall P kvs -> Forall P (obj_assign k v kvs).
Proof. intros Hk H. unfold obj_assign. destruct (str_eqb _ _); [done|by apply obj_put_Forall]. Qed.

Lemma from_entries_Forall {A} (P : string * A -> Prop) (kvs : list (string * A)) : Forall P kvs -> Forall P (from_entries kvs).
Proof.
  intros H. unfold from_entries. assert (Hacc : Forall P (@nil (string * A))) by constructor.
  revert Hacc. generalize (@nil (string * A)). induction H as [|[k v] kvs Hk _ IH]; intros acc Hacc; cbn; [done|].
  apply IH. by apply obj_put_Forall.
Qed.
