(* ===== verification/JsMap.v ===== *)
(** * JavaScript maps

    [Map] with string keys: an association list in insertion order, overwriting
    in place. *)
From Stdlib Require Import ZArith Lia Ascii DecimalString DecimalZ DecimalN.
From stdpp Require Import base strings list.
From S2P Require Import Prelude Json.
Open Scope Z_scope.

Section JsMap.
Context {A : Type}.
Implicit Types m : list (string * A).

(** [map.has(k)] *)
Definition map_has (k : string) m : bool := existsb (fun kv => str_eqb k (fst kv)) m.

(** [map.set(k, v)]: a present key keeps its place. *)
Definition map_set (k : string) (v : A) m : list (string * A) :=
  if map_has k m then map (fun kv => if str_eqb k (fst kv) then (k, v) else kv) m
  else m ++ [(k, v)].

(** [map.delete(k)] *)
Definition map_delete (k : string) m : list (string * A) :=
  List.filter (fun kv => negb (str_eqb k (fst kv))) m.

Lemma map_has_assoc (k : string) m : map_has k m = true <-> exists v, assoc k m = Some v.
Proof.
  induction m as [|[a x] m IH]; cbn; [by split; [|intros []]|].
  destruct (str_eqb k a); cbn; [|done]. split; [by exists x|done].
Qed.

Lemma In_map_set (k k' : string) (v v' : A) m :
  In (k', v') (map_set k v m) -> (k' = k /\ v' = v) \/ (k' <> k /\ In (k', v') m).
Proof.
  unfold map_set. destruct (map_has k m) eqn:E.
  - intros ([a x] & Heq & Hin)%in_map_iff. cbn in Heq.
    destruct (str_eqb k a) eqn:Ea; simplify_eq; [by left|right].
    apply str_eqb_neq in Ea. split; [congruence|done].
  - rewrite in_app_iff. intros [Hin|[Heq|[]]]; [right|left; by simplify_eq].
    split; [|done]. intros ->. assert (map_has k m = true); [|congruence].
    apply existsb_exists. exists (k, v'). split; [done|apply str_eqb_refl].
Qed.

Lemma In_map_delete (k k' : string) (v : A) m :
  In (k', v) (map_delete k m) <-> In (k', v) m /\ k' <> k.
Proof.
  unfold map_delete. rewrite filter_In. cbn. rewrite negb_true_iff, str_eqb_neq.
  split; intros [? ?]; split; congruence.
Qed.

Lemma assoc_map_set (k k' : string) (v : A) m :
  assoc k' (map_set k v m) = if str_eqb k' k then Some v else assoc k' m.
Proof.
  unfold map_set. destruct (map_has k m) eqn:E.
  - induction m as [|[a x] m IH]; [done|]. cbn in E |- *. destruct (str_eqb k a) eqn:Ea; cbn.
    + apply str_eqb_eq in Ea as ->. destruct (str_eqb k' a) eqn:E'; [done|]. clear E IH.
      induction m as [|[b y] m IH]; [done|]. cbn. destruct (str_eqb a b) eqn:Eb; cbn.
      * apply str_eqb_eq in Eb as ->. by rewrite E'.
      * by destruct (str_eqb k' b).
    + cbn in E. destruct (str_eqb k' a) eqn:E'; [|by apply IH].
      apply str_eqb_eq in E' as ->. destruct (str_eqb a k) eqn:E2; [|done].
      apply str_eqb_eq in E2 as ->. by rewrite str_eqb_refl in Ea.
  - induction m as [|[a x] m IH]; cbn; [by destruct (str_eqb k' k)|].
    cbn in E. apply orb_false_iff in E as [Ea E]. rewrite IH by done.
    destruct (str_eqb k' a) eqn:E'; [|done]. apply str_eqb_eq in E' as ->.
    destruct (str_eqb a k) eqn:E2; [|done]. apply str_eqb_eq in E2 as ->.
    by rewrite str_eqb_refl in Ea.
Qed.

Lemma length_map_set (k : string) (v : A) m :
  length (map_set k v m) = if map_has k m then length m else S (length m).
Proof.
  unfold map_set. destruct (map_has k m); [apply length_map|]. rewrite length_app. cbn. lia.
Qed.

(** Deleting a present key makes the map smaller. *)
Lemma length_map_delete (k : string) (v : A) m :
  In (k, v) m -> (length (map_delete k m) < length m)%nat.
Proof.
  intros Hin. induction m as [|[a x] m IH]; [done|]. cbn.
  assert (Hle : (length (map_delete k m) <= length m)%nat) by apply filter_length_le.
  destruct (str_eqb k a) eqn:E; cbn; [unfold map_delete in Hle; lia|].
  destruct Hin as [Heq|Hin]; [simplify_eq; by rewrite str_eqb_refl in E|].
  apply IH in Hin. unfold map_delete in Hin. lia.
Qed.

Lemma keys_map_set (k : string) (v : A) m :
  keys (map_set k v m) = if map_has k m then keys m else keys m ++ [k].
Proof.
  unfold map_set, keys. destruct (map_has k m); [|by rewrite map_app].
  rewrite map_map. apply map_ext. intros [a x]. cbn. destruct (str_eqb k a) eqn:E; [|done].
  by apply str_eqb_eq in E as ->.
Qed.

Lemma map_has_keys (k : string) m : map_has k m = true <-> k ∈ keys m.
Proof.
  rewrite map_has_assoc. unfold keys. rewrite list_elem_of_fmap. split.
  - intros [v H%assoc_In]. exists (k, v). split; [done|]. by apply list_elem_of_In.
  - intros ([a x] & -> & H%list_elem_of_In). cbn. destruct (assoc a m) eqn:E; [by eexists|].
    apply assoc_None in E. exfalso. apply E, in_map_iff. by exists (a, x).
Qed.

Lemma map_set_NoDup (k : string) (v : A) m : NoDup (keys m) -> NoDup (keys (map_set k v m)).
Proof.
  intros H. rewrite keys_map_set. destruct (map_has k m) eqn:E; [done|].
  apply NoDup_app. split_and! ; [done| |apply NoDup_singleton].
  intros x Hx ->%list_elem_of_singleton. apply map_has_keys in Hx. congruence.
Qed.

Lemma keys_map_delete (k : string) m : keys (map_delete k m) = List.filter (fun a => negb (str_eqb k a)) (keys m).
Proof. unfold map_delete, keys. induction m as [|[a x] m IH]; [done|]. cbn. destruct (str_eqb k a); cbn; by rewrite IH. Qed.

Lemma map_delete_NoDup (k : string) m : NoDup (keys m) -> NoDup (keys (map_delete k m)).
Proof.
  rewrite keys_map_delete. intros H%NoDup_ListNoDup. apply NoDup_ListNoDup. by apply List.NoDup_filter.
Qed.

Lemma assoc_map_delete (k k' : string) m :
  assoc k' (map_delete k m) = if str_eqb k' k then None else assoc k' m.
Proof.
  unfold map_delete. induction m as [|[a x] m IH]; cbn; [by destruct (str_eqb k' k)|].
  destruct (str_eqb k a) eqn:E; cbn; rewrite ?IH.
  - apply str_eqb_eq in E as ->. by destruct (str_eqb k' a).
  - destruct (str_eqb k' a) eqn:E'; [|done]. apply str_eqb_eq in E' as ->.
    destruct (str_eqb a k) eqn:E2; [|done]. apply str_eqb_eq in E2 as ->. by rewrite str_eqb_refl in E.
Qed.
End JsMap.

(** * Text functions of the language: white space, [parseInt], [trim], UTF-8

    Shared by the components that parse addresses, environment variables and
    cached buffers. *)

Definition is_space (c : ascii) : bool :=
  let n := nat_of_ascii c in
  (((9 <=? n) && (n <=? 13)) || (n =? 32) || (n =? 160))%nat.

Fixpoint skip_space (s : string) : string :=
  match s with
  | String c s' => if is_space c then skip_space s' else s
  | EmptyString => ""
  end.

Definition is_digit (c : ascii) : bool :=
  let n := nat_of_ascii c in ((48 <=? n) && (n <=? 57))%nat.

Fixpoint take_while (p : ascii -> bool) (s : string) : string :=
  match s with
  | String c s' => if p c then String c (take_while p s') else ""
  | EmptyString => ""
  end.

Fixpoint hex_digits (s : string) (acc : Z) (seen : bool) : option Z :=
  match s with
  | String c s' => match hex_value c with
                   | Some d => hex_digits s' (acc * 16 + Z.of_nat d) true
                   | None => if seen then Some acc else None
                   end
  | EmptyString => if seen then Some acc else None
  end.

Definition parse_nat (s : string) : option Z :=
  let d := take_while is_digit s in
  if str_eqb d "" then None
  else match NilEmpty.uint_of_string d with
       | Some u => Some (Z.of_uint u)
       | None => None
       end.

(** Leading white space skipped, the sign split off. *)
Definition sign_and_rest (s : string) : bool * string :=
  let t := skip_space s in
  match t with
  | String c u => if (nat_of_ascii c =? 45)%nat then (true, u)
                  else if (nat_of_ascii c =? 43)%nat then (false, u)
                  else (false, t)
  | EmptyString => (false, ""%string)
  end.

(** [parseInt(s)]: leading white space, a sign, then hexadecimal after [0x]
    or decimal digits; [None] is NaN. *)
Definition parseInt (s : string) : option Z :=
  let '(neg, u) := sign_and_rest s in
  let r := if starts_with "0x" u || starts_with "0X" u
           then hex_digits (str_drop 2 u) 0 false else parse_nat u in
  match r with Some n => Some (if neg then - n else n) | None => None end.

(** [Number.parseInt(s, 10)] *)
Definition parseInt10 (s : string) : option Z :=
  let '(neg, u) := sign_and_rest s in
  match parse_nat u with Some n => Some (if neg then - n else n) | None => None end.

Fixpoint str_rev (s acc : string) : string :=
  match s with EmptyString => acc | String c s' => str_rev s' (String c acc) end.

(** [s.trim()] *)
Definition trim (s : string) : string := str_rev (skip_space (str_rev (skip_space s) "")) "".


(** [n] in decimal with leading zeros up to [width] digits. *)
Definition pad (width : nat) (n : Z) : string :=
  let s := z_to_string n in
  Nat.iter (width - String.length s) (String "0"%char) s.

(** Year, month and day of a day number counted from 1970-01-01. *)
Definition civil_of_days (days : Z) : Z * Z * Z :=
  let z := days + 719468 in
  let era := z / 146097 in
  let doe := z mod 146097 in
  let yoe := (doe - doe / 1460 + doe / 36524 - doe / 146096) / 365 in
  let doy := doe - (365 * yoe + yoe / 4 - yoe / 100) in
  let mp := (5 * doy + 2) / 153 in
  let d := doy - (153 * mp + 2) / 5 + 1 in
  let m := if mp <? 10 then mp + 3 else mp - 9 in
  (yoe + era * 400 + (if m <=? 2 then 1 else 0), m, d).

(** [new Date(ms).toISOString()] for the years 0 to 9999 *)
Definition toISOString (ms : Z) : string :=
  let '(y, m, d) := civil_of_days (ms / 86400000) in
  let t := ms mod 86400000 in
  pad 4 y +:+ "-" +:+ pad 2 m +:+ "-" +:+ pad 2 d +:+ "T" +:+ pad 2 (t / 3600000) +:+ ":"
  +:+ pad 2 (t / 60000 mod 60) +:+ ":" +:+ pad 2 (t / 1000 mod 60) +:+ "." +:+ pad 3 (t mod 1000) +:+ "Z".

Example toISOString_leap : toISOString 1709210096789 = "2024-02-29T12:34:56.789Z"%string.
Proof. reflexivity. Qed.
