(* ===== verification/EventCache.v ===== *)
(** * Event caches

    The in-memory caches of streamed messages: the one inside
    [src/src/mcp/core/PersistentEventStore.ts] (Module [Persistent]) and the
    general cache manager of [src/src/mcp/core/EventCacheManager.ts] (Module
    [Manager], which evicts by recency).  Both are maps from streams to maps
    from events, bounded by stream and in total.  The clock is an argument. *)
From Stdlib Require Import Ascii ZArith Lia.
From stdpp Require Import base strings list sorting.
From S2P Require Import Prelude Json JsMap.
Open Scope Z_scope.

Record CachedEvent : Type := { cached_eventId : string; cached_message : json; timestamp : Z; cached_streamId : string }.

Definition StreamCache : Type := list (string * CachedEvent).
Definition EventCache : Type := list (string * StreamCache).

Definition total_events (c : EventCache) : nat := list_sum (map (fun kv => length (snd kv)) c).

(** [if (!cache.has(streamId)) cache.set(streamId, new Map())] *)
Definition ensure_stream (streamId : string) (c : EventCache) : EventCache :=
  if map_has streamId c then c else map_set streamId [] c.

(** [Array.from(streamCache.keys()).sort()[0]] *)
Definition oldest_id (sc : StreamCache) : option string := hd_error (isort str_leb (keys sc)).

(** Deleting an event, and its stream when nothing is left of it. *)
Definition drop_event (streamId eventId : string) (c : EventCache) : EventCache :=
  match assoc streamId c with
  | None => c
  | Some sc =>
      let sc := map_delete eventId sc in
      if (length sc =? 0)%nat then map_delete streamId c else map_set streamId sc c
  end.

(** Deleting the events that are [old], and the streams that end up empty. *)
Definition sweep_events (old : CachedEvent -> bool) (c : EventCache) : EventCache :=
  List.filter (fun kv => negb (length (snd kv) =? 0)%nat)
    (map (fun kv => (fst kv, List.filter (fun e => negb (old (snd e))) (snd kv))) c).

(** The events of a sorted stream after the given one. *)
Fixpoint after_event (afterEventId : string) (found : bool) (l : list CachedEvent) : list CachedEvent :=
  match l with
  | [] => []
  | e :: l' =>
      if str_eqb (cached_eventId e) afterEventId then after_event afterEventId true l'
      else if found then e :: after_event afterEventId found l'
      else after_event afterEventId found l'
  end.

(** [a.localeCompare(b)] of the runtime's locale. *)
Definition events_after (localeCompare : string -> string -> Z) (streamId afterEventId : string) (c : EventCache)
    : list CachedEvent :=
  match assoc streamId c with
  | None => []
  | Some sc => after_event afterEventId false
                 (isort (fun a b => localeCompare (cached_eventId a) (cached_eventId b) <=? 0) (map snd sc))
  end.

Definition estimateMemoryUsage (c : EventCache) : Z :=
  fold_left (fun n kv => n + Z.of_nat (length (snd kv)) * 128) c (Z.of_nat (length c) * 64).

(** ** The cache of the event store *)

Module Persistent.

Definition cacheSize : nat := 1000.
Definition maxCacheSize : nat := 10000.

Definition getEventFromCache (streamId eventId : string) (c : EventCache) : option CachedEvent :=
  match assoc streamId c with Some sc => assoc eventId sc | None => None end.

Definition getEventsAfterFromCache := events_after.

Definition cleanupStream (streamId : string) (c : EventCache) : EventCache := map_delete streamId c.

Definition cleanupExpiredCache (now : Z) (c : EventCache) : EventCache :=
  sweep_events (fun e => timestamp e <? now) c.

(** All events with their streams. *)
Definition all_events (c : EventCache) : list (string * string * Z) :=
  flat_map (fun kv => map (fun e => (fst kv, fst e, timestamp (snd e))) (snd kv)) c.

Definition enforceTotalCacheLimit (c : EventCache) : EventCache :=
  let totalEvents := total_events c in
  if (maxCacheSize <? totalEvents)%nat then
    let allEvents := isort (fun a b => snd a <=? snd b) (all_events c) in
    let eventsToRemove := (totalEvents - maxCacheSize)%nat in
    fold_left (fun c e => drop_event (fst (fst e)) (snd (fst e)) c) (take eventsToRemove allEvents) c
  else c.

(** Making room in a full stream. *)
Definition evict_oldest (sc : StreamCache) : StreamCache :=
  if (cacheSize <=? length sc)%nat
  then match oldest_id sc with Some oldestEventId => map_delete oldestEventId sc | None => sc end
  else sc.

Definition storeEventInCache (now : Z) (streamId eventId : string) (message : json) (c : EventCache) : EventCache :=
  let c := ensure_stream streamId c in
  let sc := evict_oldest (default [] (assoc streamId c)) in
  let cachedEvent := {| cached_eventId := eventId; cached_message := message; timestamp := now; cached_streamId := streamId |} in
  enforceTotalCacheLimit (map_set streamId (map_set eventId cachedEvent sc) c).

Record CacheStats : Type := { totalStreams : nat; totalEvents : nat; memoryUsage : Z }.

Definition getCacheStats (c : EventCache) : CacheStats :=
  {| totalStreams := length c; totalEvents := total_events c; memoryUsage := estimateMemoryUsage c |}.

Inductive cache_op : Type :=
| OpStore (streamId eventId : string) (message : json)
| OpCleanupStream (streamId : string)
| OpCleanupExpired.

Definition cache_exec (op : Z * cache_op) (c : EventCache) : EventCache :=
  match op with
  | (now, OpStore streamId eventId message) => storeEventInCache now streamId eventId message c
  | (_, OpCleanupStream streamId) => cleanupStream streamId c
  | (now, OpCleanupExpired) => cleanupExpiredCache now c
  end.

Definition cache_run (ops : list (Z * cache_op)) (c : EventCache) : EventCache := fold_left (fun c op => cache_exec op c) ops c.

End Persistent.

(** ** The cache manager *)

Module Manager.

(** [accessOrder]: when each event was last used. *)
Record EventCacheManager : Type := {
  cache : EventCache; maxCacheSize : nat; maxStreamEvents : nat;
  accessOrder : list (string * Z); accessCounter : Z
}.

Definition new_manager (max stream : nat) : EventCacheManager :=
  {| cache := []; maxCacheSize := max; maxStreamEvents := stream; accessOrder := []; accessCounter := 0 |}.

Definition with_cache (c : EventCache) (m : EventCacheManager) : EventCacheManager :=
  {| cache := c; maxCacheSize := maxCacheSize m; maxStreamEvents := maxStreamEvents m;
     accessOrder := accessOrder m; accessCounter := accessCounter m |}.
Definition with_order (o : list (string * Z)) (m : EventCacheManager) : EventCacheManager :=
  {| cache := cache m; maxCacheSize := maxCacheSize m; maxStreamEvents := maxStreamEvents m;
     accessOrder := o; accessCounter := accessCounter m |}.

Definition accessKey (streamId eventId : string) : string := streamId +:+ ":" +:+ eventId.

Definition updateAccessOrder (streamId eventId : string) (m : EventCacheManager) : EventCacheManager :=
  let n := accessCounter m + 1 in
  {| cache := cache m; maxCacheSize := maxCacheSize m; maxStreamEvents := maxStreamEvents m;
     accessOrder := map_set (accessKey streamId eventId) n (accessOrder m); accessCounter := n |}.

Definition evictOldestFromStream (streamId : string) (m : EventCacheManager) : EventCacheManager :=
  match assoc streamId (cache m) with
  | None => m
  | Some sc =>
      match oldest_id sc with
      | Some oldestEventId =>
          if truthy_str oldestEventId then
            with_order (map_delete (accessKey streamId oldestEventId) (accessOrder m))
              (with_cache (map_set streamId (map_delete oldestEventId sc) (cache m)) m)
          else m
      | None => m
      end
  end.

(** The loop of [evictLRUEvents] over the access keys, [count] events to go. *)
Fixpoint evict_loop (count : nat) (ks : list string) (m : EventCacheManager) : EventCacheManager :=
  match count, ks with
  | O, _ | _, [] => m
  | S count', key :: ks' =>
      match split_on ":" key with
      | streamId :: eventId :: _ =>
          match assoc streamId (cache m) with
          | Some sc =>
              if map_has eventId sc
              then evict_loop count' ks' (with_order (map_delete key (accessOrder m))
                                            (with_cache (drop_event streamId eventId (cache m)) m))
              else evict_loop count ks' m
          | None => evict_loop count ks' m
          end
      | _ => evict_loop count ks' m
      end
  end.

Definition evictLRUEvents (count : nat) (m : EventCacheManager) : EventCacheManager :=
  evict_loop count (keys (isort (fun a b => snd a <=? snd b) (accessOrder m))) m.

Definition enforceTotalCacheLimit (m : EventCacheManager) : EventCacheManager :=
  let totalEvents := total_events (cache m) in
  if (maxCacheSize m <? totalEvents)%nat then evictLRUEvents (totalEvents - maxCacheSize m) m else m.

Definition setEvent (streamId eventId : string) (event : CachedEvent) (m : EventCacheManager) : EventCacheManager :=
  let m := with_cache (ensure_stream streamId (cache m)) m in
  let m := if (maxStreamEvents m <=? length (default [] (assoc streamId (cache m))))%nat
           then evictOldestFromStream streamId m else m in
  let sc := map_set eventId event (default [] (assoc streamId (cache m))) in
  enforceTotalCacheLimit (updateAccessOrder streamId eventId (with_cache (map_set streamId sc (cache m)) m)).

Definition getEvent (streamId eventId : string) (m : EventCacheManager) : option CachedEvent * EventCacheManager :=
  match assoc streamId (cache m) with
  | None => (None, m)
  | Some sc =>
      match assoc eventId sc with
      | Some event => (Some event, updateAccessOrder streamId eventId m)
      | None => (None, m)
      end
  end.

Definition getEventsAfter (localeCompare : string -> string -> Z) (streamId afterEventId : string)
    (m : EventCacheManager) : list CachedEvent := events_after localeCompare streamId afterEventId (cache m).

(** Forgetting when the events [ids] of a stream were used. *)
Definition forget (streamId : string) (ids : list string) (o : list (string * Z)) : list (string * Z) :=
  fold_left (fun o eventId => map_delete (accessKey streamId eventId) o) ids o.

Definition cleanupStream (streamId : string) (m : EventCacheManager) : EventCacheManager :=
  match assoc streamId (cache m) with
  | None => m
  | Some sc => with_order (forget streamId (keys sc) (accessOrder m)) (with_cache (map_delete streamId (cache m)) m)
  end.

Definition maxAge : Z := 24 * 60 * 60 * 1000.
Definition expired (now : Z) (e : CachedEvent) : bool := maxAge <? now - timestamp e.

Definition cleanupExpired (now : Z) (m : EventCacheManager) : EventCacheManager :=
  with_order (fold_left (fun o kv => forget (fst kv) (keys (List.filter (fun e => expired now (snd e)) (snd kv))) o)
                (cache m) (accessOrder m))
    (with_cache (sweep_events (expired now) (cache m)) m).

Definition clearAll (m : EventCacheManager) : EventCacheManager :=
  {| cache := []; maxCacheSize := maxCacheSize m; maxStreamEvents := maxStreamEvents m;
     accessOrder := []; accessCounter := 0 |}.

(** [getCacheStats]: streams, events and bytes (the hit rate is a constant). *)
Definition getCacheStats (m : EventCacheManager) : nat * nat * Z :=
  (length (cache m), total_events (cache m),
   estimateMemoryUsage (cache m) + Z.of_nat (length (accessOrder m)) * 32).

End Manager.

(** ** Sizes *)

(** Distinct streams of distinct events, none beyond its limit. *)
Record cache_ok (limit : nat) (c : EventCache) : Prop := {
  streams_distinct : NoDup (keys c);
  streams_ok : forall k sc, assoc k c = Some sc -> NoDup (keys sc) /\ (length sc <= limit)%nat
}.

Definition present (streamId eventId : string) (c : EventCache) : Prop :=
  exists sc, assoc streamId c = Some sc /\ map_has eventId sc = true.

Lemma total_cons k sc (c : EventCache) : total_events ((k, sc) :: c) = (length sc + total_events c)%nat.
Proof. done. Qed.

Lemma total_app (c d : EventCache) : total_events (c ++ d) = (total_events c + total_events d)%nat.
Proof. induction c as [|[k sc] c IH]; [done|]. cbn [app]. rewrite !total_cons, IH. lia. Qed.

Lemma map_set_absent {A} (k : string) (v : A) m : map_has k m = false -> map_set k v m = m ++ [(k, v)].
Proof. unfold map_set. by intros ->. Qed.

Lemma map_keep_absent {A} (k : string) (v : A) (m : list (string * A)) :
  map_has k m = false -> map (fun kv => if str_eqb k (fst kv) then (k, v) else kv) m = m.
Proof.
  intros H. induction m as [|[a x] m IH]; [done|]. cbn in *. apply orb_false_iff in H as [-> H]. by rewrite IH.
Qed.

(** A present key splits its map. *)
Lemma map_split {A} (k : string) (v : A) (m : list (string * A)) :
  NoDup (keys m) -> assoc k m = Some v ->
  exists m1 m2, m = m1 ++ (k, v) :: m2 /\ map_has k m1 = false /\ map_has k m2 = false.
Proof.
  induction m as [|[a x] m IH]; [done|]. cbn [assoc keys map fst]. intros [Hn Hnd]%NoDup_cons.
  destruct (str_eqb k a) eqn:E.
  - apply str_eqb_eq in E as ->. intros [= ->]. exists [], m. split_and! ; [done..|].
    apply not_true_iff_false. by rewrite map_has_keys.
  - intros H. destruct (IH Hnd H) as (m1 & m2 & -> & H1 & H2). exists ((a, x) :: m1), m2.
    split_and! ; [done| |done]. cbn. by rewrite E.
Qed.

Lemma map_set_split {A} (k : string) (v w : A) (m1 m2 : list (string * A)) :
  map_has k m1 = false -> map_has k m2 = false ->
  map_set k w (m1 ++ (k, v) :: m2) = m1 ++ (k, w) :: m2.
Proof.
  intros H1 H2. unfold map_set, map_has. rewrite existsb_app. cbn. rewrite str_eqb_refl, orb_true_r.
  rewrite map_app. cbn. rewrite str_eqb_refl. by rewrite !map_keep_absent.
Qed.

Lemma map_delete_absent {A} (k : string) (m : list (string * A)) : map_has k m = false -> map_delete k m = m.
Proof.
  intros H. unfold map_delete. induction m as [|[a x] m IH]; [done|]. cbn in *. apply orb_false_iff in H as [-> H]. cbn. by rewrite IH.
Qed.

Lemma map_delete_split {A} (k : string) (v : A) (m1 m2 : list (string * A)) :
  map_has k m1 = false -> map_has k m2 = false -> map_delete k (m1 ++ (k, v) :: m2) = m1 ++ m2.
Proof.
  intros H1 H2. pose proof (map_delete_absent k m1 H1) as E1. pose proof (map_delete_absent k m2 H2) as E2.
  unfold map_delete in *. rewrite List.filter_app. cbn. rewrite str_eqb_refl. cbn. by rewrite E1, E2.
Qed.

Lemma map_has_none {A} (k : string) (m : list (string * A)) : assoc k m = None -> map_has k m = false.
Proof. intros H. apply not_true_iff_false. rewrite map_has_assoc, H. by intros [v [=]]. Qed.

Lemma length_delete_present {A} (k : string) (m : list (string * A)) :
  NoDup (keys m) -> map_has k m = true -> S (length (map_delete k m)) = length m.
Proof.
  intros Hnd [v Hv]%map_has_assoc. destruct (map_split k v m Hnd Hv) as (m1 & m2 & -> & H1 & H2).
  rewrite map_delete_split by done. rewrite !length_app. cbn. lia.
Qed.

Lemma total_map_set (k : string) (sc : StreamCache) (c : EventCache) :
  NoDup (keys c) ->
  (total_events (map_set k sc c) + length (default [] (assoc k c)) = total_events c + length sc)%nat.
Proof.
  intros Hnd. destruct (assoc k c) as [old|] eqn:E; cbn [from_option id].
  - destruct (map_split k old c Hnd E) as (m1 & m2 & -> & H1 & H2). rewrite map_set_split by done.
    rewrite !total_app, !total_cons. cbn [length]. unfold StreamCache in *. lia.
  - rewrite map_set_absent by (by apply map_has_none). rewrite total_app, total_cons. cbn. lia.
Qed.

Lemma total_map_delete (k : string) (c : EventCache) :
  NoDup (keys c) -> (total_events (map_delete k c) + length (default [] (assoc k c)) = total_events c)%nat.
Proof.
  intros Hnd. destruct (assoc k c) as [old|] eqn:E; cbn [from_option id].
  - destruct (map_split k old c Hnd E) as (m1 & m2 & -> & H1 & H2). rewrite map_delete_split by done.
    rewrite !total_app, !total_cons. unfold StreamCache in *. lia.
  - rewrite map_delete_absent by (by apply map_has_none). cbn. lia.
Qed.

Lemma map_set_ok (limit : nat) (k : string) (sc : StreamCache) (c : EventCache) :
  cache_ok limit c -> NoDup (keys sc) -> (length sc <= limit)%nat -> cache_ok limit (map_set k sc c).
Proof.
  intros [Hd Hs] Hn Hl. split; [by apply map_set_NoDup|]. intros k' sc'. rewrite assoc_map_set.
  case_bool; [by intros [= <-]|apply Hs].
Qed.

Lemma map_delete_ok (limit : nat) (k : string) (c : EventCache) : cache_ok limit c -> cache_ok limit (map_delete k c).
Proof.
  intros [Hd Hs]. split; [by apply map_delete_NoDup|]. intros k' sc'. rewrite assoc_map_delete.
  case_bool; [done|apply Hs].
Qed.

Lemma length_map_delete_le {A} (k : string) (m : list (string * A)) : (length (map_delete k m) <= length m)%nat.
Proof. apply filter_length_le. Qed.

Lemma drop_event_ok (limit : nat) (s e : string) (c : EventCache) : cache_ok limit c -> cache_ok limit (drop_event s e c).
Proof.
  intros Hok. unfold drop_event. destruct (assoc s c) as [sc|] eqn:E; [|done].
  case_bool; [by apply map_delete_ok|]. destruct (streams_ok _ _ Hok _ _ E) as [Hn Hl].
  apply map_set_ok; [done|by apply map_delete_NoDup|]. pose proof (length_map_delete_le e sc). lia.
Qed.

Lemma drop_event_total (limit : nat) (s e : string) (c : EventCache) :
  cache_ok limit c -> present s e c -> S (total_events (drop_event s e c)) = total_events c.
Proof.
  intros [Hd Hs] (sc & Hsc & He). unfold drop_event. rewrite Hsc.
  destruct (Hs _ _ Hsc) as [Hn _]. pose proof (length_delete_present e sc Hn He) as Hlen.
  case_bool; to_prop.
  - pose proof (total_map_delete s c Hd). rewrite Hsc in *. cbn [from_option id] in *. unfold StreamCache in *.
    apply Nat.eqb_eq in Heqb. lia.
  - pose proof (total_map_set s (map_delete e sc) c Hd). rewrite Hsc in *. cbn [from_option id] in *. unfold StreamCache in *. lia.
Qed.

(** Dropping one event leaves the others. *)
Lemma drop_event_present (s e s' e' : string) (c : EventCache) :
  (s', e') <> (s, e) -> present s' e' c -> present s' e' (drop_event s e c).
Proof.
  intros Hne (sc' & Hsc' & He'). unfold drop_event. destruct (assoc s c) as [sc|] eqn:E; [|by exists sc'].
  destruct (str_eqb s' s) eqn:Hs; [apply str_eqb_eq in Hs as ->|].
  - assert (sc = sc') as -> by congruence.
    assert (He : map_has e' (map_delete e sc') = true).
    { apply map_has_assoc in He' as [v Hv]. apply map_has_assoc. exists v. rewrite assoc_map_delete.
      destruct (str_eqb e' e) eqn:Hee; [|done]. apply str_eqb_eq in Hee as ->. done. }
    destruct (length (map_delete e sc') =? 0)%nat eqn:Hz.
    + apply Nat.eqb_eq, length_zero_iff_nil in Hz. rewrite Hz in He. done.
    + exists (map_delete e sc'). split; [by rewrite assoc_map_set, str_eqb_refl|done].
  - exists sc'. split; [|done]. case_bool; [by rewrite assoc_map_delete, Hs|by rewrite assoc_map_set, Hs].
Qed.

Lemma drops_total (limit : nat) (l : list (string * string * Z)) (c : EventCache) :
  cache_ok limit c -> NoDup (map fst l) -> (forall s e t, (s, e, t) ∈ l -> present s e c) ->
  let c' := fold_left (fun c e => drop_event (fst (fst e)) (snd (fst e)) c) l c in
  cache_ok limit c' /\ (total_events c' + length l = total_events c)%nat.
Proof.
  revert c. induction l as [|[[s e] t] l IH]; intros c Hok Hnd Hp; [split; [done|apply Nat.add_0_r]|].
  cbn [fold_left map fst snd length] in *. apply NoDup_cons in Hnd as [Hn Hnd].
  destruct (IH (drop_event s e c)) as [H1 H2]; [by apply drop_event_ok|done| |].
  - intros s' e' t' Hin. apply drop_event_present; [|eapply Hp; by apply list_elem_of_further].
    intros [= -> ->]. apply Hn. apply list_elem_of_fmap. by exists (s, e, t').
  - split; [done|]. rewrite <- (drop_event_total limit s e c Hok); [lia|]. eapply Hp, list_elem_of_here.
Qed.

Lemma ensure_stream_ok (limit : nat) (s : string) (c : EventCache) : cache_ok limit c -> cache_ok limit (ensure_stream s c).
Proof. intros H. unfold ensure_stream. case_bool; [done|]. apply map_set_ok; [done|constructor|cbn; lia]. Qed.

Lemma oldest_id_in (sc : StreamCache) (k : string) : oldest_id sc = Some k -> k ∈ keys sc.
Proof.
  unfold oldest_id. intros H. rewrite <- (isort_perm str_leb (keys sc)).
  destruct (isort _ _) as [|a l]; [done|]. injection H as ->. apply list_elem_of_here.
Qed.

Lemma oldest_id_none (sc : StreamCache) : oldest_id sc = None -> sc = [].
Proof.
  unfold oldest_id. intros H. assert (isort str_leb (keys sc) = []) as Hn by (by destruct (isort _ _)).
  pose proof (isort_perm str_leb (keys sc)) as Hp. rewrite Hn in Hp. apply Permutation_nil_l in Hp.
  by destruct sc.
Qed.

Lemma sweep_cons (old : CachedEvent -> bool) k sc (c : EventCache) :
  sweep_events old ((k, sc) :: c) =
    let live := List.filter (fun e => negb (old (snd e))) sc in
    if (length live =? 0)%nat then sweep_events old c else (k, live) :: sweep_events old c.
Proof. unfold sweep_events. cbn. by destruct (_ =? 0)%nat. Qed.

Lemma keys_filter_sub {A} (p : string * A -> bool) (m : list (string * A)) : keys (List.filter p m) `sublist_of` keys m.
Proof.
  induction m as [|kv m IH]; [done|]. cbn. destruct (p kv); cbn; by constructor.
Qed.

Lemma sweep_keys (old : CachedEvent -> bool) (c : EventCache) : keys (sweep_events old c) `sublist_of` keys c.
Proof.
  induction c as [|[k sc] c IH]; [done|]. rewrite sweep_cons. cbn zeta. destruct (_ =? 0)%nat; cbn; by constructor.
Qed.

Lemma sweep_total (old : CachedEvent -> bool) (c : EventCache) : (total_events (sweep_events old c) <= total_events c)%nat.
Proof.
  induction c as [|[k sc] c IH]; [done|]. rewrite sweep_cons. cbn zeta.
  pose proof (filter_length_le (fun e : string * CachedEvent => negb (old (snd e))) sc).
  destruct (_ =? 0)%nat; rewrite !total_cons; lia.
Qed.

Lemma sweep_ok (limit : nat) (old : CachedEvent -> bool) (c : EventCache) : cache_ok limit c -> cache_ok limit (sweep_events old c).
Proof.
  intros [Hd Hs]. assert (Hd' : NoDup (keys (sweep_events old c))) by (eapply sublist_NoDup; [exact Hd|apply sweep_keys]).
  split; [done|]. intros k sc' H%assoc_In. unfold sweep_events in H. apply filter_In in H as [H _].
  apply in_map_iff in H as ([a sc] & [= -> <-] & H). apply (In_assoc _ _ _ Hd) in H.
  destruct (Hs _ _ H) as [Hn Hl]. split.
  - eapply sublist_NoDup; [exact Hn|apply keys_filter_sub].
  - pose proof (filter_length_le (fun e : string * CachedEvent => negb (old (snd e))) sc). lia.
Qed.

(** ** The event store's cache is bounded *)

Module PersistentBounds.
Import Persistent.

Lemma all_events_elem (c : EventCache) (s e : string) (t : Z) :
  (s, e, t) ∈ all_events c -> exists sc, (s, sc) ∈ c /\ e ∈ keys sc.
Proof.
  unfold all_events. intros ([k sc] & Hin & H)%list_elem_of_In%in_flat_map. cbn in H.
  apply in_map_iff in H as ([a x] & [= -> -> _] & H). exists sc. split; [by apply list_elem_of_In|].
  apply list_elem_of_fmap. exists (e, x). split; [done|by apply list_elem_of_In].
Qed.

Lemma elem_assoc {A} (k : string) (v : A) (m : list (string * A)) : NoDup (keys m) -> (k, v) ∈ m -> assoc k m = Some v.
Proof. intros Hnd Hin. apply In_assoc; [done|by apply list_elem_of_In]. Qed.

Lemma all_events_present (limit : nat) (c : EventCache) (s e : string) (t : Z) :
  cache_ok limit c -> (s, e, t) ∈ all_events c -> present s e c.
Proof.
  intros [Hd _] (sc & Hsc & He)%all_events_elem. exists sc. split; [by apply elem_assoc|by apply map_has_keys].
Qed.

Lemma all_events_cons k sc (c : EventCache) :
  all_events ((k, sc) :: c) = map (fun e => (k, fst e, timestamp (snd e))) sc ++ all_events c.
Proof. done. Qed.

Lemma all_events_length (c : EventCache) : length (all_events c) = total_events c.
Proof. induction c as [|[k sc] c IH]; [done|]. by rewrite all_events_cons, length_app, length_map, IH. Qed.

Lemma all_events_NoDup (c : EventCache) :
  NoDup (keys c) -> (forall k sc, (k, sc) ∈ c -> NoDup (keys sc)) -> NoDup (map fst (all_events c)).
Proof.
  induction c as [|[k sc] c IH]; cbn [keys map fst]; intros Hd Hs; [constructor|].
  apply NoDup_cons in Hd as [Hk Hd]. rewrite all_events_cons, map_app, map_map. apply NoDup_app. split_and! .
  - assert (map (fun e : string * CachedEvent => fst (k, fst e, timestamp (snd e))) sc = map (pair k) (keys sc)) as ->.
    { unfold keys. by rewrite map_map. }
    apply (NoDup_fmap_2 (pair k)). apply (Hs k), list_elem_of_here.
  - intros p (e & -> & _)%list_elem_of_fmap ([[s' e'] t] & [= <- _] & H)%list_elem_of_fmap.
    apply all_events_elem in H as (sc' & H & _). apply Hk, list_elem_of_fmap. by exists (k, sc').
  - apply IH; [done|]. intros k' sc' Hin. by apply (Hs k'), list_elem_of_further.
Qed.

Lemma enforce_bounded (c : EventCache) :
  cache_ok cacheSize c ->
  cache_ok cacheSize (enforceTotalCacheLimit c) /\ (total_events (enforceTotalCacheLimit c) <= maxCacheSize)%nat.
Proof.
  intros Hok. unfold enforceTotalCacheLimit. destruct (_ <? _)%nat eqn:Hlt; to_prop; [|done].
  set (l := isort _ _). set (n := (_ - _)%nat).
  assert (Hperm : l ≡ₚ all_events c) by apply isort_perm.
  assert (Hlen : length (take n l) = n).
  { rewrite length_take, Hperm, all_events_length. lia. }
  destruct (drops_total cacheSize (take n l) c Hok) as [H1 H2].
  - assert (NoDup (map fst l)) as Hnd.
    { rewrite Hperm. apply all_events_NoDup; [apply (streams_distinct _ _ Hok)|].
      intros k sc Hin. apply (streams_ok _ _ Hok k). apply elem_assoc; [apply (streams_distinct _ _ Hok)|done]. }
    rewrite <- (take_drop n l), map_app in Hnd. by apply NoDup_app in Hnd as (? & _ & _).
  - intros s e t Hin. eapply all_events_present; [done|]. rewrite <- Hperm, <- (take_drop n l), elem_of_app. by left.
  - split; [exact H1|]. lia.
Qed.

Lemma evict_oldest_room (sc : StreamCache) :
  NoDup (keys sc) -> (length sc <= cacheSize)%nat ->
  NoDup (keys (evict_oldest sc)) /\ (length (evict_oldest sc) < cacheSize)%nat.
Proof.
  intros Hn Hl. unfold evict_oldest. destruct (_ <=? _)%nat eqn:Hfull; to_prop; [|done].
  destruct (oldest_id sc) as [k|] eqn:Ho.
  - split; [by apply map_delete_NoDup|]. rewrite <- (length_delete_present k sc Hn) in Hl; [lia|].
    by apply map_has_keys, oldest_id_in.
  - exfalso. apply oldest_id_none in Ho as ->. vm_compute in Hfull. lia.
Qed.

Lemma store_bounded (now : Z) (s e : string) (m : json) (c : EventCache) :
  cache_ok cacheSize c ->
  let c' := storeEventInCache now s e m c in
  cache_ok cacheSize c' /\ (total_events c' <= maxCacheSize)%nat.
Proof.
  intros Hok. apply enforce_bounded. apply (ensure_stream_ok _ s) in Hok.
  assert (Hs : NoDup (keys (default [] (assoc s (ensure_stream s c))))
               /\ (length (default [] (assoc s (ensure_stream s c))) <= cacheSize)%nat).
  { destruct (assoc s _) as [sc|] eqn:E; [by eapply streams_ok|]. split; [constructor|cbn; lia]. }
  destruct (evict_oldest_room _ (proj1 Hs) (proj2 Hs)) as [H1 H2].
  apply map_set_ok; [done|by apply map_set_NoDup|]. rewrite length_map_set. case_bool; lia.
Qed.

Lemma exec_bounded (op : Z * cache_op) (c : EventCache) :
  cache_ok cacheSize c /\ (total_events c <= maxCacheSize)%nat ->
  cache_ok cacheSize (cache_exec op c) /\ (total_events (cache_exec op c) <= maxCacheSize)%nat.
Proof.
  intros [Hok Ht]. destruct op as [now [s e m|s|]]; cbn [cache_exec].
  - by apply store_bounded.
  - split; [by apply map_delete_ok|]. pose proof (total_map_delete s c (streams_distinct _ _ Hok)).
    unfold cleanupStream. lia.
  - split; [by apply sweep_ok|]. pose proof (sweep_total (fun e => timestamp e <? now) c). unfold cleanupExpiredCache. lia.
Qed.

(** The cache of the event store stays within its bounds: whatever is stored
    and cleaned up in whatever order, no stream ever has more than 1000 cached
    events and all streams together never more than 10000. *)
Theorem event_cache_bounded (ops : list (Z * cache_op)) :
  (forall streamId sc, assoc streamId (cache_run ops []) = Some sc -> (length sc <= cacheSize)%nat)
  /\ (total_events (cache_run ops []) <= maxCacheSize)%nat.
Proof.
  enough (cache_ok cacheSize (cache_run ops []) /\ (total_events (cache_run ops []) <= maxCacheSize)%nat) as [H1 H2].
  { split; [|done]. intros s sc H. by apply (streams_ok _ _ H1 s). }
  apply (fold_left_inv (fun c op => cache_exec op c)
           (fun c => cache_ok cacheSize c /\ (total_events c <= maxCacheSize)%nat)); [intros c op; apply exec_bounded|].
  split; [split; [constructor|done]|apply Nat.le_0_l].
Qed.

End PersistentBounds.

(** ** What cleaning up removes *)

(** [PersistentEventStore.cleanupExpiredCache] compares the time an event was
    stored with the present: it removes every event stored before now. *)
Lemma cleanup_drops_everything (now : Z) (c : EventCache) :
  (forall k sc e, (k, sc) ∈ c -> e ∈ sc -> timestamp (snd e) < now) ->
  Persistent.cleanupExpiredCache now c = [].
Proof.
  unfold Persistent.cleanupExpiredCache. induction c as [|[k sc] c IH]; intros H; [done|]. rewrite sweep_cons. cbn zeta.
  assert (List.filter (fun e => negb (timestamp (snd e) <? now)) sc = []) as ->.
  { assert (Hsc : forall e, e ∈ sc -> timestamp (snd e) < now) by (intros e; apply (H k), list_elem_of_here).
    clear -Hsc. induction sc as [|e sc IH]; [done|]. cbn.
    rewrite (proj2 (Z.ltb_lt _ _)) by (apply Hsc, list_elem_of_here). apply IH. intros e' He. by apply Hsc, list_elem_of_further. }
  cbn. apply IH. intros k' sc' e He. by apply (H k'), list_elem_of_further.
Qed.

Definition ex_event (streamId eventId : string) (t : Z) : CachedEvent :=
  {| cached_eventId := eventId; cached_message := JNull; timestamp := t; cached_streamId := streamId |}.

Example cleanup_keeps_nothing :
  Persistent.cleanupExpiredCache 11
    (Persistent.storeEventInCache 10 "s" "e" JNull []) = [].
Proof. vm_compute. reflexivity. Qed.

(** [evictLRUEvents] takes an access key apart at its colons: events of a
    stream whose name has one are never found, and the manager outgrows its
    limit. *)
Example colon_streams_outgrow_the_limit :
  let m := Manager.setEvent "a:b" "2" (ex_event "a:b" "2" 2)
             (Manager.setEvent "a:b" "1" (ex_event "a:b" "1" 1) (Manager.new_manager 1 10)) in
  (Manager.maxCacheSize m < total_events (Manager.cache m))%nat.
Proof. vm_compute. lia. Qed.
