(* ===== verification/ApprovalHasher.v ===== *)
(** * The approval request hash

    [src/src/mcp/services/ApprovalRequestHasher.ts].  The identity of an
    approval request is the digest of the calling user, the server, the tool,
    the canonical form of the arguments and the policy version.  [sha256] is a
    parameter: Node's [crypto] is not part of the repository. *)
From stdpp Require Import base strings list.
From S2P Require Import Prelude Json.
Open Scope Z_scope.

Definition APPROVAL_HASH_VERSION : string := "v2".

(** [canonicalizeArgs(args)]; a non-undefined value always has a text. *)
Definition canonicalizeArgs (args : json) : string := text (sortKeys args).

Section Hasher.
(** [createHash('sha256').update(s).digest('hex')] *)
Variable sha256 : string -> string.

Definition hashInput (userId : string) (serverId : option string) (toolName : string)
    (args : json) (policyVersion : Z) : string :=
  text (JArr [ JStr APPROVAL_HASH_VERSION; JStr userId;
               match serverId with Some s => JStr s | None => JNull end;
               JStr toolName; JStr (canonicalizeArgs args); JNum policyVersion ]).

Definition computeHash (userId : string) (serverId : option string) (toolName : string)
    (args : json) (policyVersion : Z) : string :=
  sha256 (hashInput userId serverId toolName args policyVersion).
End Hasher.

Lemma canonicalizeArgs_inj (a b : json) :
  is_json a = true -> is_json b = true ->
  canonicalizeArgs a = canonicalizeArgs b -> sortKeys a = sortKeys b.
Proof.
  intros Ha Hb H. apply is_json_sortKeys in Ha, Hb.
  apply JSON_stringify_inj; [done..|]. rewrite !text_some by done. by f_equal.
Qed.

Lemma hashInput_inj u1 s1 t1 a1 v1 u2 s2 t2 a2 v2 :
  hashInput u1 s1 t1 a1 v1 = hashInput u2 s2 t2 a2 v2 ->
  u1 = u2 /\ s1 = s2 /\ t1 = t2 /\ canonicalizeArgs a1 = canonicalizeArgs a2 /\ v1 = v2.
Proof.
  unfold hashInput. intros H.
  assert (E : forall u s t c (v : Z), is_json (JArr [JStr APPROVAL_HASH_VERSION; JStr u;
     match s with Some s' => JStr s' | None => JNull end; JStr t; JStr c; JNum v]) = true)
    by (intros; destruct s; done).
  apply (f_equal Some) in H. rewrite <- !text_some in H by apply E.
  apply JSON_stringify_inj in H; [|apply E..].
  destruct s1, s2; simplify_eq; done.
Qed.

(** C39: The request hash identifies a request: provided the digest does not
    collide, two calls have the same hash exactly when the user, the server
    (or its absence), the tool and the policy version agree and the arguments
    are the same up to the order of object properties, at any depth. *)
Theorem computeHash_identifies (sha256 : string -> string)
    (u1 u2 : string) (s1 s2 : option string) (t1 t2 : string) (a1 a2 : json) (v1 v2 : Z) :
  (forall x y, sha256 x = sha256 y -> x = y) ->
  is_json a1 = true -> is_json a2 = true ->
  computeHash sha256 u1 s1 t1 a1 v1 = computeHash sha256 u2 s2 t2 a2 v2
  <-> u1 = u2 /\ s1 = s2 /\ t1 = t2 /\ json_equiv a1 a2 /\ v1 = v2.
Proof.
  intros Hsha H1 H2. split.
  - intros H. apply Hsha, hashInput_inj in H as (-> & -> & -> & Hc & ->).
    repeat split; try done. apply sortKeys_sound; [done..|]. by apply canonicalizeArgs_inj.
  - intros (-> & -> & -> & E & ->). unfold computeHash, hashInput, canonicalizeArgs.
    by rewrite (sortKeys_complete a1 a2).
Qed.

Lemma computeHash_identifies_witness :
  computeHash (fun s => s) "u" None "t" (JObj [("a", JNum 1); ("b", JNull)]) 3
  = computeHash (fun s => s) "u" None "t" (JObj [("b", JNull); ("a", JNum 1)]) 3.
Proof.
  apply (computeHash_identifies (fun s => s)); [done|done|done|].
  repeat split; try done.
  apply (JE_obj _ [("a", JNum 1); ("b", JNull)]).
  - repeat constructor.
  - apply perm_swap.
Defined.
