(* ===== verification/ApprovalRepository.v ===== *)
(** * The approval_request table

    [src/src/repositories/ApprovalRepository.ts].  The table is the list of
    its rows in insertion order; every SQL statement is one atomic function of
    the table and of the clock it reads ([now] is the process's clock,
    [dbNow] the database's [NOW()]).  Operations that issue several statements
    take the statements of other clients that may run in between. *)
From Stdlib Require Import Sorted.
From stdpp Require Import base strings list.
From S2P Require Import Prelude Json.
Open Scope Z_scope.

Inductive ApprovalStatus : Type :=
| Pending | Approved | Rejected | Expired | Executing | Executed | Failed.

#[export] Instance ApprovalStatus_eq_dec : EqDecision ApprovalStatus.
Proof. solve_decision. Defined.

(** The enumeration's string values. *)
Definition status_string (s : ApprovalStatus) : string :=
  match s with
  | Pending => "PENDING" | Approved => "APPROVED" | Rejected => "REJECTED"
  | Expired => "EXPIRED" | Executing => "EXECUTING" | Executed => "EXECUTED"
  | Failed => "FAILED"
  end.

Record ApprovalRequest : Type := {
  id : string;
  userId : string;
  serverId : option string;
  toolName : string;
  canonicalArgs : json;
  redactedArgs : json;
  policyVersion : Z;
  requestHash : string;
  status : ApprovalStatus;
  expiresAt : Z;
  decidedAt : option Z;
  decisionReason : option string;
  decidedByUserId : option string;
  decidedByRole : option Z;
  decisionChannel : option string;
  executedAt : option Z;
  executionError : option string;
  executionResult : option json;
  uniformRequestId : option string;
  createdAt : Z;
  updatedAt : Z
}.

Record ApprovalDecisionActor : Type := {
  actorUserId : option string;
  actorRole : option Z;
  channel : string
}.

Record CreateApprovalParams : Type := {
  p_userId : string;
  p_serverId : option string;
  p_toolName : string;
  p_canonicalArgs : json;
  p_redactedArgs : json;
  p_policyVersion : Z;
  p_requestHash : string;
  p_expiresAt : Z;
  p_uniformRequestId : option string
}.

Notation table := (list ApprovalRequest).

(** ** SQL *)

(** [UPDATE ... WHERE p ... RETURNING *] *)
Definition sql_update (p : ApprovalRequest -> bool) (f : ApprovalRequest -> ApprovalRequest)
    (t : table) : list ApprovalRequest * table :=
  (map f (filter (fun r => p r = true) t), map (fun r => if p r then f r else r) t).

(** [findFirst ... orderBy createdAt desc] *)
Fixpoint findFirst_desc (p : ApprovalRequest -> bool) (t : table) : option ApprovalRequest :=
  match t with
  | [] => None
  | r :: t' =>
      match p r, findFirst_desc p t' with
      | false, o => o
      | true, None => Some r
      | true, Some r' => if createdAt r <? createdAt r' then Some r' else Some r
      end
  end.

Definition findUnique (i : string) (t : table) : option ApprovalRequest :=
  find (fun r => str_eqb (id r) i) t.

(** The predicate of the partial unique index on [request_hash]. *)
Definition in_index (s : ApprovalStatus) : bool :=
  match s with Pending | Approved | Executing => true | _ => false end.

Definition is_pending_or_approved (s : ApprovalStatus) : bool :=
  match s with Pending | Approved => true | _ => false end.

(** The row filter for an active request of a hash: undecided or approved
    rows that have not expired, and executing rows. *)
Definition is_active (hash : string) (now : Z) (r : ApprovalRequest) : bool :=
  str_eqb (requestHash r) hash
  && ((is_pending_or_approved (status r) && (now <? expiresAt r))
      || bool_decide (status r = Executing)).

Definition set_status (s : ApprovalStatus) (at_ : Z) (r : ApprovalRequest) : ApprovalRequest :=
  {| id := id r; userId := userId r; serverId := serverId r; toolName := toolName r;
     canonicalArgs := canonicalArgs r; redactedArgs := redactedArgs r;
     policyVersion := policyVersion r; requestHash := requestHash r; status := s;
     expiresAt := expiresAt r; decidedAt := decidedAt r; decisionReason := decisionReason r;
     decidedByUserId := decidedByUserId r; decidedByRole := decidedByRole r;
     decisionChannel := decisionChannel r; executedAt := executedAt r;
     executionError := executionError r; executionResult := executionResult r;
     uniformRequestId := uniformRequestId r; createdAt := createdAt r; updatedAt := at_ |}.

Definition set_decision (s : ApprovalStatus) (actor : ApprovalDecisionActor)
    (reason : option string) (at_ : Z) (r : ApprovalRequest) : ApprovalRequest :=
  {| id := id r; userId := userId r; serverId := serverId r; toolName := toolName r;
     canonicalArgs := canonicalArgs r; redactedArgs := redactedArgs r;
     policyVersion := policyVersion r; requestHash := requestHash r; status := s;
     expiresAt := expiresAt r; decidedAt := Some at_; decisionReason := reason;
     decidedByUserId := actorUserId actor; decidedByRole := actorRole actor;
     decisionChannel := Some (channel actor); executedAt := executedAt r;
     executionError := executionError r; executionResult := executionResult r;
     uniformRequestId := uniformRequestId r; createdAt := createdAt r; updatedAt := at_ |}.

Definition set_executed (res : json) (at_ : Z) (r : ApprovalRequest) : ApprovalRequest :=
  {| id := id r; userId := userId r; serverId := serverId r; toolName := toolName r;
     canonicalArgs := canonicalArgs r; redactedArgs := redactedArgs r;
     policyVersion := policyVersion r; requestHash := requestHash r; status := Executed;
     expiresAt := expiresAt r; decidedAt := decidedAt r; decisionReason := decisionReason r;
     decidedByUserId := decidedByUserId r; decidedByRole := decidedByRole r;
     decisionChannel := decisionChannel r; executedAt := Some at_;
     executionError := executionError r; executionResult := Some res;
     uniformRequestId := uniformRequestId r; createdAt := createdAt r; updatedAt := at_ |}.

Definition set_failed (err : string) (at_ : Z) (r : ApprovalRequest) : ApprovalRequest :=
  {| id := id r; userId := userId r; serverId := serverId r; toolName := toolName r;
     canonicalArgs := canonicalArgs r; redactedArgs := redactedArgs r;
     policyVersion := policyVersion r; requestHash := requestHash r; status := Failed;
     expiresAt := expiresAt r; decidedAt := decidedAt r; decisionReason := decisionReason r;
     decidedByUserId := decidedByUserId r; decidedByRole := decidedByRole r;
     decisionChannel := decisionChannel r; executedAt := executedAt r;
     executionError := Some err; executionResult := executionResult r;
     uniformRequestId := uniformRequestId r; createdAt := createdAt r; updatedAt := at_ |}.

(** ** Statements that create rows *)

Definition new_row (i : string) (now : Z) (params : CreateApprovalParams) : ApprovalRequest :=
  {| id := i; userId := p_userId params; serverId := p_serverId params;
     toolName := p_toolName params; canonicalArgs := p_canonicalArgs params;
     redactedArgs := p_redactedArgs params; policyVersion := p_policyVersion params;
     requestHash := p_requestHash params; status := Pending; expiresAt := p_expiresAt params;
     decidedAt := None; decisionReason := None; decidedByUserId := None;
     decidedByRole := None; decisionChannel := None; executedAt := None;
     executionError := None; executionResult := None;
     uniformRequestId := p_uniformRequestId params; createdAt := now; updatedAt := now |}.

(** [INSERT ... ON CONFLICT (request_hash) WHERE ... DO NOTHING RETURNING *]:
    a duplicate primary key is an error, a conflict on the partial index
    inserts nothing. *)
Definition insertPending (i : string) (now : Z) (params : CreateApprovalParams)
    : M table string (option ApprovalRequest) := fun t =>
  if existsb (fun r => str_eqb (requestHash r) (p_requestHash params)
                       && in_index (status r)) t
  then (Ok None, t)
  else if existsb (fun r => str_eqb (id r) i) t
  then (Throw "duplicate key value violates unique constraint"%string, t)
  else (Ok (Some (new_row i now params)), t ++ [new_row i now params]).

(** The statement that expires the stale rows of one hash. *)
Definition expireStaleOfHash (hash : string) (dbNow : Z) (t : table) : table :=
  snd (sql_update
         (fun r => str_eqb (requestHash r) hash && is_pending_or_approved (status r)
                   && (expiresAt r <=? dbNow))
         (set_status Expired dbNow) t).

(** What one attempt of [createOrGetPending] reads from outside: a fresh
    UUID, the two clocks, and the statements other clients run between its
    own ([between1] before the lookup, [between2] before the expiry update,
    [between3] before the next attempt). *)
Record attempt : Type := {
  uuid : string;
  app_now : Z;
  db_now : Z;
  between1 : table -> table;
  between2 : table -> table;
  between3 : table -> table
}.

Definition maxRetries : nat := 3.

(** [createOrGetPending(params, retryCount)] with [left = maxRetries -
    retryCount] retries left. *)
Fixpoint createOrGetPending_at (params : CreateApprovalParams) (env : nat -> attempt)
    (left : nat) : M table string (bool * ApprovalRequest) :=
  let e := env (maxRetries - left)%nat in
  let! inserted := insertPending (uuid e) (app_now e) params in
  match inserted with
  | Some request => mret (true, request)
  | None =>
      mmodify (between1 e) ;!
      let! existing := mgets (findFirst_desc (is_active (p_requestHash params) (app_now e))) in
      match existing with
      | Some request => mret (false, request)
      | None =>
          match left with
          | O => mthrow ("Failed to create or find approval request after 3 retries: "
                            +:+ p_requestHash params)
          | S left' =>
              mmodify (between2 e) ;!
              mmodify (expireStaleOfHash (p_requestHash params) (db_now e)) ;!
              mmodify (between3 e) ;!
              createOrGetPending_at params env left'
          end
      end
  end.

Definition createOrGetPending (params : CreateApprovalParams) (env : nat -> attempt)
    : M table string (bool * ApprovalRequest) :=
  createOrGetPending_at params env maxRetries.

(** ** Statements that change rows *)

(** [rows.length === 0 ? null : rows[0]] *)
Definition first_row (q : list ApprovalRequest * table) : option ApprovalRequest * table :=
  (head (fst q), snd q).

Definition decide (i : string) (decision : ApprovalStatus) (actor : ApprovalDecisionActor)
    (reason : option string) (now : Z) (t : table) : option ApprovalRequest * table :=
  first_row (sql_update
    (fun r => str_eqb (id r) i && bool_decide (status r = Pending) && (now <? expiresAt r))
    (set_decision decision actor reason now) t).

Definition claimApprovedForExecution (hash : string) (dbNow : Z) (t : table)
    : option ApprovalRequest * table :=
  first_row (sql_update
    (fun r => str_eqb (requestHash r) hash && bool_decide (status r = Approved)
              && (dbNow <? expiresAt r))
    (set_status Executing dbNow) t).

Definition claimApprovedForExecutionById (i : string) (dbNow : Z) (t : table)
    : option ApprovalRequest * table :=
  first_row (sql_update
    (fun r => str_eqb (id r) i && bool_decide (status r = Approved) && (dbNow <? expiresAt r))
    (set_status Executing dbNow) t).

Definition markExecuted (i : string) (res : json) (now : Z) (t : table)
    : option ApprovalRequest * table :=
  first_row (sql_update
    (fun r => str_eqb (id r) i && bool_decide (status r = Executing))
    (set_executed res now) t).

Definition markFailed (i : string) (error : string) (now : Z) (t : table)
    : option ApprovalRequest * table :=
  first_row (sql_update
    (fun r => str_eqb (id r) i && bool_decide (status r = Executing))
    (set_failed error now) t).

Definition touchExecuting (i : string) (dbNow : Z) (t : table)
    : option ApprovalRequest * table :=
  first_row (sql_update
    (fun r => str_eqb (id r) i && bool_decide (status r = Executing))
    (fun r => set_status (status r) dbNow r) t).

Definition expireStale (dbNow : Z) (t : table) : list ApprovalRequest * table :=
  sql_update
    (fun r => is_pending_or_approved (status r) && (expiresAt r <=? dbNow))
    (set_status Expired dbNow) t.

Definition recoverStaleExecuting (staleBefore dbNow : Z) (t : table)
    : list ApprovalRequest * table :=
  sql_update
    (fun r => bool_decide (status r = Executing) && (updatedAt r <=? staleBefore))
    (set_failed "Stale EXECUTING approval recovered by sweeper timeout" dbNow) t.

Definition forceExpire (i : string) (dbNow : Z) (t : table) : table :=
  snd (sql_update
    (fun r => str_eqb (id r) i && in_index (status r))
    (set_status Expired dbNow) t).

(** ** Queries *)

Definition findById (i : string) (t : table) : option ApprovalRequest := findUnique i t.

Definition findByRequestHash (hash : string) (t : table) : option ApprovalRequest :=
  findFirst_desc (fun r => str_eqb (requestHash r) hash) t.

Definition findActiveByRequestHash (hash : string) (now : Z) (t : table)
    : option ApprovalRequest :=
  findFirst_desc (is_active hash now) t.

Definition count_rows (p : ApprovalRequest -> bool) (t : table) : Z :=
  Z.of_nat (length (filter (fun r => p r = true) t)).

(** The truth value of [server_id] compared with the argument: both absent,
    or both present and equal. *)
Definition same_server (serverId : option string) (row : option string) : bool :=
  match serverId, row with
  | None, None => true
  | Some s, Some s' => str_eqb s' s
  | _, _ => false
  end.

Definition countRecentCreationsByTool (user : string) (server : option string)
    (tool : string) (since : Z) (t : table) : Z :=
  count_rows (fun r => str_eqb (userId r) user && str_eqb (toolName r) tool
                       && same_server server (serverId r) && (since <=? createdAt r)) t.

Definition countRecentCreationsByRequestHash (user hash : string) (since : Z) (t : table) : Z :=
  count_rows (fun r => str_eqb (userId r) user && str_eqb (requestHash r) hash
                       && (since <=? createdAt r)) t.

Definition countPending (user : option string) (now : Z) (t : table) : Z :=
  count_rows (fun r => bool_decide (status r = Pending) && (now <? expiresAt r)
                       && match user with
                          | Some u => if truthy_str u then str_eqb (userId r) u else true
                          | None => true
                          end) t.

Record ApprovalListParams : Type := {
  l_userId : option string;
  l_status : option string;
  l_page : Z;
  l_pageSize : Z;
  l_serverId : option string;
  l_toolName : option string
}.

Record ApprovalListResult : Type := {
  requests : list ApprovalRequest;
  page : Z;
  pageSize : Z;
  hasMore : bool
}.

(** An absent or empty filter constrains nothing. *)
Definition opt_filter (o : option string) (p : string -> bool) : bool :=
  match o with Some s => if truthy_str s then p s else true | None => true end.

Definition list_where (params : ApprovalListParams) (now : Z) (r : ApprovalRequest) : bool :=
  opt_filter (l_userId params) (str_eqb (userId r))
  && opt_filter (l_status params) (fun s =>
       if str_eqb s "PENDING" then bool_decide (status r = Pending) && (now <? expiresAt r)
       else str_eqb (status_string (status r)) s)
  && opt_filter (l_serverId params) (fun s => same_server (Some s) (serverId r))
  && opt_filter (l_toolName params) (str_eqb (toolName r)).

(** The rows a listing ranges over, newest first. *)
Definition list_rows (params : ApprovalListParams) (now : Z) (t : table) : list ApprovalRequest :=
  isort (fun a b => createdAt b <=? createdAt a) (filter (fun r => list_where params now r = true) t).

Definition list_ (params : ApprovalListParams) (now : Z) (t : table) : ApprovalListResult :=
  let safePage := Z.max 1 (l_page params) in
  let safePageSize := Z.max 1 (l_pageSize params) in
  let found := take (Z.to_nat (safePageSize + 1))
                 (drop (Z.to_nat ((safePage - 1) * safePageSize)) (list_rows params now t)) in
  {| requests := take (Z.to_nat safePageSize) found;
     page := safePage;
     pageSize := safePageSize;
     hasMore := safePageSize <? Z.of_nat (length found) |}.

(** ** One statement by one client: the table's transition system *)

Inductive statement : Type :=
| SInsert (i : string) (now : Z) (params : CreateApprovalParams)
| SExpireHash (hash : string) (dbNow : Z)
| SDecide (i : string) (approve : bool) (actor : ApprovalDecisionActor)
    (reason : option string) (now : Z)
| SClaimHash (hash : string) (dbNow : Z)
| SClaimId (i : string) (dbNow : Z)
| SMarkExecuted (i : string) (res : json) (now : Z)
| SMarkFailed (i : string) (error : string) (now : Z)
| STouch (i : string) (dbNow : Z)
| SExpireStale (dbNow : Z)
| SRecover (staleBefore dbNow : Z)
| SForceExpire (i : string) (dbNow : Z).

Definition decision_status (approve : bool) : ApprovalStatus :=
  if approve then Approved else Rejected.

(** The rows a statement returns and the table it leaves. *)
Definition exec (s : statement) (t : table) : list ApprovalRequest * table :=
  match s with
  | SInsert i now params =>
      match insertPending i now params t with
      | (Ok (Some r), t') => ([r], t')
      | (_, t') => ([], t')
      end
  | SExpireHash hash n => ([], expireStaleOfHash hash n t)
  | SDecide i approve actor reason now =>
      let '(o, t') := decide i (decision_status approve) actor reason now t in (option_list o, t')
  | SClaimHash hash n => let '(o, t') := claimApprovedForExecution hash n t in (option_list o, t')
  | SClaimId i n => let '(o, t') := claimApprovedForExecutionById i n t in (option_list o, t')
  | SMarkExecuted i res now => let '(o, t') := markExecuted i res now t in (option_list o, t')
  | SMarkFailed i err now => let '(o, t') := markFailed i err now t in (option_list o, t')
  | STouch i n => let '(o, t') := touchExecuting i n t in (option_list o, t')
  | SExpireStale n => expireStale n t
  | SRecover before n => recoverStaleExecuting before n t
  | SForceExpire i n => ([], forceExpire i n t)
  end.

(** Running a sequence of statements, whoever issued them. *)
Fixpoint run (ss : list statement) (t : table) : table :=
  match ss with
  | [] => t
  | s :: ss' => run ss' (snd (exec s t))
  end.

(** The executions a sequence hands out: the ids the claims return. *)
Fixpoint claimed_ids (ss : list statement) (t : table) : list string :=
  match ss with
  | [] => []
  | s :: ss' =>
      let out := exec s t in
      match s with
      | SClaimHash _ _ | SClaimId _ _ => map id (fst out)
      | _ => []
      end ++ claimed_ids ss' (snd out)
  end.

(** The ids the sequence approves. *)
Fixpoint approved_ids (ss : list statement) (t : table) : list string :=
  match ss with
  | [] => []
  | s :: ss' =>
      let out := exec s t in
      match s with
      | SDecide _ true _ _ _ => map id (fst out)
      | _ => []
      end ++ approved_ids ss' (snd out)
  end.

(** Which status changes a statement may make to a row. *)
Definition legal (a b : ApprovalStatus) : bool :=
  match a, b with
  | Pending, (Approved | Rejected | Expired) => true
  | Approved, (Executing | Expired) => true
  | Executing, (Executed | Failed | Expired) => true
  | _, _ => bool_decide (a = b)
  end.

Definition terminal (s : ApprovalStatus) : bool :=
  match s with Rejected | Expired | Executed | Failed => true | _ => false end.

(** The columns no statement changes. *)
Definition same_identity (r r' : ApprovalRequest) : Prop :=
  id r' = id r /\ userId r' = userId r /\ serverId r' = serverId r
  /\ toolName r' = toolName r /\ canonicalArgs r' = canonicalArgs r
  /\ redactedArgs r' = redactedArgs r /\ policyVersion r' = policyVersion r
  /\ requestHash r' = requestHash r /\ expiresAt r' = expiresAt r
  /\ createdAt r' = createdAt r /\ uniformRequestId r' = uniformRequestId r.

(** The table's invariant: ids are unique, and a hash has at most one row in
    the active statuses. *)
Definition active_hashes (t : table) : list string :=
  map requestHash (filter (fun r => in_index (status r) = true) t).

Definition table_ok (t : table) : Prop := NoDup (map id t) /\ NoDup (active_hashes t).

(** ** Lemmas: the shape of a statement *)

Lemma head_filter_spec {A} (p : A -> bool) (f : A -> A) (l : list A) (y : A) :
  head (map f (filter (fun x => p x = true) l)) = Some y ->
  exists x, x ∈ l /\ p x = true /\ y = f x.
Proof.
  intros H. destruct (filter (fun x => p x = true) l) as [|x k] eqn:E; [done|].
  injection H as <-. exists x. assert (Hx : x ∈ filter (fun x => p x = true) l)
    by (rewrite E; apply elem_of_cons; by left).
  apply list_elem_of_filter in Hx as [? ?]. done.
Qed.

(** A row and what a statement turns it into. *)
Definition row_step (r r' : ApprovalRequest) : Prop :=
  same_identity r r' /\ legal (status r) (status r') = true
  /\ (terminal (status r) = true -> r' = r).

Lemma row_step_refl (r : ApprovalRequest) : row_step r r.
Proof. split; [done|]. split; [|done]. by destruct (status r). Qed.

(** Statements that update rows, as the function they apply to each row. *)
Definition row_update (s : statement) (r : ApprovalRequest) : ApprovalRequest :=
  match s with
  | SInsert _ _ _ => r
  | SExpireHash hash n =>
      if str_eqb (requestHash r) hash && is_pending_or_approved (status r)
         && (expiresAt r <=? n) then set_status Expired n r else r
  | SDecide i approve actor reason now =>
      if str_eqb (id r) i && bool_decide (status r = Pending) && (now <? expiresAt r)
      then set_decision (decision_status approve) actor reason now r else r
  | SClaimHash hash n =>
      if str_eqb (requestHash r) hash && bool_decide (status r = Approved)
         && (n <? expiresAt r) then set_status Executing n r else r
  | SClaimId i n =>
      if str_eqb (id r) i && bool_decide (status r = Approved) && (n <? expiresAt r)
      then set_status Executing n r else r
  | SMarkExecuted i res now =>
      if str_eqb (id r) i && bool_decide (status r = Executing) then set_executed res now r else r
  | SMarkFailed i err now =>
      if str_eqb (id r) i && bool_decide (status r = Executing) then set_failed err now r else r
  | STouch i n =>
      if str_eqb (id r) i && bool_decide (status r = Executing)
      then set_status (status r) n r else r
  | SExpireStale n =>
      if is_pending_or_approved (status r) && (expiresAt r <=? n)
      then set_status Expired n r else r
  | SRecover before n =>
      if bool_decide (status r = Executing) && (updatedAt r <=? before)
      then set_failed "Stale EXECUTING approval recovered by sweeper timeout" n r else r
  | SForceExpire i n =>
      if str_eqb (id r) i && in_index (status r) then set_status Expired n r else r
  end.

Lemma row_update_step (s : statement) (r : ApprovalRequest) : row_step r (row_update s r).
Proof.
  destruct s; cbn; try apply row_step_refl; case_bool; try apply row_step_refl; to_prop;
    (split; [done|]; split; cbn;
     [ try match goal with H : status r = _ |- _ => rewrite H end;
       try match goal with a : bool |- _ => by destruct a end;
       by destruct (status r)
     | try match goal with H : status r = _ |- _ => rewrite H end; by destruct (status r) ]).
Qed.

(** What an insertion requires and does. *)
Definition inserted (i : string) (now : Z) (params : CreateApprovalParams) (t t' : table) : Prop :=
  t' = t ++ [new_row i now params] /\ i ∉ map id t
  /\ p_requestHash params ∉ active_hashes t.

Lemma elem_of_active_hashes (h : string) (t : table) :
  h ∈ active_hashes t <-> exists r, r ∈ t /\ requestHash r = h /\ in_index (status r) = true.
Proof.
  unfold active_hashes. rewrite list_elem_of_fmap. split.
  - intros (r & -> & Hr). apply list_elem_of_filter in Hr as [? ?]. by exists r.
  - intros (r & Hr & <- & Hs). exists r. split; [done|]. by apply list_elem_of_filter.
Qed.

Lemma insertPending_cases i now params t :
  (exists t', insertPending i now params t = (Ok (Some (new_row i now params)), t')
              /\ inserted i now params t t')
  \/ (insertPending i now params t = (Ok None, t) /\ p_requestHash params ∈ active_hashes t)
  \/ (exists e, insertPending i now params t = (Throw e, t) /\ i ∈ map id t).
Proof.
  unfold insertPending. destruct (existsb _ t) eqn:E1.
  - right; left. split; [done|]. apply existsb_exists in E1 as (r & Hr & E). to_prop.
    apply elem_of_active_hashes. exists r. rewrite list_elem_of_In. by apply str_eqb_eq in H.
  - destruct (existsb (fun r => str_eqb (id r) i) t) eqn:E2.
    + right; right. eexists. split; [done|]. apply existsb_exists in E2 as (r & Hr & E).
      apply str_eqb_eq in E as <-. apply list_elem_of_In. by apply in_map.
    + left. eexists. split; [done|]. split; [done|]. split.
      * intros (r & -> & Hr)%list_elem_of_fmap. apply not_true_iff_false in E2. apply E2.
        apply existsb_exists. exists r. rewrite str_eqb_refl. by rewrite <- list_elem_of_In.
      * intros (r & Hr & Hh & Hs)%elem_of_active_hashes.
        apply not_true_iff_false in E1. apply E1. apply existsb_exists.
        exists r. rewrite Hh, str_eqb_refl, Hs. by rewrite <- list_elem_of_In.
Qed.

Lemma exec_shape (s : statement) (t : table) :
  snd (exec s t) = map (row_update s) t
  \/ exists i now params, s = SInsert i now params /\ inserted i now params t (snd (exec s t)).
Proof.
  destruct s as [i now params|hash n|i a actor reason now|hash n|i n|i res now|i e now|i n|n|b n|i n];
    try (left; reflexivity).
  cbn. destruct (insertPending_cases i now params t) as [(t' & E & Hi)|[(E & _)|(e & E & _)]];
    rewrite E; cbn.
  - right. by exists i, now, params.
  - left. by rewrite map_id.
  - left. by rewrite map_id.
Qed.

Lemma row_update_id s r : id (row_update s r) = id r.
Proof. by destruct (row_update_step s r) as ((-> & _) & _). Qed.

Lemma row_update_hash s r : requestHash (row_update s r) = requestHash r.
Proof. by destruct (row_update_step s r) as ((_ & _ & _ & _ & _ & _ & _ & -> & _) & _). Qed.

Lemma row_update_index s r :
  in_index (status (row_update s r)) = true -> in_index (status r) = true.
Proof.
  destruct (row_update_step s r) as (_ & Hl & _). revert Hl.
  generalize (status (row_update s r)). by destruct (status r), a.
Qed.

Lemma active_hashes_update s t :
  active_hashes (map (row_update s) t) `sublist_of` active_hashes t.
Proof.
  unfold active_hashes. induction t as [|r t IH]; [done|]. cbn [map].
  rewrite !filter_cons.
  destruct (base.decide (in_index (status (row_update s r)) = true)) as [H|H].
  - rewrite decide_True by (by eapply row_update_index). cbn [map].
    rewrite row_update_hash. by apply sublist_skip.
  - destruct (base.decide (in_index (status r) = true)); [by apply sublist_cons|done].
Qed.

Lemma exec_ok (s : statement) (t : table) : table_ok t -> table_ok (snd (exec s t)).
Proof.
  intros [Hid Hact]. destruct (exec_shape s t) as [->|(i & now & params & -> & E & Hi & Hh)].
  - split.
    + rewrite map_map. erewrite map_ext; [exact Hid|]. intros; apply row_update_id.
    + by eapply sublist_NoDup, active_hashes_update.
  - rewrite E. split.
    + rewrite map_app. apply NoDup_app. split; [done|]. split; [|apply NoDup_singleton].
      intros x Hx Hx'. apply list_elem_of_singleton in Hx' as ->. done.
    + unfold active_hashes. rewrite filter_app, map_app. apply NoDup_app.
      split; [done|]. split; [|apply NoDup_singleton].
      intros x Hx Hx'. apply list_elem_of_singleton in Hx' as ->. done.
Qed.

Lemma run_ok (ss : list statement) (t : table) : table_ok t -> table_ok (run ss t).
Proof. revert t. induction ss as [|s ss IH]; intros t Ht; [done|]. apply IH. by apply exec_ok. Qed.

Lemma run_app (ss1 ss2 : list statement) (t : table) : run (ss1 ++ ss2) t = run ss2 (run ss1 t).
Proof. revert t. induction ss1 as [|s ss1 IH]; intros t; [done|]. apply IH. Qed.

Lemma exec_row (s : statement) (t : table) (r : ApprovalRequest) :
  r ∈ t -> row_update s r ∈ snd (exec s t).
Proof.
  intros Hr. destruct (exec_shape s t) as [->|(i & now & params & -> & -> & _)].
  - by apply list_elem_of_fmap_2.
  - cbn. apply elem_of_app. by left.
Qed.

Lemma table_ok_unique (t : table) (r r' : ApprovalRequest) :
  NoDup (map id t) -> r ∈ t -> r' ∈ t -> id r = id r' -> r = r'.
Proof.
  induction t as [|x t IH]; intros Hnd Hr Hr' E; [by apply not_elem_of_nil in Hr|].
  cbn in Hnd. apply NoDup_cons in Hnd as [Hx Hnd].
  apply elem_of_cons in Hr as [->|Hr], Hr' as [->|Hr']; [done| | |by apply IH].
  - exfalso. apply Hx. rewrite E. by apply list_elem_of_fmap_2.
  - exfalso. apply Hx. rewrite <- E. by apply list_elem_of_fmap_2.
Qed.

Lemma claimed_cons_status (s : statement) (t : table) (i : string) :
  table_ok t -> i ∈ claimed_ids [s] t ->
  (exists r, r ∈ t /\ id r = i /\ status r = Approved)
  /\ (forall r, r ∈ t -> id r = i -> status (row_update s r) = Executing).
Proof.
  intros [Hid _] Hi. cbn in Hi. rewrite app_nil_r in Hi.
  destruct s as [j now params|hash n|j a actor reason now|hash n|j n|j res now|j e now|j n|n|b n|j n];
    try (by apply not_elem_of_nil in Hi); cbn in Hi.
  all: match type of Hi with _ ∈ map id (option_list (head ?l)) =>
         destruct (head l) as [y|] eqn:E; [|by apply not_elem_of_nil in Hi] end.
  all: apply list_elem_of_singleton in Hi as ->.
  all: apply (head_filter_spec _ (set_status Executing n)) in E as (x & Hx & Hp & ->).
  all: split; [exists x; to_prop; done|].
  all: intros r Hr E; cbn in E; rewrite (table_ok_unique t r x Hid Hr Hx E); cbn; by rewrite Hp.
Qed.

Lemma claimed_ids_cons (s : statement) (ss : list statement) (t : table) :
  claimed_ids (s :: ss) t = claimed_ids [s] t ++ claimed_ids ss (snd (exec s t)).
Proof. cbn. by rewrite app_nil_r. Qed.

(** A row whose id is still to be claimed is undecided or approved. *)
Lemma claimed_later (ss : list statement) (t : table) (r : ApprovalRequest) :
  table_ok t -> r ∈ t -> id r ∈ claimed_ids ss t ->
  is_pending_or_approved (status r) = true.
Proof.
  revert t r. induction ss as [|s ss IH]; intros t r Hok Hr Hi; [by apply not_elem_of_nil in Hi|].
  rewrite claimed_ids_cons in Hi. apply elem_of_app in Hi as [Hi|Hi].
  - destruct (claimed_cons_status s t _ Hok Hi) as [(x & Hx & E & Hs) _].
    destruct Hok as [Hid _]. by rewrite (table_ok_unique t r x Hid Hr Hx), Hs.
  - rewrite <- (row_update_id s r) in Hi.
    specialize (IH _ _ (exec_ok s t Hok) (exec_row s t r Hr) Hi).
    destruct (row_update_step s r) as (_ & Hl & _). revert IH Hl.
    generalize (status (row_update s r)). by destruct (status r), a.
Qed.

Lemma claimed_ids_NoDup (ss : list statement) (t : table) :
  table_ok t -> NoDup (claimed_ids ss t).
Proof.
  revert t. induction ss as [|s ss IH]; intros t Hok; [constructor|].
  rewrite claimed_ids_cons. apply NoDup_app. split; [|split; [|by apply IH, exec_ok]].
  - destruct s; cbn; try constructor; cbn;
      match goal with |- NoDup (map id (option_list (head ?l)) ++ []) =>
        destruct (head l); cbn; [apply NoDup_singleton|constructor] end.
  - intros i Hi Hi'. destruct (claimed_cons_status s t i Hok Hi) as [(x & Hx & <- & _) He].
    rewrite <- (row_update_id s x) in Hi'.
    apply (claimed_later ss _ _ (exec_ok s t Hok) (exec_row s t x Hx)) in Hi'.
    by rewrite (He x Hx eq_refl) in Hi'.
Qed.

(** Only a decision turns a row into an approved one. *)
Lemma approved_update (s : statement) (r : ApprovalRequest) :
  status (row_update s r) = Approved -> status r <> Approved ->
  exists actor reason now, s = SDecide (id r) true actor reason now
  /\ status r = Pending /\ now < expiresAt r.
Proof.
  intros Hs Ha.
  destruct s as [i now params|hash n|i a actor reason now|hash n|i n|i res now|i e now|i n|n|b n|i n];
    cbn in Hs |- *; case_bool; to_prop; try done; try congruence.
  destruct a; [|done]. exists actor, reason, now. split; [|done]. f_equal. symmetry.
  by apply str_eqb_eq.
Qed.

Lemma approve_returns i actor reason now (t : table) (r : ApprovalRequest) :
  r ∈ t -> id r = i -> status r = Pending -> now < expiresAt r ->
  i ∈ approved_ids [SDecide i true actor reason now] t.
Proof.
  intros Hr Hi Hs Hn. cbn. rewrite app_nil_r.
  destruct (filter _ t) as [|y k] eqn:F.
  - exfalso. assert (Hin : r ∈ @nil ApprovalRequest); [|by apply not_elem_of_nil in Hin].
    rewrite <- F. apply list_elem_of_filter. split; [|done].
    rewrite Hi, str_eqb_refl, Hs. cbn. by apply Z.ltb_lt.
  - cbn. assert (Hin : y ∈ y :: k) by (apply elem_of_cons; by left).
    rewrite <- F in Hin. apply list_elem_of_filter in Hin as [Hy _]. to_prop.
    apply list_elem_of_singleton. symmetry. by apply str_eqb_eq.
Qed.

Lemma approved_step (s : statement) (t : table) (r : ApprovalRequest) :
  r ∈ snd (exec s t) -> status r = Approved ->
  (exists r0, r0 ∈ t /\ id r0 = id r /\ status r0 = Approved) \/ id r ∈ approved_ids [s] t.
Proof.
  intros Hr Hs. destruct (exec_shape s t) as [E|(i & now & params & -> & E & _)];
    rewrite E in Hr.
  - apply list_elem_of_fmap in Hr as (x & -> & Hx). rewrite row_update_id.
    destruct (base.decide (status x = Approved)) as [Ha|Ha]; [left; by exists x|right].
    destruct (approved_update s x Hs Ha) as (actor & reason & now & -> & ? & ?).
    by eapply approve_returns.
  - apply elem_of_app in Hr as [Hr|Hr]; [left; by exists r|].
    apply list_elem_of_singleton in Hr as ->. done.
Qed.

Lemma approved_before (ss : list statement) (t : table) (r : ApprovalRequest) :
  r ∈ run ss t -> status r = Approved ->
  (exists r0, r0 ∈ t /\ id r0 = id r /\ status r0 = Approved) \/ id r ∈ approved_ids ss t.
Proof.
  revert t. induction ss as [|s ss IH]; intros t Hr Hs; [left; by exists r|].
  change (approved_ids (s :: ss) t)
    with ((match s with SDecide _ true _ _ _ => map id (fst (exec s t)) | _ => [] end)
          ++ approved_ids ss (snd (exec s t))).
  destruct (IH _ Hr Hs) as [(r1 & Hr1 & E & Hs1)|Hi].
  - destruct (approved_step s t r1 Hr1 Hs1) as [(r0 & ? & ? & ?)|Hi].
    + left. exists r0. by rewrite <- E.
    + right. apply elem_of_app. left. cbn in Hi. by rewrite app_nil_r, E in Hi.
  - right. apply elem_of_app. by right.
Qed.

Lemma row_step_frozen (s : statement) (t : table) (r : ApprovalRequest) :
  terminal (status r) = true -> r ∈ t -> r ∈ snd (exec s t).
Proof.
  intros Ht Hr. destruct (row_update_step s r) as (_ & _ & Hf).
  rewrite <- (Hf Ht). by apply exec_row.
Qed.

Lemma identity_trans (r1 r2 r3 : ApprovalRequest) :
  same_identity r1 r2 -> same_identity r2 r3 -> same_identity r1 r3.
Proof. unfold same_identity. intros H1 H2. intuition congruence. Qed.

Lemma findFirst_Some (p : ApprovalRequest -> bool) (t : table) (r : ApprovalRequest) :
  findFirst_desc p t = Some r -> r ∈ t /\ p r = true.
Proof.
  revert r. induction t as [|x t IH]; intros r; cbn; [done|].
  destruct (p x) eqn:E.
  - destruct (findFirst_desc p t) as [y|].
    + destruct (createdAt x <? createdAt y); intros [= <-].
      * destruct (IH y eq_refl). split; [|done]. apply elem_of_cons. by right.
      * split; [|done]. apply elem_of_cons. by left.
    + intros [= <-]. split; [|done]. apply elem_of_cons. by left.
  - intros H. destruct (IH r H). split; [|done]. apply elem_of_cons. by right.
Qed.

Lemma findFirst_None (p : ApprovalRequest -> bool) (t : table) :
  findFirst_desc p t = None <-> forall r, r ∈ t -> p r = false.
Proof.
  induction t as [|x t IH]; cbn; [split; [intros _ r Hr; by apply not_elem_of_nil in Hr|done]|].
  destruct (p x) eqn:E.
  - split.
    + destruct (findFirst_desc p t) as [y|]; [by destruct (_ <? _)|done].
    + intros H. rewrite H in E; [done|]. apply elem_of_cons. by left.
  - rewrite IH. split.
    + intros H r [->|Hr]%elem_of_cons; auto.
    + intros H r Hr. apply H. apply elem_of_cons. by right.
Qed.

Lemma expireStaleOfHash_clears (hash : string) (now dbNow : Z) (t : table) :
  now <= dbNow -> findFirst_desc (is_active hash now) t = None ->
  hash ∉ active_hashes (expireStaleOfHash hash dbNow t).
Proof.
  intros Hc Hn (r' & Hr' & Hh & Hs)%elem_of_active_hashes.
  rewrite findFirst_None in Hn. unfold expireStaleOfHash in Hr'. cbn in Hr'.
  apply list_elem_of_fmap in Hr' as (r & -> & Hr). specialize (Hn r Hr).
  unfold is_active in Hn. revert Hh Hs.
  destruct (str_eqb (requestHash r) hash) eqn:E1; cbn in *.
  - destruct (is_pending_or_approved (status r)) eqn:E2; cbn in *.
    + apply orb_false_iff in Hn as [Hn _]. apply Z.ltb_ge in Hn.
      destruct (Z.leb_spec (expiresAt r) dbNow); [done|lia].
    + apply bool_decide_eq_false in Hn. by destruct (status r).
  - intros Hh. by rewrite Hh, str_eqb_refl in E1.
Qed.

Lemma expireStaleOfHash_ids (hash : string) (n : Z) (t : table) :
  map id (expireStaleOfHash hash n t) = map id t.
Proof.
  unfold expireStaleOfHash. cbn. rewrite map_map. apply map_ext. intros r. by destruct (_ && _).
Qed.

(** What [createOrGetPending] may return, in the table it leaves. *)
Definition pending_result (params : CreateApprovalParams) (res : bool * ApprovalRequest)
    (t : table) : Prop :=
  let '(created, r) := res in
  r ∈ t /\ requestHash r = p_requestHash params
  /\ (if created then exists i now, r = new_row i now params
      else in_index (status r) = true).

Lemma attempt_result (params : CreateApprovalParams) (env : nat -> attempt) (left : nat)
    (t t' : table) (res : bool * ApprovalRequest) :
  createOrGetPending_at params env left t = (Ok res, t') -> pending_result params res t'.
Proof.
  revert t. induction left as [|left IH]; intros t; cbn [createOrGetPending_at];
    set (e := env _); unfold mbnd, mmodify, mgets, mret;
    destruct (insertPending_cases (uuid e) (app_now e) params t)
      as [(t1 & -> & -> & _)|[(-> & _)|(x & -> & _)]]; try done;
    try (intros [= <- <-]; cbn; split; [apply elem_of_app; right; by apply list_elem_of_singleton|];
         split; [done|by eauto]);
    destruct (findFirst_desc _ _) as [r|] eqn:F; try done; try (by apply IH);
    intros [= <- <-]; apply findFirst_Some in F as [Hr Ha]; unfold is_active in Ha;
    apply andb_true_iff in Ha as [Hh Ha]; apply str_eqb_eq in Hh; cbn;
    (split; [done|]; split; [done|]; by destruct (status r)).
Qed.

(** ** Properties of the table under any sequence of statements *)

(** C8: No double execution.  Whatever statements clients issue, in whatever
    order, an approval request is handed out for execution at most once. *)
Theorem at_most_one_execution (ss : list statement) (i : string) :
  (length (filter (fun j => j = i) (claimed_ids ss [])) <= 1)%nat.
Proof.
  assert (Hnd : NoDup (claimed_ids ss [])) by (apply claimed_ids_NoDup; split; constructor).
  induction Hnd as [|x l Hx Hnd IH]; [cbn; lia|]. rewrite filter_cons.
  destruct (base.decide (x = i)) as [->|]; [|done]. cbn.
  replace (filter (fun j => j = i) l) with (@nil string); [cbn; lia|].
  symmetry. clear -Hx. induction l as [|y l IH]; [done|]. rewrite filter_cons.
  apply not_elem_of_cons in Hx as [Hn Hx]. rewrite decide_False by done. by apply IH.
Qed.

(** C9: No execution without approval.  In any history of the table, when a
    statement hands out a request for execution, an earlier statement of the
    history approved that very request (and it had not expired by then). *)
Theorem no_execution_without_approval (ss : list statement) (s : statement) (i : string) :
  i ∈ claimed_ids [s] (run ss []) -> i ∈ approved_ids ss [].
Proof.
  intros Hi.
  assert (Hok : table_ok (run ss [])) by (apply run_ok; split; constructor).
  destruct (claimed_cons_status s _ i Hok Hi) as [(r & Hr & <- & Hs) _].
  destruct (approved_before ss [] r Hr Hs) as [(r0 & Hr0 & _)|]; [|done].
  by apply not_elem_of_nil in Hr0.
Qed.

(** The invariant of the partial unique index: in every reachable table
    ids are unique and each request hash has at most one row that is pending,
    approved or executing. *)
Theorem one_active_row_per_hash (ss : list statement) : table_ok (run ss []).
Proof. apply run_ok. split; constructor. Qed.

(** The life cycle.  A statement changes a row's status only along the
    legal transitions, never changes its identity (user, server, tool,
    arguments, policy version, hash, expiry, creation time), and leaves a row
    in a terminal status exactly as it is; no statement deletes a row. *)
Theorem statement_transitions (s : statement) (t : table) (r : ApprovalRequest) :
  r ∈ t -> exists r', r' ∈ snd (exec s t) /\ same_identity r r'
  /\ legal (status r) (status r') = true /\ (terminal (status r) = true -> r' = r).
Proof.
  intros Hr. exists (row_update s r). split; [by apply exec_row|].
  destruct (row_update_step s r) as (? & ? & ?). done.
Qed.

(** [createOrGetPending] is sound under interference: whatever other
    clients do between its statements, when it returns, the returned row is in
    the table and carries the requested hash; it is the fresh pending row when
    [created] is set and a pending, approved or executing one otherwise. *)
Theorem createOrGetPending_sound (params : CreateApprovalParams) (env : nat -> attempt)
    (t t' : table) (created : bool) (r : ApprovalRequest) :
  createOrGetPending params env t = (Ok (created, r), t') ->
  r ∈ t' /\ requestHash r = p_requestHash params
  /\ (if created then exists i now, r = new_row i now params else in_index (status r) = true).
Proof. apply (attempt_result params env maxRetries t t' (created, r)). Qed.

(** [createOrGetPending] returns.  Without interference, with UUIDs that
    are fresh and a database clock that is not behind the process's, it never
    exhausts its retries: a conflicting row that is not active any more is
    expired by the first retry, whose insertion then succeeds. *)
Theorem createOrGetPending_returns (params : CreateApprovalParams) (env : nat -> attempt)
    (t : table) :
  (forall k, uuid (env k) ∉ map id t) ->
  (forall k, app_now (env k) <= db_now (env k)) ->
  (forall k x, between1 (env k) x = x /\ between2 (env k) x = x /\ between3 (env k) x = x) ->
  exists res t', createOrGetPending params env t = (Ok res, t').
Proof.
  intros Hid Hclock Hb. unfold createOrGetPending, maxRetries. cbn [createOrGetPending_at].
  set (e := env (maxRetries - 3)%nat). unfold mbnd, mmodify, mgets, mret.
  destruct (insertPending_cases (uuid e) (app_now e) params t)
    as [(t1 & -> & _)|[(-> & _)|(x & _ & Hx)]]; [by eauto| |by apply Hid in Hx].
  destruct (Hb (maxRetries - 3)%nat t) as (B1 & B2 & _). fold e in B1, B2. rewrite B1.
  destruct (findFirst_desc _ t) as [r|] eqn:F; [by eauto|].
  rewrite B2. destruct (Hb (maxRetries - 3)%nat (expireStaleOfHash (p_requestHash params) (db_now e) t))
    as (_ & _ & B3). fold e in B3. rewrite B3.
  pose proof (expireStaleOfHash_clears _ _ _ _ (Hclock (maxRetries - 3)%nat) F) as Hc. fold e in Hc.
  destruct (insertPending_cases (uuid (env (maxRetries - 2)%nat)) (app_now (env (maxRetries - 2)%nat))
              params (expireStaleOfHash (p_requestHash params) (db_now e) t))
    as [(t1 & -> & _)|[(_ & Hh)|(x & _ & Hx)]]; [by eauto|done|].
  rewrite expireStaleOfHash_ids in Hx. by apply Hid in Hx.
Qed.

(** ** Single-row statements and listings *)

Lemma map_update_other (t : table) (p : ApprovalRequest -> bool)
    (f : ApprovalRequest -> ApprovalRequest) (i : string) :
  (forall r, r ∈ t -> p r = true -> id r = i) -> i ∉ map id t ->
  map (fun r => if p r then f r else r) t = t /\ filter (fun r => p r = true) t = [].
Proof.
  induction t as [|r t IH]; intros Hp Hi; [done|]. cbn [map] in *.
  apply not_elem_of_cons in Hi as [Hr Hi].
  destruct (IH (fun x Hx => Hp x (proj2 (elem_of_cons _ _ _) (or_intror Hx))) Hi) as [-> Ht].
  rewrite filter_cons. destruct (p r) eqn:E; [|by rewrite decide_False by done].
  apply Hp in E; [done|]. apply elem_of_cons. by left.
Qed.

(** A statement keyed by id, on the unique row of that id. *)
Lemma update_by_id (t1 t2 : table) (r : ApprovalRequest) (p : ApprovalRequest -> bool)
    (f : ApprovalRequest -> ApprovalRequest) :
  NoDup (map id (t1 ++ r :: t2)) ->
  (forall x, x ∈ t1 ++ r :: t2 -> p x = true -> id x = id r) ->
  first_row (sql_update p f (t1 ++ r :: t2))
  = if p r then (Some (f r), t1 ++ f r :: t2) else (None, t1 ++ r :: t2).
Proof.
  intros Hnd Hp. rewrite map_app in Hnd. cbn in Hnd.
  apply NoDup_app in Hnd as (_ & H1 & H2). apply NoDup_cons in H2 as [H2 _].
  assert (H1' : id r ∉ map id t1) by (intros H; apply (H1 _ H), elem_of_cons; by left).
  destruct (map_update_other t1 p f (id r)) as [E1 F1];
    [intros x Hx; apply Hp, elem_of_app; by left|done|].
  destruct (map_update_other t2 p f (id r)) as [E2 F2];
    [intros x Hx; apply Hp, elem_of_app; right; apply elem_of_cons; by right|done|].
  unfold first_row, sql_update. cbn. rewrite filter_app, filter_cons, !map_app, E1, F1. cbn.
  rewrite E2, F2. destruct (p r) eqn:E.
  - by rewrite decide_True by done.
  - by rewrite decide_False by done.
Qed.

(** A decision takes effect once, on a pending and unexpired request only:
    then it records the decision, its time, the actor and the reason in that
    row and leaves every other row alone; otherwise it reports nothing and
    changes nothing. *)
Theorem decide_spec (t1 t2 : table) (r : ApprovalRequest) (decision : ApprovalStatus)
    (actor : ApprovalDecisionActor) (reason : option string) (now : Z) :
  NoDup (map id (t1 ++ r :: t2)) ->
  decide (id r) decision actor reason now (t1 ++ r :: t2)
  = if bool_decide (status r = Pending) && (now <? expiresAt r)
    then (Some (set_decision decision actor reason now r),
          t1 ++ set_decision decision actor reason now r :: t2)
    else (None, t1 ++ r :: t2).
Proof.
  intros Hnd. unfold decide. rewrite update_by_id.
  - by rewrite str_eqb_refl.
  - done.
  - intros x _ Hx. to_prop. by apply str_eqb_eq.
Qed.

Lemma take_min_length {A} (n : nat) (l : list A) : length (take n l) = Nat.min n (length l).
Proof. apply length_take. Qed.

Lemma page_length (ps pg : Z) (l : list ApprovalRequest) :
  1 <= ps -> 1 <= pg ->
  (ps <? Z.of_nat (length (take (Z.to_nat (ps + 1)) (drop (Z.to_nat ((pg - 1) * ps)) l))))
  = (pg * ps <? Z.of_nat (length l)).
Proof.
  intros Hs Hp. rewrite length_take, length_drop. apply eq_iff_eq_true. rewrite !Z.ltb_lt. nia.
Qed.

Lemma list_page (params : ApprovalListParams) (now : Z) (t : table) :
  1 <= l_pageSize params -> 1 <= l_page params ->
  requests (list_ params now t)
  = take (Z.to_nat (l_pageSize params))
      (drop (Z.to_nat ((l_page params - 1) * l_pageSize params)) (list_rows params now t)).
Proof.
  intros Hs Hp. cbn. rewrite !Z.max_r by lia. rewrite take_take. f_equal. lia.
Qed.

Definition with_page (params : ApprovalListParams) (p : Z) : ApprovalListParams :=
  {| l_userId := l_userId params; l_status := l_status params; l_page := p;
     l_pageSize := l_pageSize params; l_serverId := l_serverId params;
     l_toolName := l_toolName params |}.

Lemma list_rows_sorted (params : ApprovalListParams) (now : Z) (t : table) :
  StronglySorted (fun a b => (createdAt b <=? createdAt a) = true) (list_rows params now t).
Proof.
  apply isort_sorted.
  - intros x y. destruct (Z.leb_spec (createdAt y) (createdAt x)); [by left|right].
    apply Z.leb_le. lia.
  - intros x y z. rewrite !Z.leb_le. lia.
Qed.

(** Paging through a listing is lossless: the rows a listing ranges over
    are the matching rows of the table, each once, newest first; reading pages
    1 to [n] one after the other yields the first [n * pageSize] of them; and [hasMore] of page [n] says exactly whether rows
    remain. *)
Theorem list_pages (params : ApprovalListParams) (now : Z) (t : table) (n : nat) :
  1 <= l_pageSize params ->
  list_rows params now t ≡ₚ filter (fun r => list_where params now r = true) t
  /\ StronglySorted (fun a b => (createdAt b <=? createdAt a) = true) (list_rows params now t)
  /\ flat_map (fun p => requests (list_ (with_page params (Z.of_nat p)) now t)) (seq 1 n)
  = take (n * Z.to_nat (l_pageSize params)) (list_rows params now t)
  /\ ((1 <= n)%nat -> hasMore (list_ (with_page params (Z.of_nat n)) now t)
      = (Z.of_nat n * l_pageSize params <? Z.of_nat (length (list_rows params now t)))).
Proof.
  intros Hs. split; [apply isort_perm|]. split; [apply list_rows_sorted|]. split.
  - induction n as [|n IH]; [done|].
    rewrite seq_S, flat_map_app, IH. cbn [flat_map]. rewrite app_nil_r.
    rewrite list_page by (cbn; lia). cbn [l_page l_pageSize with_page].
    change (list_rows (with_page params (Z.of_nat (1 + n))) now t) with (list_rows params now t).
    replace (Z.to_nat ((Z.of_nat (1 + n) - 1) * l_pageSize params))
      with (n * Z.to_nat (l_pageSize params))%nat by lia.
    replace (S n * Z.to_nat (l_pageSize params))%nat
      with (n * Z.to_nat (l_pageSize params) + Z.to_nat (l_pageSize params))%nat by lia.
    by rewrite <- take_take_drop.
  - intros Hn. cbn [list_ hasMore l_page l_pageSize with_page].
    rewrite !Z.max_r by lia. apply page_length; lia.
Qed.

(** Clock skew is not tolerated: while the process's clock is past the
    expiry of a pending row of the hash and the database's clock is not, the
    row is neither active for the lookup nor stale for the expiry update, and
    [createOrGetPending] fails after its three retries. *)
Theorem createOrGetPending_clock_skew (params : CreateApprovalParams) (env : nat -> attempt)
    (r : ApprovalRequest) :
  requestHash r = p_requestHash params -> status r = Pending ->
  (forall k, expiresAt r <= app_now (env k) /\ db_now (env k) < expiresAt r) ->
  (forall k x, between1 (env k) x = x /\ between2 (env k) x = x /\ between3 (env k) x = x) ->
  createOrGetPending params env [r]
  = (Throw ("Failed to create or find approval request after 3 retries: "
            +:+ p_requestHash params), [r]).
Proof.
  intros Hh Hs Hclock Hb. unfold createOrGetPending. generalize maxRetries as n.
  induction n as [|n IH]; cbn [createOrGetPending_at]; set (e := env _);
    assert (Hi : insertPending (uuid e) (app_now e) params [r] = (Ok None, [r]))
      by (unfold insertPending; cbn; by rewrite Hh, Hs, str_eqb_refl);
    assert (Hf : findFirst_desc (is_active (p_requestHash params) (app_now e)) [r] = None)
      by (cbn; unfold is_active; rewrite Hh, Hs, str_eqb_refl; cbn;
          destruct (Hclock (maxRetries - 0)%nat);
          destruct (Z.ltb_spec (app_now e) (expiresAt r)); [|done];
          pose proof (Hclock (maxRetries - 0)%nat); unfold e in *;
          match goal with H : app_now (env ?k) < _ |- _ => destruct (Hclock k); lia end);
    unfold mbnd, mmodify, mgets; rewrite Hi.
  - destruct (Hb (maxRetries - 0)%nat [r]) as (B & _). fold e in B. by rewrite B, Hf.
  - destruct (Hb (maxRetries - S n)%nat [r]) as (B1 & B2 & B3). fold e in B1, B2, B3.
    rewrite B1, Hf, B2.
    assert (expireStaleOfHash (p_requestHash params) (db_now e) [r] = [r]) as ->.
    { unfold expireStaleOfHash. cbn. rewrite Hh, Hs, str_eqb_refl. cbn.
      destruct (Hclock (maxRetries - S n)%nat). fold e in H0.
      by destruct (Z.leb_spec (expiresAt r) (db_now e)); [lia|]. }
    rewrite B3. apply IH.
Qed.

(** ** Witnesses *)

Definition ex_params : CreateApprovalParams :=
  {| p_userId := "u1"; p_serverId := Some "s1"%string; p_toolName := "send";
     p_canonicalArgs := JObj []; p_redactedArgs := JObj []; p_policyVersion := 1;
     p_requestHash := "h"; p_expiresAt := 600; p_uniformRequestId := None |}.

Definition ex_actor : ApprovalDecisionActor :=
  {| actorUserId := Some "admin"%string; actorRole := Some 1; channel := "socket" |}.

Definition ex_history : list statement :=
  [SInsert "a1" 0 ex_params; SDecide "a1" true ex_actor None 10].

Definition ex_env (app db : Z) (k : nat) : attempt :=
  {| uuid := "fresh"; app_now := app; db_now := db;
     between1 := fun t => t; between2 := fun t => t; between3 := fun t => t |}.

Definition ex_list : ApprovalListParams :=
  {| l_userId := None; l_status := Some "PENDING"%string; l_page := 1; l_pageSize := 2;
     l_serverId := None; l_toolName := None |}.

Lemma no_execution_without_approval_witness :
  "a1"%string ∈ approved_ids ex_history [].
Proof.
  apply (no_execution_without_approval ex_history (SClaimHash "h" 20)).
  vm_compute. apply elem_of_cons. by left.
Defined.

Lemma statement_transitions_witness :
  exists r', r' ∈ snd (exec (SExpireStale 700) [new_row "a1" 0 ex_params])
  /\ same_identity (new_row "a1" 0 ex_params) r'
  /\ legal Pending (status r') = true
  /\ (terminal Pending = true -> r' = new_row "a1" 0 ex_params).
Proof.
  apply (statement_transitions (SExpireStale 700) [new_row "a1" 0 ex_params]).
  apply elem_of_cons. by left.
Defined.

Lemma createOrGetPending_sound_witness :
  exists t' : table, new_row "fresh" 5 ex_params ∈ t'.
Proof.
  exists [new_row "fresh" 5 ex_params].
  destruct (createOrGetPending_sound ex_params (ex_env 5 5) [] [new_row "fresh" 5 ex_params]
              true (new_row "fresh" 5 ex_params)) as [H _]; [vm_compute; reflexivity|exact H].
Defined.

Lemma createOrGetPending_returns_witness :
  exists res t', createOrGetPending ex_params (ex_env 700 700) [new_row "a1" 0 ex_params]
                 = (Ok res, t').
Proof.
  apply createOrGetPending_returns.
  - intros k H. vm_compute in H. apply list_elem_of_singleton in H. discriminate H.
  - intros k. cbn. lia.
  - done.
Defined.

Lemma decide_spec_witness :
  decide "a1" Approved ex_actor None 10 [new_row "a1" 0 ex_params]
  = (Some (set_decision Approved ex_actor None 10 (new_row "a1" 0 ex_params)),
     [set_decision Approved ex_actor None 10 (new_row "a1" 0 ex_params)]).
Proof.
  refine (decide_spec [] [] (new_row "a1" 0 ex_params) Approved ex_actor None 10 _).
  apply NoDup_singleton.
Defined.

Lemma list_pages_witness :
  flat_map (fun p => requests (list_ (with_page ex_list (Z.of_nat p)) 5
                                 [new_row "a1" 0 ex_params])) (seq 1 2)
  = take 4 (list_rows ex_list 5 [new_row "a1" 0 ex_params]).
Proof.
  destruct (list_pages ex_list 5 [new_row "a1" 0 ex_params] 2) as (_ & _ & H & _);
    [cbn; lia|exact H].
Defined.

Lemma createOrGetPending_clock_skew_witness :
  createOrGetPending ex_params (ex_env 600 599) [new_row "a1" 0 ex_params]
  = (Throw "Failed to create or find approval request after 3 retries: h"%string,
     [new_row "a1" 0 ex_params]).
Proof.
  apply createOrGetPending_clock_skew; [done|done| |done]. intros k. cbn. lia.
Defined.
