(* ===== verification/ApprovalService.v ===== *)
(** * The approval service

    [src/src/mcp/services/ApprovalService.ts]: creation with deduplication and
    rate limits, claiming, deciding, results, and the two redactions (of
    arguments for display, of results for replay).  Statements of other
    clients that run between the service's own are part of a call's
    environment. *)
From Stdlib Require Import Sorted.
From stdpp Require Import base strings list.
From S2P Require Import Prelude Json ApprovalHasher ApprovalRepository.
Open Scope Z_scope.

Definition DEFAULT_EXPIRY_MS : Z := 600000.
Definition APPROVAL_CREATE_RATE_LIMIT_COUNT : Z := 10.
Definition APPROVAL_CREATE_RATE_LIMIT_WINDOW_MS : Z := 60000.
Definition APPROVAL_CREATE_RATE_LIMIT_PER_HASH_COUNT : Z := 3.
Definition EXECUTING_STALE_TIMEOUT_MS : Z := 600000.
Definition MAX_EXECUTION_RESULT_BYTES : nat := Z.to_nat 65536.
Definition MAX_EXECUTION_RESULT_PREVIEW_CHARS : nat := 280.

Record CreateApprovalInput : Type := {
  in_userId : string;
  in_serverId : option string;
  in_toolName : string;
  in_args : list (string * json);
  in_policyVersion : Z;
  in_uniformRequestId : option string;
  in_expiresInMs : option Z
}.

Record ApprovalCheckResult : Type := {
  needsApproval : bool;
  created : bool;
  request : option ApprovalRequest;
  c_requestHash : string
}.

Inductive approval_error : Type :=
| ApprovalRateLimitError (message : string)
| RepositoryError (message : string).

(** ** Redaction of arguments for display *)

Definition MAX_STRING_LENGTH : nat := 100.
Definition MAX_DEPTH : nat := 2.

Definition truncate_string (value : string) : string :=
  if (MAX_STRING_LENGTH <? String.length value)%nat
  then str_take MAX_STRING_LENGTH value +:+ "..." else value.

(** One item of an array argument. *)
Definition redactItem (item : json) : json :=
  match item with
  | JNull | JUndefined | JNum _ | JBool _ => item
  | JStr s => JStr (truncate_string s)
  | JArr _ | JObj _ => JStr "[object]"
  end.

Fixpoint redactValue (depth : nat) (value : json) : json :=
  match value with
  | JNull | JUndefined | JNum _ | JBool _ => value
  | JStr s => JStr (truncate_string s)
  | JArr l =>
      if (depth <? MAX_DEPTH)%nat then JArr (map redactItem l)
      else JStr ("[Array(" +:+ z_to_string (Z.of_nat (length l)) +:+ ")]")
  | JObj kvs =>
      if (depth <? MAX_DEPTH)%nat
      then JObj (assign_all (map (fun kv => (fst kv, redactValue (S depth) (snd kv))) kvs))
      else JStr "[object]"
  end.

Definition redactArgs (args : list (string * json)) (depth : nat) : list (string * json) :=
  assign_all (map (fun kv => (fst kv, redactValue depth (snd kv))) args).

(** ** Redaction of execution results *)

Definition sensitive_words : list string :=
  ["password"; "secret"; "token"; "apikey"; "api_key"; "authorization"; "credential"]%string.

(** [sensitivePattern.test(key)]: case-insensitive search. *)
Definition sensitiveKey (key : string) : bool :=
  existsb (fun w => includes w (to_lower key)) sensitive_words.

(** [keyHint && sensitivePattern.test(keyHint)] *)
Definition hint_sensitive (keyHint : option string) : bool :=
  match keyHint with Some k => truthy_str k && sensitiveKey k | None => false end.

Fixpoint walk (value : json) (keyHint : option string) : json :=
  if hint_sensitive keyHint then JStr "[redacted]"
  else match value with
       | JArr l => JArr (map (fun item => walk item None) l)
       | JObj kvs =>
           JObj (assign_all (map (fun kv => (fst kv, walk (snd kv) (Some (fst kv)))) kvs))
       | _ => value
       end.

Definition redactSensitiveExecutionFields (input : json) : json := walk input None.

Definition sanitizeExecutionResult (executionResult : json) : json :=
  match executionResult with
  | JObj _ =>
      let redactedResult := redactSensitiveExecutionFields executionResult in
      let rawJson := text redactedResult in
      if (String.length rawJson <=? MAX_EXECUTION_RESULT_BYTES)%nat then redactedResult
      else JObj [("kind", JStr "execution_result_truncated");
                 ("preview", JStr (str_take MAX_EXECUTION_RESULT_PREVIEW_CHARS rawJson));
                 ("truncated", JBool true);
                 ("originalSizeBytes", JNum (Z.of_nat (String.length rawJson)))]
  | _ => JObj [("kind", JStr "execution_result_unavailable");
               ("preview", JStr "Execution result is unavailable for replay.");
               ("truncated", JBool false)]
  end.

(** ** Creating and claiming *)

(** The clock readings and foreign statements of one call. *)
Record call_env : Type := {
  t_active : Z;
  t_rate : Z;
  t_expiry : Z;
  after_active : table -> table;
  after_hash_count : table -> table;
  after_tool_count : table -> table;
  attempts : nat -> attempt
}.

Section Service.
Variable sha256 : string -> string.

Definition request_hash (input : CreateApprovalInput) : string :=
  computeHash sha256 (in_userId input) (in_serverId input) (in_toolName input)
    (JObj (in_args input)) (in_policyVersion input).

(** [JSON.parse(canonicalizeArgs(args))] *)
Definition canonical_args (args : list (string * json)) : result approval_error json :=
  match JSON_parse (canonicalizeArgs (JObj args)) with
  | Some v => Ok v
  | None => Throw (RepositoryError "SyntaxError")
  end.

Definition create_params (input : CreateApprovalInput) (canonical : json) (now : Z)
    : CreateApprovalParams :=
  {| p_userId := in_userId input; p_serverId := in_serverId input;
     p_toolName := in_toolName input; p_canonicalArgs := canonical;
     p_redactedArgs := JObj (redactArgs (in_args input) 0);
     p_policyVersion := in_policyVersion input; p_requestHash := request_hash input;
     p_expiresAt := now + default DEFAULT_EXPIRY_MS (in_expiresInMs input);
     p_uniformRequestId := in_uniformRequestId input |}.

Definition check_result (needs cr : bool) (r : option ApprovalRequest)
    (input : CreateApprovalInput) : ApprovalCheckResult :=
  {| needsApproval := needs; created := cr; request := r; c_requestHash := request_hash input |}.

Definition checkOrCreateApproval (input : CreateApprovalInput) (env : call_env)
    : M table approval_error ApprovalCheckResult :=
  let hash := request_hash input in
  let! canonical := (fun t => (canonical_args (in_args input), t)) in
  let! existing := mgets (findActiveByRequestHash hash (t_active env)) in
  match existing with
  | Some r => mret (check_result (negb (bool_decide (status r = Approved))) false (Some r) input)
  | None =>
      mmodify (after_active env) ;!
      let windowStart := t_rate env - APPROVAL_CREATE_RATE_LIMIT_WINDOW_MS in
      let! byHash := mgets (countRecentCreationsByRequestHash (in_userId input) hash windowStart) in
      if APPROVAL_CREATE_RATE_LIMIT_PER_HASH_COUNT <=? byHash
      then mthrow (ApprovalRateLimitError
             "Too many retries for this exact approval request. Please retry after 60 seconds.")
      else
      mmodify (after_hash_count env) ;!
      let! byTool := mgets (countRecentCreationsByTool (in_userId input) (in_serverId input)
                              (in_toolName input) windowStart) in
      if APPROVAL_CREATE_RATE_LIMIT_COUNT <=? byTool
      then mthrow (ApprovalRateLimitError
             ("Too many approval requests for " +:+ in_toolName input
              +:+ ". Please retry after 60 seconds."))
      else
      mmodify (after_tool_count env) ;!
      let! res := mmap_err RepositoryError
                    (createOrGetPending (create_params input canonical (t_expiry env))
                       (attempts env)) in
      let '(cr, r) := res in
      if negb cr && bool_decide (status r = Approved)
      then mret (check_result false false (Some r) input)
      else mret (check_result true cr (Some r) input)
  end.
End Service.

Record ApprovalClaimResult : Type := { claimed : bool; claim_request : option ApprovalRequest }.

Definition claim_result (o : option ApprovalRequest) : ApprovalClaimResult :=
  match o with
  | Some r => {| claimed := true; claim_request := Some r |}
  | None => {| claimed := false; claim_request := None |}
  end.

Definition claimForExecution (hash : string) (dbNow : Z) (t : table)
    : ApprovalClaimResult * table :=
  let '(o, t') := claimApprovedForExecution hash dbNow t in (claim_result o, t').

Definition claimForExecutionById (i : string) (dbNow : Z) (t : table)
    : ApprovalClaimResult * table :=
  let '(o, t') := claimApprovedForExecutionById i dbNow t in (claim_result o, t').

Definition service_markExecuted (i : string) (executionResult : json) (now : Z) (t : table)
    : option ApprovalRequest * table :=
  markExecuted i (sanitizeExecutionResult executionResult) now t.

Definition service_recoverStaleExecuting (now dbNow : Z) (t : table)
    : list ApprovalRequest * table :=
  recoverStaleExecuting (now - EXECUTING_STALE_TIMEOUT_MS) dbNow t.

Definition listApprovals (user stat : option string) (pg psize : option Z)
    (server tool : option string) (now : Z) (t : table) : ApprovalListResult :=
  list_ {| l_userId := user; l_status := stat; l_page := Z.max (default 1 pg) 1;
           l_pageSize := Z.min (Z.max (default 20 psize) 1) 100;
           l_serverId := server; l_toolName := tool |} now t.

(** Only finished executions have a result to show. *)
Definition getResultById (i : string) (t : table) : option ApprovalRequest :=
  match findById i t with
  | None => None
  | Some r =>
      if negb (bool_decide (status r = Executed)) && negb (bool_decide (status r = Failed))
      then None else Some r
  end.

(** One tick of the sweeper: the expired and the recovered rows are notified. *)
Definition sweep (now dbNow : Z) (t : table)
    : list ApprovalRequest * list ApprovalRequest * table :=
  let '(expired, t1) := expireStale dbNow t in
  let '(recovered, t2) := service_recoverStaleExecuting now dbNow t1 in
  (expired, recovered, t2).

(** ** Lemmas: redaction *)

Lemma keys_assign_all {A} (kvs acc : list (string * A)) (k : string) :
  assoc k (fold_left (fun o kv => obj_assign (fst kv) (snd kv) o) kvs acc)
  = if str_eqb k "__proto__" then assoc k acc
    else match assoc k (rev kvs) with Some v => Some v | None => assoc k acc end.
Proof.
  revert acc. induction kvs as [|[k' v] kvs IH]; intros acc; cbn; [by destruct (str_eqb _ _)|].
  rewrite IH. unfold obj_assign. destruct (str_eqb k "__proto__") eqn:E.
  - destruct (str_eqb k' "__proto__") eqn:E'; [done|]. rewrite assoc_obj_put.
    destruct (str_eqb k k') eqn:E2; [|done].
    apply str_eqb_eq in E2 as ->. congruence.
  - assert (Hr : forall l, assoc k (l ++ [(k', v)])
        = match assoc k l with Some x => Some x | None => if str_eqb k k' then Some v else None end).
    { induction l as [|[a x] l IHl]; [done|]. cbn. by destruct (str_eqb k a). }
    rewrite Hr. destruct (assoc k (rev kvs)); [done|].
    destruct (str_eqb k' "__proto__") eqn:E'.
    + destruct (str_eqb k k') eqn:E2; [|done]. apply str_eqb_eq in E2 as ->. congruence.
    + rewrite assoc_obj_put. by destruct (str_eqb k k').
Qed.

Lemma assoc_assign_all {A} (kvs : list (string * A)) (k : string) :
  NoDup (keys kvs) ->
  assoc k (assign_all kvs) = if str_eqb k "__proto__" then None else assoc k kvs.
Proof.
  intros Hnd. unfold assign_all. rewrite keys_assign_all. cbn.
  destruct (str_eqb k "__proto__"); [done|].
  rewrite (assoc_perm (rev kvs) kvs k).
  - by destruct (assoc k kvs).
  - assert (keys (rev kvs) ≡ₚ keys kvs) as ->; [|done]. apply Permutation_map. symmetry.
    apply Permutation_rev.
  - symmetry. apply Permutation_rev.
Qed.

Lemma assign_all_Forall {A} (P : string * A -> Prop) (kvs acc : list (string * A)) :
  Forall P acc -> Forall P kvs ->
  Forall P (fold_left (fun o kv => obj_assign (fst kv) (snd kv) o) kvs acc).
Proof.
  intros Hacc Hk. revert acc Hacc. induction Hk as [|[k v] kvs Hx Hk IH]; intros acc Hacc; [done|].
  cbn. apply IH. unfold obj_assign. destruct (str_eqb k "__proto__"); [done|].
  clear IH. induction acc as [|[k' v'] acc IHa]; cbn; [by constructor|].
  inversion_clear Hacc. destruct (str_eqb k k'); [by constructor|].
  destruct (_ && _); constructor; auto.
Qed.

(** What display redaction may leave: nesting of at most [d] more levels, and
    strings of at most 100 units plus an ellipsis, or a size marker. *)
Definition short_string (s : string) : bool :=
  (String.length s <=? 103)%nat || starts_with "[Array(" s.

Fixpoint displayable (d : nat) (v : json) : bool :=
  match v with
  | JStr s => short_string s
  | JArr l => match d with O => false | S d' => forallb (displayable d') l end
  | JObj kvs => match d with O => false | S d' => forallb (fun kv => displayable d' (snd kv)) kvs end
  | _ => true
  end.

Lemma truncate_short (s : string) : short_string (truncate_string s) = true.
Proof.
  unfold short_string, truncate_string, MAX_STRING_LENGTH. case_bool; to_prop.
  - rewrite str_length_app, str_length_take. rewrite Nat.min_l by lia. done.
  - apply orb_true_iff. left. apply Nat.leb_le. lia.
Qed.

Lemma redactItem_displayable (v : json) (d : nat) : displayable d (redactItem v) = true.
Proof. destruct v, d; try done; apply truncate_short. Qed.

Lemma redactValue_displayable (v : json) (depth : nat) :
  displayable (MAX_DEPTH - depth) (redactValue depth v) = true.
Proof.
  revert depth. induction v as [| |b|n|s|l IH|kvs IH] using json_ind'; intros depth;
    cbn [redactValue]; try done.
  - by destruct (MAX_DEPTH - depth)%nat.
  - by destruct (MAX_DEPTH - depth)%nat.
  - by destruct (MAX_DEPTH - depth)%nat.
  - by destruct (MAX_DEPTH - depth)%nat.
  - destruct (MAX_DEPTH - depth)%nat; apply truncate_short.
  - destruct (Nat.ltb_spec depth MAX_DEPTH).
    + destruct (MAX_DEPTH - depth)%nat eqn:E; [lia|]. cbn. apply forallb_forall.
      intros x (y & <- & _)%in_map_iff. apply redactItem_displayable.
    + destruct (MAX_DEPTH - depth)%nat; apply orb_true_iff; right; apply starts_with_app.
  - destruct (Nat.ltb_spec depth MAX_DEPTH).
    + destruct (MAX_DEPTH - depth)%nat as [|d] eqn:E; [lia|]. cbn [displayable].
      apply forallb_forall. intros x Hx. apply list_elem_of_In in Hx. revert x Hx.
      apply Forall_forall. apply assign_all_Forall; [constructor|].
      clear -IH E. assert (Hd : (MAX_DEPTH - S depth = d)%nat) by lia.
      induction IH as [|[k v] kvs Hv IH IHl]; [constructor|].
      constructor; [|done]. cbn [fst snd] in *. specialize (Hv (S depth)). by rewrite Hd in Hv.
    + by destruct (MAX_DEPTH - depth)%nat.
Qed.

(** No sensitive property below [v] keeps a value. *)
Fixpoint scrubbed (v : json) : bool :=
  match v with
  | JArr l => forallb scrubbed l
  | JObj kvs =>
      forallb (fun kv => (negb (sensitiveKey (fst kv)) || str_eqb (fst kv) ""
                          || json_eqb (snd kv) (JStr "[redacted]")) && scrubbed (snd kv)) kvs
  | _ => true
  end.

Lemma walk_sensitive (v : json) (h : option string) :
  hint_sensitive h = true -> walk v h = JStr "[redacted]".
Proof. intros H. destruct v; cbn [walk]; by rewrite H. Qed.

Lemma walk_scrubbed (v : json) (keyHint : option string) : scrubbed (walk v keyHint) = true.
Proof.
  revert keyHint. induction v as [| |b|n|s|l IH|kvs IH] using json_ind'; intros h; cbn [walk];
    destruct (hint_sensitive h); try done.
  - cbn. apply forallb_forall. intros x (y & <- & Hy)%in_map_iff. rewrite Forall_forall in IH.
    apply IH. by apply list_elem_of_In.
  - cbn [scrubbed]. apply forallb_forall. intros x Hx. apply list_elem_of_In in Hx. revert x Hx.
    apply Forall_forall. apply assign_all_Forall; [constructor|].
    induction IH as [|[k v] kvs Hv IH IHl]; [constructor|]. constructor; [|done].
    cbn [fst snd] in *. rewrite Hv, andb_true_r.
    destruct (sensitiveKey k) eqn:E; [|done].
    destruct (str_eqb k "") eqn:E2; [done|].
    apply json_eqb_eq, walk_sensitive. unfold hint_sensitive, truthy_str. by rewrite E, E2.
Qed.

(** A value that names nothing sensitive: redaction is the identity on it. *)
Fixpoint innocuous (v : json) : bool :=
  match v with
  | JArr l => forallb innocuous l
  | JObj kvs =>
      forallb (fun kv => negb (sensitiveKey (fst kv)) && negb (str_eqb (fst kv) "__proto__")
                         && innocuous (snd kv)) kvs
  | _ => true
  end.

Lemma assign_all_id {A} (kvs : list (string * A)) :
  forallb (fun kv => negb (str_eqb (fst kv) "__proto__")) kvs = true ->
  assign_all kvs = from_entries kvs.
Proof.
  unfold assign_all, from_entries. generalize (@nil (string * A)).
  induction kvs as [|[k v] kvs IH]; intros acc H; [done|]. cbn [forallb fst snd fold_left] in *.
  to_prop. unfold obj_assign at 2. rewrite H. by apply IH.
Qed.

Lemma walk_innocuous (v : json) (h : option string) :
  is_json v = true -> innocuous v = true -> hint_sensitive h = false -> walk v h = v.
Proof.
  revert h. induction v as [| |b|n|s|l IH|kvs IH] using json_ind'; intros h Hj Hi Hh;
    cbn [walk]; rewrite Hh; try done.
  - f_equal. apply is_json_arr in Hj. cbn in Hi. clear -IH Hj Hi.
    induction IH as [|x l Hx IH IHl]; [done|]. cbn in *. inversion_clear Hj. to_prop.
    f_equal; auto.
  - apply is_json_obj in Hj as (Hj & Hnd & Ho). cbn [innocuous] in Hi. f_equal.
    rewrite map_ext_in with (g := fun kv => kv).
    + rewrite map_id, assign_all_id; [by apply from_entries_id|].
      apply forallb_forall. intros kv Hin. rewrite forallb_forall in Hi.
      specialize (Hi kv Hin). by repeat (apply andb_true_iff in Hi as [Hi ?]).
    + intros [k v] Hin. cbn [fst snd]. f_equal. rewrite Forall_forall in IH, Hj.
      assert (Hin' : (k, v) ∈ kvs) by (by apply list_elem_of_In).
      rewrite forallb_forall in Hi. specialize (Hi _ Hin). cbn [fst snd] in Hi. to_prop.
      apply (IH _ Hin'); [by apply (Hj _ Hin')|done|].
      unfold hint_sensitive. by rewrite H, andb_false_r.
Qed.

(** The arguments stored for display are bounded and keep their names:
    redaction leaves at most three levels of values and no string longer than
    100 units plus the ellipsis, apart from the array size marker; and every
    argument (but one named [__proto__], which a JavaScript assignment cannot
    create) is still there, redacted on its own. *)
Theorem redactArgs_bounded (args : list (string * json)) :
  NoDup (keys args) ->
  forallb (fun kv => displayable MAX_DEPTH (snd kv)) (redactArgs args 0) = true
  /\ (forall k, k <> "__proto__"%string ->
      assoc k (redactArgs args 0) = redactValue 0 <$> assoc k args).
Proof.
  intros Hnd. split.
  - apply forallb_forall. intros x Hx. apply list_elem_of_In in Hx. revert x Hx.
    apply Forall_forall. apply assign_all_Forall; [constructor|]. clear Hnd.
    induction args as [|[k v] args IH]; constructor; [|done].
    apply (redactValue_displayable v 0).
  - intros k Hk. unfold redactArgs. rewrite assoc_assign_all by (by rewrite keys_map_snd).
    apply str_eqb_neq in Hk as ->. clear Hnd.
    induction args as [|[k' v] args IH]; [done|]. cbn. by destruct (str_eqb k k').
Qed.

(** A stored execution result leaks no credential under a telling name: in
    what [markExecuted] persists, at any depth, the value of a property whose
    name contains password, secret, token, apikey, api_key, authorization or
    credential, in any case, is the redaction marker.  A result object that
    has no such name and fits the size limit is persisted unchanged. *)
Theorem sanitized_result_scrubbed (r : json) :
  scrubbed (sanitizeExecutionResult r) = true
  /\ (forall kvs, r = JObj kvs -> is_json r = true -> innocuous r = true ->
      (String.length (text r) <= MAX_EXECUTION_RESULT_BYTES)%nat ->
      sanitizeExecutionResult r = r).
Proof.
  split.
  - unfold sanitizeExecutionResult. destruct r; try done.
    destruct (_ <=? _)%nat; [apply walk_scrubbed|done].
  - intros kvs -> Hj Hi Hl. unfold sanitizeExecutionResult, redactSensitiveExecutionFields.
    rewrite walk_innocuous by done. apply Nat.leb_le in Hl. by rewrite Hl.
Qed.

(** ** Lemmas: creation *)

(** No other client runs between the statements of the call. *)
Definition quiet (env : call_env) : Prop :=
  (forall t, after_active env t = t /\ after_hash_count env t = t /\ after_tool_count env t = t)
  /\ (forall k t, between1 (attempts env k) t = t /\ between2 (attempts env k) t = t
                  /\ between3 (attempts env k) t = t).

(** The columns the rate limits count by. *)
Definition count_key (r : ApprovalRequest) : string * option string * string * string * Z :=
  (userId r, serverId r, toolName r, requestHash r, createdAt r).

Lemma expireStaleOfHash_keys (hash : string) (n : Z) (t : table) :
  map count_key (expireStaleOfHash hash n t) = map count_key t.
Proof.
  unfold expireStaleOfHash. cbn. rewrite map_map. apply map_ext. intros r. by destruct (_ && _).
Qed.

(** What [createOrGetPending] does to the counted columns. *)
Lemma attempt_keys (params : CreateApprovalParams) (env : nat -> attempt) (left : nat) :
  (forall k t, between1 (env k) t = t /\ between2 (env k) t = t /\ between3 (env k) t = t) ->
  forall t, let '(res, t') := createOrGetPending_at params env left t in
  map count_key t' = map count_key t
  \/ exists k, map count_key t'
               = map count_key t ++ [count_key (new_row (uuid (env k)) (app_now (env k)) params)].
Proof.
  intros Hb. induction left as [|left IH]; intros t; cbn [createOrGetPending_at];
    set (k := (maxRetries - _)%nat); unfold mbnd, mmodify, mgets, mret;
    destruct (insertPending_cases (uuid (env k)) (app_now (env k)) params t)
      as [(t1 & -> & -> & _)|[(-> & _)|(x & -> & _)]];
    try (right; exists k; by rewrite map_app); try (by left);
    destruct (Hb k t) as (B1 & B2 & _); rewrite B1; destruct (findFirst_desc _ _); try (by left).
  rewrite B2. destruct (Hb k (expireStaleOfHash (p_requestHash params) (db_now (env k)) t)) as (_ & _ & ->).
  specialize (IH (expireStaleOfHash (p_requestHash params) (db_now (env k)) t)).
  destruct (createOrGetPending_at _ _ _ _) as [res t']. by rewrite expireStaleOfHash_keys in IH.
Qed.

Definition count_keys (p : string * option string * string * string * Z -> bool) (t : table) : Z :=
  Z.of_nat (length (filter (fun k => p k = true) (map count_key t))).

Lemma count_rows_keys (p : ApprovalRequest -> bool) q (t : table) :
  (forall r, p r = q (count_key r)) -> count_rows p t = count_keys q t.
Proof.
  intros H. unfold count_rows, count_keys. f_equal. induction t as [|r t IH]; [done|].
  cbn [map]. rewrite !filter_cons, H.
  destruct (base.decide (q (count_key r) = true)); cbn; by rewrite IH.
Qed.

Definition key_by_hash (user hash : string) (lo : Z) (hi : option Z)
    (k : string * option string * string * string * Z) : bool :=
  let '(u, _, _, h, c) := k in
  str_eqb u user && str_eqb h hash && (lo <=? c)
  && match hi with Some x => c <=? x | None => true end.

Definition key_by_tool (user : string) (server : option string) (tool : string) (lo : Z)
    (hi : option Z) (k : string * option string * string * string * Z) : bool :=
  let '(u, s, t, _, c) := k in
  str_eqb u user && str_eqb t tool && same_server server s && (lo <=? c)
  && match hi with Some x => c <=? x | None => true end.

(** In no window of the rate limit's length are there more creations than the
    limits allow, per user and hash and per user, server and tool. *)
Definition windows_ok (t : table) : Prop :=
  forall x, (forall user hash, count_keys (key_by_hash user hash x
                (Some (x + APPROVAL_CREATE_RATE_LIMIT_WINDOW_MS))) t
              <= APPROVAL_CREATE_RATE_LIMIT_PER_HASH_COUNT)
  /\ (forall user server tool, count_keys (key_by_tool user server tool x
                (Some (x + APPROVAL_CREATE_RATE_LIMIT_WINDOW_MS))) t
              <= APPROVAL_CREATE_RATE_LIMIT_COUNT).

Lemma count_keys_mono p q (t : table) :
  (forall k, p k = true -> q k = true) -> count_keys p t <= count_keys q t.
Proof.
  intros H. unfold count_keys. apply Nat2Z.inj_le. generalize (map count_key t) as l.
  induction l as [|k l IH]; [done|]. rewrite !filter_cons.
  destruct (base.decide (p k = true)) as [E|E].
  - rewrite decide_True by auto. cbn. lia.
  - destruct (base.decide (q k = true)); cbn; lia.
Qed.

Lemma count_keys_snoc p (t t' : table) (key : string * option string * string * string * Z) :
  map count_key t' = map count_key t ++ [key] ->
  count_keys p t' = count_keys p t + (if p key then 1 else 0).
Proof.
  intros E. unfold count_keys. rewrite E, filter_app, length_app, Nat2Z.inj_add. f_equal.
  rewrite filter_cons.
  destruct (p key) eqn:Hp; [by rewrite decide_True|by rewrite decide_False by congruence].
Qed.

Lemma count_keys_eq p (t t' : table) :
  map count_key t' = map count_key t -> count_keys p t' = count_keys p t.
Proof. intros E. unfold count_keys. by rewrite E. Qed.

Lemma key_by_hash_weaken user hash x lo hi k :
  lo <= x -> key_by_hash user hash x hi k = true -> key_by_hash user hash lo None k = true.
Proof.
  intros Hl. destruct k as [[[[u s] t] h] c]. unfold key_by_hash.
  rewrite !andb_true_iff, !Z.leb_le. intros [[[? ?] ?] _]. repeat split; try done; lia.
Qed.

Lemma key_by_tool_weaken user server tool x lo hi k :
  lo <= x -> key_by_tool user server tool x hi k = true ->
  key_by_tool user server tool lo None k = true.
Proof.
  intros Hl. destruct k as [[[[u s] t] h] c]. unfold key_by_tool.
  rewrite !andb_true_iff, !Z.leb_le. intros [[[[? ?] ?] ?] _]. repeat split; try done; lia.
Qed.

Lemma same_server_eq (a b : option string) : same_server a b = true -> b = a.
Proof. destruct a, b; cbn; try done. by intros ->%str_eqb_eq. Qed.

Lemma create_keys (sha256 : string -> string) (input : CreateApprovalInput) (env : call_env)
    (t : table) :
  quiet env ->
  let t' := snd (checkOrCreateApproval sha256 input env t) in
  let lo := t_rate env - APPROVAL_CREATE_RATE_LIMIT_WINDOW_MS in
  map count_key t' = map count_key t
  \/ exists k, map count_key t' = map count_key t
        ++ [(in_userId input, in_serverId input, in_toolName input, request_hash sha256 input,
             app_now (attempts env k))]
     /\ countRecentCreationsByRequestHash (in_userId input) (request_hash sha256 input) lo t
        < APPROVAL_CREATE_RATE_LIMIT_PER_HASH_COUNT
     /\ countRecentCreationsByTool (in_userId input) (in_serverId input) (in_toolName input) lo t
        < APPROVAL_CREATE_RATE_LIMIT_COUNT.
Proof.
  intros [Hq Hb]. cbn zeta. unfold checkOrCreateApproval, mbnd, mmodify, mgets, mret, mthrow, mmap_err.
  destruct (canonical_args _) as [c|e]; [|by left].
  destruct (findActiveByRequestHash _ _ _); [by left|].
  destruct (Hq t) as (-> & Hq2 & Hq3).
  destruct (Z.leb_spec APPROVAL_CREATE_RATE_LIMIT_PER_HASH_COUNT
    (countRecentCreationsByRequestHash (in_userId input) (request_hash sha256 input)
       (t_rate env - APPROVAL_CREATE_RATE_LIMIT_WINDOW_MS) t)) as [|H1]; [by left|].
  rewrite Hq2.
  destruct (Z.leb_spec APPROVAL_CREATE_RATE_LIMIT_COUNT
    (countRecentCreationsByTool (in_userId input) (in_serverId input) (in_toolName input)
       (t_rate env - APPROVAL_CREATE_RATE_LIMIT_WINDOW_MS) t)) as [|H2]; [by left|].
  rewrite Hq3. unfold createOrGetPending.
  pose proof (attempt_keys (create_params sha256 input c (t_expiry env)) (attempts env)
                maxRetries Hb t) as H.
  destruct (createOrGetPending_at _ _ _ _) as [[[cr r]|e] t'].
  - destruct H as [H|(k & H)].
    + left. by destruct (negb cr && _).
    + right. exists k. split; [|done]. by destruct (negb cr && _).
  - destruct H as [H|(k & H)]; [by left|]. right. exists k. done.
Qed.

(** The creation rate limits hold over every sliding window: if no window
    of 60 seconds contains more than 3 creations of a user and hash, nor more
    than 10 of a user, server and tool, then the same is true after any call,
    as long as the call's statements are not interleaved with others and the
    process's clock does not run backwards during it. *)
Theorem creation_rate_limited (sha256 : string -> string) (input : CreateApprovalInput)
    (env : call_env) (t : table) :
  quiet env -> (forall k, t_rate env <= app_now (attempts env k)) ->
  windows_ok t -> windows_ok (snd (checkOrCreateApproval sha256 input env t)).
Proof.
  intros Hq Hc Hw x. destruct (create_keys sha256 input env t Hq) as [E|(k & E & H1 & H2)].
  - split; intros; rewrite (count_keys_eq _ t) by done; apply Hw.
  - specialize (Hc k). unfold countRecentCreationsByRequestHash in H1.
    unfold countRecentCreationsByTool in H2.
    erewrite (count_rows_keys _ (key_by_hash _ _ _ None)) in H1
      by (intros r; cbn; by rewrite andb_true_r).
    erewrite (count_rows_keys _ (key_by_tool _ _ _ _ None)) in H2
      by (intros r; cbn; by rewrite andb_true_r).
    split; [intros user hash|intros user server tool]; rewrite (count_keys_snoc _ t _ _ E);
      destruct (Hw x) as [W1 W2]; [specialize (W1 user hash)|specialize (W2 user server tool)];
      match goal with |- _ + (if ?b then _ else _) <= _ => destruct b eqn:Hk end; try lia.
    + unfold key_by_hash in Hk. rewrite !andb_true_iff, !Z.leb_le, !str_eqb_eq in Hk.
      destruct Hk as [[[<- <-] ?] ?].
      match goal with |- count_keys ?p t + 1 <= _ =>
        pose proof (count_keys_mono p _ t (fun key =>
          key_by_hash_weaken (in_userId input) (request_hash sha256 input) x
            (t_rate env - APPROVAL_CREATE_RATE_LIMIT_WINDOW_MS) _ key ltac:(lia))) end.
      lia.
    + unfold key_by_tool in Hk. rewrite !andb_true_iff, !Z.leb_le, !str_eqb_eq in Hk.
      destruct Hk as [[[[<- <-] Hs%same_server_eq] ?] ?]. rewrite <- Hs in *.
      match goal with |- count_keys ?p t + 1 <= _ =>
        pose proof (count_keys_mono p _ t (fun key =>
          key_by_tool_weaken (in_userId input) (in_serverId input) (in_toolName input) x
            (t_rate env - APPROVAL_CREATE_RATE_LIMIT_WINDOW_MS) _ key ltac:(lia))) end.
      lia.
Qed.

(** Interference by clients that themselves respect the table's index. *)
Definition respectful (f : table -> table) : Prop := forall t, table_ok t -> table_ok (f t).

Lemma attempt_ok (params : CreateApprovalParams) (env : nat -> attempt) (left : nat) :
  (forall k, respectful (between1 (env k)) /\ respectful (between2 (env k))
             /\ respectful (between3 (env k))) ->
  forall t, table_ok t -> table_ok (snd (createOrGetPending_at params env left t)).
Proof.
  intros Hb. induction left as [|left IH]; intros t Ht; cbn [createOrGetPending_at];
    set (k := (maxRetries - _)%nat); unfold mbnd, mmodify, mgets, mret;
    pose proof (exec_ok (SInsert (uuid (env k)) (app_now (env k)) params) t Ht) as Hi; unfold exec in Hi;
    destruct (insertPending_cases (uuid (env k)) (app_now (env k)) params t)
      as [(t1 & E & _)|[(E & _)|(x & E & _)]]; rewrite E in *; try done;
    destruct (Hb k) as (B1 & B2 & B3);
    destruct (findFirst_desc _ _); try (by apply B1).
  apply IH, B3. apply (exec_ok (SExpireHash (p_requestHash params) (db_now (env k)))).
  by apply B2, B1.
Qed.

Lemma active_unique (t : table) (r r' : ApprovalRequest) :
  table_ok t -> r ∈ t -> r' ∈ t -> requestHash r = requestHash r' ->
  in_index (status r) = true -> in_index (status r') = true -> r = r'.
Proof.
  intros [_ Hnd]. unfold active_hashes in Hnd. induction t as [|x t IH]; intros Hr Hr' E Hs Hs';
    [by apply not_elem_of_nil in Hr|].
  rewrite filter_cons in Hnd. destruct (base.decide (in_index (status x) = true)) as [Hx|Hx].
  - cbn in Hnd. apply NoDup_cons in Hnd as [Hn Hnd].
    assert (Ha : forall y, y ∈ t -> in_index (status y) = true -> requestHash x <> requestHash y).
    { intros y Hy Hi Heq. apply Hn. rewrite Heq. apply list_elem_of_fmap_2.
      by apply list_elem_of_filter. }
    apply elem_of_cons in Hr as [->|Hr], Hr' as [->|Hr']; [done| | |by apply IH].
    + by apply Ha in Hr'.
    + symmetry in E. by apply Ha in Hr.
  - apply elem_of_cons in Hr as [->|Hr]; [done|]. apply elem_of_cons in Hr' as [->|Hr']; [done|].
    by apply IH.
Qed.

Lemma is_active_index (h : string) (now : Z) (r : ApprovalRequest) :
  is_active h now r = true -> requestHash r = h /\ in_index (status r) = true.
Proof.
  unfold is_active. intros H. apply andb_true_iff in H as [H1 H2]. apply str_eqb_eq in H1.
  split; [done|]. by destruct (status r).
Qed.

Lemma findActive_unique (t : table) (h : string) (now : Z) (r : ApprovalRequest) :
  table_ok t -> r ∈ t -> is_active h now r = true ->
  findActiveByRequestHash h now t = Some r.
Proof.
  intros Hok Hr Ha. unfold findActiveByRequestHash.
  destruct (findFirst_desc _ t) as [r'|] eqn:F.
  - apply findFirst_Some in F as [Hr' Ha']. apply is_active_index in Ha as [<- Hi].
    apply is_active_index in Ha' as [Hh Hi']. f_equal. by apply (active_unique t).
  - rewrite findFirst_None in F. by rewrite F in Ha.
Qed.

Lemma canonical_args_ok (args : list (string * json)) :
  is_json (JObj args) = true -> canonical_args args = Ok (sortKeys (JObj args)).
Proof.
  intros Hj. unfold canonical_args, canonicalizeArgs.
  destruct (JSON_roundtrip _ (is_json_sortKeys _ Hj)) as (u & Hu & Hp).
  unfold text. by rewrite Hu, Hp.
Qed.

(** A call whose hash has an active row returns that row and changes nothing. *)
Lemma check_active (sha256 : string -> string) (input : CreateApprovalInput) (env : call_env)
    (t : table) (r : ApprovalRequest) :
  is_json (JObj (in_args input)) = true -> table_ok t -> r ∈ t ->
  is_active (request_hash sha256 input) (t_active env) r = true ->
  checkOrCreateApproval sha256 input env t
  = (Ok (check_result sha256 (negb (bool_decide (status r = Approved))) false (Some r) input), t).
Proof.
  intros Hj Hok Hr Ha. unfold checkOrCreateApproval, mbnd, mgets.
  rewrite canonical_args_ok by done. by rewrite (findActive_unique t _ _ r).
Qed.

Lemma create_pending (sha256 : string -> string) (input : CreateApprovalInput) (env : call_env)
    (t t' : table) (res : ApprovalCheckResult) :
  checkOrCreateApproval sha256 input env t = (Ok res, t') -> created res = true ->
  exists r, request res = Some r /\ r ∈ t' /\ status r = Pending
  /\ requestHash r = request_hash sha256 input
  /\ expiresAt r = t_expiry env + default DEFAULT_EXPIRY_MS (in_expiresInMs input)
  /\ canonical_args (in_args input) = Ok (canonicalArgs r).
Proof.
  unfold checkOrCreateApproval, mbnd, mmodify, mgets, mret, mthrow, mmap_err.
  destruct (canonical_args _) as [c|e]; [|done].
  destruct (findActiveByRequestHash _ _ _); [by intros [= <- <-]|].
  destruct (_ <=? _); [done|]. destruct (_ <=? _); [done|].
  destruct (createOrGetPending _ _ _) as [[[cr r]|e] t1] eqn:E; [|done].
  apply attempt_result in E as (Hr & Hh & Hc).
  destruct cr; cbn [negb andb].
  - intros [= <- <-] _. destruct Hc as (i & now & ->). by eexists.
  - by destruct (bool_decide _); intros [= <- <-].
Qed.

Lemma check_ok (sha256 : string -> string) (input : CreateApprovalInput) (env : call_env)
    (t : table) :
  respectful (after_active env) -> respectful (after_hash_count env) ->
  respectful (after_tool_count env) ->
  (forall k, respectful (between1 (attempts env k)) /\ respectful (between2 (attempts env k))
             /\ respectful (between3 (attempts env k))) ->
  table_ok t -> table_ok (snd (checkOrCreateApproval sha256 input env t)).
Proof.
  intros H1 H2 H3 Hb Ht.
  unfold checkOrCreateApproval, mbnd, mmodify, mgets, mret, mthrow, mmap_err.
  destruct (canonical_args _) as [c|e]; [|done].
  destruct (findActiveByRequestHash _ _ _); [done|].
  destruct (_ <=? _); [by apply H1|]. destruct (_ <=? _); [by apply H2, H1|].
  pose proof (attempt_ok (create_params sha256 input c (t_expiry env)) (attempts env) maxRetries Hb
                _ (H3 _ (H2 _ (H1 _ Ht)))) as Hok.
  unfold createOrGetPending. destruct (createOrGetPending_at _ _ _ _) as [[[cr r]|e] t1]; [|done].
  by destruct (negb cr && _).
Qed.

Lemma decided_ok (t1 t2 : table) (r : ApprovalRequest) actor reason now :
  table_ok (t1 ++ r :: t2) -> status r = Pending -> now < expiresAt r ->
  table_ok (t1 ++ set_decision Approved actor reason now r :: t2).
Proof.
  intros Hok Hs Hn.
  pose proof (exec_ok (SDecide (id r) true actor reason now) _ Hok) as H. unfold exec, decide in H.
  rewrite update_by_id in H; [|apply Hok|intros x _ Hx; to_prop; by apply str_eqb_eq].
  rewrite str_eqb_refl, Hs in H. apply Z.ltb_lt in Hn. by rewrite Hn in H.
Qed.

Lemma claim_by_hash (t1 t2 : table) (r : ApprovalRequest) (dbNow : Z) :
  table_ok (t1 ++ r :: t2) -> in_index (status r) = true ->
  claimForExecution (requestHash r) dbNow (t1 ++ r :: t2)
  = if bool_decide (status r = Approved) && (dbNow <? expiresAt r)
    then (claim_result (Some (set_status Executing dbNow r)),
          t1 ++ set_status Executing dbNow r :: t2)
    else (claim_result None, t1 ++ r :: t2).
Proof.
  intros Hok Hs. unfold claimForExecution, claimApprovedForExecution.
  rewrite update_by_id; [|apply Hok|].
  - rewrite str_eqb_refl. cbn [andb]. by destruct (_ && _).
  - intros x Hx Hp. f_equal. apply (active_unique (t1 ++ r :: t2)); try done.
    + apply elem_of_app. right. apply elem_of_cons. by left.
    + to_prop. by apply str_eqb_eq.
    + to_prop. match goal with H : status x = _ |- _ => by rewrite H end.
Qed.

(** ** Properties *)

(** Creation is idempotent: once a call has created a request (under any
    interference that respects the table's index), every later call with the
    same hash, while the request is pending and unexpired, is told to wait for
    that same request, and neither creates a row nor changes the table. *)
Theorem approval_deduplicates (sha256 : string -> string) (input1 input2 : CreateApprovalInput)
    (env1 env2 : call_env) (t t' : table) (res : ApprovalCheckResult) (r : ApprovalRequest) :
  table_ok t ->
  respectful (after_active env1) -> respectful (after_hash_count env1) ->
  respectful (after_tool_count env1) ->
  (forall k, respectful (between1 (attempts env1 k)) /\ respectful (between2 (attempts env1 k))
             /\ respectful (between3 (attempts env1 k))) ->
  checkOrCreateApproval sha256 input1 env1 t = (Ok res, t') ->
  created res = true -> request res = Some r ->
  is_json (JObj (in_args input2)) = true ->
  request_hash sha256 input2 = request_hash sha256 input1 ->
  t_active env2 < expiresAt r ->
  checkOrCreateApproval sha256 input2 env2 t'
  = (Ok {| needsApproval := true; created := false; request := Some r;
           c_requestHash := request_hash sha256 input1 |}, t').
Proof.
  intros Hok H1 H2 H3 Hb E Hc Hr Hj Hh Ht.
  pose proof (check_ok sha256 input1 env1 t H1 H2 H3 Hb Hok) as Hok'. rewrite E in Hok'.
  destruct (create_pending _ _ _ _ _ _ E Hc) as (r' & Hr' & Hin & Hs & Hrh & _).
  rewrite Hr in Hr'. injection Hr' as <-.
  rewrite (check_active _ _ _ _ r) by (try done; unfold is_active;
    rewrite Hh, Hrh, Hs, str_eqb_refl; by apply Z.ltb_lt in Ht as ->).
  unfold check_result. by rewrite Hs, Hh.
Qed.

(** An approved call proceeds exactly once: after a decision approves a
    pending request in time, the caller's next call with the same hash needs
    no approval and is given that request; the claim then hands it out with
    status EXECUTING, and any further claim, by hash or by id, fails. *)
Theorem approved_call_proceeds_once (sha256 : string -> string) (input : CreateApprovalInput)
    (env : call_env) (t1 t2 : table) (r : ApprovalRequest) (actor : ApprovalDecisionActor)
    (reason : option string) (now dbNow dbNow' : Z) :
  table_ok (t1 ++ r :: t2) -> status r = Pending ->
  is_json (JObj (in_args input)) = true -> requestHash r = request_hash sha256 input ->
  now < expiresAt r -> t_active env < expiresAt r -> dbNow < expiresAt r ->
  let approved := set_decision Approved actor reason now r in
  let executing := set_status Executing dbNow approved in
  decide (id r) Approved actor reason now (t1 ++ r :: t2)
    = (Some approved, t1 ++ approved :: t2)
  /\ checkOrCreateApproval sha256 input env (t1 ++ approved :: t2)
    = (Ok {| needsApproval := false; created := false; request := Some approved;
             c_requestHash := request_hash sha256 input |}, t1 ++ approved :: t2)
  /\ claimForExecution (requestHash r) dbNow (t1 ++ approved :: t2)
    = ({| claimed := true; claim_request := Some executing |}, t1 ++ executing :: t2)
  /\ claimForExecution (requestHash r) dbNow' (t1 ++ executing :: t2)
    = ({| claimed := false; claim_request := None |}, t1 ++ executing :: t2)
  /\ claimForExecutionById (id r) dbNow' (t1 ++ executing :: t2)
    = ({| claimed := false; claim_request := None |}, t1 ++ executing :: t2).
Proof.
  intros Hok Hs Hj Hh Hn Ha Hd. cbn zeta.
  pose proof (decided_ok t1 t2 r actor reason now Hok Hs Hn) as Hok2.
  pose proof (exec_ok (SClaimHash (requestHash r) dbNow) _ Hok2) as Hok3.
  apply Z.ltb_lt in Hn, Ha, Hd.
  assert (C : claimForExecution (requestHash r) dbNow
                (t1 ++ set_decision Approved actor reason now r :: t2)
              = (claim_result (Some (set_status Executing dbNow
                                       (set_decision Approved actor reason now r))),
                 t1 ++ set_status Executing dbNow
                         (set_decision Approved actor reason now r) :: t2)).
  { etrans; [apply (claim_by_hash t1 t2 (set_decision Approved actor reason now r)); done|].
    cbn [status expiresAt set_decision]. by rewrite Hd. }
  assert (Hok4 : table_ok (t1 ++ set_status Executing dbNow
                                  (set_decision Approved actor reason now r) :: t2)).
  { unfold exec in Hok3. unfold claimForExecution in C.
    destruct (claimApprovedForExecution _ _ _) as [o t3]. by injection C as _ ->. }
  split; [|split; [|split; [exact C|split]]].
  - unfold decide. rewrite update_by_id;
      [|apply Hok|intros x _ Hx; to_prop; by apply str_eqb_eq].
    by rewrite str_eqb_refl, Hs, Hn.
  - rewrite (check_active _ _ _ _ (set_decision Approved actor reason now r)); try done.
    + apply elem_of_app. right. apply elem_of_cons. by left.
    + unfold is_active. cbn. by rewrite Hh, str_eqb_refl, Ha.
  - by apply (claim_by_hash t1 t2 (set_status Executing dbNow
                  (set_decision Approved actor reason now r)) dbNow' Hok4).
  - unfold claimForExecutionById, claimApprovedForExecutionById.
    rewrite (update_by_id t1 t2 (set_status Executing dbNow
              (set_decision Approved actor reason now r)));
      [|apply Hok4|intros x _ Hx; to_prop; by apply str_eqb_eq].
    cbn. by rewrite str_eqb_refl.
Qed.

(** A call goes through without waiting only on an approval: when
    [checkOrCreateApproval] answers that no approval is needed, it found a row
    of the table with the request's own hash and status APPROVED; no call of
    its own making is ever reported as approved. *)
Theorem no_approval_needed_sound (sha256 : string -> string) (input : CreateApprovalInput)
    (env : call_env) (t t' : table) (res : ApprovalCheckResult) :
  checkOrCreateApproval sha256 input env t = (Ok res, t') -> needsApproval res = false ->
  exists r, request res = Some r /\ r ∈ t' /\ status r = Approved
  /\ requestHash r = request_hash sha256 input /\ created res = false.
Proof.
  unfold checkOrCreateApproval, mbnd, mmodify, mgets, mret, mthrow, mmap_err.
  destruct (canonical_args _) as [c|e]; [|done].
  destruct (findActiveByRequestHash _ _ _) as [r|] eqn:F.
  - intros [= <- <-] Hn. cbn in Hn. to_prop.
    apply findFirst_Some in F as [Hr Ha]. apply is_active_index in Ha as [Hh _]. by exists r.
  - destruct (_ <=? _); [done|]. destruct (_ <=? _); [done|].
    destruct (createOrGetPending _ _ _) as [[[cr r]|e] t1] eqn:E; [|done].
    apply attempt_result in E as (Hr & Hh & Hc).
    destruct (negb cr && bool_decide (status r = Approved)) eqn:D.
    + intros [= <- <-] _. to_prop. exists r. done.
    + intros [= <- <-] Hn. done.
Qed.

(** ** Witnesses *)

Definition ex_input : CreateApprovalInput :=
  {| in_userId := "u1"; in_serverId := None; in_toolName := "send";
     in_args := [("to", JStr "bob"); ("token", JStr "t0")]; in_policyVersion := 1;
     in_uniformRequestId := None; in_expiresInMs := None |}.

Definition ex_call (now : Z) (uid : string) : call_env :=
  {| t_active := now; t_rate := now; t_expiry := now; after_active := fun t => t;
     after_hash_count := fun t => t; after_tool_count := fun t => t;
     attempts := fun _ => {| uuid := uid; app_now := now; db_now := now;
       between1 := fun t => t; between2 := fun t => t; between3 := fun t => t |} |}.

Definition ex_sha (s : string) : string := s.

Definition ex_row : ApprovalRequest :=
  new_row "a1" 5 (create_params ex_sha ex_input (sortKeys (JObj (in_args ex_input))) 5).

Lemma redactArgs_bounded_witness :
  forallb (fun kv => displayable MAX_DEPTH (snd kv)) (redactArgs (in_args ex_input) 0) = true.
Proof.
  destruct (redactArgs_bounded (in_args ex_input)) as [H _]; [|exact H].
  apply (bool_decide_unpack _). vm_compute. exact I.
Defined.

Lemma sanitized_result_scrubbed_witness :
  sanitizeExecutionResult (JObj [("content", JArr [JStr "ok"])])
  = JObj [("content", JArr [JStr "ok"])].
Proof.
  destruct (sanitized_result_scrubbed (JObj [("content", JArr [JStr "ok"])])) as [_ H].
  apply (H [("content", JArr [JStr "ok"])]); try reflexivity.
  apply Nat.leb_le. vm_compute. reflexivity.
Defined.

Lemma creation_rate_limited_witness :
  windows_ok (snd (checkOrCreateApproval ex_sha ex_input (ex_call 5 "a1") [])).
Proof.
  apply creation_rate_limited.
  - split; intros; auto.
  - intros k. cbn. lia.
  - intros x. split; intros; vm_compute; discriminate.
Defined.

Lemma approval_deduplicates_witness :
  checkOrCreateApproval ex_sha ex_input (ex_call 6 "a2") [ex_row]
  = (Ok {| needsApproval := true; created := false; request := Some ex_row;
           c_requestHash := request_hash ex_sha ex_input |}, [ex_row]).
Proof.
  apply (approval_deduplicates ex_sha ex_input ex_input (ex_call 5 "a1") (ex_call 6 "a2") []
           [ex_row] (check_result ex_sha true true (Some ex_row) ex_input) ex_row);
    try reflexivity; try (intros t Ht; exact Ht).
  - split; constructor.
  - intros k. repeat split; apply H.
Defined.

Lemma approved_call_proceeds_once_witness :
  claimForExecution (requestHash ex_row) 8
    [set_decision Approved ex_actor None 7 ex_row]
  = ({| claimed := true;
        claim_request := Some (set_status Executing 8 (set_decision Approved ex_actor None 7 ex_row)) |},
     [set_status Executing 8 (set_decision Approved ex_actor None 7 ex_row)]).
Proof.
  destruct (approved_call_proceeds_once ex_sha ex_input (ex_call 7 "a2") [] [] ex_row ex_actor
              None 7 8 9) as (_ & _ & H & _);
    [split; apply NoDup_singleton|reflexivity..|exact H].
Defined.

Lemma no_approval_needed_sound_witness :
  exists r, request (check_result ex_sha false false
                       (Some (set_decision Approved ex_actor None 7 ex_row)) ex_input) = Some r
  /\ r ∈ [set_decision Approved ex_actor None 7 ex_row] /\ status r = Approved
  /\ requestHash r = request_hash ex_sha ex_input
  /\ created (check_result ex_sha false false
                (Some (set_decision Approved ex_actor None 7 ex_row)) ex_input) = false.
Proof.
  apply (no_approval_needed_sound ex_sha ex_input (ex_call 8 "a2")
           [set_decision Approved ex_actor None 7 ex_row]); vm_compute; reflexivity.
Defined.
