(* ===== verification/Policy.v ===== *)
(** * Tool policies: repository, rule evaluation and the caching engine

    [src/src/repositories/PolicyRepository.ts],
    [src/src/mcp/services/PolicyDslEvaluator.ts] and
    [src/src/mcp/services/PolicyEngine.ts].  Numbers are integers; regular
    expressions, URLs and number parsing are parameters of the evaluator (their
    behaviour is the JavaScript engine's), while the glob matcher, which the
    source compiles to a regular expression of a fixed shape, is modelled
    outright.  Property names inherited from [Object.prototype] are outside
    the model. *)
From Stdlib Require Import Ascii Sorted.
From stdpp Require Import base gmap strings list.
From S2P Require Import Prelude Json.
Open Scope Z_scope.

Inductive DangerLevel : Type := Silent | Notification | Approval.

Inductive PolicyDecision : Type := Allow | RequireApproval | Deny.

#[export] Instance PolicyDecision_eq_dec : EqDecision PolicyDecision.
Proof. solve_decision. Defined.

(** ** Globs *)

(** The line terminators a regular expression's [.] does not match. *)
Definition is_line_terminator (c : ascii) : bool :=
  (nat_of_ascii c =? 10)%nat || (nat_of_ascii c =? 13)%nat.

(** The language of the compiled pattern [^...$]: [*] is [.*], [?] is [.],
    every other unit stands for itself. *)
Fixpoint glob_match (fuel : nat) (pattern value : string) : bool :=
  match fuel with
  | O => false
  | S fuel' =>
      match pattern with
      | EmptyString => str_eqb value ""
      | String p ps =>
          if (nat_of_ascii p =? 42)%nat then
            glob_match fuel' ps value
            || match value with
               | EmptyString => false
               | String v vs => negb (is_line_terminator v) && glob_match fuel' pattern vs
               end
          else match value with
               | EmptyString => false
               | String v vs =>
                   (if (nat_of_ascii p =? 63)%nat then negb (is_line_terminator v)
                    else bool_decide (p = v))
                   && glob_match fuel' ps vs
               end
      end
  end.

Definition matchGlob (pattern value : string) : bool :=
  if (512 <? String.length pattern)%nat then false
  else glob_match (S (String.length pattern + String.length value)) pattern value.

(** ** Rules *)

Inductive extract_type : Type := TString | TNumber | TBoolean | TUrlHost | TBytesLength | TOther.

Inductive condition_op : Type :=
| OpEq | OpNeq | OpGt | OpGte | OpLt | OpLte | OpIn | OpNotIn | OpMatches | OpOther.

Record extractor : Type := { ex_path : string; ex_type : extract_type }.

Record condition : Type := { left : json; op : condition_op; right : json }.

Record PolicyRule : Type := {
  rule_id : string;
  priority : option Z;
  match_tool : option string;
  match_serverId : option string;
  extract : list (string * extractor);
  when : list condition;
  effect_decision : string;
  effect_reason : option string
}.

Notation PolicyDsl := (list PolicyRule).

Record PolicyEvaluationContext : Type := {
  ctx_serverId : option string;
  ctx_toolName : string;
  ctx_args : list (string * json)
}.

Record PolicyEvaluationResult : Type := {
  res_decision : string;
  matchedRuleId : option string;
  res_reason : option string
}.

(** A value together with the place in the call's arguments it was read from:
    objects are compared by identity, and two reads of one place are the same
    object. *)
Inductive place : Type :=
| ArgsAt (path : list string)
| TheScope.

#[export] Instance place_eq_dec : EqDecision place.
Proof. solve_decision. Defined.

Notation located := (json * option place)%type.

Definition loc_child (l : option place) (segment : string) : option place :=
  match l with Some (ArgsAt p) => Some (ArgsAt (p ++ [segment])) | _ => None end.

(** [segment in current ? current[segment] : undefined] *)
Definition member (current : located) (segment : string) : located :=
  match fst current with
  | JObj kvs =>
      match assoc segment kvs with
      | Some v => (v, loc_child (snd current) segment)
      | None => (JUndefined, None)
      end
  | JArr l =>
      if str_eqb segment "length" then (JNum (Z.of_nat (length l)), None)
      else match array_index segment with
           | Some n => match nth_error l (N.to_nat n) with
                       | Some v => (v, loc_child (snd current) segment)
                       | None => (JUndefined, None)
                       end
           | None => (JUndefined, None)
           end
  | _ => (JUndefined, None)
  end.

Definition extractByPath (obj : located) (path : string) : located :=
  if str_eqb path "" then obj else fold_left member (split_on "." path) obj.

(** The variables of a condition: names with their located values. *)
Notation scope := (list (string * located)).

Definition resolve_in (sc : scope) (path : string) : located :=
  match split_on "." path with
  | [] => (JUndefined, None)
  | s :: ss =>
      match assoc s sc with
      | Some v => fold_left member ss v
      | None => (JUndefined, None)
      end
  end.

(** The scope as the object it is; shadowed entries are dropped. *)
Definition scope_object (sc : scope) : json :=
  JObj (from_entries (map (fun kv => (fst kv, fst (snd kv))) (rev sc))).

(** [Buffer.byteLength(s)]: the UTF-8 length. *)
Fixpoint byteLength (s : string) : Z :=
  match s with
  | EmptyString => 0
  | String c s' => (if (nat_of_ascii c <? 128)%nat then 1 else 2) + byteLength s'
  end.

(** [l === r] on located values. *)
Definition strict_eq (l r : located) : bool :=
  match fst l, fst r with
  | JUndefined, JUndefined | JNull, JNull => true
  | JBool a, JBool b => Bool.eqb a b
  | JNum a, JNum b => a =? b
  | JStr a, JStr b => str_eqb a b
  | JArr _, JArr _ | JObj _, JObj _ =>
      match snd l, snd r with
      | Some p, Some q => bool_decide (p = q)
      | _, _ => false
      end
  | _, _ => false
  end.

(** The elements of an array with their places. *)
Definition elements (r : located) (l : list json) : list located :=
  imap (fun i v => (v, loc_child (snd r) (z_to_string (Z.of_nat i)))) l.

Section Evaluator.
(** [parseFloat], [Number] of a string ([None] is NaN), [new URL(s).hostname]
    and [new RegExp(p).test(s)] ([None] is the exception). *)
Variable parseFloat : string -> option Z.
Variable numberOfString : string -> option Z.
Variable urlHostname : string -> option string.
Variable regexTest : string -> string -> option bool.

(** [Number(v)]; an object or a longer array is NaN up to its text. *)
Definition js_Number (v : json) : option Z :=
  match v with
  | JUndefined => None
  | JNull => Some 0
  | JBool b => Some (if b then 1 else 0)
  | JNum n => Some n
  | JStr s => numberOfString s
  | JArr _ | JObj _ => numberOfString (js_String v)
  end.

Definition coerceType (value : json) (type : extract_type) : json :=
  match type with
  | TString => JStr (js_String value)
  | TNumber => match parseFloat (js_String value) with Some n => JNum n | None => JUndefined end
  | TBoolean =>
      match value with
      | JBool _ => value
      | JStr s =>
          if str_eqb (to_lower s) "true" then JBool true
          else if str_eqb (to_lower s) "false" then JBool false
          else JBool (js_truthy value)
      | _ => JBool (js_truthy value)
      end
  | TUrlHost => match urlHostname (js_String value) with Some h => JStr h | None => JUndefined end
  | TBytesLength => JNum (byteLength (js_String value))
  | TOther => JUndefined
  end.

(** The extracted variables; an absent value or a failed coercion sets none. *)
Definition extractVariables (extractors : list (string * extractor)) (args : located) : scope :=
  flat_map (fun ne =>
    let raw := fst (extractByPath args (ex_path (snd ne))) in
    match raw with
    | JUndefined => []
    | _ => match coerceType raw (ex_type (snd ne)) with
           | JUndefined => []
           | v => [(fst ne, (v, None))]
           end
    end) extractors.

(** [{...args, ...extracted, args}]: later entries shadow earlier ones. *)
Definition conditionScope (rule : PolicyRule) (args : list (string * json)) : scope :=
  let root := (JObj args, Some (ArgsAt [])) in
  ("args"%string, root)
  :: rev (extractVariables (extract rule) root)
  ++ map (fun kv => (fst kv, (snd kv, Some (ArgsAt [fst kv])))) args.

Definition resolveOperand (operand : json) (sc : scope) : located :=
  match operand with
  | JStr s => if starts_with "$" s
              then if str_eqb (str_drop 1 s) "" then (scope_object sc, Some TheScope)
                   else resolve_in sc (str_drop 1 s)
              else (operand, None)
  | _ => (operand, None)
  end.

Definition num_cmp (p : Z -> Z -> bool) (l r : json) : bool :=
  match js_Number l, js_Number r with Some a, Some b => p a b | _, _ => false end.

Definition evaluateCondition (l : located) (o : condition_op) (r : located) : bool :=
  match o with
  | OpEq => strict_eq l r
  | OpNeq => negb (strict_eq l r)
  | OpGt => num_cmp Z.gtb (fst l) (fst r)
  | OpGte => num_cmp Z.geb (fst l) (fst r)
  | OpLt => num_cmp Z.ltb (fst l) (fst r)
  | OpLte => num_cmp Z.leb (fst l) (fst r)
  | OpIn => match fst r with
            | JArr xs => existsb (fun x => strict_eq x l) (elements r xs)
            | _ => false
            end
  | OpNotIn => match fst r with
               | JArr xs => negb (existsb (fun x => strict_eq x l) (elements r xs))
               | _ => false
               end
  | OpMatches =>
      if (512 <? String.length (js_String (fst r)))%nat then false
      else if (4096 <? String.length (js_String (fst l)))%nat then false
      else match regexTest (js_String (fst r)) (js_String (fst l)) with
           | Some b => b
           | None => false
           end
  | OpOther => false
  end.

Definition matchesRule (rule : PolicyRule) (context : PolicyEvaluationContext) : bool :=
  match match_serverId rule with
  | Some pattern =>
      match ctx_serverId context with
      | None => false
      | Some s => matchGlob pattern s
      end
  | None => true
  end
  && match match_tool rule with
     | Some pattern => matchGlob pattern (ctx_toolName context)
     | None => true
     end.

Definition allConditionsPass (rule : PolicyRule) (context : PolicyEvaluationContext) : bool :=
  let sc := conditionScope rule (ctx_args context) in
  forallb (fun c => evaluateCondition (resolveOperand (left c) sc) (op c)
                      (resolveOperand (right c) sc)) (when rule).

Definition rule_priority (r : PolicyRule) : Z := default 1000 (priority r).

Definition priority_leb (a b : PolicyRule) : bool := rule_priority a <=? rule_priority b.

Definition rule_result (rule : PolicyRule) : PolicyEvaluationResult :=
  {| res_decision := effect_decision rule; matchedRuleId := Some (rule_id rule);
     res_reason := effect_reason rule |}.

Fixpoint evaluate_sorted (rules : list PolicyRule) (context : PolicyEvaluationContext)
    : PolicyEvaluationResult :=
  match rules with
  | [] => {| res_decision := "ALLOW"; matchedRuleId := None; res_reason := None |}
  | rule :: rest =>
      if negb (matchesRule rule context) then evaluate_sorted rest context
      else if negb (allConditionsPass rule context) then evaluate_sorted rest context
      else rule_result rule
  end.

Definition evaluate_dsl (dsl : PolicyDsl) (context : PolicyEvaluationContext)
    : PolicyEvaluationResult :=
  evaluate_sorted (isort priority_leb dsl) context.
End Evaluator.

(** ** The policy table *)

Record ToolPolicySet : Type := {
  ps_id : string;
  ps_serverId : option string;
  version : Z;
  ps_status : string;
  dsl : option PolicyDsl;
  ps_createdAt : Z
}.

Notation policy_table := (list ToolPolicySet).

Definition same_scope (serverId : option string) (p : ToolPolicySet) : bool :=
  bool_decide (ps_serverId p = serverId).

Definition newest_first (a b : ToolPolicySet) : bool := version b <=? version a.

(** [findMany({ status: 'active', serverId }, version desc)] *)
Definition active_policies (serverId : option string) (t : policy_table) : list ToolPolicySet :=
  isort newest_first
    (filter (fun p => str_eqb (ps_status p) "active" && same_scope serverId p = true) t).

Definition getEffectivePolicy (serverId : option string) (t : policy_table) : list ToolPolicySet :=
  match serverId with
  | Some _ => active_policies serverId t
  | None => []
  end ++ active_policies None t.

(** The highest version of a scope, whatever the status; 0 when it has none. *)
Definition latest_version (serverId : option string) (t : policy_table) : Z :=
  fold_right (fun p m => if same_scope serverId p then Z.max (version p) m else m) 0 t.

(** A violation of one of the unique indexes on (scope, version). *)
Definition version_taken (serverId : option string) (v : Z) (t : policy_table) : bool :=
  existsb (fun p => same_scope serverId p && (version p =? v)) t.

(** [PolicyRepository.create]: at most three attempts to insert under the next
    version; [between k] is what other clients do between the lookup and the
    insertion of attempt [k]. *)
Fixpoint create_policy_at (left attempt : nat) (i : string) (serverId : option string)
    (d : option PolicyDsl) (now : Z) (between : nat -> policy_table -> policy_table)
    : M policy_table string ToolPolicySet := fun t =>
  match left with
  | O => (Throw "Failed to allocate unique policy version"%string, t)
  | S left' =>
      let nextVersion := latest_version serverId t + 1 in
      let t' := between attempt t in
      let p := {| ps_id := i; ps_serverId := serverId; version := nextVersion;
                  ps_status := "active"; dsl := d; ps_createdAt := now |} in
      if version_taken serverId nextVersion t'
      then if (attempt <? 2)%nat
           then create_policy_at left' (S attempt) i serverId d now between t'
           else (Throw "Unique constraint failed"%string, t')
      else (Ok p, t' ++ [p])
  end.

Definition create_policy (i : string) (serverId : option string) (d : option PolicyDsl) (now : Z)
    (between : nat -> policy_table -> policy_table) : M policy_table string ToolPolicySet :=
  create_policy_at 3 0 i serverId d now between.

(** [PolicyRepository.update]: a new body takes the next version of the scope,
    a change of status alone keeps the version. *)
Definition set_policy (st : option string) (d : option (option PolicyDsl)) (v : option Z)
    (p : ToolPolicySet) : ToolPolicySet :=
  {| ps_id := ps_id p; ps_serverId := ps_serverId p; version := default (version p) v;
     ps_status := default (ps_status p) st; dsl := default (dsl p) d;
     ps_createdAt := ps_createdAt p |}.

Definition update_row (i : string) (f : ToolPolicySet -> ToolPolicySet) (t : policy_table)
    : policy_table := map (fun p => if str_eqb (ps_id p) i then f p else p) t.

Fixpoint update_policy_at (left attempt : nat) (i : string) (st : option string)
    (d : option PolicyDsl) (existingServerId : option string)
    (between : nat -> policy_table -> policy_table) : M policy_table string unit := fun t =>
  match left with
  | O => (Throw "Failed to allocate unique policy version"%string, t)
  | S left' =>
      let v := latest_version existingServerId t + 1 in
      let t' := between attempt t in
      if negb (existsb (fun p => str_eqb (ps_id p) i) t')
      then (Throw "Record to update not found"%string, t')
      else if version_taken existingServerId v t'
      then if (attempt <? 2)%nat
           then update_policy_at left' (S attempt) i st d existingServerId between t'
           else (Throw "Unique constraint failed"%string, t')
      else (Ok tt, update_row i (set_policy st (Some d) (Some v)) t')
  end.

Definition update_policy (i : string) (st : option string) (d : option (option PolicyDsl))
    (existingServerId : option string) (between : nat -> policy_table -> policy_table)
    : M policy_table string unit :=
  match d with
  | Some body => update_policy_at 3 0 i st body existingServerId between
  | None => fun t =>
      if existsb (fun p => str_eqb (ps_id p) i) t
      then (Ok tt, update_row i (set_policy st None None) t)
      else (Throw "Record to update not found"%string, t)
  end.

Definition archiveByServerId (serverId : option string) (t : policy_table) : Z * policy_table :=
  let p x := same_scope serverId x && str_eqb (ps_status x) "active" in
  (Z.of_nat (length (filter (fun x => p x = true) t)),
   map (fun x => if p x then set_policy (Some "archived"%string) None None x else x) t).

(** ** The engine *)

Record PolicyEvaluateParams : Type := {
  pe_userId : string;
  pe_serverId : option string;
  pe_toolName : string;
  pe_args : list (string * json);
  dangerLevel : DangerLevel
}.

Record PolicyEvaluateResult : Type := {
  decision : PolicyDecision;
  policyVersion : Z;
  pr_matchedRuleId : option string;
  reason : option string
}.

Definition CACHE_TTL_MS : Z := 30000.

Notation policy_cache := (gmap string (list ToolPolicySet * Z)).

Definition fallbackToDangerLevel (level : DangerLevel) : PolicyEvaluateResult :=
  {| decision := match level with Approval => RequireApproval | _ => Allow end;
     policyVersion := 0; pr_matchedRuleId := None; reason := None |}.

Definition mapDecision (d : string) : PolicyDecision :=
  if str_eqb d "ALLOW" then Allow
  else if str_eqb d "REQUIRE_APPROVAL" then RequireApproval
  else if str_eqb d "DENY" then Deny
  else Allow.

Definition cache_key (serverId : option string) : string := default "__global__"%string serverId.

(** The policies an evaluation uses, and the cache it leaves: [fetch] is the
    repository's answer now. *)
Definition load_policies (serverId : option string) (now : Z)
    (fetch : option string -> list ToolPolicySet) (cache : policy_cache)
    : list ToolPolicySet * policy_cache :=
  match cache !! cache_key serverId with
  | Some (policies, fetchedAt) =>
      if now - fetchedAt <? CACHE_TTL_MS then (policies, cache)
      else (fetch serverId, <[cache_key serverId := (fetch serverId, now)]> cache)
  | None => (fetch serverId, <[cache_key serverId := (fetch serverId, now)]> cache)
  end.

Definition clearCache (serverId : option string) (cache : policy_cache) : policy_cache :=
  match serverId with
  | Some s => delete "__global__"%string (delete s cache)
  | None => ∅
  end.

Section Engine.
Variable parseFloat : string -> option Z.
Variable numberOfString : string -> option Z.
Variable urlHostname : string -> option string.
Variable regexTest : string -> string -> option bool.

Definition eval_rules := evaluate_dsl parseFloat numberOfString urlHostname regexTest.

Definition eval_context (params : PolicyEvaluateParams) : PolicyEvaluationContext :=
  {| ctx_serverId := pe_serverId params; ctx_toolName := pe_toolName params;
     ctx_args := pe_args params |}.

(** The loop over the policy sets; sets without rules are skipped. *)
Fixpoint evaluate_sets (sets : list ToolPolicySet) (params : PolicyEvaluateParams)
    : PolicyEvaluateResult :=
  match sets with
  | [] => fallbackToDangerLevel (dangerLevel params)
  | policySet :: rest =>
      match dsl policySet with
      | None | Some [] => evaluate_sets rest params
      | Some rules =>
          let result := eval_rules rules (eval_context params) in
          match matchedRuleId result with
          | Some rid =>
              {| decision := mapDecision (res_decision result);
                 policyVersion := version policySet;
                 pr_matchedRuleId := Some rid; reason := res_reason result |}
          | None => evaluate_sets rest params
          end
      end
  end.

Definition evaluate (params : PolicyEvaluateParams) (now : Z)
    (fetch : option string -> list ToolPolicySet) (cache : policy_cache)
    : PolicyEvaluateResult * policy_cache :=
  let '(policies, cache') := load_policies (pe_serverId params) now fetch cache in
  (match policies with
   | [] => fallbackToDangerLevel (dangerLevel params)
   | _ => evaluate_sets policies params
   end, cache').
End Engine.

(** ** Lemmas: globs *)

Fixpoint no_terminator (s : string) : bool :=
  match s with
  | EmptyString => true
  | String c s' => negb (is_line_terminator c) && no_terminator s'
  end.

(** The declarative meaning of a glob. *)
Inductive glob_lang : string -> string -> Prop :=
| GL_nil : glob_lang "" ""
| GL_star ps u v :
    no_terminator u = true -> glob_lang ps v -> glob_lang (String "*" ps) (u +:+ v)
| GL_any ps c v :
    is_line_terminator c = false -> glob_lang ps v -> glob_lang (String "?" ps) (String c v)
| GL_lit p ps v :
    p <> "*"%char -> p <> "?"%char -> glob_lang ps v -> glob_lang (String p ps) (String p v).

Lemma glob_match_sound (fuel : nat) (p v : string) :
  glob_match fuel p v = true -> glob_lang p v.
Proof.
  revert p v. induction fuel as [|fuel IH]; intros p v H; [done|]. destruct p as [|c ps].
  - cbn in H. apply str_eqb_eq in H as ->. constructor.
  - cbn [glob_match] in H. destruct (nat_of_ascii c =? 42)%nat eqn:E.
    + apply Nat.eqb_eq in E. apply (nat_of_ascii_inj c "*"%char) in E as ->.
      apply orb_true_iff in H as [H|H].
      * apply (GL_star ps "" v); [done|by apply IH].
      * destruct v as [|d vs]; [done|]. to_prop. apply IH in H0.
        inversion H0 as [|? u w Hu Hw|? ? ? ? ?|? ? ? Hn]; subst; [|done].
        apply (GL_star ps (String d u) w); [|done]. cbn. by rewrite H.
    + destruct v as [|d vs]; [done|]. to_prop. apply IH in H0.
      destruct (nat_of_ascii c =? 63)%nat eqn:E2.
      * apply Nat.eqb_eq in E2. apply (nat_of_ascii_inj c "?"%char) in E2 as ->.
        to_prop. by apply GL_any.
      * to_prop. subst d. apply GL_lit; [| |done]; intros ->; [by cbn in E|by cbn in E2].
Qed.

Lemma glob_match_complete (p v : string) :
  glob_lang p v -> forall fuel, (String.length p + String.length v < fuel)%nat ->
  glob_match fuel p v = true.
Proof.
  induction 1 as [|ps u v Hu Hl IH|ps c v Hc Hl IH|c ps v H1 H2 Hl IH]; intros fuel Hf.
  - destruct fuel; [lia|done].
  - rewrite str_length_app in Hf. revert fuel Hf.
    induction u as [|d u IHu]; intros [|fuel] Hf; cbn [String.length] in Hf; try lia.
    + cbn [glob_match]. apply orb_true_iff. left. apply IH. cbn in Hf. lia.
    + cbn in Hu. to_prop.
      change (String d u +:+ v) with (String d (u +:+ v)). cbn [glob_match].
      apply orb_true_iff. right. rewrite H. apply IHu; [done|]. cbn. lia.
  - destruct fuel; cbn in Hf; [lia|]. cbn. rewrite Hc. cbn. apply IH. lia.
  - destruct fuel; cbn in Hf; [lia|]. cbn [glob_match].
    destruct (Nat.eqb_spec (nat_of_ascii c) 42) as [E|_];
      [by apply (nat_of_ascii_inj c "*"%char) in E|].
    destruct (Nat.eqb_spec (nat_of_ascii c) 63) as [E|_];
      [by apply (nat_of_ascii_inj c "?"%char) in E|].
    rewrite bool_decide_true by done. apply IH. lia.
Qed.

(** ** Lemmas: rule order *)

Section FirstMatch.
Context (applies : PolicyRule -> bool).

(** The winner among the applicable rules: least priority, first in the list
    among equals. *)
Fixpoint best (l : list PolicyRule) : option PolicyRule :=
  match l with
  | [] => None
  | r :: rs =>
      if applies r
      then match best rs with
           | Some r' => if priority_leb r r' then Some r else Some r'
           | None => Some r
           end
      else best rs
  end.

Lemma find_insert (x : PolicyRule) (l : list PolicyRule) :
  StronglySorted (fun a b => priority_leb a b = true) l ->
  find applies (isort_insert priority_leb x l)
  = if applies x
    then match find applies l with
         | Some y => if priority_leb x y then Some x else Some y
         | None => Some x
         end
    else find applies l.
Proof.
  induction 1 as [|y l Hl IH Hy]; cbn; [by destruct (applies x)|].
  destruct (priority_leb x y) eqn:E; cbn.
  - destruct (applies x); [|done]. destruct (applies y); [by rewrite E|].
    destruct (find applies l) as [z|] eqn:F; [|done].
    apply find_some in F as [Hin _]. rewrite Forall_forall in Hy.
    apply list_elem_of_In, Hy in Hin. unfold priority_leb in *. to_prop.
    destruct (Z.leb_spec (rule_priority x) (rule_priority z)); [done|lia].
  - destruct (applies y) eqn:A; [|done]. destruct (applies x); [by rewrite E|done].
Qed.

Lemma priority_leb_total (a b : PolicyRule) : priority_leb a b = true \/ priority_leb b a = true.
Proof. unfold priority_leb. rewrite !Z.leb_le. lia. Qed.

Lemma priority_leb_trans (a b c : PolicyRule) :
  priority_leb a b = true -> priority_leb b c = true -> priority_leb a c = true.
Proof. unfold priority_leb. rewrite !Z.leb_le. lia. Qed.

Lemma find_sorted (l : list PolicyRule) : find applies (isort priority_leb l) = best l.
Proof.
  induction l as [|x l IH]; [done|]. cbn.
  rewrite find_insert, IH; [done|].
  apply isort_sorted; [apply priority_leb_total|apply priority_leb_trans].
Qed.

Lemma best_spec (l : list PolicyRule) :
  match best l with
  | Some r =>
      exists l1 l2, l = l1 ++ r :: l2 /\ applies r = true
      /\ (forall r', In r' l1 -> applies r' = true -> rule_priority r < rule_priority r')
      /\ (forall r', In r' l2 -> applies r' = true -> rule_priority r <= rule_priority r')
  | None => forall r, In r l -> applies r = false
  end.
Proof.
  induction l as [|x l IH]; cbn; [done|]. destruct (applies x) eqn:A.
  - destruct (best l) as [r|].
    + destruct IH as (l1 & l2 & -> & Hr & H1 & H2). unfold priority_leb.
      destruct (Z.leb_spec (rule_priority x) (rule_priority r)) as [Hp|Hp].
      * exists [], (l1 ++ r :: l2). repeat split; try done.
        intros r' Hin Ha. apply in_app_iff in Hin as [Hin|[<-|Hin]]; [|done|].
        -- specialize (H1 r' Hin Ha). lia.
        -- specialize (H2 r' Hin Ha). lia.
      * exists (x :: l1), l2. repeat split; try done.
        intros r' [<-|Hin] Ha; [done|by apply H1].
    + exists [], l. repeat split; try done. intros r' Hin Ha. by rewrite IH in Ha.
  - destruct (best l) as [r|].
    + destruct IH as (l1 & l2 & -> & Hr & H1 & H2). exists (x :: l1), l2.
      repeat split; try done. intros r' [<-|Hin] Ha; [by rewrite A in Ha|by apply H1].
    + intros r [<-|Hin]; [done|by apply IH].
Qed.
End FirstMatch.

Section EngineLemmas.
Variable parseFloat : string -> option Z.
Variable numberOfString : string -> option Z.
Variable urlHostname : string -> option string.
Variable regexTest : string -> string -> option bool.

Definition applies (context : PolicyEvaluationContext) (r : PolicyRule) : bool :=
  matchesRule r context
  && allConditionsPass parseFloat numberOfString urlHostname regexTest r context.

Lemma evaluate_sorted_find (rules : list PolicyRule) (context : PolicyEvaluationContext) :
  evaluate_sorted parseFloat numberOfString urlHostname regexTest rules context
  = match find (applies context) rules with
    | Some r => rule_result r
    | None => {| res_decision := "ALLOW"; matchedRuleId := None; res_reason := None |}
    end.
Proof.
  induction rules as [|r rules IH]; [done|]. cbn [evaluate_sorted find].
  unfold applies at 1. destruct (matchesRule r context); cbn [andb negb]; [|done].
  by destruct (allConditionsPass _ _ _ _ r context).
Qed.
End EngineLemmas.

(** What the policy sets of an evaluation decide: the first set with an
    applicable rule. *)
Definition fresh_cache (repo : Z -> option string -> list ToolPolicySet) (cache : policy_cache)
    : Prop :=
  forall k ps f, cache !! k = Some (ps, f) ->
  exists sid, cache_key sid = k /\ sid <> Some "__global__"%string /\ ps = repo f sid.

Lemma cache_key_inj (a b : option string) :
  a <> Some "__global__"%string -> b <> Some "__global__"%string ->
  cache_key a = cache_key b -> a = b.
Proof. unfold cache_key. destruct a, b; cbn; congruence. Qed.

Lemma load_policies_spec (repo : Z -> option string -> list ToolPolicySet) (serverId : option string)
    (now : Z) (cache : policy_cache) :
  serverId <> Some "__global__"%string -> fresh_cache repo cache ->
  let '(ps, cache') := load_policies serverId now (repo now) cache in
  fresh_cache repo cache'
  /\ exists f, now - f < CACHE_TTL_MS /\ ps = repo f serverId.
Proof.
  intros Hs Hc. unfold load_policies.
  assert (Hnew : fresh_cache repo (<[cache_key serverId := (repo now serverId, now)]> cache)).
  { intros k ps f. destruct (base.decide (k = cache_key serverId)) as [->|Hk].
    - rewrite lookup_insert_eq. intros [= <- <-]. by exists serverId.
    - rewrite lookup_insert_ne by done. apply Hc. }
  assert (Hnow : exists f, now - f < CACHE_TTL_MS /\ repo now serverId = repo f serverId).
  { exists now. unfold CACHE_TTL_MS. split; [lia|done]. }
  destruct (cache !! cache_key serverId) as [[ps f]|] eqn:E; [|done].
  destruct (Z.ltb_spec (now - f) CACHE_TTL_MS); [|done].
  split; [done|]. exists f. split; [done|].
  destruct (Hc _ _ _ E) as (sid & Hk & Hg & ->). by apply cache_key_inj in Hk as ->.
Qed.

(** ** Properties *)

(** C35: Rule evaluation refines its specification: the answer is the effect of
    the applicable rule (server and tool patterns match, every condition holds)
    of least priority, the earliest written one among equals, although the
    code sorts the rules first; when no rule applies the answer is ALLOW with
    no rule id. *)
Theorem evaluate_dsl_first_match parseFloat numberOfString urlHostname regexTest
    (rules : PolicyDsl) (context : PolicyEvaluationContext) :
  let ap := applies parseFloat numberOfString urlHostname regexTest context in
  let res := evaluate_dsl parseFloat numberOfString urlHostname regexTest rules context in
  (exists l1 r l2, rules = l1 ++ r :: l2 /\ ap r = true /\ res = rule_result r
     /\ (forall r', In r' l1 -> ap r' = true -> rule_priority r < rule_priority r')
     /\ (forall r', In r' l2 -> ap r' = true -> rule_priority r <= rule_priority r'))
  \/ ((forall r, In r rules -> ap r = false)
      /\ res = {| res_decision := "ALLOW"; matchedRuleId := None; res_reason := None |}).
Proof.
  cbn zeta. unfold evaluate_dsl. rewrite evaluate_sorted_find, find_sorted.
  pose proof (best_spec (applies parseFloat numberOfString urlHostname regexTest context) rules) as H.
  destruct (best _ rules) as [r|].
  - left. destruct H as (l1 & l2 & -> & H). exists l1, r, l2. tauto.
  - right. done.
Qed.

(** The glob matcher decides the language it compiles to: [*] stands for
    any text and [?] for any one unit, in both cases free of line terminators,
    and everything else for itself; patterns over 512 units match nothing. *)
Theorem matchGlob_spec (pattern value : string) :
  matchGlob pattern value = true
  <-> (String.length pattern <= 512)%nat /\ glob_lang pattern value.
Proof.
  unfold matchGlob. destruct (Nat.ltb_spec 512 (String.length pattern)) as [H|H].
  - split; [done|]. intros [? _]. lia.
  - split.
    + intros Hm. split; [done|]. by eapply glob_match_sound.
    + intros [_ Hl]. apply glob_match_complete; [done|lia].
Qed.

(** Cached policies are never more than 30 seconds old: starting from a
    cache filled by the engine, an evaluation decides by the policies the
    repository held for that server at some moment less than [CACHE_TTL_MS]
    ago, walking the sets in repository order to the first applicable rule and
    falling back to the danger level; and it leaves such a cache behind. *)
Theorem engine_decides_by_recent_policies parseFloat numberOfString urlHostname regexTest
    (repo : Z -> option string -> list ToolPolicySet) (params : PolicyEvaluateParams) (now : Z)
    (cache : policy_cache) :
  pe_serverId params <> Some "__global__"%string -> fresh_cache repo cache ->
  let '(res, cache') :=
    evaluate parseFloat numberOfString urlHostname regexTest params now (repo now) cache in
  fresh_cache repo cache'
  /\ exists f, now - f < CACHE_TTL_MS
     /\ res = evaluate_sets parseFloat numberOfString urlHostname regexTest
                (repo f (pe_serverId params)) params.
Proof.
  intros Hs Hc. unfold evaluate.
  pose proof (load_policies_spec repo (pe_serverId params) now cache Hs Hc) as H.
  destruct (load_policies _ _ _ _) as [ps cache']. destruct H as (H1 & f & Hf & ->).
  split; [done|]. exists f. split; [done|]. by destruct (repo f _).
Qed.

(** A policy change takes effect at once where the cache is cleared: after
    [clearCache] for a server (or for all), the next evaluation for it decides
    by the repository's current policies, whatever was cached before. *)
Theorem cleared_cache_is_not_used parseFloat numberOfString urlHostname regexTest
    (repo : Z -> option string -> list ToolPolicySet) (params : PolicyEvaluateParams) (now : Z)
    (cache : policy_cache) (cleared : option string) :
  cleared = None \/ cleared = pe_serverId params ->
  fst (evaluate parseFloat numberOfString urlHostname regexTest params now (repo now)
         (clearCache cleared cache))
  = evaluate_sets parseFloat numberOfString urlHostname regexTest
      (repo now (pe_serverId params)) params.
Proof.
  intros Hcl.
  assert (Hn : clearCache cleared cache !! cache_key (pe_serverId params) = None).
  { destruct Hcl as [->| ->]; cbn; [apply lookup_empty|].
    destruct (pe_serverId params) as [s|]; cbn; [|apply lookup_empty].
    apply lookup_delete_None. right. apply lookup_delete_eq. }
  unfold evaluate, load_policies. rewrite Hn. cbn [fst]. by destruct (repo now _).
Qed.

Lemma latest_version_ge (serverId : option string) (t : policy_table) (p : ToolPolicySet) :
  In p t -> ps_serverId p = serverId -> version p <= latest_version serverId t.
Proof.
  induction t as [|q t IH]; [done|]. intros [->|Hin] Hs; cbn.
  - unfold same_scope at 1. rewrite bool_decide_true by done. lia.
  - specialize (IH Hin Hs). destruct (same_scope serverId q); [|done]. unfold latest_version in IH. lia.
Qed.

Definition versions (t : policy_table) : list (option string * Z) :=
  map (fun p => (ps_serverId p, version p)) t.

Lemma version_taken_false (serverId : option string) (v : Z) (t : policy_table) :
  version_taken serverId v t = false -> (serverId, v) ∉ versions t.
Proof.
  intros H (p & Hp & Hin)%list_elem_of_fmap. injection Hp as -> ->.
  apply not_true_iff_false in H. apply H. apply existsb_exists. exists p.
  split; [by apply list_elem_of_In|]. unfold same_scope.
  by rewrite bool_decide_true, Z.eqb_refl.
Qed.

(** Policy versions identify policies: in a table where no scope (a server,
    or global) has two policies of one version, creation under any interference
    that keeps this so keeps it so, and a created policy is active, carries the
    given body and a version above every version its scope had at the lookup;
    otherwise creation fails and adds nothing of its own. *)
Theorem create_policy_versions (i : string) (serverId : option string) (d : option PolicyDsl)
    (now : Z) (between : nat -> policy_table -> policy_table) (t : policy_table) :
  (forall k x, NoDup (versions x) -> NoDup (versions (between k x))) ->
  NoDup (versions t) ->
  let '(res, t') := create_policy i serverId d now between t in
  NoDup (versions t')
  /\ match res with
     | Ok p => In p t' /\ ps_serverId p = serverId /\ dsl p = d /\ ps_status p = "active"%string
               /\ exists before, NoDup (versions before)
                  /\ forall q, In q before -> ps_serverId q = serverId -> version q < version p
     | Throw _ => True
     end.
Proof.
  intros Hb. unfold create_policy. generalize 3%nat as left. intros left.
  generalize 0%nat as attempt. revert t.
  induction left as [|left IH]; intros t attempt Ht; [done|].
  cbn [create_policy_at]. destruct (version_taken _ _ _) eqn:E.
  - destruct (attempt <? 2)%nat; [|split; [by apply Hb|done]]. apply IH. by apply Hb.
  - cbn. split.
    + unfold versions. rewrite map_app. apply NoDup_app. split; [by apply Hb|].
      split; [|apply NoDup_singleton]. intros x Hx Hx'. apply list_elem_of_singleton in Hx' as ->.
      by apply version_taken_false in E.
    + split; [apply in_app_iff; right; by left|]. repeat split; try done.
      exists t. split; [done|]. intros q Hq Hs. pose proof (latest_version_ge _ _ _ Hq Hs). lia.
Qed.

(** ** Witnesses *)

Definition ex_rule : PolicyRule :=
  {| rule_id := "r1"; priority := None; match_tool := Some "send_*"%string;
     match_serverId := None; extract := []; when := []; effect_decision := "DENY";
     effect_reason := None |}.

Definition ex_set : ToolPolicySet :=
  {| ps_id := "p1"; ps_serverId := None; version := 1; ps_status := "active";
     dsl := Some [ex_rule]; ps_createdAt := 0 |}.

Definition ex_eval : PolicyEvaluateParams :=
  {| pe_userId := "u"; pe_serverId := Some "s1"%string; pe_toolName := "send_mail";
     pe_args := []; dangerLevel := Silent |}.

Definition no_num (s : string) : option Z := None.
Definition no_host (s : string) : option string := None.
Definition no_regex (p s : string) : option bool := None.

Lemma engine_decides_by_recent_policies_witness :
  exists f, 5 - f < CACHE_TTL_MS
  /\ fst (evaluate no_num no_num no_host no_regex ex_eval 5
            (fun sid => getEffectivePolicy sid [ex_set]) ∅)
     = evaluate_sets no_num no_num no_host no_regex
         (getEffectivePolicy (Some "s1"%string) [ex_set]) ex_eval.
Proof.
  pose proof (engine_decides_by_recent_policies no_num no_num no_host no_regex
    (fun _ sid => getEffectivePolicy sid [ex_set]) ex_eval 5 ∅) as H.
  destruct (evaluate _ _ _ _ _ _ _ _) as [res cache']. apply H; [discriminate|].
  intros k ps f Hk. rewrite lookup_empty in Hk. discriminate Hk.
Defined.

Lemma cleared_cache_is_not_used_witness :
  decision (fst (evaluate no_num no_num no_host no_regex ex_eval 5
     (fun sid => getEffectivePolicy sid [ex_set])
     (clearCache None {[ "s1"%string := ([], 0) ]}))) = Deny.
Proof.
  rewrite (cleared_cache_is_not_used no_num no_num no_host no_regex
    (fun _ sid => getEffectivePolicy sid [ex_set]) ex_eval 5 _ None); [|left; reflexivity].
  vm_compute. reflexivity.
Defined.

Lemma create_policy_versions_witness :
  NoDup (versions (snd (create_policy "p2" None None 9 (fun _ x => x) [ex_set]))).
Proof.
  pose proof (create_policy_versions "p2" None None 9 (fun _ x => x) [ex_set]
                (fun _ _ Hx => Hx) (NoDup_singleton _)) as H.
  destruct (create_policy _ _ _ _ _ _) as [res t']. exact (proj1 H).
Defined.
