(* ===== verification/RequestIdMapper.v ===== *)
(** * Request id mapping between clients and downstream servers

    [src/src/mcp/core/RequestIdMapper.ts]: the four tables of a session, their
    operations, and the invariant that ties them together. *)
From Stdlib Require Import Ascii DecimalString DecimalZ.
From stdpp Require Import base gmap strings list fin_maps.
From S2P Require Import Prelude Json.
Open Scope Z_scope.

(** JSON-RPC ids are strings or numbers. *)
Inductive RequestId : Type :=
| RNum (n : Z)
| RStr (s : string).

#[export] Instance RequestId_eq_dec : EqDecision RequestId.
Proof. solve_decision. Defined.

#[export] Instance RequestId_countable : Countable RequestId.
Proof.
  refine (inj_countable' (fun r => match r with RNum n => inl n | RStr s => inr s end)
            (fun x => match x with inl n => RNum n | inr s => RStr s end) _).
  by intros [].
Defined.

(** The text of an id inside a template string. *)
Definition id_text (r : RequestId) : string :=
  match r with RNum n => z_to_string n | RStr s => s end.

(** A mapping entry; the downstream connection is named, not modelled. *)
Record MappingEntry : Type := {
  originalRequestId : RequestId;
  proxyRequestId : string;
  downstreamRequestId : option RequestId;
  originalProgressToken : option RequestId;
  serverId : option string;
  client : option string;
  timestamp : Z;
  method_ : option string
}.

Record Mapper : Type := {
  sessionId : string;
  clientToProxy : gmap RequestId string;
  proxyToClient : gmap string RequestId;
  proxyToDownstream : gmap string MappingEntry;
  downstreamToProxy : gmap string string
}.

Definition TTL_MS : Z := 300000.

Definition new_mapper (sid : string) : Mapper :=
  {| sessionId := sid; clientToProxy := ∅; proxyToClient := ∅; proxyToDownstream := ∅;
     downstreamToProxy := ∅ |}.

Definition generateProxyRequestId (m : Mapper) (original : RequestId) (now : Z) : string :=
  sessionId m +:+ ":" +:+ id_text original +:+ ":" +:+ z_to_string now.

Definition downstream_key (downstream : RequestId) (server : string) : string :=
  id_text downstream +:+ ":" +:+ server.

(** [registerClientRequest]; an existing non-empty mapping is reused.  The
    clock is read twice, for the id and for the entry. *)
Definition registerClientRequest (original : RequestId) (method : option string)
    (server : option string) (now entryNow : Z) (m : Mapper) : string * Mapper :=
  let fresh :=
    let p := generateProxyRequestId m original now in
    (p, {| sessionId := sessionId m;
           clientToProxy := <[original := p]> (clientToProxy m);
           proxyToClient := <[p := original]> (proxyToClient m);
           proxyToDownstream :=
             <[p := {| originalRequestId := original; proxyRequestId := p;
                       downstreamRequestId := None; originalProgressToken := None;
                       serverId := server; client := None; timestamp := entryNow;
                       method_ := method |}]> (proxyToDownstream m);
           downstreamToProxy := downstreamToProxy m |}) in
  match clientToProxy m !! original with
  | Some p => if truthy_str p then (p, m) else fresh
  | None => fresh
  end.

(** The key of an entry's downstream mapping, when it has one. *)
Definition entry_key (e : MappingEntry) : option string :=
  match downstreamRequestId e, serverId e with
  | Some d, Some s => if truthy_str s then Some (downstream_key d s) else None
  | _, _ => None
  end.

Definition delete_key (k : option string) (d : gmap string string) : gmap string string :=
  match k with Some k => delete k d | None => d end.

Definition registerDownstreamMapping (p : string) (downstream : RequestId) (server : string)
    (cl : option string) (m : Mapper) : Mapper :=
  match proxyToDownstream m !! p with
  | Some entry =>
      {| sessionId := sessionId m; clientToProxy := clientToProxy m;
         proxyToClient := proxyToClient m;
         proxyToDownstream :=
           <[p := {| originalRequestId := originalRequestId entry;
                     proxyRequestId := proxyRequestId entry;
                     downstreamRequestId := Some downstream;
                     originalProgressToken := originalProgressToken entry;
                     serverId := Some server; client := cl; timestamp := timestamp entry;
                     method_ := method_ entry |}]> (proxyToDownstream m);
         downstreamToProxy :=
           <[downstream_key downstream server := p]>
             (delete_key (entry_key entry) (downstreamToProxy m)) |}
  | None => m
  end.

Definition setOriginalProgressToken (p : string) (token : RequestId) (m : Mapper) : Mapper :=
  match proxyToDownstream m !! p with
  | Some entry =>
      {| sessionId := sessionId m; clientToProxy := clientToProxy m;
         proxyToClient := proxyToClient m;
         proxyToDownstream :=
           <[p := {| originalRequestId := originalRequestId entry;
                     proxyRequestId := proxyRequestId entry;
                     downstreamRequestId := downstreamRequestId entry;
                     originalProgressToken := Some token;
                     serverId := serverId entry; client := client entry;
                     timestamp := timestamp entry; method_ := method_ entry |}]>
             (proxyToDownstream m);
         downstreamToProxy := downstreamToProxy m |}
  | None => m
  end.

Definition getOriginalProgressToken (p : string) (m : Mapper) : option RequestId :=
  proxyToDownstream m !! p ≫= originalProgressToken.

Definition getDownstreamRequestId (p : string) (m : Mapper) : option RequestId :=
  proxyToDownstream m !! p ≫= downstreamRequestId.

Definition getProxyRequestId (original : RequestId) (m : Mapper) : option string :=
  clientToProxy m !! original.

Definition getOriginalRequestId (p : string) (m : Mapper) : option RequestId :=
  proxyToClient m !! p.

Definition getProxyRequestIdFromDownstream (downstream : RequestId) (server : string)
    (m : Mapper) : option string :=
  downstreamToProxy m !! downstream_key downstream server.

Definition getMappingEntry (p : string) (m : Mapper) : option MappingEntry :=
  proxyToDownstream m !! p.

Definition getOriginalRequestIdFromDownstream (downstream : RequestId) (server : string)
    (m : Mapper) : option RequestId :=
  match getProxyRequestIdFromDownstream downstream server m with
  | Some p => if truthy_str p then getOriginalRequestId p m else None
  | None => None
  end.

Definition removeMapping (p : string) (m : Mapper) : Mapper :=
  match proxyToDownstream m !! p with
  | Some entry =>
      {| sessionId := sessionId m;
         clientToProxy := delete (originalRequestId entry) (clientToProxy m);
         proxyToClient := delete p (proxyToClient m);
         proxyToDownstream := delete p (proxyToDownstream m);
         downstreamToProxy := delete_key (entry_key entry) (downstreamToProxy m) |}
  | None => m
  end.

(** The proxy ids whose entries are older than the time to live. *)
Definition expired_ids (now : Z) (m : Mapper) : list string :=
  map fst (filter (fun pe => TTL_MS < now - timestamp (snd pe)) (map_to_list (proxyToDownstream m))).

Definition cleanupExpired (now : Z) (m : Mapper) : Z * Mapper :=
  (Z.of_nat (length (expired_ids now m)),
   fold_left (fun m p => removeMapping p m) (expired_ids now m) m).

Definition clear (m : Mapper) : Mapper := new_mapper (sessionId m).

(** [getStats]: the table sizes. *)
Definition getStats (m : Mapper) : nat * nat * nat * nat :=
  (size (proxyToDownstream m), size (clientToProxy m), size (proxyToDownstream m),
   size (downstreamToProxy m)).

(** ** The invariant

    The client and proxy tables are inverse to each other, the entries are
    those of the proxy table and carry its client ids, and a downstream key
    leads to an entry that names it. *)
Definition mapper_ok (m : Mapper) : Prop :=
  (forall o p, clientToProxy m !! o = Some p <-> proxyToClient m !! p = Some o)
  /\ (forall p, (exists o, proxyToClient m !! p = Some o)
               <-> is_Some (proxyToDownstream m !! p))
  /\ (forall p e, proxyToDownstream m !! p = Some e ->
        proxyToClient m !! p = Some (originalRequestId e) /\ proxyRequestId e = p
        /\ exists now, p = generateProxyRequestId m (originalRequestId e) now)
  /\ (forall k p, downstreamToProxy m !! k = Some p ->
        exists e, proxyToDownstream m !! p = Some e /\ exists d s,
          downstreamRequestId e = Some d /\ serverId e = Some s /\ s <> ""%string
          /\ k = downstream_key d s).

(** No other live request has the proxy id that a request made now gets: that
    is one whose id has the same text (the number [n] and its numeral),
    registered within the same millisecond. *)
Definition no_twin (original : RequestId) (now : Z) (m : Mapper) : Prop :=
  forall o, clientToProxy m !! o = Some (generateProxyRequestId m original now) -> o = original.

Inductive mapper_op : Type :=
| OpRegister (original : RequestId) (method server : option string) (now entryNow : Z)
| OpDownstream (p : string) (downstream : RequestId) (server : string) (cl : option string)
| OpToken (p : string) (token : RequestId)
| OpRemove (p : string)
| OpCleanup (now : Z)
| OpClear.

Definition mapper_exec (o : mapper_op) (m : Mapper) : Mapper :=
  match o with
  | OpRegister original method server now entryNow =>
      snd (registerClientRequest original method server now entryNow m)
  | OpDownstream p d s cl => registerDownstreamMapping p d s cl m
  | OpToken p t => setOriginalProgressToken p t m
  | OpRemove p => removeMapping p m
  | OpCleanup now => snd (cleanupExpired now m)
  | OpClear => clear m
  end.

(** Server ids are not empty, and no client uses two ids with the same text
    within a millisecond: the second is up to the client, nothing in the code
    sees to it ([aliased_ids_confused]). *)
Definition without_twins (o : mapper_op) (m : Mapper) : Prop :=
  match o with
  | OpRegister original _ _ now _ => no_twin original now m
  | OpDownstream _ _ server _ => server <> ""%string
  | _ => True
  end.

(** ** Lemmas *)

Lemma generate_inj (m : Mapper) (a b : RequestId) (x y : Z) :
  generateProxyRequestId m a x = generateProxyRequestId m b y -> id_text a = id_text b.
Proof.
  unfold generateProxyRequestId. intros H. apply str_app_inv_head in H.
  apply (str_sep_inj_r ":" (":" +:+ id_text a) (":" +:+ id_text b)) in H as [H _];
    [|apply z_to_string_no_colon..]. by injection H.
Qed.

Lemma generate_inj_time (m : Mapper) (a b : RequestId) (x y : Z) :
  generateProxyRequestId m a x = generateProxyRequestId m b y -> x = y.
Proof.
  unfold generateProxyRequestId. intros H. apply str_app_inv_head in H.
  apply (str_sep_inj_r ":" (":" +:+ id_text a) (":" +:+ id_text b)) in H as [_ H];
    [|apply z_to_string_no_colon..]. by apply z_to_string_inj.
Qed.

Lemma generate_nonempty (m : Mapper) (a : RequestId) (x : Z) :
  truthy_str (generateProxyRequestId m a x) = true.
Proof.
  unfold truthy_str, generateProxyRequestId. apply negb_true_iff, str_eqb_neq. intros H.
  apply (f_equal String.length) in H. rewrite !str_length_app in H. cbn in H. lia.
Qed.

Lemma ok_truthy (m : Mapper) (o : RequestId) (p : string) :
  mapper_ok m -> clientToProxy m !! o = Some p -> truthy_str p = true.
Proof.
  intros (H1 & H2 & H3 & _) H. apply H1 in H as H'.
  destruct (proj1 (H2 p) (ex_intro _ o H')) as [e He].
  destruct (H3 p e He) as (_ & _ & now & ->). apply generate_nonempty.
Qed.

Lemma register_new (m : Mapper) (o : RequestId) now :
  mapper_ok m -> no_twin o now m -> clientToProxy m !! o = None ->
  proxyToClient m !! generateProxyRequestId m o now = None.
Proof.
  intros (H1 & _) Hu Hn. destruct (proxyToClient m !! _) as [o'|] eqn:E; [|done].
  apply H1 in E. rewrite (Hu _ E) in E. congruence.
Qed.

Lemma register_ok (m : Mapper) (o : RequestId) me se now ts :
  mapper_ok m -> no_twin o now m -> mapper_ok (snd (registerClientRequest o me se now ts m)).
Proof.
  intros Hok Hu. unfold registerClientRequest.
  destruct (clientToProxy m !! o) as [p|] eqn:E; [by rewrite (ok_truthy m o p)|]. cbn [snd].
  pose proof (register_new m o now Hok Hu E) as Hp.
  set (p := generateProxyRequestId m o now) in *.
  destruct Hok as (H1 & H2 & H3 & H4).
  assert (Hd : proxyToDownstream m !! p = None).
  { destruct (proxyToDownstream m !! p) as [e|] eqn:F; [|done].
    destruct (proj2 (H2 p)) as [o' Ho']; [by eexists|congruence]. }
  split; [|split; [|split]]; cbn.
  - intros o' p'. rewrite !lookup_insert_Some, H1. split.
    + intros [[-> ->]|[Hn Hx]]; [by left|right]. split; [|done]. intros ->. congruence.
    + intros [[-> ->]|[Hn Hx]]; [by left|right]. split; [|done]. intros ->.
      apply H1 in Hx. congruence.
  - intros p'. destruct (base.decide (p' = p)) as [->|Hn].
    + rewrite !lookup_insert_eq. split; intros _; by eexists.
    + rewrite !lookup_insert_ne by done. apply H2.
  - intros p' e. destruct (base.decide (p' = p)) as [->|Hn].
    + rewrite !lookup_insert_eq. intros [= <-]. cbn. repeat split. by exists now.
    + rewrite !lookup_insert_ne by done. apply H3.
  - intros k p' Hk. destruct (H4 k p' Hk) as (e & He & Hx). exists e.
    rewrite lookup_insert_ne by congruence. done.
Qed.

(** Replacing an entry by one with the same client id keeps the first three
    parts of the invariant. *)
Lemma update_entry_ok (m : Mapper) (p : string) (e e' : MappingEntry) (d : gmap string string) :
  mapper_ok m -> proxyToDownstream m !! p = Some e ->
  originalRequestId e' = originalRequestId e -> proxyRequestId e' = proxyRequestId e ->
  (forall k p', d !! k = Some p' ->
     exists e'', <[p := e']> (proxyToDownstream m) !! p' = Some e'' /\ exists x s,
       downstreamRequestId e'' = Some x /\ serverId e'' = Some s /\ s <> ""%string
       /\ k = downstream_key x s) ->
  mapper_ok {| sessionId := sessionId m; clientToProxy := clientToProxy m;
               proxyToClient := proxyToClient m;
               proxyToDownstream := <[p := e']> (proxyToDownstream m);
               downstreamToProxy := d |}.
Proof.
  intros (H1 & H2 & H3 & _) He Ho Hp Hd. split; [done|split; [|split; [|done]]]; cbn.
  - intros p'. destruct (base.decide (p' = p)) as [->|Hn].
    + rewrite lookup_insert_eq, H2, He. split; intros _; by eexists.
    + by rewrite lookup_insert_ne.
  - intros p' x. destruct (base.decide (p' = p)) as [->|Hn].
    + rewrite lookup_insert_eq. intros [= <-]. rewrite Ho, Hp. by apply H3.
    + rewrite lookup_insert_ne by done. apply H3.
Qed.

#[global] Arguments entry_key : simpl never.

Lemma entry_key_some (e : MappingEntry) (d : RequestId) (s : string) :
  downstreamRequestId e = Some d -> serverId e = Some s -> s <> ""%string ->
  entry_key e = Some (downstream_key d s).
Proof.
  unfold entry_key. intros -> -> Hs. unfold truthy_str. by apply str_eqb_neq in Hs as ->.
Qed.

Lemma downstream_ok (m : Mapper) p x s cl :
  mapper_ok m -> s <> ""%string -> mapper_ok (registerDownstreamMapping p x s cl m).
Proof.
  intros Hok Hs. unfold registerDownstreamMapping.
  destruct (proxyToDownstream m !! p) as [e|] eqn:E; [|done].
  eapply update_entry_ok; [done|exact E|done|done|].
  pose proof Hok as (_ & _ & _ & H4). intros k p' Hk. apply lookup_insert_Some in Hk as [[<- <-]|[Hn Hk]].
  - rewrite lookup_insert_eq. eexists. split; [done|]. by exists x, s.
  - assert (Hk' : downstreamToProxy m !! k = Some p' /\ entry_key e <> Some k).
    { destruct (entry_key e) as [k'|]; cbn in Hk; [|done].
      apply lookup_delete_Some in Hk as [Hne Hk]. split; [done|congruence]. }
    destruct Hk' as [Hk' Hne]. destruct (H4 k p' Hk') as (e'' & He & d & s' & Hd & Hs' & Hss & ->).
    destruct (base.decide (p' = p)) as [->|Hp].
    + rewrite E in He. injection He as ->. by rewrite (entry_key_some e'' d s') in Hne.
    + rewrite lookup_insert_ne by done. exists e''. split; [done|]. by exists d, s'.
Qed.

Lemma token_ok (m : Mapper) p t : mapper_ok m -> mapper_ok (setOriginalProgressToken p t m).
Proof.
  intros Hok. unfold setOriginalProgressToken.
  destruct (proxyToDownstream m !! p) as [e|] eqn:E; [|done].
  eapply update_entry_ok; [done|exact E|done|done|].
  pose proof Hok as (_ & _ & _ & H4). intros k p' Hk.
  destruct (H4 k p' Hk) as (e'' & He & d & s & Hd & Hs & Hss & ->).
  destruct (base.decide (p' = p)) as [->|Hp].
  - rewrite lookup_insert_eq. rewrite E in He. injection He as ->. eexists. split; [done|].
    by exists d, s.
  - rewrite lookup_insert_ne by done. exists e''. split; [done|]. by exists d, s.
Qed.

Lemma remove_ok (m : Mapper) p : mapper_ok m -> mapper_ok (removeMapping p m).
Proof.
  intros Hok. unfold removeMapping. destruct (proxyToDownstream m !! p) as [e|] eqn:E; [|done].
  destruct Hok as (H1 & H2 & H3 & H4). destruct (H3 p e E) as (Ho & _ & _).
  split; [|split; [|split]]; cbn.
  - intros o p'. rewrite !lookup_delete_Some, H1. split; intros [Hn Hx]; (split; [|done]).
    + intros <-. rewrite Hx in Ho. congruence.
    + intros <-. apply Hn. apply H1 in Hx, Ho. rewrite Hx in Ho. by injection Ho.
  - intros p'. destruct (base.decide (p' = p)) as [->|Hn].
    + rewrite !lookup_delete_eq. split; [by intros [? ?]|by intros [? ?]].
    + rewrite !lookup_delete_ne by done. apply H2.
  - intros p' e'. rewrite !lookup_delete_Some. intros [Hn He].
    destruct (H3 p' e' He) as (? & ? & ?). done.
  - intros k p' Hk.
    assert (Hk' : downstreamToProxy m !! k = Some p' /\ entry_key e <> Some k).
    { destruct (entry_key e) as [k'|]; cbn in Hk; [|done].
      apply lookup_delete_Some in Hk as [Hne Hk]. split; [done|congruence]. }
    destruct Hk' as [Hk' Hne]. destruct (H4 k p' Hk') as (e'' & He & d & s' & Hd & Hs' & Hss & ->).
    exists e''. destruct (base.decide (p' = p)) as [->|Hp].
    + rewrite E in He. injection He as ->. by rewrite (entry_key_some e'' d s') in Hne.
    + rewrite lookup_delete_ne by done. split; [done|]. by exists d, s'.
Qed.

Lemma removes_ok (ps : list string) (m : Mapper) :
  mapper_ok m -> mapper_ok (fold_left (fun m p => removeMapping p m) ps m).
Proof. revert m. induction ps as [|p ps IH]; intros m Hm; [done|]. cbn. by apply IH, remove_ok. Qed.

Lemma new_mapper_ok (sid : string) : mapper_ok (new_mapper sid).
Proof.
  split; [|split; [|split]]; cbn; intros *; rewrite ?lookup_empty; try done.
  split; [by intros [? ?]|by intros [? ?]].
Qed.

(** The mappers a session reaches whose client keeps its ids apart. *)
Inductive mapper_reach (sid : string) : Mapper -> Prop :=
| MR_new : mapper_reach sid (new_mapper sid)
| MR_op m o : mapper_reach sid m -> without_twins o m -> mapper_reach sid (mapper_exec o m).

(** *** Whatever the client does *)

(** The mappers a session reaches by any operations. *)
Inductive reached (sid : string) : Mapper -> Prop :=
| reached_new : reached sid (new_mapper sid)
| reached_op m o : reached sid m -> reached sid (mapper_exec o m).

(** The id of an entry leads to that entry, and is not empty. *)
Definition entries_own (m : Mapper) : Prop :=
  (forall p e, proxyToDownstream m !! p = Some e -> clientToProxy m !! originalRequestId e = Some p)
  /\ (forall o p, clientToProxy m !! o = Some p -> truthy_str p = true).

Lemma register_own o me se now ts m : entries_own m -> entries_own (snd (registerClientRequest o me se now ts m)).
Proof.
  intros [H1 H2]. unfold registerClientRequest. destruct (clientToProxy m !! o) as [q|] eqn:E; [by rewrite (H2 o q)|].
  cbn. split; cbn.
  - intros p e [[<- <-]|[Hne He]]%lookup_insert_Some; [apply lookup_insert_eq|].
    apply H1 in He. rewrite lookup_insert_ne; [done|]. congruence.
  - intros o' p [[<- <-]|[_ Ho]]%lookup_insert_Some; [apply generate_nonempty|by eapply H2].
Qed.

Lemma remove_own q m : entries_own m -> entries_own (removeMapping q m).
Proof.
  intros [H1 H2]. unfold removeMapping. destruct (proxyToDownstream m !! q) as [eq|] eqn:Eq; [|done].
  split; cbn.
  - intros p e [Hne He]%lookup_delete_Some. apply H1 in He as Hc, Eq as Hq. rewrite lookup_delete_ne; [done|]. congruence.
  - intros o p [_ Ho]%lookup_delete_Some. by eapply H2.
Qed.

Lemma exec_own o m : entries_own m -> entries_own (mapper_exec o m).
Proof.
  intros Hm. destruct o as [o me se now ts|q d s cl|q t|q|now|]; cbn.
  - by apply register_own.
  - unfold registerDownstreamMapping. destruct (proxyToDownstream m !! q) as [eq|] eqn:Eq; [|done].
    destruct Hm as [H1 H2]. split; cbn; [|done]. intros p e [[<- <-]|[_ He]]%lookup_insert_Some; [by apply (H1 q eq)|by apply H1].
  - unfold setOriginalProgressToken. destruct (proxyToDownstream m !! q) as [eq|] eqn:Eq; [|done].
    destruct Hm as [H1 H2]. split; cbn; [|done]. intros p e [[<- <-]|[_ He]]%lookup_insert_Some; [by apply (H1 q eq)|by apply H1].
  - by apply remove_own.
  - generalize (expired_ids now m) as ps. intros ps. revert m Hm. induction ps as [|q ps IH]; intros m Hm; [done|]. cbn. by apply IH, remove_own.
  - split; cbn; intros *; by rewrite lookup_empty.
Qed.

Lemma reached_own sid m : reached sid m -> entries_own m.
Proof. induction 1 as [|m o _ IH]; [|by apply exec_own]. split; cbn; intros *; by rewrite lookup_empty. Qed.

(** ** Properties *)

(** The four tables stay consistent: in every mapper reachable by
    operations without twins and whose server ids are not empty,
    the client and proxy tables are inverse to each other, the entries are
    exactly those of the proxy table and carry its client ids, and every
    downstream key leads to the live entry that names it, so no response is
    routed to a removed or foreign request. *)
Theorem mapper_invariant (sid : string) (m : Mapper) : mapper_reach sid m -> mapper_ok m.
Proof.
  induction 1 as [|m o Hr IH Ha]; [apply new_mapper_ok|].
  destruct o as [o me se now ts|p d s cl|p t|p|now|]; cbn in *.
  - by apply register_ok.
  - by apply downstream_ok.
  - by apply token_ok.
  - by apply remove_ok.
  - by apply removes_ok.
  - apply new_mapper_ok.
Qed.

(** A response finds its request: after a new client request is registered
    and sent downstream under a key that is not in use, the downstream id leads
    back to exactly the client's id, every other downstream key leads where it
    led before, and removing the mapping restores all tables to what they were,
    so nothing leaks. *)
Theorem response_routing (m : Mapper) (o d : RequestId) (me se cl : option string)
    (server : string) (now ts : Z) :
  mapper_ok m -> no_twin o now m -> clientToProxy m !! o = None -> server <> ""%string ->
  downstreamToProxy m !! downstream_key d server = None ->
  let '(p, m1) := registerClientRequest o me se now ts m in
  let m2 := registerDownstreamMapping p d server cl m1 in
  getOriginalRequestIdFromDownstream d server m2 = Some o
  /\ getProxyRequestId o m2 = Some p /\ getDownstreamRequestId p m2 = Some d
  /\ (forall k, k <> downstream_key d server -> downstreamToProxy m2 !! k = downstreamToProxy m !! k)
  /\ removeMapping p m2 = m.
Proof.
  intros Hok Hu Hn Hs Hk. unfold registerClientRequest. rewrite Hn.
  pose proof (register_new m o now Hok Hu Hn) as Hp.
  pose proof (generate_nonempty m o now) as Ht.
  set (p := generateProxyRequestId m o now) in *.
  assert (Hd : proxyToDownstream m !! p = None).
  { destruct Hok as (_ & H2 & _). destruct (proxyToDownstream m !! p) as [e|] eqn:F; [|done].
    destruct (proj2 (H2 p)) as [o' Ho']; [by eexists|congruence]. }
  unfold registerDownstreamMapping. cbn. rewrite lookup_insert_eq. cbn.
  unfold getOriginalRequestIdFromDownstream, getProxyRequestIdFromDownstream, getProxyRequestId,
    getOriginalRequestId, getDownstreamRequestId, removeMapping; cbn.
  rewrite !lookup_insert_eq. cbn. rewrite ?Ht, ?lookup_insert_eq.
  split; [done|split; [done|split; [done|split]]].
  - intros k Hne. by rewrite lookup_insert_ne.
  - destruct m as [sid a b c e]; cbn in *. f_equal.
    + by apply delete_insert_id.
    + by apply delete_insert_id.
    + rewrite insert_insert_eq. by apply delete_insert_id.
    + rewrite (entry_key_some _ d server) by done. cbn. by apply delete_insert_id.
Qed.

(** Ids that only differ in type are confused: when a client uses a number
    and its numeral as the ids of two requests within the same millisecond,
    both get the same proxy id, and the response to the first is delivered
    under the id of the second. *)
Theorem aliased_ids_confused (sid : string) (n : Z) (d : RequestId) (server : string)
    (me se cl : option string) (now : Z) :
  let '(p1, m1) := registerClientRequest (RNum n) me se now now (new_mapper sid) in
  let m2 := registerDownstreamMapping p1 d server cl m1 in
  let '(p2, m3) := registerClientRequest (RStr (z_to_string n)) me se now now m2 in
  p1 = p2 /\ getOriginalRequestIdFromDownstream d server m3 = Some (RStr (z_to_string n)).
Proof.
  set (p := generateProxyRequestId (new_mapper sid) (RNum n) now).
  pose proof (generate_nonempty (new_mapper sid) (RNum n) now : truthy_str p = true) as Ht.
  unfold registerClientRequest at 1. cbn [clientToProxy new_mapper]. rewrite lookup_empty.
  fold p. unfold registerDownstreamMapping. cbn. rewrite lookup_insert_eq. cbn.
  unfold registerClientRequest. cbn. rewrite lookup_insert_ne, lookup_empty by done.
  split; [done|]. unfold getOriginalRequestIdFromDownstream, getProxyRequestIdFromDownstream,
    getOriginalRequestId. cbn. rewrite lookup_insert_eq, Ht. apply lookup_insert_eq.
Qed.

(** Removing a mapping whose downstream key was meanwhile taken over by another
    request cuts the other request off. *)
Lemma removal_cuts_takeover (m : Mapper) (p1 p2 : string) (d : RequestId) (server : string)
    (cl1 cl2 : option string) :
  p1 <> p2 -> server <> ""%string ->
  is_Some (proxyToDownstream m !! p1) -> is_Some (proxyToDownstream m !! p2) ->
  let m' := removeMapping p1 (registerDownstreamMapping p2 d server cl2
              (registerDownstreamMapping p1 d server cl1 m)) in
  is_Some (proxyToDownstream m' !! p2) /\ getDownstreamRequestId p2 m' = Some d
  /\ getProxyRequestIdFromDownstream d server m' = None.
Proof.
  intros Hne Hs [e1 E1] [e2 E2]. cbn zeta. unfold registerDownstreamMapping. rewrite E1. cbn.
  rewrite lookup_insert_ne, E2 by done. cbn. unfold removeMapping. cbn.
  rewrite lookup_insert_ne, lookup_insert_eq by done. cbn.
  unfold getDownstreamRequestId, getProxyRequestIdFromDownstream. cbn.
  rewrite lookup_delete_ne, lookup_insert_eq by done. split; [by eexists|]. split; [done|].
  rewrite (entry_key_some _ d server) by done. cbn. apply lookup_delete_eq.
Qed.

(** ** Witnesses *)

Lemma mapper_invariant_witness :
  mapper_ok (snd (registerClientRequest (RNum 0) None None 5 5 (new_mapper "s"))).
Proof.
  apply (mapper_invariant "s").
  apply (MR_op "s" (new_mapper "s") (OpRegister (RNum 0) None None 5 5)); [constructor|].
  intros o H. cbn in H. rewrite lookup_empty in H. discriminate H.
Defined.

Lemma response_routing_witness :
  let '(p, m1) := registerClientRequest (RNum 0) None None 5 5 (new_mapper "s") in
  getOriginalRequestIdFromDownstream (RNum 7) "srv"
    (registerDownstreamMapping p (RNum 7) "srv" None m1) = Some (RNum 0).
Proof.
  pose proof (response_routing (new_mapper "s") (RNum 0) (RNum 7) None None None "srv" 5 5
                (new_mapper_ok "s")) as H.
  apply H; try reflexivity; try discriminate.
Defined.
