(* ===== verification/RateLimit.v ===== *)
(** * Per-user request rate limiting

    [src/src/security/RateLimitService.ts] and the decision part of
    [src/src/middleware/RateLimitMiddleware.ts]. *)
From stdpp Require Import base gmap strings list fin_maps.
From S2P Require Import Prelude.
Open Scope Z_scope.

Record RateLimitResult : Type := {
  allowed : bool;
  remaining : Z;
  resetTime : Z;
  retryAfter : option Z
}.

Record UserCount : Type := { count : Z; windowStart : Z; lastRequestTime : Z }.

Notation counts := (gmap string UserCount).

Definition WINDOW_SIZE : Z := 60000.

(** [Math.ceil(x / 1000)] *)
Definition ceil_seconds (x : Z) : Z := - ((- x) / 1000).

Definition first_in_window (rateLimit now : Z) : RateLimitResult * UserCount :=
  ({| allowed := true; remaining := rateLimit - 1; resetTime := now + WINDOW_SIZE;
      retryAfter := None |},
   {| count := 1; windowStart := now; lastRequestTime := now |}).

Definition checkRateLimit (userId : string) (rateLimit now : Z) (m : counts)
    : RateLimitResult * counts :=
  match m !! userId with
  | None =>
      let '(r, c) := first_in_window rateLimit now in (r, <[userId := c]> m)
  | Some userCount =>
      if WINDOW_SIZE <=? now - windowStart userCount then
        let '(r, c) := first_in_window rateLimit now in (r, <[userId := c]> m)
      else if rateLimit <=? count userCount then
        let reset := windowStart userCount + WINDOW_SIZE in
        ({| allowed := false; remaining := 0; resetTime := reset;
            retryAfter := Some (ceil_seconds (reset - now)) |}, m)
      else
        let c := {| count := count userCount + 1; windowStart := windowStart userCount;
                    lastRequestTime := now |} in
        ({| allowed := true; remaining := rateLimit - count c;
            resetTime := windowStart userCount + WINDOW_SIZE; retryAfter := None |},
         <[userId := c]> m)
  end.

Definition expired_count (now : Z) (c : UserCount) : bool :=
  WINDOW_SIZE * 2 <? now - lastRequestTime c.

Definition cleanupExpiredCounts (now : Z) (m : counts) : counts :=
  filter (fun kc => expired_count now (snd kc) = false) m.

(** The middleware's answer: pass on, or 429 with the retry delay. *)
Inductive rate_response : Type :=
| Next
| TooManyRequests (limit remaining reset : Z) (retry : string).

Definition rate_middleware (auth : option (string * Z)) (now : Z) (m : counts)
    (show : Z -> string) : rate_response * counts :=
  match auth with
  | None => (Next, m)
  | Some (userId, rateLimit) =>
      let '(r, m') := checkRateLimit userId rateLimit now m in
      if negb (allowed r) then
        (TooManyRequests rateLimit (remaining r) (resetTime r)
           (match retryAfter r with
            | Some s => if truthy_str (show s) then show s else "60"
            | None => "60"
            end), m')
      else (Next, m')
  end.

(** ** Traces *)

Inductive rate_event : Type :=
| Request (userId : string) (rateLimit : Z)
| Cleanup.

(** The times at which requests of [user] are admitted. *)
Fixpoint admitted (user : string) (evs : list (Z * rate_event)) (m : counts) : list Z :=
  match evs with
  | [] => []
  | (now, Request u l) :: evs' =>
      let '(r, m') := checkRateLimit u l now m in
      (if allowed r && str_eqb u user then [now] else []) ++ admitted user evs' m'
  | (now, Cleanup) :: evs' => admitted user evs' (cleanupExpiredCounts now m)
  end.

Definition before (y : Z) (l : list Z) : Z := Z.of_nat (length (filter (fun t => t < y) l)).

Definition in_interval (x y : Z) (l : list Z) : Z :=
  Z.of_nat (length (filter (fun t => x <= t /\ t < y) l)).

(** Times do not decrease, and the requests of [user] carry the limit [l]. *)
Fixpoint ordered_from (t : Z) (user : string) (l : Z) (evs : list (Z * rate_event)) : Prop :=
  match evs with
  | [] => True
  | (now, e) :: evs' =>
      t <= now /\ match e with Request u l' => u = user -> l' = l | Cleanup => True end
      /\ ordered_from now user l evs'
  end.

(** ** Lemmas *)

Lemma check_other (u user : string) (l now : Z) (m : counts) :
  u <> user -> snd (checkRateLimit u l now m) !! user = m !! user.
Proof.
  intros Hne. unfold checkRateLimit, first_in_window.
  destruct (m !! u); case_bool; cbn; rewrite ?lookup_insert_ne by done; done.
Qed.

Lemma cleanup_lookup (user : string) (now : Z) (m : counts) :
  cleanupExpiredCounts now m !! user
  = match m !! user with
    | Some c => if expired_count now c then None else Some c
    | None => None
    end.
Proof.
  unfold cleanupExpiredCounts. rewrite map_lookup_filter.
  destruct (m !! user) as [c|]; [|done]. cbn.
  destruct (expired_count now c); cbn; [by rewrite option_guard_False|by rewrite option_guard_True].
Qed.

Lemma before_cons (y t : Z) (l : list Z) :
  before y (t :: l) = (if t <? y then 1 else 0) + before y l.
Proof.
  unfold before. rewrite filter_cons. destruct (Z.ltb_spec t y).
  - rewrite decide_True by done. cbn [length]. lia.
  - rewrite decide_False by lia. done.
Qed.

Lemma before_nonneg (y : Z) (l : list Z) : 0 <= before y l.
Proof. unfold before. lia. Qed.

Lemma admitted_late (user : string) (evs : list (Z * rate_event)) (t l y : Z) (m : counts) :
  ordered_from t user l evs -> y <= t -> before y (admitted user evs m) = 0.
Proof.
  revert t m. induction evs as [|[now e] evs IH]; intros t m Ho Hy; [done|].
  cbn in Ho. destruct Ho as (Ht & _ & Ho). destruct e as [u l'|]; cbn.
  - destruct (checkRateLimit u l' now m) as [r m']. destruct (allowed r && str_eqb u user); cbn.
    + rewrite before_cons. destruct (Z.ltb_spec now y); [lia|]. apply (IH now); [done|lia].
    + apply (IH now); [done|lia].
  - apply (IH now); [done|lia].
Qed.

(** Inside the current window of a user the admissions are limited by what is
    left of it. *)
Lemma window_bound (user : string) (l : Z) (evs : list (Z * rate_event)) (t y : Z) (m : counts)
    (c : UserCount) :
  ordered_from t user l evs -> m !! user = Some c -> windowStart c <= lastRequestTime c ->
  y <= windowStart c + WINDOW_SIZE -> lastRequestTime c <= t -> 1 <= count c ->
  before y (admitted user evs m) <= Z.max 0 (l - count c).
Proof.
  revert t m c. induction evs as [|[now e] evs IH]; intros t m c Ho Hm Hw Hy Hl Hc;
    [cbn; unfold before; cbn; lia|].
  cbn in Ho. destruct Ho as (Ht & He & Ho). destruct e as [u l'|]; cbn [admitted].
  - destruct (base.decide (u = user)) as [->|Hne].
    + rewrite (He eq_refl). unfold checkRateLimit. rewrite Hm.
      destruct (Z.leb_spec WINDOW_SIZE (now - windowStart c)) as [Hr|Hr].
      * cbn. rewrite str_eqb_refl. cbn [app]. rewrite before_cons.
        rewrite (admitted_late user evs now l) by (done || lia).
        destruct (Z.ltb_spec now y); lia.
      * destruct (Z.leb_spec l (count c)).
        -- cbn. apply (IH now m c); try done; lia.
        -- cbn. rewrite str_eqb_refl. cbn [app]. rewrite before_cons.
           specialize (IH now (<[user:={| count := count c + 1; windowStart := windowStart c;
             lastRequestTime := now |}]> m) {| count := count c + 1; windowStart := windowStart c;
             lastRequestTime := now |} Ho (lookup_insert_eq _ _ _)). cbn in IH.
           specialize (IH ltac:(lia) ltac:(lia) ltac:(lia) ltac:(lia)).
           destruct (now <? y); lia.
    + pose proof (check_other u user l' now m Hne) as Hother.
      destruct (checkRateLimit u l' now m) as [r m']. cbn in Hother.
      apply str_eqb_neq in Hne as ->. rewrite andb_false_r. cbn.
      apply (IH now m' c); try done; try congruence. lia.
  - destruct (expired_count now c) eqn:E.
    + unfold expired_count in E. apply Z.ltb_lt in E.
      rewrite (admitted_late user evs now l) by (done || (unfold WINDOW_SIZE in *; lia)). lia.
    + apply (IH now _ c); try done; [|lia]. by rewrite cleanup_lookup, Hm, E.
Qed.

(** Up to one window after the end of the current one, a full further quota
    may be admitted. *)
Lemma two_window_bound (user : string) (l : Z) (evs : list (Z * rate_event)) (t y : Z)
    (m : counts) (c : UserCount) :
  1 <= l -> ordered_from t user l evs -> m !! user = Some c ->
  windowStart c <= lastRequestTime c -> lastRequestTime c <= t -> 1 <= count c ->
  y <= windowStart c + 2 * WINDOW_SIZE ->
  before y (admitted user evs m) <= Z.max 0 (l - count c) + l.
Proof.
  intros Hl1. revert t m c. induction evs as [|[now e] evs IH]; intros t m c Ho Hm Hw Hl Hc Hy;
    [cbn; unfold before; cbn; lia|].
  cbn in Ho. destruct Ho as (Ht & He & Ho). destruct e as [u l'|]; cbn [admitted].
  - destruct (base.decide (u = user)) as [->|Hne].
    + rewrite (He eq_refl). unfold checkRateLimit. rewrite Hm.
      destruct (Z.leb_spec WINDOW_SIZE (now - windowStart c)) as [Hr|Hr].
      * cbn. rewrite str_eqb_refl. cbn [app]. rewrite before_cons.
        pose proof (window_bound user l evs now y
          (<[user:={| count := 1; windowStart := now; lastRequestTime := now |}]> m)
          {| count := 1; windowStart := now; lastRequestTime := now |} Ho
          (lookup_insert_eq _ _ _)) as Hb. cbn in Hb.
        specialize (Hb ltac:(lia) ltac:(lia) ltac:(lia) ltac:(lia)).
        destruct (now <? y); lia.
      * destruct (Z.leb_spec l (count c)).
        -- cbn. apply (IH now m c); try done; lia.
        -- cbn. rewrite str_eqb_refl. cbn [app]. rewrite before_cons.
           specialize (IH now (<[user:={| count := count c + 1; windowStart := windowStart c;
             lastRequestTime := now |}]> m) {| count := count c + 1; windowStart := windowStart c;
             lastRequestTime := now |} Ho (lookup_insert_eq _ _ _)). cbn in IH.
           specialize (IH ltac:(lia) ltac:(lia) ltac:(lia) ltac:(lia)).
           destruct (now <? y); lia.
    + pose proof (check_other u user l' now m Hne) as Hother.
      destruct (checkRateLimit u l' now m) as [r m']. cbn in Hother.
      apply str_eqb_neq in Hne as ->. rewrite andb_false_r. cbn.
      apply (IH now m' c); try done; try congruence; lia.
  - destruct (expired_count now c) eqn:E.
    + unfold expired_count in E. apply Z.ltb_lt in E.
      rewrite (admitted_late user evs now l) by (done || (unfold WINDOW_SIZE in *; lia)). lia.
    + apply (IH now _ c); try done; [|lia]. by rewrite cleanup_lookup, Hm, E.
Qed.

(** The record of [user], if any, is from the past and not empty. *)
Definition user_ok (user : string) (t : Z) (m : counts) : Prop :=
  match m !! user with
  | Some c => windowStart c <= lastRequestTime c /\ lastRequestTime c <= t /\ 1 <= count c
  | None => True
  end.

Lemma event_user_ok (user : string) (t now : Z) (e : rate_event) (m : counts) :
  t <= now -> user_ok user t m ->
  user_ok user now (match e with
                    | Request u l => snd (checkRateLimit u l now m)
                    | Cleanup => cleanupExpiredCounts now m
                    end).
Proof.
  intros Ht Hm. unfold user_ok in *. destruct e as [u l|].
  - destruct (base.decide (u = user)) as [->|Hne]; [|rewrite check_other by done].
    + unfold checkRateLimit. destruct (m !! user) as [c|] eqn:E; [case_bool|]; cbn;
        rewrite ?lookup_insert_eq, ?E; cbn; lia.
    + destruct (m !! user); lia.
  - rewrite cleanup_lookup. destruct (m !! user) as [c|]; [|done].
    destruct (expired_count now c); lia.
Qed.

Lemma late_bound (user : string) (l : Z) (evs : list (Z * rate_event)) (t x : Z) (m : counts) :
  1 <= l -> ordered_from t user l evs -> x <= t -> user_ok user t m ->
  before (x + WINDOW_SIZE) (admitted user evs m) <= 2 * l - 1.
Proof.
  intros Hl. revert t m. induction evs as [|[now e] evs IH]; intros t m Ho Hx Hm;
    [unfold before; cbn; lia|].
  pose proof Ho as Hall. cbn in Ho. destruct Ho as (Ht & He & Ho).
  pose proof (event_user_ok user t now e m Ht Hm) as Hm'.
  assert (Hfresh : forall m', m' !! user
                   = Some {| count := 1; windowStart := now; lastRequestTime := now |} ->
            before (x + WINDOW_SIZE) (now :: admitted user evs m') <= 2 * l - 1).
  { intros m' E. rewrite before_cons.
    pose proof (window_bound user l evs now (x + WINDOW_SIZE) m' _ Ho E) as Hb. cbn in Hb.
    specialize (Hb ltac:(lia) ltac:(lia) ltac:(lia) ltac:(lia)).
    destruct (now <? x + WINDOW_SIZE); lia. }
  destruct e as [u l'|]; cbn [admitted]; [|apply (IH now); [done|lia|done]].
  destruct (base.decide (u = user)) as [->|Hne].
  - rewrite (He eq_refl) in *. unfold user_ok in Hm. destruct (m !! user) as [c|] eqn:E.
    + destruct (Z.leb_spec WINDOW_SIZE (now - windowStart c)) as [Hr|Hr].
      * unfold checkRateLimit. rewrite E. apply Z.leb_le in Hr as ->. cbn.
        rewrite str_eqb_refl. apply Hfresh, lookup_insert_eq.
      * pose proof (two_window_bound user l ((now, Request user l) :: evs) t (x + WINDOW_SIZE) m c
                      Hl) as Hb. cbn [ordered_from admitted] in Hb.
        specialize (Hb (conj Ht (conj (fun _ => eq_refl) Ho)) E ltac:(lia) ltac:(lia) ltac:(lia)
                      ltac:(lia)). lia.
    + unfold checkRateLimit. rewrite E. cbn. rewrite str_eqb_refl. apply Hfresh, lookup_insert_eq.
  - destruct (checkRateLimit u l' now m) as [r m'] eqn:E. cbn [snd] in Hm'.
    apply str_eqb_neq in Hne as ->. rewrite andb_false_r. cbn. apply (IH now); [done|lia|done].
Qed.

Lemma in_interval_cons (x y t : Z) (l : list Z) :
  in_interval x y (t :: l) = (if (x <=? t) && (t <? y) then 1 else 0) + in_interval x y l.
Proof.
  unfold in_interval. rewrite filter_cons.
  destruct (Z.leb_spec x t); destruct (Z.ltb_spec t y); cbn [andb].
  - rewrite decide_True by done. cbn [length]. lia.
  - rewrite decide_False by lia. done.
  - rewrite decide_False by lia. done.
  - rewrite decide_False by lia. done.
Qed.

Lemma in_interval_before (x y : Z) (l : list Z) : in_interval x y l <= before y l.
Proof.
  induction l as [|t l IH]; [done|]. rewrite in_interval_cons, before_cons.
  destruct (x <=? t), (t <? y); cbn; lia.
Qed.

Lemma interval_bound (user : string) (l : Z) (evs : list (Z * rate_event)) (t x : Z) (m : counts) :
  1 <= l -> ordered_from t user l evs -> user_ok user t m ->
  in_interval x (x + WINDOW_SIZE) (admitted user evs m) <= 2 * l - 1.
Proof.
  intros Hl. revert t m. induction evs as [|[now e] evs IH]; intros t m Ho Hm;
    [unfold in_interval; cbn; lia|].
  pose proof Ho as Hall. cbn in Ho. destruct Ho as (Ht & He & Ho).
  destruct (Z.leb_spec x now) as [Hx|Hx].
  - etrans; [apply in_interval_before|]. apply (late_bound user l _ now); [done| |done|].
    + cbn. split; [lia|done].
    + unfold user_ok in *. destruct (m !! user); lia.
  - pose proof (event_user_ok user t now e m Ht Hm) as Hm'. destruct e as [u l'|]; cbn [admitted].
    + destruct (checkRateLimit u l' now m) as [r m']. cbn [snd] in Hm'.
      destruct (allowed r && str_eqb u user); cbn [app]; [|by apply (IH now)].
      rewrite in_interval_cons. destruct (Z.leb_spec x now); [lia|]. cbn. by apply (IH now).
    + by apply (IH now).
Qed.

(** ** Properties *)

(** C40: The rate limit's guarantee: in any history of requests (of any users)
    and cleanups, a user whose requests carry a limit [l >= 1] has at most
    [2 * l - 1] requests admitted in any interval of one minute. *)
Theorem rate_limit_bound (user : string) (l t x : Z) (evs : list (Z * rate_event)) :
  1 <= l -> ordered_from t user l evs ->
  in_interval x (x + WINDOW_SIZE) (admitted user evs ∅) <= 2 * l - 1.
Proof. intros Hl Ho. by apply (interval_bound user l evs t x ∅). Qed.

(** A refused request is told when to come back: the reported reset time is
    in the future, the delay covers it, and a request at or after that time is
    admitted again, with the refusal itself changing nothing. *)
Theorem refused_then_admitted (user : string) (l now later : Z) (m : counts) :
  let '(r, m') := checkRateLimit user l now m in
  allowed r = false ->
  m' = m /\ now < resetTime r
  /\ (exists s, retryAfter r = Some s /\ resetTime r <= now + s * 1000)
  /\ (resetTime r <= later -> allowed (fst (checkRateLimit user l later m)) = true).
Proof.
  unfold checkRateLimit. destruct (m !! user) as [c|] eqn:E; [|done].
  destruct (Z.leb_spec WINDOW_SIZE (now - windowStart c)) as [Hr|Hr]; [done|].
  destruct (l <=? count c); [|done]. cbn. intros _. split; [done|].
  assert (now < windowStart c + WINDOW_SIZE) by lia. split; [lia|]. split.
  - eexists. split; [done|]. unfold ceil_seconds.
    pose proof (Z.div_mod (- (windowStart c + WINDOW_SIZE - now)) 1000 ltac:(lia)).
    pose proof (Z.mod_pos_bound (- (windowStart c + WINDOW_SIZE - now)) 1000 ltac:(lia)). lia.
  - intros Hl. destruct (Z.leb_spec WINDOW_SIZE (later - windowStart c)); [done|lia].
Qed.

(** The window is fixed, not sliding: with a limit of 10, nineteen requests are
    admitted within two milliseconds around a window boundary. *)
Lemma burst_across_boundary :
  in_interval 59999 60001
    (admitted "u" ([(0, Request "u" 10)]
                   ++ repeat (59999, Request "u" 10) 9 ++ repeat (60000, Request "u" 10) 10) ∅)
  = 19.
Proof. vm_compute. reflexivity. Qed.

(** A limit of zero does not block: each window's first request is admitted,
    and the reported remainder is negative. *)
Lemma zero_limit_admits (user : string) (now : Z) :
  allowed (fst (checkRateLimit user 0 now ∅)) = true
  /\ remaining (fst (checkRateLimit user 0 now ∅)) = -1.
Proof. unfold checkRateLimit. by rewrite lookup_empty. Qed.

(** ** Witnesses *)

Lemma rate_limit_bound_witness :
  in_interval 0 (0 + WINDOW_SIZE)
    (admitted "u" [(0, Request "u" 2); (1, Request "u" 2); (2, Request "u" 2)] ∅) <= 2 * 2 - 1.
Proof. apply (rate_limit_bound "u" 2 0 0); [lia|]. cbn. repeat split; lia. Defined.
