(* ===== verification/IpWhitelist.v ===== *)
(** * The IP whitelist: matching, the cached list, the middleware and the admin operations

    [src/src/security/IpWhitelistService.ts],
    [src/src/middleware/IpWhitelistMiddleware.ts] and
    [src/src/controllers/handlers/IpWhitelistHandler.ts].  JavaScript's 32-bit
    operators are written out on [Z]. *)
From Stdlib Require Import Ascii ZArith Lia DecimalString DecimalZ DecimalN.
From stdpp Require Import base strings list.
From S2P Require Import Prelude Json JsMap.
Open Scope Z_scope.

(** ** 32-bit arithmetic *)

Definition two32 : Z := 4294967296.

Definition to_uint32 (x : Z) : Z := x mod two32.

Definition to_int32 (x : Z) : Z :=
  let u := to_uint32 x in if u <? 2147483648 then u else u - two32.

(** [a << b]; a NaN count shifts by nothing. *)
Definition js_shl (a : Z) (b : option Z) : Z :=
  to_int32 (Z.shiftl (to_int32 a) (match b with Some n => Z.land (to_uint32 n) 31 | None => 0 end)).

(** [a & b] *)
Definition js_and (a b : Z) : Z := to_int32 (Z.land (to_uint32 a) (to_uint32 b)).

(** ** Matching *)

Definition normalizeIp (ip : string) : string :=
  if starts_with "::ffff:" ip then str_drop 7 ip
  else if str_eqb ip "::1" then "127.0.0.1"
  else ip.

(** [ipToNumber]; [None] is the thrown error. *)
Fixpoint fold_octets (parts : list string) (acc : Z) : option Z :=
  match parts with
  | [] => Some acc
  | p :: ps =>
      match parseInt p with
      | None => None
      | Some num =>
          if (num <? 0) || (255 <? num) then None
          else fold_octets ps (js_shl acc (Some 8) + num)
      end
  end.

Definition ipToNumber (ip : string) : option Z :=
  let parts := split_on "." ip in
  if negb (length parts =? 4)%nat then None
  else match fold_octets parts 0 with
       | Some r => Some (to_uint32 r)
       | None => None
       end.

(** [(0xffffffff << (32 - bitsNum)) >>> 0] *)
Definition subnet_mask (bits : option Z) : Z :=
  to_uint32 (js_shl 4294967295 (match bits with Some b => Some (32 - b) | None => None end)).

Definition isIpMatch (ip pattern : string) : bool :=
  let normalizedIp := normalizeIp ip in
  if negb (includes "/" pattern) then str_eqb normalizedIp pattern
  else
    match split_on "/" pattern with
    | network :: bits :: _ =>
        let bitsNum := parseInt bits in
        if bool_decide (bitsNum = Some 0) then true
        else match ipToNumber normalizedIp, ipToNumber network with
             | Some ipNum, Some networkNum =>
                 js_and ipNum (subnet_mask bitsNum) =? js_and networkNum (subnet_mask bitsNum)
             | _, _ => false
             end
    | _ => false
    end.

Definition isValidIp (ip : string) : bool :=
  let parts := split_on "." ip in
  (length parts =? 4)%nat
  && forallb (fun part => match parseInt part with
                          | Some num => (0 <=? num) && (num <=? 255)
                                        && str_eqb part (z_to_string num)
                          | None => false
                          end) parts.

Definition isValidIpOrCidr (entry : string) : bool :=
  if str_eqb entry "0.0.0.0/0" then true
  else if includes "/" entry then
    match split_on "/" entry with
    | ip :: bits :: _ =>
        match parseInt bits with
        | Some b => if (b <? 0) || (32 <? b) then false else isValidIp ip
        | None => false
        end
    | _ => false
    end
  else isValidIp entry.

(** ** The service and its cached list *)

Definition WILDCARD : string := "0.0.0.0/0".

Record IpService : Type := {
  whitelist : list string;
  lastCacheUpdate : Z;
  initialized : bool
}.

Definition cacheExpiry : Z := 900000.

Definition new_service : IpService :=
  {| whitelist := [WILDCARD]; lastCacheUpdate := 0; initialized := false |}.

(** The database's answer: its addresses in id order, or an error. *)
Notation db_read := (option (list string)).

Definition loadFromDatabase (db : db_read) (now : Z) : M IpService string unit := fun s =>
  match db with
  | None => (Throw "database error"%string, s)
  | Some records =>
      (Ok tt, {| whitelist := if bool_decide (records = []) then [WILDCARD] else records;
                 lastCacheUpdate := now; initialized := initialized s |})
  end.

Definition initialize (db : db_read) (now : Z) (s : IpService) : IpService :=
  if initialized s then s
  else match loadFromDatabase db now s with
       | (Ok _, s') => {| whitelist := whitelist s'; lastCacheUpdate := lastCacheUpdate s';
                          initialized := true |}
       | (Throw _, s') => {| whitelist := [WILDCARD]; lastCacheUpdate := lastCacheUpdate s';
                             initialized := initialized s' |}
       end.

Definition getIpWhitelist (db : db_read) (now : Z) (s : IpService) : list string * IpService :=
  let s' := if cacheExpiry <? now - lastCacheUpdate s
            then snd (loadFromDatabase db now s) else s in
  (whitelist s', s').

Definition reloadFromDatabase (db : db_read) (now : Z) : M IpService string (list string) :=
  loadFromDatabase db now ;! mgets whitelist.

(** The decision on a list. *)
Definition list_allows (clientIp : string) (l : list string) : bool :=
  existsb (str_eqb WILDCARD) l || existsb (isIpMatch clientIp) l.

Definition isIpAllowed (clientIp : string) (db : db_read) (now : Z) (s : IpService)
    : bool * IpService :=
  let '(l, s') := getIpWhitelist db now s in (list_allows clientIp l, s').

Definition clearCache (s : IpService) : IpService :=
  {| whitelist := whitelist s; lastCacheUpdate := 0; initialized := initialized s |}.

(** ** The middleware *)

Definition isValidIpv4 (ip : string) : bool :=
  let parts := split_on "." ip in
  (length parts =? 4)%nat
  && forallb (fun part => match parseInt part with
                          | Some num => (0 <=? num) && (num <=? 255)
                          | None => false
                          end) parts.

Definition normalizeClientIp (ip : string) : string :=
  if starts_with "::ffff:" ip then str_drop 7 ip
  else if str_eqb ip "::1" then "127.0.0.1"
  else if includes ":" ip && includes "." ip then
    match last_index_of ":" ip with
    | Some i => if isValidIpv4 (str_drop (S i) ip) then str_drop (S i) ip else ip
    | None => ip
    end
  else ip.

(** The headers a client address is taken from, in order, then the socket. *)
Record ip_request : Type := {
  x_forwarded_for : option string;
  x_real_ip : option string;
  cf_connecting_ip : option string;
  socket_address : string
}.

Definition getClientIp (req : ip_request) : string :=
  if truthy_ostr (x_forwarded_for req)
  then match split_on "," (default "" (x_forwarded_for req)) with
       | first :: _ => normalizeClientIp (trim first)
       | [] => ""
       end
  else if truthy_ostr (x_real_ip req) then normalizeClientIp (default "" (x_real_ip req))
  else if truthy_ostr (cf_connecting_ip req)
  then normalizeClientIp (default "" (cf_connecting_ip req))
  else normalizeClientIp (socket_address req).

(** [true] passes the request on, [false] answers 403. *)
Definition checkIpWhitelist (req : ip_request) (db : db_read) (now : Z) (s : IpService)
    : bool * IpService :=
  isIpAllowed (getClientIp req) db now s.

(** ** Admin operations *)

Record IpRecord : Type := { ip_id : nat; ip : string }.

Record IpState : Type := { records : list IpRecord; next_id : nat; service : IpService }.

Definition db_ips (s : IpState) : list string := map ip (records s).

(** Every operation ends by reloading the list from the database. *)
Definition reload (now : Z) (s : IpState) : IpState :=
  {| records := records s; next_id := next_id s;
     service := snd (loadFromDatabase (Some (db_ips s)) now (service s)) |}.

Fixpoint number_from (n : nat) (ips : list string) : list IpRecord :=
  match ips with
  | [] => []
  | i :: rest => {| ip_id := n; ip := i |} :: number_from (S n) rest
  end.

Definition insert_ips (ips : list string) (s : IpState) : IpState :=
  {| records := records s ++ number_from (next_id s) ips;
     next_id := next_id s + length ips; service := service s |}.

(** Operation 4001; the entries are stored as given. *)
Definition handleUpdateIpWhitelist (ips : list string) (now : Z) (s : IpState)
    : list string * IpState :=
  let s' := reload now (insert_ips ips {| records := []; next_id := next_id s;
                                          service := service s |}) in
  (whitelist (service s'), s').

(** Operation 4002: the list an administrator is shown. *)
Definition handleGetIpWhitelist (s : IpState) : list string :=
  let l := db_ips s in
  if bool_decide (l = []) then [WILDCARD]
  else if existsb (fun i => negb (str_eqb i WILDCARD)) l then [WILDCARD]
  else l.

(** Operation 4003. *)
Definition handleDeleteIpWhitelist (ips : list string) (now : Z) (s : IpState)
    : result string nat * IpState :=
  if bool_decide (ips = []) then (Throw "Invalid ips array"%string, s)
  else
    let hit r := existsb (str_eqb (ip r)) ips in
    let deleted := filter (fun r => hit r = true) (records s) in
    if bool_decide (length deleted = O) then (Ok O, s)
    else (Ok (length deleted),
          reload now {| records := filter (fun r => hit r = false) (records s);
                        next_id := next_id s; service := service s |}).

(** Operation 4004: validated, duplicates of stored entries skipped. *)
Definition handleAddIpWhitelist (ips : list string) (now : Z) (s : IpState)
    : result string nat * IpState :=
  if bool_decide (ips = []) then (Throw "Invalid ips array"%string, s)
  else if existsb (fun i => negb (isValidIpOrCidr i)) ips
  then (Throw "Invalid IP/CIDR format"%string, s)
  else
    let newIps := filter (fun i => existsb (str_eqb i) (db_ips s) = false) ips in
    (Ok (length newIps), reload now (insert_ips newIps s)).

(** Operation 4005. *)
Definition handleSpecialIpWhitelistOperation (operation : string) (now : Z) (s : IpState)
    : result string unit * IpState :=
  if str_eqb operation "allow-all" then
    (Ok tt, reload now (if existsb (str_eqb WILDCARD) (db_ips s) then s
                        else insert_ips [WILDCARD] s))
  else if str_eqb operation "deny-all" then
    (Ok tt, reload now
       (if existsb (fun i => negb (str_eqb i WILDCARD)) (db_ips s)
        then {| records := filter (fun r => str_eqb (ip r) WILDCARD = false) (records s);
                next_id := next_id s; service := service s |}
        else s))
  else (Throw "Invalid operation"%string, s).

(** ** Lemmas: parsing numerals *)

Fixpoint all_digits (s : string) : bool :=
  match s with EmptyString => true | String c s' => is_digit c && all_digits s' end.

Lemma take_while_all (s : string) : all_digits s = true -> take_while is_digit s = s.
Proof.
  induction s as [|c s IH]; [done|]. cbn [all_digits take_while]. intros H. to_prop.
  rewrite H. by rewrite IH.
Qed.

Lemma all_digits_uint (d : Decimal.uint) : all_digits (NilEmpty.string_of_uint d) = true.
Proof. induction d; done. Qed.

Lemma digit_head (c : ascii) :
  is_digit c = true -> is_space c = false /\ (nat_of_ascii c =? 45)%nat = false
  /\ (nat_of_ascii c =? 43)%nat = false.
Proof. destruct c as [[] [] [] [] [] [] [] []]; vm_compute; done. Qed.

Lemma digit_second (c : ascii) :
  is_digit c = true -> bool_decide ("x"%char = c) = false /\ bool_decide ("X"%char = c) = false.
Proof. destruct c as [[] [] [] [] [] [] [] []]; vm_compute; done. Qed.

Lemma parseInt_digits (s : string) : all_digits s = true -> s <> ""%string -> parseInt s = parse_nat s.
Proof.
  intros Hs Hne. destruct s as [|c s]; [done|]. pose proof Hs as Hall. cbn [all_digits] in Hs.
  apply andb_true_iff in Hs as [Hc Hs]. destruct (digit_head c Hc) as (H1 & H2 & H3).
  unfold parseInt, sign_and_rest. cbn [skip_space]. rewrite H1, H2, H3.
  assert (Hx : starts_with "0x" (String c s) || starts_with "0X" (String c s) = false).
  { destruct s as [|e s]; cbn; [by rewrite !andb_false_r|]. cbn in Hs. to_prop.
    destruct (digit_second e) as [-> ->]; [done|]. by rewrite !andb_false_r. }
  rewrite Hx. by destruct (parse_nat (String c s)).
Qed.

Lemma z_to_string_uint (z : Z) :
  0 <= z -> exists d, z_to_string z = NilEmpty.string_of_uint d /\ Z.of_uint d = z
                      /\ NilEmpty.string_of_uint d <> ""%string.
Proof.
  intros Hz. unfold z_to_string. pose proof (DecimalZ.of_to z) as Hof.
  assert (Hi : exists d, Z.to_int z = Decimal.Pos d /\ d <> Decimal.Nil).
  { destruct z as [|p|p]; [by exists (Decimal.D0 Decimal.Nil)| |lia].
    exists (Pos.to_uint p). split; [done|]. intros E.
    by apply (DecimalPos.Unsigned.to_uint_nonnil p). }
  destruct Hi as (d & Hd & Hn). rewrite Hd in *. exists d. cbn in *.
  split; [by destruct d|]. split; [done|]. by destruct d.
Qed.

Lemma parseInt_z (z : Z) : 0 <= z -> parseInt (z_to_string z) = Some z.
Proof.
  intros Hz. destruct (z_to_string_uint z Hz) as (d & -> & Hd & Hn).
  rewrite parseInt_digits by (done || apply all_digits_uint).
  unfold parse_nat. rewrite take_while_all by apply all_digits_uint.
  apply str_eqb_neq in Hn as ->. rewrite NilEmpty.usu. by rewrite Hd.
Qed.

Lemma z_to_string_no (z : Z) (c : ascii) :
  0 <= z -> is_digit c = false -> str_mem c (z_to_string z) = false.
Proof.
  intros Hz Hc. destruct (z_to_string_uint z Hz) as (d & -> & _).
  pose proof (all_digits_uint d) as H. induction (NilEmpty.string_of_uint d) as [|a s IH]; [done|].
  cbn [all_digits str_mem] in *. to_prop. rewrite IH by done. rewrite orb_false_r.
  apply bool_decide_false. intros ->. congruence.
Qed.

(** ** Lemmas: addresses *)

Record quad : Type := { qa : Z; qb : Z; qc : Z; qd : Z }.

Definition octet (x : Z) : Prop := 0 <= x <= 255.

Definition quad_ok (q : quad) : Prop := octet (qa q) /\ octet (qb q) /\ octet (qc q) /\ octet (qd q).

Definition dotted (q : quad) : string :=
  str_join "." [z_to_string (qa q); z_to_string (qb q); z_to_string (qc q); z_to_string (qd q)].

Definition quad_value (q : quad) : Z := ((qa q * 256 + qb q) * 256 + qc q) * 256 + qd q.

Lemma dotted_split (q : quad) :
  quad_ok q -> split_on "." (dotted q)
  = [z_to_string (qa q); z_to_string (qb q); z_to_string (qc q); z_to_string (qd q)].
Proof.
  intros (Ha & Hb & Hc & Hd). unfold octet in *. apply (split_join "."); [done|].
  repeat constructor; apply z_to_string_no; (lia || done).
Qed.

Lemma to_uint32_small (x : Z) : 0 <= x < two32 -> to_uint32 x = x.
Proof. apply Z.mod_small. Qed.

Lemma to_int32_uint (x : Z) : to_uint32 (to_int32 x) = to_uint32 x.
Proof.
  unfold to_int32. pose proof (Z.mod_pos_bound x two32 ltac:(unfold two32; lia)).
  destruct (Z.ltb_spec (to_uint32 x) 2147483648); [by apply Z.mod_small|].
  unfold to_uint32 in *. rewrite Zminus_mod, Z_mod_same_full, Z.sub_0_r, !Z.mod_mod by (unfold two32; lia).
  done.
Qed.

Lemma to_int32_small (x : Z) : 0 <= x < 2147483648 -> to_int32 x = x.
Proof.
  intros H. unfold to_int32. rewrite to_uint32_small by (unfold two32; lia).
  destruct (Z.ltb_spec x 2147483648); lia.
Qed.

Lemma to_int32_inj (x y : Z) :
  0 <= x < two32 -> 0 <= y < two32 -> to_int32 x = to_int32 y -> x = y.
Proof.
  intros Hx Hy H. apply (f_equal to_uint32) in H. rewrite !to_int32_uint in H.
  by rewrite !to_uint32_small in H.
Qed.

Lemma js_shl_8 (x : Z) : 0 <= x < 2147483648 -> js_shl x (Some 8) = to_int32 (x * 256).
Proof.
  intros H. unfold js_shl. rewrite (to_int32_small x) by done.
  change (Z.land (to_uint32 8) 31) with 8. rewrite Z.shiftl_mul_pow2 by lia. done.
Qed.

Lemma octet_test (x : Z) : octet x -> (x <? 0) || (255 <? x) = false.
Proof. unfold octet. intros. apply orb_false_iff. rewrite !Z.ltb_ge. lia. Qed.

Lemma ipToNumber_dotted (q : quad) : quad_ok q -> ipToNumber (dotted q) = Some (quad_value q).
Proof.
  intros Hq. unfold ipToNumber. rewrite dotted_split by done. cbn [length Nat.eqb negb fold_octets].
  destruct Hq as (Ha & Hb & Hc & Hd).
  rewrite !parseInt_z by (unfold octet in *; lia). rewrite !octet_test by done.
  unfold octet in *. rewrite (js_shl_8 0) by lia. change (to_int32 (0 * 256)) with 0.
  rewrite Z.add_0_l. rewrite (js_shl_8 (qa q)), (to_int32_small (qa q * 256)) by lia.
  rewrite (js_shl_8 (qa q * 256 + qb q)), (to_int32_small ((qa q * 256 + qb q) * 256)) by lia.
  rewrite js_shl_8 by lia. f_equal. unfold quad_value, to_uint32.
  rewrite Zplus_mod. fold (to_uint32 (to_int32 (((qa q * 256 + qb q) * 256 + qc q) * 256))).
  rewrite to_int32_uint. unfold to_uint32. rewrite <- Zplus_mod. apply Z.mod_small.
  unfold two32. lia.
Qed.

Lemma quad_value_bound (q : quad) : quad_ok q -> 0 <= quad_value q < two32.
Proof. intros (? & ? & ? & ?). unfold octet, quad_value, two32 in *. lia. Qed.

Lemma dotted_head (q : quad) :
  quad_ok q -> exists c s, dotted q = String c s /\ is_digit c = true.
Proof.
  intros (Ha & _). unfold octet in Ha. unfold dotted.
  destruct (z_to_string_uint (qa q)) as (d & E & _ & Hn); [lia|].
  pose proof (all_digits_uint d) as H. cbn [str_join]. rewrite E in *.
  destruct (NilEmpty.string_of_uint d) as [|c s]; [done|]. cbn in H. to_prop.
  by eexists c, _.
Qed.

Lemma normalize_dotted (q : quad) : quad_ok q -> normalizeIp (dotted q) = dotted q.
Proof.
  intros (c & s & -> & Hc)%dotted_head. unfold normalizeIp.
  destruct c as [[] [] [] [] [] [] [] []]; done.
Qed.

Lemma includes_slash (a b : string) : includes "/" (a +:+ String "/" b) = true.
Proof.
  induction a as [|c a IH]; [done|].
  change (starts_with "/" (String c (a +:+ String "/" b)) || includes "/" (a +:+ String "/" b) = true).
  rewrite IH. apply orb_true_r.
Qed.

Lemma dotted_no_slash (q : quad) : quad_ok q -> str_mem "/" (dotted q) = false.
Proof.
  intros (Ha & Hb & Hc & Hd). unfold octet in *. unfold dotted. cbn [str_join].
  rewrite !str_mem_app, !z_to_string_no by (lia || done). done.
Qed.

(** ** Lemmas: masks *)

Lemma subnet_mask_value (n : Z) :
  1 <= n <= 32 -> subnet_mask (Some n) = Z.shiftl (Z.ones n) (32 - n).
Proof.
  intros H. assert (E : In n (map Z.of_nat (seq 1 32))).
  { apply in_map_iff. exists (Z.to_nat n). split; [lia|]. apply in_seq. lia. }
  cbn in E. repeat (destruct E as [<-|E]; [vm_compute; reflexivity|]). done.
Qed.

Lemma land_mask (x n : Z) :
  1 <= n <= 32 -> 0 <= x < two32 ->
  Z.land x (Z.shiftl (Z.ones n) (32 - n)) = Z.shiftl (x / 2 ^ (32 - n)) (32 - n).
Proof.
  intros Hn Hx. rewrite <- (Z.shiftr_div_pow2 x) by lia.
  apply Z.bits_inj'. intros i Hi. rewrite Z.land_spec, !Z.shiftl_spec by lia.
  destruct (Z.ltb_spec i (32 - n)).
  - by rewrite !(Z.testbit_neg_r _ (i - (32 - n))), andb_false_r by lia.
  - rewrite Z.shiftr_spec by lia. replace (i - (32 - n) + (32 - n)) with i by lia.
    destruct (Z.ltb_spec (i - (32 - n)) n).
    + rewrite Z.ones_spec_low by lia. apply andb_true_r.
    + rewrite Z.ones_spec_high by lia. rewrite andb_false_r. symmetry.
      apply Z.bits_above_log2; [lia|]. destruct (Z.eq_dec x 0) as [->|]; [cbn; lia|].
      apply Z.log2_lt_pow2; [lia|].
      eapply Z.lt_le_trans; [apply Hx|]. change two32 with (2 ^ 32). apply Z.pow_le_mono_r; lia.
Qed.

Lemma js_and_mask (x y n : Z) :
  1 <= n <= 32 -> 0 <= x < two32 -> 0 <= y < two32 ->
  (js_and x (subnet_mask (Some n)) =? js_and y (subnet_mask (Some n)))
  = (x / 2 ^ (32 - n) =? y / 2 ^ (32 - n)).
Proof.
  intros Hn Hx Hy. rewrite subnet_mask_value by done. unfold js_and.
  assert (Hm : to_uint32 (Z.shiftl (Z.ones n) (32 - n)) = Z.shiftl (Z.ones n) (32 - n)).
  { rewrite <- subnet_mask_value by done. unfold subnet_mask, to_uint32. apply Z.mod_mod. done. }
  rewrite Hm, !(to_uint32_small x), !(to_uint32_small y), !land_mask by done.
  assert (Hb : forall z, 0 <= z < two32 -> 0 <= Z.shiftl (z / 2 ^ (32 - n)) (32 - n) < two32).
  { intros z Hz. rewrite Z.shiftl_mul_pow2 by lia.
    pose proof (Z.mul_div_le z (2 ^ (32 - n)) ltac:(lia)).
    pose proof (Z.div_pos z (2 ^ (32 - n)) ltac:(lia) ltac:(lia)). nia. }
  apply eq_iff_eq_true. rewrite !Z.eqb_eq. split; [|by intros ->].
  intros H. apply to_int32_inj in H; [|by apply Hb..].
  rewrite !Z.shiftl_mul_pow2 in H by lia. apply Z.mul_reg_r in H; [done|lia].
Qed.

Lemma match_cidr (ip : string) (q net : quad) (b : string) :
  quad_ok q -> quad_ok net -> normalizeIp ip = dotted q -> str_mem "/" b = false ->
  parseInt b <> Some 0 ->
  isIpMatch ip (dotted net +:+ "/" +:+ b)
  = (js_and (quad_value q) (subnet_mask (parseInt b))
     =? js_and (quad_value net) (subnet_mask (parseInt b))).
Proof.
  intros Hq Hn Hi Hb H0. unfold isIpMatch.
  change (dotted net +:+ "/" +:+ b) with (dotted net +:+ String "/" b).
  rewrite includes_slash. cbn [negb]. rewrite split_on_cons by (by apply dotted_no_slash).
  rewrite split_on_nosep by done. rewrite bool_decide_false by done.
  by rewrite Hi, !ipToNumber_dotted.
Qed.

Lemma normalize_mapped (q : quad) :
  quad_ok q -> normalizeIp ("::ffff:" +:+ dotted q) = dotted q.
Proof. done. Qed.

Lemma mask_wraps (k : Z) : 1 <= k <= 31 -> subnet_mask (Some (32 + k)) = subnet_mask (Some k).
Proof.
  intros H. assert (E : In k (map Z.of_nat (seq 1 31))).
  { apply in_map_iff. exists (Z.to_nat k). split; [lia|]. apply in_seq. lia. }
  cbn in E. repeat (destruct E as [<-|E]; [vm_compute; reflexivity|]). done.
Qed.

Lemma cidr_text (net : quad) (n : Z) (ip : string) (q : quad) :
  quad_ok q -> quad_ok net -> 1 <= n -> normalizeIp ip = dotted q ->
  isIpMatch ip (dotted net +:+ "/" +:+ z_to_string n)
  = (js_and (quad_value q) (subnet_mask (Some n))
     =? js_and (quad_value net) (subnet_mask (Some n))).
Proof.
  intros Hq Hn H1 Hi. rewrite <- (parseInt_z n) by lia. apply match_cidr; try done.
  - apply z_to_string_no; [lia|done].
  - rewrite parseInt_z by lia. intros [= ->]. lia.
Qed.

(** ** The administered list *)

(** The service's list is the database's, or the default for an empty one. *)
Definition synced (s : IpState) : Prop :=
  whitelist (service s) = if bool_decide (db_ips s = []) then [WILDCARD] else db_ips s.

Inductive admin_op : Type :=
| OpUpdate (ips : list string) | OpDelete (ips : list string) | OpAdd (ips : list string)
| OpSpecial (operation : string) | OpRefresh.

Definition admin_exec (o : admin_op) (now : Z) (s : IpState) : IpState :=
  match o with
  | OpUpdate ips => snd (handleUpdateIpWhitelist ips now s)
  | OpDelete ips => snd (handleDeleteIpWhitelist ips now s)
  | OpAdd ips => snd (handleAddIpWhitelist ips now s)
  | OpSpecial op => snd (handleSpecialIpWhitelistOperation op now s)
  | OpRefresh => reload now s
  end.

Fixpoint admin_run (ops : list (admin_op * Z)) (s : IpState) : IpState :=
  match ops with
  | [] => s
  | (o, now) :: ops' => admin_run ops' (admin_exec o now s)
  end.

Lemma reload_synced (now : Z) (s : IpState) : synced (reload now s).
Proof. done. Qed.

Lemma admin_exec_synced (o : admin_op) (now : Z) (s : IpState) :
  synced s -> synced (admin_exec o now s).
Proof.
  intros Hs. destruct o as [ips|ips|ips|op|]; cbn [admin_exec]; try apply reload_synced.
  - unfold handleDeleteIpWhitelist. case_bool; try done; apply reload_synced.
  - unfold handleAddIpWhitelist. case_bool; try done; apply reload_synced.
  - unfold handleSpecialIpWhitelistOperation. case_bool; try done; apply reload_synced.
Qed.

Lemma admin_run_synced (ops : list (admin_op * Z)) (s : IpState) :
  synced s -> synced (admin_run ops s).
Proof.
  revert s. induction ops as [|[o now] ops IH]; intros s Hs; [done|].
  by apply IH, admin_exec_synced.
Qed.

(** ** Properties *)

(** CIDR matching is what it says: for dotted IPv4 addresses, plain or
    mapped into IPv6, and a prefix length [n] from 0 to 32, an address matches
    [network/n] exactly when the two agree on their upper [n] bits; JavaScript's
    signed 32-bit shifts and masks do not disturb this. *)
Theorem cidr_match_spec (q net : quad) (n : Z) (ip : string) :
  quad_ok q -> quad_ok net -> 0 <= n <= 32 ->
  ip = dotted q \/ ip = ("::ffff:" +:+ dotted q)%string ->
  isIpMatch ip (dotted net +:+ "/" +:+ z_to_string n) = true
  <-> quad_value q / 2 ^ (32 - n) = quad_value net / 2 ^ (32 - n).
Proof.
  intros Hq Hn Hb Hip.
  assert (Hi : normalizeIp ip = dotted q)
    by (destruct Hip as [->| ->]; [by apply normalize_dotted|by apply normalize_mapped]).
  pose proof (quad_value_bound q Hq). pose proof (quad_value_bound net Hn).
  destruct (Z.eq_dec n 0) as [->|Hz0].
  - rewrite !Z.div_small by (unfold two32 in *; cbn; lia). split; [done|]. intros _.
    unfold isIpMatch.
    change (dotted net +:+ "/" +:+ z_to_string 0) with (dotted net +:+ String "/" "0").
    rewrite includes_slash. cbn [negb]. rewrite split_on_cons by (by apply dotted_no_slash). done.
  - rewrite (cidr_text net n ip q) by (done || lia). rewrite js_and_mask by (done || lia).
    apply Z.eqb_eq.
Qed.

(** A prefix length above 32 silently wraps around: for [k] from 1 to 31,
    an entry [network/(32 + k)] admits exactly the addresses of [network/k]; so
    [/33] admits half of all addresses. *)
Theorem cidr_prefix_wraps (q net : quad) (k : Z) :
  quad_ok q -> quad_ok net -> 1 <= k <= 31 ->
  isIpMatch (dotted q) (dotted net +:+ "/" +:+ z_to_string (32 + k))
  = isIpMatch (dotted q) (dotted net +:+ "/" +:+ z_to_string k).
Proof.
  intros Hq Hn Hk. rewrite (cidr_text net (32 + k) _ q), (cidr_text net k _ q)
    by (done || lia || by apply normalize_dotted). by rewrite mask_wraps.
Qed.

(** The list is enforced as administered: after any sequence of admin
    operations on a synchronised state, a client is admitted exactly when the
    stored list is empty, holds the wildcard, or has an entry matching the
    client's address; also when the cached copy has expired, and also when
    the database cannot be read then. *)
Theorem whitelist_enforced (ops : list (admin_op * Z)) (s0 : IpState) (req : ip_request)
    (later : Z) (db_works : bool) :
  synced s0 ->
  let s := admin_run ops s0 in
  fst (checkIpWhitelist req (if db_works then Some (db_ips s) else None) later (service s))
  = bool_decide (db_ips s = []) || existsb (str_eqb WILDCARD) (db_ips s)
    || existsb (isIpMatch (getClientIp req)) (db_ips s).
Proof.
  intros Hs s. pose proof (admin_run_synced ops s0 Hs) as Hw. fold s in Hw.
  unfold checkIpWhitelist, isIpAllowed, getIpWhitelist. cbn [fst].
  assert (E : whitelist (if cacheExpiry <? later - lastCacheUpdate (service s)
                         then snd (loadFromDatabase (if db_works then Some (db_ips s) else None)
                                     later (service s)) else service s)
              = if bool_decide (db_ips s = []) then [WILDCARD] else db_ips s).
  { destruct (_ <? _); [|done]. by destruct db_works. }
  rewrite E. destruct (bool_decide (db_ips s = [])); [done|]. done.
Qed.

(** The list shown to administrators is inverted: whenever an address other
    than the wildcard is stored, the wildcard is shown, as if filtering were
    off; the stored list is shown only when it holds nothing but wildcards. *)
Lemma shown_list_inverted (s : IpState) :
  handleGetIpWhitelist s = [WILDCARD]
  \/ (db_ips s <> [] /\ forall i, In i (db_ips s) -> i = WILDCARD).
Proof.
  unfold handleGetIpWhitelist. destruct (bool_decide (db_ips s = [])) eqn:E; [by left|].
  destruct (existsb _ (db_ips s)) eqn:F; [by left|]. right. to_prop. split; [done|].
  intros i Hi. destruct (str_eqb i WILDCARD) eqn:G; [by apply str_eqb_eq|].
  exfalso. apply not_true_iff_false in F. apply F. apply existsb_exists. exists i.
  by rewrite G.
Qed.

Lemma shown_but_denied :
  let s := snd (handleUpdateIpWhitelist ["10.0.0.1"%string] 5
                  {| records := []; next_id := 1; service := new_service |}) in
  handleGetIpWhitelist s = [WILDCARD]
  /\ list_allows "10.0.0.2" (whitelist (service s)) = false.
Proof. vm_compute. done. Qed.

(** ** Witnesses *)

Definition ex_quad : quad := {| qa := 192; qb := 168; qc := 1; qd := 7 |}.

Lemma ex_quad_ok : quad_ok ex_quad.
Proof. unfold quad_ok, octet. cbn. lia. Qed.

Lemma cidr_match_spec_witness : isIpMatch "::ffff:192.168.1.7" "192.168.1.7/24" = true.
Proof.
  apply (cidr_match_spec ex_quad ex_quad 24 "::ffff:192.168.1.7"); [apply ex_quad_ok|apply ex_quad_ok
    |lia|right; reflexivity|reflexivity].
Defined.

Lemma cidr_prefix_wraps_witness : isIpMatch "192.168.1.7" "192.168.1.7/33" = true.
Proof.
  transitivity (isIpMatch "192.168.1.7" "192.168.1.7/1"); [|vm_compute; reflexivity].
  apply (cidr_prefix_wraps ex_quad ex_quad 1); [apply ex_quad_ok|apply ex_quad_ok|lia].
Defined.

Lemma whitelist_enforced_witness :
  fst (checkIpWhitelist {| x_forwarded_for := None; x_real_ip := None; cf_connecting_ip := None;
                           socket_address := "10.0.0.9" |} None 99
         (service (admin_run [(OpUpdate ["10.0.0.1"%string], 5)]
            {| records := []; next_id := 1; service := new_service |}))) = false.
Proof.
  rewrite (whitelist_enforced [(OpUpdate ["10.0.0.1"%string], 5)]
    {| records := []; next_id := 1; service := new_service |} _ 99 false); reflexivity.
Defined.
