(* ===== verification/SessionStore.v ===== *)
(** * The session store

    [src/src/mcp/core/SessionStore.ts]: the tables of live sessions, their
    creation and tiered removal, and the tombstones that let a disconnected
    client take its session id up again.  The methods are asynchronous: each
    is split at its awaits into atomic steps ([..._begin], [..._finish]), the
    method itself being their composition when nothing interleaves.  Calls to
    other objects (closing a connection, closing a user's temporary servers)
    are recorded as effects in the order they are made. *)
From stdpp Require Import base gmap sets strings list fin_maps fin_sets.
From S2P Require Import Prelude.
Open Scope Z_scope.

Inductive DisconnectReason : Type :=
| CLIENT_DISCONNECT | USER_DISABLED | USER_EXPIRED | PERMISSION_REVOKED | ADMIN_REQUEST
| SESSION_TIMEOUT | SERVER_SHUTDOWN | SESSION_REMOVED.

#[export] Instance DisconnectReason_eq_dec : EqDecision DisconnectReason.
Proof. solve_decision. Defined.

Inductive AuthKind : Type := Anonymous | Authenticated.

#[export] Instance AuthKind_eq_dec : EqDecision AuthKind.
Proof. solve_decision. Defined.

(** What the store reads of a ClientSession. *)
Record ClientSession : Type := {
  sessionId : string;
  userId : string;
  token : string;
  authKind : AuthKind;
  expiresAt : option Z;
  lastActive : Z;
  lastSseDisconnectedAt : option Z;
  sseConnected : bool
}.

Record Tombstone : Type := {
  tb_userId : string;
  tb_authKind : AuthKind;
  tokenFingerprint : string;
  tb_expiresAt : Z
}.

Record Store : Type := {
  sessions : gmap string ClientSession;
  proxySessions : gset string;
  userSessions : gmap string (list string);
  eventStores : gset string;
  sessionLoggers : gset string;
  terminatedSessions : gmap string Tombstone
}.

Inductive effect : Type :=
| CleanupProxy (sid : string)
| CloseSession (sid : string) (reason : DisconnectReason)
| CleanupNotifications (sid : string)
| CleanupAllNotifications
| CloseTemporaryServers (uid : string).

Definition SESSION_INACTIVITY_TIMEOUT_MS : Z := 600000.
Definition SESSION_RECONNECT_GRACE_MS : Z := 30000.

Definition empty_store : Store :=
  {| sessions := ∅; proxySessions := ∅; userSessions := ∅; eventStores := ∅;
     sessionLoggers := ∅; terminatedSessions := ∅ |}.

Definition set_sessions (f : gmap string ClientSession -> gmap string ClientSession) (s : Store) : Store :=
  {| sessions := f (sessions s); proxySessions := proxySessions s; userSessions := userSessions s;
     eventStores := eventStores s; sessionLoggers := sessionLoggers s;
     terminatedSessions := terminatedSessions s |}.

Definition set_users (f : gmap string (list string) -> gmap string (list string)) (s : Store) : Store :=
  {| sessions := sessions s; proxySessions := proxySessions s; userSessions := f (userSessions s);
     eventStores := eventStores s; sessionLoggers := sessionLoggers s;
     terminatedSessions := terminatedSessions s |}.

Definition set_tombstones (f : gmap string Tombstone -> gmap string Tombstone) (s : Store) : Store :=
  {| sessions := sessions s; proxySessions := proxySessions s; userSessions := userSessions s;
     eventStores := eventStores s; sessionLoggers := sessionLoggers s;
     terminatedSessions := f (terminatedSessions s) |}.

(** ** Creation *)

(** Up to the first await: the check, the event store, the logger. *)
Definition create_begin (sid : string) (s : Store) : result string unit * Store :=
  match sessions s !! sid with
  | Some _ => (Throw ("Session already exists: " +:+ sid), s)
  | None =>
      (Ok tt, {| sessions := sessions s; proxySessions := proxySessions s;
                 userSessions := userSessions s; eventStores := {[ sid ]} ∪ eventStores s;
                 sessionLoggers := {[ sid ]} ∪ sessionLoggers s;
                 terminatedSessions := terminatedSessions s |})
  end.

(** [set.add(x)] on a set in insertion order. *)
Definition set_add (x : string) (l : list string) : list string :=
  if bool_decide (x ∈ l) then l else l ++ [x].

(** After the awaits: the proxy session is built and everything is stored. *)
Definition create_finish (cs : ClientSession) (s : Store) : Store :=
  {| sessions := <[sessionId cs := cs]> (sessions s);
     proxySessions := {[ sessionId cs ]} ∪ proxySessions s;
     userSessions := <[userId cs := set_add (sessionId cs)
                                      (default [] (userSessions s !! userId cs))]> (userSessions s);
     eventStores := eventStores s; sessionLoggers := sessionLoggers s;
     terminatedSessions := terminatedSessions s |}.

Definition createSession (cs : ClientSession) (s : Store) : result string ClientSession * Store :=
  match create_begin (sessionId cs) s with
  | (Throw e, s') => (Throw e, s')
  | (Ok _, s') => (Ok cs, create_finish cs s')
  end.

Section Tokens.
(** [createHash('sha256').update(token).digest('hex')] *)
Variable sha256 : string -> string.

Definition fingerprintToken (t : string) : string := sha256 t.

(** ** Tombstones *)

Definition pruneTerminatedSessions (now : Z) (s : Store) : Store :=
  set_tombstones (filter (fun kt => now < tb_expiresAt (snd kt))) s.

Definition recordTerminatedSession (cs : ClientSession) (now : Z) (s : Store) : Store :=
  set_tombstones
    (insert (sessionId cs)
       {| tb_userId := userId cs; tb_authKind := authKind cs;
          tokenFingerprint := fingerprintToken (token cs);
          tb_expiresAt := now + SESSION_RECONNECT_GRACE_MS |})
    (pruneTerminatedSessions now s).

Definition tombstone_matches (t : Tombstone) (uid : string) (kind : AuthKind) (tok : string) : bool :=
  str_eqb (tb_userId t) uid && bool_decide (tb_authKind t = kind)
  && str_eqb (tokenFingerprint t) (fingerprintToken tok).

Definition consumeTerminatedSession (sid : option string) (uid : string) (kind : AuthKind)
    (tok : string) (now : Z) (s : Store) : bool * Store :=
  match sid with
  | None => (false, s)
  | Some sid =>
      if str_eqb sid "" then (false, s)
      else
        let s := pruneTerminatedSessions now s in
        match terminatedSessions s !! sid with
        | None => (false, s)
        | Some t =>
            if tb_expiresAt t <=? now then (false, set_tombstones (delete sid) s)
            else if negb (tombstone_matches t uid kind tok) then (false, s)
            else (true, set_tombstones (delete sid) s)
        end
  end.

(** ** Removal *)

(** Before the await of the proxy session's cleanup. *)
Definition remove_single_begin (sid : string) (reason : DisconnectReason) (preserve : bool)
    (now : Z) (s : Store) : option ClientSession * list effect * Store :=
  match sessions s !! sid with
  | None => (None, [], s)
  | Some cs =>
      (Some cs,
       if bool_decide (sid ∈ proxySessions s) then [CleanupProxy sid] else [],
       if preserve && bool_decide (reason = CLIENT_DISCONNECT)
       then recordTerminatedSession cs now s else s)
  end.

Definition set_remove (x : string) (l : list string) : list string :=
  filter (fun y => y <> x) l.

(** After it: every table forgets the session; the last session of a user
    takes the user's temporary servers with it. *)
Definition remove_single_finish (cs : ClientSession) (sid : string) (reason : DisconnectReason)
    (s : Store) : list effect * Store :=
  let rest := set_remove sid <$> userSessions s !! userId cs in
  ([CleanupNotifications sid]
   ++ (if bool_decide (rest = Some []) then [CloseTemporaryServers (userId cs)] else [])
   ++ [CloseSession sid reason],
   {| sessions := delete sid (sessions s);
      proxySessions := proxySessions s ∖ {[ sid ]};
      userSessions := match rest with
                      | None => userSessions s
                      | Some [] => delete (userId cs) (userSessions s)
                      | Some l => <[userId cs := l]> (userSessions s)
                      end;
      eventStores := eventStores s ∖ {[ sid ]};
      sessionLoggers := sessionLoggers s ∖ {[ sid ]};
      terminatedSessions := terminatedSessions s |}).

Definition removeSingleSession (sid : string) (reason : DisconnectReason) (preserve : bool)
    (now : Z) (s : Store) : list effect * Store :=
  match remove_single_begin sid reason preserve now s with
  | (None, eff, s') => (eff, s')
  | (Some cs, eff, s') =>
      let '(eff', s'') := remove_single_finish cs sid reason s' in (eff ++ eff', s'')
  end.

(** One session of the parallel closing loop, run to its end. *)
Definition close_one (reason : DisconnectReason) (sid : string) (s : Store)
    : list effect * Store :=
  match sessions s !! sid with
  | None => ([], s)
  | Some _ =>
      ((if bool_decide (sid ∈ proxySessions s) then [CleanupProxy sid] else [])
       ++ [CloseSession sid reason; CleanupNotifications sid],
       {| sessions := delete sid (sessions s); proxySessions := proxySessions s ∖ {[ sid ]};
          userSessions := userSessions s; eventStores := eventStores s ∖ {[ sid ]};
          sessionLoggers := sessionLoggers s ∖ {[ sid ]};
          terminatedSessions := terminatedSessions s |})
  end.

Fixpoint close_each (reason : DisconnectReason) (sids : list string) (s : Store)
    : list effect * Store :=
  match sids with
  | [] => ([], s)
  | sid :: rest =>
      let '(e1, s1) := close_one reason sid s in
      let '(e2, s2) := close_each reason rest s1 in (e1 ++ e2, s2)
  end.

(** The snapshot the loop runs over; [None] when the user has no sessions. *)
Definition remove_all_begin (uid : string) (s : Store) : option (list string) :=
  match userSessions s !! uid with
  | None | Some [] => None
  | Some l => Some l
  end.

Definition remove_all_finish (uid : string) (s : Store) : list effect * Store :=
  ([CloseTemporaryServers uid], set_users (delete uid) s).

Definition removeAllUserSessions (uid : string) (reason : DisconnectReason) (s : Store)
    : list effect * Store :=
  match remove_all_begin uid s with
  | None => ([], s)
  | Some sids =>
      let '(e1, s1) := close_each reason sids s in
      let '(e2, s2) := remove_all_finish uid s1 in (e1 ++ e2, s2)
  end.

Definition removeSession (sid : string) (reason : DisconnectReason) (isUserDisconnect : bool)
    (now : Z) (s : Store) : list effect * Store :=
  match sessions s !! sid with
  | None => ([], s)
  | Some cs =>
      if isUserDisconnect then removeAllUserSessions (userId cs) reason s
      else removeSingleSession sid reason false now s
  end.

Definition terminateSession (sid : string) (reason : DisconnectReason) (now : Z) (s : Store)
    : list effect * Store :=
  match sessions s !! sid with
  | None => ([], s)
  | Some _ => removeSingleSession sid reason false now s
  end.

Definition removeAllSessions (s : Store) : list effect * Store :=
  (flat_map (fun kc => (if bool_decide (fst kc ∈ proxySessions s) then [CleanupProxy (fst kc)] else [])
                       ++ [CloseSession (fst kc) SERVER_SHUTDOWN]) (map_to_list (sessions s))
   ++ [CleanupAllNotifications],
   {| sessions := ∅; proxySessions := ∅; userSessions := ∅; eventStores := ∅;
      sessionLoggers := ∅; terminatedSessions := terminatedSessions s |}).

(** ** Periodic cleanup *)

(** [isExpired] of the session: its authorization has ended. *)
Definition isExpired (cs : ClientSession) (nowSeconds : Z) : bool :=
  match expiresAt cs with Some e => negb (e =? 0) && (e <? nowSeconds) | None => false end.

Definition isInactive (cs : ClientSession) (now : Z) : bool :=
  negb (sseConnected cs)
  && (SESSION_INACTIVITY_TIMEOUT_MS <? now - Z.max (lastActive cs) (default 0 (lastSseDisconnectedAt cs))).

Definition sessions_where (p : ClientSession -> bool) (s : Store) : list string :=
  map fst (filter (fun kc => p (snd kc) = true) (map_to_list (sessions s))).

Fixpoint remove_each (sids : list string) (reason : DisconnectReason) (isUserDisconnect : bool)
    (now : Z) (s : Store) : list effect * Store :=
  match sids with
  | [] => ([], s)
  | sid :: rest =>
      let '(e1, s1) := removeSession sid reason isUserDisconnect now s in
      let '(e2, s2) := remove_each rest reason isUserDisconnect now s1 in (e1 ++ e2, s2)
  end.

Definition cleanupExpiredSessions (nowSeconds now : Z) (s : Store) : list effect * Store :=
  let expired := sessions_where (fun cs => isExpired cs nowSeconds) s in
  let inactive := sessions_where (fun cs => negb (isExpired cs nowSeconds) && isInactive cs now) s in
  let '(e1, s1) := remove_each expired USER_EXPIRED true now s in
  let '(e2, s2) := remove_each inactive SESSION_TIMEOUT false now s1 in (e1 ++ e2, s2).

(** ** Queries *)

Definition getUserSessions (uid : string) (s : Store) : list ClientSession :=
  match userSessions s !! uid with
  | None => []
  | Some sids => omap (fun sid => sessions s !! sid) sids
  end.

Definition getUserFirstSession (uid : string) (s : Store) : option ClientSession :=
  match userSessions s !! uid with
  | Some (sid :: _) => sessions s !! sid
  | _ => None
  end.

Definition getActiveSessionCount (s : Store) : nat :=
  length (filter (fun kc => sseConnected (snd kc) = true) (map_to_list (sessions s))).

Definition getTotalSessionCount (s : Store) : nat := size (sessions s).

Definition getUserSessionCounts (s : Store) : gmap string nat := length <$> userSessions s.
End Tokens.

(** ** The invariant

    Every table knows the same sessions, a session is stored under its own id,
    and the index lists exactly the live sessions of each user that has any. *)
Definition store_ok (s : Store) : Prop :=
  (forall sid, (is_Some (sessions s !! sid) <-> sid ∈ proxySessions s)
            /\ (is_Some (sessions s !! sid) <-> sid ∈ eventStores s)
            /\ (is_Some (sessions s !! sid) <-> sid ∈ sessionLoggers s))
  /\ (forall sid cs, sessions s !! sid = Some cs -> sessionId cs = sid)
  /\ (forall uid sid, sid ∈ default [] (userSessions s !! uid)
                     <-> exists cs, sessions s !! sid = Some cs /\ userId cs = uid)
  /\ (forall uid, userSessions s !! uid <> Some []).

(** ** Lemmas *)

Lemma empty_store_ok : store_ok empty_store.
Proof.
  split; [|split; [|split]]; cbn.
  - intros sid. rewrite lookup_empty. split; [|split]; (split; [by intros [? ?]|set_solver]).
  - intros sid cs. by rewrite lookup_empty.
  - intros uid sid. rewrite lookup_empty. cbn. split; [by intros ?%not_elem_of_nil|].
    intros (cs & H & _). by rewrite lookup_empty in H.
  - intros uid. by rewrite lookup_empty.
Qed.

Lemma elem_of_set_add (x y : string) (l : list string) : x ∈ set_add y l <-> x = y \/ x ∈ l.
Proof.
  unfold set_add. destruct (bool_decide (y ∈ l)) eqn:E; to_prop.
  - split; [by right|]. by intros [->|].
  - rewrite elem_of_app, list_elem_of_singleton. tauto.
Qed.

Lemma elem_of_set_remove (x y : string) (l : list string) : x ∈ set_remove y l <-> x <> y /\ x ∈ l.
Proof. unfold set_remove. by rewrite list_elem_of_filter. Qed.

Lemma createSession_ok (cs : ClientSession) (s : Store) :
  store_ok s -> store_ok (snd (createSession cs s)).
Proof.
  intros Hok. unfold createSession, create_begin.
  destruct (sessions s !! sessionId cs) as [x|] eqn:E; [done|]. cbn [snd].
  destruct Hok as (H1 & H2 & H3 & H4). split; [|split; [|split]]; cbn.
  - intros sid. destruct (H1 sid) as (Ha & Hb & Hc).
    destruct (decide (sid = sessionId cs)) as [->|Hn].
    + rewrite lookup_insert_eq. repeat split; try (intros _; set_solver); intros _; by eexists.
    + rewrite lookup_insert_ne by done. set_solver.
  - intros sid x. destruct (decide (sid = sessionId cs)) as [->|Hn].
    + rewrite lookup_insert_eq. by intros [= ->].
    + rewrite lookup_insert_ne by done. apply H2.
  - intros uid sid. destruct (decide (uid = userId cs)) as [->|Hu].
    + rewrite lookup_insert_eq. cbn. rewrite elem_of_set_add, H3.
      destruct (decide (sid = sessionId cs)) as [->|Hn].
      * rewrite lookup_insert_eq. split; [by eexists|by left].
      * rewrite lookup_insert_ne by done. split; [by intros [?|?]|by right].
    + rewrite lookup_insert_ne, H3 by done.
      destruct (decide (sid = sessionId cs)) as [->|Hn].
      * rewrite lookup_insert_eq, E. split; [by intros (? & ? & _)|].
        intros (x & [= <-] & ?). done.
      * by rewrite lookup_insert_ne.
  - intros uid. destruct (decide (uid = userId cs)) as [->|Hu].
    + rewrite lookup_insert_eq. intros [= Hx].
      assert (sessionId cs ∈ @nil string) as Hin; [|by apply not_elem_of_nil in Hin].
      rewrite <- Hx. apply elem_of_set_add. by left.
    + by rewrite lookup_insert_ne.
Qed.

Section Sha.
Variable sha256 : string -> string.

Lemma tombstones_ok (f : gmap string Tombstone -> gmap string Tombstone) (s : Store) :
  store_ok s -> store_ok (set_tombstones f s).
Proof. done. Qed.

Lemma remove_single_finish_ok (sid : string) (cs : ClientSession) reason (s : Store) :
  store_ok s -> sessions s !! sid = Some cs ->
  store_ok (snd (remove_single_finish cs sid reason s)).
Proof.
  intros (H1 & H2 & H3 & H4) E. unfold remove_single_finish. cbn [snd].
  pose proof (H2 sid cs E) as Hid.
  assert (Hin : sid ∈ default [] (userSessions s !! userId cs)) by (apply H3; by exists cs).
  destruct (userSessions s !! userId cs) as [l|] eqn:U; [|by apply not_elem_of_nil in Hin].
  cbn [fmap option_fmap option_map default] in *.
  set (us := match set_remove sid l with [] => _ | _ => _ end).
  assert (Hus : forall uid, default [] (us !! uid)
                = if decide (uid = userId cs) then set_remove sid l
                  else default [] (userSessions s !! uid)).
  { intros uid. unfold us. destruct (decide (uid = userId cs)) as [->|Hu].
    - destruct (set_remove sid l); [by rewrite lookup_delete_eq|by rewrite lookup_insert_eq].
    - destruct (set_remove sid l); [by rewrite lookup_delete_ne|by rewrite lookup_insert_ne]. }
  split; [|split; [|split]]; cbn.
  - intros sid'. destruct (H1 sid') as (Ha & Hb & Hc).
    destruct (decide (sid' = sid)) as [->|Hn].
    + rewrite lookup_delete_eq. repeat split; try (by intros [? ?]); set_solver.
    + rewrite lookup_delete_ne by done. set_solver.
  - intros sid' x. rewrite lookup_delete_Some. intros [_ ?]. by apply H2.
  - intros uid sid'. fold us. rewrite Hus. destruct (decide (uid = userId cs)) as [->|Hu].
    + rewrite elem_of_set_remove. specialize (H3 (userId cs) sid'). rewrite U in H3. cbn in H3.
      rewrite H3. setoid_rewrite lookup_delete_Some. naive_solver.
    + rewrite H3. setoid_rewrite lookup_delete_Some. split.
      * intros (x & Hx & Hxu). exists x. split; [|done]. split; [|done].
        intros ->. rewrite E in Hx. by injection Hx as ->.
      * intros (x & [_ Hx] & Hxu). by exists x.
  - intros uid. fold us. unfold us. destruct (set_remove sid l) as [|y k] eqn:R.
    + intros H. apply lookup_delete_Some in H as [_ H]. by apply H4 in H.
    + intros H. apply lookup_insert_Some in H as [[_ H]|[_ H]]; [done|by apply H4 in H].
Qed.

Lemma removeSingleSession_ok sid reason preserve now (s : Store) :
  store_ok s -> store_ok (snd (removeSingleSession sha256 sid reason preserve now s)).
Proof.
  intros Hok. unfold removeSingleSession, remove_single_begin.
  destruct (sessions s !! sid) as [cs|] eqn:E; [|done].
  set (s' := if preserve && _ then _ else _).
  assert (Hs : store_ok s' /\ sessions s' = sessions s) by (unfold s'; by destruct (preserve && _)).
  destruct Hs as [Hs Hse].
  pose proof (remove_single_finish_ok sid cs reason s' Hs) as H. rewrite Hse in H. specialize (H E).
  by destruct (remove_single_finish cs sid reason s').
Qed.

(** What the closing loop leaves. *)
Lemma close_each_spec reason (sids : list string) (s : Store) :
  store_ok s ->
  let s' := snd (close_each reason sids s) in
  (forall sid, sessions s' !! sid = if decide (sid ∈ sids) then None else sessions s !! sid)
  /\ (forall sid, (is_Some (sessions s' !! sid) <-> sid ∈ proxySessions s')
              /\ (is_Some (sessions s' !! sid) <-> sid ∈ eventStores s')
              /\ (is_Some (sessions s' !! sid) <-> sid ∈ sessionLoggers s'))
  /\ userSessions s' = userSessions s /\ terminatedSessions s' = terminatedSessions s.
Proof.
  intros (H1 & _). cbn zeta. revert s H1. induction sids as [|sid rest IH]; intros s H1.
  - cbn. split; [|done]. intros sid. by rewrite decide_False by apply not_elem_of_nil.
  - cbn [close_each]. destruct (close_one reason sid s) as [e1 s1] eqn:C.
    assert (Hs1 : (forall x, sessions s1 !! x = if decide (x = sid) then None else sessions s !! x)
      /\ (forall x, (is_Some (sessions s1 !! x) <-> x ∈ proxySessions s1)
              /\ (is_Some (sessions s1 !! x) <-> x ∈ eventStores s1)
              /\ (is_Some (sessions s1 !! x) <-> x ∈ sessionLoggers s1))
      /\ userSessions s1 = userSessions s /\ terminatedSessions s1 = terminatedSessions s).
    { unfold close_one in C. destruct (sessions s !! sid) as [cs|] eqn:E; injection C as _ <-; cbn.
      - split; [|split; [|done]].
        + intros x. destruct (decide (x = sid)) as [->|]; [apply lookup_delete_eq|by apply lookup_delete_ne].
        + intros x. destruct (H1 x) as (Ha & Hb & Hc). destruct (decide (x = sid)) as [->|Hn].
          * rewrite lookup_delete_eq. repeat split; try (by intros [? ?]); set_solver.
          * rewrite lookup_delete_ne by done. set_solver.
      - split; [|done]. intros x. by destruct (decide (x = sid)) as [->|]. }
    destruct Hs1 as (Ha & Hb & Hc & Hd). specialize (IH s1 Hb).
    destruct (close_each reason rest s1) as [e2 s2]. cbn [snd] in *.
    destruct IH as (I1 & I2 & I3 & I4). split; [|split; [done|split; congruence]].
    intros x. rewrite I1, Ha. destruct (decide (x ∈ rest)) as [Hin|Hin].
    + by rewrite decide_True by (apply elem_of_cons; by right).
    + destruct (decide (x = sid)) as [->|Hn].
      * by rewrite decide_True by (apply elem_of_cons; by left).
      * rewrite decide_False; [done|]. rewrite elem_of_cons. tauto.
Qed.

(** Removing all sessions of a user removes exactly those. *)
Lemma removeAllUserSessions_spec (uid : string) reason (s : Store) :
  store_ok s ->
  let s' := snd (removeAllUserSessions uid reason s) in
  store_ok s' /\ userSessions s' !! uid = None
  /\ (forall sid, sessions s' !! sid
       = match sessions s !! sid with
         | Some cs => if decide (userId cs = uid) then None else Some cs
         | None => None
         end).
Proof.
  intros Hok. pose proof Hok as (H1 & H2 & H3 & H4). unfold removeAllUserSessions, remove_all_begin.
  destruct (userSessions s !! uid) as [l|] eqn:U.
  - destruct l as [|a l]; [by apply H4 in U|]. set (sids := a :: l) in *.
    pose proof (close_each_spec reason sids s Hok) as Hc.
    destruct (close_each reason sids s) as [e1 s1]. cbn [snd remove_all_finish] in *.
    destruct Hc as (Ha & Hb & Hu & _).
    assert (Hs : forall sid, sessions s1 !! sid = match sessions s !! sid with
         | Some cs => if decide (userId cs = uid) then None else Some cs | None => None end).
    { intros sid. rewrite Ha. specialize (H3 uid sid). rewrite U in H3. cbn [default] in H3.
      destruct (sessions s !! sid) as [cs|] eqn:E; [|by destruct (decide _)].
      destruct (decide (userId cs = uid)) as [He|He].
      - rewrite decide_True; [done|]. apply H3. by exists cs.
      - rewrite decide_False; [done|]. intros Hin. apply H3 in Hin as (x & Hx & ?).
        injection Hx as <-. done. }
    split; [split; [|split; [|split]]|split]; cbn; try done.
    + intros sid cs Hx. rewrite Hs in Hx. destruct (sessions s !! sid) as [x|] eqn:E; [|done].
      destruct (decide _); [done|]. injection Hx as <-. by apply H2.
    + intros u sid. rewrite Hu, Hs. destruct (decide (u = uid)) as [->|Hn].
      * rewrite lookup_delete_eq. cbn. split; [by intros ?%not_elem_of_nil|].
        intros (x & Hx & Hxu). destruct (sessions s !! sid) as [y|]; [|done].
        destruct (decide (userId y = uid)); [done|]. injection Hx as ->. done.
      * rewrite lookup_delete_ne, H3 by done. split.
        -- intros (x & Hx & Hxu). rewrite Hx, decide_False by congruence. by exists x.
        -- intros (x & Hx & Hxu). destruct (sessions s !! sid) as [y|]; [|done].
           destruct (decide _); [done|]. injection Hx as ->. by exists x.
    + intros u. rewrite Hu. rewrite lookup_delete_Some. intros [_ H]. by apply H4 in H.
    + apply lookup_delete_eq.
  - split; [done|]. split; [done|]. intros sid. specialize (H3 uid sid). rewrite U in H3. cbn in H3.
    destruct (sessions s !! sid) as [cs|] eqn:E; [|done]. rewrite decide_False; [done|].
    intros He. assert (Hin : sid ∈ @nil string) by (apply H3; by exists cs).
    by apply not_elem_of_nil in Hin.
Qed.

Lemma removeSession_ok sid reason b now (s : Store) :
  store_ok s -> store_ok (snd (removeSession sha256 sid reason b now s)).
Proof.
  intros Hok. unfold removeSession. destruct (sessions s !! sid) as [cs|]; [|done].
  destruct b; [|by apply removeSingleSession_ok]. by apply removeAllUserSessions_spec.
Qed.

Lemma remove_each_ok sids reason b now (s : Store) :
  store_ok s -> store_ok (snd (remove_each sha256 sids reason b now s)).
Proof.
  revert s. induction sids as [|sid rest IH]; intros s Hok; [done|]. cbn [remove_each].
  pose proof (removeSession_ok sid reason b now s Hok) as H1.
  destruct (removeSession _ _ _ _ _ _) as [e1 s1]. specialize (IH s1 H1).
  by destruct (remove_each _ _ _ _ _ _).
Qed.
End Sha.

(** The store's public operations, run one at a time. *)
Inductive store_op : Type :=
| OpCreate (cs : ClientSession)
| OpRemoveSingle (sid : string) (reason : DisconnectReason) (preserve : bool)
| OpRemove (sid : string) (reason : DisconnectReason) (isUserDisconnect : bool)
| OpTerminate (sid : string) (reason : DisconnectReason)
| OpRemoveUser (uid : string) (reason : DisconnectReason)
| OpRemoveAll
| OpConsume (sid : option string) (uid : string) (kind : AuthKind) (tok : string)
| OpCleanup.

Definition store_exec (sha256 : string -> string) (o : store_op) (now : Z) (s : Store) : Store :=
  match o with
  | OpCreate cs => snd (createSession cs s)
  | OpRemoveSingle sid reason preserve => snd (removeSingleSession sha256 sid reason preserve now s)
  | OpRemove sid reason b => snd (removeSession sha256 sid reason b now s)
  | OpTerminate sid reason => snd (terminateSession sha256 sid reason now s)
  | OpRemoveUser uid reason => snd (removeAllUserSessions uid reason s)
  | OpRemoveAll => snd (removeAllSessions s)
  | OpConsume sid uid kind tok => snd (consumeTerminatedSession sha256 sid uid kind tok now s)
  | OpCleanup => snd (cleanupExpiredSessions sha256 (now / 1000) now s)
  end.

Fixpoint store_run (sha256 : string -> string) (ops : list (store_op * Z)) (s : Store) : Store :=
  match ops with
  | [] => s
  | (o, now) :: ops' => store_run sha256 ops' (store_exec sha256 o now s)
  end.

Lemma store_exec_ok (sha256 : string -> string) (o : store_op) (now : Z) (s : Store) :
  store_ok s -> store_ok (store_exec sha256 o now s).
Proof.
  intros Hok. destruct o as [cs|sid r p|sid r b|sid r|uid r| |sid uid kind tok|]; cbn [store_exec].
  - by apply createSession_ok.
  - by apply removeSingleSession_ok.
  - by apply removeSession_ok.
  - unfold terminateSession. destruct (sessions s !! sid); [|done]. by apply removeSingleSession_ok.
  - by apply removeAllUserSessions_spec.
  - unfold removeAllSessions. cbn [snd]. destruct empty_store_ok as (H1 & H2 & H3 & H4). done.
  - unfold consumeTerminatedSession. destruct sid as [sid|]; [|done].
    destruct (str_eqb sid ""); [done|]. destruct (terminatedSessions _ !! sid) as [t|]; [|done].
    destruct (tb_expiresAt t <=? now); [done|]. by destruct (negb _).
  - unfold cleanupExpiredSessions.
    pose proof (remove_each_ok sha256
      (sessions_where (fun cs => isExpired cs (now / 1000)) s) USER_EXPIRED true now s Hok) as H1.
    destruct (remove_each _ _ USER_EXPIRED _ _ _) as [e1 s1].
    pose proof (remove_each_ok sha256
      (sessions_where (fun cs => negb (isExpired cs (now / 1000)) && isInactive cs now) s)
      SESSION_TIMEOUT false now s1 H1) as H2.
    by destruct (remove_each _ _ SESSION_TIMEOUT _ _ _) as [e2 s2].
Qed.

(** The tombstone of a session closed for reconnection. *)
Lemma consume_success (sha256 : string -> string) sid uid kind tok now (s : Store) :
  consumeTerminatedSession sha256 (Some sid) uid kind tok now s
  = if str_eqb sid "" then (false, s)
    else match terminatedSessions s !! sid with
         | Some t => if (now <? tb_expiresAt t) && tombstone_matches sha256 t uid kind tok
                     then (true, set_tombstones (delete sid) (pruneTerminatedSessions now s))
                     else (false, pruneTerminatedSessions now s)
         | None => (false, pruneTerminatedSessions now s)
         end.
Proof.
  unfold consumeTerminatedSession. destruct (str_eqb sid ""); [done|].
  assert (E : terminatedSessions (pruneTerminatedSessions now s) !! sid
    = match terminatedSessions s !! sid with
      | Some t => if now <? tb_expiresAt t then Some t else None
      | None => None
      end).
  { unfold pruneTerminatedSessions, set_tombstones. cbn. rewrite map_lookup_filter.
    destruct (terminatedSessions s !! sid) as [t|]; [|done]. cbn.
    destruct (Z.ltb_spec now (tb_expiresAt t));
      [by rewrite option_guard_True|by rewrite option_guard_False by lia]. }
  rewrite E. destruct (terminatedSessions s !! sid) as [t|]; [|done].
  destruct (Z.ltb_spec now (tb_expiresAt t)); [|done].
  destruct (Z.leb_spec (tb_expiresAt t) now); [lia|]. cbn.
  by destruct (tombstone_matches sha256 t uid kind tok).
Qed.

Lemma preserve_tombstone (sha256 : string -> string) sid now (s : Store) (cs : ClientSession) :
  store_ok s -> sessions s !! sid = Some cs ->
  terminatedSessions (snd (removeSingleSession sha256 sid CLIENT_DISCONNECT true now s)) !! sid
  = Some {| tb_userId := userId cs; tb_authKind := authKind cs;
            tokenFingerprint := sha256 (token cs);
            tb_expiresAt := now + SESSION_RECONNECT_GRACE_MS |}.
Proof.
  intros Hok E. unfold removeSingleSession, remove_single_begin. rewrite E. cbn.
  destruct Hok as (_ & H2 & _). rewrite bool_decide_true by done. cbn. rewrite (H2 sid cs E). apply lookup_insert_eq.
Qed.

(** ** Properties *)

(** The session tables stay consistent: after any sequence of the store's
    operations the client sessions, proxy sessions, event stores and loggers
    are tables of the same session ids, every session is stored under its own
    id, and the user index lists exactly the live sessions of each user and no
    user without one. *)
Theorem session_tables_consistent (sha256 : string -> string) (ops : list (store_op * Z)) :
  store_ok (store_run sha256 ops empty_store).
Proof.
  pose proof empty_store_ok as H. revert H. generalize empty_store.
  induction ops as [|[o now] ops IH]; intros s Hs; [done|]. cbn. by apply IH, store_exec_ok.
Qed.

(** Disconnecting a user is complete and precise: in a consistent store,
    removing a user's sessions leaves no session and no index entry of that
    user, and leaves every session of every other user as it was. *)
Theorem user_removal_exact (uid : string) (reason : DisconnectReason) (s : Store) :
  store_ok s ->
  let s' := snd (removeAllUserSessions uid reason s) in
  store_ok s' /\ getUserSessions uid s' = []
  /\ (forall sid cs, sessions s' !! sid = Some cs
        <-> sessions s !! sid = Some cs /\ userId cs <> uid).
Proof.
  intros Hok. cbn zeta. destruct (removeAllUserSessions_spec (fun x => x) uid reason s Hok) as (H1 & H2 & H3).
  split; [done|]. split; [unfold getUserSessions; by rewrite H2|]. intros sid cs. rewrite H3.
  destruct (sessions s !! sid) as [x|]; [|naive_solver].
  destruct (decide (userId x = uid)); naive_solver.
Qed.

(** A session id is taken up again only by its owner, in time, and once:
    after a client's disconnection that is preserved for reconnection, a claim
    of the id succeeds exactly when it comes within 30 seconds and carries the
    user, the kind of authentication and the token of the closed session
    (provided token digests do not collide), and after a successful claim no
    further claim succeeds. *)
Theorem reconnect_bound_and_once (sha256 : string -> string) (sid : string) (cs : ClientSession)
    (s : Store) (t0 t1 t2 : Z) (uid uid2 : string) (kind kind2 : AuthKind) (tok tok2 : string) :
  (forall x y, sha256 x = sha256 y -> x = y) ->
  store_ok s -> sessions s !! sid = Some cs -> sid <> ""%string ->
  let closed := snd (removeSingleSession sha256 sid CLIENT_DISCONNECT true t0 s) in
  let '(first, s1) := consumeTerminatedSession sha256 (Some sid) uid kind tok t1 closed in
  (first = true <-> t1 < t0 + SESSION_RECONNECT_GRACE_MS /\ uid = userId cs
                    /\ kind = authKind cs /\ tok = token cs)
  /\ (first = true -> fst (consumeTerminatedSession sha256 (Some sid) uid2 kind2 tok2 t2 s1) = false).
Proof.
  intros Hsha Hok E Hne. cbn zeta. rewrite consume_success, (preserve_tombstone _ _ _ _ cs) by done.
  apply str_eqb_neq in Hne. rewrite Hne. cbn [tb_expiresAt].
  set (closed := snd (removeSingleSession _ _ _ _ _ _)).
  destruct ((t1 <? _) && _) eqn:M.
  - apply andb_true_iff in M as [Ht M]. unfold tombstone_matches in M. cbn in M.
    apply andb_true_iff in M as [M Hf]. apply andb_true_iff in M as [Hu Hk].
    apply Z.ltb_lt in Ht. apply str_eqb_eq in Hu, Hf. apply bool_decide_eq_true in Hk.
    apply Hsha in Hf. split; [by split|]. intros _. rewrite consume_success, Hne. cbn.
    by rewrite lookup_delete_eq.
  - split; [|done]. split; [done|]. intros (Ht & -> & -> & ->). exfalso.
    apply Z.ltb_lt in Ht. rewrite Ht in M. unfold tombstone_matches, fingerprintToken in M. cbn in M.
    rewrite !str_eqb_refl, bool_decide_true in M; done.
Qed.

(** A session finished between the snapshot and the end of a user's removal is
    orphaned: it stays live, but the index forgets it, and no later removal of
    the user reaches it. *)
Lemma removal_orphans_concurrent_session (uid : string) (reason : DisconnectReason)
    (a b : ClientSession) :
  userId a = uid -> userId b = uid -> sessionId a <> sessionId b ->
  let s0 := snd (createSession a empty_store) in
  let sids := default [] (remove_all_begin uid s0) in
  let s1 := create_finish b (snd (create_begin (sessionId b) s0)) in
  let s2 := snd (remove_all_finish uid (snd (close_each reason sids s1))) in
  sessions s2 !! sessionId b = Some b
  /\ snd (removeAllUserSessions uid reason s2) = s2.
Proof.
  intros Ha Hb Hne. subst uid. cbn zeta.
  assert (E0 : snd (createSession a empty_store)
    = {| sessions := {[ sessionId a := a ]}; proxySessions := {[ sessionId a ]} ∪ ∅;
         userSessions := {[ userId a := [sessionId a] ]}; eventStores := {[ sessionId a ]} ∪ ∅;
         sessionLoggers := {[ sessionId a ]} ∪ ∅; terminatedSessions := ∅ |}).
  { unfold createSession, create_begin, create_finish. cbn [sessions empty_store].
    by rewrite lookup_empty. }
  rewrite E0. unfold remove_all_begin, create_begin. cbn [userSessions sessions].
  rewrite lookup_singleton_eq, lookup_singleton_ne by done. cbn [default snd].
  unfold create_finish. cbn [userSessions sessions close_each].
  unfold id at 1 2. cbn. unfold close_one. cbn [sessions].
  rewrite lookup_insert_ne, lookup_singleton_eq by done. cbn. split.
  - by rewrite lookup_delete_ne, lookup_insert_eq by done.
  - unfold removeAllUserSessions, remove_all_begin. cbn. by rewrite lookup_delete_eq.
Qed.

(** ** Witnesses *)

Definition ex_session : ClientSession :=
  {| sessionId := "s1"; userId := "u1"; token := "t"; authKind := Authenticated;
     expiresAt := None; lastActive := 0; lastSseDisconnectedAt := None; sseConnected := false |}.

Lemma ex_store_ok : store_ok (snd (createSession ex_session empty_store)).
Proof. apply createSession_ok, empty_store_ok. Qed.

Lemma user_removal_exact_witness :
  getUserSessions "u1" (snd (removeAllUserSessions "u1" USER_DISABLED
                               (snd (createSession ex_session empty_store)))) = [].
Proof. apply (user_removal_exact "u1" USER_DISABLED _ ex_store_ok). Defined.

Lemma reconnect_bound_and_once_witness :
  let '(first, _) := consumeTerminatedSession (fun x => x) (Some "s1"%string) "u1" Authenticated "t" 29999
    (snd (removeSingleSession (fun x => x) "s1" CLIENT_DISCONNECT true 0
            (snd (createSession ex_session empty_store)))) in first = true.
Proof.
  pose proof (reconnect_bound_and_once (fun x => x) "s1" ex_session
    (snd (createSession ex_session empty_store)) 0 29999 29999 "u1" "u1" Authenticated Authenticated
    "t" "t" (fun x y H => H) ex_store_ok eq_refl) as H.
  cbn zeta in H. destruct (consumeTerminatedSession _ _ _ _ _ _ _) as [first s1].
  apply H; [discriminate|]. repeat split; unfold SESSION_RECONNECT_GRACE_MS; lia.
Defined.
