(* ===== verification/Access.v ===== *)
(** * What a session may see and call

    The access checks, listings and name resolution of
    [src/src/mcp/core/ClientSession.ts], with the lookups of
    [src/src/mcp/core/ServerManager.ts] they use.  Maps keyed by strings are
    association lists in insertion order; optional booleans are those the code
    reads with [?? true] or another default. *)
From Stdlib Require Import Ascii ZArith Lia.
From stdpp Require Import base strings list.
From S2P Require Import Prelude Json.
Open Scope Z_scope.

(** ** Data *)

(** [ToolCapabilityConfig] and its siblings. *)
Record CapabilityConfig : Type := { cap_enabled : option bool; cap_dangerLevel : option Z }.

(** [ServerConfigWithEnabled]: what a user's permissions or preferences hold
    for a server; also a server's own configuration ([enabled] unused). *)
Record ServerConfig : Type := {
  sc_enabled : option bool;
  sc_tools : list (string * CapabilityConfig);
  sc_resources : list (string * CapabilityConfig);
  sc_prompts : list (string * CapabilityConfig)
}.

Definition Permissions : Type := list (string * ServerConfig).

Inductive ServerStatus : Type := Online | Offline | Connecting | Error | Sleeping.

#[export] Instance ServerStatus_eq_dec : EqDecision ServerStatus.
Proof. solve_decision. Defined.

Record Tool : Type := {
  tool_name : string;
  readOnlyHint : bool;
  destructiveHint : bool;
  tool_meta : option (list (string * json))
}.

Record Resource : Type := { resource_uri : string; resource_name : string }.
Record ResourceTemplate : Type := { uriTemplate : string; template_name : string }.

(** A prompt is its name. *)
Definition Prompt : Type := string.

Record ServerContext : Type := {
  ctx_id : string;
  serverID : string;
  ctx_enabled : bool;
  status : ServerStatus;
  allowUserInput : bool;
  anonymousAccess : bool;
  publicAccess : bool;
  ctx_userId : option string;
  capabilitiesConfig : option ServerConfig;
  ctx_tools : option (list Tool);
  cachedTools : option (list Tool);
  ctx_resources : option (list Resource);
  cachedResources : option (list Resource);
  ctx_templates : option (list ResourceTemplate);
  cachedTemplates : option (list ResourceTemplate);
  ctx_prompts : option (list Prompt);
  cachedPrompts : option (list Prompt)
}.

(** The two maps of the server manager. *)
Record ServerManager : Type := {
  serverContexts : list (string * ServerContext);
  temporaryServers : list (string * ServerContext)
}.

(** What the checks read of a session. *)
Record Session : Type := {
  session_userId : string;
  isAnonymous : bool;
  permissions : Permissions;
  userPreferences : Permissions
}.

Inductive CapabilityType : Type := CapTool | CapResource | CapPrompt.

(** A tool as it is listed to the client. *)
Record ListedTool : Type := {
  listed_name : string;
  listed_readonly : bool;
  listed_destructive : bool;
  listed_meta : option (list (string * json))
}.

Definition DangerLevel_Silent : Z := 0.
Definition DangerLevel_Notification : Z := 1.

Section Access.
Variable mgr : ServerManager.
Variable session : Session.

(** ** Lookups of the server manager *)

Definition is_available (ctx : ServerContext) : bool :=
  bool_decide (status ctx = Online) || bool_decide (status ctx = Sleeping).

Definition getTemporaryServer (serverId user : string) : option ServerContext :=
  assoc (serverId +:+ ":" +:+ user) (temporaryServers mgr).

Definition getServerContext (sid : string) (user : string) : option ServerContext :=
  match assoc sid (serverContexts mgr) with
  | Some ctx => Some ctx
  | None => if truthy_str user then getTemporaryServer sid user else None
  end.

Definition getServerContextByID (id : string) : option ServerContext :=
  List.find (fun ctx => str_eqb (ctx_id ctx) id) (map snd (serverContexts mgr)).

Definition getTemporaryServerContextByID (id user : string) : option ServerContext :=
  List.find (fun ctx => str_eqb (ctx_id ctx) id && bool_decide (ctx_userId ctx = Some user))
    (map snd (temporaryServers mgr)).

Definition manager_getAvailableServers : list ServerContext :=
  List.filter is_available (map snd (serverContexts mgr))
  ++ List.filter is_available (map snd (temporaryServers mgr)).

(** ** Access checks of the session *)

Definition me : string := session_userId session.

(** [config[serverID]?.enabled] *)
Definition server_enabled (p : Permissions) (sid : string) : option bool :=
  assoc sid p ≫= sc_enabled.

(** The part of a configuration a capability is looked up in. *)
Definition capability_table (type : CapabilityType) (c : ServerConfig) : list (string * CapabilityConfig) :=
  match type with CapTool => sc_tools c | CapResource => sc_resources c | CapPrompt => sc_prompts c end.

(** [config[serverID]?.tools[name]?.enabled ?? true] *)
Definition capability_enabled (type : CapabilityType) (c : option ServerConfig) (name : string) : bool :=
  default true (c ≫= fun c => assoc name (capability_table type c) ≫= cap_enabled).

Definition canAccessServer (sid : string) : bool :=
  match getServerContext sid me with
  | None => false
  | Some ctx =>
      if negb (ctx_enabled ctx) then false
      else if negb (is_available ctx) then false
      else if isAnonymous session && negb (anonymousAccess ctx) then false
      else
        let serverPermsEnabled :=
          default (if isAnonymous session then anonymousAccess ctx else publicAccess ctx)
            (server_enabled (permissions session) sid) in
        let userPreferencesEnabled := default true (server_enabled (userPreferences session) sid) in
        if allowUserInput ctx then
          if isAnonymous session then false
          else if negb (bool_decide (ctx_userId ctx = Some me)) then false
          else serverPermsEnabled && userPreferencesEnabled
        else serverPermsEnabled && userPreferencesEnabled
  end.

Definition canAccessServerCapabilities (sid : string) (type : CapabilityType) (name : string)
    : option ServerContext :=
  if negb (canAccessServer sid) then None
  else match getServerContext sid me with
       | None => None
       | Some ctx =>
           if negb (ctx_enabled ctx) then None
           else if negb (is_available ctx) then None
           else if capability_enabled type (capabilitiesConfig ctx) name then Some ctx
           else None
       end.

(** [canUseToolByServerContext] and its two siblings. *)
Definition can_use_by_context (type : CapabilityType) (ctx : ServerContext) (name : string) : bool :=
  (if allowUserInput ctx then bool_decide (ctx_userId ctx = Some me)
   else capability_enabled type (assoc (serverID ctx) (permissions session)) name)
  && capability_enabled type (assoc (serverID ctx) (userPreferences session)) name.

Definition can_use (type : CapabilityType) (sid name : string) : bool :=
  match canAccessServerCapabilities sid type name with
  | None => false
  | Some ctx => can_use_by_context type ctx name
  end.

Definition canUseTool (sid toolName : string) : bool := can_use CapTool sid toolName.
Definition canAccessResource (sid resourceName : string) : bool := can_use CapResource sid resourceName.
Definition canUsePrompt (sid promptName : string) : bool := can_use CapPrompt sid promptName.

Definition getAvailableServers : list ServerContext :=
  List.filter (fun ctx => canAccessServer (serverID ctx)) manager_getAvailableServers.

Definition getDangerLevel (sid toolName : string) : option Z :=
  assoc sid (userPreferences session) ≫= fun c => assoc toolName (sc_tools c) ≫= cap_dangerLevel.

(** [serverContext.getDangerLevel] *)
Definition context_getDangerLevel (ctx : ServerContext) (toolName : string) : option Z :=
  capabilitiesConfig ctx ≫= fun c => assoc toolName (sc_tools c) ≫= cap_dangerLevel.

(** ** Names *)

Definition generateNewName (id name : string) : string := name +:+ "_-_" +:+ id.

Definition parseName (name : string) : option (string * string) :=
  match last_index_of "_-_" name with
  | None => None
  | Some index =>
      let id := str_drop (index + 3) name in
      match (match getServerContextByID id with
             | Some ctx => Some ctx
             | None => getTemporaryServerContextByID id me
             end) with
      | Some ctx => Some (serverID ctx, str_take index name)
      | None => None
      end
  end.

(** Real-time data first, else the cached. *)
Definition tools_data (ctx : ServerContext) : list Tool :=
  match ctx_tools ctx with Some l => l | None => default [] (cachedTools ctx) end.
Definition resources_data (ctx : ServerContext) : list Resource :=
  match ctx_resources ctx with Some l => l | None => default [] (cachedResources ctx) end.
Definition templates_data (ctx : ServerContext) : list ResourceTemplate :=
  match ctx_templates ctx with Some l => l | None => default [] (cachedTemplates ctx) end.
Definition prompts_data (ctx : ServerContext) : list Prompt :=
  match ctx_prompts ctx with Some l => l | None => default [] (cachedPrompts ctx) end.

(** The loop both resolvers share: the only server offering [name]; more than
    one is ambiguous. *)
Fixpoint only_match (find : ServerContext -> option string) (l : list ServerContext)
    (found : option (string * string)) : option (string * string) :=
  match l with
  | [] => found
  | ctx :: l' =>
      match find ctx with
      | None => only_match find l' found
      | Some original =>
          match found with
          | Some _ => None
          | None => only_match find l' (Some (serverID ctx, original))
          end
      end
  end.

Definition resolveToolName (name : string) : option (string * string) :=
  match parseName name with
  | Some parsed => Some parsed
  | None =>
      only_match (fun ctx =>
        match List.find (fun t => str_eqb (tool_name t) name) (tools_data ctx) with
        | Some tool => if can_use_by_context CapTool ctx (tool_name tool) then Some (tool_name tool) else None
        | None => None
        end) getAvailableServers None
  end.

Definition resolveResourceUri (uri : string) : option (string * string) :=
  match parseName uri with
  | Some parsed => Some parsed
  | None =>
      only_match (fun ctx =>
        match List.find (fun r => str_eqb (resource_uri r) uri) (resources_data ctx) with
        | Some r => if can_use_by_context CapResource ctx (resource_name r) then Some (resource_uri r) else None
        | None => None
        end) getAvailableServers None
  end.

(** ** Listings *)

(** [{...base, key: value}] *)
Definition with_property (key : string) (value : json) (base : list (string * json)) :=
  obj_put key value base.

Definition getToolUiResourceUri (tool : Tool) : option string :=
  match tool_meta tool with
  | None => None
  | Some meta =>
      match assoc "ui" meta with
      | Some (JObj ui) => match assoc "resourceUri" ui with
                          | Some (JStr u) => Some u
                          | _ => match assoc "ui/resourceUri" meta with Some (JStr u) => Some u | _ => None end
                          end
      | _ => match assoc "ui/resourceUri" meta with Some (JStr u) => Some u | _ => None end
      end
  end.

Definition buildToolMetaWithProxiedResourceUri (tool : Tool) (proxiedResourceUri : option string)
    : option (list (string * json)) :=
  if negb (truthy_ostr proxiedResourceUri) then tool_meta tool
  else
    let uri := JStr (default ""%string proxiedResourceUri) in
    let meta := default [] (tool_meta tool) in
    let nextMeta := with_property "ui/resourceUri" uri meta in
    Some (with_property "ui"
            (JObj (with_property "resourceUri" uri
                     (match assoc "ui" meta with
                      | Some (JObj ui) => ui
                      | Some (JArr l) => imap (fun i x => (z_to_string (Z.of_nat i), x)) l
                      | _ => []
                      end))) nextMeta).

Definition list_tool (ctx : ServerContext) (tool : Tool) : ListedTool :=
  let dangerLevel :=
    match getDangerLevel (serverID ctx) (tool_name tool) with
    | Some d => Some d
    | None => context_getDangerLevel ctx (tool_name tool)
    end in
  let '(readonly, destructive) :=
    if negb (destructiveHint tool) && bool_decide (dangerLevel = Some DangerLevel_Notification)
    then (false, true)
    else if bool_decide (dangerLevel = Some DangerLevel_Silent) then (true, false)
    else (readOnlyHint tool, destructiveHint tool) in
  let original := getToolUiResourceUri tool in
  {| listed_name := generateNewName (ctx_id ctx) (tool_name tool);
     listed_readonly := readonly;
     listed_destructive := destructive;
     listed_meta := buildToolMetaWithProxiedResourceUri tool
                      (if truthy_ostr original
                       then Some (generateNewName (ctx_id ctx) (default ""%string original)) else None) |}.

Definition listTools : list ListedTool :=
  flat_map (fun ctx =>
    map (list_tool ctx)
      (List.filter (fun t => can_use_by_context CapTool ctx (tool_name t)) (tools_data ctx)))
    getAvailableServers.

Definition listResources : list Resource :=
  flat_map (fun ctx =>
    map (fun r => {| resource_uri := generateNewName (ctx_id ctx) (resource_uri r);
                     resource_name := resource_name r |})
      (List.filter (fun r => can_use_by_context CapResource ctx (resource_name r)) (resources_data ctx)))
    getAvailableServers.

Definition listResourceTemplates : list ResourceTemplate :=
  flat_map (fun ctx =>
    map (fun r => {| uriTemplate := generateNewName (ctx_id ctx) (uriTemplate r);
                     template_name := template_name r |})
      (List.filter (fun r => can_use_by_context CapResource ctx (template_name r)) (templates_data ctx)))
    getAvailableServers.

Definition listPrompts : list Prompt :=
  flat_map (fun ctx =>
    map (generateNewName (ctx_id ctx))
      (List.filter (can_use_by_context CapPrompt ctx) (prompts_data ctx)))
    getAvailableServers.

(** The routing and permission check [handleResourceRead] and [handleToolCall]
    make before anything else (file [ProxySession.ts]). *)
Definition route_tool_call (name : string) : result string (string * string) :=
  match resolveToolName name with
  | None => Throw ("Tool " +:+ name +:+ " not found")
  | Some (sid, original) =>
      if canUseTool sid original then Ok (sid, original)
      else Throw ("Permission denied for tool: " +:+ name)
  end.

Definition route_resource_read (uri : string) : result string (string * string) :=
  match resolveResourceUri uri with
  | None => Throw ("Invalid resource URI: " +:+ uri)
  | Some (sid, original) =>
      if canAccessResource sid original then Ok (sid, original)
      else Throw ("Permission denied for resource: " +:+ uri)
  end.
End Access.

(** ** The modern transport's checks

    [src/src/mcp/modern/ModernMcpController.ts] repeats the checks for its
    stateless requests; it never serves temporary servers. *)
Section Modern.
Variable mgr : ServerManager.
Variable session : Session.

Definition modern_canAccessServer (ctx : ServerContext) : bool :=
  if negb (ctx_enabled ctx) then false
  else if negb (is_available ctx) then false
  else if allowUserInput ctx then false
  else if isAnonymous session && negb (anonymousAccess ctx) then false
  else
    default (if isAnonymous session then anonymousAccess ctx else publicAccess ctx)
      (server_enabled (permissions session) (serverID ctx))
    && default true (server_enabled (userPreferences session) (serverID ctx)).

Definition modern_canAccessCapability (ctx : ServerContext) (type : CapabilityType) (name : string) : bool :=
  if negb (modern_canAccessServer ctx) then false
  else if allowUserInput ctx && negb (bool_decide (ctx_userId ctx = Some (session_userId session))) then false
  else capability_enabled type (capabilitiesConfig ctx) name.

(** [canUseTool] and its two siblings. *)
Definition modern_can_use (ctx : ServerContext) (type : CapabilityType) (name : string) : bool :=
  if negb (modern_canAccessCapability ctx type name) then false
  else if negb (allowUserInput ctx)
          && negb (capability_enabled type (assoc (serverID ctx) (permissions session)) name) then false
  else capability_enabled type (assoc (serverID ctx) (userPreferences session)) name.

Definition modern_can_use_by_id (type : CapabilityType) (sid name : string) : bool :=
  match getServerContext mgr sid (session_userId session) with
  | Some ctx => modern_can_use ctx type name
  | None => false
  end.

Definition findResourceName (ctx : ServerContext) (uri : string) : option string :=
  let found := resource_name <$> List.find (fun r => str_eqb (resource_uri r) uri) (resources_data ctx) in
  if truthy_ostr found then found
  else template_name <$> List.find (fun t => str_eqb (uriTemplate t) uri) (templates_data ctx).
End Modern.

(** ** Lemmas: names *)

Lemma last_index_none (s : string) : str_mem "_" s = false -> last_index_of "_-_" s = None.
Proof.
  induction s as [|c s IH]; [done|]. cbn [str_mem last_index_of]. intros H.
  apply orb_false_iff in H as [Hc Hs]. rewrite IH by done. cbn [starts_with].
  rewrite bool_decide_false; [done|]. intros <-. by rewrite bool_decide_true in Hc.
Qed.

Lemma last_index_separator (id : string) :
  str_mem "_" id = false -> last_index_of "_-_" ("_-_" +:+ id) = Some 0%nat.
Proof.
  intros H. pose proof (last_index_none id H) as Hn.
  change ("_-_" +:+ id) with (String "_" (String "-" (String "_" id))).
  cbn [last_index_of]. rewrite Hn.
  assert (starts_with "_-_" (String "_" id) = false) as ->.
  { destruct id as [|a id]; [done|]. cbn [starts_with]. rewrite bool_decide_true by done.
    destruct id as [|b id]; cbn; [by rewrite andb_false_r|].
    cbn in H. apply orb_false_iff in H as [_ H]. apply orb_false_iff in H as [H _].
    rewrite (bool_decide_false ("_"%char = b)); [by rewrite andb_false_r|].
    intros <-. by rewrite bool_decide_true in H. }
  done.
Qed.

Lemma last_index_name (name id : string) :
  str_mem "_" id = false ->
  last_index_of "_-_" (name +:+ "_-_" +:+ id) = Some (String.length name).
Proof.
  intros H. induction name as [|c name IH]; [by apply last_index_separator|].
  change (String c name +:+ "_-_" +:+ id) with (String c (name +:+ "_-_" +:+ id)).
  cbn [last_index_of]. by rewrite IH.
Qed.

Lemma str_drop_plus (n m : nat) (s : string) : str_drop (n + m) s = str_drop m (str_drop n s).
Proof.
  revert s. induction n as [|n IH]; intros s; [done|]. destruct s as [|c s]; [by destruct m|]. apply IH.
Qed.

Lemma generateNewName_inj (i j n k : string) :
  str_mem "_" i = false -> str_mem "_" j = false ->
  generateNewName i n = generateNewName j k -> i = j /\ n = k.
Proof.
  intros Hi Hj H. unfold generateNewName in H.
  pose proof (last_index_name n i Hi) as Ln. pose proof (last_index_name k j Hj) as Lk.
  rewrite H, Lk in Ln. injection Ln as Hlen.
  assert (n = k) as ->.
  { rewrite <- (str_take_app n ("_-_" +:+ i)), <- (str_take_app k ("_-_" +:+ j)). by rewrite H, Hlen. }
  split; [|done]. by apply str_app_inv_head, (str_app_inv_head "_-_") in H.
Qed.

(** ** A consistent server manager *)

Definition all_contexts (mgr : ServerManager) : list ServerContext :=
  map snd (serverContexts mgr) ++ map snd (temporaryServers mgr).

Record manager_ok (mgr : ServerManager) : Prop := {
  ok_keys : Forall (fun kc => fst kc = serverID (snd kc) /\ ctx_userId (snd kc) = None) (serverContexts mgr);
  ok_nodup : NoDup (keys (serverContexts mgr));
  ok_temp : Forall (fun kc => exists u, ctx_userId (snd kc) = Some u
              /\ fst kc = serverID (snd kc) +:+ ":" +:+ u /\ allowUserInput (snd kc) = true)
              (temporaryServers mgr);
  ok_temp_nodup : NoDup (keys (temporaryServers mgr));
  ok_separate : Forall (fun kc => assoc (serverID (snd kc)) (serverContexts mgr) = None) (temporaryServers mgr);
  ok_ids : NoDup (map ctx_id (all_contexts mgr));
  ok_numerals : Forall (fun ctx => str_mem "_" (ctx_id ctx) = false) (all_contexts mgr)
}.

(** A context this user's requests are routed to. *)
Definition visible (mgr : ServerManager) (user : string) (ctx : ServerContext) : Prop :=
  In ctx (map snd (serverContexts mgr))
  \/ (In ctx (map snd (temporaryServers mgr)) /\ ctx_userId ctx = Some user).

Lemma find_unique {A} (key : A -> string) (p : A -> bool) (l : list A) (x : A) :
  NoDup (map key l) -> In x l -> p x = true -> (forall y, In y l -> p y = true -> key y = key x) ->
  List.find p l = Some x.
Proof.
  intros Hnd Hin Hp Hkey. induction l as [|y l IH]; [done|]. cbn in Hnd |- *.
  apply NoDup_cons in Hnd as [Hy Hnd]. destruct (p y) eqn:Hpy.
  - f_equal. destruct Hin as [->|Hin]; [done|]. exfalso. apply Hy.
    rewrite (Hkey y) by (by left || done). apply list_elem_of_In, in_map. done.
  - destruct Hin as [->|Hin]; [congruence|]. apply IH; [done..|]. intros z Hz. apply Hkey. by right.
Qed.

Lemma find_none_iff {A} (p : A -> bool) (l : list A) :
  (forall y, In y l -> p y = false) -> List.find p l = None.
Proof. induction l as [|y l IH]; [done|]. intros H. cbn. rewrite (H y) by (by left). apply IH. intros z Hz. apply H. by right. Qed.

Section Consistent.
Variable mgr : ServerManager.
Variable session : Session.
Hypothesis Hok : manager_ok mgr.
Hypothesis Hme : truthy_str (session_userId session) = true.

Lemma visible_all user ctx : visible mgr user ctx -> In ctx (all_contexts mgr).
Proof using. intros [H|[H _]]; apply in_app_iff; auto. Qed.

(** The context found by its own server id is the context itself. *)
Lemma visible_getServerContext ctx :
  visible mgr (session_userId session) ctx ->
  getServerContext mgr (serverID ctx) (session_userId session) = Some ctx.
Proof using Hok Hme.
  intros [Hin|[Hin Hu]]; apply in_map_iff in Hin as ([k c] & Hc & Hin); cbn in Hc; subst c;
    unfold getServerContext.
  - pose proof (ok_keys mgr Hok) as Hk. rewrite Forall_forall in Hk.
    destruct (Hk (k, ctx)) as [Hkey _]; [by apply list_elem_of_In|]. cbn in Hkey. subst k.
    by rewrite (In_assoc (serverID ctx) ctx) by (done || apply (ok_nodup mgr Hok)).
  - pose proof (ok_separate mgr Hok) as Hs. pose proof (ok_temp mgr Hok) as Ht.
    rewrite Forall_forall in Hs, Ht. specialize (Hs (k, ctx)). specialize (Ht (k, ctx)).
    rewrite <- list_elem_of_In in Hin. specialize (Hs Hin). specialize (Ht Hin). cbn in Hs, Ht.
    destruct Ht as (u & Hu' & -> & _). rewrite Hu in Hu'. injection Hu' as <-.
    rewrite Hs, Hme. unfold getTemporaryServer. apply In_assoc; [by apply ok_temp_nodup|].
    by apply list_elem_of_In.
Qed.

(** A qualified name leads back to the server and the original name. *)
Lemma parseName_generate ctx name :
  visible mgr (session_userId session) ctx ->
  parseName mgr session (generateNewName (ctx_id ctx) name) = Some (serverID ctx, name).
Proof using Hok.
  intros Hv. pose proof (visible_all _ _ Hv) as Hin.
  pose proof (ok_numerals mgr Hok) as Hnum. rewrite Forall_forall in Hnum.
  assert (Hid : str_mem "_" (ctx_id ctx) = false) by (by apply Hnum, list_elem_of_In).
  unfold parseName, generateNewName. rewrite last_index_name by done.
  rewrite str_take_app, str_drop_plus, str_drop_app.
  change (str_drop 3 ("_-_" +:+ ctx_id ctx)) with (ctx_id ctx).
  pose proof (ok_ids mgr Hok) as Hnd. unfold all_contexts in Hnd. rewrite map_app in Hnd.
  apply NoDup_app in Hnd as (Hn1 & Hdis & Hn2).
  destruct Hv as [Hs|[Ht Hu]].
  - unfold getServerContextByID. rewrite (find_unique ctx_id _ _ ctx); try done.
    + apply str_eqb_refl.
    + by intros y _ Hy%str_eqb_eq.
  - assert (getServerContextByID mgr (ctx_id ctx) = None) as ->.
    { apply find_none_iff. intros y Hy. apply str_eqb_neq. intros E.
      apply (Hdis (ctx_id y)); [by apply list_elem_of_In, in_map|].
      rewrite E. by apply list_elem_of_In, in_map. }
    unfold getTemporaryServerContextByID. rewrite (find_unique ctx_id _ _ ctx); try done.
    + by rewrite str_eqb_refl, bool_decide_true.
    + intros y _ Hy. to_prop. by apply str_eqb_eq.
Qed.

Lemma canAccessServer_context sid :
  canAccessServer mgr session sid = true ->
  exists ctx, getServerContext mgr sid (session_userId session) = Some ctx
    /\ ctx_enabled ctx = true /\ is_available ctx = true.
Proof using.
  unfold canAccessServer, me. destruct (getServerContext _ _ _) as [ctx|]; [|done].
  destruct (ctx_enabled ctx) eqn:He; [|done]. destruct (is_available ctx) eqn:Ha; [|done].
  intros _. by exists ctx.
Qed.

(** Given access to the server, what remains is its own configuration and
    the user's. *)
Lemma can_use_split type ctx name :
  getServerContext mgr (serverID ctx) (session_userId session) = Some ctx ->
  canAccessServer mgr session (serverID ctx) = true ->
  can_use mgr session type (serverID ctx) name
  = capability_enabled type (capabilitiesConfig ctx) name && can_use_by_context session type ctx name.
Proof using.
  intros Hc Ha. unfold can_use, canAccessServerCapabilities. rewrite Ha. cbn [negb].
  destruct (canAccessServer_context _ Ha) as (ctx' & Hc' & He & Hav).
  unfold me. rewrite Hc in Hc'. injection Hc' as <-. rewrite Hc, He, Hav. cbn [negb].
  by destruct (capability_enabled type (capabilitiesConfig ctx) name).
Qed.

(** The contexts whose capabilities are offered to a session are this user's
    own, other users' temporary servers excluded. *)
Lemma offered_visible type ctx name :
  In ctx (getAvailableServers mgr session) -> can_use_by_context session type ctx name = true ->
  visible mgr (session_userId session) ctx /\ canAccessServer mgr session (serverID ctx) = true.
Proof using Hok.
  intros [Hin Ha]%filter_In Hu. split; [|done].
  apply in_app_iff in Hin as [[Hin _]%filter_In|[Hin _]%filter_In]; [by left|]. right. split; [done|].
  apply in_map_iff in Hin as ([k c] & <- & Hin). pose proof (ok_temp mgr Hok) as Ht.
  rewrite Forall_forall in Ht. apply list_elem_of_In in Hin.
  destruct (Ht _ Hin) as (u & Hu' & _ & Hinput). cbn in *.
  unfold can_use_by_context in Hu. rewrite Hinput in Hu. by to_prop.
Qed.
End Consistent.

(** C37: Access to a tool is exactly this: the server the id leads to for this
    user is enabled and up; anonymous sessions need its anonymous access and
    never reach servers with user input; those serve only their own user;
    permissions and preferences leave the server enabled, a missing
    permission meaning the server's default (its public or anonymous access);
    and the tool is left enabled, where it is mentioned, by the server's
    configuration, by the user's preferences and, on a server without user
    input only, by the permissions the administrator gave the user. *)
Theorem tool_access_exact (mgr : ServerManager) (session : Session) (sid toolName : string) :
  canUseTool mgr session sid toolName = true <->
  exists ctx, getServerContext mgr sid (session_userId session) = Some ctx
    /\ ctx_enabled ctx = true /\ (status ctx = Online \/ status ctx = Sleeping)
    /\ (isAnonymous session = true -> anonymousAccess ctx = true /\ allowUserInput ctx = false)
    /\ (allowUserInput ctx = true -> ctx_userId ctx = Some (session_userId session))
    /\ default (if isAnonymous session then anonymousAccess ctx else publicAccess ctx)
         (server_enabled (permissions session) sid) = true
    /\ default true (server_enabled (userPreferences session) sid) = true
    /\ capability_enabled CapTool (capabilitiesConfig ctx) toolName = true
    /\ (allowUserInput ctx = false ->
        capability_enabled CapTool (assoc (serverID ctx) (permissions session)) toolName = true)
    /\ capability_enabled CapTool (assoc (serverID ctx) (userPreferences session)) toolName = true.
Proof.
  unfold canUseTool, can_use, canAccessServerCapabilities, canAccessServer, can_use_by_context, me, is_available.
  destruct (getServerContext mgr sid (session_userId session)) as [ctx|];
    [|split; [done|by intros (ctx & H & _)]].
  split.
  - intros H. exists ctx. destruct (ctx_enabled ctx) eqn:E1; [|done].
    destruct (bool_decide (status ctx = Online) || bool_decide (status ctx = Sleeping)) eqn:E2; [|done].
    apply orb_true_iff in E2. rewrite !bool_decide_eq_true in E2.
    destruct (isAnonymous session) eqn:Ea, (allowUserInput ctx) eqn:Ei,
      (anonymousAccess ctx) eqn:Eaa; cbn in H |- *; try done;
      destruct (bool_decide (ctx_userId ctx = Some (session_userId session))) eqn:Eu; cbn in H; try done;
      to_prop; case_bool; to_prop; try done; repeat split; try done.
  - intros (ctx' & [= <-] & H1 & H2 & H3 & H4 & H5 & H6 & H7 & H8 & H9).
    rewrite H1, H5, H6, H7. cbn [negb].
    assert (bool_decide (status ctx = Online) || bool_decide (status ctx = Sleeping) = true) as ->
      by (apply orb_true_iff; rewrite !bool_decide_eq_true; done).
    cbn [negb]. destruct (isAnonymous session) eqn:Ea.
    + destruct H3 as [-> Hi]; [done|]. rewrite Hi in *. cbn. rewrite Hi, H9. by rewrite H8.
    + cbn [andb]. destruct (allowUserInput ctx) eqn:Ei.
      * rewrite (bool_decide_true _ (H4 eq_refl)). cbn. rewrite Ei, H9.
        by rewrite (bool_decide_true _ (H4 eq_refl)).
      * cbn. rewrite Ei, H9. by rewrite H8.
Qed.

(** Every listed tool leads back to where it came from: it is offered by
    a server this user's calls are routed to (never another user's temporary
    server), under a name no other server's tool can have, and calling it by
    that name is routed to that server and tool, unless the server's own
    configuration disables the tool, in which case the call is refused. *)
Theorem listed_tools_callable (mgr : ServerManager) (session : Session) (t : ListedTool) :
  manager_ok mgr -> truthy_str (session_userId session) = true -> In t (listTools mgr session) ->
  exists ctx tool, visible mgr (session_userId session) ctx /\ In tool (tools_data ctx)
    /\ listed_name t = generateNewName (ctx_id ctx) (tool_name tool)
    /\ (forall ctx' tool', visible mgr (session_userId session) ctx' ->
          generateNewName (ctx_id ctx') (tool_name tool') = listed_name t ->
          ctx_id ctx' = ctx_id ctx /\ tool_name tool' = tool_name tool)
    /\ route_tool_call mgr session (listed_name t)
       = if capability_enabled CapTool (capabilitiesConfig ctx) (tool_name tool)
         then Ok (serverID ctx, tool_name tool)
         else Throw ("Permission denied for tool: " +:+ listed_name t).
Proof.
  intros Hok Hme (ctx & Hctx & Ht)%in_flat_map. apply in_map_iff in Ht as (tool & <- & Htool).
  apply filter_In in Htool as [Htool Huse].
  destruct (offered_visible mgr session Hok CapTool ctx (tool_name tool) Hctx Huse) as [Hv Ha].
  exists ctx, tool.
  assert (Hname : listed_name (list_tool session ctx tool) = generateNewName (ctx_id ctx) (tool_name tool)).
  { unfold list_tool. by repeat case_match. }
  rewrite Hname. split; [done|]. split; [done|]. split; [done|]. split.
  - intros ctx' tool' Hv' E.
    pose proof (ok_numerals mgr Hok) as Hn. rewrite Forall_forall in Hn.
    apply generateNewName_inj in E; [done| |]; apply Hn, list_elem_of_In; by eapply visible_all.
  - unfold route_tool_call, resolveToolName. rewrite (parseName_generate mgr session Hok ctx) by done.
    unfold canUseTool. rewrite (can_use_split mgr session CapTool ctx (tool_name tool)); try done;
      [|by apply visible_getServerContext].
    rewrite Huse, andb_true_r. done.
Qed.

(** The two transports agree: on a server without user input, the modern
    controller's check of a tool, resource or prompt is the session's check
    of the same name. *)
Theorem modern_checks_agree (mgr : ServerManager) (session : Session) (type : CapabilityType)
    (ctx : ServerContext) (name : string) :
  getServerContext mgr (serverID ctx) (session_userId session) = Some ctx ->
  allowUserInput ctx = false ->
  modern_can_use_by_id mgr session type (serverID ctx) name
  = can_use mgr session type (serverID ctx) name.
Proof.
  intros Hc Hi. unfold modern_can_use_by_id. rewrite Hc.
  unfold modern_can_use, modern_canAccessCapability, can_use, canAccessServerCapabilities, canAccessServer,
    modern_canAccessServer, can_use_by_context, me. rewrite Hc, Hi. cbn [negb andb].
  destruct (ctx_enabled ctx); [|done]. destruct (is_available ctx); [|done]. cbn [negb].
  destruct (isAnonymous session && negb (anonymousAccess ctx)); [done|].
  destruct (_ && default true _); [|done]. cbn [negb].
  destruct (capability_enabled type (capabilitiesConfig ctx) name); [|done]. cbn. rewrite Hi.
  by destruct (capability_enabled type (assoc (serverID ctx) (permissions session)) name).
Qed.

(** ** Resources are read by address but configured by name *)

(** The session checks a read against the address, where the listing (and
    the modern controller) checks the resource's name. *)
Lemma resource_read_checks_address (mgr : ServerManager) (session : Session) (ctx : ServerContext)
    (uri : string) :
  manager_ok mgr -> truthy_str (session_userId session) = true ->
  visible mgr (session_userId session) ctx -> canAccessServer mgr session (serverID ctx) = true ->
  route_resource_read mgr session (generateNewName (ctx_id ctx) uri)
  = if capability_enabled CapResource (capabilitiesConfig ctx) uri
       && can_use_by_context session CapResource ctx uri
    then Ok (serverID ctx, uri)
    else Throw ("Permission denied for resource: " +:+ generateNewName (ctx_id ctx) uri).
Proof.
  intros Hok Hme Hv Ha. unfold route_resource_read, resolveResourceUri.
  rewrite (parseName_generate mgr session Hok ctx) by done. unfold canAccessResource.
  by rewrite (can_use_split mgr session CapResource ctx uri) by (done || by apply visible_getServerContext).
Qed.

(** ** Witnesses *)

Definition ex_context : ServerContext :=
  {| ctx_id := "7"; serverID := "files"; ctx_enabled := true; status := Sleeping; allowUserInput := false;
     anonymousAccess := false; publicAccess := true; ctx_userId := None;
     capabilitiesConfig := Some {| sc_enabled := None;
        sc_tools := [("rm", {| cap_enabled := Some false; cap_dangerLevel := None |})];
        sc_resources := []; sc_prompts := [] |};
     ctx_tools := None;
     cachedTools := Some [{| tool_name := "ls_-_"; readOnlyHint := true; destructiveHint := false; tool_meta := None |};
                          {| tool_name := "rm"; readOnlyHint := false; destructiveHint := true; tool_meta := None |}];
     ctx_resources := Some [{| resource_uri := "file:///secret"; resource_name := "secret" |}];
     cachedResources := None; ctx_templates := None; cachedTemplates := None;
     ctx_prompts := None; cachedPrompts := None |}.

Definition ex_temp (id user : string) : ServerContext :=
  {| ctx_id := id; serverID := "mail"; ctx_enabled := true; status := Online; allowUserInput := true;
     anonymousAccess := false; publicAccess := true; ctx_userId := Some user; capabilitiesConfig := None;
     ctx_tools := Some [{| tool_name := "send"; readOnlyHint := false; destructiveHint := false; tool_meta := None |}];
     cachedTools := None; ctx_resources := None; cachedResources := None; ctx_templates := None;
     cachedTemplates := None; ctx_prompts := None; cachedPrompts := None |}.

Definition ex_manager : ServerManager :=
  {| serverContexts := [("files", ex_context)];
     temporaryServers := [("mail:ann", ex_temp "8" "ann"); ("mail:bob", ex_temp "9" "bob")] |}%string.

(** Ann may not use the resource named secret. *)
Definition ex_session : Session :=
  {| session_userId := "ann"; isAnonymous := false;
     permissions := [("files", {| sc_enabled := Some true; sc_tools := [];
        sc_resources := [("secret", {| cap_enabled := Some false; cap_dangerLevel := None |})];
        sc_prompts := [] |})];
     userPreferences := [] |}%string.

Lemma ex_manager_ok : manager_ok ex_manager.
Proof.
  constructor; cbn.
  - by repeat constructor.
  - by apply (bool_decide_unpack (NoDup ["files"%string])).
  - constructor; [by exists "ann"%string|]. constructor; [by exists "bob"%string|]. constructor.
  - by apply (bool_decide_unpack (NoDup ["mail:ann"; "mail:bob"]%string)).
  - by repeat constructor.
  - by apply (bool_decide_unpack (NoDup ["7"; "8"; "9"]%string)).
  - by repeat constructor.
Qed.

(** On a server with user input, what the administrator permits is looked at
    for the server as a whole only: a tool that Ann's permissions disable is
    listed to her and may be called. *)
Definition ex_denied_send : Session :=
  {| session_userId := "ann"; isAnonymous := false;
     permissions := [("mail", {| sc_enabled := Some true; sc_tools := [("send", {| cap_enabled := Some false; cap_dangerLevel := None |})];
        sc_resources := []; sc_prompts := [] |})];
     userPreferences := [] |}%string.

Example denied_tool_of_input_server_allowed :
  capability_enabled CapTool (assoc "mail"%string (permissions ex_denied_send)) "send" = false
  /\ canUseTool ex_manager ex_denied_send "mail" "send" = true
  /\ In "send_-_8"%string (map listed_name (listTools ex_manager ex_denied_send)).
Proof. vm_compute. split_and! ; [done|done|]. repeat (first [by left|right]). Qed.

(** Ann's tools: two of the files server, one of her own mail server. *)
Example ex_listing : map listed_name (listTools ex_manager ex_session)
  = ["ls_-__-_7"; "rm_-_7"; "send_-_8"]%string.
Proof. reflexivity. Qed.

Lemma listed_tools_callable_witness :
  route_tool_call ex_manager ex_session "ls_-__-_7" = Ok ("files", "ls_-_")%string
  /\ exists ctx tool, visible ex_manager "ann" ctx /\ In tool (tools_data ctx)
       /\ "ls_-__-_7"%string = generateNewName (ctx_id ctx) (tool_name tool).
Proof.
  split; [reflexivity|].
  destruct (listed_tools_callable ex_manager ex_session
    {| listed_name := "ls_-__-_7"; listed_readonly := true; listed_destructive := false; listed_meta := None |}
    ex_manager_ok eq_refl) as (ctx & tool & Hv & Hin & Hn & _).
  - by left.
  - exists ctx, tool. split; [exact Hv|]. split; [exact Hin|exact Hn].
Defined.

Lemma modern_checks_agree_witness :
  modern_can_use_by_id ex_manager ex_session CapTool "files" "rm"
  = can_use ex_manager ex_session CapTool "files" "rm".
Proof. apply (modern_checks_agree ex_manager ex_session CapTool ex_context "rm"); reflexivity. Defined.

(** The resource Ann may not use is not listed to her, the modern controller
    refuses it, and a read by its address is served. *)
Lemma denied_resource_is_served :
  map resource_name (listResources ex_manager ex_session) = []
  /\ option_map (modern_can_use_by_id ex_manager ex_session CapResource "files")
       (findResourceName ex_context "file:///secret") = Some false
  /\ route_resource_read ex_manager ex_session "file:///secret_-_7" = Ok ("files", "file:///secret")%string.
Proof. repeat split; reflexivity. Qed.

(** A tool its server's configuration disables is listed and then refused. *)
Lemma disabled_tool_is_listed :
  In "rm_-_7"%string (map listed_name (listTools ex_manager ex_session))
  /\ route_tool_call ex_manager ex_session "rm_-_7" = Throw "Permission denied for tool: rm_-_7"%string.
Proof. split; [right; left; reflexivity|reflexivity]. Qed.
