(* ===== verification/CacheKey.v ===== *)
(** * Result cache: request canonicalisation and keys

    [src/src/mcp/core/cache/CacheKeyBuilder.ts] and the enumerations of
    [src/src/mcp/core/cache/types.ts].  Request parameters are the values of
    [Json.v]; the numbers there are integers, so the branches of
    [normalizeValue] for non-finite numbers, big integers, dates and other
    objects have no argument to apply to.  [sha256] (Node's [crypto]) is a
    parameter. *)
From Stdlib Require Import Ascii ZArith Lia Sorted.
From stdpp Require Import base strings list.
From S2P Require Import Prelude Json.
Open Scope Z_scope.

(** ** Enumerations *)

Inductive CacheScope : Type := ScopeUser | ScopeTenant | ScopeGlobal.
Inductive AdmissionPolicy : Type := Immediate | SecondHit.
Inductive CacheOperationType : Type := OpTool | OpResource | OpPrompt.

#[export] Instance CacheScope_eq_dec : EqDecision CacheScope.
Proof. solve_decision. Defined.
#[export] Instance AdmissionPolicy_eq_dec : EqDecision AdmissionPolicy.
Proof. solve_decision. Defined.
#[export] Instance CacheOperationType_eq_dec : EqDecision CacheOperationType.
Proof. solve_decision. Defined.

(** The string values the enumerations have in the code. *)
Definition scope_text (s : CacheScope) : string :=
  match s with ScopeUser => "user" | ScopeTenant => "tenant" | ScopeGlobal => "global" end.
Definition admission_text (a : AdmissionPolicy) : string :=
  match a with Immediate => "immediate" | SecondHit => "second_hit" end.
Definition operation_text (o : CacheOperationType) : string :=
  match o with OpTool => "tool" | OpResource => "resource" | OpPrompt => "prompt" end.

(** ** Canonical parameters *)

(** [set.has(key)] *)
Definition has (key : string) (l : list string) : bool := existsb (str_eqb key) l.

Definition isRecord (v : json) : bool := match v with JObj _ => true | _ => false end.

Fixpoint stripDeniedFields (denySet : list string) (v : json) : json :=
  match v with
  | JArr l => JArr (map (stripDeniedFields denySet) l)
  | JObj kvs =>
      JObj (from_entries
              (flat_map (fun kv => if has (fst kv) denySet then []
                                   else [(fst kv, stripDeniedFields denySet (snd kv))]) kvs))
  | _ => v
  end.

Definition applyFieldPolicies (denySet : list string) (allowFields : option (list string))
    (v : json) : json :=
  match allowFields, v with
  | Some allowed, JObj kvs =>
      stripDeniedFields denySet
        (JObj (from_entries (List.filter (fun kv => has (fst kv) allowed) kvs)))
  | _, _ => stripDeniedFields denySet v
  end.

(** The object standing for an undefined value. *)
Definition undefined_marker : json := JObj [("__type"%string, JStr "undefined")].

Fixpoint normalizeValue (v : json) : json :=
  match v with
  | JUndefined => undefined_marker
  | JArr l => JArr (map normalizeValue l)
  | JObj kvs =>
      let normalized := map (fun kv => (fst kv, normalizeValue (snd kv))) kvs in
      JObj (from_entries (sorted_entries normalized))
  | _ => v
  end.

(** [JSON.stringify(s)] of a string is [quote s].  A normalised value is
    never undefined (lemma [normalizeValue_defined]); the text given to
    [JUndefined] stands for the thrown TypeError and does not occur. *)
Fixpoint stableStringify (v : json) : string :=
  match v with
  | JUndefined => ""
  | JNull => "null"
  | JBool b => if b then "true" else "false"
  | JNum n => z_to_string n
  | JStr s => quote s
  | JArr l => "[" +:+ str_join "," (map stableStringify l) +:+ "]"
  | JObj kvs =>
      let texts := map (fun kv => (fst kv, stableStringify (snd kv))) kvs in
      "{" +:+ str_join "," (map (fun key => quote key +:+ ":" +:+ default ""%string (assoc key texts))
                              (isort str_leb (keys kvs))) +:+ "}"
  end.

Section KeyBuilder.
Variable sha256 : string -> string.

Definition canonicalizeParams (params : json) (denyFields : list string)
    (allowFields : option (list string)) : string :=
  sha256 (stableStringify (normalizeValue (applyFieldPolicies denyFields allowFields params))).

Definition buildEntityHash (entityId : string) : string := sha256 entityId.
Definition buildScopeHash (scopeIdentity : string) : string := sha256 scopeIdentity.
End KeyBuilder.

(** ** Keys *)

Record VersionSet : Type := {
  globalVersion : Z;
  serverVersion : Z;
  entityVersion : Z
}.

(** The text both kinds of key share after their tag. *)
Definition key_tail (operation : CacheOperationType) (serverId entityHash : string)
    (scopeType : CacheScope) (scopeHash : string) (v : VersionSet) (requestHash : string) : string :=
  operation_text operation +:+ ":" +:+ serverId +:+ ":" +:+ entityHash +:+ ":"
  +:+ scope_text scopeType +:+ ":" +:+ scopeHash
  +:+ ":gv" +:+ z_to_string (globalVersion v) +:+ ":sv" +:+ z_to_string (serverVersion v)
  +:+ ":ev" +:+ z_to_string (entityVersion v) +:+ ":" +:+ requestHash.

Definition buildResultEntryKey (prefix : string) (operation : CacheOperationType)
    (serverId entityHash : string) (scopeType : CacheScope) (scopeHash : string)
    (v : VersionSet) (requestHash : string) : string :=
  prefix +:+ ":rc:v2:" +:+ key_tail operation serverId entityHash scopeType scopeHash v requestHash.

Definition buildAdmissionKey (prefix : string) (operation : CacheOperationType)
    (serverId entityHash : string) (scopeType : CacheScope) (scopeHash : string)
    (v : VersionSet) (requestHash : string) : string :=
  prefix +:+ ":rcadm:v2:" +:+ key_tail operation serverId entityHash scopeType scopeHash v requestHash.

Definition buildNamespaceKey (prefix : string) (parts : list string) : string :=
  prefix +:+ ":rcns:" +:+ str_join ":" parts.

(** ** Lemmas: canonical parameters *)

Lemma normalizeValue_sortKeys (v : json) : is_json v = true -> normalizeValue v = sortKeys v.
Proof.
  induction v as [| |b|n|s|l IH|kvs IH] using json_ind'; intros Hv; try done.
  - apply is_json_arr in Hv. cbn. f_equal. clear -IH Hv.
    induction IH as [|x l Hx IH IHl]; [done|]. inversion_clear Hv. cbn. f_equal; auto.
  - apply is_json_obj in Hv as (Hv & _ & _). cbn [normalizeValue]. rewrite sortKeys_obj.
    do 3 f_equal. clear -IH Hv.
    induction IH as [|x l Hx IH IHl]; [done|]. inversion_clear Hv. cbn. f_equal; [f_equal|]; auto.
Qed.

Lemma sortKeys_idem (v : json) : is_json v = true -> sortKeys (sortKeys v) = sortKeys v.
Proof.
  intros Hv. symmetry. apply sortKeys_complete; [done|by apply is_json_sortKeys|].
  by apply json_equiv_sortKeys.
Qed.

Lemma assoc_map_snd {A B} (g : A -> B) (k : string) (l : list (string * A)) :
  assoc k (map (fun kv => (fst kv, g (snd kv))) l) = g <$> assoc k l.
Proof.
  induction l as [|[a x] l IH]; [done|]. cbn. by destruct (str_eqb k a).
Qed.

(** Stable texts are read back as the canonical form. *)
Lemma stableStringify_reads (v : json) :
  is_json v = true -> reads_as (stableStringify v) (sortKeys v).
Proof.
  induction v as [| |b|n|s|l IH|kvs IH] using json_ind'; intros Hv; try done.
  - apply reads_as_null.
  - apply reads_as_bool.
  - apply reads_as_num.
  - apply reads_as_str.
  - apply is_json_arr in Hv. cbn. apply reads_as_arr. clear -IH Hv.
    induction IH as [|x l Hx IH IHl]; [constructor|]. inversion_clear Hv.
    cbn. constructor; auto.
  - apply is_json_obj in Hv as (Hv & Hnd & _). rewrite sortKeys_obj. cbn [stableStringify].
    set (texts := map (fun kv => (fst kv, stableStringify (snd kv))) kvs).
    set (ts := map (fun key => (key, default ""%string (assoc key texts)))
                 (isort str_leb (keys kvs))).
    assert (Hts : map (fun key => quote key +:+ ":" +:+ default ""%string (assoc key texts))
              (isort str_leb (keys kvs)) = map entry_text ts)
      by (unfold ts; rewrite map_map; by apply map_ext).
    rewrite Hts. apply reads_as_obj. unfold ts, sorted_entries. rewrite keys_map_snd. clear ts Hts.
    assert (Hin : Forall (fun key => In key (keys kvs)) (isort str_leb (keys kvs))).
    { rewrite isort_perm. apply Forall_forall. intros x Hx. by apply list_elem_of_In. }
    induction Hin as [|key ks Hk Hks IHk]; [constructor|]. cbn [map]. constructor; [|exact IHk].
    split; [done|]. cbn. unfold texts. rewrite !assoc_map_snd.
    apply in_map_iff in Hk as ([k v] & <- & Hin). cbn. rewrite (In_assoc k v) by done. cbn.
    rewrite Forall_forall in IH, Hv. apply list_elem_of_In in Hin.
    apply (IH _ Hin (Hv _ Hin)).
Qed.

Lemma stableStringify_sound (v w : json) :
  is_json v = true -> is_json w = true ->
  stableStringify (normalizeValue v) = stableStringify (normalizeValue w) <-> json_equiv v w.
Proof.
  intros Hv Hw. rewrite !normalizeValue_sortKeys by done. split.
  - intros H. apply sortKeys_sound; [done..|].
    pose proof (reads_as_parse _ _ (stableStringify_reads _ (is_json_sortKeys v Hv))) as Pv.
    pose proof (reads_as_parse _ _ (stableStringify_reads _ (is_json_sortKeys w Hw))) as Pw.
    rewrite H, Pw in Pv. rewrite !sortKeys_idem in Pv by done. congruence.
  - intros E. by rewrite (sortKeys_complete v w).
Qed.

Lemma is_json_from_entries (l : list (string * json)) :
  Forall (fun kv => is_json (snd kv) = true) l -> NoDup (keys l) ->
  is_json (JObj (from_entries l)) = true.
Proof.
  intros Hl Hnd. pose proof (from_entries_perm l Hnd) as Hp. apply is_json_obj.
  split; [by rewrite Hp|]. split; [|by apply from_entries_ordered].
  assert (keys (from_entries l) ≡ₚ keys l) as -> by (by apply Permutation_map). done.
Qed.

(** Dropping entries keeps the keys distinct. *)
Lemma NoDup_keys_flat_map (f : string * json -> list (string * json)) (l : list (string * json)) :
  (forall kv, f kv = [] \/ exists v, f kv = [(fst kv, v)]) ->
  NoDup (keys l) -> NoDup (keys (flat_map f l)).
Proof.
  intros Hf. induction l as [|kv l IH]; intros Hnd; [constructor|]. cbn in Hnd |- *.
  apply NoDup_cons in Hnd as [Hk Hnd].
  assert (Hsub : forall k, In k (keys (flat_map f l)) -> In k (keys l)).
  { intros k Hin. apply in_map_iff in Hin as (e & <- & Hin).
    apply in_flat_map in Hin as (kv' & Hin' & He).
    destruct (Hf kv') as [E|[v E]]; rewrite E in He; [done|].
    destruct He as [<-|[]]. cbn. by apply in_map. }
  destruct (Hf kv) as [->|[v ->]]; cbn; [by apply IH|].
  constructor; [|by apply IH]. intros Hin. apply Hk, list_elem_of_In, Hsub.
  by apply list_elem_of_In.
Qed.

Lemma is_json_strip (denySet : list string) (v : json) :
  is_json v = true -> is_json (stripDeniedFields denySet v) = true.
Proof.
  induction v as [| |b|n|s|l IH|kvs IH] using json_ind'; intros Hv; try done.
  - apply is_json_arr in Hv. cbn [stripDeniedFields]. apply is_json_arr. clear -IH Hv.
    induction IH as [|x l Hx IH IHl]; [constructor|]. inversion_clear Hv. cbn.
    constructor; auto.
  - apply is_json_obj in Hv as (Hv & Hnd & _). cbn [stripDeniedFields].
    apply is_json_from_entries.
    + clear -IH Hv. induction IH as [|x l Hx IH IHl]; [constructor|]. inversion_clear Hv. cbn.
      destruct (has (fst x) denySet); [by apply IHl|]. constructor; [by apply Hx|by apply IHl].
    + apply NoDup_keys_flat_map; [|done]. intros kv.
      destruct (has (fst kv) denySet); [by left|right; by eexists].
Qed.

Lemma NoDup_keys_filter {A} (p : string * A -> bool) (l : list (string * A)) :
  NoDup (keys l) -> NoDup (keys (List.filter p l)).
Proof.
  induction l as [|kv l IH]; intros Hnd; [done|]. cbn in Hnd |- *.
  apply NoDup_cons in Hnd as [Hk Hnd]. destruct (p kv); [|by apply IH].
  cbn. constructor; [|by apply IH]. intros Hin. apply Hk.
  apply list_elem_of_In in Hin. apply list_elem_of_In.
  apply in_map_iff in Hin as (e & <- & Hin). apply in_map. by apply filter_In in Hin as [? _].
Qed.

Lemma is_json_applyFieldPolicies (deny : list string) (allow : option (list string)) (v : json) :
  is_json v = true -> is_json (applyFieldPolicies deny allow v) = true.
Proof.
  intros Hv. unfold applyFieldPolicies.
  destruct allow as [allowed|]; [|by apply is_json_strip].
  destruct v as [| |b|n|s|l|kvs]; try by apply is_json_strip.
  apply is_json_strip. apply is_json_obj in Hv as (Hv & Hnd & _). apply is_json_from_entries.
  - apply Forall_forall. intros kv Hin. rewrite Forall_forall in Hv. apply Hv.
    apply list_elem_of_In. apply list_elem_of_In, filter_In in Hin. tauto.
  - by apply NoDup_keys_filter.
Qed.

(** ** Lemmas: keys *)

(** A list of colon-free parts after a separator is determined by the text. *)
Lemma sep_suffix_inj (xs ys : list string) (a b : string) :
  length xs = length ys -> xs <> [] ->
  Forall (fun p => str_mem ":" p = false) xs -> Forall (fun p => str_mem ":" p = false) ys ->
  a +:+ ":" +:+ str_join ":" xs = b +:+ ":" +:+ str_join ":" ys -> a = b /\ xs = ys.
Proof.
  revert ys a b. induction xs as [|x xs IH]; intros ys a b Hlen Hne Hx Hy H; [done|].
  destruct ys as [|y ys]; [done|]. inversion_clear Hx. inversion_clear Hy.
  destruct xs as [|x' xs], ys as [|y' ys]; try done.
  - cbn [str_join] in H. destruct (str_sep_inj_r ":"%char a b x y) as [-> ->]; done.
  - change (str_join ":" (x :: x' :: xs)) with (x +:+ ":" +:+ str_join ":" (x' :: xs)) in H.
    change (str_join ":" (y :: y' :: ys)) with (y +:+ ":" +:+ str_join ":" (y' :: ys)) in H.
    assert (H' : (a +:+ ":" +:+ x) +:+ ":" +:+ str_join ":" (x' :: xs)
              = (b +:+ ":" +:+ y) +:+ ":" +:+ str_join ":" (y' :: ys))
      by (rewrite !str_app_assoc; exact H).
    apply IH in H' as [H' ->]; [|by cbn in Hlen |- *; lia|done|done|done].
    destruct (str_sep_inj_r ":"%char a b x y) as [-> ->]; done.
Qed.

Section KeyLemmas.
Variable sha256 : string -> string.
Hypothesis sha256_inj : forall x y, sha256 x = sha256 y -> x = y.
Hypothesis sha256_hex : forall x, str_mem ":" (sha256 x) = false.

Lemma prefix_z_to_string_inj (p : string) (a b : Z) :
  p +:+ z_to_string a = p +:+ z_to_string b -> a = b.
Proof. intros H. by apply z_to_string_inj, (str_app_inv_head p). Qed.

Lemma key_tail_inj op1 op2 srv1 srv2 e1 e2 sc1 sc2 h1 h2 v1 v2 r1 r2 :
  key_tail op1 srv1 (sha256 e1) sc1 (sha256 h1) v1 (sha256 r1)
  = key_tail op2 srv2 (sha256 e2) sc2 (sha256 h2) v2 (sha256 r2) ->
  op1 = op2 /\ srv1 = srv2 /\ e1 = e2 /\ sc1 = sc2 /\ h1 = h2 /\ v1 = v2 /\ r1 = r2.
Proof using sha256_inj sha256_hex.
  set (parts := fun e sc h v r => [sha256 e; scope_text sc; sha256 h;
     "gv" +:+ z_to_string (globalVersion v); "sv" +:+ z_to_string (serverVersion v);
     "ev" +:+ z_to_string (entityVersion v); sha256 r]).
  assert (Hk : forall op srv e sc h v r,
    key_tail op srv (sha256 e) sc (sha256 h) v (sha256 r)
    = (operation_text op +:+ ":" +:+ srv) +:+ ":" +:+ str_join ":" (parts e sc h v r)).
  { intros. unfold key_tail, parts. cbn [str_join]. by rewrite !str_app_assoc. }
  assert (Hp : forall e sc h v r, Forall (fun p => str_mem ":" p = false) (parts e sc h v r)).
  { intros. unfold parts. repeat constructor; try apply sha256_hex; try (by destruct sc);
      rewrite str_mem_app, z_to_string_no_colon; done. }
  rewrite !Hk. intros H. apply sep_suffix_inj in H as [Hl Hr]; [|done|done|apply Hp|apply Hp].
  assert (op1 = op2 /\ srv1 = srv2) as [-> ->].
  { destruct op1, op2; cbn in Hl; simplify_eq; done. }
  unfold parts in Hr. injection Hr as He Hs Hh Hg Hsv Hev Hr.
  apply sha256_inj in He, Hh, Hr. destruct v1, v2. cbn in *.
  apply z_to_string_inj in Hg, Hsv, Hev. subst.
  assert (sc1 = sc2) as -> by (by destruct sc1, sc2). done.
Qed.
End KeyLemmas.

(** A cache key pins down what it was built for: provided the digest is
    injective and free of colons, entry keys agree only when operation,
    server, entity, scope kind, scope identity, all three versions and the
    canonical parameters agree, and parameters that pass the field policies
    as JSON values have the same canonical digest exactly when they are the
    same up to the order of object properties. *)
Theorem cache_keys_identify (sha256 : string -> string) (prefix : string)
    (op1 op2 : CacheOperationType) (srv1 srv2 e1 e2 : string) (sc1 sc2 : CacheScope)
    (id1 id2 : string) (v1 v2 : VersionSet) (p1 p2 : json)
    (deny : list string) (allow : option (list string)) :
  (forall x y, sha256 x = sha256 y -> x = y) ->
  (forall x, str_mem ":" (sha256 x) = false) ->
  is_json p1 = true -> is_json p2 = true ->
  buildResultEntryKey prefix op1 srv1 (buildEntityHash sha256 e1) sc1 (buildScopeHash sha256 id1)
    v1 (canonicalizeParams sha256 p1 deny allow)
  = buildResultEntryKey prefix op2 srv2 (buildEntityHash sha256 e2) sc2 (buildScopeHash sha256 id2)
    v2 (canonicalizeParams sha256 p2 deny allow)
  <-> op1 = op2 /\ srv1 = srv2 /\ e1 = e2 /\ sc1 = sc2 /\ id1 = id2 /\ v1 = v2
      /\ json_equiv (applyFieldPolicies deny allow p1) (applyFieldPolicies deny allow p2).
Proof.
  intros Hinj Hhex H1 H2. unfold buildResultEntryKey. split.
  - intros H. apply str_app_inv_head, (str_app_inv_head ":rc:v2:") in H.
    apply (key_tail_inj sha256 Hinj Hhex) in H as (-> & -> & -> & -> & -> & -> & H).
    repeat split; try done. by apply stableStringify_sound in H; try apply is_json_applyFieldPolicies.
  - intros (-> & -> & -> & -> & -> & -> & H). unfold canonicalizeParams.
    apply stableStringify_sound in H as ->; try apply is_json_applyFieldPolicies; done.
Qed.

(** A concrete digest for the witnesses: every unit as two hex digits. *)
Fixpoint hex_text (s : string) : string :=
  match s with
  | EmptyString => ""
  | String c s' =>
      String (hex_digit (nat_of_ascii c / 16)) (String (hex_digit (nat_of_ascii c mod 16)) (hex_text s'))
  end.

Lemma hex_digit_value (n : nat) : (n < 16)%nat -> hex_value (hex_digit n) = Some n.
Proof. do 16 (destruct n as [|n]; [done|]). lia. Qed.

Lemma hex_digit_no_colon (n : nat) : bool_decide (hex_digit n = ":"%char) = false.
Proof. do 16 (destruct n as [|n]; [done|]). done. Qed.

Lemma hex_pair_inj (c d : ascii) :
  hex_digit (nat_of_ascii c / 16) = hex_digit (nat_of_ascii d / 16) ->
  hex_digit (nat_of_ascii c mod 16) = hex_digit (nat_of_ascii d mod 16) -> c = d.
Proof.
  intros H1 H2.
  pose proof (nat_ascii_bounded c). pose proof (nat_ascii_bounded d).
  apply (f_equal hex_value) in H1, H2.
  rewrite !hex_digit_value in H1, H2
    by (first [apply Nat.mod_upper_bound; lia | apply Nat.Div0.div_lt_upper_bound; lia]).
  apply (inj Some) in H1, H2. apply nat_of_ascii_inj.
  pose proof (Nat.div_mod_eq (nat_of_ascii c) 16).
  pose proof (Nat.div_mod_eq (nat_of_ascii d) 16). lia.
Qed.

Lemma hex_text_inj (x y : string) : hex_text x = hex_text y -> x = y.
Proof.
  revert y. induction x as [|c x IH]; intros [|d y] H; try done.
  cbn [hex_text] in H. injection H as H1 H2 H3. f_equal; [|by apply IH].
  by apply hex_pair_inj.
Qed.

Lemma hex_text_no_colon (x : string) : str_mem ":" (hex_text x) = false.
Proof.
  induction x as [|c x IH]; [done|]. cbn [hex_text str_mem].
  by rewrite !hex_digit_no_colon, IH.
Qed.

Lemma cache_keys_identify_witness :
  let v := {| globalVersion := 0; serverVersion := 1; entityVersion := 0 |} in
  buildResultEntryKey "peta:dev" OpTool "srv:1" (buildEntityHash hex_text "get") ScopeUser
    (buildScopeHash hex_text "u:7") v
    (canonicalizeParams hex_text (JObj [("b", JNull); ("a", JArr [JNum 1]); ("t", JStr "x")]) ["t"] None)
  = buildResultEntryKey "peta:dev" OpTool "srv:1" (buildEntityHash hex_text "get") ScopeUser
      (buildScopeHash hex_text "u:7") v
      (canonicalizeParams hex_text (JObj [("a", JArr [JNum 1]); ("b", JNull)]) ["t"] None).
Proof.
  apply (cache_keys_identify hex_text); [apply hex_text_inj|apply hex_text_no_colon|done|done|].
  repeat split; try done.
  apply (JE_obj _ [("b", JNull); ("a", JArr [JNum 1])]); [repeat constructor|apply perm_swap].
Defined.

(** Parts that contain the separator are confused in namespace keys: purging
    one tool purges another, on another server. *)
Lemma namespace_keys_collide :
  buildNamespaceKey "peta:dev" ["tool"; "a:b"; "c"] = buildNamespaceKey "peta:dev" ["tool"; "a"; "b:c"].
Proof. reflexivity. Qed.

(** An undefined parameter and the marker object that stands for it have the
    same digest. *)
Lemma undefined_marker_collides (sha256 : string -> string) :
  canonicalizeParams sha256 (JArr [JUndefined]) [] None
  = canonicalizeParams sha256 (JArr [JObj [("__type", JStr "undefined")]]) [] None.
Proof. reflexivity. Qed.
