(* ===== verification/CachePolicy.v ===== *)
(** * Result cache: configuration and policy resolution

    [src/src/config/resultCacheConfig.ts] and
    [src/src/mcp/core/cache/CachePolicyResolver.ts].  Environment variables
    are a lookup function; objects used as maps (tools, prompts, resources,
    exact overrides) are association lists of their own properties. *)
From Stdlib Require Import Ascii ZArith Lia Sorted.
From stdpp Require Import base strings list sorting.
From S2P Require Import Prelude Json JsMap CacheKey.
Open Scope Z_scope.

(** ** The process configuration *)

Record ResultCacheConfig : Type := {
  config_enabled : bool;
  backend : string;
  strictStartup : bool;
  defaultTtlSeconds : Z;
  defaultAdmissionPolicy : string;
  defaultAdmissionWindowSeconds : Z;
  config_maxEntryBytes : Z;
  keyPrefix : string;
  compress : string;
  compressionMinBytes : Z;
  dbSweepIntervalSeconds : Z;
  dbSweepBatchSize : Z;
  memoryMaxEntries : Z;
  redisUrl : option string
}.

(** [Number.MAX_SAFE_INTEGER] *)
Definition MAX_SAFE_INTEGER : Z := 9007199254740991.

Section LoadConfig.
(** [process.env] *)
Variable env : string -> option string.

Definition parseBooleanEnv (name : string) (fallback : bool) : bool :=
  match env name with
  | None => fallback
  | Some raw =>
      let normalized := to_lower (trim raw) in
      if has normalized ["true"; "1"; "yes"; "on"] then true
      else if has normalized ["false"; "0"; "no"; "off"] then false
      else fallback
  end.

Definition clampIntEnv (name : string) (fallback min max : Z) : Z :=
  match env name with
  | None => fallback
  | Some raw =>
      match parseInt10 raw with
      | None => fallback
      | Some parsed =>
          if (parsed <? min) || (max <? parsed) then Z.max min (Z.min max parsed) else parsed
      end
  end.

Definition parseEnumEnv (name fallback : string) (allowed : list string) : string :=
  match env name with
  | None => fallback
  | Some raw =>
      let normalized := to_lower (trim raw) in
      if has normalized allowed then normalized else fallback
  end.

Definition key_prefix_env : string :=
  let p := match env "RESULT_CACHE_KEY_PREFIX" with Some r => trim r | None => ""%string end in
  if truthy_str p then p
  else "peta:" +:+ (if truthy_ostr (env "NODE_ENV") then default ""%string (env "NODE_ENV") else "dev").

Definition BACKENDS : list string := ["db"; "redis"; "memory"; "noop"].

(** The object literal [config], with the URL the last block may add. *)
Definition config_with (url : option string) : ResultCacheConfig := {|
  config_enabled := parseBooleanEnv "RESULT_CACHE_ENABLED" false;
  backend := parseEnumEnv "RESULT_CACHE_BACKEND" "db" BACKENDS;
  strictStartup := parseBooleanEnv "RESULT_CACHE_STRICT_STARTUP" false;
  defaultTtlSeconds := clampIntEnv "RESULT_CACHE_DEFAULT_TTL_SECONDS" 30 1 86400;
  defaultAdmissionPolicy :=
    parseEnumEnv "RESULT_CACHE_DEFAULT_ADMISSION_POLICY" "immediate" ["immediate"; "second_hit"];
  defaultAdmissionWindowSeconds :=
    clampIntEnv "RESULT_CACHE_DEFAULT_ADMISSION_WINDOW_SECONDS" 300 1 86400;
  config_maxEntryBytes := clampIntEnv "RESULT_CACHE_MAX_ENTRY_BYTES" 262144 1024 5242880;
  keyPrefix := key_prefix_env;
  compress := parseEnumEnv "RESULT_CACHE_COMPRESS" "auto" ["true"; "false"; "auto"];
  compressionMinBytes := clampIntEnv "RESULT_CACHE_COMPRESSION_MIN_BYTES" 4096 1 MAX_SAFE_INTEGER;
  dbSweepIntervalSeconds :=
    clampIntEnv "RESULT_CACHE_DB_SWEEP_INTERVAL_SECONDS" 300 1 MAX_SAFE_INTEGER;
  dbSweepBatchSize := clampIntEnv "RESULT_CACHE_DB_SWEEP_BATCH_SIZE" 1000 1 MAX_SAFE_INTEGER;
  memoryMaxEntries := clampIntEnv "RESULT_CACHE_MEMORY_MAX_ENTRIES" 1000 1 MAX_SAFE_INTEGER;
  redisUrl := url |}.

Definition loadResultCacheConfig : result string ResultCacheConfig :=
  if str_eqb (backend (config_with None)) "redis" then
    let url := match env "REDIS_URL" with Some u => trim u | None => ""%string end in
    if negb (truthy_str url) then
      if strictStartup (config_with None)
      then Throw "REDIS_URL is required when RESULT_CACHE_BACKEND=redis"%string
      else Ok (config_with None)
    else Ok (config_with (Some url))
  else Ok (config_with None).
End LoadConfig.

(** ** Policies *)

(** [CachePolicyConfig]; the two [key] fields are flattened. *)
Record CachePolicyConfig : Type := {
  cp_enabled : bool;
  cp_ttlSeconds : option Z;
  cp_scope : option CacheScope;
  cp_admissionPolicy : option AdmissionPolicy;
  cp_admissionWindowSeconds : option Z;
  cp_denyFields : option (list string);
  cp_allowFields : option (list string);
  cp_maxEntryBytes : option Z
}.

(** The empty object the override branches start from, with [enabled] set. *)
Definition only_enabled (b : bool) : CachePolicyConfig :=
  {| cp_enabled := b; cp_ttlSeconds := None; cp_scope := None; cp_admissionPolicy := None;
     cp_admissionWindowSeconds := None; cp_denyFields := None; cp_allowFields := None;
     cp_maxEntryBytes := None |}.

Record ResolvedCachePolicy : Type := {
  enabled : bool;
  ttlSeconds : Z;
  scope : CacheScope;
  admissionPolicy : AdmissionPolicy;
  admissionWindowSeconds : Z;
  denyFields : list string;
  allowFields : option (list string);
  maxEntryBytes : Z
}.

(** One entry of [resourceCachePolicies.exact] or [.patterns]. *)
Record ResourceOverride : Type := {
  ov_enabled : option bool;
  ov_cache : option CachePolicyConfig
}.

Record ToolConfig : Type := {
  dangerLevel : option Z;
  tool_cache : option CachePolicyConfig
}.

(** The part of [ServerConfigCapabilities] the resolver reads. *)
Record ServerConfigCapabilities : Type := {
  tools : list (string * ToolConfig);
  prompts : list (string * option CachePolicyConfig);
  resources : list (string * option CachePolicyConfig);
  exact : list (string * ResourceOverride);
  patterns : list (string * ResourceOverride)
}.

Definition MIN_TTL_SECONDS : Z := 1.
Definition MAX_TTL_SECONDS : Z := 86400.
Definition MIN_ENTRY_BYTES : Z := 1024.
Definition MAX_ENTRY_BYTES : Z := 5242880.

(** [DangerLevel.Approval] *)
Definition DangerLevel_Approval : Z := 2.

Definition isToolCacheSafe (level : option Z) : bool :=
  match level with None => true | Some d => d <? DangerLevel_Approval end.

Definition clamp (value min max : Z) : Z := Z.max min (Z.min max value).

Definition toAdmissionPolicy (value : string) : AdmissionPolicy :=
  if str_eqb value "second_hit" then SecondHit else Immediate.

(** [Array.from(new Set(l))]: first occurrences, in order. *)
Fixpoint dedup (l : list string) : list string :=
  match l with
  | [] => []
  | x :: xs => x :: List.filter (fun y => negb (str_eqb x y)) (dedup xs)
  end.

Definition resolvePolicy (globalConfig : ResultCacheConfig)
    (capabilityPolicy : option CachePolicyConfig) : option ResolvedCachePolicy :=
  match capabilityPolicy with
  | None => None
  | Some cp =>
      if negb (cp_enabled cp) then None
      else Some {|
        enabled := true;
        ttlSeconds := clamp (default (defaultTtlSeconds globalConfig) (cp_ttlSeconds cp))
                        MIN_TTL_SECONDS MAX_TTL_SECONDS;
        scope := default ScopeUser (cp_scope cp);
        admissionPolicy := default (toAdmissionPolicy (defaultAdmissionPolicy globalConfig))
                             (cp_admissionPolicy cp);
        admissionWindowSeconds :=
          clamp (default (defaultAdmissionWindowSeconds globalConfig) (cp_admissionWindowSeconds cp))
            MIN_TTL_SECONDS MAX_TTL_SECONDS;
        denyFields := dedup (default [] (cp_denyFields cp));
        allowFields := match cp_allowFields cp with
                       | Some (a :: l) => Some (a :: l)
                       | _ => None
                       end;
        maxEntryBytes := clamp (default (config_maxEntryBytes globalConfig) (cp_maxEntryBytes cp))
                           MIN_ENTRY_BYTES MAX_ENTRY_BYTES |}
  end.

Definition literalPrefix (pattern : string) : string :=
  match index_of "*" pattern with None => pattern | Some i => str_take i pattern end.

Definition matches (pattern value : string) : bool :=
  if negb (includes "*" pattern) then str_eqb value pattern
  else if ends_with "*" pattern
  then starts_with (str_take (String.length pattern - 1) pattern) value
  else str_eqb value pattern.

(** The comparison of the sort: longer literal prefixes first. *)
Definition longer_first (a b : string * ResourceOverride) : bool :=
  (String.length (literalPrefix (fst b)) <=? String.length (literalPrefix (fst a)))%nat.

Definition matchResourcePattern (patterns : list (string * ResourceOverride)) (uri : string)
    : option (string * ResourceOverride) :=
  List.find (fun candidate => matches (fst candidate) uri) (isort longer_first patterns).

(** The policy an override stands for. *)
Definition override_policy (globalConfig : ResultCacheConfig) (o : ResourceOverride)
    : option ResolvedCachePolicy :=
  if bool_decide (ov_enabled o = Some false) then None
  else resolvePolicy globalConfig
         (Some (match ov_cache o with
                | Some cache => cache
                | None => only_enabled (default true (ov_enabled o))
                end)).

Definition resolveToolPolicy (caps : ServerConfigCapabilities) (toolName : string)
    (globalConfig : ResultCacheConfig) : option ResolvedCachePolicy :=
  if negb (config_enabled globalConfig) then None
  else match assoc toolName (tools caps) with
       | None => None
       | Some toolConfig =>
           if negb (isToolCacheSafe (dangerLevel toolConfig)) then None
           else resolvePolicy globalConfig (tool_cache toolConfig)
       end.

Definition resolvePromptPolicy (caps : ServerConfigCapabilities) (promptName : string)
    (globalConfig : ResultCacheConfig) : option ResolvedCachePolicy :=
  if negb (config_enabled globalConfig) then None
  else match assoc promptName (prompts caps) with
       | None => None
       | Some cache => resolvePolicy globalConfig cache
       end.

Definition resolveResourcePolicy (caps : ServerConfigCapabilities) (uri : string)
    (resourceName : option string) (globalConfig : ResultCacheConfig) : option ResolvedCachePolicy :=
  if negb (config_enabled globalConfig) then None
  else match assoc uri (exact caps) with
       | Some exactOverride => override_policy globalConfig exactOverride
       | None =>
           match matchResourcePattern (patterns caps) uri with
           | Some (_, matchedPattern) => override_policy globalConfig matchedPattern
           | None =>
               let resourceConfig :=
                 match assoc uri (resources caps) with
                 | Some c => Some c
                 | None => if truthy_ostr resourceName
                           then assoc (default ""%string resourceName) (resources caps) else None
                 end in
               match resourceConfig with
               | None => None
               | Some cache => resolvePolicy globalConfig cache
               end
           end
       end.

(** ** Lemmas *)

Lemma clamp_bounds (value min max : Z) : min <= max -> min <= clamp value min max <= max.
Proof. unfold clamp. lia. Qed.

Lemma clampIntEnv_bounds env name (fallback min max : Z) :
  min <= fallback <= max -> min <= clampIntEnv env name fallback min max <= max.
Proof.
  intros H. unfold clampIntEnv. destruct (env name); [|done].
  destruct (parseInt10 _); [|done]. case_bool; [lia|]. to_prop. lia.
Qed.

Lemma has_In (x : string) (l : list string) : has x l = true <-> In x l.
Proof.
  unfold has. rewrite existsb_exists. split.
  - intros (y & Hin & H). apply str_eqb_eq in H. by subst.
  - intros H. exists x. split; [done|apply str_eqb_refl].
Qed.

Lemma parseEnumEnv_allowed env name fallback allowed :
  In fallback allowed -> In (parseEnumEnv env name fallback allowed) allowed.
Proof.
  intros H. unfold parseEnumEnv. destruct (env name); [|done].
  destruct (has _ allowed) eqn:E; [|done]. by apply has_In.
Qed.

(** What a usable configuration satisfies. *)
Definition config_ok (c : ResultCacheConfig) : Prop :=
  In (backend c) BACKENDS /\ 1 <= defaultTtlSeconds c <= 86400
  /\ In (defaultAdmissionPolicy c) ["immediate"; "second_hit"]%string
  /\ 1 <= defaultAdmissionWindowSeconds c <= 86400
  /\ 1024 <= config_maxEntryBytes c <= 5242880
  /\ In (compress c) ["true"; "false"; "auto"]%string
  /\ 1 <= compressionMinBytes c <= MAX_SAFE_INTEGER
  /\ 1 <= dbSweepIntervalSeconds c <= MAX_SAFE_INTEGER
  /\ 1 <= dbSweepBatchSize c <= MAX_SAFE_INTEGER
  /\ 1 <= memoryMaxEntries c <= MAX_SAFE_INTEGER
  /\ keyPrefix c <> ""%string
  /\ (strictStartup c = true -> backend c = "redis"%string -> redisUrl c <> None).

Lemma key_prefix_nonempty env : key_prefix_env env <> ""%string.
Proof.
  unfold key_prefix_env. destruct (truthy_str _) eqn:E; [|done].
  intros H. by rewrite H in E.
Qed.

Lemma config_with_ok env url :
  (strictStartup (config_with env None) = true ->
   backend (config_with env None) = "redis"%string -> url <> None) ->
  config_ok (config_with env url).
Proof.
  intros Hurl. repeat split; try (apply clampIntEnv_bounds; unfold MAX_SAFE_INTEGER; lia);
    try (apply parseEnumEnv_allowed; cbn; tauto); [apply key_prefix_nonempty|exact Hurl].
Qed.

(** Whatever the environment holds, the loaded cache configuration is
    usable: every number within its documented range, every enumeration one
    of its values, a non-empty key prefix; and loading fails only when a
    strict start-up asks for Redis without a URL. *)
Theorem config_always_valid (env : string -> option string) :
  match loadResultCacheConfig env with
  | Ok c => config_ok c
  | Throw _ => parseEnumEnv env "RESULT_CACHE_BACKEND" "db" BACKENDS = "redis"%string
               /\ parseBooleanEnv env "RESULT_CACHE_STRICT_STARTUP" false = true
               /\ match env "REDIS_URL" with Some u => trim u = ""%string | None => True end
  end.
Proof.
  unfold loadResultCacheConfig.
  destruct (str_eqb (backend _) "redis") eqn:Eb.
  - apply str_eqb_eq in Eb.
    destruct (negb (truthy_str _)) eqn:Eu; [|by apply config_with_ok].
    destruct (strictStartup _) eqn:Es.
    + repeat split; [done|done|]. destruct (env "REDIS_URL"%string) as [u|]; [|done].
      apply negb_true_iff, negb_false_iff in Eu. by apply str_eqb_eq in Eu.
    + apply config_with_ok. by rewrite Es.
  - apply config_with_ok. intros _ E. apply str_eqb_neq in Eb. done.
Qed.

(** What every resolved policy satisfies. *)
Definition policy_ok (p : ResolvedCachePolicy) : Prop :=
  enabled p = true /\ 1 <= ttlSeconds p <= 86400 /\ 1 <= admissionWindowSeconds p <= 86400
  /\ 1024 <= maxEntryBytes p <= 5242880 /\ NoDup (denyFields p) /\ allowFields p <> Some [].

Lemma dedup_NoDup (l : list string) : NoDup (dedup l).
Proof.
  assert (Hf : forall p (k : list string), NoDup k -> NoDup (List.filter p k)).
  { intros p k Hk. induction Hk as [|y k Hy Hk IH]; [constructor|]. cbn.
    destruct (p y); [|done]. constructor; [|done]. intros Hin. apply Hy.
    apply list_elem_of_In, filter_In in Hin as [Hin _]. by apply list_elem_of_In. }
  induction l as [|x l IH]; [constructor|]. cbn. constructor; [|by apply Hf].
  intros Hin. apply list_elem_of_In, filter_In in Hin as [_ Hin].
  by rewrite str_eqb_refl in Hin.
Qed.

Lemma resolvePolicy_spec (c : ResultCacheConfig) (o : option CachePolicyConfig)
    (p : ResolvedCachePolicy) :
  resolvePolicy c o = Some p ->
  policy_ok p /\ exists cp, o = Some cp /\ cp_enabled cp = true.
Proof.
  unfold resolvePolicy. destruct o as [cp|]; [|done].
  destruct (negb (cp_enabled cp)) eqn:E; [done|]. intros [= <-]. apply negb_false_iff in E.
  split; [|by exists cp]. repeat split; try (apply clamp_bounds; done).
  - apply dedup_NoDup.
  - cbn. by destruct (cp_allowFields cp) as [[|]|].
Qed.

(** A tool's results are cached only when caching is on, the tool is
    configured with an enabled cache policy and calling it needs no approval;
    the policy that results has its lifetime, admission window and entry size
    within the fixed limits, whatever the capability configuration asks for. *)
Theorem tool_policy_safe (caps : ServerConfigCapabilities) (toolName : string)
    (c : ResultCacheConfig) (p : ResolvedCachePolicy) :
  resolveToolPolicy caps toolName c = Some p ->
  config_enabled c = true /\ policy_ok p
  /\ exists t cp, assoc toolName (tools caps) = Some t /\ dangerLevel t <> Some DangerLevel_Approval
                  /\ tool_cache t = Some cp /\ cp_enabled cp = true.
Proof.
  unfold resolveToolPolicy. destruct (negb (config_enabled c)) eqn:E; [done|].
  apply negb_false_iff in E. destruct (assoc toolName (tools caps)) as [t|]; [|done].
  destruct (negb (isToolCacheSafe _)) eqn:Ed; [done|]. apply negb_false_iff in Ed.
  intros (Hp & cp & Hc & He)%resolvePolicy_spec. split; [done|]. split; [done|].
  exists t, cp. repeat split; try done. intros Hd. by rewrite Hd in Ed.
Qed.

Definition witness_policy_config : CachePolicyConfig :=
  {| cp_enabled := true; cp_ttlSeconds := Some 1000000; cp_scope := None;
     cp_admissionPolicy := None; cp_admissionWindowSeconds := Some 0;
     cp_denyFields := Some ["t"; "t"]; cp_allowFields := Some []; cp_maxEntryBytes := Some 10 |}.

Definition witness_config : ResultCacheConfig :=
  match loadResultCacheConfig (fun n => if str_eqb n "RESULT_CACHE_ENABLED" then Some "On "%string else None) with
  | Ok c => c
  | Throw _ => config_with (fun _ => None) None
  end.

Lemma tool_policy_safe_witness :
  exists p, resolveToolPolicy
    {| tools := [("get", {| dangerLevel := Some 1; tool_cache := Some witness_policy_config |})];
       prompts := []; resources := []; exact := []; patterns := [] |} "get" witness_config = Some p
    /\ policy_ok p.
Proof.
  eexists. split; [vm_compute; reflexivity|].
  refine (proj1 (proj2 (tool_policy_safe
    {| tools := [("get", {| dangerLevel := Some 1; tool_cache := Some witness_policy_config |})];
       prompts := []; resources := []; exact := []; patterns := [] |} "get" witness_config _ _))).
  vm_compute. reflexivity.
Defined.

(** ** Resource patterns *)

Section FindSorted.
Context {A : Type} (leb : A -> A -> bool) (p : A -> bool).
Hypothesis leb_total : forall x y, leb x y = true \/ leb y x = true.
Hypothesis leb_trans : forall x y z, leb x y = true -> leb y z = true -> leb x z = true.

(** The first element satisfying [p] after a stable sort, without sorting. *)
Fixpoint best (l : list A) : option A :=
  match l with
  | [] => None
  | x :: xs =>
      if p x then match best xs with
                  | Some d => if leb x d then Some x else Some d
                  | None => Some x
                  end
      else best xs
  end.

Lemma find_sorted_insert (x : A) (l : list A) :
  StronglySorted (fun a b => leb a b = true) l ->
  List.find p (isort_insert leb x l)
  = if p x then match List.find p l with
                | Some d => if leb x d then Some x else Some d
                | None => Some x
                end
    else List.find p l.
Proof using leb_trans.
  induction 1 as [|y l Hl IH Hy]; [done|]. cbn [isort_insert].
  destruct (leb x y) eqn:Hxy; cbn [List.find].
  - destruct (p x); [|done]. destruct (p y); [by rewrite Hxy|].
    destruct (List.find p l) as [d|] eqn:Hd; [|done].
    apply find_some in Hd as [Hin _]. rewrite Forall_forall in Hy.
    by rewrite (leb_trans x y d) by (done || by apply Hy, list_elem_of_In).
  - rewrite IH. destruct (p y); [|done]. destruct (p x); [by rewrite Hxy|done].
Qed.

Lemma find_isort (l : list A) : List.find p (isort leb l) = best l.
Proof using leb_total leb_trans.
  induction l as [|x l IH]; [done|]. cbn [isort best].
  rewrite find_sorted_insert by (by apply isort_sorted). by rewrite IH.
Qed.

Lemma best_None (l : list A) : best l = None <-> Forall (fun d => p d = false) l.
Proof using.
  induction l as [|x l IH]; [by split|]. cbn [best]. rewrite Forall_cons, <- IH.
  destruct (p x); [|tauto]. destruct (best l) as [d|]; [destruct (leb x d)|]; by split; [|intros []].
Qed.

(** [best] is the earliest of the least satisfying elements. *)
Lemma best_Some (l : list A) (c : A) :
  best l = Some c <->
  exists l1 l2, l = l1 ++ c :: l2 /\ p c = true
    /\ Forall (fun d => p d = true -> leb d c = false) l1
    /\ Forall (fun d => p d = true -> leb c d = true) l2.
Proof using leb_total leb_trans.
  assert (Hirr : forall x y, leb x y = false -> leb y x = true)
    by (intros x y H; destruct (leb_total x y); congruence).
  revert c. induction l as [|x l IH]; intros c.
  - split; [done|]. by intros ([|] & l2 & H & _).
  - cbn [best]. split.
    + destruct (p x) eqn:Hx; [destruct (best l) as [d|] eqn:Hb; [destruct (leb x d) eqn:Hxd|]|].
      * intros [= <-]. exists [], l. repeat split; [done|constructor|].
        destruct (proj1 (IH d) eq_refl) as (l1 & l2 & -> & Hd & H1 & H2). apply Forall_app. split.
        -- eapply Forall_impl; [exact H1|]. cbn. intros e He Hp. eauto.
        -- constructor; [done|]. eapply Forall_impl; [exact H2|]. cbn. eauto.
      * intros [= <-]. destruct (proj1 (IH d) eq_refl) as (l1 & l2 & -> & Hd & H1 & H2).
        exists (x :: l1), l2. repeat split; [done| |done]. by constructor.
      * intros [= <-]. exists [], l. repeat split; [done|constructor|].
        apply best_None in Hb. eapply Forall_impl; [exact Hb|]. cbn. congruence.
      * intros Hb. apply IH in Hb as (l1 & l2 & -> & Hd & H1 & H2).
        exists (x :: l1), l2. repeat split; [done| |done]. constructor; [congruence|done].
    + intros ([|y l1] & l2 & E & Hc & H1 & H2); simplify_list_eq.
      * rewrite Hc. destruct (best l2) as [d|] eqn:Hb; [|done].
        destruct (proj1 (IH d) eq_refl) as (k1 & k2 & -> & Hd & _). rewrite Forall_forall in H2.
        rewrite (H2 d); [done| |done]. apply elem_of_app. right. by left.
      * inversion_clear H1 as [|? ? Hy H1'].
        assert (best (l1 ++ c :: l2) = Some c) as -> by (apply IH; by exists l1, l2).
        destruct (p y); [by rewrite Hy|done].
Qed.
End FindSorted.

Lemma longer_first_total a b : longer_first a b = true \/ longer_first b a = true.
Proof. unfold longer_first. rewrite !Nat.leb_le. lia. Qed.

Lemma longer_first_trans a b c :
  longer_first a b = true -> longer_first b c = true -> longer_first a c = true.
Proof. unfold longer_first. rewrite !Nat.leb_le. lia. Qed.

(** Length of the part of a pattern before its first wildcard. *)
Definition prefix_length (c : string * ResourceOverride) : nat :=
  String.length (literalPrefix (fst c)).

(** Without an exact entry for the address, the pattern that decides a
    resource's cache policy is the earliest listed of the matching patterns
    with the longest literal prefix; sorting the list first is only the way
    the code finds it. *)
Theorem resource_pattern_longest (ps : list (string * ResourceOverride)) (uri : string)
    (c : string * ResourceOverride) :
  matchResourcePattern ps uri = Some c <->
  exists l1 l2, ps = l1 ++ c :: l2 /\ matches (fst c) uri = true
    /\ Forall (fun d => matches (fst d) uri = true -> (prefix_length d < prefix_length c)%nat) l1
    /\ Forall (fun d => matches (fst d) uri = true -> (prefix_length d <= prefix_length c)%nat) l2.
Proof.
  unfold matchResourcePattern.
  rewrite (find_isort _ _ longer_first_total longer_first_trans).
  rewrite (best_Some _ _ longer_first_total longer_first_trans).
  unfold longer_first. setoid_rewrite Nat.leb_gt. by setoid_rewrite Nat.leb_le.
Qed.
