(* ===== verification/CacheSerializer.v ===== *)
(** * Result cache: entry envelopes and their serialised form

    [src/src/mcp/core/cache/CacheSerializer.ts].  A buffer is a string of
    bytes.  [gzipSync] and [gunzipSync] (Node's [zlib]) are parameters;
    [None] is the exception they throw.  UTF-8 is written out for the code
    units the model's strings have (below 256). *)
From Stdlib Require Import Ascii ZArith Lia.
From stdpp Require Import base strings list.
From S2P Require Import Prelude Json JsMap CacheKey.
Open Scope Z_scope.

(** ** UTF-8 *)

(** [Buffer.from(s, 'utf8')] *)
Fixpoint utf8_encode (s : string) : string :=
  match s with
  | EmptyString => ""
  | String c s' =>
      let n := nat_of_ascii c in
      if (n <? 128)%nat then String c (utf8_encode s')
      else String (ascii_of_nat (192 + n / 64)) (String (ascii_of_nat (128 + n mod 64)) (utf8_encode s'))
  end.

(** [buffer.toString('utf8')]; [None] when the text has units outside the
    model's strings (a code point above 255 or a replacement character). *)
Fixpoint utf8_decode (s : string) : option string :=
  match s with
  | EmptyString => Some ""%string
  | String c s' =>
      let n := nat_of_ascii c in
      if (n <? 128)%nat then String c <$> utf8_decode s'
      else match s' with
           | String d s'' =>
               let m := nat_of_ascii d in
               if ((n =? 194) || (n =? 195))%nat && ((128 <=? m) && (m <? 192))%nat
               then String (ascii_of_nat ((n - 192) * 64 + (m - 128))) <$> utf8_decode s''
               else None
           | EmptyString => None
           end
  end.

(** [Buffer.utf8_byteLength(s, 'utf8')] *)
Definition utf8_byteLength (s : string) : Z := Z.of_nat (String.length (utf8_encode s)).

Lemma utf8_char (c : ascii) (s : string) :
  utf8_decode (utf8_encode (String c s)) = String c <$> utf8_decode (utf8_encode s).
Proof.
  cbn [utf8_encode]. destruct c as [[] [] [] [] [] [] [] []]; reflexivity.
Qed.

Lemma utf8_roundtrip (s : string) : utf8_decode (utf8_encode s) = Some s.
Proof. induction s as [|c s IH]; [done|]. by rewrite utf8_char, IH. Qed.

(** ** Envelopes *)

Inductive PayloadEncoding : Type := EncJson | EncGzipJson.

Definition encoding_text (e : PayloadEncoding) : string :=
  match e with EncJson => "json" | EncGzipJson => "gzip-json" end.

Record CacheEntryEnvelope : Type := {
  schemaVersion : Z;
  operation : CacheOperationType;
  serverId : string;
  entityId : string;
  scopeType : CacheScope;
  scopeHash : string;
  createdAt : string;
  env_ttlSeconds : Z;
  env_admissionPolicy : AdmissionPolicy;
  admittedAfterObservations : Z;
  payloadEncoding : PayloadEncoding;
  payloadBytes : Z;
  requestHash : string;
  payload : json
}.

(** [createEnvelope]; [createdAt] is [new Date().toISOString()]. *)
Definition createEnvelope (createdAt : string) (operation : CacheOperationType)
    (serverId entityId : string) (scopeType : CacheScope) (scopeHash : string) (ttlSeconds : Z)
    (admissionPolicy : AdmissionPolicy) (admittedAfterObservations : Z) (requestHash : string)
    (payload : json) (payloadBytes : Z) (payloadEncoding : option PayloadEncoding) : CacheEntryEnvelope :=
  {| schemaVersion := 1; operation := operation; serverId := serverId; entityId := entityId;
     scopeType := scopeType; scopeHash := scopeHash; createdAt := createdAt;
     env_ttlSeconds := ttlSeconds; env_admissionPolicy := admissionPolicy;
     admittedAfterObservations := admittedAfterObservations;
     payloadEncoding := default EncJson payloadEncoding; payloadBytes := payloadBytes;
     requestHash := requestHash; payload := payload |}.

(** The envelope as the object that is stringified, in the literal's order. *)
Definition envelope_json (e : CacheEntryEnvelope) : json :=
  JObj [("schemaVersion", JNum (schemaVersion e));
        ("operation", JStr (operation_text (operation e)));
        ("serverId", JStr (serverId e));
        ("entityId", JStr (entityId e));
        ("scopeType", JStr (scope_text (scopeType e)));
        ("scopeHash", JStr (scopeHash e));
        ("createdAt", JStr (createdAt e));
        ("ttlSeconds", JNum (env_ttlSeconds e));
        ("admissionPolicy", JStr (admission_text (env_admissionPolicy e)));
        ("admittedAfterObservations", JNum (admittedAfterObservations e));
        ("payloadEncoding", JStr (encoding_text (payloadEncoding e)));
        ("payloadBytes", JNum (payloadBytes e));
        ("requestHash", JStr (requestHash e));
        ("payload", payload e)].

Definition set_encoding (enc : PayloadEncoding) (e : CacheEntryEnvelope) : CacheEntryEnvelope :=
  {| schemaVersion := schemaVersion e; operation := operation e; serverId := serverId e;
     entityId := entityId e; scopeType := scopeType e; scopeHash := scopeHash e;
     createdAt := createdAt e; env_ttlSeconds := env_ttlSeconds e;
     env_admissionPolicy := env_admissionPolicy e;
     admittedAfterObservations := admittedAfterObservations e; payloadEncoding := enc;
     payloadBytes := payloadBytes e; requestHash := requestHash e; payload := payload e |}.

(** ** Reading an envelope back: the field tests of [isValidEnvelope] *)

Definition as_num (v : option json) : option Z :=
  match v with Some (JNum n) => Some n | _ => None end.
Definition as_str (v : option json) : option string :=
  match v with Some (JStr s) => Some s | _ => None end.

Definition as_operation (v : option json) : option CacheOperationType :=
  match as_str v with
  | Some s => if str_eqb s "tool" then Some OpTool
              else if str_eqb s "resource" then Some OpResource
              else if str_eqb s "prompt" then Some OpPrompt else None
  | None => None
  end.
Definition as_scope (v : option json) : option CacheScope :=
  match as_str v with
  | Some s => if str_eqb s "user" then Some ScopeUser
              else if str_eqb s "tenant" then Some ScopeTenant
              else if str_eqb s "global" then Some ScopeGlobal else None
  | None => None
  end.
Definition as_admission (v : option json) : option AdmissionPolicy :=
  match as_str v with
  | Some s => if str_eqb s "immediate" then Some Immediate
              else if str_eqb s "second_hit" then Some SecondHit else None
  | None => None
  end.
Definition as_encoding (v : option json) : option PayloadEncoding :=
  match as_str v with
  | Some s => if str_eqb s "json" then Some EncJson
              else if str_eqb s "gzip-json" then Some EncGzipJson else None
  | None => None
  end.

(** [isValidEnvelope(parsed)] together with the fields it has checked. *)
Definition isValidEnvelope (parsed : json) : option CacheEntryEnvelope :=
  match parsed with
  | JObj kvs =>
      let field := fun k => assoc k kvs in
      sv ← as_num (field "schemaVersion"); op ← as_operation (field "operation");
      srv ← as_str (field "serverId"); ent ← as_str (field "entityId");
      sc ← as_scope (field "scopeType"); sh ← as_str (field "scopeHash");
      cr ← as_str (field "createdAt"); ttl ← as_num (field "ttlSeconds");
      adm ← as_admission (field "admissionPolicy");
      obs ← as_num (field "admittedAfterObservations");
      enc ← as_encoding (field "payloadEncoding"); pb ← as_num (field "payloadBytes");
      rh ← as_str (field "requestHash"); p ← field "payload";
      Some {| schemaVersion := sv; operation := op; serverId := srv; entityId := ent;
              scopeType := sc; scopeHash := sh; createdAt := cr; env_ttlSeconds := ttl;
              env_admissionPolicy := adm; admittedAfterObservations := obs;
              payloadEncoding := enc; payloadBytes := pb; requestHash := rh; payload := p |}
  | _ => None
  end.

(** [isGzipBuffer] *)
Definition isGzipBuffer (b : string) : bool :=
  match b with
  | String b0 (String b1 _) => (nat_of_ascii b0 =? 31)%nat && (nat_of_ascii b1 =? 139)%nat
  | _ => false
  end.

Section Serializer.
Variable gzipSync : string -> string.
Variable gunzipSync : string -> option string.

Definition serialize (envelope : CacheEntryEnvelope) (compress : bool) (compressionMinBytes : Z)
    : string :=
  let useCompression := compress && (compressionMinBytes <=? payloadBytes envelope) in
  let encoding := if useCompression then EncGzipJson else EncJson in
  let jsonBuffer := utf8_encode (text (envelope_json (set_encoding encoding envelope))) in
  if useCompression then gzipSync jsonBuffer else jsonBuffer.

Definition deserialize (buffer : string) : option CacheEntryEnvelope :=
  if str_eqb buffer "" then None
  else
    let gzipped := isGzipBuffer buffer in
    match (if gzipped then gunzipSync buffer else Some buffer) with
    | None => None
    | Some payloadBuffer =>
        match utf8_decode payloadBuffer ≫= JSON_parse with
        | None => None
        | Some parsed =>
            match isValidEnvelope parsed with
            | None => None
            | Some e => if negb (schemaVersion e =? 1) then None
                        else Some (if gzipped then set_encoding EncGzipJson e else e)
            end
        end
    end.
End Serializer.

(** ** Round trip *)

Lemma is_json_envelope (e : CacheEntryEnvelope) :
  is_json (payload e) = true -> is_json (envelope_json e) = true.
Proof. intros H. unfold envelope_json. cbn -[js_ordered]. by rewrite H. Qed.

Lemma isValidEnvelope_json (e : CacheEntryEnvelope) :
  isValidEnvelope (envelope_json e) = Some e.
Proof. destruct e as [? [] ? ? [] ? ? ? [] ? [] ? ? ?]; reflexivity. Qed.

Lemma envelope_text_head (e : CacheEntryEnvelope) :
  is_json (payload e) = true ->
  exists s, utf8_encode (text (envelope_json e)) = String "{"%char s.
Proof. intros _. by eexists. Qed.

Lemma parse_envelope (e : CacheEntryEnvelope) :
  is_json (payload e) = true ->
  utf8_decode (utf8_encode (text (envelope_json e))) ≫= JSON_parse = Some (envelope_json e).
Proof.
  intros H. rewrite utf8_roundtrip. cbn [mbind option_bind].
  by apply reads_as_parse, reads_as_text, is_json_envelope.
Qed.

Section Roundtrip.
Variables (gzipSync : string -> string) (gunzipSync : string -> option string).
Hypothesis Hgz : forall b, gunzipSync (gzipSync b) = Some b.
Hypothesis Hmagic : forall b, isGzipBuffer (gzipSync b) = true.

Lemma serializer_reads (e : CacheEntryEnvelope) (compress : bool) (minBytes : Z) :
  schemaVersion e = 1 -> is_json (payload e) = true ->
  deserialize gunzipSync (serialize gzipSync e compress minBytes)
  = Some (set_encoding (if compress && (minBytes <=? payloadBytes e) then EncGzipJson else EncJson) e).
Proof.
  intros Hv Hj. unfold serialize, deserialize.
  set (enc := if compress && (minBytes <=? payloadBytes e) then EncGzipJson else EncJson).
  assert (Hj' : is_json (payload (set_encoding enc e)) = true) by done.
  destruct (compress && (minBytes <=? payloadBytes e)).
  - assert (str_eqb (gzipSync (utf8_encode (text (envelope_json (set_encoding enc e))))) "" = false) as ->.
    { apply str_eqb_neq. intros E.
      pose proof (Hmagic (utf8_encode (text (envelope_json (set_encoding enc e))))) as H.
      by rewrite E in H. }
    rewrite Hmagic, Hgz, parse_envelope, isValidEnvelope_json by done. cbn. by rewrite Hv.
  - pose proof (parse_envelope _ Hj') as Hp. destruct (envelope_text_head _ Hj') as [s Hs].
    rewrite Hs in *.
    assert (isGzipBuffer (String "{" s) = false) as -> by (by destruct s). cbn iota.
    assert (str_eqb (String "{" s) "" = false) as -> by done.
    rewrite Hp, isValidEnvelope_json. cbn. by rewrite Hv.
Qed.
End Roundtrip.

(** A serialised cache entry is read back as it was written, with the
    encoding it was written in: for any envelope of the current schema whose
    payload is a JSON value, compressed or not (decompression undoing
    compression and compressed buffers carrying the gzip magic bytes). *)
Theorem serializer_roundtrip (gzipSync : string -> string) (gunzipSync : string -> option string)
    (e : CacheEntryEnvelope) (compress : bool) (minBytes : Z) :
  (forall b, gunzipSync (gzipSync b) = Some b) ->
  (forall b, isGzipBuffer (gzipSync b) = true) ->
  schemaVersion e = 1 -> is_json (payload e) = true ->
  deserialize gunzipSync (serialize gzipSync e compress minBytes)
  = Some (set_encoding (if compress && (minBytes <=? payloadBytes e) then EncGzipJson else EncJson) e).
Proof. intros. by apply serializer_reads. Qed.

(** A stand-in for gzip in the witnesses: the magic bytes before the text. *)
Definition toy_gzip (b : string) : string :=
  String (ascii_of_nat 31) (String (ascii_of_nat 139) b).
Definition toy_gunzip (b : string) : option string := Some (str_drop 2 b).

Lemma serializer_roundtrip_witness :
  let e := createEnvelope "2026-01-01T00:00:00.000Z" OpTool "srv" "get" ScopeUser "h" 30 SecondHit 2
             "r" (JObj [("content", JArr [JStr "x"])]) 20 None in
  deserialize toy_gunzip (serialize toy_gzip e true 10) = Some (set_encoding EncGzipJson e).
Proof.
  intros e. apply (serializer_roundtrip toy_gzip toy_gunzip e true 10); reflexivity.
Defined.
