(* ===== verification/CacheStore.v ===== *)
(** * Result cache: the store interface and its implementations

    [src/src/mcp/core/cache/stores/ResultCacheStore.ts] is the class
    [ResultCacheStore]; what its clients rely on is the class
    [ResultCacheStoreLaws], which the in-memory store
    ([MemoryResultCacheStore.ts]) and the database store
    ([DbResultCacheStore.ts] with the three repositories it calls) are shown to
    satisfy.  Operations take the process's clock ([Date.now()], in
    milliseconds) where the code reads it. *)
From Stdlib Require Import Ascii ZArith Lia.
From stdpp Require Import base gmap strings list fin_maps.
From S2P Require Import Prelude Json JsMap CacheKey CachePolicy CacheSerializer.
Open Scope Z_scope.

(** ** The interface *)

Class ResultCacheStore (S : Type) : Type := {
  store_get : Z -> string -> M S string (option string);
  store_set : Z -> string -> string -> Z -> M S string unit;
  store_delete : string -> M S string unit;
  store_recordAdmissionAttempt : Z -> string -> Z -> M S string Z;
  store_getAdmissionCount : Z -> string -> M S string Z;
  store_clearAdmission : string -> M S string unit;
  store_getNamespaceVersion : string -> M S string Z;
  store_bumpNamespaceVersion : string -> M S string Z
}.

(** What the manager relies on.  [readable s k v]: the entry [v] is in the
    store under [k], so that a [get] may return it; [version s k]: the
    version of a namespace; [attempts s now k]: the observations counted. *)
Class ResultCacheStoreLaws (S : Type) `{ResultCacheStore S} : Type := {
  readable : S -> string -> string -> Prop;
  version : S -> string -> Z;
  attempts : S -> Z -> string -> Z;

  (** An operation other than [set] makes nothing readable. *)
  get_readable now k s k' v : readable (snd (store_get now k s)) k' v -> readable s k' v;
  delete_readable k s k' v : readable (snd (store_delete k s)) k' v -> readable s k' v;
  record_readable now k w s k' v :
    readable (snd (store_recordAdmissionAttempt now k w s)) k' v -> readable s k' v;
  clear_readable k s k' v : readable (snd (store_clearAdmission k s)) k' v -> readable s k' v;
  version_readable k s k' v : readable (snd (store_getNamespaceVersion k s)) k' v -> readable s k' v;
  bump_readable k s k' v : readable (snd (store_bumpNamespaceVersion k s)) k' v -> readable s k' v;
  set_readable now k v ttl s k' v' :
    readable (snd (store_set now k v ttl s)) k' v' -> readable s k' v' \/ (k' = k /\ v' = v);

  (** Only [bump] changes a version, and only upwards. *)
  get_version now k s : version (snd (store_get now k s)) = version s;
  delete_version k s : version (snd (store_delete k s)) = version s;
  record_version now k w s : version (snd (store_recordAdmissionAttempt now k w s)) = version s;
  clear_version k s : version (snd (store_clearAdmission k s)) = version s;
  version_version k s : version (snd (store_getNamespaceVersion k s)) = version s;
  set_version now k v ttl s : version (snd (store_set now k v ttl s)) = version s;
  bump_version k s k' : version s k' <= version (snd (store_bumpNamespaceVersion k s)) k';
  bump_ok k s n : fst (store_bumpNamespaceVersion k s) = Ok n ->
    version (snd (store_bumpNamespaceVersion k s)) k = version s k + 1;

  (** Reading a version leaves the observations alone. *)
  version_attempts k s : attempts (snd (store_getNamespaceVersion k s)) = attempts s;

  (** Results of the reading operations. *)
  get_ok now k s v : fst (store_get now k s) = Ok (Some v) -> readable s k v;
  getVersion_ok k s n : fst (store_getNamespaceVersion k s) = Ok n -> n = version s k;
  record_ok now k w s n : fst (store_recordAdmissionAttempt now k w s) = Ok n ->
    n = attempts s now k + 1;

  (** After a successful [set] nothing else is read under its key. *)
  set_get now k v ttl s : fst (store_set now k v ttl s) = Ok tt ->
    (forall w, readable (snd (store_set now k v ttl s)) k w -> w = v)
}.

(** ** The in-memory store *)

Module Memory.

Record MemoryEntry : Type := { value : string; expiresAt : Z }.
Record AdmissionEntry : Type := { count : Z; windowEnd : Z }.

(** The three maps, in insertion order. *)
Record MemoryResultCacheStore : Type := {
  entries : list (string * MemoryEntry);
  admissions : list (string * AdmissionEntry);
  namespaces : list (string * Z);
  maxEntries : Z
}.

Definition memory_empty (maxEntries : Z) : MemoryResultCacheStore :=
  {| entries := []; admissions := []; namespaces := []; maxEntries := maxEntries |}.

Definition set_entries e s : MemoryResultCacheStore :=
  {| entries := e; admissions := admissions s; namespaces := namespaces s; maxEntries := maxEntries s |}.
Definition set_admissions a s : MemoryResultCacheStore :=
  {| entries := entries s; admissions := a; namespaces := namespaces s; maxEntries := maxEntries s |}.
Definition set_namespaces n s : MemoryResultCacheStore :=
  {| entries := entries s; admissions := admissions s; namespaces := n; maxEntries := maxEntries s |}.

Notation Mem A := (M MemoryResultCacheStore string A).

Definition get (now : Z) (entryKey : string) : Mem (option string) := fun s =>
  match assoc entryKey (entries s) with
  | None => (Ok None, s)
  | Some entry =>
      if expiresAt entry <=? now then (Ok None, set_entries (map_delete entryKey (entries s)) s)
      else (Ok (Some (value entry)), s)
  end.

(** The bindings that have not expired. *)
Definition live_entries (now : Z) (es : list (string * MemoryEntry)) : list (string * MemoryEntry) :=
  List.filter (fun kv => negb (expiresAt (snd kv) <=? now)) es.

(** The loop of [evictOldest]: the first key with the least expiry. *)
Fixpoint oldest (es : list (string * MemoryEntry)) (best : option (string * Z)) : option (string * Z) :=
  match es with
  | [] => best
  | (key, entry) :: es' =>
      oldest es' (match best with
                  | Some (_, oldestExpiry) =>
                      if expiresAt entry <? oldestExpiry then Some (key, expiresAt entry) else best
                  | None => Some (key, expiresAt entry)
                  end)
  end.

Definition evictOldest (now : Z) (s : MemoryResultCacheStore) : MemoryResultCacheStore :=
  let s := set_entries (live_entries now (entries s)) s in
  if maxEntries s <=? Z.of_nat (length (entries s)) then
    match oldest (entries s) None with
    | Some (oldestKey, _) =>
        if truthy_str oldestKey then set_entries (map_delete oldestKey (entries s)) s else s
    | None => s
    end
  else s.

Definition set (now : Z) (entryKey v : string) (ttlSeconds : Z) : Mem unit := fun s =>
  let s := if (maxEntries s <=? Z.of_nat (length (entries s))) && negb (map_has entryKey (entries s))
           then evictOldest now s else s in
  (Ok tt, set_entries (map_set entryKey {| value := v; expiresAt := now + ttlSeconds * 1000 |} (entries s)) s).

Definition delete (entryKey : string) : Mem unit := fun s =>
  (Ok tt, set_entries (map_delete entryKey (entries s)) s).

Definition recordAdmissionAttempt (now : Z) (admissionKey : string) (windowSeconds : Z) : Mem Z := fun s =>
  let fresh := (Ok 1, set_admissions (map_set admissionKey
                  {| count := 1; windowEnd := now + windowSeconds * 1000 |} (admissions s)) s) in
  match assoc admissionKey (admissions s) with
  | Some existing =>
      if now <? windowEnd existing
      then (Ok (count existing + 1),
            set_admissions (map_set admissionKey
              {| count := count existing + 1; windowEnd := windowEnd existing |} (admissions s)) s)
      else fresh
  | None => fresh
  end.

Definition getAdmissionCount (now : Z) (admissionKey : string) : Mem Z := fun s =>
  match assoc admissionKey (admissions s) with
  | Some existing => if windowEnd existing <=? now then (Ok 0, s) else (Ok (count existing), s)
  | None => (Ok 0, s)
  end.

Definition clearAdmission (admissionKey : string) : Mem unit := fun s =>
  (Ok tt, set_admissions (map_delete admissionKey (admissions s)) s).

Definition getNamespaceVersion (namespaceKey : string) : Mem Z := fun s =>
  (Ok (default 0 (assoc namespaceKey (namespaces s))), s).

Definition bumpNamespaceVersion (namespaceKey : string) : Mem Z := fun s =>
  let next := default 0 (assoc namespaceKey (namespaces s)) + 1 in
  (Ok next, set_namespaces (map_set namespaceKey next (namespaces s)) s).

(** The timer's task. *)
Definition sweep_expired (now : Z) (s : MemoryResultCacheStore) : MemoryResultCacheStore :=
  {| entries := live_entries now (entries s);
     admissions := List.filter (fun kv => negb (windowEnd (snd kv) <=? now)) (admissions s);
     namespaces := namespaces s; maxEntries := maxEntries s |}.

Definition close (s : MemoryResultCacheStore) : MemoryResultCacheStore := memory_empty (maxEntries s).

#[export] Instance memory_store : ResultCacheStore MemoryResultCacheStore := {
  store_get := get;
  store_set := set;
  store_delete := delete;
  store_recordAdmissionAttempt := recordAdmissionAttempt;
  store_getAdmissionCount := getAdmissionCount;
  store_clearAdmission := clearAdmission;
  store_getNamespaceVersion := getNamespaceVersion;
  store_bumpNamespaceVersion := bumpNamespaceVersion
}.


Definition readable_entry (s : MemoryResultCacheStore) (k v : string) : Prop :=
  exists e, In (k, e) (entries s) /\ value e = v.

Lemma evictOldest_entries now s kv : In kv (entries (evictOldest now s)) -> In kv (entries s).
Proof.
  unfold evictOldest, live_entries. destruct kv as [k v].
  case_bool; cbn; [|intros [? _]%filter_In; done].
  destruct (oldest _ _) as [[o x]|]; [|intros [? _]%filter_In; done].
  case_bool; cbn; [intros [[? _]%filter_In _]%In_map_delete|intros [? _]%filter_In]; done.
Qed.

Lemma evictOldest_frame now s :
  namespaces (evictOldest now s) = namespaces s /\ maxEntries (evictOldest now s) = maxEntries s
  /\ admissions (evictOldest now s) = admissions s.
Proof. unfold evictOldest. case_bool; [|done]. destruct (oldest _ _) as [[o x]|]; [|done]. by case_bool. Qed.

Lemma get_entries now k s kv : In kv (entries (snd (get now k s))) -> In kv (entries s).
Proof.
  unfold get. destruct (assoc k (entries s)) as [e|]; [|done]. case_bool; [|done].
  destruct kv. cbn. by intros [? _]%In_map_delete.
Qed.

Lemma set_entries_spec now k v ttl s k' e :
  In (k', e) (entries (snd (set now k v ttl s))) ->
  (k' = k /\ e = {| value := v; expiresAt := now + ttl * 1000 |}) \/ (k' <> k /\ In (k', e) (entries s)).
Proof.
  unfold set. cbn. intros [H|[Hk Hin]]%In_map_set; [by left|right]. split; [done|].
  destruct (_ && _); [by apply evictOldest_entries in Hin|done].
Qed.

#[export] Instance memory_laws : ResultCacheStoreLaws MemoryResultCacheStore.
Proof.
  refine {|
    readable := readable_entry;
    version := fun s k => default 0 (assoc k (namespaces s));
    attempts := fun s now k => match fst (getAdmissionCount now k s) with Ok n => n | Throw _ => 0 end
  |}.
  all: cbn [store_get store_set store_delete store_recordAdmissionAttempt store_getAdmissionCount
            store_clearAdmission store_getNamespaceVersion store_bumpNamespaceVersion memory_store].
  - intros now k s k' v (e & Hin & He). exists e. split; [by apply get_entries in Hin|done].
  - intros k s k' v (e & Hin & He). exists e. split; [by apply In_map_delete in Hin as [? _]|done].
  - intros now k w s k' v. unfold recordAdmissionAttempt.
    destruct (assoc k (admissions s)); [case_bool|]; done.
  - done.
  - done.
  - done.
  - intros now k v ttl s k' v' (e & Hin & He).
    apply set_entries_spec in Hin as [[-> ->]|[_ Hin]]; [by right|left; by exists e].
  - intros now k s. unfold get. destruct (assoc k (entries s)); [case_bool|]; done.
  - done.
  - intros now k w s. unfold recordAdmissionAttempt.
    destruct (assoc k (admissions s)); [case_bool|]; done.
  - done.
  - done.
  - intros now k v ttl s. unfold set. cbn. destruct (_ && _); [|done].
    by destruct (evictOldest_frame now s) as (-> & _).
  - intros k s k'. cbn. rewrite assoc_map_set. destruct (str_eqb k' k) eqn:E; [|done].
    apply str_eqb_eq in E as ->. cbn. lia.
  - intros k s n [= <-]. cbn. by rewrite assoc_map_set, str_eqb_refl.
  - done.
  - intros now k s v. unfold get. destruct (assoc k (entries s)) as [e|] eqn:E; [|done].
    case_bool; [done|]. intros [= <-]. exists e. split; [by apply assoc_In|done].
  - by intros k s n [= <-].
  - intros now k w s n. unfold recordAdmissionAttempt, getAdmissionCount.
    destruct (assoc k (admissions s)) as [e|]; [|by intros [= <-]].
    rewrite Z.leb_antisym. destruct (now <? windowEnd e); cbn; by intros [= <-].
  - intros now k v ttl s _ w (e & Hin & He).
    apply set_entries_spec in Hin as [[_ ->]|[Hk _]]; [done|by destruct Hk].
Defined.

(** ** Behaviour of the in-memory store *)

Definition within_capacity (s : MemoryResultCacheStore) : Prop :=
  Z.of_nat (length (entries s)) <= maxEntries s.

Lemma length_live now es : (length (live_entries now es) <= length es)%nat.
Proof. apply filter_length_le. Qed.

Lemma oldest_In es best k x :
  oldest es best = Some (k, x) -> best = Some (k, x) \/ exists e, In (k, e) es.
Proof.
  revert best. induction es as [|[a e] es IH]; intros best H; [by left|]. cbn in H.
  apply IH in H as [H|[e' H]]; [|right; exists e'; by right].
  destruct best as [[b y]|]; [case_bool|]; simplify_eq; try (by left); right; exists e; by left.
Qed.

Lemma oldest_started es b : oldest es (Some b) <> None.
Proof. revert b. induction es as [|[a e] es IH]; intros [k y]; [done|]. cbn. case_bool; apply IH. Qed.

Lemma oldest_None es best : oldest es best = None -> es = [].
Proof.
  destruct es as [|[a e] es]; [done|]. cbn. intros E. exfalso. revert E.
  destruct best as [[b y]|]; [case_bool|]; apply oldest_started.
Qed.

(** Evicting from a full store makes room, when no key is empty. *)
Lemma evictOldest_room now s :
  0 < maxEntries s -> within_capacity s -> Forall (fun kv => fst kv <> ""%string) (entries s) ->
  Z.of_nat (length (entries (evictOldest now s))) < maxEntries s.
Proof.
  intros Hm Hc Hk. unfold evictOldest. set (s1 := set_entries (live_entries now (entries s)) s).
  pose proof (length_live now (entries s)) as Hl. unfold within_capacity in Hc.
  destruct (maxEntries s1 <=? Z.of_nat (length (entries s1))) eqn:E; to_prop; [|done].
  destruct (oldest (entries s1) None) as [[o x]|] eqn:Ho.
  - apply oldest_In in Ho as [?|[e Hin]]; [done|].
    assert (Hne : o <> ""%string).
    { rewrite Forall_forall in Hk. apply (Hk (o, e)), list_elem_of_In.
      by apply filter_In in Hin as [? _]. }
    assert (truthy_str o = true) as -> by (apply negb_true_iff; by apply str_eqb_neq).
    apply length_map_delete in Hin. cbn [set_entries entries s1] in *. lia.
  - apply oldest_None in Ho. rewrite Ho in E. cbn in E. lia.
Qed.


(** The operations that change the store, the timer's included. *)
Inductive mem_op : Type :=
| MGet (now : Z) (k : string)
| MSet (now : Z) (k v : string) (ttl : Z)
| MDelete (k : string)
| MRecord (now : Z) (k : string) (window : Z)
| MClear (k : string)
| MBump (k : string)
| MSweep (now : Z).

Definition run_op (o : mem_op) (s : MemoryResultCacheStore) : MemoryResultCacheStore :=
  match o with
  | MGet now k => snd (get now k s)
  | MSet now k v ttl => snd (set now k v ttl s)
  | MDelete k => snd (delete k s)
  | MRecord now k w => snd (recordAdmissionAttempt now k w s)
  | MClear k => snd (clearAdmission k s)
  | MBump k => snd (bumpNamespaceVersion k s)
  | MSweep now => sweep_expired now s
  end.

Definition op_key_ok (o : mem_op) : Prop :=
  match o with MSet _ k _ _ => k <> ""%string | _ => True end.

Definition store_inv (s : MemoryResultCacheStore) : Prop :=
  within_capacity s /\ Forall (fun kv => fst kv <> ""%string) (entries s).

Lemma run_op_max o s : maxEntries (run_op o s) = maxEntries s.
Proof.
  destruct o; cbn; try done.
  - unfold get. destruct (assoc k (entries s)); [case_bool|]; done.
  - destruct (_ && _); [|done]. by destruct (evictOldest_frame now s) as (_ & -> & _).
  - unfold recordAdmissionAttempt. destruct (assoc k (admissions s)); [case_bool|]; done.
Qed.

(** A state with fewer entries keeps the invariant. *)
Lemma store_inv_shrink s s' :
  store_inv s -> maxEntries s' = maxEntries s ->
  (length (entries s') <= length (entries s))%nat ->
  (forall kv, In kv (entries s') -> In kv (entries s)) -> store_inv s'.
Proof.
  intros [Hc Hk] Hm Hl Hin. split; [unfold within_capacity in *; lia|].
  rewrite Forall_forall in *. intros kv Hkv. by apply Hk, list_elem_of_In, Hin, list_elem_of_In.
Qed.

Lemma set_inv now k v ttl s :
  0 < maxEntries s -> k <> ""%string -> store_inv s -> store_inv (snd (set now k v ttl s)).
Proof.
  intros Hm Hne [Hc Hk]. split.
  - pose proof (run_op_max (MSet now k v ttl) s) as Hmax. cbn [run_op] in Hmax.
    unfold within_capacity. rewrite Hmax. clear Hmax.
    unfold set, within_capacity in *. cbn [snd set_entries entries]. rewrite length_map_set.
    destruct (map_has k (entries s)) eqn:Eh; cbn [negb].
    + rewrite andb_false_r, Eh. done.
    + rewrite andb_true_r. destruct (maxEntries s <=? _) eqn:E; to_prop.
      * pose proof (evictOldest_room now s Hm Hc Hk). case_bool; lia.
      * rewrite Eh. lia.
  - apply Forall_forall. intros [a e] Hin%list_elem_of_In.
    apply set_entries_spec in Hin as [[-> _]|[_ Hin]]; [done|].
    rewrite Forall_forall in Hk. by apply (Hk (a, e)), list_elem_of_In.
Qed.

Lemma run_op_inv o s : 0 < maxEntries s -> op_key_ok o -> store_inv s -> store_inv (run_op o s).
Proof.
  intros Hm Ho Hi. destruct o; cbn [run_op]; try exact Hi.
  - apply (store_inv_shrink s); [done|apply (run_op_max (MGet now k))| |intros kv; apply get_entries].
    unfold get. destruct (assoc k (entries s)); [case_bool|]; cbn; try lia. apply filter_length_le.
  - by apply set_inv.
  - apply (store_inv_shrink s); [done|done|apply filter_length_le|].
    intros [a e]. by intros [? _]%In_map_delete.
  - apply (store_inv_shrink s); [done|apply (run_op_max (MRecord now k window))| |];
      unfold recordAdmissionAttempt; destruct (assoc k (admissions s)); try case_bool; done.
  - apply (store_inv_shrink s); [done|done|apply filter_length_le|].
    intros kv Hin. by apply filter_In in Hin as [? _].
Qed.

Definition run_ops (ops : list mem_op) (s : MemoryResultCacheStore) : MemoryResultCacheStore :=
  fold_left (fun s o => run_op o s) ops s.

Lemma run_ops_inv ops s :
  0 < maxEntries s -> Forall op_key_ok ops -> store_inv s ->
  store_inv (run_ops ops s) /\ maxEntries (run_ops ops s) = maxEntries s.
Proof.
  intros Hm Hops. revert s Hm. unfold run_ops.
  induction Hops as [|o ops Ho Hops IH]; intros s Hm Hi; [done|]. cbn [fold_left].
  rewrite <- (run_op_max o s). apply IH; [by rewrite run_op_max|by apply run_op_inv].
Qed.

(** The in-memory cache store never holds more than its configured
    number of entries, whatever is stored, read, purged and swept; and an
    entry just stored is returned exactly until its lifetime ends, evicting
    for it never evicting the entry itself. *)
Theorem memory_store_bounded (ops : list mem_op) (max now : Z) (k v : string) (ttl : Z) :
  0 < max -> Forall op_key_ok ops ->
  let s := run_ops ops (memory_empty max) in
  Z.of_nat (length (entries s)) <= max
  /\ let s' := snd (set now k v ttl s) in
     forall t, fst (get t k s') = Ok (if t <? now + ttl * 1000 then Some v else None).
Proof.
  intros Hm Hops s. split.
  - assert (H : store_inv s /\ maxEntries s = max).
    { apply run_ops_inv; [exact Hm|done|]. split; [|constructor]. unfold within_capacity. cbn. lia. }
    destruct H as [[H _] Hx]. unfold within_capacity in H. rewrite Hx in H. exact H.
  - intros s' t. subst s'. unfold get, set. cbn [snd set_entries entries].
    rewrite assoc_map_set, str_eqb_refl. cbn [expiresAt value]. rewrite Z.leb_antisym.
    by destruct (t <? now + ttl * 1000).
Qed.

Lemma memory_store_bounded_witness :
  let s := run_ops [MSet 0 "a" "x" 10; MSet 1 "b" "y" 10; MGet 2 "a"; MSet 3 "c" "z" 10; MSweep 4]
             (memory_empty 2) in
  Z.of_nat (length (entries s)) <= 2
  /\ fst (get 5 "d" (snd (set 4 "d" "w" 1 s))) = Ok (Some "w"%string).
Proof.
  destruct (memory_store_bounded
    [MSet 0 "a" "x" 10; MSet 1 "b" "y" 10; MGet 2 "a"; MSet 3 "c" "z" 10; MSweep 4] 2 4 "d" "w" 1)
    as [H1 H2]; [reflexivity|by repeat constructor|].
  split; [exact H1|exact (H2 5)].
Defined.

End Memory.

#[export] Existing Instance Memory.memory_store.
#[export] Existing Instance Memory.memory_laws.

(** * Result cache: the database store

    [src/src/mcp/core/cache/stores/DbResultCacheStore.ts] with the SQL of
    [ResultCacheRepository.ts], [ResultCacheAdmissionRepository.ts] and
    [CacheNamespaceVersionRepository.ts] as operations on three tables (column
    widths from the migration [20260318000000_add_result_cache_tables]), and
    [NoopResultCacheStore.ts].  The database has its own clock and may be
    unreachable. *)

(** A row of [result_cache_entries], its key aside. *)
Record CacheRow : Type := {
  operation_type : string;
  server_id : string;
  entity_id : string;
  scope_type : string;
  scope_hash : string;
  request_hash : string;
  payload_encoding : string;
  payload_bytes : Z;
  payload_blob : string;
  expires_at : Z
}.

(** A row of [result_cache_admission_counters]. *)
Record CounterRow : Type := { observation_count : Z; counter_expires_at : Z }.

(** The three tables; [db_skew] is [NOW()] minus the process's clock. *)
Record DbTables : Type := {
  entry_rows : gmap string CacheRow;
  counter_rows : gmap string CounterRow;
  version_rows : gmap string Z;
  db_skew : Z;
  db_up : bool
}.

Definition set_entry_rows r s : DbTables :=
  {| entry_rows := r; counter_rows := counter_rows s; version_rows := version_rows s;
     db_skew := db_skew s; db_up := db_up s |}.
Definition set_counter_rows r s : DbTables :=
  {| entry_rows := entry_rows s; counter_rows := r; version_rows := version_rows s;
     db_skew := db_skew s; db_up := db_up s |}.
Definition set_version_rows r s : DbTables :=
  {| entry_rows := entry_rows s; counter_rows := counter_rows s; version_rows := r;
     db_skew := db_skew s; db_up := db_up s |}.

(** [NOW()] *)
Definition NOW (now : Z) (s : DbTables) : Z := now + db_skew s.

(** A statement: it fails as a whole when the database is unreachable or a
    value does not fit its column. *)
Definition statement {A} (fits : bool) (f : DbTables -> A * DbTables) : M DbTables string A := fun s =>
  if negb (db_up s) then (Throw "database unavailable"%string, s)
  else if negb fits then (Throw "value too long or out of range"%string, s)
  else let '(a, s') := f s in (Ok a, s').

Definition width (n : nat) (s : string) : bool := (String.length s <=? n)%nat.
Definition INTEGER_MAX : Z := 2147483647.
Definition BIGINT_MAX : Z := 9223372036854775807.

(** ** Repositories *)

Definition getEntry (now : Z) (cacheKey : string) : M DbTables string (option CacheRow) :=
  statement true (fun s =>
    (match entry_rows s !! cacheKey with
     | Some row => if NOW now s <? expires_at row then Some row else None
     | None => None
     end, s)).

Definition row_fits (cacheKey : string) (row : CacheRow) : bool :=
  width 512 cacheKey && width 20 (operation_type row) && width 128 (server_id row)
  && width 256 (entity_id row) && width 20 (scope_type row) && width 64 (scope_hash row)
  && width 64 (request_hash row) && width 20 (payload_encoding row)
  && (payload_bytes row <=? INTEGER_MAX).

Definition upsertEntry (cacheKey : string) (row : CacheRow) : M DbTables string unit :=
  statement (row_fits cacheKey row) (fun s =>
    (tt, set_entry_rows (<[cacheKey := row]> (entry_rows s)) s)).

Definition deleteEntry (cacheKey : string) : M DbTables string unit :=
  statement true (fun s => (tt, set_entry_rows (base.delete cacheKey (entry_rows s)) s)).

(** The count the upsert of [recordAttempt] writes. *)
Definition next_count (now : Z) (s : DbTables) (admissionKey : string) : Z :=
  match counter_rows s !! admissionKey with
  | Some row => if counter_expires_at row <? NOW now s then 1 else observation_count row + 1
  | None => 1
  end.

Definition recordAttempt (now : Z) (admissionKey : string) (windowSeconds : Z) : M DbTables string Z :=
  fun s =>
    let n := next_count now s admissionKey in
    statement (width 512 admissionKey && (n <=? INTEGER_MAX)) (fun s =>
      (n, set_counter_rows (<[admissionKey := {| observation_count := n;
             counter_expires_at := NOW now s + windowSeconds * 1000 |}]> (counter_rows s)) s)) s.

Definition getCount (now : Z) (admissionKey : string) : M DbTables string Z :=
  statement true (fun s =>
    (match counter_rows s !! admissionKey with
     | Some row => if NOW now s <? counter_expires_at row then observation_count row else 0
     | None => 0
     end, s)).

Definition clearAdmissionRow (admissionKey : string) : M DbTables string unit :=
  statement true (fun s => (tt, set_counter_rows (base.delete admissionKey (counter_rows s)) s)).

Definition getVersion (namespaceKey : string) : M DbTables string Z :=
  statement true (fun s => (default 0 (version_rows s !! namespaceKey), s)).

Definition bumpVersion (namespaceKey : string) : M DbTables string Z := fun s =>
  let n := match version_rows s !! namespaceKey with Some v => v + 1 | None => 1 end in
  statement (width 512 namespaceKey && (n <=? BIGINT_MAX)) (fun s =>
    (n, set_version_rows (<[namespaceKey := n]> (version_rows s)) s)) s.

(** [DELETE ... WHERE expires_at < NOW() ORDER BY expires_at LIMIT n]; the
    number of rows deleted. *)
Definition cleanup_keys (now : Z) (batchSize : nat) (rows : gmap string CacheRow) : list string :=
  map fst (take batchSize (isort (fun a b => expires_at (snd a) <=? expires_at (snd b))
             (List.filter (fun kv => expires_at (snd kv) <? now) (map_to_list rows)))).

Definition cleanupExpiredRows (now : Z) (batchSize : nat) : M DbTables string Z :=
  statement true (fun s =>
    let ks := cleanup_keys (NOW now s) batchSize (entry_rows s) in
    (Z.of_nat (length ks), set_entry_rows (foldr base.delete (entry_rows s) ks) s)).

(** ** The store *)

Lemma statement_cases {A} fits (f : DbTables -> A * DbTables) s :
  (exists e, statement fits f s = (Throw e, s))
  \/ (fits = true /\ statement fits f s = (Ok (fst (f s)), snd (f s))).
Proof.
  unfold statement. destruct (negb (db_up s)); [left; by eexists|].
  destruct fits; cbn; [right|left; by eexists]. split; [done|]. by destruct (f s).
Qed.

(** Splits on whether the statement of the goal ran. *)
Ltac run_statement :=
  match goal with
  | |- context [statement ?b ?f ?s] =>
      destruct (statement_cases b f s) as [[? ->]|[? ->]]
  end.


Section DbStore.
Variable gunzipSync : string -> option string.

Definition db_get (now : Z) (entryKey : string) : M DbTables string (option string) :=
  let! row := getEntry now entryKey in mret (payload_blob <$> row).

Definition db_set (now : Z) (entryKey value : string) (ttlSeconds : Z) : M DbTables string unit :=
  match deserialize gunzipSync value with
  | None => mthrow "Failed to deserialize cache entry payload before DB write"%string
  | Some envelope =>
      upsertEntry entryKey {|
        operation_type := operation_text (operation envelope);
        server_id := serverId envelope;
        entity_id := entityId envelope;
        scope_type := scope_text (scopeType envelope);
        scope_hash := scopeHash envelope;
        request_hash := requestHash envelope;
        payload_encoding := encoding_text (payloadEncoding envelope);
        payload_bytes := payloadBytes envelope;
        payload_blob := value;
        expires_at := now + ttlSeconds * 1000 |}
  end.

#[export] Instance db_store : ResultCacheStore DbTables := {
  store_get := db_get;
  store_set := db_set;
  store_delete := deleteEntry;
  store_recordAdmissionAttempt := recordAttempt;
  store_getAdmissionCount := getCount;
  store_clearAdmission := clearAdmissionRow;
  store_getNamespaceVersion := getVersion;
  store_bumpNamespaceVersion := bumpVersion
}.

Definition db_readable (s : DbTables) (k v : string) : Prop :=
  exists row, entry_rows s !! k = Some row /\ payload_blob row = v.

#[export] Instance db_laws : ResultCacheStoreLaws DbTables.
Proof using.
  refine {|
    readable := db_readable;
    version := fun s k => default 0 (version_rows s !! k);
    attempts := fun s now k => next_count now s k - 1
  |}.
  all: cbn [store_get store_set store_delete store_recordAdmissionAttempt store_getAdmissionCount
            store_clearAdmission store_getNamespaceVersion store_bumpNamespaceVersion db_store].
  - intros now k s k' v. unfold db_get, getEntry, mbnd. run_statement; done.
  - intros k s k' v. unfold deleteEntry. run_statement; [done|].
    intros (row & Hr & Hv). cbn in Hr. apply lookup_delete_Some in Hr as [_ Hr]. by exists row.
  - intros now k w s k' v. unfold recordAttempt. run_statement; done.
  - intros k s k' v. unfold clearAdmissionRow. run_statement; done.
  - intros k s k' v. unfold getVersion. run_statement; done.
  - intros k s k' v. unfold bumpVersion. run_statement; done.
  - intros now k v ttl s k' v'. unfold db_set. destruct (deserialize gunzipSync v); [|by left].
    unfold upsertEntry. run_statement; [by left|]. intros (row & Hr & Hv). cbn in Hr.
    apply lookup_insert_Some in Hr as [[<- <-]|[_ Hr]]; [right; by cbn in Hv|left; by exists row].
  - intros now k s. unfold db_get, getEntry, mbnd. run_statement; done.
  - intros k s. unfold deleteEntry. run_statement; done.
  - intros now k w s. unfold recordAttempt. run_statement; done.
  - intros k s. unfold clearAdmissionRow. run_statement; done.
  - intros k s. unfold getVersion. run_statement; done.
  - intros now k v ttl s. unfold db_set. destruct (deserialize gunzipSync v); [|done].
    unfold upsertEntry. run_statement; done.
  - intros k s k'. unfold bumpVersion. run_statement; [done|]. cbn.
    destruct (base.decide (k = k')) as [->|Hk].
    + rewrite lookup_insert_eq. cbn. destruct (version_rows s !! k'); cbn; lia.
    + by rewrite lookup_insert_ne.
  - intros k s n. unfold bumpVersion. run_statement; [done|]. intros _. cbn.
    rewrite lookup_insert_eq. cbn. by destruct (version_rows s !! k).
  - intros k s. unfold getVersion. run_statement; done.
  - intros now k s v. unfold db_get, getEntry, mbnd. run_statement; [done|]. cbn.
    destruct (entry_rows s !! k) as [row|] eqn:E; [|done]. destruct (_ <? _); [|done].
    intros [= <-]. by exists row.
  - intros k s n. unfold getVersion. run_statement; [done|]. by intros [= <-].
  - intros now k w s n. unfold recordAttempt. run_statement; [done|]. intros [= <-]. lia.
  - intros now k v ttl s. unfold db_set. destruct (deserialize gunzipSync v); [|done].
    unfold upsertEntry. run_statement; [done|]. intros _ w (row & Hr & Hv). cbn in Hr.
    rewrite lookup_insert_eq in Hr. by simplify_eq.
Defined.
End DbStore.

(** A sweep never removes an entry that a read could still return. *)
Lemma cleanup_invisible (now t : Z) (batch : nat) (s : DbTables) (k : string) :
  now <= t -> fst (getEntry t k (snd (cleanupExpiredRows now batch s))) = fst (getEntry t k s).
Proof.
  intros Ht. unfold cleanupExpiredRows. run_statement; [done|].
  unfold getEntry, statement, NOW. cbn. destruct (negb (db_up s)); [done|]. cbn. f_equal.
  set (ks := cleanup_keys (now + db_skew s) batch (entry_rows s)).
  assert (Hks : forall x, In x ks -> exists row, entry_rows s !! x = Some row
                          /\ expires_at row < now + db_skew s).
  { unfold ks, cleanup_keys. intros x ([y row] & <- & Hin)%in_map_iff.
    apply list_elem_of_In, elem_of_take in Hin as (i & Hi & _).
    apply list_elem_of_lookup_2 in Hi. rewrite isort_perm in Hi.
    apply list_elem_of_In, filter_In in Hi as [Hi Hx]. apply list_elem_of_In, elem_of_map_to_list in Hi.
    cbn in Hx. to_prop. by exists row. }
  clearbody ks. destruct (base.decide (k ∈ ks)) as [Hin|Hin].
  - assert (foldr base.delete (entry_rows s) ks !! k = None) as ->.
    { clear Hks. induction Hin as [|x y l Hin IH]; cbn; [by rewrite lookup_delete_eq|].
      apply lookup_delete_None. by right. }
    apply list_elem_of_In, Hks in Hin as (row & -> & Hx).
    destruct (_ <? expires_at row) eqn:E; [|done]. to_prop. lia.
  - assert (foldr base.delete (entry_rows s) ks !! k = entry_rows s !! k) as ->; [|done].
    clear Hks. induction ks as [|x l IH]; [done|]. cbn. apply not_elem_of_cons in Hin as [Hx Hin].
    rewrite lookup_delete_ne by done. by apply IH.
Qed.

(** ** The store that stores nothing *)

#[export] Instance noop_store : ResultCacheStore unit := {
  store_get := fun _ _ => mret None;
  store_set := fun _ _ _ _ => mret tt;
  store_delete := fun _ => mret tt;
  store_recordAdmissionAttempt := fun _ _ _ => mret 0;
  store_getAdmissionCount := fun _ _ => mret 0;
  store_clearAdmission := fun _ => mret tt;
  store_getNamespaceVersion := fun _ => mret 0;
  store_bumpNamespaceVersion := fun _ => mret 0
}.
