(* ===== verification/ResultCache.v ===== *)
(** * Result cache: the manager and the service

    [src/src/mcp/core/cache/ResultCacheManager.ts] and
    [src/src/mcp/core/cache/ResultCacheService.ts], over any store that
    implements the interface of [CacheStore.v].  Logging is not modelled; the
    counters of the manager are. *)
From Stdlib Require Import Ascii ZArith Lia.
From stdpp Require Import base gmap strings list fin_maps.
From S2P Require Import Prelude Json JsMap CacheKey CachePolicy CacheSerializer CacheStore.
Open Scope Z_scope.

Record CacheScopeContext : Type := { userId : option string; tenantId : option string }.

Inductive CacheBypassReason : Type :=
| disabled_globally | disabled_by_policy | missing_user_scope_identity
| missing_tenant_scope_identity | missing_scope_identity | deserialization_failed
| backend_unavailable.

Record CacheLookupResult : Type := {
  hit : bool;
  entry : option CacheEntryEnvelope;
  bypassReason : option CacheBypassReason;
  lookupVersions : option VersionSet
}.

(** The arguments every operation on an entry takes. *)
Record CacheCall : Type := {
  c_operation : CacheOperationType;
  c_serverId : string;
  c_entityId : string;
  c_scopeContext : CacheScopeContext;
  c_policy : ResolvedCachePolicy;
  c_params : json
}.

Record ResolvedRuntimeContext : Type := {
  rt_scopeHash : string;
  rt_requestHash : string;
  rt_entityHash : string;
  rt_versions : VersionSet
}.

(** The store behind the manager and the manager's counters. *)
Record ManagerState (S : Type) : Type := {
  cacheStore : S;
  metrics : gmap string Z
}.
Arguments cacheStore {S} _.
Arguments metrics {S} _.
Arguments Build_ManagerState {S} _ _.

Definition resolveScopeIdentity (ctx : CacheScopeContext) (scopeType : CacheScope) : option string :=
  match scopeType with
  | ScopeGlobal => Some "global"%string
  | ScopeUser => userId ctx
  | ScopeTenant => tenantId ctx
  end.

(** [isToolResultCacheable] *)
Definition isToolResultCacheable (r : json) : bool :=
  match r with
  | JObj kvs => negb (bool_decide (assoc "isError" kvs = Some (JBool true)))
  | _ => true
  end.

(** [estimatePayloadBytes] *)
Definition estimatePayloadBytes (v : json) : option Z := utf8_byteLength <$> JSON_stringify v.

Section Manager.
Context {S : Type} `{ResultCacheStore S}.
Variable sha256 : string -> string.
Variable gzipSync : string -> string.
Variable gunzipSync : string -> option string.
Variable config : ResultCacheConfig.

Notation Mgr A := (M (ManagerState S) string A).

(** [this.metrics[name] += 1] *)
Definition inc (name : string) : Mgr unit :=
  mmodify (fun st => {| cacheStore := cacheStore st;
                        metrics := <[name := default 0 (metrics st !! name) + 1]> (metrics st) |}).

(** A store call inside [try]: its failure is a value. *)
Definition try_store {A} (op : M S string A) : Mgr (result string A) := fun st =>
  let '(r, s) := op (cacheStore st) in (Ok r, {| cacheStore := s; metrics := metrics st |}).

(** A store call whose failure is the caller's. *)
Definition call {A} (op : M S string A) : Mgr A := fun st =>
  let '(r, s) := op (cacheStore st) in (r, {| cacheStore := s; metrics := metrics st |}).

(** ** Keys *)

Definition global_key : string := buildNamespaceKey (keyPrefix config) ["global"%string].
Definition server_key (serverId : string) : string :=
  buildNamespaceKey (keyPrefix config) ["server"%string; serverId].
Definition entity_key (op : CacheOperationType) (serverId entityId : string) : string :=
  match op with
  | OpTool => buildNamespaceKey (keyPrefix config) ["tool"%string; serverId; entityId]
  | OpPrompt => buildNamespaceKey (keyPrefix config) ["prompt"%string; serverId; entityId]
  | OpResource => buildNamespaceKey (keyPrefix config)
                    ["resource"%string; serverId; buildEntityHash sha256 entityId]
  end.

(** [getNamespaceKeys] *)
Definition getNamespaceKeys (c : CacheCall) : string * string * string :=
  (global_key, server_key (c_serverId c), entity_key (c_operation c) (c_serverId c) (c_entityId c)).

Definition result_entry_key (c : CacheCall) (rt : ResolvedRuntimeContext) : string :=
  buildResultEntryKey (keyPrefix config) (c_operation c) (c_serverId c) (rt_entityHash rt)
    (scope (c_policy c)) (rt_scopeHash rt) (rt_versions rt) (rt_requestHash rt).

Definition admission_key (c : CacheCall) (rt : ResolvedRuntimeContext) : string :=
  buildAdmissionKey (keyPrefix config) (c_operation c) (c_serverId c) (rt_entityHash rt)
    (scope (c_policy c)) (rt_scopeHash rt) (rt_versions rt) (rt_requestHash rt).

(** ** Operations of the manager *)

(** The three version reads of one [Promise.all]. *)
Definition readVersions (c : CacheCall) : Mgr (result string VersionSet) :=
  let '(g, s, e) := getNamespaceKeys c in
  let! rg := try_store (store_getNamespaceVersion g) in
  let! rs := try_store (store_getNamespaceVersion s) in
  let! re := try_store (store_getNamespaceVersion e) in
  mret (match rg, rs, re with
        | Ok vg, Ok vs, Ok ve =>
            Ok {| globalVersion := vg; serverVersion := vs; entityVersion := ve |}
        | Throw x, _, _ | _, Throw x, _ | _, _, Throw x => Throw x
        end).

Definition runtime_context (c : CacheCall) (identity : string) (v : VersionSet) : ResolvedRuntimeContext :=
  {| rt_scopeHash := buildScopeHash sha256 identity;
     rt_requestHash := canonicalizeParams sha256 (c_params c) (denyFields (c_policy c))
                         (allowFields (c_policy c));
     rt_entityHash := buildEntityHash sha256 (c_entityId c);
     rt_versions := v |}.

Definition resolveRuntimeContext (c : CacheCall) (capturedVersions : option VersionSet)
    : Mgr (CacheBypassReason + ResolvedRuntimeContext) :=
  match resolveScopeIdentity (c_scopeContext c) (scope (c_policy c)) with
  | Some identity =>
      if truthy_str identity then
        match capturedVersions with
        | Some v => mret (inr (runtime_context c identity v))
        | None =>
            let! r := readVersions c in
            match r with
            | Ok v => mret (inr (runtime_context c identity v))
            | Throw _ => inc "errors" ;! mret (inl backend_unavailable)
            end
        end
      else mret (inl (match scope (c_policy c) with
                      | ScopeUser => missing_user_scope_identity
                      | ScopeTenant => missing_tenant_scope_identity
                      | ScopeGlobal => missing_scope_identity
                      end))
  | None => mret (inl (match scope (c_policy c) with
                       | ScopeUser => missing_user_scope_identity
                       | ScopeTenant => missing_tenant_scope_identity
                       | ScopeGlobal => missing_scope_identity
                       end))
  end.

Definition bypass (reason : CacheBypassReason) (v : option VersionSet) : Mgr CacheLookupResult :=
  inc "bypasses" ;!
  mret {| hit := false; entry := None; bypassReason := Some reason; lookupVersions := v |}.

Definition miss (v : VersionSet) : Mgr CacheLookupResult :=
  inc "misses" ;!
  mret {| hit := false; entry := None; bypassReason := None; lookupVersions := Some v |}.

Definition lookup (now : Z) (c : CacheCall) : Mgr CacheLookupResult :=
  if negb (config_enabled config) then bypass disabled_globally None
  else if negb (enabled (c_policy c)) then bypass disabled_by_policy None
  else
    let! r := resolveRuntimeContext c None in
    match r with
    | inl reason => bypass reason None
    | inr runtime =>
        let entryKey := result_entry_key c runtime in
        let! got := try_store (store_get now entryKey) in
        match got with
        | Throw _ => inc "errors" ;! bypass backend_unavailable (Some (rt_versions runtime))
        | Ok None => miss (rt_versions runtime)
        | Ok (Some buffer) =>
            match deserialize gunzipSync buffer with
            | None =>
                inc "errors" ;! inc "bypasses" ;! try_store (store_delete entryKey) ;!
                mret {| hit := false; entry := None; bypassReason := Some deserialization_failed;
                        lookupVersions := Some (rt_versions runtime) |}
            | Some e =>
                inc "hits" ;!
                mret {| hit := true; entry := Some e; bypassReason := None; lookupVersions := None |}
            end
        end
    end.

(** [shouldCompress] *)
Definition should_compress : bool :=
  str_eqb (compress config) "true" || (str_eqb (compress config) "auto" && str_eqb (backend config) "redis").

(** The envelope [store] writes. *)
Definition new_entry (now : Z) (c : CacheCall) (rt : ResolvedRuntimeContext) (r : json) (bytes obs : Z)
    : CacheEntryEnvelope :=
  createEnvelope (toISOString now) (c_operation c) (c_serverId c) (c_entityId c)
    (scope (c_policy c)) (rt_scopeHash rt) (ttlSeconds (c_policy c)) (admissionPolicy (c_policy c))
    obs (rt_requestHash rt) r bytes None.

Definition serialized_entry (e : CacheEntryEnvelope) : string :=
  serialize gzipSync e should_compress (compressionMinBytes config).

Definition store (now : Z) (c : CacheCall) (r : json) (admissionObservations : Z)
    (capturedVersions : option VersionSet) (countAsPromotion : bool) : Mgr bool :=
  if negb (config_enabled config) || negb (enabled (c_policy c)) then inc "bypasses" ;! mret false
  else
    let! rr := resolveRuntimeContext c capturedVersions in
    match rr with
    | inl _ => inc "bypasses" ;! mret false
    | inr runtime =>
        match estimatePayloadBytes r with
        | None => inc "bypasses" ;! inc "errors" ;! mret false
        | Some bytes =>
            if maxEntryBytes (c_policy c) <? bytes then inc "bypasses" ;! mret false
            else
              let serialized := serialized_entry (new_entry now c runtime r bytes admissionObservations) in
              if maxEntryBytes (c_policy c) <? Z.of_nat (String.length serialized)
              then inc "bypasses" ;! mret false
              else
                let! w := try_store (store_set now (result_entry_key c runtime) serialized
                                     (ttlSeconds (c_policy c))) in
                match w with
                | Ok _ => inc "sets" ;! (if countAsPromotion then inc "admission_promoted" else mret tt) ;!
                          mret true
                | Throw _ => inc "errors" ;! inc "bypasses" ;! mret false
                end
        end
    end.

Definition recordAdmission (now : Z) (c : CacheCall) (capturedVersions : option VersionSet) : Mgr Z :=
  if negb (config_enabled config) || negb (enabled (c_policy c)) then mret 0
  else
    let! rr := resolveRuntimeContext c capturedVersions in
    match rr with
    | inl _ => mret 0
    | inr runtime =>
        let! n := try_store (store_recordAdmissionAttempt now (admission_key c runtime)
                             (admissionWindowSeconds (c_policy c))) in
        match n with
        | Ok count => inc "admission_observations" ;! mret count
        | Throw _ => inc "errors" ;! inc "bypasses" ;! mret 0
        end
    end.

Definition clearAdmission (c : CacheCall) : Mgr unit :=
  if negb (config_enabled config) || negb (enabled (c_policy c)) then mret tt
  else
    let! rr := resolveRuntimeContext c None in
    match rr with
    | inl _ => mret tt
    | inr runtime =>
        let! w := try_store (store_clearAdmission (admission_key c runtime)) in
        match w with Ok _ => mret tt | Throw _ => inc "errors" end
    end.

Definition shouldPromote (admissionCount : Z) (p : ResolvedCachePolicy) : Mgr bool :=
  match admissionPolicy p with
  | Immediate => mret true
  | SecondHit => if 2 <=? admissionCount then mret true else inc "admission_deferred" ;! mret false
  end.

Definition bumpNamespace (namespaceKey : string) : Mgr unit :=
  let! r := try_store (store_bumpNamespaceVersion namespaceKey) in
  match r with Ok _ => inc "purges" | Throw _ => inc "errors" end.

Definition purgeGlobal : Mgr unit := bumpNamespace global_key.
Definition purgeServer (serverId : string) : Mgr unit := bumpNamespace (server_key serverId).
Definition purgeTool (serverId toolName : string) : Mgr unit :=
  bumpNamespace (entity_key OpTool serverId toolName).
Definition purgePrompt (serverId promptName : string) : Mgr unit :=
  bumpNamespace (entity_key OpPrompt serverId promptName).
Definition purgeResource (serverId uri : string) : Mgr unit :=
  bumpNamespace (entity_key OpResource serverId uri).
Definition invalidateResource (serverId uri : string) : Mgr unit :=
  purgeResource serverId uri ;! inc "invalidations".

(** Both store calls of the [Promise.all] are made; the first failure is
    the caller's. *)
Definition purgeExact (c : CacheCall) : Mgr unit :=
  let! rr := resolveRuntimeContext c None in
  match rr with
  | inl _ => mret tt
  | inr runtime =>
      let! d := try_store (store_delete (result_entry_key c runtime)) in
      let! a := try_store (store_clearAdmission (admission_key c runtime)) in
      match d, a with
      | Ok _, Ok _ => inc "purges"
      | Throw e, _ | _, Throw e => mthrow e
      end
  end.

(** ** Operations of the service *)

Fixpoint recordAdmissions (n : nat) (now : Z) (c : CacheCall) (cap : option VersionSet) (last : Z) : Mgr Z :=
  match n with
  | O => mret last
  | Datatypes.S n' => let! k := recordAdmission now c cap in recordAdmissions n' now c cap k
  end.

Definition storeResult (now : Z) (c : CacheCall) (r : json) (observationIncrement : Z)
    (capturedVersions : option VersionSet) : Mgr bool :=
  if bool_decide (c_operation c = OpTool) && negb (isToolResultCacheable r)
  then inc "bypasses" ;! mret false
  else match admissionPolicy (c_policy c) with
       | Immediate => store now c r 0 capturedVersions false
       | SecondHit =>
           let! admissionCount :=
             recordAdmissions (Z.to_nat (Z.max 1 observationIncrement)) now c capturedVersions 0 in
           let! promote := shouldPromote admissionCount (c_policy c) in
           if negb promote then mret false
           else
             let! stored := store now c r admissionCount capturedVersions true in
             (if stored then clearAdmission c else mret tt) ;! mret stored
       end.

(** [executeWithCache] up to the factory call: the cached payload, or the
    versions the result will be stored under. *)
Definition executeWithCache_lookup (now : Z) (c : CacheCall) : Mgr (json + option VersionSet) :=
  let! l := lookup now c in
  mret (match hit l, entry l with
        | true, Some e => inl (payload e)
        | _, _ => inr (lookupVersions l)
        end).

Definition identityMissing (c : CacheCall) : bool :=
  match scope (c_policy c) with
  | ScopeTenant => negb (truthy_ostr (tenantId (c_scopeContext c)))
  | ScopeUser => negb (truthy_ostr (userId (c_scopeContext c)))
  | ScopeGlobal => false
  end.

(** What the leader does with the factory's result; a failure is only
    logged. *)
Definition executeWithCache_store (now : Z) (c : CacheCall) (r : json) (v : option VersionSet)
    (requestCount : Z) : Mgr unit :=
  if identityMissing c then mret tt
  else
    let observationIncrement :=
      match admissionPolicy (c_policy c) with SecondHit => Z.max 1 requestCount | Immediate => 1 end in
    fun st => (Ok tt, snd (storeResult now c r observationIncrement v st)).

(** A call on its own: [now1] is the time of the lookup, [now2] that of the
    store; the factory is the upstream call and may throw. *)
Definition executeWithCache (now1 now2 : Z) (c : CacheCall) (factory : result string json)
    : Mgr (json * bool) :=
  let! l := executeWithCache_lookup now1 c in
  match l with
  | inl cached => mret (cached, true)
  | inr v =>
      match factory with
      | Throw e => mthrow e
      | Ok r => executeWithCache_store now2 c r v 1 ;! mret (r, false)
      end
  end.
End Manager.
