(* ===== verification/ResultCacheCorrect.v ===== *)
(** * Result cache: correctness of the manager and the service

    The theorems are about sequences of operations on any store satisfying the
    laws of [CacheStore.v]: what a lookup may return ([hit_was_stored]), what a
    purge removes ([purge_makes_unreachable]) and what is admitted
    ([store_gate]). *)
From Stdlib Require Import Ascii ZArith Lia.
From stdpp Require Import base gmap strings list fin_maps.
From S2P Require Import Prelude Json JsMap CacheKey CachePolicy CacheSerializer.
From S2P Require Import CacheStore ResultCache.
Open Scope Z_scope.

Section Correct.
Context {S : Type} `{ResultCacheStoreLaws S}.
Variable sha256 : string -> string.
Variable gzipSync : string -> string.
Variable gunzipSync : string -> option string.
Variable config : ResultCacheConfig.

Notation Mgr A := (M (ManagerState S) string A).

(** ** A logic for the manager's operations

    [holds V R st]: the store's versions are [V] and its entries satisfy [R].
    [spec V R m Q]: [m] keeps that, and its normal results satisfy [Q]. *)

Definition holds (V : string -> Z) (R : string -> string -> Prop) (st : ManagerState S) : Prop :=
  version (cacheStore st) = V /\ forall k v, readable (cacheStore st) k v -> R k v.

Definition spec {A} (V : string -> Z) (R : string -> string -> Prop) (m : Mgr A) (Q : A -> Prop) : Prop :=
  forall st, holds V R st -> holds V R (snd (m st)) /\ forall a, fst (m st) = Ok a -> Q a.

Lemma spec_ret {A} V R (a : A) (Q : A -> Prop) : Q a -> spec V R (mret a) Q.
Proof. intros HQ st Hst. split; [done|]. by intros ? [= <-]. Qed.

Lemma spec_throw {A} V R e (Q : A -> Prop) : spec V R (mthrow e) Q.
Proof. by intros st Hst. Qed.

Lemma spec_bind {A B} V R (m : Mgr A) (k : A -> Mgr B) (P : A -> Prop) (Q : B -> Prop) :
  spec V R m P -> (forall a, P a -> spec V R (k a) Q) -> spec V R (mbnd m k) Q.
Proof.
  intros Hm Hk st Hst. destruct (Hm st Hst) as [Hst' HP]. unfold mbnd.
  destruct (m st) as [[a|e] st']; [|by split]. cbn in *. apply (Hk a); [by apply HP|done].
Qed.

Lemma spec_weaken {A} V R (m : Mgr A) (P Q : A -> Prop) :
  spec V R m P -> (forall a, P a -> Q a) -> spec V R m Q.
Proof. intros Hm HPQ st Hst. destruct (Hm st Hst) as [? HP]. split; [done|]. eauto. Qed.

Lemma spec_inc V R name : spec V R (inc name) (fun _ => True).
Proof. intros st Hst. by split. Qed.

Lemma spec_attempt {A} V R (op : M S string A) (Q : result string A -> Prop) :
  (forall s, version s = V -> (forall k v, readable s k v -> R k v) ->
     version (snd (op s)) = V /\ (forall k v, readable (snd (op s)) k v -> R k v) /\ Q (fst (op s))) ->
  spec V R (try_store op) Q.
Proof.
  intros Hop st [HV HR]. unfold try_store. destruct (Hop _ HV HR) as (HV' & HR' & HQ).
  destruct (op (cacheStore st)) as [r s]. cbn in *. split; [by split|]. by intros ? [= <-].
Qed.

Lemma spec_get V R now k :
  spec V R (try_store (store_get now k))
    (fun r => forall v, r = Ok (Some v) -> R k v).
Proof.
  apply spec_attempt. intros s HV HR. rewrite get_version. split; [done|]. split.
  - intros k' v Hr. by eapply HR, get_readable.
  - intros v Hv. by eapply HR, get_ok.
Qed.

Lemma spec_set V R now k v ttl :
  R k v -> spec V R (try_store (store_set now k v ttl)) (fun _ => True).
Proof.
  intros Hkv. apply spec_attempt. intros s HV HR. rewrite set_version. split; [done|]. split; [|done].
  intros k' v' Hr. apply set_readable in Hr as [Hr|[-> ->]]; auto.
Qed.

Lemma spec_delete V R k : spec V R (try_store (store_delete k)) (fun _ => True).
Proof.
  apply spec_attempt. intros s HV HR. rewrite delete_version. split; [done|]. split; [|done].
  intros k' v Hr. by eapply HR, delete_readable.
Qed.

Lemma spec_clear V R k : spec V R (try_store (store_clearAdmission k)) (fun _ => True).
Proof.
  apply spec_attempt. intros s HV HR. rewrite clear_version. split; [done|]. split; [|done].
  intros k' v Hr. by eapply HR, clear_readable.
Qed.

Lemma spec_record V R now k w : spec V R (try_store (store_recordAdmissionAttempt now k w)) (fun _ => True).
Proof.
  apply spec_attempt. intros s HV HR. rewrite record_version. split; [done|]. split; [|done].
  intros k' v Hr. by eapply HR, record_readable.
Qed.

Lemma spec_getVersion V R k :
  spec V R (try_store (store_getNamespaceVersion k)) (fun r => forall n, r = Ok n -> n = V k).
Proof.
  apply spec_attempt. intros s HV HR. rewrite version_version. split; [done|]. split.
  - intros k' v Hr. by eapply HR, version_readable.
  - intros n Hn. rewrite <- HV. by apply getVersion_ok.
Qed.

(** One step of a proof about a program: a bind, a case or a known call. *)
Ltac spec_step :=
  match goal with
  | |- spec _ _ (mret _) (fun _ => True) => by apply spec_ret
  | |- spec _ _ (mthrow _) _ => apply spec_throw
  | |- spec _ _ (mbnd _ _) _ => apply (spec_bind _ _ _ _ (fun _ => True)); [|intros ? _]
  | |- spec _ _ (inc _) _ => apply spec_inc
  | |- spec _ _ (try_store (store_delete _)) _ => apply spec_delete
  | |- spec _ _ (try_store (store_clearAdmission _)) _ => apply spec_clear
  | |- spec _ _ (try_store (store_recordAdmissionAttempt _ _ _)) _ => apply spec_record
  | |- spec _ _ (try_store (store_getNamespaceVersion _)) _ => apply spec_getVersion
  | |- spec _ _ (try_store (store_get _ _)) _ => apply spec_get
  | |- spec _ _ (if ?b then _ else _) _ => destruct b eqn:?
  | |- spec _ _ (match ?x with _ => _ end) _ => destruct x eqn:?
  end.

(** The versions an entry of a call is looked up under. *)
Definition versions_in (V : string -> Z) (c : CacheCall) : VersionSet :=
  {| globalVersion := V (global_key config); serverVersion := V (server_key config (c_serverId c));
     entityVersion := V (entity_key sha256 config (c_operation c) (c_serverId c) (c_entityId c)) |}.

Definition identity_of (c : CacheCall) (identity : string) : Prop :=
  resolveScopeIdentity (c_scopeContext c) (scope (c_policy c)) = Some identity
  /\ truthy_str identity = true.

Lemma spec_readVersions V R c :
  spec V R (readVersions sha256 config c) (fun r => forall v, r = Ok v -> v = versions_in V c).
Proof.
  unfold readVersions. cbn [getNamespaceKeys]. do 3 (eapply spec_bind; [apply spec_getVersion|intros ? ?]).
  apply spec_ret. intros v Hv. repeat case_match; simplify_eq. unfold versions_in. by f_equal; auto.
Qed.

Lemma spec_resolve V R c cap :
  spec V R (resolveRuntimeContext sha256 config c cap)
    (fun r => forall rt, r = inr rt -> exists identity, identity_of c identity
       /\ rt = runtime_context sha256 c identity (default (versions_in V c) cap)).
Proof.
  unfold resolveRuntimeContext.
  destruct (resolveScopeIdentity _ _) as [identity|] eqn:Ei; [|by apply spec_ret].
  destruct (truthy_str identity) eqn:Et; [|by apply spec_ret].
  destruct cap as [v|].
  - apply spec_ret. intros rt [= <-]. by exists identity.
  - eapply spec_bind; [apply spec_readVersions|]. intros [v|e] Hv.
    + apply spec_ret. intros rt [= <-]. exists identity. split; [done|]. cbn. by rewrite (Hv v).
    + repeat spec_step. by apply spec_ret.
Qed.

(** An entry that storing [r] for [c] under the versions [v] may write. *)
Definition entry_made (now : Z) (c : CacheCall) (r : json) (v : VersionSet) (k buf : string) : Prop :=
  enabled (c_policy c) = true /\ config_enabled config = true /\
  exists identity bytes obs, identity_of c identity /\ estimatePayloadBytes r = Some bytes
    /\ k = result_entry_key config c (runtime_context sha256 c identity v)
    /\ buf = serialized_entry gzipSync config
               (new_entry now c (runtime_context sha256 c identity v) r bytes obs).

Lemma spec_store V R now c r obs cap promo :
  (forall k buf, entry_made now c r (default (versions_in V c) cap) k buf -> R k buf) ->
  spec V R (store sha256 gzipSync config now c r obs cap promo) (fun _ => True).
Proof.
  intros Hmade. unfold store. destruct (negb _ || negb _) eqn:En; [by repeat spec_step|]. to_prop.
  eapply spec_bind; [apply spec_resolve|]. intros [reason|rt] Hrt; [by repeat spec_step|].
  destruct (Hrt rt eq_refl) as (identity & Hid & ->).
  destruct (estimatePayloadBytes r) as [bytes|] eqn:Eb; [|by repeat spec_step].
  do 2 (spec_step; [by repeat spec_step|]). eapply spec_bind; [apply spec_set|].
  - apply Hmade. split; [done|]. split; [done|]. by exists identity, bytes, obs.
  - intros [u|e] _; repeat spec_step.
Qed.

Lemma spec_recordAdmission V R now c cap :
  spec V R (recordAdmission sha256 config now c cap) (fun _ => True).
Proof.
  unfold recordAdmission. spec_step; [by repeat spec_step|].
  eapply spec_bind; [apply spec_resolve|]. intros [reason|rt] _; repeat spec_step.
Qed.

Lemma spec_recordAdmissions V R n now c cap last :
  spec V R (recordAdmissions sha256 config n now c cap last) (fun _ => True).
Proof.
  revert last. induction n as [|n IH]; intros last; cbn; [by apply spec_ret|].
  eapply spec_bind; [apply spec_recordAdmission|]. intros; apply IH.
Qed.

Lemma spec_clearAdmission V R c : spec V R (clearAdmission sha256 config c) (fun _ => True).
Proof.
  unfold clearAdmission. spec_step; [by repeat spec_step|].
  eapply spec_bind; [apply spec_resolve|]. intros [reason|rt] _; repeat spec_step.
Qed.

Lemma spec_purgeExact V R c : spec V R (purgeExact sha256 config c) (fun _ => True).
Proof.
  unfold purgeExact. eapply spec_bind; [apply spec_resolve|].
  intros [reason|rt] _; repeat spec_step.
Qed.

Lemma spec_storeResult V R now c r n cap :
  ((c_operation c = OpTool -> isToolResultCacheable r = true) ->
   forall k buf, entry_made now c r (default (versions_in V c) cap) k buf -> R k buf) ->
  spec V R (storeResult sha256 gzipSync config now c r n cap) (fun _ => True).
Proof.
  intros Hmade. unfold storeResult. destruct (_ && _) eqn:Et; [by repeat spec_step|].
  assert (Ht : c_operation c = OpTool -> isToolResultCacheable r = true).
  { intros Ho. rewrite bool_decide_true in Et by done. by apply negb_false_iff in Et. }
  specialize (Hmade Ht). destruct (admissionPolicy (c_policy c)) eqn:Ea.
  - by apply spec_store.
  - eapply spec_bind; [apply spec_recordAdmissions|]. intros count _.
    apply (spec_bind _ _ _ _ (fun _ => True)); [unfold shouldPromote; rewrite Ea; by repeat spec_step|].
    intros promote _. spec_step; [by repeat spec_step|].
    eapply spec_bind; [by apply spec_store|]. intros stored _.
    apply (spec_bind _ _ _ _ (fun _ => True)); [spec_step; [apply spec_clearAdmission|by apply spec_ret]|].
    intros; by repeat spec_step.
Qed.

Lemma spec_lookup V R now c :
  spec V R (lookup sha256 gunzipSync config now c)
    (fun l => forall e, hit l = true -> entry l = Some e ->
       exists identity buf, identity_of c identity
         /\ R (result_entry_key config c (runtime_context sha256 c identity (versions_in V c))) buf
         /\ deserialize gunzipSync buf = Some e).
Proof.
  unfold lookup, bypass, miss.
  spec_step; [repeat spec_step; by apply spec_ret|].
  spec_step; [repeat spec_step; by apply spec_ret|].
  eapply spec_bind; [apply spec_resolve|].
  intros [reason|rt] Hrt; [repeat spec_step; by apply spec_ret|].
  destruct (Hrt rt eq_refl) as (identity & Hid & ->).
  eapply spec_bind; [apply spec_get|]. intros [[buf|]|e] Hget;
    [|repeat spec_step; by apply spec_ret..].
  destruct (deserialize gunzipSync buf) as [e|] eqn:Ed; [|repeat spec_step; by apply spec_ret].
  spec_step; [apply spec_inc|]. apply spec_ret. intros e' _ [= <-].
  exists identity, buf. split; [done|]. split; [by apply Hget|done].
Qed.

(** ** Histories *)

Inductive purge : Type :=
| PGlobal
| PServer (serverId : string)
| PTool (serverId toolName : string)
| PPrompt (serverId promptName : string)
| PResource (serverId uri : string)
| PInvalidate (serverId uri : string).

Definition run_purge (p : purge) : Mgr unit :=
  match p with
  | PGlobal => purgeGlobal config
  | PServer s => purgeServer config s
  | PTool s t => purgeTool sha256 config s t
  | PPrompt s t => purgePrompt sha256 config s t
  | PResource s u => purgeResource sha256 config s u
  | PInvalidate s u => invalidateResource sha256 config s u
  end.

(** What reaches the manager: lookups, finished executions to store, purges;
    and changes of the backend that are none of its doing (expiry, a sweep,
    an outage). *)
Inductive cache_event : Type :=
| EvLookup (now : Z) (c : CacheCall)
| EvStore (now : Z) (c : CacheCall) (r : json) (observations : Z) (captured : option VersionSet)
| EvPurge (p : purge)
| EvPurgeExact (c : CacheCall)
| EvBackend (f : S -> S).

Definition run_event (st : ManagerState S) (ev : cache_event) : ManagerState S :=
  match ev with
  | EvLookup now c => snd (lookup sha256 gunzipSync config now c st)
  | EvStore now c r n cap => snd (storeResult sha256 gzipSync config now c r n cap st)
  | EvPurge p => snd (run_purge p st)
  | EvPurgeExact c => snd (purgeExact sha256 config c st)
  | EvBackend f => {| cacheStore := f (cacheStore st); metrics := metrics st |}
  end.

Definition run (tr : list cache_event) (st : ManagerState S) : ManagerState S :=
  fold_left run_event tr st.

(** The backend loses entries on its own but keeps versions. *)
Definition backend_ok (ev : cache_event) : Prop :=
  match ev with
  | EvBackend f => forall s, version (f s) = version s
                             /\ forall k v, readable (f s) k v -> readable s k v
  | _ => True
  end.

Lemma holds_weaken V R R' st :
  holds V R st -> (forall k v, R k v -> R' k v) -> holds V R' st.
Proof. intros [HV HR] Hi. split; auto. Qed.

(** The key of a purge, and what bumping it does. *)
Definition purge_key (p : purge) : string :=
  match p with
  | PGlobal => global_key config
  | PServer s => server_key config s
  | PTool s t => entity_key sha256 config OpTool s t
  | PPrompt s t => entity_key sha256 config OpPrompt s t
  | PResource s u | PInvalidate s u => entity_key sha256 config OpResource s u
  end.

Definition purge_succeeds (p : purge) (st : ManagerState S) : Prop :=
  is_ok (fst (store_bumpNamespaceVersion (purge_key p) (cacheStore st))) = true.

Lemma run_purge_store (p : purge) st :
  cacheStore (snd (run_purge p st)) = snd (store_bumpNamespaceVersion (purge_key p) (cacheStore st)).
Proof.
  assert (Hb : forall k, cacheStore (snd (bumpNamespace k st))
                         = snd (store_bumpNamespaceVersion k (cacheStore st))).
  { intros k. unfold bumpNamespace, mbnd, try_store.
    destruct (store_bumpNamespaceVersion k (cacheStore st)) as [[n|e] s]; done. }
  destruct p; cbn [run_purge purge_key]; try apply Hb.
  unfold invalidateResource, mbnd. rewrite <- Hb. unfold purgeResource.
  by destruct (bumpNamespace _ st) as [[[]|e] st'].
Qed.

Lemma holds_purge (p : purge) R st :
  (forall k v, readable (cacheStore st) k v -> R k v) ->
  holds (version (cacheStore (snd (run_purge p st)))) R (snd (run_purge p st)).
Proof.
  intros HR. split; [done|]. intros k v. rewrite run_purge_store. intros Hr.
  by eapply HR, bump_readable.
Qed.

(** What an event may add to the readable entries. *)
Definition event_made (V : string -> Z) (ev : cache_event) (k buf : string) : Prop :=
  match ev with
  | EvStore now c r n cap =>
      (c_operation c = OpTool -> isToolResultCacheable r = true)
      /\ entry_made now c r (default (versions_in V c) cap) k buf
  | _ => False
  end.

Lemma run_event_readable ev st k buf :
  backend_ok ev -> readable (cacheStore (run_event st ev)) k buf ->
  readable (cacheStore st) k buf \/ event_made (version (cacheStore st)) ev k buf.
Proof.
  intros Hb. set (R := fun k buf => readable (cacheStore st) k buf
                        \/ event_made (version (cacheStore st)) ev k buf).
  assert (Hst : holds (version (cacheStore st)) R st) by (split; [done|intros; by left]).
  assert (Hgoal : forall k v, readable (cacheStore (run_event st ev)) k v -> R k v);
    [|by apply Hgoal].
  destruct ev as [now c|now c r n cap|p|c|f]; cbn [run_event].
  - apply (spec_lookup _ R now c st Hst).
  - apply (spec_storeResult (version (cacheStore st)) R now c r n cap); [|done].
    intros Ht k' b' Hm. right. by split.
  - apply (holds_purge p R). intros; by left.
  - apply (spec_purgeExact _ R c st Hst).
  - intros k' v Hr. left. by apply (Hb (cacheStore st)).
Qed.

Lemma run_event_version ev st :
  backend_ok ev -> forall k, version (cacheStore st) k <= version (cacheStore (run_event st ev)) k.
Proof.
  intros Hb k. set (R := fun _ _ : string => True).
  assert (Hst : holds (version (cacheStore st)) R st) by done.
  assert (Heq : forall st', holds (version (cacheStore st)) R st' ->
      version (cacheStore st) k <= version (cacheStore st') k) by (intros st' [-> _]; lia).
  destruct ev as [now c|now c r n cap|p|c|f]; cbn [run_event].
  - apply Heq, (spec_lookup _ R now c st Hst).
  - apply Heq, (spec_storeResult (version (cacheStore st)) R now c r n cap); done.
  - rewrite run_purge_store. apply bump_version.
  - apply Heq, (spec_purgeExact _ R c st Hst).
  - cbn [cacheStore]. by destruct (Hb (cacheStore st)) as [-> _].
Qed.

Lemma run_version tr st :
  Forall backend_ok tr -> forall k, version (cacheStore st) k <= version (cacheStore (run tr st)) k.
Proof.
  intros Hb. revert st. induction Hb as [|ev tr Hev Hb IH]; intros st k; [done|].
  etransitivity; [by apply (run_event_version ev)|apply IH].
Qed.

(** ** What a lookup returns *)

Section Theorems.
Hypothesis sha256_inj : forall x y, sha256 x = sha256 y -> x = y.
Hypothesis sha256_hex : forall x, str_mem ":" (sha256 x) = false.
Hypothesis gunzip_gzip : forall b, gunzipSync (gzipSync b) = Some b.
Hypothesis gzip_magic : forall b, isGzipBuffer (gzipSync b) = true.

Definition canonical_text (c : CacheCall) : string :=
  stableStringify (normalizeValue
    (applyFieldPolicies (denyFields (c_policy c)) (allowFields (c_policy c)) (c_params c))).

(** Two calls that share cache entries. *)
Definition same_request (c c' : CacheCall) : Prop :=
  c_operation c = c_operation c' /\ c_serverId c = c_serverId c' /\ c_entityId c = c_entityId c'
  /\ scope (c_policy c) = scope (c_policy c')
  /\ resolveScopeIdentity (c_scopeContext c) (scope (c_policy c))
     = resolveScopeIdentity (c_scopeContext c') (scope (c_policy c'))
  /\ canonical_text c = canonical_text c'.

Lemma result_entry_key_inj c c' id id' v v' :
  identity_of c id -> identity_of c' id' ->
  result_entry_key config c (runtime_context sha256 c id v)
  = result_entry_key config c' (runtime_context sha256 c' id' v') ->
  same_request c c' /\ v = v'.
Proof using sha256_inj sha256_hex.
  intros [Hi _] [Hi' _] Hk. unfold result_entry_key, buildResultEntryKey in Hk.
  apply str_app_inv_head, (str_app_inv_head ":rc:v2:") in Hk.
  apply (key_tail_inj sha256 sha256_inj sha256_hex) in Hk as (Ho & Hs & He & Hsc & -> & Hv & Ht).
  split; [|done]. repeat split; try done. by rewrite Hi, Hi'.
Qed.

(** Every readable entry was written by a store of the history. *)
Lemma readable_made tr st k buf :
  (forall k v, ~ readable (cacheStore st) k v) -> Forall backend_ok tr ->
  readable (cacheStore (run tr st)) k buf ->
  exists pre ev post, tr = pre ++ ev :: post
    /\ event_made (version (cacheStore (run pre st))) ev k buf.
Proof using.
  intros Hempty. induction tr as [|ev tr IH] using rev_ind; intros Hb Hr; [by apply Hempty in Hr|].
  apply Forall_app in Hb as [Hb Hev]. apply Forall_cons in Hev as [Hev _].
  unfold run in Hr. rewrite fold_left_app in Hr. cbn in Hr. fold (run tr st) in Hr.
  apply (run_event_readable ev) in Hr as [Hr|Hm]; [|by exists tr, ev, []|exact Hev].
  destruct (IH Hb Hr) as (pre & ev' & post & -> & Hm).
  exists pre, ev', (post ++ [ev]). by rewrite <- app_assoc.
Qed.

Lemma deserialize_entry now c rt r bytes obs e :
  is_json r = true ->
  deserialize gunzipSync (serialized_entry gzipSync config (new_entry now c rt r bytes obs)) = Some e ->
  payload e = r.
Proof using gunzip_gzip gzip_magic.
  intros Hr. unfold serialized_entry.
  rewrite (serializer_reads gzipSync gunzipSync gunzip_gzip gzip_magic) by done.
  by intros [= <-].
Qed.

(** C19: What a lookup returns was stored for the same request: in any history
    of lookups, finished calls and purges on a store that was empty, with
    entries expiring and the backend failing at any time, a hit's payload is
    the result of an earlier call of the same operation on the same server
    and entity, for the same user (or tenant, or globally), with parameters
    that are the same after the field policies; and it was not a tool's error
    result.  So one user never sees a result stored for another. *)
Theorem hit_was_stored (tr : list cache_event) (st : ManagerState S) (now : Z) (c : CacheCall)
    (l : CacheLookupResult) (e : CacheEntryEnvelope) :
  (forall k v, ~ readable (cacheStore st) k v) -> Forall backend_ok tr ->
  Forall (fun ev => match ev with EvStore _ _ r _ _ => is_json r = true | _ => True end) tr ->
  fst (lookup sha256 gunzipSync config now c (run tr st)) = Ok l ->
  hit l = true -> entry l = Some e ->
  exists now' c' r n cap, In (EvStore now' c' r n cap) tr /\ same_request c c' /\ payload e = r
    /\ (c_operation c = OpTool -> isToolResultCacheable r = true).
Proof using sha256_inj sha256_hex gunzip_gzip gzip_magic.
  intros Hempty Hb Hj Hl Hhit He. set (st' := run tr st) in *.
  set (R := fun k v => readable (cacheStore st') k v).
  destruct (spec_lookup (version (cacheStore st')) R now c st' ltac:(done)) as [_ HQ].
  destruct (HQ l Hl e Hhit He) as (id & buf & Hid & Hr & Hd).
  destruct (readable_made tr st _ buf Hempty Hb Hr) as (pre & ev & post & Htr & Hm).
  destruct ev as [|now' c' r n cap| | |]; try done.
  destruct Hm as (Ht & _ & _ & id' & bytes & obs & Hid' & _ & Hk & ->).
  destruct (result_entry_key_inj _ _ _ _ _ _ Hid Hid' Hk) as [Hsame _].
  assert (Hin : In (EvStore now' c' r n cap) tr) by (rewrite Htr; apply in_elt).
  exists now', c', r, n, cap. split; [done|]. split; [done|]. split.
  - eapply deserialize_entry; [|exact Hd].
    rewrite Forall_forall in Hj. by apply (Hj (EvStore now' c' r n cap)), list_elem_of_In.
  - intros Ho. apply Ht. destruct Hsame as [<- _]. done.
Qed.

(** ** Purging *)

Definition covers (p : purge) (c : CacheCall) : Prop :=
  match p with
  | PGlobal => True
  | PServer s => c_serverId c = s
  | PTool s t => c_operation c = OpTool /\ c_serverId c = s /\ c_entityId c = t
  | PPrompt s t => c_operation c = OpPrompt /\ c_serverId c = s /\ c_entityId c = t
  | PResource s u | PInvalidate s u =>
      c_operation c = OpResource /\ c_serverId c = s /\ c_entityId c = u
  end.

Definition v_le (v w : VersionSet) : Prop :=
  globalVersion v <= globalVersion w /\ serverVersion v <= serverVersion w
  /\ entityVersion v <= entityVersion w.

(** Captured versions were read earlier, so they are not ahead. *)
Definition captured_ok (V : string -> Z) (ev : cache_event) : Prop :=
  match ev with
  | EvStore _ c _ _ (Some v) => v_le v (versions_in V c)
  | _ => True
  end.

Fixpoint trace_ok (st : ManagerState S) (tr : list cache_event) : Prop :=
  match tr with
  | [] => True
  | ev :: tr' => captured_ok (version (cacheStore st)) ev /\ trace_ok (run_event st ev) tr'
  end.

(** Calls the purge covers store only what was looked up under versions read
    before it: the calls that were in flight. *)
Definition in_flight (p : purge) (V : string -> Z) (ev : cache_event) : Prop :=
  match ev with
  | EvStore _ c _ _ cap => covers p c -> exists v, cap = Some v /\ v_le v (versions_in V c)
  | _ => True
  end.

Lemma v_le_refl v : v_le v v.
Proof. unfold v_le. lia. Qed.

Lemma versions_in_mono V W c : (forall k, V k <= W k) -> v_le (versions_in V c) (versions_in W c).
Proof. intros Hm. repeat split; apply Hm. Qed.

Lemma v_le_trans u v w : v_le u v -> v_le v w -> v_le u w.
Proof. unfold v_le. lia. Qed.

Lemma versions_in_same V c c' : same_request c c' -> versions_in V c = versions_in V c'.
Proof. intros (Ho & Hs & He & _). unfold versions_in. by rewrite Ho, Hs, He. Qed.

Lemma covers_same p c c' : same_request c c' -> covers p c -> covers p c'.
Proof. intros (Ho & Hs & He & _). destruct p; cbn; rewrite ?Ho, ?Hs, ?He; done. Qed.

(** A covered call's versions include the purged namespace. *)
Lemma covers_version p c V W :
  covers p c -> V (purge_key p) < W (purge_key p) -> ~ v_le (versions_in W c) (versions_in V c).
Proof using.
  intros Hc Hlt (Hg & Hs & He). cbn [versions_in globalVersion serverVersion entityVersion] in *.
  destruct p; cbn [covers purge_key] in *; destruct_and?; subst;
    repeat match goal with H : c_operation c = _ |- _ => rewrite H in He end; lia.
Qed.

(** The entries of covered calls have versions at most [V]. *)
Definition stale (p : purge) (V : string -> Z) (k : string) : Prop :=
  forall c id v, identity_of c id -> covers p c ->
    k = result_entry_key config c (runtime_context sha256 c id v) -> v_le v (versions_in V c).

Lemma stale_made p V V0 ev k buf :
  in_flight p V ev -> event_made V0 ev k buf -> stale p V k.
Proof using sha256_inj sha256_hex.
  intros Hf Hm c id v Hid Hc Hk. destruct ev as [|now c' r n cap| | |]; try done.
  destruct Hm as (_ & _ & _ & id' & bytes & obs & Hid' & _ & Hk' & _). rewrite Hk in Hk'.
  destruct (result_entry_key_inj _ _ _ _ _ _ Hid Hid' Hk') as [Hsame ->].
  destruct (Hf (covers_same _ _ _ Hsame Hc)) as (w & -> & Hw). cbn.
  by rewrite (versions_in_same V _ _ Hsame).
Qed.

Lemma run_stale p V tr st :
  Forall backend_ok tr -> Forall (in_flight p V) tr ->
  (forall k buf, readable (cacheStore st) k buf -> stale p V k) ->
  forall k buf, readable (cacheStore (run tr st)) k buf -> stale p V k.
Proof using sha256_inj sha256_hex.
  intros Hb. revert st. induction Hb as [|ev tr Hev Hb IH]; intros st Hf Hst; [done|].
  apply Forall_cons in Hf as [Hfe Hf]. apply (IH (run_event st ev) Hf).
  intros k buf Hr. apply (run_event_readable ev) in Hr as [Hr|Hm]; [by eapply Hst| |exact Hev].
  by eapply stale_made.
Qed.

(** Before the purge: no entry's versions are ahead of the store's.  Seen as
    staleness for the purge of everything. *)
Lemma run_not_ahead tr st :
  Forall backend_ok tr -> trace_ok st tr ->
  (forall k buf, readable (cacheStore st) k buf -> stale PGlobal (version (cacheStore st)) k) ->
  forall k buf, readable (cacheStore (run tr st)) k buf ->
    stale PGlobal (version (cacheStore (run tr st))) k.
Proof using sha256_inj sha256_hex.
  intros Hb. revert st. induction Hb as [|ev tr Hev Hb IH]; intros st Hok Hst; [done|].
  destruct Hok as [Hcap Hok]. apply (IH (run_event st ev) Hok).
  assert (Hmono : forall k, stale PGlobal (version (cacheStore st)) k ->
            stale PGlobal (version (cacheStore (run_event st ev))) k).
  { intros k Hk c id v Hid Hc E. eapply v_le_trans; [by eapply Hk|].
    by apply versions_in_mono, run_event_version. }
  intros k buf Hr. apply Hmono.
  apply (run_event_readable ev) in Hr as [Hr|Hm]; [by eapply Hst| |exact Hev].
  destruct ev as [|now c' r n [w|]| | |]; try done.
  - eapply stale_made; [|exact Hm]. intros _. by exists w.
  - intros c id v Hid Hc Hk. destruct Hm as (_ & _ & _ & id' & ? & ? & Hid' & _ & Hk' & _).
    rewrite Hk in Hk'. destruct (result_entry_key_inj _ _ _ _ _ _ Hid Hid' Hk') as [Hsame ->].
    rewrite <- (versions_in_same _ _ _ Hsame). apply v_le_refl.
Qed.

(** C20: Purging works at once and for good: after a successful purge of
    everything, a server, a tool, a prompt or a resource, no lookup it covers
    returns what was stored before, and the results of calls that were in
    flight when the purge came stay invisible even when they are stored after
    it, if their lookups had captured the versions of the namespaces.  This
    holds in every history of lookups, stores, purges, expiry and backend
    failures in which whatever is stored after the purge is such a result (a
    call looked up after the purge stores what may be returned again).  A call
    whose lookup captured no versions, because the backend was down, is left
    out: its result does survive a purge
    ([uncaptured_store_survives_purge]). *)
Theorem purge_makes_unreachable (tr1 tr2 : list cache_event) (p : purge) (st : ManagerState S)
    (now : Z) (c : CacheCall) (l : CacheLookupResult) :
  (forall k v, ~ readable (cacheStore st) k v) ->
  Forall backend_ok (tr1 ++ tr2) -> trace_ok st tr1 ->
  purge_succeeds p (run tr1 st) -> covers p c ->
  Forall (in_flight p (version (cacheStore (run tr1 st)))) tr2 ->
  fst (lookup sha256 gunzipSync config now c (run tr2 (run_event (run tr1 st) (EvPurge p)))) = Ok l ->
  entry l = None \/ hit l = false.
Proof using sha256_inj sha256_hex.
  intros Hempty Hb Hok Hp Hc Hf Hl. apply Forall_app in Hb as [Hb1 Hb2].
  set (st1 := run tr1 st) in *. set (st2 := run_event st1 (EvPurge p)) in *.
  set (V0 := version (cacheStore st1)) in *.
  assert (Hst1 : forall k buf, readable (cacheStore st1) k buf -> stale p V0 k).
  { intros k buf Hr c' id v Hid _ Hk.
    apply (run_not_ahead tr1 st Hb1 Hok) with (k := k) (buf := buf) (id := id); try done.
    intros k' buf' Hr'. by destruct (Hempty k' buf'). }
  assert (Hst2 : forall k buf, readable (cacheStore st2) k buf -> stale p V0 k).
  { intros k buf Hr. eapply Hst1. unfold st2 in Hr. cbn [run_event] in Hr.
    rewrite run_purge_store in Hr. by eapply bump_readable. }
  destruct (entry l) as [e|] eqn:He; [|by left]. right.
  destruct (hit l) eqn:Hhit; [exfalso|done].
  set (st3 := run tr2 st2) in *.
  destruct (spec_lookup (version (cacheStore st3)) (fun k v => readable (cacheStore st3) k v) now c
              st3 ltac:(done)) as [_ HQ].
  destruct (HQ l Hl e Hhit He) as (id & buf & Hid & Hr & _).
  eapply run_stale in Hr; [|exact Hb2|exact Hf|exact Hst2].
  refine (covers_version p c V0 (version (cacheStore st3)) Hc _ _); [|by eapply Hr].
  assert (version (cacheStore st2) (purge_key p) = V0 (purge_key p) + 1) as Hbump.
  { unfold st2, purge_succeeds in *. cbn [run_event]. rewrite run_purge_store.
    destruct (fst (store_bumpNamespaceVersion (purge_key p) (cacheStore st1))) as [n|] eqn:En; [|done].
    by eapply bump_ok. }
  pose proof (run_version tr2 st2 Hb2 (purge_key p)) as Hv. fold st3 in Hv. lia.
Qed.
End Theorems.

(** ** Admission *)

(** What must hold for [store] to report success. *)
Definition stored_ok (V : string -> Z) (now : Z) (c : CacheCall) (r : json)
    (cap : option VersionSet) : Prop :=
  exists k buf, entry_made now c r (default (versions_in V c) cap) k buf
    /\ (exists bytes, estimatePayloadBytes r = Some bytes /\ bytes <= maxEntryBytes (c_policy c))
    /\ Z.of_nat (String.length buf) <= maxEntryBytes (c_policy c).

Lemma store_true V now c r obs cap promo :
  spec V (fun _ _ => True) (store sha256 gzipSync config now c r obs cap promo)
    (fun b => b = true -> stored_ok V now c r cap).
Proof.
  unfold store. spec_step; [spec_step; [apply spec_inc|by apply spec_ret]|]. to_prop.
  eapply spec_bind; [apply spec_resolve|]. intros [reason|rt] Hrt;
    [spec_step; [apply spec_inc|by apply spec_ret]|].
  destruct (Hrt rt eq_refl) as (identity & Hid & ->).
  destruct (estimatePayloadBytes r) as [bytes|] eqn:Eb; [|repeat spec_step; by apply spec_ret].
  spec_step; [repeat spec_step; by apply spec_ret|].
  spec_step; [repeat spec_step; by apply spec_ret|]. to_prop.
  eapply spec_bind; [by apply spec_set|]. intros [u|e] _; [|repeat spec_step; by apply spec_ret].
  spec_step; [apply spec_inc|]. spec_step; [repeat spec_step|]. apply spec_ret. intros _.
  eexists _, _. split; [split; [done|split; [done|]]; exists identity, bytes, obs; done|].
  split; [by exists bytes|done].
Qed.

Lemma resolve_attempts c cap st :
  attempts (cacheStore (snd (resolveRuntimeContext sha256 config c cap st))) = attempts (cacheStore st).
Proof.
  unfold resolveRuntimeContext. destruct (resolveScopeIdentity _ _); [|done].
  case_bool; [|done]. destruct cap; [done|].
  unfold readVersions, mbnd, try_store, inc, mmodify, mret. cbn [getNamespaceKeys cacheStore metrics].
  destruct (store_getNamespaceVersion (global_key config) (cacheStore st)) as [r1 s1] eqn:E1. cbn.
  destruct (store_getNamespaceVersion (server_key config (c_serverId c)) s1) as [r2 s2] eqn:E2. cbn.
  destruct (store_getNamespaceVersion (entity_key sha256 config (c_operation c) (c_serverId c) (c_entityId c)) s2)
    as [r3 s3] eqn:E3. cbn.
  assert (Hs : attempts s3 = attempts (cacheStore st)).
  { pose proof (version_attempts (global_key config) (cacheStore st)) as H1.
    pose proof (version_attempts (server_key config (c_serverId c)) s1) as H2.
    pose proof (version_attempts (entity_key sha256 config (c_operation c) (c_serverId c) (c_entityId c)) s2) as H3.
    rewrite E1 in H1. rewrite E2 in H2. rewrite E3 in H3. cbn in *. congruence. }
  by destruct r1, r2, r3.
Qed.

(** The observation a call counts. *)
Definition observed (st : ManagerState S) (now : Z) (c : CacheCall) (cap : option VersionSet)
    (n : Z) : Prop :=
  exists identity, identity_of c identity
    /\ n = attempts (cacheStore st) now
             (admission_key config c (runtime_context sha256 c identity
                (default (versions_in (version (cacheStore st)) c) cap))).

Lemma recordAdmission_count now c cap st n :
  fst (recordAdmission sha256 config now c cap st) = Ok n -> n = 0 \/ observed st now c cap (n - 1).
Proof.
  unfold recordAdmission. case_bool; [intros [= <-]; by left|]. unfold mbnd at 1.
  destruct (spec_resolve (version (cacheStore st)) (fun _ _ => True) c cap st ltac:(done)) as [_ HQ].
  pose proof (resolve_attempts c cap st) as Ha.
  destruct (resolveRuntimeContext sha256 config c cap st) as [[[reason|rt]|e] st1];
    [intros [= <-]; by left| |done].
  destruct (HQ _ eq_refl rt eq_refl) as (identity & Hid & ->). cbn [snd] in Ha.
  unfold mbnd, try_store.
  destruct (store_recordAdmissionAttempt now _ _ (cacheStore st1)) as [[k|e] s] eqn:Er; cbn;
    intros [= <-]; [right|by left].
  exists identity. split; [done|].
  pose proof (record_ok now (admission_key config c (runtime_context sha256 c identity
     (default (versions_in (version (cacheStore st)) c) cap))) (admissionWindowSeconds (c_policy c))
     (cacheStore st1) k) as Hk. rewrite Er in Hk. rewrite Hk by done. rewrite Ha. lia.
Qed.

(** The gate in front of the cache: a result is stored only when caching
    and the policy are on, the scope has an identity, a tool result is not an
    error, both the payload and the serialised entry fit the policy's limit,
    and, under the second-hit policy, an earlier call was counted in the
    admission window (a single call counts once, so the first one of a
    window is never stored). *)
Theorem store_gate (st : ManagerState S) (now : Z) (c : CacheCall) (r : json) (n : Z)
    (cap : option VersionSet) :
  fst (storeResult sha256 gzipSync config now c r n cap st) = Ok true ->
  (c_operation c = OpTool -> isToolResultCacheable r = true)
  /\ stored_ok (version (cacheStore st)) now c r cap
  /\ (admissionPolicy (c_policy c) = SecondHit -> n <= 1 ->
      exists earlier, observed st now c cap earlier /\ 1 <= earlier).
Proof.
  intros Hs. set (V := version (cacheStore st)).
  assert (Hst : holds V (fun _ _ => True) st) by done.
  unfold storeResult in Hs. destruct (bool_decide _ && _) eqn:Et; [done|]. split.
  { intros Ho. rewrite bool_decide_true in Et by done. by apply negb_false_iff in Et. }
  destruct (admissionPolicy (c_policy c)) eqn:Ea.
  - split; [|done]. by apply (proj2 (store_true V now c r 0 cap false st Hst) true).
  - unfold mbnd in Hs at 1.
    destruct (spec_recordAdmissions V (fun _ _ => True) (Z.to_nat (Z.max 1 n)) now c cap 0 st Hst)
      as [Hst1 _].
    destruct (recordAdmissions sha256 config (Z.to_nat (Z.max 1 n)) now c cap 0 st)
      as [[count|e] st1] eqn:Er; [|done]. cbn [snd] in Hst1.
    unfold shouldPromote in Hs. rewrite Ea in Hs.
    destruct (2 <=? count) eqn:Ec; [|done]. to_prop. cbn [mbnd mret negb] in Hs. unfold mbnd in Hs.
    cbn [mret negb] in Hs. split.
    + destruct (store_true V now c r count cap true st1 Hst1) as [_ HQ].
      destruct (store sha256 gzipSync config now c r count cap true st1) as [[[]|e] st2]; [|done|done].
      by apply (HQ true).
    + intros _ Hn. replace (Z.to_nat (Z.max 1 n)) with 1%nat in Er by lia.
      cbn [recordAdmissions] in Er. unfold mbnd in Er.
      pose proof (recordAdmission_count now c cap st) as Hc.
      destruct (recordAdmission sha256 config now c cap st) as [[k|e] st']; [|done].
      injection Er as -> ->. destruct (Hc count eq_refl) as [->|Ho]; [lia|].
      exists (count - 1). split; [done|lia].
Qed.

End Correct.

(** ** Witnesses: the in-memory store and concrete calls *)

Definition witness_policy (a : AdmissionPolicy) : ResolvedCachePolicy :=
  {| enabled := true; ttlSeconds := 30; scope := ScopeUser; admissionPolicy := a;
     admissionWindowSeconds := 300; denyFields := []; allowFields := None; maxEntryBytes := 1024 |}.

Definition witness_call (a : AdmissionPolicy) (user : string) : CacheCall :=
  {| c_operation := OpTool; c_serverId := "srv"; c_entityId := "get";
     c_scopeContext := {| userId := Some user; tenantId := None |};
     c_policy := witness_policy a; c_params := JObj [("q", JNum 1)] |}.

Definition witness_result : json := JObj [("content", JArr [JStr "x"])].

Definition memory_start : ManagerState Memory.MemoryResultCacheStore :=
  {| cacheStore := Memory.memory_empty 10; metrics := gmap_empty |}.

Lemma memory_start_empty k v : ~ readable (cacheStore memory_start) k v.
Proof. by intros (e & Hin & _). Qed.

Notation wlookup := (lookup hex_text toy_gunzip witness_config).
Notation wrun := (run hex_text toy_gzip toy_gunzip witness_config).

Definition stored_history : list (@cache_event Memory.MemoryResultCacheStore) :=
  [EvLookup 0 (witness_call Immediate "u"); EvStore 1 (witness_call Immediate "u") witness_result 1 None].

Lemma hit_was_stored_witness :
  exists l e,
    fst (wlookup 5 (witness_call Immediate "u") (wrun stored_history memory_start)) = Ok l
    /\ hit l = true /\ entry l = Some e
    /\ exists now' c' r n cap, In (EvStore now' c' r n cap) stored_history
         /\ same_request (witness_call Immediate "u") c' /\ payload e = r
         /\ (OpTool = OpTool -> isToolResultCacheable r = true).
Proof.
  eexists _, _. split; [vm_compute; reflexivity|]. split; [reflexivity|]. split; [reflexivity|].
  eapply (hit_was_stored hex_text toy_gzip toy_gunzip witness_config hex_text_inj hex_text_no_colon
            ltac:(reflexivity) ltac:(reflexivity) stored_history memory_start 5).
  - apply memory_start_empty.
  - by repeat constructor.
  - by repeat constructor.
  - vm_compute. reflexivity.
  - reflexivity.
  - reflexivity.
Defined.

(** A call looked up before the purge and stored after it. *)
Definition late_store : list (@cache_event Memory.MemoryResultCacheStore) :=
  [EvStore 2 (witness_call Immediate "u") witness_result 1
     (Some {| globalVersion := 0; serverVersion := 0; entityVersion := 0 |})].

Lemma purge_makes_unreachable_witness :
  exists l,
    fst (wlookup 5 (witness_call Immediate "u")
           (wrun late_store (run_event hex_text toy_gzip toy_gunzip witness_config
              (wrun stored_history memory_start) (EvPurge (PTool "srv" "get"))))) = Ok l
    /\ (entry l = None \/ hit l = false).
Proof.
  eexists. split; [vm_compute; reflexivity|].
  eapply (purge_makes_unreachable hex_text toy_gzip toy_gunzip witness_config hex_text_inj
            hex_text_no_colon stored_history late_store (PTool "srv" "get") memory_start 5
            (witness_call Immediate "u")).
  - apply memory_start_empty.
  - by repeat constructor.
  - done.
  - vm_compute. reflexivity.
  - done.
  - constructor; [|constructor]. intros _. eexists. split; [reflexivity|].
    vm_compute. repeat split; discriminate.
  - vm_compute. reflexivity.
Defined.

(** Two calls under the second-hit policy: the second one is stored. *)
Definition one_observation : ManagerState Memory.MemoryResultCacheStore :=
  snd (storeResult hex_text toy_gzip witness_config 1 (witness_call SecondHit "u") witness_result 1 None
         memory_start).

Lemma store_gate_witness :
  fst (storeResult hex_text toy_gzip witness_config 1 (witness_call SecondHit "u") witness_result 1 None
         memory_start) = Ok false
  /\ exists earlier, observed hex_text witness_config one_observation 2 (witness_call SecondHit "u") None earlier
       /\ 1 <= earlier.
Proof.
  split; [vm_compute; reflexivity|].
  refine (proj2 (proj2 (store_gate hex_text toy_gzip witness_config one_observation 2
    (witness_call SecondHit "u") witness_result 1 None _)) _ _).
  - vm_compute. reflexivity.
  - reflexivity.
  - discriminate.
Defined.

(** ** A purge that misses an in-flight call

    When the versions cannot be read at lookup (the database is down for a
    moment), the call goes on without captured versions and its result is
    stored under the versions of the time of the store: a purge in between
    does not hide it. *)
Definition db_start (up : bool) : ManagerState DbTables :=
  {| cacheStore := {| entry_rows := gmap_empty; counter_rows := gmap_empty; version_rows := gmap_empty;
                      db_skew := 0; db_up := up |};
     metrics := gmap_empty |}.

Definition db_recovers (s : DbTables) : DbTables :=
  {| entry_rows := entry_rows s; counter_rows := counter_rows s; version_rows := version_rows s;
     db_skew := db_skew s; db_up := true |}.

Lemma uncaptured_store_survives_purge :
  let lookup_db := lookup (H := db_store toy_gunzip) hex_text toy_gunzip witness_config in
  let run_db := run (H := db_store toy_gunzip) hex_text toy_gzip toy_gunzip witness_config in
  let c := witness_call Immediate "u" in
  (exists l, fst (lookup_db 0 c (db_start false)) = Ok l /\ lookupVersions l = None)
  /\ exists l, fst (lookup_db 9 c (run_db [EvLookup 0 c; EvBackend db_recovers; EvPurge (PTool "srv" "get");
                                   EvStore 2 c witness_result 1 None] (db_start false))) = Ok l
               /\ hit l = true.
Proof. split; eexists; (split; [vm_compute; reflexivity|reflexivity]). Qed.
