(* ===== verification/Singleflight.v ===== *)
(** * Result cache: coalescing of concurrent calls

    [src/src/mcp/core/cache/SingleflightRegistry.ts] and the key
    [ResultCacheService.executeWithCache] coalesces under.  [execute] runs in
    two synchronous pieces, before and after awaiting the factory; a history
    is any interleaving of the pieces of concurrent calls.  A flight's
    promise is represented by the number of the call that created it. *)
From Stdlib Require Import Ascii ZArith Lia.
From stdpp Require Import base gmap strings list fin_maps.
From S2P Require Import Prelude Json CacheKey CachePolicy ResultCache.
Open Scope Z_scope.

Record flight : Type := { promise : nat; observerCount : Z }.

(** The registry; [calls] numbers the promises. *)
Record SingleflightRegistry : Type := { inflight : gmap string flight; calls : nat }.

Definition new_registry : SingleflightRegistry := {| inflight := gmap_empty; calls := 0 |}.

Inductive role : Type := Leader (id : nat) | Follower (id : nat).

(** [execute] up to its first [await]. *)
Definition execute_begin (key : string) (s : SingleflightRegistry) : role * SingleflightRegistry :=
  match inflight s !! key with
  | Some existing =>
      (Follower (promise existing),
       {| inflight := <[key := {| promise := promise existing;
                                  observerCount := observerCount existing + 1 |}]> (inflight s);
          calls := calls s |})
  | None =>
      (Leader (calls s),
       {| inflight := <[key := {| promise := calls s; observerCount := 0 |}]> (inflight s);
          calls := S (calls s) |})
  end.

(** The leader after its factory settled: the request count it reports and
    the [finally] block. *)
Definition execute_settle (key : string) (id : nat) (s : SingleflightRegistry)
    : Z * SingleflightRegistry :=
  let count := match inflight s !! key with Some f => observerCount f | None => 0 end in
  (count + 1,
   match inflight s !! key with
   | Some current =>
       if (promise current =? id)%nat
       then {| inflight := base.delete key (inflight s); calls := calls s |} else s
   | None => s
   end).

Definition recordObserver (key : string) (s : SingleflightRegistry) : SingleflightRegistry :=
  match inflight s !! key with
  | Some f => {| inflight := <[key := {| promise := promise f; observerCount := observerCount f + 1 |}]>
                               (inflight s);
                 calls := calls s |}
  | None => s
  end.

Definition getObserverCount (key : string) (s : SingleflightRegistry) : Z :=
  match inflight s !! key with Some f => observerCount f | None => 0 end.

(** The key of a call with a scope identity. *)
Definition versionSuffix (v : option VersionSet) : string :=
  match v with
  | Some v => ":" +:+ z_to_string (globalVersion v) +:+ ":" +:+ z_to_string (serverVersion v)
              +:+ ":" +:+ z_to_string (entityVersion v)
  | None => ""
  end.

Definition cacheKeyForSingleflight (sha256 : string -> string) (c : CacheCall) (identity : string)
    (v : option VersionSet) : string :=
  "sf:" +:+ operation_text (c_operation c) +:+ ":" +:+ c_serverId c +:+ ":" +:+ c_entityId c +:+ ":"
  +:+ identity +:+ ":"
  +:+ canonicalizeParams sha256 (c_params c) (denyFields (c_policy c)) (allowFields (c_policy c))
  +:+ versionSuffix v.

(** ** Histories *)

Inductive sf_event : Type :=
| Begin (key : string)
| Settle (key : string) (id : nat).

(** The registry with what happened so far: the leaders whose factory runs,
    and the flights that followers joined. *)
Record sf_state : Type := {
  registry : SingleflightRegistry;
  running : list (string * nat);
  joined : list (string * nat)
}.

Definition sf_start : sf_state := {| registry := new_registry; running := []; joined := [] |}.

Inductive sf_step : sf_state -> sf_event -> sf_state -> Prop :=
| step_lead s key id r :
    execute_begin key (registry s) = (Leader id, r) ->
    sf_step s (Begin key) {| registry := r; running := (key, id) :: running s; joined := joined s |}
| step_follow s key id r :
    execute_begin key (registry s) = (Follower id, r) ->
    sf_step s (Begin key) {| registry := r; running := running s; joined := (key, id) :: joined s |}
| step_settle s key id n r :
    (key, id) ∈ running s -> execute_settle key id (registry s) = (n, r) ->
    sf_step s (Settle key id)
      {| registry := r; running := List.filter (fun p => negb (bool_decide (p = (key, id)))) (running s);
         joined := joined s |}.

Inductive sf_reach : sf_state -> Prop :=
| reach_start : sf_reach sf_start
| reach_step s ev s' : sf_reach s -> sf_step s ev s' -> sf_reach s'.

Definition joiners (key : string) (id : nat) (l : list (string * nat)) : Z :=
  Z.of_nat (length (List.filter (fun p => bool_decide (p = (key, id))) l)).

(** The registry holds exactly the running leaders, each once, with the
    number of calls that joined it. *)
Definition sf_inv (s : sf_state) : Prop :=
  (forall key id, (key, id) ∈ running s <->
     exists f, inflight (registry s) !! key = Some f /\ promise f = id)
  /\ (forall key f, inflight (registry s) !! key = Some f ->
        observerCount f = joiners key (promise f) (joined s) /\ (promise f < calls (registry s))%nat)
  /\ (forall p, p ∈ joined s -> (p.2 < calls (registry s))%nat).

Lemma joiners_cons key id p l :
  joiners key id (p :: l) = (if bool_decide (p = (key, id)) then 1 else 0) + joiners key id l.
Proof. unfold joiners. cbn. destruct (bool_decide _); cbn; lia. Qed.

Lemma joiners_none key id l : (forall p, p ∈ l -> p.2 <> id) -> joiners key id l = 0.
Proof.
  induction l as [|p l IH]; intros Hp; [done|]. rewrite joiners_cons, IH.
  - rewrite bool_decide_false; [done|]. intros ->. by apply (Hp (key, id)); [left|].
  - intros q Hq. apply Hp. by right.
Qed.

Lemma sf_step_inv s ev s' : sf_inv s -> sf_step s ev s' -> sf_inv s'.
Proof.
  intros (Hrun & Hobs & Hj) Hstep.
  destruct Hstep as [s key id r E|s key id r E|s key id n r Hin E]; cbn [registry running joined];
    unfold execute_begin, execute_settle in E;
    destruct (inflight (registry s) !! key) as [f|] eqn:Ef; simplify_eq; unfold sf_inv; cbn.
  - repeat split.
    + intros [[= -> ->]|Hin]%elem_of_cons; [eexists; by rewrite lookup_insert_eq|].
      apply Hrun in Hin as (f & Hf & <-). exists f. split; [|done].
      rewrite lookup_insert_ne; [done|]. congruence.
    + intros (f & Hf & <-). apply lookup_insert_Some in Hf as [[<- <-]|[Hk Hf]]; [by left|].
      right. apply Hrun. by exists f.
    + apply lookup_insert_Some in H as [[<- <-]|[Hk Hf]]; cbn; [|by apply Hobs].
      rewrite joiners_none; [done|]. intros p Hp. apply Hj in Hp. lia.
    + apply lookup_insert_Some in H as [[<- <-]|[Hk Hf]]; cbn; [lia|]. apply Hobs in Hf. lia.
    + intros p Hp. apply Hj in Hp. lia.
  - pose proof (Hobs key f Ef) as [Ho Hc]. repeat split.
    + intros Hin. apply Hrun in Hin as (f' & Hf & <-).
      destruct (base.decide (key = key0)) as [->|Hk].
      * eexists. rewrite lookup_insert_eq. split; [done|]. cbn. congruence.
      * exists f'. by rewrite lookup_insert_ne.
    + intros (f' & Hf & <-). apply Hrun.
      apply lookup_insert_Some in Hf as [[<- <-]|[Hk Hf]]; [by exists f|by exists f'].
    + apply lookup_insert_Some in H as [[<- <-]|[Hk Hf]]; cbn; rewrite joiners_cons.
      * rewrite bool_decide_true by done. lia.
      * rewrite bool_decide_false by congruence. rewrite (proj1 (Hobs _ _ Hf)). lia.
    + apply lookup_insert_Some in H as [[<- <-]|[Hk Hf]]; cbn; [done|]. by apply Hobs in Hf as [_ ?].
    + intros p [->|Hp]%elem_of_cons; [done|by apply Hj].
  - apply Hrun in Hin as (f' & Hf & <-). simplify_eq. rewrite Nat.eqb_refl. cbn. repeat split.
    + intros Hin. apply list_elem_of_In, filter_In in Hin as [Hin Hne].
      apply list_elem_of_In, Hrun in Hin as (g & Hg & <-). exists g. split; [|done].
      rewrite lookup_delete_ne; [done|]. intros ->. simplify_eq.
      by rewrite bool_decide_true in Hne.
    + intros (g & Hg & <-). apply lookup_delete_Some in Hg as [Hk Hg].
      apply list_elem_of_In, filter_In. split; [apply list_elem_of_In, Hrun; by exists g|].
      rewrite bool_decide_false; [done|congruence].
    + apply lookup_delete_Some in H as [Hk Hg]. by apply Hobs in Hg as [? _].
    + apply lookup_delete_Some in H as [Hk Hg]. by apply Hobs in Hg as [_ ?].
    + done.
  - apply Hrun in Hin as (f' & Hf & _). congruence.
Qed.

Lemma sf_reach_inv s : sf_reach s -> sf_inv s.
Proof.
  induction 1 as [|s ev s' Hs IH Hstep]; [|by eapply sf_step_inv].
  repeat split; cbn; try done.
  - by intros ?%elem_of_nil.
  - intros (f & Hf & _). done.
  - by intros p ?%elem_of_nil.
Qed.

(** Concurrent calls with the same key share one upstream call: in every
    interleaving at most one factory runs per key, a call that arrives while
    it runs waits for exactly that one, and the count the leader reports
    when it finishes is one plus the calls that joined it. *)
Theorem one_flight_per_key (s : sf_state) (key : string) :
  sf_reach s ->
  (forall id id', (key, id) ∈ running s -> (key, id') ∈ running s -> id = id')
  /\ (forall id, (key, id) ∈ running s ->
        fst (execute_begin key (registry s)) = Follower id
        /\ fst (execute_settle key id (registry s)) = 1 + joiners key id (joined s))
  /\ ((forall id, (key, id) ∉ running s) -> exists id, fst (execute_begin key (registry s)) = Leader id).
Proof.
  intros Hs. destruct (sf_reach_inv s Hs) as (Hrun & Hobs & _). split; [|split].
  - intros id id' (f & Hf & <-)%Hrun (f' & Hf' & <-)%Hrun. congruence.
  - intros id (f & Hf & <-)%Hrun. unfold execute_begin, execute_settle. rewrite Hf. split; [done|].
    cbn. rewrite (proj1 (Hobs _ _ Hf)). lia.
  - intros Hno. unfold execute_begin. destruct (inflight (registry s) !! key) as [f|] eqn:Ef;
      [|by eexists].
    destruct (Hno (promise f)). apply Hrun. by exists f.
Qed.

(** Two calls for one key, a third after the first finished. *)
Lemma one_flight_per_key_witness :
  exists s, sf_reach s /\ joined s = [("k"%string, 0%nat)] /\ running s = [("k"%string, 1%nat)]
    /\ fst (execute_begin "k" (registry s)) = Follower 1
    /\ fst (execute_settle "k" 1 (registry s)) = 1.
Proof.
  assert (Hr : exists s, sf_reach s /\ joined s = [("k"%string, 0%nat)] /\ running s = [("k"%string, 1%nat)]).
  { eexists. split; [|split; cycle 1].
    - eapply reach_step; [eapply reach_step; [eapply reach_step;
        [eapply reach_step; [apply reach_start|]|]|]|].
      + by eapply (step_lead _ "k").
      + by eapply (step_follow _ "k").
      + eapply (step_settle _ "k" 0); [by left|reflexivity].
      + by eapply (step_lead _ "k").
    - reflexivity.
    - reflexivity. }
  destruct Hr as (s & Hs & Hj & Hrun). exists s. split; [done|]. split; [done|]. split; [done|].
  destruct (one_flight_per_key s "k" Hs) as (_ & H & _). destruct (H 1%nat) as [H1 H2].
  - rewrite Hrun. by left.
  - split; [exact H1|]. rewrite H2, Hj. reflexivity.
Defined.

(** Identifiers that contain the separator let different users share a
    flight. *)
Lemma singleflight_keys_collide (sha256 : string -> string) (p : ResolvedCachePolicy) (params : json) v :
  let call ent := {| c_operation := OpResource; c_serverId := "srv"; c_entityId := ent;
                     c_scopeContext := {| userId := None; tenantId := None |};
                     c_policy := p; c_params := params |} in
  cacheKeyForSingleflight sha256 (call "file:u1") "x" v = cacheKeyForSingleflight sha256 (call "file") "u1:x" v.
Proof. reflexivity. Qed.
