(* ===== verification/Effects.v ===== *)
(** * Programs that call out

    A handler that spends its life awaiting other components is a tree of
    calls: what it asks next depends on the answers so far.  The environment
    may answer anything its answer type allows, which covers every state of
    the components and every interleaving with other handlers.  This file has
    the trees, their runs, a weakest-precondition calculus for what may happen
    along a run, and one for programs that wait on the clock. *)
From Stdlib Require Import ZArith Lia.
From stdpp Require Import base list.
From S2P Require Import Prelude.
Open Scope Z_scope.

Section Prog.
Variable E : Type -> Type.

(** A call [e : E X] is answered by an [X].  [OutOfFuel] marks a loop cut
    short by the model. *)
Inductive prog (A : Type) : Type :=
| Ret (a : A)
| Vis (X : Type) (e : E X) (k : X -> prog A)
| OutOfFuel.
Arguments Ret {A} a.
Arguments Vis {A} X e k.
Arguments OutOfFuel {A}.

Definition perform {X} (e : E X) : prog X := Vis X e Ret.

Fixpoint pbind {A B} (p : prog A) (k : A -> prog B) : prog B :=
  match p with
  | Ret a => k a
  | Vis X e c => Vis X e (fun x => pbind (c x) k)
  | OutOfFuel => OutOfFuel
  end.

(** An answered call. *)
Inductive event : Type := Ev (X : Type) (e : E X) (x : X).

(** [runs p tr r]: answered as in [tr], [p] ends with [r] ([None]: out of
    fuel). *)
Fixpoint runs {A} (p : prog A) (tr : list event) (r : option A) : Prop :=
  match p with
  | Ret a => tr = [] /\ r = Some a
  | OutOfFuel => tr = [] /\ r = None
  | Vis X e k => exists x tr', tr = Ev X e x :: tr' /\ runs (k x) tr' r
  end.

Lemma runs_bind_inv {A B} (p : prog A) (k : A -> prog B) (tr : list event) (b : B) :
  runs (pbind p k) tr (Some b) ->
  exists tr1 a tr2, tr = tr1 ++ tr2 /\ runs p tr1 (Some a) /\ runs (k a) tr2 (Some b).
Proof.
  revert tr. induction p as [a|X e c IH|]; cbn; intros tr H.
  - by exists [], a, tr.
  - destruct H as (x & tr' & -> & H). destruct (IH x tr' H) as (tr1 & a & tr2 & -> & H1 & H2).
    exists (Ev X e x :: tr1), a, tr2. split; [done|]. split; [|done]. by exists x, tr1.
  - by destruct H.
Qed.

(** Running against an environment with a state; for examples. *)
Fixpoint run_with {A W} (answer : forall X, E X -> W -> X * W) (p : prog A) (w : W)
    : list event * option A * W :=
  match p with
  | Ret a => ([], Some a, w)
  | OutOfFuel => ([], None, w)
  | Vis X e k =>
      let '(x, w1) := answer X e w in
      let '(tr, r, w2) := run_with answer (k x) w1 in
      (Ev X e x :: tr, r, w2)
  end.

Lemma run_with_runs {A W} (answer : forall X, E X -> W -> X * W) (p : prog A) (w : W) :
  runs p (fst (fst (run_with answer p w))) (snd (fst (run_with answer p w))).
Proof.
  revert w. induction p as [a|X e k IH|]; intros w; cbn; [done| |done].
  destruct (answer X e w) as [x w1]. specialize (IH x w1).
  destruct (run_with answer (k x) w1) as [[tr r] w2]. cbn in *. by exists x, tr.
Qed.

Lemma run_with_result {A W} (answer : forall X, E X -> W -> X * W) (p : prog A) (w : W) (r : option A) :
  snd (fst (run_with answer p w)) = r -> runs p (fst (fst (run_with answer p w))) r.
Proof. intros <-. apply run_with_runs. Qed.

(** ** What may happen along a run

    [step] summarises the past, [check] says which calls are allowed after
    it. *)
Section Wp.
Context {St : Type} (step : St -> event -> St) (check : St -> event -> Prop).

Fixpoint wp {A} (p : prog A) (s : St) (Q : St -> A -> Prop) : Prop :=
  match p with
  | Ret a => Q s a
  | OutOfFuel => True
  | Vis X e k => forall x, check s (Ev X e x) /\ wp (k x) (step s (Ev X e x)) Q
  end.

Lemma wp_mono {A} (p : prog A) (s : St) (Q Q' : St -> A -> Prop) :
  wp p s Q -> (forall s' a, Q s' a -> Q' s' a) -> wp p s Q'.
Proof using.
  intros H HQ. revert s H. induction p as [a|X e k IH|]; cbn; [auto| |done].
  intros s H x. destruct (H x) as [H1 H2]. auto.
Qed.

Lemma wp_bind {A B} (p : prog A) (k : A -> prog B) (s : St) (Q : St -> B -> Prop) :
  wp p s (fun s' a => wp (k a) s' Q) -> wp (pbind p k) s Q.
Proof using.
  revert s. induction p as [a|X e c IH|]; cbn; [done| |done].
  intros s H x. destruct (H x) as [H1 H2]. auto.
Qed.

Lemma wp_vis {A X} (e : E X) (k : X -> prog A) (s : St) (Q : St -> A -> Prop) :
  (forall x, check s (Ev X e x) /\ wp (k x) (step s (Ev X e x)) Q) -> wp (Vis X e k) s Q.
Proof using. done. Qed.

(** Every run respects the checks and ends as promised. *)
Lemma wp_runs {A} (p : prog A) (s : St) (Q : St -> A -> Prop) (tr : list event) (r : option A) :
  wp p s Q -> runs p tr r ->
  (forall pre ev post, tr = pre ++ ev :: post -> check (fold_left step pre s) ev)
  /\ (forall a, r = Some a -> Q (fold_left step tr s) a).
Proof using.
  revert s tr. induction p as [a|X e k IH|]; cbn; intros s tr.
  - intros HQ [-> ->]. split; [intros [|] ev post; done|]. by intros b [= <-].
  - intros H (x & tr' & -> & Hr). destruct (H x) as [Hc Hw].
    destruct (IH x _ _ Hw Hr) as [IH1 IH2]. split; [|exact IH2].
    intros [|ev' pre] ev post; cbn; intros [= <- Htl]; [done|]. by eapply IH1.
  - intros _ [-> ->]. split; [intros [|] ev post; done|done].
Qed.
End Wp.

(** ** Time

    [clock e x t t']: the call [e] made at [t] may be answered by [x] at
    [t']. *)
Section Timed.
Context (clock : forall X, E X -> X -> Z -> Z -> Prop).

(** Whatever the answers and however long they take, [p] ends, in [Q]. *)
Fixpoint timed {A} (p : prog A) (t : Z) (Q : Z -> A -> Prop) : Prop :=
  match p with
  | Ret a => Q t a
  | OutOfFuel => False
  | Vis X e k => forall x t', clock X e x t t' -> timed (k x) t' Q
  end.

Lemma timed_bind {A B} (p : prog A) (k : A -> prog B) (t : Z) (Q : Z -> B -> Prop) :
  timed p t (fun t' a => timed (k a) t' Q) -> timed (pbind p k) t Q.
Proof using. revert t. induction p as [a|X e c IH|]; cbn; auto. Qed.

Lemma timed_mono {A} (p : prog A) (t : Z) (Q Q' : Z -> A -> Prop) :
  timed p t Q -> (forall t' a, Q t' a -> Q' t' a) -> timed p t Q'.
Proof using. intros H HQ. revert t H. induction p as [a|X e c IH|]; cbn; auto. Qed.
End Timed.

(** ** Programs that end *)

(** No loop of the model is cut short. *)
Fixpoint finishes {A} (p : prog A) : Prop :=
  match p with Ret _ => True | Vis X e k => forall x, finishes (k x) | OutOfFuel => False end.

Lemma finishes_bind {A B} (p : prog A) (k : A -> prog B) : finishes p -> (forall a, finishes (k a)) -> finishes (pbind p k).
Proof using. intros Hp Hk. induction p as [a|X e c IH|]; cbn; [apply Hk|intros x; by apply IH|done]. Qed.

Lemma finishes_runs {A} (p : prog A) tr : finishes p -> ~ runs p tr None.
Proof using.
  revert tr. induction p as [a|X e k IH|]; cbn; intros tr; [by intros _ [_ ?]| |done].
  intros H (x & tr' & _ & Hr). by apply (IH x tr').
Qed.

End Prog.

Arguments Ret {E A} a.
Arguments Vis {E A} X e & k.
Arguments OutOfFuel {E A}.
Arguments Ev {E} X e x.
Arguments perform {E X} e.
Arguments pbind {E A B} & p k.
Arguments runs {E A} p tr r.
Arguments run_with {E A W} answer p w.
Arguments wp {E St} step check {A} p s Q.
Arguments timed {E} clock {A} p t Q.
Arguments finishes {E A} p.
Arguments finishes_bind {E A B} p k.
Arguments finishes_runs {E A} p tr.

Notation "'call!' x ':=' e 'in' k" := (Vis _ e (fun x => k))
  (at level 10, x name, e at level 100, k at level 200) : peta_scope.
Notation "e '!;' k" := (Vis _ e (fun _ => k))
  (at level 100, k at level 200, right associativity) : peta_scope.
Notation "'bind!' x ':=' m 'in' k" := (pbind m (fun x => k))
  (at level 10, x name, m at level 100, k at level 200) : peta_scope.

(** Awaiting a program that may throw. *)
Definition try_bind {E : Type -> Type} {F A B} (p : prog E (result F A)) (k : A -> prog E (result F B))
    : prog E (result F B) :=
  pbind p (fun r => match r with Ok a => k a | Throw e => Ret (Throw e) end).
Notation "'await!' x ':=' p 'in' k" := (try_bind p (fun x => k))
  (at level 10, x name, p at level 100, k at level 200) : peta_scope.

Lemma runs_await_inv {E : Type -> Type} {F A B} (p : prog E (result F A)) (k : A -> prog E (result F B)) tr (b : result F B) :
  runs (try_bind p k) tr (Some b) ->
  (exists e, runs p tr (Some (Throw e)) /\ b = Throw e)
  \/ exists tr1 a tr2, tr = tr1 ++ tr2 /\ runs p tr1 (Some (Ok a)) /\ runs (k a) tr2 (Some b).
Proof.
  intros (tr1 & [a|e] & tr2 & -> & H1 & H2)%runs_bind_inv; [right; by exists tr1, a, tr2|].
  left. destruct H2 as [-> [= ->]]. exists e. by rewrite app_nil_r.
Qed.

Lemma finishes_await {E : Type -> Type} {F A B} (p : prog E (result F A)) (k : A -> prog E (result F B)) :
  finishes p -> (forall a, finishes (k a)) -> finishes (try_bind p k).
Proof. intros Hp Hk. apply finishes_bind; [done|]. by intros [a|e]; [apply Hk|]. Qed.

(** Every call and every branch of a handler ends. *)
Ltac finish :=
  repeat first
    [ exact I | exact (fun _ => I)
    | match goal with
      | |- forall _, finishes _ => intros ?
      | |- finishes (pbind _ _) => apply finishes_bind
      | |- finishes (try_bind _ _) => apply finishes_await
      | |- finishes (let '(_, _) := ?x in _) => destruct x
      | |- finishes (if ?x then _ else _) => destruct x
      | |- finishes (match ?x with _ => _ end) => destruct x
      end
    | progress cbn [finishes] ].
