(* ===== verification/Interleaving.v ===== *)
(** * Interleavings

    Any number of programs ([Effects]) sharing one state: the order in which
    their calls are answered, the calls of each, and counting them. *)
From Stdlib Require Import ZArith Lia.
From stdpp Require Import base list.
From S2P Require Import Prelude Effects.

Section Interleaving.
Context {E : Type -> Type} {S : Type}.

(** [answers X e s x s']: in the state [s] the call [e] may be answered by
    [x], leaving [s']. *)
Variable answers : forall X, E X -> S -> X -> S -> Prop.

(** Calls of concurrent programs, each with the number of the program that
    makes it, in the order in which they are answered. *)
Inductive interleaving : S -> list (nat * event E) -> S -> Prop :=
| interleaving_nil s : interleaving s [] s
| interleaving_call s i X (e : E X) x s1 tr s2 :
    answers X e s x s1 -> interleaving s1 tr s2 -> interleaving s ((i, Ev X e x) :: tr) s2.

Lemma interleaving_app s1 tr1 s2 tr2 s3 :
  interleaving s1 tr1 s2 -> interleaving s2 tr2 s3 -> interleaving s1 (tr1 ++ tr2) s3.
Proof. induction 1; [done|]. intros H2. cbn. econstructor; eauto. Qed.

Lemma interleaving_app_inv s1 tr1 tr2 s3 :
  interleaving s1 (tr1 ++ tr2) s3 -> exists s2, interleaving s1 tr1 s2 /\ interleaving s2 tr2 s3.
Proof.
  revert s1. induction tr1 as [|p tr1 IH]; cbn; intros s1 H; [exists s1; split; [constructor|done]|].
  inversion H as [|s i X e x s' tr s2 Ha Hr]; subst. destruct (IH _ Hr) as (s2 & H1 & H2).
  exists s2. split; [by econstructor|done].
Qed.

Lemma interleaving_cons_inv s p tr s' :
  interleaving s (p :: tr) s' ->
  match p with (_, Ev X e x) => exists s1, answers X e s x s1 /\ interleaving s1 tr s' end.
Proof. inversion 1; subst. by eauto. Qed.

(** What every answer preserves, interleavings preserve. *)
Lemma interleaving_inv (P : S -> Prop) s tr s' :
  (forall X e s x s', answers X e s x s' -> P s -> P s') -> interleaving s tr s' -> P s -> P s'.
Proof. intros Hstep. induction 1; eauto. Qed.
End Interleaving.
Arguments interleaving {E S} answers s tr s'.

Section Threads.
Context {E : Type -> Type}.

(** The calls of one program. *)
Definition of_thread (i : nat) (tr : list (nat * event E)) : list (event E) :=
  map snd (List.filter (fun p => (fst p =? i)%nat) tr).

(** [tr] starts a run of [p]. *)
Definition started {A} (p : prog E A) (tr : list (event E)) : Prop :=
  exists rest a, runs p (tr ++ rest) (Some a).

Definition count {A} (p : A -> bool) (l : list A) : nat := length (List.filter p l).

Lemma count_cons {A} (p : A -> bool) (x : A) (l : list A) : count p (x :: l) = ((if p x then 1 else 0) + count p l)%nat.
Proof. unfold count. cbn. by destruct (p x). Qed.

Lemma count_app {A} (p : A -> bool) (l k : list A) : count p (l ++ k) = (count p l + count p k)%nat.
Proof. induction l as [|x l IH]; [done|]. cbn [app]. rewrite !count_cons, IH. lia. Qed.

Lemma count_zero {A} (p : A -> bool) (l : list A) : Forall (fun x => p x = false) l -> count p l = 0%nat.
Proof. induction 1 as [|x l Hx _ IH]; [done|]. by rewrite count_cons, Hx, IH. Qed.

Lemma count_pos {A} (p : A -> bool) (l : list A) : (0 < count p l)%nat -> exists x, x ∈ l /\ p x = true.
Proof.
  induction l as [|x l IH]; [by intros ?%Nat.nlt_0_r|]. rewrite count_cons. destruct (p x) eqn:Hx.
  - intros _. exists x. split; [apply list_elem_of_here|done].
  - intros H. destruct IH as (y & Hy & Hp); [lia|]. exists y. split; [by apply list_elem_of_further|done].
Qed.

Lemma count_elem {A} (p : A -> bool) (l : list A) (x : A) : x ∈ l -> p x = true -> (0 < count p l)%nat.
Proof.
  intros Hx Hp. apply list_elem_of_split in Hx as (l1 & l2 & ->). rewrite count_app, count_cons, Hp. lia.
Qed.

(** Counting by program: if none of the programs [ids] makes more [a]s than
    [b]s, together they do not. *)
Definition by_threads (ids : list nat) (p : event E -> bool) (x : nat * event E) : bool :=
  bool_decide (fst x ∈ ids) && p (snd x).

Lemma count_thread (i : nat) (p : event E -> bool) (tr : list (nat * event E)) :
  count p (of_thread i tr) = count (fun x => (fst x =? i)%nat && p (snd x)) tr.
Proof.
  unfold of_thread. induction tr as [|[j ev] tr IH]; [done|]. cbn [List.filter fst snd]. rewrite count_cons. cbn [fst snd].
  destruct (j =? i)%nat; cbn [map]; rewrite ?count_cons; cbn [snd andb]; rewrite <- IH; reflexivity.
Qed.

Lemma count_by_threads_cons (i : nat) (ids : list nat) (p : event E -> bool) (tr : list (nat * event E)) :
  i ∉ ids -> count (by_threads (i :: ids) p) tr = (count p (of_thread i tr) + count (by_threads ids p) tr)%nat.
Proof.
  intros Hi. rewrite count_thread. induction tr as [|[j ev] tr IH]; [done|]. rewrite !count_cons, IH.
  unfold by_threads; cbn [fst snd]. destruct (Nat.eqb_spec j i) as [->|Hne].
  - rewrite (bool_decide_true (i ∈ i :: ids)) by apply list_elem_of_here. rewrite (bool_decide_false _ Hi).
    cbn [andb]. destruct (p ev); lia.
  - assert (bool_decide (j ∈ i :: ids) = bool_decide (j ∈ ids)) as ->.
    { apply bool_decide_ext. rewrite elem_of_cons. naive_solver. }
    cbn [andb]. lia.
Qed.

Lemma count_by_threads_le (ids : list nat) (a b : event E -> bool) (tr : list (nat * event E)) :
  NoDup ids -> (forall i, i ∈ ids -> (count a (of_thread i tr) <= count b (of_thread i tr))%nat) ->
  (count (by_threads ids a) tr <= count (fun x => b (snd x)) tr)%nat.
Proof.
  intros Hnd Hle. transitivity (count (by_threads ids b) tr).
  - induction Hnd as [|i ids Hi Hnd IH].
    + rewrite !count_zero; [done|apply Forall_forall; intros [j ev] _; unfold by_threads; cbn;
        rewrite bool_decide_false; [done|apply not_elem_of_nil]..].
    + rewrite !count_by_threads_cons by done. apply Nat.add_le_mono.
      * apply Hle, list_elem_of_here.
      * apply IH. intros j Hj. by apply Hle, list_elem_of_further.
  - clear. induction tr as [|[j ev] tr IH]; [done|]. rewrite !count_cons. unfold by_threads at 1. cbn [fst snd].
    destruct (bool_decide _), (b ev); cbn [andb]; lia.
Qed.

(** Where a call is in a thread, it is in the history. *)
Lemma of_thread_elem (i : nat) (ev : event E) (tr : list (nat * event E)) :
  ev ∈ of_thread i tr -> (i, ev) ∈ tr.
Proof.
  unfold of_thread. intros H. apply list_elem_of_In, in_map_iff in H as ([k ev'] & <- & H).
  apply filter_In in H as [H Hk]. cbn in *. apply Nat.eqb_eq in Hk as ->. by apply list_elem_of_In.
Qed.

Lemma of_thread_app (i : nat) (tr1 tr2 : list (nat * event E)) :
  of_thread i (tr1 ++ tr2) = of_thread i tr1 ++ of_thread i tr2.
Proof. unfold of_thread. by rewrite List.filter_app, map_app. Qed.

Lemma of_thread_here (i : nat) (ev : event E) (tr : list (nat * event E)) :
  of_thread i ((i, ev) :: tr) = ev :: of_thread i tr.
Proof. unfold of_thread. cbn. by rewrite Nat.eqb_refl. Qed.

Lemma elem_of_thread (i : nat) (ev : event E) (tr : list (nat * event E)) :
  (i, ev) ∈ tr -> ev ∈ of_thread i tr.
Proof.
  intros H%list_elem_of_In. apply list_elem_of_In, in_map_iff. exists (i, ev). split; [done|].
  apply filter_In. cbn. by rewrite Nat.eqb_refl.
Qed.

(** The first call of a program within the interleaving. *)
Lemma of_thread_cons_inv (i : nat) (ev : event E) (l : list (event E)) (tr : list (nat * event E)) :
  of_thread i tr = ev :: l ->
  exists before after_, tr = before ++ (i, ev) :: after_ /\ of_thread i before = [] /\ of_thread i after_ = l.
Proof.
  induction tr as [|[j e] tr IH]; [done|]. unfold of_thread in *. cbn. destruct (j =? i)%nat eqn:Hj; cbn.
  - intros [= -> Hl]. apply Nat.eqb_eq in Hj as ->. by exists [], tr.
  - intros H. destruct (IH H) as (before & after_ & -> & H1 & H2). exists ((j, e) :: before), after_.
    split_and! ; [done|by cbn; rewrite Hj|done].
Qed.

Lemma of_thread_pair (i j : nat) (tr : list (event E)) :
  of_thread i (map (pair j) tr) = if (i =? j)%nat then tr else [].
Proof.
  induction tr as [|ev tr IH]; [by destruct (i =? j)%nat|]. unfold of_thread in *. cbn. rewrite (Nat.eqb_sym j i).
  destruct (i =? j)%nat; cbn; by rewrite IH.
Qed.

Lemma started_run {A} (p : prog E A) tr (r : option A) : runs p tr r -> is_Some r -> started p tr.
Proof. intros H [a ->]. exists [], a. by rewrite app_nil_r. Qed.
End Threads.

(** ** Statements that may fail *)

Section Statements.
Context {S F : Type}.

(** A reading statement: it fails, or answers a row that fits. *)
Definition reads {A} (ok : A -> Prop) (s : S) (r : result F A) (s' : S) : Prop :=
  s' = s /\ match r with Ok a => ok a | Throw _ => True end.

(** A writing statement that succeeds only by [effect], and that may be
    reported as failed either way. *)
Definition writes {A} (effect : A -> S -> Prop) (s : S) (r : result F A) (s' : S) : Prop :=
  match r with
  | Ok a => effect a s'
  | Throw _ => s' = s \/ exists a, effect a s'
  end.

(** A write, whatever is reported. *)
Lemma writes_inv {A} (effect : A -> S -> Prop) (s : S) (r : result F A) (s' : S) :
  writes effect s r s' -> (s' = s /\ is_ok r = false) \/ exists a, effect a s' /\ (r = Ok a \/ is_ok r = false).
Proof.
  destruct r as [a|e]; cbn; [intros H; right; by eauto|].
  intros [->|[a H]]; [by left|right; by eauto].
Qed.
End Statements.
