(* ===== verification/ToolCall.v ===== *)
(** * A tool call through the gateway

    [handleToolCall] of [src/src/mcp/core/ProxySession.ts] and the helpers it
    uses (waiting for an approval, replaying a finished execution, building
    replies), with [recordTimeout] of [src/src/mcp/core/ServerContext.ts].
    The handler is a program over the calls it makes to the other components;
    any answer their types allow may come back, since their state changes
    between the handler's awaits.  Debug and information log lines are left
    out; the request log is the call [LogRequest]. *)
From Stdlib Require Import Ascii ZArith Lia.
From stdpp Require Import base strings list.
From S2P Require Import Prelude Json ApprovalRepository ApprovalService CacheKey CachePolicy CacheSerializer ResultCache Access Policy Effects.
Open Scope Z_scope.

(** ** Data *)

(** The codes of the protocol library the handler distinguishes. *)
Inductive ErrorCode : Type := RequestTimeout | MethodNotFound | InvalidParams | InvalidRequest | OtherCode (n : Z).

#[export] Instance ErrorCode_eq_dec : EqDecision ErrorCode.
Proof. solve_decision. Defined.

(** A thrown value: the code when it is an [McpError], and its text. *)
Record failure : Type := { mcp_code : option ErrorCode; err_text : string }.

Definition McpError (code : ErrorCode) (message : string) : failure :=
  {| mcp_code := Some code; err_text := message |}.
(** Dereferencing a missing value. *)
Definition TypeError : failure := {| mcp_code := None; err_text := "TypeError" |}.

(** [request.params] of a tool call. *)
Record CallParams : Type := {
  cp_name : string;
  cp_arguments : option (list (string * json));
  cp_meta : option (list (string * json))
}.

(** What [executeWithCache] does with a call: answers it (from the cache or
    with the result of an equal call in flight), fails with that call, or has
    this call forward the request. *)
Inductive cache_start : Type := Served (v : json) | FlightFailed (e : failure) | RunFactory.

Inductive WaitStatus : Type :=
| WApproved | WRejected | WTimeout | WExpired | WAborted | WExecuting | WExecuted | WFailed.

#[export] Instance WaitStatus_eq_dec : EqDecision WaitStatus.
Proof. solve_decision. Defined.

Definition wait_text (s : WaitStatus) : string :=
  match s with
  | WApproved => "approved" | WRejected => "rejected" | WTimeout => "timeout" | WExpired => "expired"
  | WAborted => "aborted" | WExecuting => "executing" | WExecuted => "executed" | WFailed => "failed"
  end.

Record WaitResult : Type := { w_status : WaitStatus; w_reason : option string }.

(** ** The calls the handler makes *)
Inductive call : Type -> Type :=
(* log service, discovery configuration, catalog handlers *)
| GenerateUniformRequestId : call string
| LogRequest (statusCode : Z) (error : option string) : call unit
| GetPpdActive : call (result failure bool)
| CatalogTool (name : string) (args : option (list (string * json))) : call (result failure json)
(* client session and server manager *)
| ResolveToolName (name : string) : call (option (string * string))
| CanUseTool (sid toolName : string) : call bool
| GetServerContext (sid : string) : call (option ServerContext)
| GetConnected (sid : string) : call (option ServerContext)
| EnsureServerAvailable (sid : string) : call (result failure unit)
| GetUserDangerLevel (sid toolName : string) : call (option Z)
(* policy engine, result cache *)
| EvaluatePolicy (p : PolicyEvaluateParams) : call (result failure PolicyEvaluateResult)
| ReadCacheConfig (sid : string) : call (ResultCacheConfig * ServerConfigCapabilities)
| CacheLookup (c : CacheCall) : call (result failure CacheLookupResult)
| CacheBegin (c : CacheCall) : call cache_start
| CacheEnd (c : CacheCall) (r : result failure json) : call unit
(* approval service and its notifications *)
| CheckOrCreateApproval (input : CreateApprovalInput) : call (result approval_error ApprovalCheckResult)
| GetById (i : string) : call (result failure (option ApprovalRequest))
| GetResultById (i : string) : call (result failure (option ApprovalRequest))
| ClaimForExecutionById (i : string) : call (result failure ApprovalClaimResult)
| MarkExecuted (i : string) (r : json) : call (result failure (option ApprovalRequest))
| MarkFailed (i : string) (error : string) : call (result failure (option ApprovalRequest))
| StartHeartbeat (i : string) : call unit
| StopHeartbeat : call unit
| NotifyApprovalCreated (i : string) : call unit
| NotifyApprovalExecuted (i : string) (preview : option string) : call unit
| NotifyApprovalFailed (i error : string) : call unit
(* request ids *)
| RegisterClientRequest (sid : string) : call string
| SetOriginalProgressToken (proxyRequestId : string) (token : json) : call unit
| RemoveMapping (proxyRequestId : string) : call unit
(* the downstream connection and its time-out count *)
| CallTool (ctx : ServerContext) (sid : string) (p : CallParams) (proxyRequestId : string)
    : call (result failure json)
| ClearTimeout (ctx : string) : call unit
| IncrementTimeout (ctx : string) : call Z
| Ping (ctx : string) : call (result failure unit)
| GetOwnerToken : call (result failure string)
| Reconnect (ctx : string) : call (result failure unit)
(* clock, client's abort signal (also answered by the sleep it cuts short),
   progress notifications *)
| DateNow : call Z
| Sleep (ms : Z) : call bool
| Aborted : call bool
| SendProgress (progress : Z) : call unit.

Definition Prog (A : Type) : Type := prog call (result failure A).

(** The non-null assertion [x!]. *)
Definition deref {A} (o : option A) : Prog A :=
  match o with Some a => Ret (Ok a) | None => Ret (Throw TypeError) end.

(** [promise.catch(() => null)] *)
Definition or_null {A} (r : result failure (option A)) : option A :=
  match r with Ok o => o | Throw _ => None end.

(** ** Replies *)

Definition newline : string := String (ascii_of_nat 10) "".

(** [{content: [{type: 'text', text}], isError, _meta?}] *)
Definition text_reply (text : string) (isError : bool) (meta : list (string * json)) : json :=
  let base := [("content", JArr [JObj [("type", JStr "text"); ("text", JStr text)]]);
               ("isError", JBool isError)]%string in
  JObj (base ++ match meta with [] => [] | _ => [("_meta"%string, JObj meta)] end).

(** [result.isError === true] *)
Definition is_error_true (r : json) : bool :=
  match r with JObj kvs => bool_decide (assoc "isError" kvs = Some (JBool true)) | _ => false end.

(** JavaScript truthiness of [result.isError], for the logged status. *)
Definition is_error_truthy (r : json) : bool :=
  match r with JObj kvs => js_truthy (default JUndefined (assoc "isError" kvs)) | _ => false end.

Definition ostr_json (o : option string) : json := match o with Some s => JStr s | None => JNull end.

Definition getApprovalGuidanceByStatus (status : string) : string :=
  if str_eqb status "timeout" || str_eqb status "executing"
  then "Retry this exact tool call after approval or execution completes."
  else if str_eqb status "expired"
  then "A new approval request is required. Retry the same tool call to create one."
  else if str_eqb status "aborted"
  then "Retry this exact tool call if you still want to request approval."
  else if str_eqb status "executed"
  then "No retry needed for this request. Check prior result logs if required."
  else if str_eqb status "failed"
  then "Retry the tool call if you want a fresh execution attempt."
  else if str_eqb status "rate_limited"
  then "Wait and retry after the rate-limit window."
  else "Retry this exact tool call once approval is granted.".

Record OutcomeInput : Type := {
  o_approvalRequestId : option string;
  o_resumeToken : option string;
  o_requestHash : option string;
  o_toolName : string;
  o_reason : string;
  o_policyVersion : Z;
  o_kind : string;
  o_status : string;
  o_summary : string
}.

(** [text] and [meta] of the message. *)
Definition buildApprovalOutcomeMessage (i : OutcomeInput) : string * json :=
  (str_join newline
     ["TOOL NOT EXECUTED: " +:+ o_summary i; ""%string;
      "Approval Request ID: " +:+ default "N/A"%string (o_approvalRequestId i);
      "Resume Token: " +:+ default "N/A"%string (o_resumeToken i);
      "Tool: " +:+ o_toolName i;
      "Reason: " +:+ o_reason i; ""%string;
      getApprovalGuidanceByStatus (o_status i)],
   JObj [("kind", JStr (o_kind i)); ("approvalRequestId", ostr_json (o_approvalRequestId i));
         ("resumeToken", ostr_json (o_resumeToken i)); ("status", JStr (o_status i));
         ("requestHash", ostr_json (o_requestHash i)); ("toolName", JStr (o_toolName i));
         ("policyVersion", JNum (o_policyVersion i))])%string.

Definition outcome_reply (i : OutcomeInput) (extra : list (string * json)) : json :=
  let '(text, meta) := buildApprovalOutcomeMessage i in
  text_reply text false (("approval"%string, meta) :: extra).

(** ** Replaying a finished execution *)

Definition valid_content_item (item : json) : bool :=
  match item with
  | JObj kvs => match assoc "type" kvs with Some (JStr _) => true | _ => false end
  | _ => false
  end.

Definition extractReplayCallToolResult (executionResult : option json) : option json :=
  match executionResult with
  | Some (JObj kvs) =>
      match assoc "content" kvs with
      | Some (JArr content) =>
          if existsb (fun item => negb (valid_content_item item)) content then None
          else Some (JObj [("content", JArr content);
                           ("isError", JBool (is_error_true (JObj kvs)));
                           ("_meta", default JUndefined (assoc "_meta" kvs));
                           ("structuredContent", default JUndefined (assoc "structuredContent" kvs))])%string
      | _ => None
      end
  | _ => None
  end.

Definition is_text_item (item : json) : bool :=
  match item with
  | JObj kvs => bool_decide (assoc "type" kvs = Some (JStr "text"))
  | _ => false
  end.

Definition buildExecutionResultPreview (r : json) : option string :=
  match r with
  | JObj kvs =>
      match assoc "content" kvs with
      | Some (JArr content) =>
          match List.find is_text_item content with
          | Some (JObj item) => match assoc "text" item with
                                | Some (JStr s) => Some (str_take 180 s)
                                | _ => None
                                end
          | _ => None
          end
      | _ => None
      end
  | _ => None
  end.

(** What [tryBuildReplayToolResult] makes of the row it reads. *)
Definition replay_of_row (row : ApprovalRequest) : option json :=
  let replayPayload := extractReplayCallToolResult (executionResult row) in
  match ApprovalRepository.status row, replayPayload with
  | Executed, Some p => Some p
  | Failed, Some p =>
      if is_error_true p then Some p
      else Some (text_reply (default "Execution failed in another request."%string (executionError row)) true [])
  | Failed, None =>
      Some (text_reply (default "Execution failed in another request."%string (executionError row)) true [])
  | _, _ => None
  end.

Definition tryBuildReplayToolResult (i : string) : prog call (option json) :=
  call! r := GetResultById i in
  Ret (or_null r ≫= replay_of_row).

(** ** Waiting for a decision *)

Definition APPROVAL_POLL_INTERVAL_MS : Z := 3000.
Definition APPROVAL_WAIT_TIMEOUT_MS : Z := 55000.

(** One poll: a final result, and whether the request is executing. *)
Definition pollApprovalStatus (i : string) : prog call (option WaitResult * bool) :=
  call! r := GetById i in
  Ret match r with
      | Throw _ => (None, false)
      | Ok None => (Some {| w_status := WExpired; w_reason := None |}, false)
      | Ok (Some row) =>
          match ApprovalRepository.status row with
          | Approved => (Some {| w_status := WApproved; w_reason := None |}, false)
          | Rejected => (Some {| w_status := WRejected; w_reason := decisionReason row |}, false)
          | Expired => (Some {| w_status := WExpired; w_reason := None |}, false)
          | Pending => (None, false)
          | Executing => (None, true)
          | Executed => (Some {| w_status := WExecuted; w_reason := None |}, true)
          | Failed => (Some {| w_status := WFailed; w_reason := executionError row |}, true)
          end
      end.

Definition give_up_result (executing : bool) : WaitResult :=
  {| w_status := if executing then WExecuting else WTimeout; w_reason := None |}.
Definition aborted_result : WaitResult := {| w_status := WAborted; w_reason := None |}.

(** The polling loop; [hasToken]: the client asked for progress. *)
Fixpoint wait_loop (fuel : nat) (i : string) (hasToken : bool) (deadline nextProgressAt progressSeq : Z)
    (executing : bool) : prog call WaitResult :=
  match fuel with
  | O => OutOfFuel
  | S fuel =>
      call! t := DateNow in
      if negb (t <? deadline) then Ret (give_up_result executing)
      else
      call! aborted := Aborted in
      if aborted then Ret aborted_result
      else
      bind! progress :=
        (if hasToken then
           call! t := DateNow in
           if nextProgressAt <=? t then
             (SendProgress (progressSeq + 1) !;
              call! t := DateNow in Ret (t + 15000, progressSeq + 1))
           else Ret (nextProgressAt, progressSeq)
         else Ret (nextProgressAt, progressSeq)) in
      call! t := DateNow in
      let remainingMs := deadline - t in
      if remainingMs <=? 0 then Ret (give_up_result executing)
      else
      call! aborted := Sleep (Z.min APPROVAL_POLL_INTERVAL_MS remainingMs) in
      if aborted then Ret aborted_result
      else
      bind! poll := pollApprovalStatus i in
      match fst poll with
      | Some r => Ret r
      | None => wait_loop fuel i hasToken deadline (fst progress) (snd progress) (snd poll)
      end
  end.

(** Every full turn of the loop sleeps 3 s or up to the deadline 55 s after
    the start: twenty turns are never all used. *)
Definition wait_fuel : nat := 20.

Definition waitForApproval (i : string) (hasToken : bool) : prog call WaitResult :=
  call! now := DateNow in
  let deadline := now + APPROVAL_WAIT_TIMEOUT_MS in
  call! now2 := DateNow in
  let nextProgressAt := now2 + 15000 in
  call! aborted := Aborted in
  if aborted then Ret aborted_result
  else
  bind! poll := pollApprovalStatus i in
  match fst poll with
  | Some r => Ret r
  | None => wait_loop wait_fuel i hasToken deadline nextProgressAt 0 (snd poll)
  end.

Definition mapApprovalStatusToWaitStatus (s : option ApprovalStatus) : WaitStatus :=
  match s with
  | Some Expired => WExpired
  | Some Executing => WExecuting
  | Some Executed => WExecuted
  | Some Failed => WFailed
  | _ => WTimeout
  end.

Definition nonExecutedSummaryByStatus (w : WaitResult) : string :=
  match w_status w with
  | WTimeout => "Approval is still pending and this tool call timed out before execution."
  | WExpired => "Approval request expired before a decision. This tool call did not execute."
  | WAborted => "Client cancelled while waiting for approval. This tool call did not execute."
  | WExecuting => "Execution has started in another session. This call did not execute the tool."
  | WExecuted => "This request already executed in another session. This call did not execute the tool."
  | WFailed => "Execution failed in another session"
               +:+ (if truthy_ostr (w_reason w) then ": " +:+ default ""%string (w_reason w) else ".")
  | WApproved | WRejected => "Tool was not executed."
  end.

(** ** Downstream time-outs *)

Definition maxTimeoutCount : Z := 3.

Definition is_request_timeout (e : failure) : bool := bool_decide (mcp_code e = Some RequestTimeout).

(** [recordTimeout]: [None] when the error is no time-out, otherwise whether
    the server was reconnected. *)
Definition recordTimeout (ctx : ServerContext) (e : failure) : Prog (option bool) :=
  if negb (is_request_timeout e) then Ret (Ok None)
  else
  call! timeoutCount := IncrementTimeout (ctx_id ctx) in
  if negb (maxTimeoutCount <=? timeoutCount) then Ret (Ok (Some false))
  else
  call! pong := Ping (ctx_id ctx) in
  match pong with
  | Ok _ => ClearTimeout (ctx_id ctx) !; Ret (Ok (Some false))
  | Throw e' =>
      if negb (is_request_timeout e') then Ret (Ok (Some false))
      else if allowUserInput ctx then
        call! r := Reconnect (ctx_id ctx) in
        match r with Ok _ => Ret (Ok (Some true)) | Throw f => Ret (Throw f) end
      else
        call! token := GetOwnerToken in
        match token with
        | Throw f => Ret (Throw f)
        | Ok token =>
            if truthy_str token then
              call! r := Reconnect (ctx_id ctx) in
              match r with Ok _ => Ret (Ok (Some true)) | Throw f => Ret (Throw f) end
            else Ret (Ok (Some true))
        end
  end.

(** ** The handler *)

Definition CATALOG_TOOL_NAMES : list string :=
  ["peta.catalog.search"; "peta.catalog.describe"; "peta.catalog.execute"]%string.

(** The numbers of the danger levels, as configured and as the policy engine
    names them. *)
Definition to_DangerLevel (d : Z) : DangerLevel :=
  if d =? DangerLevel_Approval then Approval
  else if d =? DangerLevel_Notification then Notification else Silent.

Section Handler.
Variable userId : string.
Variable tenantId : option string.
Variable req : CallParams.

Definition toolName : string := cp_name req.
Definition args : list (string * json) := default [] (cp_arguments req).
Definition args_json : json := match cp_arguments req with Some l => JObj l | None => JUndefined end.
Definition progress_token : option json := cp_meta req ≫= assoc "progressToken".
(** [progressToken !== undefined] *)
Definition has_token : bool :=
  match progress_token with None | Some JUndefined => false | Some _ => true end.

Definition log_error (code : Z) (message : string) {A} (k : prog call A) : prog call A :=
  LogRequest code (Some message) !; k.

Definition policy_params (sid original : string) (level : Z) : PolicyEvaluateParams :=
  {| pe_userId := userId; pe_serverId := Some sid; pe_toolName := original; pe_args := args;
     Policy.dangerLevel := to_DangerLevel level |}.

Definition cache_call (sid original : string) (policy : ResolvedCachePolicy) : CacheCall :=
  {| c_operation := OpTool; c_serverId := sid; c_entityId := original;
     c_scopeContext := {| ResultCache.userId := Some userId; ResultCache.tenantId := tenantId |};
     c_policy := policy; c_params := args_json |}.

Definition effective_level (user server : option Z) : Z :=
  default DangerLevel_Silent (match user with Some d => Some d | None => server end).

(** The reserved tools of progressive disclosure. *)
Definition catalog_call : Prog (option json) :=
  call! active := GetPpdActive in
  match active with
  | Throw e => Ret (Throw e)
  | Ok false => Ret (Ok None)
  | Ok true =>
      if negb (bool_decide (toolName ∈ CATALOG_TOOL_NAMES)) then Ret (Ok None)
      else
        call! r := CatalogTool toolName (cp_arguments req) in
        match r with
        | Throw e => Ret (Throw e)
        | Ok v => LogRequest (if is_error_truthy v then 500 else 200) None !; Ret (Ok (Some v))
        end
  end.

(** Routing and permission. *)
Definition route : Prog (string * string) :=
  call! r := ResolveToolName toolName in
  match r with
  | None =>
      let errorMsg := "Tool " +:+ toolName +:+ " not found" in
      log_error 404 ("Error: ErrorRouting: " +:+ errorMsg) (Ret (Throw (McpError MethodNotFound errorMsg)))
  | Some (sid, original) =>
      call! permitted := CanUseTool sid original in
      if permitted then Ret (Ok (sid, original))
      else
        let errorMsg := "Permission denied for tool: " +:+ toolName in
        log_error 403 ("Error: ErrorPermission: " +:+ errorMsg) (Ret (Throw (McpError InvalidParams errorMsg)))
  end.

(** The cached reply, for tools that no approval and no policy guards. *)
Definition fast_path (sid original : string) : Prog (option json) :=
  call! early := GetServerContext sid in
  match early with
  | None => Ret (Ok None)
  | Some ctx =>
      call! cfg := ReadCacheConfig sid in
      if negb (config_enabled (fst cfg)) then Ret (Ok None)
      else
      call! userLevel := GetUserDangerLevel sid original in
      let level := effective_level userLevel (context_getDangerLevel ctx original) in
      match resolveToolPolicy (snd cfg) original (fst cfg) with
      | None => Ret (Ok None)
      | Some policy =>
          if negb (level <? DangerLevel_Approval) then Ret (Ok None)
          else
          call! check := EvaluatePolicy (policy_params sid original level) in
          match check with
          | Throw e => Ret (Throw e)
          | Ok c =>
              match Policy.decision c with
              | Deny | RequireApproval => Ret (Ok None)
              | Allow =>
                  call! cached := CacheLookup (cache_call sid original policy) in
                  match cached with
                  | Throw _ => Ret (Ok None)
                  | Ok l =>
                      match hit l, entry l with
                      | true, Some e => LogRequest 200 None !; Ret (Ok (Some (payload e)))
                      | _, _ => Ret (Ok None)
                      end
                  end
              end
          end
      end
  end.

(** Approval: an early reply, or the claimed request to execute under. *)
Definition approval_input (sid original uid : string) (policy : PolicyEvaluateResult) : CreateApprovalInput :=
  {| in_userId := userId; in_serverId := Some sid; in_toolName := original; in_args := args;
     in_policyVersion := Policy.policyVersion policy; in_uniformRequestId := Some uid;
     in_expiresInMs := None |}.

Definition outcome (row : option string) (hash : option string) (original : string)
    (policy : PolicyEvaluateResult) (kind status summary : string) : OutcomeInput :=
  {| o_approvalRequestId := row; o_resumeToken := row; o_requestHash := hash; o_toolName := original;
     o_reason := default "Policy requires approval"%string (Policy.reason policy);
     o_policyVersion := Policy.policyVersion policy; o_kind := kind; o_status := status;
     o_summary := summary |}.

(** A finished execution is replayed, otherwise the outcome is described. *)
Definition replay_or (i : string) (code_error : string) (reply : json) : Prog (json + string) :=
  bind! replay := tryBuildReplayToolResult i in
  match replay with
  | Some v => LogRequest (if is_error_truthy v then 500 else 200) None !; Ret (Ok (inl v))
  | None => log_error 202 code_error (Ret (Ok (inl reply)))
  end.

Definition claim_stage (original : string) (policy : PolicyEvaluateResult) (check : ApprovalCheckResult)
    (row : ApprovalRequest) : Prog (json + string) :=
  let i := ApprovalRepository.id row in
  call! c := ClaimForExecutionById i in
  match c with
  | Throw e => Ret (Throw e)
  | Ok claim =>
      if negb (claimed claim) then
        call! latest := GetById i in
        let waitStatus := mapApprovalStatusToWaitStatus (ApprovalRepository.status <$> or_null latest) in
        replay_or i
          ("ApprovalClaimLost: " +:+ wait_text waitStatus +:+ ". Request ID: " +:+ i)
          (outcome_reply (outcome (Some i) (Some (c_requestHash check)) original policy
             "approval_pending" (wait_text waitStatus)
             "Execution is already in progress or completed elsewhere. This call did not execute the tool.") [])
      else
        await! claimed_row := deref (claim_request claim) in
        Ret (Ok (inr (ApprovalRepository.id claimed_row)))
  end.

Definition approval_stage (sid original uid : string) (policy : PolicyEvaluateResult) : Prog (json + string) :=
  call! r := CheckOrCreateApproval (approval_input sid original uid policy) in
  match r with
  | Throw (RepositoryError m) => Ret (Throw {| mcp_code := None; err_text := m |})
  | Throw (ApprovalRateLimitError m) =>
      log_error 429 ("ApprovalRateLimited: " +:+ m)
        (Ret (Ok (inl (outcome_reply (outcome None None original policy "approval_rate_limited" "rate_limited" m)
                         [("retryAfterSeconds"%string, JNum 60)]))))
  | Ok check =>
      await! row := deref (request check) in
      let i := ApprovalRepository.id row in
      if needsApproval check then
        bind! notified := (if created check then NotifyApprovalCreated i !; Ret tt else Ret tt) in
        bind! w := waitForApproval i has_token in
        match w_status w with
        | WApproved => claim_stage original policy check row
        | WRejected =>
            let errorMsg := "Tool call rejected by administrator: "
                            +:+ default "No reason provided"%string (w_reason w) in
            log_error 403 ("Error: ApprovalRejected: " +:+ errorMsg) (Ret (Ok (inl (text_reply errorMsg true []))))
        | s =>
            replay_or i
              ("ApprovalPending: Awaiting human approval (" +:+ wait_text s +:+ "). Request ID: " +:+ i)
              (outcome_reply (outcome (Some i) (Some (c_requestHash check)) original policy
                 "approval_pending" (wait_text s) (nonExecutedSummaryByStatus w)) [])
        end
      else claim_stage original policy check row
  end.

(** [rewriteProgressTokenForDownstream] on the copied parameters. *)
Definition rewriteProgressTokenForDownstream (p : CallParams) (proxyRequestId : string) : prog call CallParams :=
  match cp_meta p ≫= assoc "progressToken" with
  | None | Some JUndefined => Ret p
  | Some token =>
      SetOriginalProgressToken proxyRequestId token !;
      Ret {| cp_name := cp_name p; cp_arguments := cp_arguments p;
             cp_meta := Some (with_property "progressToken" (JStr proxyRequestId) (default [] (cp_meta p))) |}
  end.

Definition forwardToolCall (ctx : ServerContext) (sid : string) (p : CallParams) (proxyRequestId : string)
    : Prog json :=
  call! r := CallTool ctx sid p proxyRequestId in
  match r with
  | Ok raw => ClearTimeout (ctx_id ctx) !; Ret (Ok raw)
  | Throw e => Ret (Throw e)
  end.

(** The call itself, through the cache unless approval guards the tool. *)
Definition execute (ctx : ServerContext) (sid original : string) (p : CallParams) (proxyRequestId : string)
    (shouldCache : bool) : Prog json :=
  if negb shouldCache then forwardToolCall ctx sid p proxyRequestId
  else
  call! cfg := ReadCacheConfig sid in
  match resolveToolPolicy (snd cfg) original (fst cfg) with
  | None => forwardToolCall ctx sid p proxyRequestId
  | Some policy =>
      call! b := CacheBegin (cache_call sid original policy) in
      match b with
      | Served v => Ret (Ok v)
      | FlightFailed e => Ret (Throw e)
      | RunFactory =>
          bind! r := forwardToolCall ctx sid p proxyRequestId in
          CacheEnd (cache_call sid original policy) r !; Ret r
      end
  end.

Definition mark_failed (i error : string) : prog call unit :=
  call! failed := MarkFailed i error in
  match or_null failed with
  | Some row => NotifyApprovalFailed (ApprovalRepository.id row) error !; Ret tt
  | None => Ret tt
  end.

(** Settling the claimed request after the server answered. *)
Definition settle (i : string) (serverResult : json) : prog call unit :=
  if is_error_true serverResult then mark_failed i "Tool returned error"
  else
    call! executed := MarkExecuted i serverResult in
    match or_null executed with
    | Some row =>
        NotifyApprovalExecuted (ApprovalRepository.id row)
          (extractReplayCallToolResult (executionResult row) ≫= buildExecutionResultPreview) !; Ret tt
    | None => Ret tt
    end.

(** The catch block; [retry]: the call again, while attempts are left. *)
Definition on_error (ctx : ServerContext) (approvalRequestId : option string) (e : failure)
    (retry : option (Prog json)) : Prog json :=
  await! isReconnected := recordTimeout ctx e in
  LogRequest 500 (Some (err_text e)) !;
  bind! marked :=
    match approvalRequestId with Some i => mark_failed i (err_text e) | None => Ret tt end in
  match isReconnected, retry with
  | Some false, Some again => again
  | _, _ => Ret (Ok (text_reply (err_text e) true []))
  end.

(** The try-catch-finally around the forwarded call; [approvalRequestId] is
    only tested for truth. *)
Definition forward_stage (ctx : ServerContext) (sid original : string) (claimedId : option string)
    (shouldCache : bool) (retry : option (Prog json)) : Prog json :=
  let approvalRequestId := if truthy_ostr claimedId then claimedId else None in
  call! proxyRequestId := RegisterClientRequest sid in
  let copyParams := {| cp_name := original; cp_arguments := cp_arguments req; cp_meta := cp_meta req |} in
  bind! downstreamParams := rewriteProgressTokenForDownstream copyParams proxyRequestId in
  bind! started :=
    match approvalRequestId with
    | Some i => StartHeartbeat i !; Ret true
    | None => Ret false
    end in
  bind! r := execute ctx sid original downstreamParams proxyRequestId shouldCache in
  bind! reply :=
    match r with
    | Ok serverResult =>
        LogRequest (if is_error_truthy serverResult then 500 else 200) None !;
        bind! settled :=
          match approvalRequestId with Some i => settle i serverResult | None => Ret tt end in
        Ret (Ok serverResult)
    | Throw e => on_error ctx approvalRequestId e retry
    end in
  bind! stopped := (if started : bool then StopHeartbeat !; Ret tt else Ret tt) in
  RemoveMapping proxyRequestId !;
  Ret reply.

(** From the evaluated policy to the reply. *)
Definition policy_stage (ctx : ServerContext) (sid original uid : string) (retry : option (Prog json))
    : Prog json :=
  call! userLevel := GetUserDangerLevel sid original in
  let level := effective_level userLevel (context_getDangerLevel ctx original) in
  call! evaluated := EvaluatePolicy (policy_params sid original level) in
  match evaluated with
  | Throw e => Ret (Throw e)
  | Ok policy =>
      match Policy.decision policy with
      | Deny =>
          let errorMsg := "Tool execution denied by policy: "
                          +:+ default "policy rule"%string (Policy.reason policy) in
          log_error 403 ("Error: PolicyDenied: " +:+ errorMsg) (Ret (Throw (McpError InvalidRequest errorMsg)))
      | RequireApproval =>
          await! a := approval_stage sid original uid policy in
          match a with
          | inl reply => Ret (Ok reply)
          | inr i => forward_stage ctx sid original (Some i) false retry
          end
      | Allow => forward_stage ctx sid original None (level <? DangerLevel_Approval) retry
      end
  end.

Definition tool_call_body (retry : option (Prog json)) : Prog json :=
  call! uid := GenerateUniformRequestId in
  await! catalog := catalog_call in
  match catalog with
  | Some v => Ret (Ok v)
  | None =>
      await! routed := route in
      let '(sid, original) := routed in
      await! cached := fast_path sid original in
      match cached with
      | Some v => Ret (Ok v)
      | None =>
          call! ready := EnsureServerAvailable sid in
          match ready with
          | Throw e => Ret (Throw e)
          | Ok _ =>
              call! target := GetConnected sid in
              match target with
              | None =>
                  let errorMsg := "No server available for tool: " +:+ toolName in
                  log_error 503 ("Error: ErrorRouting: " +:+ errorMsg)
                    (Ret (Throw (McpError InvalidParams errorMsg)))
              | Some ctx => policy_stage ctx sid original uid retry
              end
          end
      end
  end.

(** [left] is [2 - retryCount]: a call is retried while it is positive. *)
Fixpoint call_with_retries (left : nat) : Prog json :=
  tool_call_body (match left with O => None | S l => Some (call_with_retries l) end).

Definition handleToolCall : Prog json := call_with_retries 2.
End Handler.
