(* ===== verification/ToolCallWorld.v ===== *)
(** * The gateway assembled

    One environment for [handleToolCall] built from the modelled components:
    the session's checks ([Access.v]), the policy engine ([Policy.v]) and the
    approval service over its table ([ApprovalService.v]), with a result cache
    that is off and a scripted downstream server.  An administrator approves
    the first request while the call sleeps.  It runs the handler on concrete
    inputs, for the examples and witnesses of the files that follow. *)
From Stdlib Require Import Ascii ZArith Lia.
From stdpp Require Import base strings list gmap.
From S2P Require Import Prelude Json ApprovalHasher ApprovalRepository ApprovalService CacheKey CachePolicy ResultCache Access Policy Effects ToolCall.
Open Scope Z_scope.

Record World : Type := {
  w_mgr : ServerManager;
  w_session : Session;
  w_policies : list ToolPolicySet;
  (* the statements run on the approval table, oldest first *)
  w_history : list statement;
  w_now : Z;
  (* what the downstream server answers next, and its time-outs so far *)
  w_downstream : list (result failure json);
  w_timeouts : Z;
  w_nextId : nat
}.

Definition w_table (w : World) : list ApprovalRequest := run (w_history w) [].

Definition with_history (h : list statement) (w : World) : World :=
  {| w_mgr := w_mgr w; w_session := w_session w; w_policies := w_policies w; w_history := h;
     w_now := w_now w; w_downstream := w_downstream w; w_timeouts := w_timeouts w; w_nextId := S (w_nextId w) |}.
Definition with_now (n : Z) (w : World) : World :=
  {| w_mgr := w_mgr w; w_session := w_session w; w_policies := w_policies w; w_history := w_history w;
     w_now := n; w_downstream := w_downstream w; w_timeouts := w_timeouts w; w_nextId := w_nextId w |}.
Definition with_downstream (d : list (result failure json)) (n : Z) (w : World) : World :=
  {| w_mgr := w_mgr w; w_session := w_session w; w_policies := w_policies w; w_history := w_history w;
     w_now := w_now w; w_downstream := d; w_timeouts := n; w_nextId := w_nextId w |}.

Definition add_statement (s : statement) (w : World) : World := with_history (w_history w ++ [s]) w.

Definition admin : ApprovalDecisionActor := {| actorUserId := Some "admin"%string; actorRole := Some 1; channel := "admin" |}.

Definition is_decision (s : statement) : bool := match s with SDecide _ _ _ _ _ => true | _ => false end.

(** The administrator approves the first request asked for. *)
Definition admin_step (w : World) : World :=
  if existsb is_decision (w_history w) then w
  else match w_table w with
       | [] => w
       | row :: _ => add_statement (SDecide (ApprovalRepository.id row) true admin None (w_now w)) w
       end.

Definition cache_off : ResultCacheConfig * ServerConfigCapabilities :=
  (config_with (fun _ => None) None,
   {| tools := []; prompts := []; resources := []; exact := []; patterns := [] |}).

Definition sha (s : string) : string := s.

Definition fresh_id (w : World) : string := "r" +:+ z_to_string (Z.of_nat (w_nextId w)).

(** A call of the service at one instant, with no other client in between. *)
Definition at_once (w : World) : call_env :=
  {| t_active := w_now w; t_rate := w_now w; t_expiry := w_now w; after_active := fun t => t;
     after_hash_count := fun t => t; after_tool_count := fun t => t;
     attempts := fun _ => {| uuid := fresh_id w; app_now := w_now w; db_now := w_now w;
       between1 := fun t => t; between2 := fun t => t; between3 := fun t => t |} |}.

Definition check_in (input : CreateApprovalInput) (w : World)
    : result approval_error ApprovalCheckResult * World :=
  let res := fst (checkOrCreateApproval sha input (at_once w) (w_table w)) in
  (res, match res with
        | Ok c => if created c then
                    match canonical_args (in_args input) with
                    | Ok canonical => add_statement (SInsert (fresh_id w) (w_now w) (create_params sha input canonical (w_now w))) w
                    | Throw _ => w
                    end
                  else w
        | Throw _ => w
        end).

Definition evaluate_in (p : PolicyEvaluateParams) (w : World) : PolicyEvaluateResult :=
  fst (evaluate (fun _ => None) (fun _ => None) (fun _ => None) (fun _ _ => None) p (w_now w)
         (fun sid => getEffectivePolicy sid (w_policies w)) ∅).

Definition answer (X : Type) (e : call X) (w : World) : X * World :=
  match e in call X return X * World with
  | GenerateUniformRequestId => ("u"%string, w)
  | LogRequest _ _ => (tt, w)
  | GetPpdActive => (Ok false, w)
  | CatalogTool _ _ => (Ok JNull, w)
  | ResolveToolName name => (resolveToolName (w_mgr w) (w_session w) name, w)
  | CanUseTool sid name => (canUseTool (w_mgr w) (w_session w) sid name, w)
  | GetServerContext sid => (getServerContext (w_mgr w) sid (session_userId (w_session w)), w)
  | GetConnected sid => (getServerContext (w_mgr w) sid (session_userId (w_session w)), w)
  | EnsureServerAvailable _ => (Ok tt, w)
  | GetUserDangerLevel sid name => (getDangerLevel (w_session w) sid name, w)
  | EvaluatePolicy p => (Ok (evaluate_in p w), w)
  | ReadCacheConfig _ => (cache_off, w)
  | CacheLookup _ => (Throw TypeError, w)
  | CacheBegin _ => (RunFactory, w)
  | CacheEnd _ _ => (tt, w)
  | CheckOrCreateApproval input => check_in input w
  | GetById i => (Ok (findById i (w_table w)), w)
  | ToolCall.GetResultById i => (Ok (getResultById i (w_table w)), w)
  | ClaimForExecutionById i =>
      (Ok (fst (claimForExecutionById i (w_now w) (w_table w))), add_statement (SClaimId i (w_now w)) w)
  | MarkExecuted i r =>
      (Ok (fst (service_markExecuted i r (w_now w) (w_table w))),
       add_statement (SMarkExecuted i (sanitizeExecutionResult r) (w_now w)) w)
  | MarkFailed i m =>
      (Ok (fst (markFailed i m (w_now w) (w_table w))), add_statement (SMarkFailed i m (w_now w)) w)
  | StartHeartbeat _ => (tt, w)
  | StopHeartbeat => (tt, w)
  | NotifyApprovalCreated _ => (tt, w)
  | NotifyApprovalExecuted _ _ => (tt, w)
  | NotifyApprovalFailed _ _ => (tt, w)
  | RegisterClientRequest sid => ("p"%string, w)
  | SetOriginalProgressToken _ _ => (tt, w)
  | RemoveMapping _ => (tt, w)
  | CallTool _ _ _ _ =>
      match w_downstream w with
      | [] => (Throw TypeError, w)
      | r :: d => (r, with_downstream d (w_timeouts w) w)
      end
  | ClearTimeout _ => (tt, with_downstream (w_downstream w) 0 w)
  | IncrementTimeout _ => (w_timeouts w + 1, with_downstream (w_downstream w) (w_timeouts w + 1) w)
  | Ping _ => (Ok tt, w)
  | GetOwnerToken => (Ok "owner"%string, w)
  | Reconnect _ => (Ok tt, w)
  | DateNow => (w_now w, w)
  | Sleep ms => (false, admin_step (with_now (w_now w + ms) w))
  | Aborted => (false, w)
  | SendProgress _ => (tt, w)
  end.

(** ** Examples *)

(** Mail may be sent with an administrator's approval only. *)
Definition ex_policies : list ToolPolicySet :=
  [{| ps_id := "p1"; ps_serverId := None; version := 1; ps_status := "active";
      dsl := Some [{| rule_id := "r1"; priority := None; match_tool := Some "send"%string;
                      match_serverId := None; extract := []; when := [];
                      effect_decision := "REQUIRE_APPROVAL"; effect_reason := None |}];
      ps_createdAt := 0 |}].

Definition ex_world (d : list (result failure json)) : World :=
  {| w_mgr := ex_manager; w_session := ex_session; w_policies := ex_policies; w_history := [];
     w_now := 1000; w_downstream := d; w_timeouts := 0; w_nextId := 1 |}.

(** Ann sends a mail through her mail server, or lists her files. *)
Definition send_mail : CallParams :=
  {| cp_name := "send_-_8"; cp_arguments := Some [("to", JStr "bob")]; cp_meta := None |}.
Definition list_files : CallParams :=
  {| cp_name := "ls_-__-_7"; cp_arguments := None; cp_meta := None |}.

Definition sent : json := text_reply "sent" false [].
Definition timed_out : failure := {| mcp_code := Some RequestTimeout; err_text := "timed out" |}.

Definition run_call (req : CallParams) (d : list (result failure json)) :=
  run_with answer (handleToolCall "ann" None req) (ex_world d).

Definition reply_of {A B C} (x : A * B * C) : B := snd (fst x).

(** The call waits for the administrator, is executed and marked so. *)
Example approved_mail :
  reply_of (run_call send_mail [Ok sent]) = Some (Ok sent)
  /\ map ApprovalRepository.status (w_table (snd (run_call send_mail [Ok sent]))) = [Executed].
Proof. vm_compute. split; reflexivity. Qed.

(** A server that is too slow twice is called three times. *)
Example slow_server :
  reply_of (run_call list_files [Throw timed_out; Throw timed_out; Ok sent]) = Some (Ok sent).
Proof. vm_compute. reflexivity. Qed.

(** A mail whose sending timed out: the handler asks for a new approval, waits
    in vain, and reports that the tool was not executed, although the server
    was called. *)
Lemma timed_out_mail_reported_unsent :
  let run := run_call send_mail [Throw timed_out] in
  length (w_downstream (snd run)) = 0%nat
  /\ map ApprovalRepository.status (w_table (snd run)) = [Failed; Pending]
  /\ exists meta, reply_of run = Some (Ok (JObj
       [("content", JArr [JObj [("type", JStr "text");
          ("text", JStr (fst (buildApprovalOutcomeMessage
             (outcome (Some "r5") None "send" {| decision := RequireApproval; Policy.policyVersion := 1; pr_matchedRuleId := None; reason := None |}
                "approval_pending" "timeout"
                "Approval is still pending and this tool call timed out before execution."))))]]);
        ("isError", JBool false); ("_meta", meta)]))%string.
Proof. vm_compute. split; [reflexivity|]. split; [reflexivity|]. eexists. reflexivity. Qed.

Definition mail_trace : list (event call) := fst (fst (run_call send_mail [Ok sent])).

Lemma mail_runs : runs (handleToolCall "ann" None send_mail) mail_trace (Some (Ok sent)).
Proof.
  replace (Some (Ok sent)) with (reply_of (run_call send_mail [Ok sent])) by (vm_compute; reflexivity).
  apply run_with_runs.
Qed.

Definition mail_params : CallParams :=
  {| cp_name := "send"; cp_arguments := Some [("to", JStr "bob")]%string; cp_meta := None |}.

(** Where the call happens, and where the approval is claimed. *)
Lemma mail_called :
  mail_trace = take 24 mail_trace
    ++ Ev _ (CallTool (ex_temp "8" "ann") "mail" mail_params "p") (Ok sent) :: drop 25 mail_trace.
Proof. vm_compute. reflexivity. Qed.

Definition mail_row : ApprovalRequest :=
  set_status Executing 4000 (set_decision Approved admin None 4000
    (new_row "r1" 1000 (create_params sha
       {| in_userId := "ann"; in_serverId := Some "mail"%string; in_toolName := "send";
          in_args := [("to", JStr "bob")]%string; in_policyVersion := 1;
          in_uniformRequestId := Some "u"%string; in_expiresInMs := None |}
       (JObj [("to", JStr "bob")]%string) 1000))).

Lemma mail_claimed :
  mail_trace = take 21 mail_trace
    ++ Ev _ (ClaimForExecutionById "r1") (Ok {| claimed := true; claim_request := Some mail_row |})
       :: drop 22 mail_trace.
Proof. vm_compute. reflexivity. Qed.
