(* ===== verification/ToolCallGate.v ===== *)
(** * What stands before a downstream call

    The protocol every run of [handleToolCall] ([ToolCall.v]) follows,
    whatever the other components answer: permission, policy and approval
    before the call, at most three calls, and no claimed approval left
    unsettled. *)
From Stdlib Require Import Ascii ZArith Lia.
From stdpp Require Import base strings list.
From S2P Require Import Prelude Json ApprovalRepository ApprovalService CacheKey CachePolicy CacheSerializer ResultCache Access Policy Effects ToolCall ToolCallWorld.
Open Scope Z_scope.

(** ** The protocol *)

(** What a run has done so far: the tool the session was last found to be
    permitted, the last verdict of the policy engine since, the approval
    request asked for, the request claimed and not yet used (as asked, as
    returned), the request the running call was claimed under, the number of
    downstream calls and the last one's outcome, and the error of a
    reconnection that failed since. *)
Record phase : Type := {
  permitted : option (string * string);
  verdict : option (PolicyEvaluateParams * PolicyEvaluateResult);
  asked : option (CreateApprovalInput * string);
  claim : option (string * string);
  running : option string;
  attempts : Z;
  outcome_ : option (result failure json);
  broken : option failure
}.

Definition start : phase :=
  {| permitted := None; verdict := None; asked := None; claim := None; running := None;
     attempts := 0; outcome_ := None; broken := None |}.

Definition set_permitted (p : option (string * string)) (s : phase) : phase :=
  {| permitted := p; verdict := None; asked := None; claim := claim s; running := running s;
     attempts := attempts s; outcome_ := outcome_ s; broken := broken s |}.
Definition set_verdict v (s : phase) : phase :=
  {| permitted := permitted s; verdict := v; asked := None; claim := claim s; running := running s;
     attempts := attempts s; outcome_ := outcome_ s; broken := broken s |}.
Definition set_asked a (s : phase) : phase :=
  {| permitted := permitted s; verdict := verdict s; asked := a; claim := claim s; running := running s;
     attempts := attempts s; outcome_ := outcome_ s; broken := broken s |}.
Definition set_claim c (s : phase) : phase :=
  {| permitted := permitted s; verdict := verdict s; asked := asked s; claim := c; running := running s;
     attempts := attempts s; outcome_ := outcome_ s; broken := broken s |}.
Definition set_running c (s : phase) : phase :=
  {| permitted := permitted s; verdict := verdict s; asked := asked s; claim := claim s; running := c;
     attempts := attempts s; outcome_ := outcome_ s; broken := broken s |}.
(** The claim a downstream call uses; as in the code, an empty id counts as
    none. *)
Definition used_claim (s : phase) : option string :=
  if truthy_ostr (snd <$> claim s) then snd <$> claim s else None.
(** A downstream call uses everything up. *)
Definition called (r : result failure json) (s : phase) : phase :=
  {| permitted := None; verdict := None; asked := None; claim := None;
     running := used_claim s;
     attempts := attempts s + 1; outcome_ := Some r; broken := None |}.
(** Reconnecting the server failed. *)
Definition set_broken (f : failure) (s : phase) : phase :=
  {| permitted := permitted s; verdict := verdict s; asked := asked s; claim := claim s; running := running s;
     attempts := attempts s; outcome_ := outcome_ s; broken := Some f |}.

Definition phase_step (s : phase) (ev : event call) : phase :=
  match ev with
  | Ev X e x =>
      match e in call X return X -> phase with
      | CanUseTool sid name => fun b => set_permitted (if b : bool then Some (sid, name) else None) s
      | EvaluatePolicy p => fun r =>
          set_verdict (match r with Ok v => Some (p, v) | Throw _ => None end) s
      | CheckOrCreateApproval input => fun r =>
          set_asked (match r with
                     | Ok c => (fun row => (input, ApprovalRepository.id row)) <$> request c
                     | Throw _ => None
                     end) s
      | ClaimForExecutionById i => fun r =>
          match r with
          | Ok c => if claimed c then set_claim ((fun row => (i, ApprovalRepository.id row)) <$> claim_request c) s else s
          | Throw _ => s
          end
      | CallTool _ _ _ _ => fun r => called r s
      | MarkExecuted _ _ => fun _ => set_running None s
      | MarkFailed _ _ => fun _ => set_running None s
      | Reconnect _ => fun r => match r with Throw f => set_broken f s | Ok _ => s end
      | GetOwnerToken => fun r => match r with Throw f => set_broken f s | Ok _ => s end
      | _ => fun _ => s
      end x
  end.

Definition phase_of (tr : list (event call)) : phase := fold_left phase_step tr start.

Section Protocol.
Variable user : string.
Variable req : CallParams.

(** The policy was asked about exactly this call. *)
Definition about (p : PolicyEvaluateParams) (sid name : string) : Prop :=
  pe_userId p = user /\ pe_serverId p = Some sid /\ pe_toolName p = name /\ pe_args p = args req.

(** Approval was asked for exactly this call. *)
Definition approval_about (i : CreateApprovalInput) (v : PolicyEvaluateResult) (sid name : string) : Prop :=
  in_userId i = user /\ in_serverId i = Some sid /\ in_toolName i = name /\ in_args i = args req
  /\ in_policyVersion i = Policy.policyVersion v.

Definition allowed_now (s : phase) (sid name : string) : Prop :=
  permitted s = Some (sid, name) /\ claim s = None
  /\ exists p v, verdict s = Some (p, v) /\ about p sid name /\ Policy.decision v = Allow.

Definition approved_now (s : phase) (sid name : string) : Prop :=
  permitted s = Some (sid, name)
  /\ exists p v i row k, verdict s = Some (p, v) /\ about p sid name /\ Policy.decision v = RequireApproval
       /\ asked s = Some (i, row) /\ approval_about i v sid name /\ claim s = Some (row, k).

(** The earlier downstream call, if any, timed out. *)
Definition may_call_again (s : phase) : Prop :=
  attempts s < 3
  /\ match outcome_ s with
     | None => attempts s = 0
     | Some (Ok _) => False
     | Some (Throw e) => is_request_timeout e = true
     end.

(** Which calls the protocol admits in a phase. *)
Definition admitted (s : phase) (ev : event call) : Prop :=
  match ev with
  | Ev _ e _ =>
      match e with
      | CallTool _ sid p _ =>
          (allowed_now s sid (cp_name p) \/ approved_now s sid (cp_name p))
          /\ cp_arguments p = cp_arguments req /\ running s = None /\ may_call_again s
      | CacheLookup c | CacheBegin c =>
          allowed_now s (c_serverId c) (c_entityId c) /\ c_params c = args_json req
          /\ c_scopeContext c = {| ResultCache.userId := Some user;
                                   ResultCache.tenantId := ResultCache.tenantId (c_scopeContext c) |}
      | CheckOrCreateApproval i =>
          claim s = None /\ running s = None
          /\ exists sid name p v, permitted s = Some (sid, name) /\ verdict s = Some (p, v) /\ about p sid name
               /\ Policy.decision v = RequireApproval /\ approval_about i v sid name
      | ClaimForExecutionById i =>
          claim s = None /\ running s = None /\ exists input, asked s = Some (input, i)
      | MarkExecuted i _ | MarkFailed i _ => running s = Some i
      | _ => True
      end
  end.

(** How a run ends: no claim is left; the request the call ran under was
    settled, except when reconnecting the server failed, whose error then is
    the end; an answer of the downstream server is the reply. *)
Definition settled_end (s : phase) (r : result failure json) : Prop :=
  (forall i, running s = Some i -> exists e, r = Throw e /\ broken s = Some e)
  /\ claim s = None
  /\ attempts s <= 3
  /\ (forall v, outcome_ s = Some (Ok v) -> r = Ok v).

(** ** Proof of the protocol *)

Notation wpc := (wp phase_step admitted).

(** Steps through calls that do not concern the protocol, and case analyses
    of their answers. *)
Ltac quiet :=
  repeat first
    [ progress cbn [wp pbind phase_step admitted fst snd]
    | match goal with
      | |- wp _ _ (pbind _ _) _ _ => apply wp_bind
      | |- forall _, True /\ _ => intros ?; split; [exact I|]
      | |- wp _ _ (log_error _ _ _) _ _ => unfold log_error
      | |- wp _ _ (Ret _) _ _ => cbn [wp]
      end ].
Ltac cases :=
  match goal with
  | |- wp _ _ (if ?b then _ else _) _ _ => destruct b eqn:?
  | |- wp _ _ (match ?x with _ => _ end) _ _ => destruct x eqn:?
  end.

Lemma poll_quiet (i : string) (s : phase) (Q : phase -> _ -> Prop) :
  (forall a, Q s a) -> wpc (pollApprovalStatus i) s Q.
Proof using. intros H. unfold pollApprovalStatus. quiet. auto. Qed.

Lemma wait_loop_quiet (fuel : nat) (i : string) (tok : bool) (d n q : Z) (ex : bool) (s : phase)
    (Q : phase -> WaitResult -> Prop) :
  (forall a, Q s a) -> wpc (wait_loop fuel i tok d n q ex) s Q.
Proof using.
  intros H. revert n q ex. induction fuel as [|fuel IH]; intros n q ex; [done|].
  cbn [wait_loop]. quiet. cases; [apply H|]. quiet. cases; [apply H|]. quiet.
  destruct tok; quiet; [cases; quiet|]; (cases; [apply H|]); quiet; (cases; [apply H|]); quiet;
    apply poll_quiet; intros [[r|] b]; cbn [fst snd wp]; auto.
Qed.

Lemma wait_quiet (i : string) (tok : bool) (s : phase) (Q : phase -> WaitResult -> Prop) :
  (forall a, Q s a) -> wpc (waitForApproval i tok) s Q.
Proof using.
  intros H. unfold waitForApproval. quiet. cases; [apply H|]. quiet.
  apply poll_quiet. intros [[r|] b]; cbn [fst wp]; [apply H|]. by apply wait_loop_quiet.
Qed.

Lemma record_quiet (ctx : ServerContext) (e : failure) (s : phase) (Q : phase -> _ -> Prop) :
  (is_request_timeout e = false -> Q s (Ok None)) ->
  (is_request_timeout e = true -> (forall a, Q s (Ok a)) /\ forall f, Q (set_broken f s) (Throw f)) -> wpc (recordTimeout ctx e) s Q.
Proof using.
  intros H1 H2. unfold recordTimeout. destruct (is_request_timeout e); cbn [negb]; [|quiet; auto].
  destruct (H2 eq_refl) as [H3 H4]. quiet. cases; quiet; [auto|]. cases; quiet; [auto|].
  cases; quiet; [auto|]. cases; quiet; [cases; quiet; auto|].
  cases; quiet; [|auto]. cases; quiet; [cases; quiet; auto|auto].
Qed.

Lemma mark_failed_step (i err : string) (s : phase) (Q : phase -> unit -> Prop) :
  running s = Some i -> Q (set_running None s) tt -> wpc (mark_failed i err) s Q.
Proof using. intros Hr HQ. unfold mark_failed. intros x. split; [done|]. cbn [phase_step]. cases; quiet; auto. Qed.

Lemma settle_step (i : string) (v : json) (s : phase) (Q : phase -> unit -> Prop) :
  running s = Some i -> Q (set_running None s) tt -> wpc (settle i v) s Q.
Proof using.
  intros Hr HQ. unfold settle. destruct (is_error_true v); [by apply mark_failed_step|].
  intros x. split; [done|]. cbn [phase_step]. cases; quiet; auto.
Qed.

(** Before a call: nothing claimed, nothing running, earlier calls timed
    out. *)
Definition ready (n : Z) (s : phase) : Prop :=
  claim s = None /\ running s = None /\ attempts s <= n
  /\ match outcome_ s with
     | None => attempts s = 0
     | Some (Ok _) => False
     | Some (Throw e) => is_request_timeout e = true
     end.

Lemma ready_again (n : Z) (s : phase) : ready n s -> n < 3 -> may_call_again s.
Proof using. intros (_ & _ & H & Ho) Hn. split; [lia|done]. Qed.

(** What can be returned without a downstream call. *)
Lemma ready_end (n : Z) (s : phase) (r : result failure json) : ready n s -> n <= 3 -> settled_end s r.
Proof using.
  intros (H1 & H2 & H3 & H4) Hn. split; [by rewrite H2|]. split; [done|]. split; [lia|].
  intros v Hv. by rewrite Hv in H4.
Qed.

Lemma catalog_ready (n : Z) (s : phase) : ready n s -> wpc (catalog_call req) s (fun s' _ => ready n s').
Proof using.
  intros H. unfold catalog_call. quiet. repeat (cases; quiet; try done).
Qed.

Lemma route_ready (n : Z) (s : phase) :
  ready n s ->
  wpc (route req) s (fun s' r => ready n s' /\ match r with Ok p => permitted s' = Some p | Throw _ => True end).
Proof using.
  intros H. unfold route. quiet. cases; quiet; [|done]. destruct p as [sid original]. quiet.
  cases; quiet; done.
Qed.

Lemma fast_path_ready (n : Z) (s : phase) (tenant : option string) (sid original : string) :
  ready n s -> permitted s = Some (sid, original) ->
  wpc (fast_path user tenant req sid original) s
    (fun s' _ => ready n s' /\ permitted s' = Some (sid, original)).
Proof using.
  intros H Hp. unfold fast_path. quiet. cases; quiet; [|done]. cases; quiet; [done|].
  cases; quiet; [|done]. cases; quiet; [done|]. cases; quiet; [|done].
  cases; quiet; [|done..]. intros r0. split.
  - split; [|done]. split; [done|]. split; [apply H|]. by repeat eexists.
  - cases; quiet; [|done]. cases; quiet; [|done]. cases; quiet; done.
Qed.

(** Ready to execute under a claimed approval. *)
Definition claimed_ready (n : Z) (i sid original : string) (s : phase) : Prop :=
  approved_now s sid original /\ snd <$> claim s = Some i /\ ready n (set_claim None s).

Lemma replay_quiet (i e : string) (v : json) (s : phase) (Q : phase -> _ -> Prop) :
  (forall w, Q s (Ok (inl w))) -> wpc (replay_or i e v) s Q.
Proof using. intros H. unfold replay_or, tryBuildReplayToolResult. quiet. cases; quiet; auto. Qed.

Definition approval_post (n : Z) (sid original : string) (s : phase) (r : result failure (json + string)) : Prop :=
  match r with
  | Ok (inr i) => claimed_ready n i sid original s
  | _ => ready n s
  end.

Lemma claim_stage_ok (n : Z) (s : phase) (sid original : string) p v (i : CreateApprovalInput)
    (check : ApprovalCheckResult) (row : ApprovalRequest) :
  ready n s -> permitted s = Some (sid, original) -> verdict s = Some (p, v) -> about p sid original ->
  Policy.decision v = RequireApproval -> asked s = Some (i, ApprovalRepository.id row) ->
  approval_about i v sid original ->
  wpc (claim_stage original v check row) s (approval_post n sid original).
Proof using.
  intros H Hp Hv Ha Hd Hi Hia. unfold claim_stage. intros x. split.
  - split; [apply H|]. split; [apply H|]. by eexists.
  - cbn [phase_step]. cases; quiet; [|done]. destruct (claimed a) eqn:Hc; cbn [negb].
    + unfold try_bind, deref. quiet. cases; quiet.
      * destruct H as (H1 & H2 & H3). split; [|done]. split; [done|].
        by exists p, v, i, (ApprovalRepository.id row), (ApprovalRepository.id a0).
      * destruct H as (H1 & H2 & H3). split; [done|]. split; [done|]. exact H3.
    + quiet. apply replay_quiet. intros w. apply H.
Qed.

Lemma approval_stage_ok (n : Z) (s : phase) (sid original uid : string) p v :
  ready n s -> permitted s = Some (sid, original) -> verdict s = Some (p, v) -> about p sid original ->
  Policy.decision v = RequireApproval ->
  wpc (approval_stage user req sid original uid v) s (approval_post n sid original).
Proof using.
  intros H Hp Hv Ha Hd. unfold approval_stage. intros x. split.
  - split; [apply H|]. split; [apply H|]. by exists sid, original, p, v.
  - cbn [phase_step]. cases; [|destruct e; quiet; apply H]. unfold try_bind, deref. quiet.
    cases; quiet; [|apply H]. cbn [fmap option_fmap option_map].
    assert (Hcs : wpc (claim_stage original v a a0)
      (set_asked (Some (approval_input user req sid original uid v, ApprovalRepository.id a0)) s)
      (approval_post n sid original)) by (eapply claim_stage_ok; try done; apply H).
    destruct (needsApproval a); [|exact Hcs]. quiet.
    destruct (created a); quiet; apply wait_quiet; intros w; destruct (w_status w);
      first [exact Hcs | apply replay_quiet; intros; apply H | quiet; apply H].
Qed.

(** After the forwarded call: nothing is left to claim, and [i] is running. *)
Definition after_call (n : Z) (i : option string) (s : phase) (r : result failure json) : Prop :=
  claim s = None /\ running s = i /\ attempts s <= n
  /\ match outcome_ s, r with
     | None, _ => attempts s = 0
     | Some (Ok v), Ok w => v = w
     | Some (Ok v), Throw _ => False
     | Some (Throw e), Throw f => e = f \/ is_request_timeout e = true
     | Some (Throw e), Ok _ => is_request_timeout e = true
     end.

Lemma after_call_end (n : Z) (s : phase) (r r' : result failure json) (i : option string) :
  after_call n i s r -> n <= 3 -> match r with Ok _ => r' = r | Throw _ => True end ->
  (i = None \/ exists e, r' = Throw e /\ broken s = Some e) -> settled_end s r'.
Proof using.
  intros (H1 & H2 & H3 & H4) Hn Hr Hi. split; [|split; [done|split; [lia|]]].
  - intros j Hj. destruct Hi as [Hi|He]; [congruence|done].
  - intros v Hv. rewrite Hv in H4. destruct r; [|done]. by subst.
Qed.

Lemma after_call_settled (n : Z) (i : option string) (s : phase) (r : result failure json) :
  after_call n i s r -> after_call n None (set_running None s) r.
Proof using. by intros (H1 & H2 & H3 & H4). Qed.

Lemma forward_ok (n : Z) (s : phase) (ctx : ServerContext) (sid : string) (q : CallParams) (pid : string) :
  (allowed_now s sid (cp_name q) \/ approved_now s sid (cp_name q)) -> cp_arguments q = cp_arguments req ->
  ready n (set_claim None s) -> n < 3 ->
  wpc (forwardToolCall ctx sid q pid) s
    (after_call (n + 1) (used_claim s)).
Proof using.
  intros Hok Hq H Hn. unfold forwardToolCall. intros r. split.
  - destruct (ready_again _ _ H Hn). split; [done|]. split; [done|]. split; [apply H|]. by split.
  - cbn [phase_step]. destruct H as (_ & _ & H & _). cbn in H.
    destruct r as [v|e]; quiet; (split; [done|]; split; [done|]; split; [cbn; lia|]); cbn; auto.
Qed.

Lemma execute_ok (n : Z) (s : phase) (tenant : option string) (ctx : ServerContext) (sid original : string)
    (q : CallParams) (pid : string) (shouldCache : bool) :
  (allowed_now s sid original \/ (shouldCache = false /\ approved_now s sid original)) ->
  cp_name q = original -> cp_arguments q = cp_arguments req -> ready n (set_claim None s) -> n < 3 ->
  wpc (execute user tenant req ctx sid original q pid shouldCache) s
    (after_call (n + 1) (used_claim s)).
Proof using.
  intros Hok Hname Hq H Hn. subst original.
  assert (Hf : wpc (forwardToolCall ctx sid q pid) s
    (after_call (n + 1) (used_claim s))).
  { apply forward_ok; try done. destruct Hok as [?|[_ ?]]; auto. }
  unfold execute. destruct shouldCache; cbn [negb]; [|done].
  destruct Hok as [Hok|[? _]]; [|done]. quiet. cases; [|done].
  intros b. split; [done|]. cbn [phase_step].
  assert (Hs : forall w, match w with Ok _ => True | Throw _ => True end ->
    after_call (n + 1) (used_claim s) s w).
  { intros w _. destruct Hok as (_ & Hc & _), H as (_ & Hr & Ha & Ho). cbn in Hr, Ha, Ho.
    unfold used_claim. rewrite Hc. split; [done|]. split; [done|]. split; [lia|].
    destruct (outcome_ s) as [[v|e]|], w; auto; done. }
  destruct b; quiet; [by apply Hs|by apply Hs|].
  eapply wp_mono; [exact Hf|]. intros s' w Hw. quiet. exact Hw.
Qed.

Lemma on_error_ok (n : Z) (s : phase) (ctx : ServerContext) (i : option string) (e : failure)
    (retry : option (Prog json)) :
  after_call n i s (Throw e) -> n <= 3 ->
  (forall again s', retry = Some again -> ready n s' -> wpc again s' settled_end) ->
  wpc (on_error ctx i e retry) s settled_end.
Proof using.
  intros H Hn Hretry. unfold on_error, try_bind. apply wp_bind.
  assert (Hmark : forall b, (b = Some false -> is_request_timeout e = true) ->
    wpc (LogRequest 500 (Some (err_text e)) !;
         bind! marked := match i with Some i => mark_failed i (err_text e) | None => Ret tt end in
         match b, retry with
         | Some false, Some again => again
         | _, _ => Ret (Ok (text_reply (err_text e) true []))
         end) s settled_end).
  { intros b Hb. quiet.
    assert (Hk : forall s', after_call n None s' (Throw e) ->
      wpc match b, retry with
          | Some false, Some again => again
          | _, _ => Ret (Ok (text_reply (err_text e) true []))
          end s' settled_end).
    { intros s' Hs'.
      assert (Hend : settled_end s' (Ok (text_reply (err_text e) true []))).
      { eapply after_call_end; [exact Hs'|lia|done|by left]. }
      destruct b as [[]|]; try exact Hend. destruct retry as [again|] eqn:Er; [|exact Hend].
      apply (Hretry again); [done|]. destruct Hs' as (H1 & H2 & H3 & H4). repeat (split; [done|]).
      destruct (outcome_ s') as [[v|e']|]; [done| |done]. destruct H4 as [->|H4]; auto. }
    destruct i as [j|]; [|by apply Hk].
    apply mark_failed_step; [apply H|]. by apply Hk, after_call_settled with (i := Some j). }
  apply record_quiet.
  - intros Ht. by apply (Hmark None).
  - intros Ht. split; [intros b; by apply (Hmark b)|]. intros f. cbn [wp].
    eapply (after_call_end _ _ (Throw e) (Throw f) i); [exact H|lia|done|right; by exists f].
Qed.

Lemma forward_stage_ok (n : Z) (s : phase) (tenant : option string) (ctx : ServerContext)
    (sid original : string) (c : option string) (shouldCache : bool) (retry : option (Prog json)) :
  snd <$> claim s = c -> (allowed_now s sid original \/ (shouldCache = false /\ approved_now s sid original)) ->
  ready n (set_claim None s) -> n < 3 ->
  (forall again s', retry = Some again -> ready (n + 1) s' -> wpc again s' settled_end) ->
  wpc (forward_stage user tenant req ctx sid original c shouldCache retry) s settled_end.
Proof using.
  intros <- Hok H Hn Hretry. unfold forward_stage. quiet.
  fold (used_claim s). set (i := used_claim s).
  assert (Hfin : forall q pid (st : bool), cp_name q = original -> cp_arguments q = cp_arguments req ->
    wpc (execute user tenant req ctx sid original q pid shouldCache) s (fun s' r =>
      wpc (bind! reply :=
             match r with
             | Ok serverResult =>
                 LogRequest (if is_error_truthy serverResult then 500 else 200) None !;
                 bind! settled := match i with Some i => settle i serverResult | None => Ret tt end in
                 Ret (Ok serverResult)
             | Throw e => on_error ctx i e retry
             end in
           bind! stopped := (if st then StopHeartbeat !; Ret tt else Ret tt) in
           RemoveMapping pid !; Ret reply) s' settled_end)).
  { intros q pid st Hq1 Hq2. eapply wp_mono; [eapply execute_ok; done|].
    fold i. intros s' r Hr. apply wp_bind. eapply wp_mono with (Q := settled_end).
    - destruct r as [v|e]; [|eapply on_error_ok; [exact Hr|lia|exact Hretry]].
      quiet. assert (Hend : forall s'', after_call (n + 1) None s'' (Ok v) -> settled_end s'' (Ok v)).
      { intros s'' Hs''. eapply after_call_end; [exact Hs''|lia|done|by left]. }
      destruct i as [j|]; quiet; [|by apply Hend].
      apply settle_step; [apply Hr|]. by apply Hend, after_call_settled with (i := Some j).
    - intros s'' reply Hend. destruct st; quiet; exact Hend. }
  unfold rewriteProgressTokenForDownstream. cbn [cp_meta].
  cases; [cases|]; quiet;
    (destruct i; quiet; [by apply (Hfin _ _ true)|by apply (Hfin _ _ false)]).
Qed.

Lemma policy_stage_ok (n : Z) (s : phase) (tenant : option string) (ctx : ServerContext)
    (sid original uid : string) (retry : option (Prog json)) :
  ready n s -> permitted s = Some (sid, original) -> n < 3 ->
  (forall again s', retry = Some again -> ready (n + 1) s' -> wpc again s' settled_end) ->
  wpc (policy_stage user tenant req ctx sid original uid retry) s settled_end.
Proof using.
  intros H Hp Hn Hretry. unfold policy_stage. quiet. cases; quiet; [|eapply ready_end; [exact H|lia]].
  destruct (Policy.decision a) eqn:Hd.
  - eapply forward_stage_ok; [|left| |exact Hn|exact Hretry]; [cbn; by rewrite (proj1 H)| |].
    + split; [done|]. split; [apply H|]. by repeat eexists.
    + destruct H as (H1 & H2 & H3). by repeat (split; [done|]).
  - unfold try_bind. apply wp_bind.
    eapply wp_mono; [by eapply approval_stage_ok|].
    intros s' [[reply|i]|e] Hs'; cbn [approval_post] in Hs'; quiet;
      [eapply ready_end; [exact Hs'|lia]| |eapply ready_end; [exact Hs'|lia]].
    destruct Hs' as (Hs1 & Hs2 & Hs3).
    eapply forward_stage_ok; [exact Hs2|by right|exact Hs3|exact Hn|exact Hretry].
  - quiet. eapply ready_end; [apply H|lia].
Qed.

Lemma body_ok (n : Z) (s : phase) (tenant : option string) (retry : option (Prog json)) :
  ready n s -> n < 3 ->
  (forall again s', retry = Some again -> ready (n + 1) s' -> wpc again s' settled_end) ->
  wpc (tool_call_body user tenant req retry) s settled_end.
Proof using.
  intros H Hn Hretry. unfold tool_call_body, try_bind. quiet.
  eapply wp_mono; [by apply catalog_ready|]. intros s1 [[v|]|e] H1; quiet;
    [eapply ready_end; [exact H1|lia]| |eapply ready_end; [exact H1|lia]].
  eapply wp_mono; [by apply route_ready|]. intros s2 [[sid original]|e] [H2 Hp]; quiet;
    [|eapply ready_end; [exact H2|lia]].
  eapply wp_mono; [by eapply fast_path_ready|]. intros s3 [[v|]|e] [H3 Hp']; quiet;
    [eapply ready_end; [exact H3|lia]| |eapply ready_end; [exact H3|lia]].
  cases; quiet; [|eapply ready_end; [exact H3|lia]].
  cases; [by eapply policy_stage_ok|]. quiet. eapply ready_end; [exact H3|lia].
Qed.

Lemma retries_ok (left : nat) (s : phase) (tenant : option string) :
  (left <= 2)%nat -> ready (2 - Z.of_nat left) s ->
  wpc (call_with_retries user tenant req left) s settled_end.
Proof using.
  revert s. induction left as [|l IH]; intros s Hl H; cbn [call_with_retries].
  - eapply body_ok; [exact H|lia|done].
  - eapply body_ok; [exact H|lia|]. intros again s' [= <-] Hs'. apply IH; [lia|].
    by replace (2 - Z.of_nat l) with (2 - Z.of_nat (S l) + 1) by lia.
Qed.

Lemma handle_ok (tenant : option string) : wpc (handleToolCall user tenant req) start settled_end.
Proof using. apply retries_ok; [lia|]. by repeat split. Qed.
End Protocol.

(** ** Reading the protocol off a trace *)

Definition is_call (ev : event call) : bool :=
  match ev with Ev _ e _ => match e with CallTool _ _ _ _ => true | _ => false end end.

(** What happened since the last downstream call. *)
Fixpoint this_attempt (tr : list (event call)) : list (event call) :=
  match tr with
  | [] => []
  | ev :: tr' => if existsb is_call tr' then this_attempt tr'
                 else if is_call ev then tr' else ev :: tr'
  end.

(** The outcomes of the downstream calls. *)
Definition call_answers (tr : list (event call)) : list (result failure json) :=
  flat_map (fun ev => match ev with
                      | Ev X e x => match e in call X return X -> _ with
                                    | CallTool _ _ _ _ => fun r => [r]
                                    | _ => fun _ => []
                                    end x
                      end) tr.

Lemma phase_of_snoc (tr : list (event call)) (ev : event call) :
  phase_of (tr ++ [ev]) = phase_step (phase_of tr) ev.
Proof. unfold phase_of. by rewrite fold_left_app. Qed.

Lemma this_attempt_snoc (tr : list (event call)) (ev : event call) :
  this_attempt (tr ++ [ev]) = if is_call ev then [] else this_attempt tr ++ [ev].
Proof.
  induction tr as [|e tr IH]; cbn [this_attempt app existsb].
  - by destruct (is_call ev).
  - rewrite existsb_app. cbn [existsb]. rewrite orb_false_r, IH.
    destruct (existsb is_call tr), (is_call ev), (is_call e); done.
Qed.

Lemma this_attempt_in (ev : event call) (tr : list (event call)) : In ev (this_attempt tr) -> In ev tr.
Proof.
  induction tr as [|e tr IH]; cbn; [done|].
  destruct (existsb is_call tr); [auto|]. destruct (is_call e); cbn; auto.
Qed.

(** What the phase says really happened in this attempt. *)
Definition traced (a : list (event call)) (s : phase) : Prop :=
  (forall sid name, permitted s = Some (sid, name) -> In (Ev bool (CanUseTool sid name) true) a)
  /\ (forall p v, verdict s = Some (p, v) -> In (Ev _ (EvaluatePolicy p) (Ok v)) a)
  /\ (forall i row, asked s = Some (i, row) -> exists c r,
        In (Ev _ (CheckOrCreateApproval i) (Ok c)) a /\ request c = Some r /\ ApprovalRepository.id r = row)
  /\ (forall j k, claim s = Some (j, k) -> exists c row,
        In (Ev _ (ClaimForExecutionById j) (Ok c)) a /\ claimed c = true /\ claim_request c = Some row
        /\ ApprovalRepository.id row = k).

Lemma traced_more (a : list (event call)) (s s' : phase) (ev : event call) :
  traced a s -> permitted s' = permitted s -> verdict s' = verdict s -> asked s' = asked s ->
  claim s' = claim s -> traced (a ++ [ev]) s'.
Proof.
  intros (H1 & H2 & H3 & H4) E1 E2 E3 E4. unfold traced. rewrite E1, E2, E3, E4. repeat split.
  - intros sid name H. apply in_app_iff. auto.
  - intros p v H. apply in_app_iff. auto.
  - intros i row H. destruct (H3 i row H) as (c & r & Hc & Hr). exists c, r. split; [|done].
    apply in_app_iff. auto.
  - intros j k H. destruct (H4 j k H) as (c & row & Hc & Hr). exists c, row. split; [|done].
    apply in_app_iff. auto.
Qed.

Lemma in_snoc {A} (x : A) (l : list A) : In x (l ++ [x]).
Proof. apply in_app_iff. right. by left. Qed.

Lemma phase_traced (tr : list (event call)) : traced (this_attempt tr) (phase_of tr).
Proof.
  induction tr as [|ev tr IH] using rev_ind; [by repeat split|].
  rewrite phase_of_snoc, this_attempt_snoc. destruct ev as [X e x].
  pose proof (traced_more (this_attempt tr) (phase_of tr) (phase_of tr) (Ev X e x) IH
                eq_refl eq_refl eq_refl eq_refl) as (H1 & H2 & H3 & H4).
  destruct e; try (by repeat split); cbn [is_call phase_step].
  all: try (by destruct x; repeat split).
  - destruct x; [|by repeat split]. split; [|by repeat split].
    intros s n [= <- <-]. apply in_snoc.
  - split; [exact H1|]. split; [|by repeat split]. destruct x as [v|]; [|done].
    intros q w [= <- <-]. apply in_snoc.
  - split; [exact H1|]. split; [exact H2|]. split; [|exact H4]. destruct x as [c|]; [|done].
    intros i row Hi. cbn in Hi. destruct (request c) as [r|] eqn:Hr; [|done]. injection Hi as <- <-.
    exists c, r. split; [apply in_snoc|done].
  - destruct x as [c|]; [|by repeat split]. destruct (claimed c) eqn:Hc; [|by repeat split].
    split; [exact H1|]. split; [exact H2|]. split; [exact H3|]. intros j k Hj. cbn in Hj.
    destruct (claim_request c) as [r|] eqn:Hr; [|done]. injection Hj as <- <-.
    exists c, r. split; [apply in_snoc|done].
Qed.

Lemma call_answers_app (a b : list (event call)) : call_answers (a ++ b) = call_answers a ++ call_answers b.
Proof. apply flat_map_app. Qed.

(** The counters of the phase. *)
Lemma phase_answers (tr : list (event call)) :
  attempts (phase_of tr) = Z.of_nat (length (call_answers tr))
  /\ outcome_ (phase_of tr) = last (call_answers tr).
Proof.
  induction tr as [|ev tr [IH1 IH2]] using rev_ind; [done|].
  rewrite phase_of_snoc, call_answers_app.
  destruct ev as [X e x]. destruct e; cbn [call_answers flat_map app phase_step]; rewrite ?app_nil_r; try done.
  all: try (by destruct x).
  - destruct x as [c|]; [|done]. by destruct (claimed c).
  - rewrite last_snoc, length_app. cbn [attempts outcome_ called length]. split; [lia|done].
Qed.

Section Properties.
Context (user : string) (tenant : option string) (req : CallParams).

Lemma handle_runs tr r :
  runs (handleToolCall user tenant req) tr r ->
  (forall pre ev post, tr = pre ++ ev :: post -> admitted user req (phase_of pre) ev)
  /\ (forall a, r = Some a -> settled_end (phase_of tr) a).
Proof using. apply wp_runs, handle_ok. Qed.

(** From any point of a run on, the protocol is respected. *)
Fixpoint accepted (s : phase) (l : list (event call)) : Prop :=
  match l with
  | [] => True
  | ev :: l' => admitted user req s ev /\ accepted (phase_step s ev) l'
  end.

Lemma accepted_intro (s : phase) (l : list (event call)) :
  (forall pre ev post, l = pre ++ ev :: post -> admitted user req (fold_left phase_step pre s) ev) ->
  accepted s l.
Proof using.
  revert s. induction l as [|ev l IH]; intros s H; [done|]. split; [by apply (H [] ev l)|].
  apply IH. intros pre ev' post ->. by apply (H (ev :: pre) ev' post).
Qed.

Lemma runs_accepted tr r pre post :
  runs (handleToolCall user tenant req) tr r -> tr = pre ++ post -> accepted (phase_of pre) post.
Proof using.
  intros Hr ->. apply accepted_intro. intros a ev b ->.
  destruct (handle_runs _ _ Hr) as [H _]. unfold phase_of. rewrite <- fold_left_app.
  apply (H _ _ b). by rewrite <- app_assoc.
Qed.

(** A claim is used by the next downstream call. *)
Lemma claim_used (i : string * string) (s : phase) (l : list (event call)) :
  accepted s l -> claim s = Some i -> claim (fold_left phase_step l s) = None ->
  exists mid ctx sid p pid x rest, l = mid ++ Ev _ (CallTool ctx sid p pid) x :: rest
    /\ claim (fold_left phase_step mid s) = Some i.
Proof using.
  revert s. induction l as [|ev l IH]; cbn; intros s Ha Hc Hn; [congruence|].
  destruct Ha as [Had Ha]. destruct ev as [X e x].
  assert (Hcase : (exists ctx sid p pid y, Ev X e x = Ev _ (CallTool ctx sid p pid) y)
                  \/ claim (phase_step s (Ev X e x)) = Some i).
  { destruct e; try (by right); try (by right; destruct x); [|left; by repeat eexists].
    cbn in Had. destruct Had as [Had _]. congruence. }
  destruct Hcase as [(ctx & sid & p & pid & y & ->)|Hc'].
  - by exists [], ctx, sid, p, pid, y, l.
  - destruct (IH _ Ha Hc' Hn) as (mid & ctx & sid & p & pid & y & rest & -> & Hm).
    by exists (Ev X e x :: mid), ctx, sid, p, pid, y, rest.
Qed.

(** A running request is settled. *)
Lemma running_settled (i : string) (s : phase) (l : list (event call)) :
  accepted s l -> running s = Some i -> running (fold_left phase_step l s) = None ->
  exists y, (exists v, In (Ev _ (MarkExecuted i v) y) l) \/ (exists m, In (Ev _ (MarkFailed i m) y) l).
Proof using.
  revert s. induction l as [|ev l IH]; cbn; intros s Ha Hc Hn; [congruence|].
  destruct Ha as [Had Ha]. destruct ev as [X e x].
  assert (Hcase : (exists y, (exists v, Ev X e x = Ev _ (MarkExecuted i v) y)
                             \/ (exists m, Ev X e x = Ev _ (MarkFailed i m) y))
                  \/ running (phase_step s (Ev X e x)) = Some i).
  { destruct e; try (by right); try (by right; destruct x); cbn in Had.
    - right. cbn. destruct x as [d|]; [|done]. by destruct (claimed d).
    - left. exists x. left. rewrite Hc in Had. injection Had as ->. by eexists.
    - left. exists x. right. rewrite Hc in Had. injection Had as ->. by eexists.
    - destruct Had as (_ & _ & Had & _). congruence. }
  destruct Hcase as [(y & [[v E]|[m E]])|Hr].
  - exists y. left. exists v. by left.
  - exists y. right. exists m. by left.
  - destruct (IH _ Ha Hr Hn) as (y & [[v Hv]|[m Hm]]); exists y; [left; exists v|right; exists m]; by right.
Qed.

(** Reconnecting a server failed with [f], or so did looking up the owner's
    token for it. *)
Definition reconnection_failed (f : failure) (ev : event call) : Prop :=
  ev = Ev _ GetOwnerToken (Throw f) \/ exists i, ev = Ev _ (Reconnect i) (Throw f).

(** A reconnection that failed is one of the calls. *)
Lemma broken_traced (f : failure) (s : phase) (l : list (event call)) :
  broken s = None -> broken (fold_left phase_step l s) = Some f -> exists ev, In ev l /\ reconnection_failed f ev.
Proof using.
  intros Hs. induction l as [|ev l IH] using rev_ind; cbn; [congruence|]. rewrite fold_left_app. cbn [fold_left].
  set (s1 := fold_left phase_step l s) in *. intros H.
  assert (Hcase : reconnection_failed f ev \/ broken s1 = Some f).
  { destruct ev as [X e x]. destruct e; cbn in H; try (by right).
    - destruct x as [c|]; [|by right]. right. by destruct (claimed c).
    - destruct x as [u|g]; [by right|]. left. injection H as ->. by left.
    - destruct x as [u|g]; [by right|]. left. right. injection H as ->. by eexists. }
  destruct Hcase as [Hr|Hb].
  - exists ev. split; [apply in_app_iff; right; by left|done].
  - destruct (IH Hb) as (ev' & Hi & Hr). exists ev'. split; [apply in_app_iff; by left|done].
Qed.
End Properties.

(** ** Properties *)

(** C2: Nothing reaches a downstream server unchecked.  In any run, whatever
    the other components answer, when the handler makes a downstream call it
    has, since its previous downstream call: found the session permitted to
    use exactly that tool, and asked the policy engine about exactly this
    user, server, tool and these arguments.  A denying policy excludes the
    call; when approval is required, an approval of exactly this call under
    this policy version was asked for and the request it gave was claimed.
    The downstream server receives the client's arguments unchanged. *)
Theorem downstream_call_cleared (user : string) (tenant : option string) (req : CallParams)
    tr r pre ctx sid p pid x post :
  runs (handleToolCall user tenant req) tr r ->
  tr = pre ++ Ev _ (CallTool ctx sid p pid) x :: post ->
  let now := this_attempt pre in
  cp_arguments p = cp_arguments req
  /\ In (Ev bool (CanUseTool sid (cp_name p)) true) now
  /\ exists q v, In (Ev _ (EvaluatePolicy q) (Ok v)) now /\ about user req q sid (cp_name p)
     /\ match Policy.decision v with
        | Deny => False
        | Allow => True
        | RequireApproval =>
            exists i c row d, In (Ev _ (CheckOrCreateApproval i) (Ok c)) now /\ request c = Some row
              /\ approval_about user req i v sid (cp_name p)
              /\ In (Ev _ (ClaimForExecutionById (ApprovalRepository.id row)) (Ok d)) now
              /\ claimed d = true
        end.
Proof.
  intros Hr Htr. destruct (handle_runs _ _ _ _ _ Hr) as [H _]. specialize (H _ _ _ Htr).
  destruct (phase_traced pre) as (T1 & T2 & T3 & T4). cbn in H.
  destruct H as (Hok & Hargs & _ & _). split; [done|].
  destruct Hok as [(Hp & _ & q & v & Hv & Ha & Hd)|(Hp & q & v & i & row & k & Hv & Ha & Hd & Hi & Hia & Hk)];
    (split; [by apply T1|]); exists q, v; (split; [by apply T2|]); (split; [done|]); rewrite Hd; [done|].
  destruct (T3 _ _ Hi) as (c & r' & Hc & Hr' & <-). destruct (T4 _ _ Hk) as (d & row' & Hd' & Hcl & _).
  by exists i, c, r', d.
Qed.

(** A client's call is forwarded at most three times, again only after
    the downstream server timed out, and never once it answered: an answer
    ends the run and is the reply. *)
Theorem downstream_calls_bounded (user : string) (tenant : option string) (req : CallParams) tr r :
  runs (handleToolCall user tenant req) tr r ->
  let answers := call_answers tr in
  (length answers <= 3)%nat
  /\ (forall l a b k, answers = l ++ a :: b :: k -> exists e, a = Throw e /\ is_request_timeout e = true)
  /\ (forall v a, last answers = Some (Ok v) -> r = Some a -> a = Ok v).
Proof.
  intros Hr. destruct (handle_runs _ _ _ _ _ Hr) as [Had Hend]. cbn zeta.
  assert (Hone : forall pre post, tr = pre ++ post -> (length (call_answers pre) <= 3)%nat
    /\ forall l a b k, call_answers pre = l ++ a :: b :: k ->
         exists e, a = Throw e /\ is_request_timeout e = true).
  { intros pre. induction pre as [|ev pre IH] using rev_ind; intros post Htr.
    { split; [cbn; lia|]. intros [|] a b k E; discriminate. }
    rewrite <- app_assoc in Htr. destruct (IH _ Htr) as [IH1 IH2].
    specialize (Had _ _ _ Htr). rewrite call_answers_app.
    destruct ev as [X e x]. destruct e; cbn [call_answers flat_map app]; rewrite ?app_nil_r; try (by split).
    destruct Had as (_ & _ & _ & Hn & Ho). destruct (phase_answers pre) as [P1 P2].
    rewrite P1 in Hn. rewrite P2 in Ho. split; [rewrite length_app; cbn; lia|].
    intros l a b k E. destruct k as [|y k] using rev_ind; [|clear IHk].
    - change (l ++ [a; b]) with (l ++ [a] ++ [b]) in E. rewrite app_assoc in E.
      apply app_inj_tail in E as [E _]. rewrite E, last_snoc in Ho.
      destruct a as [v|f]; [done|]. by exists f.
    - assert (E' : call_answers pre ++ [x] = (l ++ a :: b :: k) ++ [y]) by (by rewrite E, <- app_assoc).
      apply app_inj_tail in E' as [E' _]. by apply (IH2 l a b k). }
  destruct (Hone tr [] ltac:(by rewrite app_nil_r)) as [H1 H2]. split; [done|]. split; [done|].
  intros v a Hl ->. destruct (Hend a eq_refl) as (_ & _ & _ & Hv). apply Hv.
  by destruct (phase_answers tr) as [_ ->].
Qed.

(** C21: No approval is lost.  When the handler claims an approved request, the
    downstream call it was approved for follows, and after it the request is
    marked as executed or failed, with one exception: after the call,
    reconnecting the timed-out server throws (or looking up the owner's token
    for it does), and that very error ends the run. *)
Theorem claims_settled (user : string) (tenant : option string) (req : CallParams)
    tr a pre j d row post :
  runs (handleToolCall user tenant req) tr (Some a) ->
  tr = pre ++ Ev _ (ClaimForExecutionById j) (Ok d) :: post ->
  claimed d = true -> claim_request d = Some row -> truthy_str (ApprovalRepository.id row) = true ->
  exists mid ctx sid p pid x rest, post = mid ++ Ev _ (CallTool ctx sid p pid) x :: rest
    /\ ((exists e ev, a = Throw e /\ In ev rest /\ reconnection_failed e ev)
        \/ exists y, (exists v, In (Ev _ (MarkExecuted (ApprovalRepository.id row) v) y) rest)
                     \/ (exists m, In (Ev _ (MarkFailed (ApprovalRepository.id row) m) y) rest)).
Proof.
  intros Hr Htr Hd Hrow Ht. destruct (handle_runs _ _ _ _ _ Hr) as [_ Hend].
  destruct (Hend a eq_refl) as (He & Hcl & _ & _).
  assert (Htr' : tr = (pre ++ [Ev _ (ClaimForExecutionById j) (Ok d)]) ++ post) by (by rewrite <- app_assoc).
  pose proof (runs_accepted _ _ _ _ _ _ _ Hr Htr') as Hacc.
  rewrite Htr' in Hcl, He. unfold phase_of in Hcl, He. rewrite fold_left_app in Hcl, He.
  fold (phase_of (pre ++ [Ev _ (ClaimForExecutionById j) (Ok d)])) in Hcl, He.
  assert (Hc : claim (phase_of (pre ++ [Ev _ (ClaimForExecutionById j) (Ok d)]))
               = Some (j, ApprovalRepository.id row)).
  { rewrite phase_of_snoc. cbn. by rewrite Hd, Hrow. }
  destruct (claim_used _ _ _ _ _ Hacc Hc Hcl) as (mid & ctx & sid & p & pid & x & rest & -> & Hm).
  exists mid, ctx, sid, p, pid, x, rest. split; [done|].
  rewrite fold_left_app in He. cbn [fold_left] in He.
  set (s1 := fold_left phase_step mid _) in He, Hm.
  assert (Hrun : running (phase_step s1 (Ev _ (CallTool ctx sid p pid) x)) = Some (ApprovalRepository.id row)).
  { cbn. unfold used_claim. rewrite Hm. cbn. by rewrite Ht. }
  destruct (running (fold_left phase_step rest (phase_step s1 (Ev _ (CallTool ctx sid p pid) x)))) as [k|] eqn:Er.
  - left. destruct (He k eq_refl) as (e & -> & Hb). exists e.
    destruct (broken_traced e _ _ (eq_refl : broken (phase_step s1 (Ev _ (CallTool ctx sid p pid) x)) = None) Hb) as (ev & Hin & Hf).
    by exists ev.
  - right. eapply (running_settled user req); [|exact Hrun|exact Er].
    pose proof (runs_accepted user tenant req tr (Some a)
      (pre ++ Ev _ (ClaimForExecutionById j) (Ok d) :: mid ++ [Ev _ (CallTool ctx sid p pid) x]) rest Hr) as Hx.
    assert (E : phase_of (pre ++ Ev _ (ClaimForExecutionById j) (Ok d) :: mid ++ [Ev _ (CallTool ctx sid p pid) x])
                = phase_step s1 (Ev _ (CallTool ctx sid p pid) x)).
    { unfold s1, phase_of. rewrite !fold_left_app. cbn [fold_left]. by rewrite fold_left_app. }
    rewrite <- E. apply Hx. rewrite Htr. rewrite <- !app_assoc. cbn. by rewrite <- app_assoc.
Qed.

(** ** Termination *)

(** How long calls take: the clock does not go back, a sleep that the client's
    abort did not cut short lasts as long as asked. *)
Definition clock (X : Type) (e : call X) (x : X) (t t' : Z) : Prop :=
  t <= t' /\ match e in call X return X -> Prop with
             | DateNow => fun now => now = t'
             | Sleep ms => fun aborted => aborted = false -> t + ms <= t'
             | _ => fun _ => True
             end x.

Notation ends p t := (timed clock p t (fun _ _ => True)).

(** Steps through calls that take time, keeping what the clock says. *)
Ltac elapse :=
  repeat first
    [ progress cbn [timed pbind fst snd]
    | match goal with
      | |- timed _ (pbind _ _) _ _ => apply timed_bind
      | |- forall _ _, clock _ _ _ _ _ -> _ => let H := fresh "Ht" in intros ? ? [? H]; cbn in H
      | |- timed _ (log_error _ _ _) _ _ => unfold log_error
      end ].
Ltac branch :=
  match goal with
  | |- timed _ (if ?b then _ else _) _ _ => destruct b eqn:?
  | |- timed _ (match ?x with _ => _ end) _ _ => destruct x eqn:?
  end.

Lemma wait_loop_ends (fuel : nat) (i : string) (tok : bool) (d n q : Z) (ex : bool) (t : Z)
    (Q : Z -> WaitResult -> Prop) :
  (forall t' a, Q t' a) -> (1 <= fuel)%nat ->
  d - t <= APPROVAL_POLL_INTERVAL_MS * (Z.of_nat fuel - 1) ->
  timed clock (wait_loop fuel i tok d n q ex) t Q.
Proof.
  intros HQ. unfold APPROVAL_POLL_INTERVAL_MS.
  revert n q ex t. induction fuel as [|fuel IH]; intros n q ex t Hf Hd; [lia|].
  cbn [wait_loop]. elapse. subst x. destruct (t' <? d) eqn:E; cbn [negb]; [|apply HQ]. to_prop.
  elapse. branch; [apply HQ|]. elapse.
  assert (Hgo : forall (u n' q' : Z), t'0 <= u ->
    timed clock (if d - u <=? 0 then Ret (give_up_result ex)
      else
      call! aborted := Sleep (Z.min APPROVAL_POLL_INTERVAL_MS (d - u)) in
      if aborted then Ret aborted_result
      else
      bind! poll := pollApprovalStatus i in
      match fst poll with
      | Some r => Ret r
      | None => wait_loop fuel i tok d n' q' (snd poll)
      end) u Q).
  { intros u n' q' Hu. branch; [apply HQ|]. to_prop. elapse. branch; [apply HQ|].
    match goal with H : _ = _ -> _ <= _ |- _ => specialize (H eq_refl); unfold APPROVAL_POLL_INTERVAL_MS in H end.
    elapse. unfold pollApprovalStatus. elapse. branch; [apply HQ|]. apply IH; lia. }
  destruct tok; elapse; [branch; elapse|]; subst; apply (Hgo _ _ _); lia.
Qed.

Lemma wait_ends (i : string) (tok : bool) (t : Z) (Q : Z -> WaitResult -> Prop) :
  (forall t' a, Q t' a) -> timed clock (waitForApproval i tok) t Q.
Proof.
  intros HQ. unfold waitForApproval. elapse. branch; [apply HQ|]. elapse. unfold pollApprovalStatus. elapse.
  branch; [apply HQ|]. apply wait_loop_ends; [exact HQ|unfold wait_fuel; lia|].
  unfold APPROVAL_WAIT_TIMEOUT_MS, APPROVAL_POLL_INTERVAL_MS, wait_fuel. lia.
Qed.

(** Programs without loops end; [HQ] says that any end is fine. *)
Ltac finish HQ :=
  repeat first [ progress elapse | apply HQ | branch | apply wait_ends; intros ? ? ].

Section Ends.
Context (user : string) (tenant : option string) (req : CallParams).

Lemma approval_stage_ends sid original uid policy t (Q : Z -> result failure (json + string) -> Prop) :
  (forall t' a, Q t' a) -> timed clock (approval_stage user req sid original uid policy) t Q.
Proof using.
  intros HQ.
  assert (Hrep : forall i e v u, timed clock (replay_or i e v) u Q).
  { intros i e v u. unfold replay_or, tryBuildReplayToolResult. finish HQ. }
  assert (Hcl : forall c row u, timed clock (claim_stage original policy c row) u Q).
  { intros c row u. unfold claim_stage, try_bind, deref. elapse. branch; [|apply HQ].
    branch; elapse; [apply Hrep|]. branch; elapse; apply HQ. }
  unfold approval_stage, try_bind, deref. elapse. branch; [|branch; elapse; apply HQ].
  elapse. branch; elapse; [|apply HQ]. branch; [|apply Hcl]. elapse.
  branch; elapse; apply wait_ends; intros t2 w; branch; first [apply Hcl|apply Hrep|finish HQ].
Qed.

Lemma settle_ends i v t (Q : Z -> unit -> Prop) :
  (forall t' a, Q t' a) -> timed clock (settle i v) t Q.
Proof using. intros HQ. unfold settle, mark_failed. finish HQ. Qed.

Lemma mark_failed_ends i e t (Q : Z -> unit -> Prop) :
  (forall t' a, Q t' a) -> timed clock (mark_failed i e) t Q.
Proof using. intros HQ. unfold mark_failed. finish HQ. Qed.

Lemma record_ends ctx e t (Q : Z -> result failure (option bool) -> Prop) :
  (forall t' a, Q t' a) -> timed clock (recordTimeout ctx e) t Q.
Proof using. intros HQ. unfold recordTimeout. finish HQ. Qed.

Lemma execute_ends ctx sid original p pid cache t (Q : Z -> result failure json -> Prop) :
  (forall t' a, Q t' a) -> timed clock (execute user tenant req ctx sid original p pid cache) t Q.
Proof using. intros HQ. unfold execute, forwardToolCall. finish HQ. Qed.

Definition retry_ends (retry : option (Prog json)) : Prop :=
  forall again t, retry = Some again -> ends again t.

Lemma on_error_ends ctx i e retry t (Q : Z -> result failure json -> Prop) :
  retry_ends retry -> (forall t' a, Q t' a) -> timed clock (on_error ctx i e retry) t Q.
Proof using.
  intros Hre HQ. unfold on_error, try_bind. apply timed_bind, record_ends. intros t1 [b|f]; [|apply HQ].
  elapse. assert (Hk : forall u, timed clock
    (match b, retry with
     | Some false, Some again => again
     | _, _ => Ret (Ok (text_reply (err_text e) true []))
     end) u Q).
  { intros u. destruct b as [[]|]; try apply HQ. destruct retry as [again|] eqn:E; [|apply HQ].
    eapply timed_mono; [by apply (Hre again)|]. auto. }
  branch; [by apply mark_failed_ends|apply Hk].
Qed.

Lemma forward_stage_ends ctx sid original c cache retry t :
  retry_ends retry -> ends (forward_stage user tenant req ctx sid original c cache retry) t.
Proof using.
  intros Hre. unfold forward_stage, rewriteProgressTokenForDownstream. elapse.
  assert (Hgo : forall p pid (st : bool) u i,
    timed clock (execute user tenant req ctx sid original p pid cache) u (fun u' r => ends
    (bind! reply :=
       match r with
       | Ok serverResult =>
           LogRequest (if is_error_truthy serverResult then 500 else 200) None !;
           bind! settled := match i with Some i => settle i serverResult | None => Ret tt end in
           Ret (Ok serverResult)
       | Throw e => on_error ctx i e retry
       end in
     bind! stopped := (if st then StopHeartbeat !; Ret tt else Ret tt) in
     RemoveMapping pid !; Ret reply) u')).
  { intros p pid st u i. apply execute_ends. intros t1 r. apply timed_bind.
    assert (Hfin : forall t2 reply, ends
      (bind! stopped := (if st then StopHeartbeat !; Ret tt else Ret tt) in RemoveMapping pid !;
       Ret (A := result failure json) reply) t2) by (intros t2 reply; destruct st; elapse; done).
    branch; [|by apply on_error_ends]. elapse. branch; [by apply settle_ends|apply Hfin]. }
  branch; [branch|]; elapse;
    (destruct (if truthy_ostr c then c else None) as [i|]; elapse;
     [apply (Hgo _ _ true _ (Some i))|apply (Hgo _ _ false _ None)]).
Qed.

Lemma body_ends retry t : retry_ends retry -> ends (tool_call_body user tenant req retry) t.
Proof using.
  intros Hre. unfold tool_call_body, try_bind. elapse.
  eapply timed_mono with (Q := fun _ _ => True); [unfold catalog_call; finish I|].
  intros t1 [[v|]|e] _; elapse; try done.
  eapply timed_mono with (Q := fun _ _ => True); [unfold route; finish I|].
  intros t2 [[sid original]|e] _; elapse; try done.
  eapply timed_mono with (Q := fun _ _ => True); [unfold fast_path; finish I|].
  intros t3 [[v|]|e] _; elapse; try done.
  branch; elapse; [|done]. branch; elapse; [|done].
  unfold policy_stage, try_bind. elapse. branch; [|done].
  branch; [by apply forward_stage_ends| |elapse; done].
  elapse. apply approval_stage_ends. intros t4 [[v|i]|e]; elapse; try done. by apply forward_stage_ends.
Qed.
End Ends.

(** C22: Every tool call ends.  However the other components answer and
    however long they take, the handler stops, with a reply or an error: it
    retries a bounded number of times, and waits for an approval in a loop
    that the deadline stops before the model's fuel does. *)
Theorem tool_call_ends (user : string) (tenant : option string) (req : CallParams) (t : Z) :
  timed clock (handleToolCall user tenant req) t (fun _ _ => True).
Proof.
  unfold handleToolCall. assert (H : forall n u, ends (call_with_retries user tenant req n) u).
  { induction n as [|n IH]; intros u; cbn [call_with_retries]; apply body_ends; [done|].
    intros again v [= <-]. apply IH. }
  apply H.
Qed.

(** ** Witnesses *)

Lemma downstream_call_cleared_witness :
  In (Ev bool (CanUseTool "mail" "send") true) (this_attempt (take 24 mail_trace))
  /\ exists q v, In (Ev _ (EvaluatePolicy q) (Ok v)) (this_attempt (take 24 mail_trace))
     /\ about "ann" send_mail q "mail" "send".
Proof.
  destruct (downstream_call_cleared "ann" None send_mail mail_trace (Some (Ok sent)) (take 24 mail_trace)
    (ex_temp "8" "ann") "mail" mail_params "p" (Ok sent) (drop 25 mail_trace) mail_runs mail_called)
    as (_ & H & q & v & Hq & Ha & _).
  split; [exact H|]. exists q, v. split; [exact Hq|exact Ha].
Defined.

Lemma downstream_calls_bounded_witness :
  (length (call_answers mail_trace) <= 3)%nat /\ last (call_answers mail_trace) = Some (Ok sent).
Proof.
  split; [|vm_compute; reflexivity].
  apply (downstream_calls_bounded "ann" None send_mail mail_trace (Some (Ok sent)) mail_runs).
Defined.

Lemma claims_settled_witness :
  exists mid ctx sid p pid x rest,
    drop 22 mail_trace = mid ++ Ev _ (CallTool ctx sid p pid) x :: rest
    /\ ((exists (e : failure) ev, Ok sent = Throw e /\ In ev rest /\ reconnection_failed e ev)
        \/ exists y, (exists v, In (Ev _ (MarkExecuted "r1" v) y) rest)
                     \/ (exists m, In (Ev _ (MarkFailed "r1" m) y) rest)).
Proof.
  apply (claims_settled "ann" None send_mail mail_trace (Ok sent) (take 21 mail_trace) "r1"
    {| claimed := true; claim_request := Some mail_row |} mail_row (drop 22 mail_trace) mail_runs mail_claimed);
    reflexivity.
Defined.
