(* ===== verification/ToolCallApproval.v ===== *)
(** * Tool calls over the shared approval table

    The protocol of [ToolCallGate.v] composed with the approval service of
    [ApprovalService.v] over the table of [ApprovalRepository.v]: the answers
    a run gets about approvals come from a history of the table to which any
    other session, administrator or sweeper may add statements at any time. *)
From Stdlib Require Import Ascii ZArith Lia.
From stdpp Require Import base strings list.
From S2P Require Import Prelude Json ApprovalRepository ApprovalService Access Policy Effects ToolCall ToolCallWorld ToolCallGate.
Open Scope Z_scope.

Section Composition.
Variable sha256 : string -> string.

Definition asks_approval (ev : event call) : bool :=
  match ev with
  | Ev _ e _ => match e with CheckOrCreateApproval _ | ClaimForExecutionById _ => true | _ => false end
  end.

(** [answered ss tr ss']: in a run that made the calls [tr], while the history
    of the table grew from [ss] to [ss'], asking for an approval and claiming
    it were answered by the service.  The other calls may be answered by
    anything, and other clients' statements come in between. *)
Inductive answered : list statement -> list (event call) -> list statement -> Prop :=
| answered_end ss : answered ss [] ss
| answered_others ss others tr ss' : answered (ss ++ others) tr ss' -> answered ss tr ss'
| answered_check ss added input env res tr ss' :
    checkOrCreateApproval sha256 input env (run ss []) = (res, run (ss ++ added) []) ->
    answered (ss ++ added) tr ss' ->
    answered ss (Ev _ (CheckOrCreateApproval input) res :: tr) ss'
| answered_claim ss i dbNow tr ss' :
    answered (ss ++ [SClaimId i dbNow]) tr ss' ->
    answered ss (Ev _ (ClaimForExecutionById i)
                   (Ok (fst (claimForExecutionById i dbNow (run ss [])))) :: tr) ss'
| answered_claim_throws ss i e tr ss' :
    answered ss tr ss' -> answered ss (Ev _ (ClaimForExecutionById i) (Throw e) :: tr) ss'
| answered_free ss ev tr ss' : asks_approval ev = false -> answered ss tr ss' -> answered ss (ev :: tr) ss'.

Lemma answered_extends ss tr ss' : answered ss tr ss' -> exists l, ss' = ss ++ l.
Proof.
  induction 1 as [ss|ss others tr ss' _ [l ->]|ss added input env res tr ss' _ _ [l ->]
    |ss i n tr ss' _ [l ->]|ss i e tr ss' _ IH|ss ev tr ss' _ _ IH]; try done;
    rewrite <- ?app_assoc; try (by eexists). exists []. by rewrite app_nil_r.
Qed.

(** Rows stay, with their identity. *)
Lemma run_row (ss : list statement) (t : table) (r : ApprovalRequest) :
  r ∈ t -> exists r', r' ∈ run ss t /\ ApprovalRepository.id r' = ApprovalRepository.id r
    /\ requestHash r' = requestHash r.
Proof.
  revert t r. induction ss as [|s ss IH]; intros t r Hr; [by exists r|].
  destruct (IH _ _ (exec_row s t r Hr)) as (r' & Hr' & Hid & Hh). exists r'. split; [done|].
  by rewrite Hid, Hh, row_update_id, row_update_hash.
Qed.

(** The row [checkOrCreateApproval] answers with is in the table and carries
    the hash of the input. *)
Lemma check_row (input : CreateApprovalInput) (env : call_env) (t t' : table) (res : ApprovalCheckResult)
    (row : ApprovalRequest) :
  checkOrCreateApproval sha256 input env t = (Ok res, t') -> request res = Some row ->
  row ∈ t' /\ requestHash row = request_hash sha256 input.
Proof.
  unfold checkOrCreateApproval, mbnd, mmodify, mgets, mret, mthrow, mmap_err.
  destruct (canonical_args _) as [c|e]; [|done].
  destruct (findActiveByRequestHash _ _ _) as [r|] eqn:F.
  - intros [= <- <-] [= <-]. apply findFirst_Some in F as [Hr Ha]. by apply is_active_index in Ha as [Hh _].
  - destruct (_ <=? _); [done|]. destruct (_ <=? _); [done|].
    destruct (createOrGetPending _ _ _) as [[[cr r]|e] t1] eqn:E; [|done].
    apply attempt_result in E as (Hr & Hh & _).
    destruct (negb cr && _); intros [= <- <-] [= <-]; done.
Qed.

(** Reading the two kinds of call back. *)
Definition event_check (ev : event call) : option (CreateApprovalInput * result approval_error ApprovalCheckResult) :=
  match ev with
  | Ev X e x => match e in call X return X -> _ with
                | CheckOrCreateApproval i => fun r => Some (i, r)
                | _ => fun _ => None
                end x
  end.

Definition event_claim (ev : event call) : option (string * result failure ApprovalClaimResult) :=
  match ev with
  | Ev X e x => match e in call X return X -> _ with
                | ClaimForExecutionById i => fun r => Some (i, r)
                | _ => fun _ => None
                end x
  end.

Lemma answered_check_row ss tr ss' input res row :
  answered ss tr ss' -> In (Ev _ (CheckOrCreateApproval input) (Ok res)) tr -> request res = Some row ->
  exists r, r ∈ run ss' [] /\ ApprovalRepository.id r = ApprovalRepository.id row
    /\ requestHash r = request_hash sha256 input.
Proof.
  intros H Hin Hrow.
  induction H as [ss|ss others tr ss' _ IH|ss added input' env res' tr ss' Hc H IH|ss i n tr ss' H IH
    |ss i e tr ss' _ IH|ss ev tr ss' Hf _ IH]; try done; try (by apply IH);
    (destruct Hin as [E|Hin]; [|by apply IH]); pose proof (f_equal event_check E) as E'; try done.
  - injection E' as -> ->. destruct (check_row _ _ _ _ _ _ Hc Hrow) as [Hin' Hh].
    destruct (answered_extends _ _ _ H) as [l ->]. destruct (run_row l _ _ Hin') as (r & Hr & Hid & Hh').
    exists r. rewrite run_app. split; [done|]. split; [done|]. by rewrite Hh'.
  - by subst ev.
Qed.

(** The history at any point of the run. *)
Lemma answered_others_r ss tr mid others : answered ss tr mid -> answered ss tr (mid ++ others).
Proof.
  induction 1 as [ss|ss o tr ss' _ IH|ss added input env res tr ss' Hc _ IH|ss i n tr ss' _ IH
    |ss i e tr ss' _ IH|ss ev tr ss' Hf _ IH].
  - apply (answered_others _ others). constructor.
  - by apply (answered_others _ o).
  - by apply (answered_check _ added _ env).
  - by apply answered_claim.
  - by apply answered_claim_throws.
  - by apply answered_free.
Qed.

(** What a claim's answer says of the history: it is the one of the statement
    the claim adds to it. *)
Lemma answered_claim_split ss tr1 i d tr2 ss' :
  answered ss (tr1 ++ Ev _ (ClaimForExecutionById i) (Ok d) :: tr2) ss' ->
  exists before n, answered ss tr1 before /\ d = fst (claimForExecutionById i n (run before []))
    /\ answered (before ++ [SClaimId i n]) tr2 ss'.
Proof.
  intros H. remember (tr1 ++ _) as tr eqn:E. revert tr1 E.
  induction H as [ss|ss o tr ss' _ IH|ss added input env res tr ss' Hc _ IH|ss j n tr ss' H IH
    |ss j e tr ss' _ IH|ss ev tr ss' Hf _ IH]; intros tr1 E.
  - by destruct tr1.
  - destruct (IH _ E) as (before & n & H1 & H2). exists before, n. split; [|done]. by apply (answered_others _ o).
  - destruct tr1 as [|ev tr1]; [by apply (f_equal (hd_error)) in E; cbn in E|]. injection E as <- E.
    destruct (IH _ E) as (before & n & H1 & H2). exists before, n. split; [|done]. by apply (answered_check _ added _ env).
  - destruct tr1 as [|ev tr1].
    + cbn in E. pose proof (f_equal (fun l => hd_error l ≫= event_claim) E) as E'.
      apply (f_equal (@tl _)) in E. cbn in E, E'. subst tr2. injection E' as -> <-.
      exists ss, n. split; [constructor|]. done.
    + injection E as <- E. destruct (IH _ E) as (before & m & H1 & H2). exists before, m. split; [|done].
      by apply answered_claim.
  - destruct tr1 as [|ev tr1]; [by pose proof (f_equal (fun l => hd_error l ≫= event_claim) E)|].
    injection E as <- E. destruct (IH _ E) as (before & m & H1 & H2). exists before, m. split; [|done].
    by apply answered_claim_throws.
  - destruct tr1 as [|ev' tr1]; [injection E as -> ->; done|].
    injection E as <- E. destruct (IH _ E) as (before & m & H1 & H2). exists before, m. split; [|done].
    by apply answered_free.
Qed.

(** A claim that succeeds hands its row out. *)
Lemma claimed_statement i n before :
  claimed (fst (claimForExecutionById i n (run before []))) = true ->
  claimed_ids [SClaimId i n] (run before []) = [i].
Proof.
  unfold claimForExecutionById. intros Hd. cbn [claimed_ids exec].
  destruct (claimApprovedForExecutionById i n (run before [])) as [[row|] t'] eqn:E1; [|done].
  cbn [fst option_list map app].
  unfold claimApprovedForExecutionById, first_row, sql_update in E1. injection E1 as E1 _.
  apply head_filter_spec in E1 as (r & Hr & Hp & ->). to_prop. cbn. f_equal. by apply str_eqb_eq.
Qed.

Lemma claimed_ids_app (a b : list statement) (t : table) :
  claimed_ids (a ++ b) t = claimed_ids a t ++ claimed_ids b (run a t).
Proof.
  revert t. induction a as [|s a IH]; intros t; [done|].
  rewrite <- app_comm_cons, (claimed_ids_cons s (a ++ b)), IH, (claimed_ids_cons s a). by rewrite <- app_assoc.
Qed.

Lemma claim_unique (before after : list statement) (s : statement) (i : string) :
  claimed_ids [s] (run before []) = [i] ->
  i ∈ approved_ids before [] /\ i ∉ claimed_ids before []
  /\ i ∉ claimed_ids after (run (before ++ [s]) []).
Proof.
  intros Hi. assert (Hin : i ∈ claimed_ids [s] (run before [])) by (rewrite Hi; by apply list_elem_of_singleton).
  assert (Hok : table_ok (run before [])) by (apply run_ok; split; constructor).
  assert (Hnd : NoDup (claimed_ids (before ++ s :: after) [])) by (apply claimed_ids_NoDup; split; constructor).
  rewrite claimed_ids_app, claimed_ids_cons, Hi in Hnd. apply NoDup_app in Hnd as (_ & H1 & H2).
  apply NoDup_cons in H2 as [H2 _]. split; [|split].
  - destruct (claimed_cons_status s _ i Hok Hin) as [(r & Hr & <- & Hs) _].
    destruct (approved_before before [] r Hr Hs) as [(r0 & Hr0 & _)|]; [|done]. by apply not_elem_of_nil in Hr0.
  - intros Hb. apply (H1 i Hb). by left.
  - by rewrite run_app.
Qed.
End Composition.

(** An event of the attempt, as a place in the trace after which no downstream
    call was made. *)
Lemma this_attempt_split (tr : list (event call)) (ev : event call) :
  In ev (this_attempt tr) -> exists a b, tr = a ++ ev :: b /\ existsb is_call b = false.
Proof.
  induction tr as [|e tr IH]; cbn [this_attempt]; [done|].
  assert (Hhere : forall l, existsb is_call l = false -> In ev l -> exists a b, l = a ++ ev :: b /\ existsb is_call b = false).
  { intros l Hl Hin. apply in_split in Hin as (a & b & ->). exists a, b. split; [done|].
    rewrite existsb_app in Hl. cbn in Hl. by destruct (existsb is_call a), (is_call ev). }
  destruct (existsb is_call tr) eqn:Hc.
  - intros (a & b & -> & Hb)%IH. by exists (e :: a), b.
  - destruct (is_call e) eqn:He; intros Hin.
    + destruct (Hhere _ Hc Hin) as (a & b & -> & Hb). by exists (e :: a), b.
    + apply Hhere; [|done]. cbn. by rewrite He.
Qed.

(** ** Property *)

(** C1: No gated call without approval, across the whole gateway.  Whatever
    other sessions, administrators and sweepers do to the approval table
    meanwhile, when a downstream call is made under a policy that requires
    approval, this very run made a claim that succeeded, after any downstream
    call it made before (between the claim and this call there is none).  The
    history of the table contains, at the place of that claim, the statement
    that answered it and handed the row out; the row carries the hash of
    exactly this user, server, tool, arguments and policy version; a decision
    approving it stands before the claim; and no other claim of the whole
    history, earlier or later, hands the row out. *)
Theorem gated_call_was_approved (sha256 : string -> string) (user : string) (tenant : option string)
    (req : CallParams) tr r ss pre ctx sid p pid x post q v :
  runs (handleToolCall user tenant req) tr r -> answered sha256 [] tr ss ->
  tr = pre ++ Ev _ (CallTool ctx sid p pid) x :: post ->
  verdict (phase_of pre) = Some (q, v) -> Policy.decision v = RequireApproval ->
  exists input row d tr1 tr2 before n after,
    approval_about user req input v sid (cp_name p)
    /\ row ∈ run ss [] /\ requestHash row = request_hash sha256 input
    /\ let i := ApprovalRepository.id row in
       pre = tr1 ++ Ev _ (ClaimForExecutionById i) (Ok d) :: tr2 /\ existsb is_call tr2 = false
       /\ claimed d = true /\ d = fst (claimForExecutionById i n (run before []))
       /\ answered sha256 [] tr1 before
       /\ answered sha256 (before ++ [SClaimId i n]) (tr2 ++ Ev _ (CallTool ctx sid p pid) x :: post) ss
       /\ ss = before ++ SClaimId i n :: after /\ claimed_ids [SClaimId i n] (run before []) = [i]
       /\ i ∈ approved_ids before [] /\ i ∉ claimed_ids before []
       /\ i ∉ claimed_ids after (run (before ++ [SClaimId i n]) []).
Proof.
  intros Hr Hans Htr Hv Hd. destruct (handle_runs _ _ _ _ _ Hr) as [H _]. specialize (H _ _ _ Htr).
  destruct (phase_traced pre) as (_ & _ & T3 & T4). cbn in H. destruct H as (Hok & _).
  destruct Hok as [(_ & _ & q' & v' & Hv' & _ & Hd')|(_ & q' & v' & i & row & k & Hv' & _ & _ & Hi & Hia & Hk)];
    rewrite Hv in Hv'; injection Hv' as <- <-; [congruence|].
  destruct (T3 _ _ Hi) as (c & r' & Hc & Hr' & <-). destruct (T4 _ _ Hk) as (d & row' & Hd' & Hcl & _).
  assert (Hc' : In (Ev _ (CheckOrCreateApproval i) (Ok c)) tr).
  { rewrite Htr. apply in_app_iff. left. by apply this_attempt_in. }
  destruct (answered_check_row _ _ _ _ _ _ _ Hans Hc' Hr') as (row & Hin & Hid & Hh).
  rewrite <- Hid in *. apply this_attempt_split in Hd' as (tr1 & tr2 & Hpre & Hnc).
  pose proof Hans as Hans'. rewrite Htr, Hpre, <- app_assoc in Hans'.
  apply answered_claim_split in Hans' as (before & n & Hb & Hdn & Ha).
  destruct (answered_extends _ _ _ _ Ha) as [after Hss]. rewrite <- app_assoc in Hss.
  rewrite Hdn in Hcl. pose proof (claimed_statement _ _ _ Hcl) as Hone. rewrite <- Hdn in Hcl.
  exists i, row, d, tr1, tr2, before, n, after. cbn zeta.
  destruct (claim_unique before after _ _ Hone) as (H1 & H2 & H3). by split_and! .
Qed.

(** ** Witness *)

Definition mail_history : list statement := w_history (snd (run_call send_mail [Ok sent])).

Lemma answered_claim_eq sha256 ss i dbNow d tr ss' :
  fst (claimForExecutionById i dbNow (run ss [])) = d -> answered sha256 (ss ++ [SClaimId i dbNow]) tr ss' ->
  answered sha256 ss (Ev _ (ClaimForExecutionById i) (Ok d) :: tr) ss'.
Proof. intros <-. apply answered_claim. Qed.

Ltac free := repeat (apply answered_free; [reflexivity|]).

Lemma mail_answered : answered sha [] mail_trace mail_history.
Proof.
  unfold mail_trace, mail_history.
  set (t := run_call send_mail [Ok sent]). vm_compute in t. subst t. cbn [fst snd w_history].
  free.
  eapply (answered_check sha _ (take 1 mail_history) _ (at_once (ex_world []))); [vm_compute; reflexivity|].
  free.
  apply (answered_others sha _ (take 1 (drop 1 mail_history))). free.
  eapply (answered_claim_eq sha _ "r1" 4000); [vm_compute; reflexivity|]. free.
  eapply (answered_others sha _ (drop 3 mail_history)).
  replace ((((_ ++ _) ++ _) ++ _) ++ _) with mail_history by (vm_compute; reflexivity).
  exact (answered_end sha mail_history).
Qed.

Lemma gated_call_was_approved_witness :
  exists row before n after, row ∈ w_table (snd (run_call send_mail [Ok sent]))
    /\ mail_history = before ++ SClaimId (ApprovalRepository.id row) n :: after
    /\ claimed_ids [SClaimId (ApprovalRepository.id row) n] (run before []) = [ApprovalRepository.id row]
    /\ ApprovalRepository.id row ∈ approved_ids before [].
Proof.
  assert (Hv : exists q v, verdict (phase_of (take 24 mail_trace)) = Some (q, v)
                           /\ Policy.decision v = RequireApproval).
  { eexists _, _. split; [vm_compute; reflexivity|reflexivity]. }
  destruct Hv as (q & v & Hv & Hd).
  destruct (gated_call_was_approved sha "ann" None send_mail mail_trace (Some (Ok sent)) mail_history
    (take 24 mail_trace) (ex_temp "8" "ann") "mail" mail_params "p" (Ok sent) (drop 25 mail_trace) q v
    mail_runs mail_answered mail_called Hv Hd)
    as (input & row & d & tr1 & tr2 & before & n & after & _ & H1 & _ & _ & _ & _ & _ & _ & _ & H2 & H3 & H4 & _).
  exists row, before, n, after. split; [exact H1|]. split; [exact H2|]. split; [exact H3|exact H4].
Defined.
