(* ===== verification/WebPlatform.v ===== *)
(** * The platform the gateway's web code stands on

    URLs, digests, base64 and signed tokens come from the runtime and from the
    [jsonwebtoken] package: one class of operations that the components of the
    OAuth server are written against, and the thrown errors they share. *)
From Stdlib Require Import Ascii ZArith Lia.
From stdpp Require Import base strings list.
From S2P Require Import Prelude Json JsMap.
Open Scope Z_scope.

(** A thrown [Error]; only its message is ever looked at. *)
Record exn : Type := Error { message : string }.

#[export] Instance exn_eq_dec : EqDecision exn.
Proof. solve_decision. Defined.

(** Reading a property of [undefined] or [null], calling a missing method. *)
Definition TypeError : exn := Error "TypeError".

(** The parts of a parsed URL the code reads; [url_rest] stands for the
    others (credentials, query and fragment). *)
Record Url : Type := {
  protocol : string;
  hostname : string;
  port : string;
  pathname : string;
  url_rest : string
}.

#[export] Instance Url_eq_dec : EqDecision Url.
Proof. solve_decision. Defined.

(** [url.port = p], [url.pathname = p] *)
Definition set_port (p : string) (u : Url) : Url :=
  {| protocol := protocol u; hostname := hostname u; port := p; pathname := pathname u; url_rest := url_rest u |}.
Definition set_pathname (p : string) (u : Url) : Url :=
  {| protocol := protocol u; hostname := hostname u; port := port u; pathname := p; url_rest := url_rest u |}.

(** The classes of error [jwt.verify] throws. *)
Inductive jwt_class : Type := JsonWebTokenError | TokenExpiredError | NotBeforeError.

(** [e instanceof C]: the last two extend the first. *)
Definition instanceof (e c : jwt_class) : bool :=
  match e, c with
  | _, JsonWebTokenError | TokenExpiredError, TokenExpiredError | NotBeforeError, NotBeforeError => true
  | _, _ => false
  end.

Class Platform : Type := {
  (** [new URL(s)], [None] when it throws; [url.toString()];
      [url.searchParams.set(k, v)] *)
  URL_parse : string -> option Url;
  URL_href : Url -> string;
  URL_search_set : string -> string -> Url -> Url;
  (** [createHash('sha256').update(s).digest('base64url' / 'hex')] *)
  sha256_base64url : string -> string;
  sha256_hex : string -> string;
  (** [Buffer.from(s, 'base64').toString('utf-8')] *)
  base64_decode : string -> string;
  (** [jwt.sign(payload, secret)], [jwt.verify(token, secret)] at a time *)
  jwt_sign : list (string * json) -> string -> string;
  jwt_verify : string -> string -> Z -> result jwt_class json;
  (** [net.isIP(s)]: 4, 6 or 0 *)
  isIP : string -> Z;
  (** [BlockList] with one subnet: [check(address)] *)
  in_subnet : string * Z -> string -> bool;
  (** [Number(s)], [None] for NaN *)
  Number_of : string -> option Z;
  (** [process.env.JWT_SECRET], [''] when unset *)
  JWT_SECRET : string
}.

(** [new URL(v)] of any value *)
Definition URL_of `{Platform} (v : json) : result exn Url :=
  match URL_parse (js_String v) with Some u => Ok u | None => Throw (Error "Invalid URL") end.

(** A small platform to evaluate examples on: [scheme://host:port/path], the
    digests and signatures as tagged text. *)
Section Toy.
Local Open Scope string_scope.

Definition cut (sep s : string) : option (string * string) :=
  match index_of sep s with
  | Some n => Some (str_take n s, str_drop (n + String.length sep) s)
  | None => None
  end.

Definition toy_parse (s : string) : option Url :=
  match cut "://" s with
  | Some (scheme, t) =>
      let '(authority, path) := match cut "/" t with Some (a, p) => (a, "/" +:+ p) | None => (t, "/") end in
      let '(host, prt) := default (authority, "") (cut ":" authority) in
      let '(pth, rest) := match cut "?" path with Some (a, q) => (a, "?" +:+ q) | None => (path, "") end in
      if str_eqb host "" then None
      else Some {| protocol := scheme +:+ ":"; hostname := host; port := prt; pathname := pth; url_rest := rest |}
  | None => None
  end.

Definition toy_href (u : Url) : string :=
  protocol u +:+ "//" +:+ hostname u +:+ (if str_eqb (port u) "" then "" else ":" +:+ port u)
  +:+ pathname u +:+ url_rest u.

Definition toy_search_set (k v : string) (u : Url) : Url :=
  {| protocol := protocol u; hostname := hostname u; port := port u; pathname := pathname u;
     url_rest := url_rest u +:+ (if str_eqb (url_rest u) "" then "?" else "&") +:+ k +:+ "=" +:+ v |}.

(** A token is its payload's text after the secret. *)
Definition toy_sign (payload : list (string * json)) (secret : string) : string :=
  secret +:+ "." +:+ default "" (JSON_stringify (JObj payload)) +:+ ".sig".

Definition toy_verify (t secret : string) (now : Z) : result jwt_class json :=
  if starts_with (secret +:+ ".") t && ends_with ".sig" t
  then let n := (String.length t - String.length secret - 5)%nat in
       match JSON_parse (str_take n (str_drop (S (String.length secret)) t)) with
       | Some p => match jfield_opt p "exp" with
                   | JNum e => if (e <=? now / 1000)%Z then Throw TokenExpiredError else Ok p
                   | _ => Ok p
                   end
       | None => Throw JsonWebTokenError
       end
  else Throw JsonWebTokenError.
End Toy.

Definition toy_platform : Platform := {|
  URL_parse := toy_parse; URL_href := toy_href; URL_search_set := toy_search_set;
  sha256_base64url := fun s => ("S256:" +:+ s)%string; sha256_hex := fun s => ("hex:" +:+ s)%string;
  base64_decode := fun s => s; jwt_sign := toy_sign; jwt_verify := toy_verify;
  isIP := fun s => if str_eqb (take_while (fun c => is_digit c || bool_decide (c = "."%char)) s) s then 4 else if str_mem ":" s then 6 else 0;
  in_subnet := fun net s => bool_decide (head (split_on "." (fst net)) = head (split_on "." s));
  Number_of := parseInt10; JWT_SECRET := "key"
|}.

Example toy_url : toy_href <$> toy_parse "http://localhost:8080/cb?x=1" = Some "http://localhost:8080/cb?x=1"%string.
Proof. reflexivity. Qed.

Example toy_token_roundtrip :
  toy_verify (toy_sign [("exp"%string, JNum 9)] "key") "key" 8000 = Ok (JObj [("exp"%string, JNum 9)]).
Proof. vm_compute. reflexivity. Qed.

(** * The gateway's own public address

    [src/src/utils/urlUtils.ts]: where clients reach the gateway, from the
    configuration, from a trusted proxy's headers, or from the request's Host
    header when that is local. *)

(** What the functions read of a request and of the environment. *)
Record Request : Type := {
  env_PETA_PUBLIC_URL : option string;
  env_ENABLE_HTTPS : bool;
  (** [trustProxy(remoteAddress, 0)], false without such a function *)
  trusted_proxy : bool;
  x_forwarded_host : option string;
  x_forwarded_proto : option string;
  host_header : option string;
  req_protocol : string
}.

Definition PUBLIC_URL_CONFIGURATION_ERROR : string :=
  "PETA_PUBLIC_URL or a trusted proxy is required for public URLs".

(** [s.replace(/\/+$/, '')] *)
Definition is_slash (c : ascii) : bool := bool_decide (c = "/"%char).
Fixpoint skip_slashes (s : string) : string :=
  match s with String c s' => if is_slash c then skip_slashes s' else s | EmptyString => "" end.
Definition strip_slashes (s : string) : string := str_rev (skip_slashes (str_rev s "")) "".

(** [s.replace(/\/$/, '')] *)
Definition strip_slash (s : string) : string :=
  if ends_with "/" s then str_take (String.length s - 1) s else s.

(** [s.replace(/^\[|\]$/g, '')] *)
Definition strip_brackets (s : string) : string :=
  let t := if starts_with "[" s then str_drop 1 s else s in
  if ends_with "]" t then str_take (String.length t - 1) t else t.

(** [a || b] on nullable strings *)
Definition or_str (a b : option string) : option string := if truthy_ostr a then a else b.

Section Urls.
Context `{P : Platform}.

Definition getConfiguredPublicUrl (req : Request) : option string :=
  publicUrl ← trim <$> env_PETA_PUBLIC_URL req;
  if truthy_str publicUrl then Some (strip_slashes publicUrl +:+ "/mcp")%string else None.

Definition getForwardedHeader (req : Request) (header : option string) : option string :=
  if trusted_proxy req then (fun h => trim (default ""%string (head (split_on "," h)))) <$> header else None.

(** [/[/#?@]/.test(host)] *)
Definition has_delimiter (s : string) : bool :=
  str_mem "/" s || str_mem "#" s || str_mem "?" s || str_mem "@" s.

Definition is_local_hostname (h : string) : bool :=
  str_eqb h "localhost" || ends_with ".localhost" h
  || ((isIP h =? 4) && starts_with "127." h) || ((isIP h =? 6) && str_eqb h "::1").

Definition getLocalRawHost (req : Request) : result exn string :=
  let refused := Throw (Error PUBLIC_URL_CONFIGURATION_ERROR) in
  match host_header req with
  | None => refused
  | Some host =>
      if negb (truthy_str host) || negb (str_eqb (trim host) host) || has_delimiter host || ends_with ":" host
      then refused
      else match URL_parse ("http://" +:+ host) with
           | None => refused
           | Some u =>
               if negb (str_eqb (pathname u) "/") || truthy_str (url_rest u) then refused
               else if is_local_hostname (strip_brackets (hostname u)) then Ok host else refused
           end
  end.

Definition getPublicUrl (req : Request) : result exn string :=
  match getConfiguredPublicUrl req with
  | Some url => Ok url
  | None =>
      let forwardedProtocol := getForwardedHeader req (x_forwarded_proto req) in
      let forwardedHost := getForwardedHeader req (x_forwarded_host req) in
      let protocol := default (if truthy_str (req_protocol req) then req_protocol req
                               else if env_ENABLE_HTTPS req then "https" else "http")%string
                        (or_str forwardedProtocol None) in
      match (match or_str forwardedHost None with Some h => Ok h | None => getLocalRawHost req end) with
      | Ok host => Ok (protocol +:+ "://" +:+ host +:+ "/mcp")%string
      | Throw e => Throw e
      end
  end.

Definition getAuthorizationServerUrl (req : Request) : result exn string :=
  match getPublicUrl req with
  | Throw e => Throw e
  | Ok gatewayUrl =>
      match URL_of (JStr gatewayUrl) with
      | Throw e => Throw e
      | Ok url =>
          let url := if str_eqb (pathname url) "/mcp" then set_pathname "" url else url in
          Ok (strip_slash (URL_href url))
      end
  end.
End Urls.

(** A request whose headers alone name a host gets no public address unless
    the host is local: the address is the configuration's, a trusted proxy's
    or local. *)
Definition address_source (req : Request) (P : Platform) (url : string) : Prop :=
  (exists p, env_PETA_PUBLIC_URL req = Some p /\ url = (strip_slashes (trim p) +:+ "/mcp")%string)
  \/ exists protocol host, url = (protocol +:+ "://" +:+ host +:+ "/mcp")%string
     /\ ((trusted_proxy req = true /\ is_Some (x_forwarded_host req))
         \/ (host_header req = Some host
             /\ exists u, URL_parse ("http://" +:+ host) = Some u /\ pathname u = "/"%string
                /\ url_rest u = ""%string /\ is_local_hostname (strip_brackets (hostname u)) = true)).

Lemma getLocalRawHost_local `{P : Platform} (req : Request) (host : string) :
  getLocalRawHost req = Ok host ->
  host_header req = Some host /\ exists u, URL_parse ("http://" +:+ host) = Some u /\ pathname u = "/"%string
    /\ url_rest u = ""%string /\ is_local_hostname (strip_brackets (hostname u)) = true.
Proof.
  unfold getLocalRawHost. destruct (host_header req) as [h|]; [|done].
  destruct (_ || _); [done|]. destruct (URL_parse _) as [u|] eqn:Hu; [|done].
  destruct (negb _ || _) eqn:Hc; [done|]. destruct (is_local_hostname _) eqn:Hl; [|done]. intros [= ->].
  to_prop. unfold truthy_str in *. to_prop.
  repeat match goal with H : str_eqb _ _ = true |- _ => apply str_eqb_eq in H end.
  split; [done|]. by exists u.
Qed.

Theorem public_address_trusted `{P : Platform} (req : Request) (url : string) :
  getPublicUrl req = Ok url -> address_source req P url.
Proof.
  unfold getPublicUrl, getConfiguredPublicUrl, address_source.
  destruct (env_PETA_PUBLIC_URL req) as [p|]; cbn.
  1: destruct (truthy_str (trim p)) eqn:Ht; [intros [= <-]; left; by exists p|].
  all: intros H; right; revert H; unfold getForwardedHeader, or_str;
    destruct (trusted_proxy req) eqn:Hp; cbn.
  all: try (destruct (x_forwarded_host req) as [fh|]; cbn;
            [destruct (truthy_str (trim (default "" (head (split_on "," fh))))); cbn;
               [intros [= <-]; eexists _, _; split; [done|by left]|]|]).
  all: destruct (getLocalRawHost req) as [h|] eqn:Hl; [|done]; intros [= <-];
    apply getLocalRawHost_local in Hl; eexists _, h; split; [done|by right].
Qed.

Definition ex_req : Request :=
  {| env_PETA_PUBLIC_URL := None; env_ENABLE_HTTPS := false; trusted_proxy := false;
     x_forwarded_host := Some "evil.example"%string; x_forwarded_proto := None;
     host_header := Some "localhost:3002"%string; req_protocol := "http" |}.

Lemma public_address_trusted_witness : address_source ex_req toy_platform "http://localhost:3002/mcp".
Proof. apply (public_address_trusted (P := toy_platform) ex_req). vm_compute. reflexivity. Defined.

Example issuer_of_ex_req : getAuthorizationServerUrl (P := toy_platform) ex_req = Ok "http://localhost:3002"%string.
Proof. vm_compute. reflexivity. Qed.
