(* ===== verification/EventStore.v ===== *)
(** * Event store

    Streamed messages kept so that a client that lost its connection can pick
    up where it was: [src/src/mcp/core/PersistentEventStore.ts], the table it
    writes ([src/src/repositories/EventRepository.ts], model [Event] of the
    schema) and the service that deletes expired rows
    ([src/src/mcp/core/EventCleanupService.ts]).  The methods are programs
    ([Effects]); the statements are answered by a table whose rows come in the
    order of their commits, each under a number it took before. *)
From Stdlib Require Import Ascii ZArith Lia.
From stdpp Require Import base gmap strings list sorting.
From S2P Require Import Prelude Json JsMap WebPlatform Effects Interleaving EventCache.
Open Scope Z_scope.

Record Event : Type := {
  id : Z; eventId : string; streamId : string; sessionId : string;
  messageType : string; messageData : string; createdAt : Z; expiresAt : Z
}.

(** What [create] is given; the type is whatever the message's [method] is. *)
Record EventData : Type := {
  d_eventId : string; d_streamId : string; d_sessionId : string;
  d_messageType : json; d_messageData : option string; d_createdAt : Z; d_expiresAt : Z
}.

(** What [createMany] is given. *)
Record NewEvent : Type := {
  n_eventId : string; n_streamId : string; n_sessionId : string;
  n_messageType : string; n_messageData : string; n_expiresAt : option Z
}.

Inductive event_where : Type :=
| OfStream (streamId : string)
| ExpiredBefore (now : Z)
| CreatedBefore (date : Z)
| AllEvents.

Inductive event_call : Type -> Type :=
| Now : event_call Z
| RandomBase36 : event_call string
| NextNumber : event_call Z
| CreateEvent (number : Z) (d : EventData) : event_call (result exn Event)
| CreateEvents (ds : list (Z * (NewEvent * Z))) : event_call (result exn nat)
| FindEvent (eventId : string) : event_call (result exn (option Event))
| FindEventForSession (eventId sessionId : string) : event_call (result exn (option Event))
| FindByStream (streamId : string) (after : option Z) : event_call (result exn (list Event))
| FindEventsAfter (sessionId streamId : string) (afterId : Z) : event_call (result exn (list Event))
| FindBySession (sessionId : string) : event_call (result exn (list Event))
| CountEvents : event_call (result exn nat)
| GroupByStream : event_call (result exn (list (string * nat)))
| OldestEvent : event_call (result exn (option Z))
| NewestEvent : event_call (result exn (option Z))
| DeleteEvents (w : event_where) : event_call (result exn nat)
| CacheMessage (sessionId streamId eventId : string) (message : json) (now : Z) : event_call unit
| SendEvent (eventId : string) (message : json) : event_call (result exn unit)
| EnqueueLog (error : string) : event_call unit.

Notation Async A := (prog event_call (result exn A)).

(** ** [EventRepository] *)

Definition day : Z := 24 * 60 * 60 * 1000.

(** An insertion takes its row's number ([autoincrement]), and commits the row
    under it later: others may take numbers and commit in between, and a
    number taken by an insertion that fails is gone. *)
Definition insert_event (d : EventData) : Async Event :=
  call! number := NextNumber in perform (CreateEvent number d).

Definition create (eventId streamId sessionId : string) (messageType : json) (messageData : option string)
    (expiresAt : option Z) : Async Event :=
  call! created := Now in
  let row ex := {| d_eventId := eventId; d_streamId := streamId; d_sessionId := sessionId;
                   d_messageType := messageType; d_messageData := messageData; d_createdAt := created; d_expiresAt := ex |} in
  match expiresAt with
  | Some ex => insert_event (row ex)
  | None => call! now := Now in insert_event (row (now + day))
  end.

Definition findByEventId (eventId : string) : Async (option Event) := perform (FindEvent eventId).

Definition findByEventIdForSession (eventId sessionId : string) : Async (option Event) :=
  perform (FindEventForSession eventId sessionId).

Definition findByStreamId (streamId : string) (afterEventId : option string) : Async (list Event) :=
  if truthy_ostr afterEventId then
    await! afterEvent := perform (FindEvent (default "" afterEventId)) in
    match afterEvent with
    | None => perform (FindByStream streamId None)
    | Some e => perform (FindByStream streamId (Some (createdAt e)))
    end
  else perform (FindByStream streamId None).

Definition findByStreamIdForSessionAfterId (sessionId streamId : string) (afterId : Z) : Async (list Event) :=
  perform (FindEventsAfter sessionId streamId afterId).

Definition findBySessionId (sessionId : string) : Async (list Event) := perform (FindBySession sessionId).

Fixpoint number_each (events : list (NewEvent * Z)) (done : list (Z * (NewEvent * Z))) : Async nat :=
  match events with
  | [] => perform (CreateEvents (rev done))
  | e :: events' => call! number := NextNumber in number_each events' ((number, e) :: done)
  end.

Fixpoint with_expiry (events : list NewEvent) (done : list (NewEvent * Z)) : Async nat :=
  match events with
  | [] => number_each (rev done) []
  | e :: events' =>
      match n_expiresAt e with
      | Some ex => with_expiry events' ((e, ex) :: done)
      | None => call! now := Now in with_expiry events' ((e, now + day) :: done)
      end
  end.

Definition createMany (events : list NewEvent) : Async nat := with_expiry events [].

Definition deleteByStreamId (streamId : string) : Async nat := perform (DeleteEvents (OfStream streamId)).
Definition deleteExpired : Async nat := call! now := Now in perform (DeleteEvents (ExpiredBefore now)).
Definition deleteBefore (date : Z) : Async nat := perform (DeleteEvents (CreatedBefore date)).
Definition deleteAll : Async nat := perform (DeleteEvents AllEvents).

Record EventStats : Type := {
  total : nat; byStream : list (string * nat); oldestEvent : option Z; newestEvent : option Z
}.

(** [Promise.all]: all four are asked, then the first failure counts. *)
Definition getStats : Async EventStats :=
  call! total := CountEvents in
  call! events := GroupByStream in
  call! oldest := OldestEvent in
  call! newest := NewestEvent in
  Ret (match total, events, oldest, newest with
       | Ok n, Ok l, Ok o, Ok w =>
           Ok {| total := n; byStream := fold_left (fun m e => map_set (fst e) (snd e) m) l []; oldestEvent := o; newestEvent := w |}
       | Throw e, _, _, _ | _, Throw e, _, _ | _, _, Throw e, _ | _, _, _, Throw e => Throw e
       end).

(** ** [PersistentEventStore] of one session *)

Definition eventRetentionDays : Z := 7.

Definition generateEventId (streamId : string) : prog event_call string :=
  call! timestamp := Now in
  call! randomStr := RandomBase36 in
  Ret (streamId +:+ "_" +:+ z_to_string timestamp +:+ "_" +:+ randomStr).

(** [message.method ? message.method : 'response'] *)
Definition message_type (message : json) : json :=
  if js_truthy (jfield_opt message "method") then jfield_opt message "method" else JStr "response".

Definition storeEvent (sessionId streamId : string) (message : json) : Async string :=
  bind! eventId := generateEventId streamId in
  call! now := Now in
  await! _ := create eventId streamId sessionId (message_type message) (JSON_stringify message)
                (Some (now + eventRetentionDays * day)) in
  call! now := Now in
  call! _ := CacheMessage sessionId streamId eventId message now in
  Ret (Ok eventId).

Definition getStreamIdForEventId (sessionId eventId : string) : Async (option string) :=
  await! event := findByEventIdForSession eventId sessionId in
  Ret (Ok (option_map streamId event)).

(** Sending what can be parsed; a failure goes to the log. *)
Fixpoint replay_each (events : list Event) : prog event_call unit :=
  match events with
  | [] => Ret tt
  | event :: events' =>
      match JSON_parse (messageData event) with
      | None => replay_each events'
      | Some message => call! _ := SendEvent (eventId event) message in replay_each events'
      end
  end.

Definition replayEventsAfter (sessionId lastEventId : string) : Async string :=
  await! anchorEvent := findByEventIdForSession lastEventId sessionId in
  match anchorEvent with
  | None => Ret (Throw (Error ("Invalid event ID: " +:+ lastEventId)))
  | Some anchor =>
      await! sortedEvents := findByStreamIdForSessionAfterId sessionId (streamId anchor) (id anchor) in
      bind! _ := replay_each sortedEvents in
      Ret (Ok (streamId anchor))
  end.

(** ** [EventCleanupService] *)

Record EventCleanupService : Type := {
  cleanupIntervalMs : Z; isRunning : bool; lastCleanupTime : option Z; totalCleanedEvents : nat
}.

Definition startCleanupTimer (s : EventCleanupService) : EventCleanupService :=
  if isRunning s then s else
  {| cleanupIntervalMs := cleanupIntervalMs s; isRunning := true;
     lastCleanupTime := lastCleanupTime s; totalCleanedEvents := totalCleanedEvents s |}.

Definition new_cleanup_service : EventCleanupService :=
  startCleanupTimer {| cleanupIntervalMs := day; isRunning := false; lastCleanupTime := None; totalCleanedEvents := 0 |}.

Definition stop (s : EventCleanupService) : EventCleanupService :=
  {| cleanupIntervalMs := cleanupIntervalMs s; isRunning := false;
     lastCleanupTime := lastCleanupTime s; totalCleanedEvents := totalCleanedEvents s |}.

Definition restart (s : EventCleanupService) : EventCleanupService := startCleanupTimer (stop s).

Definition setCleanupInterval (intervalMs : Z) (s : EventCleanupService) : result exn EventCleanupService :=
  if intervalMs <? 60000 then Throw (Error "Cleanup interval must be at least 1 minute")
  else Ok (restart {| cleanupIntervalMs := intervalMs; isRunning := isRunning s;
                      lastCleanupTime := lastCleanupTime s; totalCleanedEvents := totalCleanedEvents s |}).

Definition count_cleaned (n : nat) (at_ : option Z) (s : EventCleanupService) : EventCleanupService :=
  {| cleanupIntervalMs := cleanupIntervalMs s; isRunning := isRunning s;
     lastCleanupTime := at_; totalCleanedEvents := totalCleanedEvents s + n |}.

Definition cleanupExpiredEvents (s : EventCleanupService) : Async EventCleanupService :=
  call! _ := Now in
  await! deletedCount := deleteExpired in
  call! now := Now in
  call! _ := Now in
  Ret (Ok (count_cleaned deletedCount (Some now) s)).

Definition cleanupEventsBefore (date : Z) (s : EventCleanupService) : Async (nat * EventCleanupService) :=
  await! deletedCount := deleteBefore date in
  Ret (Ok (deletedCount, count_cleaned deletedCount (lastCleanupTime s) s)).

Definition cleanupStreamEvents (streamId : string) (s : EventCleanupService) : Async (nat * EventCleanupService) :=
  await! deletedCount := deleteByStreamId streamId in
  Ret (Ok (deletedCount, count_cleaned deletedCount (lastCleanupTime s) s)).

Definition manualCleanup := cleanupExpiredEvents.

(** The timer's task: a failed cleanup is logged. *)
Definition cleanup_tick (s : EventCleanupService) : prog event_call EventCleanupService :=
  bind! r := cleanupExpiredEvents s in
  match r with
  | Ok s => Ret s
  | Throw e => call! _ := EnqueueLog ("Event cleanup failed: Error: " +:+ message e) in Ret s
  end.

(** [getStatus().nextCleanupTime] *)
Definition nextCleanupTime (s : EventCleanupService) : option Z :=
  option_map (fun t => t + cleanupIntervalMs s) (lastCleanupTime s).

(** ** The table *)

Record EventWorld : Type := { rows : list Event; next_id : Z; caches : gmap string EventCache }.

Definition set_rows (l : list Event) (n : Z) (s : EventWorld) : EventWorld :=
  {| rows := l; next_id := n; caches := caches s |}.
Definition set_caches (f : gmap string EventCache -> gmap string EventCache) (s : EventWorld) : EventWorld :=
  {| rows := rows s; next_id := next_id s; caches := f (caches s) |}.

Definition row_of (d : EventData) (r : Event) : Prop :=
  eventId r = d_eventId d /\ streamId r = d_streamId d /\ sessionId r = d_sessionId d
  /\ JStr (messageType r) = d_messageType d /\ Some (messageData r) = d_messageData d
  /\ createdAt r = d_createdAt d /\ expiresAt r = d_expiresAt d.

(** A row of [createMany]; the database dates it. *)
Definition row_of_new (n : Z * (NewEvent * Z)) (r : Event) : Prop :=
  id r = fst n /\ eventId r = n_eventId (fst (snd n)) /\ streamId r = n_streamId (fst (snd n)) /\ sessionId r = n_sessionId (fst (snd n))
  /\ messageType r = n_messageType (fst (snd n)) /\ messageData r = n_messageData (fst (snd n)) /\ expiresAt r = snd (snd n).

(** Committing rows: numbers and event identifiers are unique. *)
Definition append_rows (new : list Event) (s s' : EventWorld) : Prop :=
  NoDup (map id (rows s ++ new)) /\ NoDup (map eventId (rows s ++ new))
  /\ s' = set_rows (rows s ++ new) (next_id s) s.

Definition selected (w : event_where) (r : Event) : bool :=
  match w with
  | OfStream st => str_eqb (streamId r) st
  | ExpiredBefore now => expiresAt r <? now
  | CreatedBefore date => createdAt r <? date
  | AllEvents => true
  end.

Definition of_session (sid : string) (r : Event) : bool := str_eqb (sessionId r) sid.

(** Rows of a session's stream numbered above a given one. *)
Definition later_row (sid st : string) (k : Z) (r : Event) : bool :=
  of_session sid r && str_eqb (streamId r) st && (k <? id r).

(** [orderBy: { id: 'asc' }] *)
Definition by_number (p : Event -> bool) (l : list Event) (found : list Event) : Prop :=
  found ≡ₚ List.filter p l /\ StronglySorted (fun a b => id a < id b) found.

Definition by_creation (p : Event -> bool) (l : list Event) (found : list Event) : Prop :=
  found ≡ₚ List.filter p l /\ StronglySorted (fun a b => createdAt a <= createdAt b) found.

Definition answers (X : Type) (e : event_call X) (s : EventWorld) : X -> EventWorld -> Prop :=
  match e in event_call X return X -> EventWorld -> Prop with
  | NextNumber => fun n s' => next_id s <= n /\ s' = set_rows (rows s) (n + 1) s
  | CreateEvent n d => writes (fun r s' => row_of d r /\ id r = n /\ append_rows [r] s s') s
  | CreateEvents ds => writes (fun n s' => exists new, n = length new /\ Forall2 row_of_new ds new /\ append_rows new s s') s
  | FindEvent e => reads (fun o => o = List.find (fun r => str_eqb (eventId r) e) (rows s)) s
  | FindEventForSession e sid => reads (fun o => o = List.find (fun r => str_eqb (eventId r) e && of_session sid r) (rows s)) s
  | FindByStream st None => reads (by_creation (fun r => str_eqb (streamId r) st) (rows s)) s
  | FindByStream st (Some t) => reads (by_creation (fun r => str_eqb (streamId r) st && (t <? createdAt r)) (rows s)) s
  | FindEventsAfter sid st k => reads (by_number (later_row sid st k) (rows s)) s
  | FindBySession sid => reads (by_creation (of_session sid) (rows s)) s
  | CountEvents => reads (fun n => n = length (rows s)) s
  | DeleteEvents w => writes (fun n s' =>
      n = length (List.filter (selected w) (rows s))
      /\ s' = set_rows (List.filter (fun r => negb (selected w r)) (rows s)) (next_id s) s) s
  | CacheMessage sid st e m now => fun _ s' =>
      s' = set_caches (fun cs => <[sid := Persistent.storeEventInCache now st e m (default [] (cs !! sid))]> cs) s
  | _ => fun _ s' => s' = s
  end.

(** Distinct numbers and distinct events. *)
Record world_ok (s : EventWorld) : Prop := {
  ids_distinct : NoDup (map id (rows s));
  events_distinct : NoDup (map eventId (rows s))
}.

(** ** The table over time *)

(** What a statement did to the rows: nothing, dropped some, appended some. *)
Inductive row_change (X : Type) (e : event_call X) (x : X) (s s' : EventWorld) : Prop :=
| rows_same : rows s' = rows s -> row_change X e x s s'
| rows_dropped w : rows s' = List.filter (fun r => negb (selected w r)) (rows s) ->
    (match e with DeleteEvents w' => w' = w | _ => False end) -> row_change X e x s s'
| rows_created n d r : (exists y, Ev X e x = Ev _ (CreateEvent n d) y /\ (y = Ok r \/ is_ok y = false)) ->
    row_of d r -> id r = n -> append_rows [r] s s' -> row_change X e x s s'
| rows_imported new : (exists ds y, Ev X e x = Ev _ (CreateEvents ds) y) ->
    append_rows new s s' -> row_change X e x s s'.

Lemma event_change (X : Type) (e : event_call X) (s : EventWorld) (x : X) (s' : EventWorld) :
  answers X e s x s' -> row_change X e x s s'.
Proof.
  destruct e as [ | | |n d|ds|?|? ?|? [?|]|? ? ?|?| | | | |w|? ? ? ? ?|? ?|?]; cbn [answers]; intros H;
    first [by subst; apply rows_same|by destruct H as [-> _]; apply rows_same|by destruct H as [_ ->]; apply rows_same
          |apply writes_inv in H as [[-> _]|(a & H & Hr)]; [by apply rows_same|]].
  - destruct H as (H1 & H2 & H3). eapply rows_created; [|done..]. eexists. split; [done|done].
  - destruct H as (new & _ & _ & H). eapply rows_imported; [|done]. by eexists _, _.
  - destruct H as [_ ->]. by eapply rows_dropped.
Qed.

Lemma answers_ok (X : Type) (e : event_call X) (s : EventWorld) (x : X) (s' : EventWorld) :
  answers X e s x s' -> world_ok s -> world_ok s'.
Proof.
  intros [Hr|w Hr _|n d r _ _ _ (H1 & H2 & ->)|new _ (H1 & H2 & ->)]%event_change [Hs Hd]; [..|by split|by split].
  - split; by rewrite Hr.
  - pose proof (filter_sublist (fun r => negb (selected w r)) (rows s)) as Hsub.
    split; rewrite Hr; (eapply sublist_NoDup; [|by apply map_sublist]); done.
Qed.

Notation history := (interleaving answers).

Lemma history_ok s tr s' : history s tr s' -> world_ok s -> world_ok s'.
Proof. apply interleaving_inv. intros X e a x b. apply answers_ok. Qed.

(** ** Numbers are taken upwards *)

Lemma answers_number (X : Type) (e : event_call X) (s : EventWorld) (x : X) (s' : EventWorld) :
  answers X e s x s' -> next_id s <= next_id s'
  /\ forall n, Ev X e x = Ev _ NextNumber n -> next_id s <= n < next_id s'.
Proof.
  destruct e as [ | | |n d|ds|?|? ?|? [?|]|? ? ?|?| | | | |w|? ? ? ? ?|? ?|?]; cbn [answers]; intros H;
    try (by split; [|intros m E; apply (f_equal (fun ev => match ev with Ev _ e _ => match e with NextNumber => true | _ => false end end)) in E]; first
      [by subst|by destruct H as [-> _]|(apply writes_inv in H as [[-> _]|(a & H & _)]; [done|];
         first [destruct H as (_ & _ & _ & _ & ->)|destruct H as (? & _ & _ & _ & _ & ->)|destruct H as [_ ->]]; done)]).
  destruct H as [H ->]. cbn. split; [lia|]. intros m E.
  apply (f_equal (fun ev => match ev with Ev X e x => match e in event_call X return X -> option Z with NextNumber => Some | _ => fun _ => None end x end)) in E.
  injection E as <-. lia.
Qed.

Lemma history_numbers s tr s' :
  history s tr s' -> next_id s <= next_id s' /\ forall j n, (j, Ev _ NextNumber n) ∈ tr -> next_id s <= n < next_id s'.
Proof.
  induction 1 as [s|s i X e x s1 tr s2 Ha _ [IH1 IH2]]; [split; [lia|by intros j n ?%not_elem_of_nil]|].
  destruct (answers_number _ _ _ _ _ Ha) as [H1 H2]. split; [lia|]. intros j n [E|Hin]%elem_of_cons.
  - apply (f_equal snd) in E. symmetry in E. specialize (H2 _ E). lia.
  - specialize (IH2 _ _ Hin). lia.
Qed.

(** ** What is stored and what is found *)

Definition created (ev : event event_call) : option (Z * EventData) :=
  match ev with Ev _ e _ => match e with CreateEvent n d => Some (n, d) | _ => None end end.

Definition imports (ev : event event_call) : bool :=
  match ev with Ev _ e _ => match e with CreateEvents _ => true | _ => false end end.

(** A row of the table was there from the start, or was created at some point. *)
Lemma row_origin s tr s' a :
  history s tr s' -> Forall (fun p => imports (snd p) = false) tr -> a ∈ rows s' ->
  a ∈ rows s \/ exists before j d y after_,
    tr = before ++ (j, Ev _ (CreateEvent (id a) d) y) :: after_ /\ row_of d a.
Proof.
  induction 1 as [s|s i X e x s1 tr s2 Ha Hh IH]; intros Himp Hin; [by left|].
  apply Forall_cons in Himp as [Hi Himp]. change (imports (Ev X e x) = false) in Hi.
  destruct (IH Himp Hin) as [H1|(before & j & d & y & after_ & -> & Hd)].
  - destruct (event_change _ _ _ _ _ Ha) as [Hr|w Hr _|n d r (y & He & _) Hd Hn Hr|new (ds & y & He) _].
    + left. by rewrite <- Hr.
    + left. rewrite Hr in H1. by apply list_elem_of_In, filter_In in H1 as [H1%list_elem_of_In _].
    + destruct Hr as (_ & _ & ->). apply elem_of_app in H1 as [H1|H1%list_elem_of_singleton]; [by left|subst r]. right.
      exists [], i, d, y, tr. split; [by rewrite He, Hn|done].
    + by rewrite He in Hi.
  - right. by exists ((i, Ev X e x) :: before), j, d, y, after_.
Qed.

(** The statements that delete a row. *)
Definition deletes (r : Event) (ev : event event_call) : bool :=
  match ev with Ev _ e _ => match e with DeleteEvents w => selected w r | _ => false end end.

Lemma row_survives s tr s' r :
  history s tr s' -> Forall (fun p => deletes r (snd p) = false) tr -> r ∈ rows s -> r ∈ rows s'.
Proof.
  induction 1 as [s|s i X e x s1 tr s2 Ha _ IH]; intros Hdel Hin; [done|].
  apply Forall_cons in Hdel as [Hi Hdel]. apply IH; [done|]. change (deletes r (Ev X e x) = false) in Hi.
  destruct (event_change _ _ _ _ _ Ha) as [Hr|w Hr He|n d r' _ _ _ (_ & _ & ->)|new _ (_ & _ & ->)].
  - by rewrite Hr.
  - rewrite Hr. apply list_elem_of_In, filter_In. split; [by apply list_elem_of_In|].
    destruct e; try done. subst. unfold deletes in Hi. by rewrite Hi.
  - apply elem_of_app. by left.
  - apply elem_of_app. by left.
Qed.

(** An acknowledged row is found until it is deleted. *)
Lemma row_found s tr s' before j n d r after_ :
  history s tr s' -> tr = before ++ (j, Ev _ (CreateEvent n d) (Ok r)) :: after_ ->
  Forall (fun p => deletes r (snd p) = false) after_ -> row_of d r /\ id r = n /\ r ∈ rows s'.
Proof.
  intros Hh -> Hdel. apply interleaving_app_inv in Hh as (s1 & _ & (s2 & (Hd & Hn & Hr) & H2)%interleaving_cons_inv).
  split; [done|]. split; [done|]. eapply row_survives; [exact H2|done|]. destruct Hr as (_ & _ & ->).
  apply elem_of_app. right. by apply list_elem_of_singleton.
Qed.

(** ** Runs of the event store *)

Definition sends (tr : list (event event_call)) : list (string * json) :=
  omap (fun ev => match ev with Ev _ e _ => match e with SendEvent i m => Some (i, m) | _ => None end end) tr.

Lemma replay_each_sends (l : list Event) tr :
  runs (replay_each l) tr (Some tt) ->
  sends tr = omap (fun r => option_map (pair (eventId r)) (JSON_parse (messageData r))) l
  /\ forall ev, ev ∈ tr -> created ev = None /\ forall sid st k x, ev <> Ev _ (FindEventsAfter sid st k) x.
Proof.
  revert tr. induction l as [|r l IH]; intros tr; cbn [replay_each omap list_omap].
  - intros [-> _]. split; [done|]. by intros ev ?%not_elem_of_nil.
  - destruct (JSON_parse (messageData r)) as [m|]; cbn [option_map]; [|apply IH].
    intros (x & tr' & -> & H). destruct (IH _ H) as [IH1 IH2]. cbn. rewrite <- IH1. split; [done|].
    intros ev [->|Hin]%elem_of_cons; [done|by apply IH2].
Qed.

(** What a replay asked and sent. *)
Lemma replay_run (sid lastId : string) tr (stream : string) :
  runs (replayEventsAfter sid lastId) tr (Some (Ok stream)) ->
  exists a l rest, tr = Ev _ (FindEventForSession lastId sid) (Ok (Some a))
      :: Ev _ (FindEventsAfter sid stream (id a)) (Ok l) :: rest
    /\ streamId a = stream /\ sends tr = omap (fun r => option_map (pair (eventId r)) (JSON_parse (messageData r))) l
    /\ forall ev, ev ∈ rest -> forall sid' st' k x, ev <> Ev _ (FindEventsAfter sid' st' k) x.
Proof.
  unfold replayEventsAfter. intros [(? & _ & [=])|(tr1 & o & tr2 & -> & H1 & H)]%runs_await_inv.
  destruct H1 as (x & tr' & -> & -> & [= <-]). destruct o as [a|]; [|by destruct H as [_ [=]]].
  apply runs_await_inv in H as [(? & _ & [=])|(tr3 & l & tr4 & -> & H3 & H)].
  destruct H3 as (x & tr' & -> & -> & [= <-]).
  apply runs_bind_inv in H as (tr5 & [] & tr6 & -> & H5 & -> & [= ->]).
  destruct (replay_each_sends _ _ H5) as [H6 H7]. exists a, l, tr5. rewrite app_nil_r.
  split_and! ; [done|done|exact H6|]. intros ev Hin sid' st' k x. by apply (H7 ev Hin).
Qed.

Lemma only_split {A} (p : A -> bool) (l1 l2 k1 k2 : list A) (x y : A) :
  l1 ++ x :: l2 = k1 ++ y :: k2 -> p x = true -> Forall (fun z => p z = false) k1 -> Forall (fun z => p z = false) k2 -> l1 = k1.
Proof.
  intros E Hx H1 H2. revert l1 E. induction H1 as [|z k1 Hz _ IH]; intros [|w l1] E; cbn in E; try done.
  - injection E as _ E. rewrite Forall_forall in H2. specialize (H2 x). rewrite <- E in H2.
    rewrite H2 in Hx; [done|]. apply elem_of_app. right. by left.
  - injection E as -> E. congruence.
  - injection E as -> E. by rewrite (IH _ E).
Qed.

(** Every event a store creates is the message of its request, under a number
    it took before. *)
Lemma store_creates (sid st : string) (m : json) pre n d y post :
  started (storeEvent sid st m) (pre ++ Ev _ (CreateEvent n d) y :: post) ->
  (d_sessionId d = sid /\ d_streamId d = st /\ d_messageData d = JSON_stringify m) /\ Ev _ NextNumber n ∈ pre.
Proof.
  intros (rest & a & H).
  destruct H as (t1 & q1 & Heq & s1 & q2 & -> & t2 & q3 & -> & H).
  apply runs_bind_inv in H as (tr1 & r & tr2 & -> & Hc & H).
  destruct Hc as (t3 & q4 & -> & k & q5 & -> & x & q6 & -> & -> & _).
  assert (Hlater : forall X (e : event_call X) (z : X), Ev X e z ∈ tr2 -> created (Ev X e z) = None).
  { intros X e z Hz. destruct r as [r|e']; [|destruct H as [-> _]; by apply not_elem_of_nil in Hz].
    destruct H as (t4 & q7 & -> & u & q8 & -> & -> & _). rewrite !elem_of_cons in Hz.
    destruct Hz as [E|[E|Hz%not_elem_of_nil]]; [by rewrite E..|done]. }
  cbn [app] in Heq. set (d0 := Build_EventData _ _ _ _ _ _ _) in Heq.
  assert (Hd : Ev _ (CreateEvent n d) y = Ev _ (CreateEvent k d0) x).
  { assert (Hin' : Ev _ (CreateEvent n d) y ∈ (pre ++ Ev _ (CreateEvent n d) y :: post) ++ rest) by set_solver. rewrite Heq in Hin'.
    rewrite !elem_of_cons in Hin'. destruct Hin' as [Hd|[Hd|[Hd|[Hd|[Hd|[Hd|Hin']]]]]];
      [by apply (f_equal created) in Hd..|done|]. by apply Hlater in Hin'. }
  pose proof (f_equal created Hd) as Hc. injection Hc as -> ->. split; [done|].
  rewrite <- app_assoc in Heq. cbn [app] in Heq. clear Hd.
  rewrite (only_split (fun ev => match created ev with Some _ => true | None => false end) pre _
    [Ev Z Now t1; Ev string RandomBase36 s1; Ev Z Now t2; Ev Z Now t3; Ev Z NextNumber k] tr2 _ _ Heq).
  - do 4 apply list_elem_of_further. apply list_elem_of_here.
  - done.
  - by repeat constructor.
  - apply Forall_forall. intros [X e z] Hz. by rewrite (Hlater _ _ _ Hz).
Qed.

(** ** Resuming a stream *)

Record StoreRequest : Type := { sr_session : string; sr_stream : string; sr_message : json }.

(** Event stores among the programs of a history; nobody else inserts rows. *)
Record store_threads (reqs : gmap nat StoreRequest) (tr : list (nat * event event_call)) : Prop := {
  stores_run : forall j q, reqs !! j = Some q ->
    started (storeEvent (sr_session q) (sr_stream q) (sr_message q)) (of_thread j tr);
  stores_only : forall j ev, (j, ev) ∈ tr -> is_Some (created ev) -> is_Some (reqs !! j);
  no_imports : Forall (fun p => imports (snd p) = false) tr;
  stores_json : forall j q, reqs !! j = Some q -> is_json (sr_message q) = true
}.

Section Stores.
Variables (reqs : gmap nat StoreRequest) (tr : list (nat * event event_call)).
Hypothesis Hst : store_threads reqs tr.

Lemma created_message j n d y :
  (j, Ev _ (CreateEvent n d) y) ∈ tr -> exists q, reqs !! j = Some q /\ d_sessionId d = sr_session q
    /\ d_streamId d = sr_stream q /\ exists t, d_messageData d = Some t /\ JSON_parse t = Some (sr_message q).
Proof using Hst.
  intros Hin. destruct (stores_only _ _ Hst _ _ Hin) as [q Hq]; [by eexists|]. exists q. split; [done|].
  destruct (list_elem_of_split _ _ (elem_of_thread _ _ _ Hin)) as (pre & post & Hsplit).
  pose proof (stores_run _ _ Hst _ _ Hq) as Hrun. rewrite Hsplit in Hrun. apply store_creates in Hrun as [(-> & -> & ->) _].
  split_and! ; [done..|]. by apply JSON_roundtrip, (stores_json _ _ Hst j).
Qed.

(** The number of a row was taken before, by the same store. *)
Lemma number_taken j n d y pre post :
  of_thread j tr = pre ++ Ev _ (CreateEvent n d) y :: post -> Ev _ NextNumber n ∈ pre.
Proof using Hst.
  intros E. assert (Hin : (j, Ev _ (CreateEvent n d) y) ∈ tr) by (apply of_thread_elem; rewrite E; set_solver).
  destruct (stores_only _ _ Hst _ _ Hin) as [q Hq]; [by eexists|].
  pose proof (stores_run _ _ Hst _ _ Hq) as Hrun. rewrite E in Hrun. by apply store_creates in Hrun as [_ ?].
Qed.

(** A store that has not begun when a row is committed gets a greater number. *)
Lemma later_number s s' before j n d y after_ j' n' d' y' :
  history s tr s' -> tr = before ++ (j, Ev _ (CreateEvent n d) y) :: after_ ->
  (j', Ev _ (CreateEvent n' d') y') ∈ tr -> of_thread j' before = [] -> n < n'.
Proof using Hst.
  intros Hh Htr Hin' Hnone. destruct (list_elem_of_split _ _ (elem_of_thread _ _ _ Hin')) as (pre' & post' & E').
  pose proof (number_taken _ _ _ _ _ _ E') as Hn'.
  assert (E : of_thread j tr = of_thread j before ++ Ev _ (CreateEvent n d) y :: of_thread j after_)
    by (by rewrite Htr, of_thread_app, of_thread_here).
  pose proof (number_taken _ _ _ _ _ _ E) as Hn. apply of_thread_elem in Hn.
  rewrite Htr in Hh. apply interleaving_app_inv in Hh as (s1 & H1 & H2).
  destruct (history_numbers _ _ _ H1) as [_ N1]. destruct (history_numbers _ _ _ H2) as [_ N2].
  assert (Hnew : (j', Ev _ NextNumber n') ∈ (j, Ev _ (CreateEvent n d) y) :: after_).
  { apply of_thread_elem. rewrite Htr, of_thread_app, Hnone in E'. cbn [app] in E'. rewrite E'. apply elem_of_app. by left. }
  specialize (N1 _ _ Hn). specialize (N2 _ _ Hnew). lia.
Qed.
End Stores.

(** A row as a client following the stream would see it. *)
Definition row_item (r : Event) : option (string * json) := option_map (pair (eventId r)) (JSON_parse (messageData r)).

Definition numbered_item (r : Event) : option (Z * (string * json)) := option_map (pair (id r)) (row_item r).

Lemma numbered_items (l : list Event) : map snd (omap numbered_item l) = omap row_item l.
Proof.
  induction l as [|r l IH]; [done|]. cbn [omap list_omap]. unfold numbered_item at 1.
  destruct (row_item r) as [x|]; cbn [option_map map snd]; [f_equal|]; exact IH.
Qed.

Lemma sorted_omap {A B} (f : A -> option B) (R : A -> A -> Prop) (R' : B -> B -> Prop) (l : list A) :
  (forall a b x y, R a b -> f a = Some x -> f b = Some y -> R' x y) -> StronglySorted R l -> StronglySorted R' (omap f l).
Proof.
  intros Hf. induction 1 as [|a l _ IH Ha]; [constructor|]. cbn. destruct (f a) as [x|] eqn:E; [|done]. constructor; [done|].
  apply Forall_forall. intros y (b & Hb & Ey)%list_elem_of_omap. rewrite Forall_forall in Ha. eapply Hf; [by apply Ha|done..].
Qed.

Lemma sent_ids (l : list Event) : map fst (omap row_item l) `sublist_of` map eventId l.
Proof. induction l as [|r l IH]; [done|]. cbn. unfold row_item at 1. destruct (JSON_parse _); cbn; by constructor. Qed.

(** What is replayed was stored. *)
Lemma replayed_are_stored (reqs : gmap nat StoreRequest) s tr s' past rest sid stream k l :
  store_threads reqs tr -> tr = past ++ rest -> history s past s' -> rows s = [] ->
  l ≡ₚ List.filter (later_row sid stream k) (rows s') ->
  forall n e m, (n, (e, m)) ∈ omap numbered_item l -> k < n /\ exists j d y q, (j, Ev _ (CreateEvent n d) y) ∈ past
    /\ d_eventId d = e /\ reqs !! j = Some q /\ sr_session q = sid /\ sr_stream q = stream /\ sr_message q = m.
Proof.
  intros Hst -> Hh Hempty Hperm n e m (r & Hr & Hi)%list_elem_of_omap.
  rewrite Hperm in Hr. apply list_elem_of_In, filter_In in Hr as [Hr Hl]. unfold later_row, of_session in Hl.
  apply andb_true_iff in Hl as [[Hs%str_eqb_eq Ht%str_eqb_eq]%andb_true_iff Hk%Z.ltb_lt].
  pose proof (no_imports _ _ Hst) as Himp. apply Forall_app in Himp as [Himp _].
  destruct (row_origin _ _ _ r Hh Himp) as [Hno|(before & j & d & y & aft & E & Hd)];
    [by apply list_elem_of_In|by rewrite Hempty in Hno; apply not_elem_of_nil in Hno|].
  assert (Hin : (j, Ev _ (CreateEvent (id r) d) y) ∈ past) by (rewrite E; set_solver).
  destruct (created_message reqs _ Hst j (id r) d y) as (q & Hq & H1 & H2 & t & H3 & H4); [set_solver|].
  destruct Hd as (E1 & E2 & E3 & _ & E5 & _). unfold numbered_item, row_item in Hi.
  assert (messageData r = t) as Em by congruence. rewrite Em, H4 in Hi. injection Hi as <- <- <-.
  split; [done|]. exists j, d, y, q. by split_and! ; try congruence.
Qed.

(** A row that is found is sent. *)
Lemma stored_is_replayed (reqs : gmap nat StoreRequest) tr j n d y q r (l : list Event) :
  store_threads reqs tr -> (j, Ev _ (CreateEvent n d) y) ∈ tr -> reqs !! j = Some q -> row_of d r -> r ∈ l ->
  (id r, (eventId r, sr_message q)) ∈ omap numbered_item l.
Proof.
  intros Hst Hin Hq Hrow Hr. destruct (created_message reqs _ Hst _ _ _ _ Hin) as (q' & Hq' & _ & _ & t & H3 & H4).
  apply list_elem_of_omap. exists r. split; [done|]. unfold numbered_item, row_item.
  destruct Hrow as (_ & _ & _ & _ & E5 & _). assert (messageData r = t) as -> by congruence.
  rewrite H4. by assert (q' = q) as -> by congruence.
Qed.

(** C23: A client resumes where it was.  When a replay after the event [lastId]
    of session [sid] succeeds, that event was created earlier, for that
    session, under a number [k]; and what the client is sent is, each event
    once and in the order of their numbers, messages of that stream and
    session that were stored under greater numbers.  Among them is every
    message whose row was acknowledged before the replay looked and not
    deleted by then, whatever other programs store, clean up or replay
    meanwhile, with one exception: the row's number is not above [k] although
    the row may have been committed after the client's event, which needs its
    store to have begun before the client's event was committed
    ([late_event_not_replayed]). *)
Theorem replay_resumes (reqs : gmap nat StoreRequest) s tr s' (i : nat) (sid lastId stream : string) :
  history s tr s' -> rows s = [] -> store_threads reqs tr ->
  runs (replayEventsAfter sid lastId) (of_thread i tr) (Some (Ok stream)) ->
  exists before j d x between k l after_ items,
    tr = before ++ (j, Ev _ (CreateEvent k d) x) :: between ++ (i, Ev _ (FindEventsAfter sid stream k) (Ok l)) :: after_
    /\ d_eventId d = lastId /\ d_sessionId d = sid /\ d_streamId d = stream
    /\ sends (of_thread i tr) = map snd items /\ StronglySorted (fun a b => fst a < fst b) items
    /\ NoDup (map fst (sends (of_thread i tr)))
    /\ let past := before ++ (j, Ev _ (CreateEvent k d) x) :: between in
       (forall n e m, (n, (e, m)) ∈ items -> k < n /\ exists j' d' y q, (j', Ev _ (CreateEvent n d') y) ∈ past
          /\ d_eventId d' = e /\ reqs !! j' = Some q /\ sr_session q = sid /\ sr_stream q = stream /\ sr_message q = m)
       /\ forall p1 j' n d' r p2 q, past = p1 ++ (j', Ev _ (CreateEvent n d') (Ok r)) :: p2 -> reqs !! j' = Some q ->
            sr_session q = sid -> sr_stream q = stream -> Forall (fun p => deletes r (snd p) = false) p2 ->
            (n, (eventId r, sr_message q)) ∈ items \/ n <= k /\ of_thread j' before <> [].
Proof.
  intros Hh Hempty Hst (a & l & rest & Htr & Hstream & Hsends & Hrest)%replay_run.
  assert (Hsends' : sends (of_thread i tr) = omap row_item l) by exact Hsends. clear Hsends. rename Hsends' into Hsends.
  assert (Hok : world_ok s) by (split; rewrite Hempty; constructor).
  destruct (of_thread_cons_inv _ _ _ _ Htr) as (A & B & E0 & _ & HB).
  destruct (of_thread_cons_inv _ _ _ _ HB) as (A' & after_ & -> & _ & _).
  set (ff := (i, Ev _ (FindEventForSession lastId sid) (Ok (Some a)))) in *.
  pose proof Hh as Hwhole. rewrite E0 in Hh.
  apply interleaving_app_inv in Hh as (sA & HA & Hh). rewrite app_comm_cons in Hh.
  apply interleaving_app_inv in Hh as (s2 & Hmid & (sC & [-> [Hperm Hsorted]] & _)%interleaving_cons_inv).
  assert (Hff := Hmid). apply interleaving_cons_inv in Hff as (sB & [_ Ha] & _).
  symmetry in Ha. apply find_some in Ha as [Hin [He%str_eqb_eq Hs%str_eqb_eq]%andb_true_iff].
  pose proof (no_imports _ _ Hst) as Himp. rewrite E0, app_comm_cons, app_assoc in Himp. apply Forall_app in Himp as [Himp _].
  pose proof Himp as HimpA. apply Forall_app in HimpA as [HimpA _].
  destruct (row_origin _ _ _ a HA HimpA) as [Hno|(before & j & d & y & aft & EA & Hd)];
    [by apply list_elem_of_In|by rewrite Hempty in Hno; apply not_elem_of_nil in Hno|].
  pose proof (interleaving_app _ _ _ _ _ _ HA Hmid) as Hpast.
  exists before, j, d, y, (aft ++ ff :: A'), (id a), l, after_, (omap numbered_item l).
  destruct Hd as (Hd1 & Hd2 & Hd3 & _). rewrite Hsends, numbered_items.
  assert (EP : A ++ ff :: A' = before ++ (j, Ev _ (CreateEvent (id a) d) y) :: aft ++ ff :: A') by (by rewrite EA, <- app_assoc).
  split_and! ; try congruence.
  - rewrite E0, EA. by rewrite <- !app_assoc.
  - eapply sorted_omap; [|exact Hsorted]. intros b c x z Hbc. unfold numbered_item. cbn beta in Hbc.
    destruct (row_item b), (row_item c); try done. by intros [= <-] [= <-].
  - eapply sublist_NoDup; [|apply sent_ids]. rewrite Hperm.
    eapply sublist_NoDup; [|apply map_sublist, filter_sublist]. apply events_distinct. by eapply history_ok.
  - cbn zeta. rewrite <- EP. split.
    { eapply (replayed_are_stored reqs s tr s2 (A ++ ff :: A')); [exact Hst| |exact Hpast|done|exact Hperm].
      rewrite E0. by rewrite <- app_assoc. }
    intros p1 j' n d' r p2 q Hp Hq Hqs Hqt Hdel.
    destruct (row_found _ _ _ _ _ _ _ _ _ Hpast Hp Hdel) as (Hrow & <- & Hrin).
    assert (Hin' : (j', Ev _ (CreateEvent (id r) d') (Ok r)) ∈ tr) by (rewrite E0, app_comm_cons, app_assoc, Hp; set_solver).
    destruct (Z.ltb_spec (id a) (id r)) as [Hlt|Hge].
    + left. eapply stored_is_replayed; [exact Hst|exact Hin'|exact Hq|exact Hrow|].
      rewrite Hperm. apply list_elem_of_In, filter_In. split; [by apply list_elem_of_In|].
      destruct (created_message reqs _ Hst _ _ _ _ Hin') as (q' & Hq' & H1 & H2 & _).
      destruct Hrow as (_ & E2 & E3 & _). unfold later_row, of_session. assert (q' = q) as -> by congruence.
      rewrite E2, E3, H1, H2, Hqs, Hqt, !str_eqb_refl. cbn. by apply Z.ltb_lt.
    + right. split; [done|]. intros Hnone.
      assert (Hlt : id a < id r); [|lia].
      eapply (later_number reqs tr Hst s s' before); [exact Hwhole| |exact Hin'|exact Hnone].
      rewrite E0, EA. rewrite <- !app_assoc. reflexivity.
Qed.

(** ** An executable table *)

Definition made_row (n : Z) (d : EventData) (type data : string) : Event := {|
  id := n; eventId := d_eventId d; streamId := d_streamId d; sessionId := d_sessionId d; messageType := type;
  messageData := data; createdAt := d_createdAt d; expiresAt := d_expiresAt d
|}.

(** Rows in the order of their numbers. *)
Fixpoint put_in_order (r : Event) (l : list Event) : list Event :=
  match l with [] => [r] | r' :: l' => if id r <? id r' then r :: l else r' :: put_in_order r l' end.
Definition numbered_order (l : list Event) : list Event := fold_right put_in_order [] l.

Lemma put_in_order_perm r l : put_in_order r l ≡ₚ r :: l.
Proof. induction l as [|r' l IH]; [done|]. cbn. destruct (_ <? _); [done|]. rewrite IH. apply perm_swap. Qed.

Lemma put_in_order_sorted r l :
  id r ∉ map id l -> StronglySorted (fun a b => id a < id b) l -> StronglySorted (fun a b => id a < id b) (put_in_order r l).
Proof.
  intros Hr. induction 1 as [|r' l Hl IH Hf]; cbn; [by repeat constructor|]. cbn in Hr. apply not_elem_of_cons in Hr as [Hne Hr].
  destruct (Z.ltb_spec (id r) (id r')) as [Hlt|Hge].
  - constructor; [by constructor|]. constructor; [done|]. eapply Forall_impl; [exact Hf|]. cbn. intros; lia.
  - constructor; [by apply IH|]. rewrite put_in_order_perm. constructor; [lia|done].
Qed.

Lemma numbered_order_spec (p : Event -> bool) (l : list Event) :
  NoDup (map id l) -> by_number p l (numbered_order (List.filter p l)).
Proof.
  intros Hnd. assert (H : NoDup (map id (List.filter p l))) by (eapply sublist_NoDup; [exact Hnd|apply map_sublist, filter_sublist]).
  clear Hnd. unfold by_number. remember (List.filter p l) as k eqn:E. clear E. split.
  - clear H. induction k as [|r k IH]; [done|]. cbn. by rewrite put_in_order_perm, IH.
  - induction k as [|r k IH]; [constructor|]. cbn in *. apply NoDup_cons in H as [H1 H2]. apply put_in_order_sorted; [|by apply IH].
    assert (E : numbered_order k ≡ₚ k) by (clear; induction k as [|r k IH]; [done|]; cbn; by rewrite put_in_order_perm, IH).
    by rewrite E.
Qed.

Definition refused {A} : result exn A := Throw (Error "refused").

(** The clock ticks when it is read; statements the examples do not need are
    refused. *)
Definition exec (X : Type) (e : event_call X) (w : EventWorld * Z) : X * (EventWorld * Z) :=
  let s := fst w in let now := snd w in
  match e in event_call X return X * (EventWorld * Z) with
  | Now => (now, (s, now + 1))
  | RandomBase36 => ("r" +:+ z_to_string now, w)
  | NextNumber => (next_id s, (set_rows (rows s) (next_id s + 1) s, now))
  | CreateEvent n d =>
      match d_messageType d, d_messageData d with
      | JStr type, Some data =>
          let r := made_row n d type data in
          if bool_decide (NoDup (map id (rows s ++ [r])) /\ NoDup (map eventId (rows s ++ [r])))
          then (Ok r, (set_rows (rows s ++ [r]) (next_id s) s, now)) else (refused, w)
      | _, _ => (refused, w)
      end
  | FindEventForSession e sid => (Ok (List.find (fun r => str_eqb (eventId r) e && of_session sid r) (rows s)), w)
  | FindEventsAfter sid st k => (Ok (numbered_order (List.filter (later_row sid st k) (rows s))), w)
  | DeleteEvents q =>
      (Ok (length (List.filter (selected q) (rows s))),
       (set_rows (List.filter (fun r => negb (selected q r)) (rows s)) (next_id s) s, now))
  | CacheMessage sid st e m t =>
      (tt, (set_caches (fun cs => <[sid := Persistent.storeEventInCache t st e m (default [] (cs !! sid))]> cs) s, now))
  | SendEvent _ _ => (Ok tt, w)
  | EnqueueLog _ => (tt, w)
  | CreateEvents _ | FindEvent _ | FindByStream _ _ | FindBySession _ | CountEvents | GroupByStream | OldestEvent
  | NewestEvent => (refused, w)
  end.

Lemma table_answers (X : Type) (e : event_call X) (w : EventWorld * Z) :
  world_ok (fst w) -> answers X e (fst w) (fst (exec X e w)) (fst (snd (exec X e w))).
Proof.
  destruct w as [s now]. intros Hok. destruct e as [ | | |n d|ds|?|? ?|? [?|]|? ? ?|?| | | | |q|? ? ? ? ?|? ?|?];
    cbn [exec answers fst snd]; try done; try (by left).
  - cbn in Hok. destruct (d_messageType d) as [| | | |type| |] eqn:Ht; try (by left).
    destruct (d_messageData d) as [data|] eqn:Hd; [|by left]. cbn zeta.
    destruct (bool_decide _) eqn:Hb; [|by left]. to_prop. destruct Hb as [Hb1 Hb2]. cbn.
    split; [by unfold row_of; cbn; rewrite Ht, Hd|]. split; [done|]. by split_and!.
  - split; [done|]. apply numbered_order_spec, ids_distinct, Hok.
Qed.

Lemma exec_history {A} (i : nat) (p : prog event_call A) (w : EventWorld * Z) :
  world_ok (fst w) -> history (fst w) (map (pair i) (fst (fst (run_with exec p w)))) (fst (snd (run_with exec p w))).
Proof.
  revert w. induction p as [a|X e k IH|]; intros w Hok; cbn; [constructor| |constructor].
  pose proof (table_answers X e w Hok) as Ha. pose proof (answers_ok _ _ _ _ _ Ha Hok) as Hok'.
  destruct (exec X e w) as [x w1]. specialize (IH x w1 Hok').
  destruct (run_with exec (k x) w1) as [[tr r] w2]. cbn in *. by econstructor.
Qed.

Definition ex_message (n : Z) : json := JObj [("method", JStr "notifications/progress"); ("n", JNum n)].
Definition ex_start : EventWorld * Z := ({| rows := []; next_id := 1; caches := ∅ |}, 100).
Definition ex_run_0 := run_with exec (storeEvent "u" "s" (ex_message 1)) ex_start.
Definition ex_run_1 := run_with exec (storeEvent "u" "s" (ex_message 2)) (snd ex_run_0).
Definition ex_run_2 := run_with exec (replayEventsAfter "u" "s_100_r101") (snd ex_run_1).
Definition ex_trace : list (nat * event event_call) :=
  map (pair 0%nat) (fst (fst ex_run_0)) ++ map (pair 1%nat) (fst (fst ex_run_1)) ++ map (pair 2%nat) (fst (fst ex_run_2)).
Definition ex_requests : gmap nat StoreRequest :=
  {[ 0%nat := Build_StoreRequest "u" "s" (ex_message 1); 1%nat := Build_StoreRequest "u" "s" (ex_message 2) ]}.

Lemma ex_start_ok : world_ok (fst ex_start).
Proof. split; constructor. Qed.

Lemma run_world_ok {A} (p : prog event_call A) (w : EventWorld * Z) : world_ok (fst w) -> world_ok (fst (snd (run_with exec p w))).
Proof. intros H. by eapply history_ok, H; apply (exec_history 0). Qed.

Lemma ex_trace_history : history (fst ex_start) ex_trace (fst (snd ex_run_2)).
Proof.
  eapply interleaving_app; [apply (exec_history 0 _ ex_start), ex_start_ok|].
  eapply interleaving_app; [apply (exec_history 1 _ (snd ex_run_0)), run_world_ok, ex_start_ok|].
  apply (exec_history 2 _ (snd ex_run_1)), run_world_ok, run_world_ok, ex_start_ok.
Qed.

Lemma ex_thread (j : nat) :
  of_thread j ex_trace = (if (j =? 0)%nat then fst (fst ex_run_0) else [])
    ++ (if (j =? 1)%nat then fst (fst ex_run_1) else []) ++ (if (j =? 2)%nat then fst (fst ex_run_2) else []).
Proof. unfold ex_trace. by rewrite !of_thread_app, !of_thread_pair. Qed.

Lemma ex_request j q : ex_requests !! j = Some q ->
  (j = 0%nat /\ q = Build_StoreRequest "u" "s" (ex_message 1)) \/ (j = 1%nat /\ q = Build_StoreRequest "u" "s" (ex_message 2)).
Proof.
  unfold ex_requests. rewrite lookup_insert_Some. intros [[<- <-]|[_ H%lookup_singleton_Some]]; [by left|right].
  by destruct H as [<- <-].
Qed.

Lemma ex_stores : store_threads ex_requests ex_trace.
Proof.
  split.
  - intros j q [[-> ->]|[-> ->]]%ex_request; rewrite ex_thread; cbn [Nat.eqb app]; rewrite ?app_nil_r.
    + eapply started_run; [apply (run_with_runs event_call exec _ ex_start)|by eexists].
    + eapply started_run; [apply (run_with_runs event_call exec _ (snd ex_run_0))|by eexists].
  - intros j ev Hin Hc.
    assert (forallb (fun p => match created (snd p), ex_requests !! fst p with Some _, None => false | _, _ => true end)
              ex_trace = true) as HF by (vm_compute; reflexivity).
    rewrite forallb_forall in HF. apply list_elem_of_In, HF in Hin. cbn in Hin.
    destruct Hc as [d Hd]. rewrite Hd in Hin. destruct (ex_requests !! j); [by eexists|done].
  - assert (forallb (fun p => negb (imports (snd p))) ex_trace = true) as HF by (vm_compute; reflexivity).
    rewrite forallb_forall in HF. apply Forall_forall. intros p Hin%list_elem_of_In. by apply negb_true_iff, HF.
  - by intros j q [[_ ->]|[_ ->]]%ex_request.
Qed.

Lemma replay_resumes_witness :
  sends (of_thread 2 ex_trace) = [(("s_104_r105")%string, ex_message 2)]
  /\ exists before j d x between k l after_ items,
    ex_trace = before ++ (j, Ev _ (CreateEvent k d) x) :: between ++ (2%nat, Ev _ (FindEventsAfter "u" "s" k) (Ok l)) :: after_
    /\ d_eventId d = "s_100_r101"%string /\ sends (of_thread 2 ex_trace) = map snd items
    /\ forall n e m, (n, (e, m)) ∈ items -> k < n.
Proof.
  split; [vm_compute; reflexivity|].
  destruct (replay_resumes ex_requests (fst ex_start) ex_trace (fst (snd ex_run_2)) 2 "u" "s_100_r101" "s") as
    (before & j & d & x & between & k & l & after_ & items & H1 & H2 & _ & _ & H3 & _ & _ & H4 & _);
    [apply ex_trace_history|reflexivity|apply ex_stores| |].
  - rewrite ex_thread. apply (run_with_result event_call exec (replayEventsAfter "u" "s_100_r101") (snd ex_run_1)). vm_compute. reflexivity.
  - exists before, j, d, x, between, k, l, after_, items. split; [exact H1|]. split; [exact H2|]. split; [exact H3|].
    intros n e m Hin. apply (H4 n e m Hin).
Defined.

(** ** A late event

    Two messages of a stream are stored at the same time: the first takes the
    number 1, the second takes the number 2 and is committed and delivered,
    then the first is committed and delivered.  A client that has seen the
    second and lost its connection does not get the first. *)
Fixpoint schedule {A} (order : list nat) (pool : list (prog event_call A)) (w : EventWorld * Z)
    : list (nat * event event_call) * (list (prog event_call A) * (EventWorld * Z)) :=
  match order with
  | [] => ([], (pool, w))
  | i :: order =>
      match pool !! i with
      | Some (Vis X e k) =>
          let '(x, w) := exec X e w in
          let '(tr, c) := schedule order (<[i := k x]> pool) w in ((i, Ev X e x) :: tr, c)
      | _ => schedule order pool w
      end
  end.

Lemma schedule_history {A} order (pool : list (prog event_call A)) w :
  world_ok (fst w) -> history (fst w) (fst (schedule order pool w)) (fst (snd (snd (schedule order pool w)))).
Proof.
  revert pool w. induction order as [|i order IH]; intros pool w Hok; cbn; [constructor|].
  destruct (pool !! i) as [[a|X e k|]|]; try by apply IH.
  pose proof (table_answers X e w Hok) as Ha. pose proof (answers_ok _ _ _ _ _ Ha Hok) as Hok'.
  destruct (exec X e w) as [x w1]. specialize (IH (<[i := k x]> pool) w1 Hok').
  destruct (schedule order _ w1) as [tr [q w2]]. cbn in *. by econstructor.
Qed.

Definition two_stores : list (nat * event event_call) * (list (prog event_call (result exn string)) * (EventWorld * Z)) :=
  schedule [0;0;0;0;0; 1;1;1;1;1;1;1;1; 0;0;0]%nat [storeEvent "u" "s" (ex_message 1); storeEvent "u" "s" (ex_message 2)] ex_start.

Definition late_replay := run_with exec (replayEventsAfter "u" "s_103_r104") (snd (snd two_stores)).
Definition late_trace : list (nat * event event_call) := fst two_stores ++ map (pair 2%nat) (fst (fst late_replay)).

Example late_event_not_replayed :
  history (fst ex_start) late_trace (fst (snd late_replay))
  /\ fst (snd two_stores) = [Ret (Ok "s_100_r101"); Ret (Ok "s_103_r104")]%string
  /\ map (fun r => (id r, eventId r)) (rows (fst (snd late_replay))) = [(2, "s_103_r104"); (1, "s_100_r101")]%string
  /\ snd (fst late_replay) = Some (Ok "s"%string) /\ sends (of_thread 2 late_trace) = [].
Proof.
  split; [|split_and! ; vm_compute; reflexivity].
  assert (H : world_ok (fst (snd (snd two_stores)))) by (eapply history_ok; [apply schedule_history|]; apply ex_start_ok).
  eapply interleaving_app; [apply schedule_history, ex_start_ok|]. by apply (exec_history 2).
Qed.
