(* ===== verification/OAuthService.v ===== *)
(** * OAuth: tokens, PKCE, scopes and redirect URIs

    [src/src/oauth/services/OAuthService.ts] with the constants of
    [src/src/oauth/types/oauth.types.ts].  Functions that read the clock take
    the time in milliseconds. *)
From Stdlib Require Import Ascii ZArith Lia.
From stdpp Require Import base strings list.
From S2P Require Import Prelude Json JsMap WebPlatform.
Open Scope Z_scope.

Definition ACCESS_TOKEN_LIFETIME : Z := 3600.
Definition REFRESH_TOKEN_LIFETIME : Z := 2592000.
Definition AUTHORIZATION_CODE_LIFETIME : Z := 600.
Definition MCP_OAUTH_SCOPES : list string := ["mcp:tools"; "mcp:resources"; "mcp:prompts"]%string.

(** [arr.includes(s)] *)
Definition list_includes (l : list string) (s : string) : bool := bool_decide (s ∈ l).

Definition strings_json (l : list string) : json := JArr (map JStr l).

Section Service.
Context `{P : Platform}.

Definition getJwtSecret : result exn string :=
  if str_eqb JWT_SECRET "" then Throw (Error "JWT_SECRET environment variable is required") else Ok JWT_SECRET.

Definition token_payload (clientId userId : string) (scopes : list string) (resource : option string) (now : Z)
    : list (string * json) :=
  [("type", JStr "access_token"); ("client_id", JStr clientId); ("user_id", JStr userId);
   ("scopes", strings_json scopes); ("iat", JNum (now / 1000));
   ("exp", JNum (now / 1000 + ACCESS_TOKEN_LIFETIME))]%string
  ++ match resource with
     | Some r => if truthy_str r then [("aud"%string, JStr r)] else []
     | None => []
     end.

Definition generateAccessToken (clientId userId : string) (scopes : list string) (resource : option string) (now : Z)
    : result exn string :=
  match getJwtSecret with
  | Ok secret => Ok (jwt_sign (token_payload clientId userId scopes resource now) secret)
  | Throw e => Throw e
  end.

Definition verifyPKCEChallenge (codeVerifier codeChallenge : string) : bool :=
  str_eqb (sha256_base64url codeVerifier) codeChallenge.

Definition verifyClientCredentials (clientSecret : json) (storedSecret : option string) : bool :=
  match storedSecret with
  | Some s => truthy_str s && json_eqb clientSecret (JStr s)
  | None => false
  end.

(** [parseScope]: an undefined scope is falsy, a scope that is not a string
    has no [split]. *)
Definition scopes_of (s : string) : list string := List.filter truthy_str (split_on " " s).
Definition parseScope (scopeString : json) : result exn (list string) :=
  if js_truthy scopeString
  then match scopeString with JStr s => Ok (scopes_of s) | _ => Throw TypeError end
  else Ok ["mcp:tools"%string].

Definition isLoopbackRedirectHost (h : string) : bool :=
  let normalized := to_lower h in
  str_eqb normalized "localhost" || str_eqb normalized "127.0.0.1" || str_eqb normalized "[::1]".

Definition loopbackRedirectPortAgnosticKeyFromUrl (u : Url) : option string :=
  if negb (str_eqb (protocol u) "http:") then None
  else if negb (isLoopbackRedirectHost (hostname u)) then None
  else Some (URL_href (set_port "" u)).

Definition loopbackRedirectPortAgnosticKey (redirectUri : json) : option string :=
  u ← URL_parse (js_String redirectUri); loopbackRedirectPortAgnosticKeyFromUrl u.

Definition portlessLoopbackRedirectKey (redirectUri : string) : option string :=
  u ← URL_parse redirectUri;
  if negb (str_eqb (port u) "") then None else loopbackRedirectPortAgnosticKeyFromUrl u.

(** [arr.includes(v)] of any value *)
Definition json_includes (l : list string) (v : json) : bool :=
  match v with JStr s => list_includes l s | _ => false end.

Definition validateRedirectUri (redirectUri : json) (allowedUris : list string) : bool :=
  if json_includes allowedUris redirectUri then true
  else match loopbackRedirectPortAgnosticKey redirectUri with
       | Some requested =>
           truthy_str requested
           && existsb (fun a => bool_decide (portlessLoopbackRedirectKey a = Some requested)) allowedUris
       | None => false
       end.

(** The query parameters are set with their values as text. *)
Definition set_if_truthy (k : string) (v : json) (u : Url) : Url :=
  if js_truthy v then URL_search_set k (js_String v) u else u.

Definition buildErrorRedirectUrl (redirectUri : json) (error : string) (errorDescription : string) (state : json)
    : result exn string :=
  match URL_of redirectUri with
  | Ok u => Ok (URL_href (set_if_truthy "state" state
                  (set_if_truthy "error_description" (JStr errorDescription) (URL_search_set "error" error u))))
  | Throw e => Throw e
  end.

Definition buildSuccessRedirectUrl (redirectUri : json) (code : string) (state : json) (issuer : string)
    : result exn string :=
  match URL_of redirectUri with
  | Ok u => Ok (URL_href (set_if_truthy "iss" (JStr issuer)
                  (set_if_truthy "state" state (URL_search_set "code" code u))))
  | Throw e => Throw e
  end.

(** The payload, or the error text. *)
Definition verifyAccessToken (token : string) (now : Z) : result string json :=
  match getJwtSecret with
  | Throw e => Throw (message e)
  | Ok secret =>
      match jwt_verify token secret now with
      | Ok payload => Ok payload
      | Throw c => if instanceof c JsonWebTokenError then Throw "Invalid token signature"%string
                   else if instanceof c TokenExpiredError then Throw "Token has expired"%string
                   else Throw "Token verification failed"%string
      end
  end.

Definition parseBasicAuth (authHeader : string) : option (string * string) :=
  if str_eqb authHeader "" || negb (starts_with "Basic " authHeader) then None
  else match split_on ":" (base64_decode (str_drop 6 authHeader)) with
       | clientId :: clientSecret :: _ =>
           if str_eqb clientId "" || str_eqb clientSecret "" then None else Some (clientId, clientSecret)
       | _ => None
       end.

Definition isScopeSubset (requestedScopes originalScopes : list string) : bool :=
  forallb (list_includes originalScopes) requestedScopes.

Definition generateAuthorizationServerMetadata (issuerUrl : string) : json :=
  let auth_methods := strings_json ["client_secret_basic"; "client_secret_post"; "none"]%string in
  JObj [("issuer", JStr issuerUrl);
        ("authorization_endpoint", JStr (issuerUrl +:+ "/authorize"));
        ("token_endpoint", JStr (issuerUrl +:+ "/token"));
        ("registration_endpoint", JStr (issuerUrl +:+ "/register"));
        ("revocation_endpoint", JStr (issuerUrl +:+ "/revoke"));
        ("introspection_endpoint", JStr (issuerUrl +:+ "/introspect"));
        ("scopes_supported", strings_json MCP_OAUTH_SCOPES);
        ("response_types_supported", strings_json ["code"]);
        ("grant_types_supported", strings_json ["authorization_code"; "refresh_token"]);
        ("token_endpoint_auth_methods_supported", auth_methods);
        ("revocation_endpoint_auth_methods_supported", auth_methods);
        ("token_endpoint_auth_signing_alg_values_supported", strings_json ["HS256"]);
        ("code_challenge_methods_supported", strings_json ["S256"]);
        ("authorization_response_iss_parameter_supported", JBool true);
        ("client_id_metadata_document_supported", JBool true);
        ("service_documentation", JStr (issuerUrl +:+ "/docs/oauth"))]%string.

Definition generateProtectedResourceMetadata (resourceUrl authorizationServerUrl : string) : json :=
  JObj [("resource", JStr resourceUrl);
        ("authorization_servers", strings_json [authorizationServerUrl]);
        ("bearer_methods_supported", strings_json ["header"]);
        ("resource_documentation", JStr (authorizationServerUrl +:+ "/docs/mcp-gateway"));
        ("resource_signing_alg_values_supported", strings_json ["HS256"]);
        ("scopes_supported", strings_json MCP_OAUTH_SCOPES)]%string.
End Service.

(** ** Lemmas *)

Lemma truthy_str_spec (s : string) : truthy_str s = true <-> s <> ""%string.
Proof. unfold truthy_str. by rewrite negb_true_iff, str_eqb_neq. Qed.

Lemma list_includes_spec (l : list string) (s : string) : list_includes l s = true <-> s ∈ l.
Proof. apply bool_decide_eq_true. Qed.

Lemma isScopeSubset_spec (r o : list string) : isScopeSubset r o = true <-> r ⊆ o.
Proof.
  unfold isScopeSubset. rewrite forallb_forall. split.
  - intros H x Hx. apply list_includes_spec, H. by apply list_elem_of_In.
  - intros H x Hx. apply list_includes_spec, H. by apply list_elem_of_In.
Qed.

Section ServiceLemmas.
Context `{P : Platform}.

(** Where the code is sent: to a registered URI, or to a plain-http loopback
    URL that differs from a registered one without a port in its port only. *)
Definition registered_loopback (redirectUri : json) (allowedUris : list string) : Prop :=
  exists u a ua, URL_parse (js_String redirectUri) = Some u /\ a ∈ allowedUris /\ URL_parse a = Some ua
    /\ protocol u = "http:"%string /\ isLoopbackRedirectHost (hostname u) = true
    /\ protocol ua = "http:"%string /\ isLoopbackRedirectHost (hostname ua) = true /\ port ua = ""%string
    /\ URL_href (set_port "" u) = URL_href (set_port "" ua).

Lemma loopback_key_spec (u : Url) (k : string) :
  loopbackRedirectPortAgnosticKeyFromUrl u = Some k <->
  protocol u = "http:"%string /\ isLoopbackRedirectHost (hostname u) = true /\ k = URL_href (set_port "" u).
Proof.
  unfold loopbackRedirectPortAgnosticKeyFromUrl. case_bool; to_prop.
  - split; [done|]. intros (Hp & _). by apply str_eqb_neq in Heqb.
  - split; [done|]. intros (_ & Hh & _). congruence.
  - apply str_eqb_eq in Heqb. split; [intros [= <-]; auto|]. by intros (_ & _ & ->).
Qed.

Lemma json_includes_spec (l : list string) (v : json) : json_includes l v = true <-> exists s, v = JStr s /\ s ∈ l.
Proof.
  destruct v; cbn; (split; [try done|intros (s' & [=] & Hs)]).
  - intros H%list_includes_spec. by eexists.
  - subst. by apply list_includes_spec.
Qed.

Lemma validateRedirectUri_iff (redirectUri : json) (allowedUris : list string) :
  (forall u, URL_href u <> ""%string) ->
  validateRedirectUri redirectUri allowedUris = true <->
  (exists s, redirectUri = JStr s /\ s ∈ allowedUris) \/ registered_loopback redirectUri allowedUris.
Proof.
  intros Hne. unfold validateRedirectUri, registered_loopback. rewrite <- json_includes_spec.
  destruct (json_includes allowedUris redirectUri) eqn:Hin; [split; [by left|done]|].
  unfold loopbackRedirectPortAgnosticKey. destruct (URL_parse (js_String redirectUri)) as [u|] eqn:Hu; cbn.
  2: { split; [done|]. intros [?|(u & a & ua & ? & _)]; done. }
  destruct (loopbackRedirectPortAgnosticKeyFromUrl u) as [k|] eqn:Hk.
  2: { split; [done|]. intros [?|(u' & a & ua & [= <-] & Ha & Hua & H1 & H2 & _)]; [done|].
       assert (loopbackRedirectPortAgnosticKeyFromUrl u = Some (URL_href (set_port "" u))) as Hk'
         by (by apply loopback_key_spec).
       congruence. }
  apply loopback_key_spec in Hk as (Hp & Hh & ->).
  assert (truthy_str (URL_href (set_port "" u)) = true) as ->.
  { unfold truthy_str. apply negb_true_iff, str_eqb_neq, Hne. }
  rewrite andb_true_l, existsb_exists. split.
  - intros (a & Ha & Hb). right. apply list_elem_of_In in Ha. to_prop.
    unfold portlessLoopbackRedirectKey in Hb. destruct (URL_parse a) as [ua|] eqn:Hua; [|done]. cbn in Hb.
    destruct (str_eqb (port ua) "") eqn:Hport; [|done]. apply str_eqb_eq in Hport. cbn in Hb.
    apply loopback_key_spec in Hb as (H1 & H2 & H3). by exists u, a, ua.
  - intros [?|(u' & a & ua & [= <-] & Ha & Hua & H1 & H2 & H3 & H4 & H5 & H6)]; [done|].
    exists a. split; [by apply list_elem_of_In|]. apply bool_decide_eq_true.
    unfold portlessLoopbackRedirectKey. rewrite Hua. cbn. rewrite H5. cbn.
    apply loopback_key_spec. by rewrite H6.
Qed.

(** The branch for expired tokens is never taken. *)
Lemma expired_branch_dead (token : string) (now : Z) : verifyAccessToken token now <> Throw "Token has expired"%string.
Proof.
  unfold verifyAccessToken, getJwtSecret. case_bool; [done|].
  destruct (jwt_verify token JWT_SECRET now) as [p|[]]; done.
Qed.
End ServiceLemmas.
