(* ===== verification/OAuthDesk.v ===== *)
(** * OAuth: authorization flows completed from the desktop application

    [src/src/oauth/services/DeskAuthorizationFlowService.ts]: the flows a
    consent page opens, the desktop application completes and the page polls.
    A flow object is only ever reached through the table, so the table holds
    it. *)
From Stdlib Require Import Ascii ZArith Lia.
From stdpp Require Import base gmap strings list.
From S2P Require Import Prelude Json Effects WebPlatform.
Open Scope Z_scope.

Inductive DeskAuthorizationFlowStatus : Type := Pending | Completed | Failed | Expired.

#[export] Instance flow_status_eq_dec : EqDecision DeskAuthorizationFlowStatus.
Proof. solve_decision. Defined.

Definition flow_status_text (s : DeskAuthorizationFlowStatus) : string :=
  match s with Pending => "pending" | Completed => "completed" | Failed => "failed" | Expired => "expired" end.

(** Query and body parameters arrive as they are. *)
Record DeskAuthorizationParams : Type := {
  p_client_id : json;
  p_redirect_uri : json;
  p_scope : json;
  p_state : json;
  p_code_challenge : json;
  p_code_challenge_method : json;
  p_resource : json
}.

Record DeskAuthorizationFlow : Type := {
  flowId : string;
  flow_issuer : string;
  flow_params : DeskAuthorizationParams;
  flow_status : DeskAuthorizationFlowStatus;
  flow_expiresAt : Z;
  flow_redirect : option string;
  flow_error : option string;
  flow_errorDescription : option string
}.

Notation Flows := (gmap string DeskAuthorizationFlow).

(** [private ttlMs = 5 * 60 * 1000] *)
Definition ttlMs : Z := 5 * 60 * 1000.

Definition mark (s : DeskAuthorizationFlowStatus) (redirect error description : option string)
    (f : DeskAuthorizationFlow) : DeskAuthorizationFlow :=
  {| flowId := flowId f; flow_issuer := flow_issuer f; flow_params := flow_params f; flow_status := s;
     flow_expiresAt := flow_expiresAt f; flow_redirect := redirect; flow_error := error;
     flow_errorDescription := description |}.

Definition mark_expired (f : DeskAuthorizationFlow) : DeskAuthorizationFlow :=
  mark Expired (flow_redirect f) (Some "expired"%string) (Some "Authorization flow has expired"%string) f.

Definition is_status (s : DeskAuthorizationFlowStatus) (f : DeskAuthorizationFlow) : bool :=
  bool_decide (flow_status f = s).

Definition overdue (now : Z) (f : DeskAuthorizationFlow) : bool :=
  is_status Pending f && (flow_expiresAt f <=? now).

Definition cleanup_one (now : Z) (f : DeskAuthorizationFlow) : option DeskAuthorizationFlow :=
  if overdue now f then Some (mark_expired f)
  else if (flow_expiresAt f + ttlMs <=? now) && negb (is_status Completed f) then None
  else Some f.

Definition cleanupExpired (now : Z) (fs : Flows) : Flows := omap (cleanup_one now) fs.

(** [fresh] is the random identifier. *)
Definition createFlow (params : DeskAuthorizationParams) (issuer fresh : string) (now : Z) (fs : Flows)
    : DeskAuthorizationFlow * Flows :=
  let fs := cleanupExpired now fs in
  let flow := {| flowId := fresh; flow_issuer := issuer; flow_params := params; flow_status := Pending;
                 flow_expiresAt := now + ttlMs; flow_redirect := None; flow_error := None;
                 flow_errorDescription := None |} in
  (flow, <[fresh := flow]> fs).

Definition getFlow (id : string) (now : Z) (fs : Flows) : option DeskAuthorizationFlow * Flows :=
  match fs !! id with
  | None => (None, fs)
  | Some f => if overdue now f then (Some (mark_expired f), <[id := mark_expired f]> fs) else (Some f, fs)
  end.

Definition paramsMatch (a b : DeskAuthorizationParams) : bool :=
  forallb (fun k : DeskAuthorizationParams -> json => js_strict_eq (nullish_undefined (k a)) (nullish_undefined (k b)))
    [p_client_id; p_redirect_uri; p_scope; p_state; p_code_challenge; p_code_challenge_method; p_resource].

Definition getReusableFlow (id : string) (params : DeskAuthorizationParams) (issuer : string) (now : Z) (fs : Flows)
    : option DeskAuthorizationFlow * Flows :=
  let '(flow, fs) := getFlow id now fs in
  (match flow with
   | Some f => if negb (is_status Pending f) && negb (is_status Completed f) then None
               else if negb (str_eqb (flow_issuer f) issuer) then None
               else if negb (paramsMatch (flow_params f) params) then None
               else Some f
   | None => None
   end, fs).

Definition completeFlow (id redirect : string) (now : Z) (fs : Flows) : option DeskAuthorizationFlow * Flows :=
  let '(flow, fs) := getFlow id now fs in
  match flow with
  | Some f => if is_status Pending f
              then let f' := mark Completed (Some redirect) (flow_error f) (flow_errorDescription f) f in
                   (Some f', <[id := f']> fs)
              else (Some f, fs)
  | None => (None, fs)
  end.

Definition failFlow (id error description : string) (now : Z) (fs : Flows) : option DeskAuthorizationFlow * Flows :=
  let '(flow, fs) := getFlow id now fs in
  match flow with
  | Some f => if is_status Pending f
              then let f' := mark Failed (flow_redirect f) (Some error) (Some description) f in
                   (Some f', <[id := f']> fs)
              else (Some f, fs)
  | None => (None, fs)
  end.

(** ** Histories *)

Inductive flow_op : Type :=
| OpCreate (params : DeskAuthorizationParams) (issuer fresh : string)
| OpGet (id : string)
| OpReuse (id : string) (params : DeskAuthorizationParams) (issuer : string)
| OpComplete (id redirect : string)
| OpFail (id error description : string).

Definition flow_exec (o : flow_op) (now : Z) (fs : Flows) : Flows :=
  match o with
  | OpCreate p i r => snd (createFlow p i r now fs)
  | OpGet id => snd (getFlow id now fs)
  | OpReuse id p i => snd (getReusableFlow id p i now fs)
  | OpComplete id r => snd (completeFlow id r now fs)
  | OpFail id e d => snd (failFlow id e d now fs)
  end.

(** Random identifiers do not repeat those in use. *)
Definition op_fresh (o : flow_op) (fs : Flows) : Prop :=
  match o with OpCreate _ _ r => fs !! r = None | _ => True end.

Inductive flow_history : Flows -> list (flow_op * Z) -> Flows -> Prop :=
| history_nil fs : flow_history fs [] fs
| history_cons fs o now ops fs' :
    op_fresh o fs -> flow_history (flow_exec o now fs) ops fs' -> flow_history fs ((o, now) :: ops) fs'.

(** ** The life of a flow

    [flow_step f now o f']: what may become of the object stored under an
    identifier. *)
Inductive flow_step (f : DeskAuthorizationFlow) (now : Z) : option DeskAuthorizationFlow -> Prop :=
| step_same : flow_step f now (Some f)
| step_expire : flow_status f = Pending -> flow_expiresAt f <= now -> flow_step f now (Some (mark_expired f))
| step_complete r :
    flow_status f = Pending -> now < flow_expiresAt f ->
    flow_step f now (Some (mark Completed (Some r) (flow_error f) (flow_errorDescription f) f))
| step_fail e d :
    flow_status f = Pending -> now < flow_expiresAt f ->
    flow_step f now (Some (mark Failed (flow_redirect f) (Some e) (Some d) f))
| step_delete :
    flow_status f = Failed \/ flow_status f = Expired -> flow_expiresAt f + ttlMs <= now -> flow_step f now None.

Lemma is_status_spec (s : DeskAuthorizationFlowStatus) (f : DeskAuthorizationFlow) :
  is_status s f = true <-> flow_status f = s.
Proof. apply bool_decide_eq_true. Qed.

Lemma overdue_spec (now : Z) (f : DeskAuthorizationFlow) :
  overdue now f = true <-> flow_status f = Pending /\ flow_expiresAt f <= now.
Proof. unfold overdue. rewrite andb_true_iff, is_status_spec, Z.leb_le. done. Qed.

Lemma cleanup_step (now : Z) (f : DeskAuthorizationFlow) : flow_step f now (cleanup_one now f).
Proof.
  unfold cleanup_one. destruct (overdue now f) eqn:Ho.
  - apply overdue_spec in Ho as [? ?]. by apply step_expire.
  - case_bool; [|constructor]. to_prop. apply step_delete; [|done].
    assert (flow_status f <> Completed) by (intros H'%is_status_spec; congruence).
    destruct (flow_status f) eqn:Hs; try done; auto.
    exfalso. assert (overdue now f = true); [|congruence].
    apply overdue_spec. unfold ttlMs in *. split; [done|lia].
Qed.

Lemma getFlow_spec (id : string) (now : Z) (fs : Flows) :
  match fs !! id with
  | None => getFlow id now fs = (None, fs)
  | Some f => exists f', flow_step f now (Some f') /\ overdue now f' = false
      /\ getFlow id now fs = (Some f', <[id := f']> fs)
  end.
Proof.
  unfold getFlow. destruct (fs !! id) as [f|] eqn:Hf; [|done].
  destruct (overdue now f) eqn:Ho.
  - exists (mark_expired f). apply overdue_spec in Ho as [? ?]. split_and! ; [by apply step_expire|done|done].
  - exists f. split_and! ; [constructor|done|]. by rewrite insert_id.
Qed.

(** What [completeFlow] and [failFlow] do after [getFlow]. *)
Lemma settle_flow_step (i id : string) (now : Z) (fs : Flows) (f : DeskAuthorizationFlow) (g : DeskAuthorizationFlow -> DeskAuthorizationFlow) :
  fs !! id = Some f ->
  (forall f', flow_status f' = Pending -> now < flow_expiresAt f' -> flow_step f' now (Some (g f'))) ->
  flow_step f now (snd (let '(flow, fs1) := getFlow i now fs in
                        match flow with
                        | Some f1 => if is_status Pending f1 then (Some (g f1), <[i := g f1]> fs1) else (Some f1, fs1)
                        | None => (None, fs1)
                        end) !! id).
Proof.
  intros Hf Hg. pose proof (getFlow_spec i now fs) as Hs. destruct (decide (i = id)) as [->|Hne].
  - rewrite Hf in Hs. destruct Hs as (f' & Hst & Hov & ->).
    cbv beta iota. destruct (is_status Pending f') eqn:Hp; cbn; [|by rewrite lookup_insert_eq].
    rewrite lookup_insert_eq. apply is_status_spec in Hp.
    inversion Hst; subst; [|done..]. apply Hg; [done|].
    destruct (Z.lt_ge_cases now (flow_expiresAt f')); [done|].
    assert (overdue now f' = true); [by apply overdue_spec|congruence].
  - destruct (fs !! i) as [g'|] eqn:Hi; [|rewrite Hs; cbn; rewrite ?Hf; constructor].
    destruct Hs as (f' & _ & _ & ->).
    cbv beta iota. destruct (is_status Pending f'); cbn; rewrite !lookup_insert_ne, Hf by done; constructor.
Qed.

(** Every operation moves every flow by one step of its life. *)
Lemma flow_exec_step (o : flow_op) (now : Z) (fs : Flows) (id : string) (f : DeskAuthorizationFlow) :
  op_fresh o fs -> fs !! id = Some f -> flow_step f now (flow_exec o now fs !! id).
Proof.
  intros Hfresh Hf.
  assert (Hget : forall i, flow_step f now (snd (getFlow i now fs) !! id)).
  { intros i. pose proof (getFlow_spec i now fs) as Hs. destruct (decide (i = id)) as [->|Hne].
    - rewrite Hf in Hs. destruct Hs as (f' & Hst & _ & ->). cbn. by rewrite lookup_insert_eq.
    - destruct (fs !! i) as [g|]; [|rewrite Hs; cbn; rewrite ?Hf; constructor].
      destruct Hs as (g' & _ & _ & ->). cbn. rewrite lookup_insert_ne, Hf by done. constructor. }
  destruct o as [p i r|i|i p iss|i r|i e d]; cbn in *.
  - rewrite lookup_insert_ne by congruence. unfold cleanupExpired. rewrite lookup_omap, Hf. cbn. apply cleanup_step.
  - apply Hget.
  - unfold getReusableFlow. specialize (Hget i). destruct (getFlow i now fs). exact Hget.
  - apply (settle_flow_step i id now fs f (fun f => mark Completed (Some r) (flow_error f) (flow_errorDescription f) f) Hf).
    intros. by apply step_complete.
  - apply (settle_flow_step i id now fs f (fun f => mark Failed (flow_redirect f) (Some e) (Some d) f) Hf).
    intros. by apply step_fail.
Qed.

(** A completed flow is there for ever, as it is. *)
Lemma completed_stays (fs : Flows) ops fs' (id : string) (f : DeskAuthorizationFlow) :
  flow_history fs ops fs' -> fs !! id = Some f -> flow_status f = Completed -> fs' !! id = Some f.
Proof.
  intros Hh Hf Hc. induction Hh as [|fs o now ops fs' Hfresh Hh IH]; [done|]. apply IH.
  pose proof (flow_exec_step o now fs id f Hfresh Hf) as Hst.
  destruct (flow_exec o now fs !! id) as [f'|]; inversion Hst; subst; try congruence.
  match goal with H : _ \/ _ |- _ => destruct H; congruence end.
Qed.

Lemma getFlow_completed (i id : string) (now : Z) (fs : Flows) (f : DeskAuthorizationFlow) :
  snd (getFlow i now fs) !! id = Some f -> flow_status f = Completed -> fs !! id = Some f.
Proof.
  intros Hf Hc. unfold getFlow in Hf. destruct (fs !! i) as [g|] eqn:Hi; [|done].
  destruct (overdue now g); [|done]. cbn in Hf. destruct (decide (i = id)) as [->|Hne].
  - rewrite lookup_insert_eq in Hf. by injection Hf as <-.
  - by rewrite lookup_insert_ne in Hf.
Qed.

(** The completion, before its expiry, of a pending flow. *)
Definition completed_by (o : flow_op) (now : Z) (fs : Flows) (id : string) (f : DeskAuthorizationFlow) : Prop :=
  exists r f0, o = OpComplete id r /\ fs !! id = Some f0 /\ flow_status f0 = Pending /\ now < flow_expiresAt f0
    /\ f = mark Completed (Some r) (flow_error f0) (flow_errorDescription f0) f0.

Lemma exec_completed (o : flow_op) (now : Z) (fs : Flows) (id : string) (f : DeskAuthorizationFlow) :
  flow_exec o now fs !! id = Some f -> flow_status f = Completed ->
  fs !! id = Some f \/ completed_by o now fs id f.
Proof.
  intros Hf Hc. destruct o as [p i r|i|i p iss|i r|i e d]; cbn in Hf.
  - left. destruct (decide (r = id)) as [->|Hne].
    + rewrite lookup_insert_eq in Hf. by injection Hf as <-.
    + rewrite lookup_insert_ne in Hf by done. unfold cleanupExpired in Hf. rewrite lookup_omap in Hf.
      destruct (fs !! id) as [g|]; [|done]. cbn in Hf. unfold cleanup_one in Hf. case_bool; [|done|].
      * by injection Hf as <-.
      * by injection Hf as <-.
  - left. by eapply getFlow_completed.
  - left. unfold getReusableFlow in Hf. destruct (getFlow i now fs) as [x fs1] eqn:Hg.
    eapply (getFlow_completed i id now fs); [|done]. by rewrite Hg.
  - unfold completeFlow in Hf. pose proof (getFlow_spec i now fs) as Hs.
    destruct (fs !! i) as [f0|] eqn:Hi; [|left; by rewrite Hs in Hf].
    destruct Hs as (f1 & Hst & Hov & Hg).
    assert (Hget : snd (getFlow i now fs) !! id = Some f -> fs !! id = Some f) by (intros; by eapply getFlow_completed).
    rewrite Hg in Hf, Hget. cbv beta iota in Hf. destruct (is_status Pending f1) eqn:Hp; [|by left; apply Hget].
    apply is_status_spec in Hp. cbn in Hf. destruct (decide (i = id)) as [->|Hne].
    + rewrite lookup_insert_eq in Hf. injection Hf as <-. inversion Hst; subst; [|done..].
      right. exists r, f1. split_and! ; try done. destruct (Z.lt_ge_cases now (flow_expiresAt f1)); [done|].
      assert (overdue now f1 = true); [by apply overdue_spec|congruence].
    + left. apply Hget. cbn. rewrite !lookup_insert_ne in Hf by done. by rewrite lookup_insert_ne.
  - left. unfold failFlow in Hf. pose proof (getFlow_spec i now fs) as Hs.
    destruct (fs !! i) as [f0|] eqn:Hi; [|by rewrite Hs in Hf].
    destruct Hs as (f1 & Hst & Hov & Hg).
    apply (getFlow_completed i id now fs); [|done]. rewrite Hg in Hf |- *.
    cbv beta iota in Hf. destruct (is_status Pending f1); [|done]. cbn in Hf |- *.
    destruct (decide (i = id)) as [->|Hne].
    + rewrite lookup_insert_eq in Hf. by injection Hf as <-.
    + by rewrite lookup_insert_ne in Hf by done.
Qed.

(** (C0) The redirect a polling page is given: a flow found completed after
    any history was completed from before, or by one completion of this flow
    made while it was pending and before it expired, and it holds that
    completion's redirect for the parameters the flow was opened with; and
    once completed, it stays so, unchanged and never deleted. *)
Theorem desk_flow_completes_once (fs : Flows) ops fs' (id : string) :
  flow_history fs ops fs' ->
  (forall f, fs !! id = Some f -> flow_status f = Completed -> fs' !! id = Some f)
  /\ (forall f, fs' !! id = Some f -> flow_status f = Completed ->
      fs !! id = Some f
      \/ exists pre o now post fs1, ops = pre ++ (o, now) :: post /\ flow_history fs pre fs1 /\ op_fresh o fs1
           /\ completed_by o now fs1 id f).
Proof.
  intros Hh. split; [intros f ? ?; by eapply completed_stays|].
  induction Hh as [|fs o now ops fs' Hfresh Hh IH]; [by left|]. intros f Hf Hc.
  destruct (IH f Hf Hc) as [H|(pre & o' & t & post & fs1 & -> & Hpre & Hfr & Hby)].
  - destruct (exec_completed o now fs id f H Hc) as [?|?]; [by left|].
    right. exists [], o, now, ops, fs. split_and! ; [done|constructor|done|done].
  - right. exists ((o, now) :: pre), o', t, post, fs1. split_and! ; [done|by constructor|done|done].
Qed.

Definition ex_params : DeskAuthorizationParams :=
  {| p_client_id := JStr "c"; p_redirect_uri := JStr "http://localhost/cb"; p_scope := JUndefined; p_state := JUndefined;
     p_code_challenge := JStr "h"; p_code_challenge_method := JStr "S256"; p_resource := JUndefined |}.

Definition ex_ops : list (flow_op * Z) :=
  [(OpCreate ex_params "https://gw" "a", 0); (OpComplete "a" "http://localhost/cb?code=1", 299999);
   (OpComplete "a" "http://localhost/cb?code=2", 300000); (OpCreate ex_params "https://gw" "b", 700000)].

Definition run_ops (ops : list (flow_op * Z)) (fs : Flows) : Flows :=
  fold_left (fun fs p => flow_exec (fst p) (snd p) fs) ops fs.

Lemma desk_flow_completes_once_witness :
  exists fs' f, flow_history ∅ ex_ops fs' /\ fs' !! "a"%string = Some f
    /\ flow_redirect f = Some "http://localhost/cb?code=1"%string
    /\ exists pre o now post fs1, ex_ops = pre ++ (o, now) :: post /\ flow_history ∅ pre fs1 /\ op_fresh o fs1
         /\ completed_by o now fs1 "a" f.
Proof.
  assert (Hh : flow_history ∅ ex_ops (run_ops ex_ops ∅)).
  { unfold ex_ops, run_ops. cbn [fold_left fst snd].
    do 4 (apply history_cons; [first [exact I | vm_compute; reflexivity]|]). constructor. }
  destruct (run_ops ex_ops ∅ !! "a"%string) as [f|] eqn:Hf; [|by vm_compute in Hf].
  exists (run_ops ex_ops ∅), f. split; [done|]. split; [done|].
  assert (Hf' := Hf). vm_compute in Hf'. injection Hf' as Hf'.
  split; [by rewrite <- Hf'|].
  destruct (proj2 (desk_flow_completes_once ∅ ex_ops (run_ops ex_ops ∅) "a" Hh) f Hf) as [H|H].
  - by rewrite <- Hf'.
  - by rewrite lookup_empty in H.
  - exact H.
Defined.

(** A flow that was completed is never deleted, however old. *)
Lemma completed_flow_leaks :
  is_Some (run_ops (ex_ops ++ [(OpCreate ex_params "https://gw" "c", 10 ^ 15)]) ∅ !! "a"%string).
Proof. vm_compute. by eexists. Qed.

(** * OAuth: records and calls

    The rows of the OAuth tables and of the user table
    ([src/prisma/schema.prisma]), the data given to the statements that write
    them, and the calls the OAuth handlers and token validators make: the
    clock, random values, the tables, the authorization flows and the fetching
    of a client's metadata document.  Every database call may fail. *)

Record OAuthClient : Type := {
  clientId : string;
  issuer : string;
  clientSecret : option string;
  applicationType : string;
  tokenEndpointAuthMethod : string;
  client_name : string;
  redirectUris : list string;
  scopes : list string;
  grantTypes : list string;
  responseTypes : list string;
  client_userId : option string;
  trusted : bool;
  createdAt : Z;
  updatedAt : Z
}.

Record OAuthAuthorizationCode : Type := {
  code : string;
  code_clientId : string;
  code_userId : string;
  redirectUri : string;
  code_scopes : list string;
  code_resource : option string;
  codeChallenge : option string;
  challengeMethod : option string;
  code_expiresAt : Z;
  used : bool
}.

Record OAuthToken : Type := {
  tokenId : string;
  accessToken : string;
  refreshToken : option string;
  token_clientId : string;
  token_userId : string;
  token_scopes : list string;
  token_resource : option string;
  accessTokenExpiresAt : Z;
  refreshTokenExpiresAt : option Z;
  revoked : bool
}.

#[export] Instance OAuthToken_eq_dec : EqDecision OAuthToken.
Proof. solve_decision. Defined.

(** The columns of a user that authentication reads. *)
Record User : Type := {
  userId : string;
  status : Z;
  role : Z;
  user_permissions : string;
  user_preferences : string;
  launchConfigs : string;
  user_expiresAt : Z;
  ratelimit : Z;
  proxyId : Z
}.

(** [OAuthClientCreateData]: the name comes from the registration as it is. *)
Record ClientData : Type := {
  cd_clientId : string;
  cd_issuer : string;
  cd_clientSecret : option string;
  cd_applicationType : string;
  cd_name : json;
  cd_redirectUris : list string;
  cd_grantTypes : list string;
  cd_responseTypes : list string;
  cd_scopes : list string;
  cd_authMethod : string;
  cd_userId : option string
}.

(** [OAuthClientUpdateData] *)
Record ClientUpdate : Type := {
  cu_name : option json;
  cu_redirectUris : option (list string);
  cu_scopes : option (list string);
  cu_grantTypes : option (list string);
  cu_responseTypes : option (list string);
  cu_applicationType : option string
}.

(** The row of a new authorization code; the redirect URI is the request's,
    which need not be a string. *)
Record CodeData : Type := {
  nc_code : string;
  nc_clientId : string;
  nc_userId : string;
  nc_redirectUri : json;
  nc_scopes : list string;
  nc_codeChallenge : string;
  nc_challengeMethod : string;
  nc_resource : string;
  nc_expiresAt : Z
}.

Record TokenData : Type := {
  nt_accessToken : string;
  nt_refreshToken : option string;
  nt_clientId : string;
  nt_userId : string;
  nt_scopes : list string;
  nt_resource : option string;
  nt_accessTokenExpiresAt : Z;
  nt_refreshTokenExpiresAt : option Z
}.

(** A validated client metadata document ([OAuthClientMetadata]). *)
Record ClientMetadata : Type := {
  md_client_id : string;
  md_client_name : string;
  md_redirect_uris : list string;
  md_client_uri : option string;
  md_logo_uri : option string;
  md_application_type : option string;
  md_scope : option string;
  md_auth_method : option string;
  md_grant_types : option (list string);
  md_response_types : option (list string);
  md_contacts : option (list string)
}.

(** [ClientMetadataValidationResult]: the metadata, or the error and its
    description. *)
Definition MetadataResult : Type := result (string * string) ClientMetadata.

(** What a metadata host answered ([ClientMetadataHttpResponse], of the headers
    the two that are read). *)
Record HttpResponse : Type := {
  http_status : Z;
  content_type : option string;
  content_length : option string;
  http_body : string
}.

(** What an endpoint answers: [res.status(s).json(v)], [.send(text)] or an
    HTML page.  The CORS headers, the same everywhere, are left out. *)
Inductive reply : Type :=
| Json (status : Z) (body : json)
| Text (status : Z) (text : string)
| Html (text : string).

(** ** The calls *)
Inductive call : Type -> Type :=
| Now : call Z
| RandomBytes (n : Z) : call string
| FindFirstClient (clientId : json) (issuer : string) : call (result exn (option OAuthClient))
| FindUniqueClient (clientId : json) : call (result exn (option OAuthClient))
| FindManyClients (userId : option string) : call (result exn (list OAuthClient))
| CreateClient (d : ClientData) : call (result exn OAuthClient)
| UpdateClient (clientId : string) (d : ClientUpdate) : call (result exn OAuthClient)
| DeleteClient (clientId : string) : call (result exn unit)
| DnsLookup (hostname : string) : call (result exn (list string))
| HttpsGet (url address : string) : call (result exn HttpResponse)
| FindCode (code : json) : call (result exn (option OAuthAuthorizationCode))
| CreateCode (d : CodeData) : call (result exn unit)
| ClaimCode (code : json) (now : Z) : call (result exn Z)
| FindTokenByRefresh (t : json) : call (result exn (option OAuthToken))
| FindTokenByAccess (t : json) : call (result exn (option OAuthToken))
| CreateToken (d : TokenData) : call (result exn unit)
| UpdateToken (tokenId accessToken : string) (expiresAt : Z) (scopes : list string) : call (result exn unit)
| RevokeToken (tokenId : string) : call (result exn unit)
| FindUser (userId : json) : call (result exn (option User))
| CreateFlow (p : DeskAuthorizationParams) (issuer : string) : call DeskAuthorizationFlow
| ReuseFlow (id : string) (p : DeskAuthorizationParams) (issuer : string) : call (option DeskAuthorizationFlow)
| GetFlow (id : string) : call (option DeskAuthorizationFlow)
| CompleteFlow (id redirect : string) : call (option DeskAuthorizationFlow)
| FailFlow (id error description : string) : call (option DeskAuthorizationFlow)
(* the key shown on the consent page, and its template *)
| FindFirstProxy : call (result exn (option string))
| ReadTemplate : call (result exn string).

Definition Prog (A : Type) : Type := prog call (result exn A).

(** A value that is already there, or an exception. *)
Definition lift {A} (r : result exn A) : Prog A := Ret r.

(** Awaiting a call that may fail. *)
Definition query {A} (e : call (result exn A)) : Prog A := perform e.

(** [try { p } catch (e) { h(e) }] *)
Definition try_catch {A} (p : Prog A) (h : exn -> Prog A) : Prog A :=
  pbind p (fun r => match r with Ok a => Ret (Ok a) | Throw e => h e end).

(** Answers of a platform where nothing works; examples override some. *)
Definition no_flow : DeskAuthorizationFlow :=
  {| flowId := ""; flow_issuer := ""; flow_params := ex_params; flow_status := Failed; flow_expiresAt := 0;
     flow_redirect := None; flow_error := None; flow_errorDescription := None |}.

Definition unavailable {A} : result exn A := Throw (Error "unavailable").

Definition refuse {X} (e : call X) : X :=
  match e in call X return X with
  | Now => 0
  | RandomBytes _ => "random"%string
  | CreateFlow _ _ => no_flow
  | ReuseFlow _ _ _ | GetFlow _ | CompleteFlow _ _ | FailFlow _ _ _ => None
  | FindFirstClient _ _ | FindUniqueClient _ | FindManyClients _ | CreateClient _ | UpdateClient _ _
  | DeleteClient _ | DnsLookup _ | HttpsGet _ _ | FindCode _ | CreateCode _ | ClaimCode _ _
  | FindTokenByRefresh _ | FindTokenByAccess _ | CreateToken _ | UpdateToken _ _ _ _ | RevokeToken _
  | FindUser _ | FindFirstProxy | ReadTemplate => unavailable
  end.

(** Answers without a state, as [run_with] wants them. *)
Definition stateless (f : forall X, call X -> X) (X : Type) (e : call X) (s : unit) : X * unit := (f X e, s).
