(* ===== verification/TokenValidators.v ===== *)
(** * Token validation

    [src/src/security/TokenValidator.ts], [src/src/security/OAuthTokenValidator.ts],
    [calculateUserId] of [src/src/security/CryptoService.ts], [maskToken] of
    [src/src/utils/tokenMask.ts] and the types of
    [src/src/types/auth.types.ts]: from a bearer token to the context a session
    works under. *)
From Stdlib Require Import Ascii ZArith Lia.
From stdpp Require Import base strings list.
From S2P Require Import Prelude Json JsMap WebPlatform OAuthService OAuthDesk Effects.
Open Scope Z_scope.

Definition UserStatus_Disabled : Z := 0.
Definition UserStatus_Enabled : Z := 1.

Definition UserStatus_text (s : Z) : string :=
  match s with 0 => "Disabled" | 1 => "Enabled" | 2 => "Pending" | 3 => "Suspended" | _ => "undefined" end.

Inductive AuthErrorType : Type :=
| INVALID_TOKEN | USER_NOT_FOUND | USER_DISABLED | USER_EXPIRED | INVALID_PERMISSIONS | PERMISSION_DENIED
| SESSION_EXPIRED | DECRYPTION_FAILED.

#[export] Instance AuthErrorType_eq_dec : EqDecision AuthErrorType.
Proof. solve_decision. Defined.

(** A thrown [AuthError], or another error. *)
Inductive auth_failure : Type :=
| AuthError (type : AuthErrorType) (message : string) (user : option string)
| Other (e : exn).

(** A payload's claims are copied as they are. *)
Record AuthContext : Type := {
  ctx_anonymous : bool;
  ctx_userId : string;
  ctx_token : string;
  ctx_role : Z;
  ctx_status : Z;
  ctx_permissions : json;
  ctx_userPreferences : json;
  ctx_launchConfigs : string;
  ctx_authenticatedAt : Z;
  ctx_expiresAt : option Z;
  ctx_rateLimit : Z;
  ctx_oauthClientId : json;
  ctx_oauthScopes : json;
  ctx_oauthAccessTokenExpiresAt : json;
  ctx_userAgent : option string;
  ctx_tenantId : option string
}.

Definition maskToken (token : string) : string :=
  if (String.length token <=? 16)%nat then "[redacted]"
  else str_take 8 token +:+ "..." +:+ str_last 8 token.

(** [Object.entries(v)] of a parsed value *)
Definition entries (v : json) : list (string * json) :=
  match v with
  | JObj kvs => kvs
  | JArr l => imap (fun i x => (z_to_string (Z.of_nat i), x)) l
  | _ => []
  end.

Definition is_object (v : json) : bool := match v with JObj _ | JArr _ => true | _ => false end.

Definition isValidPermissions (obj : json) : bool :=
  is_object obj
  && forallb (fun e =>
       is_object (snd e)
       && (match jfield_opt (snd e) "enabled" with JBool _ => true | _ => false end)
       && forallb (fun k => let v := jfield_opt (snd e) k in negb (js_truthy v) || is_object v)
            ["tools"; "resources"; "prompts"]%string) (entries obj).

(** [user.expiresAt && user.expiresAt > 0 && Math.floor(now / 1000) > user.expiresAt] *)
Definition user_expired (u : User) (now : Z) : bool :=
  (0 <? user_expiresAt u) && (user_expiresAt u <? now / 1000).

(** [user.userPreferences || '{}'] *)
Definition preferences_text (u : User) : string :=
  if truthy_str (user_preferences u) then user_preferences u else "{}".

Definition parse_json (s : string) : result exn json :=
  match JSON_parse s with Some v => Ok v | None => Throw (Error "SyntaxError") end.

Definition context_of (u : User) (token : string) (permissions preferences : json) (now : Z) : AuthContext := {|
  ctx_anonymous := false; ctx_userId := userId u; ctx_token := maskToken token; ctx_role := role u;
  ctx_status := status u; ctx_permissions := permissions; ctx_userPreferences := preferences;
  ctx_launchConfigs := launchConfigs u; ctx_authenticatedAt := now;
  ctx_expiresAt := if 0 <? user_expiresAt u then Some (user_expiresAt u) else None;
  ctx_rateLimit := ratelimit u; ctx_oauthClientId := JUndefined; ctx_oauthScopes := JUndefined;
  ctx_oauthAccessTokenExpiresAt := JUndefined; ctx_userAgent := None;
  ctx_tenantId := if 0 <? proxyId u then Some (z_to_string (proxyId u)) else None
|}.

Definition with_oauth (decoded : json) (c : AuthContext) : AuthContext := {|
  ctx_anonymous := ctx_anonymous c; ctx_userId := ctx_userId c; ctx_token := ctx_token c; ctx_role := ctx_role c;
  ctx_status := ctx_status c; ctx_permissions := ctx_permissions c; ctx_userPreferences := ctx_userPreferences c;
  ctx_launchConfigs := ctx_launchConfigs c; ctx_authenticatedAt := ctx_authenticatedAt c;
  ctx_expiresAt := ctx_expiresAt c; ctx_rateLimit := ctx_rateLimit c;
  ctx_oauthClientId := jfield_opt decoded "client_id"; ctx_oauthScopes := jfield_opt decoded "scopes";
  ctx_oauthAccessTokenExpiresAt := jfield_opt decoded "exp"; ctx_userAgent := ctx_userAgent c;
  ctx_tenantId := ctx_tenantId c
|}.

(** [options.expectedAudience] counts when it is not empty. *)
Definition audience_of (expectedAudience : option string) : option string :=
  if truthy_ostr expectedAudience then expectedAudience else None.

Definition audiences (decoded : json) : list json :=
  match jfield_opt decoded "aud" with
  | JArr l => l
  | v => if js_truthy v then [v] else []
  end.

Definition audience_ok (decoded : json) (expectedAudience : option string) : bool :=
  match audience_of expectedAudience with
  | Some a => existsb (fun v => js_strict_eq v (JStr a)) (audiences decoded)
  | None => true
  end.

(** [decoded.exp && Date.now() / 1000 > decoded.exp] *)
Definition payload_expired (decoded : json) (now : Z) : bool :=
  match jfield_opt decoded "exp" with JNum e => negb (e =? 0) && (1000 * e <? now) | _ => false end.

Section Validators.
Context `{P : Platform}.

Definition calculateUserId (token : string) : string := str_take 32 (sha256_hex token).

(** *** Gateway tokens *)

Definition validateToken (token : json) : prog call (result auth_failure AuthContext) :=
  match token with
  | JStr t =>
      if str_eqb t "" then Ret (Throw (AuthError INVALID_TOKEN "Token is required and must be a string" None)) else
      let uid := calculateUserId t in
      call! found := FindUser (JStr uid) in
      match found with
      | Throw e => Ret (Throw (Other e))
      | Ok None => Ret (Throw (AuthError USER_NOT_FOUND "User not found" (Some uid)))
      | Ok (Some user) =>
          if negb (status user =? UserStatus_Enabled)
          then Ret (Throw (AuthError USER_DISABLED ("User is " +:+ UserStatus_text (status user)) (Some uid))) else
          call! now := Now in
          if user_expired user now
          then Ret (Throw (AuthError USER_EXPIRED "User authorization has expired" (Some uid))) else
          match parse_json (user_permissions user) with
          | Throw e => Ret (Throw (Other e))
          | Ok permissions =>
              if negb (isValidPermissions permissions)
              then Ret (Throw (AuthError INVALID_PERMISSIONS "Invalid permissions data structure in user record"
                                 (Some uid))) else
              match parse_json (preferences_text user) with
              | Throw e => Ret (Throw (Other e))
              | Ok preferences =>
                  call! now := Now in
                  Ret (Ok (context_of user t permissions preferences now))
              end
          end
      end
  | _ => Ret (Throw (AuthError INVALID_TOKEN "Token is required and must be a string" None))
  end.

(** *** Access tokens of the OAuth server *)

(** [validate]: the token's row, errors counting as an invalid token. *)
Definition validate (token : string) (expectedAudience : option string) : prog call bool :=
  call! found := FindTokenByAccess (JStr token) in
  match found with
  | Throw _ | Ok None => Ret false
  | Ok (Some row) =>
      if revoked row then Ret false else
      call! now := Now in
      if accessTokenExpiresAt row <? now then Ret false else
      match audience_of expectedAudience with
      | Some a => Ret (bool_decide (token_resource row = Some a))
      | None => Ret true
      end
  end.

(** The verified payload, or the error text. *)
Definition verify_signature (token : string) : prog call (result string json) :=
  if str_eqb JWT_SECRET "" then Ret (Throw "OAuth token validation is not configured on server"%string) else
  call! now := Now in
  match jwt_verify token JWT_SECRET now with
  | Ok decoded => Ret (Ok decoded)
  | Throw c => Ret (Throw (if instanceof c JsonWebTokenError then "Invalid token signature"
                           else if instanceof c TokenExpiredError then "Token has expired"
                           else "Token validation failed")%string)
  end.

Definition user_context (decoded : json) (token : string) : prog call (result string AuthContext) :=
  call! found := FindUser (jfield_opt decoded "user_id") in
  match found with
  | Throw e => Ret (Throw (message e))
  | Ok None => Ret (Throw "User not found"%string)
  | Ok (Some user) =>
      if negb (status user =? UserStatus_Enabled) then Ret (Throw "User is not active"%string) else
      call! now := Now in
      if user_expired user now then Ret (Throw "User has expired"%string) else
      match parse_json (user_permissions user), parse_json (preferences_text user) with
      | Ok permissions, Ok preferences =>
          call! now := Now in
          Ret (Ok (with_oauth decoded (context_of user token permissions preferences now)))
      | Throw e, _ | _, Throw e => Ret (Throw (message e))
      end
  end.

(** [OAuthTokenValidator.validateToken]: the context, or the error text. *)
Definition oauth_validateToken (token : string) (expectedAudience : option string)
    : prog call (result string AuthContext) :=
  await! decoded := verify_signature token in
  match jfield decoded "type" with
  | None => Ret (Throw (message TypeError))
  | Some type =>
      if negb (js_strict_eq type (JStr "access_token")) then Ret (Throw "Invalid token type"%string) else
      if negb (audience_ok decoded expectedAudience)
      then Ret (Throw "Token audience does not match MCP resource"%string) else
      call! now := Now in
      if payload_expired decoded now then Ret (Throw "Token has expired"%string) else
      bind! valid := validate token expectedAudience in
      if negb valid
      then Ret (Throw (match audience_of expectedAudience with
                       | Some _ => "Token is revoked or has the wrong resource audience"
                       | None => "Token has been revoked"
                       end)%string)
      else user_context decoded token
  end.
End Validators.

