(* ===== verification/ClientMetadata.v ===== *)
(** * OAuth: client metadata documents

    A client that names itself by an https URL publishes its metadata there.
    [src/src/oauth/services/ClientMetadataNetwork.ts] (which hosts may be
    asked), [ClientMetadataFetcher.ts] (asking them) and
    [ClientMetadataValidator.ts] (what a document must say).  The fetcher's
    cache is left out: every caller makes a new fetcher, whose cache is
    empty. *)
From Stdlib Require Import Ascii ZArith Lia.
From stdpp Require Import base strings list.
From S2P Require Import Prelude Json JsMap WebPlatform OAuthService OAuthDesk Effects.
Open Scope Z_scope.

(** ** The document: [ClientMetadataValidator] *)

Definition invalid {A} (description : string) : result (string * string) A :=
  Throw ("invalid_client_metadata"%string, description).

Fixpoint all_strings (l : list json) : option (list string) :=
  match l with
  | [] => Some []
  | JStr s :: l' => if str_eqb s "" then None else cons s <$> all_strings l'
  | _ => None
  end.

Definition optionalStringArray (value : json) (field : string) : result (string * string) (list string) :=
  match value with
  | JUndefined => Ok []
  | JArr l => match all_strings l with
              | Some ss => Ok ss
              | None => if str_eqb field "redirect_uris" then invalid "All redirect_uris must be non-empty strings"
                        else invalid (field +:+ " must contain only non-empty strings")
              end
  | _ => invalid (field +:+ " must be an array")
  end.

Definition requiredStringArray (value : json) (field : string) : result (string * string) (list string) :=
  match optionalStringArray value field with
  | Ok [] => invalid (field +:+ " is required and must be a non-empty array")
  | r => r
  end.

Definition unsupported (supported : list string) (l : list string) : list string :=
  List.filter (fun s => negb (list_includes supported s)) l.

Definition string_field (v : json) : option string := match v with JStr s => Some s | _ => None end.

(** The strings of an array of strings. *)
Definition contacts_field (v : json) : option (list string) :=
  match v with
  | JArr l => mapM string_field l
  | _ => None
  end.

Definition list_field (l : list string) : option (list string) := match l with [] => None | _ => Some l end.

Notation "'check!' b 'else' e 'in' k" := (if b then k else invalid e)
  (at level 10, b at level 100, e at level 100, k at level 200) : peta_scope.
Notation "'ok!' x ':=' r 'in' k" := (match r with Ok x => k | Throw e => Throw e end)
  (at level 10, x name, r at level 100, k at level 200) : peta_scope.

Section Metadata.
Context `{P : Platform}.

Definition isLoopbackHttpRedirect (u : Url) : bool :=
  str_eqb (protocol u) "http:" && isLoopbackRedirectHost (hostname u).

(** [validateRedirectUri] of the validator: the error, if any. *)
Definition metadata_redirect_ok (uri : string) : bool :=
  match URL_parse uri with
  | Some parsed => str_eqb (protocol parsed) "https:" || isLoopbackHttpRedirect parsed
  | None => false
  end.

Fixpoint check_redirects (uris : list string) : result (string * string) unit :=
  match uris with
  | [] => Ok tt
  | uri :: uris' => if metadata_redirect_ok uri then check_redirects uris'
                    else Throw ("invalid_redirect_uri"%string, "Invalid redirect_uri: " +:+ uri)
  end.

Definition validateMetadata (metadata : json) : MetadataResult :=
  match metadata with
  | JObj _ =>
      let field := jfield_opt metadata in
      let clientId := field "client_id"%string in
      match clientId with
      | JStr (String _ _ as client_id) =>
          match field "client_name"%string with
          | JStr (String _ _ as client_name) =>
              ok! uris := requiredStringArray (field "redirect_uris"%string) "redirect_uris" in
              ok! _redirects := check_redirects uris in
              ok! grantTypes := optionalStringArray (field "grant_types"%string) "grant_types" in
              let badGrants := unsupported ["authorization_code"; "refresh_token"]%string grantTypes in
              check! bool_decide (badGrants = []) else "Unsupported grant_types: " +:+ str_join ", " badGrants in
              ok! responseTypes := optionalStringArray (field "response_types"%string) "response_types" in
              let badResponses := unsupported ["code"%string] responseTypes in
              check! bool_decide (badResponses = [])
                else "Unsupported response_types: " +:+ str_join ", " badResponses in
              let authMethod := field "token_endpoint_auth_method"%string in
              check! json_eqb authMethod JUndefined || json_eqb authMethod (JStr "none")
                else "Unsupported token_endpoint_auth_method: " +:+ js_String authMethod in
              let applicationType := field "application_type"%string in
              check! json_eqb applicationType JUndefined || json_eqb applicationType (JStr "web")
                     || json_eqb applicationType (JStr "native")
                else "Unsupported application_type: " +:+ js_String applicationType in
              Ok {| md_client_id := client_id; md_client_name := client_name; md_redirect_uris := uris;
                    md_client_uri := string_field (field "client_uri"%string);
                    md_logo_uri := string_field (field "logo_uri"%string);
                    md_application_type := string_field applicationType;
                    md_scope := string_field (field "scope"%string);
                    md_auth_method := string_field authMethod;
                    md_grant_types := list_field grantTypes; md_response_types := list_field responseTypes;
                    md_contacts := contacts_field (field "contacts"%string) |}
          | _ => invalid "client_name is required and must be a non-empty string"
          end
      | _ => invalid "client_id is required and must be a non-empty string"
      end
  | _ => invalid "Client metadata must be a JSON object"
  end.

(** ** The host: [ClientMetadataNetwork] *)

Definition BLOCKED_IPV4_SUBNETS : list (string * Z) :=
  [("0.0.0.0", 8); ("10.0.0.0", 8); ("100.64.0.0", 10); ("127.0.0.0", 8); ("169.254.0.0", 16); ("172.16.0.0", 12);
   ("192.0.0.0", 24); ("192.0.2.0", 24); ("192.88.99.0", 24); ("192.168.0.0", 16); ("198.51.100.0", 24);
   ("203.0.113.0", 24); ("224.0.0.0", 4); ("240.0.0.0", 4)]%string.

Definition FAKE_IP_IPV4_SUBNETS : list (string * Z) := [("198.18.0.0"%string, 15)].

Definition BLOCKED_IPV6_SUBNETS : list (string * Z) :=
  [("::", 128); ("::1", 128); ("::ffff:0:0", 96); ("64:ff9b::", 96); ("64:ff9b:1::", 48); ("100::", 64);
   ("2001::", 32); ("2001:2::", 48); ("2001:db8::", 32); ("2002::", 16); ("3fff::", 20); ("fc00::", 7);
   ("fe80::", 10); ("ff00::", 8)]%string.

(** [blockList.check(address)] *)
Definition in_any (subnets : list (string * Z)) (address : string) : bool :=
  existsb (fun net => in_subnet net address) subnets.

Definition unbracketIpv6Hostname (h : string) : string :=
  if starts_with "[" h && ends_with "]" h then str_take (String.length h - 2) (str_drop 1 h) else h.

Definition normalize_address (address : string) : string := unbracketIpv6Hostname (to_lower address).

Definition isFakeIpAddress (address : string) : bool :=
  let a := normalize_address address in (isIP a =? 4) && in_any FAKE_IP_IPV4_SUBNETS a.

Definition octet_ok (part : string) : bool :=
  match Number_of part with Some n => (0 <=? n) && (n <=? 255) | None => false end.

Definition isPublicIpAddress (address : string) : bool :=
  let a := normalize_address address in
  if isIP a =? 4 then
    let octets := split_on "." a in
    if negb (length octets =? 4)%nat || existsb (fun p => negb (octet_ok p)) octets then false
    else if isFakeIpAddress a then false
    else negb (in_any BLOCKED_IPV4_SUBNETS a)
  else if isIP a =? 6 then negb (in_any BLOCKED_IPV6_SUBNETS a)
  else false.

(** [OAUTH_CLIENT_METADATA_ALLOW_FAKE_IP] *)
Definition allowFakeIpClientMetadata (env : option string) : bool :=
  negb (bool_decide ((fun s => to_lower (trim s)) <$> env = Some "false"%string)).

Fixpoint check_addresses (direct allowFakeIp : bool) (addresses : list string) : result string unit :=
  match addresses with
  | [] => Ok tt
  | address :: rest =>
      if isPublicIpAddress address then check_addresses direct allowFakeIp rest
      else let fakeIpAddress := isFakeIpAddress address in
           if fakeIpAddress && direct
           then Throw "Client metadata URL must not directly target 198.18.0.0/15 fake-IP addresses"%string
           else if fakeIpAddress && allowFakeIp then check_addresses direct allowFakeIp rest
           else if fakeIpAddress
           then Throw "Client metadata URL resolved to 198.18.0.0/15 fake-IP addresses, but OAUTH_CLIENT_METADATA_ALLOW_FAKE_IP is disabled"%string
           else Throw "Client metadata URL must resolve only to public IP addresses"%string
  end.

Variable env_ALLOW_FAKE_IP : option string.

(** The addresses to ask, the refusal, or an exception. *)
Definition validatePublicNetworkTarget (url : string) : Prog (result string (list string)) :=
  match URL_of (JStr url) with
  | Throw e => Ret (Throw e)
  | Ok parsedUrl =>
      let host := to_lower (hostname parsedUrl) in
      let ipHostname := unbracketIpv6Hostname host in
      if str_eqb host "localhost" || ends_with ".localhost" host
      then Ret (Ok (Throw "Client metadata URL must not target localhost"%string)) else
      let direct := 0 <? isIP ipHostname in
      await! addresses := (if direct then lift (Ok [ipHostname]) else query (DnsLookup host)) in
      match addresses with
      | [] => Ret (Ok (Throw "Client metadata URL host did not resolve"%string))
      | _ => Ret (Ok (match check_addresses direct (allowFakeIpClientMetadata env_ALLOW_FAKE_IP) addresses with
                      | Ok _ => Ok addresses
                      | Throw e => Throw e
                      end))
      end
  end.

Fixpoint fetchPinnedMetadataDocument (url : string) (addresses : list string) (lastError : option exn)
    : Prog HttpResponse :=
  match addresses with
  | [] => Ret (Throw (default (Error "Client metadata URL host did not resolve") lastError))
  | address :: rest =>
      call! r := HttpsGet url address in
      match r with
      | Ok response => Ret (Ok response)
      | Throw e => fetchPinnedMetadataDocument url rest (Some e)
      end
  end.

(** ** The fetcher: [ClientMetadataFetcher] *)

Definition MAX_METADATA_BYTES : Z := 64 * 1024.

Definition validateClientMetadataUrl (url : string) : result string unit :=
  match URL_parse url with
  | None => Throw "Invalid URL format: Invalid URL"%string
  | Some parsedUrl =>
      if negb (str_eqb (protocol parsedUrl) "https:") then Throw "Client metadata URL must use HTTPS protocol"%string
      else if str_eqb (pathname parsedUrl) "/" || str_eqb (pathname parsedUrl) ""
      then Throw ("Client metadata URL pathname cannot be root (" +:+ quote "/" +:+ "), must specify a document path")%string
      else Ok tt
  end.

(** What is made of an answer. *)
Definition read_response (clientMetadataUrl : string) (response : HttpResponse) : result exn MetadataResult :=
  let status := http_status response in
  if (300 <=? status) && (status <? 400) then Ok (invalid "Client metadata URL must not redirect")
  else if negb ((200 <=? status) && (status <? 300))
  then Ok (invalid ("Failed to fetch client metadata: HTTP " +:+ z_to_string status))
  else if negb (match content_type response with Some t => includes "application/json" t | None => false end)
  then Ok (invalid "Client metadata must be JSON (application/json)")
  else if match content_length response with
          | Some l => truthy_str l && match Number_of l with Some n => MAX_METADATA_BYTES <? n | None => false end
          | None => false
          end
  then Ok (invalid "Client metadata document is too large")
  else match JSON_parse (http_body response) with
       | None => Throw (Error "SyntaxError")
       | Some metadata =>
           Ok (match validateMetadata metadata with
               | Throw e => Throw e
               | Ok m => if str_eqb (md_client_id m) clientMetadataUrl then Ok m
                         else invalid "client_id in metadata must exactly match the client metadata document URL"
               end)
       end.

Definition fetch_document (clientMetadataUrl : string) : Prog MetadataResult :=
  await! networkValidation := validatePublicNetworkTarget clientMetadataUrl in
  match networkValidation with
  | Throw error => Ret (Ok (invalid error))
  | Ok addresses =>
      await! response := fetchPinnedMetadataDocument clientMetadataUrl addresses None in
      lift (read_response clientMetadataUrl response)
  end.

Definition fetchAndValidateClientMetadata (clientMetadataUrl : string) : prog call MetadataResult :=
  match validateClientMetadataUrl clientMetadataUrl with
  | Throw error => Ret (invalid error)
  | Ok _ =>
      bind! r := fetch_document clientMetadataUrl in
      match r with
      | Ok validation => Ret validation
      | Throw error => Ret (invalid ("Error fetching metadata: " +:+ message error))
      end
  end.
End Metadata.

(** ** What the documents and the requests are *)

(** A metadata record is what RFC 7591 and the gateway allow. *)
Record metadata_ok `{P : Platform} (m : ClientMetadata) : Prop := {
  ok_client_id : md_client_id m <> ""%string;
  ok_client_name : md_client_name m <> ""%string;
  ok_redirects_some : md_redirect_uris m <> [];
  ok_redirects : Forall (fun u => u <> ""%string /\ metadata_redirect_ok u = true) (md_redirect_uris m);
  ok_grants : default [] (md_grant_types m) ⊆ ["authorization_code"; "refresh_token"]%string;
  ok_responses : default [] (md_response_types m) ⊆ ["code"%string];
  ok_auth_method : md_auth_method m = None \/ md_auth_method m = Some "none"%string;
  ok_application : md_application_type m = None \/ md_application_type m = Some "web"%string
                   \/ md_application_type m = Some "native"%string
}.

Lemma all_strings_nonempty (l : list json) (ss : list string) :
  all_strings l = Some ss -> Forall (fun s => s <> ""%string) ss.
Proof.
  revert ss. induction l as [|v l IH]; intros ss; [intros [= <-]; constructor|].
  destruct v; try done. cbn. destruct (str_eqb s "") eqn:Hs; [done|]. apply str_eqb_neq in Hs.
  destruct (all_strings l) as [ss'|]; [|done]. intros [= <-]. constructor; [done|by apply IH].
Qed.

Lemma optionalStringArray_ok (v : json) (field : string) (ss : list string) :
  optionalStringArray v field = Ok ss -> Forall (fun s => s <> ""%string) ss.
Proof.
  destruct v; cbn; try done; [by intros [= <-]|].
  destruct (all_strings l) as [ss'|] eqn:Hs; [intros [= <-]; by eapply all_strings_nonempty|by case_bool].
Qed.

Lemma requiredStringArray_ok (v : json) (field : string) (ss : list string) :
  requiredStringArray v field = Ok ss -> ss <> [] /\ Forall (fun s => s <> ""%string) ss.
Proof.
  unfold requiredStringArray. destruct (optionalStringArray v field) as [[|s ss']|] eqn:Ho; try done.
  intros [= <-]. split; [done|by eapply optionalStringArray_ok].
Qed.

Lemma check_redirects_ok `{P : Platform} (uris : list string) :
  check_redirects uris = Ok tt -> Forall (fun u => metadata_redirect_ok u = true) uris.
Proof. induction uris as [|u uris IH]; cbn; [by constructor|]. case_bool; [|done]. intros H. constructor; auto. Qed.

Lemma unsupported_nil (supported l : list string) : unsupported supported l = [] -> l ⊆ supported.
Proof.
  intros H x Hx. destruct (list_includes supported x) eqn:Hi; [by apply list_includes_spec|].
  assert (x ∈ unsupported supported l) as Hin; [|rewrite H in Hin; inversion Hin].
  apply list_elem_of_In, filter_In. split; [by apply list_elem_of_In|by rewrite Hi].
Qed.

Lemma list_field_default (l : list string) : default [] (list_field l) = l.
Proof. by destruct l. Qed.

Lemma validateMetadata_ok `{P : Platform} (v : json) (m : ClientMetadata) : validateMetadata v = Ok m -> metadata_ok m.
Proof.
  unfold validateMetadata. destruct v as [| | | | | |kvs]; try done. cbv zeta.
  destruct (jfield_opt _ "client_id") as [| | | |[|c id]| |]; try done.
  destruct (jfield_opt _ "client_name") as [| | | |[|c' name]| |]; try done.
  destruct (requiredStringArray _ _) as [uris|] eqn:Hu; [|done].
  destruct (check_redirects uris) as [[]|] eqn:Hc; [|done].
  destruct (optionalStringArray _ "grant_types") as [gs|] eqn:Hg; [|done].
  destruct (bool_decide _) eqn:Hbg; [|done]. apply bool_decide_eq_true, unsupported_nil in Hbg.
  destruct (optionalStringArray _ "response_types") as [rs|] eqn:Hr; [|done].
  destruct (bool_decide (unsupported ["code"%string] rs = [])) eqn:Hbr; [|done].
  apply bool_decide_eq_true, unsupported_nil in Hbr.
  destruct (json_eqb _ JUndefined || _) eqn:Ha; [|done].
  destruct (json_eqb (jfield_opt _ "application_type") JUndefined || _ || _) eqn:Happ; [|done].
  intros [= <-]. apply requiredStringArray_ok in Hu as [Hne Hu]. apply check_redirects_ok in Hc.
  split; cbn [md_client_id md_client_name md_redirect_uris md_auth_method md_application_type md_grant_types md_response_types];
    rewrite ?list_field_default; try done.
  - by apply Forall_and.
  - destruct (jfield_opt _ "token_endpoint_auth_method"); cbn in Ha |- *; try done; [by left|].
    right. f_equal. by apply str_eqb_eq.
  - destruct (jfield_opt _ "application_type"); cbn in Happ |- *; try done; [by left|].
    right. apply orb_true_iff in Happ as [?|?]; [left|right]; f_equal; by apply str_eqb_eq.
Qed.

Section Fetch.
Context `{P : Platform} (env_ALLOW_FAKE_IP : option string) (url : string).

(** The host as it is asked, and whether it is an address itself. *)
Definition is_literal (u : Url) : bool := 0 <? isIP (unbracketIpv6Hostname (to_lower (hostname u))).

(** An address the fetcher may connect to. *)
Definition address_allowed (u : Url) (a : string) : Prop :=
  isPublicIpAddress a = true
  \/ (isFakeIpAddress a = true /\ is_literal u = false /\ allowFakeIpClientMetadata env_ALLOW_FAKE_IP = true).

Lemma check_addresses_ok (direct allow : bool) (l : list string) :
  check_addresses direct allow l = Ok tt ->
  Forall (fun a => isPublicIpAddress a = true \/ (isFakeIpAddress a = true /\ direct = false /\ allow = true)) l.
Proof.
  induction l as [|a l IH]; cbn; [by constructor|].
  destruct (isPublicIpAddress a) eqn:Hp; [intros H; constructor; auto|].
  destruct (isFakeIpAddress a) eqn:Hf, direct, allow; cbn; try done. intros H. constructor; auto.
Qed.

(** What a call of the fetcher may be. *)
Definition get_allowed (ev : event call) : Prop :=
  match ev with
  | Ev _ e _ => match e with
                | HttpsGet target a =>
                    target = url /\ exists u, URL_parse url = Some u /\ protocol u = "https:"%string /\ address_allowed u a
                | _ => True
                end
  end.

Definition no_state (s : unit) (_ : event call) : unit := s.
Definition get_check (_ : unit) (ev : event call) : Prop := get_allowed ev.

Lemma pinned_allowed (addresses : list string) (lastError : option exn) :
  Forall (fun a => forall r, get_allowed (Ev _ (HttpsGet url a) r)) addresses ->
  wp no_state get_check (fetchPinnedMetadataDocument url addresses lastError) tt (fun _ _ => True).
Proof.
  revert lastError. induction addresses as [|a l IH]; intros e; [done|].
  intros [Ha Hl]%Forall_cons. cbn [fetchPinnedMetadataDocument]. apply wp_vis. intros r. split; [apply Ha|].
  destruct r; [done|by apply IH].
Qed.

Lemma target_allowed :
  wp no_state get_check (validatePublicNetworkTarget env_ALLOW_FAKE_IP url) tt
    (fun _ r => forall l u, r = Ok (Ok l) -> URL_parse url = Some u -> Forall (address_allowed u) l).
Proof.
  unfold validatePublicNetworkTarget, URL_of. cbn [js_String].
  destruct (URL_parse url) as [u|] eqn:Hu; [|done].
  destruct (_ || _); [done|]. apply wp_bind.
  assert (Hend : forall direct l, direct = is_literal u ->
    wp no_state get_check
      (match l with
      | [] => Ret (Ok (Throw "Client metadata URL host did not resolve"%string))
      | _ => Ret (Ok (match check_addresses direct (allowFakeIpClientMetadata env_ALLOW_FAKE_IP) l with
                      | Ok _ => Ok l | Throw e => Throw e end))
      end : Prog (result string (list string))) tt (fun _ r => forall l u', r = Ok (Ok l) -> Some u = Some u' -> Forall (address_allowed u') l)).
  { intros direct l ->. destruct l as [|a l]; [done|]. cbn [wp]. intros l' u'.
    destruct (check_addresses (is_literal u) (allowFakeIpClientMetadata env_ALLOW_FAKE_IP) (a :: l)) as [[]|] eqn:Hc; [|done]. intros [= <-] [= <-].
    apply check_addresses_ok in Hc. eapply Forall_impl; [exact Hc|]. unfold address_allowed. naive_solver. }
  destruct (0 <? _) eqn:Hd.
  - exact (Hend true [unbracketIpv6Hostname (to_lower (hostname u))] (eq_sym Hd)).
  - cbn -[check_addresses]. intros [l|e]; (split; [done|]); [by apply (Hend false)|done].
Qed.

(** (C0) Whatever DNS and the hosts answer, the only requests made for a
    client's metadata go to the client's own https URL, at addresses that are
    public, or of the fake-IP range if that is allowed and the URL names a
    host. *)
Theorem metadata_requests_public (tr : list (event call)) (r : option MetadataResult) :
  runs (fetchAndValidateClientMetadata env_ALLOW_FAKE_IP url) tr r -> Forall get_allowed tr.
Proof.
  intros Hr. unfold fetchAndValidateClientMetadata, validateClientMetadataUrl in Hr.
  destruct (URL_parse url) as [u|] eqn:Hu; [|by destruct Hr as [-> _]].
  destruct (negb _) eqn:Hp; [by destruct Hr as [-> _]|]. destruct (_ || _); [by destruct Hr as [-> _]|].
  assert (wp no_state get_check (pbind (fetch_document env_ALLOW_FAKE_IP url)
    (fun r => match r with Ok validation => Ret validation
              | Throw error => Ret (invalid ("Error fetching metadata: " +:+ message error)) end)) tt (fun _ _ => True)) as Hwp.
  { apply wp_bind. unfold fetch_document, try_bind. apply wp_bind.
    eapply wp_mono; [apply target_allowed|]. intros [] [[l|e]|e] Hl; [|done..].
    apply wp_bind. eapply wp_mono; [apply pinned_allowed|].
    2: { intros [] [x|x] _; cbn -[read_response]; [by destruct (read_response url x)|done]. }
    eapply Forall_impl; [by apply (Hl l u)|]. intros a Ha res. split; [done|]. exists u.
    split; [done|]. split; [|done]. by apply negb_false_iff, str_eqb_eq in Hp. }
  edestruct wp_runs as [Hall _]; [exact Hwp|exact Hr|].
  apply Forall_forall. intros ev Hev. apply list_elem_of_split in Hev as (pre & post & ->). by eapply Hall.
Qed.

Lemma pinned_answer (addresses : list string) e tr resp :
  runs (fetchPinnedMetadataDocument url addresses e) tr (Some (Ok resp)) ->
  exists a, Ev _ (HttpsGet url a) (Ok resp) ∈ tr.
Proof.
  revert e tr. induction addresses as [|a l IH]; intros e tr; cbn.
  - by intros [_ ?].
  - intros (x & tr' & -> & H). destruct x as [x|x].
    + destruct H as [-> [= ->]]. exists a. apply list_elem_of_here.
    + destruct (IH _ _ H) as [b Hb]. exists b. by apply list_elem_of_further.
Qed.

(** (C0) A metadata document that is accepted is well-formed: the record's
    fields hold what the metadata of a public client may say (redirects to
    https or loopback only, known grant and response types, no secret), its
    client_id is the very URL it was read from, and it was read there. *)
Theorem fetched_metadata_typed (tr : list (event call)) (m : ClientMetadata) :
  runs (fetchAndValidateClientMetadata env_ALLOW_FAKE_IP url) tr (Some (Ok m)) ->
  metadata_ok m /\ md_client_id m = url
  /\ exists a resp, Ev _ (HttpsGet url a) (Ok resp) ∈ tr /\ 200 <= http_status resp < 300.
Proof.
  unfold fetchAndValidateClientMetadata. destruct (validateClientMetadataUrl url) as [[]|]; [|by intros [_ ?]].
  intros (tr1 & [v|e] & tr2 & -> & H1 & H2)%runs_bind_inv; [|by destruct H2 as [_ ?]].
  destruct H2 as [-> [= <-]]. rewrite app_nil_r. unfold fetch_document in H1.
  apply runs_await_inv in H1 as [(? & _ & ?)|(t1 & l & t2 & -> & _ & H1)]; [done|]. destruct l as [l|e]; [|by destruct H1 as [_ [=]]].
  apply runs_await_inv in H1 as [(? & _ & ?)|(t3 & resp & t4 & -> & H3 & H4)]; [done|].
  apply pinned_answer in H3 as [a Ha]. destruct H4 as [-> [= Hread]].
  symmetry in Hread. unfold read_response in Hread.
  do 4 lazymatch type of Hread with (if ?b then _ else _) = _ => destruct b eqn:?; [done|] end.
  destruct (JSON_parse _) as [doc|]; [|done].
  destruct (validateMetadata doc) as [m'|] eqn:Hv; [|done]. destruct (str_eqb _ _) eqn:Hid; [|done].
  injection Hread as ->. apply str_eqb_eq in Hid. split; [by eapply validateMetadata_ok|]. split; [done|].
  exists a, resp. split; [rewrite app_nil_r; apply elem_of_app; by right|]. to_prop. lia.
Qed.
End Fetch.

(** ** An example *)
Section Example.
Local Open Scope string_scope.

Definition ex_url : string := "https://app.example/client.json".
Definition ex_document : json :=
  JObj [("client_id", JStr ex_url); ("client_name", JStr "App");
        ("redirect_uris", JArr [JStr "http://127.0.0.1/cb"]); ("scope", JStr "mcp:tools")].

Definition ex_metadata_answer (X : Type) (e : call X) : X :=
  match e in call X return X with
  | DnsLookup _ => Ok ["93.184.216.34"]
  | HttpsGet _ _ => Ok {| http_status := 200; content_type := Some "application/json"; content_length := None;
                          http_body := default "" (JSON_stringify ex_document) |}
  | e => refuse e
  end.

Definition ex_run := run_with (stateless ex_metadata_answer)
  (fetchAndValidateClientMetadata (P := toy_platform) None ex_url) tt.
End Example.

Lemma metadata_requests_public_witness :
  length (fst (fst ex_run)) = 2%nat /\ Forall (get_allowed (P := toy_platform) None ex_url) (fst (fst ex_run)).
Proof.
  split; [vm_compute; reflexivity|].
  apply (metadata_requests_public (P := toy_platform) None ex_url _ (snd (fst ex_run))).
  apply run_with_runs.
Defined.

Lemma fetched_metadata_typed_witness :
  exists m, snd (fst ex_run) = Some (Ok m) /\ metadata_ok (P := toy_platform) m /\ md_client_id m = ex_url.
Proof.
  destruct (snd (fst ex_run)) as [[m|e]|] eqn:Hm; [|by vm_compute in Hm..].
  exists m. split; [done|].
  assert (runs (fetchAndValidateClientMetadata (P := toy_platform) None ex_url) (fst (fst ex_run)) (Some (Ok m))) as Hr.
  { apply run_with_result. exact Hm. }
  destruct (fetched_metadata_typed (P := toy_platform) None ex_url _ m Hr) as (H1 & H2 & _). by split.
Defined.
