(* ===== verification/OAuthClients.v ===== *)
(** * OAuth: registered clients

    [src/src/oauth/services/OAuthClientService.ts] and
    [src/src/oauth/controllers/OAuthClientController.ts]: registration (of
    clients that send their metadata and of clients named by the URL of a
    metadata document), look-up by issuer, update, deletion and the checking
    of client credentials.  Log lines are left out. *)
From Stdlib Require Import Ascii ZArith Lia.
From stdpp Require Import base strings list.
From S2P Require Import Prelude Json JsMap WebPlatform OAuthService OAuthDesk ClientMetadata Effects.
Open Scope Z_scope.

(** [OAuthClientInformation] *)
Record ClientInformation : Type := {
  ci_client_id : string;
  ci_issuer : string;
  ci_client_secret : option string;
  ci_client_name : string;
  ci_application_type : string;
  ci_redirect_uris : list string;
  ci_grant_types : list string;
  ci_response_types : list string;
  ci_scopes : list string;
  ci_auth_method : string;
  ci_trusted : bool;
  ci_created_at : Z;
  ci_updated_at : Z
}.

Definition information (c : OAuthClient) (secret : option string) : ClientInformation := {|
  ci_client_id := clientId c; ci_issuer := issuer c; ci_client_secret := secret; ci_client_name := client_name c;
  ci_application_type := applicationType c; ci_redirect_uris := redirectUris c; ci_grant_types := grantTypes c;
  ci_response_types := responseTypes c; ci_scopes := scopes c; ci_auth_method := tokenEndpointAuthMethod c;
  ci_trusted := trusted c; ci_created_at := createdAt c; ci_updated_at := updatedAt c
|}.

(** [client.clientSecret || undefined] *)
Definition secret_of (c : OAuthClient) : option string :=
  match clientSecret c with Some s => if truthy_str s then Some s else None | None => None end.

Definition toClientInformation (client : option OAuthClient) : option ClientInformation :=
  (fun c => information c (secret_of c)) <$> client.

Definition metadata_error {A} (description : string) : result exn A :=
  Throw (Error ("invalid_client_metadata: " +:+ description)).

(** The strings of an array that was found to hold strings only. *)
Definition strings_of (v : json) : list string :=
  match v with JArr l => omap string_field l | _ => [] end.

(** [v || d] for an array *)
Definition strings_or (v : json) (d : list string) : list string := if js_truthy v then strings_of v else d.

(** [v || d] for a string *)
Definition string_or (v : json) (d : string) : string :=
  match v with JStr s => if truthy_str s then s else d | _ => d end.

Section Clients.
Context `{P : Platform}.

(** ** Validation *)

Definition validateApplicationType (applicationType : json) : result exn unit :=
  match applicationType with
  | JUndefined => Ok tt
  | v => if json_eqb v (JStr "web") || json_eqb v (JStr "native") then Ok tt
         else metadata_error ("Unsupported application_type: " +:+ js_String v)
  end.

(** A redirect URI that may be registered. *)
Definition redirect_registrable (u : Url) : bool :=
  str_eqb (protocol u) "https:" || str_eqb (hostname u) "localhost" || str_eqb (hostname u) "127.0.0.1"
  || str_eqb (hostname u) "[::1]".

Fixpoint validate_redirects (uris : list json) : result exn unit :=
  match uris with
  | [] => Ok tt
  | JStr (String _ _ as uri) :: rest =>
      match URL_parse uri with
      | Some parsed => if redirect_registrable parsed then validate_redirects rest
                       else Throw (Error ("invalid_redirect_uri: Invalid redirect_uri: " +:+ uri))
      | None => Throw (Error ("invalid_redirect_uri: Invalid redirect_uri: " +:+ uri))
      end
  | _ :: _ => metadata_error "redirect_uris must contain only non-empty strings"
  end.

Definition validateStringArray (value : json) (field : string) : result exn (list string) :=
  match value with
  | JUndefined => Ok []
  | JArr l => match all_strings l with
              | Some ss => Ok ss
              | None => metadata_error (field +:+ " must contain only non-empty strings")
              end
  | _ => metadata_error (field +:+ " must be an array")
  end.

Definition validate_redirect_field (v : json) (partial : bool) : result exn unit :=
  if negb partial || negb (json_eqb v JUndefined)
  then match v with
       | JArr (_ :: _ as uris) => validate_redirects uris
       | _ => metadata_error "redirect_uris must be a non-empty array"
       end
  else Ok tt.

Definition auth_methods : list string := ["client_secret_basic"; "client_secret_post"; "none"]%string.

Definition validateClientMetadata (metadata : json) (partial : bool) : result exn unit :=
  match jfield metadata "application_type" with
  | None => Throw TypeError
  | Some applicationType =>
      ok! _at := validateApplicationType applicationType in
      ok! _ru := validate_redirect_field (jfield_opt metadata "redirect_uris") partial in
      ok! grantTypes := validateStringArray (jfield_opt metadata "grant_types") "grant_types" in
      match unsupported ["authorization_code"; "refresh_token"]%string grantTypes with
      | _ :: _ as bad => metadata_error ("Unsupported grant_types: " +:+ str_join ", " bad)
      | [] =>
          ok! responseTypes := validateStringArray (jfield_opt metadata "response_types") "response_types" in
          match unsupported ["code"%string] responseTypes with
          | _ :: _ as bad => metadata_error ("Unsupported response_types: " +:+ str_join ", " bad)
          | [] =>
              let authMethod := jfield_opt metadata "token_endpoint_auth_method" in
              if negb (json_eqb authMethod JUndefined) && negb (json_includes auth_methods authMethod)
              then metadata_error ("Unsupported token_endpoint_auth_method: " +:+ js_String authMethod)
              else Ok tt
          end
      end
  end.

(** ** Registration *)

Variable env_ALLOW_FAKE_IP : option string.

Definition scopesForUrlBasedClient (m : ClientMetadata) : result exn (list string) :=
  match md_scope m with
  | Some s => parseScope (JStr s)
  | None => Ok MCP_OAUTH_SCOPES
  end.

Definition isLegacyUrlBasedDefaultScopes (l : list string) : bool := bool_decide (l = ["mcp:tools"%string]).

Definition no_update : ClientUpdate :=
  {| cu_name := None; cu_redirectUris := None; cu_scopes := None; cu_grantTypes := None; cu_responseTypes := None;
     cu_applicationType := None |}.

Definition reconcileUrlBasedClientScopes (client : OAuthClient) (m : ClientMetadata) : Prog OAuthClient :=
  match md_scope m with
  | Some _ => lift (Ok client)
  | None =>
      if negb (isLegacyUrlBasedDefaultScopes (scopes client)) then lift (Ok client)
      else query (UpdateClient (clientId client)
             {| cu_name := None; cu_redirectUris := None; cu_scopes := Some MCP_OAUTH_SCOPES; cu_grantTypes := None;
                cu_responseTypes := None; cu_applicationType := None |})
  end.

Definition default_grants : list string := ["authorization_code"; "refresh_token"]%string.

Definition register_url_client (url : string) (userId : option string) (issuer : string) : Prog ClientInformation :=
  bind! validation := fetchAndValidateClientMetadata env_ALLOW_FAKE_IP url in
  match validation with
  | Throw (error, description) => lift (Throw (Error (error +:+ ": " +:+ description)))
  | Ok fetched =>
      await! existing := query (FindFirstClient (JStr url) issuer) in
      match existing with
      | Some client =>
          await! reconciled := reconcileUrlBasedClientScopes client fetched in
          lift (Ok (information reconciled None))
      | None =>
          await! other := query (FindUniqueClient (JStr url)) in
          match other with
          | Some _ => lift (metadata_error "client_id is already registered for a different issuer")
          | None =>
              await! client_scopes := lift (scopesForUrlBasedClient fetched) in
              await! client := query (CreateClient {|
                cd_clientId := url; cd_issuer := issuer; cd_clientSecret := None;
                cd_applicationType := default "web"%string (md_application_type fetched);
                cd_name := JStr (if truthy_str (md_client_name fetched) then md_client_name fetched
                                 else "URL Client " +:+ url);
                cd_redirectUris := md_redirect_uris fetched;
                cd_grantTypes := default default_grants (md_grant_types fetched);
                cd_responseTypes := default ["code"%string] (md_response_types fetched);
                cd_scopes := client_scopes; cd_authMethod := default "none"%string (md_auth_method fetched);
                cd_userId := userId |}) in
              lift (Ok (information client None))
          end
      end
  end.

Definition register_plain_client (metadata : json) (userId : option string) (issuer : string)
    : Prog ClientInformation :=
  await! _valid := lift (validateClientMetadata metadata false) in
  let field := jfield_opt metadata in
  let authMethod := string_or (field "token_endpoint_auth_method"%string) "client_secret_post" in
  await! client_scopes := lift (parseScope (field "scope"%string)) in
  call! clientId := RandomBytes 16 in
  bind! secret := (if str_eqb authMethod "none" then Ret None
                   else call! s := RandomBytes 32 in Ret (Some s)) in
  await! client := query (CreateClient {|
    cd_clientId := clientId; cd_issuer := issuer; cd_clientSecret := secret;
    cd_applicationType := string_or (field "application_type"%string) "web";
    cd_name := if js_truthy (field "client_name"%string) then field "client_name"%string
               else JStr ("Client " +:+ clientId);
    cd_redirectUris := strings_of (field "redirect_uris"%string);
    cd_grantTypes := strings_or (field "grant_types"%string) default_grants;
    cd_responseTypes := strings_or (field "response_types"%string) ["code"%string];
    cd_scopes := client_scopes; cd_authMethod := authMethod; cd_userId := userId |}) in
  lift (Ok (information client secret)).

Definition registerClient (metadata : json) (userId : option string) (issuer : string) : Prog ClientInformation :=
  match jfield metadata "client_id" with
  | None => lift (Throw TypeError)
  | Some (JStr id) => if starts_with "https://" id then register_url_client id userId issuer
                      else register_plain_client metadata userId issuer
  | Some _ => register_plain_client metadata userId issuer
  end.

(** ** Look-up and credentials *)

Definition getClient (clientId : json) : Prog (option ClientInformation) :=
  await! client := query (FindUniqueClient clientId) in
  lift (Ok (toClientInformation client)).

Definition getClientForIssuer (clientId : json) (issuer : string) : Prog (option ClientInformation) :=
  await! client := query (FindFirstClient clientId issuer) in
  match client with
  | Some _ => lift (Ok (toClientInformation client))
  | None =>
      if str_eqb issuer "default" then lift (Ok (toClientInformation client)) else
      await! legacyClient := query (FindFirstClient clientId "default") in
      lift (Ok (toClientInformation legacyClient))
  end.

Definition service_verifyClientCredentials (clientId clientSecret : json) (issuer : option string) : Prog bool :=
  await! client := (match issuer with
                    | Some i => if truthy_str i then getClientForIssuer clientId i else getClient clientId
                    | None => getClient clientId
                    end) in
  match client with
  | None => lift (Ok false)
  | Some c => if str_eqb (ci_auth_method c) "none" then lift (Ok true)
              else lift (Ok (verifyClientCredentials clientSecret (ci_client_secret c)))
  end.

(** ** Administration *)

Definition listClients (userId : option string) : Prog (list ClientInformation) :=
  await! clients := query (FindManyClients (if truthy_ostr userId then userId else None)) in
  lift (Ok (map (fun c => information c None) clients)).

(** [if (v) data.k = v] *)
Definition when_truthy {A} (v : json) (a : A) : option A := if js_truthy v then Some a else None.

Definition updateClient (id : string) (updates : json) : Prog (option ClientInformation) :=
  await! _valid := lift (validateClientMetadata updates true) in
  await! client := query (FindUniqueClient (JStr id)) in
  match client with
  | Some _ =>
      let field := jfield_opt updates in
      await! scopes := lift (if js_truthy (field "scope"%string)
                             then match parseScope (field "scope"%string) with
                                  | Ok l => Ok (Some l) | Throw e => Throw e end
                             else Ok None) in
      await! _type := lift (if js_truthy (field "application_type"%string)
                            then validateApplicationType (field "application_type"%string) else Ok tt) in
      await! updated := query (UpdateClient id {|
        cu_name := when_truthy (field "client_name"%string) (field "client_name"%string);
        cu_redirectUris := when_truthy (field "redirect_uris"%string) (strings_of (field "redirect_uris"%string));
        cu_scopes := scopes;
        cu_grantTypes := when_truthy (field "grant_types"%string) (strings_of (field "grant_types"%string));
        cu_responseTypes := when_truthy (field "response_types"%string) (strings_of (field "response_types"%string));
        cu_applicationType := when_truthy (field "application_type"%string)
                                (string_or (field "application_type"%string) "") |}) in
      lift (Ok (Some (information updated None)))
  | None => lift (Ok None)
  end.

Definition deleteClient (clientId : string) : prog call bool :=
  call! r := DeleteClient clientId in
  Ret (is_ok r).
End Clients.

(** ** The administration endpoints: [OAuthClientController] *)

Definition ostr (o : option string) : json := match o with Some s => JStr s | None => JUndefined end.

Definition information_json (c : ClientInformation) : json :=
  JObj [("client_id", JStr (ci_client_id c)); ("issuer", JStr (ci_issuer c));
        ("client_secret", ostr (ci_client_secret c)); ("client_name", JStr (ci_client_name c));
        ("application_type", JStr (ci_application_type c)); ("redirect_uris", strings_json (ci_redirect_uris c));
        ("grant_types", strings_json (ci_grant_types c)); ("response_types", strings_json (ci_response_types c));
        ("scopes", strings_json (ci_scopes c)); ("token_endpoint_auth_method", JStr (ci_auth_method c));
        ("trusted", JBool (ci_trusted c)); ("created_at", JStr (toISOString (ci_created_at c)));
        ("updated_at", JStr (toISOString (ci_updated_at c)))]%string.

(** [message.slice(0, i)] and [message.slice(i + 2)] at the first colon. *)
Definition colonErrorCode (e : exn) : string :=
  match index_of ": " (message e) with Some n => str_take n (message e) | None => message e end.
Definition colonErrorDescription (e : exn) : string :=
  match index_of ": " (message e) with Some n => str_drop (n + 2) (message e) | None => message e end.

Definition isClientMetadataError (e : exn) : bool :=
  starts_with "invalid_client_metadata:" (message e) || starts_with "invalid_redirect_uri:" (message e).

Definition error_json (error description : string) : json :=
  JObj [("error", JStr error); ("error_description", JStr description)]%string.

Definition metadata_refusal (e : exn) : reply := Json 400 (error_json (colonErrorCode e) (colonErrorDescription e)).

Definition admin_error (status : Z) (error : string) : reply := Json status (JObj [("error"%string, JStr error)]).

Definition admin_listClients : prog call reply :=
  bind! r := listClients None in
  Ret (match r with
       | Ok clients => Json 200 (JObj [("clients"%string, JArr (map information_json clients))])
       | Throw _ => admin_error 500 "Internal server error"
       end).

Definition found_client (r : result exn (option ClientInformation)) : reply :=
  match r with
  | Ok (Some c) => Json 200 (information_json c)
  | Ok None => admin_error 404 "Client not found"
  | Throw e => if isClientMetadataError e then metadata_refusal e else admin_error 500 "Internal server error"
  end.

Definition admin_getClient (clientId : string) : prog call reply :=
  bind! r := getClient (JStr clientId) in
  Ret (match r with Throw _ => admin_error 500 "Internal server error" | r => found_client r end).

Definition admin_updateClient `{P : Platform} (clientId : string) (updates : json) : prog call reply :=
  bind! r := updateClient clientId updates in Ret (found_client r).

Definition admin_deleteClient (clientId : string) : prog call reply :=
  bind! success := deleteClient clientId in
  Ret (if success then Json 200 (JObj [("message", JStr "Client deleted successfully")]%string)
       else admin_error 404 "Client not found or failed to delete").
