(* ===== verification/OAuthController.v ===== *)
(** * OAuth: the endpoints

    [src/src/oauth/controllers/OAuthController.ts] and
    [src/src/oauth/controllers/OAuthMetadataController.ts].  Every handler is a
    program over the calls of [OAuthDesk]; a reply sent early ends it.  The
    form-encoded and the JSON body of a request are read alike, as the code
    does. *)
From Stdlib Require Import Ascii ZArith Lia.
From stdpp Require Import base strings list.
From S2P Require Import Prelude Json JsMap WebPlatform OAuthService OAuthDesk TokenValidators ClientMetadata OAuthClients Effects.
Open Scope Z_scope.

Record HttpRequest : Type := {
  urls : Request;
  authorization : option string;
  body : json;
  query_params : json
}.

(** Why a handler ends before its last line: it has replied, or something was
    thrown. *)
Inductive stop : Type := Replied (r : reply) | Thrown (e : exn).

Definition Handler (A : Type) : Type := prog call (result stop A).

Definition refuse_with {A} (status : Z) (error description : string) : Handler A :=
  Ret (Throw (Replied (Json status (error_json error description)))).
Definition from {A} (p : Prog A) : Handler A :=
  pbind p (fun r => Ret (match r with Ok a => Ok a | Throw e => Throw (Thrown e) end)).

(** [try { h } catch (e) { onError(e) }] around a handler *)
Definition catching (h : Handler reply) (onError : exn -> prog call reply) : prog call reply :=
  bind! r := h in
  match r with
  | Ok reply | Throw (Replied reply) => Ret reply
  | Throw (Thrown e) => onError e
  end.

Definition server_error (_ : exn) : prog call reply :=
  Ret (Json 500 (error_json "server_error" "Internal server error")).

Definition normalizeOptionalString (v : json) : json :=
  match v with JStr (String _ _) => v | _ => JUndefined end.
Definition normalizeRequiredString (v : json) : string := match v with JStr s => s | _ => "" end.

Definition hasS256PKCE (codeChallenge codeChallengeMethod : json) : bool :=
  match codeChallenge with JStr (String _ _) => json_eqb codeChallengeMethod (JStr "S256") | _ => false end.

Fixpoint escapeHtml (str : string) : string :=
  match str with
  | EmptyString => ""
  | String c s =>
      (if bool_decide (c = "&"%char) then "&amp;"
       else if bool_decide (c = "<"%char) then "&lt;"
       else if bool_decide (c = ">"%char) then "&gt;"
       else if bool_decide (c = dquote) then "&quot;"
       else if bool_decide (c = "'"%char) then "&#39;"
       else String c "") +:+ escapeHtml s
  end.

Definition isAuthorizationEndpointError (e : exn) : bool :=
  starts_with "invalid_client:" (message e) || starts_with "unsupported_response_type:" (message e)
  || starts_with "invalid_request:" (message e).

(** ** Client authentication *)

Section Controller.
Context `{P : Platform}.
Variable env_ALLOW_FAKE_IP : option string.

(** The credentials of the body, or those of a Basic header. *)
Definition client_credentials (req : HttpRequest) (b : json) : json * json :=
  let basicAuth := h ← authorization req; if truthy_str h then parseBasicAuth h else None in
  match basicAuth with
  | Some (i, s) => (JStr i, JStr s)
  | None => (jfield_opt b "client_id", jfield_opt b "client_secret")
  end.

Definition issuer_of (req : HttpRequest) : Handler string := from (lift (getAuthorizationServerUrl (urls req))).

Definition find_client (clientId : json) (issuer : string) : Handler ClientInformation :=
  await! client := from (getClientForIssuer clientId issuer) in
  match client with
  | Some c => Ret (Ok c)
  | None => refuse_with 401 "invalid_client" "Client not found"
  end.

Definition authenticate_client (clientId clientSecret : json) (issuer : string) (client : ClientInformation)
    : Handler unit :=
  if str_eqb (ci_auth_method client) "none" then Ret (Ok tt) else
  if negb (js_truthy clientSecret)
  then refuse_with 401 "invalid_client" "client_secret is required for confidential clients" else
  await! validClient := from (service_verifyClientCredentials clientId clientSecret (Some issuer)) in
  if validClient then Ret (Ok tt) else refuse_with 401 "invalid_client" "Invalid client credentials".

(** The client of a grant, which must be registered for it. *)
Definition grant_client (req : HttpRequest) (b : json) (grant : string) : Handler (json * ClientInformation) :=
  let '(clientId, clientSecret) := client_credentials req b in
  if negb (js_truthy clientId) then refuse_with 401 "invalid_client" "client_id is required" else
  await! issuer := issuer_of req in
  await! client := find_client clientId issuer in
  if negb (list_includes (ci_grant_types client) grant)
  then refuse_with 400 "unauthorized_client" ("Client is not registered for " +:+ grant +:+ " grant") else
  await! _auth := authenticate_client clientId clientSecret issuer client in
  Ret (Ok (clientId, client)).

(** The client of a request that need not name one. *)
Definition optional_client (req : HttpRequest) (b : json) : Handler json :=
  let '(clientId, clientSecret) := client_credentials req b in
  if negb (js_truthy clientId) then Ret (Ok clientId) else
  await! issuer := issuer_of req in
  await! client := find_client clientId issuer in
  await! _auth := authenticate_client clientId clientSecret issuer client in
  Ret (Ok clientId).

(** ** The token endpoint *)

Definition get_now : Handler Z := call! t := Now in Ret (Ok t).

Definition invalid_grant {A} (description : string) : Handler A := refuse_with 400 "invalid_grant" description.

(** The checks on a code before it is claimed. *)
Definition check_code (b clientId : json) (authCode : OAuthAuthorizationCode) : Handler unit :=
  if used authCode then invalid_grant "Authorization code has been used" else
  await! now := get_now in
  if code_expiresAt authCode <? now then invalid_grant "Authorization code has expired" else
  if negb (js_strict_eq (JStr (code_clientId authCode)) clientId)
  then invalid_grant "Authorization code was issued to another client" else
  if negb (js_strict_eq (JStr (redirectUri authCode)) (jfield_opt b "redirect_uri"))
  then invalid_grant "redirect_uri mismatch" else
  let code_verifier := jfield_opt b "code_verifier" in
  match codeChallenge authCode with
  | Some (String _ _ as challenge) =>
      if negb (bool_decide (challengeMethod authCode = Some "S256"%string)) || negb (js_truthy code_verifier)
      then invalid_grant "S256 PKCE code_verifier is required" else
      match code_verifier with
      | JStr verifier => if verifyPKCEChallenge verifier challenge then Ret (Ok tt)
                         else invalid_grant "Invalid code_verifier"
      | _ => Ret (Throw (Thrown TypeError))
      end
  | _ => invalid_grant "S256 PKCE code_verifier is required"
  end.

Definition resource_field (resource : option string) : list (string * json) :=
  match resource with
  | Some r => if truthy_str r then [("resource"%string, JStr r)] else []
  | None => []
  end.

Definition token_json (access : string) (refresh : option json) (scopes : list string) (resource : option string)
    : json :=
  JObj ([("access_token", JStr access); ("token_type", JStr "Bearer"); ("expires_in", JNum ACCESS_TOKEN_LIFETIME)]%string
        ++ match refresh with Some r => [("refresh_token"%string, r)] | None => [] end
        ++ [("scope"%string, JStr (str_join " " scopes))] ++ resource_field resource).

(** The tokens of a claimed code. *)
Definition issue_tokens (client : ClientInformation) (authCode : OAuthAuthorizationCode) : Handler reply :=
  await! now := get_now in
  await! access := from (lift (generateAccessToken (code_clientId authCode) (code_userId authCode)
                                 (code_scopes authCode) (code_resource authCode) now)) in
  let issueRefreshToken := list_includes (ci_grant_types client) "refresh_token" in
  bind! refresh := (if issueRefreshToken then call! r := RandomBytes 64 in Ret (Some r) else Ret None) in
  await! now1 := get_now in
  await! now2 := get_now in
  await! _row := from (query (CreateToken {|
    nt_accessToken := access; nt_refreshToken := refresh; nt_clientId := code_clientId authCode;
    nt_userId := code_userId authCode; nt_scopes := code_scopes authCode; nt_resource := code_resource authCode;
    nt_accessTokenExpiresAt := now1 + ACCESS_TOKEN_LIFETIME * 1000;
    nt_refreshTokenExpiresAt := if issueRefreshToken then Some (now2 + REFRESH_TOKEN_LIFETIME * 1000) else None |})) in
  Ret (Ok (Json 200 (token_json access (match refresh with
                                        | Some r => if truthy_str r then Some (JStr r) else None
                                        | None => None
                                        end) (code_scopes authCode) (code_resource authCode)))).

Definition handleAuthorizationCodeGrant (req : HttpRequest) (b : json) : Handler reply :=
  let code := jfield_opt b "code" in
  if negb (js_truthy code) || negb (js_truthy (jfield_opt b "redirect_uri"))
  then refuse_with 400 "invalid_request" "code and redirect_uri are required" else
  await! identified := grant_client req b "authorization_code" in
  let '(clientId, client) := identified in
  await! found := from (query (FindCode code)) in
  match found with
  | None => invalid_grant "Invalid authorization code"
  | Some authCode =>
      await! _valid := check_code b clientId authCode in
      await! now := get_now in
      await! count := from (query (ClaimCode code now)) in
      if negb (count =? 1) then invalid_grant "Authorization code has already been used or expired"
      else issue_tokens client authCode
  end.

(** The scopes of a refreshed token. *)
Definition refreshed_scopes (scope : json) (token : OAuthToken) : Handler (list string) :=
  if js_truthy scope then
    await! requestedScopes := from (lift (parseScope scope)) in
    if isScopeSubset requestedScopes (token_scopes token) then Ret (Ok requestedScopes)
    else refuse_with 400 "invalid_scope" "Requested scope exceeds original grant"
  else Ret (Ok (token_scopes token)).

(** The checks on a refresh token's row. *)
Definition check_refresh (clientId : json) (token : OAuthToken) : Handler unit :=
  if revoked token then invalid_grant "Token has been revoked" else
  await! _fresh := (match refreshTokenExpiresAt token with
                    | Some e => await! now := get_now in
                                if e <? now then invalid_grant "Refresh token has expired" else Ret (Ok tt)
                    | None => Ret (Ok tt)
                    end) in
  if negb (js_strict_eq (JStr (token_clientId token)) clientId)
  then invalid_grant "Refresh token was issued to another client" else Ret (Ok tt).

Definition handleRefreshTokenGrant (req : HttpRequest) (b : json) : Handler reply :=
  let refresh_token := jfield_opt b "refresh_token" in
  if negb (js_truthy refresh_token)
  then refuse_with 400 "invalid_request" "refresh_token is required" else
  await! identified := grant_client req b "refresh_token" in
  let clientId := fst identified in
  await! found := from (query (FindTokenByRefresh refresh_token)) in
  match found with
  | None => invalid_grant "Invalid refresh token"
  | Some token =>
      await! _valid := check_refresh clientId token in
      await! newScopes := refreshed_scopes (jfield_opt b "scope") token in
      await! now := get_now in
      await! newAccessToken := from (lift (generateAccessToken (token_clientId token) (token_userId token) newScopes
                                             (token_resource token) now)) in
      await! now1 := get_now in
      await! _row := from (query (UpdateToken (tokenId token) newAccessToken
                                    (now1 + ACCESS_TOKEN_LIFETIME * 1000) newScopes)) in
      Ret (Ok (Json 200 (token_json newAccessToken (Some refresh_token) newScopes (token_resource token))))
  end.

Definition token (req : HttpRequest) : prog call reply :=
  catching
    (match jfield (body req) "grant_type" with
     | None => Ret (Throw (Thrown TypeError))
     | Some grant_type =>
         if negb (js_truthy grant_type)
         then refuse_with 400 "unsupported_grant_type" "grant_type is required"
         else if js_strict_eq grant_type (JStr "authorization_code") then handleAuthorizationCodeGrant req (body req)
         else if js_strict_eq grant_type (JStr "refresh_token") then handleRefreshTokenGrant req (body req)
         else refuse_with 400 "unsupported_grant_type" ("Grant type " +:+ js_String grant_type +:+ " is not supported")
     end) server_error.

(** ** Revocation and introspection *)

(** [hint === name || !hint] *)
Definition hinted (hint : json) (name : string) : bool := js_strict_eq hint (JStr name) || negb (js_truthy hint).

Definition find_token (token hint : json) : Handler (option OAuthToken) :=
  await! byRefresh := (if hinted hint "refresh_token" then from (query (FindTokenByRefresh token)) else Ret (Ok None)) in
  match byRefresh with
  | Some t => Ret (Ok (Some t))
  | None => if hinted hint "access_token" then from (query (FindTokenByAccess token)) else Ret (Ok None)
  end.

Definition empty_json : reply := Json 200 (JObj []).

Definition revoke (req : HttpRequest) : prog call reply :=
  catching
    (match jfield (body req) "token" with
     | None => Ret (Throw (Thrown TypeError))
     | Some token =>
         if negb (js_truthy token) then refuse_with 400 "invalid_request" "token is required" else
         await! clientId := optional_client req (body req) in
         await! tokenRecord := find_token token (jfield_opt (body req) "token_type_hint") in
         match tokenRecord with
         | None => Ret (Ok empty_json)
         | Some row =>
             if js_truthy clientId && negb (js_strict_eq (JStr (token_clientId row)) clientId)
             then Ret (Ok empty_json) else
             await! _row := from (query (RevokeToken (tokenId row))) in
             Ret (Ok empty_json)
         end
     end) server_error.

Definition inactive : reply := Json 200 (JObj [("active"%string, JBool false)]).

(** The claims of an active token. *)
Definition active_json (payload : json) : json :=
  let claim := jfield_opt payload in
  JObj ([("active", JBool true); ("client_id", claim "client_id"); ("sub", claim "user_id");
         ("scope", match claim "scopes" with
                   | JArr l => JStr (str_join " " (map (fun v => match v with
                                                               | JUndefined | JNull => ""
                                                               | v => js_String v
                                                               end) l))
                   | _ => JUndefined
                   end);
         ("exp", claim "exp"); ("iat", claim "iat")]%string
        ++ if js_truthy (claim "aud"%string) then [("aud"%string, claim "aud"%string)] else []).

Definition introspect (req : HttpRequest) : prog call reply :=
  catching
    (let b := if js_truthy (body req) then body req else JObj [] in
     match jfield_opt b "token" with
     | JStr (String _ _ as token) =>
         await! clientId := optional_client req b in
         let hint := jfield_opt b "token_type_hint" in
         if js_truthy hint && negb (js_strict_eq hint (JStr "access_token")) then Ret (Ok inactive) else
         bind! validation := oauth_validateToken token None in
         match validation with
         | Throw _ => Ret (Ok inactive)
         | Ok ctx =>
             if js_truthy clientId && negb (js_strict_eq (ctx_oauthClientId ctx) clientId) then Ret (Ok inactive) else
             await! now := get_now in
             match verifyAccessToken token now with
             | Throw _ => Ret (Ok inactive)
             | Ok payload => if js_truthy payload then Ret (Ok (Json 200 (active_json payload))) else Ret (Ok inactive)
             end
         end
     | _ => refuse_with 400 "invalid_request" "token is required"
     end) server_error.

(** ** Registration and metadata endpoints *)

Definition is_url_client_id (v : json) : bool := match v with JStr s => starts_with "https://" s | _ => false end.

Definition register (req : HttpRequest) : prog call reply :=
  catching
    (match jfield (body req) "client_id" with
     | None => Ret (Throw (Thrown TypeError))
     | Some client_id =>
         let redirect_uris := jfield_opt (body req) "redirect_uris" in
         if negb (is_url_client_id client_id)
            && negb (match redirect_uris with JArr _ => true | _ => false end)
         then refuse_with 400 "invalid_client_metadata" "redirect_uris is required and must be an array" else
         await! issuer := issuer_of req in
         await! clientInfo := from (registerClient env_ALLOW_FAKE_IP (body req) None issuer) in
         Ret (Ok (Json 200 (information_json clientInfo)))
     end)
    (fun e => if isClientMetadataError e then Ret (metadata_refusal e) else server_error e).

Definition getClientInfo (req : HttpRequest) (clientId : string) : prog call reply :=
  catching
    (await! issuer := issuer_of req in
     await! client := from (getClientForIssuer (JStr clientId) issuer) in
     match client with
     | None => refuse_with 404 "not_found" "Client not found"
     | Some c =>
         Ret (Ok (Json 200 (JObj [("client_id", JStr (ci_client_id c)); ("issuer", JStr (ci_issuer c));
           ("client_name", JStr (ci_client_name c)); ("application_type", JStr (ci_application_type c));
           ("redirect_uris", strings_json (ci_redirect_uris c)); ("scopes", strings_json (ci_scopes c))]%string)))
     end) server_error.

Definition metadata_error_reply : reply := Json 500 (JObj [("error", JStr "Internal server error")]%string).

Definition authorizationServerMetadata (req : HttpRequest) : reply :=
  match getAuthorizationServerUrl (urls req) with
  | Ok url => Json 200 (generateAuthorizationServerMetadata url)
  | Throw _ => metadata_error_reply
  end.

Definition protectedResourceMetadata (req : HttpRequest) : reply :=
  match getPublicUrl (urls req), getAuthorizationServerUrl (urls req) with
  | Ok gatewayUrl, Ok authorizationServerUrl =>
      let resourceUrl := if ends_with "/mcp" gatewayUrl then gatewayUrl else (gatewayUrl +:+ "/mcp")%string in
      Json 200 (generateProtectedResourceMetadata resourceUrl authorizationServerUrl)
  | _, _ => metadata_error_reply
  end.
End Controller.
