(* ===== verification/OAuthAuthorize.v ===== *)
(** * OAuth: the authorization endpoint

    The consent page, the user's decision and the flows completed from the
    desktop application, of [src/src/oauth/controllers/OAuthController.ts]. *)
From Stdlib Require Import Ascii ZArith Lia.
From stdpp Require Import base strings list.
From S2P Require Import Prelude Json JsMap WebPlatform OAuthService OAuthDesk TokenValidators ClientMetadata OAuthClients OAuthController Effects.
Open Scope Z_scope.

(** ** The consent page *)

(** [text.replace(pattern, replacement)] for a string pattern: the first
    occurrence, with the [$] patterns of the replacement expanded. *)
Fixpoint expand (replacement before matched after : string) : string :=
  match replacement with
  | EmptyString => ""
  | String c rest =>
      if bool_decide (c = "$"%char) then
        match rest with
        | String d rest' =>
            if bool_decide (d = "$"%char) then String "$" (expand rest' before matched after)
            else if bool_decide (d = "&"%char) then matched +:+ expand rest' before matched after
            else if bool_decide (d = "`"%char) then before +:+ expand rest' before matched after
            else if bool_decide (d = "'"%char) then after +:+ expand rest' before matched after
            else String c (expand rest before matched after)
        | EmptyString => "$"
        end
      else String c (expand rest before matched after)
  end.

Definition replace_first (pattern replacement text : string) : string :=
  match index_of pattern text with
  | Some n =>
      let before := str_take n text in
      let after := str_drop (n + String.length pattern) text in
      before +:+ expand replacement before pattern after +:+ after
  | None => text
  end.

(** [.replace(/c/g, r)] *)
Fixpoint replace_char (c : ascii) (r : string) (s : string) : string :=
  match s with
  | EmptyString => ""
  | String a s' => if bool_decide (a = c) then r +:+ replace_char c r s' else String a (replace_char c r s')
  end.

(** [JSON.stringify(undefined)] has no [slice]. *)
Definition jsEscape (val : json) : result exn string :=
  match JSON_stringify val with
  | Some t =>
      let inner := str_take (String.length t - 2) (str_drop 1 t) in
      Ok (replace_char "&" "\u0026" (replace_char ">" "\u003E" (replace_char "<" "\u003C" inner)))
  | None => Throw TypeError
  end.

(** The descriptions by scope (its own entries). *)
Definition scopeDescriptions : list (string * string) :=
  [("mcp:tools", "Execute MCP tools and functions"); ("mcp:resources", "Access MCP resources and data");
   ("mcp:prompts", "Use MCP prompt templates")]%string.

(** The mark before each scope, in UTF-8. *)
Definition check_mark : string := String (ascii_of_nat 226) (String (ascii_of_nat 156) (String (ascii_of_nat 147) "")).

Definition scopeListHtml (scopes : list string) : string :=
  str_join "" (map (fun s => "<li><span class=" +:+ quote "scope-icon" +:+ ">" +:+ check_mark +:+ "</span>"
                             +:+ escapeHtml (default s (assoc s scopeDescriptions)) +:+ "</li>") scopes).

(** [v || ''] *)
Definition or_empty (v : json) : json := if js_truthy v then v else JStr "".

(** The replacements made in the template, in order. *)
Fixpoint fill (replacements : list (string * result exn string)) (html : string) : result exn string :=
  match replacements with
  | [] => Ok html
  | (pattern, Ok value) :: rest => fill rest (replace_first pattern value html)
  | (_, Throw e) :: _ => Throw e
  end.

Section Authorize.
Context `{P : Platform}.
Variable env_ALLOW_FAKE_IP : option string.

Definition getAuthorizationClient (clientId : json) (issuer : string) : Prog (option ClientInformation) :=
  match clientId with
  | JStr id =>
      if starts_with "https://" id
      then await! c := registerClient env_ALLOW_FAKE_IP (JObj [("client_id", JStr id); ("redirect_uris", JArr [])]%string)
                         None issuer in
           lift (Ok (Some c))
      else getClientForIssuer clientId issuer
  | _ => lift (Ok None)
  end.

Definition send {A} (status : Z) (text : string) : Handler A := Ret (Throw (Replied (Text status text))).

(** The parameters of the query, and the parameters a flow keeps. *)
Definition params_of (normalize : json -> json) (v : json) : DeskAuthorizationParams := {|
  p_client_id := jfield_opt v "client_id"; p_redirect_uri := jfield_opt v "redirect_uri";
  p_scope := normalize (jfield_opt v "scope"); p_state := normalize (jfield_opt v "state");
  p_code_challenge := normalize (jfield_opt v "code_challenge");
  p_code_challenge_method := normalize (jfield_opt v "code_challenge_method");
  p_resource := normalize (jfield_opt v "resource")
|}.

Definition open_flow (requestedDeskFlowId : string) (p : DeskAuthorizationParams) (issuer : string)
    : Handler DeskAuthorizationFlow :=
  bind! reusable := (if truthy_str requestedDeskFlowId
                     then call! f := ReuseFlow requestedDeskFlowId p issuer in Ret f else Ret None) in
  match reusable with
  | Some f => Ret (Ok f)
  | None => call! f := CreateFlow p issuer in Ret (Ok f)
  end.

Definition consent_page (template : string) (client : ClientInformation) (scopes : list string) (q : json)
    (flow proxyKey : string) : result exn string :=
  fill [("__CLIENT_NAME__", Ok (escapeHtml (if truthy_str (ci_client_name client) then ci_client_name client
                                             else "Unknown Application")));
        ("{{SCOPE_LIST}}", Ok (scopeListHtml scopes));
        ("{{CLIENT_ID}}", jsEscape (jfield_opt q "client_id"));
        ("{{REDIRECT_URI}}", jsEscape (jfield_opt q "redirect_uri"));
        ("{{SCOPE}}", jsEscape (or_empty (jfield_opt q "scope")));
        ("{{STATE}}", jsEscape (or_empty (jfield_opt q "state")));
        ("{{CODE_CHALLENGE}}", jsEscape (or_empty (jfield_opt q "code_challenge")));
        ("{{CODE_CHALLENGE_METHOD}}", jsEscape (or_empty (jfield_opt q "code_challenge_method")));
        ("{{RESOURCE}}", jsEscape (or_empty (jfield_opt q "resource")));
        ("{{DESK_FLOW_ID}}", jsEscape (JStr flow));
        ("{{PROXY_KEY}}", jsEscape (JStr proxyKey))]%string template.

Definition page_error (e : exn) : prog call reply :=
  Ret (if isClientMetadataError e then Text 400 (colonErrorDescription e) else Text 500 "Internal server error").

Definition showAuthorizePage (req : HttpRequest) : prog call reply :=
  catching
    (let q := query_params req in
     let response_type := jfield_opt q "response_type" in
     let redirect_uri := jfield_opt q "redirect_uri" in
     if negb (js_truthy response_type) || negb (js_truthy (jfield_opt q "client_id")) || negb (js_truthy redirect_uri)
     then send 400 "Missing required parameters" else
     if negb (js_strict_eq response_type (JStr "code")) then send 400 "Unsupported response_type" else
     if negb (hasS256PKCE (jfield_opt q "code_challenge") (jfield_opt q "code_challenge_method"))
     then send 400 "S256 code_challenge and code_challenge_method are required" else
     await! issuer := issuer_of req in
     await! found := from (getAuthorizationClient (jfield_opt q "client_id") issuer) in
     match found with
     | None => send 400 "Invalid client_id"
     | Some client =>
         if negb (list_includes (ci_response_types client) "code")
         then send 400 "Unsupported response_type for client" else
         if negb (validateRedirectUri redirect_uri (ci_redirect_uris client))
         then send 400 "Invalid redirect_uri" else
         await! proxyKey := from (query FindFirstProxy) in
         await! template := from (query ReadTemplate) in
         await! requestedScopes := from (lift (parseScope (jfield_opt q "scope"))) in
         if negb (isScopeSubset requestedScopes (ci_scopes client))
         then send 400 "Requested scope exceeds registered client scopes" else
         await! deskFlow := open_flow (normalizeRequiredString (jfield_opt q "desk_flow_id"))
                              (params_of normalizeOptionalString q) issuer in
         await! html := from (lift (consent_page template client requestedScopes q (flowId deskFlow)
                                      (default ""%string proxyKey))) in
         Ret (Ok (Html html))
     end) page_error.

(** ** Granting a code *)

(** The code, once the client, the redirect and the user are known. *)
Definition issue_code (p : DeskAuthorizationParams) (client : ClientInformation) (urls : Request) (issuer userId : string)
    : Prog string :=
  call! code := RandomBytes 32 in
  await! scopes := lift (parseScope (p_scope p)) in
  if negb (isScopeSubset scopes (ci_scopes client))
  then lift (buildErrorRedirectUrl (p_redirect_uri p) "invalid_scope"
               "Requested scope exceeds registered client scopes" (p_state p)) else
  await! canonicalResource := lift (getPublicUrl urls) in
  if match p_resource p with JStr (String _ _ as r) => negb (str_eqb r canonicalResource) | _ => false end
  then lift (buildErrorRedirectUrl (p_redirect_uri p) "invalid_target" "Unsupported resource" (p_state p)) else
  call! now := Now in
  await! _row := query (CreateCode {|
    nc_code := code; nc_clientId := js_String (p_client_id p); nc_userId := userId;
    nc_redirectUri := p_redirect_uri p; nc_scopes := scopes;
    nc_codeChallenge := js_String (p_code_challenge p); nc_challengeMethod := js_String (p_code_challenge_method p);
    nc_resource := canonicalResource; nc_expiresAt := now + AUTHORIZATION_CODE_LIFETIME * 1000 |}) in
  lift (buildSuccessRedirectUrl (p_redirect_uri p) code (p_state p) issuer).

(** The user the page or the desktop application vouches for. *)
Definition grant_user (userToken : json) (validatedUserId : option string) : prog call (option string) :=
  if truthy_ostr validatedUserId then Ret validatedUserId
  else bind! r := validateToken userToken in
       Ret (match r with Ok ctx => Some (ctx_userId ctx) | Throw _ => None end).

(** The redirect that ends the authorization. *)
Definition completeAuthorizationGrant (urls : Request) (p : DeskAuthorizationParams) (userToken : json)
    (validatedUserId : option string) : Prog string :=
  await! issuer := lift (getAuthorizationServerUrl urls) in
  await! found := getAuthorizationClient (p_client_id p) issuer in
  match found with
  | None => lift (Throw (Error "invalid_client: Client not found"))
  | Some client =>
      if negb (list_includes (ci_response_types client) "code")
      then lift (Throw (Error "unsupported_response_type: Client is not registered for authorization code response")) else
      if negb (validateRedirectUri (p_redirect_uri p) (ci_redirect_uris client))
      then lift (Throw (Error "invalid_request: Invalid redirect_uri")) else
      if negb (hasS256PKCE (p_code_challenge p) (p_code_challenge_method p))
      then lift (Throw (Error "invalid_request: S256 code_challenge and code_challenge_method are required")) else
      bind! user := grant_user userToken validatedUserId in
      match user with
      | None => lift (buildErrorRedirectUrl (p_redirect_uri p) "invalid_request" "Invalid user token" (p_state p))
      | Some userId => issue_code p client urls issuer userId
      end
  end.

(** ** POST /authorize *)

Definition redirect_json (url : string) : reply := Json 200 (JObj [("redirect"%string, JStr url)]).

Definition authorize_error (e : exn) : prog call reply :=
  if isClientMetadataError e || isAuthorizationEndpointError e then Ret (metadata_refusal e) else server_error e.

Definition authorize (req : HttpRequest) : prog call reply :=
  catching
    (match jfield (body req) "approved" with
     | None => Ret (Throw (Thrown TypeError))
     | Some approved =>
         let field := jfield_opt (body req) in
         await! url := from (
           if negb (js_truthy approved)
           then lift (buildErrorRedirectUrl (field "redirect_uri"%string) "access_denied" "User denied authorization"
                        (field "state"%string))
           else if negb (js_truthy (field "user_token"%string))
           then lift (buildErrorRedirectUrl (field "redirect_uri"%string) "invalid_request" "User token is required"
                        (field "state"%string))
           else completeAuthorizationGrant (urls req) (params_of id (body req)) (field "user_token"%string) None) in
         Ret (Ok (redirect_json url))
     end) authorize_error.

(** ** Flows completed from the desktop application *)

Definition flow_failure (status : Z) (error description : string) : reply :=
  Json status (JObj [("status", JStr "failed"); ("error", JStr error); ("error_description", JStr description)]%string).

Definition flow_not_pending (f : DeskAuthorizationFlow) (description : string) : reply :=
  flow_failure 400 (default (flow_status_text (flow_status f)) (flow_error f))
    (default description (flow_errorDescription f)).

Definition completed_reply : reply := Json 200 (JObj [("status", JStr "completed")]%string).

Definition fail_flow (id error description : string) (r : reply) : Handler reply :=
  call! _flow := FailFlow id error description in Ret (Ok r).

Definition desk_callback_body (req : HttpRequest) (id : string) : Handler reply :=
  let userToken := normalizeRequiredString (jfield_opt (body req) "user_token") in
  call! flow := GetFlow id in
  match flow with
  | None => Ret (Ok (flow_failure 404 "invalid_flow" "Authorization flow not found"))
  | Some f =>
      if is_status Completed f then Ret (Ok completed_reply) else
      if negb (is_status Pending f) then Ret (Ok (flow_not_pending f "Authorization flow is not pending")) else
      if str_eqb userToken ""
      then fail_flow (flowId f) "invalid_request" "User token is required"
             (flow_failure 400 "invalid_request" "User token is required") else
      bind! auth := validateToken (JStr userToken) in
      match auth with
      | Throw _ => fail_flow (flowId f) "invalid_request" "Invalid user token"
                     (flow_failure 400 "invalid_request" "Invalid user token")
      | Ok ctx =>
          await! redirect := from (completeAuthorizationGrant (urls req) (flow_params f) (JStr userToken)
                                     (Some (ctx_userId ctx))) in
          call! _flow := CompleteFlow (flowId f) redirect in
          Ret (Ok completed_reply)
      end
  end.

(** What a failed callback reports, to the flow and to the caller. *)
Definition callback_error (e : exn) : Z * string * string :=
  if isClientMetadataError e || isAuthorizationEndpointError e
  then (400, colonErrorCode e, colonErrorDescription e)
  else (500, "server_error"%string, "Internal server error"%string).

Definition deskAuthorizationCallback (req : HttpRequest) : prog call reply :=
  let id := normalizeRequiredString (jfield_opt (body req) "flow_id") in
  catching (desk_callback_body req id)
    (fun e => let '(status, error, description) := callback_error e in
              bind! _failed := (if truthy_str id then perform (FailFlow id error description) else Ret None) in
              Ret (flow_failure status error description)).

Definition deskAuthorizationStatus (req : HttpRequest) : prog call reply :=
  call! flow := GetFlow (normalizeRequiredString (jfield_opt (query_params req) "flow_id")) in
  Ret (match flow with
       | None => flow_failure 404 "invalid_flow" "Authorization flow not found"
       | Some f =>
           match flow_status f with
           | Completed => Json 200 (JObj [("status", JStr "completed"); ("redirect", ostr (flow_redirect f))]%string)
           | Pending => Json 200 (JObj [("status", JStr "pending")]%string)
           | _ => flow_not_pending f "Authorization flow failed"
           end
       end).
End Authorize.

(** A request parameter with a [$'] in it copies the rest of the template into
    the page's script: the page is not the template with the parameter in its
    place. *)
Lemma dollar_patterns_expanded :
  replace_first "{{STATE}}" "$'" "state = '{{STATE}}'; done" = "state = ''; done'; done"%string.
Proof. reflexivity. Qed.

(** A refusal is redirected to wherever the request says, registered or not. *)
Lemma denial_redirect_unchecked :
  authorize (P := toy_platform) None
    {| urls := ex_req; authorization := None; query_params := JUndefined;
       body := JObj [("approved", JBool false); ("redirect_uri", JStr "https://evil.example/x")]%string |}
  = Ret (redirect_json "https://evil.example/x?error=access_denied&error_description=User denied authorization").
Proof. vm_compute. reflexivity. Qed.
