(* ===== verification/OAuthTables.v ===== *)
(** * OAuth: what the tables answer

    The statements behind the calls of [OAuthDesk] on the tables of
    [src/prisma/schema.prisma], each answered at once: uniqueness of the keys,
    conditional claiming, cascading deletion.  A statement may be reported as
    failed whether or not it took effect.  [granted] is not a table: it
    remembers the scopes every token was created with. *)
From Stdlib Require Import Ascii ZArith Lia.
From stdpp Require Import base gmap strings list fin_maps.
From S2P Require Import Prelude Json WebPlatform OAuthDesk Effects Interleaving.
Open Scope Z_scope.

Record Tables : Type := {
  clients : gmap string OAuthClient;
  codes : gmap string OAuthAuthorizationCode;
  tokens : gmap string OAuthToken;
  granted : gmap string (list string)
}.

Definition set_clients (f : gmap string OAuthClient -> gmap string OAuthClient) (s : Tables) : Tables :=
  {| clients := f (clients s); codes := codes s; tokens := tokens s; granted := granted s |}.
Definition set_codes (f : gmap string OAuthAuthorizationCode -> gmap string OAuthAuthorizationCode) (s : Tables) : Tables :=
  {| clients := clients s; codes := f (codes s); tokens := tokens s; granted := granted s |}.
Definition set_tokens (f : gmap string OAuthToken -> gmap string OAuthToken) (s : Tables) : Tables :=
  {| clients := clients s; codes := codes s; tokens := f (tokens s); granted := granted s |}.
Definition set_granted (f : gmap string (list string) -> gmap string (list string)) (s : Tables) : Tables :=
  {| clients := clients s; codes := codes s; tokens := tokens s; granted := f (granted s) |}.

Definition code_row (d : CodeData) (uri : string) : OAuthAuthorizationCode := {|
  code := nc_code d; code_clientId := nc_clientId d; code_userId := nc_userId d; redirectUri := uri;
  code_scopes := nc_scopes d; code_resource := Some (nc_resource d); codeChallenge := Some (nc_codeChallenge d);
  challengeMethod := Some (nc_challengeMethod d); code_expiresAt := nc_expiresAt d; used := false
|}.

Definition claim_row (r : OAuthAuthorizationCode) : OAuthAuthorizationCode := {|
  code := code r; code_clientId := code_clientId r; code_userId := code_userId r; redirectUri := redirectUri r;
  code_scopes := code_scopes r; code_resource := code_resource r; codeChallenge := codeChallenge r;
  challengeMethod := challengeMethod r; code_expiresAt := code_expiresAt r; used := true
|}.

(** [WHERE code = c AND used = false AND expires_at >= now] *)
Definition claimable (r : OAuthAuthorizationCode) (now : Z) : bool := negb (used r) && (now <=? code_expiresAt r).

Definition token_row (id : string) (d : TokenData) : OAuthToken := {|
  tokenId := id; accessToken := nt_accessToken d; refreshToken := nt_refreshToken d;
  token_clientId := nt_clientId d; token_userId := nt_userId d; token_scopes := nt_scopes d;
  token_resource := nt_resource d; accessTokenExpiresAt := nt_accessTokenExpiresAt d;
  refreshTokenExpiresAt := nt_refreshTokenExpiresAt d; revoked := false
|}.

Definition refresh_row (access : string) (expires : Z) (scopes : list string) (r : OAuthToken) : OAuthToken := {|
  tokenId := tokenId r; accessToken := access; refreshToken := refreshToken r; token_clientId := token_clientId r;
  token_userId := token_userId r; token_scopes := scopes; token_resource := token_resource r;
  accessTokenExpiresAt := expires; refreshTokenExpiresAt := refreshTokenExpiresAt r; revoked := revoked r
|}.

Definition revoke_row (r : OAuthToken) : OAuthToken := {|
  tokenId := tokenId r; accessToken := accessToken r; refreshToken := refreshToken r;
  token_clientId := token_clientId r; token_userId := token_userId r; token_scopes := token_scopes r;
  token_resource := token_resource r; accessTokenExpiresAt := accessTokenExpiresAt r;
  refreshTokenExpiresAt := refreshTokenExpiresAt r; revoked := true
|}.

(** No token but [id] has this access token or this refresh token. *)
Definition unique_token (s : Tables) (id access : string) (refresh : option string) : Prop :=
  forall j r, tokens s !! j = Some r -> j <> id ->
  accessToken r <> access /\ (refresh = None \/ refreshToken r <> refresh).

(** [ON DELETE CASCADE] *)
Definition cascade_delete (id : string) (s : Tables) : Tables :=
  {| clients := delete id (clients s);
     codes := filter (fun p => code_clientId (snd p) <> id) (codes s);
     tokens := filter (fun p => token_clientId (snd p) <> id) (tokens s); granted := granted s |}.

(** The answers of the tables to a call, and the tables after it.  Calls that
    are not about the tables are answered at will. *)
Definition answers (X : Type) (e : call X) (s : Tables) : X -> Tables -> Prop :=
  match e in call X return X -> Tables -> Prop with
  | FindFirstClient c i => reads (fun o => match o with
      | Some r => clients s !! clientId r = Some r /\ issuer r = i /\ (forall id, c = JStr id -> clientId r = id)
      | None => forall id r, c = JStr id -> clients s !! id = Some r -> issuer r <> i
      end) s
  | FindUniqueClient c => reads (fun o => exists id, c = JStr id /\ o = clients s !! id) s
  | CreateClient d => writes (fun r s' =>
      clients s !! cd_clientId d = None /\ clientId r = cd_clientId d /\ issuer r = cd_issuer d
      /\ s' = set_clients (insert (cd_clientId d) r) s) s
  | UpdateClient id d => writes (fun r s' =>
      clientId r = id /\ is_Some (clients s !! id) /\ s' = set_clients (insert id r) s) s
  | DeleteClient id => writes (fun _ s' =>
      s' = cascade_delete id s) s
  | FindCode c => reads (fun o => exists id, c = JStr id /\ o = codes s !! id) s
  | CreateCode d => writes (fun _ s' =>
      exists uri, nc_redirectUri d = JStr uri /\ codes s !! nc_code d = None
      /\ s' = set_codes (insert (nc_code d) (code_row d uri)) s) s
  | ClaimCode c now => writes (fun n s' =>
      exists id, c = JStr id /\
      match codes s !! id with
      | Some r => if claimable r now then n = 1 /\ s' = set_codes (insert id (claim_row r)) s else n = 0 /\ s' = s
      | None => n = 0 /\ s' = s
      end) s
  | FindTokenByRefresh t => reads (fun o => exists v, t = JStr v /\
      match o with
      | Some r => tokens s !! tokenId r = Some r /\ refreshToken r = Some v
      | None => forall j r, tokens s !! j = Some r -> refreshToken r <> Some v
      end) s
  | FindTokenByAccess t => reads (fun o => exists v, t = JStr v /\
      match o with
      | Some r => tokens s !! tokenId r = Some r /\ accessToken r = v
      | None => forall j r, tokens s !! j = Some r -> accessToken r <> v
      end) s
  | CreateToken d => writes (fun _ s' =>
      exists id, granted s !! id = None /\ tokens s !! id = None
      /\ unique_token s id (nt_accessToken d) (nt_refreshToken d)
      /\ s' = set_granted (insert id (nt_scopes d)) (set_tokens (insert id (token_row id d)) s)) s
  | UpdateToken id access expires scopes => writes (fun _ s' =>
      exists r, tokens s !! id = Some r /\ unique_token s id access None
      /\ s' = set_tokens (insert id (refresh_row access expires scopes r)) s) s
  | RevokeToken id => writes (fun _ s' =>
      exists r, tokens s !! id = Some r /\ s' = set_tokens (insert id (revoke_row r)) s) s
  | _ => fun _ s' => s' = s
  end.

(** ** Histories

    Calls of any number of concurrent programs, each call with the number of
    the program that makes it, in the order in which they are answered. *)
Notation history := (interleaving answers).

(** ** A code is claimed once for each time it is created *)

Definition claims (c : string) (ev : event call) : bool :=
  match ev with
  | Ev _ e x =>
      match e in call X return X -> bool with
      | ClaimCode v _ => fun r => json_eqb v (JStr c) && match r with Ok n => n =? 1 | Throw _ => false end
      | _ => fun _ => false
      end x
  end.

Definition creates (c : string) (ev : event call) : bool :=
  match ev with
  | Ev _ e _ => match e with CreateCode d => str_eqb (nc_code d) c | _ => false end
  end.

Definition unclaimed (s : Tables) (c : string) : nat :=
  match codes s !! c with Some r => if used r then 0 else 1 | None => 0 end.

Lemma unclaimed_insert (s : Tables) (c k : string) (r : OAuthAuthorizationCode) :
  unclaimed (set_codes (insert k r) s) c = if str_eqb k c then (if used r then 0 else 1)%nat else unclaimed s c.
Proof.
  unfold unclaimed. cbn. destruct (str_eqb k c) eqn:Hk.
  - apply str_eqb_eq in Hk as ->. by rewrite lookup_insert_eq.
  - apply str_eqb_neq in Hk. by rewrite lookup_insert_ne.
Qed.

Lemma unclaimed_codes (s s' : Tables) (c : string) : codes s' = codes s -> unclaimed s' c = unclaimed s c.
Proof. unfold unclaimed. by intros ->. Qed.

Lemma claim_step (X : Type) (e : call X) (s : Tables) (x : X) (s' : Tables) (c : string) :
  answers X e s x s' ->
  ((if claims c (Ev X e x) then 1 else 0) + unclaimed s' c
   <= (if creates c (Ev X e x) then 1 else 0) + unclaimed s c)%nat.
Proof.
  destruct e; cbn [answers claims creates]; intros H;
    first [by rewrite (unclaimed_codes s s') by (by subst)
          |by destruct H as [-> _]; lia
          |apply writes_inv in H as [[-> Hr]|(a & H & Hr)]; [first [lia|destruct x; [done|rewrite andb_false_r; lia]]|]].
  - destruct H as (_ & _ & _ & ->). by rewrite (unclaimed_codes s).
  - destruct H as (_ & _ & ->). by rewrite (unclaimed_codes s).
  - rewrite H. unfold unclaimed. cbn. rewrite map_lookup_filter. destruct (codes s !! c) as [r|]; cbn; [|lia].
    case_guard; cbn; destruct (used r); lia.
  - destruct H as (uri & _ & Hnone & ->). rewrite unclaimed_insert. cbn. destruct (str_eqb _ c); lia.
  - destruct H as (id & -> & H). cbn. destruct (str_eqb id c) eqn:Hid; cbn.
    + apply str_eqb_eq in Hid as ->. unfold unclaimed in *. destruct (codes s !! c) as [r|] eqn:Hr'.
      * destruct (claimable r now) eqn:Hcl; destruct H as [-> ->]; cbn; rewrite ?lookup_insert_eq, ?Hr'; cbn.
        -- unfold claimable in Hcl. to_prop. rewrite H. destruct x; cbn; case_bool; lia.
        -- destruct Hr as [->|Hr]; [cbn; lia|destruct x; [done|lia]].
      * destruct H as [-> ->]. rewrite Hr'. destruct Hr as [->|Hr]; [cbn; lia|destruct x; [done|lia]].
    + destruct (codes s !! id) as [r|]; [|destruct H as [_ ->]; lia].
      destruct (claimable r now); destruct H as [_ ->]; [|lia]. by rewrite unclaimed_insert, Hid.
  - destruct H as (id & _ & _ & _ & ->). by rewrite (unclaimed_codes s).
  - destruct H as (r & _ & _ & ->). by rewrite (unclaimed_codes s).
  - destruct H as (r & _ & ->). by rewrite (unclaimed_codes s).
Qed.

Lemma claims_bounded (s : Tables) tr (s' : Tables) (c : string) :
  history s tr s' ->
  (count (fun p => claims c (snd p)) tr + unclaimed s' c
   <= count (fun p => creates c (snd p)) tr + unclaimed s c)%nat.
Proof.
  induction 1 as [s|s i X e x s1 tr s2 Ha _ IH]; [cbn; lia|].
  rewrite !count_cons. cbn [snd]. pose proof (claim_step X e s x s1 c Ha). lia.
Qed.

(** Tables whose rows are stored under their identifiers. *)
Record keyed (s : Tables) : Prop := {
  keyed_clients : forall k r, clients s !! k = Some r -> clientId r = k;
  keyed_tokens : forall k r, tokens s !! k = Some r -> tokenId r = k
}.

Lemma insert_keyed {A} (f : A -> string) (m : gmap string A) (id : string) (x : A) :
  f x = id -> (forall k r, m !! k = Some r -> f r = k) -> forall k r, <[id := x]> m !! k = Some r -> f r = k.
Proof.
  intros Hx Hm k r. destruct (decide (id = k)) as [->|Hne].
  - rewrite lookup_insert_eq. by intros [= <-].
  - rewrite lookup_insert_ne by done. apply Hm.
Qed.

Lemma answers_keyed (X : Type) (e : call X) (s : Tables) (x : X) (s' : Tables) :
  answers X e s x s' -> keyed s -> keyed s'.
Proof.
  intros Ha Hk. destruct e; cbn [answers] in Ha;
    first [by subst|by destruct Ha as [-> _]|apply writes_inv in Ha as [[-> _]|(a & H & _)]; [done|]];
    destruct Hk as [Hc Ht].
  - destruct H as (_ & Hid & _ & ->). split; [|done]. cbn. by eapply insert_keyed.
  - destruct H as (Hid & _ & ->). split; [|done]. cbn. by eapply insert_keyed.
  - subst. split; cbn; intros k r.
    + rewrite lookup_delete_Some. intros [_ ?]. by apply Hc.
    + intros [? _]%map_lookup_filter_Some. by apply Ht.
  - by destruct H as (uri & _ & _ & ->).
  - destruct H as (id & _ & H). destruct (codes s !! id) as [r|]; [|by destruct H as [_ ->]].
    destruct (claimable r now); by destruct H as [_ ->].
  - destruct H as (id & _ & _ & _ & ->). split; [done|]. cbn. by eapply insert_keyed.
  - destruct H as (r & Hr & _ & ->). split; [done|]. cbn. apply insert_keyed; [exact (Ht _ _ Hr)|done].
  - destruct H as (r & Hr & ->). split; [done|]. cbn. apply insert_keyed; [exact (Ht _ _ Hr)|done].
Qed.

(** ** A revoked token stays revoked *)

(** Every token row has been granted, under its own identifier. *)
Definition tables_ok (s : Tables) : Prop :=
  forall j r, tokens s !! j = Some r -> tokenId r = j /\ is_Some (granted s !! j).

(** Row [j] is gone for good or still revoked. *)
Definition revoked_for_good (j : string) (s : Tables) : Prop :=
  is_Some (granted s !! j) /\ forall r, tokens s !! j = Some r -> revoked r = true.

Lemma insert_token_cases (s : Tables) (k j : string) (r r' : OAuthToken) :
  tokens (set_tokens (insert k r) s) !! j = Some r' ->
  (j = k /\ r' = r) \/ (j <> k /\ tokens s !! j = Some r').
Proof.
  cbn. destruct (decide (k = j)) as [->|Hne].
  - rewrite lookup_insert_eq. intros [= <-]. by left.
  - rewrite lookup_insert_ne by done. by right.
Qed.

(** What any call does to the tokens. *)
Inductive tokens_change (s : Tables) : Tables -> Prop :=
| change_none s' : tokens s' = tokens s -> granted s' = granted s -> tokens_change s s'
| change_delete s' P `{forall x, Decision (P x)} :
    tokens s' = filter P (tokens s) -> granted s' = granted s -> tokens_change s s'
| change_create id d :
    granted s !! id = None -> tokens s !! id = None ->
    tokens_change s (set_granted (insert id (nt_scopes d)) (set_tokens (insert id (token_row id d)) s))
| change_update id r access expires scopes :
    tokens s !! id = Some r -> tokens_change s (set_tokens (insert id (refresh_row access expires scopes r)) s)
| change_revoke id r :
    tokens s !! id = Some r -> tokens_change s (set_tokens (insert id (revoke_row r)) s).

Lemma answers_change (X : Type) (e : call X) (s : Tables) (x : X) (s' : Tables) :
  answers X e s x s' -> tokens_change s s'.
Proof.
  destruct e; cbn [answers]; intros H;
    first [subst; by apply change_none|by destruct H as [-> _]; apply change_none
          |apply writes_inv in H as [[-> _]|(a & H & _)]; [by apply change_none|]].
  - destruct H as (_ & _ & _ & ->). by apply change_none.
  - destruct H as (_ & _ & ->). by apply change_none.
  - subst. by eapply change_delete.
  - destruct H as (uri & _ & _ & ->). by apply change_none.
  - destruct H as (id & _ & H). destruct (codes s !! id) as [r|]; [|destruct H as [_ ->]; by apply change_none].
    destruct (claimable r now); destruct H as [_ ->]; by apply change_none.
  - destruct H as (id & Hg & Ht & _ & ->). by apply change_create.
  - destruct H as (r & Hr & _ & ->). by apply change_update.
  - destruct H as (r & Hr & ->). by apply change_revoke.
Qed.

Lemma change_ok (s s' : Tables) : tokens_change s s' -> tables_ok s -> tables_ok s'.
Proof.
  intros [s0 Ht Hg|s0 Q HQ Ht Hg|id d Hg Ht|id r a ex sc Hr|id r Hr] Hok j r' Hj.
  - rewrite Ht in Hj. rewrite Hg. by apply Hok.
  - rewrite Ht in Hj. apply map_lookup_filter_Some in Hj as [Hj _]. rewrite Hg. by apply Hok.
  - cbn in *. destruct (decide (id = j)) as [->|Hne].
    + rewrite lookup_insert_eq in Hj. injection Hj as <-. rewrite lookup_insert_eq. by split.
    + rewrite lookup_insert_ne in Hj by done. rewrite lookup_insert_ne by done. by apply Hok.
  - destruct (insert_token_cases _ _ _ _ _ Hj) as [[-> ->]|[_ H]]; [|by apply Hok]. by apply (Hok id r).
  - destruct (insert_token_cases _ _ _ _ _ Hj) as [[-> ->]|[_ H]]; [|by apply Hok]. by apply (Hok id r).
Qed.

Lemma change_revoked (s s' : Tables) (j : string) :
  tokens_change s s' -> revoked_for_good j s -> revoked_for_good j s'.
Proof.
  intros [s0 Ht Hg|s0 Q HQ Ht Hg|id d Hg Ht|id r a ex sc Hr|id r Hr] [Hgr Hok].
  - split; [by rewrite Hg|]. intros r Hj. rewrite Ht in Hj. by apply Hok.
  - split; [by rewrite Hg|]. intros r Hj. rewrite Ht in Hj. apply map_lookup_filter_Some in Hj as [Hj _]. by apply Hok.
  - assert (id <> j) by (intros ->; rewrite Hg in Hgr; by destruct Hgr). split; cbn.
    + by rewrite lookup_insert_ne.
    + intros r Hj. rewrite lookup_insert_ne in Hj by done. by apply Hok.
  - split; [done|]. intros r' Hj. destruct (insert_token_cases _ _ _ _ _ Hj) as [[-> ->]|[_ H]]; [|by apply Hok].
    cbn. by apply Hok.
  - split; [done|]. intros r' Hj. destruct (insert_token_cases _ _ _ _ _ Hj) as [[-> ->]|[_ H]]; [done|by apply Hok].
Qed.

(** What a reader of tokens is shown. *)
Definition shows (r : OAuthToken) (ev : event call) : Prop :=
  match ev with
  | Ev _ e x =>
      match e in call X return X -> Prop with
      | FindTokenByAccess _ | FindTokenByRefresh _ => fun answer => answer = Ok (Some r)
      | _ => fun _ => False
      end x
  end.

Lemma revoked_shown (s : Tables) tr (s' : Tables) (j : string) :
  history s tr s' -> revoked_for_good j s ->
  forall i ev r, (i, ev) ∈ tr -> shows r ev -> tokenId r = j -> revoked r = true.
Proof.
  induction 1 as [s|s i X e x s1 tr s2 Ha _ IH]; intros Hrev k ev r Hin Hshow Hid; [by apply not_elem_of_nil in Hin|].
  apply elem_of_cons in Hin as [[= -> ->]|Hin].
  - destruct e; cbn in Hshow; try done; subst x; destruct Ha as [_ (v & _ & Hr & _)];
      destruct Hrev as [_ Hrev]; apply Hrev; by rewrite <- Hid.
  - apply (IH (change_revoked s s1 j (answers_change _ _ _ _ _ Ha) Hrev) k ev r); done.
Qed.

