(* ===== verification/OAuthGrants.v ===== *)
(** * OAuth: what the token endpoint may do

    What every run of the token, revocation and introspection endpoints of
    [OAuthController] does, whatever its calls are answered, and what any
    number of them together do to the tables of [OAuthTables]: codes are
    redeemed by the client and the verifier they were issued for, at most
    once; refreshing never widens a grant; a revoked token is not valid
    again; refusals change nothing. *)
From Stdlib Require Import Ascii ZArith Lia.
From stdpp Require Import base gmap strings list.
From S2P Require Import Prelude Json JsMap WebPlatform OAuthService OAuthDesk TokenValidators ClientMetadata OAuthClients OAuthController OAuthAuthorize OAuthTables Effects Interleaving.
Open Scope Z_scope.

(** Calls that write to a table. *)
Definition is_write (ev : event call) : bool :=
  match ev with
  | Ev _ e _ =>
      match e with
      | CreateClient _ | UpdateClient _ _ | DeleteClient _ | CreateCode _ | ClaimCode _ _ | CreateToken _
      | UpdateToken _ _ _ _ | RevokeToken _ => true
      | _ => false
      end
  end.

Definition reading (tr : list (event call)) : Prop := Forall (fun ev => is_write ev = false) tr.

Lemma reading_app (tr1 tr2 : list (event call)) : reading tr1 -> reading tr2 -> reading (tr1 ++ tr2).
Proof. intros. by apply Forall_app. Qed.
Lemma reading_nil : reading [].
Proof. constructor. Qed.
Lemma reading_cons (ev : event call) (tr : list (event call)) :
  is_write ev = false -> reading tr -> reading (ev :: tr).
Proof. by constructor. Qed.

Lemma in_here {A} (x : A) (l : list A) : x ∈ x :: l.
Proof. apply list_elem_of_here. Qed.
Lemma in_later {A} (x y : A) (l : list A) : x ∈ l -> x ∈ y :: l.
Proof. apply list_elem_of_further. Qed.
Lemma in_left {A} (x : A) (l k : list A) : x ∈ l -> x ∈ l ++ k.
Proof. rewrite elem_of_app. by left. Qed.
Lemma in_right {A} (x : A) (l k : list A) : x ∈ k -> x ∈ l ++ k.
Proof. rewrite elem_of_app. by right. Qed.

Create HintDb trace discriminated.
#[export] Hint Resolve reading_app reading_nil reading_cons in_here in_later in_left in_right : trace.
#[export] Hint Extern 1 (is_write _ = false) => reflexivity : trace.

(** An early reply refuses with 400 or 401. *)
Definition refusal (r : reply) : Prop :=
  exists status error description, r = Json status (error_json error description) /\ (status = 400 \/ status = 401).

Lemma refusal_400 (e d : string) : refusal (Json 400 (error_json e d)).
Proof. exists 400, e, d. auto. Qed.
Lemma refusal_401 (e d : string) : refusal (Json 401 (error_json e d)).
Proof. exists 401, e, d. auto. Qed.
#[export] Hint Resolve refusal_400 refusal_401 : trace.

(** What a stage of a handler does: it only reads, it refuses or throws, or
    it ends with what [ok] says. *)
Definition stage {A} (p : Handler A) (ok : list (event call) -> A -> Prop) : Prop :=
  forall tr r, runs p tr (Some r) -> reading tr /\
    match r with
    | Ok a => ok tr a
    | Throw (Replied rep) => refusal rep
    | Throw (Thrown _) => True
    end.

Lemma stage_ret {A} (a : A) (ok : list (event call) -> A -> Prop) : ok [] a -> stage (Ret (Ok a)) ok.
Proof. intros H tr r [-> [= ->]]. by split; [constructor|]. Qed.

Lemma stage_refuse {A} (status : Z) (e d : string) (ok : list (event call) -> A -> Prop) :
  status = 400 \/ status = 401 -> stage (refuse_with status e d) ok.
Proof. intros H tr r [-> [= ->]]. split; [constructor|]. by exists status, e, d. Qed.

Lemma stage_throw {A} (e : exn) (ok : list (event call) -> A -> Prop) : stage (Ret (Throw (Thrown e))) ok.
Proof. intros tr r [-> [= ->]]. by split; [constructor|]. Qed.

Lemma stage_await {A B} (p : Handler A) (k : A -> Handler B) (okA : list (event call) -> A -> Prop)
    (ok : list (event call) -> B -> Prop) :
  stage p okA -> (forall tr a, okA tr a -> stage (k a) (fun tr' b => ok (tr ++ tr') b)) -> stage (try_bind p k) ok.
Proof.
  intros Hp Hk tr r [(e & H & ->)|(tr1 & a & tr2 & -> & H1 & H2)]%runs_await_inv.
  - destruct (Hp _ _ H) as [? ?]. by split.
  - destruct (Hp _ _ H1) as [Hr1 Ha]. destruct (Hk tr1 a Ha _ _ H2) as [Hr2 Hb]. split; [by apply reading_app|done].
Qed.

(** The same for the services the handlers call. *)
Definition safe {A} (p : Prog A) (ok : list (event call) -> A -> Prop) : Prop :=
  forall tr r, runs p tr (Some r) -> reading tr /\ match r with Ok a => ok tr a | Throw _ => True end.

Lemma stage_from {A} (p : Prog A) (ok : list (event call) -> A -> Prop) : safe p ok -> stage (from p) ok.
Proof.
  intros Hp tr r (tr1 & a & tr2 & -> & H1 & -> & [= ->])%runs_bind_inv. rewrite app_nil_r.
  destruct (Hp _ _ H1) as [? ?]. split; [done|]. by destruct a.
Qed.

Lemma safe_lift {A} (r : result exn A) (ok : list (event call) -> A -> Prop) :
  (forall a, r = Ok a -> ok [] a) -> safe (lift r) ok.
Proof. intros H tr x [-> [= ->]]. split; [constructor|]. destruct r; [by apply H|done]. Qed.

Lemma safe_query {A} (e : call (result exn A)) (ok : list (event call) -> A -> Prop) :
  (forall x, is_write (Ev _ e x) = false) -> (forall a, ok [Ev _ e (Ok a)] a) -> safe (query e) ok.
Proof.
  intros He Hok tr r (x & tr' & -> & -> & [= ->]). split; [by repeat constructor|]. by destruct x.
Qed.

Lemma safe_await {A B} (p : Prog A) (k : A -> Prog B) (okA : list (event call) -> A -> Prop)
    (ok : list (event call) -> B -> Prop) :
  safe p okA -> (forall tr a, okA tr a -> safe (k a) (fun tr' b => ok (tr ++ tr') b)) -> safe (try_bind p k) ok.
Proof.
  intros Hp Hk tr r [(e & H & ->)|(tr1 & a & tr2 & -> & H1 & H2)]%runs_await_inv.
  - destruct (Hp _ _ H) as [? _]. by split.
  - destruct (Hp _ _ H1) as [Hr1 Ha]. destruct (Hk tr1 a Ha _ _ H2) as [Hr2 Hb]. split; [by apply reading_app|done].
Qed.

Lemma stage_now (ok : list (event call) -> Z -> Prop) : (forall t, ok [Ev _ Now t] t) -> stage get_now ok.
Proof. intros Hok tr r (x & tr' & -> & -> & [= ->]). split; [by repeat constructor|done]. Qed.

Lemma stage_weaken {A} (p : Handler A) (ok ok' : list (event call) -> A -> Prop) :
  stage p ok -> (forall tr a, ok tr a -> ok' tr a) -> stage p ok'.
Proof. intros Hp H tr r Hr. destruct (Hp tr r Hr) as [? Hr']. split; [done|]. destruct r as [a|[|]]; auto. Qed.

Section Grants.
Context `{P : Platform}.

(** *** Client authentication *)

(** The client [cl] was found under [cid] and, unless it is public, the
    secret is the one stored for it. *)
Definition identified (tr : list (event call)) (cid : json) (cl : ClientInformation) : Prop :=
  exists row, cl = information row (secret_of row)
    /\ ((exists iss, Ev _ (FindFirstClient cid iss) (Ok (Some row)) ∈ tr)
        \/ Ev _ (FindUniqueClient cid) (Ok (Some row)) ∈ tr).

Definition authenticated (tr : list (event call)) (cid secret : json) (cl : ClientInformation) : Prop :=
  identified tr cid cl
  /\ (ci_auth_method cl = "none"%string
      \/ exists cl', identified tr cid cl'
         /\ (ci_auth_method cl' = "none"%string
             \/ exists s, ci_client_secret cl' = Some s /\ s <> ""%string /\ secret = JStr s)).

Lemma identified_mono (tr tr' : list (event call)) (cid : json) (cl : ClientInformation) :
  (forall ev, ev ∈ tr -> ev ∈ tr') -> identified tr cid cl -> identified tr' cid cl.
Proof. intros H (row & -> & Hin). exists row. split; [done|]. destruct Hin as [[iss ?]|?]; [left; exists iss|right]; auto. Qed.

Lemma authenticated_mono (tr tr' : list (event call)) (cid secret : json) (cl : ClientInformation) :
  (forall ev, ev ∈ tr -> ev ∈ tr') -> authenticated tr cid secret cl -> authenticated tr' cid secret cl.
Proof.
  intros H [Hi Ha]. split; [by eapply identified_mono|].
  destruct Ha as [?|(cl' & Hi' & Ha)]; [by left|right]. exists cl'. split; [by eapply identified_mono|done].
Qed.

Lemma getClientForIssuer_safe (cid : json) (iss : string) :
  safe (getClientForIssuer cid iss) (fun tr o => forall cl, o = Some cl -> identified tr cid cl).
Proof.
  assert (Hrow : forall i row tr cl, toClientInformation (Some row) = Some cl ->
            Ev _ (FindFirstClient cid i) (Ok (Some row)) ∈ tr -> identified tr cid cl).
  { intros i row tr cl [= <-] Hin. exists row. split; [done|]. left. by exists i. }
  eapply safe_await; [apply (safe_query _ (fun tr o => tr = [Ev _ (FindFirstClient cid iss) (Ok o)])); done|].
  intros tr [row|] ->.
  - apply safe_lift. intros o [= <-] cl Hcl. eapply Hrow; [exact Hcl|]. apply in_here.
  - case_bool; [by apply safe_lift; intros o [= <-] cl [=]|].
    eapply safe_await; [apply (safe_query _ (fun tr o => tr = [Ev _ (FindFirstClient cid "default") (Ok o)])); done|].
    intros tr [row|] ->; apply safe_lift; intros o [= <-] cl Hcl; [|by cbn in Hcl].
    eapply Hrow; [exact Hcl|]. apply in_right, in_left, in_here.
Qed.

Lemma getClient_safe (cid : json) :
  safe (getClient cid) (fun tr o => forall cl, o = Some cl -> identified tr cid cl).
Proof.
  eapply safe_await; [apply (safe_query _ (fun tr o => tr = [Ev _ (FindUniqueClient cid) (Ok o)])); done|].
  intros tr [row|] ->; apply safe_lift; intros o [= <-] cl Hcl; [|by cbn in Hcl].
  injection Hcl as <-. exists row. split; [done|]. right. apply in_left, in_here.
Qed.

Lemma credentials_safe (cid secret : json) (iss : option string) :
  safe (service_verifyClientCredentials cid secret iss) (fun tr valid =>
    valid = true -> exists cl', identified tr cid cl'
      /\ (ci_auth_method cl' = "none"%string
          \/ exists s, ci_client_secret cl' = Some s /\ s <> ""%string /\ secret = JStr s)).
Proof.
  assert (Hlook : safe (match iss with Some i => if truthy_str i then getClientForIssuer cid i else getClient cid
                                  | None => getClient cid end)
                    (fun tr o => forall cl, o = Some cl -> identified tr cid cl)).
  { destruct iss as [i|]; [destruct (truthy_str i)|]; [apply getClientForIssuer_safe|apply getClient_safe..]. }
  eapply safe_await; [exact Hlook|]. intros tr [cl|] Hcl; [|by apply safe_lift; intros v [= <-]].
  specialize (Hcl cl eq_refl). destruct (str_eqb (ci_auth_method cl) "none") eqn:Hm; apply safe_lift; intros v [= <-].
  - intros _. exists cl. apply str_eqb_eq in Hm. split; [|by left].
    eapply identified_mono; [|exact Hcl]. intros; by apply in_left.
  - intros Hv. exists cl. split; [eapply identified_mono; [|exact Hcl]; intros; by apply in_left|]. right.
    unfold verifyClientCredentials in Hv. destruct (ci_client_secret cl) as [s|]; [|done].
    apply andb_true_iff in Hv as [H1%truthy_str_spec H2%json_eqb_eq]. by exists s.
Qed.

Lemma find_client_stage (cid : json) (iss : string) : stage (find_client cid iss) (fun tr cl => identified tr cid cl).
Proof.
  eapply stage_await; [apply stage_from, getClientForIssuer_safe|]. intros tr [cl|] Hcl.
  - apply stage_ret. rewrite app_nil_r. by apply Hcl.
  - apply stage_refuse. auto.
Qed.

Lemma authenticate_stage (cid secret : json) (iss : string) (cl : ClientInformation) (tr0 : list (event call)) :
  identified tr0 cid cl ->
  stage (authenticate_client cid secret iss cl) (fun tr _ => authenticated (tr0 ++ tr) cid secret cl).
Proof.
  intros Hi. unfold authenticate_client. destruct (str_eqb (ci_auth_method cl) "none") eqn:Hm.
  { apply stage_ret. apply str_eqb_eq in Hm. split; [eapply identified_mono; [|exact Hi]; auto with trace|by left]. }
  destruct (negb (js_truthy secret)); [apply stage_refuse; auto|].
  eapply stage_await; [apply stage_from, credentials_safe|]. intros tr [|] Hv; [|apply stage_refuse; auto].
  apply stage_ret. rewrite app_nil_r. split; [eapply identified_mono; [|exact Hi]; auto with trace|right].
  destruct (Hv eq_refl) as (cl' & Hcl' & H). exists cl'. split; [|done].
  eapply identified_mono; [|exact Hcl']. auto with trace.
Qed.

(** Who asks for a grant. *)
Definition requester (req : HttpRequest) (b : json) (grant : string) (tr : list (event call))
    (cid : json) (cl : ClientInformation) : Prop :=
  cid = fst (client_credentials req b) /\ js_truthy cid = true /\ grant ∈ ci_grant_types cl
  /\ authenticated tr cid (snd (client_credentials req b)) cl.

Lemma grant_client_stage (req : HttpRequest) (b : json) (grant : string) :
  stage (grant_client req b grant) (fun tr p => requester req b grant tr (fst p) (snd p)).
Proof.
  unfold grant_client, requester. destruct (client_credentials req b) as [cid secret].
  destruct (js_truthy cid) eqn:Ht; cbn [negb]; [|apply stage_refuse; auto].
  eapply stage_await; [apply stage_from, (safe_lift _ (fun tr _ => tr = [])); done|]. intros tr iss ->.
  eapply stage_await; [apply find_client_stage|]. intros tr cl Hi. cbn [app].
  destruct (list_includes (ci_grant_types cl) grant) eqn:Hg; cbn [negb]; [|apply stage_refuse; auto].
  eapply stage_await; [by apply (authenticate_stage _ _ _ _ tr)|]. intros tr' [] Ha.
  apply stage_ret. cbn [fst snd]. rewrite app_nil_r. apply list_includes_spec in Hg. auto.
Qed.

Lemma optional_client_stage (req : HttpRequest) (b : json) :
  stage (optional_client req b) (fun tr cid =>
    cid = fst (client_credentials req b)
    /\ (js_truthy cid = true -> exists cl, authenticated tr cid (snd (client_credentials req b)) cl)).
Proof.
  unfold optional_client. destruct (client_credentials req b) as [cid secret].
  destruct (js_truthy cid) eqn:Ht; cbn [negb]; [|by apply stage_ret; split; [|congruence]].
  eapply stage_await; [apply stage_from, (safe_lift _ (fun tr _ => tr = [])); done|]. intros tr iss ->.
  eapply stage_await; [apply find_client_stage|]. intros tr cl Hi. cbn [app].
  eapply stage_await; [by apply (authenticate_stage _ _ _ _ tr)|]. intros tr' [] Ha.
  apply stage_ret. rewrite app_nil_r. split; [done|]. intros _. by exists cl.
Qed.

(** *** Redeeming a code *)

Lemma strict_eq_str (s : string) (v : json) : js_strict_eq (JStr s) v = true <-> v = JStr s.
Proof. cbn [js_strict_eq]. rewrite json_eqb_eq. naive_solver. Qed.

(** What the redeemer of a code has shown. *)
Definition entitled (b cid : json) (tr : list (event call)) (row : OAuthAuthorizationCode) : Prop :=
  used row = false
  /\ (exists t, Ev _ Now t ∈ tr /\ t <= code_expiresAt row)
  /\ cid = JStr (code_clientId row)
  /\ jfield_opt b "redirect_uri" = JStr (redirectUri row)
  /\ challengeMethod row = Some "S256"%string
  /\ exists verifier, jfield_opt b "code_verifier" = JStr verifier
       /\ codeChallenge row = Some (sha256_base64url verifier).

Lemma check_code_stage (b cid : json) (row : OAuthAuthorizationCode) :
  stage (check_code b cid row) (fun tr _ => entitled b cid tr row).
Proof.
  unfold check_code. destruct (used row) eqn:Hused; [apply stage_refuse; auto|].
  eapply stage_await; [apply (stage_now (fun tr t => tr = [Ev _ Now t])); done|]. intros tr t ->.
  destruct (code_expiresAt row <? t) eqn:Hexp; [apply stage_refuse; auto|].
  destruct (negb (js_strict_eq _ cid)) eqn:Hc; [apply stage_refuse; auto|].
  destruct (negb (js_strict_eq _ (jfield_opt b "redirect_uri"))) eqn:Hr; [apply stage_refuse; auto|].
  destruct (codeChallenge row) as [[|c challenge]|] eqn:Hch; try (apply stage_refuse; auto).
  destruct (negb _ || _) eqn:Hm; [apply stage_refuse; auto|].
  destruct (jfield_opt b "code_verifier") as [| | | |verifier| |] eqn:Hv; try apply stage_throw.
  destruct (verifyPKCEChallenge verifier _) eqn:Hpkce; [|apply stage_refuse; auto].
  apply stage_ret. to_prop. apply strict_eq_str in Hc, Hr. apply str_eqb_eq in Hpkce.
  split; [done|]. split; [exists t; split; [by left|done]|].
  do 3 (split; [done|]). exists verifier. split; [done|]. by rewrite Hch, Hpkce.
Qed.

(** The token a claimed code turns into. *)
Definition token_of (row : OAuthAuthorizationCode) (cl : ClientInformation) (d : TokenData) : Prop :=
  nt_clientId d = code_clientId row /\ nt_userId d = code_userId row /\ nt_scopes d = code_scopes row
  /\ nt_resource d = code_resource row
  /\ (is_Some (nt_refreshToken d) <-> "refresh_token"%string ∈ ci_grant_types cl).

(** A run that ends by creating a token, or that only reads and throws. *)
Definition issues (row : OAuthAuthorizationCode) (cl : ClientInformation) (tr : list (event call))
    (r : result stop reply) : Prop :=
  (reading tr /\ exists e, r = Throw (Thrown e))
  \/ exists pre d x, tr = pre ++ [Ev _ (CreateToken d) x] /\ reading pre /\ token_of row cl d
       /\ match x with Ok _ => exists v, r = Ok (Json 200 v) | Throw e => r = Throw (Thrown e) end.

Lemma issue_tokens_run (cl : ClientInformation) (row : OAuthAuthorizationCode) tr r :
  runs (issue_tokens cl row) tr (Some r) -> issues row cl tr r.
Proof.
  unfold issue_tokens.
  intros [(e & H & ->)|(t1 & now & tr1 & -> & H1 & H)]%runs_await_inv; [by destruct H as (? & ? & ? & ? & [=])|].
  assert (Hr1 : reading t1) by (by eapply (stage_now (fun _ _ => True)) in H1 as [? _]).
  destruct (generateAccessToken _ _ _ _ _) as [access|e].
  2: { apply runs_await_inv in H as [(e' & H & ->)|(t2 & a & tr2 & -> & H & _)].
       - left. destruct H as [-> [= ->]]. rewrite app_nil_r. eauto.
       - by destruct H as [_ ?]. }
  apply runs_await_inv in H as [(e' & H & ->)|(t2 & a & tr2 & -> & H2 & H)]; [by destruct H as [_ ?]|].
  destruct H2 as [-> [= ->]].
  apply runs_bind_inv in H as (t3 & refresh & tr3 & -> & H3 & H).
  assert (Hr3 : reading t3 /\ (is_Some refresh <-> "refresh_token"%string ∈ ci_grant_types cl)).
  { rewrite <- list_includes_spec. destruct (list_includes _ _).
    - destruct H3 as (x & ? & -> & -> & [= ->]). split; [by repeat constructor|]. by split.
    - destruct H3 as [-> [= ->]]. split; [constructor|]. by split; [intros []|]. }
  destruct Hr3 as [Hr3 Href].
  apply runs_await_inv in H as [(e' & H & ->)|(t4 & n1 & tr4 & -> & H4 & H)]; [by destruct H as (? & ? & ? & ? & [=])|].
  assert (Hr4 : reading t4) by (by eapply (stage_now (fun _ _ => True)) in H4 as [? _]).
  apply runs_await_inv in H as [(e' & H & ->)|(t5 & n2 & tr5 & -> & H5 & H)]; [by destruct H as (? & ? & ? & ? & [=])|].
  assert (Hr5 : reading t5) by (by eapply (stage_now (fun _ _ => True)) in H5 as [? _]).
  right. unfold token_of.
  apply runs_await_inv in H as [(e' & H & ->)|(t6 & a & tr6 & -> & H6 & H)].
  - apply runs_bind_inv in H as (t6 & x & tr6 & -> & (y & ? & -> & -> & [= ->]) & -> & [= Hx]).
    eexists (t1 ++ t3 ++ t4 ++ t5), _, y. split; [by rewrite <- !app_assoc|].
    split; [auto with trace|]. split; [by cbn|]. destruct y; [done|]. by injection Hx as ->.
  - apply runs_bind_inv in H6 as (t6' & x & tr6' & -> & (y & ? & -> & -> & [= ->]) & -> & [= Hx]).
    destruct H as [-> [= ->]]. eexists (t1 ++ t3 ++ t4 ++ t5), _, y. split; [by rewrite <- !app_assoc|].
    split; [auto with trace|]. split; [by cbn|]. destruct y; [by eexists|done].
Qed.

(** A handler that stops without a result refuses or throws. *)
Definition stopped {A} (r : result stop A) : Prop :=
  match r with Ok _ => False | Throw (Replied rep) => refusal rep | Throw (Thrown _) => True end.

Lemma stage_stopped {A B} (p : Handler A) (k : A -> Handler B) ok tr (r : result stop B) :
  stage p ok -> runs (try_bind p k) tr (Some r) ->
  (reading tr /\ stopped r)
  \/ exists tr1 a tr2, tr = tr1 ++ tr2 /\ reading tr1 /\ ok tr1 a /\ runs (k a) tr2 (Some r).
Proof.
  intros Hp [(e & H & ->)|(tr1 & a & tr2 & -> & H1 & H2)]%runs_await_inv.
  - left. destruct (Hp _ _ H) as [? ?]. split; [done|]. by destruct e.
  - right. destruct (Hp _ _ H1) as [? ?]. by exists tr1, a, tr2.
Qed.

Lemma refused_stopped {A} (status : Z) (e d : string) tr (r : result stop A) :
  status = 400 \/ status = 401 -> runs (refuse_with status e d) tr (Some r) -> tr = [] /\ stopped r.
Proof. intros Hs [-> [= ->]]. split; [done|]. by exists status, e, d. Qed.

Record redeems (b cid : json) (pre : list (event call)) (row : OAuthAuthorizationCode) (cl : ClientInformation)
    (req : HttpRequest) : Prop := {
  redeems_requester : requester req b "authorization_code" pre cid cl;
  redeems_found : Ev _ (FindCode (jfield_opt b "code")) (Ok (Some row)) ∈ pre;
  redeems_entitled : entitled b cid pre row
}.

(** A run of the authorization-code grant stops before it claims the code, or
    claims it once, entitled to; it goes on only if the claim succeeds. *)
Definition claims_and_issues (req : HttpRequest) (b : json) tr (r : result stop reply) : Prop :=
  exists cid row cl pre now x post,
    tr = pre ++ Ev _ (ClaimCode (jfield_opt b "code") now) x :: post /\ reading pre /\ redeems b cid pre row cl req
    /\ ((x = Ok 1 /\ issues row cl post r) \/ (x <> Ok 1 /\ post = [] /\ stopped r /\ (is_ok x = true \/ exists e, r = Throw (Thrown e)))).

Lemma requester_mono req b g (tr tr' : list (event call)) cid cl :
  (forall ev, ev ∈ tr -> ev ∈ tr') -> requester req b g tr cid cl -> requester req b g tr' cid cl.
Proof. intros H (? & ? & ? & ?). do 3 (split; [done|]). by eapply authenticated_mono. Qed.

Lemma entitled_mono (b cid : json) (tr tr' : list (event call)) row :
  (forall ev, ev ∈ tr -> ev ∈ tr') -> entitled b cid tr row -> entitled b cid tr' row.
Proof. intros H (? & (t & ? & ?) & ?). split; [done|]. split; [|done]. exists t. auto. Qed.

Lemma claim_run (code : json) (row : OAuthAuthorizationCode) (cl : ClientInformation) tr r :
  runs (await! now := get_now in
        await! count := from (query (ClaimCode code now)) in
        if negb (count =? 1) then invalid_grant "Authorization code has already been used or expired"
        else issue_tokens cl row) tr (Some r) ->
  exists now x post, tr = [Ev _ Now now] ++ Ev _ (ClaimCode code now) x :: post
    /\ ((x = Ok 1 /\ issues row cl post r) \/ (x <> Ok 1 /\ post = [] /\ stopped r /\ (is_ok x = true \/ exists e, r = Throw (Thrown e)))).
Proof.
  intros (now & t0 & -> & H). exists now. unfold try_bind, from, query, perform in H. cbn [pbind] in H.
  destruct H as (x & tr' & -> & H). exists x, tr'. split; [done|].
  destruct x as [n|e]; cbn [pbind] in H.
  - destruct (n =? 1) eqn:Hn; cbn [negb] in H.
    + left. apply Z.eqb_eq in Hn as ->. split; [done|]. by apply issue_tokens_run.
    + right. apply Z.eqb_neq in Hn. apply refused_stopped in H as [? ?]; [|by left]. split; [congruence|auto].
  - right. destruct H as [-> [= ->]]. split; [done|]. split; [done|]. split; [done|]. right. by exists e.
Qed.

Lemma code_grant_run (req : HttpRequest) (b : json) tr r :
  runs (handleAuthorizationCodeGrant req b) tr (Some r) ->
  (reading tr /\ stopped r) \/ claims_and_issues req b tr r.
Proof.
  intros H. unfold handleAuthorizationCodeGrant in H. cbv zeta in H. set (c := jfield_opt b "code") in *.
  destruct (negb _ || _); [left; apply refused_stopped in H as [-> ?]; [by split; [constructor|]|by left]|].
  eapply stage_stopped in H; [|apply grant_client_stage].
  destruct H as [H|(t1 & [cid cl] & tr1 & -> & Hr1 & Hreq & H)]; [by left|]. cbn [fst snd] in *.
  eapply (stage_stopped _ _ (fun tr o => tr = [Ev _ (FindCode c) (Ok o)])) in H; [|by apply stage_from, safe_query].
  destruct H as [[? ?]|(t2 & [row|] & tr2 & -> & Hr2 & -> & H)];
    [left; split; [by apply reading_app|done]| |].
  2: { left. apply refused_stopped in H as [-> ?]; [|by left]. auto with trace. }
  eapply stage_stopped in H; [|apply check_code_stage].
  destruct H as [[? ?]|(t3 & [] & tr3 & -> & Hr3 & Hent & H)]; [left; split; [auto 20 with trace|done]|].
  right. apply claim_run in H as (now & x & post & -> & Hend).
  exists cid, row, cl, (t1 ++ [Ev _ (FindCode c) (Ok (Some row))] ++ t3 ++ [Ev _ Now now]), now, x, post.
  split; [by rewrite <- !app_assoc|]. split; [auto with trace|]. split; [|done]. split.
  - eapply requester_mono; [|exact Hreq]. auto with trace.
  - apply in_right, in_left, in_here.
  - eapply entitled_mono; [|exact Hent]. intros. by apply in_right, in_right, in_left.
Qed.

(** *** Refreshing *)

Definition refreshable (cid : json) (row : OAuthToken) : Prop :=
  revoked row = false /\ cid = JStr (token_clientId row).

Lemma check_refresh_stage (cid : json) (row : OAuthToken) :
  stage (check_refresh cid row) (fun _ _ => refreshable cid row).
Proof.
  unfold check_refresh. destruct (revoked row) eqn:Hrev; [apply stage_refuse; auto|].
  eapply (stage_await _ _ (fun _ _ => True)).
  - destruct (refreshTokenExpiresAt row) as [e|]; [|by apply stage_ret].
    eapply stage_await; [by apply (stage_now (fun _ _ => True))|]. intros tr t _.
    destruct (e <? t); [apply stage_refuse; auto|by apply stage_ret].
  - intros tr [] _. destruct (negb _) eqn:Hc; [apply stage_refuse; auto|]. apply stage_ret.
    to_prop. by apply strict_eq_str in Hc.
Qed.

Lemma refreshed_scopes_stage (scope : json) (row : OAuthToken) :
  stage (refreshed_scopes scope row) (fun _ l => l ⊆ token_scopes row).
Proof.
  unfold refreshed_scopes. destruct (js_truthy scope); [|by apply stage_ret].
  eapply (stage_await _ _ (fun _ _ => True)); [by apply stage_from, safe_lift|]. intros tr l _.
  destruct (isScopeSubset l (token_scopes row)) eqn:Hs; [|apply stage_refuse; auto].
  apply stage_ret. by apply isScopeSubset_spec.
Qed.

Definition refreshes (req : HttpRequest) (b : json) tr (r : result stop reply) : Prop :=
  exists cid cl row pre access expires scopes x,
    tr = pre ++ [Ev _ (UpdateToken (tokenId row) access expires scopes) x] /\ reading pre
    /\ requester req b "refresh_token" pre cid cl
    /\ Ev _ (FindTokenByRefresh (jfield_opt b "refresh_token")) (Ok (Some row)) ∈ pre
    /\ refreshable cid row /\ scopes ⊆ token_scopes row
    /\ match x with Ok _ => exists v, r = Ok (Json 200 v) | Throw e => r = Throw (Thrown e) end.

Lemma update_run {B} (e : call (result exn unit)) (v : B) tr (r : result stop B) :
  runs (await! _row := from (query e) in Ret (Ok v)) tr (Some r) ->
  exists x, tr = [Ev _ e x] /\ match x with Ok _ => r = Ok v | Throw err => r = Throw (Thrown err) end.
Proof.
  intros (x & tr' & -> & H). exists x. destruct x; cbn in H; destruct H as [-> [= ->]]; done.
Qed.

Lemma refresh_run (req : HttpRequest) (b : json) tr r :
  runs (handleRefreshTokenGrant req b) tr (Some r) -> (reading tr /\ stopped r) \/ refreshes req b tr r.
Proof.
  intros H. unfold handleRefreshTokenGrant in H. cbv zeta in H. set (rt := jfield_opt b "refresh_token") in *.
  destruct (negb _); [left; apply refused_stopped in H as [-> ?]; [by split; [constructor|]|by left]|].
  eapply stage_stopped in H; [|apply grant_client_stage].
  destruct H as [H|(t1 & [cid cl] & tr1 & -> & Hr1 & Hreq & H)]; [by left|]. cbn [fst snd] in *.
  eapply (stage_stopped _ _ (fun tr o => tr = [Ev _ (FindTokenByRefresh rt) (Ok o)])) in H;
    [|by apply stage_from, safe_query].
  destruct H as [[? ?]|(t2 & [row|] & tr2 & -> & Hr2 & -> & H)]; [left; auto with trace| |].
  2: { left. apply refused_stopped in H as [-> ?]; [|by left]. auto with trace. }
  eapply stage_stopped in H; [|apply check_refresh_stage].
  destruct H as [[? ?]|(t3 & [] & tr3 & -> & Hr3 & Hok & H)]; [left; split; [auto 20 with trace|done]|].
  eapply stage_stopped in H; [|apply refreshed_scopes_stage].
  destruct H as [[? ?]|(t4 & scopes & tr4 & -> & Hr4 & Hsc & H)]; [left; split; [auto 20 with trace|done]|].
  eapply stage_stopped in H; [|by apply (stage_now (fun _ _ => True))].
  destruct H as [[? ?]|(t5 & now & tr5 & -> & Hr5 & _ & H)]; [left; split; [auto 20 with trace|done]|].
  eapply stage_stopped in H; [|by apply stage_from, (safe_lift _ (fun _ _ => True))].
  destruct H as [[? ?]|(t6 & access & tr6 & -> & Hr6 & _ & H)]; [left; split; [auto 20 with trace|done]|].
  eapply stage_stopped in H; [|by apply (stage_now (fun _ _ => True))].
  destruct H as [[? ?]|(t7 & now1 & tr7 & -> & Hr7 & _ & H)]; [left; split; [auto 20 with trace|done]|].
  right. apply update_run in H as (x & -> & Hx).
  exists cid, cl, row, (t1 ++ [Ev _ (FindTokenByRefresh rt) (Ok (Some row))] ++ t3 ++ t4 ++ t5 ++ t6 ++ t7), access,
    (now1 + ACCESS_TOKEN_LIFETIME * 1000), scopes, x.
  split; [by rewrite <- !app_assoc|]. split; [auto 20 with trace|].
  split; [eapply requester_mono; [|exact Hreq]; auto with trace|].
  split; [apply in_right, in_left, in_here|]. split; [done|]. split; [done|].
  destruct x; [by eexists|done].
Qed.

(** *** The endpoint *)

Lemma catching_run (h : Handler reply) (onError : exn -> prog call reply) tr rep :
  runs (catching h onError) tr (Some rep) ->
  exists tr1 r tr2, tr = tr1 ++ tr2 /\ runs h tr1 (Some r)
    /\ match r with
       | Ok x | Throw (Replied x) => tr2 = [] /\ rep = x
       | Throw (Thrown e) => runs (onError e) tr2 (Some rep)
       end.
Proof.
  intros (tr1 & r & tr2 & -> & H1 & H2)%runs_bind_inv. exists tr1, r, tr2. split; [done|]. split; [done|].
  destruct r as [x|[x|e]]; [by destruct H2 as [-> [= ->]]..|done].
Qed.

Definition server_error_reply : reply := Json 500 (error_json "server_error" "Internal server error").

(** The three kinds of run of the token endpoint. *)
Lemma token_run (req : HttpRequest) tr rep :
  runs (token req) tr (Some rep) ->
  exists r, match r with Ok x | Throw (Replied x) => rep = x | Throw (Thrown _) => rep = server_error_reply end
    /\ ((reading tr /\ stopped r) \/ claims_and_issues req (body req) tr r \/ refreshes req (body req) tr r).
Proof.
  intros (tr1 & r & tr2 & -> & H & Hrep)%catching_run. exists r.
  assert (tr2 = [] /\ match r with Ok x | Throw (Replied x) => rep = x | Throw (Thrown _) => rep = server_error_reply end)
    as [-> Hr].
  { destruct r as [x|[x|e]]; [done..|]. by destruct Hrep as [-> [= ->]]. }
  split; [done|]. rewrite app_nil_r.
  destruct (jfield (body req) "grant_type") as [gt|]; [|by left; destruct H as [-> [= ->]]; split; [constructor|]].
  destruct (negb _); [left; apply refused_stopped in H as [-> ?]; [by split; [constructor|]|by left]|].
  destruct (js_strict_eq gt _).
  { apply code_grant_run in H as [?|?]; [by left|by right; left]. }
  destruct (js_strict_eq gt _).
  { apply refresh_run in H as [?|?]; [by left|by right; right]. }
  left. apply refused_stopped in H as [-> ?]; [by split; [constructor|]|by left].
Qed.

Lemma reading_no (tr : list (event call)) (ev : event call) : reading tr -> ev ∈ tr -> is_write ev = false.
Proof. intros H. by apply (proj1 (Forall_forall _ _) H). Qed.

(** C11: (C0) An access token comes from a code only if the code exists, unused and
    unexpired, the request is the code's client's (authenticated with its
    secret unless it is public), for the redirect URI of the authorization,
    with the verifier of the S256 challenge, and the code was claimed by this
    very request; the token is for the code's user, scopes and resource, and
    is the last thing the request does. *)
Theorem code_grant_sound (req : HttpRequest) tr rep d x :
  runs (token req) tr (Some rep) -> Ev _ (CreateToken d) x ∈ tr ->
  exists pre cid row cl now,
    tr = pre ++ [Ev _ (CreateToken d) x]
    /\ redeems (body req) cid pre row cl req
    /\ Ev _ (ClaimCode (jfield_opt (body req) "code") now) (Ok 1) ∈ pre
    /\ token_of row cl d.
Proof.
  intros (r & _ & [[Hr _]|[Hc|Hc]])%token_run Hin.
  - by apply (reading_no _ _ Hr) in Hin.
  - destruct Hc as (cid & row & cl & pre & now & y & post & -> & Hpre & [H1 H2 H3] & Hend).
    apply elem_of_app in Hin as [Hin|Hin]; [by apply (reading_no _ _ Hpre) in Hin|].
    apply elem_of_cons in Hin as [Hin|Hin]; [done|].
    destruct Hend as [[-> [[Hr _]|(pre2 & d' & x' & -> & Hpre2 & Htok & _)]]|(_ & -> & _)].
    + by apply (reading_no _ _ Hr) in Hin.
    + apply elem_of_app in Hin as [Hin|Hin]; [by apply (reading_no _ _ Hpre2) in Hin|].
      apply list_elem_of_singleton in Hin. rewrite <- Hin in *.
      exists (pre ++ Ev _ (ClaimCode (jfield_opt (body req) "code") now) (Ok 1) :: pre2), cid, row, cl, now.
      split; [by rewrite <- app_assoc|]. split; [split|].
      * eapply requester_mono; [|exact H1]. auto with trace.
      * by apply in_left.
      * eapply entitled_mono; [|exact H3]. auto with trace.
      * split; [apply in_right, in_here|]. by injection Hin as ->.
    + by apply not_elem_of_nil in Hin.
  - destruct Hc as (? & ? & ? & pre & ? & ? & ? & ? & -> & Hpre & _).
    apply elem_of_app in Hin as [Hin|Hin]; [by apply (reading_no _ _ Hpre) in Hin|].
    by apply list_elem_of_singleton in Hin.
Qed.
End Grants.
