(* ===== verification/OAuthSafety.v ===== *)
(** * OAuth: codes, grants and revocation under concurrency

    The results of [OAuthGrants] on single runs, put together over the tables
    of [OAuthTables] for any number of concurrent requests. *)
From Stdlib Require Import Ascii ZArith Lia.
From stdpp Require Import base gmap strings list relations.
From S2P Require Import Prelude Json JsMap WebPlatform OAuthService OAuthDesk TokenValidators ClientMetadata OAuthClients OAuthController OAuthAuthorize OAuthTables OAuthGrants Effects Interleaving.
Open Scope Z_scope.

Definition creates_token (ev : event call) : bool :=
  match ev with Ev _ e _ => match e with CreateToken _ => true | _ => false end end.

(** The only write a refused request makes: a claim that claims nothing. *)
Definition failed_claim (ev : event call) : Prop :=
  match ev with
  | Ev _ e x => match e in call X return X -> Prop with
                | ClaimCode _ _ => fun r => exists n, r = Ok n /\ n <> 1
                | _ => fun _ => False
                end x
  end.

Section Safety.
Context `{P : Platform}.

(** (C0) The replies of the token endpoint: a refusal (400 or 401 with an
    error and its description) leaves the tables alone, an internal error is
    reported as such without details, and anything else is the answer of a
    grant that wrote its token. *)
Theorem token_refusals_harmless (req : HttpRequest) tr rep :
  runs (token req) tr (Some rep) ->
  (refusal rep /\ forall ev, ev ∈ tr -> is_write ev = true -> failed_claim ev)
  \/ rep = server_error_reply
  \/ (exists v, rep = Json 200 v) /\ exists ev, ev ∈ tr /\ is_write ev = true.
Proof.
  intros (r & Hrep & [[Hr Hs]|[Hc|Hc]])%token_run.
  - destruct r as [x|[x|e]]; [done| |by right; left]. left. subst. split; [done|].
    intros ev Hin Hw. rewrite (reading_no _ _ Hr Hin) in Hw. done.
  - destruct Hc as (cid & row & cl & pre & now & y & post & -> & Hpre & _ & [[-> Hi]|(Hy & -> & Hs & Hok)]).
    + destruct Hi as [[_ [e ->]]|(pre2 & d & x & -> & _ & _ & Hx)]; [by right; left|].
      destruct x as [[]|e]; [|subst r; by right; left]. destruct Hx as [v ->]. subst rep. right; right.
      split; [by exists v|]. exists (Ev _ (CreateToken d) (Ok tt)). split; [|done]. auto with trace.
    + destruct r as [x|[x|e]]; [done| |by right; left]. left. subst. split; [done|].
      intros ev Hin Hw. apply elem_of_app in Hin as [Hin|Hin]; [by rewrite (reading_no _ _ Hpre Hin) in Hw|].
      apply list_elem_of_singleton in Hin as ->. destruct Hok as [Hok|[e He]]; [|done].
      destruct y as [n|e]; [|done]. exists n. split; [done|congruence].
  - destruct Hc as (cid & cl & row & pre & access & ex & scopes & y & -> & _ & _ & _ & _ & _ & Hy).
    destruct y as [[]|e]; [|subst r; by right; left]. destruct Hy as [v ->]. subst rep. right; right.
    split; [by exists v|]. eexists. split; [apply in_right, in_here|done].
Qed.

(** ** One token for one code *)

(** The requests that redeem the code [c]. *)
Definition redeems_code (c : string) (req : HttpRequest) : bool :=
  json_eqb (jfield_opt (body req) "code") (JStr c).

(** A request creates a token only after a successful claim of its code. *)
Lemma run_tokens_claims (req : HttpRequest) (c : string) tr rest rep :
  redeems_code c req = true -> runs (token req) (tr ++ rest) (Some rep) ->
  (count creates_token tr <= count (claims c) tr)%nat.
Proof.
  intros Hc%json_eqb_eq (r & _ & H)%token_run.
  assert (Hzero : forall l, reading l -> count creates_token l = 0%nat).
  { intros l Hl. apply count_zero. eapply Forall_impl; [exact Hl|]. intros [X e x]. by destruct e. }
  assert (Hle : forall pre, reading pre -> tr `prefix_of` pre -> count creates_token tr = 0%nat).
  { intros pre Hpre [k ->]. apply Forall_app in Hpre as [Hpre _]. by apply Hzero. }
  destruct H as [[Hr _]|[H|H]].
  - rewrite (Hle _ Hr); [lia|by exists rest].
  - destruct H as (cid & row & cl & pre & now & y & post & Htr & Hpre & _ & Hend). rewrite Hc in Htr.
    destruct (app_eq_inv _ _ _ _ Htr) as [(k & -> & Heq)|(k & Heq & _)]; [|rewrite (Hle _ Hpre); [lia|by exists k]].
    destruct k as [|ev k]; [rewrite app_nil_r, (Hzero _ Hpre); lia|]. injection Heq as <- Heq.
    rewrite !count_app, !count_cons, (Hzero _ Hpre). cbn [creates_token].
    destruct Hend as [[-> Hi]|(_ & -> & _)].
    + cbn [claims json_eqb]. rewrite str_eqb_refl. cbn.
      enough (count creates_token post <= 1)%nat by (subst post; rewrite count_app in *; lia).
      destruct Hi as [[Hr _]|(pre2 & d & x & -> & Hpre2 & _)]; [rewrite (Hzero _ Hr); lia|].
      rewrite count_app, (Hzero _ Hpre2). cbn. lia.
    + destruct k; [cbn; lia|done].
  - destruct H as (cid & cl & row & pre & access & ex & scopes & y & Htr & Hpre & _).
    assert (Hz : count creates_token (tr ++ rest) = 0%nat).
    { by rewrite Htr, count_app, (Hzero _ Hpre). }
    rewrite count_app in Hz. lia.
Qed.

(** Requests to the token endpoint among the threads of a history. *)
Definition token_threads (reqs : gmap nat HttpRequest) (tr : list (nat * event call)) : Prop :=
  forall i req, reqs !! i = Some req -> started (token req) (of_thread i tr).

(** C12: (C0) However many requests present the same code, and however their steps
    interleave with one another and with anything else that uses the tables,
    the tokens they create are no more than the times the code was created
    (once, since codes are random), plus one if it was there, unused, at the
    start. *)
Theorem code_redeemed_once (reqs : gmap nat HttpRequest) (c : string) (ids : list nat) s tr s' :
  history s tr s' -> token_threads reqs tr -> NoDup ids ->
  (forall i, i ∈ ids -> exists req, reqs !! i = Some req /\ redeems_code c req = true) ->
  (count (by_threads ids creates_token) tr
   <= count (fun p => creates c (snd p)) tr + unclaimed s c)%nat.
Proof.
  intros Hh Hthreads Hnd Hids. pose proof (claims_bounded s tr s' c Hh) as Hclaims.
  assert (count (by_threads ids creates_token) tr <= count (fun p => claims c (snd p)) tr)%nat; [|lia].
  apply count_by_threads_le; [done|]. intros i Hi. destruct (Hids i Hi) as (req & Hreq & Hcode).
  destruct (Hthreads i req Hreq) as (rest & rep & Hrun). by eapply run_tokens_claims.
Qed.

(** ** Refreshing never widens a grant *)

(** Every token row's scopes are among those it was created with. *)
Definition scopes_ok (s : Tables) : Prop :=
  forall j r, tokens s !! j = Some r -> tokenId r = j /\ exists g, granted s !! j = Some g /\ token_scopes r ⊆ g.

(** What every step of every program keeps: the grants. *)
Definition grants_kept (s s' : Tables) : Prop := granted s ⊆ granted s'.

Lemma change_grants (s s' : Tables) : tokens_change s s' -> grants_kept s s'.
Proof.
  intros [s0 Ht Hg|s0 Q HQ Ht Hg|id d Hg Ht|id r a ex sc Hr|id r Hr]; unfold grants_kept; rewrite ?Hg; try done.
  cbn. by apply insert_subseteq.
Qed.

(** A step that refreshes with scopes of the grant, or that does not refresh. *)
Lemma step_scopes (X : Type) (e : call X) (s : Tables) (x : X) (s' : Tables) :
  answers X e s x s' -> scopes_ok s ->
  (forall j access ex l, match e with UpdateToken j' a' ex' l' => (j, access, ex, l) = (j', a', ex', l') | _ => False end ->
     forall g, granted s !! j = Some g -> l ⊆ g) ->
  scopes_ok s' /\ grants_kept s s'.
Proof.
  intros Ha Hok Hup. split; [|by eapply change_grants, answers_change].
  assert (Hsame : forall s0, tokens s0 ⊆ tokens s -> granted s0 = granted s -> scopes_ok s0).
  { intros s0 Ht Hg j r Hj. rewrite Hg. apply Hok. by eapply lookup_weaken. }
  destruct e; cbn [answers] in Ha;
    first [by subst|by destruct Ha as [-> _]|apply writes_inv in Ha as [[-> _]|(a & H & _)]; [done|]].
  - destruct H as (_ & _ & _ & ->). by apply Hsame.
  - destruct H as (_ & _ & ->). by apply Hsame.
  - subst. apply Hsame; [|done]. apply map_filter_subseteq.
  - destruct H as (uri & _ & _ & ->). by apply Hsame.
  - destruct H as (id & _ & H). destruct (codes s !! id) as [r|]; [|by destruct H as [_ ->]].
    destruct (claimable r now); destruct H as [_ ->]; [by apply Hsame|done].
  - destruct H as (id & Hg & Ht & _ & ->). intros j r Hj. cbn in *. destruct (decide (id = j)) as [->|Hne].
    + rewrite lookup_insert_eq in Hj. injection Hj as <-. split; [done|]. exists (nt_scopes d). split; [apply lookup_insert_eq|done].
    + rewrite lookup_insert_ne in Hj by done. rewrite lookup_insert_ne by done. by apply Hok.
  - destruct H as (r & Hr & _ & ->). intros j r' Hj. destruct (insert_token_cases _ _ _ _ _ Hj) as [[-> ->]|[_ H]].
    + destruct (Hok _ _ Hr) as (Hid & g & Hg & _). split; [done|]. exists g. split; [done|]. by eapply Hup.
    + by apply Hok.
  - destruct H as (r & Hr & ->). intros j r' Hj. destruct (insert_token_cases _ _ _ _ _ Hj) as [[-> ->]|[_ H]];
      [exact (Hok _ _ Hr)|by apply Hok].
Qed.

Definition is_update (ev : event call) : bool :=
  match ev with Ev _ e _ => match e with UpdateToken _ _ _ _ => true | _ => false end end.

Lemma update_is_write (ev : event call) : is_update ev = true -> is_write ev = true.
Proof. destruct ev as [X e x]. by destruct e. Qed.

(** A request rewrites only the row its refresh token was found in, with
    scopes the row had when it was found. *)
Lemma run_update (req : HttpRequest) l j access ex sc x k rep :
  runs (token req) (l ++ Ev _ (UpdateToken j access ex sc) x :: k) (Some rep) ->
  exists row v, tokenId row = j /\ sc ⊆ token_scopes row /\ Ev _ (FindTokenByRefresh v) (Ok (Some row)) ∈ l.
Proof.
  intros (r & _ & H)%token_run. set (ev := Ev _ (UpdateToken j access ex sc) x) in *.
  assert (Hin : ev ∈ l ++ ev :: k) by auto with trace.
  assert (Hno : forall pre, reading pre -> ev ∉ pre) by (intros pre Hpre Hev; by apply (reading_no _ _ Hpre) in Hev).
  destruct H as [[Hr _]|[H|H]].
  - by apply (Hno _ Hr) in Hin.
  - exfalso. destruct H as (? & ? & ? & pre & now & y & post & Heq & Hpre & _ & Hend). rewrite Heq in Hin.
    apply elem_of_app in Hin as [Hin|Hin]; [by apply (Hno _ Hpre)|].
    apply elem_of_cons in Hin as [Hin|Hin]; [done|].
    destruct Hend as [[_ [[Hr _]|(pre2 & d & z & -> & Hpre2 & _)]]|(_ & -> & _)].
    + by apply (Hno _ Hr).
    + apply elem_of_app in Hin as [Hin|Hin]; [by apply (Hno _ Hpre2)|]. by apply list_elem_of_singleton in Hin.
    + by apply not_elem_of_nil in Hin.
  - destruct H as (cid & cl & row & pre & a' & ex' & sc' & y & Heq & Hpre & _ & Hfound & _ & Hsc & _).
    destruct k as [|z k _] using rev_ind.
    + apply app_inj_tail in Heq as [-> Hev]. injection Hev as -> -> -> ->.
      exists row, (jfield_opt (body req) "refresh_token"). done.
    + rewrite app_comm_cons, app_assoc in Heq. apply app_inj_tail in Heq as [<- _].
      exfalso. apply (Hno _ Hpre). auto with trace.
Qed.

(** What was read of tokens is within their grants. *)
Definition reads_granted (past : list (nat * event call)) (s : Tables) : Prop :=
  forall i ev r, (i, ev) ∈ past -> shows r ev -> exists g, granted s !! tokenId r = Some g /\ token_scopes r ⊆ g.

Lemma step_shown (X : Type) (e : call X) (s : Tables) (x : X) (s' : Tables) (r : OAuthToken) :
  answers X e s x s' -> scopes_ok s -> shows r (Ev X e x) ->
  exists g, granted s !! tokenId r = Some g /\ token_scopes r ⊆ g.
Proof.
  intros Ha Hok Hs. destruct e; cbn in Hs; try done; subst x; destruct Ha as [_ (v & _ & Hr & _)];
    by apply (Hok _ _ Hr).
Qed.

Definition updates_by_requests (reqs : gmap nat HttpRequest) (tr : list (nat * event call)) : Prop :=
  forall i ev, (i, ev) ∈ tr -> is_update ev = true -> is_Some (reqs !! i).

Lemma history_scopes (reqs : gmap nat HttpRequest) s tr s' :
  history s tr s' -> forall past, token_threads reqs (past ++ tr) -> updates_by_requests reqs tr ->
  scopes_ok s -> reads_granted past s -> scopes_ok s' /\ grants_kept s s'.
Proof.
  induction 1 as [s|s i X e x s1 tr s2 Ha Hh IH]; intros past Hthr Hup Hok Hpast; [by split; [|unfold grants_kept]|].
  assert (Hstep : scopes_ok s1 /\ grants_kept s s1).
  { apply (step_scopes X e s x s1 Ha Hok). intros j access ex l He g Hg. destruct e; try done.
    injection He as -> -> -> ->.
    destruct (Hup i (Ev _ (UpdateToken tokenId accessToken expiresAt scopes) x)) as [req Hreq]; [apply in_here|done|].
    destruct (Hthr i req Hreq) as (rest & rep & Hrun).
    rewrite of_thread_app, of_thread_here, <- app_assoc in Hrun. cbn [app] in Hrun.
    apply run_update in Hrun as (row & v & <- & Hsub & Hfound).
    apply of_thread_elem in Hfound. destruct (Hpast i _ row Hfound) as (g' & Hg' & Hsub'); [done|].
    rewrite Hg in Hg'. injection Hg' as <-. by transitivity (token_scopes row). }
  destruct Hstep as [Hok1 Hkept].
  destruct (IH (past ++ [(i, Ev X e x)])) as [H1 H2].
  - by rewrite <- app_assoc.
  - intros k ev Hin. apply Hup. by apply in_later.
  - done.
  - intros k ev r Hin Hs. assert (exists g, granted s !! tokenId r = Some g /\ token_scopes r ⊆ g) as (g & Hg & Hsub).
    { apply elem_of_app in Hin as [Hin|Hin]; [by eapply Hpast|]. apply list_elem_of_singleton in Hin. injection Hin as -> ->.
      by eapply step_shown. }
    exists g. split; [by eapply lookup_weaken|done].
  - split; [done|]. unfold grants_kept in *. by transitivity (granted s1).
Qed.

(** C13: (C0) Refreshing never widens a grant, even when refreshes of the same
    token race each other and narrow its scopes at different times: at every
    moment the scopes of every token are among those it was issued with. *)
Theorem refresh_never_widens (reqs : gmap nat HttpRequest) s tr s' :
  history s tr s' -> token_threads reqs tr -> updates_by_requests reqs tr -> scopes_ok s ->
  scopes_ok s' /\ grants_kept s s'.
Proof.
  intros Hh Hthr Hup Hok. apply (history_scopes reqs s tr s' Hh []); try done.
  intros i ev r Hin. by apply not_elem_of_nil in Hin.
Qed.

(** ** Valid tokens *)

(** What a validated access token stands on. *)
Record token_accepted (token : string) (aud : option string) (tr : list (event call)) (ctx : AuthContext)
    (row : OAuthToken) (user : User) (decoded : json) : Prop := {
  accepted_signed : exists t, Ev _ Now t ∈ tr /\ jwt_verify token JWT_SECRET t = Ok decoded;
  accepted_type : jfield decoded "type" = Some (JStr "access_token");
  accepted_row : Ev _ (FindTokenByAccess (JStr token)) (Ok (Some row)) ∈ tr;
  accepted_live : revoked row = false /\ exists t, Ev _ Now t ∈ tr /\ t <= accessTokenExpiresAt row;
  accepted_audience : forall a, audience_of aud = Some a -> token_resource row = Some a /\ JStr a ∈ audiences decoded;
  accepted_user : Ev _ (FindUser (jfield_opt decoded "user_id")) (Ok (Some user)) ∈ tr;
  accepted_user_live : status user = UserStatus_Enabled /\ exists t, Ev _ Now t ∈ tr /\ user_expired user t = false;
  accepted_context : ctx_userId ctx = userId user /\ ctx_oauthClientId ctx = jfield_opt decoded "client_id"
                     /\ ctx_oauthScopes ctx = jfield_opt decoded "scopes"
                     /\ parse_json (user_permissions user) = Ok (ctx_permissions ctx)
}.

Lemma verify_signature_run (token : string) tr decoded :
  runs (verify_signature token) tr (Some (Ok decoded)) ->
  exists t, tr = [Ev _ Now t] /\ jwt_verify token JWT_SECRET t = Ok decoded.
Proof.
  unfold verify_signature. destruct (str_eqb _ _); [by intros [_ [=]]|].
  intros (t & tr' & -> & H). exists t. destruct (jwt_verify token JWT_SECRET t); destruct H as [-> H]; [by injection H as ->|done].
Qed.

Lemma validate_run (token : string) (aud : option string) tr :
  runs (validate token aud) tr (Some true) ->
  exists row t, tr = [Ev _ (FindTokenByAccess (JStr token)) (Ok (Some row)); Ev _ Now t]
    /\ revoked row = false /\ t <= accessTokenExpiresAt row
    /\ forall a, audience_of aud = Some a -> token_resource row = Some a.
Proof.
  unfold validate. intros (x & tr1 & -> & H). destruct x as [[row|]|]; [|by destruct H as [_ [=]]..].
  destruct (revoked row) eqn:Hrev; [by destruct H as [_ [=]]|]. destruct H as (t & tr2 & -> & H).
  destruct (accessTokenExpiresAt row <? t) eqn:Hexp; [by destruct H as [_ [=]]|]. to_prop.
  exists row, t. destruct (audience_of aud) as [a|]; destruct H as [-> H]; (split; [done|]).
  - injection H as H. symmetry in H. apply bool_decide_eq_true in H. split; [done|]. split; [done|]. by intros a' [= <-].
  - done.
Qed.

Lemma user_context_run (decoded : json) (token : string) tr ctx :
  runs (user_context decoded token) tr (Some (Ok ctx)) ->
  exists user t rest, tr = Ev _ (FindUser (jfield_opt decoded "user_id")) (Ok (Some user)) :: Ev _ Now t :: rest
    /\ status user = UserStatus_Enabled /\ user_expired user t = false
    /\ ctx_userId ctx = userId user /\ ctx_oauthClientId ctx = jfield_opt decoded "client_id"
    /\ ctx_oauthScopes ctx = jfield_opt decoded "scopes"
    /\ parse_json (user_permissions user) = Ok (ctx_permissions ctx).
Proof.
  unfold user_context. intros (x & tr1 & -> & H). destruct x as [[user|]|]; [|by destruct H as [_ [=]]..].
  destruct (negb _) eqn:Hst; [by destruct H as [_ [=]]|]. destruct H as (t & tr2 & -> & H).
  destruct (user_expired user t) eqn:Hexp; [by destruct H as [_ [=]]|]. to_prop.
  destruct (parse_json (user_permissions user)) as [p|] eqn:Hp; [|by destruct H as [_ [=]]].
  destruct (parse_json (preferences_text user)); [|by destruct H as [_ [=]]].
  destruct H as (t' & tr3 & -> & -> & [= ->]). exists user, t, [Ev _ Now t']. done.
Qed.

Lemma oauth_token_run (token : string) (aud : option string) tr ctx :
  runs (oauth_validateToken token aud) tr (Some (Ok ctx)) ->
  exists row user decoded, token_accepted token aud tr ctx row user decoded.
Proof.
  unfold oauth_validateToken.
  intros [(? & _ & [=])|(tr1 & decoded & tr2 & -> & H1 & H)]%runs_await_inv.
  apply verify_signature_run in H1 as (t1 & -> & Hjwt).
  destruct (jfield decoded "type") as [ty|] eqn:Hty; [|by destruct H as [_ [=]]].
  destruct (negb (js_strict_eq ty _)) eqn:Htype; [by destruct H as [_ [=]]|].
  destruct (negb (audience_ok decoded aud)) eqn:Haud; [by destruct H as [_ [=]]|].
  destruct H as (t2 & tr3 & -> & H). destruct (payload_expired decoded t2); [by destruct H as [_ [=]]|].
  apply runs_bind_inv in H as (tr4 & valid & tr5 & -> & H4 & H).
  destruct valid; cbn [negb] in H; [|by destruct H as [_ [=]]].
  apply validate_run in H4 as (row & t3 & -> & Hrev & Hexp & Hres).
  apply user_context_run in H as (user & t4 & rest & -> & Hst & Hue & Hctx).
  exists row, user, decoded. split; try done.
  - exists t1. split; [apply in_here|done].
  - rewrite Hty. f_equal. to_prop. unfold js_strict_eq in Htype. destruct ty; try done. by apply json_eqb_eq in Htype.
  - auto 10 with trace.
  - split; [done|]. exists t3. split; [auto 10 with trace|done].
  - intros a Ha. split; [by apply Hres|]. to_prop. unfold audience_ok in Haud. rewrite Ha in Haud.
    apply existsb_exists in Haud as (v & Hv & Heq). apply list_elem_of_In in Hv.
    unfold js_strict_eq in Heq. destruct v; try done. apply json_eqb_eq in Heq. by rewrite <- Heq.
  - auto 10 with trace.
  - split; [done|]. exists t4. split; [auto 10 with trace|done].
Qed.

(** C36: (C0) A bearer token of the OAuth server is accepted only if it is signed
    with the server's secret, of the right type, in the token table, neither
    revoked nor expired there, for the audience asked for (in the table and
    in the token), and its user exists, is enabled and has not expired; the
    session then acts as that user, with that user's permissions and the
    token's client and scopes. *)
Theorem oauth_token_sound (token : string) (aud : option string) tr ctx :
  runs (oauth_validateToken token aud) tr (Some (Ok ctx)) ->
  exists row user decoded, token_accepted token aud tr ctx row user decoded.
Proof. apply oauth_token_run. Qed.

(** C14: (C0) Revocation is final: once the row of a grant is revoked, no
    validation that starts later, whatever else runs meanwhile (refreshes of
    that grant among it), accepts a token on the strength of that row. *)
Theorem revocation_final s tr s' (j : string) (i : nat) token aud ctx :
  history s tr s' -> revoked_for_good j s -> runs (oauth_validateToken token aud) (of_thread i tr) (Some (Ok ctx)) ->
  exists row, (i, Ev _ (FindTokenByAccess (JStr token)) (Ok (Some row))) ∈ tr /\ tokenId row <> j.
Proof.
  intros Hh Hrev Hrun. destruct (oauth_token_run _ _ _ _ Hrun) as (row & user & decoded & Hacc).
  pose proof (accepted_row _ _ _ _ _ _ _ Hacc) as Hrow. apply of_thread_elem in Hrow.
  exists row. split; [done|]. intros Hid.
  assert (revoked row = true) as Htrue by (by eapply (revoked_shown s tr s' j Hh Hrev)).
  destruct (accepted_live _ _ _ _ _ _ _ Hacc) as [Hlive _]. congruence.
Qed.
End Safety.
