(* ===== verification/OAuthWorld.v ===== *)
(** * OAuth: tables that run

    An executable implementation of the answers of [OAuthTables], shown to be
    one, and on it the concrete requests that exercise the theorems of
    [OAuthGrants] and [OAuthSafety]. *)
From Stdlib Require Import Ascii ZArith Lia.
From stdpp Require Import base gmap strings list fin_maps.
From S2P Require Import Prelude Json JsMap WebPlatform OAuthService OAuthDesk TokenValidators ClientMetadata OAuthClients OAuthController OAuthAuthorize OAuthTables OAuthGrants OAuthSafety Effects Interleaving.
Open Scope Z_scope.

Definition rows {A} (m : gmap string A) : list A := map snd (map_to_list m).

(** The first row that fits. *)
Definition find_row {A} (p : A -> bool) (m : gmap string A) : option A := List.find p (rows m).

Definition conflict {A} : result exn A := Throw (Error "Unique constraint failed").
Definition missing {A} : result exn A := Throw (Error "Record to update not found").
Definition not_a_string {A} : result exn A := Throw (Error "Argument must be a string").

Definition unique_tokenb (s : Tables) (id access : string) (refresh : option string) : bool :=
  bool_decide (map_Forall (fun j r => j <> id -> accessToken r <> access /\ (refresh = None \/ refreshToken r <> refresh))
                 (tokens s)).

Definition new_client (d : ClientData) (name : string) (now : Z) : OAuthClient := {|
  clientId := cd_clientId d; issuer := cd_issuer d; clientSecret := cd_clientSecret d;
  applicationType := cd_applicationType d; tokenEndpointAuthMethod := cd_authMethod d; client_name := name;
  redirectUris := cd_redirectUris d; scopes := cd_scopes d; grantTypes := cd_grantTypes d;
  responseTypes := cd_responseTypes d; client_userId := cd_userId d; trusted := false; createdAt := now;
  updatedAt := now
|}.

Definition update_client (d : ClientUpdate) (now : Z) (c : OAuthClient) : OAuthClient := {|
  clientId := clientId c; issuer := issuer c; clientSecret := clientSecret c;
  applicationType := default (applicationType c) (cu_applicationType d);
  tokenEndpointAuthMethod := tokenEndpointAuthMethod c;
  client_name := match cu_name d with Some (JStr n) => n | _ => client_name c end;
  redirectUris := default (redirectUris c) (cu_redirectUris d); scopes := default (scopes c) (cu_scopes d);
  grantTypes := default (grantTypes c) (cu_grantTypes d); responseTypes := default (responseTypes c) (cu_responseTypes d);
  client_userId := client_userId c; trusted := trusted c; createdAt := createdAt c; updatedAt := now
|}.

Definition new_token_id (s : Tables) : string := "token" +:+ z_to_string (Z.of_nat (size (granted s))).

Section World.
(** The users, and everything that is not in the tables. *)
Variable users : list User.
Variable elsewhere : forall X, call X -> X.

Definition exec (X : Type) (e : call X) (w : Tables * Z) : X * (Tables * Z) :=
  let '(s, now) := w in
  match e in call X return X * (Tables * Z) with
  | Now => (now, (s, now + 1))
  | RandomBytes _ => ("random" +:+ z_to_string now, (s, now + 1))
  | FindFirstClient (JStr id) i =>
      (Ok match clients s !! id with
          | Some c => if str_eqb (issuer c) i && str_eqb (clientId c) id then Some c else None
          | None => None
          end, w)
  | FindFirstClient _ _ => (not_a_string, w)
  | FindUniqueClient (JStr id) => (Ok (clients s !! id), w)
  | FindUniqueClient _ => (not_a_string, w)
  | CreateClient d =>
      match cd_name d, clients s !! cd_clientId d with
      | JStr name, None => let c := new_client d name now in
                           (Ok c, (set_clients (insert (cd_clientId d) c) s, now))
      | _, _ => (conflict, w)
      end
  | UpdateClient id d =>
      match clients s !! id with
      | Some c => let c' := update_client d now c in
                  if str_eqb (clientId c) id then (Ok c', (set_clients (insert id c') s, now)) else (missing, w)
      | None => (missing, w)
      end
  | DeleteClient id =>
      (Ok tt, (cascade_delete id s, now))
  | FindCode (JStr c) => (Ok (codes s !! c), w)
  | FindCode _ => (not_a_string, w)
  | CreateCode d =>
      match nc_redirectUri d, codes s !! nc_code d with
      | JStr uri, None => (Ok tt, (set_codes (insert (nc_code d) (code_row d uri)) s, now))
      | _, _ => (conflict, w)
      end
  | ClaimCode (JStr c) t =>
      match codes s !! c with
      | Some r => if claimable r t then (Ok 1, (set_codes (insert c (claim_row r)) s, now)) else (Ok 0, w)
      | None => (Ok 0, w)
      end
  | ClaimCode _ _ => (not_a_string, w)
  | FindTokenByRefresh (JStr v) =>
      (Ok (find_row (fun r => bool_decide (refreshToken r = Some v /\ tokens s !! tokenId r = Some r)) (tokens s)), w)
  | FindTokenByRefresh _ => (not_a_string, w)
  | FindTokenByAccess (JStr v) =>
      (Ok (find_row (fun r => bool_decide (accessToken r = v /\ tokens s !! tokenId r = Some r)) (tokens s)), w)
  | FindTokenByAccess _ => (not_a_string, w)
  | CreateToken d =>
      let id := new_token_id s in
      if bool_decide (granted s !! id = None /\ tokens s !! id = None)
         && unique_tokenb s id (nt_accessToken d) (nt_refreshToken d)
      then (Ok tt, (set_granted (insert id (nt_scopes d)) (set_tokens (insert id (token_row id d)) s), now))
      else (conflict, w)
  | UpdateToken id access expires scopes =>
      match tokens s !! id with
      | Some r => if unique_tokenb s id access None
                  then (Ok tt, (set_tokens (insert id (refresh_row access expires scopes r)) s, now))
                  else (conflict, w)
      | None => (missing, w)
      end
  | RevokeToken id =>
      match tokens s !! id with
      | Some r => (Ok tt, (set_tokens (insert id (revoke_row r)) s, now))
      | None => (missing, w)
      end
  | FindUser (JStr u) => (Ok (List.find (fun r => str_eqb (userId r) u) users), w)
  | FindUser _ => (not_a_string, w)
  | e => (elsewhere _ e, w)
  end.

Lemma find_row_some {A} (p : A -> bool) (m : gmap string A) (r : A) : find_row p m = Some r -> p r = true.
Proof. apply find_some. Qed.

Lemma find_row_none {A} (p : A -> bool) (m : gmap string A) (k : string) (r : A) :
  find_row p m = None -> m !! k = Some r -> p r = false.
Proof.
  intros H Hk. apply (find_none _ _ H). unfold rows. apply in_map_iff. exists (k, r). split; [done|].
  by apply list_elem_of_In, elem_of_map_to_list.
Qed.

Lemma unique_tokenb_spec (s : Tables) (id access : string) (refresh : option string) :
  unique_tokenb s id access refresh = true -> unique_token s id access refresh.
Proof. intros H%bool_decide_eq_true j r Hj. by apply (H j r). Qed.

(** The executable tables answer as specified. *)
Lemma exec_answers (X : Type) (e : call X) (w : Tables * Z) :
  keyed (fst w) -> answers X e (fst w) (fst (exec X e w)) (fst (snd (exec X e w))).
Proof.
  destruct w as [s now]. intros [Hkc Hkt].
  destruct e as [ |n|cid iss|cid|u|d|id d|id|h|u a|cd|d|cd t|v|v|d|id access ex sc|id|uid|p i|f p i|f|f r|f x y| | ];
    cbn [exec answers fst snd]; try done.
  - destruct cid as [| | | |id| |]; try (by split). split; [done|]. cbn.
    destruct (clients s !! id) as [c|] eqn:Hc; [destruct (str_eqb (issuer c) iss && str_eqb (clientId c) id) eqn:Heq|].
    + apply andb_true_iff in Heq as [H1%str_eqb_eq H2%str_eqb_eq]. split_and! ; [by rewrite H2|done|]. by intros id' [= <-].
    + intros id' r [= <-] Hr Hi. rewrite Hc in Hr. injection Hr as <-.
      rewrite Hi, str_eqb_refl, (Hkc _ _ Hc), str_eqb_refl in Heq. done.
    + intros id' r [= <-] Hr. congruence.
  - destruct cid as [| | | |id| |]; try (by split). split; [done|]. by exists id.
  - destruct (cd_name d); try (by left). destruct (clients s !! cd_clientId d) eqn:Hc; [by left|]. done.
  - destruct (clients s !! id) as [c|] eqn:Hc; [|by left].
    destruct (str_eqb (clientId c) id) eqn:Hid; [|by left]. apply str_eqb_eq in Hid. cbn. by eauto.
  - destruct cd as [| | | |id| |]; try (by split). split; [done|]. by exists id.
  - destruct (nc_redirectUri d) as [| | | |uri| |] eqn:Hu; try (by left).
    destruct (codes s !! nc_code d) eqn:Hc; [by left|]. cbn. by exists uri.
  - destruct cd as [| | | |id| |]; try (by left).
    destruct (codes s !! id) as [r|] eqn:Hc; [destruct (claimable r t) eqn:Hcl|]; cbn; exists id;
      (split; [done|]); rewrite Hc, ?Hcl; done.
  - destruct v as [| | | |v| |]; try (by split). split; [done|]. cbn. exists v. split; [done|].
    destruct (find_row _ (tokens s)) as [r|] eqn:Hf.
    + apply find_row_some in Hf. to_prop. naive_solver.
    + intros j r Hj Hr. eapply find_row_none in Hf; [|exact Hj]. to_prop. apply Hf. split; [done|].
      by rewrite (Hkt _ _ Hj).
  - destruct v as [| | | |v| |]; try (by split). split; [done|]. cbn. exists v. split; [done|].
    destruct (find_row _ (tokens s)) as [r|] eqn:Hf.
    + apply find_row_some in Hf. to_prop. naive_solver.
    + intros j r Hj Hr. eapply find_row_none in Hf; [|exact Hj]. to_prop. apply Hf. split; [done|].
      by rewrite (Hkt _ _ Hj).
  - destruct (bool_decide _ && _) eqn:Hb; [|by left]. to_prop. cbn. exists (new_token_id s).
    apply unique_tokenb_spec in H0. naive_solver.
  - destruct (tokens s !! id) as [r|] eqn:Hr; [|by left].
    destruct (unique_tokenb s id access None) eqn:Hu; [|by left]. cbn. exists r.
    split; [done|]. split; [by apply unique_tokenb_spec|done].
  - destruct (tokens s !! id) as [r|] eqn:Hr; [|by left]. cbn. by exists r.
  - by destruct uid.
Qed.

Lemma run_history {A} (i : nat) (p : prog call A) (w : Tables * Z) :
  keyed (fst w) ->
  history (fst w) (map (pair i) (fst (fst (run_with exec p w)))) (fst (snd (run_with exec p w)))
  /\ keyed (fst (snd (run_with exec p w))).
Proof.
  revert w. induction p as [a|X e k IH|]; intros w Hk; cbn [run_with]; [by split; [constructor|]| |by split; [constructor|]].
  pose proof (exec_answers X e w Hk) as Ha. destruct (exec X e w) as [x w1]. cbn [fst snd] in Ha.
  pose proof (answers_keyed _ _ _ _ _ Ha Hk) as Hk1. destruct (IH x w1 Hk1) as [Hh Hk2].
  destruct (run_with exec (k x) w1) as [[tr r] w2]. cbn in *. split; [by econstructor|done].
Qed.
End World.

(** ** An example: one code, redeemed twice; its token refreshed, another
    token revoked *)
Section Example.
Local Open Scope string_scope.

Definition ex_client : OAuthClient := {|
  clientId := "app"; issuer := "http://localhost:3002"; clientSecret := None; applicationType := "native";
  tokenEndpointAuthMethod := "none"; client_name := "App"; redirectUris := ["http://localhost/cb"];
  scopes := ["mcp:tools"; "mcp:resources"]; grantTypes := default_grants; responseTypes := ["code"];
  client_userId := None; trusted := false; createdAt := 0; updatedAt := 0
|}.

Definition ex_code : OAuthAuthorizationCode := {|
  code := "c1"; code_clientId := "app"; code_userId := "u1"; redirectUri := "http://localhost/cb";
  code_scopes := ["mcp:tools"; "mcp:resources"]; code_resource := Some "http://localhost:3002/mcp";
  codeChallenge := Some "S256:verifier"; challengeMethod := Some "S256"; code_expiresAt := 600000; used := false
|}.

Definition ex_old : OAuthToken := {|
  tokenId := "old"; accessToken := "t0"; refreshToken := Some "r0"; token_clientId := "app"; token_userId := "u1";
  token_scopes := ["mcp:tools"]; token_resource := None; accessTokenExpiresAt := 9000000;
  refreshTokenExpiresAt := None; revoked := true
|}.

Definition ex_tables : Tables := {|
  clients := {["app" := ex_client]}; codes := {["c1" := ex_code]}; tokens := {["old" := ex_old]};
  granted := {["old" := ["mcp:tools"]]}
|}.

Definition ex_user : User := {|
  userId := "u1"; status := 1; role := 3; user_permissions := "{}"; user_preferences := ""; launchConfigs := "{}";
  user_expiresAt := 0; ratelimit := 10; proxyId := 0
|}.

Definition ex_exec := exec [ex_user] (fun X e => refuse e).

Definition redeem_request : HttpRequest := {|
  urls := ex_req; authorization := None; query_params := JUndefined;
  body := JObj [("grant_type", JStr "authorization_code"); ("code", JStr "c1"); ("client_id", JStr "app");
                ("redirect_uri", JStr "http://localhost/cb"); ("code_verifier", JStr "verifier")]
|}.

Definition refresh_request (scope : string) : HttpRequest := {|
  urls := ex_req; authorization := None; query_params := JUndefined;
  body := JObj [("grant_type", JStr "refresh_token"); ("refresh_token", JStr "random1003"); ("client_id", JStr "app");
                ("scope", JStr scope)]
|}.

Definition ex_token (req : HttpRequest) := token (P := toy_platform) req.

(** The first redemption, the second, and a refresh that narrows the scopes. *)
Definition run_1 := run_with ex_exec (ex_token redeem_request) (ex_tables, 1000%Z).
Definition run_2 := run_with ex_exec (ex_token redeem_request) (snd run_1).
Definition run_3 := run_with ex_exec (ex_token (refresh_request "mcp:tools")) (snd run_2).

Definition ex_history : list (nat * event call) :=
  map (pair 0%nat) (fst (fst run_1)) ++ map (pair 1%nat) (fst (fst run_2)) ++ map (pair 2%nat) (fst (fst run_3)).

Definition ex_requests : gmap nat HttpRequest :=
  {[0%nat := redeem_request; 1%nat := redeem_request; 2%nat := refresh_request "mcp:tools"]}.
End Example.

Lemma ex_keyed : keyed ex_tables.
Proof.
  split; cbn; intros k r [<- <-]%lookup_singleton_Some; done.
Qed.

Lemma runs_1 : runs (ex_token redeem_request) (fst (fst run_1)) (snd (fst run_1)).
Proof. apply run_with_runs. Qed.
Lemma runs_2 : runs (ex_token redeem_request) (fst (fst run_2)) (snd (fst run_2)).
Proof. apply run_with_runs. Qed.
Lemma runs_3 : runs (ex_token (refresh_request "mcp:tools")) (fst (fst run_3)) (snd (fst run_3)).
Proof. apply run_with_runs. Qed.

Lemma ex_history_ok : history ex_tables ex_history (fst (snd run_3)).
Proof.
  destruct (run_history [ex_user] (fun X e => refuse e) 0 (ex_token redeem_request) (ex_tables, 1000) ex_keyed) as [H1 K1].
  destruct (run_history [ex_user] (fun X e => refuse e) 1 (ex_token redeem_request) (snd run_1) K1) as [H2 K2].
  destruct (run_history [ex_user] (fun X e => refuse e) 2 (ex_token (refresh_request "mcp:tools")) (snd run_2) K2) as [H3 K3].
  exact (interleaving_app _ _ _ _ _ _ H1 (interleaving_app _ _ _ _ _ _ H2 H3)).
Qed.

Lemma pair_elem (i j : nat) (ev : event call) (tr : list (event call)) : (i, ev) ∈ map (pair j) tr -> i = j.
Proof. intros H%list_elem_of_In. apply in_map_iff in H as (e & [= <- _] & _). done. Qed.

Lemma ex_threads : token_threads (P := toy_platform) ex_requests ex_history.
Proof.
  intros i req Hi. unfold ex_history. rewrite !of_thread_app, !of_thread_pair.
  destruct i as [|[|[|i]]]; cbn [Nat.eqb app]; rewrite ?app_nil_r.
  - injection Hi as <-. eapply started_run; [apply runs_1|vm_compute; by eexists].
  - injection Hi as <-. eapply started_run; [apply runs_2|vm_compute; by eexists].
  - injection Hi as <-. eapply started_run; [apply runs_3|vm_compute; by eexists].
  - unfold ex_requests in Hi. rewrite !lookup_insert_ne, lookup_singleton_ne in Hi by lia. done.
Qed.

(** The only token created, by the first request. *)
Definition ex_created : option (event call) := fst (fst run_1) !! 9%nat.

Definition ex_data : TokenData := {|
  nt_accessToken := "key.{" +:+ str_drop 5 (match snd (fst run_1) with
                      | Some (Json _ v) => js_String (jfield_opt v "access_token") | _ => "" end);
  nt_refreshToken := Some "random1003"%string; nt_clientId := "app"; nt_userId := "u1";
  nt_scopes := ["mcp:tools"; "mcp:resources"]%string; nt_resource := Some "http://localhost:3002/mcp"%string;
  nt_accessTokenExpiresAt := 3601004; nt_refreshTokenExpiresAt := Some 2592001005
|}.

Lemma code_grant_sound_witness :
  Ev _ (CreateToken ex_data) (Ok tt) ∈ fst (fst run_1) /\
  exists pre cid row cl now,
    fst (fst run_1) = pre ++ [Ev _ (CreateToken ex_data) (Ok tt)]
    /\ redeems (P := toy_platform) (body redeem_request) cid pre row cl redeem_request
    /\ Ev _ (ClaimCode (jfield_opt (body redeem_request) "code") now) (Ok 1) ∈ pre
    /\ token_of row cl ex_data.
Proof.
  assert (Hin : Ev _ (CreateToken ex_data) (Ok tt) ∈ fst (fst run_1)).
  { apply (list_elem_of_lookup_2 _ 9). vm_compute. reflexivity. }
  split; [exact Hin|].
  assert (Hr : exists rep, snd (fst run_1) = Some rep) by (vm_compute; by eexists). destruct Hr as [rep Hrep].
  apply (code_grant_sound (P := toy_platform) redeem_request (fst (fst run_1)) rep ex_data (Ok tt)); [|exact Hin].
  apply run_with_result. exact Hrep.
Defined.

Lemma code_redeemed_once_witness :
  history ex_tables ex_history (fst (snd run_3))
  /\ count (by_threads [0; 1]%nat creates_token) ex_history = 1%nat
  /\ (count (by_threads [0; 1]%nat creates_token) ex_history
       <= count (fun p => creates "c1" (snd p)) ex_history + unclaimed ex_tables "c1")%nat.
Proof.
  split; [exact ex_history_ok|]. split; [vm_compute; reflexivity|].
  apply (code_redeemed_once (P := toy_platform) ex_requests "c1" [0; 1]%nat ex_tables ex_history (fst (snd run_3))).
  - exact ex_history_ok.
  - exact ex_threads.
  - apply (bool_decide_unpack _). vm_compute. exact I.
  - intros i Hi. exists redeem_request. split; [|vm_compute; reflexivity].
    apply elem_of_cons in Hi as [->|Hi]; [reflexivity|]. apply list_elem_of_singleton in Hi as ->. reflexivity.
Defined.

Lemma refresh_never_widens_witness :
  count (fun p => is_update (snd p)) ex_history = 1%nat
  /\ scopes_ok (fst (snd run_3)) /\ grants_kept ex_tables (fst (snd run_3)).
Proof.
  split; [vm_compute; reflexivity|].
  apply (refresh_never_widens (P := toy_platform) ex_requests ex_tables ex_history (fst (snd run_3))).
  - exact ex_history_ok.
  - exact ex_threads.
  - intros i ev Hin _. unfold ex_history in Hin.
    rewrite !elem_of_app in Hin. destruct Hin as [Hin|[Hin|Hin]]; apply pair_elem in Hin as ->; by eexists.
  - intros j r Hj. cbn in Hj. revert Hj. intros [<- <-]%lookup_singleton_Some. split; [reflexivity|]. eexists. split; [vm_compute; reflexivity|]. cbn. done.
Defined.

Lemma token_refusals_harmless_witness :
  exists rep, snd (fst run_2) = Some rep /\
  ((refusal rep /\ forall ev, ev ∈ fst (fst run_2) -> is_write ev = true -> failed_claim ev)
   \/ rep = server_error_reply
   \/ (exists v, rep = Json 200 v) /\ exists ev, ev ∈ fst (fst run_2) /\ is_write ev = true).
Proof.
  destruct (snd (fst run_2)) as [rep|] eqn:Hrep; [|by vm_compute in Hrep]. exists rep. split; [done|].
  apply (token_refusals_harmless (P := toy_platform) redeem_request). apply run_with_result. exact Hrep.
Defined.

(** The validation of the new token, after the history. *)
Definition new_access : string := nt_accessToken ex_data.
Definition run_4 := run_with ex_exec (oauth_validateToken (P := toy_platform) new_access None) (snd run_1).

Lemma runs_4 : runs (oauth_validateToken (P := toy_platform) new_access None) (fst (fst run_4)) (snd (fst run_4)).
Proof. exact (run_with_runs _ ex_exec (oauth_validateToken (P := toy_platform) new_access None) (snd run_1)). Qed.

Lemma runs_eq {A} (p : prog call A) tr (r r' : option A) : runs p tr r -> r = r' -> runs p tr r'.
Proof. by intros H <-. Qed.

Lemma run_4_valid : exists ctx, snd (fst run_4) = Some (Ok ctx).
Proof. vm_compute. by eexists. Qed.

Lemma oauth_token_sound_witness :
  exists ctx row user decoded, snd (fst run_4) = Some (Ok ctx)
    /\ token_accepted (P := toy_platform) new_access None (fst (fst run_4)) ctx row user decoded.
Proof.
  destruct run_4_valid as [ctx Hctx]. exists ctx.
  destruct (oauth_token_sound (P := toy_platform) new_access None (fst (fst run_4)) ctx) as (row & user & decoded & H).
  - exact (runs_eq _ _ _ _ runs_4 Hctx).
  - exists row, user, decoded. split; [exact Hctx|exact H].
Defined.

Lemma revocation_final_witness :
  revoked_for_good "old" (fst (snd run_1))
  /\ exists row, (0%nat, Ev _ (FindTokenByAccess (JStr new_access)) (Ok (Some row))) ∈ map (pair 0%nat) (fst (fst run_4))
       /\ tokenId row <> "old"%string.
Proof.
  destruct (run_history [ex_user] (fun X e => refuse e) 0 (ex_token redeem_request) (ex_tables, 1000) ex_keyed) as [_ K1].
  destruct (run_history [ex_user] (fun X e => refuse e) 0 (oauth_validateToken (P := toy_platform) new_access None)
              (snd run_1) K1) as [H _].
  assert (Hrev : revoked_for_good "old" (fst (snd run_1))).
  { split; [vm_compute; by eexists|]. intros r Hr.
    assert (Hold : tokens (fst (snd run_1)) !! "old"%string = Some ex_old) by (vm_compute; reflexivity).
    rewrite Hold in Hr. by injection Hr as <-. }
  split; [exact Hrev|]. destruct run_4_valid as [ctx Hctx].
  apply (revocation_final (P := toy_platform) _ _ _ "old" 0 new_access None ctx H Hrev).
  rewrite of_thread_pair. exact (runs_eq _ _ _ _ runs_4 Hctx).
Defined.

(** Two codes of the same user, client and scopes redeemed in the same second:
    access tokens carry nothing unique, so the second is a duplicate of the
    first; the request fails after its code has been claimed. *)
Definition ex_two_codes : Tables :=
  set_codes (insert "c2"%string {|
    code := "c2"; code_clientId := "app"; code_userId := "u1"; redirectUri := "http://localhost/cb";
    code_scopes := ["mcp:tools"; "mcp:resources"]%string; code_resource := Some "http://localhost:3002/mcp"%string;
    codeChallenge := Some "S256:verifier"%string; challengeMethod := Some "S256"%string; code_expiresAt := 600000;
    used := false |}) ex_tables.

Definition redeem_second : HttpRequest := {|
  urls := ex_req; authorization := None; query_params := JUndefined;
  body := JObj [("grant_type", JStr "authorization_code"); ("code", JStr "c2"); ("client_id", JStr "app");
                ("redirect_uri", JStr "http://localhost/cb"); ("code_verifier", JStr "verifier")]%string
|}.

Definition run_second :=
  run_with ex_exec (ex_token redeem_second) (snd (run_with ex_exec (ex_token redeem_request) (ex_two_codes, 1000))).

Lemma same_second_grants_collide :
  snd (fst run_second) = Some server_error_reply /\ unclaimed (fst (snd run_second)) "c2" = 0%nat.
Proof. vm_compute. by split. Qed.
