(* ===== verification/Authentication.v ===== *)
(** * Authentication

    Who a request acts as: the middleware of the MCP endpoints
    ([src/src/middleware/AuthMiddleware.ts]), of the stateless endpoint
    ([src/src/mcp/modern/ModernMcpAuthMiddleware.ts]) and of the admin
    interface ([src/src/middleware/AdminAuthMiddleware.ts]).  The middleware is
    a program over the calls of the token validators ([OAuthDesk]) and those
    on the sessions; a session is an object that several requests may hold, so
    its fields are read when the code reads them. *)
From Stdlib Require Import Ascii ZArith Lia.
From stdpp Require Import base strings list.
From S2P Require Import Prelude Json JsMap WebPlatform OAuthService OAuthDesk SessionStore TokenValidators Effects.
Open Scope Z_scope.

(** What the middleware reads of a session. *)
Record SessionView : Type := {
  sv_sessionId : string; sv_userId : string; sv_token : string;
  sv_context : AuthContext; sv_lastRefresh : option Z; sv_lastActive : Z
}.

(** The columns of a server that anonymous access reads. *)
Record AnonymousServer : Type := {
  as_serverId : string; as_serverName : string; as_authType : Z; as_anonymousRateLimit : Z
}.

(** A session object is known by a number. *)
Inductive auth_call : Type -> Type :=
| Db X (e : call X) : auth_call X
| GetSession (sid : string) : auth_call (option nat)
| Peek (o : nat) : auth_call SessionView
| SetAuthContext (o : nat) (c : AuthContext) : auth_call unit
| SetExpiresAt (o : nat) (t : option Z) : auth_call unit
| SetLastRefresh (o : nat) (t : Z) : auth_call unit
| Touch (o : nat) (now : Z) : auth_call unit
| RemoveUserSessions (uid : string) (reason : DisconnectReason) : auth_call (result exn unit)
| ConsumeTerminated (sid : option string) (uid : string) (anonymous : bool) (token : string) : auth_call bool
| RandomUUID : auth_call string
| NewSession (sid uid token : string) (c : AuthContext) : auth_call (result exn nat)
| FindAnonymousServers : auth_call (result exn (list AnonymousServer))
| LogAuth : auth_call (result exn unit)
(* other components at work: sessions ending, permissions changing *)
| EndSessions (p : string -> bool) : auth_call unit
| SetPermissions (o : nat) (permissions : json) : auth_call unit.
Arguments Db {X} e.

Fixpoint embed {A} (p : prog call A) : prog auth_call A :=
  match p with
  | Ret a => Ret a
  | Vis X e k => Vis X (Db e) (fun x => embed (k x))
  | OutOfFuel => OutOfFuel
  end.

(** What is read of a request. *)
Record AuthRequest : Type := {
  r_urls : Request;
  r_session_caps : option string;
  r_session : option string;
  r_method : string;
  r_body : json;
  r_authorization : option string;
  r_query_token : json;
  r_query_api_key : json;
  r_originalUrl : string;
  r_user_agent : option string;
  r_origin : option string;
  r_clientIp : option string;
  r_baseUrl : string
}.

(** How the middleware ends: the request goes on, with an identity and a
    session or without; or it is answered. *)
Inductive auth_outcome : Type :=
| Next (identity : option (AuthContext * option nat))
| Refuse (status : Z) (www_authenticate : option string) (message : string).

Definition header_session (req : AuthRequest) : option string := or_str (r_session_caps req) (r_session req).

(** [/^Bearer\s+/i]: what follows it. *)
Definition bearer_rest (h : string) : option string :=
  if str_eqb (to_lower (str_take 6 h)) "bearer"
  then match str_drop 6 h with
       | String c s => if is_space c then Some (skip_space s) else None
       | EmptyString => None
       end
  else None.

Definition bearer_token (h : option string) : option string := h ← h; trim <$> bearer_rest h.

(** [/^[a-f0-9]{128}$/i] *)
Definition is_hex_char (c : ascii) : bool :=
  let n := nat_of_ascii (lower_ascii c) in
  ((48 <=? n) && (n <=? 57) || (97 <=? n) && (n <=? 102))%nat.
Fixpoint all_chars (p : ascii -> bool) (s : string) : bool :=
  match s with EmptyString => true | String c s' => p c && all_chars p s' end.
Definition isHexFormat (t : string) : bool := (String.length t =? 128)%nat && all_chars is_hex_char t.

Definition isJwtFormat (t : string) : bool := str_mem "." t && (length (split_on "." t) =? 3)%nat.

Definition USER_INFO_REFRESH_INTERVAL : Z := 5 * 60 * 1000.

Definition UserRole_Owner : Z := 1.
Definition UserRole_Admin : Z := 2.
Definition UserRole_Guest : Z := 4.

Section Middleware.
Context `{P : Platform}.
(** [isInitializeRequest] of the MCP SDK;
    [new URL(u, 'http://localhost').pathname], [None] when it throws. *)
Context (isInitializeRequest : json -> bool) (path_of : string -> option string).

Notation Auth A := (prog auth_call (result auth_failure A)).

Definition in_quotes (s : string) : string := String "034" s +:+ String "034" "".

Definition getStatusCodeForError (t : AuthErrorType) : Z :=
  match t with
  | INVALID_TOKEN | USER_NOT_FOUND => 401
  | USER_DISABLED | USER_EXPIRED | PERMISSION_DENIED => 403
  | SESSION_EXPIRED => 401
  | DECRYPTION_FAILED => 500
  | _ => 401
  end.

Definition buildWWWAuthenticateHeader (req : Request) (error errorDescription : string) : result exn (option string) :=
  match getAuthorizationServerUrl req with
  | Ok url =>
      Ok (Some ("Bearer realm=" +:+ in_quotes "peta-core" +:+ ", error=" +:+ in_quotes error
        +:+ ", error_description=" +:+ in_quotes errorDescription
        +:+ ", resource_metadata=" +:+ in_quotes (url +:+ "/.well-known/oauth-protected-resource"))%string)
  | Throw e => if str_eqb (message e) PUBLIC_URL_CONFIGURATION_ERROR then Ok None else Throw e
  end.

Definition sendAuthError (req : AuthRequest) (type : AuthErrorType) (message wwwAuthError : string) : result auth_failure auth_outcome :=
  let statusCode := getStatusCodeForError type in
  if statusCode =? 401 then
    match buildWWWAuthenticateHeader (r_urls req) wwwAuthError message with
    | Ok header => Ok (Refuse statusCode header message)
    | Throw e => Throw (Other e)
    end
  else Ok (Refuse statusCode None message).

Definition refuse (req : AuthRequest) (type : AuthErrorType) (message wwwAuthError : string) : Auth auth_outcome :=
  Ret (sendAuthError req type message wwwAuthError).

Definition token_error : string := "Authorization header with Bearer token is required".

(** A statement or call whose failure is not an [AuthError]. *)
Definition other {A} (p : prog auth_call (result exn A)) : Auth A :=
  pbind p (fun r => Ret (match r with Ok a => Ok a | Throw e => Throw (Other e) end)).

Definition findByUserId (uid : string) : prog auth_call (result exn (option User)) := perform (Db (FindUser (JStr uid))).

(** [refreshUserInfo] *)
Definition refreshed_context (v : SessionView) (u : User) (permissions preferences : json) : AuthContext := {|
  ctx_anonymous := ctx_anonymous (sv_context v); ctx_userId := OAuthDesk.userId u; ctx_token := maskToken (sv_token v);
  ctx_role := role u; ctx_status := status u; ctx_permissions := permissions; ctx_userPreferences := preferences;
  ctx_launchConfigs := launchConfigs u; ctx_authenticatedAt := ctx_authenticatedAt (sv_context v);
  ctx_expiresAt := if 0 <? user_expiresAt u then Some (user_expiresAt u) else None;
  ctx_rateLimit := ratelimit u; ctx_oauthClientId := JUndefined; ctx_oauthScopes := JUndefined;
  ctx_oauthAccessTokenExpiresAt := JUndefined; ctx_userAgent := None;
  ctx_tenantId := if 0 <? proxyId u then Some (z_to_string (proxyId u)) else None
|}.

Definition refreshUserInfo (o : nat) (uid : string) : prog auth_call (result exn unit) :=
  await! user := findByUserId uid in
  match user with
  | None => Ret (Throw (Error ("User " +:+ uid +:+ " not found")))
  | Some user =>
      match parse_json (user_permissions user), parse_json (preferences_text user) with
      | Ok permissions, Ok preferences =>
          call! v := Peek o in
          call! _ := SetAuthContext o (refreshed_context v user permissions preferences) in
          Ret (Ok tt)
      | Throw e, _ | _, Throw e => Ret (Throw e)
      end
  end.

Definition refreshUserInfoIfNeeded (o : nat) : prog auth_call unit :=
  call! v := Peek o in
  if ctx_anonymous (sv_context v) then Ret tt else
  call! now := Db Now in
  let last := default 0 (sv_lastRefresh v) in
  if (last =? 0) || (USER_INFO_REFRESH_INTERVAL <=? now - last) then
    bind! r := refreshUserInfo o (sv_userId v) in
    match r with
    | Ok _ => call! _ := SetLastRefresh o now in Ret tt
    | Throw _ => Ret tt
    end
  else Ret tt.

(** [session.isExpired()] *)
Definition session_expired (o : nat) : prog auth_call bool :=
  call! v := Peek o in
  match ctx_expiresAt (sv_context v) with
  | Some e => if e =? 0 then Ret false else call! now := Db Now in Ret (e <? now / 1000)
  | None => Ret false
  end.

(** The request goes on as the session. *)
Definition proceed (o : nat) : Auth auth_outcome :=
  call! v := Peek o in
  call! now := Db Now in
  call! _ := Touch o now in
  Ret (Ok (Next (Some (sv_context v, Some o)))).

(** All sessions of the user end with a refusal. *)
Definition end_sessions (req : AuthRequest) (uid : string) (reason : DisconnectReason) (type : AuthErrorType) (m : string)
    : Auth auth_outcome :=
  await! _ := other (perform (RemoveUserSessions uid reason)) in
  refuse req type m "invalid_token".

(** An expired session: was the user renewed? *)
Definition renew_or_end (req : AuthRequest) (o : nat) (uid : string) : Auth auth_outcome :=
  await! user := other (findByUserId uid) in
  let ended := end_sessions req uid SessionStore.USER_EXPIRED USER_EXPIRED "User authorization has expired" in
  match user with
  | None => ended
  | Some user =>
      bind! over := (if 0 <? user_expiresAt user
                     then call! now := Db Now in Ret (user_expired user now) else Ret false) in
      if over then ended
      else call! _ := SetExpiresAt o (if 0 <? user_expiresAt user then Some (user_expiresAt user) else None) in proceed o
  end.

Definition continue_session (req : AuthRequest) (o : nat) (uid : string) : Auth auth_outcome :=
  bind! _ := refreshUserInfoIfNeeded o in
  bind! expired := session_expired o in
  if expired then renew_or_end req o uid else proceed o.

(** A request with a live session. *)
Definition with_session (req : AuthRequest) (o : nat) : Auth auth_outcome :=
  call! v := Peek o in
  bind! valid := (if isJwtFormat (sv_token v)
                  then bind! r := embed (oauth_validateToken (sv_token v) None) in
                       Ret (match r with Ok _ => Ok tt | Throw m => Throw m end)
                  else Ret (Ok tt)) in
  match valid with
  | Throw m => end_sessions req (sv_userId v) SESSION_REMOVED INVALID_TOKEN
                 (if truthy_str m then m else "OAuth token validation failed")
  | Ok _ => continue_session req o (sv_userId v)
  end.

(** The credential a request offers, if any. *)
Definition offered_token (req : AuthRequest) : option string :=
  match bearer_token (r_authorization req) with
  | Some t => Some t
  | None =>
      match r_query_token req, r_query_api_key req with
      | JStr t, _ => if truthy_str t then Some t else match r_query_api_key req with JStr k => if truthy_str k then Some k else None | _ => None end
      | _, JStr k => if truthy_str k then Some k else None
      | _, _ => None
      end
  end.

Definition is_undefined (v : json) : bool := match v with JUndefined => true | _ => false end.

Definition hasAuthAttempt (req : AuthRequest) : bool :=
  truthy_ostr (r_authorization req) || negb (is_undefined (r_query_token req)) || negb (is_undefined (r_query_api_key req)).

(** The validator the token's format calls for.  A token of no known format is
    tried as both; the [catch] around the two takes a failure of the second for
    a failure of the first, and tries the second again. *)
Definition validate_by_format (token : string) : prog call (result auth_failure AuthContext) :=
  let gateway := validateToken (JStr token) in
  if isJwtFormat token then
    bind! r := oauth_validateToken token None in
    Ret (match r with
         | Ok c => Ok c
         | Throw m => Throw (AuthError INVALID_TOKEN (if truthy_str m then m else "OAuth token validation failed") None)
         end)
  else if isHexFormat token then gateway
  else bind! r := oauth_validateToken token None in
       match r with
       | Ok c => Ret (Ok c)
       | Throw _ => bind! g := gateway in match g with Ok c => Ret (Ok c) | Throw _ => gateway end
       end.

Definition with_user_agent (ua : option string) (c : AuthContext) : AuthContext := {|
  ctx_anonymous := ctx_anonymous c; ctx_userId := ctx_userId c; ctx_token := ctx_token c; ctx_role := ctx_role c;
  ctx_status := ctx_status c; ctx_permissions := ctx_permissions c; ctx_userPreferences := ctx_userPreferences c;
  ctx_launchConfigs := ctx_launchConfigs c; ctx_authenticatedAt := ctx_authenticatedAt c;
  ctx_expiresAt := ctx_expiresAt c; ctx_rateLimit := ctx_rateLimit c;
  ctx_oauthClientId := ctx_oauthClientId c; ctx_oauthScopes := ctx_oauthScopes c;
  ctx_oauthAccessTokenExpiresAt := ctx_oauthAccessTokenExpiresAt c;
  ctx_userAgent := or_str ua None; ctx_tenantId := ctx_tenantId c
|}.

(** A session for the identity: under the id of one that ended moments ago if
    it was the same user's, under a new id otherwise. *)
Definition open_session (sid : option string) (uid token : string) (anonymous : bool) (c : AuthContext) : Auth nat :=
  call! resumed := ConsumeTerminated sid uid anonymous token in
  bind! newSessionId := (if resumed then Ret (default "" sid) else call! u := RandomUUID in Ret ("session-" +:+ u)%string) in
  other (perform (NewSession newSessionId uid token c)).

Definition authenticate_token (req : AuthRequest) (token : string) : Auth auth_outcome :=
  await! authContext := embed (validate_by_format token) in
  let c := with_user_agent (r_user_agent req) authContext in
  await! o := open_session (header_session req) (ctx_userId c) token (ctx_anonymous c) c in
  await! _ := other (perform LogAuth) in
  Ret (Ok (Next (Some (c, Some o)))).

(** ** Anonymous access *)

Definition anonymous_permission (s : AnonymousServer) : json := JObj [
  ("enabled", JBool true); ("serverName", JStr (as_serverName s)); ("allowUserInput", JBool false);
  ("authType", JNum (as_authType s)); ("tools", JObj []); ("resources", JObj []); ("prompts", JObj []);
  ("configured", JBool false); ("configTemplate", JStr "{}")]%string.

(** The least limit of a non-empty list of servers. *)
Fixpoint min_rate (s : AnonymousServer) (l : list AnonymousServer) : Z :=
  match l with [] => as_anonymousRateLimit s | t :: l' => Z.min (as_anonymousRateLimit s) (min_rate t l') end.

Definition anonymous_context (ipHash : string) (s : AnonymousServer) (l : list AnonymousServer) (ua : option string) (now : Z)
    : AuthContext := {|
  ctx_anonymous := true; ctx_userId := "anon:" +:+ ipHash; ctx_token := "anon-" +:+ ipHash; ctx_role := UserRole_Guest;
  ctx_status := UserStatus_Enabled;
  ctx_permissions := JObj (from_entries (map (fun s => (as_serverId s, anonymous_permission s)) (s :: l)));
  ctx_userPreferences := JObj []; ctx_launchConfigs := "{}"; ctx_authenticatedAt := now; ctx_expiresAt := None;
  ctx_rateLimit := min_rate s l; ctx_oauthClientId := JUndefined; ctx_oauthScopes := JUndefined;
  ctx_oauthAccessTokenExpiresAt := JUndefined; ctx_userAgent := or_str ua None; ctx_tenantId := None
|}.

Definition http_origin (o : string) : bool :=
  match URL_parse o with Some u => str_eqb (protocol u) "http:" || str_eqb (protocol u) "https:" | None => false end.

Definition client_ip (req : AuthRequest) : string := default "0.0.0.0"%string (or_str (r_clientIp req) None).

Definition handleAnonymousAccess (req : AuthRequest) : Auth auth_outcome :=
  if truthy_ostr (r_origin req) && negb (http_origin (default "" (r_origin req)))
  then refuse req PERMISSION_DENIED "Forbidden: invalid Origin header" "invalid_token" else
  await! servers := other (perform FindAnonymousServers) in
  match servers with
  | [] => refuse req INVALID_TOKEN "No anonymous access available" "invalid_request"
  | s :: l =>
      let ipHash := str_take 12 (sha256_hex (client_ip req)) in
      call! now := Db Now in
      let c := anonymous_context ipHash s l (r_user_agent req) now in
      let requested := match r_session_caps req with Some i => Some i | None => r_session req end in
      await! o := open_session requested (ctx_userId c) (ctx_token c) true c in
      Ret (Ok (Next (Some (c, Some o))))
  end.

(** ** The middleware *)

Definition without_session (req : AuthRequest) : Auth auth_outcome :=
  if negb (str_eqb (r_method req) "POST") then Ret (Ok (Next None)) else
  if negb (isInitializeRequest (r_body req)) then Ret (Ok (Refuse 400 None "Bad Request: Server not initialized")) else
  match path_of (r_originalUrl req) with
  | None => Ret (Throw (Other (Error "Invalid URL")))
  | Some originalPath =>
      let requestsAnonymous := str_eqb originalPath "/mcp/public" || str_eqb originalPath "/mcp/public/" in
      match offered_token req with
      | Some token =>
          if truthy_str token then authenticate_token req token
          else refuse req INVALID_TOKEN token_error "invalid_request"
      | None =>
          if negb (hasAuthAttempt req) && requestsAnonymous then handleAnonymousAccess req
          else refuse req INVALID_TOKEN token_error "invalid_request"
      end
  end.

Definition authenticate_body (req : AuthRequest) : Auth auth_outcome :=
  if truthy_ostr (header_session req) then
    call! found := GetSession (default "" (header_session req)) in
    match found with
    | Some o => with_session req o
    | None => if str_eqb (r_method req) "DELETE" then Ret (Ok (Next None)) else without_session req
    end
  else without_session req.

(** The whole: errors become refusals. *)
Definition authenticate (req : AuthRequest) : Auth auth_outcome :=
  bind! r := authenticate_body req in
  match r with
  | Ok o => Ret (Ok o)
  | Throw (AuthError type m _) => refuse req type m "invalid_token"
  | Throw (Other _) => refuse req INVALID_TOKEN "Internal authentication error" "invalid_token"
  end.
End Middleware.

(** ** The stateless endpoint

    [ModernMcpAuthMiddleware]: OAuth tokens for this very resource only. *)
Module Modern.
Section ModernAuth.
Context `{P : Platform}.
(** [MODERN_MCP_CONFIG] *)
Context (allowedClientIds allowedTenantIds : list string).

Notation Auth A := (prog auth_call (result auth_failure A)).

(** [s.replace(/\/mcp$/, t)] *)
Definition replace_mcp (t s : string) : string :=
  if ends_with "/mcp" s then (str_take (String.length s - 4) s +:+ t)%string else s.

Definition getResourceMetadataUrl (req : Request) : result exn (option string) :=
  match getPublicUrl req with
  | Ok url => Ok (Some (replace_mcp "/.well-known/oauth-protected-resource/mcp" url))
  | Throw e => if str_eqb (message e) PUBLIC_URL_CONFIGURATION_ERROR then Ok None else Throw e
  end.

Definition getCanonicalMcpResource (req : Request) : result exn string :=
  match getPublicUrl req with
  | Ok base => Ok (if ends_with "/mcp" base then base else base +:+ "/mcp")%string
  | Throw e => Throw e
  end.

Definition sendAuthError (req : AuthRequest) (error description : string) : result auth_failure auth_outcome :=
  let statusCode := if str_eqb error "insufficient_scope" then 403 else 401 in
  match getResourceMetadataUrl (r_urls req) with
  | Throw e => Throw (Other e)
  | Ok metadataUrl =>
      Ok (Refuse statusCode
            ((fun url => "Bearer realm=" +:+ in_quotes "peta-core" +:+ ", error=" +:+ in_quotes error
                +:+ ", error_description=" +:+ in_quotes description +:+ ", resource_metadata=" +:+ in_quotes url
                +:+ ", scope=" +:+ in_quotes "mcp:tools mcp:resources mcp:prompts")%string
             <$> (url ← metadataUrl; if truthy_str url then Some url else None))
            description)
  end.

Definition validateBearerToken (token resource : string) : Auth AuthContext :=
  bind! r := embed (oauth_validateToken token (Some resource)) in
  Ret (match r with Ok c => Ok c | Throw m => Throw (AuthError INVALID_TOKEN m None) end).

(** [list.includes(v)] of a claim *)
Definition includes_claim (l : list string) (v : json) : bool := match v with JStr s => bool_decide (s ∈ l) | _ => false end.

Definition enforceRolloutAllowlist (c : AuthContext) : result auth_failure unit :=
  if negb (bool_decide (allowedClientIds = []))
     && (negb (js_truthy (ctx_oauthClientId c)) || negb (includes_claim allowedClientIds (ctx_oauthClientId c)))
  then Throw (AuthError PERMISSION_DENIED "OAuth client is not enabled for MCP 2025-11-25" None)
  else if negb (bool_decide (allowedTenantIds = []))
          && negb (bool_decide (default "" (ctx_tenantId c) ∈ allowedTenantIds))
  then Throw (AuthError PERMISSION_DENIED "Tenant is not enabled for MCP 2025-11-25" None)
  else Ok tt.

Definition hasQueryToken (req : AuthRequest) : bool :=
  negb (is_undefined (r_query_token req)) || negb (is_undefined (r_query_api_key req)).

Definition authenticate_body (req : AuthRequest) : Auth auth_outcome :=
  let bearerToken := default "" (bearer_token (r_authorization req)) in
  if hasQueryToken req
  then Ret (sendAuthError req "invalid_request" "Modern MCP requires bearer tokens in the Authorization header")
  else if str_eqb bearerToken ""
  then Ret (sendAuthError req "invalid_token" "Authorization header with Bearer token is required")
  else
    match getCanonicalMcpResource (r_urls req) with
    | Throw e => Ret (Throw (Other e))
    | Ok resource =>
        await! c := validateBearerToken bearerToken resource in
        match enforceRolloutAllowlist c with
        | Throw e => Ret (Throw e)
        | Ok _ =>
            let c := {| ctx_anonymous := ctx_anonymous c; ctx_userId := ctx_userId c; ctx_token := ctx_token c;
                        ctx_role := ctx_role c; ctx_status := ctx_status c; ctx_permissions := ctx_permissions c;
                        ctx_userPreferences := ctx_userPreferences c; ctx_launchConfigs := ctx_launchConfigs c;
                        ctx_authenticatedAt := ctx_authenticatedAt c; ctx_expiresAt := ctx_expiresAt c;
                        ctx_rateLimit := ctx_rateLimit c; ctx_oauthClientId := ctx_oauthClientId c;
                        ctx_oauthScopes := ctx_oauthScopes c;
                        ctx_oauthAccessTokenExpiresAt := ctx_oauthAccessTokenExpiresAt c;
                        ctx_userAgent := r_user_agent req; ctx_tenantId := ctx_tenantId c |} in
            await! _ := other (perform LogAuth) in
            Ret (Ok (Next (Some (c, None))))
        end
    end.

Definition authenticate (req : AuthRequest) : Auth auth_outcome :=
  bind! r := authenticate_body req in
  Ret (match r with
       | Ok o => Ok o
       | Throw (AuthError type m _) =>
           sendAuthError req (if bool_decide (type = PERMISSION_DENIED) then "insufficient_scope" else "invalid_token") m
       | Throw (Other e) => sendAuthError req "invalid_token" (message e)
       end).
End ModernAuth.
End Modern.

(** ** The admin interface

    [AdminAuthMiddleware]: gateway tokens of owners and administrators, and a
    few actions that need no token because nobody may have one yet. *)
Module Admin.
Section AdminAuth.
Context `{P : Platform}.

Definition CREATE_USER : Z := 1010.
Definition GET_OWNER : Z := 1016.
Definition GET_PROXY : Z := 5001.
Definition CREATE_PROXY : Z := 5002.
Definition RESTORE_DATABASE : Z := 6002.

Definition allowsUnauthenticatedAdminAction (req : AuthRequest) : bool :=
  str_eqb (r_baseUrl req) "/admin" && str_eqb (r_method req) "POST" && is_object (r_body req)
  && match jfield_opt (r_body req) "action" with
     | JNum a =>
         (a =? GET_OWNER) || (a =? GET_PROXY) || (a =? CREATE_PROXY) || (a =? RESTORE_DATABASE)
         || (a =? CREATE_USER)
            && json_eqb (jfield_opt (jfield_opt (r_body req) "data") "role") (JNum UserRole_Owner)
     | _ => false
     end.

Definition failure_text (e : auth_failure) : string :=
  match e with AuthError _ m _ => m | Other e => message e end.

Definition authenticate (req : AuthRequest) : prog call auth_outcome :=
  if bool_decide (r_authorization req = None) && allowsUnauthenticatedAdminAction req then Ret (Next None) else
  match bearer_token (r_authorization req) with
  | None => Ret (Refuse 401 None "Bearer token is required")
  | Some token =>
      if str_eqb token "" then Ret (Refuse 401 None "Bearer token is required") else
      bind! r := validateToken (JStr token) in
      match r with
      | Throw e => Ret (Refuse 401 None ("Invalid or expired token " +:+ failure_text e))
      | Ok c =>
          if negb (ctx_role c =? UserRole_Owner) && negb (ctx_role c =? UserRole_Admin)
          then Ret (Refuse 403 None "Admin access required. Only Owner role can perform admin operations.")
          else Ret (Next (Some (c, None)))
      end
  end.
End AdminAuth.
End Admin.
