(* ===== verification/AuthSafety.v ===== *)
(** * Authentication: every identity was vouched for

    Over any number of concurrent requests: a request that the middleware of
    [Authentication] lets through with an identity acts as the user for whom a
    token was validated, or as the anonymous user of its address, when its
    session was opened; and the token of an OAuth session is validated again. *)
From Stdlib Require Import Ascii ZArith Lia.
From stdpp Require Import base gmap strings list.
From S2P Require Import Prelude Json JsMap SessionStore Effects Interleaving WebPlatform OAuthService OAuthDesk TokenValidators OAuthTables OAuthGrants OAuthSafety Authentication.
Open Scope Z_scope.

(** ** Sessions as objects *)

Record AuthWorld : Type := { objects : gmap nat SessionView; index : gmap string nat }.

Definition set_objects (f : gmap nat SessionView -> gmap nat SessionView) (s : AuthWorld) : AuthWorld :=
  {| objects := f (objects s); index := index s |}.
Definition set_index (m : gmap string nat) (s : AuthWorld) : AuthWorld := {| objects := objects s; index := m |}.

Definition with_context (c : AuthContext) (v : SessionView) : SessionView := {|
  sv_sessionId := sv_sessionId v; sv_userId := sv_userId v; sv_token := sv_token v;
  sv_context := c; sv_lastRefresh := sv_lastRefresh v; sv_lastActive := sv_lastActive v |}.
Definition with_refresh (t : Z) (v : SessionView) : SessionView := {|
  sv_sessionId := sv_sessionId v; sv_userId := sv_userId v; sv_token := sv_token v;
  sv_context := sv_context v; sv_lastRefresh := Some t; sv_lastActive := sv_lastActive v |}.
Definition with_active (t : Z) (v : SessionView) : SessionView := {|
  sv_sessionId := sv_sessionId v; sv_userId := sv_userId v; sv_token := sv_token v;
  sv_context := sv_context v; sv_lastRefresh := sv_lastRefresh v; sv_lastActive := t |}.

Definition context_with (expires : option Z) (permissions : json) (c : AuthContext) : AuthContext := {|
  ctx_anonymous := ctx_anonymous c; ctx_userId := ctx_userId c; ctx_token := ctx_token c; ctx_role := ctx_role c;
  ctx_status := ctx_status c; ctx_permissions := permissions; ctx_userPreferences := ctx_userPreferences c;
  ctx_launchConfigs := ctx_launchConfigs c; ctx_authenticatedAt := ctx_authenticatedAt c;
  ctx_expiresAt := expires; ctx_rateLimit := ctx_rateLimit c;
  ctx_oauthClientId := ctx_oauthClientId c; ctx_oauthScopes := ctx_oauthScopes c;
  ctx_oauthAccessTokenExpiresAt := ctx_oauthAccessTokenExpiresAt c;
  ctx_userAgent := ctx_userAgent c; ctx_tenantId := ctx_tenantId c |}.

Definition updateExpiresAt (t : option Z) (v : SessionView) : SessionView :=
  with_context (context_with t (ctx_permissions (sv_context v)) (sv_context v)) v.
Definition updatePermissions (p : json) (v : SessionView) : SessionView :=
  with_context (context_with (ctx_expiresAt (sv_context v)) p (sv_context v)) v.

(** Some sessions leave the store; their objects live on. *)
Definition ends_some (s s' : AuthWorld) : Prop := objects s' = objects s /\ index s' ⊆ index s.

(** The user table answers with the row asked for. *)
Definition user_answer (X : Type) (e : call X) : X -> Prop :=
  match e in call X return X -> Prop with
  | FindUser (JStr u) => fun r => match r with Ok (Some row) => OAuthDesk.userId row = u | _ => True end
  | _ => fun _ => True
  end.

Definition auth_answers (X : Type) (e : auth_call X) (s : AuthWorld) : X -> AuthWorld -> Prop :=
  match e in auth_call X return X -> AuthWorld -> Prop with
  | Db e => fun x s' => user_answer _ e x /\ s' = s
  | GetSession sid => fun x s' => x = index s !! sid /\ s' = s
  | Peek o => fun v s' => objects s !! o = Some v /\ s' = s
  | SetAuthContext o c => fun _ s' => s' = set_objects (alter (with_context c) o) s
  | SetExpiresAt o t => fun _ s' => s' = set_objects (alter (updateExpiresAt t) o) s
  | SetPermissions o p => fun _ s' => s' = set_objects (alter (updatePermissions p) o) s
  | SetLastRefresh o t => fun _ s' => s' = set_objects (alter (with_refresh t) o) s
  | Touch o t => fun _ s' => s' = set_objects (alter (with_active t) o) s
  | RemoveUserSessions _ _ => fun _ s' => ends_some s s'
  | EndSessions _ => fun _ s' => ends_some s s'
  | NewSession sid uid token c => writes (fun o s' =>
      index s !! sid = None /\ objects s !! o = None /\ exists t refreshed,
      s' = {| objects := <[o := {| sv_sessionId := sid; sv_userId := uid; sv_token := token;
                                   sv_context := c; sv_lastRefresh := Some refreshed; sv_lastActive := t |}]> (objects s);
              index := <[sid := o]> (index s) |}) s
  | _ => fun _ s' => s' = s
  end.

(** ** What a run of the middleware has to show for what it does *)

Definition db_calls (tr : list (event auth_call)) : list (event call) :=
  omap (fun ev => match ev with Ev _ e x => match e in auth_call X return X -> option (event call) with
                                            | Db e => fun x => Some (Ev _ e x)
                                            | _ => fun _ => None
                                            end x end) tr.

Section Vouching.
Context `{P : Platform}.
Context (isInitializeRequest : json -> bool) (path_of : string -> option string).

(** What a validated gateway token stands on. *)
Record gateway_accepted (token : string) (tr : list (event call)) (c : AuthContext) : Prop := {
  gateway_user : exists user, Ev _ (FindUser (JStr (calculateUserId token))) (Ok (Some user)) ∈ tr
    /\ status user = UserStatus_Enabled
    /\ (exists t, Ev _ Now t ∈ tr /\ user_expired user t = false)
    /\ exists permissions preferences t, parse_json (user_permissions user) = Ok permissions
       /\ isValidPermissions permissions = true /\ c = context_of user token permissions preferences t
}.

Definition token_valid (token : string) (tr : list (event call)) (c : AuthContext) : Prop :=
  (exists row user decoded, token_accepted token None tr c row user decoded) \/ gateway_accepted token tr c.

(** [c] is the identity the request [req] may open a session for with
    [token]. *)
Inductive vouched (req : AuthRequest) (tr : list (event auth_call)) (token : string) (c : AuthContext) : Prop :=
| vouched_token c1 : offered_token req = Some token -> token_valid token (db_calls tr) c1 ->
    c = with_user_agent (r_user_agent req) c1 -> vouched req tr token c
| vouched_address path s l t : hasAuthAttempt req = false -> path_of (r_originalUrl req) = Some path ->
    path = "/mcp/public"%string \/ path = "/mcp/public/"%string ->
    Ev _ FindAnonymousServers (Ok (s :: l)) ∈ tr ->
    c = anonymous_context (str_take 12 (sha256_hex (client_ip req))) s l (r_user_agent req) t ->
    token = ctx_token c -> vouched req tr token c.

(** The OAuth token of a session, validated anew. *)
Definition revalidated (token : string) (tr : list (event call)) : Prop :=
  isJwtFormat token = true -> exists c row user decoded, token_accepted token None tr c row user decoded.

(** What must have happened before a call. *)
Definition justified (req : AuthRequest) (pre : list (event auth_call)) (ev : event auth_call) : Prop :=
  match ev with
  | Ev _ e _ =>
      match e with
      | NewSession _ uid token c => ctx_userId c = uid /\ vouched req pre token c
      | SetAuthContext o c => exists v v' u, Ev _ (Peek o) v ∈ pre /\ Ev _ (Peek o) v' ∈ pre
          /\ Ev _ (Db (FindUser (JStr (sv_userId v)))) (Ok (Some u)) ∈ pre
          /\ ctx_userId c = OAuthDesk.userId u /\ ctx_anonymous c = ctx_anonymous (sv_context v')
      | _ => True
      end
  end.

(** What must have happened when a request goes on with an identity. *)
Definition identified (req : AuthRequest) (tr : list (event auth_call)) (r : result auth_failure auth_outcome) : Prop :=
  match r with
  | Ok (Next (Some (c, o))) => exists o', o = Some o' /\
      ((exists sid v v', header_session req = Some sid /\ Ev _ (GetSession sid) (Some o') ∈ tr
        /\ Ev _ (Peek o') v ∈ tr /\ revalidated (sv_token v) (db_calls tr)
        /\ Ev _ (Peek o') v' ∈ tr /\ c = sv_context v')
       \/ exists sid uid token, Ev _ (NewSession sid uid token c) (Ok o') ∈ tr)
  | _ => True
  end.

Definition snoc (tr : list (event auth_call)) (ev : event auth_call) : list (event auth_call) := tr ++ [ev].

Notation auth_wp req p tr Q := (wp snoc (justified req) p tr Q).

Lemma fold_snoc (l tr : list (event auth_call)) : fold_left snoc l tr = tr ++ l.
Proof using. revert tr. induction l as [|ev l IH]; intros tr; cbn; [by rewrite app_nil_r|]. rewrite IH. unfold snoc. by rewrite <- app_assoc. Qed.

Definition lift_event (ev : event call) : event auth_call := match ev with Ev X e x => Ev X (Db e) x end.

Lemma db_calls_lift (tr : list (event call)) : db_calls (map lift_event tr) = tr.
Proof using. induction tr as [|[X e x] tr IH]; [done|]. cbn. f_equal. exact IH. Qed.

Lemma db_calls_app (l k : list (event auth_call)) : db_calls (l ++ k) = db_calls l ++ db_calls k.
Proof using. apply omap_app. Qed.

(** A validator inside the middleware runs as it does alone. *)
Lemma wp_embed {A} (req : AuthRequest) (p : prog call A) (tr : list (event auth_call)) (Q : list (event auth_call) -> A -> Prop) :
  (forall l a, runs p l (Some a) -> Q (tr ++ map lift_event l) a) -> auth_wp req (embed p) tr Q.
Proof using.
  revert tr Q. induction p as [a|X e k IH|]; intros tr Q H; cbn; [|intros x; split; [done|]|done].
  - specialize (H [] a). rewrite app_nil_r in H. by apply H.
  - apply IH. intros l a Hr. unfold snoc. rewrite <- app_assoc. apply (H (Ev X e x :: l)). by exists x, l.
Qed.

(** ** Facts about the past persist *)

Lemma token_accepted_mono (token : string) aud (l k : list (event call)) c row user decoded :
  (forall ev, ev ∈ l -> ev ∈ k) -> token_accepted token aud l c row user decoded ->
  token_accepted token aud k c row user decoded.
Proof using.
  intros Hsub [[t [H1 H1']] H2 H3 [H4 (t4 & H4' & H4'')] H5 H6 [H7 (t7 & H7' & H7'')] H8].
  split; eauto 10.
Qed.

Lemma gateway_accepted_mono (token : string) (l k : list (event call)) c :
  (forall ev, ev ∈ l -> ev ∈ k) -> gateway_accepted token l c -> gateway_accepted token k c.
Proof using.
  intros Hsub [(u & H1 & H2 & (t & H3 & H3') & H4)]. split. exists u. split_and! ; eauto.
Qed.

Lemma token_valid_mono (token : string) (l k : list (event call)) c :
  (forall ev, ev ∈ l -> ev ∈ k) -> token_valid token l c -> token_valid token k c.
Proof using.
  intros Hsub [(row & u & d & H)|H]; [left; exists row, u, d; by eapply token_accepted_mono|right; by eapply gateway_accepted_mono].
Qed.

(** ** The validators *)

Lemma gateway_run (token : string) tr c :
  runs (validateToken (JStr token)) tr (Some (Ok c)) -> gateway_accepted token tr c.
Proof using.
  clear isInitializeRequest path_of. cbn. destruct (str_eqb token ""); [by intros [_ [=]]|]. intros (found & tr1 & -> & H).
  destruct found as [[user|]|e]; [|by destruct H as [_ [=]]..].
  destruct (negb (status user =? UserStatus_Enabled)) eqn:Hs; [by destruct H as [_ [=]]|]. to_prop.
  destruct H as (t & tr2 & -> & H). destruct (user_expired user t) eqn:Hx; [by destruct H as [_ [=]]|].
  destruct (parse_json (user_permissions user)) as [perms|] eqn:Hp; [|by destruct H as [_ [=]]].
  destruct (negb (isValidPermissions perms)) eqn:Hv; [by destruct H as [_ [=]]|]. to_prop.
  destruct (parse_json (preferences_text user)) as [prefs|]; [|by destruct H as [_ [=]]].
  destruct H as (t' & tr3 & -> & -> & [= ->]). split. exists user. split_and! ; [set_solver|done|exists t; split; [set_solver|done]|].
  by exists perms, prefs, t'.
Qed.

Lemma format_run (token : string) tr c :
  runs (validate_by_format token) tr (Some (Ok c)) -> token_valid token tr c.
Proof using.
  clear isInitializeRequest path_of. unfold validate_by_format. destruct (isJwtFormat token); [|destruct (isHexFormat token)].
  - intros (tr1 & [c'|m] & tr2 & -> & H & -> & [= ->])%runs_bind_inv. left. rewrite app_nil_r. by apply oauth_token_run.
  - intros H. right. by apply gateway_run.
  - intros (tr1 & [c'|m] & tr2 & -> & H1 & H)%runs_bind_inv.
    + destruct H as [-> [= ->]]. left. rewrite app_nil_r. by apply oauth_token_run.
    + apply runs_bind_inv in H as (tr3 & [c'|e] & tr4 & -> & H3 & H); right.
      * destruct H as [-> [= ->]]. eapply gateway_accepted_mono; [|by apply gateway_run]. set_solver.
      * eapply gateway_accepted_mono; [|by apply gateway_run]. set_solver.
Qed.

(** ** The stages of the middleware *)

Lemma db_calls_mono (l k : list (event auth_call)) : l ⊆ k -> db_calls l ⊆ db_calls k.
Proof using. intros H ev (ev' & Hin & He)%list_elem_of_omap. apply list_elem_of_omap. exists ev'. split; [by apply H|done]. Qed.

Lemma sub_snoc (l tr : list (event auth_call)) ev : l ⊆ tr -> l ⊆ snoc tr ev.
Proof using. intros H x Hx. unfold snoc. apply elem_of_app. left. by apply H. Qed.

Lemma sub_app (l tr k : list (event auth_call)) : l ⊆ tr -> l ⊆ tr ++ k.
Proof using. intros H x Hx. apply elem_of_app. left. by apply H. Qed.

Lemma sub_refl (l : list (event auth_call)) : l ⊆ l.
Proof using. done. Qed.

Lemma in_past (tr : list (event auth_call)) ev ev' : ev ∈ tr -> ev ∈ snoc tr ev'.
Proof using. intros H. unfold snoc. apply elem_of_app. by left. Qed.

Lemma snoc_in (tr : list (event auth_call)) ev : ev ∈ snoc tr ev.
Proof using. unfold snoc. apply elem_of_app. right. by apply list_elem_of_singleton. Qed.

Hint Resolve sub_snoc sub_app sub_refl in_past snoc_in : past.

Lemma revalidated_mono (token : string) (l k : list (event auth_call)) :
  l ⊆ k -> revalidated token (db_calls l) -> revalidated token (db_calls k).
Proof using.
  intros Hs Hre Hj. destruct (Hre Hj) as (c & row & user & d & H). exists c, row, user, d.
  eapply token_accepted_mono; [|exact H]. by apply db_calls_mono.
Qed.

Lemma refuse_wp req type m w tr : auth_wp req (refuse req type m w) tr (identified req).
Proof using.
  unfold refuse, sendAuthError. cbn. case_bool; [|done]. by destruct (buildWWWAuthenticateHeader _ _ _).
Qed.

Ltac past := cbn [wp pbind]; auto 10 with past.

Lemma refresh_wp req o tr : auth_wp req (refreshUserInfoIfNeeded o) tr (fun tr' _ => tr ⊆ tr').
Proof using.
  unfold refreshUserInfoIfNeeded. intros v. split; [done|]. case_bool; [by past|].
  intros now. split; [done|]. case_bool; [|by past].
  apply wp_bind. intros found. split; [done|].
  destruct found as [[user|]|e]; cbn [wp pbind]; [|by past..].
  destruct (parse_json (user_permissions user)); [|by past].
  destruct (parse_json (preferences_text user)); [|by past].
  intros v'. split; [done|]. intros []. split.
  - exists v, v', user. split_and! ; [auto with past..|done|done].
  - intros []. split; [done|]. past.
Qed.

Lemma expired_wp req o tr : auth_wp req (session_expired o) tr (fun tr' _ => tr ⊆ tr').
Proof using.
  unfold session_expired. intros v. split; [done|]. destruct (ctx_expiresAt _); [case_bool|]; [by past| |by past].
  intros t. split; [done|]. past.
Qed.

Lemma end_sessions_wp req uid reason type m tr : auth_wp req (end_sessions req uid reason type m) tr (identified req).
Proof using. intros r. split; [done|]. destruct r; [apply refuse_wp|done]. Qed.

(** A request that found the live session [o] and saw that its token still is
    valid. *)
Record in_session (req : AuthRequest) (o : nat) (tr : list (event auth_call)) : Prop := {
  found_by : exists sid, header_session req = Some sid /\ Ev _ (GetSession sid) (Some o) ∈ tr;
  checked_token : exists v, Ev _ (Peek o) v ∈ tr /\ revalidated (sv_token v) (db_calls tr)
}.

Lemma in_session_mono req o l k : l ⊆ k -> in_session req o l -> in_session req o k.
Proof using.
  intros H [(sid & H1 & H2) (v & H3 & H4)]. split; [exists sid; split; [done|by apply H]|].
  exists v. split; [by apply H|by eapply revalidated_mono].
Qed.

Lemma proceed_wp req o tr : in_session req o tr -> auth_wp req (proceed o) tr (identified req).
Proof using.
  intros Hin v. split; [done|]. intros now. split; [done|]. intros []. split; [done|].
  exists o. split; [done|]. left.
  set (tr' := snoc _ _). assert (Hin' : in_session req o tr').
  { eapply in_session_mono; [|exact Hin]. unfold tr'. auto with past. }
  destruct Hin' as [(sid & H1 & H2) (v0 & H3 & H4)].
  exists sid, v0, v. split_and! ; try done. unfold tr'. auto with past.
Qed.

Lemma renew_wp req o uid tr : in_session req o tr -> auth_wp req (renew_or_end req o uid) tr (identified req).
Proof using.
  intros Hin found. split; [done|]. destruct found as [[user|]|e]; cbn [wp pbind]; [|by apply end_sessions_wp|done].
  cbn zeta. apply wp_bind. destruct (0 <? user_expiresAt user).
  - intros now. split; [done|]. cbn [wp]. destruct (user_expired user now); [by apply end_sessions_wp|].
    intros []. split; [done|]. apply proceed_wp. eapply in_session_mono; [|exact Hin]. auto with past.
  - cbn [wp]. intros []. split; [done|]. apply proceed_wp. eapply in_session_mono; [|exact Hin]. auto with past.
Qed.

Lemma continue_wp req o uid tr : in_session req o tr -> auth_wp req (continue_session req o uid) tr (identified req).
Proof using.
  intros Hin. apply wp_bind. eapply wp_mono; [apply refresh_wp|]. intros tr2 [] H2.
  apply wp_bind. eapply wp_mono; [apply expired_wp|]. intros tr3 [] H3;
    [apply renew_wp|apply proceed_wp]; (eapply in_session_mono; [|exact Hin]); by transitivity tr2.
Qed.

Lemma with_session_wp req o tr sid :
  header_session req = Some sid -> Ev _ (GetSession sid) (Some o) ∈ tr ->
  auth_wp req (with_session req o) tr (identified req).
Proof using.
  intros Hsid Hin v. split; [done|]. apply wp_bind. set (tr1 := snoc tr _).
  assert (Hrest : forall tr2, tr1 ⊆ tr2 -> revalidated (sv_token v) (db_calls tr2) -> in_session req o tr2).
  { intros tr2 H2 Hre. split; [exists sid; split; [done|]|exists v; split; [|done]]; apply H2; unfold tr1; auto with past. }
  destruct (isJwtFormat (sv_token v)) eqn:Hj.
  - apply wp_bind. apply wp_embed. intros l [c|m] Hl; cbn [wp]; [|by apply end_sessions_wp].
    apply continue_wp, Hrest; [by auto with past|]. intros _. rewrite db_calls_app, db_calls_lift.
    apply oauth_token_run in Hl as (row & user & d & H). exists c, row, user, d.
    eapply token_accepted_mono; [|exact H]. intros ev ?. apply elem_of_app. by right.
  - cbn [wp]. apply continue_wp, Hrest; [done|]. unfold revalidated. congruence.
Qed.

Lemma open_session_wp req sid token anonymous c tr (Q : list (event auth_call) -> result auth_failure nat -> Prop) :
  (forall tr', tr ⊆ tr' -> vouched req tr' token c) ->
  (forall tr' r, (forall o, r = Ok o -> exists sid', Ev _ (NewSession sid' (ctx_userId c) token c) (Ok o) ∈ tr') -> Q tr' r) ->
  auth_wp req (open_session sid (ctx_userId c) token anonymous c) tr Q.
Proof using.
  intros Hv HQ resumed. split; [done|]. apply wp_bind.
  assert (Hopen : forall tr' i, tr ⊆ tr' -> auth_wp req (other (perform (NewSession i (ctx_userId c) token c))) tr' Q).
  { intros tr' i Hsub r. split; [split; [done|by apply Hv]|]. apply HQ. intros o Ho. exists i. destruct r; [|done].
    injection Ho as ->. apply snoc_in. }
  destruct resumed; cbn [wp pbind].
  - apply Hopen. auto with past.
  - intros u. split; [done|]. apply Hopen. auto with past.
Qed.

Lemma authenticate_token_wp req token tr :
  offered_token req = Some token -> auth_wp req (authenticate_token req token) tr (identified req).
Proof using.
  intros Ho. unfold authenticate_token. apply wp_bind, wp_embed. intros l [c|e] Hl; [|done].
  apply format_run in Hl. set (c' := with_user_agent (r_user_agent req) c).
  apply wp_bind. apply open_session_wp.
  - intros tr' Hsub. eapply vouched_token; [done| |done]. eapply token_valid_mono; [|exact Hl].
    intros ev Hin. apply (db_calls_mono _ _ Hsub). rewrite db_calls_app, db_calls_lift. apply elem_of_app. by right.
  - intros tr' [o|e] Hnew; [|done]. destruct (Hnew o eq_refl) as [sid Hs].
    intros r. split; [done|]. destruct r; [|done]. exists o. split; [done|]. right. exists sid, (ctx_userId c'), token. auto with past.
Qed.

Lemma anonymous_wp req path tr :
  hasAuthAttempt req = false -> path_of (r_originalUrl req) = Some path ->
  path = "/mcp/public"%string \/ path = "/mcp/public/"%string ->
  auth_wp req (handleAnonymousAccess req) tr (identified req).
Proof using.
  intros Hno Hp Hpub. unfold handleAnonymousAccess. case_bool; [apply refuse_wp|].
  intros r. split; [done|]. destruct r as [[|s l]|e]; [apply refuse_wp| |done].
  intros t. split; [done|]. apply wp_bind. set (c := anonymous_context _ _ _ _ _). apply open_session_wp.
  - intros tr' Hsub. eapply (vouched_address _ _ _ _ path s l t); try done. apply Hsub. auto with past.
  - intros tr' [o|e] Hnew; [|done]. destruct (Hnew o eq_refl) as [sid Hs].
    exists o. split; [done|]. right. by exists sid, (ctx_userId c), (ctx_token c).
Qed.

Lemma without_session_wp req tr : auth_wp req (without_session isInitializeRequest path_of req) tr (identified req).
Proof using.
  unfold without_session. destruct (negb (str_eqb _ _)); [done|]. destruct (negb (isInitializeRequest _)); [done|].
  destruct (path_of (r_originalUrl req)) as [path|] eqn:Hp; [|done].
  destruct (offered_token req) as [token|] eqn:Ho.
  - destruct (truthy_str token); [by apply authenticate_token_wp|apply refuse_wp].
  - destruct (negb (hasAuthAttempt req) && _) eqn:Hb; [|apply refuse_wp]. apply andb_true_iff in Hb as [Hn Hpub].
    apply (anonymous_wp req path); [by apply negb_true_iff|done|].
    by apply orb_true_iff in Hpub as [->%str_eqb_eq| ->%str_eqb_eq]; [left|right].
Qed.

Lemma authenticate_wp req : auth_wp req (authenticate isInitializeRequest path_of req) [] (identified req).
Proof using.
  unfold authenticate. apply wp_bind. apply (wp_mono _ _ _ _ _ (identified req)).
  - unfold authenticate_body. destruct (header_session req) as [sid|] eqn:Hs; [|apply without_session_wp].
    cbn [truthy_ostr]. destruct (truthy_str sid); [|apply without_session_wp].
    intros found. split; [done|]. destruct found as [o|]; [apply (with_session_wp _ _ _ sid); [done|apply snoc_in]|].
    destruct (str_eqb (r_method req) "DELETE"); [done|apply without_session_wp].
  - intros tr [o|[type m u|e]] H; [exact H|apply refuse_wp..].
Qed.

(** ** All requests together *)

Notation auth_history := (interleaving auth_answers).

Definition opens_or_sets (ev : event auth_call) : bool :=
  match ev with Ev _ e _ => match e with NewSession _ _ _ _ | SetAuthContext _ _ => true | _ => false end end.

(** Requests among the programs of a history; only they open sessions and set
    their contexts. *)
Record auth_threads (reqs : gmap nat AuthRequest) (tr : list (nat * event auth_call)) : Prop := {
  requests_run : forall i req, reqs !! i = Some req ->
    started (authenticate isInitializeRequest path_of req) (of_thread i tr);
  requests_only : forall i ev, (i, ev) ∈ tr -> opens_or_sets ev = true -> is_Some (reqs !! i)
}.

Lemma thread_justified reqs tr past i ev rest req :
  auth_threads reqs tr -> tr = past ++ (i, ev) :: rest -> reqs !! i = Some req ->
  justified req (of_thread i past) ev.
Proof using.
  intros [Hrun _] -> Hreq. destruct (Hrun i req Hreq) as (more & a & Hr).
  destruct (wp_runs _ _ _ _ _ _ _ _ (authenticate_wp req) Hr) as [Hc _].
  specialize (Hc (of_thread i past) ev (of_thread i rest ++ more)). rewrite fold_snoc in Hc. apply Hc.
  by rewrite of_thread_app, of_thread_here, <- app_assoc.
Qed.

(** What never changes of a session object. *)
Definition identity_of (v : SessionView) : string * string * string * string * bool :=
  (sv_sessionId v, sv_userId v, sv_token v, ctx_userId (sv_context v), ctx_anonymous (sv_context v)).

(** What the past and the present have to do with each other. *)
Record sound (past : list (nat * event auth_call)) (s : AuthWorld) : Prop := {
  sound_made : forall o v, objects s !! o = Some v -> ctx_userId (sv_context v) = sv_userId v
    /\ exists j c0 r, (j, Ev _ (NewSession (sv_sessionId v) (sv_userId v) (sv_token v) c0) r) ∈ past
       /\ ctx_anonymous c0 = ctx_anonymous (sv_context v);
  sound_peek : forall i o v, (i, Ev _ (Peek o) v) ∈ past ->
    exists v', objects s !! o = Some v' /\ identity_of v' = identity_of v;
  sound_user : forall i u r, (i, Ev _ (Db (FindUser (JStr u))) (Ok (Some r))) ∈ past -> OAuthDesk.userId r = u;
  sound_index : forall sid o, index s !! sid = Some o -> exists v, objects s !! o = Some v /\ sv_sessionId v = sid;
  sound_got : forall i sid o, (i, Ev _ (GetSession sid) (Some o)) ∈ past ->
    exists v, objects s !! o = Some v /\ sv_sessionId v = sid
}.

(** Objects keep their identity; new ones are made by [NewSession]. *)
Record evolves (ev : event auth_call) (s s' : AuthWorld) : Prop := {
  old_kept : forall o v, objects s !! o = Some v -> exists v', objects s' !! o = Some v' /\ identity_of v' = identity_of v;
  new_made : forall o v', objects s' !! o = Some v' ->
    (exists v, objects s !! o = Some v /\ identity_of v' = identity_of v)
    \/ exists sid uid token c r, ev = Ev _ (NewSession sid uid token c) r
        /\ identity_of v' = (sid, uid, token, ctx_userId c, ctx_anonymous c)
}.

Lemma evolves_same ev s s' : objects s' = objects s -> evolves ev s s'.
Proof using. intros Ho. split; intros o v H; [exists v; by rewrite Ho|left; exists v; by rewrite <- Ho]. Qed.

Lemma evolves_alter ev (f : SessionView -> SessionView) (o : nat) s s' :
  s' = set_objects (alter f o) s -> (forall v, objects s !! o = Some v -> identity_of (f v) = identity_of v) -> evolves ev s s'.
Proof using.
  intros -> Hf. split; cbn; intros k v H.
  - destruct (decide (k = o)) as [->|Hne].
    + rewrite lookup_alter_eq, H. exists (f v). split; [done|by apply Hf].
    + rewrite lookup_alter_ne by done. by exists v.
  - left. destruct (decide (k = o)) as [->|Hne].
    + rewrite lookup_alter_eq in H. destruct (objects s !! o) as [w|]; [|done]. injection H as <-.
      exists w. split; [done|by apply Hf].
    + rewrite lookup_alter_ne in H by done. by exists v.
Qed.

Lemma answers_evolve X (e : auth_call X) s x s' :
  auth_answers X e s x s' ->
  (forall o c v, Ev X e x = Ev _ (SetAuthContext o c) tt -> objects s !! o = Some v ->
     ctx_userId c = ctx_userId (sv_context v) /\ ctx_anonymous c = ctx_anonymous (sv_context v)) ->
  evolves (Ev X e x) s s'.
Proof using.
  intros Ha Hset. destruct e; cbn [auth_answers] in Ha;
    first [by apply evolves_same; subst|by destruct Ha as [_ ->]; apply evolves_same|idtac].
  - destruct x. eapply evolves_alter; [exact Ha|]. intros v Hv. destruct (Hset o c v eq_refl Hv) as [H1 H2].
    unfold identity_of. cbn. by rewrite H1, H2.
  - by eapply evolves_alter.
  - by eapply evolves_alter.
  - by eapply evolves_alter.
  - apply evolves_same. by destruct Ha.
  - apply writes_inv in Ha as [[-> _]|(o & (Hi & Ho & t & t0 & ->) & _)]; [by apply evolves_same|].
    split; cbn; intros k v H.
    + exists v. split; [|done]. rewrite lookup_insert_ne; [done|]. intros ->. congruence.
    + rewrite lookup_insert_Some in H. destruct H as [[<- <-]|[_ H]]; [right|left; by exists v].
      by exists sid, uid, token, c, x.
  - apply evolves_same. by destruct Ha.
  - by eapply evolves_alter.
Qed.

Lemma answers_index X (e : auth_call X) s x s' sid o :
  auth_answers X e s x s' -> index s' !! sid = Some o ->
  index s !! sid = Some o \/ exists uid token c v,
    Ev X e x = Ev _ (NewSession sid uid token c) (match e in auth_call X return X -> result exn nat with
                                                   | NewSession _ _ _ _ => fun x => x | _ => fun _ => Throw (Error "") end x)
    /\ objects s' !! o = Some v /\ sv_sessionId v = sid.
Proof using.
  intros Ha Hi. destruct e; cbn [auth_answers] in Ha;
    first [by subst; left|by destruct Ha as [_ ->]; left|by destruct Ha as [_ Hs]; left; eapply lookup_weaken|idtac].
  apply writes_inv in Ha as [[-> _]|(k & (_ & _ & t & t0 & ->) & _)]; [by left|]. cbn in *.
  rewrite lookup_insert_Some in Hi. destruct Hi as [[<- <-]|[_ Hi]]; [right|by left].
  eexists uid, token, c, _. split; [done|]. by rewrite lookup_insert_eq.
Qed.

Lemma past_snoc {A} (x : A) past (y : A) : x ∈ past ++ [y] -> x ∈ past \/ x = y.
Proof using. intros [H|H%list_elem_of_singleton]%elem_of_app; auto. Qed.

Definition event_answers (ev : event auth_call) (s s' : AuthWorld) : Prop :=
  match ev with Ev X e x => auth_answers X e s x s' end.

Lemma sound_step past s i ev s' :
  sound past s -> event_answers ev s s' ->
  (opens_or_sets ev = true -> exists req, justified req (of_thread i past) ev) ->
  sound (past ++ [(i, ev)]) s'.
Proof using.
  intros [Hmade Hpeek Huser Hindex Hgot] Ha Hj.
  assert (Hev : evolves ev s s').
  { destruct ev as [X e x]. apply (answers_evolve X e s x s' Ha). intros o c v Heq Hv. rewrite Heq in Hj.
    destruct (Hj eq_refl) as (req & v1 & v2 & u & H1%of_thread_elem & H2%of_thread_elem & H3%of_thread_elem & -> & ->).
    destruct (Hpeek _ _ _ H1) as (w1 & Hw1 & E1), (Hpeek _ _ _ H2) as (w2 & Hw2 & E2).
    assert (w1 = v) as -> by congruence. assert (w2 = v) as -> by congruence.
    injection E1 as _ E1 _ _ _. injection E2 as _ _ _ _ E2.
    rewrite (Huser _ _ _ H3), E2. by rewrite (proj1 (Hmade _ _ Hv)), E1. }
  split.
  - intros o v' Hv'. destruct (new_made _ _ _ Hev _ _ Hv') as [(v & Hv & E)|(sid & uid & token & c & r & -> & E)].
    + injection E as E1 E2 E3 E4 E5. destruct (Hmade _ _ Hv) as (Hu & j & c0 & r & Hin & Hc0).
      rewrite E1, E2, E3, E4, E5. split; [done|]. exists j, c0, r. split; [apply elem_of_app; by left|done].
    + injection E as E1 E2 E3 E4 E5. rewrite E1, E2, E3, E4, E5. destruct (Hj eq_refl) as (req & Huid & _).
      split; [done|]. exists i, c, r. split; [apply elem_of_app; right; by apply list_elem_of_singleton|done].
  - intros j o v [H|H]%past_snoc.
    + destruct (Hpeek _ _ _ H) as (w & Hw & E). destruct (old_kept _ _ _ Hev _ _ Hw) as (w' & Hw' & E').
      exists w'. split; [done|congruence].
    + injection H as -> <-. destruct Ha as [Hv ->]. by exists v.
  - intros j u r [H|H]%past_snoc; [by eapply Huser|]. injection H as -> <-. by destruct Ha as [Ha _].
  - intros sid o H. destruct ev as [X e x]. destruct (answers_index X e s x s' sid o Ha H) as [Hi|(uid & token & c & v & _ & Hv & Hs)]; [|by exists v].
    destruct (Hindex _ _ Hi) as (v & Hv & Hs). destruct (old_kept _ _ _ Hev _ _ Hv) as (v' & Hv' & E).
    exists v'. split; [done|]. injection E as E _ _ _ _. congruence.
  - intros j sid o [H|H]%past_snoc.
    + destruct (Hgot _ _ _ H) as (v & Hv & Hs). destruct (old_kept _ _ _ Hev _ _ Hv) as (v' & Hv' & E).
      exists v'. split; [done|]. injection E as E _ _ _ _. congruence.
    + injection H as -> <-. destruct Ha as [Hi ->]. symmetry in Hi. by apply Hindex.
Qed.

Lemma history_sound reqs tr past s rest s' :
  auth_threads reqs tr -> tr = past ++ rest -> sound past s -> auth_history s rest s' -> sound tr s'.
Proof using.
  intros Hthr Htr Hs Hh. revert past Htr Hs. induction Hh as [s|s i X e x s1 rest s2 Ha _ IH]; intros past Htr Hs.
  - by rewrite app_nil_r in Htr; subst.
  - apply (IH (past ++ [(i, Ev X e x)])); [by rewrite <- app_assoc|]. eapply sound_step; [exact Hs|exact Ha|].
    intros Hop. destruct (requests_only _ _ Hthr i (Ev X e x)) as [req Hreq];
      [rewrite Htr; apply elem_of_app; right; apply list_elem_of_here|done|].
    exists req. by eapply thread_justified.
Qed.

(** What stands behind a session [sid] opened with [token]. *)
Lemma opened_vouched reqs tr j sid uid token c r :
  auth_threads reqs tr -> (j, Ev _ (NewSession sid uid token c) r) ∈ tr ->
  exists req pre post, reqs !! j = Some req
    /\ of_thread j tr = pre ++ Ev _ (NewSession sid uid token c) r :: post /\ ctx_userId c = uid /\ vouched req pre token c.
Proof using.
  intros Hthr Hin. destruct (requests_only _ _ Hthr _ _ Hin eq_refl) as [req Hreq].
  apply list_elem_of_split in Hin as (past & rest & Htr).
  destruct (thread_justified _ _ _ _ _ _ _ Hthr Htr Hreq) as [Hu Hv].
  exists req, (of_thread j past), (of_thread j rest). split_and! ; [done| |done|done].
  by rewrite Htr, of_thread_app, of_thread_here.
Qed.

Definition no_sessions : AuthWorld := {| objects := ∅; index := ∅ |}.

(** C10: However requests interleave: a request that the middleware lets through
    with an identity acts as the user (or the anonymous visitor) for whom its
    session was opened, and that session was opened by a request that had
    offered a token just validated for that user, or that had come to the
    public endpoint without one.  Unless it opened the session itself, the
    request named the session in its header, and the session's token, if it is
    an OAuth token, was validated again during the request. *)
Theorem requests_act_as_vouched_users reqs tr s' (i : nat) req c o :
  auth_history no_sessions tr s' -> auth_threads reqs tr -> reqs !! i = Some req ->
  runs (authenticate isInitializeRequest path_of req) (of_thread i tr) (Some (Ok (Next (Some (c, o))))) ->
  exists j req' sid token c0 r pre post,
    reqs !! j = Some req' /\ of_thread j tr = pre ++ Ev _ (NewSession sid (ctx_userId c) token c0) r :: post
    /\ vouched req' pre token c0 /\ ctx_userId c0 = ctx_userId c /\ ctx_anonymous c0 = ctx_anonymous c
    /\ ((j = i /\ c0 = c)
        \/ (header_session req = Some sid /\ revalidated token (db_calls (of_thread i tr)))).
Proof using.
  intros Hh Hthr Hreq Hrun.
  assert (Hs : sound tr s').
  { eapply (history_sound reqs tr [] no_sessions tr); [done|done| |done].
    split; cbn; intros; try done; by apply not_elem_of_nil in H. }
  destruct (wp_runs _ _ _ _ _ _ _ _ (authenticate_wp req) Hrun) as [_ Hq].
  specialize (Hq _ eq_refl). rewrite fold_snoc in Hq.
  destruct Hq as (o' & -> & [(sid & v & v' & Hsid & Hgot & Hpeek & Hre & Hpeek' & ->)|(sid & uid & token & Hnew)]).
  - apply of_thread_elem in Hgot, Hpeek, Hpeek'.
    destruct (sound_got _ _ Hs _ _ _ Hgot) as (w & Hw & Ew).
    destruct (sound_peek _ _ Hs _ _ _ Hpeek) as (w1 & Hw1 & E1), (sound_peek _ _ Hs _ _ _ Hpeek') as (w2 & Hw2 & E2).
    assert (w1 = w) as -> by congruence. assert (w2 = w) as -> by congruence.
    injection E1 as _ _ E1 _ _. injection E2 as _ _ _ E2 E3.
    destruct (sound_made _ _ Hs _ _ Hw) as (Hu & j & c0 & r & Hin & Hc0).
    destruct (opened_vouched _ _ _ _ _ _ _ _ Hthr Hin) as (req' & pre & post & Hj & Hpre & Huid & Hv).
    exists j, req', (sv_sessionId w), (sv_token w), c0, r, pre, post. rewrite <- E2, Hu, Hc0, E3.
    split_and! ; try done. right. split; [congruence|]. by rewrite E1.
  - apply of_thread_elem in Hnew.
    destruct (opened_vouched _ _ _ _ _ _ _ _ Hthr Hnew) as (req' & pre & post & Hj & Hpre & <- & Hv).
    exists i, req', sid, token, c, (Ok o'), pre, post. split_and! ; try done. by left.
Qed.
End Vouching.

(** ** The stateless endpoint and the admin interface *)
Section Endpoints.
Context `{P : Platform}.

Lemma embed_runs {A} (p : prog call A) tr a : runs (embed p) tr (Some a) -> runs p (db_calls tr) (Some a).
Proof.
  revert tr. induction p as [b|X e k IH|]; intros tr; cbn; [by intros [-> ->]| |by intros [_ [=]]].
  intros (x & tr' & -> & Hk). exists x, (db_calls tr'). split; [done|by apply IH].
Qed.

Lemma modern_error_refuses req e d i : Modern.sendAuthError req e d <> Ok (Next i).
Proof. unfold Modern.sendAuthError. by destruct (Modern.getResourceMetadataUrl _). Qed.

Lemma modern_body_run (clients tenants : list string) req tr c o :
  runs (Modern.authenticate clients tenants req) tr (Some (Ok (Next (Some (c, o))))) ->
  runs (Modern.authenticate_body clients tenants req) tr (Some (Ok (Next (Some (c, o))))).
Proof.
  intros (tr1 & r & tr2 & -> & H & -> & Hr)%runs_bind_inv. rewrite app_nil_r.
  destruct r as [r|[? ? ?|?]]; [by injection Hr as <-|exfalso..];
    symmetry in Hr; injection Hr as Hr; by apply modern_error_refuses in Hr.
Qed.

Lemma allowlist_ok (clients tenants : list string) c :
  Modern.enforceRolloutAllowlist clients tenants c = Ok tt ->
  (clients = [] \/ Modern.includes_claim clients (ctx_oauthClientId c) = true)
  /\ (tenants = [] \/ default ""%string (ctx_tenantId c) ∈ tenants).
Proof.
  unfold Modern.enforceRolloutAllowlist. destruct (negb _ && _ : bool) eqn:Hc; [done|].
  destruct (negb (bool_decide (tenants = [])) && _) eqn:Ht; [done|]. intros _. split.
  - apply andb_false_iff in Hc as [Hc|Hc]; [left|right].
    + by apply negb_false_iff, bool_decide_eq_true in Hc.
    + by apply orb_false_iff in Hc as [_ ?%negb_false_iff].
  - apply andb_false_iff in Ht as [Ht|Ht]; apply negb_false_iff, bool_decide_eq_true in Ht; [by left|by right].
Qed.

(** C16: The stateless endpoint lets a request through only with an access token
    of the OAuth server that was issued for this very endpoint, offered in the
    Authorization header, from an admitted client and tenant. *)
Theorem modern_identity_bound_to_resource (clients tenants : list string) req tr c o :
  runs (Modern.authenticate clients tenants req) tr (Some (Ok (Next (Some (c, o))))) ->
  Modern.hasQueryToken req = false
  /\ (exists token resource c0 row user decoded,
       bearer_token (r_authorization req) = Some token /\ Modern.getCanonicalMcpResource (r_urls req) = Ok resource
       /\ token_accepted token (Some resource) (db_calls tr) c0 row user decoded
       /\ ctx_userId c = ctx_userId c0 /\ ctx_permissions c = ctx_permissions c0)
  /\ (clients = [] \/ Modern.includes_claim clients (ctx_oauthClientId c) = true)
  /\ (tenants = [] \/ default ""%string (ctx_tenantId c) ∈ tenants).
Proof.
  intros H%modern_body_run. unfold Modern.authenticate_body in H.
  destruct (Modern.hasQueryToken req) eqn:Hq; [destruct H as [_ [= H]]; symmetry in H; by apply modern_error_refuses in H|].
  destruct (bearer_token (r_authorization req)) as [token|] eqn:Hb; cbn [from_option id] in H;
    [|destruct H as [_ [= H]]; symmetry in H; by apply modern_error_refuses in H].
  destruct (str_eqb token "") eqn:Ht; [destruct H as [_ [= H]]; symmetry in H; by apply modern_error_refuses in H|].
  destruct (Modern.getCanonicalMcpResource (r_urls req)) as [resource|e] eqn:Hres; [|by destruct H as [_ [=]]].
  apply runs_await_inv in H as [(? & _ & [=])|(tr3 & c0 & tr4 & -> & Hv & H)].
  apply runs_bind_inv in Hv as (tr5 & x & tr6 & -> & Hv & -> & Hx). rewrite app_nil_r in *.
  destruct x as [c1|m]; [|done]. injection Hx as ->.
  destruct (Modern.enforceRolloutAllowlist clients tenants c1) as [[]|] eqn:Hal; [|by destruct H as [_ [=]]].
  apply runs_await_inv in H as [(? & _ & [=])|(tr7 & u & tr8 & -> & _ & -> & [= -> ->])].
  apply embed_runs, oauth_token_run in Hv as (row & user & d & Hacc). apply allowlist_ok in Hal as [Hcl Hte].
  split_and! ; [done| |done|done].
  exists token, resource, c1, row, user, d. split_and! ; try done. eapply token_accepted_mono; [|exact Hacc].
  rewrite !db_calls_app. intros ev Hin. apply elem_of_app. by left.
Qed.

(** C15: The admin interface acts only for owners and administrators with a valid
    gateway token, and without a token only on the five actions that set the
    gateway up. *)
Theorem admin_requires_role req tr (i : option (AuthContext * option nat)) :
  runs (Admin.authenticate req) tr (Some (Next i)) ->
  match i with
  | Some (c, _) => (ctx_role c = UserRole_Owner \/ ctx_role c = UserRole_Admin)
      /\ exists token, bearer_token (r_authorization req) = Some token /\ gateway_accepted token tr c
  | None => r_authorization req = None /\ r_baseUrl req = "/admin"%string /\ r_method req = "POST"%string
      /\ exists a, jfield_opt (r_body req) "action" = JNum a
         /\ (a ∈ [Admin.GET_OWNER; Admin.GET_PROXY; Admin.CREATE_PROXY; Admin.RESTORE_DATABASE]
             \/ a = Admin.CREATE_USER /\ jfield_opt (jfield_opt (r_body req) "data") "role" = JNum UserRole_Owner)
  end.
Proof.
  unfold Admin.authenticate. destruct (bool_decide (r_authorization req = None) && _) eqn:Hun.
  - intros [_ [= ->]]. apply andb_true_iff in Hun as [Hn Hun]. to_prop. split; [done|].
    unfold Admin.allowsUnauthenticatedAdminAction in Hun. apply andb_true_iff in Hun as [[[Hb%str_eqb_eq Hm%str_eqb_eq]%andb_true_iff _]%andb_true_iff Ha].
    split_and! ; [done|done|]. destruct (jfield_opt (r_body req) "action") as [| | |a| | |]; try done. exists a. split; [done|].
    repeat apply orb_true_iff in Ha as [Ha|Ha];
      first [apply andb_true_iff in Ha as [->%Z.eqb_eq Hr%json_eqb_eq]; by right|apply Z.eqb_eq in Ha as ->; left; set_solver].
  - destruct (bearer_token (r_authorization req)) as [token|]; [|by intros [_ [=]]].
    destruct (str_eqb token ""); [by intros [_ [=]]|].
    intros (tr1 & r & tr2 & -> & Hv & H)%runs_bind_inv. destruct r as [c|e]; [|by destruct H as [_ [=]]].
    destruct (negb (ctx_role c =? UserRole_Owner) && _) eqn:Hr; [by destruct H as [_ [=]]|].
    destruct H as [-> [= ->]]. rewrite app_nil_r. split; [|exists token; split; [done|by apply gateway_run]].
    apply andb_false_iff in Hr as [Hr|Hr]; to_prop; auto.
Qed.
End Endpoints.

(** * Authentication: examples

    Sessions and users one can compute with, shown to answer as [AuthSafety]
    assumes; the instances of its theorems; and two things the middleware
    lets pass. *)

Section World.
(** The user table, and the bearer tokens that have a row. *)
Context (users : list User) (rows : list OAuthToken).

Definition db_exec (X : Type) (e : call X) (now : Z) : X :=
  match e in call X return X with
  | Now => now
  | FindUser (JStr u) => Ok (List.find (fun r => str_eqb (OAuthDesk.userId r) u) users)
  | FindTokenByAccess (JStr t) => Ok (List.find (fun r => str_eqb (accessToken r) t) rows)
  | e => OAuthDesk.refuse e
  end.

(** Sessions get the next number; the clock stands still; no session that
    ended is resumed. *)
Definition auth_exec (X : Type) (e : auth_call X) (w : AuthWorld * Z) : X * (AuthWorld * Z) :=
  let s := fst w in let now := snd w in
  match e in auth_call X return X * (AuthWorld * Z) with
  | Db e => (db_exec _ e now, w)
  | GetSession sid => (index s !! sid, w)
  | Peek o => (default {| sv_sessionId := ""; sv_userId := ""; sv_token := "";
                          sv_context := context_of (Build_User "" 0 0 "" "" "" 0 0 0) "" JNull JNull 0;
                          sv_lastRefresh := None; sv_lastActive := 0 |} (objects s !! o), w)
  | SetAuthContext o c => (tt, (set_objects (alter (with_context c) o) s, now))
  | SetExpiresAt o t => (tt, (set_objects (alter (updateExpiresAt t) o) s, now))
  | SetPermissions o p => (tt, (set_objects (alter (updatePermissions p) o) s, now))
  | SetLastRefresh o t => (tt, (set_objects (alter (with_refresh t) o) s, now))
  | Touch o t => (tt, (set_objects (alter (with_active t) o) s, now))
  | RemoveUserSessions uid _ =>
      (Ok tt, (set_index (filter (fun p => (sv_userId <$> objects s !! snd p) <> Some uid) (index s)) s, now))
  | EndSessions _ => (tt, w)
  | ConsumeTerminated _ _ _ _ => (false, w)
  | RandomUUID => (z_to_string (Z.of_nat (size (objects s))), w)
  | NewSession sid uid token c =>
      let o := size (objects s) in
      match index s !! sid, objects s !! o with
      | None, None =>
          (Ok o, ({| objects := <[o := {| sv_sessionId := sid; sv_userId := uid; sv_token := token; sv_context := c;
                                          sv_lastRefresh := Some now; sv_lastActive := now |}]> (objects s);
                     index := <[sid := o]> (index s) |}, now))
      | _, _ => (Throw (Error "Session already exists"), w)
      end
  | FindAnonymousServers => (Ok [], w)
  | LogAuth => (Ok tt, w)
  end.

(** Only objects that exist are read. *)
Definition peek_ok {X} (e : auth_call X) (w : AuthWorld * Z) : bool :=
  match e with Peek o => bool_decide (is_Some (objects (fst w) !! o)) | _ => true end.

Fixpoint peeks_ok {A} (p : prog auth_call A) (w : AuthWorld * Z) : bool :=
  match p with
  | Vis X e k => peek_ok e w && peeks_ok (k (fst (auth_exec X e w))) (snd (auth_exec X e w))
  | _ => true
  end.

Lemma exec_auth_answers (X : Type) (e : auth_call X) (w : AuthWorld * Z) :
  peek_ok e w = true ->
  auth_answers X e (fst w) (fst (auth_exec X e w)) (fst (snd (auth_exec X e w))).
Proof.
  destruct w as [s now]. intros Hpeek.
  destruct e as [Y e|sid|o|o c|o t|o t|o t|uid rs|sid uid an tk| |sid uid tk c| | |p|o p]; cbn [auth_answers auth_exec fst snd]; try done.
  - split; [|done]. destruct e as [ | | | | | | | | | | | | | | | | | |u| | | | | | | ]; try done. destruct u as [| | | |u| |]; try done.
    cbn. destruct (List.find _ users) as [r|] eqn:Hf; [|done]. by apply find_some in Hf as [_ ?%str_eqb_eq].
  - cbn in Hpeek. apply bool_decide_eq_true in Hpeek as [v Hv]. by rewrite Hv.
  - split; [done|]. cbn. apply map_filter_subseteq.
  - destruct (index s !! sid) eqn:Hi; [by left|]. destruct (objects s !! size (objects s)) eqn:Ho; [by left|].
    cbn. split_and! ; [done..|]. by exists now, now.
Qed.

Lemma auth_exec_history {A} (i : nat) (p : prog auth_call A) (w : AuthWorld * Z) :
  peeks_ok p w = true ->
  interleaving auth_answers (fst w) (map (pair i) (fst (fst (run_with auth_exec p w)))) (fst (snd (run_with auth_exec p w))).
Proof.
  revert w. induction p as [a|X e k IH|]; intros w; cbn [peeks_ok run_with]; [constructor| |constructor].
  intros [Hp Hrest]%andb_true_iff. pose proof (exec_auth_answers X e w Hp) as Ha.
  destruct (auth_exec X e w) as [x w1]. specialize (IH x w1 Hrest).
  destruct (run_with auth_exec (k x) w1) as [[tr r] w2]. cbn in *. by econstructor.
Qed.
End World.

(** ** A session opened with a gateway token, and a request that only knows its
    id *)
Section Example.
Local Open Scope string_scope.

Fixpoint repeat_char (n : nat) (c : ascii) : string := match n with O => "" | S n' => String c (repeat_char n' c) end.

Definition ex_gateway_token : string := repeat_char 128 "a".

Definition ex_alice (st : Z) : User := {|
  OAuthDesk.userId := str_take 32 ("hex:" +:+ ex_gateway_token); status := st; role := 3;
  user_permissions := "{}"; user_preferences := ""; launchConfigs := "{}";
  user_expiresAt := 0; ratelimit := 10; proxyId := 0 |}.

Definition ex_urls : Request := {|
  env_PETA_PUBLIC_URL := None; env_ENABLE_HTTPS := false; trusted_proxy := false; x_forwarded_host := None;
  x_forwarded_proto := None; host_header := Some "localhost:3002"; req_protocol := "http" |}.

(** The first request initializes with the token, the second just names the
    session. *)
Definition ex_initialize : AuthRequest := {|
  r_urls := ex_urls; r_session_caps := None; r_session := None; r_method := "POST"; r_body := JStr "initialize";
  r_authorization := Some ("Bearer " +:+ ex_gateway_token); r_query_token := JUndefined; r_query_api_key := JUndefined;
  r_originalUrl := "/mcp"; r_user_agent := None; r_origin := None; r_clientIp := None; r_baseUrl := "/mcp" |}.

Definition ex_follow_up : AuthRequest := {|
  r_urls := ex_urls; r_session_caps := None; r_session := Some "session-0"; r_method := "POST"; r_body := JStr "tools/list";
  r_authorization := None; r_query_token := JUndefined; r_query_api_key := JUndefined;
  r_originalUrl := "/mcp"; r_user_agent := None; r_origin := None; r_clientIp := None; r_baseUrl := "/mcp" |}.

Definition ex_authenticate : AuthRequest -> prog auth_call (result auth_failure auth_outcome) :=
  authenticate (P := toy_platform) (fun b => json_eqb b (JStr "initialize")) Some.

Definition ex_open := run_with (auth_exec [ex_alice 1] []) (ex_authenticate ex_initialize) (no_sessions, 1000%Z).

(** By the time of the second request, five minutes later, the user has been
    disabled and what the session knows of its user is read again. *)
Definition ex_later := run_with (auth_exec [ex_alice 0] []) (ex_authenticate ex_follow_up) (fst (snd ex_open), 301000%Z).

Definition ex_auth_trace : list (nat * event auth_call) :=
  map (pair 0%nat) (fst (fst ex_open)) ++ map (pair 1%nat) (fst (fst ex_later)).

Definition ex_auth_requests : gmap nat AuthRequest := {[0%nat := ex_initialize; 1%nat := ex_follow_up]}.
End Example.

Lemma ex_auth_history : interleaving auth_answers no_sessions ex_auth_trace (fst (snd ex_later)).
Proof.
  eapply interleaving_app.
  - apply (auth_exec_history [ex_alice 1] [] 0 (ex_authenticate ex_initialize) (no_sessions, 1000)). vm_compute. reflexivity.
  - apply (auth_exec_history [ex_alice 0] [] 1 (ex_authenticate ex_follow_up) (fst (snd ex_open), 301000)). vm_compute. reflexivity.
Qed.


Lemma ex_auth_thread (j : nat) :
  of_thread j ex_auth_trace = (if (j =? 0)%nat then fst (fst ex_open) else []) ++ (if (j =? 1)%nat then fst (fst ex_later) else []).
Proof. unfold ex_auth_trace. by rewrite of_thread_app, !of_thread_pair. Qed.

Lemma ex_auth_threads :
  auth_threads (P := toy_platform) (fun b => json_eqb b (JStr "initialize")) Some ex_auth_requests ex_auth_trace.
Proof.
  split.
  - intros i req H. rewrite ex_auth_thread. unfold ex_auth_requests in H. apply lookup_insert_Some in H as [[<- <-]|[_ H]].
    + cbn [Nat.eqb]. rewrite app_nil_r. eapply started_run;
        [apply (run_with_runs auth_call (auth_exec [ex_alice 1] []) (ex_authenticate ex_initialize) (no_sessions, 1000))|].
      vm_compute. by eexists.
    + apply lookup_singleton_Some in H as [<- <-]. cbn [Nat.eqb app]. eapply started_run;
        [apply (run_with_runs auth_call (auth_exec [ex_alice 0] []) (ex_authenticate ex_follow_up) (fst (snd ex_open), 301000))|].
      vm_compute. by eexists.
  - intros i ev Hin Hop.
    assert (forallb (fun p => (fst p <? 2)%nat) ex_auth_trace = true) as HF by (vm_compute; reflexivity).
    rewrite forallb_forall in HF. apply list_elem_of_In, HF in Hin. cbn in Hin. to_prop. unfold ex_auth_requests.
    destruct i as [|[|i]]; [by eexists|by eexists|lia].
Qed.

Definition identity_result (r : option (result auth_failure auth_outcome)) : option (AuthContext * option nat) :=
  match r with Some (Ok (Next i)) => i | _ => None end.

Definition ex_disabled : AuthContext :=
  refreshed_context {| sv_sessionId := "session-0"; sv_userId := ""; sv_token := ex_gateway_token;
                       sv_context := context_of (ex_alice 0) ex_gateway_token (JObj []) (JObj []) 1000;
                       sv_lastRefresh := Some 1000; sv_lastActive := 0 |} (ex_alice 0) (JObj []) (JObj []).

(** The middleware takes a session's id for its owner: a request without any
    credential acts as the session's user; and a user who has been disabled
    goes on working in a session of a gateway token, although the refresh of
    the session has just read the new status. *)
Theorem session_id_is_enough :
  r_authorization ex_follow_up = None
  /\ snd (fst ex_later) = Some (Ok (Next (Some (ex_disabled, Some 0%nat)))) /\ ctx_status ex_disabled = UserStatus_Disabled.
Proof. split; [reflexivity|]. split; vm_compute; reflexivity. Qed.

Lemma requests_act_as_vouched_users_witness :
  runs (ex_authenticate ex_follow_up) (of_thread 1 ex_auth_trace) (Some (Ok (Next (Some (ex_disabled, Some 0%nat)))))
  /\ exists j req' sid token c0 r pre post,
    ex_auth_requests !! j = Some req'
    /\ of_thread j ex_auth_trace = pre ++ Ev _ (NewSession sid (ctx_userId ex_disabled) token c0) r :: post
    /\ vouched (P := toy_platform) Some req' pre token c0
    /\ ctx_userId c0 = ctx_userId ex_disabled /\ ctx_anonymous c0 = ctx_anonymous ex_disabled
    /\ ((j = 1%nat /\ c0 = ex_disabled)
        \/ (header_session ex_follow_up = Some sid
            /\ revalidated (P := toy_platform) token (db_calls (of_thread 1 ex_auth_trace)))).
Proof.
  assert (Hr : runs (ex_authenticate ex_follow_up) (of_thread 1 ex_auth_trace) (Some (Ok (Next (Some (ex_disabled, Some 0%nat)))))).
  { rewrite ex_auth_thread. cbn [Nat.eqb app]. 
    apply (run_with_result auth_call (auth_exec [ex_alice 0] []) (ex_authenticate ex_follow_up) (fst (snd ex_open), 301000)). vm_compute. reflexivity. }
  split; [exact Hr|].
  apply (requests_act_as_vouched_users (P := toy_platform) (fun b => json_eqb b (JStr "initialize")) Some ex_auth_requests
           ex_auth_trace (fst (snd ex_later)) 1 ex_follow_up ex_disabled (Some 0%nat)); [apply ex_auth_history|apply ex_auth_threads|reflexivity|exact Hr].
Defined.

(** ** The other two *)
Section Others.
Local Open Scope string_scope.

Definition ex_jwt : string := toy_sign [("type", JStr "access_token"); ("user_id", JStr "u1"); ("client_id", JStr "app");
  ("scopes", JArr [JStr "mcp:tools"]); ("exp", JNum 9000); ("aud", JStr "http://localhost:3002/mcp")] "key".

Definition ex_jwt_row : OAuthToken := {|
  tokenId := "t1"; accessToken := ex_jwt; refreshToken := None; token_clientId := "app"; token_userId := "u1";
  token_scopes := ["mcp:tools"]; token_resource := Some "http://localhost:3002/mcp"; accessTokenExpiresAt := 9000000;
  refreshTokenExpiresAt := None; revoked := false |}.

Definition ex_bob : User := {|
  OAuthDesk.userId := "u1"; status := 1; role := 1; user_permissions := "{}"; user_preferences := ""; launchConfigs := "{}";
  user_expiresAt := 0; ratelimit := 10; proxyId := 0 |}.

Definition ex_modern_request : AuthRequest := {|
  r_urls := ex_urls; r_session_caps := None; r_session := None; r_method := "POST"; r_body := JUndefined;
  r_authorization := Some ("bearer " +:+ ex_jwt); r_query_token := JUndefined; r_query_api_key := JUndefined;
  r_originalUrl := "/mcp"; r_user_agent := None; r_origin := None; r_clientIp := None; r_baseUrl := "/mcp" |}.

Definition ex_modern := run_with (auth_exec [ex_bob] [ex_jwt_row])
  (Modern.authenticate (P := toy_platform) ["app"] [] ex_modern_request) (no_sessions, 1000%Z).

Definition ex_admin_user : User := {|
  OAuthDesk.userId := str_take 32 ("hex:" +:+ ex_gateway_token); status := 1; role := 2; user_permissions := "{}";
  user_preferences := ""; launchConfigs := "{}"; user_expiresAt := 0; ratelimit := 10; proxyId := 0 |}.

Definition admin_exec (X : Type) (e : call X) (w : unit) : X * unit := (db_exec [ex_admin_user] [] X e 1000, w).
Definition ex_admin := run_with admin_exec (Admin.authenticate (P := toy_platform) ex_initialize) tt.
End Others.

Definition modern_context : AuthContext :=
  match identity_result (snd (fst ex_modern)) with Some (c, _) => c | None => ex_disabled end.

Lemma modern_identity_bound_to_resource_witness :
  snd (fst ex_modern) = Some (Ok (Next (Some (modern_context, None))))
  /\ Modern.hasQueryToken ex_modern_request = false
  /\ (exists token resource c0 row user decoded,
       bearer_token (r_authorization ex_modern_request) = Some token
       /\ Modern.getCanonicalMcpResource (P := toy_platform) (r_urls ex_modern_request) = Ok resource
       /\ token_accepted (P := toy_platform) token (Some resource) (db_calls (fst (fst ex_modern))) c0 row user decoded
       /\ ctx_userId modern_context = ctx_userId c0 /\ ctx_permissions modern_context = ctx_permissions c0)
  /\ (["app"%string] = [] \/ Modern.includes_claim ["app"%string] (ctx_oauthClientId modern_context) = true)
  /\ ((@nil string) = [] \/ default ""%string (ctx_tenantId modern_context) ∈ (@nil string)).
Proof.
  assert (Hr : snd (fst ex_modern) = Some (Ok (Next (Some (modern_context, None))))) by (vm_compute; reflexivity).
  split; [exact Hr|]. apply (modern_identity_bound_to_resource (P := toy_platform) ["app"%string] [] ex_modern_request _ modern_context None).
  apply (run_with_result auth_call (auth_exec [ex_bob] [ex_jwt_row])). exact Hr.
Defined.

Definition admin_context : AuthContext := context_of ex_admin_user ex_gateway_token (JObj []) (JObj []) 1000.

Lemma admin_requires_role_witness :
  snd (fst ex_admin) = Some (Next (Some (admin_context, None)))
  /\ (ctx_role admin_context = UserRole_Owner \/ ctx_role admin_context = UserRole_Admin)
  /\ exists token, bearer_token (r_authorization ex_initialize) = Some token
     /\ gateway_accepted (P := toy_platform) token (fst (fst ex_admin)) admin_context.
Proof.
  assert (Hr : snd (fst ex_admin) = Some (Next (Some (admin_context, None)))) by (vm_compute; reflexivity).
  split; [exact Hr|]. apply (admin_requires_role (P := toy_platform) ex_initialize _ (Some (admin_context, None))).
  apply (run_with_result call admin_exec). exact Hr.
Defined.
