(* ===== verification/ServerTypes.v ===== *)
(** * Downstream servers: the data their components share

    Server rows ([src/prisma/schema.prisma]), the enumerations of
    [src/src/types/enums.ts] about them, thrown values, and reading and
    writing the properties of JSON values the way the code does. *)
From Stdlib Require Import Ascii ZArith Lia.
From stdpp Require Import base strings list.
From S2P Require Import Prelude Json JsMap.
Open Scope Z_scope.

Inductive ServerCategory : Type := Template | CustomRemote | RestApi | Skills | CustomStdio | OtherCategory (n : Z).

Inductive ServerAuthType : Type :=
| ApiKey | GoogleAuth | NotionAuth | FigmaAuth | GoogleCalendarAuth | GithubAuth | ZendeskAuth | CanvasAuth
| CanvaAuth | GmailAuth | GoogleDocsAuth | GoogleSheetsAuth | GoogleFormsAuth | PipedriveAuth | HubSpotAuth
| IntercomAuth | SlackAuth | OtherAuth (n : Z).

#[export] Instance ServerCategory_eq_dec : EqDecision ServerCategory.
Proof. solve_decision. Defined.
#[export] Instance ServerAuthType_eq_dec : EqDecision ServerAuthType.
Proof. solve_decision. Defined.

(** A row of the table. *)
Record Server : Type := {
  serverId : string;
  serverName : string;
  enabled : bool;
  launchConfig : string;
  configured_capabilities : string;
  allowUserInput : bool;
  publicAccess : bool;
  authType : ServerAuthType;
  category : ServerCategory;
  configTemplate : option string;
  transportType : option string;
  lazyStartEnabled : bool;
  usePetaOauthConfig : bool;
  proxyId : Z;
  row_cachedTools : option string;
  row_cachedResources : option string;
  row_cachedResourceTemplates : option string;
  row_cachedPrompts : option string
}.

(** The numbers the columns [authType] and [category] hold. *)
Definition auth_number (a : ServerAuthType) : Z :=
  match a with
  | ApiKey => 1 | GoogleAuth => 2 | NotionAuth => 3 | FigmaAuth => 4 | GoogleCalendarAuth => 5 | GithubAuth => 6
  | ZendeskAuth => 7 | CanvasAuth => 8 | CanvaAuth => 9 | GmailAuth => 10 | GoogleDocsAuth => 11
  | GoogleSheetsAuth => 12 | GoogleFormsAuth => 13 | PipedriveAuth => 14 | HubSpotAuth => 15 | IntercomAuth => 16
  | SlackAuth => 17 | OtherAuth n => n
  end.

Definition category_number (c : ServerCategory) : Z :=
  match c with
  | Template => 1 | CustomRemote => 2 | RestApi => 3 | Skills => 4 | CustomStdio => 5 | OtherCategory n => n
  end.

(** Thrown values: which class the code tells them apart by, and their text. *)
Inductive exn_class : Type :=
| PlainError
| McpErrorClass (code : Z)
| AuthErrorClass
| IntercomInvalidTokenErrorClass.

#[export] Instance exn_class_eq_dec : EqDecision exn_class.
Proof. solve_decision. Defined.

Record exn : Type := { class : exn_class; message : string }.

Definition Error (m : string) : exn := {| class := PlainError; message := m |}.
Definition McpError (code : Z) (m : string) : exn :=
  {| class := McpErrorClass code; message := "MCP error " +:+ z_to_string code +:+ ": " +:+ m |}.
Definition TypeError : exn := Error "TypeError".
Definition SyntaxError : exn := Error "SyntaxError".

(** The codes of the protocol library. *)
Definition RequestTimeout : Z := -32001.
Definition InvalidParams : Z := -32602.
Definition InternalError : Z := -32603.

Definition is_mcp (e : exn) : bool := match class e with McpErrorClass _ => true | _ => false end.

(** [error instanceof McpError && error.code === RequestTimeout] *)
Definition is_timeout (e : exn) : bool := bool_decide (class e = McpErrorClass RequestTimeout).

(** ** Properties *)

Definition rbind {A B} (r : result exn A) (k : A -> result exn B) : result exn B :=
  match r with Ok a => k a | Throw e => Throw e end.
Notation "'try!' x ':=' r 'in' k" := (rbind r (fun x => k))
  (at level 10, x name, r at level 100, k at level 200) : peta_scope.

(** [v.k] *)
Definition jget (v : json) (k : string) : result exn json :=
  match jfield v k with Some x => Ok x | None => Throw TypeError end.

(** [v.k = x]; objects only, since nothing else is given properties. *)
Definition jset (v : json) (k : string) (x : json) : result exn json :=
  match v with JObj kvs => Ok (JObj (obj_assign k x kvs)) | _ => Throw TypeError end.

(** [delete v.k] *)
Definition jdelete (v : json) (k : string) : result exn json :=
  match v with
  | JObj kvs => Ok (JObj (map_delete k kvs))
  | JUndefined | JNull => Throw TypeError
  | _ => Ok v
  end.

(** The own properties that [...v] copies. *)
Fixpoint indexed (n : Z) (l : list json) : list (string * json) :=
  match l with [] => [] | x :: l => (z_to_string n, x) :: indexed (n + 1) l end.

Fixpoint units (s : string) : list json :=
  match s with EmptyString => [] | String c s => JStr (String c "") :: units s end.

Definition spread (v : json) : list (string * json) :=
  match v with
  | JObj kvs => kvs
  | JArr l => indexed 0 l
  | JStr s => indexed 0 (units s)
  | _ => []
  end.

(** [{ ...v, k: x }] *)
Definition extend (v : json) (fields : list (string * json)) : json :=
  JObj (fold_left (fun o kv => obj_put (fst kv) (snd kv) o) fields (spread v)).

Definition JSON_parse_exn (s : string) : result exn json :=
  match JSON_parse s with Some v => Ok v | None => Throw SyntaxError end.

(** ** Lemmas *)

Lemma rbind_Ok {A B} (r : result exn A) (k : A -> result exn B) (b : B) :
  rbind r k = Ok b -> exists a, r = Ok a /\ k a = Ok b.
Proof. destruct r as [a|e]; [by exists a|done]. Qed.

Lemma assoc_extend (v : json) (fields : list (string * json)) (k : string) :
  NoDup (keys fields) ->
  jfield_opt (extend v fields) k = default (default JUndefined (assoc k (spread v))) (assoc k fields).
Proof.
  unfold extend, jfield_opt, jfield. intros Hnd. cbn. generalize (spread v) as o.
  induction fields as [|[a x] l IH]; intros o; cbn; [done|].
  apply NoDup_cons in Hnd as [Ha Hnd]. rewrite (IH Hnd), assoc_obj_put.
  destruct (str_eqb k a) eqn:E; cbn; [|done]. apply str_eqb_eq in E as ->.
  destruct (assoc a l) as [y|] eqn:El; [|done]. exfalso. apply Ha. unfold keys.
  apply list_elem_of_In, in_map_iff. exists (a, y). split; [done|].
  clear -El. induction l as [|[b z] l IH]; [done|]. cbn in *. destruct (str_eqb a b) eqn:E; [|right; auto].
  apply str_eqb_eq in E as ->. left. by simplify_eq.
Qed.
