(* ===== verification/NodePath.v ===== *)
(** * Paths

    The functions of the [path] module the code uses, on POSIX paths, and the
    place of the file system an absolute path stands for. *)
From Stdlib Require Import Ascii ZArith Lia.
From stdpp Require Import base strings list.
From S2P Require Import Prelude JsMap.
Open Scope Z_scope.

Definition non_empty_parts (s : string) : list string := List.filter truthy_str (split_on "/" s).

(** [path.basename(p)] *)
Definition basename (p : string) : string := List.last (non_empty_parts p) "".

(** [.] and [..] resolved; of a relative path leading [..] stay. *)
Fixpoint resolve_dots (abs : bool) (acc parts : list string) : list string :=
  match parts with
  | [] => rev acc
  | p :: ps =>
      if str_eqb p "." then resolve_dots abs acc ps
      else if str_eqb p ".." then
        match acc with
        | q :: acc' => if str_eqb q ".." then resolve_dots abs (p :: acc) ps else resolve_dots abs acc' ps
        | [] => if abs then resolve_dots abs [] ps else resolve_dots abs [p] ps
        end
      else resolve_dots abs (p :: acc) ps
  end.

Definition isAbsolute (p : string) : bool := starts_with "/" p.

(** [path.normalize(p)] *)
Definition normalize (s : string) : string :=
  if str_eqb s "" then "." else
  let abs := isAbsolute s in
  let r := str_join "/" (resolve_dots abs [] (non_empty_parts s)) in
  let r := if str_eqb r "" && negb abs then "." else r in
  let r := if ends_with "/" s && truthy_str r then r +:+ "/" else r in
  if abs then "/" +:+ r else r.

(** [path.join(a, b)] *)
Definition path_join (a b : string) : string := normalize (str_join "/" (List.filter truthy_str [a; b])).

(** What an absolute path names: the directories from the root down. *)
Definition segments (p : string) : list string := resolve_dots true [] (non_empty_parts p).

Definition abs_path (l : list string) : string := "/" +:+ str_join "/" l.

(** [path.resolve(p)], with the working directory of the process. *)
Definition path_resolve (cwd p : string) : string :=
  abs_path (segments (if isAbsolute p then p else cwd +:+ "/" +:+ p)).

(** Without the slashes at its end. *)
Fixpoint trim_slashes (s : string) : string :=
  match s with
  | EmptyString => ""
  | String c s =>
      let t := trim_slashes s in
      if str_eqb t "" && bool_decide (c = "/"%char) then "" else String c t
  end.

(** [path.dirname(p)] *)
Definition dirname (p : string) : string :=
  match p with
  | EmptyString => "."
  | String c s =>
      let hasRoot := bool_decide (c = "/"%char) in
      match last_index_of "/" (trim_slashes s) with
      | Some O => if hasRoot then "//" else str_take 1 p
      | Some (S n) => str_take (S (S n)) p
      | None => if hasRoot then "/" else "."
      end
  end.

(** ** The names a directory can have in it *)

Definition clean (n : string) : Prop := n <> ""%string /\ str_mem "/" n = false /\ n <> "."%string /\ n <> ".."%string.

#[export] Instance clean_dec n : Decision (clean n).
Proof. unfold clean. apply _. Defined.

Lemma clean_snoc (l : list string) (n : string) : Forall clean l -> clean n -> Forall clean (l ++ [n]).
Proof. intros Hl Hn. apply Forall_app. split; [done|]. constructor; [done|constructor]. Qed.

Lemma filter_truthy_clean (l : list string) : Forall clean l -> List.filter truthy_str l = l.
Proof.
  induction 1 as [|n l (Hn & _) _ IH]; [done|]. cbn [List.filter]. unfold truthy_str at 1.
  apply str_eqb_neq in Hn. rewrite Hn. cbn. by rewrite IH.
Qed.

Lemma clean_no_slash (l : list string) : Forall clean l -> Forall (fun p => str_mem "/" p = false) l.
Proof. intros H. eapply Forall_impl; [exact H|]. by intros n (_ & ? & _). Qed.

Lemma parts_join (l : list string) : Forall clean l -> non_empty_parts (str_join "/" l) = l.
Proof.
  intros Hl. unfold non_empty_parts. destruct l as [|n l]; [done|].
  rewrite split_join; [by apply filter_truthy_clean|done|by apply clean_no_slash].
Qed.

Lemma parts_slash (s : string) : non_empty_parts ("/" +:+ s) = non_empty_parts s.
Proof. done. Qed.

Lemma split_on_some (c : ascii) (s : string) : exists p ps, split_on c s = p :: ps.
Proof. induction s as [|a s (p & ps & IH)]; cbn; [by eexists _, _|]. rewrite IH. destruct (bool_decide _); by eexists _, _. Qed.

Lemma split_on_app_sep (c : ascii) (a b : string) : split_on c (a +:+ String c b) = split_on c a ++ split_on c b.
Proof.
  induction a as [|x a IH].
  - change (split_on c (String c b) = [""%string] ++ split_on c b). cbn. by rewrite bool_decide_true.
  - change (split_on c (String x (a +:+ String c b)) = split_on c (String x a) ++ split_on c b). cbn.
    destruct (bool_decide (x = c)); [by rewrite IH|].
    rewrite IH. by destruct (split_on_some c a) as (p & ps & ->).
Qed.

Lemma parts_app (a b : string) : non_empty_parts (a +:+ "/" +:+ b) = non_empty_parts a ++ non_empty_parts b.
Proof.
  unfold non_empty_parts. change ("/" +:+ b) with (String "/" b). by rewrite split_on_app_sep, List.filter_app.
Qed.

Lemma parts_abs_path (l : list string) : Forall clean l -> non_empty_parts (abs_path l) = l.
Proof. intros Hl. unfold abs_path. rewrite parts_slash. by apply parts_join. Qed.

Lemma split_on_pieces (c : ascii) (s : string) : Forall (fun p => str_mem c p = false) (split_on c s).
Proof.
  induction s as [|a s IH]; [by repeat constructor|]. cbn. destruct (bool_decide (a = c)) eqn:E; [by constructor|].
  destruct (split_on c s) as [|p ps]; [repeat constructor; cbn; by rewrite E|].
  apply Forall_cons in IH as [Hp Hps]. constructor; [|done]. cbn. by rewrite E.
Qed.

Definition piece (n : string) : Prop := n <> ""%string /\ str_mem "/" n = false.

Lemma parts_pieces (s : string) : Forall piece (non_empty_parts s).
Proof.
  apply Forall_forall. intros n Hn%list_elem_of_In. unfold non_empty_parts in Hn. apply filter_In in Hn as [Hn Ht]. split.
  - intros ->. done.
  - apply (proj1 (Forall_forall _ _) (split_on_pieces "/" s)). by apply list_elem_of_In.
Qed.

Lemma resolve_dots_abs_clean (acc parts : list string) :
  Forall clean acc -> Forall piece parts -> Forall clean (resolve_dots true acc parts).
Proof.
  intros Hacc Hp. revert acc Hacc. induction Hp as [|p ps (Hn & Hs) _ IH]; intros acc Hacc; cbn.
  - by apply Forall_rev.
  - destruct (str_eqb p ".") eqn:E1; [by apply IH|]. destruct (str_eqb p "..") eqn:E2.
    + destruct acc as [|q acc]; [by apply IH|]. apply Forall_cons in Hacc as [Hq Hacc].
      destruct (str_eqb q "..") eqn:E3; [apply str_eqb_eq in E3; by destruct Hq as (_ & _ & _ & ?)|by apply IH].
    + apply IH. constructor; [|done]. apply str_eqb_neq in E1, E2. by split_and!.
Qed.

Lemma resolve_dots_clean (abs : bool) (acc parts : list string) :
  Forall clean parts -> resolve_dots abs acc parts = rev acc ++ parts.
Proof.
  intros Hp. revert acc. induction Hp as [|p ps (_ & _ & H1 & H2) _ IH]; intros acc; cbn; [by rewrite app_nil_r|].
  apply str_eqb_neq in H1, H2. rewrite H1, H2, IH. cbn. by rewrite <- app_assoc.
Qed.

Lemma resolve_dots_app (acc a b : list string) :
  resolve_dots true acc (a ++ b) = resolve_dots true (rev (resolve_dots true acc a)) b.
Proof.
  revert acc. induction a as [|p a IH]; intros acc; cbn; [by rewrite rev_involutive|].
  destruct (str_eqb p "."); [done|]. destruct (str_eqb p ".."); [|done].
  destruct acc as [|q acc]; [done|]. by destruct (str_eqb q "..").
Qed.

Lemma segments_clean (p : string) : Forall clean (segments p).
Proof. apply resolve_dots_abs_clean; [constructor|apply parts_pieces]. Qed.

Lemma segments_abs_path (l : list string) : Forall clean l -> segments (abs_path l) = l.
Proof. intros Hl. unfold segments. rewrite parts_abs_path by done. by rewrite resolve_dots_clean. Qed.

Lemma abs_path_inj (l k : list string) : Forall clean l -> Forall clean k -> abs_path l = abs_path k -> l = k.
Proof. intros Hl Hk H. rewrite <- (segments_abs_path l), <- (segments_abs_path k) by done. by rewrite H. Qed.

Lemma isAbsolute_abs_path (l : list string) : isAbsolute (abs_path l) = true.
Proof. done. Qed.

Lemma path_resolve_abs_path (cwd : string) (l : list string) : Forall clean l -> path_resolve cwd (abs_path l) = abs_path l.
Proof. intros Hl. unfold path_resolve. rewrite isAbsolute_abs_path. by rewrite segments_abs_path. Qed.

(** ** Joining *)

Lemma str_join_snoc (l : list string) (n : string) :
  str_join "/" (l ++ [n]) = if decide (l = []) then n else str_join "/" l +:+ "/" +:+ n.
Proof.
  induction l as [|a l IH]; [done|]. destruct (decide (a :: l = [])) as [?|_]; [done|].
  destruct l as [|b l]; [done|]. change ((a :: b :: l) ++ [n]) with (a :: (b :: l) ++ [n]).
  cbn [str_join app] in *. rewrite IH. destruct (decide _); [done|]. by rewrite !str_app_assoc.
Qed.

Lemma abs_path_snoc (l : list string) (n : string) :
  abs_path (l ++ [n]) = if decide (l = []) then "/" +:+ n else abs_path l +:+ "/" +:+ n.
Proof. unfold abs_path. rewrite str_join_snoc. by destruct (decide _). Qed.

Lemma segments_normalize (s : string) : isAbsolute s = true -> segments (normalize s) = segments s.
Proof.
  intros Ha. unfold normalize. destruct (str_eqb s "") eqn:E; [apply str_eqb_eq in E as ->; done|]. rewrite Ha.
  rewrite andb_false_r. fold (segments s). change (segments ("/" +:+ ?x)) with (segments x).
  pose proof (segments_clean s) as Hc. destruct (ends_with "/" s && _).
  - unfold segments at 1. replace (str_join "/" (segments s) +:+ "/") with (str_join "/" (segments s) +:+ "/" +:+ "")%string by done.
    rewrite parts_app, parts_join by done. change (non_empty_parts "") with (@nil string). rewrite app_nil_r.
    by rewrite resolve_dots_clean.
  - unfold segments at 1. rewrite parts_join by done. by rewrite resolve_dots_clean.
Qed.

Lemma segments_join (a b : string) :
  isAbsolute a = true -> segments (path_join a b) = resolve_dots true (rev (segments a)) (non_empty_parts b).
Proof.
  intros Ha. unfold path_join. assert (Hne : truthy_str a = true) by (destruct a; done). cbn [List.filter]. rewrite Hne.
  destruct (truthy_str b) eqn:Eb.
  - cbn [str_join]. rewrite segments_normalize.
    + unfold segments at 1. by rewrite parts_app, resolve_dots_app.
    + destruct a; [done|exact Ha].
  - unfold truthy_str in Eb. apply negb_false_iff, str_eqb_eq in Eb as ->. cbn [str_join]. rewrite segments_normalize by done.
    change (non_empty_parts "") with (@nil string). cbn. by rewrite rev_involutive.
Qed.

Lemma isAbsolute_join (a b : string) : isAbsolute a = true -> isAbsolute (path_join a b) = true.
Proof.
  intros Ha. unfold path_join. assert (Hne : truthy_str a = true) by (destruct a; done). cbn [List.filter]. rewrite Hne.
  set (s := str_join _ _). assert (Hs : isAbsolute s = true).
  { unfold s. destruct a; [done|]. by destruct (truthy_str b). }
  unfold normalize. destruct (str_eqb s "") eqn:E; [apply str_eqb_eq in E; by rewrite E in Hs|]. by rewrite Hs.
Qed.

Lemma ends_with_slash (a n : string) : n <> ""%string -> str_mem "/" n = false -> ends_with "/" (a +:+ n) = false.
Proof.
  intros Hn Hs. unfold ends_with. apply andb_false_iff. right. apply bool_decide_eq_false. intros [H|H]; [|done].
  unfold str_last in H. rewrite str_length_app in H.
  assert (Hl : exists m, String.length n = S m) by (destruct n; [done|by eexists]). destruct Hl as [m Hm].
  cbn [String.length] in H. rewrite Hm in H.
  replace (String.length a + S m - 1)%nat with (String.length a + m)%nat in H by lia.
  assert (Hd : str_drop (String.length a + m) (a +:+ n) = str_drop m n).
  { clear. induction a as [|x a IH]; [done|exact IH]. }
  rewrite Hd in H. rewrite <- (str_take_drop m n), H, str_mem_app in Hs. apply orb_false_iff in Hs as [_ Hs]. done.
Qed.

Lemma path_join_clean (l : list string) (n : string) :
  Forall clean l -> clean n -> path_join (abs_path l) n = abs_path (l ++ [n]).
Proof.
  intros Hl Hn. pose proof Hn as (H1 & H2 & _ & _). unfold path_join. cbn [List.filter].
  change (truthy_str (abs_path l)) with true. unfold truthy_str. pose proof H1 as H1'. apply str_eqb_neq in H1'. rewrite H1'. cbn [negb str_join].
  unfold normalize. assert (E : str_eqb (abs_path l +:+ "/" +:+ n) "" = false) by done. rewrite E.
  change (isAbsolute (abs_path l +:+ "/" +:+ n)) with true. rewrite andb_false_r.
  rewrite <- str_app_assoc, ends_with_slash, str_app_assoc by done. cbn [andb].
  unfold abs_path at 2. do 2 f_equal. rewrite parts_app, parts_abs_path by done.
  replace (non_empty_parts n) with [n]. 2: { unfold non_empty_parts. rewrite split_on_nosep by done. cbn. unfold truthy_str. by rewrite H1'. }
  rewrite resolve_dots_clean; [done|]. by apply clean_snoc.
Qed.

(** [p.startsWith(root + path.sep)] *)
Lemma starts_with_below (l m : list string) :
  Forall clean l -> Forall clean m -> starts_with (abs_path l +:+ "/") (abs_path m) = true ->
  l <> [] /\ exists k, k <> [] /\ m = l ++ k.
Proof.
  intros Hl Hm [t Ht]%starts_with_spec. rewrite str_app_assoc in Ht.
  assert (Hp : m = l ++ non_empty_parts t) by (rewrite <- (parts_abs_path m), Ht, parts_app, parts_abs_path by done; done).
  assert (Hne : l <> []).
  { intros ->. unfold abs_path in Ht. destruct m as [|a m]; [done|].
    apply Forall_cons in Hm as [(H1 & H2 & _ & _) _]. destruct a as [|c a]; [done|].
    assert (c = "/"%char) as ->. { destruct m; cbn in Ht; by injection Ht as -> _. } done. }
  split; [done|]. exists (non_empty_parts t). split; [|done]. intros Ek. rewrite Ek, app_nil_r in Hp. subst m.
  assert (Hlen : String.length (abs_path l) = String.length (abs_path l +:+ "/" +:+ t)) by congruence.
  rewrite !str_length_app in Hlen. cbn in Hlen. lia.
Qed.

(** ** The directory of a path, and its name in it *)

Lemma starts_with_slash (a : ascii) (s : string) : starts_with "/" (String a s) = bool_decide ("/"%char = a).
Proof. cbn. by rewrite andb_true_r. Qed.

Lemma last_index_of_none (s : string) : str_mem "/" s = false -> last_index_of "/" s = None.
Proof.
  induction s as [|a s IH]; [done|]. cbn [str_mem last_index_of]. intros [Ha Hs]%orb_false_iff. rewrite IH by done.
  rewrite starts_with_slash, bool_decide_eq_false_2; [done|]. intros <-. by rewrite bool_decide_eq_true_2 in Ha.
Qed.

Lemma last_index_of_app (x n : string) : str_mem "/" n = false -> last_index_of "/" (x +:+ "/" +:+ n) = Some (String.length x).
Proof.
  intros Hn. induction x as [|a x IH].
  - change (last_index_of "/" (String "/" n) = Some 0%nat). cbn [last_index_of]. by rewrite last_index_of_none.
  - change (last_index_of "/" (String a (x +:+ "/" +:+ n)) = Some (S (String.length x))). cbn [last_index_of]. by rewrite IH.
Qed.

Lemma trim_slashes_id (x n : string) : n <> ""%string -> str_mem "/" n = false -> trim_slashes (x +:+ n) = x +:+ n.
Proof.
  intros Hne Hn. assert (Hb : trim_slashes n = n).
  { clear x. induction n as [|a n IH]; [done|]. cbn in *. apply orb_false_iff in Hn as [Ha Hn].
    destruct (decide (n = ""%string)) as [->|Hn']; [cbn; by rewrite Ha|]. rewrite IH by done.
    apply str_eqb_neq in Hn'. by rewrite Hn'. }
  induction x as [|a x IH]; [done|]. change (trim_slashes (String a (x +:+ n)) = String a (x +:+ n)). cbn [trim_slashes]. rewrite IH.
  assert (E : str_eqb (x +:+ n) "" = false). { apply str_eqb_neq. destruct x; [done|]. done. }
  by rewrite E.
Qed.

Lemma dirname_snoc (l : list string) (n : string) : Forall clean l -> clean n -> dirname (abs_path (l ++ [n])) = abs_path l.
Proof.
  intros Hl (Hne & Hn & _). unfold abs_path. change ("/" +:+ ?s) with (String "/" s). cbn [dirname].
  rewrite bool_decide_true by done. rewrite str_join_snoc. destruct (decide (l = [])) as [->|Hl'].
  - change (trim_slashes n) with (trim_slashes ("" +:+ n)). rewrite trim_slashes_id by done. change ("" +:+ n) with n. by rewrite last_index_of_none.
  - rewrite <- str_app_assoc, trim_slashes_id, str_app_assoc, last_index_of_app by done.
    set (x := str_join "/" l). assert (Hx : exists m, String.length x = S m).
    { unfold x. destruct l as [|a l]; [done|]. apply Forall_cons in Hl as [(Ha & _) _]. destruct a as [|c a]; [done|].
      destruct l; by eexists. }
    destruct Hx as [m Hm]. rewrite Hm. rewrite <- Hm.
    change (str_take (S (String.length x)) (String "/" (x +:+ "/" +:+ n)) = String "/" x). cbn [str_take]. by rewrite str_take_app.
Qed.

Lemma basename_snoc (l : list string) (n : string) : Forall clean l -> clean n -> basename (abs_path (l ++ [n])) = n.
Proof.
  intros Hl Hn. unfold basename. rewrite parts_abs_path by (by apply clean_snoc). apply last_last.
Qed.
