(* ===== verification/LaunchConfig.v ===== *)
(** * Launch configurations

    From a server's decrypted launch configuration to the transport it is
    reached by: [src/src/mcp/core/DownstreamTransportFactory.ts],
    [CustomStdioRunner.ts], [CustomStdioRunnerService.ts], and the parts of
    [ServerManager.ts] that rewrite the configuration (tokens in the
    environment, REST gateways, skill volumes).  A configuration is a JSON
    value; arrays used as objects are taken to have no properties of their
    own. *)
From Stdlib Require Import Ascii ZArith Lia.
From stdpp Require Import base strings list.
From S2P Require Import Prelude Json JsMap NodePath ServerTypes.
Open Scope Z_scope.

(** ** Text *)

(** [s.replace(pat, '')]: the first occurrence. *)
Definition remove_first (pat s : string) : string :=
  match index_of pat s with
  | Some n => str_take n s +:+ str_drop (n + String.length pat) s
  | None => s
  end.

Definition is_quote (c : ascii) : bool := bool_decide (c = dquote) || bool_decide (c = "'"%char).

(** [/^[quote]/] and [/[quote]$/] *)
Definition unquote_start (s : string) : string :=
  match s with String c r => if is_quote c then r else s | EmptyString => "" end.
Definition unquote (s : string) : string := str_rev (unquote_start (str_rev (unquote_start s) "")) "".

Fixpoint str_map (f : ascii -> ascii) (s : string) : string :=
  match s with EmptyString => "" | String c r => String (f c) (str_map f r) end.

Definition slash_of_backslash (c : ascii) : ascii := if bool_decide (c = "\"%char) then "/"%char else c.

(** [text.replace(/\s+/g, ' ')] *)
Fixpoint squeeze (in_space : bool) (s : string) : string :=
  match s with
  | EmptyString => ""
  | String c r =>
      if is_space c then if in_space then squeeze true r else String " " (squeeze true r)
      else String c (squeeze false r)
  end.

(** ** [CustomStdioRunner] *)

Definition CUSTOM_STDIO_RUNNER_IMAGE : string := "petaio/mcp-runner:latest".
Definition CUSTOM_STDIO_RUNNER_CACHE_VOLUME : string := "peta-mcp-runner-cache:/home/runner/.cache".
Definition DEFAULT_STDERR_TAIL_MAX_LENGTH : nat := 4096.

Definition RUNNER_STARTUP_STDERR_KEYWORDS : list string := [
  "cannot connect to the docker daemon"; "is the docker daemon running";
  "permission denied while trying to connect"; "error response from daemon"; "dial unix"; "docker.sock";
  "pull access denied"; "no such image"; "manifest for"; "failed to solve" ]%string.

Definition RUNNER_COMMAND_STDERR_KEYWORDS : list string := [
  "executable file not found"; "command not found"; "exec format error"; "permission denied";
  "no such file or directory"; "failed to exec" ]%string.

Inductive RunnerFailureCategory : Type := runner_startup_failure | runner_command_failure | runner_unknown_failure.

#[export] Instance RunnerFailureCategory_eq_dec : EqDecision RunnerFailureCategory.
Proof. solve_decision. Defined.

Record CustomStdioRunnerMetadata : Type := { runnerImage : string; originalCommand : string }.

Definition normalizeCommandForMatch (command : string) : string :=
  let trimmed := trim command in
  if str_eqb trimmed "" then "" else
  let baseName := basename (str_map slash_of_backslash (unquote trimmed)) in
  to_lower (if ends_with ".exe" (to_lower baseName)
            then str_take (String.length baseName - 4) baseName else baseName).

Definition isExplicitDockerCommand (command : json) : bool :=
  match command with JStr c => str_eqb (normalizeCommandForMatch c) "docker" | _ => false end.

Definition toStringArray (value : json) : list string :=
  match value with JArr l => map js_String l | _ => [] end.

Definition env_entry (kv : string * json) : list (string * string) :=
  if str_eqb (trim (fst kv)) "" then [] else
  match snd kv with
  | JUndefined => []
  | JNull => [(fst kv, ""%string)]
  | v => [(fst kv, js_String v)]
  end.

Definition toStringEnvEntries (envValue : json) : list (string * string) :=
  match envValue with JObj kvs => flat_map env_entry kvs | _ => [] end.

Definition findKeyword (source : string) (keywords : list string) : option string :=
  List.find (fun keyword => includes keyword source) keywords.

Definition non_blank (v : json) : option string :=
  match v with JStr s => if str_eqb (trim s) "" then None else Some s | _ => None end.

Definition env_args (kv : string * string) : list string := ["-e"%string; fst kv +:+ "=" +:+ snd kv].

(** The arguments up to the image: fixed options, the working directory, the
    environment. *)
Definition runner_options (config : json) : list string :=
  (["run"; "-i"; "--rm"; "--init"; "-v"]%string ++ [CUSTOM_STDIO_RUNNER_CACHE_VOLUME])
  ++ (match non_blank (jfield_opt config "cwd") with Some cwd => ["-w"%string; cwd] | None => [] end)
  ++ flat_map env_args (toStringEnvEntries (jfield_opt config "env")).

Definition buildCustomStdioRunnerLaunchPlan (config : json) (runnerImage : string)
    : result exn (json * CustomStdioRunnerMetadata) :=
  try! command := jget config "command" in
  match non_blank command with
  | None => Throw (Error "CustomStdio launchConfig.command must be a non-empty string")
  | Some originalCommand =>
      let dockerArgs := runner_options config ++ runnerImage :: originalCommand
                        :: toStringArray (jfield_opt config "args") in
      let wrapped := extend config [("command", JStr "docker"); ("args", JArr (map JStr dockerArgs));
                                    ("stderr", JStr "pipe")]%string in
      try! wrapped := jdelete wrapped "cwd" in
      try! wrapped := jdelete wrapped "env" in
      Ok (wrapped, {| runnerImage := runnerImage; originalCommand := originalCommand |})
  end.

Definition appendStderrTail (currentTail chunkText : string) (maxLength : nat) : string :=
  str_last maxLength (currentTail +:+ chunkText).

(** [{ category, reason }] *)
Definition classifyCustomStdioRunnerFailure (exitCode : option Z) (stderrTail errorText : string)
    : RunnerFailureCategory * string :=
  let combinedText := to_lower (stderrTail +:+ String "010" errorText) in
  let exit_reason := "docker exit code " +:+ match exitCode with Some n => z_to_string n | None => "null" end in
  let startupKeyword := findKeyword combinedText RUNNER_STARTUP_STDERR_KEYWORDS in
  if bool_decide (exitCode = Some 125) || bool_decide (is_Some startupKeyword)
  then (runner_startup_failure, default exit_reason startupKeyword) else
  let commandKeyword := findKeyword combinedText RUNNER_COMMAND_STDERR_KEYWORDS in
  if bool_decide (exitCode = Some 126) || bool_decide (exitCode = Some 127) || bool_decide (is_Some commandKeyword)
  then (runner_command_failure, default exit_reason commandKeyword) else
  if match exitCode with Some n => negb (n =? 0) | None => false end
  then (runner_command_failure, exit_reason) else
  if includes "spawn" combinedText && includes "enoent" combinedText
  then (runner_startup_failure, "spawn enoent"%string)
  else (runner_unknown_failure, "unable to classify"%string).

(** ** [CustomStdioRunnerService] *)

Definition summarizeStderrTail (stderrText : string) : string := str_last 300 (trim (squeeze false stderrText)).

Record RunnerFailureDetails : Type := {
  failure_category : RunnerFailureCategory; failure_reason : string;
  failure_message : string; failure_stderr : string
}.

Definition failure_prefix (c : RunnerFailureCategory) : string :=
  match c with
  | runner_startup_failure => "CustomStdio runner startup failed"
  | runner_command_failure => "CustomStdio runner command failed"
  | runner_unknown_failure => "CustomStdio runner failed"
  end.

Definition buildFailureDetails (serverId : string) (runnerMetadata : CustomStdioRunnerMetadata)
    (stderrTail : string) (exitCode : option Z) (errorText : string) : option RunnerFailureDetails :=
  let stderrSummary := summarizeStderrTail stderrTail in
  let '(category, reason) := classifyCustomStdioRunnerFailure exitCode stderrTail errorText in
  if bool_decide (category = runner_unknown_failure) && bool_decide (exitCode = None)
     && str_eqb stderrSummary "" && str_eqb errorText ""
  then None
  else
    let exitCodeText := match exitCode with None => "unknown"%string | Some n => z_to_string n end in
    let message := failure_prefix category +:+ " (serverId=" +:+ serverId +:+ ", originalCommand="
                   +:+ originalCommand runnerMetadata +:+ ", runnerImage=" +:+ runnerImage runnerMetadata
                   +:+ ", exitCode=" +:+ exitCodeText +:+ ", reason=" +:+ reason +:+ ")" in
    Some {| failure_category := category; failure_reason := reason;
            failure_message := if str_eqb stderrSummary "" then message
                               else message +:+ " stderr=" +:+ stderrSummary;
            failure_stderr := stderrSummary |}.

Section Environment.
(** [process.env.PETA_CORE_IN_DOCKER === 'true'] *)
Variable inDocker : bool.
(** [assertDockerRuntimeAvailable]: what the probe of the container runtime
    found for a server. *)
Variable assertDockerRuntimeAvailable : string -> result exn unit.
(** [new URL(s)]: its [href], or an error. *)
Variable new_URL : string -> result exn string.

Definition resolveLaunchPlan (serverEntity : Server) (config : json)
    : result exn (json * option CustomStdioRunnerMetadata) :=
  if negb (bool_decide (category serverEntity = CustomStdio)) then Ok (config, None)
  else if negb inDocker then Ok (config, None)
  else
    try! command := jget config "command" in
    if isExplicitDockerCommand command then Ok (config, None)
    else
      try! _ := assertDockerRuntimeAvailable (serverId serverEntity) in
      try! plan := buildCustomStdioRunnerLaunchPlan config CUSTOM_STDIO_RUNNER_IMAGE in
      Ok (plan.1, Some plan.2).

(** ** [DownstreamTransportFactory] *)

Inductive Transport : Type :=
| StdioClientTransport (command args env cwd : json)
| StreamableHTTPClientTransport (url : string) (headers : json)
| SSEClientTransport (url : string).

Definition URL_from (v : json) : result exn string := new_URL (js_String v).

(** [v.includes('..')]: strings and arrays have it. *)
Definition has_dotdot (v : json) : result exn bool :=
  match v with
  | JStr s => Ok (includes ".." s)
  | JArr l => Ok (existsb (fun x => json_eqb x (JStr "..")) l)
  | _ => Throw TypeError
  end.

Definition validateStdioConfig (config : json) : result exn unit :=
  let command := jfield_opt config "command" in
  if negb (js_truthy command) then Throw (Error "Stdio transport requires command parameter") else
  try! dots := has_dotdot command in
  if dots then Throw (Error "Command path traversal not allowed") else Ok tt.

Definition validateHttpConfig (config : json) : result exn unit :=
  let url := jfield_opt config "url" in
  if negb (js_truthy url) then Throw (Error "HTTP transport requires URL parameter") else
  match URL_from url with Ok _ => Ok tt | Throw _ => Throw (Error "Invalid URL format") end.

Definition validateSSEConfig (config : json) : result exn unit :=
  if negb (js_truthy (jfield_opt config "url")) then Throw (Error "SSE transport requires URL parameter")
  else Ok tt.

(** [config.args || []] *)
Definition or_else (v w : json) : json := if js_truthy v then v else w.

Definition createStdioTransport (config : json) : result exn Transport :=
  try! _ := validateStdioConfig config in
  Ok (StdioClientTransport (jfield_opt config "command") (or_else (jfield_opt config "args") (JArr []))
        (jfield_opt config "env") (jfield_opt config "cwd")).

Definition createHttpTransport (config : json) : result exn Transport :=
  try! _ := validateHttpConfig config in
  try! url := URL_from (jfield_opt config "url") in
  Ok (StreamableHTTPClientTransport url
        (extend (JObj [("Content-Type", JStr "application/json");
                       ("Accept", JStr "application/json, text/event-stream")]%string)
                (spread (jfield_opt config "headers")))).

Definition createSSETransport (config : json) : result exn Transport :=
  try! _ := validateSSEConfig config in
  try! url := URL_from (jfield_opt config "url") in
  Ok (SSEClientTransport url).

Definition createSSEFallbackTransport : json -> result exn Transport := createSSETransport.

Definition detectTransportType (config : json) : result exn json :=
  try! type := jget config "type" in
  let url := jfield_opt config "url" in
  if js_truthy type then Ok type
  else if json_eqb (jfield_opt config "mcpProtocol") (JStr "modern") && js_truthy url then Ok (JStr "http")
  else if js_truthy (jfield_opt config "command") then Ok (JStr "stdio")
  else if js_truthy url then
    match url with
    | JStr u => Ok (JStr (if includes "/sse" (to_lower u) || includes "/events" (to_lower u) then "sse" else "http"))
    | _ => Throw TypeError
    end
  else Throw (Error "Cannot determine transport type from launch_config").

Definition canFallbackHttpToSse (config transportType : json) : bool :=
  json_eqb transportType (JStr "http") && negb (js_truthy (jfield_opt config "type"))
  && match jfield_opt config "url" with JStr u => truthy_str u | _ => false end.

(** [create]: the transport and its type. *)
Definition create (config : json) : result exn (Transport * string) :=
  try! transportType := detectTransportType config in
  let wrap (r : result exn Transport) (name : string) :=
    match r with
    | Ok t => Ok (t, name)
    | Throw e => Throw (Error ("Failed to create " +:+ js_String transportType +:+ " transport: " +:+ message e))
    end in
  if json_eqb transportType (JStr "stdio") then wrap (createStdioTransport config) "stdio"%string
  else if json_eqb transportType (JStr "http") then wrap (createHttpTransport config) "http"%string
  else if json_eqb transportType (JStr "sse") then wrap (createSSETransport config) "sse"%string
  else wrap (Throw (Error ("Unsupported transport type: " +:+ js_String transportType))) ""%string.

(** ** [ServerManager]: the protocol, tokens, gateways, skills *)

Inductive DownstreamMcpProtocolPreference : Type := PrefAuto | PrefLegacy | PrefModern.

#[export] Instance DownstreamMcpProtocolPreference_eq_dec : EqDecision DownstreamMcpProtocolPreference.
Proof. solve_decision. Defined.

Definition resolveDownstreamProtocolPreference (config : json) : result exn DownstreamMcpProtocolPreference :=
  try! value := jget config "mcpProtocol" in
  let value := match value with JUndefined | JNull => JStr "auto" | v => v end in
  if json_eqb value (JStr "auto") then Ok PrefAuto
  else if json_eqb value (JStr "legacy") then Ok PrefLegacy
  else if json_eqb value (JStr "modern") then Ok PrefModern
  else Throw (Error ("Invalid launchConfig.mcpProtocol: " +:+ js_String value
                     +:+ ". Expected auto, legacy, or modern.")).

(** [launchConfig.env = { ...launchConfig.env, ... }] *)
Definition set_env (config : json) (fields : list (string * json)) : result exn json :=
  try! env := jget config "env" in jset config "env" (extend env fields).

Definition injectOAuthTokenEnv (auth : ServerAuthType) (config : json) (accessToken : string) : result exn json :=
  let token := JStr accessToken in
  match auth with
  | GoogleAuth | GoogleCalendarAuth | GmailAuth | GoogleDocsAuth | GoogleSheetsAuth | GoogleFormsAuth
  | FigmaAuth | GithubAuth | CanvaAuth | HubSpotAuth | SlackAuth => set_env config [("accessToken"%string, token)]
  | ZendeskAuth =>
      try! env := jget config "env" in
      let zendeskSubdomain := jfield_opt env "zendeskSubdomain" in
      if negb (js_truthy zendeskSubdomain)
      then Throw (Error "[ServerManager] Missing zendeskSubdomain for server auth type ZendeskAuth")
      else match zendeskSubdomain with
           | JStr s => set_env config [("zendeskSubdomain"%string,
                                        JStr (remove_first ".zendesk.com" (remove_first "https://" s)));
                                       ("accessToken"%string, token)]
           | _ => Throw TypeError
           end
  | NotionAuth => set_env config [("notionToken"%string, token)]
  | PipedriveAuth =>
      try! oauth := jget config "oauth" in
      match jfield_opt oauth "apiDomain" with
      | JStr d =>
          if truthy_str d then set_env config [("apiDomain"%string, JStr d); ("accessToken"%string, token)]
          else Throw (Error "[ServerManager] Missing apiDomain for server auth type PipedriveAuth")
      | _ => Throw (Error "[ServerManager] Missing apiDomain for server auth type PipedriveAuth")
      end
  | IntercomAuth =>
      try! oauth := jget config "oauth" in
      let intercomRegion := match jfield_opt oauth "intercomRegion" with
                            | JStr r => if bool_decide (r ∈ ["US"; "EU"; "AU"]%string) then r else "US"%string
                            | _ => "US"%string
                            end in
      set_env config [("accessToken"%string, token); ("intercomRegion"%string, JStr intercomRegion)]
  | ApiKey | CanvasAuth | OtherAuth _ => Ok config
  end.

(** The gateway configuration of a REST server, with the credentials moved
    into it. *)
Definition set_first_auth (config auth : json) : result exn json :=
  try! apis := jget config "apis" in
  match apis with
  | JArr (api :: rest) => try! api := jset api "auth" auth in jset config "apis" (JArr (api :: rest))
  | _ => Throw TypeError
  end.

Definition rest_api_config (serverEntity : Server) (config : json) : result exn json :=
  let template := default ""%string (configTemplate serverEntity) in
  if str_eqb (trim template) "" || str_eqb (trim template) "{}"
  then Throw (Error ("[ServerManager] Missing configTemplate for server " +:+ serverId serverEntity))
  else
    try! gateway := JSON_parse_exn template in
    try! auth := jget config "auth" in
    try! gateway := set_first_auth gateway auth in
    try! config := jdelete config "auth" in
    try! env := jget config "env" in
    let env := match env with JUndefined | JNull => JObj [("type"%string, JStr "none")] | e => e end in
    try! env := jset env "GATEWAY_CONFIG" (match JSON_stringify gateway with Some t => JStr t | None => JUndefined end) in
    jset config "env" env.

Definition rewriteSkillsVolumeArg (arg childContainerSkillsDir hostSkillsDir : string) : string :=
  match index_of ":" arg with
  | None => arg
  | Some colonIdx =>
      let source := str_take colonIdx arg in
      let rest := str_drop colonIdx arg in
      let dest := match split_on ":" (str_drop 1 rest) with d :: _ => d | [] => ""%string end in
      if negb (str_eqb dest childContainerSkillsDir) && negb (starts_with (childContainerSkillsDir +:+ "/") dest)
      then arg
      else match List.find (fun prefix => starts_with prefix source) ["./skills/"; "/app/skills/"; "/data/skills/"]%string with
           | None => arg
           | Some matchedPrefix =>
               let serverId := str_drop (String.length matchedPrefix) source in
               if str_eqb serverId "" then arg
               else path_join hostSkillsDir serverId +:+ rest
           end
  end.

(** [resolveSkillsVolumeMounts] before and after the host path is looked up. *)
Definition mounts_skills (config : json) : result exn bool :=
  try! command := jget config "command" in
  Ok (json_eqb command (JStr "docker")
      && match jfield_opt config "args" with JArr _ => true | _ => false end && inDocker).

Fixpoint rewrite_args (hostSkillsDir : string) (args : list json) : result exn (list json) :=
  match args with
  | [] => Ok []
  | JStr a :: args =>
      try! rest := rewrite_args hostSkillsDir args in
      Ok (JStr (rewriteSkillsVolumeArg a "/app/skills" hostSkillsDir) :: rest)
  | _ :: _ => Throw TypeError
  end.

Definition rewrite_skill_mounts (hostSkillsDir : string) (config : json) : result exn json :=
  match jfield_opt config "args" with
  | JArr args => try! args := rewrite_args hostSkillsDir args in jset config "args" (JArr args)
  | _ => Throw TypeError
  end.
End Environment.

(** ** Lemmas *)

Lemma jdelete_field (v w : json) (k k' : string) :
  jdelete v k = Ok w -> k' <> k -> jfield_opt w k' = jfield_opt v k'.
Proof.
  intros H Hk. destruct v; cbn in H; simplify_eq; try done. unfold jfield_opt, jfield.
  rewrite assoc_map_delete. by apply str_eqb_neq in Hk as ->.
Qed.

Lemma jdelete_gone (v w : json) (k : string) : jdelete v k = Ok w -> jfield_opt w k = JUndefined.
Proof.
  intros H. destruct v; cbn in H; simplify_eq; try done. unfold jfield_opt, jfield.
  by rewrite assoc_map_delete, str_eqb_refl.
Qed.

Lemma jset_field (v w x : json) (k k' : string) :
  jset v k x = Ok w -> k' <> k -> jfield_opt w k' = jfield_opt v k'.
Proof.
  intros H Hk. destruct v; cbn in H; simplify_eq. unfold jfield_opt, jfield, obj_assign.
  destruct (str_eqb k "__proto__"); [done|]. rewrite assoc_obj_put. by apply str_eqb_neq in Hk as ->.
Qed.

Definition not_stdio (r : result exn Transport) : Prop :=
  forall command args env cwd, r <> Ok (StdioClientTransport command args env cwd).

Lemma http_not_stdio new_URL config : not_stdio (createHttpTransport new_URL config).
Proof.
  unfold createHttpTransport. intros c a e d. destruct (validateHttpConfig _ _); [cbn|done]. by destruct (URL_from _ _).
Qed.

Lemma sse_not_stdio new_URL config : not_stdio (createSSETransport new_URL config).
Proof.
  unfold createSSETransport. intros c a e d. destruct (validateSSEConfig _); [cbn|done]. by destruct (URL_from _ _).
Qed.

Lemma create_stdio new_URL (config : json) command args env cwd t :
  create new_URL config = Ok (StdioClientTransport command args env cwd, t) ->
  command = jfield_opt config "command" /\ args = or_else (jfield_opt config "args") (JArr [])
  /\ env = jfield_opt config "env" /\ cwd = jfield_opt config "cwd".
Proof.
  unfold create. intros (ty & _ & H)%rbind_Ok.
  destruct (json_eqb ty (JStr "stdio")).
  - unfold createStdioTransport in H. destruct (validateStdioConfig config); cbn in H; by simplify_eq.
  - exfalso. case_bool; [pose proof (http_not_stdio new_URL config) as Hn|pose proof (sse_not_stdio new_URL config) as Hn|done];
      (case_match; [|done]); injection H as -> _; by eapply Hn.
Qed.

(** The command that becomes a process, and where the configured one went. *)
Definition runs_in_runner (config : json) (command args env cwd : json) : Prop :=
  command = JStr "docker" /\ env = JUndefined /\ cwd = JUndefined
  /\ exists own, jfield_opt config "command" = JStr own
     /\ args = JArr (map JStr (runner_options config ++ CUSTOM_STDIO_RUNNER_IMAGE :: own
                               :: toStringArray (jfield_opt config "args"))).

Lemma jget_field (v x : json) (k : string) : jget v k = Ok x -> jfield_opt v k = x.
Proof. unfold jget, jfield_opt. destruct (jfield v k); [by intros [= ->]|done]. Qed.

Lemma non_blank_text (v : json) (s : string) : non_blank v = Some s -> v = JStr s.
Proof. unfold non_blank. destruct v; try done. case_match; [done|]. by intros [= ->]. Qed.

Lemma runner_plan (config wrapped : json) meta :
  buildCustomStdioRunnerLaunchPlan config CUSTOM_STDIO_RUNNER_IMAGE = Ok (wrapped, meta) ->
  runs_in_runner config (jfield_opt wrapped "command") (jfield_opt wrapped "args") (jfield_opt wrapped "env") (jfield_opt wrapped "cwd").
Proof.
  unfold buildCustomStdioRunnerLaunchPlan. intros (command & Hc%jget_field & H)%rbind_Ok.
  destruct (non_blank command) as [own|] eqn:Ho; [|done]. apply non_blank_text in Ho as ->.
  apply rbind_Ok in H as (w1 & H1 & H). apply rbind_Ok in H as (w2 & H2 & [= <- <-]).
  assert (Hf : forall k, k <> "env"%string -> k <> "cwd"%string -> jfield_opt w2 k = jfield_opt (extend config
    [("command", JStr "docker"); ("args", JArr (map JStr (runner_options config ++ CUSTOM_STDIO_RUNNER_IMAGE :: own
                               :: toStringArray (jfield_opt config "args")))); ("stderr", JStr "pipe")]%string) k).
  { intros k He Hw. rewrite (jdelete_field _ _ _ _ H2 He). by rewrite (jdelete_field _ _ _ _ H1 Hw). }
  unfold runs_in_runner. rewrite (Hf "command"%string), (Hf "args"%string), !assoc_extend by (done || (apply (bool_decide_unpack _); vm_compute; exact I)).
  split; [done|]. split; [by eapply jdelete_gone|].
  split; [rewrite (jdelete_field _ _ _ _ H2) by done; by eapply jdelete_gone|].
  exists own. split; [exact Hc|reflexivity].
Qed.

(** Inside a container, what a custom stdio server starts as a process is the
    docker client: either its own command is one, or the client is given
    fixed options, the image, and only after it the configured command with
    its arguments, while environment and working directory become options. *)
Theorem custom_stdio_confined probe new_URL (s : Server) (config plan : json) meta command args env cwd t :
  category s = CustomStdio ->
  resolveLaunchPlan true probe s config = Ok (plan, meta) ->
  create new_URL plan = Ok (StdioClientTransport command args env cwd, t) ->
  (meta = None /\ isExplicitDockerCommand command = true) \/ runs_in_runner config command args env cwd.
Proof.
  unfold resolveLaunchPlan. intros Hc H Hcreate. rewrite bool_decide_true in H by done. cbn in H.
  apply rbind_Ok in H as (c & Hcmd%jget_field & H).
  apply create_stdio in Hcreate as (-> & -> & -> & ->).
  destruct (isExplicitDockerCommand c) eqn:E.
  - injection H as -> <-. left. by rewrite Hcmd.
  - apply rbind_Ok in H as (_ & _ & H). apply rbind_Ok in H as ([w m] & Hplan & [= <- _]). right.
    apply runner_plan in Hplan as (H1 & H2 & H3 & own & H4 & H5). cbn [fst].
    split_and! ; [done..|]. exists own. split; [done|]. by rewrite H5.
Qed.

Definition ex_stdio_server : Server := {|
  serverId := "files"; serverName := "Files"; enabled := true; launchConfig := ""; configured_capabilities := "{}";
  allowUserInput := false; publicAccess := false; authType := ApiKey; category := CustomStdio;
  configTemplate := None; transportType := None; lazyStartEnabled := true; usePetaOauthConfig := false; proxyId := 0;
  row_cachedTools := None; row_cachedResources := None; row_cachedResourceTemplates := None; row_cachedPrompts := None
|}.

Definition ex_stdio_config : json := JObj [
  ("command", JStr "npx"); ("args", JArr [JStr "-y"; JStr "files-mcp"]);
  ("env", JObj [("ROOT", JStr "/srv")]); ("cwd", JStr "/work") ]%string.

Definition ex_stdio_plan : json :=
  match resolveLaunchPlan true (fun _ => Ok tt) ex_stdio_server ex_stdio_config with Ok (p, _) => p | _ => JNull end.

Lemma custom_stdio_confined_witness :
  runs_in_runner ex_stdio_config (JStr "docker") (jfield_opt ex_stdio_plan "args") JUndefined JUndefined.
Proof.
  destruct (custom_stdio_confined (fun _ => Ok tt) Ok ex_stdio_server ex_stdio_config ex_stdio_plan
    (Some {| runnerImage := CUSTOM_STDIO_RUNNER_IMAGE; originalCommand := "npx" |})
    (JStr "docker") (jfield_opt ex_stdio_plan "args") JUndefined JUndefined "stdio") as [[H _]|H];
    [reflexivity|vm_compute; reflexivity|vm_compute; reflexivity|discriminate H|exact H].
Defined.
