(* ===== verification/CapabilityDiff.v ===== *)
(** * What changed between two configurations

    The two comparisons of [src/src/mcp/services/CapabilitiesService.ts] that
    decide whether clients are told that their tools, resources or prompts
    changed. *)
From Stdlib Require Import ZArith Lia.
From stdpp Require Import base strings list.
From S2P Require Import Prelude Json JsMap ServerTypes.
Open Scope Z_scope.

(** [Object.keys(v || {})] *)
Definition own_keys (v : json) : list string := if js_truthy v then keys (spread v) else [].

(** [v.hasOwnProperty(k)]: a property of that name hides the method. *)
Definition hasOwnProperty (v : json) (k : string) : result exn bool :=
  match v with
  | JUndefined | JNull => Throw TypeError
  | JObj kvs => if map_has "hasOwnProperty" kvs then Throw TypeError else Ok (map_has k kvs)
  | v => Ok (map_has k (spread v))
  end.

(** [for (const x of l) { if (...) return true; }]: the first that decides. *)
Fixpoint any {A} (f : A -> result exn bool) (l : list A) : result exn bool :=
  match l with
  | [] => Ok false
  | x :: l => try! b := f x in if b then Ok true else any f l
  end.

(** Is [k] missing from [v]? *)
Definition lacks (v : json) (k : string) : result exn bool :=
  try! b := hasOwnProperty v k in Ok (negb b).

Definition config_changed (oldCapabilities newCapabilities : json) (key : string) : result exn bool :=
  try! oldConfig := jget oldCapabilities key in
  try! newConfig := jget newCapabilities key in
  try! enabled_differs :=
    (if js_truthy oldConfig
     then try! e := jget oldConfig "enabled" in
          try! e' := jget newConfig "enabled" in
          Ok (negb (js_strict_eq e e'))
     else Ok false) in
  Ok (enabled_differs
      || negb (js_strict_eq (jfield_opt oldConfig "dangerLevel") (jfield_opt newConfig "dangerLevel"))).

Definition isCapabilityListChanged (oldCapabilities newCapabilities : json) : result exn bool :=
  try! added := any (lacks oldCapabilities) (own_keys newCapabilities) in
  if added then Ok true else
  try! removed := any (lacks newCapabilities) (own_keys oldCapabilities) in
  if removed then Ok true else
  any (config_changed oldCapabilities newCapabilities) (own_keys newCapabilities).

Record Changes : Type := { toolsChanged : bool; resourcesChanged : bool; promptsChanged : bool }.

Definition all_changed : Changes := {| toolsChanged := true; resourcesChanged := true; promptsChanged := true |}.
Definition nothing_changed : Changes := {| toolsChanged := false; resourcesChanged := false; promptsChanged := false |}.

Definition enabled_changed (oldPerms newPerms : json) (serverId : string) : result exn bool :=
  try! has := hasOwnProperty oldPerms serverId in
  if negb has then Ok false else
  try! oldServer := jget oldPerms serverId in
  try! newServer := jget newPerms serverId in
  try! e := jget oldServer "enabled" in
  try! e' := jget newServer "enabled" in
  Ok (negb (js_strict_eq e e')).

(** One kind of one server, unless that kind is known to have changed. *)
Definition kind_changed (known : bool) (oldServer newServer : json) (kind : string) : result exn bool :=
  if known then Ok true else
  try! old := jget oldServer kind in
  try! new := jget newServer kind in
  isCapabilityListChanged old new.

Fixpoint compare_servers (oldPerms newPerms : json) (serverIds : list string) (c : Changes) : result exn Changes :=
  match serverIds with
  | [] => Ok c
  | serverId :: rest =>
      try! has := hasOwnProperty oldPerms serverId in
      if negb has then compare_servers oldPerms newPerms rest c else
      try! oldServer := jget oldPerms serverId in
      try! newServer := jget newPerms serverId in
      try! e := jget oldServer "enabled" in
      try! e' := jget newServer "enabled" in
      if negb (js_strict_eq e e') then compare_servers oldPerms newPerms rest c else
      try! t := kind_changed (toolsChanged c) oldServer newServer "tools" in
      try! r := kind_changed (resourcesChanged c) oldServer newServer "resources" in
      try! p := kind_changed (promptsChanged c) oldServer newServer "prompts" in
      let c := {| toolsChanged := t; resourcesChanged := r; promptsChanged := p |} in
      if t && r && p then Ok c else compare_servers oldPerms newPerms rest c
  end.

(** [v || {}] *)
Definition object_or_empty (v : json) : json := if js_truthy v then v else JObj [].

Definition comparePermissions (oldPermissions newPermissions : json) : result exn Changes :=
  let oldPerms := object_or_empty oldPermissions in
  let newPerms := object_or_empty newPermissions in
  try! added := any (lacks oldPerms) (own_keys newPerms) in
  if added then Ok all_changed else
  try! removed := any (lacks newPerms) (own_keys oldPerms) in
  if removed then Ok all_changed else
  try! enabled := any (enabled_changed oldPerms newPerms) (own_keys newPerms) in
  if enabled then Ok all_changed else
  compare_servers oldPerms newPerms (own_keys newPerms) nothing_changed.

(** ** What the answer means *)

(** The entry of a tool, resource or prompt. *)
Definition entry (perms : json) (serverId kind name : string) : json :=
  jfield_opt (jfield_opt (jfield_opt perms serverId) kind) name.

(** A configuration whose levels are objects. *)
Definition is_obj (v : json) : bool := match v with JObj _ => true | _ => false end.

Definition objects_of (v : json) : bool :=
  match v with
  | JObj kvs => forallb (fun kv => is_obj (snd kv)) kvs && negb (map_has "hasOwnProperty" kvs)
  | _ => false
  end.

(** An absent kind is allowed. *)
Definition kind_typed (v : json) : bool := bool_decide (v = JUndefined) || objects_of v.

Lemma js_strict_eq_eq (v w : json) : js_strict_eq v w = true -> v = w.
Proof. unfold js_strict_eq. destruct v; try done; apply json_eqb_eq. Qed.

Lemma any_Ok {A} (f : A -> result exn bool) (l : list A) (b : bool) :
  any f l = Ok b -> b = false -> Forall (fun x => f x = Ok false) l.
Proof.
  intros H ->. induction l as [|x l IH]; [constructor|]. cbn in H. apply rbind_Ok in H as ([|] & Hx & H); [done|].
  constructor; auto.
Qed.

Lemma own_keys_assoc (v : json) (k : string) :
  objects_of v = true -> (k ∈ own_keys v <-> is_obj (jfield_opt v k) = true).
Proof.
  destruct v as [| | | | | |kvs]; try done. cbn [objects_of]. intros [Hf _]%andb_prop. unfold own_keys. cbn [js_truthy spread].
  rewrite <- map_has_keys, map_has_assoc. split.
  - intros [x Hx]. unfold jfield_opt, jfield. rewrite Hx. cbn. rewrite forallb_forall in Hf. apply assoc_In in Hx. exact (Hf _ Hx).
  - unfold jfield_opt, jfield. cbn. destruct (assoc k kvs) as [x|] eqn:E; [by exists x|done].
Qed.

Lemma lacks_false (v : json) (k : string) : objects_of v = true -> lacks v k = Ok false -> is_obj (jfield_opt v k) = true.
Proof.
  intros Ho H. apply own_keys_assoc; [done|]. destruct v as [| | | | | |kvs]; try done.
  unfold lacks, hasOwnProperty in H. destruct (map_has "hasOwnProperty" kvs); cbn in H; [done|].
  unfold own_keys. cbn [js_truthy spread]. apply map_has_keys. by destruct (map_has k kvs).
Qed.

Lemma not_obj_absent (v : json) (k : string) :
  objects_of v = true -> is_obj (jfield_opt v k) = false -> jfield_opt v k = JUndefined.
Proof.
  intros Hv Hf. destruct v as [| | | | | |kvs]; try done. cbn in *. apply andb_prop in Hv as [Hv _].
  rewrite forallb_forall in Hv. destruct (assoc k kvs) as [x|] eqn:Ek; [|done].
  apply assoc_In in Ek. specialize (Hv _ Ek). cbn in *. congruence.
Qed.

Lemma lists_unchanged (old new : json) :
  objects_of old = true -> objects_of new = true -> isCapabilityListChanged old new = Ok false ->
  forall k, jfield_opt (jfield_opt old k) "enabled" = jfield_opt (jfield_opt new k) "enabled"
            /\ jfield_opt (jfield_opt old k) "dangerLevel" = jfield_opt (jfield_opt new k) "dangerLevel".
Proof.
  intros Ho Hn H k. unfold isCapabilityListChanged in H.
  apply rbind_Ok in H as ([|] & Ha & H); [done|]. apply rbind_Ok in H as ([|] & Hr & H); [done|].
  apply any_Ok in Ha, Hr, H; [|done..]. rewrite Forall_forall in Ha, Hr, H.
  destruct (is_obj (jfield_opt new k)) eqn:E.
  - assert (Hk : k ∈ own_keys new) by by apply own_keys_assoc.
    specialize (H k Hk). pose proof (lacks_false old k Ho (Ha k Hk)) as Eo. revert H. unfold config_changed, jget.
    unfold jfield_opt in E, Eo |- *.
    destruct (jfield old k) as [oc|], (jfield new k) as [nc|]; cbn in *; try done.
    destruct oc; try done; destruct nc; try done. cbn. intros [= [H1 H2]%orb_false_iff].
    apply negb_false_iff, js_strict_eq_eq in H1, H2. done.
  - destruct (is_obj (jfield_opt old k)) eqn:Eo.
    + assert (Hk : k ∈ own_keys old) by by apply own_keys_assoc.
      pose proof (lacks_false new k Hn (Hr k Hk)). congruence.
    + by rewrite (not_obj_absent old k Ho Eo), (not_obj_absent new k Hn E).
Qed.

Lemma kinds_unchanged (old new : json) :
  kind_typed old = true -> kind_typed new = true -> isCapabilityListChanged old new = Ok false ->
  forall k, jfield_opt (jfield_opt old k) "enabled" = jfield_opt (jfield_opt new k) "enabled"
            /\ jfield_opt (jfield_opt old k) "dangerLevel" = jfield_opt (jfield_opt new k) "dangerLevel".
Proof.
  unfold kind_typed. intros Ho Hn H.
  assert (Hempty : forall kvs, own_keys (JObj kvs) = [] -> kvs = []) by by intros [|].
  destruct (bool_decide (old = JUndefined)) eqn:E1, (bool_decide (new = JUndefined)) eqn:E2; to_prop; subst; try done.
  - unfold isCapabilityListChanged in H. destruct new as [| | | | | |kvs]; try done.
    destruct (own_keys (JObj kvs)) as [|k l] eqn:Ek; [|by cbn in H]. by rewrite (Hempty _ Ek).
  - unfold isCapabilityListChanged in H. destruct old as [| | | | | |kvs]; try done.
    destruct (own_keys (JObj kvs)) as [|k l] eqn:Ek; [|by cbn in H]. by rewrite (Hempty _ Ek).
  - by apply lists_unchanged.
Qed.

(** The kinds and their answers. *)
Inductive kind_flag : string -> (Changes -> bool) -> Prop :=
| flag_tools : kind_flag "tools" toolsChanged
| flag_resources : kind_flag "resources" resourcesChanged
| flag_prompts : kind_flag "prompts" promptsChanged.

Definition same_kind (oldPerms newPerms : json) (kind : string) (serverId : string) : Prop :=
  isCapabilityListChanged (jfield_opt (jfield_opt oldPerms serverId) kind)
                          (jfield_opt (jfield_opt newPerms serverId) kind) = Ok false.

Lemma jget_Ok (v x : json) (k : string) : jget v k = Ok x -> jfield_opt v k = x.
Proof. unfold jget, jfield_opt. destruct (jfield v k); [by intros [= ->]|done]. Qed.

Lemma kind_changed_false known oldServer newServer kind :
  kind_changed known oldServer newServer kind = Ok false ->
  known = false /\ isCapabilityListChanged (jfield_opt oldServer kind) (jfield_opt newServer kind) = Ok false.
Proof.
  unfold kind_changed. destruct known; [done|].
  intros (o & Ho%jget_Ok & H)%rbind_Ok. apply rbind_Ok in H as (n & Hn%jget_Ok & H). by subst.
Qed.

Lemma compare_servers_false (oldPerms newPerms : json) kind flag ids c c' :
  kind_flag kind flag -> compare_servers oldPerms newPerms ids c = Ok c' -> flag c' = false ->
  Forall (fun sid => enabled_changed oldPerms newPerms sid = Ok false) ids ->
  Forall (fun sid => hasOwnProperty oldPerms sid = Ok true) ids ->
  flag c = false /\ Forall (same_kind oldPerms newPerms kind) ids.
Proof.
  intros Hk. revert c. induction ids as [|sid ids IH]; cbn [compare_servers]; intros c H Hf He Hh.
  - injection H as ->. by split.
  - apply Forall_cons in He as [He Hes]. apply Forall_cons in Hh as [Hh Hhs].
    unfold enabled_changed in He. rewrite Hh in He, H. cbn in He, H.
    apply rbind_Ok in He as (os & Ho & He). apply rbind_Ok in He as (ns & Hn & He).
    apply rbind_Ok in He as (e & Hoe & He). apply rbind_Ok in He as (e' & Hne & He).
    rewrite Ho in H; cbn in H. rewrite Hn in H; cbn in H. rewrite Hoe in H; cbn in H. rewrite Hne in H; cbn in H.
    injection He as Hee. rewrite Hee in H. apply jget_Ok in Ho, Hn. subst os ns.
    apply rbind_Ok in H as (t & Ht & H). apply rbind_Ok in H as (r & Hr & H). apply rbind_Ok in H as (p & Hp & H).
    assert (Hrest : flag {| toolsChanged := t; resourcesChanged := r; promptsChanged := p |} = false
                    /\ Forall (same_kind oldPerms newPerms kind) ids).
    { destruct (t && r && p) eqn:E; [|by apply IH].
      injection H as <-. to_prop. subst. by destruct Hk. }
    destruct Hrest as [Hnow Hrest].
    destruct Hk; cbn in Hnow; subst;
      [apply kind_changed_false in Ht as [? Hs]|apply kind_changed_false in Hr as [? Hs]|apply kind_changed_false in Hp as [? Hs]];
      (split; [done|]; constructor; [exact Hs|exact Hrest]).
Qed.

(** Servers with their kinds, all objects. *)
Definition perms_typed (perms : json) : bool :=
  objects_of perms
  && forallb (fun kv => forallb (fun kind => kind_typed (jfield_opt (snd kv) kind)) ["tools"; "resources"; "prompts"]%string)
       (spread perms).

Lemma perms_typed_kind (perms : json) (sid kind : string) flag :
  perms_typed perms = true -> kind_flag kind flag -> kind_typed (jfield_opt (jfield_opt perms sid) kind) = true.
Proof.
  unfold perms_typed. intros [Ho Hf]%andb_prop Hk. destruct perms as [| | | | | |kvs]; try done.
  unfold jfield_opt at 2, jfield. cbn. destruct (assoc sid kvs) as [v|] eqn:E; [|done].
  apply assoc_In in E. rewrite forallb_forall in Hf. specialize (Hf _ E). cbn in Hf.
  to_prop. by destruct Hk.
Qed.

(** When the comparison does not report a kind as changed, every tool,
    resource or prompt of that kind is enabled, and graded, exactly as
    before, on every server; a client that is not notified has nothing new
    to see. *)
Theorem unreported_is_unchanged (oldPerms newPerms : json) (c : Changes) kind flag :
  perms_typed oldPerms = true -> perms_typed newPerms = true ->
  comparePermissions oldPerms newPerms = Ok c -> kind_flag kind flag -> flag c = false ->
  forall sid name,
    jfield_opt (jfield_opt oldPerms sid) "enabled" = jfield_opt (jfield_opt newPerms sid) "enabled"
    /\ jfield_opt (entry oldPerms sid kind name) "enabled" = jfield_opt (entry newPerms sid kind name) "enabled"
    /\ jfield_opt (entry oldPerms sid kind name) "dangerLevel" = jfield_opt (entry newPerms sid kind name) "dangerLevel".
Proof.
  intros Ho Hn H Hk Hf sid name. pose proof Ho as [Ho1 _]%andb_prop. pose proof Hn as [Hn1 _]%andb_prop.
  unfold comparePermissions in H.
  assert (Hor : object_or_empty oldPerms = oldPerms) by by destruct oldPerms.
  assert (Hnr : object_or_empty newPerms = newPerms) by by destruct newPerms. rewrite Hor, Hnr in H.
  apply rbind_Ok in H as ([|] & Ha & H); [injection H as <-; by destruct Hk|].
  apply rbind_Ok in H as ([|] & Hr & H); [injection H as <-; by destruct Hk|].
  apply rbind_Ok in H as ([|] & He & H); [injection H as <-; by destruct Hk|].
  apply any_Ok in Ha, Hr, He; [|done..].
  assert (Hhas : Forall (fun s => hasOwnProperty oldPerms s = Ok true) (own_keys newPerms)).
  { eapply Forall_impl; [exact Ha|]. intros s. unfold lacks. destruct (hasOwnProperty oldPerms s) as [[|]|]; [done|done|done]. }
  destruct (compare_servers_false _ _ _ _ _ _ _ Hk H Hf He Hhas) as [_ Hsame].
  rewrite Forall_forall in Hsame, He, Hhas, Ha, Hr. unfold entry.
  destruct (is_obj (jfield_opt newPerms sid)) eqn:E.
  - assert (Hin : sid ∈ own_keys newPerms) by by apply own_keys_assoc.
    split; [|by eapply kinds_unchanged; [eapply perms_typed_kind..|apply Hsame]].
    specialize (He sid Hin). unfold enabled_changed in He. rewrite (Hhas sid Hin) in He. cbn in He.
    apply rbind_Ok in He as (os & <-%jget_Ok & He). apply rbind_Ok in He as (ns & <-%jget_Ok & He).
    apply rbind_Ok in He as (e & <-%jget_Ok & He). apply rbind_Ok in He as (e' & <-%jget_Ok & He).
    injection He as He%negb_false_iff. by apply js_strict_eq_eq.
  - destruct (is_obj (jfield_opt oldPerms sid)) eqn:Eo.
    { assert (Hin : sid ∈ own_keys oldPerms) by by apply own_keys_assoc.
      pose proof (lacks_false _ _ Hn1 (Hr sid Hin)). congruence. }
    by rewrite (not_obj_absent _ _ Ho1 Eo), (not_obj_absent _ _ Hn1 E).
Qed.

Definition ex_perms (enabled : bool) (level : Z) : json :=
  JObj [("git", JObj [("enabled", JBool true);
                      ("tools", JObj [("push", JObj [("enabled", JBool enabled); ("dangerLevel", JNum level)])]);
                      ("resources", JObj []); ("prompts", JObj [])])]%string.

Lemma unreported_is_unchanged_witness :
  comparePermissions (ex_perms true 1) (ex_perms true 2) = Ok {| toolsChanged := true; resourcesChanged := false; promptsChanged := false |}
  /\ jfield_opt (entry (ex_perms true 1) "git" "resources" "readme") "enabled"
     = jfield_opt (entry (ex_perms true 2) "git" "resources" "readme") "enabled".
Proof.
  split; [vm_compute; reflexivity|].
  refine (proj1 (proj2 (unreported_is_unchanged (ex_perms true 1) (ex_perms true 2)
    {| toolsChanged := true; resourcesChanged := false; promptsChanged := false |} "resources" resourcesChanged
    _ _ _ flag_resources _ "git"%string "readme"%string))); vm_compute; reflexivity.
Defined.

(** A kind that only one of the two configurations has makes the comparison
    itself fail: the keys are read with a default, the old object without. *)
Lemma missing_kind_throws :
  isCapabilityListChanged JUndefined (JObj [("push"%string, JObj [])]) = Throw TypeError.
Proof. reflexivity. Qed.
