(* ===== verification/Monitor.v ===== *)
(** * Cooperative threads

    Asynchronous methods sharing objects: the code between two awaits runs
    without interruption, and at an await any other method may go on.  A pool
    of programs ([Effects]) whose calls are either synchronous ([atomic]) or
    awaited; and a proof rule for its invariants, which have to hold only at
    the awaits and after which each thread may rely on what it holds alone
    (its ghost), whatever the others did. *)
From stdpp Require Import base list.
From S2P Require Import Prelude Effects.

Section Monitor.
Context {E : Type -> Type} {S : Type}.
Variable atomic : forall X, E X -> bool.
(** [answers X e s x s']: in [s] the call [e] may be answered by [x], leaving
    [s']. *)
Variable answers : forall X, E X -> S -> X -> S -> Prop.

(** Synchronous code up to the next await, or the end. *)
Inductive burst {A} : prog E A -> S -> prog E A -> S -> Prop :=
| burst_ret a s : burst (Ret a) s (Ret a) s
| burst_fuel s : burst OutOfFuel s OutOfFuel s
| burst_await X e k s : atomic X e = false -> burst (Vis X e k) s (Vis X e k) s
| burst_call X e k s x s1 p' s' :
    atomic X e = true -> answers X e s x s1 -> burst (k x) s1 p' s' -> burst (Vis X e k) s p' s'.

(** One thread goes on, or a new one is started. *)
Inductive turn {A} (entry : prog E A -> Prop) : list (prog E A) * S -> list (prog E A) * S -> Prop :=
| turn_start pool s p p' s' :
    entry p -> burst p s p' s' -> turn entry (pool, s) (pool ++ [p'], s')
| turn_resume pool1 pool2 s X e k x s1 p' s' :
    atomic X e = false -> answers X e s x s1 -> burst (k x) s1 p' s' ->
    turn entry (pool1 ++ Vis X e k :: pool2, s) (pool1 ++ p' :: pool2, s').

Inductive reachable {A} (entry : prog E A -> Prop) (s0 : S) : list (prog E A) * S -> Prop :=
| reachable_start : reachable entry s0 ([], s0)
| reachable_turn c c' : reachable entry s0 c -> turn entry c c' -> reachable entry s0 c'.

(** All that a burst may lead to. *)
Fixpoint bursts {A} (p : prog E A) (s : S) (Q : prog E A -> S -> Prop) : Prop :=
  match p with
  | Ret _ | OutOfFuel => Q p s
  | Vis X e k => if atomic X e then forall x s', answers X e s x s' -> bursts (k x) s' Q else Q p s
  end.

Lemma burst_bursts {A} (p p' : prog E A) s s' Q : burst p s p' s' -> bursts p s Q -> Q p' s'.
Proof using.
  induction 1 as [a s|s|X e k s He|X e k s x s1 p' s' He Ha _ IH]; cbn; rewrite ?He; auto.
Qed.

(** ** Nothing interferes *)

Fixpoint alone {A} (p : prog E A) (s : S) (Q : A -> S -> Prop) : Prop :=
  match p with
  | Ret a => Q a s
  | OutOfFuel => True
  | Vis X e k => forall x s', answers X e s x s' -> alone (k x) s' Q
  end.

Lemma alone_mono {A} (p : prog E A) (s : S) (Q Q' : A -> S -> Prop) :
  alone p s Q -> (forall a s', Q a s' -> Q' a s') -> alone p s Q'.
Proof using. intros H HQ. revert s H. induction p as [a|X e k IH|]; cbn; eauto. Qed.

Lemma alone_bind {A B} (p : prog E A) (k : A -> prog E B) (s : S) (Q : B -> S -> Prop) :
  alone p s (fun a s' => alone (k a) s' Q) -> alone (pbind p k) s Q.
Proof using. revert s. induction p as [a|X e c IH|]; cbn; eauto. Qed.

(** ** What every call of a program does *)

Fixpoint every {A} (P : forall X, E X -> Prop) (p : prog E A) : Prop :=
  match p with
  | Ret _ | OutOfFuel => True
  | Vis X e k => P X e /\ forall x, every P (k x)
  end.

Lemma every_call {A X} (P : forall X, E X -> Prop) (e : E X) (k : X -> prog E A) :
  P X e -> (forall x, every P (k x)) -> every P (Vis X e k).
Proof using. by split. Qed.

Lemma every_bind {A B} (P : forall X, E X -> Prop) (p : prog E A) (k : A -> prog E B) :
  every P p -> (forall a, every P (k a)) -> every P (pbind p k).
Proof using. intros H Hk. induction p as [a|X e c IH|]; cbn in *; [auto|destruct H; split; auto|done]. Qed.

Lemma every_mono {A} (P P' : forall X, E X -> Prop) (p : prog E A) :
  every P p -> (forall X e, P X e -> P' X e) -> every P' p.
Proof using. intros H HP. induction p as [a|X e c IH|]; cbn in *; [done|destruct H; split; auto|done]. Qed.

(** [e] changes the state only as [R] allows. *)
Definition within (R : S -> S -> Prop) (X : Type) (e : E X) : Prop := forall s x s', answers X e s x s' -> R s s'.

Lemma alone_within {A} (R : S -> S -> Prop) (p : prog E A) (s : S) :
  (forall s, R s s) -> (forall s1 s2 s3, R s1 s2 -> R s2 s3 -> R s1 s3) ->
  every (within R) p -> alone p s (fun _ s' => R s s').
Proof using.
  intros Hr Ht. revert s. induction p as [a|X e k IH|]; cbn; [done| |done].
  intros s [He Hk] x s' Ha. eapply alone_mono; [by apply IH|]. cbn. intros _ s2. apply Ht. by eapply He.
Qed.

(** ** Exploring by computation

    A schedule says whose turn it is and which of the environment's possible
    answers the awaited call gets; what it leads to is computed, and is
    reachable. *)
Section Schedule.
Context {K : Type} (oracle : K -> forall X, E X -> S -> option (X * S)).
Hypothesis oracle_sound : forall o X e s x s', oracle o X e s = Some (x, s') -> answers X e s x s'.

Fixpoint run_burst {A} (o : K) (p : prog E A) (s : S) : option (prog E A * S) :=
  match p with
  | Ret a => Some (Ret a, s)
  | OutOfFuel => Some (OutOfFuel, s)
  | Vis X e k =>
      if atomic X e
      then match oracle o X e s with Some (x, s1) => run_burst o (k x) s1 | None => None end
      else Some (Vis X e k, s)
  end.

Inductive move (A : Type) : Type := Begin (p : prog E A) (o : K) | Go (i : nat) (o : K).
Arguments Begin {A} p o.
Arguments Go {A} i o.

Definition play {A} (m : move A) (c : list (prog E A) * S) : option (list (prog E A) * S) :=
  match m with
  | Begin p o =>
      match run_burst o p (snd c) with Some (p', s') => Some (fst c ++ [p'], s') | None => None end
  | Go i o =>
      match fst c !! i with
      | Some (Vis X e k) =>
          if atomic X e then None else
          match oracle o X e (snd c) with
          | Some (x, s1) =>
              match run_burst o (k x) s1 with Some (p', s') => Some (<[i := p']> (fst c), s') | None => None end
          | None => None
          end
      | _ => None
      end
  end.

Fixpoint plays {A} (ms : list (move A)) (c : list (prog E A) * S) : option (list (prog E A) * S) :=
  match ms with
  | [] => Some c
  | m :: ms => match play m c with Some c' => plays ms c' | None => None end
  end.

Definition begins {A} (entry : prog E A -> Prop) (m : move A) : Prop :=
  match m with Begin p _ => entry p | Go _ _ => True end.

Lemma run_burst_sound {A} o (p : prog E A) s p' s' : run_burst o p s = Some (p', s') -> burst p s p' s'.
Proof using oracle_sound.
  revert s. induction p as [a|X e k IH|]; cbn; intros s.
  - intros [= <- <-]. constructor.
  - destruct (atomic X e) eqn:He.
    + destruct (oracle o X e s) as [[x s1]|] eqn:Ho; [|done]. intros H. eapply burst_call; eauto.
    + intros [= <- <-]. by constructor.
  - intros [= <- <-]. constructor.
Qed.

Lemma play_turn {A} (entry : prog E A -> Prop) m c c' : begins entry m -> play m c = Some c' -> turn entry c c'.
Proof using oracle_sound.
  intros Hb Hp. destruct c as [pool s]. destruct m as [p o|i o]; cbn in *.
  - destruct (run_burst o p s) as [[p' s']|] eqn:Hr; [|done]. injection Hp as <-.
    eapply turn_start; [exact Hb|]. by eapply run_burst_sound.
  - destruct (pool !! i) as [[a|X e k|]|] eqn:Hi; try done. destruct (atomic X e) eqn:He; [done|].
    destruct (oracle o X e s) as [[x s1]|] eqn:Ho; [|done].
    destruct (run_burst o (k x) s1) as [[p' s']|] eqn:Hr; [|done]. injection Hp as <-.
    rewrite <- (take_drop_middle pool i _ Hi) at 1.
    rewrite insert_take_drop by (by eapply lookup_lt_Some).
    eapply turn_resume; [exact He|by eapply oracle_sound|by eapply run_burst_sound].
Qed.

(** Whatever turns preserve, a schedule preserves. *)
Lemma plays_turns {A} (entry : prog E A -> Prop) (P : list (prog E A) * S -> Prop) ms c c' :
  (forall d d', P d -> turn entry d d' -> P d') -> P c -> Forall (begins entry) ms -> plays ms c = Some c' -> P c'.
Proof using oracle_sound.
  intros HP Hc Hm. revert c Hc. induction Hm as [|m ms Hb _ IH]; cbn; intros c Hc; [by intros [= <-]|].
  destruct (play m c) as [c1|] eqn:Hp; [|done]. apply IH. eapply HP; [exact Hc|]. by eapply play_turn.
Qed.

Lemma plays_reachable {A} (entry : prog E A -> Prop) s0 ms c c' :
  reachable entry s0 c -> Forall (begins entry) ms -> plays ms c = Some c' -> reachable entry s0 c'.
Proof using oracle_sound. apply plays_turns. intros d d'. apply reachable_turn. Qed.
End Schedule.

(** ** Invariants at the awaits

    [J s gs]: the invariant of the state when the threads hold the ghosts
    [gs]. *)
Section Invariant.
Context {G : Type} (J : S -> list G -> Prop).

(** Run from [s] while the other threads hold [gs], [p] re-establishes the
    invariant at each await and ends in [Q]. *)
Fixpoint keeps {A} (p : prog E A) (s : S) (gs : list G) (Q : A -> S -> list G -> Prop) : Prop :=
  match p with
  | Ret a => Q a s gs
  | OutOfFuel => exists g, J s (g :: gs)
  | Vis X e k =>
      if atomic X e then forall x s', answers X e s x s' -> keeps (k x) s' gs Q
      else exists g, J s (g :: gs) /\
             forall s1 gs1 x s2, J s1 (g :: gs1) -> answers X e s1 x s2 -> keeps (k x) s2 gs1 Q
  end.

Lemma keeps_mono {A} (p : prog E A) s gs (Q Q' : A -> S -> list G -> Prop) :
  keeps p s gs Q -> (forall a s' gs', Q a s' gs' -> Q' a s' gs') -> keeps p s gs Q'.
Proof using.
  intros H HQ. revert s gs H. induction p as [a|X e k IH|]; cbn; [auto| |done].
  intros s gs H. destruct (atomic X e); [eauto|].
  destruct H as (g & HJ & H). exists g. split; [done|]. eauto.
Qed.

Lemma keeps_bind {A B} (p : prog E A) (k : A -> prog E B) s gs (Q : B -> S -> list G -> Prop) :
  keeps p s gs (fun a s' gs' => keeps (k a) s' gs' Q) -> keeps (pbind p k) s gs Q.
Proof using.
  revert s gs. induction p as [a|X e c IH|]; cbn; [done| |done].
  intros s gs H. destruct (atomic X e); [eauto|].
  destruct H as (g & HJ & H). exists g. split; [done|]. eauto.
Qed.

(** A whole method: started where the invariant holds, it ends where it does,
    holding nothing. *)
Definition method_ok {A} (p : prog E A) : Prop :=
  forall s gs, J s gs -> keeps p s gs (fun _ => J).

(** Code that leaves alone what [J] speaks of. *)
Lemma every_keeps {A} (p : prog E A) (g : G) (R : S -> S -> Prop) (s : S) gs :
  (forall s s' gs, R s s' -> J s gs -> J s' gs) -> every (within R) p -> J s (g :: gs) ->
  keeps p s gs (fun _ s' gs' => J s' (g :: gs')).
Proof using.
  intros HR. revert s gs. induction p as [a|X e k IH|]; cbn; intros s gs He HJ; [done| |by exists g].
  destruct He as [He Hk]. destruct (atomic X e).
  - intros x s' Ha. apply IH; [done|]. eapply HR; [by eapply He|done].
  - exists g. split; [done|]. intros s1 gs1 x s2 HJ1 Ha. apply IH; [done|]. eapply HR; [by eapply He|done].
Qed.

(** A thread between its turns. *)
Definition parked {A} (p : prog E A) (gs : list G) : Prop :=
  match p with
  | Ret _ => gs = []
  | OutOfFuel => exists g, gs = [g]
  | Vis X e k => exists g, gs = [g] /\
      forall s1 gs1 x s2, J s1 (g :: gs1) -> answers X e s1 x s2 -> keeps (k x) s2 gs1 (fun _ => J)
  end.

Hypothesis J_perm : forall s gs gs', gs ≡ₚ gs' -> J s gs -> J s gs'.

Lemma burst_keeps {A} (p p' : prog E A) s s' gs :
  burst p s p' s' -> keeps p s gs (fun _ => J) -> exists own, parked p' own /\ J s' (own ++ gs).
Proof using.
  induction 1 as [a s|s|X e k s He|X e k s x s1 p' s' He Ha _ IH]; cbn.
  - intros H. by exists [].
  - intros (g & H). exists [g]. split; [by exists g|done].
  - rewrite He. intros (g & HJ & H). exists [g]. split; [by exists g|done].
  - rewrite He. intros H. apply IH. by apply H.
Qed.

(** Every reachable state satisfies the invariant, for the ghosts its threads
    hold. *)
Theorem reachable_invariant {A} (entry : prog E A -> Prop) (s0 : S) c :
  (forall p, entry p -> method_ok p) -> J s0 [] -> reachable entry s0 c ->
  exists gss, Forall2 parked (fst c) gss /\ J (snd c) (concat gss).
Proof using J_perm.
  intros Hentry H0. induction 1 as [|c c' _ (gss & Hp & HJ) Ht]; [by exists []|].
  destruct Ht as [pool s p p' s' Hp0 Hb|pool1 pool2 s X e k x s1 p' s' He Ha Hb]; cbn in *.
  - destruct (burst_keeps p p' s s' (concat gss) Hb) as (own & Hown & HJ').
    { by apply (Hentry p Hp0). }
    exists (gss ++ [own]). split; [by apply Forall2_app; [|constructor]|].
    rewrite concat_app. cbn. rewrite app_nil_r. eapply J_perm; [|exact HJ']. apply Permutation_app_comm.
  - apply Forall2_app_inv_l in Hp as (gss1 & gss' & Hp1 & Hp2 & ->).
    apply Forall2_cons_inv_l in Hp2 as (gs & gss2 & (g & -> & Hk) & Hp2 & ->).
    rewrite concat_app in HJ. cbn in HJ.
    assert (HJ1 : J s (g :: concat gss1 ++ concat gss2)).
    { eapply J_perm; [|exact HJ]. symmetry. apply Permutation_middle. }
    destruct (burst_keeps _ _ _ _ _ Hb (Hk _ _ _ _ HJ1 Ha)) as (own & Hown & HJ').
    exists (gss1 ++ own :: gss2). split; [by apply Forall2_app; [|constructor]|].
    rewrite concat_app. cbn. eapply J_perm; [|exact HJ'].
    rewrite !app_assoc. apply Permutation_app_tail, Permutation_app_comm.
Qed.
End Invariant.

(** Invariants of the state alone. *)
Section StateInvariant.
Variable I : S -> Prop.

Fixpoint preserves {A} (p : prog E A) (s : S) (Q : A -> S -> Prop) : Prop :=
  match p with
  | Ret a => Q a s
  | OutOfFuel => I s
  | Vis X e k =>
      if atomic X e then forall x s', answers X e s x s' -> preserves (k x) s' Q
      else I s /\ forall s1 x s2, I s1 -> answers X e s1 x s2 -> preserves (k x) s2 Q
  end.

Lemma preserves_mono {A} (p : prog E A) s (Q Q' : A -> S -> Prop) :
  preserves p s Q -> (forall a s', Q a s' -> Q' a s') -> preserves p s Q'.
Proof using.
  intros H HQ. revert s H. induction p as [a|X e k IH|]; cbn; [auto| |done].
  intros s H. destruct (atomic X e); [eauto|]. destruct H as [HI H]. split; eauto.
Qed.

Lemma preserves_bind {A B} (p : prog E A) (k : A -> prog E B) s (Q : B -> S -> Prop) :
  preserves p s (fun a s' => preserves (k a) s' Q) -> preserves (pbind p k) s Q.
Proof using.
  revert s. induction p as [a|X e c IH|]; cbn; [done| |done].
  intros s H. destruct (atomic X e); [eauto|]. destruct H as [HI H]. split; eauto.
Qed.

Lemma preserves_keeps {A} (p : prog E A) s (Q : A -> S -> Prop) gs :
  preserves p s Q -> keeps (fun s (_ : list unit) => I s) p s gs (fun a s _ => Q a s).
Proof using.
  revert s gs. induction p as [a|X e k IH|]; cbn; [done| |by exists tt].
  intros s gs H. destruct (atomic X e); [eauto|]. destruct H as [HI H]. exists tt. split; eauto.
Qed.

Lemma every_preserves {A} (p : prog E A) (s : S) :
  every (within (fun s s' => I s -> I s')) p -> I s -> preserves p s (fun _ => I).
Proof using.
  revert s. induction p as [a|X e k IH|]; cbn; [done| |done].
  intros s [He Hk] HI. destruct (atomic X e).
  - intros x s' Ha. apply IH; [done|]. by eapply He.
  - split; [done|]. intros s1 x s2 H1 Ha. apply IH; [done|]. by eapply He.
Qed.

Theorem reachable_preserves {A} (entry : prog E A -> Prop) (s0 : S) c :
  (forall p s, entry p -> I s -> preserves p s (fun _ => I)) -> I s0 ->
  reachable entry s0 c -> I (snd c).
Proof using.
  intros He H0 Hr. destruct (reachable_invariant (fun s (_ : list unit) => I s)) with (entry := entry) (s0 := s0) (c := c)
    as (gss & _ & H); try done. intros p Hp s gs Hs. apply preserves_keeps. by apply He.
Qed.
End StateInvariant.
End Monitor.
Arguments burst {E S} atomic answers {A} p s p' s'.
Arguments turn {E S} atomic answers {A} entry c c'.
Arguments reachable {E S} atomic answers {A} entry s0 c.
Arguments alone {E S} answers {A} p s Q.
Arguments every {E A} P p.
Arguments within {E S} answers R X e.
Arguments keeps {E S} atomic answers {G} J {A} p s gs Q.
Arguments method_ok {E S} atomic answers {G} J {A} p.
Arguments preserves {E S} atomic answers I {A} p s Q.
Arguments Begin {E K A} p o.
Arguments Go {E K A} i o.
Arguments run_burst {E S} atomic {K} oracle {A} o p s.
Arguments plays {E S} atomic {K} oracle {A} ms c.
Arguments begins {E K A} entry m.
Arguments bursts {E S} atomic answers {A} p s Q.
Arguments move E K A : clear implicits.
