(* ===== verification/ServerContext.v ===== *)
(** * The context of a downstream server

    The object of [src/src/mcp/core/ServerContext.ts] and its synchronous
    methods; [TokenRefresh] has the asynchronous ones.  The time of the last
    synchronisation, which nothing reads, is left out.  Row, connection and
    transport are references. *)
From Stdlib Require Import ZArith Lia.
From stdpp Require Import base gmap strings list.
From coqutil Require Import Datatypes.RecordSetters.
From S2P Require Import Prelude Json JsMap Access ServerTypes CapabilityDiff.
Open Scope Z_scope.

Notation "x <| f := v |>" := (apply_update (mk_update f (constant v)) x)
  (at level 8, left associativity, f constr at level 1, v constr at level 99) : peta_scope.

#[global] Arguments constant {E} newValue _ /.

Inductive DownstreamProtocolEra : Type := legacy | modern.

(** A client of the protocol library, or of the modern protocol. *)
Record DownstreamMcpClient : Type := { client : nat; protocolEra : DownstreamProtocolEra }.

(** What the code reads of a listed tool, and of a resource, template or
    prompt. *)
Record DownstreamTool : Type := {
  lt_name : string; lt_description : option string; lt_destructiveHint : option bool
}.
Record DownstreamItem : Type := { li_name : string; li_description : option string }.

Record TokenInfo : Type := { accessToken : string; expiresAt : Z }.

Record ServerContext : Type := {
  id : string;
  serverID : string;
  serverEntity : nat;
  status : ServerStatus;
  capabilities : option json;
  capabilitiesConfig : json;
  tools : option (list DownstreamTool);
  resources : option (list DownstreamItem);
  resourceTemplates : option (list DownstreamItem);
  prompts : option (list DownstreamItem);
  connection : option DownstreamMcpClient;
  transport : option nat;
  timeoutCount : Z;
  errorCount : Z;
  lastError : option string;
  userId : option string;
  userToken : option string;
  lastActive : Z;
  cachedTools : option json;
  cachedResources : option json;
  cachedResourceTemplates : option json;
  cachedPrompts : option json;
  authStrategy : option nat;
  tokenRefreshTimer : option nat;
  currentTokenInfo : option TokenInfo
}.

(** ** Construction *)

Definition no_capabilities : json := JObj [("tools", JObj []); ("resources", JObj []); ("prompts", JObj [])]%string.

(** [config.k ??= {}] *)
Definition default_kind (k : string) (kvs : list (string * json)) : list (string * json) :=
  match assoc k kvs with
  | None | Some JUndefined | Some JNull => obj_put k (JObj []) kvs
  | _ => kvs
  end.

(** Parsed configuration: what is no object stays, the defaults failing. *)
Definition initial_config (text : string) : json :=
  if str_eqb text "" then no_capabilities else
  match JSON_parse text with
  | None => no_capabilities
  | Some (JObj kvs) => JObj (default_kind "tools" (default_kind "resources" (default_kind "prompts" kvs)))
  | Some v => v
  end.

(** The cached lists of the row, in the order they are parsed; the first that
    does not parse ends the loading. *)
Definition load_cached (cached : list (option string)) : list (option json) :=
  (fix go ok cached :=
     match cached with
     | [] => []
     | c :: rest =>
         match c with
         | Some t =>
             if ok && truthy_str t
             then match JSON_parse t with Some v => Some v :: go true rest | None => None :: go false rest end
             else None :: go ok rest
         | None => None :: go ok rest
         end
     end) true cached.

(** [new ServerContext(serverEntity)]: [n] is the next id. *)
Definition new_context (n : nat) (now : Z) (entity : nat) (row : Server) : ServerContext :=
  let loaded := load_cached [row_cachedTools row; row_cachedResources row;
                             row_cachedResourceTemplates row; row_cachedPrompts row] in
  {| id := z_to_string (Z.of_nat n); serverID := serverId row; serverEntity := entity; status := Offline;
     capabilities := None; capabilitiesConfig := initial_config (configured_capabilities row);
     tools := None; resources := None; resourceTemplates := None; prompts := None;
     connection := None; transport := None; timeoutCount := 0; errorCount := 0; lastError := None;
     userId := None; userToken := None; lastActive := now;
     cachedTools := nth 0 loaded None; cachedResources := nth 1 loaded None;
     cachedResourceTemplates := nth 2 loaded None; cachedPrompts := nth 3 loaded None;
     authStrategy := None; tokenRefreshTimer := None; currentTokenInfo := None |}.

(** ** Updates *)

Definition updateCapabilities (newCaps : json) (c : ServerContext) : ServerContext := c <| capabilities := Some newCaps |>.

(** The configuration when it parses; the text goes to the row either way. *)
Definition updateCapabilitiesConfig (newCaps : string) (c : ServerContext) : ServerContext :=
  match JSON_parse newCaps with Some v => c <| capabilitiesConfig := v |> | None => c end.

Definition updateStatus (newStatus : ServerStatus) (c : ServerContext) : ServerContext := c <| status := newStatus |>.
Definition clearTimeout (c : ServerContext) : ServerContext := c <| timeoutCount := 0 |>.

Definition recordError (error : string) (c : ServerContext) : ServerContext :=
  c <| errorCount := errorCount c + 1 |> <| lastError := Some error |>.

Definition clearError (c : ServerContext) : ServerContext := c <| errorCount := 0 |> <| lastError := None |>.

Definition clearConnectionState (newStatus : option ServerStatus) (c : ServerContext) : ServerContext :=
  let c := match newStatus with Some s => c <| status := s |> | None => c end in
  c <| connection := None |> <| transport := None |>.

(** ** Queries *)

Definition or_nullish (v w : json) : json := match v with JUndefined | JNull => w | _ => v end.

Definition of_ostring (o : option string) : json := match o with Some s => JStr s | None => JUndefined end.

Record McpCapabilities : Type := {
  mc_enabled : bool; mc_serverName : string; mc_allowUserInput : bool; mc_authType : ServerAuthType;
  mc_category : ServerCategory; mc_configTemplate : string; mc_configured : bool;
  mc_tools : list (string * json); mc_resources : list (string * json); mc_prompts : list (string * json)
}.

Definition tool_danger (toolValue : json) (tool : DownstreamTool) : json :=
  if js_truthy (jfield_opt toolValue "dangerLevel") then jfield_opt toolValue "dangerLevel"
  else JNum (if bool_decide (lt_destructiveHint tool = Some true)
             then DangerLevel_Notification else DangerLevel_Silent).

Definition tool_entry (configured : json) (tool : DownstreamTool) : json :=
  let toolValue := jfield_opt configured (lt_name tool) in
  JObj [("enabled", or_nullish (jfield_opt toolValue "enabled") (JBool true));
        ("description", of_ostring (lt_description tool)); ("dangerLevel", tool_danger toolValue tool)]%string.

Definition item_entry (configured : json) (item : DownstreamItem) : json :=
  JObj [("enabled", or_nullish (jfield_opt (jfield_opt configured (li_name item)) "enabled") (JBool true));
        ("description", of_ostring (li_description item))]%string.

Definition assign_items (configured : json) (items : list DownstreamItem) (o : list (string * json)) : list (string * json) :=
  fold_left (fun o item => obj_assign (li_name item) (item_entry configured item) o) items o.

Definition tools_view (configured : json) (c : ServerContext) : list (string * json) :=
  match tools c with
  | Some l => fold_left (fun o t => obj_assign (lt_name t) (tool_entry configured t) o) l []
  | None => assign_all (spread configured)
  end.

Definition resources_view (configured : json) (c : ServerContext) : list (string * json) :=
  match resources c with
  | Some l => assign_items configured (default [] (resourceTemplates c)) (assign_items configured l [])
  | None => assign_all (spread configured)
  end.

Definition prompts_view (configured : json) (c : ServerContext) : list (string * json) :=
  match prompts c with Some l => assign_items configured l [] | None => assign_all (spread configured) end.

Definition getMcpCapabilities (row : Server) (c : ServerContext) : result exn McpCapabilities :=
  try! t := jget (capabilitiesConfig c) "tools" in
  try! r := jget (capabilitiesConfig c) "resources" in
  try! p := jget (capabilitiesConfig c) "prompts" in
  Ok {| mc_enabled := enabled row; mc_serverName := serverName row; mc_allowUserInput := allowUserInput row;
        mc_authType := authType row; mc_category := category row;
        mc_configTemplate := default ""%string (configTemplate row); mc_configured := true;
        mc_tools := tools_view (or_nullish t (JObj [])) c;
        mc_resources := resources_view (or_nullish r (JObj [])) c;
        mc_prompts := prompts_view (or_nullish p (JObj [])) c |}.

Definition getDangerLevel (toolName : string) (c : ServerContext) : result exn json :=
  try! t := jget (capabilitiesConfig c) "tools" in
  try! v := jget t toolName in Ok (jfield_opt v "dangerLevel").

Definition getToolDescription (toolName : string) (c : ServerContext) : result exn json :=
  match (tools c ≫= List.find (fun t => str_eqb (lt_name t) toolName)) ≫= lt_description with
  | Some d => Ok (JStr d)
  | None =>
      try! t := jget (capabilitiesConfig c) "tools" in
      try! v := jget t toolName in Ok (or_nullish (jfield_opt v "description") (JStr ""))
  end.

Definition isCapabilityChanged (newCapabilities : json) (c : ServerContext) : result exn Changes :=
  let changed kind :=
    try! old := jget (capabilitiesConfig c) kind in
    try! new := jget newCapabilities kind in
    isCapabilityListChanged old new in
  try! t := changed "tools"%string in
  try! r := changed "resources"%string in
  try! p := changed "prompts"%string in
  Ok {| toolsChanged := t; resourcesChanged := r; promptsChanged := p |}.

Definition getCurrentToken (c : ServerContext) : option string := accessToken <$> currentTokenInfo c.
Definition getTokenExpiresAt (c : ServerContext) : option Z := expiresAt <$> currentTokenInfo c.
