(* ===== verification/ServerWorld.v ===== *)
(** * The server manager's objects and what its methods wait for

    The state of [src/src/mcp/core/ServerManager.ts] with the objects its
    maps point to, and the calls its methods make: pieces of synchronous code
    on that state, synchronous questions to other components, and awaited
    calls.  Between two awaits a method runs alone ([Monitor]); after each the
    state may have been changed by any other. *)
From Stdlib Require Import ZArith Lia.
From stdpp Require Import base gmap sets strings list.
From coqutil Require Import Datatypes.RecordSetters.
From S2P Require Import Prelude Json JsMap Access Effects Monitor ServerTypes LaunchConfig CapabilityDiff ServerContext.
Open Scope Z_scope.

(** What the process is configured with. *)
Class Deployment : Type := {
  (** [process.env.LAZY_START_ENABLED !== 'false'] *)
  LAZY_START_ENABLED : bool;
  (** [process.env.PETA_CORE_IN_DOCKER === 'true'] *)
  PETA_CORE_IN_DOCKER : bool;
  (** [MODERN_MCP_CONFIG.downstreamEnabled] *)
  downstreamEnabled : bool;
  assertDockerRuntimeAvailable : string -> result exn unit;
  new_URL : string -> result exn string
}.

(** One resource of one server, and the sessions subscribed to it. *)
Record SubscriptionState : Type := {
  sub_serverId : string;
  sub_userId : option string;
  resourceUri : string;
  scopeId : string;
  subscribedSessions : list string;
  downstreamSubscribed : bool;
  downstreamSubscription : option nat
}.

(** The promise of a start, and of a subscription. *)
Inductive start_promise : Type := Starting (key : string) | Started (r : result exn nat).
Inductive sub_promise : Type := SubPending | SubSettled (r : result exn unit).

Record World : Type := {
  (* objects: rows, contexts, subscription states, promises, transports *)
  entities : gmap nat Server;
  contexts : gmap nat ServerContext;
  transports : gmap nat Transport;
  subscriptions : gmap nat SubscriptionState;
  promises : gmap nat start_promise;
  sub_promises : gmap nat sub_promise;
  next : nat;
  nextId : nat;
  (* the manager's fields *)
  serverContexts : list (string * nat);
  serverLoggers : gset string;
  temporaryServers : list (string * nat);
  temporaryServerLoggers : gset string;
  plannedTransportCloses : gset nat;
  resourceSubscriptions : list (string * nat);
  serverWaitQueues : gmap string nat;
  ownerToken : option string
}.

Definition initial_world : World := {|
  entities := ∅; contexts := ∅; transports := ∅; subscriptions := ∅; promises := ∅; sub_promises := ∅; next := 0; nextId := 1;
  serverContexts := []; serverLoggers := ∅; temporaryServers := []; temporaryServerLoggers := ∅;
  plannedTransportCloses := ∅; resourceSubscriptions := []; serverWaitQueues := ∅; ownerToken := None
|}.

(** What the manager reads of sessions and users. *)
Record SessionSlice : Type := { session_token : string; session_launchConfigs : json }.
Record UserRow : Type := { user_launchConfigs : option string; user_userPreferences : option string }.

Inductive MCPEventLogType : Type := ServerInit | ServerClose | ServerCapabilityUpdate.
Inductive CapabilityKind : Type := ToolKind | ResourceKind | PromptKind.
Inductive CachedLists : Type :=
| CachedToolList (l : list DownstreamTool) | CachedResourceList (l : list DownstreamItem)
| CachedTemplateList (l : list DownstreamItem) | CachedPromptList (l : list DownstreamItem).

(** Changes to a row of the table of servers. *)
Inductive ServerUpdate : Type :=
| SetTransportType (t : string) | SetServerName (n : string) | SetLaunchConfig (c : json)
| SetCapabilities (c : json) | SetCache (l : CachedLists) | Disable.

Inductive scall : Type -> Type :=
(* synchronous code on the shared state *)
| Do {X : Type} (f : World -> X * World) : scall X
(* synchronous questions and orders to other components *)
| Now : scall Z
| FirstSession (user : string) : scall (option SessionSlice)
| SyncLaunchConfigs (user : string) (launchConfigs : json) : scall unit
| FormatError (e : exn) : scall string
| PreferredMessage (finalError : option exn) : scall (option string)
| RunnerTrace : scall (string * option Z)
| GetServerCapabilities (c : DownstreamMcpClient) : scall (option json)
| GetServerVersionName (c : DownstreamMcpClient) : scall (option string)
| NewClient : scall nat
| NewStrategy (auth : ServerAuthType) (config : json) : scall (result exn nat)
| NewPetaStrategy (token : string) (config : json) : scall (result exn nat)
| RegisterHandlers (c : DownstreamMcpClient) (context : nat) : scall unit
| NotifyUsersOfServerChange (server : string) (changed : Changes) : scall unit
| Broadcast (k : CapabilityKind) (server : string) : scall unit
| OAuthConfig (strategy : nat) : scall (option json)
| MarkConfigAsPersisted (strategy : nat) : scall unit
| CleanupStrategy (strategy : nat) : scall unit
| SetTimer (context : nat) (delay : Z) : scall nat
| ClearTimer (timer : nat) : scall unit
| SendSubscribe (c : DownstreamMcpClient) (uri : string) (promise : nat) : scall unit
(* awaited *)
| Yield : scall unit
| Sleep (ms : Z) : scall unit
| AwaitStart (promise : nat) : scall (result exn nat)
| AwaitSubscription (promise : nat) : scall (result exn unit)
| FindServer (server : string) : scall (result exn (option Server))
| FindEnabled : scall (list Server)
| FindAllServers : scall (result exn (list Server))
| UpdateServer (server : string) (u : ServerUpdate) : scall (result exn Server)
| FindUser (user : string) : scall (result exn (option UserRow))
| UpdateLaunchConfigs (user : string) (c : json) : scall (result exn unit)
| UpdateUserPreferences (user : string) (p : json) : scall (result exn unit)
| SyncUserPreferences (user : string) : scall (result exn unit)
| Decrypt (data token : string) : scall (result exn string)
| Encrypt (data token : string) : scall (result exn json)
| GetInitialToken (strategy : nat) : scall (result exn TokenInfo)
| RefreshToken (strategy : nat) : scall (result exn TokenInfo)
| ResolveHostPath (mount : string) : scall (option string)
| ModernConnect (url : string) (headers : list (string * json)) (timeout : json) : scall (result exn DownstreamMcpClient)
| Connect (client transport : nat) (t : Transport) : scall (result exn unit)
| Ping (c : DownstreamMcpClient) (timeout : Z) : scall (result exn unit)
| CloseClient (c : DownstreamMcpClient) : scall (result exn unit)
| CloseTransport (transport : nat) : scall (result exn unit)
| TerminateSession (transport : nat) : scall (result exn unit)
| ListTools (c : DownstreamMcpClient) : scall (result exn (list DownstreamTool))
| ListResources (c : DownstreamMcpClient) : scall (result exn (list DownstreamItem))
| ListResourceTemplates (c : DownstreamMcpClient) : scall (result exn (list DownstreamItem))
| ListPrompts (c : DownstreamMcpClient) : scall (result exn (list DownstreamItem))
| SendTokenUpdate (c : DownstreamMcpClient) (transport : option nat) (token : string) : scall (result exn unit)
| UnsubscribeResource (c : DownstreamMcpClient) (uri : string) : scall (result exn unit)
| LogLifecycle (logger : string) (action : MCPEventLogType) : scall (result exn unit)
| InvalidateDiscovery (server : string) : scall (result exn unit).

(** Calls that return at once. *)
Definition atomic (X : Type) (e : scall X) : bool :=
  match e with
  | Do _ | Now | FirstSession _ | SyncLaunchConfigs _ _ | FormatError _ | PreferredMessage _ | RunnerTrace
  | GetServerCapabilities _ | GetServerVersionName _ | NewClient | NewStrategy _ _ | NewPetaStrategy _ _ | RegisterHandlers _ _
  | NotifyUsersOfServerChange _ _ | Broadcast _ _ | OAuthConfig _ | MarkConfigAsPersisted _ | CleanupStrategy _
  | SetTimer _ _ | ClearTimer _ | SendSubscribe _ _ _ => true
  | _ => false
  end.

(** Code on the state does what it says; a promise answers when it is
    settled, as it was; everything else may answer anything and leaves the
    state alone. *)
Definition answers (X : Type) (e : scall X) (w : World) : X -> World -> Prop :=
  match e in scall X return X -> World -> Prop with
  | Do f => fun x w' => f w = (x, w')
  | AwaitStart n => fun r w' => promises w !! n = Some (Started r) /\ w' = w
  | AwaitSubscription n => fun r w' => sub_promises w !! n = Some (SubSettled r) /\ w' = w
  | _ => fun _ w' => w' = w
  end.

Definition Async (A : Type) : Type := prog scall (result exn A).

(** ** Notation *)

Definition gets {X} (f : World -> X) : scall X := Do (fun w => (f w, w)).
Definition modify (f : World -> World) : scall unit := Do (fun w => (tt, f w)).

(** [const x = await c] for a call that may throw. *)
Notation "'ask!' x ':=' e 'in' k" :=
  (Vis _ e (fun r => match r with Ok x => k | Throw err => Ret (Throw err) end))
  (at level 10, x name, e at level 100, k at level 200) : peta_scope.

(** Awaiting an asynchronous method: its result, one turn later. *)
Definition awaited {A} (p : prog scall A) : prog scall A := pbind p (fun r => Vis _ Yield (fun _ => Ret r)).
Notation "'wait!' x ':=' p 'in' k" := (try_bind (awaited p) (fun x => k))
  (at level 10, x name, p at level 100, k at level 200) : peta_scope.
(** The same, caught: [x] is what it returned or threw. *)
Notation "'settled!' x ':=' p 'in' k" := (pbind (awaited p) (fun x => k))
  (at level 10, x name, p at level 100, k at level 200) : peta_scope.

Definition ok {A} (a : A) : Async A := Ret (Ok a).
Definition throw {A} (e : exn) : Async A := Ret (Throw e).
(** Code that computes or throws. *)
Definition lift {A} (r : result exn A) : Async A := Ret r.

(** ** Objects *)

Definition blank_server : Server := {|
  serverId := ""; serverName := ""; enabled := false; launchConfig := ""; configured_capabilities := "";
  allowUserInput := false; publicAccess := false; authType := ApiKey; category := Template; configTemplate := None;
  transportType := None; lazyStartEnabled := false; usePetaOauthConfig := false; proxyId := 0;
  row_cachedTools := None; row_cachedResources := None; row_cachedResourceTemplates := None; row_cachedPrompts := None
|}.

(** A reference always points to an object. *)
Definition entity_at (w : World) (e : nat) : Server := default blank_server (entities w !! e).
Definition context_at (w : World) (c : nat) : ServerContext :=
  default (new_context 0 0 0 blank_server) (contexts w !! c).
Definition row_of_context (w : World) (c : nat) : Server := entity_at w (serverEntity (context_at w c)).
Definition blank_subscription : SubscriptionState := {|
  sub_serverId := ""; sub_userId := None; resourceUri := ""; scopeId := ""; subscribedSessions := [];
  downstreamSubscribed := false; downstreamSubscription := None
|}.
Definition subscription_at (w : World) (s : nat) : SubscriptionState := default blank_subscription (subscriptions w !! s).

Definition upd_context (c : nat) (f : ServerContext -> ServerContext) (w : World) : World :=
  w <| contexts := <[c := f (context_at w c)]> (contexts w) |>.
Definition upd_entity (e : nat) (f : Server -> Server) (w : World) : World :=
  w <| entities := <[e := f (entity_at w e)]> (entities w) |>.
Definition upd_subscription (s : nat) (f : SubscriptionState -> SubscriptionState) (w : World) : World :=
  w <| subscriptions := <[s := f (subscription_at w s)]> (subscriptions w) |>.

(** A row as the database returns it is a new object. *)
Definition alloc_entity (row : Server) (w : World) : nat * World :=
  (next w, w <| entities := <[next w := row]> (entities w) |> <| next := S (next w) |>).

Definition alloc_context (now : Z) (entity : nat) (w : World) : nat * World :=
  (next w, w <| contexts := <[next w := new_context (nextId w) now entity (entity_at w entity)]> (contexts w) |>
             <| next := S (next w) |> <| nextId := S (nextId w) |>).

Definition alloc_transport (t : Transport) (w : World) : nat * World :=
  (next w, w <| transports := <[next w := t]> (transports w) |> <| next := S (next w) |>).

Definition fresh (w : World) : nat * World := (next w, w <| next := S (next w) |>).

Definition on_context (c : nat) (f : ServerContext -> ServerContext) : scall unit := modify (upd_context c f).

Section Deployed.
Context {D : Deployment}.

Definition isLazyStartApplicable (server : Server) : bool := LAZY_START_ENABLED && lazyStartEnabled server.

Definition temporary_key (serverId userId : string) : string := serverId +:+ ":" +:+ userId.

Definition getTemporaryServer (serverId userId : string) (w : World) : option nat :=
  assoc (temporary_key serverId userId) (temporaryServers w).

Definition getServerContext (serverID : string) (userId : option string) (w : World) : option nat :=
  match assoc serverID (serverContexts w) with
  | Some c => Some c
  | None => match userId with
            | Some u => if truthy_str u then getTemporaryServer serverID u w else None
            | None => None
            end
  end.

Definition ensureServerLogger (serverId : string) (w : World) : World :=
  w <| serverLoggers := {[ serverId ]} ∪ serverLoggers w |>.
Definition ensureTemporaryServerLogger (key : string) (w : World) : World :=
  w <| temporaryServerLoggers := {[ key ]} ∪ temporaryServerLoggers w |>.

(** [if (status !== undefined && !context.connection) context.status = status] *)
Definition initial_status (s : option ServerStatus) (c : ServerContext) : ServerContext :=
  match s, connection c with Some s, None => c <| status := s |> | _, _ => c end.

Definition initializeManagedServerContext (now : Z) (entity : nat) (s : option ServerStatus) (w : World) : nat * World :=
  let sid := serverId (entity_at w entity) in
  let '(c, w) := match assoc sid (serverContexts w) with
                 | Some c => (c, upd_context c (fun x => x <| serverEntity := entity |>) w)
                 | None => let '(c, w) := alloc_context now entity w in
                           (c, w <| serverContexts := map_set sid c (serverContexts w) |>)
                 end in
  let w := ensureServerLogger sid w in
  (c, upd_context c (initial_status s) w).

Definition initializeTemporaryServerContext (now : Z) (entity : nat) (user : string) (token : option string)
    (s : option ServerStatus) (w : World) : nat * World :=
  let key := temporary_key (serverId (entity_at w entity)) user in
  let '(c, w) := match assoc key (temporaryServers w) with
                 | Some c => (c, upd_context c (fun x => x <| serverEntity := entity |>) w)
                 | None => let '(c, w) := alloc_context now entity w in
                           (c, w <| temporaryServers := map_set key c (temporaryServers w) |>)
                 end in
  let w := upd_context c (fun x => x <| userId := Some user |>) w in
  let w := if truthy_ostr token then upd_context c (fun x => x <| userToken := token |>) w else w in
  let w := ensureTemporaryServerLogger key w in
  (c, upd_context c (initial_status s) w).

Definition markTransportCloseAsPlanned (c : nat) (w : World) : World :=
  match transport (context_at w c) with
  | Some t => w <| plannedTransportCloses := {[ t ]} ∪ plannedTransportCloses w |>
  | None => w
  end.

Definition getOwnerToken (w : World) : result exn string :=
  match ownerToken w with
  | Some t => if truthy_str t then Ok t else
      Throw (McpError InvalidParams "Owner token not available. Please ensure Owner has accessed the API at least once.")
  | None =>
      Throw (McpError InvalidParams "Owner token not available. Please ensure Owner has accessed the API at least once.")
  end.

Definition setOwnerToken (token : string) (w : World) : World := w <| ownerToken := Some token |>.
End Deployed.

(** ** Reading updated objects *)

Lemma contexts_upd_context c f w : contexts (upd_context c f w) = <[c := f (context_at w c)]> (contexts w).
Proof. reflexivity. Qed.

Lemma context_at_upd c c' f w :
  context_at (upd_context c f w) c' = if (c' =? c)%nat then f (context_at w c) else context_at w c'.
Proof.
  unfold context_at at 1. rewrite contexts_upd_context. destruct (Nat.eqb_spec c' c) as [->|Hc].
  - by rewrite lookup_insert_eq.
  - by rewrite lookup_insert_ne.
Qed.

Lemma context_at_same c f w : context_at (upd_context c f w) c = f (context_at w c).
Proof. by rewrite context_at_upd, Nat.eqb_refl. Qed.
