(* ===== verification/TokenRefresh.v ===== *)
(** * Tokens and disconnection

    The asynchronous methods of [src/src/mcp/core/ServerContext.ts] that keep
    a server's access token fresh, the methods of [ServerManager.ts] that
    persist it and that close connections, and the removal of a user's server
    from [src/src/user/UserRequestHandler.ts] that an invalid token leads to.
    Log lines are left out; an awaited import is a turn. *)
From Stdlib Require Import ZArith Lia.
From stdpp Require Import base gmap sets strings list.
From coqutil Require Import Datatypes.RecordSetters.
From S2P Require Import Prelude Json JsMap Access Effects Monitor ServerTypes LaunchConfig CapabilityDiff ServerContext ServerWorld.
Open Scope Z_scope.

Definition opt_truthy {A} (o : option A) : bool := match o with Some _ => true | None => false end.

(** [JSON.stringify(v)] of a value that has a text. *)
Definition json_text (v : json) : string := default "undefined"%string (JSON_stringify v).

(** [launchConfig.oauth = { ...launchConfig.oauth, ...oauthConfig }] *)
Definition merge_oauth (config oauthConfig : json) : result exn json :=
  try! oauth := jget config "oauth" in
  jset config "oauth" (extend oauth (spread oauthConfig)).

(** ** Persisting a token configuration ([ServerManager]) *)

(** [try { ... } catch (error) { log }] *)
Definition logged {A} (p : Async A) : prog scall unit := bind! _ := p in Ret tt.

Definition save_server_config (c : nat) (oauthConfig : json) : Async unit :=
  call! x := gets (fun w => context_at w c) in
  call! entity := gets (fun w => row_of_context w c) in
  call! owner := gets ownerToken in
  match (match userToken x with Some t => Some t | None => owner end) with
  | None => ok tt
  | Some token =>
      if negb (truthy_str token) then ok tt else
      ask! text := Decrypt (launchConfig entity) token in
      await! config := lift (JSON_parse_exn text) in
      await! config := lift (merge_oauth config oauthConfig) in
      ask! encrypted := Encrypt (json_text config) token in
      ask! updatedServer := UpdateServer (serverID x) (SetLaunchConfig encrypted) in
      call! e := Do (alloc_entity updatedServer) in
      on_context c (fun x => x <| serverEntity := e |>) !;
      ok tt
  end.

Definition updateServerLaunchConfig (c : nat) (oauthConfig : json) : prog scall unit :=
  logged (save_server_config c oauthConfig).

Definition or_braces (o : option string) : string := if truthy_ostr o then default ""%string o else "{}".

Definition save_user_config (c : nat) (oauthConfig : json) : Async unit :=
  call! x := gets (fun w => context_at w c) in
  if negb (truthy_ostr (userId x) && truthy_ostr (userToken x)) then ok tt else
  let user := default ""%string (userId x) in
  let token := default ""%string (userToken x) in
  ask! found := FindUser user in
  match found with
  | None => ok tt
  | Some row =>
      await! launchConfigs := lift (JSON_parse_exn (or_braces (user_launchConfigs row))) in
      await! encryptedConfig := lift (jget launchConfigs (serverID x)) in
      if negb (js_truthy encryptedConfig) then ok tt else
      ask! text := Decrypt (json_text encryptedConfig) token in
      await! config := lift (JSON_parse_exn text) in
      await! config := lift (merge_oauth config oauthConfig) in
      ask! encrypted := Encrypt (json_text config) token in
      await! launchConfigs := lift (jset launchConfigs (serverID x) encrypted) in
      ask! _ := UpdateLaunchConfigs user launchConfigs in
      SyncLaunchConfigs user launchConfigs !;
      ok tt
  end.

Definition updateUserLaunchConfig (c : nat) (oauthConfig : json) : prog scall unit :=
  logged (save_user_config c oauthConfig).

(** [updateRefreshTokenToDatabase] *)
Definition updateRefreshTokenToDatabase (c : nat) (oauthConfig : json) : prog scall unit :=
  call! x := gets (fun w => context_at w c) in
  call! entity := gets (fun w => row_of_context w c) in
  if usePetaOauthConfig entity then Ret tt
  else if negb (truthy_ostr (userId x)) && negb (truthy_ostr (userToken x)) then Ret tt
  else
    Yield !;
    call! user := gets (fun w => userId (context_at w c)) in
    settled! _ := (if truthy_ostr user then updateUserLaunchConfig c oauthConfig
                   else updateServerLaunchConfig c oauthConfig) in
    call! strategy := gets (fun w => authStrategy (context_at w c)) in
    match strategy with
    | Some st => MarkConfigAsPersisted st !; Ret tt
    | None => Ret tt
    end.

(** ** The refresh timer *)

Definition REFRESH_BUFFER : Z := 5 * 60 * 1000.
Definition MAX_TIMEOUT_MS : Z := 2147000000.

Definition refresh_delay (expiry now : Z) : Z :=
  let refreshDelay := Z.max (expiry - now - REFRESH_BUFFER) 10000 in
  if MAX_TIMEOUT_MS <? refreshDelay then MAX_TIMEOUT_MS else refreshDelay.

Definition clear_timer (c : nat) (k : prog scall unit) : prog scall unit :=
  call! timer := gets (fun w => tokenRefreshTimer (context_at w c)) in
  match timer with Some t => ClearTimer t !; k | None => k end.

Definition start_timer (c : nat) (delay : Z) : prog scall unit :=
  call! t := SetTimer c delay in
  on_context c (fun x => x <| tokenRefreshTimer := Some t |>) !;
  Ret tt.

Definition scheduleNextRefresh (c : nat) : prog scall unit :=
  call! info := gets (fun w => currentTokenInfo (context_at w c)) in
  match info with
  | None => Ret tt
  | Some info =>
      clear_timer c (
        call! now := Now in
        start_timer c (refresh_delay (expiresAt info) now))
  end.

Definition stopTokenRefresh (c : nat) : prog scall unit :=
  clear_timer c (
    on_context c (fun x => x <| tokenRefreshTimer := None |>) !;
    call! strategy := gets (fun w => authStrategy (context_at w c)) in
    let finish := on_context c (fun x => x <| authStrategy := None |> <| currentTokenInfo := None |>) !; Ret tt in
    match strategy with Some st => CleanupStrategy st !; finish | None => finish end).

(** Persisting what the strategy says has to be; the strategy is read again,
    since it may be gone by now. *)
Definition persist_config (c : nat) (k : Async unit) : Async unit :=
  call! strategy := gets (fun w => authStrategy (context_at w c)) in
  match strategy with
  | None => throw TypeError
  | Some st =>
      call! oauthConfig := OAuthConfig st in
      match oauthConfig with
      | Some config =>
          settled! _ := updateRefreshTokenToDatabase c config in k
      | None => k
      end
  end.

(** [startTokenRefresh] *)
Definition startTokenRefresh (c st : nat) : Async string :=
  on_context c (fun x => x <| authStrategy := Some st |>) !;
  ask! info := GetInitialToken st in
  on_context c (fun x => x <| currentTokenInfo := Some info |>) !;
  await! _ := persist_config c (ok tt) in
  bind! _ := scheduleNextRefresh c in
  call! info := gets (fun w => currentTokenInfo (context_at w c)) in
  match info with Some info => ok (accessToken info) | None => throw TypeError end.

Definition notifyTokenUpdate (c : nat) (newToken : string) : prog scall unit :=
  call! x := gets (fun w => context_at w c) in
  match connection x with
  | None => Ret tt
  | Some conn =>
      match protocolEra conn, transport x with
      | modern, _ => SendTokenUpdate conn None newToken !; Ret tt
      | legacy, None => Ret tt
      | legacy, Some t => SendTokenUpdate conn (Some t) newToken !; Ret tt
      end
  end.

(** ** Closing connections *)

Definition is_http (w : World) (t : nat) : bool :=
  match transports w !! t with Some (StreamableHTTPClientTransport _ _) => true | _ => false end.

Definition clear_connection (c : nat) (s : option ServerStatus) : scall unit := on_context c (clearConnectionState s).

Definition closeConnection (c : nat) (s : ServerStatus) : Async unit :=
  on_context c (updateStatus s) !;
  call! x := gets (fun w => context_at w c) in
  match connection x with
  | None => on_context c (fun x => x <| transport := None |>) !; ok tt
  | Some conn =>
      call! http := gets (fun w => match transport x with Some t => is_http w t | None => false end) in
      bind! r := (if http
                  then ask! _ := TerminateSession (default 0%nat (transport x)) in
                       ask! _ := CloseClient conn in ok tt
                  else ask! _ := CloseClient conn in ok tt) in
      clear_connection c (Some s) !;
      lift r
  end.

(** Subscriptions of a closed connection have to be made again. *)
Definition forget_subscription (st : SubscriptionState) : SubscriptionState :=
  st <| downstreamSubscribed := false |> <| downstreamSubscription := None |>.

Definition reset_subscriptions (c : nat) (w : World) : World :=
  fold_left (fun w ks => if str_eqb (scopeId (subscription_at w (snd ks))) (id (context_at w c))
                         then upd_subscription (snd ks) forget_subscription w else w)
    (resourceSubscriptions w) w.

Definition disconnectServerContext (c : nat) (s : ServerStatus) : prog scall unit :=
  bind! _ := stopTokenRefresh c in
  modify (markTransportCloseAsPlanned c) !;
  settled! _ := closeConnection c s in
  modify (reset_subscriptions c) !;
  Ret tt.

Definition log_close (has_logger : bool) (key : string) (k : Async (option nat)) : Async (option nat) :=
  if has_logger then ask! _ := LogLifecycle key ServerClose in k else k.

Definition removeServer (serverID : string) : Async (option nat) :=
  call! found := gets (fun w => assoc serverID (serverContexts w)) in
  match found with
  | None => ok None
  | Some c =>
      call! logger := gets (fun w => bool_decide (serverID ∈ serverLoggers w)) in
      log_close logger serverID (
        settled! _ := disconnectServerContext c Offline in
        modify (fun w => w <| serverContexts := map_delete serverID (serverContexts w) |>
                           <| serverLoggers := serverLoggers w ∖ {[ serverID ]} |>) !;
        ok (Some c))
  end.

(** The entry of one temporary server, closed and forgotten. *)
Definition close_temporary (key : string) : Async (option nat) :=
  call! found := gets (fun w => assoc key (temporaryServers w)) in
  match found with
  | None => ok None
  | Some c =>
      call! logger := gets (fun w => bool_decide (key ∈ temporaryServerLoggers w)) in
      log_close logger key (
        settled! _ := disconnectServerContext c Offline in
        modify (fun w => w <| temporaryServers := map_delete key (temporaryServers w) |>
                           <| temporaryServerLoggers := temporaryServerLoggers w ∖ {[ key ]} |>) !;
        ok (Some c))
  end.

Definition closeTemporaryServer (serverId userId : string) : Async (option nat) :=
  close_temporary (temporary_key serverId userId).

(** ** An invalid token *)

(** [UserRequestHandler.handleUnconfigureServer] *)
Definition handleUnconfigureServer (user server : string) : Async unit :=
  Yield !;
  Yield !;
  ask! found := FindUser user in
  match found with
  | None => throw (Error ("User " +:+ user +:+ " not found"))
  | Some row =>
      await! launchConfigs := lift (JSON_parse_exn (or_braces (user_launchConfigs row))) in
      await! config := lift (jget launchConfigs server) in
      if negb (js_truthy config) then ok tt else
      settled! _ := closeTemporaryServer server user in
      await! launchConfigs := lift (jdelete launchConfigs server) in
      ask! _ := UpdateLaunchConfigs user launchConfigs in
      await! userPreferences := lift (JSON_parse_exn (or_braces (user_userPreferences row))) in
      await! preference := lift (jget userPreferences server) in
      let finish := (
        NotifyUsersOfServerChange server nothing_changed !;
        Yield !;
        ask! _ := SyncUserPreferences user in
        ok tt) in
      if js_truthy preference
      then await! userPreferences := lift (jdelete userPreferences server) in
           ask! _ := UpdateUserPreferences user userPreferences in finish
      else finish
  end.

Definition clearedOAuthConfig : json :=
  JObj [("accessToken", JUndefined); ("refreshToken", JUndefined); ("expiresAt", JUndefined);
        ("intercomRegion", JUndefined)]%string.

Definition clearIntercomOAuthState (c : nat) : prog scall unit :=
  call! x := gets (fun w => context_at w c) in
  awaited (if truthy_ostr (userId x) then updateUserLaunchConfig c clearedOAuthConfig
           else updateServerLaunchConfig c clearedOAuthConfig).

Definition handleInvalidIntercomToken (c : nat) : Async unit :=
  call! x := gets (fun w => context_at w c) in
  call! entity := gets (fun w => row_of_context w c) in
  if allowUserInput entity then
    if truthy_ostr (userId x) then
      settled! r := handleUnconfigureServer (default ""%string (userId x)) (serverID x) in
      match r with
      | Ok _ => ok tt
      | Throw _ =>
          settled! _ := clearIntercomOAuthState c in
          settled! _ := disconnectServerContext c Offline in
          ok tt
      end
    else ok tt
  else
    settled! _ := clearIntercomOAuthState c in
    ask! _ := UpdateServer (serverID x) Disable in
    wait! _ := removeServer (serverID x) in
    ok tt.

(** ** A refresh *)

Definition isAuthError (errorMessage : string) : bool :=
  includes "401" errorMessage || includes "400" errorMessage
  || includes "Unauthorized" errorMessage || includes "Bad Request" errorMessage.

Definition RETRY_DELAY : Z := 3 * 60 * 1000.

Definition refresh_attempt (c st : nat) : Async unit :=
  ask! info := RefreshToken st in
  on_context c (fun x => x <| currentTokenInfo := Some info |>) !;
  persist_config c (
    settled! _ := notifyTokenUpdate c (accessToken info) in
    bind! _ := scheduleNextRefresh c in
    ok tt).

(** [performTokenRefresh]; it throws only when handling an invalid token does. *)
Definition performTokenRefresh (c : nat) : Async unit :=
  call! strategy := gets (fun w => authStrategy (context_at w c)) in
  match strategy with
  | None => ok tt
  | Some st =>
      bind! r := refresh_attempt c st in
      match r with
      | Ok _ => ok tt
      | Throw e =>
          if bool_decide (class e = IntercomInvalidTokenErrorClass) then
            on_context c (fun x => x <| lastError := Some (message e) |>) !;
            wait! _ := handleInvalidIntercomToken c in
            ok tt
          else if isAuthError (message e) then
            on_context c (fun x => x <| lastError := Some (message e) |>) !;
            bind! _ := stopTokenRefresh c in
            ok tt
          else
            bind! _ := start_timer c RETRY_DELAY in
            ok tt
      end
  end.
