(* ===== verification/ServerStart.v ===== *)
(** * Starting a downstream server

    [createServerConnection] of [src/src/mcp/core/ServerManager.ts] with what
    it is made of: authentication, the modern and the legacy connection, the
    first reading of a server's capabilities, the handling of a closed
    transport.  Rows are objects: a start works on the row its context had
    when it began, also when the context is given another meanwhile.  Log
    lines and the client library's notification handlers (registered by
    [RegisterHandlers]) are left out. *)
From Stdlib Require Import ZArith Lia.
From stdpp Require Import base gmap sets strings list.
From coqutil Require Import Datatypes.RecordSetters.
From S2P Require Import Prelude Json JsMap Access Effects Monitor ServerTypes LaunchConfig CapabilityDiff ServerContext ServerWorld TokenRefresh.
Open Scope Z_scope.

Section Start.
Context {D : Deployment}.

(** The message of a failure, unless blank or already recorded. *)
Definition recordServerStartupError (primaryMessage preferredMessage : option string) (c : ServerContext) : ServerContext :=
  match (match preferredMessage with Some m => Some m | None => primaryMessage end) with
  | Some m => if str_eqb (trim m) "" then c
              else if bool_decide (lastError c = Some m) then c
              else recordError m c
  | None => c
  end.

(** Where a server goes when its connection fails. *)
Definition failed_status (row : Server) : ServerStatus :=
  if isLazyStartApplicable row then Sleeping else Access.Error.

(** ** Configuration *)

Definition decryptLaunchConfig (token : string) (entity : nat) : Async string :=
  call! row := gets (fun w => entity_at w entity) in
  call! r := Decrypt (launchConfig row) token in
  match r with
  | Ok text => ok text
  | Throw _ => throw {| class := AuthErrorClass;
                        message := "Failed to decrypt launch config for server " +:+ serverName row |}
  end.

Definition str_field (v : json) (k : string) : option string :=
  match jfield_opt v k with JStr s => if truthy_str s then Some s else None | _ => None end.

(** [initializeOAuthWithRefresh] *)
Definition oauth_config_error (auth : ServerAuthType) (serverID : string) (oauth : json) : option string :=
  if negb (js_truthy (jfield_opt oauth "clientId") && js_truthy (jfield_opt oauth "clientSecret")
           && js_truthy (jfield_opt oauth "refreshToken"))
  then Some ("[ServerManager] Missing OAuth configuration for server " +:+ serverID
             +:+ ". Required: clientId, clientSecret, refreshToken")
  else if bool_decide (auth = ZendeskAuth) && negb (opt_truthy (str_field oauth "tokenUrl"))
  then Some ("[ServerManager] Missing OAuth tokenUrl for server " +:+ serverID +:+ " (ZendeskAuth)")
  else if bool_decide (auth = PipedriveAuth) && negb (opt_truthy (str_field oauth "apiDomain"))
  then Some ("[ServerManager] Missing OAuth apiDomain for server " +:+ serverID +:+ " (PipedriveAuth)")
  else None.

(** Does [AuthStrategyFactory.create] know the type? *)
Definition has_strategy (auth : ServerAuthType) : bool :=
  match auth with ApiKey | CanvasAuth | OtherAuth _ => false | _ => true end.

(** [AuthStrategyFactory.create] *)
Definition create_strategy (auth : ServerAuthType) (oauth : json) : Async (option nat) :=
  if has_strategy auth then ask! st := NewStrategy auth oauth in ok (Some st) else ok None.

Definition token_into_env (auth : ServerAuthType) (config : json) (token : string) : result exn json :=
  try! config := injectOAuthTokenEnv auth config token in jdelete config "oauth".

Definition initializeOAuthWithRefresh (c : nat) (config : json) : Async json :=
  call! x := gets (fun w => context_at w c) in
  call! row := gets (fun w => row_of_context w c) in
  await! oauth := lift (jget config "oauth") in
  match oauth_config_error (authType row) (serverID x) oauth with
  | Some m => throw (Error m)
  | None =>
      await! strategy := create_strategy (authType row) oauth in
      match strategy with
      | None => throw (Error ("[ServerManager] Failed to create auth strategy for server " +:+ serverID x))
      | Some st =>
          settled! r := startTokenRefresh c st in
          match r with
          | Throw e =>
              if bool_decide (class e = IntercomInvalidTokenErrorClass)
              then wait! _ := handleInvalidIntercomToken c in throw e
              else throw e
          | Ok initialToken =>
              call! row := gets (fun w => row_of_context w c) in
              lift (token_into_env (authType row) config initialToken)
          end
      end
  end.

Definition initializePetaAuth (c : nat) (config : json) (token : string) : Async string :=
  call! x := gets (fun w => context_at w c) in
  await! oauth := lift (jget config "oauth") in
  if negb (js_truthy (jfield_opt oauth "clientId"))
  then throw (Error ("[ServerManager] Missing OAuth configuration for server " +:+ serverID x +:+ ". Required: clientId"))
  else ask! st := NewPetaStrategy token oauth in startTokenRefresh c st.

Definition initializeAuthentication (c : nat) (config : json) (token : string) : Async json :=
  call! row := gets (fun w => row_of_context w c) in
  if negb (bool_decide (category row = Template)) then ok config else
  let auth := authType row in
  if usePetaOauthConfig row && negb (bool_decide (auth = ApiKey)) then
    wait! initialToken := initializePetaAuth c config token in
    lift (token_into_env auth config initialToken)
  else if has_strategy auth then
    on_context c (fun x => x <| userToken := Some token |>) !;
    wait! config := initializeOAuthWithRefresh c config in ok config
  else ok config.

Definition resolveSkillsVolumeMounts (config : json) : Async json :=
  await! applies := lift (mounts_skills PETA_CORE_IN_DOCKER config) in
  if applies then
    call! hostSkillsDir := ResolveHostPath "/data/skills" in
    if truthy_ostr hostSkillsDir then lift (rewrite_skill_mounts (default ""%string hostSkillsDir) config) else ok config
  else ok config.

(** From the encrypted configuration to the one the transport is made from. *)
Definition prepare (c entity : nat) (token : string) : Async (json * option CustomStdioRunnerMetadata) :=
  wait! text := decryptLaunchConfig token entity in
  await! config := lift (JSON_parse_exn text) in
  wait! config := initializeAuthentication c config token in
  call! current := gets (fun w => row_of_context w c) in
  call! row := gets (fun w => entity_at w entity) in
  await! config := (match category current with
                    | RestApi => lift (rest_api_config row config)
                    | Skills => wait! config := resolveSkillsVolumeMounts config in ok config
                    | _ => ok config
                    end) in
  call! row := gets (fun w => entity_at w entity) in
  lift (resolveLaunchPlan PETA_CORE_IN_DOCKER assertDockerRuntimeAvailable row config).

(** ** Rows learn what the connection shows *)

Definition set_transportType (t : string) (s : Server) : Server := s <| transportType := Some t |>.
Definition set_serverName (n : string) (s : Server) : Server := s <| serverName := n |>.

Definition cache_transport_type (entity : nat) (t : string) (k : Async unit) : Async unit :=
  call! row := gets (fun w => entity_at w entity) in
  if bool_decide (transportType row = Some t) && truthy_str t then k else
  ask! _ := UpdateServer (serverId row) (SetTransportType t) in
  modify (upd_entity entity (set_transportType t)) !;
  k.

(** A custom server without a name takes the one it gives itself. *)
Definition adopt_name (entity : nat) (conn : DownstreamMcpClient) (k : Async unit) : Async unit :=
  call! row := gets (fun w => entity_at w entity) in
  if bool_decide (category row = CustomRemote) || bool_decide (category row = CustomStdio) then
    call! reported := GetServerVersionName conn in
    if truthy_ostr reported && str_eqb (trim (serverName row)) "" then
      let name := trim (default ""%string reported) +:+ (if allowUserInput row then " Personal" else "") in
      ask! _ := UpdateServer (serverId row) (SetServerName name) in
      modify (upd_entity entity (set_serverName name)) !;
      k
    else k
  else k.

Definition log_init (entity : nat) : Async unit :=
  call! row := gets (fun w => entity_at w entity) in
  call! logger := gets (fun w => bool_decide (serverId row ∈ serverLoggers w)) in
  if logger then ask! _ := LogLifecycle (serverId row) ServerInit in ok tt else ok tt.
End Start.

(** ** Capabilities *)

Section Capabilities.

(** The value [getMcpCapabilities] returns, as it is stored. *)
Definition mc_json (m : McpCapabilities) : json :=
  JObj [("enabled", JBool (mc_enabled m)); ("serverName", JStr (mc_serverName m));
        ("allowUserInput", JBool (mc_allowUserInput m)); ("authType", JNum (auth_number (mc_authType m)));
        ("category", JNum (category_number (mc_category m))); ("configTemplate", JStr (mc_configTemplate m));
        ("configured", JBool (mc_configured m)); ("tools", JObj (mc_tools m)); ("resources", JObj (mc_resources m));
        ("prompts", JObj (mc_prompts m))]%string.

Definition capabilities_json (m : McpCapabilities) : json :=
  JObj [("tools", JObj (mc_tools m)); ("resources", JObj (mc_resources m)); ("prompts", JObj (mc_prompts m))]%string.

(** [persistCapabilitiesCache]: a failure is logged. *)
Definition persistCapabilitiesCache (c : nat) (l : CachedLists) : prog scall unit :=
  call! x := gets (fun w => context_at w c) in
  Yield !;
  UpdateServer (serverID x) (SetCache l) !;
  Ret tt.

Definition updateTools (c : nat) (l : list DownstreamTool) : prog scall unit :=
  on_context c (fun x => x <| tools := Some l |>) !; awaited (persistCapabilitiesCache c (CachedToolList l)).
Definition updateResources (c : nat) (l : list DownstreamItem) : prog scall unit :=
  on_context c (fun x => x <| resources := Some l |>) !; awaited (persistCapabilitiesCache c (CachedResourceList l)).
Definition updateResourceTemplates (c : nat) (l : list DownstreamItem) : prog scall unit :=
  on_context c (fun x => x <| resourceTemplates := Some l |>) !; awaited (persistCapabilitiesCache c (CachedTemplateList l)).
Definition updatePrompts (c : nat) (l : list DownstreamItem) : prog scall unit :=
  on_context c (fun x => x <| prompts := Some l |>) !; awaited (persistCapabilitiesCache c (CachedPromptList l)).

(** The three lists, each failing on its own. *)
Definition load_tools (c : nat) (conn : DownstreamMcpClient) : Async unit :=
  ask! l := ListTools conn in
  settled! _ := updateTools c l in
  call! x := gets (fun w => context_at w c) in
  if bool_decide (userId x = None) then
    Yield !;
    call! row := gets (fun w => row_of_context w c) in
    InvalidateDiscovery (serverId row) !;
    ok tt
  else ok tt.

Definition load_resources (c : nat) (conn : DownstreamMcpClient) : Async unit :=
  ask! l := ListResources conn in
  settled! _ := updateResources c l in
  ask! t := ListResourceTemplates conn in
  settled! _ := updateResourceTemplates c t in
  ok tt.

Definition load_prompts (c : nat) (conn : DownstreamMcpClient) : Async unit :=
  ask! l := ListPrompts conn in
  settled! _ := updatePrompts c l in
  ok tt.

Definition no_keys (v : json) : bool := match keys (spread v) with [] => true | _ => false end.

(** The tool configuration of the row's template, if it has one. *)
Definition template_config (row : Server) : option json :=
  let text := trim (default ""%string (configTemplate row)) in
  if str_eqb text "" then None else
  match JSON_parse text with
  | Some template =>
      match jfield_opt template "toolDefaultConfig" with
      | JUndefined => None
      | JStr s => JSON_parse s
      | v => Some v
      end
  | None => None
  end.

Definition set_configured (text : string) (s : Server) : Server := s <| configured_capabilities := text |>.

Definition apply_template (c : nat) (w : World) : World :=
  match template_config (row_of_context w c) with
  | Some defaultConfig =>
      let text := json_text (JObj [("tools", defaultConfig); ("resources", JObj []); ("prompts", JObj [])]%string) in
      upd_context c (ServerContext.updateCapabilitiesConfig text)
        (upd_entity (serverEntity (context_at w c)) (set_configured text) w)
  | None => w
  end.

(** The user's own copy of the capabilities of a personal server. *)
Definition save_preferences (c : nat) (m : McpCapabilities) (k : Async unit) : Async unit :=
  call! x := gets (fun w => context_at w c) in
  call! row := gets (fun w => row_of_context w c) in
  if allowUserInput row && truthy_ostr (userId x) then
    let user := default ""%string (userId x) in
    ask! found := FindUser user in
    match found with
    | Some u =>
        await! userPreferences := lift (JSON_parse_exn (or_braces (user_userPreferences u))) in
        await! userPreferences := lift (jset userPreferences (serverID x) (mc_json m)) in
        ask! _ := UpdateUserPreferences user userPreferences in k
    | None => k
    end
  else k.

(** A server seen for the first time: what it offers becomes its
    configuration. *)
Definition first_configuration (c : nat) : Async unit :=
  modify (apply_template c) !;
  call! m := gets (fun w => getMcpCapabilities (row_of_context w c) (context_at w c)) in
  await! m := lift m in
  save_preferences c m (
    call! x := gets (fun w => context_at w c) in
    ask! _ := UpdateServer (serverID x) (SetCapabilities (capabilities_json m)) in
    ok tt).

Definition has_kind (caps : json) (kind : string) : bool := js_truthy (jfield_opt caps kind).

Definition read_capabilities (c : nat) (conn : DownstreamMcpClient) (caps : json) : Async unit :=
  on_context c (updateCapabilities caps) !;
  call! x := gets (fun w => context_at w c) in
  await! t := lift (jget (capabilitiesConfig x) "tools") in
  await! r := lift (jget (capabilitiesConfig x) "resources") in
  await! p := lift (jget (capabilitiesConfig x) "prompts") in
  let empty := no_keys t && no_keys r && no_keys p in
  RegisterHandlers conn c !;
  bind! _ := load_tools c conn in
  bind! _ := (if has_kind caps "resources" then load_resources c conn else ok tt) in
  bind! _ := (if has_kind caps "prompts" then load_prompts c conn else ok tt) in
  if empty then first_configuration c else ok tt.

(** A subscription request to the server; its promise is the state's until it
    is answered. *)
Definition new_subscription (s : nat) (w : World) : nat * World :=
  let n := next w in
  (n, upd_subscription s (fun st => st <| downstreamSubscription := Some n |>)
        (w <| sub_promises := <[n := SubPending]> (sub_promises w) |> <| next := S n |>)).

Definition request_subscription (s : nat) (conn : DownstreamMcpClient) (uri : string) (k : Async unit) : Async unit :=
  call! n := Do (new_subscription s) in
  SendSubscribe conn uri n !;
  ask! _ := AwaitSubscription n in k.

(** The answer of the server: the state learns it if it still waits for it. *)
Definition subscription_answered (s n : nat) (r : result exn unit) : prog scall unit :=
  let mine st := bool_decide (downstreamSubscription st = Some n) in
  modify (upd_subscription s (fun st => if mine st && is_ok r then st <| downstreamSubscribed := true |> else st)) !;
  Yield !;
  modify (fun w => upd_subscription s (fun st => if mine st then st <| downstreamSubscription := None |> else st)
                     (w <| sub_promises := <[n := SubSettled r]> (sub_promises w) |>)) !;
  Ret tt.

Definition to_restore (c : nat) (w : World) (s : nat) : bool :=
  let st := subscription_at w s in
  str_eqb (scopeId st) (id (context_at w c)) && negb (bool_decide (subscribedSessions st = []))
  && negb (downstreamSubscribed st) && bool_decide (downstreamSubscription st = None).

(** The states present when the loop starts; a state added meanwhile makes
    its own request. *)
Fixpoint restore_each (c : nat) (conn : DownstreamMcpClient) (keys : list (string * nat)) : Async unit :=
  match keys with
  | [] => ok tt
  | (key, s) :: rest =>
      call! due := gets (fun w => bool_decide (assoc key (resourceSubscriptions w) = Some s) && to_restore c w s) in
      if due then
        call! uri := gets (fun w => resourceUri (subscription_at w s)) in
        request_subscription s conn uri (restore_each c conn rest)
      else restore_each c conn rest
  end.

Definition restoreResourceSubscriptions (c : nat) (conn : DownstreamMcpClient) : Async unit :=
  call! l := gets resourceSubscriptions in restore_each c conn l.

(** [updateServerCapabilities] *)
Definition updateServerCapabilities (c : nat) : Async unit :=
  call! x := gets (fun w => context_at w c) in
  match connection x with
  | None => ok tt
  | Some conn =>
      call! caps := GetServerCapabilities conn in
      bind! _ := (match caps with Some caps => read_capabilities c conn caps | None => ok tt end) in
      if json_eqb (jfield_opt (jfield_opt (default JUndefined caps) "resources") "subscribe") (JBool true)
      then wait! _ := restoreResourceSubscriptions c conn in ok tt
      else ok tt
  end.
End Capabilities.

(** ** Connections *)

Section Connections.
Context {D : Deployment}.

Definition notify_change (preserve : bool) (x : ServerContext) : Changes :=
  let some {A} (l : option (list A)) := negb preserve && negb (length (default [] l) =? 0)%nat in
  {| toolsChanged := some (tools x); resourcesChanged := some (resources x); promptsChanged := some (prompts x) |}.

(** The [onclose] handler of a transport, attached with the context, row and
    runner it was made for; [during_startup] is whether its start was still
    going on. *)
Definition transport_closed (c entity t : nat) (runner : option CustomStdioRunnerMetadata) (during_startup : bool)
    : prog scall unit :=
  call! planned := gets (fun w => bool_decide (t ∈ plannedTransportCloses w)) in
  if planned then modify (fun w => w <| plannedTransportCloses := plannedTransportCloses w ∖ {[ t ]} |>) !; Ret tt else
  call! x := gets (fun w => context_at w c) in
  if match transport x with Some t' => negb (t' =? t)%nat | None => false end then Ret tt else
  call! row := gets (fun w => entity_at w entity) in
  call! trace := RunnerTrace in
  call! diagnosed := PreferredMessage None in
  let failure := match runner with
                 | Some r => failure_message <$> buildFailureDetails (serverId row) r trace.1 trace.2 ""
                 | None => None
                 end in
  let preferred := match failure with Some m => Some m | None => if during_startup then diagnosed else None end in
  on_context c (recordServerStartupError (Some (default "Transport closed by server"%string failure)) preferred) !;
  let shouldPreserveContext := isLazyStartApplicable row && enabled row in
  bind! _ := stopTokenRefresh c in
  clear_connection c (Some (if shouldPreserveContext then Sleeping else Access.Error)) !;
  call! x := gets (fun w => context_at w c) in
  NotifyUsersOfServerChange (serverId row) (notify_change shouldPreserveContext x) !;
  Ret tt.

Definition isModernProtocolError (e : exn) : bool :=
  match class e with McpErrorClass code => bool_decide (code ∈ [-32020; -32021; -32022]) | _ => false end.

Definition modern_headers (config : json) (x : ServerContext) : list (string * json) :=
  let headers := spread (jfield_opt config "headers") in
  match getCurrentToken x with
  | Some t => if truthy_str t then obj_put "Authorization" (JStr ("Bearer " +:+ t)) headers else headers
  | None => headers
  end.

Definition createModernHttpServerConnection (c : nat) (config : json) : Async unit :=
  call! x := gets (fun w => context_at w c) in
  let entity := serverEntity x in
  await! url := lift (URL_from new_URL (jfield_opt config "url")) in
  ask! conn := ModernConnect url (modern_headers config x) (jfield_opt config "timeout") in
  cache_transport_type entity "http" (
  adopt_name entity conn (
    on_context c (fun x => x <| connection := Some conn |> <| transport := None |>) !;
    RegisterHandlers conn c !;
    wait! _ := updateServerCapabilities c in
    on_context c (updateStatus Online) !;
    on_context c clearError !;
    on_context c clearTimeout !;
    log_init entity)).

(** What a failed start throws, and the runner's explanation if it has one. *)
Record start_failure : Type := { cause : exn; runnerStartupFailureMessage : option string }.

Definition plainly {A} (p : Async A) : prog scall (result start_failure A) :=
  bind! r := p in
  Ret (match r with Ok a => Ok a | Throw e => Throw {| cause := e; runnerStartupFailureMessage := None |} end).

(** The second attempt, over server-sent events. *)
Definition sse_fallback (config : json) (t : nat) : Async unit :=
  modify (fun w => w <| plannedTransportCloses := {[ t ]} ∪ plannedTransportCloses w |>) !;
  CloseTransport t !;
  await! fallback := lift (createSSEFallbackTransport new_URL config) in
  call! client := NewClient in
  call! t := Do (alloc_transport fallback) in
  call! r := Connect client t fallback in
  match r with
  | Ok _ => ok tt
  | Throw e =>
      call! formatted := FormatError e in
      throw (Error ("Streamable HTTP connection failed and SSE fallback also failed: " +:+ formatted))
  end.

(** After a failed [connect]: the fallback or the runner's explanation, and
    then the original error. *)
Definition connect_failed (config : json) (runner : option CustomStdioRunnerMetadata) (entity t : nat)
    (transportType : string) (e : exn) : prog scall (result start_failure unit) :=
  if canFallbackHttpToSse config (JStr transportType) then
    await! _ := plainly (sse_fallback config t) in
    Ret (Throw {| cause := e; runnerStartupFailureMessage := None |})
  else
    match runner with
    | Some meta =>
        call! row := gets (fun w => entity_at w entity) in
        call! trace := RunnerTrace in
        match buildFailureDetails (serverId row) meta trace.1 trace.2 (message e) with
        | Some f => Ret (Throw {| cause := Error (failure_message f); runnerStartupFailureMessage := Some (failure_message f) |})
        | None => Ret (Throw {| cause := e; runnerStartupFailureMessage := None |})
        end
    | None => Ret (Throw {| cause := e; runnerStartupFailureMessage := None |})
    end.

(** What follows an established connection. *)
Definition connected (c entity client t : nat) (transportType : string) : Async unit :=
  let conn := {| client := client; protocolEra := legacy |} in
  cache_transport_type entity transportType (
  adopt_name entity conn (
    RegisterHandlers conn c !;
    ask! _ := Ping conn 5000 in
    on_context c (fun x => x <| status := Online |> <| connection := Some conn |> <| transport := Some t |>) !;
    wait! _ := updateServerCapabilities c in
    on_context c clearError !;
    on_context c clearTimeout !;
    log_init entity)).

Definition legacy_connection (c entity : nat) (config : json) (runner : option CustomStdioRunnerMetadata)
    : prog scall (result start_failure unit) :=
  await! made := plainly (awaited (lift (create new_URL config))) in
  call! client := NewClient in
  call! t := Do (alloc_transport made.1) in
  call! r := Connect client t made.1 in
  match r with
  | Ok _ => plainly (connected c entity client t made.2)
  | Throw e => connect_failed config runner entity t made.2 e
  end.

Definition start_body (c entity : nat) (token : string) : prog scall (result start_failure unit) :=
  on_context c (updateStatus Connecting) !;
  on_context c (fun x => x <| userToken := Some token |>) !;
  await! plan := plainly (prepare c entity token) in
  let config := plan.1 in
  await! type := plainly (lift (detectTransportType config)) in
  await! preference := plainly (lift (resolveDownstreamProtocolPreference config)) in
  let http := json_eqb type (JStr "http") in
  let wants_modern := bool_decide (preference = PrefModern) in
  if wants_modern && negb http
  then plainly (throw (Error "launchConfig.mcpProtocol=modern is only supported for HTTP downstream servers"))
  else if http && negb (bool_decide (preference = PrefLegacy)) && downstreamEnabled then
    settled! r := createModernHttpServerConnection c config in
    match r with
    | Ok _ => Ret (Ok tt)
    | Throw e =>
        if wants_modern || isModernProtocolError e then plainly (throw e)
        else legacy_connection c entity config plan.2
    end
  else if wants_modern && negb downstreamEnabled
  then plainly (throw (Error "launchConfig.mcpProtocol=modern requires MCP_2026_DOWNSTREAM_ENABLED=true"))
  else legacy_connection c entity config plan.2.

Definition start_failed (c entity : nat) (f : start_failure) : Async unit :=
  call! formattedError := FormatError (cause f) in
  call! diagnosed := PreferredMessage (Some (cause f)) in
  let preferred := default (default formattedError diagnosed) (runnerStartupFailureMessage f) in
  let errorToThrow := if str_eqb (message (cause f)) preferred then cause f else Error preferred in
  bind! _ := stopTokenRefresh c in
  call! row := gets (fun w => entity_at w entity) in
  clear_connection c (Some (failed_status row)) !;
  on_context c (recordServerStartupError (Some preferred) None) !;
  throw errorToThrow.

Definition createServerConnection (c : nat) (token : string) : Async unit :=
  call! x := gets (fun w => context_at w c) in
  if bool_decide (status x = Online) || bool_decide (status x = Connecting) then ok tt else
  let entity := serverEntity x in
  bind! r := start_body c entity token in
  match r with Ok _ => ok tt | Throw f => start_failed c entity f end.
End Connections.
