(* ===== verification/ServerManager.v ===== *)
(** * The server manager

    The methods of [src/src/mcp/core/ServerManager.ts] that other components
    call, and [recordTimeout] of [ServerContext.ts]: making a server
    available, idle servers, adding, removing and reconnecting, servers of one
    user, resource subscriptions, queries.  Where a method runs several others
    at once ([Promise.all]), the model has what it does before and after them;
    they are threads of their own. *)
From Stdlib Require Import ZArith Lia.
From stdpp Require Import base gmap sets strings list.
From coqutil Require Import Datatypes.RecordSetters.
From S2P Require Import Prelude Json JsMap Access Effects Monitor ServerTypes LaunchConfig CapabilityDiff ServerContext ServerWorld TokenRefresh ServerStart.
Open Scope Z_scope.

Section Manager.
Context {D : Deployment}.

Definition now_in {A} (k : Z -> prog scall A) : prog scall A := Vis _ Now k.

(** ** Finding or restoring a context *)

Definition restored_status (row : Server) : ServerStatus := if isLazyStartApplicable row then Sleeping else Offline.

Definition restoreManagedServerContext (server : string) : Async (option nat) :=
  ask! found := FindServer server in
  match found with
  | None => ok None
  | Some row =>
      if negb (enabled row) || allowUserInput row then ok None else
      call! now := Now in
      call! entity := Do (alloc_entity row) in
      call! c := Do (initializeManagedServerContext now entity (Some (restored_status row))) in
      ok (Some c)
  end.

Definition set_launchConfig (text : string) (row : Server) : Server := row <| launchConfig := text |>.

Definition restoreTemporaryServerContext (server user : string) : Async (option nat) :=
  call! session := FirstSession user in
  match session with
  | None => ok None
  | Some session =>
      await! encryptedLaunchConfig := lift (jget (session_launchConfigs session) server) in
      if negb (js_truthy encryptedLaunchConfig) then ok None else
      ask! found := FindServer server in
      match found with
      | None => ok None
      | Some row =>
          if negb (enabled row) || negb (allowUserInput row) then ok None else
          call! now := Now in
          call! entity := Do (alloc_entity (set_launchConfig (json_text encryptedLaunchConfig) row)) in
          call! c := Do (initializeTemporaryServerContext now entity user (Some (session_token session))
                           (Some (restored_status row))) in
          ok (Some c)
      end
  end.

Definition restoreServerContext (server : string) (user : option string) : Async (option nat) :=
  if truthy_ostr user then
    wait! temporaryContext := restoreTemporaryServerContext server (default ""%string user) in
    match temporaryContext with
    | Some c => ok (Some c)
    | None => restoreManagedServerContext server
    end
  else restoreManagedServerContext server.

(** ** Making a server available *)

Definition touch (c : nat) (now : Z) : scall unit := on_context c (fun x => x <| lastActive := now |>).

(** The token a server is started with. *)
Definition start_token (row : Server) (user : option string) : Async string :=
  if allowUserInput row then
    if negb (truthy_ostr user) then throw (McpError InvalidParams "User ID is required for temporary servers") else
    call! session := FirstSession (default ""%string user) in
    match session with
    | None => throw (McpError InvalidParams ("User " +:+ default ""%string user +:+ " has no active session"))
    | Some session => ok (session_token session)
    end
  else
    call! token := gets getOwnerToken in lift token.

Definition wakeupServer (c : nat) (user : option string) : Async nat :=
  call! row := gets (fun w => row_of_context w c) in
  if negb (isLazyStartApplicable row)
  then throw (McpError InvalidParams ("Server " +:+ serverName row +:+ " does not support lazy start")) else
  await! token := start_token row user in
  settled! r := createServerConnection c token in
  match r with
  | Ok _ => ok c
  | Throw e => if is_mcp e then throw e else throw (McpError InternalError (message e))
  end.

Definition checkInterval : Z := 100.
Definition ready_timeout : Z := 50000.

(** As many polls as fit into the time allowed, and one more. *)
Definition ready_polls : nat := 502.

Definition start_error (server : string) (x : ServerContext) : exn :=
  Error ("Server " +:+ server +:+ " failed to start: " +:+ default "undefined"%string (lastError x)).

Definition watched (server : string) (user : option string) (w : World) : option (nat * ServerContext) :=
  match getServerContext server user w with Some c => Some (c, context_at w c) | None => None end.

Fixpoint poll_ready (fuel : nat) (server : string) (user : option string) (startTime : Z) : Async nat :=
  match fuel with
  | O => OutOfFuel
  | S fuel =>
      call! now := Now in
      if ready_timeout <=? now - startTime
      then throw (Error ("Server " +:+ server +:+ " startup timeout after " +:+ z_to_string ready_timeout +:+ "ms")) else
      call! found := gets (watched server user) in
      let again := Sleep checkInterval !; poll_ready fuel server user startTime in
      match found with
      | None => again
      | Some (c, x) =>
          if bool_decide (status x = Online) then ok c
          else if bool_decide (status x = Access.Error) then throw (start_error server x)
          else if negb (bool_decide (status x = Connecting)) && truthy_ostr (lastError x) then throw (start_error server x)
          else again
      end
  end.

Definition waitForServerReady (server : string) (user : option string) : Async nat :=
  call! startTime := Now in poll_ready ready_polls server user startTime.

(** The promise of a start, its queue entry, its outcome. *)
Definition new_start (key : string) (w : World) : nat * World :=
  (next w, w <| promises := <[next w := Starting key]> (promises w) |> <| next := S (next w) |>).
Definition enqueue (key : string) (n : nat) (w : World) : World :=
  w <| serverWaitQueues := <[key := n]> (serverWaitQueues w) |>.
Definition settle_start (n : nat) (r : result exn nat) (w : World) : World :=
  w <| promises := <[n := Started r]> (promises w) |>.
Definition dequeue (key : string) (w : World) : World :=
  w <| serverWaitQueues := base.delete key (serverWaitQueues w) |>.

(** Calling an asynchronous method and doing [after] before awaiting it: the
    method runs up to its first await first. *)
Fixpoint called {A} (p : prog scall A) (after : scall unit) : prog scall A :=
  match p with
  | Ret a => after !; Ret a
  | OutOfFuel => after !; OutOfFuel
  | Vis X e k => if atomic X e then Vis X e (fun x => called (k x) after) else after !; Vis X e k
  end.

(** The start of a server on behalf of all requests that wait for it. *)
Definition shared_start (key : string) (c : nat) (user : option string) : Async nat :=
  call! n := Do (new_start key) in
  bind! r := called (wakeupServer c user) (modify (enqueue key n)) in
  modify (settle_start n r) !;
  Yield !;
  match r with
  | Ok _ =>
      call! now := Now in
      touch c now !;
      modify (dequeue key) !;
      ok c
  | Throw e => modify (dequeue key) !; throw e
  end.

Definition wait_key (row : Server) (server : string) (user : option string) : string :=
  if allowUserInput row then server +:+ ":" +:+ default "undefined"%string user else server.

Definition needs_start (row : Server) (x : ServerContext) : bool :=
  bool_decide (status x = Sleeping) || bool_decide (status x = Offline)
  || bool_decide (status x = Access.Error) && isLazyStartApplicable row.

Definition error_state (server : string) (x : ServerContext) : exn :=
  McpError InvalidParams ("Server " +:+ server +:+ " is in error state: "
    +:+ (if truthy_ostr (lastError x) then default ""%string (lastError x) else "Unknown error")).

Definition available (server : string) (user : option string) (c : nat) : Async nat :=
  call! x := gets (fun w => context_at w c) in
  call! row := gets (fun w => row_of_context w c) in
  if bool_decide (status x = Online) then
    call! now := Now in
    touch c now !;
    ok c
  else
    let key := wait_key row server user in
    call! queued := gets (fun w => serverWaitQueues w !! key) in
    match queued with
    | Some n => Vis _ (AwaitStart n) Ret
    | None =>
        if needs_start row x then shared_start key c user
        else if bool_decide (status x = Connecting) then wait! c := waitForServerReady server user in ok c
        else throw (error_state server x)
    end.

Definition ensureServerAvailable (server : string) (user : option string) : Async nat :=
  call! found := gets (getServerContext server user) in
  match found with
  | Some c => available server user c
  | None =>
      wait! restored := restoreServerContext server user in
      match restored with
      | Some c => available server user c
      | None => throw (McpError InvalidParams ("Server " +:+ server +:+ " not found in server contexts"))
      end
  end.

(** ** Idle servers *)

Definition IDLE_CHECK_INTERVAL : Z := 5 * 60 * 1000.
Definition IDLE_TIMEOUT : Z := 5 * 60 * 1000.

Definition shouldSleep (row : Server) (x : ServerContext) (now : Z) : bool :=
  bool_decide (status x = Online) && isLazyStartApplicable row
  && bool_decide (transportType row = Some "stdio"%string) && (IDLE_TIMEOUT <=? now - lastActive x).

Definition idle_servers (now : Z) (w : World) : list nat :=
  List.filter (fun c => shouldSleep (row_of_context w c) (context_at w c) now)
    (map snd (serverContexts w) ++ map snd (temporaryServers w)).

Definition sleepServer (c : nat) : prog scall unit := awaited (disconnectServerContext c Sleeping).

Fixpoint sleep_each (l : list nat) : prog scall unit :=
  match l with
  | [] => Ret tt
  | c :: l => settled! _ := sleepServer c in sleep_each l
  end.

Definition checkIdleServers : prog scall unit :=
  call! now := Now in
  call! serversToSleep := gets (idle_servers now) in
  sleep_each serversToSleep.

(** ** Adding, reconnecting *)

Definition clear_failures (c : nat) (k : Async nat) : Async nat :=
  on_context c clearError !; on_context c clearTimeout !; k.

Definition addServer (entity : nat) (token : string) : Async nat :=
  call! row := gets (fun w => entity_at w entity) in
  call! existing := gets (fun w => assoc (serverId row) (serverContexts w)) in
  let add :=
    call! now := Now in
    call! c := Do (initializeManagedServerContext now entity None) in
    wait! _ := createServerConnection c token in
    ok c in
  match existing with
  | None => add
  | Some c =>
      let keep :=
        on_context c (fun x => x <| serverEntity := entity |>) !;
        call! x := gets (fun w => context_at w c) in
        if bool_decide (status x = Online) || bool_decide (status x = Connecting) then ok c else add in
      call! old := gets (fun w => row_of_context w c) in
      if str_eqb (launchConfig old) (launchConfig row) then keep
      else settled! _ := disconnectServerContext c Offline in clear_failures c keep
  end.

Definition addSleepingServer (entity : nat) (now : Z) (w : World) : option nat * World :=
  let row := entity_at w entity in
  if allowUserInput row then (None, w)
  else if negb (isLazyStartApplicable row) then (None, w)
  else match assoc (serverId row) (serverContexts w) with
       | Some c => (Some c, w)
       | None => let '(c, w) := initializeManagedServerContext now entity (Some Sleeping) w in (Some c, w)
       end.

(** What follows the disconnection of a reconnected context. *)
Definition start_again (c : nat) (token : string) : Async nat :=
  clear_failures c (wait! _ := createServerConnection c token in ok c).

Definition reconnectServer (entity : nat) (token : string) : Async nat :=
  call! row := gets (fun w => entity_at w entity) in
  call! existing := gets (fun w => assoc (serverId row) (serverContexts w)) in
  let start :=
    call! now := Now in
    call! c := Do (initializeManagedServerContext now entity None) in
    start_again c token in
  match existing with
  | None => start
  | Some c => settled! _ := disconnectServerContext c Offline in clear_failures c start
  end.

Definition reconnectTemporaryServer (entity : nat) (user token : string) : Async nat :=
  call! row := gets (fun w => entity_at w entity) in
  call! existing := gets (getTemporaryServer (serverId row) user) in
  let start :=
    call! now := Now in
    call! c := Do (initializeTemporaryServerContext now entity user (Some token) None) in
    start_again c token in
  match existing with
  | None => start
  | Some c => settled! _ := disconnectServerContext c Offline in clear_failures c start
  end.

Definition set_tokens (entity : nat) (token : string) (x : ServerContext) : ServerContext :=
  x <| serverEntity := entity |> <| userToken := Some token |>.

Definition createTemporaryServer (user : string) (entity : nat) (token : string) (sleep : bool) : Async nat :=
  call! row := gets (fun w => entity_at w entity) in
  call! existing := gets (getTemporaryServer (serverId row) user) in
  let create :=
    call! now := Now in
    call! c := Do (initializeTemporaryServerContext now entity user (Some token) None) in
    if sleep && isLazyStartApplicable row
    then on_context c (updateStatus Sleeping) !; ok c
    else wait! _ := createServerConnection c token in ok c in
  match existing with
  | None => create
  | Some c =>
      on_context c (set_tokens entity token) !;
      call! x := gets (fun w => context_at w c) in
      if bool_decide (status x = Online) then ok c else create
  end.

(** [recordTimeout]: [None] when the error is no time-out, otherwise whether
    the server was reconnected. *)
Definition recordTimeout (c : nat) (e : exn) : Async (option bool) :=
  if negb (is_timeout e) then ok None else
  on_context c (fun x => x <| timeoutCount := timeoutCount x + 1 |>) !;
  call! x := gets (fun w => context_at w c) in
  if timeoutCount x <? 3 then ok (Some false) else
  bind! r := (match connection x with
              | Some conn => call! r := Ping conn 50000 in Ret r
              | None => Yield !; ok tt
              end) in
  match r with
  | Ok _ => on_context c clearTimeout !; ok (Some false)
  | Throw e =>
      if negb (is_timeout e) then ok (Some false) else
      call! x := gets (fun w => context_at w c) in
      call! row := gets (fun w => row_of_context w c) in
      if allowUserInput row then
        wait! _ := reconnectTemporaryServer (serverEntity x) (default "undefined"%string (userId x))
                     (default "undefined"%string (userToken x)) in
        ok (Some true)
      else
        call! token := gets getOwnerToken in
        await! token := lift token in
        wait! _ := reconnectServer (serverEntity x) token in
        ok (Some true)
  end.
End Manager.

(** ** Configuration of a running server *)

Definition object_kind (kind : string) (v : json) : result exn json :=
  try! x := jget v kind in if js_truthy x then Ok v else jset v kind (JObj []).

Definition with_kinds (v : json) : result exn json :=
  try! v := object_kind "tools" v in
  try! v := object_kind "resources" v in
  object_kind "prompts" v.

(** [updateServerCapabilitiesConfig]: what changed; everything, when the text
    cannot be used. *)
Definition updateServerCapabilitiesConfig (server text : string) (w : World) : Changes * World :=
  match assoc server (serverContexts w) with
  | None => (nothing_changed, w)
  | Some c =>
      let row := row_of_context w c in
      if str_eqb (configured_capabilities row) text then (nothing_changed, w) else
      match (try! new := JSON_parse_exn text in with_kinds new) with
      | Throw _ => (all_changed, w)
      | Ok new =>
          match with_kinds (capabilitiesConfig (context_at w c)) with
          | Throw _ => (all_changed, w)
          | Ok old =>
              let w := upd_context c (fun x => x <| capabilitiesConfig := old |>) w in
              match ServerContext.isCapabilityChanged new (context_at w c) with
              | Throw _ => (all_changed, w)
              | Ok changes =>
                  (changes, upd_context c (ServerContext.updateCapabilitiesConfig text)
                              (upd_entity (serverEntity (context_at w c)) (set_configured text) w))
              end
          end
      end
  end.

(** ** Queries *)

Definition getServerContextByID (i : string) (w : World) : option nat :=
  List.find (fun c => str_eqb (id (context_at w c)) i) (map snd (serverContexts w)).

Definition usable (x : ServerContext) : bool := bool_decide (status x = Online) || bool_decide (status x = Sleeping).

Definition getAvailableServersFromServerContexts (w : World) : list nat :=
  List.filter (fun c => usable (context_at w c)) (map snd (serverContexts w)).
Definition getAvailableServersFromTemporaryServers (w : World) : list nat :=
  List.filter (fun c => usable (context_at w c)) (map snd (temporaryServers w)).
Definition getAvailableServers (w : World) : list nat :=
  getAvailableServersFromServerContexts w ++ getAvailableServersFromTemporaryServers w.

Definition permitted (permissions : json) (row : Server) : bool :=
  js_truthy (or_nullish (jfield_opt (jfield_opt permissions (serverId row)) "enabled") (JBool (publicAccess row))).

Definition own_or_shared (user : string) (row : Server) (x : ServerContext) : bool :=
  negb (allowUserInput row) || bool_decide (userId x = Some user).

Definition getUserAvailableServers (user permissionsText : string) (w : World) : result exn (list nat) :=
  try! permissions := JSON_parse_exn permissionsText in
  match permissions, getAvailableServers w with
  | JNull, _ :: _ => Throw TypeError
  | _, l => Ok (List.filter (fun c => let row := row_of_context w c in
                                      permitted permissions row && own_or_shared user row (context_at w c)) l)
  end.

Definition hide_lists (m : McpCapabilities) : McpCapabilities :=
  m <| mc_tools := [] |> <| mc_resources := [] |> <| mc_prompts := [] |> <| mc_configured := true |>.

(** The capabilities of every available server; of a personal one, only that
    it exists. *)
Definition server_capabilities (w : World) (c : nat) : result exn (string * McpCapabilities) :=
  let row := row_of_context w c in
  try! m := getMcpCapabilities row (context_at w c) in
  Ok (serverID (context_at w c), if allowUserInput row then hide_lists m else m).

Fixpoint collect {A B} (f : A -> result exn B) (l : list A) : result exn (list B) :=
  match l with
  | [] => Ok []
  | x :: l => try! y := f x in try! ys := collect f l in Ok (y :: ys)
  end.

Definition getAvailableServersCapabilities (w : World) : result exn (list (string * McpCapabilities)) :=
  try! l := collect (server_capabilities w) (getAvailableServers w) in Ok (assign_all l).

Definition status_text (s : ServerStatus) : string :=
  match s with
  | Online => "Online" | Offline => "Offline" | Connecting => "Connecting" | Access.Error => "Error" | Sleeping => "Sleeping"
  end.
Definition status_order : list ServerStatus := [Online; Offline; Connecting; Access.Error; Sleeping].

Definition healthCheck (rows : list Server) (w : World) : list (string * ServerStatus) :=
  fold_left (fun o row => obj_assign (serverId row)
    (match assoc (serverId row) (serverContexts w) with Some c => status (context_at w c) | None => Offline end) o) rows [].

Definition getTemporaryServers (server : string) (w : World) : list nat :=
  List.filter (fun c => str_eqb (serverId (row_of_context w c)) server) (map snd (temporaryServers w)).

Definition count_status (s : ServerStatus) (l : list ServerStatus) : nat :=
  length (List.filter (fun t => bool_decide (t = s)) l).

(** [Online(2), Sleeping(1)]: the statuses in the order of their numbers. *)
Definition status_counts (l : list ServerStatus) : string :=
  str_join ", " (flat_map (fun s => match count_status s l with
                                    | O => []
                                    | n => [status_text s +:+ "(" +:+ z_to_string (Z.of_nat n) +:+ ")"]
                                    end) status_order).

Definition server_status (row : Server) (w : World) : string :=
  if allowUserInput row then
    match getTemporaryServers (serverId row) w with
    | [] => status_text Offline
    | l => status_counts (map (fun c => status (context_at w c)) l)
    end
  else match assoc (serverId row) (serverContexts w) with
       | Some c => status_text (status (context_at w c))
       | None => status_text Offline
       end.

Definition getAllServersStatus (rows : list Server) (w : World) : list (string * string) :=
  fold_left (fun o row => obj_assign (serverId row) (server_status row w) o) rows [].

Definition getTemporaryServerContextByID (i user : string) (w : World) : option nat :=
  List.find (fun c => str_eqb (id (context_at w c)) i && bool_decide (userId (context_at w c) = Some user))
    (map snd (temporaryServers w)).

Definition keys_of_user (user : string) (w : World) : list string :=
  List.filter (ends_with (":" +:+ user)) (keys (temporaryServers w)).

Definition getUserTemporaryServers (user : string) (w : World) : list (string * nat) :=
  fold_left (fun m kc => if ends_with (":" +:+ user) (fst kc)
                         then map_set (str_take (default 0%nat (last_index_of ":" (fst kc))) (fst kc)) (snd kc) m else m)
    (temporaryServers w) [].

Definition keys_of_template (server : string) (w : World) : list string :=
  List.filter (starts_with (server +:+ ":")) (keys (temporaryServers w)).

(** ** Many servers at once *)

Section Batches.
Context {D : Deployment}.

(** One row of [connectAllServers]: the contexts to start are appended. *)
Definition prepare_connection (now : Z) (row : Server) (l : list nat) (w : World) : list nat * World :=
  if allowUserInput row then (l, w) else
  let running := match assoc (serverId row) (serverContexts w) with
                 | Some c => bool_decide (status (context_at w c) = Online) || bool_decide (status (context_at w c) = Connecting)
                 | None => false
                 end in
  if running then (l, w) else
  let '(entity, w) := alloc_entity row w in
  let '(c, w) := initializeManagedServerContext now entity None w in
  let w := upd_context c (fun x => clearTimeout (clearError x)) w in
  if isLazyStartApplicable row then (l, upd_context c (updateStatus Sleeping) w) else (l ++ [c], w).

Fixpoint prepare_connections (now : Z) (rows : list Server) (l : list nat) (w : World) : list nat * World :=
  match rows with
  | [] => (l, w)
  | row :: rows => let '(l, w) := prepare_connection now row l w in prepare_connections now rows l w
  end.

(** [connectAllServers] before its connections are started, all at once. *)
Definition connectAllServers_begin : prog scall (list nat) :=
  call! rows := FindEnabled in
  call! now := Now in
  call! l := Do (prepare_connections now rows []) in
  Ret l.

(** The servers that started and those that did not. *)
Definition connectAllServers_results (outcomes : list (nat * result exn unit)) (w : World) : list Server * list Server :=
  (map (fun o => row_of_context w o.1) (List.filter (fun o => is_ok o.2) outcomes),
   map (fun o => row_of_context w o.1) (List.filter (fun o => negb (is_ok o.2)) outcomes)).

(** The constructor: every shared server that starts on demand, asleep. *)
Fixpoint put_to_sleep (now : Z) (rows : list Server) (w : World) : World :=
  match rows with
  | [] => w
  | row :: rows =>
      put_to_sleep now rows
        (if allowUserInput row || negb (isLazyStartApplicable row) then w
         else let '(entity, w) := alloc_entity row w in
              (initializeManagedServerContext now entity (Some Sleeping) w).2)
  end.

Definition initialize_manager : prog scall unit :=
  call! rows := FindEnabled in
  call! now := Now in
  modify (put_to_sleep now rows) !;
  Ret tt.

(** [shutdown] after all its connections are closed. *)
Definition shutdown_finish (w : World) : World :=
  w <| serverContexts := [] |> <| serverLoggers := ∅ |> <| temporaryServers := [] |>
    <| temporaryServerLoggers := ∅ |> <| resourceSubscriptions := [] |> <| serverWaitQueues := ∅ |>.

Definition shutdown_closes (w : World) : list nat := map snd (serverContexts w) ++ map snd (temporaryServers w).
End Batches.

(** ** Resource subscriptions *)

Definition buildResourceSubscriptionKey (scope uri : string) : string := scope +:+ "::" +:+ uri.

Definition findServerContextByScopeId (scope : string) (w : World) : option nat :=
  List.find (fun c => str_eqb (id (context_at w c)) scope) (map snd (serverContexts w) ++ map snd (temporaryServers w)).

Definition findResourceSubscriptionEntry (server uri user : string) (scope : option string) (w : World) : option (string * nat) :=
  let by_user u kc := let st := subscription_at w (snd kc) in
                      str_eqb (sub_serverId st) server && str_eqb (resourceUri st) uri && bool_decide (sub_userId st = u) in
  let any_scope :=
    match List.find (by_user (Some user)) (resourceSubscriptions w) with
    | Some kc => Some kc
    | None => List.find (by_user None) (resourceSubscriptions w)
    end in
  match scope with
  | Some sc =>
      let key := buildResourceSubscriptionKey sc uri in
      match (if truthy_str sc then assoc key (resourceSubscriptions w) else None) with
      | Some s => Some (key, s)
      | None => any_scope
      end
  | None => any_scope
  end.

Definition leave (session : string) (st : SubscriptionState) : SubscriptionState :=
  st <| subscribedSessions := List.filter (fun x => negb (str_eqb x session)) (subscribedSessions st) |>.
Definition join (session : string) (st : SubscriptionState) : SubscriptionState :=
  if bool_decide (session ∈ subscribedSessions st) then st
  else st <| subscribedSessions := subscribedSessions st ++ [session] |>.

Definition nobody (st : SubscriptionState) : bool := bool_decide (subscribedSessions st = []).
Definition drop_subscription (key : string) (w : World) : World :=
  w <| resourceSubscriptions := map_delete key (resourceSubscriptions w) |>.

Definition unsubscribeResourceState (key : string) (s : nat) (session : string) : Async unit :=
  modify (upd_subscription s (leave session)) !;
  call! st := gets (fun w => subscription_at w s) in
  let last :=
    call! st := gets (fun w => subscription_at w s) in
    if nobody st then
      call! conn := gets (fun w => match findServerContextByScopeId (scopeId st) w with
                                   | Some c => connection (context_at w c)
                                   | None => None
                                   end) in
      match downstreamSubscribed st, conn with
      | true, Some conn => UnsubscribeResource conn (resourceUri st) !; modify (drop_subscription key) !; ok tt
      | _, _ => modify (drop_subscription key) !; ok tt
      end
    else ok tt in
  match downstreamSubscription st with
  | Some n => if nobody st then AwaitSubscription n !; last else last
  | None => last
  end.

Definition supports_subscription (x : ServerContext) : bool :=
  json_eqb (jfield_opt (jfield_opt (default JUndefined (capabilities x)) "resources") "subscribe") (JBool true).

(** The state under the key, made when it is missing. *)
Definition subscription_state (key server uri : string) (x : ServerContext) (w : World) : nat * World :=
  match assoc key (resourceSubscriptions w) with
  | Some s => (s, w)
  | None =>
      let s := next w in
      (s, w <| subscriptions := <[s := {| sub_serverId := server; sub_userId := userId x; resourceUri := uri;
                                          scopeId := id x; subscribedSessions := []; downstreamSubscribed := false;
                                          downstreamSubscription := None |}]> (subscriptions w) |>
            <| resourceSubscriptions := map_set key s (resourceSubscriptions w) |> <| next := S s |>)
  end.

(** Waiting for the server's answer, whoever asked. *)
Definition await_subscription (s : nat) (conn : DownstreamMcpClient) (uri : string) : Async unit :=
  call! st := gets (fun w => subscription_at w s) in
  match downstreamSubscription st with
  | Some n => Vis _ (AwaitSubscription n) Ret
  | None => request_subscription s conn uri (ok tt)
  end.

Definition subscription_failed (key : string) (s : nat) (session : string) (was_subscribed : bool) (w : World) : World :=
  let w := if was_subscribed then w else upd_subscription s (leave session) w in
  if nobody (subscription_at w s) then drop_subscription key w else w.

Definition subscribeResource (server uri session user : string) : Async unit :=
  call! found := gets (getServerContext server (Some user)) in
  match found with
  | None => ok tt
  | Some c =>
      call! x := gets (fun w => context_at w c) in
      if negb (supports_subscription x) then ok tt else
      let key := buildResourceSubscriptionKey (id x) uri in
      call! s := Do (subscription_state key server uri x) in
      call! st := gets (fun w => subscription_at w s) in
      let was_subscribed := bool_decide (session ∈ subscribedSessions st) in
      if was_subscribed && downstreamSubscribed st then ok tt else
      modify (upd_subscription s (join session)) !;
      if downstreamSubscribed st then ok tt else
      match connection x with
      | None => throw (Error ("Server " +:+ server +:+ " not available for subscription"))
      | Some conn =>
          bind! r := await_subscription s conn uri in
          match r with
          | Ok _ => ok tt
          | Throw e => modify (subscription_failed key s session was_subscribed) !; throw e
          end
      end
  end.

Definition unsubscribeResource (server uri session user : string) : Async unit :=
  call! entry := gets (fun w => findResourceSubscriptionEntry server uri user
                         (match getServerContext server (Some user) w with Some c => Some (id (context_at w c)) | None => None end) w) in
  match entry with
  | None => ok tt
  | Some (key, s) => wait! _ := unsubscribeResourceState key s session in ok tt
  end.

Definition getResourceSubscribersForScope (scope uri : string) (w : World) : list string :=
  match assoc (buildResourceSubscriptionKey scope uri) (resourceSubscriptions w) with
  | Some s => subscribedSessions (subscription_at w s)
  | None => []
  end.

Definition getResourceSubscribersForServer (server uri : string) (w : World) : list string :=
  fold_left (fun acc kc =>
      let st := subscription_at w (snd kc) in
      if str_eqb (sub_serverId st) server && str_eqb (resourceUri st) uri
      then fold_left (fun acc x => if bool_decide (x ∈ acc) then acc else acc ++ [x]) (subscribedSessions st) acc
      else acc) (resourceSubscriptions w) [].

(** The states [cleanupSessionSubscriptions] leaves, all at once. *)
Definition subscriptions_of_session (session : string) (w : World) : list (string * nat) :=
  List.filter (fun kc => bool_decide (session ∈ subscribedSessions (subscription_at w (snd kc)))) (resourceSubscriptions w).
