(* ===== verification/ServerQuiet.v ===== *)
(** * What the manager's methods leave alone

    Two facts about every piece of code of the server manager, proved once for
    all methods: it does not touch the table of running starts (except for
    the method that runs them), and it never leaves a context online without a
    connection (where the modern protocol is not used downstream). *)
From Stdlib Require Import ZArith Lia.
From stdpp Require Import base gmap sets strings list.
From coqutil Require Import Datatypes.RecordSetters.
From S2P Require Import Prelude Json JsMap Access Effects Monitor ServerTypes LaunchConfig CapabilityDiff ServerContext ServerWorld TokenRefresh ServerStart ServerManager.
Open Scope Z_scope.

(** ** The two facts *)

Definition linked (x : ServerContext) : Prop := status x = Online -> connection x <> None.

Definition all_linked (w : World) : Prop := forall c x, contexts w !! c = Some x -> linked x.

Definition same_starts (w w' : World) : Prop :=
  serverWaitQueues w' = serverWaitQueues w /\ promises w' = promises w /\ (next w <= next w')%nat.

Section Quiet.
Context {D : Deployment}.

Definition quiet (w w' : World) : Prop :=
  same_starts w w' /\ (downstreamEnabled = false -> all_linked w -> all_linked w').

Lemma quiet_refl w : quiet w w.
Proof. by repeat split. Qed.

Lemma quiet_trans w1 w2 w3 : quiet w1 w2 -> quiet w2 w3 -> quiet w1 w3.
Proof. intros [(E1 & E2 & E3) E4] [(F1 & F2 & F3) F4]. repeat split; [congruence|congruence|lia|auto]. Qed.

(** Everything but the contexts and the starts may change. *)
Lemma quiet_other w w' :
  contexts w' = contexts w -> serverWaitQueues w' = serverWaitQueues w -> promises w' = promises w ->
  (next w <= next w')%nat -> quiet w w'.
Proof. intros Hc Hq Hp Hn. repeat split; [done..|]. intros _ H c x. rewrite Hc. apply H. Qed.

Lemma linked_at w c : all_linked w -> linked (context_at w c).
Proof.
  intros H. unfold context_at. destruct (contexts w !! c) as [x|] eqn:E; [by eapply H|]. done.
Qed.

(** One context changes. *)
Lemma quiet_context w c f :
  (downstreamEnabled = false -> linked (context_at w c) -> linked (f (context_at w c))) -> quiet w (upd_context c f w).
Proof.
  intros Hf. repeat split; [done|]. intros HD H c' x'. rewrite contexts_upd_context. intros [[<- <-]|[_ H']]%lookup_insert_Some.
  - apply Hf; [done|]. by apply linked_at.
  - by eapply H.
Qed.

Lemma quiet_fold {A} (f : World -> A -> World) (l : list A) w :
  (forall w a, quiet w (f w a)) -> quiet w (fold_left f l w).
Proof.
  intros Hf. revert w. induction l as [|a l IH]; intros w; cbn; [apply quiet_refl|].
  eapply quiet_trans; [apply Hf|apply IH].
Qed.

Notation quietly := (every (within answers quiet)).

Lemma quiet_Do {X} (f : World -> X * World) : (forall w, quiet w (f w).2) -> within answers quiet X (Do f).
Proof. intros H w x w'. cbn. intros E. specialize (H w). by rewrite E in H. Qed.

Lemma quiet_gets {X} (f : World -> X) : within answers quiet X (gets f).
Proof. apply quiet_Do. intros w. apply quiet_refl. Qed.

Lemma quiet_modify f : (forall w, quiet w (f w)) -> within answers quiet unit (modify f).
Proof. intros H. by apply quiet_Do. Qed.

Lemma quiet_on_context c f :
  (forall x, downstreamEnabled = false -> linked x -> linked (f x)) -> within answers quiet unit (on_context c f).
Proof. intros H. apply quiet_modify. intros w. apply quiet_context. auto. Qed.

Lemma quiet_entity w e f : quiet w (upd_entity e f w).
Proof. by apply quiet_other. Qed.

Lemma quiet_subscription w s f : quiet w (upd_subscription s f w).
Proof. by apply quiet_other. Qed.

Lemma quiet_alloc_entity row w : quiet w (alloc_entity row w).2.
Proof. apply quiet_other; cbn; try done. lia. Qed.

Lemma quiet_alloc_transport t w : quiet w (alloc_transport t w).2.
Proof. apply quiet_other; cbn; try done. lia. Qed.

Lemma quiet_alloc_context now e w : quiet w (alloc_context now e w).2.
Proof.
  repeat split; cbn; try done; [lia|]. intros _ H c x. cbn. intros [[_ <-]|[_ Hx]]%lookup_insert_Some; [done|by eapply H].
Qed.

Lemma quiet_plain w f :
  (contexts (f w) = contexts w /\ serverWaitQueues (f w) = serverWaitQueues w /\ promises (f w) = promises w /\ next (f w) = next w) ->
  quiet w (f w).
Proof. intros (? & ? & ? & Hn). apply quiet_other; try done. lia. Qed.

Lemma linked_status (s : ServerStatus) (x : ServerContext) : s <> Online -> linked (x <| status := s |>).
Proof. intros Hs. unfold linked. by cbn. Qed.

Lemma linked_initial (s : option ServerStatus) (x : ServerContext) :
  s <> Some Online -> linked x -> linked (initial_status s x).
Proof.
  intros Hs Hx. unfold initial_status. destruct s as [s|]; [|done]. destruct (connection x) eqn:E; [done|].
  apply linked_status. congruence.
Qed.

Lemma quiet_initialize now e s w : s <> Some Online -> quiet w (initializeManagedServerContext now e s w).2.
Proof.
  intros Hs. unfold initializeManagedServerContext. destruct (assoc _ _) as [c|] eqn:E.
  - cbn beta iota zeta delta [snd]. eapply quiet_trans; [|apply quiet_context; intros _; by apply linked_initial].
    eapply quiet_trans; [|apply (quiet_plain _ (ensureServerLogger _)); done]. by apply quiet_context.
  - pose proof (quiet_alloc_context now e w) as Ha. destruct (alloc_context now e w) as [c w1]. cbn beta iota zeta delta [snd] in *.
    eapply quiet_trans; [|apply quiet_context; intros _; by apply linked_initial].
    eapply quiet_trans; [exact Ha|]. by apply quiet_other.
Qed.

Lemma quiet_initialize_temporary now e u t s w :
  s <> Some Online -> quiet w (initializeTemporaryServerContext now e u t s w).2.
Proof.
  intros Hs. unfold initializeTemporaryServerContext.
  assert (Hrest : forall c w1, quiet w w1 -> quiet w
    (upd_context c (initial_status s) (ensureTemporaryServerLogger (temporary_key (serverId (entity_at w e)) u)
       (if truthy_ostr t then upd_context c (fun x => x <| userToken := t |>) (upd_context c (fun x => x <| userId := Some u |>) w1)
        else upd_context c (fun x => x <| userId := Some u |>) w1)))).
  { intros c w1 H. eapply quiet_trans; [|apply quiet_context; intros _; by apply linked_initial].
    eapply quiet_trans; [|apply (quiet_plain _ (ensureTemporaryServerLogger _)); done].
    eapply quiet_trans; [exact H|]. destruct (truthy_ostr t); [eapply quiet_trans|]; by apply quiet_context. }
  destruct (assoc _ _) as [c|] eqn:E; cbn beta iota zeta delta [snd].
  - apply Hrest. by apply quiet_context.
  - pose proof (quiet_alloc_context now e w) as Ha. destruct (alloc_context now e w) as [c w1]. cbn beta iota zeta delta [snd] in *.
    apply Hrest. eapply quiet_trans; [exact Ha|]. by apply quiet_other.
Qed.

Create HintDb quiet discriminated.
#[local] Hint Resolve quiet_refl quiet_gets quiet_entity quiet_subscription quiet_alloc_entity quiet_alloc_transport : quiet.

(** Code on one context that does not bring it online. *)
Ltac on_one_context :=
  apply quiet_on_context; intros ? ? ?; first [assumption | by cbn | (unfold linked, failed_status in *; cbn in *; repeat case_match; congruence)].

(** One call. *)
Ltac quiet_call :=
  first
    [ solve [auto with quiet]
    | solve [on_one_context]
    | solve [apply quiet_modify; intros ?; by apply quiet_other]
    | solve [intros ? ? ?; cbn; intros ->; apply quiet_refl]
    | solve [intros ? ? ?; cbn; intros [_ ->]; apply quiet_refl]
    | solve [apply quiet_Do; intros ?; auto with quiet] ].

(** A whole method, with the lemmas of the methods it calls. *)
Ltac quiet_walk :=
  repeat first
    [ progress cbn beta iota
    | match goal with
      | |- quietly (Ret _) => exact I
      | |- quietly OutOfFuel => exact I
      | |- quietly (match ?x with _ => _ end) => destruct x eqn:?
      | |- quietly (if ?b then _ else _) => destruct b eqn:?
      end
    | solve [eauto with quiet]
    | progress unfold ok, throw, lift, awaited, try_bind, logged, clear_timer, log_close, persist_config, plainly,
        cache_transport_type, adopt_name, save_preferences, request_subscription, clear_failures, now_in
    | match goal with
      | |- quietly (Vis _ _ _) => apply every_call; [quiet_call|intros ?]
      | |- quietly (pbind _ _) => apply every_bind; [|intros ?]
      | |- quietly (let _ := _ in _) => intro
      end ].

(** ** Tokens and disconnection *)

Lemma save_server_config_quiet c cfg : quietly (save_server_config c cfg).
Proof. unfold save_server_config. quiet_walk. Qed.
#[local] Hint Resolve save_server_config_quiet : quiet.

Lemma save_user_config_quiet c cfg : quietly (save_user_config c cfg).
Proof. unfold save_user_config. quiet_walk. Qed.
#[local] Hint Resolve save_user_config_quiet : quiet.

Lemma updateServerLaunchConfig_quiet c cfg : quietly (updateServerLaunchConfig c cfg).
Proof. unfold updateServerLaunchConfig. quiet_walk. Qed.
#[local] Hint Resolve updateServerLaunchConfig_quiet : quiet.

Lemma updateUserLaunchConfig_quiet c cfg : quietly (updateUserLaunchConfig c cfg).
Proof. unfold updateUserLaunchConfig. quiet_walk. Qed.
#[local] Hint Resolve updateUserLaunchConfig_quiet : quiet.

Lemma updateRefreshTokenToDatabase_quiet c cfg : quietly (updateRefreshTokenToDatabase c cfg).
Proof. unfold updateRefreshTokenToDatabase. quiet_walk. Qed.
#[local] Hint Resolve updateRefreshTokenToDatabase_quiet : quiet.

Lemma start_timer_quiet c d : quietly (start_timer c d).
Proof. unfold start_timer. quiet_walk. Qed.
#[local] Hint Resolve start_timer_quiet : quiet.

Lemma scheduleNextRefresh_quiet c : quietly (scheduleNextRefresh c).
Proof. unfold scheduleNextRefresh. quiet_walk. Qed.
#[local] Hint Resolve scheduleNextRefresh_quiet : quiet.

Lemma stopTokenRefresh_quiet c : quietly (stopTokenRefresh c).
Proof. unfold stopTokenRefresh. quiet_walk. Qed.
#[local] Hint Resolve stopTokenRefresh_quiet : quiet.

Lemma startTokenRefresh_quiet c st : quietly (startTokenRefresh c st).
Proof. unfold startTokenRefresh. quiet_walk. Qed.
#[local] Hint Resolve startTokenRefresh_quiet : quiet.

Lemma notifyTokenUpdate_quiet c t : quietly (notifyTokenUpdate c t).
Proof. unfold notifyTokenUpdate. quiet_walk. Qed.
#[local] Hint Resolve notifyTokenUpdate_quiet : quiet.

Lemma closeConnection_quiet c s : s <> Online -> quietly (closeConnection c s).
Proof. intros Hs. unfold closeConnection. quiet_walk. Qed.
#[local] Hint Resolve closeConnection_quiet : quiet.

Lemma mark_planned_quiet c : within answers quiet unit (modify (markTransportCloseAsPlanned c)).
Proof.
  apply quiet_modify. intros w. unfold markTransportCloseAsPlanned.
  destruct (transport _); [by apply quiet_other|apply quiet_refl].
Qed.

Lemma reset_subscriptions_quiet c : within answers quiet unit (modify (reset_subscriptions c)).
Proof.
  apply quiet_modify. intros w. unfold reset_subscriptions. apply quiet_fold. intros w' [k s].
  case_match; [apply quiet_subscription|apply quiet_refl].
Qed.
#[local] Hint Resolve mark_planned_quiet reset_subscriptions_quiet : quiet.

Lemma disconnectServerContext_quiet c s : s <> Online -> quietly (disconnectServerContext c s).
Proof. intros Hs. unfold disconnectServerContext. quiet_walk. Qed.
#[local] Hint Resolve disconnectServerContext_quiet : quiet.

Lemma removeServer_quiet sid : quietly (removeServer sid).
Proof. unfold removeServer. quiet_walk. Qed.
#[local] Hint Resolve removeServer_quiet : quiet.

Lemma close_temporary_quiet key : quietly (close_temporary key).
Proof. unfold close_temporary. quiet_walk. Qed.
#[local] Hint Resolve close_temporary_quiet : quiet.

Lemma closeTemporaryServer_quiet sid u : quietly (closeTemporaryServer sid u).
Proof. unfold closeTemporaryServer. quiet_walk. Qed.
#[local] Hint Resolve closeTemporaryServer_quiet : quiet.

Lemma handleUnconfigureServer_quiet u sid : quietly (handleUnconfigureServer u sid).
Proof. unfold handleUnconfigureServer. quiet_walk. Qed.
#[local] Hint Resolve handleUnconfigureServer_quiet : quiet.

Lemma clearIntercomOAuthState_quiet c : quietly (clearIntercomOAuthState c).
Proof. unfold clearIntercomOAuthState. quiet_walk. Qed.
#[local] Hint Resolve clearIntercomOAuthState_quiet : quiet.

Lemma handleInvalidIntercomToken_quiet c : quietly (handleInvalidIntercomToken c).
Proof. unfold handleInvalidIntercomToken. quiet_walk. Qed.
#[local] Hint Resolve handleInvalidIntercomToken_quiet : quiet.

Lemma refresh_attempt_quiet c st : quietly (refresh_attempt c st).
Proof. unfold refresh_attempt. quiet_walk. Qed.
#[local] Hint Resolve refresh_attempt_quiet : quiet.

Lemma performTokenRefresh_quiet c : quietly (performTokenRefresh c).
Proof. unfold performTokenRefresh. quiet_walk. Qed.
#[local] Hint Resolve performTokenRefresh_quiet : quiet.

(** ** Starting *)

Lemma decryptLaunchConfig_quiet t e : quietly (decryptLaunchConfig t e).
Proof. unfold decryptLaunchConfig. quiet_walk. Qed.
#[local] Hint Resolve decryptLaunchConfig_quiet : quiet.

Lemma create_strategy_quiet a o : quietly (create_strategy a o).
Proof. unfold create_strategy. quiet_walk. Qed.
#[local] Hint Resolve create_strategy_quiet : quiet.

Lemma initializeOAuthWithRefresh_quiet c cfg : quietly (initializeOAuthWithRefresh c cfg).
Proof. unfold initializeOAuthWithRefresh. quiet_walk. Qed.
#[local] Hint Resolve initializeOAuthWithRefresh_quiet : quiet.

Lemma initializePetaAuth_quiet c cfg t : quietly (initializePetaAuth c cfg t).
Proof. unfold initializePetaAuth. quiet_walk. Qed.
#[local] Hint Resolve initializePetaAuth_quiet : quiet.

Lemma initializeAuthentication_quiet c cfg t : quietly (initializeAuthentication c cfg t).
Proof. unfold initializeAuthentication. quiet_walk. Qed.
#[local] Hint Resolve initializeAuthentication_quiet : quiet.

Lemma resolveSkillsVolumeMounts_quiet cfg : quietly (resolveSkillsVolumeMounts cfg).
Proof. unfold resolveSkillsVolumeMounts. quiet_walk. Qed.
#[local] Hint Resolve resolveSkillsVolumeMounts_quiet : quiet.

Lemma prepare_quiet c e t : quietly (prepare c e t).
Proof. unfold prepare. quiet_walk. Qed.
#[local] Hint Resolve prepare_quiet : quiet.

Lemma log_init_quiet e : quietly (log_init e).
Proof. unfold log_init. quiet_walk. Qed.
#[local] Hint Resolve log_init_quiet : quiet.

Lemma persistCapabilitiesCache_quiet c l : quietly (persistCapabilitiesCache c l).
Proof. unfold persistCapabilitiesCache. quiet_walk. Qed.
#[local] Hint Resolve persistCapabilitiesCache_quiet : quiet.

Lemma updateTools_quiet c l : quietly (updateTools c l).
Proof. unfold updateTools. quiet_walk. Qed.
#[local] Hint Resolve updateTools_quiet : quiet.

Lemma updateResources_quiet c l : quietly (updateResources c l).
Proof. unfold updateResources. quiet_walk. Qed.
#[local] Hint Resolve updateResources_quiet : quiet.

Lemma updateResourceTemplates_quiet c l : quietly (updateResourceTemplates c l).
Proof. unfold updateResourceTemplates. quiet_walk. Qed.
#[local] Hint Resolve updateResourceTemplates_quiet : quiet.

Lemma updatePrompts_quiet c l : quietly (updatePrompts c l).
Proof. unfold updatePrompts. quiet_walk. Qed.
#[local] Hint Resolve updatePrompts_quiet : quiet.

Lemma load_tools_quiet c conn : quietly (load_tools c conn).
Proof. unfold load_tools. quiet_walk. Qed.
#[local] Hint Resolve load_tools_quiet : quiet.

Lemma load_resources_quiet c conn : quietly (load_resources c conn).
Proof. unfold load_resources. quiet_walk. Qed.
#[local] Hint Resolve load_resources_quiet : quiet.

Lemma load_prompts_quiet c conn : quietly (load_prompts c conn).
Proof. unfold load_prompts. quiet_walk. Qed.
#[local] Hint Resolve load_prompts_quiet : quiet.

Lemma linked_config text x : linked x -> linked (ServerContext.updateCapabilitiesConfig text x).
Proof. unfold ServerContext.updateCapabilitiesConfig. by destruct (JSON_parse text). Qed.

Lemma apply_template_quiet c : within answers quiet unit (modify (apply_template c)).
Proof.
  apply quiet_modify. intros w. unfold apply_template. destruct (template_config _); [|apply quiet_refl].
  eapply quiet_trans; [apply quiet_entity|]. apply quiet_context. intros _. apply linked_config.
Qed.
#[local] Hint Resolve apply_template_quiet : quiet.

Lemma first_configuration_quiet c : quietly (first_configuration c).
Proof. unfold first_configuration. quiet_walk. Qed.
#[local] Hint Resolve first_configuration_quiet : quiet.

Lemma read_capabilities_quiet c conn caps : quietly (read_capabilities c conn caps).
Proof. unfold read_capabilities. quiet_walk. Qed.
#[local] Hint Resolve read_capabilities_quiet : quiet.

Lemma subscription_answered_quiet s n r : quietly (subscription_answered s n r).
Proof. unfold subscription_answered. quiet_walk. Qed.
#[local] Hint Resolve subscription_answered_quiet : quiet.
Lemma new_subscription_quiet s : within answers quiet nat (Do (new_subscription s)).
Proof.
  apply quiet_Do. intros w. unfold new_subscription. cbn beta iota zeta delta [snd].
  eapply quiet_trans; [|apply quiet_subscription]. apply quiet_other; cbn; try done. lia.
Qed.
#[local] Hint Resolve new_subscription_quiet : quiet.

Lemma restore_each_quiet c conn l : quietly (restore_each c conn l).
Proof. induction l as [|[k s] l IH]; [exact I|]. cbn [restore_each]. quiet_walk. Qed.
#[local] Hint Resolve restore_each_quiet : quiet.

Lemma restoreResourceSubscriptions_quiet c conn : quietly (restoreResourceSubscriptions c conn).
Proof. unfold restoreResourceSubscriptions. quiet_walk. Qed.
#[local] Hint Resolve restoreResourceSubscriptions_quiet : quiet.

Lemma updateServerCapabilities_quiet c : quietly (updateServerCapabilities c).
Proof. unfold updateServerCapabilities. quiet_walk. Qed.
#[local] Hint Resolve updateServerCapabilities_quiet : quiet.

Lemma linked_recorded p q x : linked x -> linked (recordServerStartupError p q x).
Proof. unfold recordServerStartupError. intros H. repeat case_match; done. Qed.

Lemma recorded_quiet c p q : within answers quiet unit (on_context c (recordServerStartupError p q)).
Proof. apply quiet_on_context. intros x _. apply linked_recorded. Qed.
#[local] Hint Resolve recorded_quiet : quiet.

(** ** Connections *)

Lemma transport_closed_quiet c e t r b : quietly (transport_closed c e t r b).
Proof. unfold transport_closed. quiet_walk. Qed.
#[local] Hint Resolve transport_closed_quiet : quiet.

Lemma createModernHttpServerConnection_quiet c cfg : downstreamEnabled = true -> quietly (createModernHttpServerConnection c cfg).
Proof. intros Hs. unfold createModernHttpServerConnection. quiet_walk. Qed.
#[local] Hint Resolve createModernHttpServerConnection_quiet : quiet.

Lemma sse_fallback_quiet cfg t : quietly (sse_fallback cfg t).
Proof. unfold sse_fallback. quiet_walk. Qed.
#[local] Hint Resolve sse_fallback_quiet : quiet.

Lemma connect_failed_quiet cfg r e t ty x : quietly (connect_failed cfg r e t ty x).
Proof. unfold connect_failed. quiet_walk. Qed.
#[local] Hint Resolve connect_failed_quiet : quiet.

Lemma connected_quiet c e cl t ty : quietly (connected c e cl t ty).
Proof. unfold connected. quiet_walk. Qed.
#[local] Hint Resolve connected_quiet : quiet.

Lemma legacy_connection_quiet c e cfg r : quietly (legacy_connection c e cfg r).
Proof. unfold legacy_connection. quiet_walk. Qed.
#[local] Hint Resolve legacy_connection_quiet : quiet.

Lemma start_body_quiet c e t : quietly (start_body c e t).
Proof.
  unfold start_body. destruct downstreamEnabled eqn:HD; quiet_walk.
  exfalso. match goal with H : _ && false = true |- _ => by rewrite andb_false_r in H end.
Qed.
#[local] Hint Resolve start_body_quiet : quiet.

Lemma start_failed_quiet c e f : quietly (start_failed c e f).
Proof. unfold start_failed. quiet_walk. Qed.
#[local] Hint Resolve start_failed_quiet : quiet.

Lemma createServerConnection_quiet c t : quietly (createServerConnection c t).
Proof. unfold createServerConnection. quiet_walk. Qed.
#[local] Hint Resolve createServerConnection_quiet : quiet.

(** ** The manager *)

Lemma initialize_call_quiet now e s : s <> Some Online -> within answers quiet nat (Do (initializeManagedServerContext now e s)).
Proof. intros Hs. apply quiet_Do. intros w. by apply quiet_initialize. Qed.

Lemma initialize_temporary_call_quiet now e u t s :
  s <> Some Online -> within answers quiet nat (Do (initializeTemporaryServerContext now e u t s)).
Proof. intros Hs. apply quiet_Do. intros w. by apply quiet_initialize_temporary. Qed.

Lemma restored_not_online row : Some (restored_status row) <> Some Online.
Proof. unfold restored_status. by destruct (isLazyStartApplicable row). Qed.

Lemma none_not_online : @None ServerStatus <> Some Online.
Proof. done. Qed.
#[local] Hint Resolve initialize_call_quiet initialize_temporary_call_quiet restored_not_online none_not_online : quiet.

Lemma restoreManagedServerContext_quiet s : quietly (restoreManagedServerContext s).
Proof. unfold restoreManagedServerContext. quiet_walk. Qed.
#[local] Hint Resolve restoreManagedServerContext_quiet : quiet.

Lemma restoreTemporaryServerContext_quiet s u : quietly (restoreTemporaryServerContext s u).
Proof. unfold restoreTemporaryServerContext. quiet_walk. Qed.
#[local] Hint Resolve restoreTemporaryServerContext_quiet : quiet.

Lemma restoreServerContext_quiet s u : quietly (restoreServerContext s u).
Proof. unfold restoreServerContext. quiet_walk. Qed.
#[local] Hint Resolve restoreServerContext_quiet : quiet.

Lemma start_token_quiet row u : quietly (start_token row u).
Proof. unfold start_token. quiet_walk. Qed.
#[local] Hint Resolve start_token_quiet : quiet.

Lemma wakeupServer_quiet c u : quietly (wakeupServer c u).
Proof. unfold wakeupServer. quiet_walk. Qed.
#[local] Hint Resolve wakeupServer_quiet : quiet.

Lemma poll_ready_quiet n s u t : quietly (poll_ready n s u t).
Proof. induction n as [|n IH]; [exact I|]. cbn [poll_ready]. quiet_walk. Qed.
#[local] Hint Resolve poll_ready_quiet : quiet.

Lemma waitForServerReady_quiet s u : quietly (waitForServerReady s u).
Proof. apply every_call; [quiet_call|]. intros t. apply poll_ready_quiet. Qed.
#[local] Hint Resolve waitForServerReady_quiet : quiet.

Lemma sleepServer_quiet c : quietly (sleepServer c).
Proof. unfold sleepServer. quiet_walk. Qed.
#[local] Hint Resolve sleepServer_quiet : quiet.

Lemma sleep_each_quiet l : quietly (sleep_each l).
Proof. induction l as [|c l IH]; [exact I|]. cbn [sleep_each]. quiet_walk. Qed.
#[local] Hint Resolve sleep_each_quiet : quiet.

Lemma checkIdleServers_quiet : quietly checkIdleServers.
Proof. unfold checkIdleServers. quiet_walk. Qed.

Lemma addServer_quiet e t : quietly (addServer e t).
Proof. unfold addServer. quiet_walk. Qed.
#[local] Hint Resolve addServer_quiet : quiet.

Lemma start_again_quiet c t : quietly (start_again c t).
Proof. unfold start_again. quiet_walk. Qed.
#[local] Hint Resolve start_again_quiet : quiet.

Lemma reconnectServer_quiet e t : quietly (reconnectServer e t).
Proof. unfold reconnectServer. quiet_walk. Qed.
#[local] Hint Resolve reconnectServer_quiet : quiet.

Lemma reconnectTemporaryServer_quiet e u t : quietly (reconnectTemporaryServer e u t).
Proof. unfold reconnectTemporaryServer. quiet_walk. Qed.
#[local] Hint Resolve reconnectTemporaryServer_quiet : quiet.

Lemma createTemporaryServer_quiet u e t b : quietly (createTemporaryServer u e t b).
Proof. unfold createTemporaryServer. quiet_walk. Qed.
#[local] Hint Resolve createTemporaryServer_quiet : quiet.

Lemma recordTimeout_quiet c e : quietly (recordTimeout c e).
Proof. unfold recordTimeout. quiet_walk. Qed.
#[local] Hint Resolve recordTimeout_quiet : quiet.

Lemma prepare_connection_quiet now row l w : quiet w (prepare_connection now row l w).2.
Proof.
  unfold prepare_connection. destruct (allowUserInput row); [apply quiet_refl|].
  set (running := match assoc _ _ with Some _ => _ | None => _ end). destruct running; [apply quiet_refl|].
  pose proof (quiet_alloc_entity row w) as He. destruct (alloc_entity row w) as [e w1].
  assert (Hi := quiet_initialize now e None w1 ltac:(done)).
  destruct (initializeManagedServerContext now e None w1) as [c w2]. cbn beta iota zeta delta [snd] in *.
  assert (H2 : quiet w (upd_context c (fun x => clearTimeout (clearError x)) w2)).
  { eapply quiet_trans; [exact He|]. eapply quiet_trans; [exact Hi|]. by apply quiet_context. }
  destruct (isLazyStartApplicable row); cbn beta iota zeta delta [snd]; [|exact H2].
  eapply quiet_trans; [exact H2|]. apply quiet_context. intros _ _. by apply linked_status.
Qed.

Lemma prepare_connections_quiet now rows l w : quiet w (prepare_connections now rows l w).2.
Proof.
  revert l w. induction rows as [|row rows IH]; intros l w; [apply quiet_refl|]. cbn [prepare_connections].
  pose proof (prepare_connection_quiet now row l w) as H. destruct (prepare_connection now row l w) as [l' w'].
  eapply quiet_trans; [exact H|apply IH].
Qed.

Lemma connectAllServers_begin_quiet : quietly connectAllServers_begin.
Proof.
  unfold connectAllServers_begin. quiet_walk. split; [apply quiet_Do; intros w; apply prepare_connections_quiet|done].
Qed.

Lemma put_to_sleep_quiet now rows w : quiet w (put_to_sleep now rows w).
Proof.
  revert w. induction rows as [|row rows IH]; intros w; [apply quiet_refl|]. cbn [put_to_sleep].
  eapply quiet_trans; [|apply IH]. destruct (_ || _); [apply quiet_refl|].
  pose proof (quiet_alloc_entity row w) as He. destruct (alloc_entity row w) as [e w1].
  eapply quiet_trans; [exact He|]. by apply quiet_initialize.
Qed.

Lemma initialize_manager_quiet : quietly initialize_manager.
Proof.
  unfold initialize_manager. quiet_walk. split; [apply quiet_modify; intros w; apply put_to_sleep_quiet|done].
Qed.

(** ** Subscriptions *)

Lemma subscription_state_quiet k s u x : within answers quiet nat (Do (subscription_state k s u x)).
Proof.
  apply quiet_Do. intros w. unfold subscription_state. destruct (assoc _ _); [apply quiet_refl|].
  apply quiet_other; cbn; try done. lia.
Qed.

Lemma subscription_failed_quiet k s x b : within answers quiet unit (modify (subscription_failed k s x b)).
Proof.
  apply quiet_modify. intros w. unfold subscription_failed.
  assert (H : quiet w (if b then w else upd_subscription s (leave x) w)).
  { destruct b; [apply quiet_refl|apply quiet_subscription]. }
  destruct (nobody _); [|exact H]. eapply quiet_trans; [exact H|]. by apply quiet_other.
Qed.
#[local] Hint Resolve subscription_state_quiet subscription_failed_quiet : quiet.

Lemma unsubscribeResourceState_quiet k s x : quietly (unsubscribeResourceState k s x).
Proof. unfold unsubscribeResourceState. quiet_walk. Qed.
#[local] Hint Resolve unsubscribeResourceState_quiet : quiet.

Lemma await_subscription_quiet s conn u : quietly (await_subscription s conn u).
Proof. unfold await_subscription. quiet_walk. Qed.
#[local] Hint Resolve await_subscription_quiet : quiet.

Lemma subscribeResource_quiet s u x y : quietly (subscribeResource s u x y).
Proof. unfold subscribeResource. quiet_walk. Qed.
#[local] Hint Resolve subscribeResource_quiet : quiet.

Lemma unsubscribeResource_quiet s u x y : quietly (unsubscribeResource s u x y).
Proof. unfold unsubscribeResource. quiet_walk. Qed.
#[local] Hint Resolve unsubscribeResource_quiet : quiet.
End Quiet.
