(* ===== verification/ServerStarts.v ===== *)
(** * One start at a time

    All methods of the server manager as threads: however they interleave,
    at most one start runs for each key of [serverWaitQueues], the requests
    that come meanwhile wait for it, and no context is online without a
    connection where the modern protocol is not used downstream. *)
From Stdlib Require Import ZArith Lia.
From stdpp Require Import base gmap sets strings list.
From coqutil Require Import Datatypes.RecordSetters.
From S2P Require Import Prelude Json JsMap Access Effects Monitor ServerTypes LaunchConfig CapabilityDiff ServerContext ServerWorld TokenRefresh ServerStart ServerManager ServerQuiet.
Open Scope Z_scope.

Section Starts.
Context {D : Deployment}.

(** ** The methods as threads *)

Definition plain {A} (p : prog scall A) : prog scall unit := bind! _ := p in Ret tt.

(** What the rest of the system may run; everything of the manager but
    [shutdown], whose parts are below. *)
Inductive method : prog scall unit -> Prop :=
| m_ensure server user : method (plain (ensureServerAvailable server user))
| m_add entity token : method (plain (addServer entity token))
| m_remove server : method (plain (removeServer server))
| m_reconnect entity token : method (plain (reconnectServer entity token))
| m_reconnect_temporary entity user token : method (plain (reconnectTemporaryServer entity user token))
| m_create_temporary user entity token sleep : method (plain (createTemporaryServer user entity token sleep))
| m_close_temporary key : method (plain (close_temporary key))
| m_unconfigure user server : method (plain (handleUnconfigureServer user server))
| m_connect c token : method (plain (createServerConnection c token))
| m_begin_all : method (plain connectAllServers_begin)
| m_initialize : method initialize_manager
| m_idle : method checkIdleServers
| m_refresh c : method (plain (performTokenRefresh c))
| m_timeout c e : method (plain (recordTimeout c e))
| m_closed c entity t runner b : method (transport_closed c entity t runner b)
| m_subscribe server uri session user : method (plain (subscribeResource server uri session user))
| m_unsubscribe server uri session user : method (plain (unsubscribeResource server uri session user))
| m_unsubscribe_state key s session : method (plain (unsubscribeResourceState key s session))
| m_answered s n r : method (subscription_answered s n r).

Lemma plain_quiet {A} (p : prog scall A) : every (within answers quiet) p -> every (within answers quiet) (plain p).
Proof. intros H. apply every_bind; [exact H|done]. Qed.

Lemma methods_quiet p :
  method p -> (exists server user, p = plain (ensureServerAvailable server user)) \/ every (within answers quiet) p.
Proof.
  destruct 1; [by left; eauto|right..]; first
    [ apply plain_quiet | idtac ];
  first [ apply addServer_quiet | apply removeServer_quiet | apply reconnectServer_quiet | apply reconnectTemporaryServer_quiet
        | apply createTemporaryServer_quiet | apply close_temporary_quiet | apply handleUnconfigureServer_quiet
        | apply createServerConnection_quiet | apply connectAllServers_begin_quiet | apply initialize_manager_quiet
        | apply checkIdleServers_quiet | apply performTokenRefresh_quiet | apply recordTimeout_quiet | apply transport_closed_quiet
        | apply subscribeResource_quiet | apply unsubscribeResource_quiet | apply unsubscribeResourceState_quiet
        | apply subscription_answered_quiet ].
Qed.

(** [shutdown] runs a disconnection for every context ([shutdown_closes]), all
    at once; when they are through, it clears the manager's tables, the queue
    of starts with them ([shutdown_finish]). *)
Definition shutdown_end : prog scall unit := modify shutdown_finish !; Ret tt.

Inductive shutdown_part : prog scall unit -> Prop :=
| shutdown_close c : shutdown_part (plain (disconnectServerContext c Offline))
| shutdown_clear : shutdown_part shutdown_end.

Definition method_or_shutdown (p : prog scall unit) : Prop := method p \/ shutdown_part p.

(** The runs of all of them in which [shutdown] clears the tables only while
    no start is in the queue; it does so in one turn. *)
Inductive undisturbed (w0 : World) : list (prog scall unit) * World -> Prop :=
| undisturbed_start : undisturbed w0 ([], w0)
| undisturbed_turn c c' : undisturbed w0 c ->
    turn atomic answers (fun p => method p \/ exists i, p = plain (disconnectServerContext i Offline)) c c' -> undisturbed w0 c'
| undisturbed_clear pool w : undisturbed w0 (pool, w) -> serverWaitQueues w = ∅ ->
    undisturbed w0 (pool ++ [Ret tt], shutdown_finish w).

(** The same, the condition being tested by the program that clears. *)
Definition cautious_end : prog scall unit :=
  modify (fun w => if bool_decide (serverWaitQueues w = ∅) then shutdown_finish w else w) !; Ret tt.

Definition entered (p : prog scall unit) : Prop :=
  (method p \/ exists i, p = plain (disconnectServerContext i Offline)) \/ p = cautious_end.

Lemma turn_mono {A} (entry entry' : prog scall A -> Prop) c c' :
  (forall p, entry p -> entry' p) -> turn atomic answers entry c c' -> turn atomic answers entry' c c'.
Proof. intros H. destruct 1; [eapply turn_start; [by apply H|done]|by eapply turn_resume]. Qed.

Lemma undisturbed_reachable w0 c : undisturbed w0 c -> reachable atomic answers entered w0 c.
Proof.
  induction 1 as [|c c' _ IH Ht|pool w _ IH Hq]; [constructor|..]; (eapply reachable_turn; [exact IH|]).
  - eapply turn_mono; [|exact Ht]. by left.
  - eapply turn_start; [by right|]. eapply burst_call; [done|reflexivity|].
    cbn. rewrite bool_decide_true by done. constructor.
Qed.

Lemma cautious_end_quiet : every (within answers quiet) cautious_end.
Proof.
  split; [|done]. intros w [] w'. cbn. intros [= <-]. case_bool_decide as Hq; [|apply quiet_refl].
  split; [by repeat split; cbn; rewrite ?Hq|]. by intros ?.
Qed.

(** ** Starts and the queue *)

(** What a thread that runs a start holds: its key, its promise, and whether
    the start is over. *)
Notation ghost := (option (string * nat * bool)).

Record starts_ok (w : World) (gs : list ghost) : Prop := {
  queue_held : forall key n, serverWaitQueues w !! key = Some n <-> exists b, Some (key, n, b) ∈ gs;
  held_once : NoDup (omap (fun g => fst <$> g) gs);
  starting_held : forall key n, promises w !! n = Some (Starting key) <-> Some (key, n, false) ∈ gs;
  settled_held : forall key n, Some (key, n, true) ∈ gs -> exists r, promises w !! n = Some (Started r);
  promises_old : forall n, is_Some (promises w !! n) -> (n < next w)%nat;
  held_old : forall key n b, Some (key, n, b) ∈ gs -> (n < next w)%nat
}.

Lemma starts_perm w gs gs' : gs ≡ₚ gs' -> starts_ok w gs -> starts_ok w gs'.
Proof.
  intros E [H1 H2 H3 H4 H5 H6]. split; intros.
  - rewrite H1. by setoid_rewrite E.
  - by rewrite <- E.
  - by rewrite <- E.
  - apply (H4 key). by rewrite E.
  - auto.
  - apply (H6 key n b). by rewrite E.
Qed.

Lemma starts_quiet w w' gs : quiet w w' -> starts_ok w gs -> starts_ok w' gs.
Proof.
  intros [(Q & P & N) _] [H1 H2 H3 H4 H5 H6]. split; intros.
  - by rewrite Q.
  - done.
  - by rewrite P.
  - rewrite P in *. eauto.
  - rewrite P in *. specialize (H5 n ltac:(done)). lia.
  - specialize (H6 _ _ _ ltac:(done)). lia.
Qed.

Lemma starts_none w gs : starts_ok w (None :: gs) <-> starts_ok w gs.
Proof.
  assert (E : forall g (x : string * nat * bool), Some x ∈ None :: g <-> Some x ∈ g).
  { intros g x. rewrite elem_of_cons. split; [by intros [|]|by right]. }
  split; intros [H1 H2 H3 H4 H5 H6]; split; cbn in *; intros; try (rewrite ?E in *); eauto;
    first [rewrite H1; by setoid_rewrite E | by rewrite H3, ?E | (apply (H4 key); by apply E) | (apply (H6 key n b); by apply E)].
Qed.

(** ** The steps of a start *)

Lemma starts_begin key w gs n w' :
  serverWaitQueues w !! key = None -> starts_ok w gs -> new_start key w = (n, w') ->
  starts_ok (enqueue key n w') (Some (key, n, false) :: gs).
Proof.
  intros Hk [H1 H2 H3 H4 H5 H6] [= <- <-]. split; cbn.
  - intros k m. rewrite lookup_insert_Some. setoid_rewrite elem_of_cons. split.
    + intros [[<- <-]|[Hne Hq]]; [by exists false; left|]. apply H1 in Hq as [b Hb]. exists b. by right.
    + intros [b [[= -> -> ->]|Hb]]; [by left|]. right.
      assert (Hq : serverWaitQueues w !! k = Some m) by (apply H1; by exists b).
      split; [|done]. intros <-. congruence.
  - constructor; [|done]. rewrite list_elem_of_omap. intros (g & Hg & E). destruct g as [[[k m] b]|]; [|done].
    cbn in E. injection E as -> ->. assert (Hq : serverWaitQueues w !! key = Some (next w)) by (apply H1; by exists b).
    congruence.
  - intros k m. rewrite lookup_insert_Some, elem_of_cons. split.
    + intros [[<- [= ->]]|[Hne Hp]]; [by left|right]. by apply H3.
    + intros [[= -> ->]|Hg]; [by left|right]. pose proof (H6 _ _ _ Hg). split; [lia|by apply H3].
  - intros k m. rewrite elem_of_cons. intros [|Hg]; [done|]. pose proof (H6 _ _ _ Hg) as Hl. destruct (H4 _ _ Hg) as [r Hr].
    exists r. rewrite lookup_insert_ne; [done|]. lia.
  - intros m. destruct (decide (m = next w)) as [->|Hm]; [intros _; lia|]. rewrite lookup_insert_ne by done.
    intros Hp. specialize (H5 m Hp). lia.
  - intros k m b. rewrite elem_of_cons. intros [[= -> -> ->]|Hg]; [lia|]. specialize (H6 _ _ _ Hg). lia.
Qed.

(** A start that is not over is one thread's. *)
Lemma others_differ w key n gs :
  starts_ok w (Some (key, n, false) :: gs) -> forall key' b', Some (key', n, b') ∉ gs.
Proof.
  intros [H1 H2 H3 H4 H5 H6] key' b' Hg. assert (Hn : promises w !! n = Some (Starting key)) by (apply H3; by left).
  destruct b'.
  - destruct (H4 key' n) as [r Hr]; [by right|]. congruence.
  - assert (Hn' : promises w !! n = Some (Starting key')) by (apply H3; by right).
    assert (key' = key) as -> by congruence. cbn in H2. apply NoDup_cons in H2 as [H2 _]. apply H2.
    apply list_elem_of_omap. by exists (Some (key, n, false)).
Qed.

Lemma starts_settle key n r w gs :
  starts_ok w (Some (key, n, false) :: gs) -> starts_ok (settle_start n r w) (Some (key, n, true) :: gs).
Proof.
  intros Hw. pose proof (others_differ _ _ _ _ Hw) as Hfresh. destruct Hw as [H1 H2 H3 H4 H5 H6]. split; cbn in *.
  - intros k m. rewrite H1. setoid_rewrite elem_of_cons. split; intros [b [[= -> -> ->]|Hb]]; eauto.
  - done.
  - intros k m. rewrite lookup_insert_Some, H3, !elem_of_cons. split.
    + intros [[_ ?]|[Hne [[= -> ->]|Hg]]]; [done..|by right].
    + intros [|Hg]; [done|]. right. split; [|by right]. intros <-. by apply (Hfresh k false).
  - intros k m. rewrite elem_of_cons. destruct (decide (m = n)) as [->|Hm]; [intros _; rewrite lookup_insert_eq; eauto|].
    rewrite lookup_insert_ne by done. intros [[= -> ->]|Hg]; [done|]. apply (H4 k). by right.
  - intros m. destruct (decide (m = n)) as [->|Hm]; [intros _; apply (H6 key n false); by left|].
    rewrite lookup_insert_ne by done. auto.
  - intros k m b. rewrite elem_of_cons. intros [[= -> -> ->]|Hg]; [apply (H6 key n false); by left|].
    apply (H6 k m b). by right.
Qed.

Lemma starts_end key n w gs : starts_ok w (Some (key, n, true) :: gs) -> starts_ok (dequeue key w) gs.
Proof.
  intros [H1 H2 H3 H4 H5 H6]. cbn in *.
  assert (Hq : serverWaitQueues w !! key = Some n) by (apply H1; exists true; by left).
  apply NoDup_cons in H2 as [Hnew H2].
  assert (Hother : forall k m b, Some (k, m, b) ∈ gs -> k <> key).
  { intros k m b Hg ->. assert (serverWaitQueues w !! key = Some m) by (apply H1; exists b; by right).
    assert (m = n) as -> by congruence. apply Hnew. apply list_elem_of_omap. by exists (Some (key, n, b)). }
  split; cbn.
  - intros k m. rewrite lookup_delete_Some, H1. setoid_rewrite elem_of_cons. split.
    + intros [Hne [b [[= -> -> ->]|Hb]]]; [done|by exists b].
    + intros [b Hb]. split; [apply not_eq_sym; by eapply Hother|]. exists b. by right.
  - done.
  - intros k m. rewrite H3, elem_of_cons. split; [by intros [|]|by right].
  - intros k m Hg. apply (H4 k). by right.
  - auto.
  - intros k m b Hg. apply (H6 k m b). by right.
Qed.

(** ** Threads keep the starts in order *)

Notation kept := (keeps atomic answers starts_ok).

Lemma quiet_kept {A} (p : prog scall A) (g : ghost) w gs :
  every (within answers quiet) p -> starts_ok w (g :: gs) -> kept p w gs (fun _ w' gs' => starts_ok w' (g :: gs')).
Proof. intros Hp. apply every_keeps with (R := quiet); [|exact Hp]. intros ? ? ?. apply starts_quiet. Qed.

Lemma quiet_method {A} (p : prog scall A) w gs :
  every (within answers quiet) p -> starts_ok w gs -> kept p w gs (fun _ => starts_ok).
Proof.
  intros Hp Hw. eapply keeps_mono; [by apply (quiet_kept p None), starts_none|]. intros a w' gs'. apply starts_none.
Qed.

Lemma quiet_enqueue key n w w' : quiet w w' -> quiet (enqueue key n w) (enqueue key n w').
Proof. intros [(Q & P & N) L]. repeat split; cbn; [by rewrite Q|done..]. Qed.

(** The queue entry is made before the start's first await. *)
Lemma called_kept {A} (p : prog scall A) key n w gs :
  every (within answers quiet) p -> starts_ok (enqueue key n w) (Some (key, n, false) :: gs) ->
  kept (called p (modify (enqueue key n))) w gs (fun _ w' gs' => starts_ok w' (Some (key, n, false) :: gs')).
Proof.
  revert w gs. induction p as [a|X e k IH|]; intros w gs Hp Hw; cbn [called].
  - cbn. intros [] s' [= <-]. exact Hw.
  - destruct (atomic X e) eqn:He.
    + cbn [keeps]. rewrite He. intros x w' Ha. apply IH; [by apply Hp|].
      eapply starts_quiet; [|exact Hw]. apply quiet_enqueue. by eapply Hp.
    + cbn [keeps modify atomic answers]. intros [] w' [= <-].
      apply (quiet_kept (Vis X e k)); [exact Hp|exact Hw].
  - cbn. intros [] s' [= <-]. by eexists.
Qed.

Lemma starts_touch c now w gs : starts_ok w gs -> starts_ok (upd_context c (fun x => x <| lastActive := now |>) w) gs.
Proof. apply starts_quiet. apply quiet_context. intros _ H. exact H. Qed.

(** [p] holding nothing, from where the invariant holds. *)
Notation fine p w gs := (kept p w gs (fun _ => starts_ok)).

Lemma shared_start_kept key c user w gs :
  serverWaitQueues w !! key = None -> starts_ok w gs -> fine (shared_start key c user) w gs.
Proof.
  intros Hk Hw. unfold shared_start. cbn [keeps atomic answers]. intros n w1 Hn.
  apply keeps_bind. eapply keeps_mono; [apply called_kept; [apply wakeupServer_quiet|by eapply starts_begin]|].
  cbn beta. intros r w2 gs2 H2. cbn [keeps modify atomic answers]. intros [] w3 [= <-].
  exists (Some (key, n, true)). split; [by apply starts_settle|]. intros w4 gs4 [] w5 H4 ->.
  destruct r as [a|e]; cbn [keeps modify touch on_context atomic answers].
  - intros now w6 ->. intros [] w7 [= <-]. intros [] w8 [= <-]. apply (starts_end key n). by apply starts_touch.
  - intros [] w6 [= <-]. by apply (starts_end key n).
Qed.

Lemma gets_kept {X A} (f : World -> X) (k : X -> prog scall A) w gs Q :
  kept (k (f w)) w gs Q -> kept (Vis X (gets f) k) w gs Q.
Proof. intros H. cbn. intros x w' [= <- <-]. exact H. Qed.

Lemma available_kept server user c w gs : starts_ok w gs -> fine (available server user c) w gs.
Proof.
  intros Hw. unfold available. do 2 apply gets_kept. case_bool_decide.
  - cbn. intros now w1 ->. intros [] w2 [= <-]. by apply starts_touch.
  - apply gets_kept. destruct (serverWaitQueues w !! _) as [n|] eqn:Hq.
    + cbn. exists None. split; [by apply starts_none|]. intros w1 gs1 x w2 H1 [_ ->]. by apply starts_none.
    + destruct (needs_start _ _); [by apply shared_start_kept|]. case_bool_decide.
      * apply quiet_method; [|exact Hw]. apply every_bind; [|by intros []].
        apply every_bind; [apply waitForServerReady_quiet|intros r]. by repeat split; intros; cbn in *; subst; apply quiet_refl.
      * exact Hw.
Qed.

Lemma awaited_quiet {A} (p : prog scall A) : every (within answers quiet) p -> every (within answers quiet) (awaited p).
Proof.
  intros H. apply every_bind; [exact H|]. intros a. apply every_call; [|done]. intros w [] w' ->. apply quiet_refl.
Qed.

Lemma ensure_kept server user w gs : starts_ok w gs -> fine (ensureServerAvailable server user) w gs.
Proof.
  intros Hw. unfold ensureServerAvailable. apply gets_kept. destruct (getServerContext server user w) as [c|].
  - by apply available_kept.
  - apply keeps_bind. eapply keeps_mono; [apply quiet_method; [apply awaited_quiet, restoreServerContext_quiet|exact Hw]|].
    cbn beta. intros [[c|]|e] w1 gs1 H1; [by apply available_kept|done..].
Qed.

Lemma methods_kept p : method p -> method_ok atomic answers starts_ok p.
Proof.
  intros Hp w gs Hw. destruct (methods_quiet p Hp) as [(server & user & ->)|Hq].
  - apply keeps_bind. eapply keeps_mono; [by apply ensure_kept|]. done.
  - by apply quiet_method.
Qed.

Lemma entered_kept p : entered p -> method_ok atomic answers starts_ok p.
Proof.
  intros [[Hp|[i ->]]| ->]; [by apply methods_kept|..]; intros w gs Hw; (apply quiet_method; [|done]).
  - by apply plain_quiet, disconnectServerContext_quiet.
  - apply cautious_end_quiet.
Qed.

(** ** The theorem *)

(** No start has begun. *)
Definition no_starts (w : World) : Prop := serverWaitQueues w = ∅ /\ promises w = ∅.

Lemma starts_initial w : no_starts w -> starts_ok w [].
Proof.
  intros [HQ HP]. split; rewrite ?HQ, ?HP.
  - intros key n. rewrite lookup_empty. split; [done|]. by intros [b ?%elem_of_nil].
  - constructor.
  - intros key n. rewrite lookup_empty, elem_of_nil. by split.
  - by intros key n ?%elem_of_nil.
  - intros n. rewrite lookup_empty. by intros [].
  - by intros key n b ?%elem_of_nil.
Qed.

(** A request made while a start for its key is in the queue. *)
Definition joins (w : World) (server : string) (user : option string) (c n : nat) : Prop :=
  status (context_at w c) <> Online /\
  serverWaitQueues w !! wait_key (row_of_context w c) server user = Some n.

Lemma gets_bursts {X A} (f : World -> X) (k : X -> prog scall A) w Q :
  bursts atomic answers (k (f w)) w Q -> bursts atomic answers (Vis X (gets f) k) w Q.
Proof. intros H. cbn. intros x w' [= <- <-]. exact H. Qed.

Lemma joins_waits server user c n w :
  joins w server user c n ->
  bursts atomic answers (available server user c) w (fun p' w' => p' = Vis _ (AwaitStart n) Ret /\ w' = w).
Proof.
  intros [Hs Hj]. unfold available. do 2 apply gets_bursts. rewrite bool_decide_false by exact Hs.
  apply gets_bursts. rewrite Hj. by split.
Qed.

(** C17: However the manager's methods interleave, [shutdown] among them as
    long as it does not clear the queue with a start in it: each key has at
    most one start that is not over, it is the one in the queue, and a request
    that comes then does nothing but wait for it.  The condition is needed
    ([shutdown_lets_two_start]). *)
Theorem one_start_per_key (w0 : World) (pool : list (prog scall unit)) (w : World) :
  no_starts w0 -> undisturbed w0 (pool, w) ->
  (forall key n m, promises w !! n = Some (Starting key) -> promises w !! m = Some (Starting key) -> n = m)
  /\ (forall key n, promises w !! n = Some (Starting key) -> serverWaitQueues w !! key = Some n)
  /\ (forall key n, serverWaitQueues w !! key = Some n -> 
        promises w !! n = Some (Starting key) \/ exists r, promises w !! n = Some (Started r))
  /\ (forall server user c n p' w', joins w server user c n ->
        burst atomic answers (available server user c) w p' w' -> p' = Vis _ (AwaitStart n) Ret /\ w' = w).
Proof.
  intros H0 Hr%undisturbed_reachable. destruct (reachable_invariant atomic answers starts_ok starts_perm entered w0 _ entered_kept (starts_initial w0 H0) Hr)
    as (gss & _ & HJ). destruct HJ as [H1 H2 H3 H4 H5 H6].
  assert (Hq : forall key n, promises w !! n = Some (Starting key) -> serverWaitQueues w !! key = Some n).
  { intros key n Hp. apply H1. exists false. by apply H3. }
  split_and!.
  - intros key n m Hn Hm. apply Hq in Hn. apply Hq in Hm. congruence.
  - exact Hq.
  - intros key n Hn. apply H1 in Hn as [[] Hn]; [right; by eapply H4|left; by apply H3].
  - intros server user c n p' w' Hj Hb.
    exact (burst_bursts atomic answers _ _ _ _ _ Hb (joins_waits _ _ _ _ _ Hj)).
Qed.

(** ** Online with a connection *)

Definition linking (w w' : World) : Prop := all_linked w -> all_linked w'.

Lemma quiet_linking {A} (p : prog scall A) :
  downstreamEnabled = false -> every (within answers quiet) p -> every (within answers linking) p.
Proof. intros HD H. eapply every_mono; [exact H|]. intros X e He w x w' Ha. destruct (He w x w' Ha) as [_ HL]. exact (HL HD). Qed.

Lemma called_every {A} (p : prog scall A) (after : scall unit) (R : World -> World -> Prop) :
  every (within answers R) p -> within answers R unit after -> every (within answers R) (called p after).
Proof.
  intros Hp Ha. induction p as [a|X e k IH|]; cbn [called]; [by split| |by split].
  destruct Hp as [He Hk]. destruct (atomic X e); [split; auto|]. split; [done|]. intros _. by split.
Qed.

Lemma same_contexts_linking {X} (f : World -> X * World) :
  (forall w, contexts (f w).2 = contexts w) -> within answers linking X (Do f).
Proof. intros Hf w x w' E H c y. specialize (Hf w). cbn in E. rewrite E in Hf. cbn in Hf. rewrite Hf. apply H. Qed.

Lemma linked_touch w c now : all_linked w -> all_linked (upd_context c (fun x => x <| lastActive := now |>) w).
Proof.
  intros H c' x. rewrite contexts_upd_context. intros [[<- <-]|[_ Hx]]%lookup_insert_Some; [|by eapply H].
  by apply (linked_at w c H).
Qed.

Lemma touch_linking c now : within answers linking unit (touch c now).
Proof. intros w [] w' [= <-] H c' x. exact (linked_touch w c now H c' x). Qed.

(** A call that keeps the contexts. *)
Ltac linking_call :=
  first [ apply touch_linking | by apply same_contexts_linking | (intros ? ? ?; cbn; first [intros ->|intros [_ ->]]; exact (fun H => H)) ].

Lemma shared_start_linking key c user :
  downstreamEnabled = false -> every (within answers linking) (shared_start key c user).
Proof.
  intros HD. unfold shared_start. apply every_call; [linking_call|intros n].
  apply every_bind; [apply called_every; [by apply quiet_linking, wakeupServer_quiet|linking_call]|intros r].
  do 2 (apply every_call; [linking_call|intros _]).
  destruct r as [a|e]; repeat (apply every_call; [linking_call|intros ?]); done.
Qed.

Lemma available_linking server user c :
  downstreamEnabled = false -> every (within answers linking) (available server user c).
Proof.
  intros HD. unfold available. do 2 (apply every_call; [linking_call|intros ?]). case_bool_decide.
  - do 2 (apply every_call; [linking_call|intros ?]). done.
  - apply every_call; [linking_call|intros q]. destruct q as [n|].
    + apply every_call; [linking_call|done].
    + destruct (needs_start _ _); [by apply shared_start_linking|]. case_bool_decide; [|done].
      apply quiet_linking; [done|]. apply every_bind; [|by intros []]. apply awaited_quiet, waitForServerReady_quiet.
Qed.

Lemma ensure_linking server user :
  downstreamEnabled = false -> every (within answers linking) (ensureServerAvailable server user).
Proof.
  intros HD. unfold ensureServerAvailable. apply every_call; [linking_call|intros found].
  destruct found as [c|]; [by apply available_linking|].
  apply every_bind; [by apply quiet_linking, awaited_quiet, restoreServerContext_quiet|].
  intros [[c|]|e]; [by apply available_linking|done..].
Qed.

(** C18: Without the modern protocol downstream, no interleaving ever leaves a
    context online that has no connection. *)
Theorem online_has_connection (w0 : World) (pool : list (prog scall unit)) (w : World) (c : nat) (x : ServerContext) :
  downstreamEnabled = false -> all_linked w0 -> reachable atomic answers method w0 (pool, w) ->
  contexts w !! c = Some x -> status x = Online -> connection x <> None.
Proof.
  intros HD H0 Hr Hx. refine (_ c x Hx). change (all_linked (snd (pool, w))).
  refine (reachable_preserves atomic answers all_linked method w0 _ _ H0 Hr). intros p s Hp.
  apply every_preserves. change (every (within answers linking) p).
  destruct (methods_quiet p Hp) as [(server & user & ->)|Hq]; [|by apply quiet_linking].
  apply every_bind; [by apply ensure_linking|done].
Qed.
End Starts.
