(* ===== verification/ServerTimers.v ===== *)
(** * Timers of the server manager

    The delays of the refresh timer, the end of waiting for a server, and
    when a server is put to sleep. *)
From Stdlib Require Import ZArith Lia.
From stdpp Require Import base gmap sets strings list.
From coqutil Require Import Datatypes.RecordSetters.
From S2P Require Import Prelude Json JsMap Access Effects Monitor ServerTypes LaunchConfig CapabilityDiff ServerContext ServerWorld TokenRefresh ServerStart ServerManager.
Open Scope Z_scope.

(** ** The refresh timer *)

(** [setTimeout] fires at once when its delay is no 32-bit number. *)
Definition MAX_DELAY : Z := 2 ^ 31 - 1.

(** [fits X e]: a timer [e] sets is at least ten seconds and fits. *)
Definition fits (X : Type) (e : scall X) : Prop :=
  match e with SetTimer _ d => 10000 <= d <= MAX_DELAY | _ => True end.

Lemma refresh_delay_fits expiry now : 10000 <= refresh_delay expiry now <= MAX_DELAY.
Proof. unfold refresh_delay, REFRESH_BUFFER, MAX_TIMEOUT_MS, MAX_DELAY. destruct (Z.ltb_spec 2147000000 (Z.max (expiry - now - 5 * 60 * 1000) 10000)); lia. Qed.

Create HintDb fits discriminated.

(** A program whose calls are looked at one by one. *)
Ltac fits_walk :=
  repeat first
    [ progress cbn beta iota
    | match goal with
      | |- every fits (Ret _) => exact I
      | |- every fits (match ?x with _ => _ end) => destruct x
      | |- every fits (if ?b then _ else _) => destruct b
      end
    | solve [eauto with fits]
    | progress unfold ok, throw, lift, awaited, try_bind, logged, clear_timer, persist_config
    | match goal with
      | |- every fits (Vis _ _ _) => apply every_call; [solve [exact I | apply refresh_delay_fits | done]|intros ?]
      | |- every fits (pbind _ _) => apply every_bind; [|intros ?]
      | |- every fits (let _ := _ in _) => intro
      end ].

Lemma start_timer_fits c d : 10000 <= d <= MAX_DELAY -> every fits (start_timer c d).
Proof. intros Hd. unfold start_timer. apply every_call; [exact Hd|intros t]. fits_walk. Qed.

Lemma scheduleNextRefresh_fits c : every fits (scheduleNextRefresh c).
Proof.
  assert (H := fun d => start_timer_fits c d). unfold scheduleNextRefresh. apply every_call; [exact I|intros [info|]]; [|exact I].
  unfold clear_timer. apply every_call; [exact I|intros timer].
  assert (Hk : every fits (call! now := Now in start_timer c (refresh_delay (expiresAt info) now))).
  { apply every_call; [exact I|intros now]. apply H, refresh_delay_fits. }
  destruct timer; [|exact Hk]. by apply every_call.
Qed.
#[local] Hint Resolve scheduleNextRefresh_fits : fits.

Lemma save_server_config_fits c cfg : every fits (save_server_config c cfg).
Proof. unfold save_server_config. fits_walk. Qed.
Lemma save_user_config_fits c cfg : every fits (save_user_config c cfg).
Proof. unfold save_user_config. fits_walk. Qed.
#[local] Hint Resolve save_server_config_fits save_user_config_fits : fits.

Lemma updateServerLaunchConfig_fits c cfg : every fits (updateServerLaunchConfig c cfg).
Proof. unfold updateServerLaunchConfig. fits_walk. Qed.
Lemma updateUserLaunchConfig_fits c cfg : every fits (updateUserLaunchConfig c cfg).
Proof. unfold updateUserLaunchConfig. fits_walk. Qed.
#[local] Hint Resolve updateServerLaunchConfig_fits updateUserLaunchConfig_fits : fits.

Lemma updateRefreshTokenToDatabase_fits c cfg : every fits (updateRefreshTokenToDatabase c cfg).
Proof. unfold updateRefreshTokenToDatabase. fits_walk. Qed.
#[local] Hint Resolve updateRefreshTokenToDatabase_fits : fits.

Lemma stopTokenRefresh_fits c : every fits (stopTokenRefresh c).
Proof. unfold stopTokenRefresh. fits_walk. Qed.
Lemma startTokenRefresh_fits c st : every fits (startTokenRefresh c st).
Proof. unfold startTokenRefresh. fits_walk. Qed.
Lemma notifyTokenUpdate_fits c t : every fits (notifyTokenUpdate c t).
Proof. unfold notifyTokenUpdate. fits_walk. Qed.
Lemma closeConnection_fits c s : every fits (closeConnection c s).
Proof. unfold closeConnection. fits_walk. Qed.
#[local] Hint Resolve stopTokenRefresh_fits startTokenRefresh_fits notifyTokenUpdate_fits closeConnection_fits : fits.

Lemma disconnectServerContext_fits c s : every fits (disconnectServerContext c s).
Proof. unfold disconnectServerContext. fits_walk. Qed.
#[local] Hint Resolve disconnectServerContext_fits : fits.

Lemma removeServer_fits sid : every fits (removeServer sid).
Proof. unfold removeServer, log_close. fits_walk. Qed.
Lemma close_temporary_fits key : every fits (close_temporary key).
Proof. unfold close_temporary, log_close. fits_walk. Qed.
Lemma clearIntercomOAuthState_fits c : every fits (clearIntercomOAuthState c).
Proof. unfold clearIntercomOAuthState. fits_walk. Qed.
#[local] Hint Resolve removeServer_fits close_temporary_fits clearIntercomOAuthState_fits : fits.

Lemma handleUnconfigureServer_fits u sid : every fits (handleUnconfigureServer u sid).
Proof. unfold handleUnconfigureServer, closeTemporaryServer. fits_walk. Qed.
#[local] Hint Resolve handleUnconfigureServer_fits : fits.

Lemma handleInvalidIntercomToken_fits c : every fits (handleInvalidIntercomToken c).
Proof. unfold handleInvalidIntercomToken. fits_walk. Qed.
Lemma refresh_attempt_fits c st : every fits (refresh_attempt c st).
Proof. unfold refresh_attempt. fits_walk. Qed.
#[local] Hint Resolve handleInvalidIntercomToken_fits refresh_attempt_fits : fits.

(** Whatever the token service says of the expiry, every timer the refreshing
    of a token sets waits at least ten seconds and never overflows; and the
    next refresh is due five minutes before the expiry whenever that is
    possible at all. *)
Theorem refresh_timers_in_range (c st : nat) (expiry now : Z) :
  every fits (startTokenRefresh c st) /\ every fits (performTokenRefresh c)
  /\ (now + 310000 <= expiry <= now + 2147000000 -> now + refresh_delay expiry now = expiry - 300000)
  /\ (forall later, now <= later -> refresh_delay expiry later <= refresh_delay expiry now).
Proof.
  split_and! ; [apply startTokenRefresh_fits| | |].
  - assert (Hretry : every fits (start_timer c RETRY_DELAY)) by (apply start_timer_fits; vm_compute; split; discriminate).
    unfold performTokenRefresh. fits_walk.
  - unfold refresh_delay, REFRESH_BUFFER, MAX_TIMEOUT_MS. intros H. destruct (Z.ltb_spec 2147000000 (Z.max (expiry - now - 5 * 60 * 1000) 10000)); lia.
  - unfold refresh_delay, REFRESH_BUFFER, MAX_TIMEOUT_MS. intros later H.
    destruct (Z.ltb_spec 2147000000 (Z.max (expiry - now - 5 * 60 * 1000) 10000)), (Z.ltb_spec 2147000000 (Z.max (expiry - later - 5 * 60 * 1000) 10000)); lia.
Qed.

(** ** Waiting for a server *)

(** The clock never goes back, [Now] reads it, and a sleep lasts as long as
    asked. *)
Definition clock (X : Type) (e : scall X) (x : X) (t t' : Z) : Prop :=
  t <= t' /\ match e in scall X return X -> Prop with
             | Now => fun now => now = t'
             | Sleep ms => fun _ => t + ms <= t'
             | _ => fun _ => True
             end x.

Lemma poll_ready_ends (n : nat) server user t0 t :
  t0 + ready_timeout + checkInterval <= t + checkInterval * Z.of_nat n ->
  timed clock (poll_ready (S n) server user t0) t (fun _ _ => True).
Proof.
  unfold ready_timeout, checkInterval. revert t. induction n as [|n IH]; intros t Ht; cbn [poll_ready timed];
    intros now t1 [H1 ->]; destruct (Z.leb_spec ready_timeout (t1 - t0)) as [Hl|Hl]; try done; unfold ready_timeout in *; [lia|].
  cbn [timed gets]. intros found t2 [H2 _].
  assert (Hagain : timed clock (Sleep 100 !; poll_ready (S n) server user t0) t2 (fun _ _ => True)).
  { cbn [timed]. intros [] t3 [_ H3]. apply IH. lia. }
  destruct found as [[c x]|]; [|exact Hagain]. repeat case_match; done.
Qed.

(** ** What it says *)

Definition timed_out (server : string) : exn :=
  Error ("Server " +:+ server +:+ " startup timeout after " +:+ z_to_string ready_timeout +:+ "ms").

Definition failed (x : ServerContext) : Prop :=
  status x = Access.Error \/ status x <> Online /\ status x <> Connecting /\ truthy_ostr (lastError x) = true.

(** The answer fits the server as it is when it is given. *)
Definition true_answer (server : string) (user : option string) (r : result exn nat) (w : World) : Prop :=
  match r with
  | Ok c => getServerContext server user w = Some c /\ status (context_at w c) = Online
  | Throw e => e = timed_out server
               \/ exists c, getServerContext server user w = Some c /\ failed (context_at w c)
                           /\ e = start_error server (context_at w c)
  end.

(** Other threads may do anything to the state at each await. *)
Notation amid p w Q := (keeps atomic answers (fun _ (_ : list unit) => True) p w [] Q).

Lemma poll_ready_true (n : nat) server user t0 w :
  amid (poll_ready n server user t0) w (fun r w' _ => true_answer server user r w').
Proof.
  assert (H : forall w gs, keeps atomic answers (fun _ (_ : list unit) => True) (poll_ready n server user t0) w gs
                             (fun r w' _ => true_answer server user r w')); [|apply H].
  clear w. induction n as [|n IH]; intros w gs; cbn [poll_ready]; [by exists tt|].
  cbn [keeps atomic answers]. intros now w1 ->. destruct (ready_timeout <=? now - t0); [by left|].
  cbn [keeps atomic answers gets]. intros found w1 [= <- <-].
  assert (Hagain : keeps atomic answers (fun _ (_ : list unit) => True) (Sleep checkInterval !; poll_ready n server user t0) w gs
                     (fun r w' _ => true_answer server user r w')).
  { cbn [keeps atomic answers]. exists tt. split; [done|]. intros s1 gs1 [] s2 _ ->. apply IH. }
  unfold watched. destruct (getServerContext server user w) as [c|] eqn:Hc; [|exact Hagain].
  case_bool_decide as Hs; [by split|]. case_bool_decide as He.
  { right. exists c. split_and! ; [done|by left|done]. }
  case_bool_decide as Hg; cbn [negb andb]; [exact Hagain|].
  destruct (truthy_ostr _) eqn:Ht; [|exact Hagain]. right. exists c. split_and! ; [done|by right|done].
Qed.

Definition waiting (n : nat) (server : string) (user : option string) : Async nat :=
  call! startTime := Now in poll_ready n server user startTime.

Lemma waiting_ends (n : nat) server user t :
  ready_timeout + 2 * checkInterval <= checkInterval * Z.of_nat n ->
  timed clock (waiting n server user) t (fun _ _ => True).
Proof.
  intros Hn. cbn [timed waiting]. intros t0 t1 [_ ->]. destruct n as [|n]; [unfold ready_timeout, checkInterval in *; lia|].
  apply poll_ready_ends. unfold ready_timeout, checkInterval in *. lia.
Qed.

Lemma waiting_true (n : nat) server user w : amid (waiting n server user) w (fun r w' _ => true_answer server user r w').
Proof. cbn [keeps atomic answers waiting]. intros t0 w1 ->. apply poll_ready_true. Qed.

(** Waiting for a server ends, however long the sleeps take, and whatever
    happens meanwhile the answer is true when it is given: an online context
    of that server, the error of its failed start, or that time is up. *)
Theorem waiting_ends_truly (server : string) (user : option string) (t : Z) (w : World) :
  timed clock (waitForServerReady server user) t (fun _ _ => True)
  /\ keeps atomic answers (fun _ (_ : list unit) => True) (waitForServerReady server user) w []
       (fun r w' _ => true_answer server user r w').
Proof.
  split.
  - apply (waiting_ends ready_polls). by apply Z.leb_le.
  - apply (waiting_true ready_polls).
Qed.
