(* ===== verification/ServerOutcome.v ===== *)
(** * What a start leaves behind

    [createServerConnection] when nothing interferes: the context of a server
    that started, of one that failed; what a failed start never does. *)
From Stdlib Require Import ZArith Lia.
From stdpp Require Import base gmap sets strings list.
From coqutil Require Import Datatypes.RecordSetters.
From S2P Require Import Prelude Json JsMap Access Effects ServerTypes LaunchConfig CapabilityDiff Monitor ServerContext ServerWorld TokenRefresh ServerStart ServerManager ServerQuiet ServerStarts.
Open Scope Z_scope.

Section Outcome.
Context {D : Deployment}.

(** ** The servers answer

    Nothing interferes with a start but the answers it waits for: the answer
    of a server to a subscription is itself code of the manager's
    ([subscription_answered]), run when the answer comes. *)

Definition subscription_settled (s n : nat) (r : result exn unit) (w : World) : World :=
  let mine st := bool_decide (downstreamSubscription st = Some n) in
  let w := upd_subscription s (fun st => if mine st && is_ok r then st <| downstreamSubscribed := true |> else st) w in
  upd_subscription s (fun st => if mine st then st <| downstreamSubscription := None |> else st)
    (w <| sub_promises := <[n := SubSettled r]> (sub_promises w) |>).

Lemma subscription_settled_exact s n r w :
  alone answers (subscription_answered s n r) w (fun _ w' => w' = subscription_settled s n r w).
Proof. unfold subscription_answered. intros ? w1 [= _ <-] ? w2 ->. by intros ? w3 [= _ <-]. Qed.

(** What a call is answered: as everywhere, and a subscription that is awaited
    as the server answers it then. *)
Definition served (X : Type) (e : scall X) (w : World) : X -> World -> Prop :=
  match e in scall X return X -> World -> Prop with
  | AwaitSubscription n => fun r w' => (sub_promises w !! n = Some (SubSettled r) /\ w' = w) \/ exists s, w' = subscription_settled s n r w
  | e => answers _ e w
  end.

(** Every call but waiting for another method's start has an answer. *)
Definition answerable (X : Type) (e : scall X) : Prop := match e with AwaitStart _ => False | _ => True end.

Lemma answerable_served X (e : scall X) w : answerable X e -> exists x w', served X e w x w'.
Proof.
  destruct e; cbn; intros H; try done;
    first [ by exists tt, w | by exists 0, w | by exists 0%nat, w | by exists None, w | by exists ""%string, w | by exists [], w
          | by exists (""%string, None), w | by exists (Throw (Error "")), w | idtac ].
  - destruct (f w) as [x w'] eqn:E. by exists x, w'.
  - exists (Ok tt), (subscription_settled 0 promise (Ok tt) w). right. by exists 0%nat.
Qed.

(** ** Reading what a server offers leaves its connection alone *)

Definition steady (c : nat) (w w' : World) : Prop :=
  status (context_at w' c) = status (context_at w c) /\ connection (context_at w' c) = connection (context_at w c).

Lemma steady_refl c w : steady c w w.
Proof. by split. Qed.

Lemma steady_trans c w1 w2 w3 : steady c w1 w2 -> steady c w2 w3 -> steady c w1 w3.
Proof. intros [A1 B1] [A2 B2]. split; congruence. Qed.

Lemma steady_other c (w w' : World) : contexts w' = contexts w -> steady c w w'.
Proof. intros E. unfold steady, context_at. by rewrite E. Qed.

Lemma steady_context c c' f w :
  (forall x, status (f x) = status x /\ connection (f x) = connection x) -> steady c w (upd_context c' f w).
Proof.
  intros Hf. unfold steady. rewrite context_at_upd. destruct (Nat.eqb_spec c c') as [->|]; [|done]. by destruct (Hf (context_at w c')).
Qed.

Lemma steady_apply_template c c' w : steady c w (apply_template c' w).
Proof.
  unfold apply_template. destruct (template_config _); [|apply steady_refl].
  refine (steady_trans c w (upd_entity _ (set_configured _) w) _ (steady_other _ _ _ eq_refl) _). apply steady_context. intros x. unfold ServerContext.updateCapabilitiesConfig.
  by case_match.
Qed.

Lemma steady_on_context c c' f :
  (forall x, status (f x) = status x /\ connection (f x) = connection x) -> within served (steady c) unit (on_context c' f).
Proof. intros Hf w [] w' [= <-]. by apply steady_context. Qed.

Lemma steady_Do {X} c (f : World -> X * World) :
  (forall w, contexts (f w).2 = contexts w) -> within served (steady c) X (Do f).
Proof. intros Hf w x w' E. apply steady_other. specialize (Hf w). cbn in E. by rewrite E in Hf. Qed.

Lemma steady_template_call c c' : within served (steady c) unit (modify (apply_template c')).
Proof. intros w [] w' [= <-]. apply steady_apply_template. Qed.

Create HintDb steady discriminated.
#[local] Hint Resolve steady_template_call : steady.

Ltac steady_call c :=
  first
    [ solve [auto with steady]
    | apply steady_on_context; intros; split; reflexivity
    | apply steady_Do; intros; reflexivity
    | by intros ? ? ?; cbn; intros ->; apply steady_refl
    | by intros ? ? ?; cbn; intros [[_ ->]|[? ->]]; [apply steady_refl|apply steady_other]
    | by intros ? ? ?; cbn; intros [_ ->]; apply steady_refl ].

Ltac steady_walk c :=
  repeat first
    [ progress cbn beta iota
    | match goal with
      | |- every _ (Ret _) => exact I
      | |- every _ (match ?x with _ => _ end) => destruct x
      | |- every _ (if ?b then _ else _) => destruct b
      end
    | solve [eauto with steady]
    | progress unfold ok, throw, lift, awaited, try_bind, save_preferences, request_subscription
    | match goal with
      | |- every _ (Vis _ _ _) => apply every_call; [steady_call c|intros ?]
      | |- every _ (pbind _ _) => apply every_bind; [|intros ?]
      | |- every _ (let _ := _ in _) => intro
      end ].

Notation steadily c := (every (within served (steady c))).

Lemma persistCapabilitiesCache_steady c c' l : steadily c (persistCapabilitiesCache c' l).
Proof. unfold persistCapabilitiesCache. steady_walk c. Qed.
#[local] Hint Resolve persistCapabilitiesCache_steady : steady.

Lemma load_tools_steady c c' conn : steadily c (load_tools c' conn).
Proof. unfold load_tools, updateTools. steady_walk c. Qed.
Lemma load_resources_steady c c' conn : steadily c (load_resources c' conn).
Proof. unfold load_resources, updateResources, updateResourceTemplates. steady_walk c. Qed.
Lemma load_prompts_steady c c' conn : steadily c (load_prompts c' conn).
Proof. unfold load_prompts, updatePrompts. steady_walk c. Qed.
Lemma first_configuration_steady c c' : steadily c (first_configuration c').
Proof. unfold first_configuration. steady_walk c. Qed.
#[local] Hint Resolve load_tools_steady load_resources_steady load_prompts_steady first_configuration_steady : steady.

Lemma read_capabilities_steady c c' conn caps : steadily c (read_capabilities c' conn caps).
Proof. unfold read_capabilities. steady_walk c. Qed.

Lemma restore_each_steady c c' conn l : steadily c (restore_each c' conn l).
Proof. induction l as [|[key s] l IH]; [exact I|]. cbn [restore_each]. steady_walk c. Qed.
#[local] Hint Resolve read_capabilities_steady restore_each_steady : steady.

Lemma updateServerCapabilities_steady c c' : steadily c (updateServerCapabilities c').
Proof. unfold updateServerCapabilities, restoreResourceSubscriptions. steady_walk c. Qed.

(** ** Stepping through a method that is alone *)

Lemma alone_any {A} (p : prog scall A) w : alone served p w (fun _ _ => True).
Proof. revert w. induction p as [a|X e k IH|]; cbn; auto. Qed.

Lemma alone_gets {X A} (f : World -> X) (k : X -> prog scall A) w Q :
  alone served (k (f w)) w Q -> alone served (Vis X (gets f) k) w Q.
Proof. intros H. cbn. intros x w' [= <- <-]. exact H. Qed.

Lemma alone_modify {A} f (k : unit -> prog scall A) w Q :
  alone served (k tt) (f w) Q -> alone served (Vis unit (modify f) k) w Q.
Proof. intros H. cbn. intros x w' [= <- <-]. exact H. Qed.

Lemma alone_context {A} c f (k : unit -> prog scall A) w Q :
  alone served (k tt) (upd_context c f w) Q -> alone served (Vis unit (on_context c f) k) w Q.
Proof. apply alone_modify. Qed.

Lemma alone_call {X A} (e : scall X) (k : X -> prog scall A) w Q :
  (forall x w', served X e w x w' -> alone served (k x) w' Q) -> alone served (Vis X e k) w Q.
Proof. done. Qed.

Lemma alone_ret {A} (a : A) w (Q : A -> World -> Prop) : Q a w -> alone served (Ret a) w Q.
Proof. done. Qed.

(** If the method returns, [P] holds. *)
Definition if_ok {E A} (P : World -> Prop) (r : result E A) (w : World) : Prop :=
  match r with Ok _ => P w | Throw _ => True end.

Lemma alone_try {A B} (p : Async A) (k : A -> Async B) w (P : World -> Prop) :
  alone served p w (fun r w' => match r with Ok a => alone served (k a) w' (if_ok P) | Throw _ => True end) ->
  alone served (try_bind p k) w (if_ok P).
Proof. intros H. apply alone_bind. eapply alone_mono; [exact H|]. by intros [a|e] w'. Qed.

(** A call whose answer leaves the state alone. *)
Ltac alone_step :=
  cbv beta;
  match goal with
  | |- alone _ (Vis _ (gets _) _) _ _ => apply alone_gets
  | |- alone _ (Vis _ (on_context _ _) _) _ _ => apply alone_context
  | |- alone _ (Vis _ (modify _) _) _ _ => apply alone_modify
  | |- alone _ (Vis _ _ _) _ _ => let H := fresh "Ha" in apply alone_call; intros ? ? H; cbn [served answers] in H; try subst
  end.

(** The answer of a call that may throw. *)
Ltac answered :=
  cbv beta; match goal with |- alone _ (match ?r with Ok _ => _ | Throw _ => _ end) _ _ => destruct r; [|exact I] end.

(** ** A start that returns *)

Definition up (c : nat) (w : World) : Prop := status (context_at w c) = Online /\ connection (context_at w c) <> None.

Definition started (c : nat) (w : World) : Prop :=
  up c w /\ lastError (context_at w c) = None /\ errorCount (context_at w c) = 0 /\ timeoutCount (context_at w c) = 0.

Lemma up_steady c w w' : steady c w w' -> up c w -> up c w'.
Proof. intros [E1 E2] [H1 H2]. split; congruence. Qed.

Lemma log_init_alone e w (P : World -> Prop) : P w -> alone served (log_init e) w (if_ok P).
Proof.
  intros H. unfold log_init. alone_step. alone_step. destruct (bool_decide _); [|exact H].
  alone_step. by case_match.
Qed.

Lemma cleared_alone c entity w : up c w ->
  alone served (on_context c clearError !; on_context c clearTimeout !; log_init entity) w (if_ok (started c)).
Proof.
  intros H. do 2 alone_step. apply log_init_alone. unfold started, up. by rewrite !context_at_same.
Qed.

Lemma cache_transport_type_alone entity t k w (P : World -> Prop) :
  (forall w, alone served k w (if_ok P)) -> alone served (cache_transport_type entity t k) w (if_ok P).
Proof.
  intros Hk. unfold cache_transport_type. alone_step. destruct (_ && _); [apply Hk|].
  alone_step. answered. alone_step. apply Hk.
Qed.

Lemma adopt_name_alone entity conn k w (P : World -> Prop) :
  (forall w, alone served k w (if_ok P)) -> alone served (adopt_name entity conn k) w (if_ok P).
Proof.
  intros Hk. unfold adopt_name. alone_step. destruct (_ || _); [|apply Hk].
  alone_step. destruct (_ && _); [|apply Hk].
  alone_step. answered. alone_step. apply Hk.
Qed.

(** Reading the capabilities in between. *)
Lemma capabilities_alone c (k : Async unit) w (R P : World -> Prop) :
  R w -> (forall w', steady c w w' -> alone served k w' (if_ok P)) ->
  alone served (try_bind (awaited (updateServerCapabilities c)) (fun _ => k)) w (if_ok P).
Proof.
  intros _ Hk. apply alone_try. apply alone_bind.
  eapply alone_mono; [apply (alone_within served (steady c)); [apply steady_refl|apply steady_trans|apply updateServerCapabilities_steady]|].
  cbn beta. intros r w' Hs. alone_step. destruct r; [by apply Hk|done].
Qed.

Lemma connected_alone c entity cl t ty w : alone served (connected c entity cl t ty) w (if_ok (started c)).
Proof.
  unfold connected. apply cache_transport_type_alone. intros w1. apply adopt_name_alone. intros w2.
  alone_step. alone_step. answered. alone_step.
  match goal with |- alone _ _ ?w0 _ => set (w3 := w0) end.
  assert (Hup : up c w3) by (unfold w3, up; by rewrite context_at_same).
  apply (capabilities_alone c _ w3 (up c)); [exact Hup|]. intros w4 Hs. apply cleared_alone. by eapply up_steady.
Qed.

Lemma modern_alone c config w : alone served (createModernHttpServerConnection c config) w (if_ok (started c)).
Proof.
  unfold createModernHttpServerConnection. alone_step. apply alone_try, alone_ret. destruct (URL_from _ _); [|exact I]. alone_step. answered. apply cache_transport_type_alone. intros w1. apply adopt_name_alone. intros w2.
  alone_step. alone_step.
  match goal with |- alone _ _ ?w0 _ => set (w3 := w0) end.
  assert (Hc : connection (context_at w3 c) <> None) by (unfold w3; by rewrite context_at_same).
  apply (capabilities_alone c _ w3 (fun _ => True)); [done|]. intros w4 [_ Hs]. alone_step. apply cleared_alone.
  split; rewrite context_at_same; [done|]. change (connection (context_at w4 c) <> None). by rewrite Hs.
Qed.
Lemma alone_plainly {A} (p : Async A) w (P : World -> Prop) :
  alone served p w (if_ok P) -> alone served (plainly p) w (if_ok P).
Proof. intros H. apply alone_bind. eapply alone_mono; [exact H|]. by intros [a|e] w'. Qed.

(** A failed connection stays failed, whatever the second attempt does. *)
Lemma connect_failed_throws config runner entity t ty e w :
  alone served (connect_failed config runner entity t ty e) w (fun r _ => exists f, r = Throw f).
Proof.
  unfold connect_failed. destruct (canFallbackHttpToSse _ _).
  - apply alone_bind. eapply alone_mono; [apply alone_any|]. intros [a|f] w' _; by eexists.
  - destruct runner as [meta|]; [|by eexists]. do 2 alone_step. cbv beta. case_match; by eexists.
Qed.

Lemma legacy_alone c entity config runner w :
  alone served (legacy_connection c entity config runner) w (if_ok (started c)).
Proof.
  unfold legacy_connection. apply alone_bind. eapply alone_mono; [apply alone_any|]. intros [made|f] w1 _; [|exact I].
  do 2 alone_step. alone_step. cbv beta. case_match.
  - apply alone_plainly, connected_alone.
  - eapply alone_mono; [apply connect_failed_throws|]. by intros ? ? [f ->].
Qed.

Lemma start_body_alone c entity token w : alone served (start_body c entity token) w (if_ok (started c)).
Proof.
  unfold start_body. do 2 alone_step.
  do 3 (apply alone_bind; eapply alone_mono; [apply alone_any|]; intros [?|f] ? _; [|exact I]).
  cbv zeta. destruct (_ && _); [exact I|]. destruct (_ && _ && _).
  - apply alone_bind, alone_bind. eapply alone_mono; [apply modern_alone|]. intros r w' Hr. alone_step.
    apply alone_ret. destruct r as [u|e]; [exact Hr|]. cbv beta iota. case_match; [exact I|apply legacy_alone].
  - case_match; [exact I|apply legacy_alone].
Qed.

(** ** A start that throws *)

(** Nothing of the connection or of its token refresh is left. *)
Definition cleared (x : ServerContext) : Prop :=
  connection x = None /\ transport x = None
  /\ authStrategy x = None /\ tokenRefreshTimer x = None /\ currentTokenInfo x = None.

Definition refresh_stopped (c : nat) (w : World) : Prop :=
  let x := context_at w c in authStrategy x = None /\ tokenRefreshTimer x = None /\ currentTokenInfo x = None.

Lemma stopTokenRefresh_alone c w : alone served (stopTokenRefresh c) w (fun _ w' => refresh_stopped c w').
Proof.
  unfold stopTokenRefresh, clear_timer. alone_step.
  assert (Hk : forall w, alone served (
    on_context c (fun x => x <| tokenRefreshTimer := None |>) !;
    call! strategy := gets (fun w => authStrategy (context_at w c)) in
    let finish := on_context c (fun x => x <| authStrategy := None |> <| currentTokenInfo := None |>) !; Ret tt in
    match strategy with Some st => CleanupStrategy st !; finish | None => finish end) w (fun _ w' => refresh_stopped c w')).
  { intros w1. do 2 alone_step. cbv beta zeta. case_match; repeat alone_step; apply alone_ret; unfold refresh_stopped;
      by rewrite !context_at_same. }
  case_match; [alone_step|]; apply Hk.
Qed.

(** What a failed start leaves: the row decides between a server that will be
    tried again and one that is in error. *)
Definition start_over (c entity : nat) (e : exn) (w : World) : Prop :=
  let x := context_at w c in
  status x = failed_status (entity_at w entity) /\ cleared x
  /\ (trim (message e) <> ""%string -> lastError x = Some (message e)).

Lemma recorded_same m x :
  let y := recordServerStartupError (Some m) None x in
  status y = status x /\ connection y = connection x /\ transport y = transport x /\ authStrategy y = authStrategy x
  /\ tokenRefreshTimer y = tokenRefreshTimer x /\ currentTokenInfo y = currentTokenInfo x
  /\ (trim m <> ""%string -> lastError y = Some m).
Proof.
  cbn zeta. unfold recordServerStartupError. destruct (str_eqb (trim m) "") eqn:Ht.
  - split_and! ; try done. intros H. by apply str_eqb_eq in Ht.
  - case_bool_decide; by split_and!.
Qed.

Lemma start_failed_alone c entity f w :
  alone served (start_failed c entity f) w (fun r w' => exists e, r = Throw e /\ start_over c entity e w').
Proof.
  unfold start_failed. do 2 alone_step. cbv beta zeta.
  match goal with |- context [recordServerStartupError (Some ?p) None] => set (m := p) end.
  apply alone_bind. eapply alone_mono; [apply stopTokenRefresh_alone|]. cbv beta. intros _ w1 (H1 & H2 & H3).
  alone_step. unfold clear_connection. do 2 alone_step. apply alone_ret. eexists. split; [reflexivity|].
  set (w2 := upd_context c (clearConnectionState _) w1).
  assert (E : message (if str_eqb (message (cause f)) m then cause f else Error m) = m).
  { destruct (str_eqb _ _) eqn:He; [by apply str_eqb_eq in He|done]. }
  unfold start_over, cleared. rewrite E, context_at_same.
  destruct (recorded_same m (context_at w2 c)) as (-> & -> & -> & -> & -> & -> & Hm).
  split_and! ; [..|exact Hm]; unfold w2; rewrite context_at_same; first [exact H1|exact H2|exact H3|reflexivity].
Qed.

(** ** A start ends *)

(** The program comes to its end, whatever it is answered, and makes only
    calls that [P] holds of. *)
Fixpoint completes {A} (P : forall X, scall X -> Prop) (p : prog scall A) : Prop :=
  match p with
  | Ret _ => True
  | OutOfFuel => False
  | Vis X e k => P X e /\ forall x, completes P (k x)
  end.

Lemma completes_call {A X} (P : forall X, scall X -> Prop) (e : scall X) (k : X -> prog scall A) :
  P X e -> (forall x, completes P (k x)) -> completes P (Vis X e k).
Proof. by split. Qed.

Lemma completes_bind {A B} (P : forall X, scall X -> Prop) (p : prog scall A) (k : A -> prog scall B) :
  completes P p -> (forall a, completes P (k a)) -> completes P (pbind p k).
Proof. intros H Hk. induction p as [a|X e c IH|]; cbn in *; [auto|destruct H; split; auto|done]. Qed.

(** Answered at every call, it ends, in [Q]. *)
Fixpoint surely {A} (p : prog scall A) (w : World) (Q : A -> World -> Prop) : Prop :=
  match p with
  | Ret a => Q a w
  | OutOfFuel => False
  | Vis X e k => (exists x w', served X e w x w') /\ forall x w', served X e w x w' -> surely (k x) w' Q
  end.

Lemma alone_surely {A} (p : prog scall A) w Q : completes answerable p -> alone served p w Q -> surely p w Q.
Proof.
  revert w. induction p as [a|X e k IH|]; cbn; [done| |done]. intros w [He Hk] Ha.
  split; [by apply answerable_served|]. intros x w' Hx. apply IH; auto.
Qed.

Lemma surely_ends {A} (p : prog scall A) w Q : surely p w Q -> exists a w', Q a w'.
Proof.
  revert w. induction p as [a|X e k IH|]; cbn; [by eauto| |done]. intros w [(x & w' & Hx) H]. by eapply IH, H.
Qed.

Create HintDb completes discriminated.

Ltac complete_walk :=
  repeat first
    [ progress cbn beta iota
    | match goal with
      | |- completes _ (Ret _) => exact I
      | |- completes _ (match ?x with _ => _ end) => destruct x
      | |- completes _ (if ?b then _ else _) => destruct b
      end
    | solve [eauto with completes]
    | progress unfold ok, throw, lift, awaited, try_bind, save_preferences, request_subscription, persistCapabilitiesCache, clear_timer,
        persist_config, logged, plainly
    | match goal with
      | |- completes _ (Vis _ _ _) => apply completes_call; [exact I|intros ?]
      | |- completes _ (pbind _ _) => apply completes_bind; [|intros ?]
      | |- completes _ (let _ := _ in _) => intro
      end ].

Notation completing p := (completes answerable p).

Lemma restore_each_completes c conn l : completing (restore_each c conn l).
Proof. induction l as [|[key s] l IH]; [exact I|]. cbn [restore_each]. complete_walk. Qed.
#[local] Hint Resolve restore_each_completes : completes.

Lemma read_capabilities_completes c conn caps : completing (read_capabilities c conn caps).
Proof.
  unfold read_capabilities, load_tools, load_resources, load_prompts, updateTools, updateResources, updateResourceTemplates,
    updatePrompts, first_configuration. complete_walk.
Qed.
#[local] Hint Resolve read_capabilities_completes : completes.

Lemma updateServerCapabilities_completes c : completing (updateServerCapabilities c).
Proof. unfold updateServerCapabilities, restoreResourceSubscriptions. complete_walk. Qed.
#[local] Hint Resolve updateServerCapabilities_completes : completes.

Lemma updateServerLaunchConfig_completes c cfg : completing (updateServerLaunchConfig c cfg).
Proof. unfold updateServerLaunchConfig, save_server_config. complete_walk. Qed.
Lemma updateUserLaunchConfig_completes c cfg : completing (updateUserLaunchConfig c cfg).
Proof. unfold updateUserLaunchConfig, save_user_config. complete_walk. Qed.
#[local] Hint Resolve updateServerLaunchConfig_completes updateUserLaunchConfig_completes : completes.

Lemma updateRefreshTokenToDatabase_completes c cfg : completing (updateRefreshTokenToDatabase c cfg).
Proof. unfold updateRefreshTokenToDatabase. complete_walk. Qed.
#[local] Hint Resolve updateRefreshTokenToDatabase_completes : completes.

Lemma token_refresh_completes c st : completing (startTokenRefresh c st) /\ completing (stopTokenRefresh c).
Proof.
  split; [|unfold stopTokenRefresh; complete_walk]. unfold startTokenRefresh, scheduleNextRefresh, start_timer. complete_walk.
Qed.
Lemma startTokenRefresh_completes c st : completing (startTokenRefresh c st).
Proof. apply token_refresh_completes. Qed.
Lemma stopTokenRefresh_completes c : completing (stopTokenRefresh c).
Proof. by apply (token_refresh_completes c 0). Qed.
#[local] Hint Resolve startTokenRefresh_completes stopTokenRefresh_completes : completes.

Lemma closeConnection_completes c s : completing (closeConnection c s).
Proof. unfold closeConnection, clear_connection. complete_walk. Qed.
#[local] Hint Resolve closeConnection_completes : completes.

Lemma disconnectServerContext_completes c s : completing (disconnectServerContext c s).
Proof. unfold disconnectServerContext. complete_walk. Qed.
#[local] Hint Resolve disconnectServerContext_completes : completes.

Lemma removeServer_completes sid : completing (removeServer sid).
Proof. unfold removeServer, log_close. complete_walk. Qed.
Lemma close_temporary_completes key : completing (close_temporary key).
Proof. unfold close_temporary, log_close. complete_walk. Qed.
Lemma clearIntercomOAuthState_completes c : completing (clearIntercomOAuthState c).
Proof. unfold clearIntercomOAuthState. complete_walk. Qed.
#[local] Hint Resolve removeServer_completes close_temporary_completes clearIntercomOAuthState_completes : completes.

Lemma handleUnconfigureServer_completes u sid : completing (handleUnconfigureServer u sid).
Proof. unfold handleUnconfigureServer, closeTemporaryServer. complete_walk. Qed.
#[local] Hint Resolve handleUnconfigureServer_completes : completes.

Lemma handleInvalidIntercomToken_completes c : completing (handleInvalidIntercomToken c).
Proof. unfold handleInvalidIntercomToken. complete_walk. Qed.
#[local] Hint Resolve handleInvalidIntercomToken_completes : completes.

Lemma prepare_completes c entity token : completing (prepare c entity token).
Proof.
  unfold prepare, resolveSkillsVolumeMounts, initializeAuthentication, initializePetaAuth, initializeOAuthWithRefresh, create_strategy,
    decryptLaunchConfig. complete_walk.
Qed.
#[local] Hint Resolve prepare_completes : completes.

Lemma connections_complete c entity config runner :
  completing (createModernHttpServerConnection c config) /\ completing (legacy_connection c entity config runner).
Proof.
  split.
  - unfold createModernHttpServerConnection, cache_transport_type, adopt_name, log_init. complete_walk.
  - unfold legacy_connection, connected, connect_failed, sse_fallback, cache_transport_type, adopt_name, log_init. complete_walk.
Qed.
Lemma modern_completes c config : completing (createModernHttpServerConnection c config).
Proof. apply (connections_complete c 0 config None). Qed.
Lemma legacy_completes c entity config runner : completing (legacy_connection c entity config runner).
Proof. apply connections_complete. Qed.
#[local] Hint Resolve modern_completes legacy_completes : completes.

Lemma start_completes c token : completing (createServerConnection c token).
Proof. unfold createServerConnection, start_body, start_failed, clear_connection. complete_walk. Qed.

(** C27: When nothing interferes but the answers of the servers, a start ends,
    whatever they answer.  The start of a server that is neither online nor
    connecting either returns, and the server is online with a connection and
    its failures are forgotten; or it throws, and then the server is in error
    or asleep, as its row says, its connection, transport and token refresh
    are gone, and its last error is the message of what is thrown, unless that
    message is blank, which is not recorded.  Otherwise nothing happens. *)
Theorem start_outcome (c : nat) (token : string) (w : World) :
  let x := context_at w c in
  surely (createServerConnection c token) w (fun r w' =>
    if bool_decide (status x = Online) || bool_decide (status x = Connecting) then r = Ok tt /\ w' = w
    else match r with
         | Ok _ => started c w'
         | Throw e => start_over c (serverEntity x) e w'
         end).
Proof.
  cbn zeta. apply alone_surely; [apply start_completes|].
  unfold createServerConnection. alone_step. cbv beta. destruct (_ || _); [by apply alone_ret|].
  cbv zeta. apply alone_bind. eapply alone_mono; [apply start_body_alone|]. intros [u|f] w1 H1; [by apply alone_ret|].
  eapply alone_mono; [apply start_failed_alone|]. by intros r w' (e & -> & H).
Qed.

(** ** What a failed start does not do *)

(** A call that closes nothing. *)
Definition keeps_open (X : Type) (e : scall X) : Prop :=
  match e with CloseClient _ | CloseTransport _ | TerminateSession _ => False | _ => True end.

Create HintDb keeps_open discriminated.

Ltac open_walk :=
  repeat first
    [ progress cbn beta iota
    | match goal with
      | |- every _ (Ret _) => exact I
      | |- every _ (match ?x with _ => _ end) => destruct x
      | |- every _ (if ?b then _ else _) => destruct b
      end
    | solve [eauto with keeps_open]
    | progress unfold ok, throw, lift, awaited, try_bind, save_preferences, request_subscription, persistCapabilitiesCache, clear_timer
    | match goal with
      | |- every _ (Vis _ _ _) => apply every_call; [exact I|intros ?]
      | |- every _ (pbind _ _) => apply every_bind; [|intros ?]
      | |- every _ (let _ := _ in _) => intro
      end ].

Lemma restore_each_open c conn l : every keeps_open (restore_each c conn l).
Proof. induction l as [|[key s] l IH]; [exact I|]. cbn [restore_each]. open_walk. Qed.
#[local] Hint Resolve restore_each_open : keeps_open.

Lemma read_capabilities_open c conn caps : every keeps_open (read_capabilities c conn caps).
Proof.
  unfold read_capabilities, load_tools, load_resources, load_prompts, updateTools, updateResources, updateResourceTemplates,
    updatePrompts, first_configuration. open_walk.
Qed.
#[local] Hint Resolve read_capabilities_open : keeps_open.

Lemma updateServerCapabilities_open c : every keeps_open (updateServerCapabilities c).
Proof. unfold updateServerCapabilities, restoreResourceSubscriptions. open_walk. Qed.
#[local] Hint Resolve updateServerCapabilities_open : keeps_open.

(** Neither what follows an established connection nor the handling of a
    failure closes it: a server whose first ping fails stays connected, and
    nothing refers to the connection any more. *)
Lemma failed_start_closes_nothing (c entity cl t : nat) (ty : string) (f : start_failure) :
  every keeps_open (connected c entity cl t ty) /\ every keeps_open (start_failed c entity f).
Proof.
  split.
  - unfold connected, cache_transport_type, adopt_name, log_init. open_walk.
  - unfold start_failed, stopTokenRefresh, clear_connection. open_walk.
Qed.
End Outcome.

(** * Credentials stay in the process

    What a server's process or address is given of its configuration: the
    access token, in its environment, and nothing of the credentials the
    token was obtained with. *)

(** ** Configurations *)

Lemma set_env_other config fields v k : k <> "env"%string -> set_env config fields = Ok v -> jfield_opt v k = jfield_opt config k.
Proof. intros Hk (env & _ & H)%rbind_Ok. by eapply jset_field. Qed.

Lemma inject_other auth config token v k :
  k <> "env"%string -> injectOAuthTokenEnv auth config token = Ok v -> jfield_opt v k = jfield_opt config k.
Proof.
  intros Hk. destruct auth; cbn [injectOAuthTokenEnv]; try (by apply set_env_other); try (by intros [= <-]).
  - intros (env & _ & H)%rbind_Ok. repeat case_match; try done. by eapply set_env_other.
  - intros (oauth & _ & H)%rbind_Ok. repeat case_match; try done. by eapply set_env_other.
  - intros (oauth & _ & H)%rbind_Ok. by eapply set_env_other.
Qed.

(** [config] without its credentials; only the environment may differ
    otherwise. *)
Definition stripped (config v : json) : Prop :=
  jfield_opt v "oauth" = JUndefined
  /\ forall k, k <> "oauth"%string -> k <> "env"%string -> jfield_opt v k = jfield_opt config k.

Lemma token_into_env_strips auth config token v : token_into_env auth config token = Ok v -> stripped config v.
Proof.
  intros (config1 & H1 & H2)%rbind_Ok. split; [by eapply jdelete_gone|]. intros k Ho He.
  rewrite (jdelete_field _ _ _ _ H2 Ho). by eapply inject_other.
Qed.

(** ** Authentication *)

Section Secrets.
Context {D : Deployment}.

(** Other threads may do anything to the state at each await. *)
Notation amid p w gs Q := (keeps atomic answers (fun _ (_ : list unit) => True) p w gs Q).

Lemma amid_any {A} (p : prog scall A) w gs : amid p w gs (fun _ _ _ => True).
Proof.
  revert w gs. induction p as [a|X e k IH|]; intros w gs; cbn; [done| |by exists tt].
  destruct (atomic X e); [auto|]. exists tt. auto.
Qed.

(** What [p] returns, if it does. *)
Notation returns p w gs P := (amid p w gs (fun r _ _ => forall a, r = Ok a -> P a)).

Lemma returns_after {A B} (p : prog scall A) (k : A -> Async B) w gs (P : B -> Prop) :
  (forall a w gs, returns (k a) w gs P) -> returns (pbind p k) w gs P.
Proof. intros Hk. apply keeps_bind. eapply keeps_mono; [apply amid_any|]. auto. Qed.

Lemma returns_try {A B} (p : Async A) (k : A -> Async B) w gs (P : B -> Prop) :
  (forall a w gs, returns (k a) w gs P) -> returns (try_bind p k) w gs P.
Proof. intros Hk. apply returns_after. intros [a|e] w' gs'; [apply Hk|]. by cbn. Qed.

Lemma returns_call {X B} (e : scall X) (k : X -> Async B) w gs (P : B -> Prop) :
  (forall x w gs, returns (k x) w gs P) -> returns (Vis X e k) w gs P.
Proof. intros Hk. cbn. destruct (atomic X e); [auto|]. exists tt. auto. Qed.

Lemma returns_ret {B} (r : result exn B) w gs (P : B -> Prop) : (forall a, r = Ok a -> P a) -> returns (Ret r) w gs P.
Proof. done. Qed.

Lemma initializeOAuthWithRefresh_strips c config w gs :
  returns (initializeOAuthWithRefresh c config) w gs (stripped config).
Proof.
  unfold initializeOAuthWithRefresh. apply returns_call; intros x w1' gs1'. apply returns_call; intros row0 w2' gs2'. apply returns_try. intros oauth w1 gs1.
  destruct (oauth_config_error _ _ _); [by apply returns_ret|]. apply returns_try. intros strategy w2 gs2.
  destruct strategy as [st|]; [|by apply returns_ret]. apply returns_after. intros [tok|e] w3 gs3.
  - apply returns_call. intros row w4 gs4. apply returns_ret. apply token_into_env_strips.
  - destruct (bool_decide _); [|by apply returns_ret]. apply returns_try. intros u w4 gs4. by apply returns_ret.
Qed.

Definition gets_token (row : Server) : bool :=
  bool_decide (category row = Template)
  && (usePetaOauthConfig row && negb (bool_decide (authType row = ApiKey)) || has_strategy (authType row)).

(** Whatever happens meanwhile: the configuration authentication returns for
    a template with a token has no credentials left, and is otherwise the one
    given but for its environment; for any other server it is the one given. *)
Theorem credentials_stay (c : nat) (config : json) (token : string) (w : World) :
  keeps atomic answers (fun _ (_ : list unit) => True) (initializeAuthentication c config token) w []
    (fun r _ _ => forall config', r = Ok config' ->
       if gets_token (row_of_context w c) then stripped config config' else config' = config).
Proof.
  unfold initializeAuthentication. cbn [keeps atomic answers gets]. intros row w1 [= <- <-]. unfold gets_token.
  set (row := row_of_context w c). case_bool_decide as Hc; cbn [negb andb]; [|by intros config' [= <-]].
  destruct (usePetaOauthConfig row && _) eqn:Hp; cbn [orb].
  - apply returns_try. intros tok w1 gs1. apply returns_ret. apply token_into_env_strips.
  - destruct (has_strategy _) eqn:Hs; [|by intros config' [= <-]].
    apply returns_call. intros _ w1 gs1. apply keeps_bind, keeps_bind.
    eapply keeps_mono; [apply initializeOAuthWithRefresh_strips|]. intros r w2 gs2 Hr.
    cbn. exists tt. split; [done|]. intros ? ? ? ? _ _. destruct r as [a|e]; cbn; [|done]. intros ? [= <-]. by apply Hr.
Qed.
End Secrets.

(** * Downstream servers: concrete runs

    An environment that answers by computation, a world with one server, and
    schedules of the manager's methods: the hypotheses of the theorems about
    starts hold on them, and some lead where nobody wants to be. *)

(** ** An environment *)

(** A server reached over HTTP, lazily started. *)
Definition example_config : string := json_text (JObj [("url", JStr "http://localhost/mcp")]%string).

Definition example_row : Server := {|
  serverId := "s"; serverName := "S"; enabled := true; launchConfig := "1"; configured_capabilities := "";
  allowUserInput := false; publicAccess := true; authType := ApiKey; category := CustomRemote; configTemplate := None;
  transportType := Some "http"%string; lazyStartEnabled := true; usePetaOauthConfig := false; proxyId := 0;
  row_cachedTools := None; row_cachedResources := None; row_cachedResourceTemplates := None; row_cachedPrompts := None
|}.

(** What goes wrong. *)
Inductive luck : Type := AllWell | ConnectFails | PingFails.

Definition luck_eqb (a b : luck) : bool :=
  match a, b with AllWell, AllWell | ConnectFails, ConnectFails | PingFails, PingFails => true | _, _ => false end.

Definition unless {A} (bad : luck) (o : luck) (a : A) : result exn A :=
  if luck_eqb bad o then Throw (Error "failed") else Ok a.

Definition example_oracle (o : luck) (X : Type) (e : scall X) (w : World) : option (X * World) :=
  match e in scall X return option (X * World) with
  | Do f => Some (f w)
  | AwaitStart n => match promises w !! n with Some (Started r) => Some (r, w) | _ => None end
  | AwaitSubscription n => match sub_promises w !! n with Some (SubSettled r) => Some (r, w) | _ => None end
  | Now => Some (0, w)
  | FirstSession _ => Some (None, w)
  | SyncLaunchConfigs _ _ => Some (tt, w)
  | FormatError e => Some (message e, w)
  | PreferredMessage _ => Some (None, w)
  | RunnerTrace => Some ((""%string, None), w)
  | GetServerCapabilities _ => Some (Some (JObj [("tools", JObj [])]%string), w)
  | GetServerVersionName _ => Some (None, w)
  | NewClient => Some (7%nat, w)
  | NewStrategy _ _ => Some (Ok 8%nat, w)
  | NewPetaStrategy _ _ => Some (Ok 8%nat, w)
  | RegisterHandlers _ _ => Some (tt, w)
  | NotifyUsersOfServerChange _ _ => Some (tt, w)
  | Broadcast _ _ => Some (tt, w)
  | OAuthConfig _ => Some (None, w)
  | MarkConfigAsPersisted _ => Some (tt, w)
  | CleanupStrategy _ => Some (tt, w)
  | SetTimer _ _ => Some (9%nat, w)
  | ClearTimer _ => Some (tt, w)
  | SendSubscribe _ _ _ => Some (tt, w)
  | Yield => Some (tt, w)
  | Sleep _ => Some (tt, w)
  | FindServer _ => Some (Ok (Some example_row), w)
  | FindEnabled => Some ([example_row], w)
  | FindAllServers => Some (Ok [example_row], w)
  | UpdateServer _ _ => Some (Ok example_row, w)
  | FindUser _ => Some (Ok None, w)
  | UpdateLaunchConfigs _ _ => Some (Ok tt, w)
  | UpdateUserPreferences _ _ => Some (Ok tt, w)
  | SyncUserPreferences _ => Some (Ok tt, w)
  | Decrypt _ _ => Some (Ok example_config, w)
  | Encrypt _ _ => Some (Ok (JStr "encrypted"), w)
  | GetInitialToken _ => Some (Ok {| accessToken := "token"; expiresAt := 3600000 |}, w)
  | RefreshToken _ => Some (Ok {| accessToken := "token"; expiresAt := 3600000 |}, w)
  | ResolveHostPath _ => Some (None, w)
  | ModernConnect _ _ _ => Some (unless ConnectFails o {| client := 6%nat; protocolEra := modern |}, w)
  | Connect _ _ _ => Some (unless ConnectFails o tt, w)
  | Ping _ _ => Some (unless PingFails o tt, w)
  | CloseClient _ => Some (Ok tt, w)
  | CloseTransport _ => Some (Ok tt, w)
  | TerminateSession _ => Some (Ok tt, w)
  | ListTools _ => Some (Ok [], w)
  | ListResources _ => Some (Ok [], w)
  | ListResourceTemplates _ => Some (Ok [], w)
  | ListPrompts _ => Some (Ok [], w)
  | SendTokenUpdate _ _ _ => Some (Ok tt, w)
  | UnsubscribeResource _ _ => Some (Ok tt, w)
  | LogLifecycle _ _ => Some (Ok tt, w)
  | InvalidateDiscovery _ => Some (Ok tt, w)
  end.

Lemma example_oracle_sound o X e w x w' : example_oracle o X e w = Some (x, w') -> answers X e w x w'.
Proof.
  destruct e; cbn; try (by intros [= <- <-]); try (by intros [= ->]).
  - destruct (promises w !! promise) as [[|r]|]; [done| |done]. by intros [= <- <-].
  - destruct (sub_promises w !! promise) as [[|r]|]; [done| |done]. by intros [= <- <-].
Qed.

(** A deployment, with the modern protocol downstream or without. *)
Definition example_deployment (modern : bool) : Deployment := {|
  LAZY_START_ENABLED := true; PETA_CORE_IN_DOCKER := false; downstreamEnabled := modern;
  assertDockerRuntimeAvailable _ := Ok tt; new_URL u := Ok u
|}.

(** One lazily started server, asleep; the owner has been seen; a second row
    of the server, with another configuration. *)
Definition example_world : World :=
  let '(e, w) := alloc_entity example_row (setOwnerToken "owner" initial_world) in
  let '(c, w) := initializeManagedServerContext 0 e (Some Sleeping) w in
  let '(_, w) := alloc_entity (set_launchConfig "2" example_row) w in w.

Definition the_server : nat := 1%nat.
Definition other_row : nat := 2%nat.

Definition play_out (ms : list (move scall luck unit)) : option (list (prog scall unit) * World) :=
  plays atomic example_oracle ms ([], example_world).
Definition reached (ms : list (move scall luck unit)) : list (prog scall unit) * World :=
  default ([], example_world) (play_out ms).

Definition plays_through (ms : list (move scall luck unit)) : bool :=
  match play_out ms with Some _ => true | None => false end.

Fixpoint gos (n i : nat) : list (move scall luck unit) :=
  match n with O => [] | S n => Go i AllWell :: gos n i end.

Section Reached.
Context {D : Deployment}.

Lemma reached_reachable ms :
  Forall (begins method) ms -> plays_through ms = true -> reachable atomic answers method example_world (reached ms).
Proof.
  intros Hm Hp. eapply (plays_reachable atomic answers example_oracle example_oracle_sound);
    [apply reachable_start|exact Hm|]. fold (play_out ms). unfold reached, plays_through in *.
  by destruct (play_out ms).
Qed.
End Reached.

Lemma example_world_fresh : no_starts example_world.
Proof. by split. Qed.

Lemma example_world_linked : all_linked example_world.
Proof.
  intros c x Hx. assert (E : contexts example_world = {[ the_server := context_at example_world the_server ]}) by (vm_compute; reflexivity).
  rewrite E in Hx. apply lookup_singleton_Some in Hx as [_ <-]. by vm_compute.
Qed.

(** ** Starts *)

Definition request (modern : bool) : prog scall unit :=
  plain (ensureServerAvailable (D := example_deployment modern) "s" None).
Definition replacement (modern : bool) : prog scall unit :=
  plain (addServer (D := example_deployment modern) other_row "owner").

(** Two requests for a sleeping server. *)
Definition two_requests : list (move scall luck unit) := [Begin (request false) AllWell; Begin (request false) AllWell].

(** A start to its end. *)
Definition one_start : list (move scall luck unit) := Begin (request false) AllWell :: gos 18 0.

(** The gateway is shut down in between, when nothing is starting; the two
    requests are for the context that is made anew. *)
Definition after_shutdown : list (prog scall unit) * World :=
  ((reached one_start).1 ++ [Ret tt], shutdown_finish (reached one_start).2).

Definition after_requests : list (prog scall unit) * World :=
  default ([], example_world) (plays atomic example_oracle (two_requests ++ gos 2 2) after_shutdown).

Lemma played_undisturbed (D : Deployment) ms c d :
  undisturbed example_world c -> Forall (begins method) ms ->
  match plays atomic example_oracle ms c with Some _ => true | None => false end = true ->
  undisturbed example_world (default d (plays atomic example_oracle ms c)).
Proof.
  intros Hc Hm Hp. destruct (plays atomic example_oracle ms c) as [c'|] eqn:E; [cbn|done].
  refine (plays_turns atomic answers example_oracle example_oracle_sound method (undisturbed example_world) ms c c' _ Hc Hm E).
  intros e e' He Ht. eapply undisturbed_turn; [exact He|]. eapply turn_mono; [|exact Ht]. by left.
Qed.

Lemma after_requests_undisturbed : undisturbed (D := example_deployment false) example_world after_requests.
Proof.
  assert (H1 : undisturbed (D := example_deployment false) example_world (reached one_start)).
  { apply (played_undisturbed (example_deployment false) one_start ([], example_world)); [apply undisturbed_start|repeat constructor|by vm_compute]. }
  rewrite (surjective_pairing (reached one_start)) in H1.
  assert (H2 : undisturbed (D := example_deployment false) example_world after_shutdown).
  { apply undisturbed_clear; [exact H1|]. by vm_compute. }
  apply played_undisturbed; [exact H2|repeat constructor|by vm_compute].
Qed.

Definition the_start : nat := 7%nat.

Lemma one_start_per_key_witness :
  let w := snd after_requests in
  promises w !! the_start = Some (Starting "s") /\ serverWaitQueues w !! "s"%string = Some the_start
  /\ (forall n, promises w !! n = Some (Starting "s") -> n = the_start).
Proof.
  intros w.
  assert (Hr : undisturbed (D := example_deployment false) example_world (fst after_requests, w)).
  { unfold w. rewrite <- surjective_pairing. exact after_requests_undisturbed. }
  destruct (one_start_per_key (D := example_deployment false) example_world _ _ example_world_fresh Hr) as (H1 & H2 & _).
  assert (H3 : promises w !! the_start = Some (Starting "s")) by (vm_compute; reflexivity).
  split_and! ; [exact H3|by apply H2|]. intros n Hn. by apply (H1 "s"%string).
Defined.

(** [shutdown] clears the queue while a start is under way: the next request
    starts the same server again, and two starts run at once. *)
Definition shut_down_while_starting : list (move scall luck unit) :=
  [Begin (request false) AllWell; Begin shutdown_end AllWell; Begin (request false) AllWell] ++ gos 2 2.

Example shutdown_lets_two_start :
  let w := snd (reached shut_down_while_starting) in
  reachable atomic answers (method_or_shutdown (D := example_deployment false)) example_world (reached shut_down_while_starting)
  /\ promises w !! 3%nat = Some (Starting "s") /\ promises w !! 6%nat = Some (Starting "s").
Proof.
  split; [|by vm_compute].
  apply (plays_turns atomic answers example_oracle example_oracle_sound
    (method_or_shutdown (D := example_deployment false))
    (reachable atomic answers (method_or_shutdown (D := example_deployment false)) example_world) shut_down_while_starting ([], example_world)).
  - intros d d'. apply reachable_turn.
  - apply reachable_start.
  - constructor; [left; constructor|]. constructor; [right; constructor|]. constructor; [left; constructor|]. repeat constructor.
  - fold (play_out shut_down_while_starting). unfold reached.
    assert (H : plays_through shut_down_while_starting = true) by (by vm_compute).
    unfold plays_through in H. by destruct (play_out shut_down_while_starting).
Qed.
Lemma online_has_connection_witness :
  let w := snd (reached one_start) in
  status (context_at w the_server) = Online /\ connection (context_at w the_server) <> None.
Proof.
  intros w.
  assert (Hr : reachable atomic answers (method (D := example_deployment false)) example_world (reached one_start)).
  { apply reached_reachable; [repeat constructor|by vm_compute]. }
  assert (Hs : status (context_at w the_server) = Online) by (vm_compute; reflexivity).
  split; [exact Hs|]. rewrite (surjective_pairing (reached one_start)) in Hr.
  apply (online_has_connection (D := example_deployment false) example_world _ _ the_server (context_at w the_server)
           eq_refl example_world_linked Hr); [vm_compute; reflexivity|exact Hs].
Defined.

(** A start that restores a subscription waits for the answer of the server,
    and ends. *)
Definition restoring : SubscriptionState := {|
  sub_serverId := "s"; sub_userId := None; resourceUri := "file"; scopeId := id (context_at example_world the_server);
  subscribedSessions := ["a"]; downstreamSubscribed := false; downstreamSubscription := None |}%string.
Definition restoring_world : World :=
  example_world <| subscriptions := {[ 3%nat := restoring ]} |>
    <| resourceSubscriptions := [(buildResourceSubscriptionKey (scopeId restoring) "file", 3%nat)] |>.

Lemma start_outcome_witness :
  to_restore the_server restoring_world 3 = true
  /\ exists (r : result exn unit) w', match r with
                  | Ok _ => started the_server w'
                  | Throw e => start_over (D := example_deployment false) the_server (serverEntity (context_at restoring_world the_server)) e w'
                  end.
Proof.
  split; [vm_compute; reflexivity|].
  destruct (surely_ends _ _ _ (start_outcome (D := example_deployment false) the_server "owner" restoring_world)) as (r & w' & H).
  exists r, w'. vm_compute (bool_decide _ || bool_decide _) in H. exact H.
Defined.

(** With the modern protocol the theorem fails: a start awaits the tools of
    the server with its connection in place; the server is given another
    configuration, which closes the connection; then the start goes on and
    says the server is online, and nothing is left to correct it. *)
Definition replaced_during_start : list (move scall luck unit) :=
  Begin (request true) AllWell :: gos 4 0 ++ [Begin (replacement true) AllWell] ++ gos 1 1 ++ gos 11 0 ++ gos 2 1 ++ gos 2 0.

Example modern_start_loses_connection :
  reachable atomic answers (method (D := example_deployment true)) example_world (reached replaced_during_start)
  /\ fst (reached replaced_during_start) = [Ret tt; Ret tt]
  /\ status (context_at (snd (reached replaced_during_start)) the_server) = Online
  /\ connection (context_at (snd (reached replaced_during_start)) the_server) = None.
Proof.
  split_and! ; [|by vm_compute|by vm_compute|by vm_compute]. apply reached_reachable; [repeat constructor|by vm_compute].
Qed.

(** The first ping of a new connection fails: the start is over, the server
    sleeps again with the error, its connection was never closed. *)
Definition ping_fails : list (move scall luck unit) :=
  Begin (request false) AllWell :: gos 5 0 ++ [Go 0 PingFails] ++ gos 2 0.

Example a_failed_ping :
  plays_through ping_fails = true
  /\ fst (reached ping_fails) = [Ret tt]
  /\ status (context_at (snd (reached ping_fails)) the_server) = Sleeping
  /\ connection (context_at (snd (reached ping_fails)) the_server) = None
  /\ lastError (context_at (snd (reached ping_fails)) the_server) = Some "failed"%string.
Proof. by vm_compute. Qed.

(** ** Subscriptions *)

(** The server is online and takes subscriptions. *)
Definition subscribable_world : World :=
  upd_context the_server (fun x =>
    x <| status := Online |> <| connection := Some {| client := 7%nat; protocolEra := legacy |} |>
      <| capabilities := Some (JObj [("resources", JObj [("subscribe", JBool true)])]%string) |>) example_world.

Definition subscribe (session : string) : prog scall unit := plain (subscribeResource "s" "file" session "u").
Definition unsubscribe (session : string) : prog scall unit := plain (unsubscribeResource "s" "file" session "u").
(** The state of the subscription and the promise of its request. *)
Definition the_state : nat := 3%nat.
Definition the_request : nat := 4%nat.

(** The only subscriber leaves; while the server is told, another joins, and
    is told at once that it is subscribed; then the subscription is dropped,
    the newcomer's with it. *)
Definition joined_while_leaving : list (move scall luck unit) :=
  [Begin (subscribe "a") AllWell; Begin (subscription_answered the_state the_request (Ok tt)) AllWell; Go 1 AllWell; Go 0 AllWell;
   Begin (unsubscribe "a") AllWell; Begin (subscribe "b") AllWell; Go 2 AllWell; Go 2 AllWell].

Example subscription_lost :
  exists w, plays atomic example_oracle joined_while_leaving ([], subscribable_world) = Some ([Ret tt; Ret tt; Ret tt; Ret tt], w)
  /\ reachable atomic answers (method (D := example_deployment false)) subscribable_world ([Ret tt; Ret tt; Ret tt; Ret tt], w)
  /\ getResourceSubscribersForServer "s" "file" w = [].
Proof.
  eexists. split; [vm_compute; reflexivity|]. split; [|by vm_compute].
  eapply (plays_reachable atomic answers example_oracle example_oracle_sound _ _ joined_while_leaving);
    [apply reachable_start|repeat constructor|vm_compute; reflexivity].
Qed.
