(* ===== verification/UserCapabilities.v ===== *)
(** * Capabilities of a user

    [getUserCapabilities] and [getCapabilitiesFromDatabase] of
    [src/src/mcp/services/CapabilitiesService.ts] and the saving of a user's
    choices in [src/src/user/UserRequestHandler.ts].  The configuration of a
    tool, resource or prompt is an object that a context's configuration and
    the answers of these methods may share, and that they assign to: objects
    are in a store, the lists refer to them.  A configuration has objects or
    nothing for its three kinds; names are not those of members every object
    inherits. *)
From Stdlib Require Import ZArith Lia.
From stdpp Require Import base gmap sets strings list.
From coqutil Require Import Datatypes.RecordSetters.
From S2P Require Import Prelude Json JsMap Access ServerTypes ServerContext ServerWorld ServerStart TokenRefresh.
Open Scope Z_scope.

(** ** The store *)

Record Objects : Type := { objs : gmap nat json; next_obj : nat }.

Definition deref (o : Objects) (l : nat) : json := default JUndefined (objs o !! l).

(** The object a list of references stands for. *)
Definition deref_all (o : Objects) (refs : list (string * nat)) : json := JObj (map (fun kl => (fst kl, deref o (snd kl))) refs).

Definition O (A : Type) : Type := M Objects exn A.

Definition new_object (v : json) : O nat := mlift (fun o =>
  (next_obj o, {| objs := <[next_obj o := v]> (objs o); next_obj := S (next_obj o) |})).

Definition read_object (l : nat) : O json := mgets (fun o => deref o l).

(** Code that computes or throws. *)
Definition now_or_throw {A} (r : result exn A) : O A := fun o => (r, o).

(** [object.k = v] *)
Definition assign (l : nat) (k : string) (v : json) : O unit := fun o =>
  match jset (deref o l) k v with
  | Ok x => (Ok tt, {| objs := <[l := x]> (objs o); next_obj := next_obj o |})
  | Throw e => (Throw e, o)
  end.

(** A loop that carries a value. *)
Fixpoint loop {A B} (f : B -> A -> O B) (l : list A) (b : B) : O B :=
  match l with [] => mret b | x :: l => let! b := f b x in loop f l b end.

Definition new_objects (kvs : list (string * json)) : O (list (string * nat)) :=
  loop (fun acc kv => let! l := new_object (snd kv) in mret (acc ++ [(fst kv, l)])) kvs [].

(** ** The configuration of a context *)

Record ConfigObjects : Type := {
  co_tools : option (list (string * nat));
  co_resources : option (list (string * nat));
  co_prompts : option (list (string * nat))
}.

Definition refs_of (l : option (list (string * nat))) : list (string * nat) := default [] l.

(** [capabilitiesConfig] as a value. *)
Definition config_value (o : Objects) (c : ConfigObjects) : json :=
  let kind k l := match l with Some refs => [(k, deref_all o refs)] | None => [] end in
  JObj (kind "tools"%string (co_tools c) ++ kind "resources"%string (co_resources c) ++ kind "prompts"%string (co_prompts c)).

(** ** [getMcpCapabilities] *)

Definition fresh_entry (name : string) (entry : json -> json) (refs : list (string * nat)) (acc : list (string * nat))
    : O (list (string * nat)) :=
  let! configured := mgets (fun o => deref_all o refs) in
  let! l := new_object (entry configured) in
  mret (obj_assign name l acc).

(** New objects for what the server lists, the configuration's own objects
    when it has not been asked yet. *)
Definition tools_refs (refs : list (string * nat)) (x : ServerContext) : O (list (string * nat)) :=
  match tools x with
  | Some l => loop (fun acc t => fresh_entry (lt_name t) (fun c => tool_entry c t) refs acc) l []
  | None => mret (assign_all refs)
  end.

Definition items_refs (refs : list (string * nat)) (items : list DownstreamItem) (acc : list (string * nat))
    : O (list (string * nat)) :=
  loop (fun acc i => fresh_entry (li_name i) (fun c => item_entry c i) refs acc) items acc.

Definition resources_refs (refs : list (string * nat)) (x : ServerContext) : O (list (string * nat)) :=
  match resources x with
  | Some l => let! acc := items_refs refs l [] in items_refs refs (default [] (resourceTemplates x)) acc
  | None => mret (assign_all refs)
  end.

Definition prompts_refs (refs : list (string * nat)) (x : ServerContext) : O (list (string * nat)) :=
  match prompts x with Some l => items_refs refs l [] | None => mret (assign_all refs) end.

(** ** One server, as a user sees it *)

Record ServerView : Type := {
  sv_enabled : json;
  sv_row : Server;
  sv_configTemplate : string;
  sv_configured : bool;
  sv_status : ServerStatus;
  sv_tools : list (string * nat);
  sv_resources : list (string * nat);
  sv_prompts : list (string * nat)
}.

Definition is_false (v : json) : bool := match v with JBool false => true | _ => false end.

(** Entries whose [enabled] is [false] are deleted. *)
Definition drop_disabled (refs : list (string * nat)) : O (list (string * nat)) :=
  loop (fun acc kl =>
    let! v := read_object (snd kl) in
    let! e := now_or_throw (jget v "enabled") in
    mret (if is_false e then acc else acc ++ [kl])) refs [].

(** The object under a name, if there is one. *)
Definition entry_of (refs : list (string * nat)) (name : string) : O (option nat) :=
  mgets (fun o => match assoc name refs with
                  | Some l => if js_truthy (deref o l) then Some l else None
                  | None => None
                  end).

Definition is_bool (v : json) : bool := match v with JBool _ => true | _ => false end.

Definition Silent : json := JNum DangerLevel_Silent.

(** A permission of the administrator's. *)
Definition apply_permission (with_danger : bool) (refs : list (string * nat)) (kv : string * json) : O unit :=
  let! enabled := now_or_throw (jget (snd kv) "enabled") in
  let! l := entry_of refs (fst kv) in
  match l with
  | Some l =>
      if is_bool enabled then
        assign l "enabled" enabled ;!
        (if with_danger then assign l "dangerLevel" (or_nullish (jfield_opt (snd kv) "dangerLevel") Silent) else mret tt)
      else mret tt
  | None => mret tt
  end.

Definition each {A} (f : A -> O unit) (l : list A) : O unit := loop (fun _ x => f x) l tt.

(** [if (perms) for (... of Object.entries(perms))] *)
Definition apply_permissions (with_danger : bool) (refs : list (string * nat)) (perms : json) : O unit :=
  if js_truthy perms then each (apply_permission with_danger refs) (spread perms) else mret tt.

Record UserOfDatabase : Type := { u_permissions : string; u_launchConfigs : option string; u_userPreferences : option string }.

Section Views.
Variables (w : World) (config : nat -> ConfigObjects).

Definition view_context (userId : string) (row : Server) : option nat :=
  if allowUserInput row then getTemporaryServer (serverId row) userId w else getServerContext (serverId row) None w.

(** What the server has: from its context, or from its row. *)
Definition offered (userId : string) (row : Server)
    : O (list (string * nat) * list (string * nat) * list (string * nat) * ServerStatus) :=
  match view_context userId row with
  | Some c =>
      let x := context_at w c in
      let! t := tools_refs (refs_of (co_tools (config c))) x in
      let! r := resources_refs (refs_of (co_resources (config c))) x in
      let! p := prompts_refs (refs_of (co_prompts (config c))) x in
      mret (t, r, p, status x)
  | None =>
      let! caps := now_or_throw (JSON_parse_exn (configured_capabilities row)) in
      let! t := now_or_throw (jget caps "tools") in
      let! r := now_or_throw (jget caps "resources") in
      let! p := now_or_throw (jget caps "prompts") in
      let! t := new_objects (spread (or_nullish t (JObj []))) in
      let! r := new_objects (spread (or_nullish r (JObj []))) in
      let! p := new_objects (spread (or_nullish p (JObj []))) in
      mret (t, r, p, Offline)
  end.

Definition server_view (userId : string) (permissions launchConfigs : json) (row : Server) : O ServerView :=
  let! own := now_or_throw (jget permissions (serverId row)) in
  let enabled := or_nullish (jfield_opt own "enabled") (JBool (publicAccess row)) in
  let! offer := offered userId row in
  let '(t, r, p, s) := offer in
  let! t := drop_disabled t in
  let! r := drop_disabled r in
  let! p := drop_disabled p in
  apply_permissions true t (jfield_opt own "tools") ;!
  apply_permissions false r (jfield_opt own "resources") ;!
  apply_permissions false p (jfield_opt own "prompts") ;!
  let! launchConfig := now_or_throw (jget launchConfigs (serverId row)) in
  mret {| sv_enabled := enabled; sv_row := row;
          sv_configTemplate := if allowUserInput row then default "{}"%string (configTemplate row) else "{}"%string;
          sv_configured := if allowUserInput row then negb (json_eqb launchConfig JUndefined) else true;
          sv_status := s; sv_tools := t; sv_resources := r; sv_prompts := p |}.

(** [getCapabilitiesFromDatabase], given the enabled servers and the user. *)
Definition getCapabilitiesFromDatabase (userId : string) (user : option UserOfDatabase) (rows : list Server)
    : O (list (string * ServerView)) :=
  match user with
  | None => mthrow (Error ("User " +:+ userId +:+ " not found"))
  | Some u =>
      let! permissions := now_or_throw (JSON_parse_exn (u_permissions u)) in
      let! launchConfigs := now_or_throw (JSON_parse_exn (default "{}"%string (u_launchConfigs u))) in
      loop (fun acc row =>
        let! v := server_view userId permissions launchConfigs row in
        mret (obj_assign (serverId row) v acc)) rows []
  end.

End Views.

(** ** With the user's own choices *)

Definition without_disabled (v : ServerView) : O ServerView :=
  let! t := drop_disabled (sv_tools v) in
  let! r := drop_disabled (sv_resources v) in
  let! p := drop_disabled (sv_prompts v) in
  mret {| sv_enabled := sv_enabled v; sv_row := sv_row v; sv_configTemplate := sv_configTemplate v;
          sv_configured := sv_configured v; sv_status := sv_status v; sv_tools := t; sv_resources := r; sv_prompts := p |}.

Definition drop_disabled_servers (views : list (string * ServerView)) : O (list (string * ServerView)) :=
  loop (fun acc kv =>
    if is_false (sv_enabled (snd kv)) then mret acc
    else let! v := without_disabled (snd kv) in mret (acc ++ [(fst kv, v)])) views [].

(** [Object.entries(v)] *)
Definition entries (v : json) : O (list (string * json)) :=
  match v with JUndefined | JNull => mthrow TypeError | _ => mret (spread v) end.

Definition apply_choice (with_danger : bool) (refs : list (string * nat)) (kv : string * json) : O unit :=
  let! l := entry_of refs (fst kv) in
  match l with
  | Some l =>
      let! enabled := now_or_throw (jget (snd kv) "enabled") in
      assign l "enabled" enabled ;!
      (if with_danger then assign l "dangerLevel" (or_nullish (jfield_opt (snd kv) "dangerLevel") Silent) else mret tt)
  | None => mret tt
  end.

Definition apply_choices (with_danger : bool) (refs : list (string * nat)) (choices : result exn json) : O unit :=
  let! v := now_or_throw choices in
  let! l := entries v in
  each (apply_choice with_danger refs) l.

Definition set_enabled (v : ServerView) (e : json) : ServerView :=
  {| sv_enabled := e; sv_row := sv_row v; sv_configTemplate := sv_configTemplate v; sv_configured := sv_configured v;
     sv_status := sv_status v; sv_tools := sv_tools v; sv_resources := sv_resources v; sv_prompts := sv_prompts v |}.

(** The choices of one server, if the user still sees it. *)
Definition apply_preferences (views : list (string * ServerView)) (kv : string * json) : O (list (string * ServerView)) :=
  match assoc (fst kv) views with
  | None => mret views
  | Some v =>
      let! e := now_or_throw (jget (snd kv) "enabled") in
      apply_choices true (sv_tools v) (jget (snd kv) "tools") ;!
      apply_choices false (sv_resources v) (jget (snd kv) "resources") ;!
      apply_choices false (sv_prompts v) (jget (snd kv) "prompts") ;!
      mret (map_set (fst kv) (set_enabled v e) views)
  end.

Section Answers.
Variables (w : World) (config : nat -> ConfigObjects).

(** The user is read twice. *)
Definition getUserCapabilities (userId : string) (user again : option UserOfDatabase) (rows : list Server)
    : O (list (string * ServerView)) :=
  match user with
  | None => mret []
  | Some u =>
      let! userPreferences := now_or_throw (JSON_parse_exn (default "{}"%string (u_userPreferences u))) in
      let! capabilities := getCapabilitiesFromDatabase w config userId again rows in
      let! capabilities := drop_disabled_servers capabilities in
      let! choices := entries userPreferences in
      loop apply_preferences choices capabilities
  end.

Definition status_number (s : ServerStatus) : Z :=
  match s with Online => 0 | Offline => 1 | Connecting => 2 | Access.Error => 3 | Sleeping => 4 end.

(** The answer as it is sent. *)
Definition view_json (o : Objects) (v : ServerView) : json :=
  let row := sv_row v in
  JObj [("enabled", sv_enabled v); ("serverName", JStr (serverName row)); ("allowUserInput", JBool (allowUserInput row));
        ("authType", JNum (auth_number (authType row))); ("category", JNum (category_number (category row)));
        ("configTemplate", JStr (sv_configTemplate v)); ("configured", JBool (sv_configured v));
        ("tools", deref_all o (sv_tools v)); ("resources", deref_all o (sv_resources v)); ("prompts", deref_all o (sv_prompts v));
        ("status", JNum (status_number (sv_status v)))]%string.

Definition views_json (o : Objects) (l : list (string * ServerView)) : json :=
  JObj (map (fun kv => (fst kv, view_json o (snd kv))) l).
End Answers.

(** ** Saving choices *)

(** [v.k1.k2... = x], reading [v.k1...] on the way. *)
Fixpoint set_path (v : json) (path : list string) (k : string) (x : json) : result exn json :=
  match path with
  | [] => jset v k x
  | a :: path => try! inner := jget v a in try! inner := set_path inner path k x in jset v a inner
  end.

Definition isValidDangerLevel (v : json) : bool :=
  match v with JNum n => bool_decide (n ∈ [DangerLevel_Silent; DangerLevel_Notification; 2]) | _ => false end.

(** What the submission says of one entry, if anything. *)
Definition submitted_entry (submitted : json) (kind name : string) : option json :=
  let v := jfield_opt (jfield_opt submitted kind) name in if js_truthy v then Some v else None.

Definition merge_enabled (merged : json) (path : list string) (submitted : json) : result exn json :=
  let e := jfield_opt submitted "enabled" in
  if is_bool e then set_path merged path "enabled" e else Ok merged.

(** [value.toString()] throws on [null]. *)
Definition merge_danger (merged : json) (path : list string) (submitted : json) : result exn json :=
  match jfield_opt submitted "dangerLevel" with
  | JUndefined => Ok merged
  | JNull => Throw TypeError
  | d => if isValidDangerLevel d then set_path merged path "dangerLevel" d else Ok merged
  end.

Definition merge_entry (with_danger : bool) (serverId kind : string) (submitted merged : json) (name : string) : result exn json :=
  match submitted_entry submitted kind name with
  | None => Ok merged
  | Some e =>
      let path := [serverId; kind; name] in
      try! merged := merge_enabled merged path e in
      if with_danger then merge_danger merged path e else Ok merged
  end.

Fixpoint merge_all {A} (f : json -> A -> result exn json) (l : list A) (merged : json) : result exn json :=
  match l with [] => Ok merged | x :: l => try! merged := f merged x in merge_all f l merged end.

Definition merge_kind (with_danger : bool) (serverId kind : string) (submitted current merged : json) : result exn json :=
  let l := jfield_opt current kind in
  merge_all (merge_entry with_danger serverId kind submitted) (keys (spread (if js_truthy l then l else JObj []))) merged.

Definition merge_server (submitted : json) (merged : json) (kv : string * json) : result exn json :=
  try! s := jget submitted (fst kv) in
  if negb (js_truthy s) then Ok merged else
  try! merged := merge_enabled merged [fst kv] s in
  try! merged := merge_kind true (fst kv) "tools" s (snd kv) merged in
  try! merged := merge_kind false (fst kv) "resources" s (snd kv) merged in
  merge_kind false (fst kv) "prompts" s (snd kv) merged.

(** [JSON.parse(JSON.stringify(v))] *)
Definition deep_copy (v : json) : json := default JUndefined (JSON_parse (json_text v)).

Definition extractEnabledFields (submitted current : json) : result exn json :=
  merge_all (merge_server submitted) (spread current) (deep_copy current).

(** [handleSetCapabilities] up to the update of the user: the text that is
    saved. *)
Definition handleSetCapabilities (w : World) (config : nat -> ConfigObjects) (userId : string)
    (user again : option UserOfDatabase) (rows : list Server) (submitted : json) : O string :=
  let! current := getUserCapabilities w config userId user again rows in
  let! current := mgets (fun o => views_json o current) in
  let! merged := now_or_throw (extractEnabledFields submitted current) in
  mret (json_text merged).

(** ** What is shared is not touched *)

(** [m] leaves the first [n] objects alone, and returns what satisfies [Q]. *)
Definition frames {A} (n : nat) (m : O A) (Q : A -> Prop) : Prop :=
  forall o, (n <= next_obj o)%nat ->
    (n <= next_obj (snd (m o)))%nat
    /\ (forall l, (l < n)%nat -> objs (snd (m o)) !! l = objs o !! l)
    /\ (forall a, fst (m o) = Ok a -> Q a).

Lemma frames_ret {A} n (a : A) (Q : A -> Prop) : Q a -> frames n (mret a) Q.
Proof. intros H o Ho. split_and! ; cbn; [done|done|]. by intros ? [= <-]. Qed.

Lemma frames_now {A} n (r : result exn A) : frames n (now_or_throw r) (fun _ => True).
Proof. intros o Ho. by split_and!. Qed.

Lemma frames_gets {A} n (f : Objects -> A) : frames n (mgets f) (fun _ => True).
Proof. intros o Ho. by split_and!. Qed.

Lemma frames_throw {A} n e (Q : A -> Prop) : frames n (mthrow e) Q.
Proof. intros o Ho. by split_and!. Qed.

Lemma frames_bind {A B} n (m : O A) (k : A -> O B) (P : A -> Prop) (Q : B -> Prop) :
  frames n m P -> (forall a, P a -> frames n (k a) Q) -> frames n (mbnd m k) Q.
Proof.
  intros Hm Hk o Ho. unfold mbnd. destruct (Hm o Ho) as (H1 & H2 & H3). destruct (m o) as [[a|e] o1]; cbn in *; [|by split_and!].
  destruct (Hk a (H3 a eq_refl) o1 H1) as (H4 & H5 & H6). split_and! ; [done| |done].
  intros l Hl. rewrite H5 by done. by apply H2.
Qed.

Lemma frames_mono {A} n (m : O A) (P Q : A -> Prop) : frames n m P -> (forall a, P a -> Q a) -> frames n m Q.
Proof. intros H HQ o Ho. destruct (H o Ho) as (? & ? & ?). split_and! ; auto. Qed.

Lemma frames_loop {A B} n (f : B -> A -> O B) (l : list A) (b : B) (P : B -> Prop) :
  (forall b x, x ∈ l -> P b -> frames n (f b x) P) -> P b -> frames n (loop f l b) P.
Proof.
  revert b. induction l as [|x l IH]; intros b Hf Hb; cbn [loop]; [by apply frames_ret|].
  eapply frames_bind; [apply Hf; [by left|exact Hb]|]. intros b' Hb'. apply IH; [|done].
  intros b'' y Hy. apply Hf. by right.
Qed.

Lemma frames_new n v : frames n (new_object v) (fun l => (n <= l)%nat).
Proof.
  intros o Ho. cbn. split_and! ; [lia| |by intros l [= <-]]. intros l Hl. rewrite lookup_insert_ne; [done|lia].
Qed.

Lemma frames_assign n l k v : (n <= l)%nat -> frames n (assign l k v) (fun _ => True).
Proof.
  intros Hl o Ho. unfold assign. destruct (jset _ _ _); cbn; split_and! ; try done.
  intros l' Hl'. rewrite lookup_insert_ne; [done|lia].
Qed.

(** The references made since. *)
Definition newer (n : nat) (refs : list (string * nat)) : Prop := Forall (fun kl => (n <= snd kl)%nat) refs.

Lemma newer_assoc n refs k l : newer n refs -> assoc k refs = Some l -> (n <= l)%nat.
Proof. intros H Ha. apply assoc_In in Ha. rewrite <- list_elem_of_In in Ha. by apply (proj1 (Forall_forall _ _) H) in Ha. Qed.

Lemma newer_assign n k l refs : (n <= l)%nat -> newer n refs -> newer n (obj_assign k l refs).
Proof. intros Hl. by apply obj_assign_Forall. Qed.

Lemma frames_fresh_entry n name entry refs acc : newer n acc -> frames n (fresh_entry name entry refs acc) (newer n).
Proof.
  intros Ha. eapply frames_bind; [apply frames_gets|]. intros c _. eapply frames_bind; [apply frames_new|].
  intros l Hl. apply frames_ret. by apply newer_assign.
Qed.

Lemma frames_items n refs items acc : newer n acc -> frames n (items_refs refs items acc) (newer n).
Proof. intros Ha. apply frames_loop; [|done]. intros b x _ Hb. by apply frames_fresh_entry. Qed.

(** A context whose server has told all it offers. *)
Definition loaded (x : ServerContext) : Prop := tools x <> None /\ resources x <> None /\ prompts x <> None.

Lemma frames_tools n refs x : tools x <> None -> frames n (tools_refs refs x) (newer n).
Proof.
  intros Hx. unfold tools_refs. destruct (tools x) as [l|]; [|done]. apply frames_loop; [|constructor].
  intros b t _ Hb. by apply frames_fresh_entry.
Qed.

Lemma frames_resources n refs x : resources x <> None -> frames n (resources_refs refs x) (newer n).
Proof.
  intros Hx. unfold resources_refs. destruct (resources x) as [l|]; [|done].
  eapply frames_bind; [apply frames_items; constructor|]. intros acc Ha. by apply frames_items.
Qed.

Lemma frames_prompts n refs x : prompts x <> None -> frames n (prompts_refs refs x) (newer n).
Proof. intros Hx. unfold prompts_refs. destruct (prompts x) as [l|]; [|done]. apply frames_items. constructor. Qed.

Lemma frames_new_objects n kvs : frames n (new_objects kvs) (newer n).
Proof.
  apply frames_loop; [|constructor]. intros acc kv _ Ha. eapply frames_bind; [apply frames_new|]. intros l Hl.
  apply frames_ret. apply Forall_app. split; [done|]. by repeat constructor.
Qed.

Lemma frames_drop n refs : newer n refs -> frames n (drop_disabled refs) (newer n).
Proof.
  intros Hr. apply frames_loop; [|constructor]. intros acc kl Hkl Ha.
  eapply frames_bind; [apply frames_gets|]. intros v _. eapply frames_bind; [apply frames_now|]. intros e _. apply frames_ret.
  destruct (is_false e); [done|]. apply Forall_app. split; [done|]. constructor; [|constructor].
  by apply (proj1 (Forall_forall _ _) Hr).
Qed.

Lemma frames_entry n refs name : newer n refs -> frames n (entry_of refs name) (fun r => forall l, r = Some l -> (n <= l)%nat).
Proof.
  intros Hr o Ho. cbn. split_and! ; [done..|]. intros r [= <-] l. destruct (assoc name refs) as [l'|] eqn:Ha; [|done].
  destruct (js_truthy _); [|done]. intros [= <-]. by eapply newer_assoc.
Qed.

Lemma frames_set n (b : bool) l k v : (n <= l)%nat -> frames n (if b then assign l k v else mret tt) (fun _ => True).
Proof. intros Hl. destruct b; [by apply frames_assign|by apply frames_ret]. Qed.

Lemma frames_permission n b refs kv : newer n refs -> frames n (apply_permission b refs kv) (fun _ => True).
Proof.
  intros Hr. eapply frames_bind; [apply frames_now|]. intros e _. eapply frames_bind; [by apply frames_entry|].
  intros [l|] Hl; [|by apply frames_ret]. specialize (Hl l eq_refl). destruct (is_bool e); [|by apply frames_ret].
  eapply frames_bind; [by apply frames_assign|]. intros _ _. by apply frames_set.
Qed.

Lemma frames_choice n b refs kv : newer n refs -> frames n (apply_choice b refs kv) (fun _ => True).
Proof.
  intros Hr. eapply frames_bind; [by apply frames_entry|]. intros [l|] Hl; [|by apply frames_ret]. specialize (Hl l eq_refl).
  eapply frames_bind; [apply frames_now|]. intros e _. eapply frames_bind; [by apply frames_assign|]. intros _ _. by apply frames_set.
Qed.

Lemma frames_permissions n b refs perms : newer n refs -> frames n (apply_permissions b refs perms) (fun _ => True).
Proof.
  intros Hr. unfold apply_permissions. destruct (js_truthy perms); [|by apply frames_ret].
  apply frames_loop; [|done]. intros _ kv _ _. by apply frames_permission.
Qed.

Lemma frames_entries n v : frames n (entries v) (fun _ => True).
Proof. destruct v; try apply frames_throw; by apply frames_ret. Qed.

Lemma frames_choices n b refs c : newer n refs -> frames n (apply_choices b refs c) (fun _ => True).
Proof.
  intros Hr. eapply frames_bind; [apply frames_now|]. intros v _. eapply frames_bind; [apply frames_entries|]. intros l _.
  apply frames_loop; [|done]. intros _ kv _ _. by apply frames_choice.
Qed.

Definition newer_view (n : nat) (v : ServerView) : Prop := newer n (sv_tools v) /\ newer n (sv_resources v) /\ newer n (sv_prompts v).
Definition newer_views (n : nat) (l : list (string * ServerView)) : Prop := Forall (fun kv => newer_view n (snd kv)) l.

Section Isolation.
Variables (w : World) (config : nat -> ConfigObjects).

(** Every context the user is shown has been loaded. *)
Definition all_loaded (userId : string) (rows : list Server) : Prop :=
  forall row c, row ∈ rows -> view_context w userId row = Some c -> loaded (context_at w c).

Lemma frames_offered n userId row :
  (forall c, view_context w userId row = Some c -> loaded (context_at w c)) ->
  frames n (offered w config userId row) (fun r => newer n r.1.1.1 /\ newer n r.1.1.2 /\ newer n r.1.2).
Proof.
  intros Hl. unfold offered. destruct (view_context w userId row) as [c|].
  - destruct (Hl c eq_refl) as (H1 & H2 & H3).
    eapply frames_bind; [by apply frames_tools|]. intros t Ht. eapply frames_bind; [by apply frames_resources|]. intros r Hr.
    eapply frames_bind; [by apply frames_prompts|]. intros p Hp. by apply frames_ret.
  - do 4 (eapply frames_bind; [apply frames_now|]; intros ? _).
    eapply frames_bind; [apply frames_new_objects|]. intros t Ht. eapply frames_bind; [apply frames_new_objects|]. intros r Hr.
    eapply frames_bind; [apply frames_new_objects|]. intros p Hp. by apply frames_ret.
Qed.

Lemma frames_view n userId permissions launchConfigs row :
  (forall c, view_context w userId row = Some c -> loaded (context_at w c)) ->
  frames n (server_view w config userId permissions launchConfigs row) (newer_view n).
Proof.
  intros Hl. eapply frames_bind; [apply frames_now|]. intros own _. eapply frames_bind; [by apply frames_offered|].
  intros [[[t r] p] s] (Ht & Hr & Hp). cbn in *.
  eapply frames_bind; [by apply frames_drop|]. intros t' Ht'. eapply frames_bind; [by apply frames_drop|]. intros r' Hr'.
  eapply frames_bind; [by apply frames_drop|]. intros p' Hp'.
  do 3 (eapply frames_bind; [by apply frames_permissions|]; intros _ _).
  eapply frames_bind; [apply frames_now|]. intros lc _. by apply frames_ret.
Qed.

Lemma frames_database n userId user rows :
  all_loaded userId rows -> frames n (getCapabilitiesFromDatabase w config userId user rows) (newer_views n).
Proof.
  intros Hl. unfold getCapabilitiesFromDatabase. destruct user as [u|]; [|apply frames_throw].
  do 2 (eapply frames_bind; [apply frames_now|]; intros ? _). apply frames_loop; [|constructor].
  intros acc row Hrow Ha. eapply frames_bind; [apply frames_view; intros c; by apply Hl|]. intros v Hv. apply frames_ret.
  by apply obj_assign_Forall.
Qed.

Lemma frames_without n v : newer_view n v -> frames n (without_disabled v) (newer_view n).
Proof.
  intros (Ht & Hr & Hp). eapply frames_bind; [by apply frames_drop|]. intros t Ht'. eapply frames_bind; [by apply frames_drop|].
  intros r Hr'. eapply frames_bind; [by apply frames_drop|]. intros p Hp'. by apply frames_ret.
Qed.

Lemma frames_servers n views : newer_views n views -> frames n (drop_disabled_servers views) (newer_views n).
Proof.
  intros Hv. apply frames_loop; [|constructor]. intros acc kv Hkv Ha. destruct (is_false _); [by apply frames_ret|].
  eapply frames_bind; [apply frames_without; by apply (proj1 (Forall_forall _ _) Hv)|]. intros v Hv'. apply frames_ret.
  apply Forall_app. split; [done|]. constructor; [exact Hv'|constructor].
Qed.

Lemma map_set_Forall {A} (P : string * A -> Prop) k v (m : list (string * A)) :
  P (k, v) -> Forall P m -> Forall P (map_set k v m).
Proof. intros Hk Hm. apply Forall_forall. intros [k' v'] Hin%list_elem_of_In%In_map_set. destruct Hin as [[-> ->]|[_ Hin]]; [done|].
  apply (proj1 (Forall_forall _ _) Hm). by apply list_elem_of_In. Qed.

Lemma frames_preferences n views kv : newer_views n views -> frames n (apply_preferences views kv) (newer_views n).
Proof.
  intros Hv. unfold apply_preferences. destruct (assoc (fst kv) views) as [v|] eqn:Ha; [|by apply frames_ret].
  assert (Hn : newer_view n v).
  { apply assoc_In in Ha. rewrite <- list_elem_of_In in Ha. by apply (proj1 (Forall_forall _ _) Hv) in Ha. }
  destruct Hn as (Ht & Hr & Hp). eapply frames_bind; [apply frames_now|]. intros e _.
  do 3 (eapply frames_bind; [by apply frames_choices|]; intros _ _). apply frames_ret. by apply map_set_Forall.
Qed.

Lemma frames_user n userId user again rows :
  all_loaded userId rows -> frames n (getUserCapabilities w config userId user again rows) (fun _ => True).
Proof.
  intros Hl. unfold getUserCapabilities. destruct user as [u|]; [|by apply frames_ret].
  eapply frames_bind; [apply frames_now|]. intros prefs _. eapply frames_bind; [by apply frames_database|]. intros v1 H1.
  eapply frames_bind; [by apply frames_servers|]. intros v2 H2. eapply frames_bind; [apply frames_entries|]. intros choices _.
  eapply frames_mono; [apply frames_loop with (P := newer_views n)|done]; [|done]. intros b x _ Hb. by apply frames_preferences.
Qed.

Lemma frames_set_capabilities n userId user again rows submitted :
  all_loaded userId rows -> frames n (handleSetCapabilities w config userId user again rows submitted) (fun _ => True).
Proof.
  intros Hl. eapply frames_bind; [by apply frames_user|]. intros v _. eapply frames_bind; [apply frames_gets|]. intros c _.
  eapply frames_bind; [apply frames_now|]. intros m _. by apply frames_ret.
Qed.

(** The references of a configuration are references. *)
Definition allocated (o : Objects) (c : ConfigObjects) : Prop :=
  forall refs, co_tools c = Some refs \/ co_resources c = Some refs \/ co_prompts c = Some refs ->
    Forall (fun kl => (snd kl < next_obj o)%nat) refs.

Lemma deref_all_same o o' refs :
  (forall l, (l < next_obj o)%nat -> objs o' !! l = objs o !! l) -> Forall (fun kl => (snd kl < next_obj o)%nat) refs ->
  deref_all o' refs = deref_all o refs.
Proof.
  intros Ho Hr. unfold deref_all. f_equal. apply map_ext_in. intros kl Hin%list_elem_of_In. f_equal. unfold deref.
  rewrite Ho; [done|]. by apply (proj1 (Forall_forall _ _) Hr).
Qed.

Lemma config_value_same o o' c :
  (forall l, (l < next_obj o)%nat -> objs o' !! l = objs o !! l) -> allocated o c -> config_value o' c = config_value o c.
Proof.
  intros Ho Hc. unfold config_value. f_equal.
  destruct (co_tools c) as [t|] eqn:Et, (co_resources c) as [r|] eqn:Er, (co_prompts c) as [p|] eqn:Ep; cbn;
    rewrite ?(deref_all_same o o' t), ?(deref_all_same o o' r), ?(deref_all_same o o' p); try done;
    apply Hc; rewrite ?Et, ?Er, ?Ep; auto.
Qed.

(** When every server the user is shown has been loaded, reading a user's
    capabilities and saving choices leaves every context's configuration as
    it was: what a user prefers reaches no other user. *)
Theorem choices_stay_with_the_user (userId : string) (user again : option UserOfDatabase) (rows : list Server)
    (submitted : json) (o : Objects) (c : nat) :
  all_loaded userId rows -> allocated o (config c) ->
  config_value (snd (getUserCapabilities w config userId user again rows o)) (config c) = config_value o (config c)
  /\ config_value (snd (handleSetCapabilities w config userId user again rows submitted o)) (config c) = config_value o (config c).
Proof.
  intros Hl Hc. split; apply config_value_same; try done.
  - by apply (frames_user (next_obj o)).
  - by apply (frames_set_capabilities (next_obj o)).
Qed.
End Isolation.

(** ** Examples *)

Definition shown_row : Server := blank_server <| serverId := "s"%string |> <| publicAccess := true |> <| enabled := true |>.

(** A context of the server, asleep; with the lists it has told, if any. *)
Definition shown_world (l : option (list DownstreamTool)) : World :=
  let '(e, w) := alloc_entity shown_row initial_world in
  let '(c, w) := initializeManagedServerContext 0 e (Some Sleeping) w in
  upd_context c (fun x => match l with
                          | Some l => x <| tools := Some l |> <| resources := Some [] |> <| prompts := Some [] |>
                          | None => x
                          end) w.
Definition shown_context : nat := 1%nat.

Definition run_tool : DownstreamTool := {| lt_name := "run"; lt_description := None; lt_destructiveHint := Some true |}.

(** The tool needs an approval. *)
Definition shown_store : Objects :=
  {| objs := {[ 0%nat := JObj [("enabled", JBool true); ("dangerLevel", JNum 2)]%string ]}; next_obj := 1 |}.
Definition shown_config (c : nat) : ConfigObjects :=
  {| co_tools := Some [("run", 0%nat)]%string; co_resources := Some []; co_prompts := Some [] |}.

(** A user who would rather have it run silently. *)
Definition eager_user : UserOfDatabase := {|
  u_permissions := json_text (JObj []);
  u_launchConfigs := None;
  u_userPreferences := Some (json_text (JObj [("s", JObj
    [("enabled", JBool true); ("tools", JObj [("run", JObj [("enabled", JBool true); ("dangerLevel", JNum 0)])]);
     ("resources", JObj []); ("prompts", JObj [])])]))
|}%string.

(** The danger level the server's context gives every user. *)
Definition danger_of_run (o : Objects) : result exn json :=
  ServerContext.getDangerLevel "run" ((context_at (shown_world None) shown_context) <| capabilitiesConfig := config_value o (shown_config 0) |>).

Definition after_reading (l : option (list DownstreamTool)) : Objects :=
  snd (getUserCapabilities (shown_world l) shown_config "u" (Some eager_user) (Some eager_user) [shown_row] shown_store).

Lemma choices_stay_with_the_user_witness :
  danger_of_run shown_store = Ok (JNum 2) /\ danger_of_run (after_reading (Some [run_tool])) = Ok (JNum 2).
Proof.
  assert (H : danger_of_run shown_store = Ok (JNum 2)) by (vm_compute; reflexivity). split; [exact H|].
  assert (E : config_value (after_reading (Some [run_tool])) (shown_config 0) = config_value shown_store (shown_config 0)).
  2: { unfold danger_of_run in *. by rewrite E. }
  refine (proj1 (choices_stay_with_the_user (shown_world (Some [run_tool])) shown_config "u" (Some eager_user) (Some eager_user)
           [shown_row] JNull shown_store 0 _ _)).
  - intros row c Hrow%list_elem_of_singleton Hc. subst row. vm_compute in Hc. injection Hc as <-. by vm_compute.
  - intros refs [H1|[H1|H1]]; injection H1 as <-; repeat constructor.
Defined.

(** Before the server has told its tools, reading one user's capabilities
    rewrites the configuration all users share: the tool that needed an
    approval runs silently for everybody. *)
Example a_reader_lowers_the_danger_for_all :
  danger_of_run shown_store = Ok (JNum 2)
  /\ status (context_at (shown_world None) shown_context) = Sleeping
  /\ danger_of_run (after_reading None) = Ok (JNum 0).
Proof. by vm_compute. Qed.
