(* ===== verification/FileSystem.v ===== *)
(** * The file system

    The calls of [fs/promises] the code makes, on a tree of folders and files
    without links.  Every call may fail, whatever it is asked: an oracle says
    which calls do, with what error, and what they have done by then. *)
From Stdlib Require Import ZArith Lia.
From stdpp Require Import base gmap strings list.
From S2P Require Import Prelude NodePath.
Open Scope Z_scope.

(** What is thrown: errors of the code, with a message, and errors of the
    system, with a code as well. *)
Inductive thrown : Type :=
| Error (message : string)
| SystemError (code message : string).

(** [error.message], [error.code] *)
Definition message (e : thrown) : string := match e with Error m => m | SystemError _ m => m end.
Definition code (e : thrown) : option string := match e with Error _ => None | SystemError c _ => Some c end.

Inductive node : Type := Folder | Content (data : string).

#[export] Instance node_eq_dec : EqDecision node.
Proof. solve_decision. Defined.

Definition place := list string.

(** A failing call: the folders made, the places a removal has spared, how
    much of a file was written, if it was opened. *)
Record Fault : Type := { error : thrown; made : nat; spared : place -> bool; written : option nat }.

Record Disk : Type := { nodes : gmap place node; calls : nat }.

Definition FS (A : Type) : Type := M Disk thrown A.

(** [try { ... } catch (e) { ... }] *)
Definition fs_catch {A} (m : FS A) (handler : thrown -> FS A) : FS A := fun d =>
  match m d with (Ok a, d) => (Ok a, d) | (Throw e, d) => handler e d end.

(** [try { ... } finally { ... }]; what the last part throws is caught. *)
Definition finally {A} (m : FS A) (last : FS unit) : FS A := fun d =>
  let '(r, d) := m d in (r, snd (last d)).

Definition fs_or_throw {A} (r : result thrown A) : FS A := fun d => (r, d).

Fixpoint fs_loop {A B} (f : B -> A -> FS B) (l : list A) (b : B) : FS B :=
  match l with [] => mret b | x :: l => let! b := f b x in fs_loop f l b end.

(** ** Places *)

Definition prefixes (p : place) : list place := map (fun n => take n p) (seq 1 (length p)).
Definition proper_prefixes (p : place) : list place := removelast (prefixes p).

Definition node_at (m : gmap place node) (p : place) : option node := if decide (p = []) then Some Folder else m !! p.

Definition failure (c syscall : string) (p : place) : thrown :=
  let text := (if str_eqb c "ENOENT" then "no such file or directory"
               else if str_eqb c "ENOTDIR" then "not a directory"
               else if str_eqb c "EISDIR" then "illegal operation on a directory" else "file already exists")%string in
  SystemError c (c +:+ ": " +:+ text +:+ ", " +:+ syscall +:+ " '" +:+ abs_path p +:+ "'").

(** Whether the folders on the way are there. *)
Definition reach (syscall : string) (m : gmap place node) (p : place) : result thrown unit :=
  match List.find (fun q => negb (bool_decide (node_at m q = Some Folder))) (proper_prefixes p) with
  | Some q => Throw (failure (if node_at m q then "ENOTDIR" else "ENOENT") syscall p)
  | None => Ok tt
  end.

Definition find_node (syscall : string) (m : gmap place node) (p : place) : result thrown node :=
  match reach syscall m p with
  | Throw e => Throw e
  | Ok _ => match node_at m p with Some x => Ok x | None => Throw (failure "ENOENT" syscall p) end
  end.

Fixpoint make_folders (p : place) (todo : list place) (m : gmap place node) : result thrown unit * gmap place node :=
  match todo with
  | [] => (Ok tt, m)
  | q :: todo =>
      match node_at m q with
      | Some Folder => make_folders p todo m
      | Some (Content _) => (Throw (failure (if decide (q = p) then "EEXIST" else "ENOTDIR") "mkdir" p), m)
      | None => make_folders p todo (<[q := Folder]> m)
      end
  end.

Definition put (syscall : string) (p : place) (data : string) (m : gmap place node) : result thrown unit * gmap place node :=
  match reach syscall m p with
  | Throw e => (Throw e, m)
  | Ok _ =>
      match node_at m p with
      | Some Folder => (Throw (failure "EISDIR" syscall p), m)
      | _ => (Ok tt, <[p := Content data]> m)
      end
  end.

Definition below (p q : place) : bool := bool_decide (take (length p) q = p).

Definition prune (gone : place -> bool) (m : gmap place node) : gmap place node :=
  filter (fun kv => gone (fst kv) = false) m.

(** The name of what is directly in [p]. *)
Definition child_of (p q : place) : option string :=
  if below p q then match drop (length p) q with [n] => Some n | _ => None end else None.

(** In some order. *)
Definition children (p : place) (m : gmap place node) : list (string * bool) :=
  omap (fun kv => (fun n => (n, bool_decide (snd kv = Folder))) <$> child_of p (fst kv)) (map_to_list m).

(** ** The calls *)

Section Calls.
Variable faults : nat -> option Fault.

Definition call {A} (run : gmap place node -> result thrown A * gmap place node)
    (partly : Fault -> gmap place node -> gmap place node) : FS A := fun d =>
  let done m := {| nodes := m; calls := S (calls d) |} in
  match faults (calls d) with
  | Some f => (Throw (error f), done (partly f (nodes d)))
  | None => let '(r, m) := run (nodes d) in (r, done m)
  end.

Definition reading {A} (run : gmap place node -> result thrown A) : FS A := call (fun m => (run m, m)) (fun _ m => m).

(** [fs.mkdir(p, { recursive: true })] *)
Definition mkdir (p : string) : FS unit :=
  let q := segments p in
  call (make_folders q (prefixes q)) (fun f m => snd (make_folders q (take (made f) (prefixes q)) m)).

(** [fs.writeFile(p, data)] *)
Definition writeFile (p data : string) : FS unit :=
  let q := segments p in
  call (put "open" q data)
       (fun f m => match written f with Some n => snd (put "open" q (str_take n data) m) | None => m end).

(** [fs.readFile(p, 'utf-8')] *)
Definition readFile (p : string) : FS string :=
  let q := segments p in
  reading (fun m => match find_node "open" m q with
                    | Ok (Content x) => Ok x
                    | Ok Folder => Throw (failure "EISDIR" "read" q)
                    | Throw e => Throw e
                    end).

(** [fs.readdir(p, { withFileTypes: true })] *)
Definition readdir (p : string) : FS (list (string * bool)) :=
  let q := segments p in
  reading (fun m => match find_node "scandir" m q with
                    | Ok Folder => Ok (children q m)
                    | Ok (Content _) => Throw (failure "ENOTDIR" "scandir" q)
                    | Throw e => Throw e
                    end).

(** [fs.rm(p, { recursive: true, force: true })] *)
Definition rm (p : string) : FS unit :=
  let q := segments p in
  call (fun m => match find_node "rm" m q with
                 | Ok _ => (Ok tt, prune (below q) m)
                 | Throw e => (if decide (code e = Some "ENOENT"%string) then Ok tt else Throw e, m)
                 end)
       (fun f m => prune (fun k => below q k && negb (spared f k)) m).

(** [fs.copyFile(src, dest)] *)
Definition copyFile (src dest : string) : FS unit :=
  let p := segments src in let q := segments dest in
  call (fun m => match find_node "copyfile" m p with
                 | Ok (Content x) => put "copyfile" q x m
                 | Ok Folder => (Throw (failure "EISDIR" "copyfile" p), m)
                 | Throw e => (Throw e, m)
                 end)
       (fun f m => match written f, find_node "copyfile" m p with
                   | Some n, Ok (Content x) => snd (put "copyfile" q (str_take n x) m)
                   | _, _ => m
                   end).

(** [fs.access(p)] *)
Definition access (p : string) : FS unit :=
  reading (fun m => match find_node "access" m (segments p) with Ok _ => Ok tt | Throw e => Throw e end).

(** [fs.mkdtemp(prefix)], with the characters it appends. *)
Definition mkdtemp (prefix random : string) : FS string :=
  let p := prefix +:+ random in
  let q := segments p in
  call (fun m => match reach "mkdtemp" m q with
                 | Throw e => (Throw e, m)
                 | Ok _ => match node_at m q with
                           | Some _ => (Throw (failure "EEXIST" "mkdtemp" q), m)
                           | None => (Ok p, <[q := Folder]> m)
                           end
                 end)
       (fun _ m => m).
End Calls.

(** ** What is left alone

    Everything [m'] has other than [m] is in one of the roots, or a folder
    that was missing on the way to one. *)

Definition inside (roots : place -> Prop) (p : place) : Prop := exists r, roots r /\ r `prefix_of` p.

Definition within (roots : place -> Prop) (m m' : gmap place node) : Prop :=
  forall p, m' !! p <> m !! p ->
    inside roots p \/ (m !! p = None /\ m' !! p = Some Folder /\ exists r, roots r /\ p `prefix_of` r).

(** Names are such as a directory can have in it. *)
Definition named (m : gmap place node) : Prop := forall p x, m !! p = Some x -> Forall clean p.

Lemma within_refl roots m : within roots m m.
Proof. by intros p H. Qed.

Lemma within_trans roots a b c : within roots a b -> within roots b c -> within roots a c.
Proof.
  intros H1 H2 p Hp. destruct (decide (b !! p = a !! p)) as [E1|E1].
  - rewrite <- E1 in Hp. destruct (H2 p Hp) as [?|(E & ? & ?)]; [by left|right]. rewrite <- E1. by split_and!.
  - destruct (H1 p E1) as [?|(E & E' & ?)]; [by left|]. destruct (decide (c !! p = b !! p)) as [E2|E2].
    + right. rewrite E2. by split_and!.
    + destruct (H2 p E2) as [?|(E3 & _)]; [by left|]. by rewrite E3 in E'.
Qed.

Section Keeps.
Variable roots : place -> Prop.

Definition confines {A} (m : FS A) (Q : A -> Prop) : Prop :=
  forall d, named (nodes d) ->
    named (nodes (snd (m d))) /\ within roots (nodes d) (nodes (snd (m d))) /\ (forall a, fst (m d) = Ok a -> Q a).

Lemma confines_ret {A} (a : A) (Q : A -> Prop) : Q a -> confines (mret a) Q.
Proof. intros H d Hd. split_and! ; [done|apply within_refl|]. by intros ? [= <-]. Qed.

Lemma confines_throw {A} e (Q : A -> Prop) : confines (mthrow e) Q.
Proof. intros d Hd. split_and! ; [done|apply within_refl|done]. Qed.

Lemma confines_now {A} (r : result thrown A) (Q : A -> Prop) : (forall a, r = Ok a -> Q a) -> confines (fs_or_throw r) Q.
Proof. intros H d Hd. split_and! ; [done|apply within_refl|done]. Qed.

Lemma confines_bind {A B} (m : FS A) (k : A -> FS B) (P : A -> Prop) (Q : B -> Prop) :
  confines m P -> (forall a, P a -> confines (k a) Q) -> confines (mbnd m k) Q.
Proof.
  intros Hm Hk d Hd. unfold mbnd. destruct (Hm d Hd) as (H1 & H2 & H3). destruct (m d) as [[a|e] d1]; cbn in *; [|by split_and!].
  destruct (Hk a (H3 a eq_refl) d1 H1) as (H4 & H5 & H6). split_and! ; [done|by eapply within_trans|done].
Qed.

Lemma confines_mono {A} (m : FS A) (P Q : A -> Prop) : confines m P -> (forall a, P a -> Q a) -> confines m Q.
Proof. intros H HQ d Hd. destruct (H d Hd) as (? & ? & ?). split_and! ; auto. Qed.

Lemma confines_loop {A B} (f : B -> A -> FS B) (l : list A) (b : B) (P : B -> Prop) :
  (forall b x, x ∈ l -> P b -> confines (f b x) P) -> P b -> confines (fs_loop f l b) P.
Proof.
  revert b. induction l as [|x l IH]; intros b Hf Hb; cbn [fs_loop]; [by apply confines_ret|].
  eapply confines_bind; [apply Hf; [by left|exact Hb]|]. intros b' Hb'. apply IH; [|done].
  intros b'' y Hy. apply Hf. by right.
Qed.

Lemma confines_catching {A} (m : FS A) (h : thrown -> FS A) (Q : A -> Prop) :
  confines m Q -> (forall e, confines (h e) Q) -> confines (fs_catch m h) Q.
Proof.
  intros Hm Hh d Hd. unfold fs_catch. destruct (Hm d Hd) as (H1 & H2 & H3). destruct (m d) as [[a|e] d1]; cbn in *; [by split_and!|].
  destruct (Hh e d1 H1) as (H4 & H5 & H6). split_and! ; [done|by eapply within_trans|done].
Qed.

Lemma confines_finally {A} (m : FS A) (last : FS unit) (Q : A -> Prop) (R : unit -> Prop) :
  confines m Q -> confines last R -> confines (finally m last) Q.
Proof.
  intros Hm Hl d Hd. unfold finally. destruct (Hm d Hd) as (H1 & H2 & H3). destruct (m d) as [r d1]; cbn in *.
  destruct (Hl d1 H1) as (H4 & H5 & _). split_and! ; [done|by eapply within_trans|done].
Qed.

(** *** The calls *)

Variable faults : nat -> option Fault.

Lemma confines_call {A} run partly (Q : A -> Prop) :
  (forall m, named m -> named (snd (run m)) /\ within roots m (snd (run m)) /\ (forall a, fst (run m) = Ok a -> Q a)) ->
  (forall f m, named m -> named (partly f m) /\ within roots m (partly f m)) ->
  confines (call faults run partly) Q.
Proof.
  intros Hr Hp d Hd. unfold call. destruct (faults (calls d)) as [f|]; cbn.
  - destruct (Hp f _ Hd). by split_and!.
  - destruct (Hr _ Hd) as (H1 & H2 & H3). by destruct (run (nodes d)) as [r m].
Qed.

Lemma confines_reading {A} run (Q : A -> Prop) :
  (forall m a, named m -> run m = Ok a -> Q a) -> confines (reading faults run) Q.
Proof.
  intros H. apply confines_call; intros; split_and! ; cbn; try done; try apply within_refl. intros a. by apply H.
Qed.

Lemma within_insert p x m : inside roots p -> within roots m (<[p := x]> m).
Proof. intros H q Hq. destruct (decide (q = p)) as [->|Hne]; [by left|]. by rewrite lookup_insert_ne in Hq. Qed.

Lemma named_insert p x m : Forall clean p -> named m -> named (<[p := x]> m).
Proof. intros Hp Hm q y [[<- _]|[_ H]]%lookup_insert_Some; [done|by eapply Hm]. Qed.

Lemma put_confined s p x m : inside roots p -> Forall clean p -> named m -> named (snd (put s p x m)) /\ within roots m (snd (put s p x m)).
Proof.
  intros Hi Hp Hm. unfold put. destruct (reach s m p); [|by split; [|apply within_refl]].
  destruct (node_at m p) as [[|y]|]; cbn; try (by split; [|apply within_refl]);
    (split; [by apply named_insert|by apply within_insert]).
Qed.

Lemma prefix_take {A} (n : nat) (l : list A) : take n l `prefix_of` l.
Proof. exists (drop n l). by rewrite take_drop. Qed.

Lemma inside_take n p : inside roots p -> inside roots (take n p) \/ exists r, roots r /\ take n p `prefix_of` r.
Proof.
  intros (r & Hr & k & ->). destruct (decide (n <= length r)%nat) as [Hn|Hn].
  - right. exists r. split; [done|]. rewrite take_app_le by done. apply prefix_take.
  - left. exists r. split; [done|]. rewrite take_app_ge by lia. by exists (take (n - length r) k).
Qed.

Lemma make_folders_confined p todo m :
  inside roots p -> Forall clean p -> (forall q, q ∈ todo -> exists n, q = take n p) -> named m ->
  named (snd (make_folders p todo m)) /\ within roots m (snd (make_folders p todo m)).
Proof.
  intros Hi Hp. revert m. induction todo as [|q todo IH]; intros m Ht Hm; cbn; [by split; [|apply within_refl]|].
  assert (Ht' : forall q, q ∈ todo -> exists n, q = take n p) by (intros r Hr; apply Ht; by right).
  destruct (node_at m q) as [[|y]|] eqn:Eq; cbn; [by apply IH|by split; [|apply within_refl]|].
  destruct (Ht q) as [n Hq]; [by left|]. destruct (IH (<[q := Folder]> m)) as (H1 & H2); [done|..].
  { apply named_insert; [|done]. rewrite Hq. by apply Forall_take. }
  split; [done|]. eapply within_trans; [|exact H2]. destruct (inside_take n p Hi) as [H|(r & Hr & H)]; rewrite <- Hq in H.
  - by apply within_insert.
  - intros a Ha. destruct (decide (a = q)) as [->|Hne]; [|by rewrite lookup_insert_ne in Ha].
    right. rewrite lookup_insert_eq. split_and! ; [|done|by exists r]. unfold node_at in Eq. by destruct (decide (q = [])).
Qed.

Lemma prefixes_take p q : q ∈ prefixes p -> exists n, q = take n p.
Proof. unfold prefixes. intros (n & -> & _)%list_elem_of_fmap. by exists n. Qed.

Lemma confines_mkdir p : inside roots (segments p) -> confines (mkdir faults p) (fun _ => True).
Proof.
  intros Hi. pose proof (segments_clean p) as Hc. apply confines_call.
  - intros m Hm. destruct (make_folders_confined (segments p) (prefixes (segments p)) m Hi Hc (prefixes_take _) Hm) as [H1 H2].
    by split_and!.
  - intros f m Hm. apply make_folders_confined; try done. intros q Hq. apply prefixes_take.
    eapply elem_of_subseteq; [|exact Hq]. apply subseteq_take.
Qed.

Lemma confines_writeFile p x : inside roots (segments p) -> confines (writeFile faults p x) (fun _ => True).
Proof.
  intros Hi. pose proof (segments_clean p) as Hc. apply confines_call.
  - intros m Hm. destruct (put_confined "open" (segments p) x m Hi Hc Hm) as [H1 H2]. by split_and!.
  - intros f m Hm. destruct (written f) as [y|]; [by apply put_confined|]. by split; [|apply within_refl].
Qed.

Lemma confines_copyFile src p : inside roots (segments p) -> confines (copyFile faults src p) (fun _ => True).
Proof.
  intros Hi. pose proof (segments_clean p) as Hc. apply confines_call.
  - intros m Hm. destruct (find_node _ _ _) as [[|x]|e]; cbn; try (split_and! ; [done|apply within_refl|done]).
    destruct (put_confined "copyfile" (segments p) x m Hi Hc Hm) as [H1 H2]. by split_and!.
  - intros f m Hm. cbv beta zeta. destruct (written f), (find_node "copyfile" m (segments src)) as [[]|]; try (by split; [|apply within_refl]). by apply put_confined.
Qed.

Lemma below_prefix p q : below p q = true <-> p `prefix_of` q.
Proof.
  unfold below. rewrite bool_decide_eq_true. split; [intros H; exists (drop (length p) q); by rewrite <- H at 1; rewrite take_drop|].
  intros [k ->]. by rewrite take_app_length.
Qed.

Lemma prune_confined gone m :
  (forall p, gone p = true -> inside roots p) -> named m -> named (prune gone m) /\ within roots m (prune gone m).
Proof.
  intros Hg Hm. split.
  - intros p x [H _]%map_lookup_filter_Some. by eapply Hm.
  - intros p Hp. left. apply Hg. destruct (gone p) eqn:E; [done|]. exfalso. apply Hp. unfold prune.
    destruct (m !! p) as [x|] eqn:Em.
    + by apply map_lookup_filter_Some.
    + apply map_lookup_filter_None. by left.
Qed.

Lemma inside_below p q : inside roots p -> below p q = true -> inside roots q.
Proof. intros (r & Hr & H) Hb%below_prefix. exists r. split; [done|]. by etrans. Qed.

Lemma confines_rm p : inside roots (segments p) -> confines (rm faults p) (fun _ => True).
Proof.
  intros Hi. apply confines_call.
  - intros m Hm. destruct (find_node _ _ _); cbn; [|split_and! ; [done|apply within_refl|done]].
    destruct (prune_confined (below (segments p)) m) as [H1 H2]; [|done|by split_and!]. intros q. by apply inside_below.
  - intros f m Hm. apply prune_confined; [|done]. intros q [Hq _]%andb_true_iff. by eapply inside_below.
Qed.

Lemma child_of_Some p q n : child_of p q = Some n <-> q = p ++ [n].
Proof.
  unfold child_of. destruct (below p q) eqn:E.
  - apply below_prefix in E as [k ->]. rewrite drop_app_length. destruct k as [|a [|b k]].
    + split; [done|]. intros H%(f_equal length). rewrite !length_app in H. cbn in H. lia.
    + split; [by intros [= ->]|]. intros H%app_inv_head. by injection H as ->.
    + split; [done|]. intros H%app_inv_head. done.
  - split; [done|]. intros ->. assert (H : below p (p ++ [n]) = true) by (apply below_prefix; by exists [n]). by rewrite H in E.
Qed.

Lemma elem_of_children p m n b :
  (n, b) ∈ children p m <-> exists x, m !! (p ++ [n]) = Some x /\ b = bool_decide (x = Folder).
Proof.
  unfold children. rewrite list_elem_of_omap. split.
  - intros ([q x] & Hq%elem_of_map_to_list & H). cbn in H. destruct (child_of p q) as [n'|] eqn:Ec; [|done].
    injection H as <- <-. apply child_of_Some in Ec as ->. by exists x.
  - intros (x & Hx & ->). exists (p ++ [n], x). split; [by apply elem_of_map_to_list|]. cbn.
    by rewrite (proj2 (child_of_Some p (p ++ [n]) n) eq_refl).
Qed.

Lemma confines_readdir p : confines (readdir faults p) (fun l => forall n b, (n, b) ∈ l -> clean n).
Proof.
  apply confines_reading. intros m l Hm Hl. destruct (find_node _ _ _) as [[|x]|e]; [|done|done]. injection Hl as <-.
  intros n b (x & Hx & _)%elem_of_children. apply Hm in Hx. apply Forall_app in Hx as [_ Hx]. by apply Forall_cons in Hx as [? _].
Qed.

Lemma confines_readFile p : confines (readFile faults p) (fun _ => True).
Proof. by apply confines_reading. Qed.

Lemma confines_access p : confines (access faults p) (fun _ => True).
Proof. by apply confines_reading. Qed.

Lemma confines_mkdtemp prefix random :
  inside roots (segments (prefix +:+ random)) -> confines (mkdtemp faults prefix random) (fun p => p = prefix +:+ random).
Proof.
  intros Hi. pose proof (segments_clean (prefix +:+ random)) as Hc. apply confines_call.
  - intros m Hm. destruct (reach _ _ _); cbn; [|split_and! ; [done|apply within_refl|done]].
    destruct (node_at _ _); cbn; [split_and! ; [done|apply within_refl|done]|].
    split_and! ; [by apply named_insert|by apply within_insert|]. by intros ? [= <-].
  - intros f m Hm. by split; [|apply within_refl].
Qed.
End Keeps.

(** ** Making folders removes nothing *)

Lemma make_folders_mono p todo m : m ⊆ snd (make_folders p todo m).
Proof.
  revert m. induction todo as [|q todo IH]; intros m; cbn; [done|].
  destruct (node_at m q) as [[|y]|] eqn:E; cbn; [apply IH|done|]. etrans; [|apply IH]. apply insert_subseteq.
  unfold node_at in E. by destruct (decide (q = [])).
Qed.

Lemma mkdir_mono faults p d : nodes d ⊆ nodes (snd (mkdir faults p d)).
Proof.
  unfold mkdir, call. destruct (faults (calls d)) as [f|]; cbn; [apply make_folders_mono|].
  pose proof (make_folders_mono (segments p) (prefixes (segments p)) (nodes d)) as H. by destruct (make_folders _ _ _).
Qed.

(** The directory is new. *)
Lemma mkdtemp_fresh faults prefix random d p d' :
  mkdtemp faults prefix random d = (Ok p, d') -> nodes d !! segments (prefix +:+ random) = None.
Proof.
  unfold mkdtemp, call. destruct (faults _); [done|]. destruct (reach _ _ _); [|done].
  destruct (node_at _ _) eqn:E; [done|]. intros _. unfold node_at in E. by destruct (decide _).
Qed.
