(* ===== verification/AdminTypes.v ===== *)
(** * Errors of administrators' requests

    [AdminErrorCode] and [AdminError] of [src/src/types/admin.types.ts]. *)
From Stdlib Require Import ZArith.
From stdpp Require Import base strings.
Open Scope Z_scope.

Inductive AdminErrorCode : Type :=
| INVALID_REQUEST | UNAUTHORIZED | FORBIDDEN
| USER_NOT_FOUND | USER_ALREADY_DISABLED | USER_ALREADY_EXISTS
| SERVER_NOT_FOUND | SERVER_ALREADY_RUNNING | SERVER_ALREADY_EXISTS
| INSUFFICIENT_PERMISSIONS | INVALID_PERMISSION_FORMAT
| PROXY_NOT_FOUND | PROXY_ALREADY_EXISTS
| IPWHITELIST_NOT_FOUND | INVALID_IP_FORMAT
| DATABASE_OPERATION_FAILED | TRANSACTION_FAILED
| BACKUP_FAILED | RESTORE_FAILED | INVALID_BACKUP_DATA
| CLOUDFLARED_CONFIG_NOT_FOUND | INVALID_CREDENTIALS_FORMAT | CLOUDFLARED_RESTART_FAILED | TUNNEL_DELETE_FAILED
| CLOUDFLARED_DATABASE_CONFIG_NOT_FOUND | CLOUDFLARED_LOCAL_FILE_NOT_FOUND | CLOUDFLARED_STOP_FAILED | TUNNEL_CREATE_FAILED
| SKILL_NOT_FOUND | SKILL_UPLOAD_FAILED | SKILL_DELETE_FAILED | INVALID_SKILL_FORMAT.

#[export] Instance AdminErrorCode_eq_dec : EqDecision AdminErrorCode.
Proof. solve_decision. Defined.

Definition code_number (c : AdminErrorCode) : Z :=
  match c with
  | INVALID_REQUEST => 1001 | UNAUTHORIZED => 1002 | FORBIDDEN => 1003
  | USER_NOT_FOUND => 2001 | USER_ALREADY_DISABLED => 2002 | USER_ALREADY_EXISTS => 2003
  | SERVER_NOT_FOUND => 3001 | SERVER_ALREADY_RUNNING => 3002 | SERVER_ALREADY_EXISTS => 3003
  | INSUFFICIENT_PERMISSIONS => 4001 | INVALID_PERMISSION_FORMAT => 4002
  | PROXY_NOT_FOUND => 5001 | PROXY_ALREADY_EXISTS => 5002
  | IPWHITELIST_NOT_FOUND => 5101 | INVALID_IP_FORMAT => 5102
  | DATABASE_OPERATION_FAILED => 5201 | TRANSACTION_FAILED => 5202
  | BACKUP_FAILED => 5301 | RESTORE_FAILED => 5302 | INVALID_BACKUP_DATA => 5303
  | CLOUDFLARED_CONFIG_NOT_FOUND => 8001 | INVALID_CREDENTIALS_FORMAT => 8002 | CLOUDFLARED_RESTART_FAILED => 8003
  | TUNNEL_DELETE_FAILED => 8004 | CLOUDFLARED_DATABASE_CONFIG_NOT_FOUND => 8005 | CLOUDFLARED_LOCAL_FILE_NOT_FOUND => 8006
  | CLOUDFLARED_STOP_FAILED => 8007 | TUNNEL_CREATE_FAILED => 8008
  | SKILL_NOT_FOUND => 9001 | SKILL_UPLOAD_FAILED => 9002 | SKILL_DELETE_FAILED => 9003 | INVALID_SKILL_FORMAT => 9004
  end.

Record AdminError : Type := { admin_message : string; admin_code : AdminErrorCode }.
