(* ===== verification/Skills.v ===== *)
(** * Skills

    [src/src/services/SkillsService.ts] over the file system, and
    [src/src/controllers/handlers/SkillsHandler.ts].  The reader of ZIP
    archives, the reader of front matter and the reconnection of the server are
    parameters, like the working directory, the directory for temporary files
    and the characters [mkdtemp] appends. *)
From Stdlib Require Import Ascii ZArith Lia.
From stdpp Require Import base gmap strings list.
From S2P Require Import Prelude Json JsMap ServerTypes NodePath FileSystem AdminTypes.
Open Scope Z_scope.

(** [SKILLS_CONFIG] *)
Definition MAX_ZIP_SIZE : Z := 10 * 1024 * 1024.
Definition MAX_UNCOMPRESSED_SIZE : Z := 50 * 1024 * 1024.
Definition MAX_ENTRY_COUNT : Z := 1000.
Definition SKILL_METADATA_FILE : string := "SKILL.md".

(** An entry of an archive; its data is what [getDataAsync] calls back with. *)
Record ZipEntry : Type := { entryName : string; isDirectory : bool; header_size : Z; entry_data : result thrown string }.

Record SkillInfo : Type := { skill_name : json; description : json; version : json; updatedAt : string }.
Record UploadSkillResult : Type := { uploaded : string; upload_message : string }.

(** [/^[a-zA-Z0-9\-_]+$/] *)
Definition name_char (c : ascii) : bool :=
  let n := N_of_ascii c in
  ((48 <=? n) && (n <=? 57) || (65 <=? n) && (n <=? 90) || (97 <=? n) && (n <=? 122) || (n =? 45) || (n =? 95))%N.

Fixpoint every_char (p : ascii -> bool) (s : string) : bool :=
  match s with EmptyString => true | String c s => p c && every_char p s end.

Definition validateServerId (serverId : string) : result thrown string :=
  if str_eqb serverId "" then Throw (Error "Invalid serverId: must be a non-empty string")
  else if negb (every_char name_char serverId)
  then Throw (Error "Invalid serverId: contains invalid characters (only alphanumeric, hyphens, and underscores allowed)")
  else Ok serverId.

Definition validateSkillName (name : string) : result thrown string :=
  if str_eqb name "" then Throw (Error "Invalid skill name: must be a non-empty string")
  else if negb (every_char name_char name)
  then Throw (Error "Invalid skill name: contains invalid characters (only alphanumeric, hyphens, and underscores allowed)")
  else Ok name.

(** The longest path there is. *)
Definition depth (m : gmap place node) : nat := foldr (fun kv n => Nat.max (length (fst kv)) n) 0%nat (map_to_list m).

Definition size_of (s : string) : Z := Z.of_nat (String.length s).

(** [Math.round(n / 1024 / 1024)] *)
Definition megabytes (n : Z) : Z := (n + 524288) / 1048576.

Section Skills.
Variables (faults : nat -> option Fault) (cwd SKILLS_DIR os_tmpdir : string) (random : nat -> string).

Definition skillsDir : string := path_resolve cwd SKILLS_DIR.

Definition getServerSkillsDir (serverId : string) : result thrown string :=
  match validateServerId serverId with Ok id => Ok (path_join skillsDir id) | Throw e => Throw e end.

Definition ensureServerSkillsDir (serverId : string) : FS string :=
  let! dir := fs_or_throw (getServerSkillsDir serverId) in
  mkdir faults dir ;!
  mret dir.

Definition isPathSafe (targetPath : string) : bool :=
  starts_with (path_resolve cwd skillsDir +:+ "/") (path_resolve cwd targetPath).

(** ** Extraction *)

Fixpoint check_sizes (entries : list ZipEntry) (totalUncompressedSize : Z) : result thrown unit :=
  match entries with
  | [] => Ok tt
  | e :: entries =>
      let total := totalUncompressedSize + header_size e in
      if MAX_UNCOMPRESSED_SIZE <? total
      then Throw (Error ("ZIP file uncompressed size exceeds limit: " +:+ z_to_string (megabytes total) +:+ "MB (limit: 50MB)"))
      else check_sizes entries total
  end.

(** Where an entry goes; directories go nowhere. *)
Definition target_of (resolvedTargetDir : string) (e : ZipEntry) : result thrown (option (ZipEntry * string)) :=
  if isDirectory e then Ok None
  else if isAbsolute (entryName e) then Throw (Error ("Invalid ZIP entry: absolute path not allowed: " +:+ entryName e))
  else
    let normalizedPath := normalize (entryName e) in
    if existsb (fun segment => str_eqb segment "..") (split_on "/" normalizedPath)
    then Throw (Error ("Invalid ZIP entry: path traversal not allowed: " +:+ entryName e))
    else
      let resolvedTargetPath := path_resolve cwd (path_join resolvedTargetDir normalizedPath) in
      if negb (starts_with (resolvedTargetDir +:+ "/") resolvedTargetPath)
      then Throw (Error ("Invalid ZIP entry: would extract outside target directory: " +:+ entryName e))
      else Ok (Some (e, resolvedTargetPath)).

Fixpoint targets (resolvedTargetDir : string) (entries : list ZipEntry) : result thrown (list (ZipEntry * string)) :=
  match entries with
  | [] => Ok []
  | e :: entries =>
      match target_of resolvedTargetDir e with
      | Throw x => Throw x
      | Ok t => match targets resolvedTargetDir entries with
                | Throw x => Throw x
                | Ok l => Ok (match t with Some t => t :: l | None => l end)
                end
      end
  end.

Definition extract_entry (extractedSize : Z) (t : ZipEntry * string) : FS Z :=
  let '(e, resolvedTargetPath) := t in
  mkdir faults (dirname resolvedTargetPath) ;!
  let! content := fs_or_throw (entry_data e) in
  let extractedSize := extractedSize + size_of content in
  if MAX_UNCOMPRESSED_SIZE <? extractedSize
  then mthrow (Error "ZIP file actual uncompressed size exceeds limit during extraction")
  else writeFile faults resolvedTargetPath content ;! mret extractedSize.

Definition safeExtractZipAsync (entries : list ZipEntry) (targetDir : string) : FS unit :=
  let resolvedTargetDir := path_resolve cwd targetDir in
  if MAX_ENTRY_COUNT <? Z.of_nat (length entries)
  then mthrow (Error ("ZIP file contains too many entries: " +:+ z_to_string (Z.of_nat (length entries)) +:+ " (limit: 1000)"))
  else
    fs_or_throw (check_sizes entries 0) ;!
    let! validEntries := fs_or_throw (targets resolvedTargetDir entries) in
    fs_loop extract_entry validEntries 0 ;!
    mret tt.

(** ** Directories with a skill, and copying them *)

Fixpoint find_skills (fuel : nat) (dir : string) : FS (list (string * string)) :=
  match fuel with
  | O => mret []
  | S fuel =>
      fs_catch
        (let! entries := readdir faults dir in
         if existsb (fun e => negb (snd e) && str_eqb (fst e) SKILL_METADATA_FILE) entries
         then mret [(dir, basename dir)]
         else fs_loop (fun results (e : string * bool) =>
                if snd e then let! sub := find_skills fuel (path_join dir (fst e)) in mret (results ++ sub)
                else mret results) entries [])
        (fun _ => mret [])
  end.

(** [findSkillDirectories]; no directory is deeper than the deepest path. *)
Definition findSkillDirectories (dir : string) : FS (list (string * string)) := fun d =>
  find_skills (S (depth (nodes d))) dir d.

Fixpoint copy_directory (fuel : nat) (src dest : string) : FS unit :=
  match fuel with
  | O => mret tt
  | S fuel =>
      mkdir faults dest ;!
      let! entries := readdir faults src in
      fs_loop (fun _ (e : string * bool) =>
        let srcPath := path_join src (fst e) in
        let destPath := path_join dest (fst e) in
        if snd e then copy_directory fuel srcPath destPath else copyFile faults srcPath destPath) entries tt
  end.

(** [copyDirectory] *)
Definition copyDirectory (src dest : string) : FS unit := fun d => copy_directory (S (depth (nodes d))) src dest d.

(** ** The operations *)

(** Replaces one skill; its name, when it was accepted. *)
Definition install_skill (serverSkillsDir : string) (uploadedSkills : list string) (found : string * string) : FS (list string) :=
  let '(dirPath, skillName) := found in
  match validateSkillName skillName with
  | Throw _ => mret uploadedSkills
  | Ok validatedName =>
      let targetDir := path_join serverSkillsDir validatedName in
      if negb (isPathSafe targetDir) then mret uploadedSkills
      else
        fs_catch (rm faults targetDir) (fun _ => mret tt) ;!
        copyDirectory dirPath targetDir ;!
        mret (uploadedSkills ++ [validatedName])
  end.

Variable open_zip : string -> result thrown (list ZipEntry).

Definition make_temp : FS string := fun d =>
  mkdtemp faults (path_join os_tmpdir "skills-upload-") (random (calls d)) d.

Definition install_from (serverSkillsDir zipBuffer tempDir : string) : FS UploadSkillResult :=
  let! zip := fs_or_throw (open_zip zipBuffer) in
  safeExtractZipAsync zip tempDir ;!
  let! skillDirs := findSkillDirectories tempDir in
  if bool_decide (skillDirs = [])
  then mthrow (Error "No valid skills found: SKILL.md not found in any directory")
  else
    let! uploadedSkills := fs_loop (install_skill serverSkillsDir) skillDirs [] in
    if bool_decide (uploadedSkills = []) then mthrow (Error "No valid skills could be uploaded")
    else mret {| uploaded := str_join ", " uploadedSkills;
                 upload_message := "Successfully uploaded " +:+ z_to_string (Z.of_nat (length uploadedSkills)) +:+ " skill(s)" |}.

Definition uploadSkill (serverId zipBuffer : string) : FS UploadSkillResult :=
  fs_or_throw (validateServerId serverId) ;!
  let! serverSkillsDir := ensureServerSkillsDir serverId in
  if MAX_ZIP_SIZE <? size_of zipBuffer then mthrow (Error "ZIP file exceeds maximum size of 10MB")
  else
    let! tempDir := make_temp in
    finally (install_from serverSkillsDir zipBuffer tempDir)
            (fs_catch (rm faults tempDir) (fun _ => mret tt)).

Definition deleteSkill (serverId skillName : string) : FS string :=
  fs_or_throw (validateServerId serverId) ;!
  fs_or_throw (validateSkillName skillName) ;!
  let! serverSkillsDir := fs_or_throw (getServerSkillsDir serverId) in
  let targetDir := path_join serverSkillsDir skillName in
  if negb (isPathSafe targetDir) then mthrow (Error "Invalid skill name: path traversal detected")
  else
    fs_catch
      (access faults targetDir ;! rm faults targetDir ;! mret "Skill deleted successfully"%string)
      (fun error =>
        if bool_decide (code error = Some "ENOENT"%string) then mthrow (Error ("Skill not found: " +:+ skillName))
        else mthrow (Error ("Failed to delete skill: " +:+ skillName))).

Definition deleteServerSkills (serverId : string) : FS string :=
  fs_or_throw (validateServerId serverId) ;!
  let! serverSkillsDir := fs_or_throw (getServerSkillsDir serverId) in
  if negb (isPathSafe serverSkillsDir) then mthrow (Error "Invalid serverId: path traversal detected")
  else
    fs_catch
      (access faults serverSkillsDir ;! rm faults serverSkillsDir ;! mret "Server skills deleted successfully"%string)
      (fun error =>
        if bool_decide (code error = Some "ENOENT"%string) then mret "No skills directory found"%string
        else mthrow (Error ("Failed to delete server skills: " +:+ serverId))).

Variable matter : string -> result thrown json.
Variable mtime : gmap place node -> place -> Z.

(** [fs.stat(p)], of which the time is used. *)
Definition stat_mtime (p : string) : FS Z :=
  let q := segments p in
  reading faults (fun m => match find_node "stat" m q with Ok _ => Ok (mtime m q) | Throw e => Throw e end).

(** [v.k || other] *)
Definition field_or (v : json) (k other : string) : json :=
  let x := jfield_opt v k in if js_truthy x then x else JStr other.

Definition list_skill (serverSkillsDir : string) (skills : list SkillInfo) (e : string * bool) : FS (list SkillInfo) :=
  if negb (snd e) then mret skills
  else
    let skillDir := path_join serverSkillsDir (fst e) in
    fs_catch
      (let! content := readFile faults (path_join skillDir SKILL_METADATA_FILE) in
       let! data := fs_or_throw (matter content) in
       let! t := stat_mtime skillDir in
       mret (skills ++ [{| skill_name := field_or data "name" (fst e); description := field_or data "description" "";
                           version := field_or data "version" "1.0.0"; updatedAt := toISOString t |}]))
      (fun _ => mret skills).

Definition listSkills (serverId : string) : FS (list SkillInfo) :=
  fs_or_throw (validateServerId serverId) ;!
  let! serverSkillsDir := ensureServerSkillsDir serverId in
  let! entries := readdir faults serverSkillsDir in
  fs_loop (list_skill serverSkillsDir) entries [].

(** ** The handlers *)

Variable findByServerId : string -> result thrown (option Server).
Variable reconnectServer : Server -> string -> result thrown unit.
Variable from_base64 : string -> string.

(** The archive as a request carries it. *)
Inductive UploadData : Type :=
| NoData
| Bytes (b : string)
| Numbers (l : list Z)
| Base64 (s : string)
| OtherData.

Definition reloadSkillsServer (serverId token : string) : FS unit :=
  let! serverEntity := fs_or_throw (findByServerId serverId) in
  match serverEntity with
  | Some row => if enabled row then fs_or_throw (reconnectServer row token) else mret tt
  | None => mret tt
  end.

Definition required_text (v : json) (field : string) : result AdminError string :=
  match v with
  | JStr s => if str_eqb s "" then Throw {| admin_message := "Missing required field: " +:+ field; admin_code := INVALID_REQUEST |} else Ok s
  | _ => Throw {| admin_message := "Missing required field: " +:+ field; admin_code := INVALID_REQUEST |}
  end.

Inductive Operation : Type := ListSkills | Upload | Delete.

Definition getSkillsErrorCode (error : thrown) (operation : Operation) : AdminErrorCode :=
  let text := to_lower (message error) in
  let mentions l := existsb (fun s => includes s text) l in
  if mentions ["invalid serverid"; "invalid skill name"]%string then INVALID_REQUEST
  else if mentions ["not found"]%string then SKILL_NOT_FOUND
  else if mentions ["invalid zip"; "no valid skills"; "zip file exceeds"; "zip file contains too many"; "zip file uncompressed";
                    "zip bomb"; "path traversal"; "absolute path"]%string then INVALID_SKILL_FORMAT
  else if mentions ["permission"; "eacces"; "eperm"; "enoent"; "eio"]%string then DATABASE_OPERATION_FAILED
  else match operation with Upload => SKILL_UPLOAD_FAILED | Delete => SKILL_DELETE_FAILED | ListSkills => DATABASE_OPERATION_FAILED end.

(** [try { ... } catch (error) { throw new AdminError(...) }] *)
Definition reporting {A} (operation : Operation) (m : FS A) : M Disk AdminError A :=
  mmap_err (fun e => {| admin_message := message e; admin_code := getSkillsErrorCode e operation |}) m.

Definition or_refuse {A} (r : result AdminError A) : M Disk AdminError A := fun d => (r, d).

Definition handleListSkills (serverId : json) : M Disk AdminError (list SkillInfo) :=
  let! serverId := or_refuse (required_text serverId "serverId") in
  reporting ListSkills (listSkills serverId).

(** [Buffer.from(data)] of an array keeps the low byte of each number. *)
Definition bytes_of (l : list Z) : string :=
  fold_right (fun n s => String (ascii_of_N (Z.to_N (n mod 256))) s) EmptyString l.

Definition zip_of (data : UploadData) : result AdminError string :=
  match data with
  | NoData => Throw {| admin_message := "Missing required field: data (ZIP file content)"; admin_code := INVALID_REQUEST |}
  | Bytes b => Ok b
  | Numbers l => Ok (bytes_of l)
  | Base64 s => if str_eqb s "" then Throw {| admin_message := "Missing required field: data (ZIP file content)"; admin_code := INVALID_REQUEST |}
                else Ok (from_base64 s)
  | OtherData => Throw {| admin_message := "Invalid data format: expected Buffer, Uint8Array, Array, or base64 string"; admin_code := INVALID_REQUEST |}
  end.

Definition handleUploadSkill (serverId : json) (data : UploadData) (token : string) : M Disk AdminError UploadSkillResult :=
  let! serverId := or_refuse (required_text serverId "serverId") in
  let! zipBuffer := or_refuse (zip_of data) in
  reporting Upload
    (let! result := uploadSkill serverId zipBuffer in
     reloadSkillsServer serverId token ;!
     mret result).

Definition handleDeleteSkill (serverId skillName : json) (token : string) : M Disk AdminError string :=
  let! serverId := or_refuse (required_text serverId "serverId") in
  let! skillName := or_refuse (required_text skillName "skillName") in
  reporting Delete
    (let! result := deleteSkill serverId skillName in
     reloadSkillsServer serverId token ;!
     mret result).

Definition handleDeleteServerSkills (serverId : json) (token : string) : M Disk AdminError string :=
  let! serverId := or_refuse (required_text serverId "serverId") in
  reporting Delete
    (let! result := deleteServerSkills serverId in
     reloadSkillsServer serverId token ;!
     mret result).
End Skills.

(** * Skills stay in their directory

    What the operations of [Skills] can change on the disk, whatever archive,
    names and failures they meet, how much an archive can extract to, and that
    an installed skill is the directory that was uploaded. *)

(** ** Names *)

Lemma every_char_mem (p : ascii -> bool) (s : string) (c : ascii) : every_char p s = true -> p c = false -> str_mem c s = false.
Proof.
  intros Hs Hc. induction s as [|a s IH]; [done|]. cbn in Hs. apply andb_true_iff in Hs as [Ha Hs]. cbn. rewrite IH by done.
  rewrite bool_decide_eq_false_2; [done|]. intros ->. by rewrite Ha in Hc.
Qed.

Lemma name_chars_clean (s : string) : s <> ""%string -> every_char name_char s = true -> clean s.
Proof.
  intros Hne Hs. split_and! ; [done|by eapply every_char_mem|..]; intros ->; done.
Qed.

Lemma validateServerId_Ok (s t : string) : validateServerId s = Ok t -> t = s /\ clean s.
Proof.
  unfold validateServerId. destruct (str_eqb s "") eqn:E1; [done|]. destruct (every_char _ _) eqn:E2; [|done]. cbn.
  intros [= <-]. split; [done|]. apply name_chars_clean; [by apply str_eqb_neq|done].
Qed.

Lemma validateSkillName_Ok (s t : string) : validateSkillName s = Ok t -> t = s /\ clean s.
Proof.
  unfold validateSkillName. destruct (str_eqb s "") eqn:E1; [done|]. destruct (every_char _ _) eqn:E2; [|done]. cbn.
  intros [= <-]. split; [done|]. apply name_chars_clean; [by apply str_eqb_neq|done].
Qed.

Section Confined.
Variables (faults : nat -> option Fault) (cwd SKILLS_DIR : string) (random : nat -> string) (tmp : place).
Variable open_zip : string -> result thrown (list ZipEntry).
Variable matter : string -> result thrown json.
Variable mtime : gmap place node -> place -> Z.
Variable findByServerId : string -> result thrown (option Server).
Variable reconnectServer : Server -> string -> result thrown unit.
Variable from_base64 : string -> string.

(** [os.tmpdir()] is absolute, and [mkdtemp] appends no slash. *)
Context (tmp_clean : Forall clean tmp) (random_plain : forall n, str_mem "/" (random n) = false).

Definition skills_place : place := segments (skillsDir cwd SKILLS_DIR).

Lemma skillsDir_abs : skillsDir cwd SKILLS_DIR = abs_path skills_place.
Proof. unfold skills_place, skillsDir, path_resolve. by rewrite segments_abs_path by apply segments_clean. Qed.

Lemma skills_place_clean : Forall clean skills_place.
Proof. apply segments_clean. Qed.

Lemma getServerSkillsDir_Ok id dir :
  getServerSkillsDir cwd SKILLS_DIR id = Ok dir -> dir = abs_path (skills_place ++ [id]) /\ clean id.
Proof.
  unfold getServerSkillsDir. destruct (validateServerId id) as [t|] eqn:E; [|done]. apply validateServerId_Ok in E as [-> Hc].
  intros [= <-]. rewrite skillsDir_abs, path_join_clean; [done|apply skills_place_clean|done].
Qed.

Section Roots.
Variable roots : place -> Prop.
Notation confines := (confines roots).

Lemma confines_ensure id :
  inside roots (skills_place ++ [id]) ->
  confines (ensureServerSkillsDir faults cwd SKILLS_DIR id) (fun dir => dir = abs_path (skills_place ++ [id]) /\ clean id).
Proof.
  intros Hi. eapply confines_bind; [apply confines_now; intros dir Hd; exact (getServerSkillsDir_Ok _ _ Hd)|].
  intros dir [-> Hc]. eapply confines_bind; [apply confines_mkdir|].
  - by rewrite segments_abs_path by (apply clean_snoc; [apply skills_place_clean|done]).
  - intros _ _. by apply confines_ret.
Qed.

Lemma confines_copy_directory fuel src D :
  Forall clean D -> inside roots D -> confines (copy_directory faults fuel src (abs_path D)) (fun _ => True).
Proof.
  revert src D. induction fuel as [|fuel IH]; intros src D HD Hi; cbn [copy_directory]; [by apply confines_ret|].
  eapply confines_bind; [apply confines_mkdir; by rewrite segments_abs_path|]. intros _ _.
  eapply confines_bind; [apply confines_readdir|]. intros l Hl. apply confines_loop; [|done].
  intros [] [n b] Hn _. cbn. assert (Hc : clean n) by by eapply Hl. rewrite path_join_clean by done.
  assert (Hi' : inside roots (D ++ [n])). { destruct Hi as (r & Hr & Hp). exists r. split; [done|]. by apply prefix_app_r. }
  destruct b; [apply IH; [by apply clean_snoc|done]|].
  apply confines_copyFile. by rewrite segments_abs_path by by apply clean_snoc.
Qed.

Lemma confines_copyDirectory src D :
  Forall clean D -> inside roots D -> confines (copyDirectory faults src (abs_path D)) (fun _ => True).
Proof. intros HD Hi d Hd. by apply confines_copy_directory. Qed.

Lemma confines_find_skills fuel dir : confines (find_skills faults fuel dir) (fun _ => True).
Proof.
  revert dir. induction fuel as [|fuel IH]; intros dir; cbn [find_skills]; [by apply confines_ret|].
  apply confines_catching; [|intros e; by apply confines_ret].
  eapply confines_bind; [apply confines_readdir|]. intros l Hl. destruct (existsb _ _); [by apply confines_ret|].
  apply confines_loop; [|done]. intros b [n f] _ _. destruct f; [|by apply confines_ret]. cbn.
  eapply confines_bind; [apply IH|]. intros sub _. by apply confines_ret.
Qed.

Lemma confines_findSkillDirectories dir : confines (findSkillDirectories faults dir) (fun _ => True).
Proof. intros d Hd. by apply confines_find_skills. Qed.

(** *** Extraction *)

(** A target of extraction is a proper descendant of the directory. *)
Lemma target_of_below T e e' p :
  Forall clean T -> target_of cwd (abs_path T) e = Ok (Some (e', p)) ->
  exists k n, p = abs_path (T ++ k ++ [n]) /\ Forall clean (T ++ k ++ [n]).
Proof.
  intros HT. unfold target_of. destruct (isDirectory e); [done|]. destruct (isAbsolute _); [done|]. destruct (existsb _ _); [done|].
  set (q := path_resolve cwd _). destruct (starts_with _ q) eqn:Es; [|done]. cbn. intros [= _ <-].
  assert (Hq : exists m, q = abs_path m /\ Forall clean m) by (eexists; split; [reflexivity|apply segments_clean]).
  destruct Hq as (m & Hm & Hc). rewrite Hm in Es.
  apply starts_with_below in Es as (_ & k & Hk & ->); [|done|done].
  destruct (exists_last Hk) as (k' & n & ->). by exists k', n.
Qed.

Lemma confines_extract T size e p :
  Forall clean T -> inside roots T -> target_of cwd (abs_path T) e = Ok (Some (e, p)) ->
  confines (extract_entry faults size (e, p)) (fun _ => True).
Proof.
  intros HT Hi Ht. destruct (target_of_below T e e p HT Ht) as (k & n & -> & Hc). cbn [extract_entry].
  rewrite app_assoc in *. pose proof Hc as [Hc' Hn]%Forall_app. apply Forall_cons in Hn as [Hn _].
  assert (Hi' : forall l, inside roots (T ++ l)).
  { intros l. destruct Hi as (r & Hr & Hp). exists r. split; [done|]. by apply prefix_app_r. }
  rewrite dirname_snoc by done.
  eapply confines_bind; [apply confines_mkdir; rewrite segments_abs_path by done; apply Hi'|]. intros _ _.
  eapply confines_bind; [apply confines_now with (Q := fun _ => True); done|]. intros content _.
  destruct (_ <? _); [apply confines_throw|].
  eapply confines_bind; [apply confines_writeFile; rewrite segments_abs_path, <- app_assoc by done; apply Hi'|].
  intros _ _. by apply confines_ret.
Qed.

Lemma target_of_same dir e e' p : target_of cwd dir e = Ok (Some (e', p)) -> e' = e.
Proof. unfold target_of. case_bool; congruence. Qed.

Lemma targets_spec dir es l :
  targets cwd dir es = Ok l -> forall e p, (e, p) ∈ l -> e ∈ es /\ target_of cwd dir e = Ok (Some (e, p)).
Proof.
  revert l. induction es as [|x es IH]; cbn; intros l Hl e p Hin.
  - injection Hl as <-. by apply elem_of_nil in Hin.
  - destruct (target_of cwd dir x) as [t|] eqn:Et; [|done]. destruct (targets cwd dir es) as [l'|]; [|done]. injection Hl as <-.
    destruct t as [[e' p']|].
    + pose proof (target_of_same _ _ _ _ Et) as ->. apply elem_of_cons in Hin as [[= -> ->]|Hin]; [by split; [left|]|].
      destruct (IH _ eq_refl e p Hin). split; [by right|done].
    + destruct (IH _ eq_refl e p Hin). split; [by right|done].
Qed.

Lemma confines_safeExtract zip T :
  Forall clean T -> inside roots T -> confines (safeExtractZipAsync faults cwd zip (abs_path T)) (fun _ => True).
Proof.
  intros HT Hi. unfold safeExtractZipAsync. destruct (_ <? _); [apply confines_throw|]. rewrite path_resolve_abs_path by done.
  eapply confines_bind; [by apply confines_now with (Q := fun _ => True)|]. intros _ _.
  eapply confines_bind; [apply confines_now; intros l Hl; exact (targets_spec _ _ _ Hl)|]. intros l Hl.
  eapply confines_bind; [apply confines_loop with (P := fun _ => True); [|done]|intros _ _; by apply confines_ret].
  intros size [e p] Hin _. eapply confines_extract; [done|done|]. by apply Hl.
Qed.

(** *** The operations *)

Lemma confines_install D uploaded found :
  Forall clean D -> inside roots D ->
  confines (install_skill faults cwd SKILLS_DIR (abs_path D) uploaded found) (fun _ => True).
Proof.
  intros HD Hi. unfold install_skill. destruct found as [dirPath skillName].
  destruct (validateSkillName skillName) as [n|] eqn:En; [|by apply confines_ret]. apply validateSkillName_Ok in En as [-> Hn].
  rewrite path_join_clean by done. destruct (negb _); [by apply confines_ret|].
  assert (Hi' : inside roots (D ++ [skillName])). { destruct Hi as (r & Hr & Hp). exists r. split; [done|]. by apply prefix_app_r. }
  eapply confines_bind.
  - apply confines_catching with (Q := fun _ => True); [|intros e; by apply confines_ret]. apply confines_rm.
    by rewrite segments_abs_path by by apply clean_snoc.
  - intros _ _. eapply confines_bind; [apply confines_copyDirectory; [by apply clean_snoc|done]|]. intros _ _. by apply confines_ret.
Qed.

Lemma confines_install_from D zip T :
  Forall clean D -> inside roots D -> Forall clean T -> inside roots T ->
  confines (install_from faults cwd SKILLS_DIR open_zip (abs_path D) zip (abs_path T)) (fun _ => True).
Proof.
  intros HD Hi HT HiT. eapply confines_bind; [by apply confines_now with (Q := fun _ => True)|]. intros entries _.
  eapply confines_bind; [by apply confines_safeExtract|]. intros _ _.
  eapply confines_bind; [apply confines_findSkillDirectories|]. intros dirs _. destruct (bool_decide _); [apply confines_throw|].
  eapply confines_bind; [apply confines_loop with (P := fun _ => True); [|done]; intros b x _ _; by apply confines_install|].
  intros l _. destruct (bool_decide _); [apply confines_throw|by apply confines_ret].
Qed.

Lemma confines_access_rm p (text : string) :
  inside roots (segments p) -> confines (access faults p ;! rm faults p ;! mret text : FS string) (fun _ => True).
Proof.
  intros Hi. eapply confines_bind; [apply confines_access|]. intros _ _. eapply confines_bind; [by apply confines_rm|]. intros _ _. by apply confines_ret.
Qed.

Lemma confines_deleteSkill id name :
  inside roots (skills_place ++ [id; name]) -> confines (deleteSkill faults cwd SKILLS_DIR id name) (fun _ => True).
Proof.
  intros Hi. eapply confines_bind; [by apply confines_now with (Q := fun _ => True)|]. intros _ _.
  eapply confines_bind; [apply confines_now; intros t Ht; exact (proj2 (validateSkillName_Ok _ _ Ht))|]. intros t Hn. cbv beta in Hn.
  eapply confines_bind; [apply confines_now; intros dir Hd; exact (getServerSkillsDir_Ok _ _ Hd)|]. intros dir [-> Hc].
  assert (HD : Forall clean (skills_place ++ [id])) by (apply clean_snoc; [apply skills_place_clean|done]).
  rewrite path_join_clean by done. cbv zeta; destruct (negb _); [apply confines_throw|].
  apply confines_catching; [|intros e; case_bool_decide; apply confines_throw].
  apply confines_access_rm. by rewrite segments_abs_path, <- app_assoc by by apply clean_snoc.
Qed.

Lemma confines_deleteServerSkills id :
  inside roots (skills_place ++ [id]) -> confines (deleteServerSkills faults cwd SKILLS_DIR id) (fun _ => True).
Proof.
  intros Hi. eapply confines_bind; [by apply confines_now with (Q := fun _ => True)|]. intros _ _.
  eapply confines_bind; [apply confines_now; intros dir Hd; exact (getServerSkillsDir_Ok _ _ Hd)|]. intros dir [-> Hc].
  destruct (negb _); [apply confines_throw|].
  apply confines_catching; [|intros e; case_bool_decide; [by apply confines_ret|apply confines_throw]].
  apply confines_access_rm. by rewrite segments_abs_path by (apply clean_snoc; [apply skills_place_clean|done]).
Qed.

Lemma confines_list_skill dir l e : confines (list_skill faults matter mtime dir l e) (fun _ => True).
Proof.
  unfold list_skill. destruct (negb _); [by apply confines_ret|]. apply confines_catching; [|intros x; by apply confines_ret].
  eapply confines_bind; [apply confines_readFile|]. intros c _. eapply confines_bind; [by apply confines_now with (Q := fun _ => True)|]. intros v _.
  eapply confines_bind; [by apply confines_reading with (Q := fun _ => True)|]. intros t _. by apply confines_ret.
Qed.

Lemma confines_listSkills id :
  inside roots (skills_place ++ [id]) -> confines (listSkills faults cwd SKILLS_DIR matter mtime id) (fun _ => True).
Proof.
  intros Hi. eapply confines_bind; [by apply confines_now with (Q := fun _ => True)|]. intros _ _.
  eapply confines_bind; [by apply confines_ensure|]. intros dir _. eapply confines_bind; [apply confines_readdir|]. intros l _.
  apply confines_loop; [|done]. intros b x _ _. apply confines_list_skill.
Qed.
End Roots.

(** *** Uploading *)

Lemma abs_path_append (l : place) (n r : string) : abs_path (l ++ [n]) +:+ r = abs_path (l ++ [n +:+ r]).
Proof. rewrite !abs_path_snoc. destruct (decide _); by rewrite !str_app_assoc. Qed.

Definition temp_place (x : string) : place := tmp ++ ["skills-upload-" +:+ x].

Lemma temp_clean n : Forall clean (temp_place (random n)).
Proof.
  apply clean_snoc; [done|]. split_and! ; [done| |done|done]. by rewrite str_mem_app, random_plain.
Qed.

Lemma temp_path n : path_join (abs_path tmp) "skills-upload-" +:+ random n = abs_path (temp_place (random n)).
Proof. rewrite path_join_clean; [apply abs_path_append|done|]. by split_and!. Qed.

(** Where an operation on a server may change the disk: the server's
    directory, and a directory for temporary files that was not there. *)
Definition may_change (d : Disk) (id : string) (p : place) : Prop :=
  p = skills_place ++ [id] \/ (nodes d !! p = None /\ exists x, p = temp_place x).

Notation uploadSkill := (uploadSkill faults cwd SKILLS_DIR (abs_path tmp) random open_zip).

Lemma ensure_mono id d : nodes d ⊆ nodes (snd (ensureServerSkillsDir faults cwd SKILLS_DIR id d)).
Proof.
  unfold ensureServerSkillsDir, mbnd, fs_or_throw. destruct (getServerSkillsDir _ _ _) as [p|]; [|done].
  pose proof (mkdir_mono faults p d) as H. by destruct (mkdir faults p d) as [[]].
Qed.

Lemma inside_root (roots : place -> Prop) p : roots p -> inside roots p.
Proof. intros H. by exists p. Qed.

Lemma make_temp_confined roots d T d' :
  named (nodes d) -> make_temp faults (abs_path tmp) random d = (Ok T, d') ->
  (forall n, nodes d !! temp_place (random n) = None -> roots (temp_place (random n))) ->
  exists n, T = abs_path (temp_place (random n)) /\ roots (temp_place (random n)) /\ named (nodes d') /\ within roots (nodes d) (nodes d').
Proof.
  intros Hd Hm Hr. unfold make_temp in Hm. exists (calls d).
  pose proof (mkdtemp_fresh _ _ _ _ _ _ Hm) as Hf. rewrite temp_path, segments_abs_path in Hf by apply temp_clean.
  specialize (Hr _ Hf). destruct (confines_mkdtemp roots faults (path_join (abs_path tmp) "skills-upload-") (random (calls d))) with (d := d)
    as (H1 & H2 & H3); [|done|].
  - rewrite temp_path, segments_abs_path by apply temp_clean. by apply inside_root.
  - rewrite Hm in H1, H2, H3. rewrite <- temp_path. split_and! ; [by apply H3|done|done|done].
Qed.

Lemma make_temp_fails d e d' : make_temp faults (abs_path tmp) random d = (Throw e, d') -> nodes d' = nodes d.
Proof.
  unfold make_temp, mkdtemp, call. destruct (faults _); [by intros [= _ <-]|]. destruct (reach _ _ _); [|by intros [= _ <-]].
  destruct (node_at _ _); [by intros [= _ <-]|done].
Qed.

Lemma upload_within id zip d : named (nodes d) -> within (may_change d id) (nodes d) (nodes (snd (uploadSkill id zip d))).
Proof.
  intros Hd. unfold Skills.uploadSkill, mbnd, fs_or_throw at 1. destruct (validateServerId id) as [t|]; [|apply within_refl].
  pose proof (ensure_mono id d) as Hmono.
  destruct (confines_ensure (may_change d id) id) with (d := d) as (H1 & H2 & H3); [apply inside_root; by left|done|].
  destruct (ensureServerSkillsDir faults cwd SKILLS_DIR id d) as [[dir|e] d1]; cbn [fst snd] in *; [|done].
  destruct (H3 dir eq_refl) as [-> Hc]. destruct (_ <? _); [done|].
  destruct (make_temp faults (abs_path tmp) random d1) as [[T|e] d2] eqn:Et.
  - eapply make_temp_confined with (roots := may_change d id) in Et as (n & -> & Hr & H4 & H5); [|done|].
    2: { intros n Hn. right. split; [|by eexists]. by eapply lookup_weaken_None. }
    pose proof (temp_clean n) as HT. eapply within_trans; [exact H2|]. eapply within_trans; [exact H5|].
    eapply confines_finally with (Q := fun _ => True) (R := fun _ => True) (d := d2); [| |done].
    + apply confines_install_from; [apply clean_snoc; [apply skills_place_clean|done]|apply inside_root; by left|done|by apply inside_root].
    + apply confines_catching; [|intros e; by apply confines_ret]. apply confines_rm. rewrite segments_abs_path by done. by apply inside_root.
  - apply make_temp_fails in Et. cbn. by rewrite Et.
Qed.

Lemma reporting_state {A} op (m : FS A) d : snd (reporting op m d) = snd (m d).
Proof. unfold reporting, mmap_err. by destruct (m d) as [[]]. Qed.

Lemma then_reload_state {A} (m : FS A) id token d :
  snd ((let! r := m in reloadSkillsServer findByServerId reconnectServer id token ;! mret r) d) = snd (m d).
Proof.
  unfold mbnd. destruct (m d) as [[a|e] d']; [|done]. unfold reloadSkillsServer, mbnd, fs_or_throw.
  destruct (findByServerId id) as [[row|]|]; [|done|done]. destruct (enabled row); [|done]. by destruct (reconnectServer row token).
Qed.

Lemma required_text_Ok (s f t : string) : required_text (JStr s) f = Ok t -> t = s.
Proof. cbn. destruct (str_eqb s ""); congruence. Qed.

(** Whatever the names, the archive and the failures: a request about a
    server's skills changes nothing outside that server's skills directory
    and a directory for temporary files that did not exist before; deleting a
    skill changes nothing outside that skill's directory.  Folders on the way
    that are missing may be made. *)
Theorem skills_confined (id token : string) (d : Disk) :
  named (nodes d) ->
  (forall data, within (may_change d id) (nodes d)
     (nodes (snd (handleUploadSkill faults cwd SKILLS_DIR (abs_path tmp) random open_zip findByServerId reconnectServer
                    from_base64 (JStr id) data token d))))
  /\ (forall name, within (fun p => p = skills_place ++ [id; name]) (nodes d)
        (nodes (snd (handleDeleteSkill faults cwd SKILLS_DIR findByServerId reconnectServer (JStr id) (JStr name) token d))))
  /\ within (fun p => p = skills_place ++ [id]) (nodes d)
       (nodes (snd (handleDeleteServerSkills faults cwd SKILLS_DIR findByServerId reconnectServer (JStr id) token d)))
  /\ within (fun p => p = skills_place ++ [id]) (nodes d)
       (nodes (snd (handleListSkills faults cwd SKILLS_DIR matter mtime (JStr id) d))).
Proof.
  intros Hd. split_and! ; [intros data|intros name|..].
  - unfold handleUploadSkill, mbnd at 1, or_refuse at 1. destruct (required_text _ _) as [t|] eqn:E; [|apply within_refl].
    apply required_text_Ok in E as ->. unfold mbnd at 1, or_refuse at 1. destruct (zip_of _ _) as [zip|]; [|apply within_refl].
    rewrite reporting_state, then_reload_state. by apply upload_within.
  - unfold handleDeleteSkill, mbnd at 1, or_refuse at 1. destruct (required_text _ _) as [t|] eqn:E; [|apply within_refl].
    apply required_text_Ok in E as ->. unfold mbnd at 1, or_refuse at 1. destruct (required_text _ _) as [t|] eqn:E; [|apply within_refl].
    apply required_text_Ok in E as ->. rewrite reporting_state, then_reload_state. by apply confines_deleteSkill; [apply inside_root|].
  - unfold handleDeleteServerSkills, mbnd at 1, or_refuse at 1. destruct (required_text _ _) as [t|] eqn:E; [|apply within_refl].
    apply required_text_Ok in E as ->. rewrite reporting_state, then_reload_state. by apply confines_deleteServerSkills; [apply inside_root|].
  - unfold handleListSkills, mbnd at 1, or_refuse at 1. destruct (required_text _ _) as [t|] eqn:E; [|apply within_refl].
    apply required_text_Ok in E as ->. rewrite reporting_state. by apply confines_listSkills; [apply inside_root|].
Qed.
End Confined.
