(* ===== verification/SkillsContent.v ===== *)
(** * What an archive extracts to, and what is installed

    Extraction writes no more than its limits, and a skill that is installed
    is the directory that was found: [copyDirectory] copies. *)
From Stdlib Require Import Ascii ZArith Lia.
From stdpp Require Import base gmap strings list fin_maps.
From S2P Require Import Prelude Json JsMap ServerTypes NodePath FileSystem AdminTypes Skills.
Open Scope Z_scope.

(** ** Sums over a disk *)

Section Measure.
Variable w : place -> node -> Z.
Context (w_folder : forall p, w p Folder = 0) (w_pos : forall p x, 0 <= w p x).

Definition measure (m : gmap place node) : Z := map_fold (fun p x s => w p x + s) 0 m.

Lemma measure_insert_new p x m : m !! p = None -> measure (<[p := x]> m) = w p x + measure m.
Proof. intros H. unfold measure. rewrite map_fold_insert_L; [done| |done]. intros. lia. Qed.

Lemma measure_insert p x m : measure (<[p := x]> m) <= w p x + measure m.
Proof.
  destruct (m !! p) as [y|] eqn:E; [|by rewrite measure_insert_new].
  rewrite <- insert_delete_eq, measure_insert_new by apply lookup_delete_eq.
  rewrite <- (insert_delete_id m p y E) at 2. rewrite measure_insert_new by apply lookup_delete_eq. pose proof (w_pos p y). lia.
Qed.

Lemma measure_nonneg m : 0 <= measure m.
Proof. unfold measure. apply (map_fold_weak_ind (fun s _ => 0 <= s)); [done|]. intros p x m' s _ H. pose proof (w_pos p x). lia. Qed.

Lemma measure_folders p todo m : measure (snd (make_folders p todo m)) = measure m.
Proof.
  revert m. induction todo as [|q todo IH]; intros m; cbn; [done|].
  destruct (node_at m q) as [[|y]|] eqn:E; cbn; [apply IH|done|]. rewrite IH, measure_insert_new, w_folder; [lia|].
  unfold node_at in E. by destruct (decide (q = [])).
Qed.

Lemma measure_mkdir faults p d : measure (nodes (snd (mkdir faults p d))) = measure (nodes d).
Proof.
  unfold mkdir, call. destruct (faults (calls d)) as [f|]; cbn; [apply measure_folders|].
  pose proof (measure_folders (segments p) (prefixes (segments p)) (nodes d)) as H. by destruct (make_folders _ _ _).
Qed.

Lemma measure_put s p x m : measure (snd (put s p x m)) <= w p (Content x) + measure m.
Proof.
  unfold put. pose proof (w_pos p (Content x)). destruct (reach s m p); cbn; [|lia].
  destruct (node_at m p) as [[|y]|]; cbn; [lia|apply measure_insert..].
Qed.

(** Failing half-way writes no more. *)
Lemma measure_write faults p x d b :
  (forall n, w (segments p) (Content (str_take n x)) <= b) -> w (segments p) (Content x) <= b -> 0 <= b ->
  measure (nodes (snd (writeFile faults p x d))) <= b + measure (nodes d).
Proof.
  intros Hn Hx Hb. unfold writeFile, call. destruct (faults (calls d)) as [f|]; cbn.
  - destruct (written f) as [n|]; [|lia]. etrans; [apply measure_put|]. specialize (Hn n). lia.
  - pose proof (measure_put "open" (segments p) x (nodes d)). destruct (put _ _ _ _) as [r m]; cbn in *. lia.
Qed.
End Measure.

(** The bytes in files below a directory, and their number. *)
Definition bytes_in (T p : place) (x : node) : Z := match x with Content s => if below T p then size_of s else 0 | Folder => 0 end.
Definition file_in (T p : place) (x : node) : Z := match x with Content s => if below T p then 1 else 0 | Folder => 0 end.

Lemma bytes_in_pos T p x : 0 <= bytes_in T p x.
Proof. destruct x as [|s]; [done|]. cbn. destruct (below T p); [|done]. unfold size_of. lia. Qed.
Lemma file_in_pos T p x : 0 <= file_in T p x.
Proof. destruct x as [|s]; [done|]. cbn. by destruct (below T p). Qed.

Lemma bytes_in_le T p s : bytes_in T p (Content s) <= size_of s.
Proof. cbn. destruct (below T p); unfold size_of; lia. Qed.

Lemma bytes_in_take T p n s : bytes_in T p (Content (str_take n s)) <= size_of s.
Proof. etrans; [apply bytes_in_le|]. unfold size_of. rewrite str_length_take. lia. Qed.

Section Extraction.
Variables (faults : nat -> option Fault) (cwd : string) (T : place).
Notation bytes := (measure (bytes_in T)).
Notation files := (measure (file_in T)).

Lemma extract_entry_bytes size t d :
  bytes (nodes d) <= size -> size <= MAX_UNCOMPRESSED_SIZE ->
  let '(r, d') := extract_entry faults size t d in
  bytes (nodes d') <= MAX_UNCOMPRESSED_SIZE
  /\ (forall size', r = Ok size' -> bytes (nodes d') <= size' /\ size' <= MAX_UNCOMPRESSED_SIZE).
Proof.
  intros Hb Hs. destruct t as [e p]. cbn [extract_entry]. unfold mbnd at 1.
  pose proof (measure_mkdir (bytes_in T) (fun _ => eq_refl) faults (dirname p) d) as Hm.
  destruct (mkdir faults (dirname p) d) as [[u|x] d1]; cbn [snd] in Hm; [|split; [lia|done]].
  unfold mbnd at 1, fs_or_throw. destruct (entry_data e) as [content|x]; [|split; [lia|done]].
  destruct (MAX_UNCOMPRESSED_SIZE <? size + size_of content) eqn:Ec; [split; [cbn; lia|done]|]. apply Z.ltb_ge in Ec.
  pose proof (measure_write (bytes_in T) (bytes_in_pos T) faults p content d1 (size_of content)) as Hw.
  unfold mbnd. destruct (writeFile faults p content d1) as [[u'|x] d2]; cbn [snd mret] in *.
  all: assert (Hw' : bytes (nodes d2) <= size_of content + bytes (nodes d1))
         by (apply Hw; [intros n; apply bytes_in_take|apply bytes_in_le|unfold size_of; lia]).
  - split; [lia|]. intros s' [= <-]. lia.
  - split; [lia|done].
Qed.

Lemma extract_entry_files size t d :
  let '(r, d') := extract_entry faults size t d in files (nodes d') <= 1 + files (nodes d).
Proof.
  destruct t as [e p]. cbn [extract_entry]. unfold mbnd at 1.
  pose proof (measure_mkdir (file_in T) (fun _ => eq_refl) faults (dirname p) d) as Hm.
  destruct (mkdir faults (dirname p) d) as [[u|x] d1]; cbn [snd] in Hm; [|lia].
  unfold mbnd at 1, fs_or_throw. destruct (entry_data e) as [content|x]; [|lia].
  destruct (_ <? _); [cbn; lia|].
  assert (H1 : forall s, file_in T (segments p) (Content s) <= 1) by (intros s; cbn; by destruct (below _ _)).
  pose proof (measure_write (file_in T) (file_in_pos T) faults p content d1 1 (fun n => H1 _) (H1 _) ltac:(lia)) as Hw.
  unfold mbnd. destruct (writeFile faults p content d1) as [[u'|x] d2]; cbn [snd mret] in *; lia.
Qed.

Lemma extract_loop_bounded l size d :
  bytes (nodes d) <= size -> size <= MAX_UNCOMPRESSED_SIZE ->
  let '(r, d') := fs_loop (extract_entry faults) l size d in
  bytes (nodes d') <= MAX_UNCOMPRESSED_SIZE /\ files (nodes d') <= Z.of_nat (length l) + files (nodes d).
Proof.
  revert size d. induction l as [|t l IH]; intros size d Hb Hs; cbn [fs_loop]; [cbn; lia|].
  pose proof (extract_entry_bytes size t d Hb Hs) as H1. pose proof (extract_entry_files size t d) as H2.
  unfold mbnd. destruct (extract_entry faults size t d) as [[size'|x] d1]; destruct H1 as [H1 H1'].
  - destruct (H1' _ eq_refl) as [H3 H4]. specialize (IH size' d1 H3 H4).
    destruct (fs_loop _ l size' d1) as [r d2]. destruct IH as [IH1 IH2]. cbn [length]. lia.
  - cbn [length]. split; [done|lia].
Qed.

Lemma targets_length dir es l : targets cwd dir es = Ok l -> (length l <= length es)%nat.
Proof.
  revert l. induction es as [|e es IH]; cbn; intros l; [by intros [= <-]|].
  destruct (target_of cwd dir e) as [t|]; [|done]. destruct (targets cwd dir es) as [l'|]; [|done]. intros [= <-].
  specialize (IH _ eq_refl). destruct t; cbn; lia.
Qed.

(** Whatever the archive says of its sizes and whatever fails: extracted into
    a directory without files it leaves at most fifty megabytes in at most a
    thousand files there. *)
Theorem extraction_bounded (zip : list ZipEntry) (d : Disk) :
  files (nodes d) = 0 -> bytes (nodes d) = 0 ->
  let d' := snd (safeExtractZipAsync faults cwd zip (abs_path T) d) in
  bytes (nodes d') <= MAX_UNCOMPRESSED_SIZE /\ files (nodes d') <= MAX_ENTRY_COUNT.
Proof.
  intros Hf Hb. cbv zeta. unfold safeExtractZipAsync. destruct (MAX_ENTRY_COUNT <? _) eqn:El; [cbn; unfold MAX_UNCOMPRESSED_SIZE, MAX_ENTRY_COUNT; lia|].
  apply Z.ltb_ge in El. unfold mbnd, fs_or_throw. destruct (check_sizes zip 0); [|cbn; unfold MAX_UNCOMPRESSED_SIZE, MAX_ENTRY_COUNT; lia].
  destruct (targets _ _ _) as [l|] eqn:Et; [|cbn; unfold MAX_UNCOMPRESSED_SIZE, MAX_ENTRY_COUNT; lia]. apply targets_length in Et.
  pose proof (extract_loop_bounded l 0 d ltac:(lia) ltac:(unfold MAX_UNCOMPRESSED_SIZE; lia)) as H.
  destruct (fs_loop _ l 0 d) as [[s|x] d1]; cbn [snd mret]; lia.
Qed.
End Extraction.

(** ** Copying *)

(** What is there is in folders that are there. *)
Definition rooted (m : gmap place node) : Prop := forall p n x, m !! (p ++ [n]) = Some x -> node_at m p = Some Folder.

(** [m'] has at [D] what [m] has at [S], and is [m] elsewhere. *)
Definition copied (m : gmap place node) (S D : place) (m' : gmap place node) : Prop :=
  (forall k, m' !! (D ++ k) = m !! (S ++ k)) /\ (forall p, ~ D `prefix_of` p -> m' !! p = m !! p).

Lemma node_at_some m p : p <> [] -> node_at m p = m !! p.
Proof. intros Hp. unfold node_at. by case_decide. Qed.

Lemma snoc_not_nil {A} (l : list A) (a : A) : l ++ [a] <> [].
Proof. by destruct l. Qed.

Lemma rooted_folder m p k : rooted m -> node_at m (p ++ k) = Some Folder -> node_at m p = Some Folder.
Proof.
  intros Hm. induction k as [|a k IH] using rev_ind; [by rewrite app_nil_r|]. intros H. apply IH.
  rewrite app_assoc, node_at_some in H by apply snoc_not_nil. by apply Hm in H.
Qed.

Lemma rooted_below m p k x : rooted m -> m !! (p ++ k) = Some x -> k <> [] -> node_at m p = Some Folder.
Proof.
  intros Hm Hx Hk. destruct (exists_last Hk) as (k' & a & ->). rewrite app_assoc in Hx. apply Hm in Hx. by eapply rooted_folder.
Qed.

Lemma prefixes_snoc p a : prefixes (p ++ [a]) = prefixes p ++ [p ++ [a]].
Proof.
  unfold prefixes. rewrite length_app. cbn. rewrite Nat.add_1_r, seq_S, map_app. cbn. f_equal.
  - apply map_ext_in. intros n Hn%in_seq. by rewrite take_app_le by lia.
  - f_equal. rewrite take_ge; [done|]. rewrite length_app. cbn. lia.
Qed.

Lemma prefixes_folders m p q : rooted m -> node_at m p = Some Folder -> q ∈ prefixes p -> node_at m q = Some Folder.
Proof.
  intros Hm Hp [n ->]%prefixes_take. eapply rooted_folder; [done|]. by rewrite take_drop.
Qed.

Lemma reach_ok s m p a : rooted m -> node_at m p = Some Folder -> reach s m (p ++ [a]) = Ok tt.
Proof.
  intros Hm Hp. unfold reach, proper_prefixes. rewrite prefixes_snoc, removelast_last.
  destruct (List.find _ _) as [q|] eqn:E; [|done]. apply find_some in E as [Hq E].
  rewrite (prefixes_folders m p q) in E; [by rewrite bool_decide_eq_true_2 in E|done..|by apply list_elem_of_In].
Qed.

Lemma make_folders_skip p l k m : (forall q, q ∈ l -> node_at m q = Some Folder) -> make_folders p (l ++ k) m = make_folders p k m.
Proof.
  induction l as [|q l IH]; intros H; [done|]. cbn. rewrite H by by left. apply IH. intros q' Hq'. apply H. by right.
Qed.

Lemma make_folders_one m p a :
  rooted m -> node_at m p = Some Folder -> m !! (p ++ [a]) = None ->
  make_folders (p ++ [a]) (prefixes (p ++ [a])) m = (Ok tt, <[p ++ [a] := Folder]> m).
Proof.
  intros Hm Hp Hn. rewrite prefixes_snoc, make_folders_skip by by intros; eapply prefixes_folders. cbn.
  rewrite node_at_some by apply snoc_not_nil. by rewrite Hn.
Qed.

Lemma depth_spec m p x : m !! p = Some x -> (length p <= depth m)%nat.
Proof.
  intros H%elem_of_map_to_list. unfold depth. induction (map_to_list m) as [|[q y] l IH]; [by apply elem_of_nil in H|].
  cbn. apply elem_of_cons in H as [[= -> ->]|H]; [lia|]. specialize (IH H). lia.
Qed.

Lemma not_below_snoc {A} (D p : list A) (n : A) : ~ D `prefix_of` p ++ [n] -> ~ D `prefix_of` p.
Proof. intros H Hp. apply H. by apply prefix_app_r. Qed.

Lemma copied_rooted m S D a m' :
  rooted m -> copied m S (D ++ [a]) m' -> node_at m D = Some Folder -> S <> [] -> rooted m'.
Proof.
  intros Hm [H1 H2] HD HS p n x Hx.
  assert (Hout : forall q, ~ (D ++ [a]) `prefix_of` q -> node_at m' q = node_at m q).
  { intros q Hq. unfold node_at. destruct (decide _); [done|by apply H2]. }
  destruct (decide ((D ++ [a]) `prefix_of` p)) as [[k ->]|Hp].
  - rewrite node_at_some by (destruct D; done). rewrite <- app_assoc, H1 in Hx. rewrite H1.
    rewrite app_assoc in Hx. apply Hm in Hx. rewrite node_at_some in Hx; [done|]. by destruct S.
  - rewrite Hout by done. destruct (decide ((D ++ [a]) `prefix_of` p ++ [n])) as [[k Hk]|Hpn].
    + destruct k as [|b k _] using rev_ind.
      * rewrite app_nil_r in Hk. apply app_inj_tail in Hk as [-> _]. done.
      * rewrite app_assoc in Hk. apply app_inj_tail in Hk as [-> _]. destruct Hp. by exists k.
    + rewrite H2 in Hx by done. by eapply Hm.
Qed.

Definition no_faults (n : nat) : option Fault := None.

Lemma readdir_ok m n S a :
  rooted m -> Forall clean (S ++ [a]) -> m !! (S ++ [a]) = Some Folder ->
  readdir no_faults (abs_path (S ++ [a])) {| nodes := m; calls := n |} = (Ok (children (S ++ [a]) m), {| nodes := m; calls := Datatypes.S n |}).
Proof.
  intros Hm Hc Hs. unfold readdir, reading, call. cbn [no_faults nodes calls]. rewrite segments_abs_path by done.
  unfold find_node. rewrite reach_ok by (try done; by eapply Hm). rewrite node_at_some by apply snoc_not_nil. by rewrite Hs.
Qed.

Lemma mkdir_ok m n D a :
  rooted m -> Forall clean (D ++ [a]) -> node_at m D = Some Folder -> m !! (D ++ [a]) = None ->
  mkdir no_faults (abs_path (D ++ [a])) {| nodes := m; calls := n |} = (Ok tt, {| nodes := <[D ++ [a] := Folder]> m; calls := Datatypes.S n |}).
Proof.
  intros Hm Hc HD Hn. unfold mkdir, call. cbn [no_faults nodes calls]. rewrite segments_abs_path by done. by rewrite make_folders_one.
Qed.

Lemma copyFile_ok m n S a D b x :
  rooted m -> Forall clean (S ++ [a]) -> Forall clean (D ++ [b]) -> m !! (S ++ [a]) = Some (Content x) ->
  node_at m D = Some Folder -> m !! (D ++ [b]) = None ->
  copyFile no_faults (abs_path (S ++ [a])) (abs_path (D ++ [b])) {| nodes := m; calls := n |}
  = (Ok tt, {| nodes := <[D ++ [b] := Content x]> m; calls := Datatypes.S n |}).
Proof.
  intros Hm Hc Hd Hs HD Hn. unfold copyFile, call. cbn [no_faults nodes calls]. rewrite !segments_abs_path by done.
  unfold find_node. rewrite reach_ok by (try done; by eapply Hm). rewrite node_at_some, Hs by apply snoc_not_nil.
  unfold put. rewrite reach_ok, node_at_some, Hn by (try done; apply snoc_not_nil). done.
Qed.

(** What the loop over the children has copied so far. *)
Definition copied_names (m : gmap place node) (S D : place) (names : list string) (m' : gmap place node) : Prop :=
  m' !! D = Some Folder
  /\ (forall n k, m' !! (D ++ n :: k) = if decide (n ∈ names) then m !! (S ++ n :: k) else None)
  /\ (forall p, ~ D `prefix_of` p -> m' !! p = m !! p).

(** The loop runs in a context: [S] is a folder of [m] apart from [D]. *)
Record Apart (m : gmap place node) (S D : place) : Prop := {
  apart_rooted : rooted m;
  apart_src : m !! S = Some Folder;
  apart_src_clean : Forall clean S;
  apart_dest_clean : Forall clean D;
  apart_1 : ~ S `prefix_of` D;
  apart_2 : ~ D `prefix_of` S;
  apart_named : named m
}.

Lemma prefix_snoc_inv {A} (p q : list A) (a : A) : p `prefix_of` q ++ [a] -> p `prefix_of` q \/ p = q ++ [a].
Proof.
  intros [k Hk]. destruct k as [|b k _] using rev_ind; [right; by rewrite app_nil_r in Hk|].
  rewrite app_assoc in Hk. apply app_inj_tail in Hk as [-> _]. left. by exists k.
Qed.

Lemma names_rooted m S D names m' :
  Apart m S D -> copied_names m S D names m' -> D <> [] -> node_at m (removelast D) = Some Folder -> rooted m'.
Proof.
  intros [Hm HS _ _ H1 H2 _] (HD & Hn & Ho) Hne Hp. destruct (exists_last Hne) as (D' & a & ->). rewrite removelast_last in Hp.
  assert (Hout : forall q, ~ (D' ++ [a]) `prefix_of` q -> node_at m' q = node_at m q).
  { intros q Hq. unfold node_at. case_decide; [done|by apply Ho]. }
  intros p n x Hx. destruct (decide ((D' ++ [a]) `prefix_of` p ++ [n])) as [Hpre|Hpre].
  - apply prefix_snoc_inv in Hpre as [[k ->]|Hpre].
    + rewrite node_at_some by by destruct D'. destruct k as [|b k]; [by rewrite app_nil_r|]. rewrite <- app_assoc in Hx. cbn in Hx.
      rewrite Hn in *. destruct (decide (b ∈ names)); [|done].
      change (S ++ b :: k ++ [n]) with (S ++ (b :: k) ++ [n]) in Hx. rewrite app_assoc in Hx. apply Hm in Hx.
      rewrite node_at_some in Hx; [done|]. by destruct S.
    + apply app_inj_tail in Hpre as [<- <-]. rewrite Hout; [done|]. intros Hd. apply prefix_length in Hd. rewrite length_app in Hd. cbn in Hd. lia.
  - rewrite Ho in Hx by done. rewrite Hout; [by eapply Hm|]. by eapply not_below_snoc.
Qed.

Lemma names_named m S D names m' : Apart m S D -> copied_names m S D names m' -> named m'.
Proof.
  intros [_ _ _ HDc _ _ Hnm] (HD & Hk & Ho) p x Hx. destruct (decide (D `prefix_of` p)) as [[[|n k] ->]|Hp].
  - by rewrite app_nil_r.
  - rewrite Hk in Hx. destruct (decide _); [|done]. apply Hnm, Forall_app in Hx as [_ Hx]. by apply Forall_app.
  - rewrite Ho in Hx by done. by eapply Hnm.
Qed.

Lemma names_src m S D names m' k : Apart m S D -> copied_names m S D names m' -> m' !! (S ++ k) = m !! (S ++ k).
Proof.
  intros [_ _ _ _ H1 H2 _] (_ & _ & Ho). apply Ho. intros [j Hj].
  destruct (prefix_weak_total S D (S ++ k)) as [?|?]; [by exists k|by exists j|done|done].
Qed.

Lemma names_step m S D names m1 n m2 :
  Apart m S D -> copied_names m S D names m1 -> n ∉ names -> copied m1 (S ++ [n]) (D ++ [n]) m2 ->
  copied_names m S D (n :: names) m2.
Proof.
  intros Ha Hn Hin [Hc1 Hc2]. pose proof Hn as (HD & Hk & Ho). split_and!.
  - rewrite Hc2; [done|]. intros H. apply prefix_length in H. rewrite length_app in H. cbn in H. lia.
  - intros b k. destruct (decide (b = n)) as [->|Hne].
    + rewrite decide_True by by left. specialize (Hc1 k). rewrite <- !app_assoc in Hc1. cbn in Hc1. rewrite Hc1.
      by eapply names_src.
    + rewrite Hc2. 2: { intros [j Hj]. rewrite <- app_assoc in Hj. apply app_inv_head in Hj. by injection Hj as <-. }
      rewrite Hk. destruct (decide (b ∈ names)) as [Hb|Hb].
      * rewrite decide_True; [done|by right].
      * rewrite decide_False; [done|]. by intros [->|?]%elem_of_cons.
  - intros p Hp. rewrite Hc2; [by apply Ho|]. intros H. apply Hp. etrans; [|exact H]. by apply prefix_app_r.
Qed.

Lemma children_NoDup p m : NoDup (map fst (children p m)).
Proof.
  unfold children. pose proof (NoDup_fst_map_to_list m) as Hnd. induction (map_to_list m) as [|[q x] l IH]; [constructor|].
  cbn in Hnd. apply NoDup_cons in Hnd as [Hq Hnd]. cbn [omap list_omap fst]. destruct (child_of p q) as [n|] eqn:E; [|by apply IH].
  cbn. constructor; [|by apply IH]. intros Hin%list_elem_of_In%in_map_iff. destruct Hin as ([n' b] & <- & Hin%list_elem_of_In).
  apply list_elem_of_omap in Hin as ([q' y] & Hq' & H). cbn in H. destruct (child_of p q') as [n''|] eqn:E'; [|done].
  cbn in H. injection H as <- <-. apply child_of_Some in E as ->. apply child_of_Some in E' as ->.
  apply Hq. apply list_elem_of_In, in_map_iff. exists (p ++ [n''], y). split; [done|]. by apply list_elem_of_In.
Qed.

(** The copying of one child. *)
Definition copy_child (fuel : nat) (src dest : string) (e : string * bool) : FS unit :=
  if snd e then copy_directory no_faults fuel (path_join src (fst e)) (path_join dest (fst e))
  else copyFile no_faults (path_join src (fst e)) (path_join dest (fst e)).

Definition copies (fuel : nat) : Prop := forall S D a m n,
  rooted m -> named m -> Forall clean S -> S <> [] -> m !! S = Some Folder ->
  Forall clean (D ++ [a]) -> node_at m D = Some Folder -> (forall k, m !! ((D ++ [a]) ++ k) = None) ->
  ~ S `prefix_of` D ++ [a] -> (forall k x, m !! (S ++ k) = Some x -> (length k < fuel)%nat) ->
  exists m' n', copy_directory no_faults fuel (abs_path S) (abs_path (D ++ [a])) {| nodes := m; calls := n |}
                = (Ok tt, {| nodes := m'; calls := n' |}) /\ copied m S (D ++ [a]) m'.

Section Children.
Variables (fuel : nat) (m : gmap place node) (S D : place).
Context (IH : copies fuel) (Ha : Apart m S D) (HD : D <> []) (Hparent : node_at m (removelast D) = Some Folder).
Context (Hdepth : forall k x, m !! (S ++ k) = Some x -> (length k < Datatypes.S fuel)%nat).

Lemma copy_child_copies names m1 n1 c y :
  copied_names m S D names m1 -> c ∉ names -> clean c -> m !! (S ++ [c]) = Some y ->
  exists m2 n2, copy_child fuel (abs_path S) (abs_path D) (c, bool_decide (y = Folder)) {| nodes := m1; calls := n1 |}
                = (Ok tt, {| nodes := m2; calls := n2 |}) /\ copied m1 (S ++ [c]) (D ++ [c]) m2.
Proof.
  intros Hn Hc Hcl Hy. pose proof Ha as [Hm HS HSc HDc H1 H2 Hnm]. pose proof Hn as (HDf & Hk & Ho).
  assert (Hr : rooted m1) by by eapply names_rooted.
  assert (Hnone : forall k, m1 !! ((D ++ [c]) ++ k) = None). { intros k. rewrite <- app_assoc. cbn. rewrite Hk. by rewrite decide_False. }
  assert (Hsrc : m1 !! (S ++ [c]) = Some y) by by rewrite (names_src m S D names).
  assert (Hfd : node_at m1 D = Some Folder) by by rewrite node_at_some.
  unfold copy_child. cbn [fst snd]. rewrite !path_join_clean by done. destruct y as [|x]; cbn [bool_decide].
  - rewrite bool_decide_eq_true_2 by done. apply IH; try done; [by eapply names_named|by apply clean_snoc|by destruct S|by apply clean_snoc| |].
    + intros H. apply prefix_snoc_inv in H as [H|H].
      * apply H1. etrans; [|exact H]. by apply prefix_app_r.
      * apply app_inj_tail in H as [H _]. apply H1. by rewrite H.
    + intros k x Hx. rewrite <- app_assoc in Hx. cbn in Hx. rewrite (names_src m S D names) in Hx by done.
      specialize (Hdepth (c :: k) x Hx). cbn in Hdepth. lia.
  - rewrite bool_decide_eq_false_2 by done. specialize (Hnone []) as Hnone0. rewrite app_nil_r in Hnone0.
    rewrite (copyFile_ok m1 n1 S c D c x) by (try done; by apply clean_snoc). do 2 eexists. split; [reflexivity|]. split.
    + intros k. destruct (decide (k = [])) as [->|Hk'].
      * rewrite !app_nil_r, lookup_insert_eq. done.
      * rewrite lookup_insert_ne, Hnone.
        2: { intros H%(f_equal length). rewrite !length_app in H. destruct k; [done|cbn in H; lia]. }
        symmetry. destruct (m1 !! ((S ++ [c]) ++ k)) as [z|] eqn:Ez; [|done].
        apply rooted_below in Ez; [|done|done]. rewrite node_at_some, Hsrc in Ez by apply snoc_not_nil. done.
    + intros p Hp. rewrite lookup_insert_ne; [done|]. intros <-. by apply Hp.
Qed.

Lemma copy_children l names m1 n1 :
  copied_names m S D names m1 -> NoDup (map fst l) ->
  (forall c b, (c, b) ∈ l -> c ∉ names /\ clean c /\ exists y, m !! (S ++ [c]) = Some y /\ b = bool_decide (y = Folder)) ->
  exists m2 n2 names', fs_loop (fun _ e => copy_child fuel (abs_path S) (abs_path D) e) l tt {| nodes := m1; calls := n1 |}
                = (Ok tt, {| nodes := m2; calls := n2 |})
    /\ copied_names m S D names' m2 /\ (forall c, c ∈ names \/ c ∈ map fst l -> c ∈ names').
Proof.
  revert names m1 n1. induction l as [|[c b] l IHl]; intros names m1 n1 Hn Hnd Hl; cbn [fs_loop].
  - exists m1, n1, names. split_and! ; [done|done|]. by intros c [?|?%elem_of_nil].
  - cbn in Hnd. apply NoDup_cons in Hnd as [Hc Hnd]. destruct (Hl c b) as (H1 & H2 & y & Hy & ->); [by left|].
    destruct (copy_child_copies names m1 n1 c y) as (m2 & n2 & E & Hcp); [done..|]. unfold mbnd. rewrite E.
    destruct (IHl (c :: names) m2 n2) as (m3 & n3 & names' & E' & Hn' & Hall).
    + by eapply names_step.
    + done.
    + intros c' b' Hin. destruct (Hl c' b') as (H3 & H4 & H5); [by right|]. split_and! ; [|done|done].
      intros [->|?]%elem_of_cons; [|done]. apply Hc. apply list_elem_of_In, in_map_iff. exists (c, b'). split; [done|]. by apply list_elem_of_In.
    + exists m3, n3, names'. split_and! ; [done|done|]. intros c' Hc'. apply Hall. cbn in Hc'.
      destruct Hc' as [?|[->|?]%elem_of_cons]; [left; by right|left; by left|by right].
Qed.
End Children.

Lemma copy_directory_copies fuel : copies fuel.
Proof.
  induction fuel as [|fuel IH]; intros S D a m n Hm Hnm HSc HSne HS HDc HD Hnone Happ Hdep.
  { specialize (Hdep [] Folder). rewrite app_nil_r in Hdep. specialize (Hdep HS). lia. }
  assert (HDne : D ++ [a] <> []) by apply snoc_not_nil.
  assert (Ha : Apart m S (D ++ [a])).
  { split; try done. intros [k ->]. by rewrite Hnone in HS. }
  pose proof (Hnone []) as Hnone0. rewrite app_nil_r in Hnone0. cbn [copy_directory]. unfold mbnd at 1.
  rewrite mkdir_ok by done. set (m1 := <[D ++ [a] := Folder]> m).
  assert (Hn1 : copied_names m S (D ++ [a]) [] m1).
  { split_and! ; [apply lookup_insert_eq| |].
    - intros b k. unfold m1. rewrite lookup_insert_ne, Hnone; [done|]. intros H%(f_equal length). rewrite !length_app in H. cbn in H. lia.
    - intros p Hp. unfold m1. rewrite lookup_insert_ne; [done|]. intros <-. by apply Hp. }
  assert (Hr1 : rooted m1). { eapply names_rooted; [done|done|done|]. by rewrite removelast_last. }
  unfold mbnd at 1. destruct (exists_last HSne) as (S0 & s & ES).
  assert (HS1 : m1 !! S = Some Folder). { pose proof (names_src m S (D ++ [a]) [] m1 [] Ha Hn1) as H. by rewrite app_nil_r, HS in H. }
  assert (Hrd : forall k, readdir no_faults (abs_path S) {| nodes := m1; calls := k |} = (Ok (children S m1), {| nodes := m1; calls := Datatypes.S k |})).
  { intros k. rewrite ES. apply readdir_ok; [done|by rewrite <- ES|by rewrite <- ES]. }
  rewrite Hrd.
  destruct (copy_children fuel m S (D ++ [a])) with (l := children S m1) (names := @nil string) (m1 := m1) (n1 := Datatypes.S (Datatypes.S n))
    as (m2 & n2 & names' & E & Hn2 & Hall); [done|done|done|by rewrite removelast_last|done|done|apply children_NoDup| |].
  { intros c b (y & Hy & ->)%elem_of_children. rewrite (names_src m S (D ++ [a]) []) in Hy by done. split_and! ; [by intros ?%elem_of_nil| |by exists y].
    apply Hnm in Hy. apply Forall_app in Hy as [_ Hy]. by apply Forall_cons in Hy as [? _]. }
  exists m2, n2. split; [exact E|]. destruct Hn2 as (H1 & H2 & H3). split; [|done]. intros [|c k].
  - rewrite !app_nil_r. exact (eq_trans H1 (eq_sym HS)).
  - rewrite H2. destruct (decide (c ∈ names')) as [|Hc]; [done|]. symmetry. destruct (m !! (S ++ c :: k)) as [x|] eqn:Ex; [|done].
    destruct Hc. apply Hall. right.
    assert (Hx : exists y, m1 !! (S ++ [c]) = Some y).
    { setoid_rewrite (names_src m S (D ++ [a]) [] m1 _ Ha Hn1). destruct k as [|b k]; [by eexists|].
      change (S ++ c :: b :: k) with (S ++ [c] ++ b :: k) in Ex. rewrite app_assoc in Ex. apply rooted_below in Ex; [|done|done].
      rewrite node_at_some in Ex by apply snoc_not_nil. by eexists. }
    destruct Hx as [y Hy]. apply list_elem_of_In, in_map_iff. exists (c, bool_decide (y = Folder)). split; [done|].
    apply list_elem_of_In, elem_of_children. by exists y.
Qed.

(** ** Installing *)

Lemma str_join_app (l k : list string) : l <> [] -> k <> [] -> str_join "/" (l ++ k) = str_join "/" l +:+ "/" +:+ str_join "/" k.
Proof.
  intros Hl Hk. induction l as [|a l IH]; [done|]. destruct l as [|b l].
  - by destruct k.
  - change ((a :: b :: l) ++ k) with (a :: (b :: l) ++ k). cbn [str_join app] in *. rewrite IH by done. by rewrite !str_app_assoc.
Qed.

Lemma isPathSafe_below cwd SKILLS_DIR k n :
  skills_place cwd SKILLS_DIR <> [] -> Forall clean (skills_place cwd SKILLS_DIR ++ k ++ [n]) ->
  isPathSafe cwd SKILLS_DIR (abs_path (skills_place cwd SKILLS_DIR ++ k ++ [n])) = true.
Proof.
  intros Hne Hc. unfold isPathSafe. rewrite (skillsDir_abs cwd SKILLS_DIR), !path_resolve_abs_path by (done || apply skills_place_clean).
  apply starts_with_spec. exists (str_join "/" (k ++ [n])). set (l := skills_place _ _) in *. clearbody l. clear Hc.
  unfold abs_path. rewrite !str_app_assoc. f_equal. apply str_join_app; [done|apply snoc_not_nil].
Qed.

(** With nothing at [D] any more. *)
Lemma rm_ok m n D a :
  rooted m -> Forall clean (D ++ [a]) -> node_at m D = Some Folder ->
  exists m', rm no_faults (abs_path (D ++ [a])) {| nodes := m; calls := n |} = (Ok tt, {| nodes := m'; calls := Datatypes.S n |})
    /\ (forall k, m' !! ((D ++ [a]) ++ k) = None) /\ (forall p, ~ (D ++ [a]) `prefix_of` p -> m' !! p = m !! p).
Proof.
  intros Hm Hc HD. unfold rm, call. cbn [no_faults nodes calls]. rewrite segments_abs_path by done.
  unfold find_node. rewrite reach_ok, node_at_some by (try done; apply snoc_not_nil).
  destruct (m !! (D ++ [a])) as [x|] eqn:E.
  - eexists. split; [reflexivity|]. split.
    + intros k. apply map_lookup_filter_None. right. intros y _. cbn.
      rewrite (proj2 (below_prefix _ _)); [done|by exists k].
    + intros p Hp. destruct (m !! p) as [y|] eqn:Ey.
      * apply map_lookup_filter_Some. split; [done|]. cbn. apply not_true_is_false. by rewrite below_prefix.
      * apply map_lookup_filter_None. by left.
  - exists m. split; [done|]. split; [|done]. intros k. destruct (decide (k = [])) as [->|Hk]; [by rewrite app_nil_r|].
    destruct (m !! ((D ++ [a]) ++ k)) as [y|] eqn:Ey; [|done]. apply rooted_below in Ey; [|done|done].
    rewrite node_at_some, E in Ey by apply snoc_not_nil. done.
Qed.

(** When nothing fails, a skill that was found is installed as it is: at the
    place of its name is what was found, whatever was there before, and
    nothing else has changed. *)
Theorem installed_skill_is_copy (cwd SKILLS_DIR id name : string) (S : place) (uploaded : list string) (m : gmap place node) (n : nat) :
  let D := skills_place cwd SKILLS_DIR ++ [id] in
  rooted m -> named m -> skills_place cwd SKILLS_DIR <> [] -> clean id -> node_at m D = Some Folder ->
  validateSkillName name = Ok name -> S <> [] -> Forall clean S -> m !! S = Some Folder ->
  ~ S `prefix_of` D ++ [name] -> ~ (D ++ [name]) `prefix_of` S ->
  exists m' n', install_skill no_faults cwd SKILLS_DIR (abs_path D) uploaded (abs_path S, name) {| nodes := m; calls := n |}
                = (Ok (uploaded ++ [name]), {| nodes := m'; calls := n' |}) /\ copied m S (D ++ [name]) m'.
Proof.
  intros D Hm Hnm Hsk Hid HD Hv HSne HSc HS H1 H2. pose proof (validateSkillName_Ok _ _ Hv) as [_ Hn].
  assert (HDc : Forall clean D) by (apply clean_snoc; [apply skills_place_clean|done]).
  assert (HDn : Forall clean (D ++ [name])) by by apply clean_snoc.
  unfold install_skill. rewrite Hv, path_join_clean by done. unfold D in HDn |- *. rewrite <- app_assoc in HDn |- *.
  rewrite isPathSafe_below by done. rewrite app_assoc in HDn |- *. fold D in HDn |- *. cbv zeta. cbn [negb].
  destruct (rm_ok m n D name) as (m1 & E1 & Hnone & Hout); [done..|]. unfold mbnd at 1, fs_catch. rewrite E1.
  assert (Hsrc : forall k, m1 !! (S ++ k) = m !! (S ++ k)).
  { intros k. apply Hout. intros [j Hj]. destruct (prefix_weak_total S (D ++ [name]) (S ++ k)); [by exists k|by exists j|done|done]. }
  assert (HS1 : m1 !! S = Some Folder) by (specialize (Hsrc []); rewrite !app_nil_r in Hsrc; exact (eq_trans Hsrc HS)).
  assert (Hm1 : rooted m1).
  { intros p a x Hx. destruct (decide ((D ++ [name]) `prefix_of` p ++ [a])) as [[k Hk]|Hp].
    - rewrite Hk, Hnone in Hx. done.
    - rewrite Hout in Hx by done. apply Hm in Hx. unfold node_at in *. case_decide; [done|]. rewrite Hout; [done|]. by eapply not_below_snoc. }
  assert (Hnm1 : named m1).
  { intros p x Hx. destruct (decide ((D ++ [name]) `prefix_of` p)) as [[k ->]|Hp]; [by rewrite Hnone in Hx|]. rewrite Hout in Hx by done. by eapply Hnm. }
  assert (HD1 : node_at m1 D = Some Folder).
  { unfold node_at in *. case_decide; [done|]. rewrite Hout; [done|]. intros Hx%prefix_length. rewrite length_app in Hx. cbn in Hx. lia. }
  destruct (copy_directory_copies (Datatypes.S (depth m1)) S D name m1 (Datatypes.S n)) as (m2 & n2 & E2 & Hc1 & Hc2); [done..| |].
  { intros k x Hx. apply depth_spec in Hx. rewrite length_app in Hx. lia. }
  exists m2, n2. split; [unfold mbnd, copyDirectory; cbn [nodes]; by rewrite E2|].
  split; [intros k; by rewrite Hc1|]. intros p Hp. rewrite Hc2 by done. by apply Hout.
Qed.

(** * Skills: examples

    The theorems about skills at concrete disks and archives, and what
    uploading does that is not meant. *)

Definition example_random (n : nat) : string := "Ab12Cd".

(** A server [srv] with one skill, and a file that is nobody's business. *)
Definition example_nodes : gmap place node := list_to_map
  [(["data"], Folder); (["data"; "skills"], Folder); (["data"; "skills"; "srv"], Folder);
   (["data"; "skills"; "srv"; "greet"], Folder); (["data"; "skills"; "srv"; "greet"; "SKILL.md"], Content "old");
   (["data"; "skills"; "srv"; "greet"; "notes"], Content "old notes");
   (["tmp"], Folder); (["etc"], Folder); (["etc"; "passwd"], Content "root")]%string.
Definition example_disk : Disk := {| nodes := example_nodes; calls := 0 |}.

Definition file_entry (name data : string) : ZipEntry :=
  {| entryName := name; isDirectory := false; header_size := size_of data; entry_data := Ok data |}.

(** The archive is given as its entries. *)
Definition run_upload (faults : nat -> option Fault) (find : string -> result thrown (option Server)) (entries : list ZipEntry)
    : result AdminError UploadSkillResult * Disk :=
  handleUploadSkill faults "/app" "/data/skills" "/tmp" example_random (fun _ => Ok entries) find (fun _ _ => Ok tt) (fun s => s)
    (JStr "srv") (Bytes "zip") "token" example_disk.

Definition no_server (id : string) : result thrown (option Server) := Ok None.

Definition greet_archive : list ZipEntry :=
  [file_entry "pack/greet/SKILL.md" "new"; file_entry "pack/greet/lib/run.py" "code"].

(** The uploaded skill replaces the one of its name. *)
Example upload_replaces :
  let '(r, d) := run_upload no_faults no_server greet_archive in
  r = Ok {| uploaded := "greet"; upload_message := "Successfully uploaded 1 skill(s)" |}
  /\ nodes d !! ["data"; "skills"; "srv"; "greet"; "SKILL.md"]%string = Some (Content "new")
  /\ nodes d !! ["data"; "skills"; "srv"; "greet"; "lib"; "run.py"]%string = Some (Content "code")
  /\ nodes d !! ["data"; "skills"; "srv"; "greet"; "notes"]%string = None
  /\ nodes d !! ["tmp"; "skills-upload-Ab12Cd"]%string = None.
Proof. vm_compute. split_and! ; reflexivity. Qed.

Lemma example_named : named example_nodes.
Proof.
  assert (H : map_Forall (fun p _ => Forall clean p) example_nodes) by (apply (bool_decide_unpack _); vm_compute; exact I).
  intros p x Hx. exact (H p x Hx).
Qed.

Lemma skills_confined_witness :
  is_ok (fst (run_upload no_faults no_server greet_archive)) = true
  /\ within (may_change "/app" "/data/skills" ["tmp"]%string example_disk "srv") (nodes example_disk)
       (nodes (snd (run_upload no_faults no_server greet_archive))).
Proof.
  split; [vm_compute; reflexivity|].
  refine (proj1 (skills_confined no_faults "/app" "/data/skills" example_random ["tmp"]%string (fun _ => Ok greet_archive)
    (fun _ => Ok (JObj [])) (fun _ _ => 0) no_server (fun _ _ => Ok tt) (fun s => s) _ _ "srv" "token" example_disk _) (Bytes "zip")).
  - apply (bool_decide_unpack _). vm_compute. exact I.
  - intros n. reflexivity.
  - exact example_named.
Defined.

(** An archive that lies about its sizes. *)
Definition lying_entry : ZipEntry :=
  {| entryName := "a/b.txt"; isDirectory := false; header_size := 1; entry_data := Ok "twelve bytes"%string |}.

Lemma extraction_bounded_witness :
  let d' := snd (safeExtractZipAsync no_faults "/app" [lying_entry] (abs_path ["tmp"]) example_disk) in
  nodes d' !! ["tmp"; "a"; "b.txt"]%string = Some (Content "twelve bytes")
  /\ measure (bytes_in ["tmp"]%string) (nodes d') <= MAX_UNCOMPRESSED_SIZE.
Proof.
  split; [vm_compute; reflexivity|].
  exact (proj1 (extraction_bounded no_faults "/app" ["tmp"]%string [lying_entry] example_disk
           ltac:(vm_compute; reflexivity) ltac:(vm_compute; reflexivity))).
Defined.

(** A skill on its way, unpacked. *)
Definition unpacked_nodes : gmap place node := list_to_map
  [(["data"], Folder); (["data"; "srv"], Folder); (["data"; "srv"; "greet"], Folder);
   (["data"; "srv"; "greet"; "notes"], Content "old notes");
   (["tmp"], Folder); (["tmp"; "greet"], Folder); (["tmp"; "greet"; "SKILL.md"], Content "new")]%string.

Lemma unpacked_rooted : rooted unpacked_nodes.
Proof.
  assert (H : map_Forall (fun p _ => node_at unpacked_nodes (removelast p) = Some Folder) unpacked_nodes)
    by (apply (bool_decide_unpack _); vm_compute; exact I).
  intros p n x Hx. apply H in Hx. by rewrite removelast_last in Hx.
Qed.

Lemma unpacked_named : named unpacked_nodes.
Proof.
  assert (H : map_Forall (fun p _ => Forall clean p) unpacked_nodes) by (apply (bool_decide_unpack _); vm_compute; exact I).
  intros p x Hx. exact (H p x Hx).
Qed.

Lemma installed_skill_is_copy_witness :
  exists m' n', install_skill no_faults "/" "/data" (abs_path ["data"; "srv"]) [] (abs_path ["tmp"; "greet"], "greet"%string)
                  {| nodes := unpacked_nodes; calls := 0 |} = (Ok ["greet"]%string, {| nodes := m'; calls := n' |})
    /\ copied unpacked_nodes ["tmp"; "greet"]%string ["data"; "srv"; "greet"]%string m'.
Proof.
  refine (installed_skill_is_copy "/" "/data" "srv" "greet" ["tmp"; "greet"]%string [] unpacked_nodes 0 unpacked_rooted unpacked_named
            _ _ _ _ _ _ _ _ _).
  - by vm_compute.
  - apply (bool_decide_unpack _). vm_compute. exact I.
  - vm_compute. reflexivity.
  - vm_compute. reflexivity.
  - by vm_compute.
  - apply (bool_decide_unpack _). vm_compute. exact I.
  - vm_compute. reflexivity.
  - vm_compute. intros [k Hk]. discriminate Hk.
  - vm_compute. intros [k Hk]. discriminate Hk.
Defined.

(** ** What is not meant *)

(** An archive with its [SKILL.md] at the top becomes a skill with the name
    of the temporary directory. *)
Example top_level_skill_is_named_at_random :
  let '(r, d) := run_upload no_faults no_server [file_entry "SKILL.md" "new"] in
  r = Ok {| uploaded := "skills-upload-Ab12Cd"; upload_message := "Successfully uploaded 1 skill(s)" |}
  /\ nodes d !! ["data"; "skills"; "srv"; "skills-upload-Ab12Cd"; "SKILL.md"]%string = Some (Content "new").
Proof. vm_compute. split; reflexivity. Qed.

(** Of two skills with the same directory name one is left; both are reported. *)
Example same_names_overwrite :
  let '(r, d) := run_upload no_faults no_server [file_entry "a/x/SKILL.md" "first"; file_entry "b/x/SKILL.md" "second"] in
  r = Ok {| uploaded := "x, x"; upload_message := "Successfully uploaded 2 skill(s)" |}
  /\ length (children ["data"; "skills"; "srv"]%string (nodes d)) = 2%nat.
Proof. vm_compute. split; reflexivity. Qed.

(** The old skill is removed before the new one is copied: when the copying
    fails, neither is there. *)
Definition full_disk (n : nat) : option Fault :=
  if (11 <=? n)%nat then Some {| error := SystemError "ENOSPC" "ENOSPC: no space left on device, copyfile"; made := 0; spared := fun _ => false; written := None |}
  else None.

Example failed_upload_loses_the_skill :
  let '(r, d) := run_upload full_disk no_server greet_archive in
  r = Throw {| admin_message := "ENOSPC: no space left on device, copyfile"; admin_code := SKILL_UPLOAD_FAILED |}
  /\ nodes d !! ["data"; "skills"; "srv"; "greet"; "SKILL.md"]%string = None
  /\ nodes d !! ["data"; "skills"; "srv"; "greet"; "notes"]%string = None.
Proof. vm_compute. split_and! ; reflexivity. Qed.

(** When only the reconnection afterwards fails, the upload is reported as
    failed although the skills are installed. *)
Example reload_failure_hides_the_upload :
  let '(r, d) := run_upload no_faults (fun _ => Throw (Error "connection refused")) greet_archive in
  r = Throw {| admin_message := "connection refused"; admin_code := SKILL_UPLOAD_FAILED |}
  /\ nodes d !! ["data"; "skills"; "srv"; "greet"; "SKILL.md"]%string = Some (Content "new").
Proof. vm_compute. split; reflexivity. Qed.

(** The code of an error is looked for in its message, names included. *)
Example error_codes_from_names :
  getSkillsErrorCode (Error "Failed to delete skill: permission-checker") Delete = DATABASE_OPERATION_FAILED
  /\ getSkillsErrorCode (Error "Failed to delete skill: greet") Delete = SKILL_DELETE_FAILED
  /\ getSkillsErrorCode (Error "ZIP file actual uncompressed size exceeds limit during extraction") Upload = SKILL_UPLOAD_FAILED.
Proof. vm_compute. split_and! ; reflexivity. Qed.
