(* ===== verification/Redaction.v ===== *)
(** * Redaction of logged fields

    [src/src/utils/logRedaction.ts] as far as the log service uses it, and
    [src/src/utils/truncateResponse.ts]. *)
From Stdlib Require Import Ascii ZArith Lia.
From stdpp Require Import base strings list.
From S2P Require Import Prelude Json JsMap.
Open Scope Z_scope.

(** ** Regular expressions

    The backtracking matcher of the language, for the constructs the code's
    patterns use: greedy repetition, alternatives tried in order, groups, back
    references, negative lookahead and the end of the input; and
    [s.replace(/.../g, f)].  Units are bytes. *)

Inductive regex : Type :=
| Empty
| Unit (p : ascii -> bool)
| Seq (r q : regex)
| Alt (r q : regex)
| Star (r : regex)
| Group (n : nat) (r : regex)
| Backref (n : nat)
| NotAhead (r : regex)
| AtEnd.

(** What the groups have matched, the latest first. *)
Definition captures := list (nat * string).

Fixpoint group (n : nat) (c : captures) : option string :=
  match c with [] => None | (m, s) :: c => if Nat.eqb m n then Some s else group n c end.

Definition continuation := string -> captures -> option (string * captures).

(** [match_re r s c k]: the first way for [r] to match a prefix of [s] after
    which [k] succeeds.  A repetition that matches nothing is not repeated. *)
Fixpoint match_re (r : regex) (s : string) (c : captures) (k : continuation) {struct r} : option (string * captures) :=
  match r with
  | Empty => k s c
  | Unit p => match s with String a s' => if p a then k s' c else None | EmptyString => None end
  | Seq r q => match_re r s c (fun s c => match_re q s c k)
  | Alt r q => match match_re r s c k with Some x => Some x | None => match_re q s c k end
  | Star r =>
      (fix star (n : nat) (s : string) (c : captures) : option (string * captures) :=
         match n with
         | O => k s c
         | S n =>
             match match_re r s c (fun s' c' => if (String.length s' <? String.length s)%nat then star n s' c' else None) with
             | Some x => Some x
             | None => k s c
             end
         end) (String.length s) s c
  | Group n r => match_re r s c (fun s' c' => k s' ((n, str_take (String.length s - String.length s') s) :: c'))
  | Backref n =>
      let t := default ""%string (group n c) in
      if starts_with t s then k (str_drop (String.length t) s) c else None
  | NotAhead r => match match_re r s c (fun s' c' => Some (s', c')) with Some _ => None | None => k s c end
  | AtEnd => match s with EmptyString => k s c | _ => None end
  end.

(** A match at the start of [s]. *)
Definition match_at (r : regex) (s : string) : option (string * captures) := match_re r s [] (fun s' c => Some (s', c)).

(** Patterns that match only non-empty text. *)
Fixpoint replace_from (n : nat) (r : regex) (f : string -> captures -> string) (s : string) : string :=
  match n with
  | O => s
  | S n =>
      match match_at r s with
      | Some (s', c) => f (str_take (String.length s - String.length s') s) c +:+ replace_from n r f s'
      | None => match s with String a s' => String a (replace_from n r f s') | EmptyString => "" end
      end
  end.

(** [s.replace(/r/g, f)] *)
Definition replace_all (r : regex) (f : string -> captures -> string) (s : string) : string :=
  replace_from (S (String.length s)) r f s.

(** ** Abbreviations *)

Definition is_unit (c : ascii) (a : ascii) : bool := bool_decide (a = c).
Definition one_of (s : string) (a : ascii) : bool := str_mem a s.
Definition none_of (s : string) (a : ascii) : bool := negb (str_mem a s).
Definition Opt (r : regex) : regex := Alt r Empty.
Definition Plus (r : regex) : regex := Seq r (Star r).

(** Letters in either case. *)
Definition same_letter (c a : ascii) : bool := bool_decide (lower_ascii a = lower_ascii c).

Fixpoint word (s : string) : regex :=
  match s with EmptyString => Empty | String c s => Seq (Unit (same_letter c)) (word s) end.

Fixpoint any_of (l : list regex) : regex :=
  match l with [] => NotAhead Empty | [r] => r | r :: l => Alt r (any_of l) end.

Fixpoint in_order (l : list regex) : regex :=
  match l with [] => Empty | [r] => r | r :: l => Seq r (in_order l) end.

(** ** Redaction *)

Definition REDACTED : string := "[REDACTED]".

Definition cr : ascii := ascii_of_nat 13.
Definition lf : ascii := ascii_of_nat 10.
Definition backslash : ascii := ascii_of_nat 92.
Definition quotes : string := String dquote (String "'" "").
Definition line_ends : string := String cr (String lf "").

Definition space : regex := Unit is_space.

(** [(Bearer|Basic)\s+[^\s,;]+], neither quote in it *)
Definition AUTH_SCHEME_TOKEN : regex :=
  in_order [Group 1 (Alt (word "bearer") (word "basic")); Plus space;
            Plus (Unit (fun a => negb (is_space a) && none_of (String "," (String ";" quotes)) a))].

(** The rest of a quoted value, its quote being group 4, and the quote or the
    end of the input. *)
Definition quoted_rest : regex :=
  Seq (Star (Alt (Seq (Unit (is_unit backslash)) (Unit (none_of line_ends)))
                 (Seq (NotAhead (Backref 4)) (Unit (none_of line_ends)))))
      (Alt (Backref 4) AtEnd).

Definition QUOTED_FIELD_VALUE : regex :=
  in_order [Group 1 (Unit (one_of quotes)); Group 2 (Plus (Unit (none_of (String backslash (quotes +:+ line_ends))))); Backref 1;
            Group 3 (in_order [Star space; Unit (is_unit ":"); Star space]); Group 4 (Unit (one_of quotes)); quoted_rest].

Definition key_unit (a : ascii) : bool :=
  let n := nat_of_ascii (lower_ascii a) in
  ((97 <=? n) && (n <=? 122) || (48 <=? n) && (n <=? 57) || (n =? 95) || (n =? 46) || (n =? 45))%nat.

Definition dash : regex := Opt (Unit (one_of "-_")).

Definition sensitive_word : regex :=
  any_of [in_order [Star (Unit key_unit); any_of [word "token"; word "secret"; word "password"; word "credential"]; Star (Unit key_unit)];
          word "authorization"; word "key"; in_order [word "api"; dash; word "key"]; in_order [word "proxy"; dash; word "key"];
          in_order [word "private"; dash; word "key"]; word "cookie"; in_order [word "auth"; dash; word "conf"];
          in_order [word "set"; dash; word "cookie"]].

Definition BARE_FIELD_VALUE : regex :=
  in_order [Group 1 (Opt (Unit (one_of quotes))); Group 2 sensitive_word; Backref 1;
            Group 3 (in_order [Star space; Unit (one_of ":="); Star space]);
            Alt (Seq (Group 4 (Unit (one_of quotes))) quoted_rest)
                (Group 5 (Plus (Unit (fun a => negb (is_space a) && none_of ",;&]}" a))))].

Fixpoint without (p : ascii -> bool) (s : string) : string :=
  match s with EmptyString => "" | String c s => if p c then without p s else String c (without p s) end.

Definition isSensitiveKey (key : string) : bool :=
  let normalized := to_lower (without (one_of "-_") key) in
  existsb (str_eqb normalized) ["authorization"; "key"; "authconf"; "cookie"; "privatekey"; "setcookie"]%string
  || existsb (fun w => includes w normalized) ["token"; "secret"; "password"; "credential"; "apikey"; "proxykey"]%string.

Definition captured (n : nat) (c : captures) : string := default ""%string (group n c).

(** The replacement of a field, unless its name is harmless. *)
Definition redact_field (matched : string) (c : captures) : string :=
  if isSensitiveKey (captured 2 c)
  then captured 1 c +:+ captured 2 c +:+ captured 1 c +:+ captured 3 c +:+ captured 4 c +:+ REDACTED +:+ captured 4 c
  else matched.

Definition redactText (value : string) : string :=
  replace_all BARE_FIELD_VALUE redact_field
    (replace_all QUOTED_FIELD_VALUE redact_field
      (replace_all AUTH_SCHEME_TOKEN (fun _ c => captured 1 c +:+ " " +:+ REDACTED) value)).

(** [JSON.stringify] of a parsed value. *)
Definition stringified (v : json) : string := default ""%string (JSON_stringify v).

(** *** The stack

    Values nested deeply, and texts in texts, exhaust the stack: a
    [RangeError], which the code catches like any other.  The levels of nested
    calls there is room for when a field is redacted, and for which values
    [JSON.stringify], recursive itself, has room with so many levels left. *)
Record Stack : Type := { levels : nat; stringifies : nat -> json -> bool }.

Section Overflow.
Variable stack : Stack.

(** [JSON.stringify] of a parsed value; [None]: it throws. *)
Definition stringify_at (room : nat) (v : json) : option string := if stringifies stack room v then Some (stringified v) else None.

(** [l.map(f)] and [l.some(f)] of a function that may throw. *)
Fixpoint map_or_throw {A B} (f : A -> option B) (l : list A) : option (list B) :=
  match l with
  | [] => Some []
  | a :: l => match f a with Some b => option_map (cons b) (map_or_throw f l) | None => None end
  end.

Fixpoint some_or_throw {A} (f : A -> option bool) (l : list A) : option bool :=
  match l with
  | [] => Some false
  | a :: l => match f a with Some true => Some true | Some false => some_or_throw f l | None => None end
  end.

(** [redactParsedValue], with [room] levels left; [None]: it throws. *)
Fixpoint redactParsedValue (room : nat) (parsed : json) : option json :=
  match room with
  | O => None
  | S room =>
      match parsed with
      | JStr s =>
          Some (JStr (default (redactText s)
            match JSON_parse s with
            | Some v => match redactParsedValue room v with Some r => stringify_at room r | None => None end
            | None => None
            end))
      | JArr l => option_map JArr (map_or_throw (redactParsedValue room) l)
      | JObj kvs =>
          option_map (fun kvs => JObj (from_entries kvs))
            (map_or_throw (fun kv => if isSensitiveKey (fst kv) then Some (fst kv, JStr REDACTED)
                                     else option_map (pair (fst kv)) (redactParsedValue room (snd kv))) kvs)
      | _ => Some parsed
      end
  end.

Fixpoint containsSensitiveKey (room : nat) (value : json) : option bool :=
  match room with
  | O => None
  | S room =>
      match value with
      | JStr s => Some (match JSON_parse s with Some v => default false (containsSensitiveKey room v) | None => false end)
      | JArr l => some_or_throw (containsSensitiveKey room) l
      | JObj kvs => some_or_throw (fun kv => if isSensitiveKey (fst kv) then Some true else containsSensitiveKey room (snd kv)) kvs
      | _ => Some false
      end
  end.

Definition redactStructuredField (value : option string) : option string :=
  match value with
  | None => None
  | Some value =>
      Some (default (redactText value)
        match JSON_parse value with
        | Some v => match redactParsedValue (levels stack) v with Some r => stringify_at (levels stack) r | None => None end
        | None => None
        end)
  end.

Definition redactError (value : string) : string :=
  match JSON_parse value with
  | None => redactText value
  | Some parsed =>
      match containsSensitiveKey (levels stack) parsed, redactParsedValue (levels stack) parsed with
      | Some true, Some redactedValue =>
          let redactedText := redactText value in
          let text := stringify_at (levels stack) redactedValue in
          match JSON_parse redactedText ≫= stringify_at (levels stack), text with
          | Some a, Some b => if str_eqb a b then redactedText else b
          | _, Some b => b
          | _, None => redactText value
          end
      | _, _ => redactText value
      end
  end.
End Overflow.

(** [truncateResponseResult] of a value that has a text. *)
Definition truncateResponseResult (data : json) (maxLength : Z) : string :=
  let jsonString := stringified data in
  if maxLength <=? 0 then jsonString
  else
    let n := Z.of_nat (String.length jsonString) in
    if n <=? maxLength then jsonString
    else str_take (Z.to_nat maxLength) jsonString
         +:+ String lf ("[TRUNCATED - original size: " +:+ z_to_string n +:+ " characters]").

(** * Redaction hides

    On a stack without end, going into texts inside texts ends, and what is
    logged does not depend on the values of sensitive fields; so it is on a
    stack that has room enough for a value. *)

(** The redacted value, going into [n] texts inside texts. *)
Fixpoint redact_parsed (n : nat) : json -> json :=
  fix go (parsed : json) : json :=
    match parsed with
    | JStr s =>
        match n with
        | O => JUndefined
        | S n => match JSON_parse s with
                 | Some v => JStr (stringified (redact_parsed n v))
                 | None => JStr (redactText s)
                 end
        end
    | JArr l => JArr (map go l)
    | JObj kvs => JObj (from_entries (map (fun kv => (fst kv, if isSensitiveKey (fst kv) then JStr REDACTED else go (snd kv))) kvs))
    | _ => parsed
    end.

(** The longest text in a value, and one. *)
Fixpoint longest (v : json) : nat :=
  match v with
  | JStr s => S (String.length s)
  | JArr l => fold_right Nat.max O (map longest l)
  | JObj kvs => fold_right Nat.max O (map (fun kv => longest (snd kv)) kvs)
  | _ => O
  end.

(** The redacted value. *)
Definition redacted (parsed : json) : json := redact_parsed (longest parsed) parsed.

(** ** What is parsed is shorter than its text *)

Lemma skip_ws_length (s : string) : (String.length (skip_ws s) <= String.length s)%nat.
Proof. induction s as [|c s IH]; [done|]. cbn. destruct (is_ws c); cbn; lia. Qed.

Lemma parse_unit_length (s r : string) (c : ascii) : parse_unit s = Some (c, r) -> (String.length r < String.length s)%nat.
Proof.
  unfold parse_unit. intros H. repeat (case_match; simplify_eq; cbn; try lia).
Qed.

Lemma parse_string_body_length (f : nat) (s t r : string) :
  parse_string_body f s = Some (t, r) -> (String.length t + String.length r < String.length s)%nat.
Proof.
  revert s t r. induction f as [|f IH]; intros s t r; cbn; [done|]. destruct (parse_unit s) as [[c s']|] eqn:E.
  - destruct (parse_string_body f s') as [[t' r']|] eqn:E'; [|done]. intros [= <- <-].
    apply IH in E'. apply parse_unit_length in E. cbn. lia.
  - destruct s as [|c s']; [done|]. destruct (_ =? 34)%nat; [|done]. intros [= <- <-]. cbn. lia.
Qed.

Lemma head_is_length (c : ascii) (s r : string) : head_is c s = Some r -> (String.length r < String.length s)%nat.
Proof. destruct s as [|a s]; [done|]. cbn. destruct (bool_decide _); [|done]. intros [= <-]. lia. Qed.

Lemma str_drop_length (n : nat) (s : string) : (String.length (str_drop n s) <= String.length s)%nat.
Proof. revert s. induction n as [|n IH]; intros [|a s]; cbn; try lia. specialize (IH s). lia. Qed.

Lemma literal_length (l s r : string) : literal l s = Some r -> (String.length r <= String.length s)%nat.
Proof. unfold literal. destruct (starts_with l s); [|done]. intros [= <-]. apply str_drop_length. Qed.

Lemma span_num_length (s a r : string) : span_num s = (a, r) -> (String.length r <= String.length s)%nat.
Proof.
  revert a r. induction s as [|c s IH]; intros a r; cbn; [by intros [= _ <-]|].
  destruct (is_num_unit c); [|by intros [= _ <-]]. destruct (span_num s) as [a' b]. intros [= _ <-]. specialize (IH _ _ eq_refl). lia.
Qed.

Lemma parse_num_length (s r : string) (v : json) : parse_num s = Some (v, r) -> (String.length r <= String.length s)%nat /\ longest v = O.
Proof.
  unfold parse_num. destruct (span_num s) as [a b] eqn:E. apply span_num_length in E.
  destruct (DecimalString.NilZero.int_of_string a); [|done]. destruct (str_eqb _ _); [|done]. intros [= <- <-]. by split.
Qed.

Definition short (n : nat) (v : json) : Prop := (longest v <= n)%nat.

Lemma longest_arr n l : short n (JArr l) <-> Forall (short n) l.
Proof.
  unfold short. cbn. induction l as [|v l IH]; cbn; [split; [constructor|lia]|]. rewrite Forall_cons, <- IH. lia.
Qed.

Lemma longest_obj n kvs : short n (JObj kvs) <-> Forall (fun kv => short n (snd kv)) kvs.
Proof.
  unfold short. cbn. induction kvs as [|kv kvs IH]; cbn; [split; [constructor|lia]|]. rewrite Forall_cons, <- IH. lia.
Qed.

Lemma short_mono n m v : short n v -> (n <= m)%nat -> short m v.
Proof. unfold short. lia. Qed.

Definition parsed_short (f : nat) : Prop :=
  (forall s v r, parse_value f s = Some (v, r) -> (String.length r <= String.length s)%nat /\ short (String.length s) v)
  /\ (forall s l r, parse_elems f s = Some (l, r) -> (String.length r <= String.length s)%nat /\ Forall (short (String.length s)) l)
  /\ (forall s l r, parse_members f s = Some (l, r) ->
        (String.length r <= String.length s)%nat /\ Forall (fun kv => short (String.length s) (snd kv)) l).

Ltac lengths :=
  repeat match goal with
  | H : head_is _ _ = Some _ |- _ => apply head_is_length in H
  | H : literal _ _ = Some _ |- _ => apply literal_length in H
  | H : parse_string_body _ _ = Some _ |- _ => apply parse_string_body_length in H
  end;
  repeat match goal with
  | H : context [String.length (skip_ws ?s)] |- _ =>
      lazymatch goal with H' : (String.length (skip_ws s) <= _)%nat |- _ => fail | _ => pose proof (skip_ws_length s) end
  end.

Lemma parse_value_short f : parsed_short f -> forall s v r,
  parse_value (S f) s = Some (v, r) -> (String.length r <= String.length s)%nat /\ short (String.length s) v.
Proof.
  intros (_ & He & Hm) s v r. cbn [parse_value]. pose proof (skip_ws_length s) as Hs.
  destruct (literal "null" _) as [r1|] eqn:E1; [intros [= <- <-]; lengths; split; [lia|unfold short; cbn; lia]|].
  destruct (literal "true" _) as [r2|] eqn:E2; [intros [= <- <-]; lengths; split; [lia|unfold short; cbn; lia]|].
  destruct (literal "false" _) as [r3|] eqn:E3; [intros [= <- <-]; lengths; split; [lia|unfold short; cbn; lia]|].
  destruct (head_is dquote _) as [r4|] eqn:E4.
  { destruct (parse_string_body _ r4) as [[t r']|] eqn:E; [|done]. intros [= <- <-]. lengths. split; [lia|unfold short; cbn; lia]. }
  destruct (head_is "["%char (skip_ws s)) as [r5|] eqn:E5.
  { destruct (head_is "]"%char _) as [r'|] eqn:E; [intros [= <- <-]; lengths; split; [lia|unfold short; cbn; lia]|].
    destruct (parse_elems f r5) as [[l r']|] eqn:E'; [|done]. intros [= <- <-]. apply He in E' as [H1 H2]. lengths. split; [lia|].
    apply longest_arr. eapply Forall_impl; [exact H2|]. intros x Hx. eapply short_mono; [exact Hx|lia]. }
  destruct (head_is "{"%char (skip_ws s)) as [r6|] eqn:E6.
  { destruct (head_is "}"%char _) as [r'|] eqn:E; [intros [= <- <-]; lengths; split; [lia|unfold short; cbn; lia]|].
    destruct (parse_members f r6) as [[l r']|] eqn:E'; [|done]. intros [= <- <-]. apply Hm in E' as [H1 H2]. lengths. split; [lia|].
    apply longest_obj, from_entries_Forall. eapply Forall_impl; [exact H2|]. intros x Hx. eapply short_mono; [exact Hx|lia]. }
  intros H. apply parse_num_length in H as [H1 H2]. split; [lia|]. unfold short. lia.
Qed.

Lemma parse_elems_short f : parsed_short f -> forall s l r,
  parse_elems (S f) s = Some (l, r) -> (String.length r <= String.length s)%nat /\ Forall (short (String.length s)) l.
Proof.
  intros (Hv & He & _) s l r. cbn [parse_elems]. destruct (parse_value f s) as [[v r1]|] eqn:E; [|done]. apply Hv in E as [H1 H2].
  destruct (head_is ","%char _) as [r2|] eqn:E2.
  - destruct (parse_elems f r2) as [[l' r3]|] eqn:E3; [|done]. intros [= <- <-]. apply He in E3 as [H3 H4]. lengths. split; [lia|].
    constructor; [done|]. eapply Forall_impl; [exact H4|]. intros x Hx. eapply short_mono; [exact Hx|lia].
  - destruct (head_is "]"%char _) as [r2|] eqn:E3; [|done]. intros [= <- <-]. lengths. split; [lia|]. by repeat constructor.
Qed.

Lemma parse_members_short f : parsed_short f -> forall s l r,
  parse_members (S f) s = Some (l, r) -> (String.length r <= String.length s)%nat /\ Forall (fun kv => short (String.length s) (snd kv)) l.
Proof.
  intros (Hv & _ & Hm) s l r. cbn [parse_members]. destruct (head_is dquote _) as [r0|] eqn:E0; [|done].
  destruct (parse_string_body _ r0) as [[k r1]|] eqn:E1; [|done]. destruct (head_is ":"%char _) as [r2|] eqn:E2; [|done].
  destruct (parse_value f r2) as [[v r3]|] eqn:E3; [|done]. apply Hv in E3 as [H1 H2].
  destruct (head_is ","%char _) as [r4|] eqn:E4.
  - destruct (parse_members f r4) as [[l' r5]|] eqn:E5; [|done]. intros [= <- <-]. apply Hm in E5 as [H3 H4]. lengths. split; [lia|].
    constructor; [eapply short_mono; [exact H2|lia]|]. eapply Forall_impl; [exact H4|]. intros x Hx. eapply short_mono; [exact Hx|lia].
  - destruct (head_is "}"%char _) as [r4|] eqn:E5; [|done]. intros [= <- <-]. lengths. split; [lia|].
    constructor; [eapply short_mono; [exact H2|lia]|constructor].
Qed.

Lemma all_parsed_short f : parsed_short f.
Proof.
  induction f as [|f IH]; [by repeat split|]. split; [|split].
  - by apply parse_value_short.
  - by apply parse_elems_short.
  - by apply parse_members_short.
Qed.

Lemma JSON_parse_short (s : string) (v : json) : JSON_parse s = Some v -> short (String.length s) v.
Proof.
  unfold JSON_parse. destruct (parse_value _ s) as [[w r]|] eqn:E; [|done]. destruct (str_eqb _ _); [|done]. intros [= <-].
  by apply (proj1 (all_parsed_short _)) in E as [_ H].
Qed.

(** ** Enough fuel *)

Definition redacted_field (n : nat) (kv : string * json) : string * json :=
  (fst kv, if isSensitiveKey (fst kv) then JStr REDACTED else redact_parsed n (snd kv)).

Lemma redact_parsed_obj n kvs : redact_parsed n (JObj kvs) = JObj (from_entries (map (redacted_field n) kvs)).
Proof. by destruct n. Qed.

Lemma redact_parsed_arr n l : redact_parsed n (JArr l) = JArr (map (redact_parsed n) l).
Proof. by destruct n. Qed.

Lemma redact_parsed_text n s :
  redact_parsed (S n) (JStr s) = JStr (match JSON_parse s with Some v => stringified (redact_parsed n v) | None => redactText s end).
Proof. cbn [redact_parsed]. by destruct (JSON_parse s). Qed.

Lemma redact_arr_enough n m l :
  Forall (fun v => short n v -> short m v -> redact_parsed n v = redact_parsed m v) l ->
  short n (JArr l) -> short m (JArr l) -> redact_parsed n (JArr l) = redact_parsed m (JArr l).
Proof.
  intros IH Hn%longest_arr Hm%longest_arr. rewrite !redact_parsed_arr. f_equal. rewrite Forall_forall in *.
  apply map_ext_in. intros x Hx%list_elem_of_In. by apply IH; [|apply Hn|apply Hm].
Qed.

Lemma redact_obj_enough n m kvs :
  Forall (fun kv => short n (snd kv) -> short m (snd kv) -> redact_parsed n (snd kv) = redact_parsed m (snd kv)) kvs ->
  short n (JObj kvs) -> short m (JObj kvs) -> redact_parsed n (JObj kvs) = redact_parsed m (JObj kvs).
Proof.
  intros IH Hn%longest_obj Hm%longest_obj. rewrite !redact_parsed_obj. do 2 f_equal. rewrite Forall_forall in *.
  apply map_ext_in. intros x Hx%list_elem_of_In. unfold redacted_field. f_equal. destruct (isSensitiveKey (fst x)); [done|].
  by apply IH; [|apply Hn|apply Hm].
Qed.

Lemma redact_parsed_enough (n m : nat) (v : json) : short n v -> short m v -> redact_parsed n v = redact_parsed m v.
Proof.
  revert m v. induction n as [|n IH]; intros m v;
    (induction v as [| |b|z|s|l IHl|kvs IHk] using json_ind'; intros Hn Hm;
      [by destruct m|by destruct m|by destruct m|by destruct m| |by apply redact_arr_enough|by apply redact_obj_enough]).
  - unfold short in Hn. cbn in Hn. lia.
  - unfold short in Hn, Hm. cbn in Hn, Hm. destruct m as [|m]; [lia|]. rewrite !redact_parsed_text. f_equal.
    destruct (JSON_parse s) as [w|] eqn:E; [|reflexivity]. apply JSON_parse_short in E. f_equal. apply IH; (eapply short_mono; [exact E|lia]).
Qed.

Lemma redacted_text (s : string) :
  redacted (JStr s) = JStr (match JSON_parse s with Some v => stringified (redacted v) | None => redactText s end).
Proof.
  unfold redacted at 1. change (longest (JStr s)) with (S (String.length s)). rewrite redact_parsed_text. f_equal.
  destruct (JSON_parse s) as [v|] eqn:E; [|reflexivity]. apply JSON_parse_short in E.
  f_equal. apply redact_parsed_enough; [exact E|unfold short; lia].
Qed.

Lemma redacted_array (l : list json) : redacted (JArr l) = JArr (map redacted l).
Proof.
  assert (H : Forall (short (longest (JArr l))) l) by (apply longest_arr; unfold short; lia).
  unfold redacted at 1. rewrite redact_parsed_arr. f_equal. rewrite Forall_forall in H.
  apply map_ext_in. intros v Hv%list_elem_of_In. apply redact_parsed_enough; [by apply H|unfold short; lia].
Qed.

Lemma redacted_object (kvs : list (string * json)) : redacted (JObj kvs) =
  JObj (from_entries (map (fun kv => (fst kv, if isSensitiveKey (fst kv) then JStr REDACTED else redacted (snd kv))) kvs)).
Proof.
  assert (H : Forall (fun kv => short (longest (JObj kvs)) (snd kv)) kvs) by (apply longest_obj; unfold short; lia).
  unfold redacted at 1. rewrite redact_parsed_obj. do 2 f_equal. rewrite Forall_forall in H.
  apply map_ext_in. intros kv Hkv%list_elem_of_In. unfold redacted_field. destruct (isSensitiveKey (fst kv)); [done|]. f_equal.
  apply redact_parsed_enough; [by apply H|unfold short; lia].
Qed.

(** ** Enough stack *)

(** There is room to redact the value, and the texts in it that are values. *)
Fixpoint fits (stack : Stack) (room : nat) (parsed : json) : bool :=
  match room with
  | O => false
  | S room =>
      match parsed with
      | JStr s => match JSON_parse s with Some v => fits stack room v && stringifies stack room (redacted v) | None => true end
      | JArr l => forallb (fits stack room) l
      | JObj kvs => forallb (fun kv => isSensitiveKey (fst kv) || fits stack room (snd kv)) kvs
      | _ => true
      end
  end.

(** ... and to write the outcome. *)
Definition has_room (stack : Stack) (v : json) : bool := fits stack (levels stack) v && stringifies stack (levels stack) (redacted v).

Lemma map_or_throw_Some {A B} (f : A -> option B) (g : A -> B) l : Forall (fun a => f a = Some (g a)) l -> map_or_throw f l = Some (map g l).
Proof. induction 1 as [|a l Ha _ IH]; [done|]. cbn. by rewrite Ha, IH. Qed.

Lemma fits_redacted stack room v : fits stack room v = true -> redactParsedValue stack room v = Some (redacted v).
Proof.
  revert v. induction room as [|room IH]; [done|]. intros [| |b|z|s|l|kvs] H; try reflexivity; cbn [fits] in H; cbn [redactParsedValue].
  - rewrite redacted_text. destruct (JSON_parse s) as [v|]; [|reflexivity]. apply andb_true_iff in H as [H1 H2]. rewrite IH by done.
    unfold stringify_at. by rewrite H2.
  - rewrite redacted_array, (map_or_throw_Some _ redacted); [done|]. rewrite forallb_forall in H. apply List.Forall_forall. auto.
  - rewrite redacted_object, (map_or_throw_Some _ (fun kv => (fst kv, if isSensitiveKey (fst kv) then JStr REDACTED else redacted (snd kv)))); [done|].
    rewrite forallb_forall in H. apply List.Forall_forall. intros kv Hkv. specialize (H kv Hkv). destruct (isSensitiveKey (fst kv)); [done|]. by rewrite IH.
Qed.

(** What is stored when there is room, and when there is not. *)
Lemma redacted_field_stored stack s v : JSON_parse s = Some v -> has_room stack v = true ->
  redactStructuredField stack (Some s) = Some (stringified (redacted v)).
Proof.
  intros Es [H1 H2]%andb_true_iff. unfold redactStructuredField. rewrite Es, fits_redacted by done. unfold stringify_at. by rewrite H2.
Qed.

Lemma overflow_redacts_text stack s v : JSON_parse s = Some v -> redactParsedValue stack (levels stack) v = None ->
  redactStructuredField stack (Some s) = Some (redactText s).
Proof. intros Es H. unfold redactStructuredField. by rewrite Es, H. Qed.

(** ** What does not show *)

(** Values that differ at most in the values of sensitive fields, in texts
    that are values as well. *)
Inductive alike : json -> json -> Prop :=
| alike_refl v : alike v v
| alike_text s t v w : JSON_parse s = Some v -> JSON_parse t = Some w -> alike v w -> alike (JStr s) (JStr t)
| alike_arr l k : alikes l k -> alike (JArr l) (JArr k)
| alike_obj l k : alike_fields l k -> alike (JObj l) (JObj k)
with alikes : list json -> list json -> Prop :=
| alikes_nil : alikes [] []
| alikes_cons v w l k : alike v w -> alikes l k -> alikes (v :: l) (w :: k)
with alike_fields : list (string * json) -> list (string * json) -> Prop :=
| alike_fields_nil : alike_fields [] []
| alike_fields_secret a v w l k : isSensitiveKey a = true -> alike_fields l k -> alike_fields ((a, v) :: l) ((a, w) :: k)
| alike_fields_cons a v w l k : alike v w -> alike_fields l k -> alike_fields ((a, v) :: l) ((a, w) :: k).

Scheme alike_mut := Induction for alike Sort Prop
  with alikes_mut := Induction for alikes Sort Prop
  with alike_fields_mut := Induction for alike_fields Sort Prop.

Definition redacts_alike (v w : json) : Prop := forall n m, short n v -> short m w -> redact_parsed n v = redact_parsed m w.

Lemma alike_redacts v w : alike v w -> redacts_alike v w.
Proof.
  revert v w. apply (alike_mut (fun v w _ => redacts_alike v w)
    (fun l k _ => forall n m, Forall (short n) l -> Forall (short m) k -> map (redact_parsed n) l = map (redact_parsed m) k)
    (fun l k _ => forall n m, Forall (fun kv => short n (snd kv)) l -> Forall (fun kv => short m (snd kv)) k ->
                  map (redacted_field n) l = map (redacted_field m) k)).
  - intros v n m. apply redact_parsed_enough.
  - intros s t v w Es Et _ IH n m Hn Hm. unfold short in Hn, Hm. cbn in Hn, Hm.
    destruct n as [|n]; [lia|]. destruct m as [|m]; [lia|]. rewrite !redact_parsed_text, Es, Et. do 2 f_equal.
    apply JSON_parse_short in Es, Et. apply IH; (eapply short_mono; [eassumption|lia]).
  - intros l k _ IH n m Hn%longest_arr Hm%longest_arr. rewrite !redact_parsed_arr. f_equal. by apply IH.
  - intros l k _ IH n m Hn%longest_obj Hm%longest_obj. rewrite !redact_parsed_obj. do 2 f_equal. by apply IH.
  - done.
  - intros v w l k _ IHv _ IHl n m Hn Hm. apply Forall_cons in Hn as [Hn1 Hn2], Hm as [Hm1 Hm2]. cbn.
    rewrite (IHv n m), (IHl n m) by done. done.
  - done.
  - intros a v w l k Ha _ IH n m Hn Hm. apply Forall_cons in Hn as [Hn1 Hn2], Hm as [Hm1 Hm2]. cbn.
    rewrite (IH n m) by done. unfold redacted_field at 1 3. cbn. by rewrite Ha.
  - intros a v w l k _ IHv _ IH n m Hn Hm. apply Forall_cons in Hn as [Hn1 Hn2], Hm as [Hm1 Hm2]. cbn in *.
    rewrite (IH n m) by done. unfold redacted_field at 1 3. cbn. destruct (isSensitiveKey a); [done|]. by rewrite (IHv n m).
Qed.

Lemma alike_redacted v w : alike v w -> redacted v = redacted w.
Proof. intros H. apply alike_redacts; [done|unfold short; lia..]. Qed.

Lemma alike_fits stack v w : alike v w -> forall room, fits stack room v = fits stack room w.
Proof.
  revert v w. apply (alike_mut (fun v w _ => forall room, fits stack room v = fits stack room w)
    (fun l k _ => forall room, forallb (fits stack room) l = forallb (fits stack room) k)
    (fun l k _ => forall room, forallb (fun kv => isSensitiveKey (fst kv) || fits stack room (snd kv)) l
                             = forallb (fun kv => isSensitiveKey (fst kv) || fits stack room (snd kv)) k)).
  - done.
  - intros s t v w Es Et H IH [|room]; [done|]. cbn. by rewrite Es, Et, IH, (alike_redacted v w H).
  - intros l k _ IH [|room]; [done|]. apply IH.
  - intros l k _ IH [|room]; [done|]. apply IH.
  - done.
  - intros v w l k _ IHv _ IHl room. cbn. by rewrite IHv, IHl.
  - done.
  - intros a v w l k Ha _ IH room. cbn. by rewrite Ha, IH.
  - intros a v w l k _ IHv _ IH room. cbn. by rewrite IHv, IH.
Qed.

(** C38: What is stored of a structured field does not depend on the values of its
    sensitive fields, nor on those in texts inside it that are JSON
    themselves, as deep as the stack has room to go ([overflow_redacts_text]:
    without room the field is redacted as a text).  Texts inside that are not
    JSON are redacted as texts, and are not covered. *)
Theorem redaction_hides_secrets (stack : Stack) (s t : string) (v w : json) :
  JSON_parse s = Some v -> JSON_parse t = Some w -> alike v w -> has_room stack v = true ->
  redactStructuredField stack (Some s) = redactStructuredField stack (Some t).
Proof.
  intros Es Et H Hroom. rewrite (redacted_field_stored stack s v), (redacted_field_stored stack t w); [|done| |done..].
  - by rewrite (alike_redacted v w).
  - unfold has_room in *. by rewrite <- (alike_fits stack v w), <- (alike_redacted v w).
Qed.
