(* ===== verification/Logs.v ===== *)
(** * Logs

    The queue of log entries ([src/src/log/LogService.ts]), their sending to a
    webhook ([src/src/log/LogSyncService.ts]), the rows in between
    ([src/src/repositories/LogRepository.ts], [ProxyRepository.ts]) and the
    requests of administrators ([src/src/controllers/handlers/LogHandler.ts]).
    Methods are threads ([Monitor]); the rows of one flush are saved at the
    same time, each by statements of its own that get a number, and are
    committed, when they please. *)
From Stdlib Require Import ZArith Lia.
From stdpp Require Import base strings list.
From coqutil Require Import Datatypes.RecordSetters.
From S2P Require Import Prelude Json JsMap Effects Monitor Redaction AdminTypes.
Open Scope Z_scope.

Notation "x <| f := v |>" := (apply_update (mk_update f (constant v)) x)
  (at level 8, left associativity, f constr at level 1, v constr at level 99) : peta_scope.

Record LogEntry : Type := {
  action : Z;
  le_userId : option string;
  le_serverId : option string;
  le_sessionId : option string;
  upstreamRequestId : option string;
  uniformRequestId : option string;
  parentUniformRequestId : option string;
  proxyRequestId : option string;
  le_ip : option string;
  le_userAgent : option string;
  le_tokenMask : option string;
  requestParams : option string;
  responseResult : option string;
  le_error : option string;
  duration : option Z;
  statusCode : option Z
}.

Definition empty_entry (a : Z) : LogEntry := {|
  action := a; le_userId := None; le_serverId := None; le_sessionId := None; upstreamRequestId := None; uniformRequestId := None;
  parentUniformRequestId := None; proxyRequestId := None; le_ip := None; le_userAgent := None; le_tokenMask := None;
  requestParams := None; responseResult := None; le_error := None; duration := None; statusCode := None |}.

(** A row of the table; [row_entry] is the number of the accepted entry it
    comes from and not a column. *)
Record Log : Type := {
  id : Z;
  createdAt : Z;
  row_action : Z;
  row_userid : string;
  row_serverId : option string;
  row_sessionId : string;
  row_upstreamRequestId : string;
  row_uniformRequestId : option string;
  row_parentUniformRequestId : option string;
  row_proxyRequestId : option string;
  row_ip : string;
  row_ua : string;
  row_tokenMask : string;
  row_requestParams : string;
  row_responseResult : string;
  row_error : string;
  row_duration : option Z;
  row_statusCode : option Z;
  row_entry : option nat
}.

Definition text_or_empty (s : option string) : string := default ""%string s.

(** [LogRepository.save]: the row of an entry. *)
Definition log_row (n : option nat) (i createdAt : Z) (data : LogEntry) : Log := {|
  id := i; createdAt := createdAt; row_action := action data; row_userid := text_or_empty (le_userId data);
  row_serverId := le_serverId data; row_sessionId := text_or_empty (le_sessionId data);
  row_upstreamRequestId := text_or_empty (upstreamRequestId data); row_uniformRequestId := uniformRequestId data;
  row_parentUniformRequestId := parentUniformRequestId data; row_proxyRequestId := proxyRequestId data;
  row_ip := text_or_empty (le_ip data); row_ua := text_or_empty (le_userAgent data);
  row_tokenMask := text_or_empty (le_tokenMask data); row_requestParams := text_or_empty (requestParams data);
  row_responseResult := text_or_empty (responseResult data); row_error := text_or_empty (le_error data);
  row_duration := duration data; row_statusCode := statusCode data; row_entry := n |}.

(** [findLogsFromId] *)
Definition findLogsFromId (startId : Z) (limit : nat) (rows : list Log) : list Log :=
  take limit (isort (fun a b => id a <=? id b) (List.filter (fun r => startId <=? id r) rows)).

(** The one proxy. *)
Record Proxy : Type := { proxy_id : Z; proxy_name : string; proxyKey : string; logWebhookUrl : option string; lastSynced : Z }.

(** An entry that is being saved. *)
Inductive JobState : Type := Pending | Numbered (i : Z) | Saved | Failed.
Record Job : Type := { job_number : option nat; job_entry : LogEntry; job_createdAt : Z; job_state : JobState }.

Record Logs : Type := {
  (* LogService *)
  logQueue : list (option nat * LogEntry);
  flushTimer : bool;
  isShuttingDown : bool;
  (* LogSyncService *)
  syncTimer : bool;
  lastSyncedLogId : Z;
  proxyId : option Z;
  webhookUrl : option string;
  syncShuttingDown : bool;
  isSyncing : bool;
  (* the database *)
  jobs : list Job;
  rows : list Log;
  next_id : Z;
  proxy : option Proxy;
  (* what the webhook has acknowledged, and what the queue has accepted *)
  acknowledged : list Log;
  accepted : list LogEntry
}.

(** ** Calls *)

Definition failed (A : Type) : Type := result string A.

(** What the database does with a row that is being saved. *)
Inductive SaveMove : Type := GetNumber | CommitRow | RejectRow.

Inductive lcall : Type -> Type :=
(* synchronous code on the shared state *)
| Do {X : Type} (f : Logs -> X * Logs) : lcall X
| Now : lcall Z
(* a call of [enqueueLog] nobody waits for: a thread of its own *)
| LogLater (e : LogEntry) : lcall unit
(* a move of the database *)
| Saving (job : nat) (m : SaveMove) : lcall unit
(* awaited *)
| AllSaved (js : list nat) : lcall (failed unit)
| FindLogs (startId : Z) (limit : nat) : lcall (failed (list Log))
| Fetch (url : option string) (logs : list Log) : lcall (failed bool)
| UpdateLastSyncedLogId (proxy : Z) (logId : Z) : lcall (failed unit)
| UpdateWebhookUrl (proxy : Z) (url : option string) : lcall (failed unit)
| FindFirstProxy : lcall (failed (option Proxy))
| FindProxyById (proxy : Z) : lcall (failed (option Proxy))
| FindProxyByKey (key : string) : lcall (failed (option Proxy))
| Pause : lcall unit.

Definition atomic (X : Type) (e : lcall X) : bool :=
  match e with Do _ | Now | LogLater _ | Saving _ _ => true | _ => false end.

(** [prisma.log.create]: the row gets the next number, and is there when its
    transaction is committed. *)
Definition save_move (j : nat) (m : SaveMove) (s : Logs) : Logs :=
  match jobs s !! j with
  | Some job =>
      let set_state st := <[j := {| job_number := job_number job; job_entry := job_entry job; job_createdAt := job_createdAt job; job_state := st |}]> (jobs s) in
      match m, job_state job with
      | GetNumber, Pending => s <| jobs := set_state (Numbered (next_id s)) |> <| next_id := next_id s + 1 |>
      | CommitRow, Numbered i =>
          s <| jobs := set_state Saved |> <| rows := rows s ++ [log_row (job_number job) i (job_createdAt job) (job_entry job)] |>
      | RejectRow, (Pending | Numbered _) => s <| jobs := set_state Failed |>
      | _, _ => s
      end
  | None => s
  end.

Definition state_of (s : Logs) (j : nat) : option JobState := job_state <$> jobs s !! j.

(** [Promise.all]: done when all are, failed as soon as one is. *)
Definition all_saved (s : Logs) (js : list nat) : Prop := Forall (fun j => state_of s j = Some Saved) js.
Definition one_failed (s : Logs) (js : list nat) : Prop := Exists (fun j => state_of s j = Some Failed) js.

Definition with_proxy (p : Z) (f : Proxy -> Proxy) (s : Logs) : Logs :=
  match proxy s with Some x => if proxy_id x =? p then s <| proxy := Some (f x) |> else s | None => s end.

Definition answers (X : Type) (e : lcall X) (s : Logs) : X -> Logs -> Prop :=
  match e in lcall X return X -> Logs -> Prop with
  | Do f => fun x s' => f s = (x, s')
  | Now => fun _ s' => s' = s
  | LogLater _ => fun _ s' => s' = s
  | Saving j m => fun _ s' => s' = save_move j m s
  | AllSaved js => fun r s' => s' = s /\ match r with Ok _ => all_saved s js | Throw _ => one_failed s js end
  | FindLogs from limit => fun r s' => s' = s /\ forall l, r = Ok l -> l = findLogsFromId from limit (rows s)
  | Fetch url logs => fun r s' =>
      match r with
      | Ok true => is_Some url /\ s' = s <| acknowledged := acknowledged s ++ logs |>
      | _ => s' = s
      end
  | UpdateLastSyncedLogId p i => fun r s' =>
      s' = with_proxy p (fun x => x <| lastSynced := i |>) s \/ (exists e, r = Throw e) /\ s' = s
  | UpdateWebhookUrl p u => fun r s' =>
      s' = with_proxy p (fun x => x <| logWebhookUrl := u |>) s \/ (exists e, r = Throw e) /\ s' = s
  | FindFirstProxy => fun r s' => s' = s /\ forall x, r = Ok x -> x = proxy s
  | FindProxyById p => fun r s' => s' = s /\ forall x y, r = Ok (Some x) -> proxy s = Some y -> x = y
  | FindProxyByKey k => fun r s' => s' = s
  | Pause => fun _ s' => s' = s
  end.

Definition gets {X} (f : Logs -> X) : lcall X := Do (fun s => (f s, s)).
Definition modify (f : Logs -> Logs) : lcall unit := Do (fun s => (tt, f s)).

(** ** The queue *)

Definition BATCH_SIZE : nat := 100.

Definition add_job (job : Job) (s : Logs) : nat * Logs := (length (jobs s), s <| jobs := jobs s ++ [job] |>).

(** [save] of each entry, up to its first await. *)
Fixpoint start_saving (batch : list (option nat * LogEntry)) : prog lcall (list nat) :=
  match batch with
  | [] => Ret []
  | (n, e) :: batch =>
      call! t := Now in
      call! j := Do (add_job {| job_number := n; job_entry := e; job_createdAt := t / 1000; job_state := Pending |}) in
      bind! js := start_saving batch in
      Ret (j :: js)
  end.

Definition flush : prog lcall unit :=
  call! batch := Do (fun s => (logQueue s, s <| logQueue := [] |>)) in
  match batch with
  | [] => Ret tt
  | _ =>
      bind! js := start_saving batch in
      call! r := AllSaved js in
      match r with
      | Ok _ => Ret tt
      | Throw _ => modify (fun s => s <| logQueue := batch ++ logQueue s |>) !; Ret tt
      end
  end.

(** Entries the queue accepts are numbered as they come. *)
Definition enqueue (entry : LogEntry) : prog lcall unit :=
  call! down := gets isShuttingDown in
  if down then
    bind! js := start_saving [(None, entry)] in
    AllSaved js !;
    Ret tt
  else
    modify (fun s => s <| logQueue := logQueue s ++ [(Some (length (accepted s)), entry)] |> <| accepted := accepted s ++ [entry] |>) !;
    call! n := gets (fun s => length (logQueue s)) in
    if (BATCH_SIZE <=? n)%nat then flush else Ret tt.

(** [stack]: the stack when the entry is logged. *)
Definition redacted_entry (stack : Stack) (entry : LogEntry) : LogEntry :=
  entry <| requestParams := redactStructuredField stack (requestParams entry) |>
        <| responseResult := redactStructuredField stack (responseResult entry) |>
        <| le_error := redactError stack <$> le_error entry |>.

Definition enqueueLog (stack : Stack) (entry : LogEntry) : prog lcall unit := enqueue (redacted_entry stack entry).

(** The interval of [startFlushTimer]. *)
Definition flush_tick : prog lcall unit :=
  call! on := gets flushTimer in if on then flush else Ret tt.

(** [LogService.shutdown] *)
Definition service_shutdown : prog lcall unit :=
  modify (fun s => s <| isShuttingDown := true |> <| flushTimer := false |>) !;
  flush.

(** ** The webhook *)

Definition SYNC_BATCH_SIZE : nat := 1000.
Definition RETRY_COUNT : nat := 1.
Definition ErrorInternal : Z := 4001.

Definition truthy_url (u : option string) : option string :=
  match u with Some u => if str_eqb u "" then None else Some u | None => None end.

(** The attempts from the [n]th last on. *)
Fixpoint send_attempts (n : nat) (logs : list Log) : prog lcall bool :=
  call! url := gets webhookUrl in
  call! response := Fetch url logs in
  match response, n with
  | Ok true, _ => Ret true
  | _, S n => Pause !; send_attempts n logs
  | _, O => Ret false
  end.

Definition sendLogsToWebhook (logs : list Log) : prog lcall bool :=
  call! url := gets (fun s => truthy_url (webhookUrl s)) in
  match url with
  | None => Ret false
  | Some _ => send_attempts RETRY_COUNT logs
  end.

Definition sync_error (e : string) : LogEntry := (empty_entry ErrorInternal) <| le_error := Some ("Failed to sync logs, error: " +:+ e) |>.

(** The [try] of [syncLogs]; an error is logged, not waited for. *)
Definition sync_body : prog lcall unit :=
  call! last := gets lastSyncedLogId in
  call! found := FindLogs (last + 1) SYNC_BATCH_SIZE in
  match found with
  | Throw e => LogLater (sync_error e) !; Ret tt
  | Ok [] => modify (fun s => s <| isSyncing := false |>) !; Ret tt
  | Ok (l :: logs) =>
      bind! success := sendLogsToWebhook (l :: logs) in
      if success : bool then
        let lastLogId := id (List.last logs l) in
        call! p := gets proxyId in
        call! r := UpdateLastSyncedLogId (default 0 p) lastLogId in
        match r with
        | Ok _ => modify (fun s => s <| lastSyncedLogId := lastLogId |>) !; Ret tt
        | Throw e => LogLater (sync_error e) !; Ret tt
        end
      else Ret tt
  end.

Definition is_truthy_id (p : option Z) : bool := match p with Some p => negb (p =? 0) | None => false end.

Definition syncLogs : prog lcall unit :=
  call! go := Do (fun s =>
    if syncShuttingDown s || isSyncing s || negb (bool_decide (is_Some (truthy_url (webhookUrl s)))) || negb (is_truthy_id (proxyId s))
    then (false, s)
    else (true, s <| isSyncing := true |>)) in
  if go : bool then
    bind! _ := sync_body in
    modify (fun s => s <| isSyncing := false |>) !;
    Ret tt
  else Ret tt.

(** The interval of [startSyncTimer]. *)
Definition sync_tick : prog lcall unit :=
  call! on := gets syncTimer in if on then syncLogs else Ret tt.

Definition startSyncTimer (s : Logs) : Logs :=
  match truthy_url (webhookUrl s) with Some _ => s <| syncTimer := true |> | None => s end.
Definition stopSyncTimer (s : Logs) : Logs := s <| syncTimer := false |>.

(** [LogSyncService.initialize] *)
Definition initialize : prog lcall unit :=
  call! r := FindFirstProxy in
  match r with
  | Ok (Some p) =>
      modify (fun s => startSyncTimer (s <| proxyId := Some (proxy_id p) |> <| webhookUrl := logWebhookUrl p |> <| lastSyncedLogId := lastSynced p |>)) !;
      Ret tt
  | _ => Ret tt
  end.

(** What follows from the new address of the webhook. *)
Definition set_webhook (newWebhookUrl : option string) (s : Logs) : Logs :=
  let hadWebhook := bool_decide (is_Some (truthy_url (webhookUrl s))) in
  let hasWebhook := bool_decide (is_Some (truthy_url newWebhookUrl)) in
  let s := s <| webhookUrl := newWebhookUrl |> in
  if negb hadWebhook && hasWebhook then startSyncTimer s
  else if hadWebhook && negb hasWebhook then stopSyncTimer s
  else s.

Definition reload_from (p : Z) : prog lcall unit :=
  call! r := FindProxyById p in
  match r with
  | Ok (Some x) => modify (set_webhook (logWebhookUrl x)) !; Ret tt
  | _ => Ret tt
  end.

Definition reloadWebhookUrl : prog lcall unit :=
  call! p := gets proxyId in
  if is_truthy_id p then reload_from (default 0 p)
  else
    call! r := FindFirstProxy in
    match r with
    | Ok (Some x) => modify (fun s => s <| proxyId := Some (proxy_id x) |>) !; reload_from (proxy_id x)
    | _ => Ret tt
    end.

(** [LogSyncService.shutdown]; its time limit only ends the waiting. *)
Definition sync_shutdown : prog lcall unit :=
  modify (fun s => stopSyncTimer (s <| syncShuttingDown := true |>)) !;
  syncLogs.

(** ** Administrators *)

Definition refuse {A} (m : string) (c : AdminErrorCode) : result AdminError A := Throw {| admin_message := m; admin_code := c |}.

(** The protocol of an address, if it is one. *)
Definition url_protocol := string -> option string.

(** What the handler checks of a request before it looks for the proxy; its
    own refusal of other protocols is caught like a malformed address. *)
Definition webhook_request (protocol_of : url_protocol) (proxyKey webhookUrl : json) : result AdminError (string * option string) :=
  match proxyKey with
  | JStr key =>
      if str_eqb key "" then refuse "proxyKey is required" INVALID_REQUEST else
      match webhookUrl with
      | JUndefined | JNull => Ok (key, None)
      | JStr u =>
          if str_eqb u "" then Ok (key, None)
          else match protocol_of u with
               | Some p => if str_eqb p "http:" || str_eqb p "https:" then Ok (key, Some u) else refuse "Invalid webhookUrl format" INVALID_REQUEST
               | None => refuse "Invalid webhookUrl format" INVALID_REQUEST
               end
      | _ => refuse "webhookUrl must be a string or null" INVALID_REQUEST
      end
  | _ => refuse "proxyKey is required" INVALID_REQUEST
  end.

(** [handleSetLogWebhookUrl]; [None]: the database failed. *)
Definition handleSetLogWebhookUrl (protocol_of : url_protocol) (proxyKey webhookUrl : json) : prog lcall (option (result AdminError (Z * option string))) :=
  match webhook_request protocol_of proxyKey webhookUrl with
  | Throw e => Ret (Some (Throw e))
  | Ok (key, url) =>
      call! r := FindProxyByKey key in
      match r with
      | Throw _ => Ret None
      | Ok None => Ret (Some (refuse ("Proxy not found with proxyKey: " +:+ key) PROXY_NOT_FOUND))
      | Ok (Some p) =>
          call! r := UpdateWebhookUrl (proxy_id p) url in
          match r with
          | Throw _ => Ret None
          | Ok _ => bind! _ := reloadWebhookUrl in Ret (Some (Ok (proxy_id p, url)))
          end
      end
  end.

(** [parsePositiveInt] *)
Definition parsePositiveInt (value : json) (defaultValue : Z) : Z :=
  let checked n := match n with Some n => if n <? 0 then defaultValue else n | None => defaultValue end in
  match value with
  | JUndefined | JNull => defaultValue
  | JNum n => checked (Some n)
  | v => checked (parseInt10 (js_String v))
  end.

(** The answer to [handleGetLogs]: the rows, the first number, the limit. *)
Definition handleGetLogs (i limit : json) (rows : list Log) : list Log * Z * Z :=
  let startId := parsePositiveInt i 0 in
  let requestedLimit := Z.min (parsePositiveInt limit 1000) 5000 in
  let effectiveStartId := if startId =? 0 then 1 else startId in
  (findLogsFromId effectiveStartId (Z.to_nat requestedLimit) rows, effectiveStartId, requestedLimit).
