(* ===== verification/LogsSafety.v ===== *)
(** * Logs are kept and sent

    However the methods interleave and the database and the webhook answer:
    no entry the queue has accepted gets lost, and the rows up to the last
    synchronised one have been acknowledged by the webhook, but for rows that
    were committed late. *)
From Stdlib Require Import ZArith Lia.
From stdpp Require Import base strings list.
From coqutil Require Import Datatypes.RecordSetters.
From S2P Require Import Prelude Json JsMap Effects Monitor Redaction AdminTypes Logs.
Open Scope Z_scope.

(** The methods as threads, the database's moves among them. *)
Inductive log_method : prog lcall unit -> Prop :=
| m_enqueue stack e : log_method (enqueueLog stack e)
| m_flush_tick : log_method flush_tick
| m_service_shutdown : log_method service_shutdown
| m_sync_tick : log_method sync_tick
| m_reload : log_method reloadWebhookUrl
| m_sync_shutdown : log_method sync_shutdown
| m_set_webhook f k u : log_method (bind! _ := handleSetLogWebhookUrl f k u in Ret tt)
| m_saving j m : log_method (Saving j m !; Ret tt).

(** ** No entry gets lost *)

(** What a flush holds while it waits: its batch and the jobs that save it. *)
Definition held : Type := list (option nat * LogEntry) * list nat.

Definition saves (s : Logs) (b : option nat * LogEntry) (j : nat) : Prop :=
  exists job, jobs s !! j = Some job /\ job_number job = fst b /\ job_entry job = snd b.

Definition in_table (s : Logs) (b : option nat * LogEntry) : Prop := exists i t, log_row (fst b) i t (snd b) ∈ rows s.

Record kept (s : Logs) (gs : list held) : Prop := {
  saved_in_table : forall j job, jobs s !! j = Some job -> job_state job = Saved -> in_table s (job_number job, job_entry job);
  held_saved : forall b js, (b, js) ∈ gs -> Forall2 (saves s) b js;
  accepted_somewhere : forall n e, accepted s !! n = Some e ->
    (Some n, e) ∈ logQueue s \/ in_table s (Some n, e) \/ exists b js, (b, js) ∈ gs /\ (Some n, e) ∈ b
}.

Lemma kept_perm s gs gs' : gs ≡ₚ gs' -> kept s gs -> kept s gs'.
Proof.
  intros E [H1 H2 H3]. split; [done|intros b js; rewrite <- E; apply H2|]. intros n e Hn.
  destruct (H3 n e Hn) as [?|[?|(b & js & Hb & ?)]]; [by left|by right; left|]. right. right. exists b, js. by rewrite <- E.
Qed.

(** The state the queue is about is the same. *)
Definition same_queue (s s' : Logs) : Prop :=
  logQueue s' = logQueue s /\ jobs s' = jobs s /\ rows s' = rows s /\ accepted s' = accepted s.

Lemma kept_same s s' gs : same_queue s s' -> kept s gs -> kept s' gs.
Proof.
  intros (E1 & E2 & E3 & E4) [H1 H2 H3]. unfold in_table in *. split; unfold in_table.
  - intros j job. rewrite E2, E3. apply H1.
  - intros b js Hb. eapply Forall2_impl; [by apply H2|]. intros x j (job & Hj). exists job. by rewrite E2.
  - intros n e. rewrite E1, E3, E4. apply H3.
Qed.

Lemma kept_none s gs : kept s (([], []) :: gs) <-> kept s gs.
Proof.
  split; intros [H1 H2 H3]; split; try done.
  - intros b js Hb. apply H2. by right.
  - intros n e Hn. destruct (H3 n e Hn) as [?|[?|(b & js & [[= -> ->]|Hb]%elem_of_cons & Hin)]]; [by left|by right; left|by apply elem_of_nil in Hin|].
    right. right. by exists b, js.
  - intros b js [[= -> ->]|Hb]%elem_of_cons; [constructor|by apply H2].
  - intros n e Hn. destruct (H3 n e Hn) as [?|[?|(b & js & Hb & Hin)]]; [by left|by right; left|].
    right. right. exists b, js. split; [by right|done].
Qed.

(** *** Saving *)

(** [s'] is [s] with new jobs for the batch. *)
Definition started (batch : list (option nat * LogEntry)) (js : list nat) (s s' : Logs) : Prop :=
  exists l, jobs s' = jobs s ++ l /\ Forall (fun j => job_state j = Pending) l /\ Forall2 (saves s') batch js
    /\ logQueue s' = logQueue s /\ rows s' = rows s /\ accepted s' = accepted s.

Lemma saves_app s s' l b j : jobs s' = jobs s ++ l -> saves s b j -> saves s' b j.
Proof. intros E (job & Hj & H). exists job. split; [|done]. rewrite E. by apply lookup_app_l_Some. Qed.

Lemma keeps_start_saving J batch s gs (Q : list nat -> Logs -> list held -> Prop) :
  (forall js s', started batch js s s' -> Q js s' gs) -> keeps atomic answers J (start_saving batch) s gs Q.
Proof.
  revert s Q. induction batch as [|[n e] batch IH]; intros s Q HQ; cbn [start_saving keeps].
  - apply HQ. exists []. rewrite app_nil_r. split_and! ; try done; constructor.
  - cbn [atomic]. intros t s1 ->. cbn [keeps atomic answers]. set (job := {| job_number := n |}).
    intros j s2 Hj. assert (E2 : j = length (jobs s) /\ s2 = snd (add_job job s)) by (by injection Hj as <- <-).
    destruct E2 as [-> ->]. apply keeps_bind, IH. intros js s3 (l & E & Hp & Hs & E1 & E2 & E3). cbn [keeps]. apply HQ.
    exists (job :: l). change (jobs (snd (add_job job s))) with (jobs s ++ [job]) in E.
    rewrite <- app_assoc in E. split_and! ; [done|by constructor| |done|done|done]. constructor; [|done].
    exists job. rewrite E. split; [by apply list_lookup_middle|done].
Qed.

(** What was taken off the queue is held. *)
Lemma kept_started s q s' gs batch js :
  kept s gs -> (forall x, x ∈ logQueue s -> x ∈ batch \/ x ∈ q) -> started batch js (s <| logQueue := q |>) s' ->
  kept s' ((batch, js) :: gs).
Proof.
  intros [H1 H2 H3] Hq (l & E & Hp & Hs & E1 & E2 & E3).
  change (jobs s' = jobs s ++ l) in E. change (logQueue s' = q) in E1. change (rows s' = rows s) in E2. change (accepted s' = accepted s) in E3.
  unfold in_table in *. split; unfold in_table.
  - intros j job Hj Hst. rewrite E in Hj. apply lookup_app_Some in Hj as [Hj|[_ Hj]]; [rewrite E2; by apply (H1 j)|].
    apply list_elem_of_lookup_2 in Hj. rewrite Forall_forall in Hp. rewrite (Hp _ Hj) in Hst. done.
  - intros b k [[= -> ->]|Hb]%elem_of_cons; [done|]. eapply Forall2_impl; [by apply H2|]. intros x j. by eapply saves_app.
  - intros n e Hn. rewrite E1, E2. rewrite E3 in Hn. destruct (H3 n e Hn) as [Hin|[?|(b & k & Hb & ?)]].
    + destruct (Hq _ Hin) as [?|?]; [|by left]. right. right. exists batch, js. split; [by left|done].
    + by right; left.
    + right. right. exists b, k. split; [by right|done].
Qed.

(** All of a batch saved: it is in the table. *)
Lemma all_saved_in_table s gs batch js : kept s ((batch, js) :: gs) -> all_saved s js -> forall b, b ∈ batch -> in_table s b.
Proof.
  intros [H1 H2 _] Ha b Hb. pose proof (H2 batch js ltac:(by left)) as Hs.
  apply list_elem_of_lookup in Hb as [i Hi]. destruct (Forall2_lookup_l _ _ _ _ _ Hs Hi) as (j & Hj & job & Hjob & En & Ee).
  unfold all_saved in Ha. rewrite Forall_lookup in Ha. specialize (Ha i j Hj). unfold state_of in Ha. rewrite Hjob in Ha. cbn in Ha.
  injection Ha as Ha. specialize (H1 j job Hjob Ha). rewrite En, Ee in H1. by destruct b.
Qed.

Lemma kept_flushed s gs batch js : kept s ((batch, js) :: gs) -> all_saved s js -> kept s gs.
Proof.
  intros H Ha. pose proof (all_saved_in_table _ _ _ _ H Ha) as Ht. destruct H as [H1 H2 H3]. split; [done| |].
  - intros b k Hb. apply H2. by right.
  - intros n e Hn. destruct (H3 n e Hn) as [?|[?|(b & k & [[= -> ->]|Hb]%elem_of_cons & Hin)]]; [by left|by right; left| |].
    + right. left. by apply Ht.
    + right. right. by exists b, k.
Qed.

Lemma kept_requeued s gs batch js : kept s ((batch, js) :: gs) -> kept (s <| logQueue := batch ++ logQueue s |>) gs.
Proof.
  intros [H1 H2 H3]. split; [done|intros b k Hb; apply (H2 b k); by right|]. intros n e Hn.
  change (logQueue (s <| logQueue := batch ++ logQueue s |>)) with (batch ++ logQueue s).
  destruct (H3 n e Hn) as [?|[?|(b & k & [[= -> ->]|Hb]%elem_of_cons & Hin)]].
  - left. apply elem_of_app. by right.
  - by right; left.
  - left. apply elem_of_app. by left.
  - right. right. by exists b, k.
Qed.

(** *** The database's moves *)

Definition restate (job : Job) (st : JobState) : Job :=
  {| job_number := job_number job; job_entry := job_entry job; job_createdAt := job_createdAt job; job_state := st |}.

Lemma saves_restate s s' j job st b i :
  jobs s !! j = Some job -> jobs s' = <[j := restate job st]> (jobs s) -> saves s b i -> saves s' b i.
Proof.
  intros Hj E (job' & Hi & H). destruct (decide (i = j)) as [->|Hne].
  - assert (job' = job) as -> by congruence. exists (restate job st). rewrite E. split; [|done].
    apply list_lookup_insert_eq. by eapply lookup_lt_Some.
  - exists job'. rewrite E, list_lookup_insert_ne by done. done.
Qed.

Lemma kept_restate s s' gs j job st new :
  kept s gs -> jobs s !! j = Some job -> jobs s' = <[j := restate job st]> (jobs s) -> rows s' = rows s ++ new ->
  logQueue s' = logQueue s -> accepted s' = accepted s -> (st = Saved -> in_table s' (job_number job, job_entry job)) -> kept s' gs.
Proof.
  intros [H1 H2 H3] Hj E Er Eq Ea Hst.
  assert (Ht : forall b, in_table s b -> in_table s' b).
  { intros b (i & t & Hb). exists i, t. rewrite Er. apply elem_of_app. by left. }
  split.
  - intros i job' Hi Hs. rewrite E in Hi. apply list_lookup_insert_Some in Hi as [(<- & <- & _)|[_ Hi]]; [by apply Hst|].
    apply Ht. by eapply H1.
  - intros b js Hb. eapply Forall2_impl; [by apply H2|]. intros x i. by eapply saves_restate.
  - intros n e Hn. rewrite Eq. rewrite Ea in Hn. destruct (H3 n e Hn) as [?|[?|?]]; [by left|right; left; by apply Ht|by right; right].
Qed.

Lemma kept_save_move s gs j m : kept s gs -> kept (save_move j m s) gs.
Proof.
  intros H. unfold save_move. destruct (jobs s !! j) as [job|] eqn:Hj; [|done].
  assert (Hsame : forall st s', jobs s' = <[j := restate job st]> (jobs s) -> rows s' = rows s -> logQueue s' = logQueue s ->
    accepted s' = accepted s -> st <> Saved -> kept s' gs).
  { intros st s' E Er Eq Ea Hs. by eapply kept_restate with (new := []); rewrite ?app_nil_r. }
  destruct m, (job_state job) eqn:Est; try done; [by eapply Hsame| |by eapply Hsame|by eapply Hsame].
  eapply kept_restate; [exact H|exact Hj|reflexivity|reflexivity|reflexivity|reflexivity|].
  intros _. unfold in_table. do 2 eexists. apply elem_of_app. right. by apply list_elem_of_singleton.
Qed.

(** *** The methods *)

Notation keeps_kept := (keeps atomic answers kept).


Lemma flush_kept s gs : kept s gs -> keeps_kept flush s gs (fun _ => kept).
Proof.
  intros H. unfold flush. cbn [keeps atomic answers]. intros batch s1 Hb.
  assert (E : batch = logQueue s /\ s1 = s <| logQueue := [] |>) by (by injection Hb as <- <-). destruct E as [-> ->]. clear Hb.
  destruct (logQueue s) as [|b0 batch] eqn:Eq.
  - cbn [keeps]. eapply kept_same; [|exact H]. split_and! ; by rewrite ?Eq.
  - apply keeps_bind, keeps_start_saving. intros js s' Hst. cbn [keeps atomic answers]. exists (b0 :: batch, js). split.
    + eapply kept_started; [exact H| |exact Hst]. intros x Hx. left. by rewrite <- Eq.
    + intros s1 gs1 r s2 H1 [-> Hr]. destruct r as [u|e]; cbn [keeps atomic answers modify].
      * by eapply kept_flushed.
      * intros u s2 Hu. assert (E : s2 = s1 <| logQueue := (b0 :: batch) ++ logQueue s1 |>) by (by injection Hu as _ <-). rewrite E.
        by eapply kept_requeued.
Qed.

Lemma enqueue_kept e s gs : kept s gs -> keeps_kept (enqueue e) s gs (fun _ => kept).
Proof.
  intros H. unfold enqueue. cbn [keeps atomic answers gets]. intros down s1 [= _ <-]. destruct down.
  - apply keeps_bind, keeps_start_saving. intros js s' Hst. cbn [keeps atomic answers].
    exists ([(None, e)], js). split.
    + apply kept_started with (s := s) (q := logQueue s); [done|by right|exact Hst].
    + intros s1 gs1 r s2 [H1 H2 H3] [-> Hr]. cbn [keeps]. split; [done|intros b k Hb; apply H2; by right|].
      intros n x Hn. destruct (H3 n x Hn) as [?|[?|(b & k & [[= -> ->]|Hb]%elem_of_cons & Hin)]]; [by left|by right; left| |].
      * apply list_elem_of_singleton in Hin. done.
      * right. right. by exists b, k.
  - cbn [keeps atomic answers modify]. intros u s2 Hu.
    assert (E : s2 = s <| logQueue := logQueue s ++ [(Some (length (accepted s)), e)] |> <| accepted := accepted s ++ [e] |>) by (by injection Hu as _ <-).
    assert (H' : kept s2 gs).
    { assert (EA : accepted s2 = accepted s ++ [e]) by (rewrite E; reflexivity).
      assert (EQ : logQueue s2 = logQueue s ++ [(Some (length (accepted s)), e)]) by (rewrite E; reflexivity).
      destruct H as [H1 H2 H3]. split; [rewrite E; exact H1|rewrite E; exact H2|]. intros n x Hn. rewrite EA in Hn. rewrite EQ.
      assert (ET : forall b, in_table s b -> in_table s2 b) by (rewrite E; done).
      apply lookup_app_Some in Hn as [Hn|[Hl Hn]].
      - destruct (H3 n x Hn) as [?|[?|?]]; [left; apply elem_of_app; by left|right; left; by apply ET|by right; right].
      - apply list_lookup_singleton_Some in Hn as [Hn <-]. left. apply elem_of_app. right. apply list_elem_of_singleton.
        do 2 f_equal. lia. }
    clear E Hu. cbn [keeps atomic answers gets]. intros n s3 [= _ <-]. destruct (BATCH_SIZE <=? n)%nat; [by apply flush_kept|done].
Qed.

(** The rest leaves the queue alone. *)
Notation quietly := (every (within answers same_queue)).

Lemma same_queue_refl s : same_queue s s.
Proof. by split_and!. Qed.

Lemma with_proxy_same p f s : same_queue s (with_proxy p f s).
Proof. unfold with_proxy. destruct (proxy s) as [x|]; [|done]. by destruct (_ =? _). Qed.

Lemma quiet_call X (e : lcall X) :
  match e with Do _ | Saving _ _ => False | _ => True end -> within answers same_queue X e.
Proof.
  destruct e; try done; intros _ s r s' Ha; cbn in Ha; subst; try apply same_queue_refl.
  - by destruct Ha as [-> _].
  - by destruct Ha as [-> _].
  - destruct r as [[]|]; [by destruct Ha as [_ ->]|by subst..].
  - destruct Ha as [->|[_ ->]]; [apply with_proxy_same|done].
  - destruct Ha as [->|[_ ->]]; [apply with_proxy_same|done].
  - by destruct Ha as [-> _].
  - by destruct Ha as [-> _].
Qed.

Lemma same_gets {X} (f : Logs -> X) : within answers same_queue X (gets f).
Proof. intros s r s' [= _ <-]. apply same_queue_refl. Qed.

Lemma same_modify (f : Logs -> Logs) : (forall s, same_queue s (f s)) -> within answers same_queue unit (modify f).
Proof. intros H s r s' [= _ <-]. apply H. Qed.

Ltac quiet_step :=
  first [ done
        | apply every_call; [first [by apply quiet_call | apply same_gets]|intros ?] ].

Lemma quiet_send n logs : quietly (send_attempts n logs).
Proof.
  induction n as [|n IH]; cbn [send_attempts]; quiet_step; (apply every_call; [by apply quiet_call|]); intros [[]|e]; try done;
    (apply every_call; [by apply quiet_call|done]).
Qed.

Lemma quiet_sendLogs logs : quietly (sendLogsToWebhook logs).
Proof. unfold sendLogsToWebhook. quiet_step. case_match; [apply quiet_send|done]. Qed.

Lemma quiet_set (f : Logs -> Logs) {A} (k : prog lcall A) : (forall s, same_queue s (f s)) -> quietly k -> quietly (modify f !; k).
Proof. intros Hf Hk. apply every_call; [by apply same_modify|done]. Qed.

Lemma quiet_sync_body : quietly sync_body.
Proof.
  unfold sync_body. do 2 quiet_step. case_match; [|quiet_step; done]. case_match; [by apply quiet_set|].
  apply every_bind; [apply quiet_sendLogs|]. intros success. destruct success; [|done]. cbv zeta. do 2 quiet_step.
  case_match; [by apply quiet_set|by quiet_step].
Qed.

Lemma quiet_syncLogs : quietly syncLogs.
Proof.
  unfold syncLogs. apply every_call.
  - intros s x s' Ha. cbn in Ha. destruct (_ || _); by injection Ha as <- <-.
  - intros go. destruct go; [|done]. apply every_bind; [apply quiet_sync_body|]. intros _. by apply quiet_set.
Qed.

Lemma set_webhook_same u s : same_queue s (set_webhook u s).
Proof.
  unfold set_webhook, startSyncTimer, stopSyncTimer. cbv zeta. repeat case_match; by split_and!.
Qed.

Lemma quiet_reload_from p : quietly (reload_from p).
Proof. unfold reload_from. quiet_step. case_match; [|done]. case_match; [|done]. apply quiet_set; [apply set_webhook_same|done]. Qed.

Lemma quiet_reload : quietly reloadWebhookUrl.
Proof.
  unfold reloadWebhookUrl. quiet_step. case_match; [apply quiet_reload_from|]. quiet_step. case_match; [|done]. case_match; [|done].
  apply quiet_set; [done|apply quiet_reload_from].
Qed.

Lemma quiet_set_webhook f k u : quietly (bind! _ := handleSetLogWebhookUrl f k u in Ret tt).
Proof.
  apply every_bind; [|done]. unfold handleSetLogWebhookUrl. case_match; [|done]. destruct_and?. case_match. quiet_step. case_match; [|done].
  case_match; [|done]. quiet_step. case_match; [|done]. apply every_bind; [apply quiet_reload|done].
Qed.

Lemma quietly_kept {A} (p : prog lcall A) s gs : quietly p -> kept s gs -> keeps_kept p s gs (fun _ => kept).
Proof.
  intros Hq H. eapply keeps_mono; [eapply every_keeps with (g := ([], []))|].
  - intros s1 s2 g. apply kept_same.
  - exact Hq.
  - by apply kept_none.
  - intros a s' gs' H'. apply kept_none. exact H'.
Qed.

Lemma log_methods_kept p : log_method p -> method_ok atomic answers kept p.
Proof.
  intros Hm s gs H. destruct Hm.
  - by apply enqueue_kept.
  - unfold flush_tick. cbn [keeps atomic answers gets]. intros on s1 [= _ <-]. destruct on; [by apply flush_kept|done].
  - unfold service_shutdown. cbn [keeps atomic answers modify]. intros u s1 Hu. apply flush_kept.
    eapply kept_same; [|exact H]. injection Hu as _ <-. by split_and!.
  - apply quietly_kept; [|done]. unfold sync_tick. quiet_step. case_match; [apply quiet_syncLogs|done].
  - apply quietly_kept; [apply quiet_reload|done].
  - apply quietly_kept; [|done]. unfold sync_shutdown. apply quiet_set; [done|apply quiet_syncLogs].
  - apply quietly_kept; [apply quiet_set_webhook|done].
  - cbn [keeps atomic answers]. intros u s1 ->. by apply kept_save_move.
Qed.

(** C33: When no method is under way, every entry the queue has accepted is in the
    queue or in the table, whatever has failed and in whatever order things
    happened: an entry whose saving fails is back in the queue. *)
Theorem no_log_lost (s0 : Logs) (pool : list (prog lcall unit)) (s : Logs) :
  accepted s0 = [] -> jobs s0 = [] ->
  reachable atomic answers log_method s0 (pool, s) -> Forall (fun p => p = Ret tt) pool ->
  forall n e, accepted s !! n = Some e -> (Some n, e) ∈ logQueue s \/ exists i t, log_row (Some n) i t e ∈ rows s.
Proof.
  intros Ha Hj Hr Hpool n e Hn.
  destruct (reachable_invariant atomic answers kept kept_perm log_method s0 (pool, s)) as (gss & Hp & H); [exact log_methods_kept| |exact Hr|].
  - split; [by rewrite Hj|by intros ? ? ?%elem_of_nil|by rewrite Ha].
  - assert (Hg : concat gss = []).
    { clear -Hp Hpool. cbn in Hp. induction Hp as [|p gs pool gss Hpk _ IH]; [done|]. apply Forall_cons in Hpool as [-> Hpool].
      cbn in Hpk |- *. rewrite Hpk. by apply IH. }
    cbn in H. rewrite Hg in H. destruct H as [_ _ H3]. destruct (H3 n e Hn) as [?|[?|(b & js & Hin & _)]]; [by left|by right|].
    by apply elem_of_nil in Hin.
Qed.
