(* ===== verification/LogsSync.v ===== *)
(** * What the webhook has got

    One synchronisation at a time, and what the number of the last
    synchronised row means. *)
From Stdlib Require Import ZArith Lia Sorted.
From stdpp Require Import base strings list sorting.
From coqutil Require Import Datatypes.RecordSetters.
From S2P Require Import Prelude Json JsMap Effects Monitor AdminTypes Redaction Logs LogsSafety.
Open Scope Z_scope.

(** ** Numbers of rows *)

Definition numbered (job : Job) : option Z := match job_state job with Numbered i => Some i | _ => None end.

Definition numbers (s : Logs) : list Z := map id (rows s) ++ omap numbered (jobs s).

Definition unique (s : Logs) : Prop := NoDup (numbers s) /\ Forall (fun i => i < next_id s) (numbers s).

(** What everything but a synchronisation does: rows and acknowledgements
    come, numbers stay unique. *)
Definition grows (s s' : Logs) : Prop :=
  (exists l, rows s' = rows s ++ l) /\ (exists l, acknowledged s' = acknowledged s ++ l)
  /\ lastSyncedLogId s' = lastSyncedLogId s /\ isSyncing s' = isSyncing s /\ (unique s -> unique s').

Lemma same_numbers s s' : numbers s' = numbers s -> next_id s' = next_id s -> unique s -> unique s'.
Proof. unfold unique. by intros -> ->. Qed.

Lemma grows_same s s' :
  rows s' = rows s -> acknowledged s' = acknowledged s -> lastSyncedLogId s' = lastSyncedLogId s -> isSyncing s' = isSyncing s ->
  omap numbered (jobs s') = omap numbered (jobs s) -> next_id s' = next_id s -> grows s s'.
Proof.
  intros E1 E2 E3 E4 E5 E6. split_and! ; [exists []; by rewrite app_nil_r|exists []; by rewrite app_nil_r|done|done|].
  apply same_numbers; [|done]. unfold numbers. by rewrite E1, E5.
Qed.

Lemma grows_refl s : grows s s.
Proof. by apply grows_same. Qed.

Lemma omap_app {A B} (f : A -> option B) (l k : list A) : omap f (l ++ k) = omap f l ++ omap f k.
Proof. induction l as [|a l IH]; [done|]. cbn. destruct (f a); cbn; by rewrite IH. Qed.

Lemma omap_insert (s : Logs) j job st :
  jobs s !! j = Some job ->
  exists l k, omap numbered (jobs s) = l ++ option_list (numbered job) ++ k
    /\ omap numbered (<[j := restate job st]> (jobs s)) = l ++ option_list (numbered (restate job st)) ++ k.
Proof.
  intros Hj. exists (omap numbered (take j (jobs s))), (omap numbered (drop (S j) (jobs s))).
  pose proof (lookup_lt_Some _ _ _ Hj) as Hl. rewrite insert_take_drop by done. split.
  - rewrite <- (take_drop_middle (jobs s) j job Hj) at 1. rewrite omap_app. cbn. by destruct (numbered job).
  - rewrite omap_app. cbn. by destruct (numbered (restate job st)).
Qed.

Lemma numbered_state job : numbered job = match job_state job with Numbered i => Some i | _ => None end.
Proof. done. Qed.

Lemma unique_save_move j m s : unique s -> unique (save_move j m s).
Proof.
  intros Hu. unfold save_move. destruct (jobs s !! j) as [job|] eqn:Hj; [|done].
  destruct m, (job_state job) eqn:Est; try done; destruct Hu as [Hnd Hlt];
    match goal with |- unique (?x) => set (s' := x) end.
  - destruct (omap_insert s j job (Numbered (next_id s)) Hj) as (l & k & E1 & E2). rewrite (numbered_state job), Est in E1. rewrite numbered_state in E2. cbn in E1, E2.
    assert (E : numbers s' ≡ₚ next_id s :: numbers s).
    { change (numbers s') with (map id (rows s) ++ omap numbered (<[j := restate job (Numbered (next_id s))]> (jobs s))).
      unfold numbers. rewrite E2, E1, !app_assoc. symmetry. apply Permutation_middle. }
    split.
    + rewrite E. constructor; [|done]. intros Hin. rewrite Forall_forall in Hlt. specialize (Hlt _ Hin). lia.
    + change (next_id s') with (next_id s + 1). rewrite E. constructor; [lia|]. eapply Forall_impl; [exact Hlt|]. cbn. lia.
  - destruct (omap_insert s j job Saved Hj) as (l & k & E1 & E2). rewrite (numbered_state job), Est in E1. rewrite numbered_state in E2. cbn in E1, E2.
    assert (E : numbers s' ≡ₚ numbers s).
    { change (numbers s') with (map id (rows s ++ [log_row (job_number job) i (job_createdAt job) (job_entry job)])
                                ++ omap numbered (<[j := restate job Saved]> (jobs s))).
      unfold numbers. rewrite E2, E1, map_app, <- app_assoc. cbn. apply Permutation_app_head. by rewrite Permutation_middle. }
    split; [by rewrite E|]. change (next_id s') with (next_id s). by rewrite E.
  - destruct (omap_insert s j job Failed Hj) as (l & k & E1 & E2). rewrite (numbered_state job), Est in E1. rewrite numbered_state in E2. cbn in E1, E2.
    assert (E : numbers s' = numbers s).
    { change (numbers s') with (map id (rows s) ++ omap numbered (<[j := restate job Failed]> (jobs s))). unfold numbers. by rewrite E2, E1. }
    split; [by rewrite E|]. change (next_id s') with (next_id s). by rewrite E.
  - destruct (omap_insert s j job Failed Hj) as (l & k & E1 & E2). rewrite (numbered_state job), Est in E1. rewrite numbered_state in E2. cbn in E1, E2.
    assert (E : exists a b, numbers s = a ++ i :: b /\ numbers s' = a ++ b).
    { change (numbers s') with (map id (rows s) ++ omap numbered (<[j := restate job Failed]> (jobs s))).
      exists (map id (rows s) ++ l), k. unfold numbers. by rewrite E2, E1, <- !app_assoc. }
    destruct E as (a & b & Ea & Eb). rewrite Ea in Hnd, Hlt. split.
    + rewrite Eb. apply NoDup_app in Hnd as (H1 & H2 & H3). apply NoDup_cons in H3 as [_ H3].
      apply NoDup_app. split_and! ; [done| |done]. intros x Hx Hx'. apply (H2 x Hx). by right.
    + change (next_id s') with (next_id s). rewrite Eb. apply Forall_app in Hlt as [H1 H2]. apply Forall_cons in H2 as [_ H2]. by apply Forall_app.
Qed.

Lemma grows_save_move j m s : grows s (save_move j m s).
Proof.
  split_and! ; [| | | |by apply unique_save_move]; unfold save_move; destruct (jobs s !! j) as [job|]; try (exists []; by rewrite app_nil_r); try done;
    destruct m, (job_state job); try (exists []; by rewrite app_nil_r); try done.
  by eexists.
Qed.

(** ** What does not synchronise *)

Notation growing := (every (within answers grows)).

Lemma grows_gets {X} (f : Logs -> X) : within answers grows X (gets f).
Proof. intros s x s' [= _ <-]. apply grows_refl. Qed.

Lemma grows_modify (f : Logs -> Logs) : (forall s, grows s (f s)) -> within answers grows unit (modify f).
Proof. intros H s x s' [= _ <-]. apply H. Qed.

Lemma with_proxy_grows p f s : grows s (with_proxy p f s).
Proof. unfold with_proxy. destruct (proxy s) as [x|]; [|by apply grows_refl]. destruct (_ =? _); by apply grows_same. Qed.

Lemma grows_call X (e : lcall X) : match e with Do _ | Fetch _ _ => False | _ => True end -> within answers grows X e.
Proof.
  destruct e; try done; intros _ s r s' Ha; cbn in Ha; subst; try apply grows_refl.
  - apply grows_save_move.
  - destruct Ha as [-> _]. apply grows_refl.
  - destruct Ha as [-> _]. apply grows_refl.
  - destruct Ha as [->|[_ ->]]; [apply with_proxy_grows|apply grows_refl].
  - destruct Ha as [->|[_ ->]]; [apply with_proxy_grows|apply grows_refl].
  - destruct Ha as [-> _]. apply grows_refl.
  - destruct Ha as [-> _]. apply grows_refl.
Qed.

Ltac grow_step :=
  first [ done
        | apply every_call; [first [by apply grows_call | apply grows_gets]|intros ?] ].

Lemma grow_set (f : Logs -> Logs) {A} (k : prog lcall A) : (forall s, grows s (f s)) -> growing k -> growing (modify f !; k).
Proof. intros Hf Hk. apply every_call; [by apply grows_modify|done]. Qed.

Lemma grow_start_saving batch : growing (start_saving batch).
Proof.
  induction batch as [|[n e] batch IH]; [done|]. cbn [start_saving]. grow_step. apply every_call.
  - intros s j s' Ha. injection Ha as _ <-. apply grows_same; try reflexivity.
    match goal with |- omap _ ?l = _ => change l with (jobs s ++ [{| job_number := n; job_entry := e; job_createdAt := x / 1000; job_state := Pending |}]) end.
    rewrite omap_app. cbn. by rewrite app_nil_r.
  - intros j. by apply every_bind.
Qed.

Lemma grow_flush : growing flush.
Proof.
  unfold flush. apply every_call; [intros s b s' Ha; injection Ha as _ <-; by apply grows_same|]. intros batch. case_match; [done|].
  apply every_bind; [apply grow_start_saving|]. intros js. grow_step. case_match; [done|]. apply grow_set; [|done]. intros s. by apply grows_same.
Qed.

Lemma grow_enqueue e : growing (enqueue e).
Proof.
  unfold enqueue. grow_step. case_match.
  - apply every_bind; [apply grow_start_saving|]. intros js. by grow_step.
  - apply grow_set; [intros s; by apply grows_same|]. grow_step. case_match; [apply grow_flush|done].
Qed.

Lemma set_webhook_grows u s : grows s (set_webhook u s).
Proof. unfold set_webhook, startSyncTimer, stopSyncTimer. cbv zeta. repeat case_match; by apply grows_same. Qed.

Lemma grow_reload_from p : growing (reload_from p).
Proof. unfold reload_from. grow_step. case_match; [|done]. case_match; [|done]. apply grow_set; [apply set_webhook_grows|done]. Qed.

Lemma grow_reload : growing reloadWebhookUrl.
Proof.
  unfold reloadWebhookUrl. grow_step. case_match; [apply grow_reload_from|]. grow_step. case_match; [|done]. case_match; [|done].
  apply grow_set; [intros s; by apply grows_same|apply grow_reload_from].
Qed.

Lemma grow_set_webhook f k u : growing (bind! _ := handleSetLogWebhookUrl f k u in Ret tt).
Proof.
  apply every_bind; [|done]. unfold handleSetLogWebhookUrl. case_match; [|done]. case_match. grow_step. case_match; [|done].
  case_match; [|done]. grow_step. case_match; [|done]. apply every_bind; [apply grow_reload|done].
Qed.

(** ** The one synchronisation under way *)

(** What a thread holds: nothing, that it is synchronising, from which number
    on it has asked, the rows it is sending, or the rows it has sent. *)
Inductive phase : Type := Idle | Busy | Locked (last : Z) | Sending (l : Log) (logs : list Log) | Acked (l : Log) (logs : list Log).

Definition is_idle (g : phase) : bool := match g with Idle => true | _ => false end.
Definition busy (gs : list phase) : list phase := List.filter (fun g => negb (is_idle g)) gs.

Lemma busy_cons g gs : busy (g :: gs) = if is_idle g then busy gs else g :: busy gs.
Proof. by destruct g. Qed.

(** A row that was committed after a row with a greater number. *)
Definition late (before : list Log) (r : Log) : Prop := exists r', r' ∈ before /\ id r < id r'.

(** The rows with numbers in between are got or late. *)
Definition covered (s : Logs) (from to : Z) (got : list Log) : Prop :=
  forall l1 r l2, rows s = l1 ++ r :: l2 -> from < id r <= to -> r ∈ got \/ late l1 r.

Definition last_of (l : Log) (logs : list Log) : Log := List.last logs l.

Definition phase_ok (s : Logs) (g : phase) : Prop :=
  match g with
  | Idle | Busy => True
  | Locked last => lastSyncedLogId s = last
  | Sending l logs => last_of l logs ∈ rows s /\ covered s (lastSyncedLogId s) (id (last_of l logs)) (l :: logs)
  | Acked l logs => last_of l logs ∈ rows s /\ covered s (lastSyncedLogId s) (id (last_of l logs)) (l :: logs)
                    /\ forall r, r ∈ l :: logs -> r ∈ acknowledged s
  end.

Record synced (start : Z) (s : Logs) (gs : list phase) : Prop := {
  numbers_unique : unique s;
  one_busy : busy gs = [] \/ exists g, busy gs = [g] /\ isSyncing s = true;
  phases_ok : Forall (phase_ok s) gs;
  anchored : lastSyncedLogId s = start \/ exists r, r ∈ rows s /\ id r = lastSyncedLogId s;
  below : covered s start (lastSyncedLogId s) (acknowledged s)
}.

Lemma synced_perm start s gs gs' : gs ≡ₚ gs' -> synced start s gs -> synced start s gs'.
Proof.
  intros E [H1 H2 H3 H4 H5]. split; try done; [|by rewrite <- E].
  assert (Eb : busy gs ≡ₚ busy gs').
  { unfold busy. clear -E. induction E as [|x l k _ IH|x y l|? ? ? _ IH1 _ IH2]; cbn; [done| | |by rewrite IH1].
    - by destruct (negb _); rewrite IH.
    - destruct (negb (is_idle x)), (negb (is_idle y)); try done. apply Permutation_swap. }
  destruct H2 as [H2|(g & H2 & ?)]; rewrite H2 in Eb.
  - left. by apply Permutation_nil_l in Eb.
  - right. exists g. by apply Permutation_singleton_l in Eb.
Qed.

Lemma unique_id s r r' : unique s -> r ∈ rows s -> r' ∈ rows s -> id r = id r' -> r = r'.
Proof.
  intros [Hnd _] Hr Hr' E. unfold numbers in Hnd. apply NoDup_app in Hnd as [Hnd _].
  apply list_elem_of_lookup in Hr as [i Hi], Hr' as [j Hj].
  assert (i = j) as <-; [|congruence]. eapply (NoDup_lookup (map id (rows s))); [done|by rewrite list_lookup_fmap, Hi|].
  rewrite list_lookup_fmap, Hj. cbn. by rewrite E.
Qed.

Lemma split_app {A} (k l l1 l2 : list A) (x : A) :
  k ++ l = l1 ++ x :: l2 -> (exists r, k = l1 ++ x :: r) \/ forall y, y ∈ k -> y ∈ l1.
Proof.
  intros E. symmetry in E. apply app_eq_inv in E as [(r & -> & E)|(r & -> & E)].
  - right. intros y Hy. apply elem_of_app. by left.
  - destruct r as [|y r]; [right; intros y; by rewrite app_nil_r|]. injection E as <- ->. left. by exists r.
Qed.

Lemma unique_before s l1 r l2 r' : unique s -> rows s = l1 ++ r :: l2 -> r' ∈ l1 -> id r' <> id r.
Proof.
  intros [Hu _] E Hr Heq. unfold numbers in Hu. rewrite E, map_app, <- app_assoc in Hu. apply NoDup_app in Hu as (_ & Hu & _).
  apply (Hu (id r')); [by apply list_elem_of_fmap_2|]. rewrite Heq. by left.
Qed.

(** A new row with a number that was passed is late. *)
Lemma covered_grows s s' from to got got' :
  grows s s' -> unique s' -> (from = to \/ exists r, r ∈ rows s /\ id r = to) -> (forall r, r ∈ got -> r ∈ got') ->
  covered s from to got -> covered s' from to got'.
Proof.
  intros ((l & El) & _) Hu Ha Hgot Hc l1 r l2 E Hr. pose proof E as E'. rewrite El in E'.
  destruct (split_app _ _ _ _ _ E') as [[k Ek]|Hl].
  - destruct (Hc l1 r k Ek Hr) as [?|?]; [left; auto|by right].
  - right. destruct Ha as [->|(r' & Hr' & <-)]; [lia|]. exists r'. split; [by apply Hl|].
    pose proof (unique_before _ _ _ _ _ Hu E (Hl _ Hr')). lia.
Qed.

Lemma synced_grows start s s' gs : grows s s' -> synced start s gs -> synced start s' gs.
Proof.
  intros Hg [H1 H2 H3 H4 H5]. pose proof Hg as ((l & El) & (k & Ek) & E1 & E2 & Hu). specialize (Hu H1).
  assert (Hin : forall r, r ∈ rows s -> r ∈ rows s') by (intros r Hr; rewrite El; apply elem_of_app; by left).
  assert (Hack : forall r, r ∈ acknowledged s -> r ∈ acknowledged s') by (intros r Hr; rewrite Ek; apply elem_of_app; by left).
  split; [done|by rewrite E2| | |].
  - eapply Forall_impl; [exact H3|]. intros [| |last|m logs|m logs]; cbn; rewrite ?E1; try done.
    + intros [Hl Hc]. split; [auto|]. eapply covered_grows; [exact Hg|done| |by intros r|done]. right. eauto.
    + intros (Hl & Hc & Ha). split_and! ; [auto| |auto]. eapply covered_grows; [exact Hg|done| |by intros r|done]. right. eauto.
  - rewrite E1. destruct H4 as [?|(r & ? & ?)]; [by left|right; eauto].
  - rewrite E1. eapply covered_grows; [exact Hg|done| |exact Hack|done].
    destruct H4 as [->|?]; [by left|by right].
Qed.

(** *** What the steps of a synchronisation do *)

Lemma synced_idle start s gs : synced start s (Idle :: gs) <-> synced start s gs.
Proof.
  split; intros [H1 H2 H3 H4 H5]; split; try done; [by apply Forall_cons in H3 as [_ ?]|by constructor].
Qed.

(** The one busy thread comes to hold something else. *)
Lemma synced_step start s s' g g' gs :
  synced start s (g :: gs) -> is_idle g = false -> is_idle g' = false -> unique s' -> isSyncing s' = isSyncing s -> phase_ok s' g' ->
  (lastSyncedLogId s' = start \/ exists r, r ∈ rows s' /\ id r = lastSyncedLogId s') ->
  covered s' start (lastSyncedLogId s') (acknowledged s') -> synced start s' (g' :: gs).
Proof.
  intros [H1 H2 H3 H4 H5] Hg Hg' Hu Hs Hp Ha Hb.
  assert (E : busy gs = [] /\ isSyncing s = true).
  { rewrite busy_cons, Hg in H2. destruct H2 as [?|(? & E & ?)]; [done|]. by injection E as _ ->. }
  destruct E as [E E']. split; try done.
  - right. exists g'. by rewrite Hs, busy_cons, Hg', E.
  - constructor; [done|]. clear -E. induction gs as [|[] gs IH]; try done. constructor; [done|by apply IH].
Qed.

Lemma synced_busy start s g g' gs : synced start s (g :: gs) -> is_idle g = false -> is_idle g' = false -> phase_ok s g' -> synced start s (g' :: gs).
Proof. intros H Hg Hg' Hp. pose proof H as [H1 H2 H3 H4 H5]. by eapply synced_step. Qed.

Lemma synced_lock start s gs : synced start s gs -> isSyncing s = false -> synced start (s <| isSyncing := true |>) (Busy :: gs).
Proof.
  intros [H1 H2 H3 H4 H5] Hs. split; [exact H1| | |exact H4|exact H5].
  - right. exists Busy. split; [|reflexivity]. destruct H2 as [H2|(g & _ & ?)]; [|congruence]. by rewrite busy_cons, H2.
  - constructor; [done|]. eapply Forall_impl; [exact H3|]. by intros [].
Qed.

(** Nobody else is busy. *)
Definition free start s gs : Prop := synced start s gs /\ busy gs = [].

Lemma synced_free start s g gs : synced start s (g :: gs) -> is_idle g = false -> free start s gs.
Proof.
  intros [H1 H2 H3 H4 H5] Hg.
  assert (E : busy gs = []).
  { rewrite busy_cons, Hg in H2. destruct H2 as [?|(? & E & ?)]; [done|]. by injection E as _ ->. }
  split; [|done]. split; try done; [by left|by apply Forall_cons in H3 as [_ ?]].
Qed.

Lemma free_unlock start s gs : free start s gs -> free start (s <| isSyncing := false |>) gs.
Proof.
  intros [[H1 H2 H3 H4 H5] E]. split; [|done]. split; [exact H1|by left| |exact H4|exact H5].
  eapply Forall_impl; [exact H3|]. by intros [].
Qed.

Lemma last_of_cons l x logs : last_of l (x :: logs) = last_of x logs.
Proof.
  unfold last_of. revert l x. induction logs as [|y logs IH]; intros l x; [done|].
  change (List.last (y :: logs) l = List.last (y :: logs) x). by rewrite !IH.
Qed.

Lemma last_of_in l logs : last_of l logs ∈ l :: logs.
Proof. revert l. induction logs as [|x logs IH]; intros l; [by left|]. rewrite last_of_cons. right. apply IH. Qed.

(** What is found is all there is from the number on up to its last row. *)
Lemma find_covers s from limit l logs :
  unique s -> findLogsFromId from limit (rows s) = l :: logs ->
  last_of l logs ∈ rows s /\ forall r, r ∈ rows s -> from <= id r <= id (last_of l logs) -> r ∈ l :: logs.
Proof.
  unfold findLogsFromId. set (found := isort _ _). intros Hu E.
  assert (Hin : forall r, r ∈ found <-> r ∈ rows s /\ from <= id r).
  { intros r. unfold found. rewrite isort_perm, list_elem_of_In, filter_In, <- list_elem_of_In. by rewrite Z.leb_le. }
  assert (Hsort : StronglySorted (fun a b => (id a <=? id b) = true) found) by (apply isort_sorted; intros; lia).
  pose proof (last_of_in l logs) as Hl.
  assert (Hrow : last_of l logs ∈ rows s).
  { apply Hin. rewrite <- (take_drop limit found), E. apply elem_of_app. by left. }
  split; [done|]. intros r Hr Hb. assert (Hf : r ∈ found) by (apply Hin; split; [done|lia]).
  rewrite <- (take_drop limit found), E in Hf. apply elem_of_app in Hf as [?|Hf]; [done|].
  rewrite <- (take_drop limit found), E in Hsort. apply StronglySorted_app in Hsort as (Hsort & _ & _).
  specialize (Hsort _ _ Hl Hf). assert (r = last_of l logs) as ->; [|done]. apply (unique_id s); try done. lia.
Qed.

Lemma synced_find start s last limit l logs gs :
  synced start s (Locked last :: gs) -> findLogsFromId (last + 1) limit (rows s) = l :: logs -> synced start s (Sending l logs :: gs).
Proof.
  intros H E. pose proof H as [H1 _ H3 _ _]. apply Forall_cons in H3 as [Hp _]. cbn in Hp.
  destruct (find_covers _ _ _ _ _ H1 E) as [Hl Hc]. apply (synced_busy _ _ _ _ _ H); [done..|]. split; [done|].
  intros l1 r l2 Er Hr. left. apply Hc; [|lia]. rewrite Er. apply elem_of_app. right. by left.
Qed.

Lemma synced_ack start s l logs gs :
  synced start s (Sending l logs :: gs) -> synced start (s <| acknowledged := acknowledged s ++ l :: logs |>) (Acked l logs :: gs).
Proof.
  intros H. pose proof H as [H1 _ H3 H4 H5]. apply Forall_cons in H3 as [[Hl Hc] _]. apply (synced_step _ _ _ _ _ _ H); try done.
  - split_and! ; [done|done|]. intros r Hr. apply elem_of_app. by right.
  - intros l1 r l2 Er Hr. destruct (H5 l1 r l2 Er Hr) as [?|?]; [left; apply elem_of_app; by left|by right].
Qed.

Lemma synced_advance start s l logs gs :
  synced start s (Acked l logs :: gs) -> synced start (s <| lastSyncedLogId := id (last_of l logs) |>) (Busy :: gs).
Proof.
  intros H. pose proof H as [H1 _ H3 H4 H5]. apply Forall_cons in H3 as [(Hl & Hc & Ha) _]. apply (synced_step _ _ _ _ _ _ H); try done.
  - right. exists (last_of l logs). by split.
  - intros l1 r l2 Er Hr. change (start < id r <= id (last_of l logs)) in Hr. destruct (Z_le_gt_dec (id r) (lastSyncedLogId s)).
    + apply (H5 l1 r l2 Er). lia.
    + destruct (Hc l1 r l2 Er) as [?|?]; [lia|left; by apply Ha|by right].
Qed.

(** ** The synchronisation *)

Section Run.
Variable start : Z.

Notation keeps_synced := (keeps atomic answers (synced start)).

Lemma send_synced n l logs s gs (Q : bool -> Logs -> list phase -> Prop) :
  synced start s (Sending l logs :: gs) ->
  (forall s' gs', synced start s' (Acked l logs :: gs') -> Q true s' gs') ->
  (forall s' gs', synced start s' (Sending l logs :: gs') -> Q false s' gs') ->
  keeps_synced (send_attempts n (l :: logs)) s gs Q.
Proof.
  intros H Ht Hf. revert s gs H. induction n as [|n IH]; intros s gs H; cbn [send_attempts keeps atomic answers gets]; intros u s0 [= _ <-];
    exists (Sending l logs); (split; [done|]); intros s1 gs1 r s2 H1 Ha.
  - destruct r as [[]|e]; [|subst; by apply Hf..]. destruct Ha as [_ ->]. by apply Ht, synced_ack.
  - assert (Hpause : s2 = s1 -> keeps_synced (Pause !; send_attempts n (l :: logs)) s2 gs1 Q).
    { intros ->. cbn [keeps atomic answers]. exists (Sending l logs). split; [done|]. intros s3 gs3 r' s4 H3 ->. by apply IH. }
    destruct r as [[]|e]; [|by apply Hpause..]. destruct Ha as [_ ->]. by apply Ht, synced_ack.
Qed.

Lemma sync_body_synced s gs (Q : unit -> Logs -> list phase -> Prop) :
  synced start s (Busy :: gs) -> (forall s' gs', free start s' gs' -> Q tt s' gs') -> keeps_synced sync_body s gs Q.
Proof.
  intros H HQ. unfold sync_body. cbn [keeps atomic answers gets]. intros last s0 [= <- <-].
  exists (Locked (lastSyncedLogId s)). split; [by apply (synced_busy _ _ _ _ _ H)|]. intros s1 gs1 found s2 H1 [-> Hf].
  assert (HF : forall g s' gs', synced start s' (g :: gs') -> is_idle g = false -> Q tt s' gs') by (intros; by eapply HQ, synced_free).
  destruct found as [[|l logs]|e].
  - cbn [keeps atomic answers modify]. intros u s2 Hu. assert (E : s2 = s1 <| isSyncing := false |>) by (by injection Hu as _ <-). rewrite E.
    by eapply HQ, free_unlock, synced_free.
  - specialize (Hf _ eq_refl). apply keeps_bind. unfold sendLogsToWebhook. cbn [keeps atomic answers gets].
    assert (H2 : synced start s1 (Sending l logs :: gs1)) by (by eapply synced_find). intros u s2 [= _ <-].
    destruct u as [u|]; [|by eapply HF]. apply send_synced; [done| |intros; by eapply HF]. intros s2 gs2 H3. cbv zeta.
    cbn [keeps atomic answers gets].
    intros p s3 [= _ <-]. exists (Acked l logs). split; [done|]. intros s4 gs4 r s5 H4 Ha.
    assert (H5 : synced start s5 (Acked l logs :: gs4)).
    { destruct Ha as [->|[_ ->]]; [|done]. eapply synced_grows; [apply with_proxy_grows|done]. }
    destruct r as [v|e]; cbn [keeps atomic answers modify].
    + intros w s6 Hw. assert (E : s6 = s5 <| lastSyncedLogId := id (last_of l logs) |>) by (by injection Hw as _ <-). rewrite E.
      by eapply HF; [apply synced_advance|].
    + intros w s6 ->. by eapply HF.
  - cbn [keeps atomic answers]. intros u s3 ->. by eapply HF.
Qed.

Lemma sync_synced s gs : synced start s gs -> keeps_synced syncLogs s gs (fun _ => synced start).
Proof.
  intros H. unfold syncLogs. cbn [keeps atomic answers]. intros go s1 Hgo.
  destruct (_ || _) eqn:Hc in Hgo.
  - assert (E : go = false /\ s1 = s) by (by injection Hgo as <- <-). destruct E as [-> ->]. done.
  - assert (E : go = true /\ s1 = s <| isSyncing := true |>) by (by injection Hgo as <- <-). destruct E as [-> ->]. clear Hgo.
    apply keeps_bind, sync_body_synced.
    + apply synced_lock; [done|]. by destruct (isSyncing s); [rewrite orb_true_r in Hc|].
    + intros s2 gs2 H2. cbn [keeps atomic answers modify]. intros u s3 Hu.
      assert (E : s3 = s2 <| isSyncing := false |>) by (by injection Hu as _ <-). rewrite E. by apply free_unlock.
Qed.

Lemma growing_synced {A} (p : prog lcall A) s gs : growing p -> synced start s gs -> keeps_synced p s gs (fun _ => synced start).
Proof.
  intros Hg H. eapply keeps_mono; [eapply every_keeps with (g := Idle) (R := grows)|].
  - intros s1 s2 g. apply synced_grows.
  - exact Hg.
  - by apply synced_idle.
  - intros a s' gs' H'. by apply synced_idle.
Qed.

Lemma methods_synced p : log_method p -> method_ok atomic answers (synced start) p.
Proof.
  intros Hm s gs H. destruct Hm.
  - by apply growing_synced; [apply grow_enqueue|].
  - apply growing_synced; [|done]. unfold flush_tick. grow_step. case_match; [apply grow_flush|done].
  - apply growing_synced; [|done]. apply grow_set; [|apply grow_flush]. intros s'. by apply grows_same.
  - unfold sync_tick. cbn [keeps atomic answers gets]. intros on s1 [= _ <-]. destruct on; [by apply sync_synced|done].
  - by apply growing_synced; [apply grow_reload|].
  - unfold sync_shutdown. cbn [keeps atomic answers modify]. intros u s1 Hu. apply sync_synced.
    eapply synced_grows; [|exact H]. injection Hu as _ <-. by apply grows_same.
  - by apply growing_synced; [apply grow_set_webhook|].
  - cbn [keeps atomic answers]. intros u s1 ->. eapply synced_grows; [apply grows_save_move|done].
Qed.
End Run.

(** C34: Whatever is interleaved and whatever fails, a row with a number up to that
    of the last synchronised one has been acknowledged by the webhook, unless
    it was committed after a row with a greater number. *)
Theorem synced_rows_acknowledged (s0 : Logs) (pool : list (prog lcall unit)) (s : Logs) :
  unique s0 -> reachable atomic answers log_method s0 (pool, s) ->
  forall before r after, rows s = before ++ r :: after -> lastSyncedLogId s0 < id r <= lastSyncedLogId s ->
  r ∈ acknowledged s \/ exists r', r' ∈ before /\ id r < id r'.
Proof.
  intros Hu Hr.
  destruct (reachable_invariant atomic answers (synced (lastSyncedLogId s0)) (synced_perm _) log_method s0 (pool, s)) as (gss & _ & [_ _ _ _ H]);
    [apply methods_synced| |exact Hr|].
  - split; [done|by left|done|by left|]. intros l1 r l2 _ Hb. lia.
  - intros before r after E Hb. exact (H before r after E Hb).
Qed.

(** The last synchronisation of a shutdown, meant to send what remains, has
    been told that the service is shutting down: it sends nothing. *)
Lemma final_sync_does_nothing (s : Logs) (p' : prog lcall unit) (s' : Logs) :
  burst atomic answers sync_shutdown s p' s' -> p' = Ret tt /\ s' = stopSyncTimer (s <| syncShuttingDown := true |>).
Proof.
  intros H. apply (burst_bursts _ _ _ _ _ _ (fun p s'' => p = Ret tt /\ s'' = stopSyncTimer (s <| syncShuttingDown := true |>)) H).
  cbn [bursts sync_shutdown atomic modify answers]. intros u s1 [= _ <-]. unfold syncLogs. cbn [bursts atomic answers].
  intros go s2 Hgo. injection Hgo as <- <-. by split.
Qed.

(** * Logs: concrete runs

    A database and a webhook that answer by computation, and schedules of the
    methods: the hypotheses of the theorems hold on them, and some lead where
    nobody wants to be. *)

(** ** Secrets *)

Definition field (name value : string) : string := stringified (JObj [(name, JStr value)]).

(** A stack with room for what comes. *)
Definition ample : Stack := {| levels := 40; stringifies := fun _ _ => true |}.

Lemma redaction_hides_secrets_witness :
  redactStructuredField ample (Some (field "params" (field "password" "hunter2"))) =
  redactStructuredField ample (Some (field "params" (field "password" "swordfish"))).
Proof.
  eapply (redaction_hides_secrets ample _ _ (JObj [("params", JStr (field "password" "hunter2"))]%string) (JObj [("params", JStr (field "password" "swordfish"))]%string)).
  - vm_compute. reflexivity.
  - vm_compute. reflexivity.
  - apply alike_obj, alike_fields_cons; [|apply alike_fields_nil].
    eapply alike_text with (v := JObj [("password", JStr "hunter2")]%string) (w := JObj [("password", JStr "swordfish")]%string);
      [vm_compute; reflexivity..|].
    apply alike_obj, alike_fields_secret; [vm_compute; reflexivity|apply alike_fields_nil].
  - vm_compute. reflexivity.
Defined.

(** Redacted as a text, a secret of two words keeps its second. *)
Example text_keeps_second_word : redactText "password: correct horse" = "password: [REDACTED] horse"%string.
Proof. vm_compute. reflexivity. Qed.

(** A field of four levels, with a sensitive field that is an array. *)
Definition deep : string :=
  stringified (JArr [JArr [JArr [JObj [("authConf", JArr [JObj [("key", JStr "K"); ("value", JStr "hunter2")]])]]]])%string.

(** Where the stack has no room for it, it is redacted as a text, and what is
    after the first comma in the array stays. *)
Example overflow_keeps_secrets :
  option_map (includes "hunter2") (redactStructuredField ample (Some deep)) = Some false
  /\ option_map (includes "hunter2") (redactStructuredField {| levels := 3; stringifies := fun _ _ => true |} (Some deep)) = Some true.
Proof. split; vm_compute; reflexivity. Qed.

(** A sensitive field given twice, the first time with an escaped letter:
    parsed, the second value hides the first; the redacted text, compared with
    it only as a value, keeps the first. *)
Definition twice : string :=
  "{" +:+ String dquote ("to\u006ben" +:+ String dquote (":" +:+ stringified (JStr "hunter2") +:+ "," +:+ stringified (JStr "token") +:+ ":" +:+ stringified (JStr "x") +:+ "}")).

Example redacted_error_leaks :
  containsSensitiveKey 5 (default JNull (JSON_parse twice)) = Some true /\ includes "hunter2" (redactError ample twice) = true
  /\ redactStructuredField ample (Some twice) = Some (field "token" REDACTED).
Proof. split; [|split]; vm_compute; reflexivity. Qed.

(** ** An environment *)

Definition example_proxy : Proxy := {|
  proxy_id := 1; proxy_name := "P"; proxyKey := "key"; logWebhookUrl := Some "https://hook"%string; lastSynced := 0 |}.

Definition example_logs : Logs := {|
  logQueue := []; flushTimer := true; isShuttingDown := false; syncTimer := true; lastSyncedLogId := 0; proxyId := Some 1;
  webhookUrl := Some "https://hook"%string; syncShuttingDown := false; isSyncing := false; jobs := []; rows := []; next_id := 1;
  proxy := Some example_proxy; acknowledged := []; accepted := [] |}.

Inductive luck : Type := Well | Badly.

Definition unlucky {A} (o : luck) (a : A) : failed A := match o with Well => Ok a | Badly => Throw "failed"%string end.

Definition state_is (st : JobState) (s : Logs) (j : nat) : bool :=
  match state_of s j, st with Some Saved, Saved | Some Failed, Failed => true | _, _ => false end.

Definition example_oracle (o : luck) (X : Type) (e : lcall X) (s : Logs) : option (X * Logs) :=
  match e in lcall X return option (X * Logs) with
  | Do f => Some (f s)
  | Now => Some (0, s)
  | LogLater _ => Some (tt, s)
  | Saving j m => Some (tt, save_move j m s)
  | AllSaved js =>
      if forallb (state_is Saved s) js then Some (Ok tt, s)
      else if existsb (state_is Failed s) js then Some (Throw "failed"%string, s) else None
  | FindLogs from limit => Some (unlucky o (findLogsFromId from limit (rows s)), s)
  | Fetch url logs =>
      match o, url with
      | Well, Some _ => Some (Ok true, s <| acknowledged := acknowledged s ++ logs |>)
      | _, _ => Some (Ok false, s)
      end
  | UpdateLastSyncedLogId p i =>
      Some match o with Well => (Ok tt, with_proxy p (fun x => x <| lastSynced := i |>) s) | Badly => (Throw "failed"%string, s) end
  | UpdateWebhookUrl p u =>
      Some match o with Well => (Ok tt, with_proxy p (fun x => x <| logWebhookUrl := u |>) s) | Badly => (Throw "failed"%string, s) end
  | FindFirstProxy => Some (unlucky o (proxy s), s)
  | FindProxyById p => Some (unlucky o (proxy s), s)
  | FindProxyByKey k => Some (unlucky o (proxy s), s)
  | Pause => Some (tt, s)
  end.

Lemma state_is_sound st s j : state_is st s j = true -> state_of s j = Some st.
Proof. unfold state_is. by destruct (state_of s j) as [[]|], st. Qed.

Lemma log_oracle_sound o X e s x s' : example_oracle o X e s = Some (x, s') -> answers X e s x s'.
Proof.
  destruct e; cbn; try (by intros [= <- <-]); try (by intros [= ->]).
  - destruct (forallb _ js) eqn:E1.
    + intros [= <- <-]. split; [done|]. apply Forall_forall. intros j Hj. apply state_is_sound. rewrite forallb_forall in E1. by apply E1, list_elem_of_In.
    + destruct (existsb _ js) eqn:E2; [|done]. intros [= <- <-]. split; [done|]. apply existsb_exists in E2 as (j & Hj & Hs).
      apply Exists_exists. exists j. split; [by apply list_elem_of_In|by apply state_is_sound].
  - intros [= <- <-]. split; [done|]. intros l. by destruct o; intros [= <-].
  - destruct o, url as [u|]; intros [= <- <-]; done.
  - destruct o; intros [= <- <-]; [by left|right; eauto].
  - destruct o; intros [= <- <-]; [by left|right; eauto].
  - intros [= <- <-]. split; [done|]. intros l. by destruct o; intros [= <-].
  - intros [= <- <-]. split; [done|]. intros y z. destruct o; intros [= H]. congruence.
Qed.

Definition play_out (ms : list (move lcall luck unit)) : option (list (prog lcall unit) * Logs) :=
  plays atomic example_oracle ms ([], example_logs).
Definition reached (ms : list (move lcall luck unit)) : list (prog lcall unit) * Logs := default ([], example_logs) (play_out ms).
Definition plays_through (ms : list (move lcall luck unit)) : bool := match play_out ms with Some _ => true | None => false end.

Lemma logs_reached ms :
  Forall (begins log_method) ms -> plays_through ms = true -> reachable atomic answers log_method example_logs (reached ms).
Proof.
  intros Hm Hp. eapply (plays_reachable atomic answers example_oracle log_oracle_sound); [apply reachable_start|exact Hm|].
  fold (play_out ms). unfold reached, plays_through in *. by destruct (play_out ms).
Qed.

Definition begin (p : prog lcall unit) : move lcall luck unit := Begin p Well.
Definition database (j : nat) (m : SaveMove) : move lcall luck unit := begin (Saving j m !; Ret tt).
Definition entry (a : Z) : LogEntry := empty_entry a.

(** ** Nothing is lost *)

(** A flush whose only row is rejected. *)
Definition rejected : list (move lcall luck unit) :=
  [begin (enqueueLog ample (entry 1)); begin flush_tick; database 0 RejectRow; Go 1 Badly].

Lemma no_log_lost_witness :
  accepted (reached rejected).2 !! 0%nat = Some (redacted_entry ample (entry 1)) /\
  ((Some 0%nat, redacted_entry ample (entry 1)) ∈ logQueue (reached rejected).2
   \/ exists i t, log_row (Some 0%nat) i t (redacted_entry ample (entry 1)) ∈ rows (reached rejected).2).
Proof.
  assert (E : accepted (reached rejected).2 !! 0%nat = Some (redacted_entry ample (entry 1))) by (vm_compute; reflexivity).
  split; [exact E|].
  apply (no_log_lost example_logs (reached rejected).1 (reached rejected).2); [reflexivity|reflexivity| |vm_compute; repeat constructor|exact E].
  change ((reached rejected).1, (reached rejected).2) with (reached rejected).
  apply logs_reached; [repeat constructor|vm_compute; reflexivity].
Defined.

(** One of two rows is rejected: both entries are queued again, and the other
    row is there twice in the end. *)
Definition half_rejected : list (move lcall luck unit) :=
  [begin (enqueueLog ample (entry 1)); begin (enqueueLog ample (entry 2)); begin flush_tick;
   database 0 GetNumber; database 0 CommitRow; database 1 RejectRow; Go 2 Badly;
   begin flush_tick; database 2 GetNumber; database 2 CommitRow; database 3 GetNumber; database 3 CommitRow; Go 6 Well].

Example logged_twice :
  reachable atomic answers log_method example_logs (reached half_rejected)
  /\ map row_entry (rows (reached half_rejected).2) = [Some 0; Some 0; Some 1]%nat.
Proof.
  split; [|vm_compute; reflexivity]. apply logs_reached; [repeat constructor|vm_compute; reflexivity].
Qed.

(** ** What is synchronised *)

Definition two_queued : list (move lcall luck unit) :=
  [begin (enqueueLog ample (entry 1)); begin (enqueueLog ample (entry 2)); begin flush_tick; database 0 GetNumber; database 1 GetNumber].

(** Both rows are committed in order and sent. *)
Definition in_turn : list (move lcall luck unit) :=
  two_queued ++ [database 0 CommitRow; database 1 CommitRow; Go 2 Well; begin sync_tick; Go 7 Well; Go 7 Well; Go 7 Well].

Lemma synced_rows_acknowledged_witness :
  let s := (reached in_turn).2 in
  lastSyncedLogId s = 2 /\
  (log_row (Some 0%nat) 1 0 (redacted_entry ample (entry 1)) ∈ acknowledged s
   \/ exists r', r' ∈ [] /\ id (log_row (Some 0%nat) 1 0 (redacted_entry ample (entry 1))) < id r').
Proof.
  cbv zeta. split; [vm_compute; reflexivity|].
  apply (synced_rows_acknowledged example_logs (reached in_turn).1 (reached in_turn).2) with (after := [log_row (Some 1%nat) 2 0 (redacted_entry ample (entry 2))]).
  - split; [constructor|constructor].
  - change ((reached in_turn).1, (reached in_turn).2) with (reached in_turn).
    apply logs_reached; [repeat constructor|vm_compute; reflexivity].
  - vm_compute. reflexivity.
  - vm_compute. split; [reflexivity|discriminate].
Defined.

(** The row with the lower number is committed after the other has been sent:
    it never will be. *)
Definition committed_late : list (move lcall luck unit) :=
  two_queued ++ [database 1 CommitRow; begin sync_tick; Go 6 Well; Go 6 Well; Go 6 Well; database 0 CommitRow; Go 2 Well; begin sync_tick; Go 8 Well].

Example late_row_never_sent :
  reachable atomic answers log_method example_logs (reached committed_late)
  /\ (reached committed_late).1 = repeat (Ret tt) 9
  /\ map id (rows (reached committed_late).2) = [2; 1] /\ lastSyncedLogId (reached committed_late).2 = 2
  /\ map id (acknowledged (reached committed_late).2) = [2].
Proof.
  split; [|by vm_compute]. apply logs_reached; [repeat constructor|vm_compute; reflexivity].
Qed.

(** What remains in the queue at a failed flush of a shutdown stays there: no
    timer runs any more. *)
Definition failed_shutdown : list (move lcall luck unit) :=
  [begin (enqueueLog ample (entry 1)); begin service_shutdown; database 0 RejectRow; Go 1 Badly; begin flush_tick].

Example left_at_shutdown :
  reachable atomic answers log_method example_logs (reached failed_shutdown)
  /\ (reached failed_shutdown).1 = repeat (Ret tt) 4
  /\ length (logQueue (reached failed_shutdown).2) = 1%nat /\ rows (reached failed_shutdown).2 = [].
Proof.
  split; [|by vm_compute]. apply logs_reached; [repeat constructor|vm_compute; reflexivity].
Qed.

(** A webhook over another protocol is refused as malformed. *)
Example other_protocol_malformed :
  webhook_request (fun _ => Some "ftp:"%string) (JStr "key") (JStr "ftp://hook") = refuse "Invalid webhookUrl format" INVALID_REQUEST.
Proof. reflexivity. Qed.
