(* ===== verification/ProxyRequests.v ===== *)
(** * The other requests of a session

    What [src/src/mcp/core/ProxySession.ts] does besides calling tools
    ([ToolCall]): reading resources, getting prompts, completions,
    subscriptions, the listings, and the notifications about requests under
    way.  The handlers make the calls of [ToolCall] and some of their own;
    any answer may come back.  Debug and information log lines are left out. *)
From Stdlib Require Import Ascii ZArith Lia.
From stdpp Require Import base strings list.
From S2P Require Import Prelude Json JsMap ServerTypes CacheKey CachePolicy CacheSerializer ResultCache Access Effects ToolCall.
Open Scope Z_scope.

(** ** Data *)

(** [request.params]: the name or URI, [_meta], and the rest. *)
Record Params : Type := {
  p_target : string;
  p_rest : list (string * json);
  p_meta : option (list (string * json))
}.

Inductive Kind : Type := Resource | Prompt.

Definition target_field (k : Kind) : string := match k with Resource => "uri" | Prompt => "name" end.

Definition params_json (k : Kind) (p : Params) : json :=
  JObj ((target_field k, JStr (p_target p)) :: p_rest p ++ match p_meta p with Some m => [("_meta"%string, JObj m)] | None => [] end).

(** [request.params.ref] of a completion. *)
Inductive Ref : Type := RefPrompt (name : string) | RefResource (uri : string) | RefOther.

Record CompleteParams : Type := { c_ref : Ref; c_rest : list (string * json); c_meta : option (list (string * json)) }.

(** The names of a server that its app resources may mention. *)
Record AppNames : Type := { app_id : string; app_tools : list string; app_resources : list string }.

Inductive pcall : Type -> Type :=
| Base {X : Type} (e : ToolCall.call X) : pcall X
(* client session *)
| ResolveResourceUri (uri : string) : pcall (option (string * string))
| ParseName (name : string) : pcall (option (string * string))
| CanAccessResource (sid name : string) : pcall bool
| CanUsePrompt (sid name : string) : pcall bool
(* server contexts and the server manager *)
| HasConnection (ctx : string) : pcall bool
| GetAppNames (sid : string) : pcall (option AppNames)
| SubscribeResource (sid uri : string) : pcall (result failure unit)
| UnsubscribeResource (sid uri : string) : pcall (result failure unit)
(* the downstream connection *)
| ReadResource (ctx sid : string) (p : Params) (proxyRequestId : string) : pcall (result failure json)
| GetPrompt (ctx sid : string) (p : Params) (proxyRequestId : string) : pcall (result failure json)
| Complete (ctx sid : string) (p : CompleteParams) (proxyRequestId : string) : pcall (result failure json).

Definition Handler (A : Type) : Type := prog pcall (result failure A).

Fixpoint lift {A} (p : prog ToolCall.call A) : prog pcall A :=
  match p with
  | Ret a => Ret a
  | Vis X e k => Vis X (Base e) (fun x => lift (k x))
  | OutOfFuel => OutOfFuel
  end.

Definition InternalError : ErrorCode := OtherCode (-32603).

Definition log_then {A} (code : Z) (message : string) (k : prog pcall A) : prog pcall A :=
  Base (LogRequest code (Some message)) !; k.

(** ** App resources *)

Fixpoint str_tail (n : nat) (s : string) : string :=
  match n, s with S n, String _ s => str_tail n s | _, _ => s end.

(** [text.split(original).join(proxied)] *)
Fixpoint replace_every (n : nat) (original proxied text : string) : string :=
  match n with
  | O => text
  | S n =>
      if starts_with original text then proxied +:+ replace_every n original proxied (str_tail (String.length original) text)
      else match text with String c text => String c (replace_every n original proxied text) | EmptyString => "" end
  end.

Fixpoint between_units (sep text : string) : string :=
  match text with
  | EmptyString => ""
  | String c EmptyString => String c ""
  | String c text => String c (sep +:+ between_units sep text)
  end.

Definition split_join (original proxied text : string) : string :=
  if str_eqb original "" then between_units proxied text else replace_every (S (String.length text)) original proxied text.

Definition longer (a b : string * string) : bool := (String.length (fst b) <=? String.length (fst a))%nat.

(** The replacements, longest first. *)
Definition replacements (n : AppNames) : list (string * string) :=
  isort longer (fold_left (fun m name => map_set name (generateNewName (app_id n) name) m) (app_tools n ++ app_resources n) []).

Definition rewrite_text (rs : list (string * string)) (text : string) : string :=
  fold_left (fun text r => split_join (fst r) (snd r) text) rs text.

Definition is_html (content : json) : bool :=
  match jfield_opt content "mimeType" with JStr t => starts_with "text/html" t | _ => false end.

Definition rewrite_content (n : AppNames) (content : json) : json :=
  let uri := match jfield_opt content "uri" with JStr u => JStr (generateNewName (app_id n) u) | u => u end in
  match jfield_opt content "text" with
  | JStr text =>
      extend content [("uri"%string, uri); ("text"%string, JStr (if is_html content then rewrite_text (replacements n) text else text))]
  | _ => extend content [("uri"%string, uri)]
  end.

(** [rewriteAppResourceResult], once the server is known. *)
Definition rewriteAppResourceResult (target : option AppNames) (serverResult : json) : result failure json :=
  match target with
  | None => Ok serverResult
  | Some n =>
      match jfield_opt serverResult "contents" with
      | JArr contents => Ok (extend serverResult [("contents"%string, JArr (map (rewrite_content n) contents))])
      | _ => Throw ToolCall.TypeError
      end
  end.

(** ** Reading a resource, getting a prompt *)

Section Handlers.
Variable userId : string.
Variable tenantId : option string.

(** What the result cache is asked about. *)
Definition cached_params (k : Kind) (p : Params) : json :=
  match k with Resource => params_json k p | Prompt => default JUndefined (assoc "arguments" (p_rest p)) end.

Definition request_cache_call (k : Kind) (sid original : string) (policy : ResolvedCachePolicy) (p : Params) : CacheCall :=
  {| c_operation := match k with Resource => OpResource | Prompt => OpPrompt end; c_serverId := sid; c_entityId := original;
     c_scopeContext := {| ResultCache.userId := Some userId; ResultCache.tenantId := tenantId |};
     c_policy := policy; c_params := cached_params k p |}.

Definition cache_policy (k : Kind) (cfg : ResultCacheConfig * ServerConfigCapabilities) (original : string) : option ResolvedCachePolicy :=
  match k with
  | Resource => resolveResourcePolicy (snd cfg) original None (fst cfg)
  | Prompt => resolvePromptPolicy (snd cfg) original (fst cfg)
  end.

(** The cached reply, as it is. *)
Definition cached_reply (k : Kind) (sid original : string) (p : Params) : prog pcall (option json) :=
  call! early := Base (GetServerContext sid) in
  match early with
  | None => Ret None
  | Some _ =>
      call! cfg := Base (ReadCacheConfig sid) in
      if negb (config_enabled (fst cfg)) then Ret None
      else
        match cache_policy k cfg original with
        | None => Ret None
        | Some policy =>
            call! cached := Base (CacheLookup (request_cache_call k sid original policy p)) in
            match cached with
            | Throw _ => Ret None
            | Ok l =>
                match hit l, entry l with
                | true, Some e => Base (LogRequest 200 None) !; Ret (Some (payload e))
                | _, _ => Ret None
                end
            end
        end
  end.

Definition not_resolved (k : Kind) (name : string) : string :=
  match k with Resource => "Invalid resource URI: " +:+ name | Prompt => "Invalid prompt name: " +:+ name end.
Definition not_permitted (k : Kind) (name : string) : string :=
  match k with Resource => "Permission denied for resource: " +:+ name | Prompt => "Permission denied for prompt: " +:+ name end.
Definition routing_error (k : Kind) (m : string) : string :=
  match k with Resource => "ErrorRouting: " +:+ m | Prompt => m end.

Definition resolve (k : Kind) (name : string) : pcall (option (string * string)) :=
  match k with Resource => ResolveResourceUri name | Prompt => ParseName name end.
Definition may_use (k : Kind) (sid original : string) : pcall bool :=
  match k with Resource => CanAccessResource sid original | Prompt => CanUsePrompt sid original end.

(** Routing and permission. *)
Definition route_request (k : Kind) (p : Params) : Handler (string * string) :=
  call! r := resolve k (p_target p) in
  match r with
  | None =>
      let m := not_resolved k (p_target p) in
      log_then 404 (routing_error k m) (Ret (Throw (McpError InvalidParams m)))
  | Some (sid, original) =>
      call! permitted := may_use k sid original in
      if permitted then Ret (Ok (sid, original))
      else
        let m := not_permitted k (p_target p) in
        log_then 403 (match k with Resource => "ErrorPermission: " +:+ m | Prompt => m end) (Ret (Throw (McpError InvalidParams m)))
  end.

Definition no_server (k : Kind) (sid name : string) : string :=
  match k with Resource => "No server available for resource: " +:+ sid | Prompt => "No server available for prompt: " +:+ name end.
Definition no_client (k : Kind) (name : string) : string :=
  match k with Resource => "No client available for resource: " +:+ name | Prompt => "No client available for prompt: " +:+ name end.

(** The server, started if need be, and its connection. *)
Definition target_server (k : Kind) (sid : string) (p : Params) : Handler ServerContext :=
  call! ready := Base (EnsureServerAvailable sid) in
  match ready with
  | Throw e => Ret (Throw e)
  | Ok _ =>
      call! target := Base (GetServerContext sid) in
      match target with
      | None =>
          let m := no_server k sid (p_target p) in
          log_then 503 (routing_error k m) (Ret (Throw (McpError InternalError m)))
      | Some ctx =>
          call! connected := HasConnection (ctx_id ctx) in
          if connected then Ret (Ok ctx)
          else
            let m := no_client k (p_target p) in
            log_then 503 (routing_error k m) (Ret (Throw (McpError InternalError m)))
      end
  end.

(** [rewriteProgressTokenForDownstream] on the copied parameters. *)
Definition rewrite_meta (meta : option (list (string * json))) (proxyRequestId : string) : prog pcall (option (list (string * json))) :=
  match meta ≫= assoc "progressToken" with
  | None | Some JUndefined => Ret meta
  | Some token =>
      Base (SetOriginalProgressToken proxyRequestId token) !;
      Ret (Some (with_property "progressToken" (JStr proxyRequestId) (default [] meta)))
  end.

(** [forwardResourceRead], [forwardPromptGet] *)
Definition forward (k : Kind) (ctx : ServerContext) (sid : string) (p : Params) (proxyRequestId : string) : Handler json :=
  call! r := match k with
             | Resource => ReadResource (ctx_id ctx) sid p proxyRequestId
             | Prompt => GetPrompt (ctx_id ctx) sid p proxyRequestId
             end in
  match r with
  | Ok raw => Base (ClearTimeout (ctx_id ctx)) !; Ret (Ok raw)
  | Throw e => Ret (Throw e)
  end.

(** [executeWithCache], where a policy says so. *)
Definition through_cache (k : Kind) (ctx : ServerContext) (sid original : string) (p downstream : Params) (proxyRequestId : string) : Handler json :=
  call! cfg := Base (ReadCacheConfig sid) in
  match cache_policy k cfg original with
  | None => forward k ctx sid downstream proxyRequestId
  | Some policy =>
      call! b := Base (CacheBegin (request_cache_call k sid original policy p)) in
      match b with
      | Served v => Ret (Ok v)
      | FlightFailed e => Ret (Throw e)
      | RunFactory =>
          bind! r := forward k ctx sid downstream proxyRequestId in
          Base (CacheEnd (request_cache_call k sid original policy p) r) !; Ret r
      end
  end.

(** What the client gets of the server's answer. *)
Definition upstream_result (k : Kind) (sid : string) (v : json) : Handler json :=
  match k with
  | Prompt => Ret (Ok v)
  | Resource => call! names := GetAppNames sid in Ret (rewriteAppResourceResult names v)
  end.

(** The catch block; [retry]: the request again, while attempts are left. *)
Definition on_request_error (ctx : ServerContext) (e : failure) (retry : option (Handler json)) : Handler json :=
  await! isReconnected := lift (recordTimeout ctx e) in
  Base (LogRequest 500 (Some (err_text e))) !;
  match isReconnected, retry with
  | Some false, Some again => again
  | _, _ => Ret (Throw e)
  end.

(** The request under its own id, which is given up at the end. *)
Definition deliver (k : Kind) (ctx : ServerContext) (sid original : string) (p : Params) (retry : option (Handler json)) : Handler json :=
  call! proxyRequestId := Base (RegisterClientRequest sid) in
  bind! meta := rewrite_meta (p_meta p) proxyRequestId in
  bind! r :=
    (await! v := through_cache k ctx sid original p {| p_target := original; p_rest := p_rest p; p_meta := meta |} proxyRequestId in
     upstream_result k sid v) in
  bind! reply :=
    match r with
    | Ok v => Base (LogRequest 200 None) !; Ret (Ok v)
    | Throw e => on_request_error ctx e retry
    end in
  Base (RemoveMapping proxyRequestId) !;
  Ret reply.

Definition request_body (k : Kind) (p : Params) (retry : option (Handler json)) : Handler json :=
  Base GenerateUniformRequestId !;
  await! routed := route_request k p in
  let '(sid, original) := routed in
  bind! cached := cached_reply k sid original p in
  match cached with
  | Some v => Ret (Ok v)
  | None =>
      await! ctx := target_server k sid p in
      deliver k ctx sid original p retry
  end.

(** [left] is [2 - retryCount]. *)
Fixpoint with_retries (k : Kind) (p : Params) (left : nat) : Handler json :=
  request_body k p (match left with O => None | S l => Some (with_retries k p l) end).

Definition handleResourceRead (p : Params) : Handler json := with_retries Resource p 2.
Definition handlePromptGet (p : Params) : Handler json := with_retries Prompt p 2.

(** ** Completion *)

Definition ref_target (r : Ref) : option string := match r with RefPrompt n => Some n | RefResource u => Some u | RefOther => None end.
Definition with_target (r : Ref) (original : string) : Ref :=
  match r with RefPrompt _ => RefPrompt original | RefResource _ => RefResource original | RefOther => RefOther end.

(** An object in a template string. *)
Definition invalid_reference : failure := McpError InvalidParams "Invalid completion reference: [object Object]".

Definition completion_server (sid name : string) : Handler ServerContext :=
  call! ready := Base (EnsureServerAvailable sid) in
  match ready with
  | Throw e => Ret (Throw e)
  | Ok _ =>
      call! target := Base (GetServerContext sid) in
      match target with
      | None =>
          log_then 503 ("Error: ErrorRouting: No server available for completion: " +:+ name)
            (Ret (Throw (McpError InvalidParams ("No server available for prompt: " +:+ name))))
      | Some ctx =>
          call! connected := HasConnection (ctx_id ctx) in
          if connected then Ret (Ok ctx)
          else
            log_then 503 ("Error: ErrorRouting: No client available for completion: " +:+ name)
              (Ret (Throw (McpError InvalidParams ("No client available for prompt: " +:+ name))))
      end
  end.

Definition deliver_completion (ctx : ServerContext) (sid original : string) (p : CompleteParams) (retry : option (Handler json)) : Handler json :=
  call! proxyRequestId := Base (RegisterClientRequest sid) in
  bind! meta := rewrite_meta (c_meta p) proxyRequestId in
  call! r := Complete (ctx_id ctx) sid {| c_ref := with_target (c_ref p) original; c_rest := c_rest p; c_meta := meta |} proxyRequestId in
  bind! reply :=
    match r with
    | Ok v => Base (ClearTimeout (ctx_id ctx)) !; Base (LogRequest 200 None) !; Ret (Ok v)
    | Throw e => on_request_error ctx e retry
    end in
  Base (RemoveMapping proxyRequestId) !;
  Ret reply.

Definition completion_body (p : CompleteParams) (retry : option (Handler json)) : Handler json :=
  Base GenerateUniformRequestId !;
  match ref_target (c_ref p) with
  | None => Ret (Throw invalid_reference)
  | Some name =>
      call! r := ParseName name in
      match r with
      | None => log_then 404 ("Error: ErrorRouting: Completio " +:+ name +:+ " not found") (Ret (Throw invalid_reference))
      | Some (sid, original) =>
          await! ctx := completion_server sid name in
          deliver_completion ctx sid original p retry
      end
  end.

Fixpoint completion_with_retries (p : CompleteParams) (left : nat) : Handler json :=
  completion_body p (match left with O => None | S l => Some (completion_with_retries p l) end).

Definition handleComplete (p : CompleteParams) : Handler json := completion_with_retries p 2.

(** ** Subscriptions *)

Definition subscribe_to (sid uri : string) : Handler unit :=
  call! r := SubscribeResource sid uri in
  match r with
  | Ok _ => Base (LogRequest 200 None) !; Ret (Ok tt)
  | Throw e => log_then 500 ("ErrorSubscribe: " +:+ err_text e) (Ret (Throw e))
  end.

Definition handleSubscribe (uri : string) : Handler unit :=
  Base GenerateUniformRequestId !;
  call! r := ParseName uri in
  match r with
  | None =>
      let m := "Invalid resource URI: " +:+ uri in
      log_then 404 ("ErrorRouting: " +:+ m) (Ret (Throw (McpError InvalidParams m)))
  | Some (sid, original) =>
      call! permitted := CanAccessResource sid original in
      if permitted then subscribe_to sid original
      else
        let m := "Permission denied for resource: " +:+ uri in
        log_then 403 ("ErrorPermission: " +:+ m) (Ret (Throw (McpError InvalidParams m)))
  end.

Definition handleUnsubscribe (uri : string) : Handler unit :=
  Base GenerateUniformRequestId !;
  call! r := ParseName uri in
  match r with
  | None =>
      let m := "Invalid resource URI: " +:+ uri in
      log_then 404 ("ErrorRouting: " +:+ m) (Ret (Throw (McpError InvalidParams m)))
  | Some (sid, original) =>
      call! r := UnsubscribeResource sid original in
      match r with
      | Ok _ => Base (LogRequest 200 None) !; Ret (Ok tt)
      | Throw e => log_then 500 ("ErrorUnsubscribe: " +:+ err_text e) (Ret (Throw e))
      end
  end.
End Handlers.
