(* ===== verification/ProxyRequestsSafety.v ===== *)
(** * What stands before a forwarded read

    The protocol every run of [handleResourceRead] and [handlePromptGet]
    ([ProxyRequests]) follows, whatever the other components answer, and what
    completions, app resources and cached replies do besides. *)
From Stdlib Require Import Ascii ZArith Lia.
From stdpp Require Import base strings list.
From S2P Require Import Prelude Json JsMap ServerTypes CacheKey CachePolicy CacheSerializer ResultCache Access Effects ToolCall ToolCallWorld ProxyRequests.
Open Scope Z_scope.

(** ** The protocol *)

(** What the session was last found to be permitted, the request ids in use,
    the number of forwarded requests and the outcome of the last. *)
Record phase : Type := {
  permitted : option (string * string);
  in_use : list string;
  forwards : Z;
  last_outcome : option (result failure json)
}.

Definition start : phase := {| permitted := None; in_use := []; forwards := 0; last_outcome := None |}.

Definition set_permitted (p : option (string * string)) (s : phase) : phase :=
  {| permitted := p; in_use := in_use s; forwards := forwards s; last_outcome := last_outcome s |}.
Definition take_id (i : string) (s : phase) : phase :=
  {| permitted := permitted s; in_use := i :: in_use s; forwards := forwards s; last_outcome := last_outcome s |}.
Definition give_up_id (i : string) (s : phase) : phase :=
  {| permitted := permitted s; in_use := List.filter (fun j => negb (str_eqb i j)) (in_use s); forwards := forwards s; last_outcome := last_outcome s |}.
(** A forwarded request uses the permission up. *)
Definition forwarded (r : result failure json) (s : phase) : phase :=
  {| permitted := None; in_use := in_use s; forwards := forwards s + 1; last_outcome := Some r |}.

Definition base_step {X} (e : ToolCall.call X) (s : phase) : X -> phase :=
  match e in ToolCall.call X return X -> phase with
  | RegisterClientRequest _ => fun i => take_id i s
  | RemoveMapping i => fun _ => give_up_id i s
  | _ => fun _ => s
  end.

Definition phase_step (s : phase) (ev : event pcall) : phase :=
  match ev with
  | Ev X e x =>
      match e in pcall X return X -> phase with
      | Base e => base_step e s
      | CanAccessResource sid name => fun b => set_permitted (if b : bool then Some (sid, name) else None) s
      | CanUsePrompt sid name => fun b => set_permitted (if b : bool then Some (sid, name) else None) s
      | ReadResource _ _ _ _ => fun r => forwarded r s
      | GetPrompt _ _ _ _ => fun r => forwarded r s
      | _ => fun _ => s
      end x
  end.

Definition phase_of (tr : list (event pcall)) : phase := fold_left phase_step tr start.

Section Protocol.
Variable user : string.
Variable k : Kind.
Variable req : Params.

(** The last forwarded request, if any, timed out. *)
Definition fine (s : phase) : Prop :=
  match last_outcome s with None => True | Some (Ok _) => False | Some (Throw e) => is_request_timeout e = true end.

Definition may_forward (s : phase) : Prop := forwards s < 3 /\ fine s.

(** Exactly what was permitted is asked, under an id in use. *)
Definition forward_admitted (s : phase) (sid : string) (p : Params) (i : string) : Prop :=
  permitted s = Some (sid, p_target p) /\ p_rest p = p_rest req /\ i ∈ in_use s /\ may_forward s.

Definition cache_admitted (s : phase) (c : CacheCall) : Prop :=
  permitted s = Some (c_serverId c, c_entityId c) /\ c_params c = cached_params k req
  /\ ResultCache.userId (c_scopeContext c) = Some user.

Definition admitted (s : phase) (ev : event pcall) : Prop :=
  match ev with
  | Ev _ e _ =>
      match e with
      | ReadResource _ sid p i => k = Resource /\ forward_admitted s sid p i
      | GetPrompt _ sid p i => k = Prompt /\ forward_admitted s sid p i
      | Complete _ _ _ _ | SubscribeResource _ _ | UnsubscribeResource _ _ => False
      | Base e => match e with
                  | CacheLookup c | CacheBegin c => cache_admitted s c
                  | RegisterClientRequest sid => fst <$> permitted s = Some sid
                  | CallTool _ _ _ _ => False
                  | _ => True
                  end
      | _ => True
      end
  end.

Notation wpc := (wp phase_step admitted).

Ltac quiet :=
  repeat first
    [ progress cbn [wp pbind phase_step base_step admitted fst snd lift]
    | match goal with
      | |- wp _ _ (pbind _ _) _ _ => apply wp_bind
      | |- wp _ _ (try_bind _ _) _ _ => apply wp_bind
      | |- wp _ _ (log_then _ _ _) _ _ => unfold log_then
      | |- forall _, True /\ _ => intros ?; split; [exact I|]
      | |- wp _ _ (Ret _) _ _ => cbn [wp]
      end ].

(** Counting the calls of a time-out changes nothing here. *)
Lemma read_timeout_quiet ctx e s (Q : phase -> result failure (option bool) -> Prop) :
  (forall r, (forall b, r = Ok (Some b) -> is_request_timeout e = true) -> Q s r) -> wpc (lift (recordTimeout ctx e)) s Q.
Proof using.
  intros H. unfold recordTimeout. destruct (is_request_timeout e) eqn:E; cbn [negb]; [|by apply H].
  quiet. destruct (negb _); [by apply H|]. quiet. destruct x0 as [u|e']; quiet; [by apply H|].
  destruct (negb _); [by apply H|]. destruct (allowUserInput ctx); quiet.
  - by destruct x0; apply H.
  - destruct x0 as [t|f]; [|by apply H]. destruct (truthy_str t); quiet; [by destruct x0; apply H|by apply H].
Qed.

Definition same_ids (s s' : phase) : Prop := forall i, i ∈ in_use s' -> i ∈ in_use s.

Lemma rewrite_meta_quiet meta i s (Q : phase -> option (list (string * json)) -> Prop) :
  (forall m, Q s m) -> wpc (rewrite_meta meta i) s Q.
Proof using. intros H. unfold rewrite_meta. by destruct (meta ≫= _) as [[]|]; quiet. Qed.

Lemma read_forward_ok ctx sid p i s (Q : phase -> result failure json -> Prop) :
  forward_admitted s sid p i -> (forall r, Q (forwarded r s) r) -> wpc (forward k ctx sid p i) s Q.
Proof using.
  intros Ha HQ. unfold forward. clear -Ha HQ.
  assert (H : forall r : result failure json,
    wp phase_step admitted (match r with Ok raw => Base (ClearTimeout (ctx_id ctx)) !; Ret (Ok raw) | Throw e => Ret (Throw e) end) (forwarded r s) Q).
  { intros [v|e]; quiet; apply HQ. }
  destruct k eqn:Ek; cbn [wp phase_step admitted]; intros r; (split; [by rewrite Ek|apply H]).
Qed.

(** A phase in which [sid] and [original] may be asked for under [i]. *)
Definition ready (s : phase) (sid original i : string) : Prop :=
  permitted s = Some (sid, original) /\ i ∈ in_use s /\ may_forward s.

(** What an attempt may have changed: it forwards at most once, and fails with
    a time-out only if what it forwarded did. *)
Definition attempted (s s' : phase) (r : result failure json) : Prop :=
  in_use s' = in_use s /\ forwards s' <= forwards s + 1 /\ forall e, r = Throw e -> is_request_timeout e = true -> fine s'.

Lemma through_cache_ok tenant ctx sid original meta i s (Q : phase -> result failure json -> Prop) :
  ready s sid original i -> (forall s' r, attempted s s' r -> Q s' r) ->
  wpc (through_cache user tenant k ctx sid original req {| p_target := original; p_rest := p_rest req; p_meta := meta |} i) s Q.
Proof using.
  intros (Hp & Hi & Hm) HQ. unfold through_cache. quiet.
  assert (Hf : forall Q' : phase -> result failure json -> Prop,
    (forall r, Q' (forwarded r s) r) -> wpc (forward k ctx sid {| p_target := original; p_rest := p_rest req; p_meta := meta |} i) s Q').
  { intros Q' HQ'. apply read_forward_ok; [|done]. by split_and!. }
  assert (Hr : forall r, Q (forwarded r s) r).
  { intros r. apply HQ. split_and! ; [done|cbn; lia|]. by intros e -> He. }
  assert (H0 : forall r, Q s r).
  { intros r. apply HQ. split_and! ; [done|lia|]. intros e _ _. apply Hm. }
  destruct (cache_policy _ _ _) as [policy|]; [|by apply Hf].
  cbn [wp phase_step admitted base_step]. intros b. split; [by split_and!|].
  destruct b as [v|e|]; quiet; [apply H0|apply H0|]. apply Hf. intros r. quiet. apply Hr.
Qed.

Lemma upstream_ok sid v s s' (Q : phase -> result failure json -> Prop) :
  attempted s s' (Ok v) -> (forall r, attempted s s' r -> Q s' r) -> wpc (upstream_result k sid v) s' Q.
Proof using.
  intros (H1 & H2 & _) HQ. unfold upstream_result. destruct k; quiet; apply HQ; split_and! ; try done.
  intros e H. unfold rewriteAppResourceResult in H. destruct x as [n|]; [destruct (jfield_opt v "contents")|]; by simplify_eq.
Qed.

Definition ends (s : phase) (Q : phase -> result failure json -> Prop) : Prop :=
  forall s' r, same_ids s s' -> forwards s' <= 3 -> Q s' r.

Lemma ends_here s Q r : ends s Q -> forwards s <= 3 -> Q s r.
Proof using. intros HQ H. apply HQ; [by intros i|done]. Qed.

(** Trying again is fine. *)
Definition retry_ok (left : Z) (retry : option (Handler json)) : Prop :=
  forall again, retry = Some again -> forall s Q, forwards s + left <= 2 -> fine s -> ends s Q -> wpc again s Q.

Lemma read_error_ok ctx e retry left s (Q : phase -> result failure json -> Prop) :
  retry_ok left retry -> forwards s <= 3 -> (retry <> None -> forwards s + left <= 2) -> (is_request_timeout e = true -> fine s) -> ends s Q ->
  wpc (on_request_error ctx e retry) s Q.
Proof using.
  intros Hr H3 Hn He HQ. unfold on_request_error. quiet. apply read_timeout_quiet. intros [b|f] Hb; quiet; [|by apply (ends_here s Q)].
  assert (H : wpc (Ret (Throw e)) s Q) by (by apply (ends_here s Q)).
  destruct b as [[]|]; [exact H| |exact H]. destruct retry as [again|]; [|exact H].
  apply (Hr again); [done|by apply Hn|by apply He, (Hb false)|done].
Qed.

Lemma deliver_ok tenant ctx sid original retry left s (Q : phase -> result failure json -> Prop) :
  permitted s = Some (sid, original) -> fine s -> forwards s + left <= 2 -> 0 <= left -> (retry <> None -> 1 <= left) ->
  retry_ok (left - 1) retry -> ends s Q -> wpc (deliver user tenant k ctx sid original req retry) s Q.
Proof using.
  intros Hp Hf Hl H0 Hn Hr HQ. unfold deliver. cbn [wp phase_step admitted base_step]. intros i. split; [by rewrite Hp|].
  set (s1 := take_id i s). apply wp_bind, rewrite_meta_quiet. intros meta. apply wp_bind.
  assert (Hready : ready s1 sid original i).
  { split_and! ; [done|by left|]. split; [|done]. change (forwards s < 3). lia. }
  assert (Hrest : forall s2 r, attempted s1 s2 r -> wpc
    (bind! reply := match r with Ok v => Base (LogRequest 200 None) !; Ret (Ok v) | Throw e => on_request_error ctx e retry end in
     Base (RemoveMapping i) !; Ret reply) s2 Q).
  { intros s2 r (E & H2 & H3). change (forwards s1) with (forwards s) in H2. apply wp_bind.
    assert (Hend : ends s2 (fun s' reply => wpc (Base (RemoveMapping i) !; Ret reply) s' Q)).
    { intros s3 reply Hs H4. quiet. apply HQ; [|done]. intros j Hj. cbn in Hj.
      apply list_elem_of_In, filter_In in Hj as [Hj Hij]. apply list_elem_of_In in Hj.
      apply Hs in Hj. rewrite E in Hj. apply elem_of_cons in Hj as [->|Hj]; [by rewrite str_eqb_refl in Hij|done]. }
    destruct r as [v|e].
    - intros []. split; [exact I|]. apply (ends_here s2 _ (Ok v) Hend). lia.
    - apply read_error_ok with (left := left - 1); [done|lia| |by apply H3|done]. intros Hne. specialize (Hn Hne). lia. }
  apply wp_bind, through_cache_ok; [done|]. intros s2 r Ha. destruct r as [v|e]; [|by apply Hrest].
  by eapply upstream_ok; [|intros r; apply Hrest].
Qed.

Lemma route_ok s (Q : phase -> result failure (string * string) -> Prop) :
  (forall e s', in_use s' = in_use s -> forwards s' = forwards s -> Q s' (Throw e)) ->
  (forall sid original, Q (set_permitted (Some (sid, original)) s) (Ok (sid, original))) ->
  wpc (route_request k req) s Q.
Proof using.
  intros He Hq. unfold route_request, resolve, may_use.
  assert (H : forall r, wpc (match r with
    | None => let m := not_resolved k (p_target req) in log_then 404 (routing_error k m) (Ret (Throw (McpError InvalidParams m)))
    | Some (sid, original) =>
        call! permitted := match k with Resource => CanAccessResource sid original | Prompt => CanUsePrompt sid original end in
        if permitted then Ret (Ok (sid, original))
        else let m := not_permitted k (p_target req) in
             log_then 403 (match k with Resource => "ErrorPermission: " +:+ m | Prompt => m end) (Ret (Throw (McpError InvalidParams m)))
    end) s Q).
  { intros [[sid original]|]; [|quiet; by apply He]. destruct k; quiet; (destruct x; quiet; [by apply Hq|by apply He]). }
  destruct k; cbn [wp phase_step admitted]; intros r; (split; [exact I|apply H]).
Qed.

Lemma cached_reply_ok tenant sid original s (Q : phase -> option json -> Prop) :
  permitted s = Some (sid, original) -> (forall o, Q s o) -> wpc (cached_reply user tenant k sid original req) s Q.
Proof using.
  intros Hp HQ. unfold cached_reply. quiet. destruct x as [ctx|]; quiet; [|apply HQ]. destruct (negb _); [apply HQ|].
  destruct (cache_policy _ _ _) as [policy|]; [|apply HQ]. cbn [wp phase_step admitted base_step]. intros r. split; [by split_and!|].
  destruct r as [l|e]; [|apply HQ]. destruct (hit l), (entry l); quiet; apply HQ.
Qed.

Lemma target_ok sid s (Q : phase -> result failure ServerContext -> Prop) :
  (forall r, Q s r) -> wpc (target_server k sid req) s Q.
Proof using.
  intros HQ. unfold target_server. quiet. destruct x as [u|e]; quiet; [|apply HQ]. destruct x as [ctx|]; quiet; [|apply HQ].
  destruct x; quiet; apply HQ.
Qed.

Lemma read_body_ok tenant retry left s (Q : phase -> result failure json -> Prop) :
  fine s -> forwards s + left <= 2 -> 0 <= left -> (retry <> None -> 1 <= left) -> retry_ok (left - 1) retry -> ends s Q ->
  wpc (request_body user tenant k req retry) s Q.
Proof using.
  intros Hf Hl H0 Hn Hr HQ. unfold request_body. intros uid. split; [exact I|]. cbn [phase_step base_step]. apply wp_bind, route_ok.
  - intros e s' E E'. apply HQ; [intros i; by rewrite E|lia].
  - intros sid original. set (s1 := set_permitted (Some (sid, original)) s).
    assert (H1 : ends s1 Q) by exact HQ. apply wp_bind, cached_reply_ok; [done|]. intros [v|].
    + apply (ends_here s1 Q (Ok v) H1). change (forwards s1) with (forwards s). lia.
    + apply wp_bind, target_ok. intros [ctx|e].
      * by apply deliver_ok with (left := left).
      * apply (ends_here s1 Q (Throw e) H1). change (forwards s1) with (forwards s). lia.
Qed.

Lemma read_retries_ok tenant (left : nat) s (Q : phase -> result failure json -> Prop) :
  fine s -> forwards s + Z.of_nat left <= 2 -> ends s Q -> wpc (with_retries user tenant k req left) s Q.
Proof using.
  revert s Q. induction left as [|left IH]; intros s Q Hf Hl HQ; cbn [with_retries].
  - apply read_body_ok with (left := 0); [done|lia|lia|by intros []|by intros ?|done].
  - apply read_body_ok with (left := Z.of_nat (S left)); [done|lia|lia|lia| |done].
    intros again [= <-] s1 Q1 H1 H2 H3. apply IH; [done|lia|done].
Qed.
End Protocol.

(** ** The end *)

Ltac finish_lifted :=
  repeat first
    [ progress finish
    | match goal with
      | |- finishes (lift (if ?x then _ else _)) => destruct x
      | |- finishes (lift (match ?x with _ => _ end)) => destruct x
      end
    | progress cbn [finishes lift log_then] ].

Lemma recordTimeout_finishes ctx e : finishes (lift (recordTimeout ctx e)).
Proof. unfold recordTimeout. destruct (is_request_timeout e); [|done]. cbn [negb]. finish_lifted. Qed.

Lemma with_retries_finishes user tenant k p left : finishes (with_retries user tenant k p left).
Proof.
  assert (H : forall retry, (forall again, retry = Some again -> finishes again) -> finishes (request_body user tenant k p retry)).
  { intros retry Hr. unfold request_body. cbn [finishes]. intros _. apply finishes_await.
    - unfold route_request, resolve, may_use. destruct k; finish_lifted.
    - intros [sid original]. apply finishes_bind; [unfold cached_reply; finish_lifted|]. intros [v|]; [done|].
      apply finishes_await; [unfold target_server; finish_lifted|]. intros ctx. unfold deliver. cbn [finishes]. intros i.
      apply finishes_bind; [unfold rewrite_meta; finish_lifted|]. intros meta. apply finishes_bind.
      + apply finishes_await; [|unfold upstream_result; finish_lifted]. unfold through_cache, forward. destruct k; finish_lifted.
      + intros [v|e]; [finish_lifted|]. apply finishes_bind; [|finish_lifted]. unfold on_request_error.
        apply finishes_await; [apply recordTimeout_finishes|]. intros b. cbn [finishes]. intros _.
        destruct b as [[]|]; try done. destruct retry as [again|]; [by apply Hr|done]. }
  induction left as [|left IH]; cbn [with_retries]; apply H; [done|by intros again [= <-]].
Qed.

Definition handle (k : Kind) : string -> option string -> Params -> Handler json :=
  match k with Resource => handleResourceRead | Prompt => handlePromptGet end.

(** C3: Reading a resource or getting a prompt, whatever the other components
    answer: every request that reaches a server asks, on behalf of the same
    parameters, for what the session was permitted since the last one, under
    an id that is in use; so does every question to the cache; there are at
    most three, each but the last having timed out; and the request ends, with
    no id left in use. *)
Theorem reads_are_permitted (k : Kind) (user : string) (tenant : option string) (req : Params)
    (tr : list (event pcall)) (r : option (result failure json)) :
  runs (handle k user tenant req) tr r ->
  (forall pre ev post, tr = pre ++ ev :: post -> admitted user k req (phase_of pre) ev)
  /\ r <> None /\ in_use (phase_of tr) = [] /\ forwards (phase_of tr) <= 3.
Proof.
  intros Hr. assert (E : handle k user tenant req = with_retries user tenant k req 2) by (by destruct k). rewrite E in Hr.
  assert (Hwp : wp phase_step (admitted user k req) (with_retries user tenant k req 2) start (fun s _ => in_use s = [] /\ forwards s <= 3)).
  { apply read_retries_ok; [done|cbn; lia|]. intros s' a Hs H3. split; [|done].
    destruct (in_use s') as [|i l] eqn:Ei; [done|]. specialize (Hs i). rewrite Ei in Hs.
    assert (Hi : i ∈ []) by (apply Hs; by left). by apply elem_of_nil in Hi. }
  destruct (wp_runs _ _ _ _ _ _ _ _ Hwp Hr) as [H1 H2].
  destruct r as [a|]; [split_and! ; [exact H1|done|by apply (H2 a)..]|].
  exfalso. by apply (finishes_runs _ tr (with_retries_finishes user tenant k req 2)).
Qed.

(** * The other requests of a session: examples

    A gateway with a cache that keeps what servers answer; the protocol of
    [ProxyRequestsSafety] on a run of it, and what reading, completing and
    rewriting do that is not meant. *)

(** What the cache holds, and whether resources may be cached at all. *)
Record CachingWorld : Type := { gateway : World; stored : option json; caching : bool }.

Definition cache_config (on : bool) : ResultCacheConfig * ServerConfigCapabilities :=
  (config_with (fun v => if on && str_eqb v "RESULT_CACHE_ENABLED" then Some "true"%string else None) None,
   {| tools := []; prompts := []; resources := []; patterns := [];
      exact := [("file:///doc", {| ov_enabled := Some true; ov_cache := None |})]%string |}).

Definition envelope (c : CacheCall) (v : json) : CacheEntryEnvelope :=
  createEnvelope "" (c_operation c) (c_serverId c) (c_entityId c) ScopeUser "" 30 Immediate 0 "" v 0 None.

Definition looked_up (c : CacheCall) (o : option json) : CacheLookupResult := {|
  hit := bool_decide (is_Some o); entry := envelope c <$> o; bypassReason := None; lookupVersions := None |}.

Definition base_answer (X : Type) (e : ToolCall.call X) (w : CachingWorld) : X * CachingWorld :=
  match e in ToolCall.call X return X * CachingWorld with
  | ReadCacheConfig _ => (cache_config (caching w), w)
  | CacheLookup c => (Ok (looked_up c (stored w)), w)
  | CacheEnd _ r => (tt, {| gateway := gateway w; stored := match r with Ok v => Some v | Throw _ => stored w end; caching := caching w |})
  | e => let '(x, g) := answer _ e (gateway w) in (x, {| gateway := g; stored := stored w; caching := caching w |})
  end.

Definition next_answer (w : CachingWorld) : result failure json * CachingWorld :=
  match w_downstream (gateway w) with
  | [] => (Throw ToolCall.TypeError, w)
  | r :: d => (r, {| gateway := with_downstream d (w_timeouts (gateway w)) (gateway w); stored := stored w; caching := caching w |})
  end.

(** The server [files] has two tools, the name of one beginning that of the
    other. *)
Definition files_names : AppNames := {| app_id := "7"; app_tools := ["list"; "list_all"]; app_resources := ["file:///doc"] |}.

Definition proxy_answer (X : Type) (e : pcall X) (w : CachingWorld) : X * CachingWorld :=
  let mgr := w_mgr (gateway w) in
  let session := w_session (gateway w) in
  match e in pcall X return X * CachingWorld with
  | Base e => base_answer _ e w
  | ResolveResourceUri uri => (resolveResourceUri mgr session uri, w)
  | ParseName name => (parseName mgr session name, w)
  | CanAccessResource sid name => (canAccessResource mgr session sid name, w)
  | CanUsePrompt sid name => (canUsePrompt mgr session sid name, w)
  | HasConnection _ => (true, w)
  | GetAppNames sid => (Some files_names, w)
  | SubscribeResource _ _ => (Ok tt, w)
  | UnsubscribeResource _ _ => (Ok tt, w)
  | ReadResource _ _ _ _ => next_answer w
  | GetPrompt _ _ _ _ => next_answer w
  | Complete _ _ _ _ => next_answer w
  end.

Definition caching_world (on : bool) (d : list (result failure json)) : CachingWorld :=
  {| gateway := ex_world d; stored := None; caching := on |}.

Definition doc_uri : string := generateNewName "7" "file:///doc".
Definition doc_read : Params := {| p_target := doc_uri; p_rest := []; p_meta := Some [("progressToken", JNum 4)]%string |}.

Definition html (uri text : string) : json :=
  JObj [("contents", JArr [JObj [("uri", JStr uri); ("mimeType", JStr "text/html"); ("text", JStr text)]])]%string.

Definition read_doc (w : CachingWorld) := run_with proxy_answer (handleResourceRead "ann" None doc_read) w.

(** ** The protocol on a run *)

(** A read that times out once. *)
Definition slow_read := read_doc (caching_world true [Throw timed_out; Ok (html "file:///doc" "hello")]).

Lemma reads_are_permitted_witness :
  runs (handle Resource "ann" None doc_read) (fst (fst slow_read)) (Some (Ok (html doc_uri "hello")))
  /\ in_use (phase_of (fst (fst slow_read))) = [] /\ forwards (phase_of (fst (fst slow_read))) = 2
  /\ forwards (phase_of (fst (fst slow_read))) <= 3.
Proof.
  assert (H : runs (handle Resource "ann" None doc_read) (fst (fst slow_read)) (Some (Ok (html doc_uri "hello")))).
  { apply (run_with_result _ proxy_answer (handleResourceRead "ann" None doc_read)). vm_compute. reflexivity. }
  split; [exact H|]. split; [apply (reads_are_permitted Resource "ann" None doc_read _ _ H)|].
  split; [vm_compute; reflexivity|apply (reads_are_permitted Resource "ann" None doc_read _ _ H)].
Defined.

(** ** What is not meant *)

(** The same read twice: the first answer carries the name the client asked
    for, the second, from the cache, that of the server. *)
Example cached_read_not_rewritten :
  let first := read_doc (caching_world true [Ok (html "file:///doc" "hello")]) in
  reply_of first = Some (Ok (html doc_uri "hello")) /\ reply_of (read_doc (snd first)) = Some (Ok (html "file:///doc" "hello")).
Proof. vm_compute. split; reflexivity. Qed.

(** The name of a tool inside the name that was put for another one is
    replaced as well. *)
Example replacements_overlap :
  rewrite_text (replacements files_names) "list_all" = "list_-_7_all_-_7"%string.
Proof. vm_compute. reflexivity. Qed.

(** Completing a prompt that the session may not use: the server is asked. *)
Definition ann_without_prompts : Session := {|
  session_userId := "ann"; isAnonymous := false; userPreferences := [];
  permissions := [("files", {| sc_enabled := Some true; sc_tools := []; sc_resources := [];
                               sc_prompts := [("greet", {| cap_enabled := Some false; cap_dangerLevel := None |})] |})] |}%string.

Definition no_prompts_world (d : list (result failure json)) : CachingWorld :=
  let g := ex_world d in
  {| gateway := {| w_mgr := w_mgr g; w_session := ann_without_prompts; w_policies := w_policies g; w_history := w_history g; w_now := w_now g;
                   w_downstream := w_downstream g; w_timeouts := w_timeouts g; w_nextId := w_nextId g |};
     stored := None; caching := false |}.

Example completion_not_checked :
  canUsePrompt ex_manager ann_without_prompts "files" "greet" = false
  /\ reply_of (run_with proxy_answer (handlePromptGet "ann" None {| p_target := "greet_-_7"; p_rest := []; p_meta := None |}) (no_prompts_world [Ok JNull]))
     = Some (Throw (McpError InvalidParams "Permission denied for prompt: greet_-_7"))
  /\ reply_of (run_with proxy_answer (handleComplete {| c_ref := RefPrompt "greet_-_7"; c_rest := []; c_meta := None |}) (no_prompts_world [Ok (JStr "Ann")]))
     = Some (Ok (JStr "Ann")).
Proof. vm_compute. repeat split; reflexivity. Qed.
