(* ===== verification/ProxyRouting.v ===== *)
(** * Notifications between clients and servers

    Cancellations and progress of a session's requests
    ([src/src/mcp/core/ProxySession.ts]) over its request ids
    ([RequestIdMapper]), what happens to the headers of a request, the end of
    a session, and the broadcasts of
    [src/src/mcp/core/GlobalRequestRouter.ts]. *)
From Stdlib Require Import Ascii ZArith Lia.
From stdpp Require Import base gmap strings list.
From S2P Require Import Prelude Json JsMap RequestIdMapper.
Open Scope Z_scope.

(** ** Requests under way *)

(** What is sent on: to which connection or client, about which request,
    and in relation to which. *)
Record Forwarded (A : Type) : Type := { f_to : A; f_about : RequestId; f_related : RequestId }.
Arguments f_to {A} f.
Arguments f_about {A} f.
Arguments f_related {A} f.
Arguments Build_Forwarded {A} f_to f_about f_related.

(** [handleCancelledNotification]; [connection]: that of a server now. *)
Definition handleCancelledNotification (connection : string -> option string) (requestId : option RequestId) (m : Mapper)
    : option (Forwarded string) :=
  match requestId with
  | None => None
  | Some requestId =>
      match getProxyRequestId requestId m with
      | None => None
      | Some p =>
          if negb (truthy_str p) then None else
          match getMappingEntry p m with
          | None => None
          | Some mappingEntry =>
              match serverId mappingEntry with
              | None => None
              | Some s =>
                  if negb (truthy_str s) then None else
                  match getDownstreamRequestId p m, connection s with
                  | Some d, Some c => Some (Build_Forwarded c d (RStr p))
                  | _, _ => None
                  end
              end
          end
      end
  end.

(** [forwardProgressToClient]: the token the client gave, and its request. *)
Definition forwardProgressToClient (progressToken : RequestId) (m : Mapper) : option (Forwarded unit) :=
  let p := id_text progressToken in
  match getOriginalProgressToken p m, getOriginalRequestId p m with
  | Some t, Some o => Some (Build_Forwarded tt t o)
  | _, _ => None
  end.

Definition hasTrackedProgressToken (p : string) (m : Mapper) : bool := bool_decide (is_Some (getOriginalProgressToken p m)).

(** What leaves the request [r], with the proxy id [p] and registered at [at_],
    alone; another request may have any id, its text included, unless it comes
    within the same millisecond. *)
Definition spares (p : string) (r : RequestId) (at_ : Z) (o : mapper_op) (m : Mapper) : Prop :=
  match o with
  | OpRegister o _ _ now _ => id_text o = id_text r -> now = at_ -> o = r
  | OpDownstream q _ _ _ | OpToken q _ | OpRemove q => q <> p
  | OpCleanup now => p ∉ expired_ids now m
  | OpClear => False
  end.

(** Any number of operations, none about [p]. *)
Inductive meanwhile (p : string) (r : RequestId) (at_ : Z) : Mapper -> Mapper -> Prop :=
| meanwhile_nothing m : meanwhile p r at_ m m
| meanwhile_op m m' o : meanwhile p r at_ m m' -> spares p r at_ o m' -> meanwhile p r at_ m (mapper_exec o m').

(** The entry and the ids of a request. *)
Record holds (p : string) (r : RequestId) (at_ : Z) (e : MappingEntry) (m : Mapper) : Prop := {
  holds_own : entries_own m;
  holds_id : p = generateProxyRequestId m r at_;
  holds_entry : proxyToDownstream m !! p = Some e;
  holds_original : originalRequestId e = r;
  holds_client : proxyToClient m !! p = Some r
}.

Lemma holds_proxy p r at_ e m : holds p r at_ e m -> clientToProxy m !! r = Some p.
Proof. intros [[H _] _ He <- _]. by apply H. Qed.

Lemma exec_session o m : sessionId (mapper_exec o m) = sessionId m.
Proof.
  destruct o as [o me se now ts|q d s cl|q t|q|now|]; cbn; try done.
  - unfold registerClientRequest. destruct (clientToProxy m !! o) as [q|]; [by destruct (truthy_str q)|done].
  - unfold registerDownstreamMapping. by destruct (proxyToDownstream m !! q).
  - unfold setOriginalProgressToken. by destruct (proxyToDownstream m !! q).
  - unfold removeMapping. by destruct (proxyToDownstream m !! q).
  - generalize (expired_ids now m) as ps. intros ps. revert m. induction ps as [|q ps IH]; intros m; [done|]. cbn. rewrite IH.
    unfold removeMapping. by destruct (proxyToDownstream m !! q).
Qed.

Lemma remove_spares p q m : q <> p ->
  proxyToDownstream (removeMapping q m) !! p = proxyToDownstream m !! p /\ proxyToClient (removeMapping q m) !! p = proxyToClient m !! p.
Proof. intros Hne. unfold removeMapping. destruct (proxyToDownstream m !! q); [|done]. cbn. by rewrite !lookup_delete_ne. Qed.

Lemma removes_spare p ps m : p ∉ ps ->
  proxyToDownstream (fold_left (fun m q => removeMapping q m) ps m) !! p = proxyToDownstream m !! p
  /\ proxyToClient (fold_left (fun m q => removeMapping q m) ps m) !! p = proxyToClient m !! p.
Proof.
  revert m. induction ps as [|q ps IH]; intros m Hp; [done|]. cbn. apply not_elem_of_cons in Hp as [Hq Hp].
  destruct (IH (removeMapping q m) Hp) as [-> ->]. by apply remove_spares.
Qed.

(** What spares a request leaves its entry and its proxy id. *)
Lemma spared_lookups p r at_ e o m : holds p r at_ e m -> spares p r at_ o m ->
  proxyToDownstream (mapper_exec o m) !! p = proxyToDownstream m !! p /\ proxyToClient (mapper_exec o m) !! p = proxyToClient m !! p.
Proof.
  intros H Hs. destruct o as [o me se now ts|q d s cl|q t|q|now|]; cbn in *.
  - unfold registerClientRequest. destruct (clientToProxy m !! o) as [q|] eqn:E.
    { by rewrite (proj2 (holds_own _ _ _ _ _ H) o q). }
    cbn. rewrite !lookup_insert_ne; [done|..]; rewrite (holds_id _ _ _ _ _ H) at 1; intros Heq;
      rewrite (Hs (generate_inj _ _ _ _ _ Heq) (generate_inj_time _ _ _ _ _ Heq)), (holds_proxy _ _ _ _ _ H) in E; done.
  - unfold registerDownstreamMapping. destruct (proxyToDownstream m !! q); [|done]. cbn. by rewrite lookup_insert_ne.
  - unfold setOriginalProgressToken. destruct (proxyToDownstream m !! q); [|done]. cbn. by rewrite lookup_insert_ne.
  - by apply remove_spares.
  - by apply removes_spare.
  - done.
Qed.

Lemma holds_exec p r at_ e o m : holds p r at_ e m -> spares p r at_ o m -> holds p r at_ e (mapper_exec o m).
Proof.
  intros H Hs. destruct (spared_lookups _ _ _ _ _ _ H Hs) as [He Hc]. split.
  - apply exec_own, H.
  - rewrite (holds_id _ _ _ _ _ H) at 1. unfold generateProxyRequestId. by rewrite exec_session.
  - rewrite He. apply H.
  - apply H.
  - rewrite Hc. apply H.
Qed.

Lemma holds_meanwhile p r at_ e m m' : meanwhile p r at_ m m' -> holds p r at_ e m -> holds p r at_ e m'.
Proof. induction 1 as [m|m m' o _ IH Hs]; intros H; [done|]. apply holds_exec; auto. Qed.

Lemma token_entry p t e m :
  proxyToDownstream m !! p = Some e ->
  exists e', proxyToDownstream (setOriginalProgressToken p t m) !! p = Some e' /\ originalRequestId e' = originalRequestId e
    /\ serverId e' = serverId e /\ originalProgressToken e' = Some t.
Proof. intros He. unfold setOriginalProgressToken. rewrite He. cbn. rewrite lookup_insert_eq. by eexists. Qed.

Lemma downstream_entry p d s cl e m :
  proxyToDownstream m !! p = Some e ->
  exists e', proxyToDownstream (registerDownstreamMapping p d s cl m) !! p = Some e' /\ originalRequestId e' = originalRequestId e
    /\ serverId e' = Some s /\ downstreamRequestId e' = Some d /\ originalProgressToken e' = originalProgressToken e.
Proof. intros He. unfold registerDownstreamMapping. rewrite He. cbn. rewrite lookup_insert_eq. by eexists. Qed.

(** C24: From when a request was sent to its server, under the id [d], until its
    mapping is removed or expires or the session ends, cancelling it reaches
    that server and names [d], and progress reported under its proxy id
    reaches the client under the token the client gave, about that request.
    Other requests may come and go, before and meanwhile, whatever their ids,
    but for one: a request whose id has the same text (the number 1 and the
    string of it) and that comes within the same millisecond. *)
Theorem request_stays_routed (sid : string) (m m' : Mapper) (r d t : RequestId) (method : option string) (server : string)
    (connection : string -> option string) (c : string) (now ts : Z) :
  reached sid m -> clientToProxy m !! r = None -> server <> ""%string -> connection server = Some c ->
  let '(p, m1) := registerClientRequest r method (Some server) now ts m in
  let m2 := registerDownstreamMapping p d server None (setOriginalProgressToken p t m1) in
  meanwhile p r now m2 m' ->
  handleCancelledNotification connection (Some r) m' = Some (Build_Forwarded c d (RStr p))
  /\ forwardProgressToClient (RStr p) m' = Some (Build_Forwarded tt t r)
  /\ handleCancelledNotification connection (Some r) (removeMapping p m') = None
  /\ forwardProgressToClient (RStr p) (removeMapping p m') = None.
Proof.
  intros Hok%reached_own Hn Hs Hc.
  pose proof (exec_own (OpRegister r method (Some server) now ts) m Hok) as Hok1. cbn in Hok1.
  pose proof (generate_nonempty m r now) as Htp. unfold registerClientRequest in *. rewrite Hn in *. cbn in Hok1 |- *.
  set (p := generateProxyRequestId m r now) in *. set (m1 := {| sessionId := sessionId m |}) in *.
  set (m2 := registerDownstreamMapping _ _ _ _ _). intros Hm.
  assert (H2 : exists e, holds p r now e m2 /\ serverId e = Some server /\ downstreamRequestId e = Some d /\ originalProgressToken e = Some t).
  { assert (E0 : exists e0, proxyToDownstream m1 !! p = Some e0 /\ originalRequestId e0 = r).
    { eexists. split; [apply lookup_insert_eq|done]. }
    destruct E0 as (e0 & E0 & Er). destruct (token_entry p t e0 m1 E0) as (e1 & E1 & E1r & _ & E1t).
    destruct (downstream_entry p d server None e1 _ E1) as (e2 & E2 & E2r & E2s & E2d & E2t).
    exists e2. split; [|by rewrite E2t]. split; [| |done|congruence|].
    - apply (exec_own (OpDownstream p d server None)), (exec_own (OpToken p t)), Hok1.
    - change m2 with (mapper_exec (OpDownstream p d server None) (mapper_exec (OpToken p t) m1)).
      unfold generateProxyRequestId. by rewrite !exec_session.
    - unfold m2, registerDownstreamMapping. rewrite E1. cbn. unfold setOriginalProgressToken. rewrite E0. apply lookup_insert_eq. }
  destruct H2 as (e & He & Es & Ed & Et). apply (holds_meanwhile _ _ _ _ _ _ Hm) in He.
  pose proof (holds_proxy _ _ _ _ _ He) as Hr. destruct He as [_ _ He Ho Hp]. apply str_eqb_neq in Hs as Hs'.
  split_and!.
  - unfold handleCancelledNotification, getProxyRequestId, getMappingEntry, getDownstreamRequestId. rewrite Hr, Htp, He. cbn.
    rewrite Es. unfold truthy_str. rewrite Hs'. cbn. by rewrite Ed, Hc.
  - unfold forwardProgressToClient, getOriginalProgressToken, getOriginalRequestId. cbn [id_text]. rewrite He, Hp. cbn. by rewrite Et.
  - unfold handleCancelledNotification, getProxyRequestId, removeMapping. rewrite He. cbn. by rewrite Ho, lookup_delete_eq.
  - unfold forwardProgressToClient, getOriginalProgressToken, removeMapping. cbn [id_text]. rewrite He. cbn. by rewrite lookup_delete_eq.
Qed.

(** ** The headers of a request *)

(** [headers], the pairs of [rawHeaders], [headersDistinct]. *)
Record Headers : Type := {
  headers : list (string * string);
  rawHeaders : option (list (string * string));
  headersDistinct : option (list (string * list string))
}.

Definition removeHeader (name : string) (h : Headers) : Headers := {|
  headers := map_delete name (headers h);
  rawHeaders := List.filter (fun kv => negb (str_eqb (to_lower (fst kv)) name)) <$> rawHeaders h;
  headersDistinct := map_delete name <$> headersDistinct h |}.

(** The names that are removed for the time of the request. *)
Definition removed_names (supported : list string) (h : Headers) : list string :=
  match assoc "mcp-protocol-version" (headers h) with
  | Some v => if truthy_str v && negb (existsb (str_eqb v) supported) then ["mcp-protocol-version"%string] else []
  | None => []
  end ++ ["mcp-method"; "mcp-name"]%string.

Definition stripped (supported : list string) (h : Headers) : Headers :=
  fold_left (fun h' name => removeHeader name h') (removed_names supported h) h.

Definition put_back {A} (name : string) (value : option A) (m : list (string * A)) : list (string * A) :=
  match value with None => map_delete name m | Some v => map_set name v m end.

(** The headers after the request, which leaves them as they were for it. *)
Definition withLegacyCompatibleHeaders (supported : list string) (h : Headers) : Headers :=
  let during := stripped supported h in
  let names := removed_names supported h in
  {| headers := fold_left (fun m name => put_back name (assoc name (headers h)) m) names (headers during);
     rawHeaders := rawHeaders h;
     headersDistinct := (fun m => fold_left (fun m name => put_back name (headersDistinct h ≫= assoc name) m) names m) <$> headersDistinct during |}.

Lemma assoc_put_back {A} k name (v : option A) m : assoc k (put_back name v m) = if str_eqb k name then v else assoc k m.
Proof.
  destruct v as [v|]; cbn; [|apply assoc_map_delete]. apply assoc_map_set.
Qed.

Lemma assoc_restored {A} k (f : string -> option A) names m :
  assoc k (fold_left (fun m name => put_back name (f name) m) names m) = if existsb (str_eqb k) names then f k else assoc k m.
Proof.
  revert m. induction names as [|n names IH]; intros m; [done|]. cbn. rewrite IH, assoc_put_back.
  destruct (existsb (str_eqb k) names); [by rewrite orb_true_r|]. destruct (str_eqb k n) eqn:E; [|done]. by apply str_eqb_eq in E as ->.
Qed.

Lemma stripped_maps supported h :
  (forall k, assoc k (headers (stripped supported h)) = if existsb (str_eqb k) (removed_names supported h) then None else assoc k (headers h))
  /\ headersDistinct (stripped supported h) = (fun m => fold_left (fun m n => map_delete n m) (removed_names supported h) m) <$> headersDistinct h.
Proof.
  unfold stripped. generalize (removed_names supported h) as names. intros names. revert h.
  induction names as [|n names IH]; intros h; cbn; [by destruct (headersDistinct h)|]. destruct (IH (removeHeader n h)) as [H1 H2]. split.
  - intros k. rewrite H1. cbn. rewrite assoc_map_delete. destruct (existsb (str_eqb k) names); [by rewrite orb_true_r|]. by destruct (str_eqb k n).
  - rewrite H2. cbn. by destruct (headersDistinct h).
Qed.

(** For the time of the request the headers of the modern protocol are gone;
    afterwards every header is as it was. *)
Lemma headers_restored supported h :
  (forall k, k ∈ ["mcp-method"; "mcp-name"]%string -> assoc k (headers (stripped supported h)) = None)
  /\ (forall k, assoc k (headers (withLegacyCompatibleHeaders supported h)) = assoc k (headers h))
  /\ rawHeaders (withLegacyCompatibleHeaders supported h) = rawHeaders h
  /\ (forall k, headersDistinct (withLegacyCompatibleHeaders supported h) ≫= assoc k = headersDistinct h ≫= assoc k).
Proof.
  destruct (stripped_maps supported h) as [H1 H2]. split_and! ; [| |done|].
  - intros k Hk. rewrite H1. assert (E : existsb (str_eqb k) (removed_names supported h) = true); [|by rewrite E].
    apply existsb_exists. exists k. split; [|apply str_eqb_refl]. unfold removed_names. apply in_or_app. right.
    by apply list_elem_of_In.
  - intros k. cbn. rewrite (assoc_restored k (fun n => assoc n (headers h))), H1. by destruct (existsb _ _).
  - intros k. cbn. rewrite H2. destruct (headersDistinct h) as [m|]; [|done]. cbn.
    rewrite (assoc_restored k (fun n => assoc n m)). destruct (existsb (str_eqb k) _) eqn:E; [done|].
    generalize dependent (removed_names supported h). intros names _ _ E. revert m. induction names as [|n names IH]; intros m; [done|].
    cbn in E |- *. apply orb_false_elim in E as [E1 E2]. rewrite IH by done. rewrite assoc_map_delete. by rewrite E1.
Qed.

(** ** The end of a session *)

(** [triggerOnClose]: whether [onclose] is called, and [closeTriggered]. *)
Definition triggerOnClose (closeTriggered : bool) : bool * bool := (negb closeTriggered, true).

(** What a request without a transport may do. *)
Inductive RequestPlan : Type := UseTransport | NewTransport | BadRequest (message : string).

Definition plan_request (hasTransport isInitialize : bool) (method : string) : RequestPlan :=
  if hasTransport then UseTransport
  else if isInitialize then NewTransport
  else BadRequest (if str_eqb method "DELETE" then "Bad Request: No active session to terminate" else "Bad Request: No valid session ID provided").

(** ** Broadcasts *)

(** [sentNotifications] *)
Definition Sent : Type := list (string * list string).

(** A session: whether it may access the server, and whether sending works
    ([false]: it throws). *)
Record Recipient : Type := { r_sessionId : string; r_canAccess : bool; r_sends : bool }.

Inductive signal : Type :=
| Publish (method serverId : string) (scopeId resourceUri : option string)
| NotifyUserPermissionChangedByServer (serverId : string)
| SendTo (sessionId method : string).

Definition MAX_KEYS : nat := 100.

(** [sent.add(key)], and the oldest keys dropped. *)
Definition remember (key : string) (sent : list string) : list string :=
  let sent := sent ++ [key] in
  if (MAX_KEYS <? length sent)%nat then drop (length sent - MAX_KEYS) sent else sent.

Definition sent_to (i : string) (m : Sent) : list string := default [] (assoc i m).

Definition deliver_to (method key : string) (wanted : Recipient -> bool) (acc : list signal * Sent) (r : Recipient) : list signal * Sent :=
  let '(out, m) := acc in
  if negb (wanted r) || negb (r_canAccess r) then acc
  else
    let sent := sent_to (r_sessionId r) m in
    if existsb (str_eqb key) sent then acc
    else if r_sends r then (out ++ [SendTo (r_sessionId r) method], map_set (r_sessionId r) (remember key sent) m)
    else acc.

Definition broadcast (method key : string) (wanted : Recipient -> bool) (sessions : list Recipient) (m : Sent) : list signal * Sent :=
  fold_left (deliver_to method key wanted) sessions ([], m).

(** The three list notifications. *)
Definition list_changed (kind method serverId : string) (now : Z) (sessions : list Recipient) (m : Sent) : list signal * Sent :=
  let key := kind +:+ "_changed_" +:+ serverId +:+ "_" +:+ z_to_string now in
  let '(out, m) := broadcast method key (fun _ => true) sessions m in
  (Publish method serverId None None :: NotifyUserPermissionChangedByServer serverId :: out, m).

Definition handleToolsListChanged := list_changed "tools" "notifications/tools/list_changed".
Definition handleResourcesListChanged := list_changed "resources" "notifications/resources/list_changed".
Definition handlePromptsListChanged := list_changed "prompts" "notifications/prompts/list_changed".

(** [handleResourceUpdated], after the cache was told; [subscribers]: the
    sessions subscribed to the resource. *)
Definition handleResourceUpdated (serverId uri : string) (scopeId : option string) (subscribers : list string) (now : Z)
    (sessions : list Recipient) (m : Sent) : list signal * Sent :=
  let published := Publish "notifications/resources/updated" serverId scopeId (Some uri) in
  match subscribers with
  | [] => ([published], m)
  | _ =>
      let key := "resource_updated_" +:+ serverId +:+ "_" +:+ uri +:+ "_" +:+ z_to_string now in
      let '(out, m) := broadcast "notifications/resources/updated" key (fun r => existsb (str_eqb (r_sessionId r)) subscribers) sessions m in
      (published :: out, m)
  end.

Definition cleanupSessionNotifications (i : string) (m : Sent) : Sent := map_delete i m.

(** Nothing remembers more than its limit. *)
Definition bounded (m : Sent) : Prop := forall i, (length (sent_to i m) <= MAX_KEYS)%nat.

Lemma remember_bounded key sent : (length (remember key sent) <= MAX_KEYS)%nat.
Proof.
  unfold remember. destruct (_ <? _)%nat eqn:E; [|apply Nat.ltb_ge in E; lia]. rewrite length_drop. apply Nat.ltb_lt in E. lia.
Qed.

Lemma remember_has key sent : key ∈ remember key sent.
Proof.
  unfold remember. destruct (_ <? _)%nat eqn:E; [|apply elem_of_app; right; by left].
  rewrite length_app. cbn. rewrite drop_app_le; [apply elem_of_app; right; by left|]. unfold MAX_KEYS. lia.
Qed.

Lemma sent_to_set i j sent m : sent_to i (map_set j sent m) = if str_eqb i j then sent else sent_to i m.
Proof. unfold sent_to. rewrite assoc_map_set. by destruct (str_eqb i j). Qed.

Definition due (method key : string) (wanted : Recipient -> bool) (m : Sent) (r : Recipient) : bool :=
  wanted r && r_canAccess r && negb (existsb (str_eqb key) (sent_to (r_sessionId r) m)) && r_sends r.

Lemma deliver_due method key wanted out m r :
  deliver_to method key wanted (out, m) r =
  if due method key wanted m r
  then (out ++ [SendTo (r_sessionId r) method], map_set (r_sessionId r) (remember key (sent_to (r_sessionId r) m)) m) else (out, m).
Proof.
  unfold deliver_to, due. destruct (wanted r), (r_canAccess r); try done. cbn. destruct (existsb _ _); [done|]. by destruct (r_sends r).
Qed.

Lemma broadcast_from method key wanted sessions out m :
  NoDup (map r_sessionId sessions) -> bounded m ->
  let '(out', m') := fold_left (deliver_to method key wanted) sessions (out, m) in
  out' = out ++ map (fun r => SendTo (r_sessionId r) method) (List.filter (due method key wanted m) sessions)
  /\ bounded m'
  /\ (forall r, r ∈ sessions -> due method key wanted m r = true -> key ∈ sent_to (r_sessionId r) m')
  /\ (forall i, i ∉ map r_sessionId sessions -> sent_to i m' = sent_to i m).
Proof.
  revert out m. induction sessions as [|r l IH]; intros out m Hnd Hb; cbn [fold_left].
  - split_and! ; [by rewrite app_nil_r|done|by intros r ?%elem_of_nil|done].
  - rewrite deliver_due. cbn in Hnd. apply NoDup_cons in Hnd as [Hr Hnd].
    assert (Hsame : forall m1, (forall i, i <> r_sessionId r -> sent_to i m1 = sent_to i m) ->
      List.filter (due method key wanted m1) l = List.filter (due method key wanted m) l /\ forall x, x ∈ l -> due method key wanted m1 x = due method key wanted m x).
    { intros m1 H. assert (Hx : forall x, x ∈ l -> due method key wanted m1 x = due method key wanted m x).
      { intros x Hx. unfold due. rewrite H; [done|]. intros E. apply Hr. rewrite <- E. by apply list_elem_of_fmap_2. }
      split; [|done]. apply filter_ext_in. intros x Hi. by apply Hx, list_elem_of_In. }
    destruct (due method key wanted m r) eqn:E.
    + set (m1 := map_set (r_sessionId r) _ m). specialize (IH (out ++ [SendTo (r_sessionId r) method]) m1 Hnd).
      assert (Hm1 : forall i, i <> r_sessionId r -> sent_to i m1 = sent_to i m).
      { intros i Hi. unfold m1. rewrite sent_to_set. apply str_eqb_neq in Hi. by rewrite Hi. }
      assert (Hb1 : bounded m1).
      { intros i. unfold m1. rewrite sent_to_set. destruct (str_eqb i _); [apply remember_bounded|apply Hb]. }
      specialize (IH Hb1). destruct (fold_left _ l _) as [out' m']. destruct IH as (H1 & H2 & H3 & H4).
      destruct (Hsame m1 Hm1) as [Hf Hd]. split_and!.
      * rewrite H1, Hf. cbn. rewrite E. cbn. by rewrite <- app_assoc.
      * done.
      * intros x [->|Hx]%elem_of_cons Hdue; [|apply H3; [done|by rewrite Hd]]. rewrite H4 by done.
        unfold m1. rewrite sent_to_set, str_eqb_refl. apply remember_has.
      * intros i Hi. cbn in Hi. apply not_elem_of_cons in Hi as [Hi1 Hi2]. by rewrite H4, Hm1.
    + specialize (IH out m Hnd Hb). destruct (fold_left _ l _) as [out' m']. destruct IH as (H1 & H2 & H3 & H4). split_and!.
      * rewrite H1. cbn. by rewrite E.
      * done.
      * intros x [->|Hx]%elem_of_cons Hdue; [congruence|by apply H3].
      * intros i Hi. cbn in Hi. apply not_elem_of_cons in Hi as [_ Hi]. by apply H4.
Qed.

(** A broadcast reaches, once and in order, every session that wants it, may
    access the server, can be sent to and has not had it; those are
    remembered, so that the same notification is not sent to them again; what
    is remembered of a session stays bounded. *)
Theorem broadcast_once (method key : string) (wanted : Recipient -> bool) (sessions : list Recipient) (m : Sent) :
  NoDup (map r_sessionId sessions) -> bounded m ->
  let '(out, m') := broadcast method key wanted sessions m in
  out = map (fun r => SendTo (r_sessionId r) method) (List.filter (due method key wanted m) sessions)
  /\ bounded m'
  /\ (forall r, r ∈ sessions -> due method key wanted m r = true -> due method key wanted m' r = false).
Proof.
  intros Hnd Hb. unfold broadcast. pose proof (broadcast_from method key wanted sessions [] m Hnd Hb) as H.
  destruct (fold_left _ _ _) as [out m']. destruct H as (H1 & H2 & H3 & H4). split_and! ; [done|done|].
  intros r Hr E. specialize (H3 r Hr E). unfold due. assert (Hx : existsb (str_eqb key) (sent_to (r_sessionId r) m') = true).
  { apply existsb_exists. exists key. split; [by apply list_elem_of_In|apply str_eqb_refl]. }
  rewrite Hx. cbn. by rewrite andb_false_r.
Qed.

(** ** Examples *)

Definition one_request : Mapper :=
  let '(p, m) := registerClientRequest (RNum 1) (Some "tools/call"%string) (Some "files"%string) 5 5 (new_mapper "s") in
  registerDownstreamMapping p (RNum 77) "files" None (setOriginalProgressToken p (RNum 4) m).

(** Meanwhile a request with the string of its id as id comes, a millisecond
    later, and goes. *)
Definition second_came : Mapper := mapper_exec (OpRegister (RStr "1") (Some "tools/call"%string) (Some "mail"%string) 6 6) one_request.
Definition second_went : Mapper := mapper_exec (OpRemove "s:1:6") second_came.

Lemma request_stays_routed_witness :
  handleCancelledNotification (fun s => if str_eqb s "files" then Some "client"%string else None) (Some (RNum 1)) second_went
    = Some (Build_Forwarded "client"%string (RNum 77) (RStr "s:1:5"))
  /\ forwardProgressToClient (RStr "s:1:5") second_went = Some (Build_Forwarded tt (RNum 4) (RNum 1)).
Proof.
  assert (Hm : meanwhile "s:1:5" (RNum 1) 5 one_request second_went).
  { unfold second_went. apply meanwhile_op; [|discriminate].
    unfold second_came. apply meanwhile_op; [apply meanwhile_nothing|]. intros _ Ht. discriminate Ht. }
  pose proof (request_stays_routed "s" (new_mapper "s") second_went (RNum 1) (RNum 77) (RNum 4) (Some "tools/call"%string) "files"
    (fun s => if str_eqb s "files" then Some "client"%string else None) "client" 5 5) as H.
  cbv beta zeta in H. destruct H as (H1 & H2 & _).
  - apply reached_new.
  - reflexivity.
  - discriminate.
  - reflexivity.
  - exact Hm.
  - by split.
Defined.

Definition three_sessions : list Recipient :=
  [{| r_sessionId := "a"; r_canAccess := true; r_sends := true |}; {| r_sessionId := "b"; r_canAccess := false; r_sends := true |};
   {| r_sessionId := "c"; r_canAccess := true; r_sends := true |}]%string.

Lemma broadcast_once_witness :
  fst (broadcast "m" "k" (fun _ => true) three_sessions []) = [SendTo "a" "m"; SendTo "c" "m"].
Proof.
  pose proof (broadcast_once "m" "k" (fun _ => true) three_sessions []) as H.
  destruct (broadcast "m" "k" (fun _ => true) three_sessions []) as [out m']. destruct H as [-> _].
  - apply (bool_decide_unpack _). vm_compute. exact I.
  - intros i. cbn. unfold MAX_KEYS. lia.
  - vm_compute. reflexivity.
Defined.

(** Two changes of a resource within a millisecond: the subscribers hear of
    the first only. *)
Example second_change_dropped :
  let '(_, m) := handleResourceUpdated "files" "file:///doc" None ["a"%string] 5 three_sessions [] in
  fst (handleResourceUpdated "files" "file:///doc" None ["a"%string] 5 three_sessions m)
  = [Publish "notifications/resources/updated" "files" None (Some "file:///doc"%string)].
Proof. vm_compute. reflexivity. Qed.
