(* ===== verification/Discovery.v ===== *)
(** * The catalogue of actions

    Progressive disclosure: clients search a catalogue of the tools of all
    servers instead of listing them ([src/src/mcp/services/
    DiscoverySearchService.ts], [DiscoveryNativeToolHandlers.ts],
    [DiscoveryIndexBuilder.ts], [src/src/types/discovery.types.ts],
    [src/src/repositories/CatalogActionRepository.ts]), and the filter of the
    tool listing ([src/src/mcp/core/ProxySession.ts]).  The digest is a
    parameter. *)
From Stdlib Require Import Ascii ZArith Lia.
From stdpp Require Import base strings list.
From S2P Require Import Prelude Json JsMap ServerTypes Effects.
Open Scope Z_scope.

(** ** Exposure rules *)

(** [isNonEmptyStringArray]: an empty array passes. *)
Definition isNonEmptyStringArray (v : json) : bool :=
  match v with JArr l => forallb (fun x => match x with JStr s => negb (str_eqb s "") | _ => false end) l | _ => false end.

Definition is_risk (s : string) : bool := str_eqb s "low" || str_eqb s "high".
Definition isDirectExposureRiskLevel (v : json) : bool := match v with JStr s => is_risk s | _ => false end.
Definition isDirectExposureRiskLevelArray (v : json) : bool :=
  match v with JArr l => forallb isDirectExposureRiskLevel l | _ => false end.

Definition isRecordValue (v : json) : bool := match v with JObj _ => true | _ => false end.

(** [Array.isArray(v) && v.length > 0] *)
Definition has_items (v : json) : bool := match v with JArr (_ :: _) => true | _ => false end.

Definition validate_rule (path : string) (rawRule : json) : option string :=
  if negb (isRecordValue rawRule) then Some (path +:+ " must be an object")
  else
    let m := jfield_opt rawRule "match" in
    if negb (isRecordValue m) then Some (path +:+ ".match must be an object")
    else
    match jfield_opt rawRule "directCallable" with
    | JBool _ =>
        let serverIds := jfield_opt m "serverIds" in
        let riskLevels := jfield_opt m "riskLevels" in
        let defined v := match v with JUndefined => false | _ => true end in
        if defined serverIds && negb (isNonEmptyStringArray serverIds)
        then Some (path +:+ ".match.serverIds must be a non-empty array of strings")
        else if defined riskLevels && negb (isDirectExposureRiskLevelArray riskLevels)
        then Some (path +:+ ".match.riskLevels must contain only " +:+ String dquote ("low" +:+ String dquote (" or " +:+ String dquote ("high" +:+ String dquote ""))))
        else if negb (has_items serverIds) && negb (has_items riskLevels)
        then Some (path +:+ ".match must include a non-empty serverIds or riskLevels array")
        else None
    | _ => Some (path +:+ ".directCallable must be a boolean")
    end.

Fixpoint validate_rules (n : Z) (l : list json) : option string :=
  match l with
  | [] => None
  | rule :: l =>
      match validate_rule ("config.directExposureRules[" +:+ z_to_string n +:+ "]") rule with
      | Some e => Some e
      | None => validate_rules (n + 1) l
      end
  end.

Definition validateDiscoveryProfileConfig (config : json) : option string :=
  if negb (isRecordValue config) then Some "config must be a JSON object"%string
  else
    match jfield_opt config "directExposureRules" with
    | JUndefined => None
    | JArr l => validate_rules 0 l
    | _ => Some "config.directExposureRules must be an array"%string
    end.

Definition includes_text (s : string) (v : json) : bool :=
  match v with JArr l => existsb (fun x => match x with JStr t => str_eqb s t | _ => false end) l | _ => false end.

(** What one rule says of an action: [None], nothing. *)
Definition rule_says (rule : json) (serverId : string) (riskLevel : option string) : result exn (option bool) :=
  try! m := jget rule "match" in
  Ok match m with
     | JObj _ | JArr _ =>
         let serverIds := let v := jfield_opt m "serverIds" in if isNonEmptyStringArray v && has_items v then Some v else None in
         let riskLevels := let v := jfield_opt m "riskLevels" in if isDirectExposureRiskLevelArray v && has_items v then Some v else None in
         let servers_match := match serverIds with Some v => includes_text serverId v | None => true end in
         let risks_match := match riskLevels with
                            | Some v => match riskLevel with Some r => is_risk r && includes_text r v | None => false end
                            | None => true
                            end in
         let hasCondition := bool_decide (is_Some serverIds) || bool_decide (is_Some riskLevels) in
         match jfield_opt rule "directCallable" with
         | JBool b => if hasCondition && (servers_match && risks_match) then Some b else None
         | _ => None
         end
     | _ => None
     end.

Fixpoint first_says (rules : list json) (serverId : string) (riskLevel : option string) (defaultValue : bool) : result exn bool :=
  match rules with
  | [] => Ok defaultValue
  | rule :: rules =>
      try! r := rule_says rule serverId riskLevel in
      match r with Some b => Ok b | None => first_says rules serverId riskLevel defaultValue end
  end.

Definition evaluateExposureRules (rules : json) (serverId : string) (riskLevel : option string) (defaultValue : bool) : result exn bool :=
  match rules with JArr l => first_says l serverId riskLevel defaultValue | _ => Ok defaultValue end.

(** [config?.directExposureRules] *)
Definition exposure_rules (config : json) : json := jfield_opt config "directExposureRules".

Definition inferDiscoveryRiskLevel (annotations : json) : option string :=
  match jfield_opt annotations "destructiveHint" with
  | JBool true => Some "high"%string
  | _ => match jfield_opt annotations "readOnlyHint" with JBool true => Some "low"%string | _ => None end
  end.

(** ** The catalogue *)

Record CatalogAction : Type := {
  actionId : string;
  ca_serverId : string;
  originalName : string;
  wireName : option string;
  displayName : string;
  title : string;
  summary : string;
  ca_description : option string;
  riskLevel : option string;
  ca_enabled : bool;
  inputSchema : json;
  outputSchema : json;
  annotations : json;
  examples : json;
  schemaHash : string;
  searchText : option string;
  lastIndexedAt : Z
}.

Record CatalogSearchParams : Type := {
  sp_query : string;
  sp_serverIds : list string;
  sp_riskMax : option string;
  sp_limit : nat;
  sp_offset : nat
}.

Definition RISK_ORDER : list (string * Z) := [("low", 1); ("medium", 2); ("high", 3); ("critical", 4)]%string.

(** The risks up to the greatest allowed. *)
Definition allowed_risks (riskMax : string) : list string :=
  let max := default 4 (assoc riskMax RISK_ORDER) in
  map fst (List.filter (fun kv => snd kv <=? max) RISK_ORDER).

Definition elem (s : string) (l : list string) : bool := existsb (str_eqb s) l.

(** The [where] of [search]. *)
Definition search_where (p : CatalogSearchParams) (a : CatalogAction) : bool :=
  ca_enabled a
  && match searchText a with Some t => includes (to_lower (sp_query p)) (to_lower t) | None => false end
  && match sp_serverIds p with [] => true | l => elem (ca_serverId a) l end
  && match sp_riskMax p with
     | Some max => if str_eqb max "" then true else match riskLevel a with None => true | Some r => elem r (allowed_risks max) end
     | None => true
     end.

(** [search]: latest first; the database orders rows indexed at the same time
    as it likes. *)
Definition found_by (p : CatalogSearchParams) (table l : list CatalogAction) : Prop :=
  exists ordered, ordered ≡ₚ List.filter (search_where p) table
    /\ Sorted.StronglySorted (fun a b => lastIndexedAt b <= lastIndexedAt a) ordered /\ l = take (sp_limit p) (drop (sp_offset p) ordered).

Definition findByActionId (i : string) (table : list CatalogAction) : option CatalogAction :=
  List.find (fun a => str_eqb (actionId a) i) table.
Definition findByActionIds (ids : list string) (table : list CatalogAction) : list CatalogAction :=
  List.filter (fun a => elem (actionId a) ids) table.

Definition upsert (a : CatalogAction) (table : list CatalogAction) : list CatalogAction :=
  if existsb (fun b => str_eqb (actionId b) (actionId a)) table
  then map (fun b => if str_eqb (actionId b) (actionId a) then a else b) table
  else table ++ [a].
Definition bulkUpsert (actions table : list CatalogAction) : list CatalogAction := fold_left (fun t a => upsert a t) actions table.

Definition deleteByServerId (serverId : string) (table : list CatalogAction) : list CatalogAction :=
  List.filter (fun a => negb (str_eqb (ca_serverId a) serverId)) table.
Definition deleteByServerIdExcept (serverId : string) (keep : list string) (table : list CatalogAction) : list CatalogAction :=
  match keep with
  | [] => deleteByServerId serverId table
  | _ => List.filter (fun a => negb (str_eqb (ca_serverId a) serverId) || elem (actionId a) keep) table
  end.
Definition deleteExceptServerIds (keep : list string) (table : list CatalogAction) : list CatalogAction :=
  List.filter (fun a => elem (ca_serverId a) keep) table.

(** ** Searching *)

(** [isToolEnabledForUser] *)
Definition isToolEnabledForUser (permissions : json) (serverId toolName : string) : bool :=
  let tool := jfield_opt (jfield_opt (jfield_opt permissions serverId) "tools") toolName in
  if negb (isRecordValue permissions) || negb (isRecordValue (jfield_opt permissions serverId))
     || negb (isRecordValue (jfield_opt (jfield_opt permissions serverId) "tools")) || negb (isRecordValue tool)
  then true
  else match jfield_opt tool "enabled" with JBool b => b | _ => true end.

Record CatalogSearchInput : Type := {
  query : string;
  in_profileId : option string;
  in_serverIds : option (list string);
  riskMax : option string;
  directCallableOnly : bool;
  in_limit : option Z;
  cursor : option string
}.

Record CatalogSearchResultItem : Type := {
  it_actionId : string;
  it_displayName : string;
  it_title : string;
  it_summary : string;
  it_serverId : string;
  it_riskLevel : option string;
  directCallable : bool;
  it_schemaHash : string
}.

Record CatalogSearchResult : Type := {
  results : list CatalogSearchResultItem;
  nextCursor : option string;
  totalCount : Z
}.

Definition no_results : CatalogSearchResult := {| results := []; nextCursor := None; totalCount := 0 |}.

(** The user row, its permissions as they are stored: a text. *)
Record CatalogUser : Type := { cu_userId : string; cu_permissions : string }.

(** A profile, for searching. *)
Record CatalogProfile : Type := { pr_id : string; pr_mode : string; pr_enabled : bool; pr_config : json }.

Definition calculateRank (a : CatalogAction) (query : string) : Z :=
  let q := to_lower query in
  let exact_or s exact part := if str_eqb (to_lower s) q then exact else if includes q (to_lower s) then part else 0 in
  exact_or (displayName a) 1000 400 + exact_or (title a) 350 200
  + (if includes q (to_lower (summary a)) then 80 else 0)
  + (if includes q (to_lower (default ""%string (searchText a))) then 40 else 0).

Definition parseCursor (cursor : option string) : Z :=
  match cursor with
  | Some c => if str_eqb c "" then 0 else match parseInt10 c with Some n => if n <? 0 then 0 else n | None => 0 end
  | None => 0
  end.

Definition MAX_SCAN_SIZE : nat := 1000.

Definition page_limit (limit : option Z) : Z := Z.min (Z.max (default 10 limit) 1) 25.

Definition by_rank (query : string) (a b : CatalogAction) : bool := calculateRank b query <=? calculateRank a query.

(** Filters with a test that may throw. *)
Fixpoint filter_try {A} (f : A -> result exn bool) (l : list A) : result exn (list A) :=
  match l with
  | [] => Ok []
  | a :: l => try! b := f a in try! l := filter_try f l in Ok (if b : bool then a :: l else l)
  end.
Fixpoint map_try {A B} (f : A -> result exn B) (l : list A) : result exn (list B) :=
  match l with
  | [] => Ok []
  | a :: l => try! b := f a in try! l := map_try f l in Ok (b :: l)
  end.

Definition result_item (rules : json) (a : CatalogAction) : result exn CatalogSearchResultItem :=
  try! callable := evaluateExposureRules rules (ca_serverId a) (riskLevel a) false in
  Ok {| it_actionId := actionId a; it_displayName := displayName a; it_title := title a; it_summary := summary a;
        it_serverId := ca_serverId a; it_riskLevel := riskLevel a; directCallable := callable; it_schemaHash := schemaHash a |}.

(** The scanned rows the user and the session may use, of direct actions only if
    asked for, best first. *)
Definition ranked_rows (input : CatalogSearchInput) (query : string) (user : option CatalogUser) (canUseTool : string -> string -> bool)
    (rules : json) (scanned : list CatalogAction) : result exn (list CatalogAction) :=
  let permitted := match user with
                   | Some u => List.filter (fun a => isToolEnabledForUser (JStr (cu_permissions u)) (ca_serverId a) (originalName a)) scanned
                   | None => scanned
                   end in
  let usable := List.filter (fun a => canUseTool (ca_serverId a) (originalName a)) permitted in
  try! filtered :=
    (if directCallableOnly input
     then filter_try (fun a => evaluateExposureRules rules (ca_serverId a) (riskLevel a) false) usable
     else Ok usable) in
  Ok (isort (by_rank query) filtered).

(** What [search] makes of the scanned rows. *)
Definition search_page (input : CatalogSearchInput) (query : string) (user : option CatalogUser) (canUseTool : string -> string -> bool)
    (rules : json) (scanned : list CatalogAction) : result exn CatalogSearchResult :=
  let limit := page_limit (in_limit input) in
  let offset := parseCursor (cursor input) in
  try! ranked := ranked_rows input query user canUseTool rules scanned in
  let total := Z.of_nat (length ranked) in
  try! items := map_try (result_item rules) (take (Z.to_nat limit) (drop (Z.to_nat offset) ranked)) in
  Ok {| results := items; nextCursor := if offset + limit <? total then Some (z_to_string (offset + limit)) else None; totalCount := total |}.

(** ** The calls of the handlers *)

Definition failed (A : Type) : Type := result exn A.

Inductive dcall : Type -> Type :=
| FindUser (userId : string) : dcall (failed (option CatalogUser))
(* the servers of a user, and those of everybody, at this moment *)
| UserServers (u : CatalogUser) : dcall (failed (list string))
| AnonymousServers : dcall (list string)
| SearchActions (p : CatalogSearchParams) : dcall (failed (list CatalogAction))
| FindAction (i : string) : dcall (failed (option CatalogAction))
| FindActions (ids : list string) : dcall (failed (list CatalogAction))
| FindProfile (i : string) : dcall (failed (option CatalogProfile))
| GetActiveProfile : dcall (failed (option CatalogProfile))
(* what the session may use, at this moment *)
| UsableTools : dcall (string -> string -> bool)
| GetContextId (sid : string) : dcall (option string)
| ExecuteTool (contextId name : string) (args : list (string * json)) : dcall (failed json).

Definition Catalog (A : Type) : Type := prog dcall (failed A).

(** An awaited call. *)
Definition get {A B} (e : dcall (failed A)) (k : A -> Catalog B) : Catalog B :=
  call! r := e in match r with Ok a => k a | Throw x => Ret (Throw x) end.
Notation "'get!' x ':=' e 'in' k" := (get e (fun x => k))
  (at level 10, x name, e at level 100, k at level 200) : peta_scope.

(** [getAuthContextFromUser], [getAuthorizedServerIds] *)
Definition authorized_servers (user : option CatalogUser) : Catalog (list string) :=
  match user with
  | Some u => get! l := UserServers u in Ret (Ok l)
  | None => call! l := AnonymousServers in Ret (Ok l)
  end.

Definition is_some_text (o : option string) : bool := match o with Some s => negb (str_eqb s "") | None => false end.

(** The profile asked for, or the active one; [None]: there is none to go on
    with. *)
Definition profile_for (profileId : option string) : Catalog (option (option CatalogProfile)) :=
  if is_some_text profileId
  then get! p := FindProfile (default ""%string profileId) in Ret (Ok (match p with None => None | Some p => Some (Some p) end))
  else get! p := GetActiveProfile in Ret (Ok (Some p)).

Definition rules_of (profile : option CatalogProfile) : json :=
  match profile with Some p => exposure_rules (pr_config p) | None => JUndefined end.

Definition search (input : CatalogSearchInput) (userId : string) : Catalog CatalogSearchResult :=
  let query := trim (query input) in
  if str_eqb query "" then Ret (Ok no_results)
  else
    get! user := FindUser userId in
    await! servers := authorized_servers user in
    match servers with
    | [] => Ret (Ok no_results)
    | _ =>
        let requested := List.filter (fun i => negb (str_eqb (trim i) "")) (default [] (in_serverIds input)) in
        let serverIds := match requested with [] => servers | _ => List.filter (fun i => elem i servers) requested end in
        match serverIds with
        | [] => Ret (Ok no_results)
        | _ =>
            get! scanned := SearchActions {| sp_query := query; sp_serverIds := serverIds; sp_riskMax := riskMax input;
                                             sp_limit := MAX_SCAN_SIZE; sp_offset := 0 |} in
            await! profile := profile_for (in_profileId input) in
            match profile with
            | None => Ret (Ok no_results)
            | Some profile =>
                call! canUseTool := UsableTools in
                Ret (search_page input query user canUseTool (rules_of profile) scanned)
            end
        end
    end.

(** ** The handlers *)

Definition invalid (m : string) : exn := McpError InvalidParams m.

Definition as_text (v : json) : option string := match v with JStr s => Some s | _ => None end.
Definition texts (v : json) : option (list string) :=
  match v with JArr l => Some (omap as_text l) | _ => None end.

Definition asOptionalRiskLevel (v : json) : option string :=
  match v with JStr s => if elem s (map fst RISK_ORDER) then Some s else None | _ => None end.

Definition parseCatalogSearchInput (value : json) : result exn CatalogSearchInput :=
  match value, jfield_opt value "query" with
  | JObj _, JStr q =>
      Ok {| query := q; in_profileId := as_text (jfield_opt value "profileId"); in_serverIds := texts (jfield_opt value "serverIds");
            riskMax := asOptionalRiskLevel (jfield_opt value "riskMax");
            directCallableOnly := match jfield_opt value "directCallableOnly" with JBool b => b | _ => false end;
            in_limit := match jfield_opt value "limit" with JNum n => Some n | _ => None end;
            cursor := as_text (jfield_opt value "cursor") |}
  | _, _ => Throw (invalid "Catalog search requires string field: query")
  end.

(** The action ids and the profile id. *)
Definition parseCatalogDescribeInput (value : json) : result exn (list string * option string) :=
  match value, jfield_opt value "actionIds" with
  | JObj _, JArr l =>
      match List.filter (fun s => negb (str_eqb (trim s) "")) (omap as_text l) with
      | [] => Throw (invalid "Catalog describe requires at least one actionId")
      | ids => Ok (ids, as_text (jfield_opt value "profileId"))
      end
  | _, _ => Throw (invalid "Catalog describe requires array field: actionIds")
  end.

(** The action id, the arguments and the expected hash. *)
Definition parseCatalogExecuteInput (value : json) : result exn (string * list (string * json) * option string) :=
  match value, jfield_opt value "actionId", jfield_opt value "arguments" with
  | JObj _, JStr i, JObj args => Ok (i, args, as_text (jfield_opt value "expectedSchemaHash"))
  | JObj _, JStr _, _ => Throw (invalid "Catalog execute requires object field: arguments")
  | _, _, _ => Throw (invalid "Catalog execute requires string field: actionId")
  end.

(** [handleCatalogSearch], up to the text of its result. *)
Definition handleCatalogSearch (args : json) (userId : string) : Catalog CatalogSearchResult :=
  match parseCatalogSearchInput args with
  | Throw e => Ret (Throw e)
  | Ok input => search input userId
  end.

(** An action in full. *)
Definition described (rules : json) (a : CatalogAction) : result exn (CatalogAction * bool) :=
  try! callable := evaluateExposureRules rules (ca_serverId a) (riskLevel a) false in
  Ok ({| actionId := actionId a; ca_serverId := ca_serverId a; originalName := originalName a; wireName := wireName a;
         displayName := displayName a; title := title a; summary := summary a; ca_description := ca_description a;
         riskLevel := riskLevel a; ca_enabled := ca_enabled a;
         inputSchema := if isRecordValue (inputSchema a) then inputSchema a else JObj [("type", JStr "object")]%string;
         outputSchema := if isRecordValue (outputSchema a) then outputSchema a else JNull;
         annotations := if isRecordValue (annotations a) then annotations a else JNull;
         examples := match examples a with JArr l => JArr l | _ => JNull end;
         schemaHash := schemaHash a; searchText := searchText a; lastIndexedAt := lastIndexedAt a |}, callable).

(** [getAuthorizedServerIds] looks for a missing user again. *)
Definition authorized_again (userId : string) (user : option CatalogUser) : Catalog (list string) :=
  match user with
  | Some _ => authorized_servers user
  | None => get! again := FindUser userId in authorized_servers again
  end.

Definition handleCatalogDescribe (args : json) (userId : string) : Catalog (list (CatalogAction * bool)) :=
  match parseCatalogDescribeInput args with
  | Throw e => Ret (Throw e)
  | Ok (ids, profileId) =>
      get! user := FindUser userId in
      await! servers := authorized_again userId user in
      await! profile := profile_for profileId in
      match profile with
      | None => Ret (Ok [])
      | Some profile =>
          get! items := FindActions ids in
          call! canUseTool := UsableTools in
          Ret (map_try (described (rules_of profile))
                 (List.filter (fun a => elem (ca_serverId a) servers && canUseTool (ca_serverId a) (originalName a)) items))
      end
  end.

Definition denied : exn := invalid "Permission denied for catalog action".

Definition is_nonempty (o : option string) : option string := match o with Some s => if str_eqb s "" then None else Some s | None => None end.

Definition handleCatalogExecute (args : json) (userId : string) : Catalog json :=
  match parseCatalogExecuteInput args with
  | Throw e => Ret (Throw e)
  | Ok (i, toolArgs, expected) =>
      get! action := FindAction i in
      match action with
      | None => Ret (Throw (invalid ("Unknown catalog actionId: " +:+ i)))
      | Some a =>
          get! user := FindUser userId in
          await! servers := authorized_again userId user in
          if negb (elem (ca_serverId a) servers) then Ret (Throw denied) else
          if match user with Some u => negb (isToolEnabledForUser (JStr (cu_permissions u)) (ca_serverId a) (originalName a)) | None => false end
          then Ret (Throw denied) else
          call! canUseTool := UsableTools in
          if negb (canUseTool (ca_serverId a) (originalName a)) then Ret (Throw denied) else
          if match is_nonempty expected with Some h => negb (str_eqb h (schemaHash a)) | None => false end
          then Ret (Throw (invalid ("Schema hash mismatch for action " +:+ actionId a +:+ ": expected " +:+ default ""%string expected
                                    +:+ ", got " +:+ schemaHash a))) else
          call! context := GetContextId (ca_serverId a) in
          match context with
          | None => Ret (Throw (invalid "Server not available for catalog action"))
          | Some c => get! r := ExecuteTool c (originalName a) toolArgs in Ret (Ok r)
          end
      end
  end.

(** The catalogue's share of [handleToolCall]: what a reserved name does. *)
Inductive CatalogAnswer : Type :=
| Found (r : CatalogSearchResult)
| Described (r : list (CatalogAction * bool))
| Executed (r : json).

Definition MethodNotFound : Z := -32601.

Definition catalog_tool (toolName : string) (args : json) (userId : string) : Catalog CatalogAnswer :=
  if str_eqb toolName "peta.catalog.search" then await! r := handleCatalogSearch args userId in Ret (Ok (Found r))
  else if str_eqb toolName "peta.catalog.describe" then await! r := handleCatalogDescribe args userId in Ret (Ok (Described r))
  else if str_eqb toolName "peta.catalog.execute" then await! r := handleCatalogExecute args userId in Ret (Ok (Executed r))
  else Ret (Throw (McpError MethodNotFound ("Unknown catalog tool: " +:+ toolName))).

(** ** The listing of tools *)

(** A listed tool: its name, and its annotations. *)
Record ListedAction : Type := { la_name : string; la_annotations : json }.

Definition catalog_tools : list ListedAction :=
  [{| la_name := "peta.catalog.search"; la_annotations := JObj [("title", JStr "Catalog Search"); ("readOnlyHint", JBool true);
        ("idempotentHint", JBool true); ("destructiveHint", JBool false)] |};
   {| la_name := "peta.catalog.describe"; la_annotations := JObj [("title", JStr "Catalog Describe"); ("readOnlyHint", JBool true);
        ("idempotentHint", JBool true); ("destructiveHint", JBool false)] |};
   {| la_name := "peta.catalog.execute"; la_annotations := JObj [("title", JStr "Catalog Execute"); ("readOnlyHint", JBool false);
        ("idempotentHint", JBool false); ("destructiveHint", JBool true)] |}]%string.

Inductive DiscoveryMode : Type := FLAT | HYBRID | STRICT.
Definition mode_of (s : string) : option DiscoveryMode :=
  if str_eqb s "FLAT" then Some FLAT else if str_eqb s "HYBRID" then Some HYBRID else if str_eqb s "STRICT" then Some STRICT else None.

(** The filter of [handleToolsList]; [temporary]: servers of users. *)
Definition disclosed_tools (profile : option CatalogProfile) (temporary : list string) (parseName : string -> option (string * string))
    (tools : list ListedAction) : result exn (list ListedAction) :=
  match profile with
  | Some p =>
      if negb (pr_enabled p) then Ok tools else
      let is_temporary t := match parseName (la_name t) with Some (sid, _) => elem sid temporary | None => false end in
      let temporaryTools := List.filter is_temporary tools in
      let catalogScopedTools := List.filter (fun t => negb (is_temporary t)) tools in
      match mode_of (pr_mode p) with
      | Some STRICT => Ok (temporaryTools ++ catalog_tools)
      | Some HYBRID =>
          try! direct := filter_try (fun t =>
            match parseName (la_name t) with
            | None => Ok false
            | Some (sid, _) => evaluateExposureRules (exposure_rules (pr_config p)) sid (inferDiscoveryRiskLevel (la_annotations t)) false
            end) catalogScopedTools in
          Ok (direct ++ temporaryTools ++ catalog_tools)
      | _ => Ok tools
      end
  | None => Ok tools
  end.

(** ** Building the catalogue *)

(** A tool of a server. *)
Record CatalogTool : Type := {
  ct_name : string;
  ct_title : option string;
  ct_description : option string;
  ct_inputSchema : json;
  ct_outputSchema : json;
  ct_annotations : json
}.

Section Index.
(** [createHash('sha256').update(text).digest('hex')] *)
Variable sha256 : string -> string.

Definition action_id (serverId name : string) : string := "ppd_" +:+ str_take 16 (sha256 (serverId +:+ "::" +:+ name)).

Definition or_null (v : json) : json := match v with JUndefined => JNull | _ => v end.

Definition mapToolToCatalogAction (now : Z) (serverId : string) (tool : CatalogTool) : CatalogAction :=
  let display := serverId +:+ "." +:+ ct_name tool in
  let title := default (ct_name tool) (ct_title tool) in
  let summary := match ct_description tool with
                 | Some d => if str_eqb (trim d) "" then ct_name tool else d
                 | None => ct_name tool
                 end in
  let schema := match ct_inputSchema tool with JUndefined | JNull => JObj [] | v => v end in
  {| actionId := action_id serverId (ct_name tool); ca_serverId := serverId; originalName := ct_name tool;
     wireName := Some (ct_name tool +:+ "_-_" +:+ serverId); displayName := display; title := title; summary := summary;
     ca_description := ct_description tool; riskLevel := inferDiscoveryRiskLevel (ct_annotations tool); ca_enabled := true;
     inputSchema := schema; outputSchema := or_null (ct_outputSchema tool); annotations := or_null (ct_annotations tool);
     examples := JNull; schemaHash := sha256 (default ""%string (JSON_stringify schema));
     searchText := Some (trim (to_lower (str_join " " [display; title; summary; default ""%string (ct_description tool)])));
     lastIndexedAt := now |}.

(** What a rebuilding finds: no context, a context without lists, its tools. *)
Inductive ServerTools : Type := NoServer | NotLoaded | Loaded (tools : list CatalogTool).

Inductive icall : Type -> Type :=
| ToolsOf (serverId : string) : icall ServerTools
| IndexNow : icall Z
| AvailableServers : icall (list string)
| AllServers : icall (failed (list (string * bool)))
| Statement (f : list CatalogAction -> list CatalogAction) : icall (failed unit).

Definition Index (A : Type) : Type := prog icall (failed A).

Definition run_statement (f : list CatalogAction -> list CatalogAction) {A} (k : Index A) : Index A :=
  call! r := Statement f in match r with Ok _ => k | Throw e => Ret (Throw e) end.

(** [mapToolToCatalogAction] of each tool, at its own time. *)
Fixpoint map_tools (serverId : string) (tools : list CatalogTool) : prog icall (list CatalogAction) :=
  match tools with
  | [] => Ret []
  | t :: tools => call! now := IndexNow in bind! l := map_tools serverId tools in Ret (mapToolToCatalogAction now serverId t :: l)
  end.

Definition rebuildForServer (serverId : string) : Index Z :=
  call! found := ToolsOf serverId in
  match found with
  | NoServer => run_statement (deleteByServerId serverId) (Ret (Ok 0))
  | NotLoaded => Ret (Ok 0)
  | Loaded tools =>
      bind! actions := map_tools serverId tools in
      let k := run_statement (deleteByServerIdExcept serverId (map actionId actions)) (Ret (Ok (Z.of_nat (length actions)))) in
      match actions with
      | [] => k
      | _ => run_statement (bulkUpsert actions) k
      end
  end.

Fixpoint rebuild_all (servers : list string) (total : Z) : Index Z :=
  match servers with
  | [] => Ret (Ok total)
  | s :: servers => await! n := rebuildForServer s in rebuild_all servers (total + n)
  end.

Definition buildFullIndex : Index Z :=
  call! servers := AvailableServers in
  await! total := rebuild_all servers 0 in
  call! all := AllServers in
  match all with
  | Throw e => Ret (Throw e)
  | Ok all => run_statement (deleteExceptServerIds (map fst (List.filter snd all))) (Ret (Ok total))
  end.
End Index.
