(* ===== verification/DiscoverySafety.v ===== *)
(** * What the catalogue shows and runs

    Every run of the catalogue's tools ([Discovery]) keeps to the servers the
    user may reach and to the tools the session may use, whatever the other
    components answer; validated exposure rules decide as their typed reading
    says. *)
From Stdlib Require Import Ascii ZArith Lia.
From stdpp Require Import base strings list sets.
From S2P Require Import Prelude Json JsMap ServerTypes Effects Discovery.
Open Scope Z_scope.

(** ** What a run has seen *)

Record seen : Type := {
  servers : list string;
  usable : string -> string -> bool;
  rows : list CatalogAction;
  context : option (string * string);
  ran : Z
}.

Definition nothing : seen := {| servers := []; usable := fun _ _ => false; rows := []; context := None; ran := 0 |}.

Definition see_servers (l : list string) (s : seen) : seen :=
  {| servers := l; usable := usable s; rows := rows s; context := context s; ran := ran s |}.
Definition see_usable (f : string -> string -> bool) (s : seen) : seen :=
  {| servers := servers s; usable := f; rows := rows s; context := context s; ran := ran s |}.
Definition see_rows (l : list CatalogAction) (s : seen) : seen :=
  {| servers := servers s; usable := usable s; rows := l; context := context s; ran := ran s |}.
Definition see_context (c : option (string * string)) (s : seen) : seen :=
  {| servers := servers s; usable := usable s; rows := rows s; context := c; ran := ran s |}.
Definition run_one (s : seen) : seen :=
  {| servers := servers s; usable := usable s; rows := rows s; context := None; ran := ran s + 1 |}.

Definition answered {A} (r : failed A) (f : A -> seen) (s : seen) : seen := match r with Ok a => f a | Throw _ => s end.

Definition see (s : seen) (ev : event dcall) : seen :=
  match ev with
  | Ev X e x =>
      match e in dcall X return X -> seen with
      | UserServers _ => fun r => answered r (fun l => see_servers l s) s
      | AnonymousServers => fun l => see_servers l s
      | SearchActions _ => fun r => answered r (fun l => see_rows l s) s
      | FindAction _ => fun r => answered r (fun o => see_rows (option_list o) s) s
      | FindActions _ => fun r => answered r (fun l => see_rows l s) s
      | UsableTools => fun f => see_usable f s
      | GetContextId sid => fun o => see_context (option_map (fun c => (sid, c)) o) s
      | ExecuteTool _ _ _ => fun _ => run_one s
      | _ => fun _ => s
      end x
  end.

Definition seen_of (tr : list (event dcall)) : seen := fold_left see tr nothing.

(** ** What is allowed *)

(** A row of an action the session may use. *)
Definition open_to (s : seen) (a : CatalogAction) : Prop :=
  a ∈ rows s /\ usable s (ca_serverId a) (originalName a) = true.

Section Protocol.
Variables (args : json) (userId : string).

(** The action asked for, the hash that was expected of it. *)
Definition asked (a : CatalogAction) (toolArgs : list (string * json)) : Prop :=
  exists i expected, parseCatalogExecuteInput args = Ok (i, toolArgs, expected)
    /\ (forall h, expected = Some h -> h <> ""%string -> h = schemaHash a).

Definition allowed (s : seen) (ev : event dcall) : Prop :=
  match ev with
  | Ev _ e _ =>
      match e with
      | FindUser u => u = userId
      | SearchActions p => sp_serverIds p <> [] /\ sp_serverIds p ⊆ servers s /\ sp_limit p = MAX_SCAN_SIZE /\ sp_query p <> ""%string
      | FindAction i => exists toolArgs expected, parseCatalogExecuteInput args = Ok (i, toolArgs, expected)
      | ExecuteTool c name toolArgs =>
          ran s = 0 /\ exists a, open_to s a /\ ca_serverId a ∈ servers s /\ context s = Some (ca_serverId a, c)
            /\ name = originalName a /\ asked a toolArgs
      | _ => True
      end
  end.

(** An answer shows only what the session may use. *)
Definition shown (s : seen) (r : failed CatalogAnswer) : Prop :=
  match r with
  | Ok (Found r) => Forall (fun it => exists a, open_to s a /\ it_actionId it = actionId a /\ it_serverId it = ca_serverId a) (results r)
  | Ok (Described l) =>
      Forall (fun d => exists a, open_to s a /\ ca_serverId a ∈ servers s /\ actionId (fst d) = actionId a /\ ca_serverId (fst d) = ca_serverId a) l
  | _ => True
  end.

Notation wpc := (wp see allowed).

Lemma get_ok {A B} (e : dcall (failed A)) (k : A -> Catalog B) s (Q : seen -> failed B -> Prop) :
  (forall x, allowed s (Ev _ e x)) -> (forall x, Q (see s (Ev _ e (Throw x))) (Throw x)) -> (forall a, wpc (k a) (see s (Ev _ e (Ok a))) Q) ->
  wpc (get e k) s Q.
Proof using. intros Ha Ht Hk. unfold get. cbn [wp]. intros [a|x]; (split; [apply Ha|]); [apply Hk|apply Ht]. Qed.

Lemma await_ok {A B} (p : Catalog A) (k : A -> Catalog B) s (Q : seen -> failed B -> Prop) :
  wpc p s (fun s' r => match r with Ok a => wpc (k a) s' Q | Throw e => Q s' (Throw e) end) -> wpc (try_bind p k) s Q.
Proof using. intros H. apply wp_bind. eapply wp_mono; [exact H|]. by intros s' [a|e]. Qed.

(** What was seen stays the same but for the servers. *)
Lemma servers_ok user s (Q : seen -> failed (list string) -> Prop) :
  (forall l, Q (see_servers l s) (Ok l)) -> (forall e, Q s (Throw e)) -> wpc (authorized_servers user) s Q.
Proof using. intros H Ht. destruct user as [u|]; [by apply get_ok; [|intros e; apply Ht|intros l; apply H]|]. intros l. split; [done|apply H]. Qed.

Lemma again_ok user s (Q : seen -> failed (list string) -> Prop) :
  (forall l, Q (see_servers l s) (Ok l)) -> (forall e, Q s (Throw e)) -> wpc (authorized_again userId user) s Q.
Proof using. intros H Ht. destruct user; [by apply servers_ok|]. apply get_ok; [done|intros e; apply Ht|]. intros o. by apply servers_ok. Qed.

Lemma profile_ok i s (Q : seen -> failed (option (option CatalogProfile)) -> Prop) :
  (forall p, Q s (Ok p)) -> (forall e, Q s (Throw e)) -> wpc (profile_for i) s Q.
Proof using. intros H Ht. unfold profile_for. destruct (is_some_text i); (apply get_ok; [done|intros e; apply Ht|]); intros p; apply H. Qed.

(** ** Lists *)

Lemma elem_spec x l : elem x l = true <-> x ∈ l.
Proof.
  unfold elem. rewrite existsb_exists. split.
  - intros (y & Hy & ->%str_eqb_eq). by apply list_elem_of_In.
  - intros Hx. exists x. split; [by apply list_elem_of_In|apply str_eqb_refl].
Qed.

Lemma in_filter {A} (f : A -> bool) (l : list A) x : x ∈ List.filter f l <-> x ∈ l /\ f x = true.
Proof. rewrite !list_elem_of_In. apply filter_In. Qed.

Lemma filter_try_sub {A} (f : A -> result exn bool) (l k : list A) : filter_try f l = Ok k -> k ⊆ l.
Proof.
  revert k. induction l as [|a l IH]; cbn; intros k; [by intros [= <-]|].
  destruct (f a) as [b|]; [|done]. destruct (filter_try f l) as [l'|]; [|done]. cbn. specialize (IH l' eq_refl).
  destruct b; intros [= <-]; [|set_solver]. set_solver.
Qed.

Lemma map_try_forall {A B} (f : A -> result exn B) (P : B -> Prop) (l : list A) (k : list B) :
  (forall a b, a ∈ l -> f a = Ok b -> P b) -> map_try f l = Ok k -> Forall P k.
Proof.
  revert k. induction l as [|a l IH]; cbn; intros k H; [by intros [= <-]|].
  destruct (f a) as [b|] eqn:E; [|done]. destruct (map_try f l) as [l'|]; [|done]. cbn. intros [= <-].
  constructor; [apply (H a); [by left|done]|]. apply IH; [|done]. intros a' b' Ha. apply H. by right.
Qed.

Lemma in_page {A} (n m : nat) (l : list A) : take n (drop m l) ⊆ l.
Proof. intros x Hx. by eapply subseteq_drop, subseteq_take. Qed.

(** ** The handlers *)

Lemma page_shown input q user s rules :
  match search_page input q user (usable s) rules (rows s) with Ok r => shown s (Ok (Found r)) | Throw _ => True end.
Proof using.
  unfold search_page, ranked_rows. set (permitted := match user with Some _ => _ | None => _ end).
  assert (Hp : permitted ⊆ rows s) by (unfold permitted; destruct user; [intros x [Hx _]%in_filter; exact Hx|done]).
  set (kept := List.filter _ permitted).
  assert (Hk : forall a, a ∈ kept -> open_to s a) by (intros a [H1%Hp H2]%in_filter; by split).
  destruct (if directCallableOnly input then _ else _) as [filtered|e] eqn:Ef; [|done]. cbn [rbind].
  assert (Hf : filtered ⊆ kept) by (destruct (directCallableOnly input); [by apply filter_try_sub in Ef|by injection Ef as <-]).
  destruct (map_try _ _) as [items|e] eqn:Em; [|done]. cbn.
  eapply map_try_forall, Em. intros a it Ha Hit. exists a. split.
  - apply Hk, Hf. rewrite <-(isort_perm (by_rank q) filtered). by apply in_page in Ha.
  - unfold result_item in Hit. destruct (evaluateExposureRules _ _ _ _); [|done]. by injection Hit as <-.
Qed.

(** A handler ends without having run anything, showing what may be seen. *)
Definition only_shows {A} (wrap : A -> CatalogAnswer) (s : seen) (r : failed A) : Prop :=
  ran s = 0 /\ match r with Ok a => shown s (Ok (wrap a)) | Throw _ => True end.

Lemma shows_error {A} (wrap : A -> CatalogAnswer) s e : ran s = 0 -> only_shows wrap s (Throw e).
Proof using. by split. Qed.
Lemma shows_no_results s : ran s = 0 -> only_shows Found s (Ok no_results).
Proof using. split; [done|constructor]. Qed.
Local Hint Resolve shows_error shows_no_results : core.

Lemma search_ok input s : ran s = 0 -> wpc (search input userId) s (only_shows Found).
Proof using.
  intros H0. unfold search. destruct (str_eqb (trim (query input)) "") eqn:Eq; [by apply shows_no_results|].
  apply get_ok; [done|auto|]. intros user. apply await_ok, servers_ok; [|auto]. intros l. cbn [see answered].
  destruct l as [|l0 ls] eqn:El; [by apply shows_no_results|]. rewrite <-El. clear El l0 ls. set (requested := List.filter _ _).
  assert (Hs : match requested with [] => l | _ => List.filter (fun i => elem i l) requested end ⊆ l).
  { destruct requested; [done|]. intros x [_ Hx]%in_filter. by apply elem_spec. }
  destruct (match requested with [] => _ | _ => _ end) as [|i0 ids] eqn:Ei; [by apply shows_no_results|].
  apply get_ok; [intros x; split_and! ; [done|exact Hs|done|by intros E; cbn in E; rewrite E in Eq]|auto|].
  intros scanned. apply await_ok, profile_ok; [|auto]. intros [p|]; [|by apply shows_no_results]. intros f. split; [done|].
  cbn [see answered wp]. split; [done|].
  exact (page_shown input (trim (query input)) user (see_usable f (see_rows scanned (see_servers l s))) (rules_of p)).
Qed.

Lemma handleCatalogSearch_ok s : ran s = 0 -> wpc (handleCatalogSearch args userId) s (only_shows Found).
Proof using. unfold handleCatalogSearch. destruct (parseCatalogSearchInput args); [apply search_ok|by split]. Qed.

Lemma handleCatalogDescribe_ok s : ran s = 0 -> wpc (handleCatalogDescribe args userId) s (only_shows Described).
Proof using.
  intros H0. unfold handleCatalogDescribe. destruct (parseCatalogDescribeInput args) as [[ids i]|]; [|by split].
  apply get_ok; [done|auto|]. intros user. apply await_ok, again_ok; [|auto]. intros l.
  apply await_ok, profile_ok; [|auto]. intros [p|]; [|by split; [|constructor]]. apply get_ok; [done|auto|]. intros items.
  intros f. split; [done|]. cbn [wp]. split; [done|]. destruct (map_try _ _) as [out|] eqn:E; [|done].
  eapply map_try_forall, E. intros a [b c] [Ha [Hl%elem_spec Hf]%andb_true_iff]%in_filter Hd. exists a.
  unfold described in Hd. destruct (evaluateExposureRules _ _ _ _); [|done]. injection Hd as <- <-. by split_and!.
Qed.

Lemma handleCatalogExecute_ok s : ran s = 0 ->
  wpc (handleCatalogExecute args userId) s (fun s' r => ran s' <= 1 /\ forall v, r = Ok v -> ran s' = 1).
Proof using.
  intros H0. unfold handleCatalogExecute. destruct (parseCatalogExecuteInput args) as [[[i toolArgs] expected]|e] eqn:Ep; [|by split; [lia|]].
  assert (Hend : forall s' (e : exn), ran s' = 0 -> ran s' <= 1 /\ (forall v : json, Throw e = Ok v -> ran s' = 1)) by (intros; split; [lia|done]).
  apply get_ok; [by intros x; exists toolArgs, expected|by intros x; apply Hend|]. intros [a|]; [|by apply Hend].
  apply get_ok; [done|by intros x; apply Hend|]. intros user. apply await_ok, again_ok; [|by intros e; apply Hend]. intros l.
  destruct (negb (elem (ca_serverId a) l)) eqn:El; [by apply Hend|]. apply negb_false_iff, elem_spec in El.
  destruct (match user with Some _ => _ | None => false end); [by apply Hend|]. intros f. split; [done|].
  destruct (negb (f _ _)) eqn:Ef; [by apply Hend|]. apply negb_false_iff in Ef.
  destruct (match is_nonempty expected with Some _ => _ | None => false end) eqn:Eh; [by apply Hend|].
  intros [c|]; (split; [done|]); [|by apply Hend].
  apply get_ok; [|intros e; split; [cbn; lia|done]|intros v; split; cbn; [lia|intros _ _; lia]].
  intros x. split; [done|]. exists a. split_and! ; try done; [by split; [left|]|].
  exists i, expected. split; [done|]. intros h -> Hh. unfold is_nonempty in Eh. apply str_eqb_neq in Hh. rewrite Hh in Eh.
  by apply negb_false_iff, str_eqb_eq in Eh.
Qed.

(** What a run of a catalogue's tool comes to: searching and describing run
    nothing. *)
Definition catalog_outcome (s : seen) (r : failed CatalogAnswer) : Prop :=
  shown s r /\ ran s <= 1 /\ match r with Ok (Executed _) => ran s = 1 | Ok _ => ran s = 0 | Throw _ => True end.

Lemma shows_outcome {A} (wrap : A -> CatalogAnswer) (p : Catalog A) s :
  (forall a, match wrap a with Executed _ => False | _ => True end) ->
  wpc p s (only_shows wrap) -> wpc (await! r := p in Ret (Ok (wrap r))) s catalog_outcome.
Proof using.
  intros Hw H. apply await_ok. eapply wp_mono; [exact H|]. intros s' [a|e] [H1 H2]; cbn; [|by split; [|split; [lia|]]].
  split; [done|]. specialize (Hw a). split; [lia|]. by destruct (wrap a).
Qed.

Lemma catalog_tool_ok toolName s : ran s = 0 -> wpc (catalog_tool toolName args userId) s catalog_outcome.
Proof using.
  intros H0. unfold catalog_tool. destruct (str_eqb _ _); [by apply shows_outcome, handleCatalogSearch_ok|].
  destruct (str_eqb _ _); [by apply shows_outcome, handleCatalogDescribe_ok|].
  destruct (str_eqb _ _); [|by split; [|split; [lia|]]].
  apply await_ok. eapply wp_mono; [by apply handleCatalogExecute_ok|].
  intros s' [v|e] [H1 H2]; cbn; (split; [done|]); (split; [done|]); [|done]. by eapply H2.
Qed.
End Protocol.

(** C4: The catalogue's tools, whatever the other components answer.  Rows are
    searched among the servers the user was found to reach, actions are looked
    up as asked; a tool is run at most once, only by executing, and only if it
    is the asked action's: on a server the user was last found to reach, a tool
    the session was last found to be able to use, with the arguments of the
    request, the expected hash, if one is given, being the action's, and under
    the id of its server.  What is shown are rows the database answered with,
    of tools the session may use, and in descriptions of servers the user may
    reach. *)
Theorem catalog_keeps_to_permissions (toolName userId : string) (args : json) (tr : list (event dcall)) (r : failed CatalogAnswer) :
  runs (catalog_tool toolName args userId) tr (Some r) ->
  (forall pre ev post, tr = pre ++ ev :: post -> allowed args userId (seen_of pre) ev) /\ catalog_outcome (seen_of tr) r.
Proof.
  intros Hr. destruct (wp_runs _ _ _ _ _ _ _ _ (catalog_tool_ok args userId toolName nothing eq_refl) Hr) as [H1 H2].
  split; [exact H1|by apply H2].
Qed.

(** ** Running *)

Definition list_files : CatalogAction :=
  {| actionId := "ppd_1"; ca_serverId := "files"; originalName := "list"; wireName := Some "list_-_files"; displayName := "files.list";
     title := "List"; summary := "Lists files"; ca_description := None; riskLevel := Some "low"; ca_enabled := true; inputSchema := JObj [];
     outputSchema := JNull; annotations := JNull; examples := JNull; schemaHash := "h1"; searchText := Some "files.list list lists files";
     lastIndexedAt := 5 |}%string.

Definition somebody : CatalogUser := {| cu_userId := "u"; cu_permissions := "{}" |}.

(** Everybody may list files. *)
Definition answer_all (X : Type) (e : dcall X) (w : unit) : X * unit :=
  (match e in dcall X return X with
   | FindUser _ => Ok (Some somebody)
   | UserServers _ => Ok ["files"]
   | AnonymousServers => []
   | SearchActions _ => Ok [list_files]
   | FindAction _ => Ok (Some list_files)
   | FindActions _ => Ok [list_files]
   | FindProfile _ => Ok None
   | GetActiveProfile => Ok None
   | UsableTools => fun _ name => str_eqb name "list"
   | GetContextId _ => Some "c1"
   | ExecuteTool _ name _ => Ok (JStr name)
   end, w)%string.

Definition execution : json := JObj [("actionId", JStr "ppd_1"); ("arguments", JObj []); ("expectedSchemaHash", JStr "h1")]%string.

Definition execution_trace : list (event dcall) := fst (fst (run_with answer_all (catalog_tool "peta.catalog.execute" execution "u") tt)).

Lemma catalog_keeps_to_permissions_witness :
  runs (catalog_tool "peta.catalog.execute" execution "u") execution_trace (Some (Ok (Executed (JStr "list"))))
  /\ catalog_outcome (seen_of execution_trace) (Ok (Executed (JStr "list"))) /\ ran (seen_of execution_trace) = 1.
Proof.
  assert (H : runs (catalog_tool "peta.catalog.execute" execution "u") execution_trace (Some (Ok (Executed (JStr "list"))))).
  { apply run_with_result. vm_compute. reflexivity. }
  split; [exact H|]. split; [exact (proj2 (catalog_keeps_to_permissions _ _ _ _ _ H))|reflexivity].
Defined.

(** The user's permissions are stored as a text: the test of the catalogue's
    handlers reads an object and finds every tool enabled. *)
Example stored_permissions_are_not_read serverId toolName permissions : isToolEnabledForUser (JStr permissions) serverId toolName = true.
Proof. reflexivity. Qed.
