(* ===== verification/DiscoveryCorrect.v ===== *)
(** * Rules, pages and the building of the catalogue

    What the definitions of [Discovery] compute: validated exposure rules
    decide by the first typed rule that applies; following the cursors shows
    every match once, in the order of ranks; rebuilding a server's part of the
    catalogue leaves exactly its tools. *)
From Stdlib Require Import Ascii ZArith Lia DecimalString Sorted.
From stdpp Require Import base strings list sets.
From S2P Require Import Prelude Json JsMap ServerTypes Effects Discovery.
Open Scope Z_scope.

(** ** Exposure rules *)

Record ExposureRule : Type := { er_servers : list string; er_risks : list string; er_direct : bool }.

Definition strings_in (v : json) : list string := default [] (texts v).

Definition typed_rule (rule : json) : ExposureRule :=
  let m := jfield_opt rule "match" in
  {| er_servers := strings_in (jfield_opt m "serverIds"); er_risks := strings_in (jfield_opt m "riskLevels");
     er_direct := match jfield_opt rule "directCallable" with JBool b => b | _ => false end |}.

Definition typed_rules (config : json) : list ExposureRule :=
  match exposure_rules config with JArr l => map typed_rule l | _ => [] end.

(** An empty list does not restrict; an action of unknown risk is in no list
    of risks. *)
Definition applies (serverId : string) (riskLevel : option string) (r : ExposureRule) : bool :=
  match er_servers r with [] => true | l => elem serverId l end
  && match er_risks r with [] => true | l => match riskLevel with Some k => elem k l | None => false end end.

Definition decision (rules : list ExposureRule) (serverId : string) (riskLevel : option string) (d : bool) : bool :=
  match List.find (applies serverId riskLevel) rules with Some r => er_direct r | None => d end.

Lemma validated_rule path rule : validate_rule path rule = None ->
  exists fields m b servers risks, rule = JObj fields /\ jfield_opt rule "match" = JObj m /\ jfield_opt rule "directCallable" = JBool b
    /\ (jfield_opt (JObj m) "serverIds" = JUndefined /\ servers = [] \/ jfield_opt (JObj m) "serverIds" = JArr servers)
    /\ (jfield_opt (JObj m) "riskLevels" = JUndefined /\ risks = [] \/ jfield_opt (JObj m) "riskLevels" = JArr risks)
    /\ isNonEmptyStringArray (JArr servers) = true /\ isDirectExposureRiskLevelArray (JArr risks) = true
    /\ (servers <> [] \/ risks <> []).
Proof.
  unfold validate_rule. destruct rule as [| | | | | |fields]; try done. cbn [isRecordValue negb].
  destruct (jfield_opt (JObj fields) "match") as [| | | | | |m] eqn:Em; try done. cbn [isRecordValue negb].
  destruct (jfield_opt (JObj fields) "directCallable") as [| |b| | | |] eqn:Ed; try done.
  destruct (jfield_opt (JObj m) "serverIds") as [| | | | |servers|] eqn:Es; try done;
    destruct (jfield_opt (JObj m) "riskLevels") as [| | | | |risks|] eqn:Er; try done; cbn [andb negb].
  all: try (by destruct (isNonEmptyStringArray (JArr servers))).
  - destruct (isDirectExposureRiskLevelArray (JArr risks)) eqn:E; [|done]. destruct risks; [done|]. intros _.
    exists fields, m, b, [], (j :: risks). split_and! ; auto.
  - destruct (isNonEmptyStringArray (JArr servers)) eqn:E; [|done]. destruct servers; [done|]. intros _.
    exists fields, m, b, (j :: servers), []. split_and! ; auto.
  - destruct (isNonEmptyStringArray (JArr servers)) eqn:E; [|done]. destruct (isDirectExposureRiskLevelArray (JArr risks)) eqn:E'; [|done].
    cbn [negb]. intros H. exists fields, m, b, servers, risks. split_and! ; auto.
    destruct servers, risks; try done; [by right|by left..].
Qed.

Lemma texts_of_strings l : isNonEmptyStringArray (JArr l) = true -> strings_in (JArr l) = [] <-> l = [].
Proof. destruct l as [|[] l]; cbn; done. Qed.
Lemma texts_of_risks l : isDirectExposureRiskLevelArray (JArr l) = true -> strings_in (JArr l) = [] <-> l = [].
Proof. destruct l as [|[] l]; cbn; done. Qed.

Lemma includes_strings s l : includes_text s (JArr l) = elem s (strings_in (JArr l)).
Proof. unfold strings_in, elem. cbn. induction l as [|[] l IH]; cbn; try done. by rewrite IH. Qed.

Lemma risks_are_risks k l : isDirectExposureRiskLevelArray (JArr l) = true -> is_risk k && includes_text k (JArr l) = elem k (strings_in (JArr l)).
Proof.
  intros H. rewrite includes_strings. destruct (elem k _) eqn:E; [|by rewrite andb_false_r]. rewrite andb_true_r.
  unfold strings_in, elem in E. cbn in *. induction l as [|[] l IH]; cbn in *; try done.
  apply andb_true_iff in H as [H1 H2]. apply orb_true_iff in E as [->%str_eqb_eq|E]; auto.
Qed.

Lemma rule_says_typed path rule sid risk : validate_rule path rule = None ->
  rule_says rule sid risk = Ok (if applies sid risk (typed_rule rule) then Some (er_direct (typed_rule rule)) else None).
Proof.
  intros (fields & m & b & servers & risks & -> & Em & Ed & Hs & Hr & Es & Er & Hne)%validated_rule.
  unfold rule_says, typed_rule, applies. cbn [er_servers er_risks er_direct]. rewrite Em, Ed.
  assert (Ej : jget (JObj fields) "match" = Ok (JObj m)) by (unfold jget; unfold jfield_opt in Em; cbn in *; by rewrite Em).
  rewrite Ej. cbn [rbind]. f_equal.
  set (sv := jfield_opt (JObj m) "serverIds") in *. set (rv := jfield_opt (JObj m) "riskLevels") in *.
  assert (Hsv : (if isNonEmptyStringArray sv && has_items sv then Some sv else None) = match servers with [] => None | _ => Some (JArr servers) end
    /\ strings_in sv = strings_in (JArr servers)).
  { destruct Hs as [[-> ->]| ->]; [done|]. rewrite Es. by destruct servers. }
  assert (Hrv : (if isDirectExposureRiskLevelArray rv && has_items rv then Some rv else None) = match risks with [] => None | _ => Some (JArr risks) end
    /\ strings_in rv = strings_in (JArr risks)).
  { destruct Hr as [[-> ->]| ->]; [done|]. rewrite Er. by destruct risks. }
  destruct Hsv as [-> ->], Hrv as [-> ->].
  assert (Hl : match strings_in (JArr servers) with [] => true | l => elem sid l end = match servers with [] => true | _ => includes_text sid (JArr servers) end).
  { rewrite includes_strings. destruct servers as [|s0 servers]; [done|]. destruct (strings_in _) eqn:E; [|done]. by apply texts_of_strings in E. }
  assert (Hk : match strings_in (JArr risks) with [] => true | l => match risk with Some k => elem k l | None => false end end
    = match risks with [] => true | _ => match risk with Some r => is_risk r && includes_text r (JArr risks) | None => false end end).
  { clear Hl. destruct risks as [|r0 risks]; [done|]. destruct (strings_in _) eqn:E; [by apply texts_of_risks in E|]. rewrite <-E.
    destruct risk as [k|]; [symmetry; by apply risks_are_risks|done]. }
  rewrite Hl, Hk. destruct servers, risks; [by destruct Hne|done..].
Qed.

Lemma first_says_typed n l sid risk d : validate_rules n l = None -> first_says l sid risk d = Ok (decision (map typed_rule l) sid risk d).
Proof.
  revert n. induction l as [|rule l IH]; cbn [validate_rules first_says map]; intros n H; [done|].
  destruct (validate_rule _ rule) eqn:E; [done|]. rewrite (rule_says_typed _ _ sid risk E). cbn [rbind].
  unfold decision. cbn [List.find]. destruct (applies sid risk (typed_rule rule)); [done|]. by apply (IH (n + 1)).
Qed.

Lemma validated_evaluation config sid risk d : validateDiscoveryProfileConfig config = None ->
  evaluateExposureRules (exposure_rules config) sid risk d = Ok (decision (typed_rules config) sid risk d).
Proof.
  unfold validateDiscoveryProfileConfig, evaluateExposureRules, typed_rules, exposure_rules. destruct (negb _); [done|].
  destruct (jfield_opt config "directExposureRules"); try done. apply first_says_typed.
Qed.

(** A configuration that passed validation never makes the evaluation throw,
    and is decided by the first of its rules, read with their types, that
    applies. *)
Theorem validated_rules_decide (config : json) (serverId : string) (riskLevel : option string) (defaultValue : bool) :
  validateDiscoveryProfileConfig config = None ->
  evaluateExposureRules (exposure_rules config) serverId riskLevel defaultValue = Ok (decision (typed_rules config) serverId riskLevel defaultValue).
Proof. apply validated_evaluation. Qed.

(** ** Pages *)

Definition with_cursor (c : option string) (input : CatalogSearchInput) : CatalogSearchInput :=
  {| query := query input; in_profileId := in_profileId input; in_serverIds := in_serverIds input; riskMax := riskMax input;
     directCallableOnly := directCallableOnly input; in_limit := in_limit input; cursor := c |}.

Lemma digits_of_uint u : u <> Decimal.Nil -> take_while is_digit (NilZero.string_of_uint u) = NilZero.string_of_uint u /\ skip_space (NilZero.string_of_uint u) = NilZero.string_of_uint u.
Proof.
  intros Hu. assert (H : forall v, take_while is_digit (NilEmpty.string_of_uint v) = NilEmpty.string_of_uint v).
  { induction v as [|v IH|v IH|v IH|v IH|v IH|v IH|v IH|v IH|v IH|v IH]; [done|..]; cbn [NilEmpty.string_of_uint take_while]; by rewrite IH. }
  destruct u; [done|..]; (split; [|done]); unfold NilZero.string_of_uint; apply H.
Qed.

Lemma parseInt10_of_Z n : 0 <= n -> parseInt10 (z_to_string n) = Some n.
Proof.
  intros Hn. assert (Hu : exists u, Z.to_int n = Decimal.Pos u /\ u <> Decimal.Nil).
  { destruct n as [|p|p]; [by exists (Decimal.D0 Decimal.Nil)| |lia]. exists (Pos.to_uint p). split; [done|].
    apply DecimalPos.Unsigned.to_uint_nonnil. }
  destruct Hu as (u & Eu & Hne). unfold parseInt10, sign_and_rest, z_to_string. rewrite Eu. cbn [NilZero.string_of_int].
  destruct (digits_of_uint u Hne) as [Hd Hs]. rewrite Hs.
  assert (E : (match NilZero.string_of_uint u with
               | String c t => if (nat_of_ascii c =? 45)%nat then (true, t) else if (nat_of_ascii c =? 43)%nat then (false, t) else (false, NilZero.string_of_uint u)
               | EmptyString => (false, ""%string) end) = (false, NilZero.string_of_uint u)) by (by destruct u).
  rewrite E. unfold parse_nat. rewrite Hd. assert (Ez : NilZero.string_of_uint u = NilEmpty.string_of_uint u) by (by destruct u).
  rewrite Ez, NilEmpty.usu. assert (E0 : str_eqb (NilEmpty.string_of_uint u) "" = false) by (by destruct u). rewrite E0. f_equal.
  assert (H : Z.of_int (Z.to_int n) = n) by apply DecimalZ.of_to. rewrite Eu in H. exact H.
Qed.

Lemma cursor_roundtrip n : 0 <= n -> parseCursor (Some (z_to_string n)) = n.
Proof.
  intros Hn. unfold parseCursor. assert (H : str_eqb (z_to_string n) "" = false).
  { apply str_eqb_neq. intros E. pose proof (parseInt10_of_Z n Hn) as H. by rewrite E in H. }
  rewrite H, parseInt10_of_Z by done. by case_bool; [lia|].
Qed.

Lemma filter_try_pure {A} (f : A -> result exn bool) (g : A -> bool) l : (forall a, f a = Ok (g a)) -> filter_try f l = Ok (List.filter g l).
Proof. intros H. induction l as [|a l IH]; [done|]. cbn. rewrite H, IH. cbn. by destruct (g a). Qed.
Lemma map_try_pure {A B} (f : A -> result exn B) (g : A -> B) l : (forall a, f a = Ok (g a)) -> map_try f l = Ok (map g l).
Proof. intros H. induction l as [|a l IH]; [done|]. cbn. by rewrite H, IH. Qed.
Lemma filter_filter {A} (f g : A -> bool) l : List.filter f (List.filter g l) = List.filter (fun a => g a && f a) l.
Proof. induction l as [|a l IH]; [done|]. cbn. destruct (g a); cbn; [destruct (f a)|]; by rewrite IH. Qed.
Lemma filter_all {A} (l : list A) : List.filter (fun _ => true) l = l.
Proof. induction l as [|a l IH]; cbn; [done|by rewrite IH]. Qed.

Lemma ranks_descend q l : StronglySorted (fun a b => calculateRank b q <= calculateRank a q) (isort (by_rank q) l).
Proof.
  assert (H : StronglySorted (fun a b => by_rank q a b = true) (isort (by_rank q) l)).
  { apply isort_sorted; unfold by_rank; intros; lia. }
  induction H as [|a k _ IH Ha]; constructor; [exact IH|]. eapply Forall_impl; [exact Ha|]. intros b. unfold by_rank. lia.
Qed.

Section Pages.
Context (input : CatalogSearchInput) (q : string) (user : option CatalogUser) (canUseTool : string -> string -> bool)
  (config : json) (scanned : list CatalogAction).

Definition callable (a : CatalogAction) : bool := decision (typed_rules config) (ca_serverId a) (riskLevel a) false.

Definition matching (a : CatalogAction) : bool :=
  match user with Some u => isToolEnabledForUser (JStr (cu_permissions u)) (ca_serverId a) (originalName a) | None => true end
  && (canUseTool (ca_serverId a) (originalName a) && (if directCallableOnly input then callable a else true)).

(** The matches, best first. *)
Definition best_first : list CatalogAction := isort (by_rank q) (List.filter matching scanned).

Definition item_of (a : CatalogAction) : CatalogSearchResultItem :=
  {| it_actionId := actionId a; it_displayName := displayName a; it_title := title a; it_summary := summary a;
     it_serverId := ca_serverId a; it_riskLevel := riskLevel a; directCallable := callable a; it_schemaHash := schemaHash a |}.

(** A client that follows the cursors, over the same rows, for at most [fuel]
    requests; [None] when there is a cursor left then. *)
Fixpoint follow (fuel : nat) (c : option string) : option (result exn (list (list CatalogSearchResultItem))) :=
  match fuel with
  | O => None
  | S fuel =>
      match search_page (with_cursor c input) q user canUseTool (exposure_rules config) scanned with
      | Throw e => Some (Throw e)
      | Ok r =>
          match nextCursor r with
          | None => Some (Ok [results r])
          | Some c => (fun pages => try! rest := pages in Ok (results r :: rest)) <$> follow fuel (Some c)
          end
      end
  end.

Hypothesis validated : validateDiscoveryProfileConfig config = None.

Lemma ranked_matches c : ranked_rows (with_cursor c input) q user canUseTool (exposure_rules config) scanned = Ok best_first.
Proof using validated.
  unfold ranked_rows, best_first. cbn [directCallableOnly with_cursor].
  rewrite (filter_try_pure _ callable) by (intros a; by apply validated_evaluation). unfold matching.
  destruct user, (directCallableOnly input); cbn [rbind]; rewrite ?filter_filter; do 2 f_equal; apply List.filter_ext;
    intros a; by rewrite ?andb_true_r, <-?andb_assoc.
Qed.

Lemma result_item_of a : result_item (exposure_rules config) a = Ok (item_of a).
Proof using validated. unfold result_item. by rewrite validated_evaluation. Qed.

Notation limit := (page_limit (in_limit input)).

Lemma page_limit_range : 1 <= limit <= 25.
Proof using. unfold page_limit. lia. Qed.

Lemma page_from c offset : parseCursor c = offset -> 0 <= offset ->
  search_page (with_cursor c input) q user canUseTool (exposure_rules config) scanned =
  Ok {| results := map item_of (take (Z.to_nat limit) (drop (Z.to_nat offset) best_first));
        nextCursor := if offset + limit <? Z.of_nat (length best_first) then Some (z_to_string (offset + limit)) else None;
        totalCount := Z.of_nat (length best_first) |}.
Proof using validated.
  intros Hc H0. unfold search_page. rewrite ranked_matches. cbn [rbind cursor with_cursor in_limit]. rewrite Hc.
  by rewrite (map_try_pure _ item_of) by apply result_item_of.
Qed.

Lemma follow_from fuel c offset : parseCursor c = offset -> 0 <= offset -> Z.of_nat (length best_first) <= offset + Z.of_nat fuel ->
  exists pages, follow (S fuel) c = Some (Ok pages) /\ concat pages = map item_of (drop (Z.to_nat offset) best_first)
    /\ Forall (fun p => (length p <= 25)%nat) pages.
Proof using validated.
  revert c offset. induction fuel as [|fuel IH]; intros c offset Hc H0 Hf; cbn [follow]; rewrite (page_from c offset) by done;
    cbn [nextCursor results]; pose proof page_limit_range as Hl; set (page := map item_of (take _ _));
    (assert (Hp25 : (length page <= 25)%nat) by (unfold page; rewrite length_map, length_take; lia)); case_bool; try lia.
  - eexists. split; [done|]. split; [|by apply Forall_singleton]. cbn. rewrite app_nil_r. unfold page. by rewrite take_ge by (rewrite length_drop; lia).
  - destruct (IH (Some (z_to_string (offset + limit))) (offset + limit)) as (pages & Hp & Hq & Hb);
      [apply cursor_roundtrip; lia|lia|lia|]. cbn [follow] in Hp. cbn [follow]. rewrite Hp. cbn [fmap option_fmap option_map rbind].
    eexists. split; [done|]. split; [|by apply Forall_cons]. cbn [concat]. rewrite Hq. unfold page. rewrite <-map_app. f_equal.
    rewrite <-(take_drop (Z.to_nat limit) (drop (Z.to_nat offset) best_first)) at 2. f_equal. rewrite drop_drop. f_equal. lia.
  - eexists. split; [done|]. split; [|by apply Forall_singleton]. cbn. rewrite app_nil_r. unfold page. by rewrite take_ge by (rewrite length_drop; lia).
Qed.
End Pages.

(** C26: With a validated profile and the same rows scanned each time, following
    the cursors from the start comes to a page without a cursor after no more
    requests than there are rows and one, and the pages together are every row
    that matches, once, in the order of ranks; no page has more than 25 items. *)
Theorem pages_are_the_matches (input : CatalogSearchInput) (q : string) (user : option CatalogUser) (canUseTool : string -> string -> bool)
    (config : json) (scanned : list CatalogAction) :
  validateDiscoveryProfileConfig config = None ->
  exists pages ranked, follow input q user canUseTool config scanned (S (length scanned)) None = Some (Ok pages)
    /\ concat pages = map (item_of config) ranked
    /\ ranked ≡ₚ List.filter (matching input user canUseTool config) scanned
    /\ StronglySorted (fun a b => calculateRank b q <= calculateRank a q) ranked
    /\ Forall (fun p => (length p <= 25)%nat) pages.
Proof.
  intros Hv. set (ms := best_first input q user canUseTool config scanned).
  assert (Hl : (length ms <= length scanned)%nat).
  { unfold ms, best_first. rewrite isort_perm. apply List.filter_length_le. }
  destruct (follow_from input q user canUseTool config scanned Hv (length scanned) None 0) as (pages & Hp & Hq & Hb); [done|lia|fold ms; lia|].
  exists pages, ms. split_and! ; [exact Hp|exact Hq|apply isort_perm|apply ranks_descend|exact Hb].
Qed.

(** ** Building *)

Definition strip (a : CatalogAction) : CatalogAction :=
  {| actionId := actionId a; ca_serverId := ca_serverId a; originalName := originalName a; wireName := wireName a; displayName := displayName a;
     title := title a; summary := summary a; ca_description := ca_description a; riskLevel := riskLevel a; ca_enabled := ca_enabled a;
     inputSchema := inputSchema a; outputSchema := outputSchema a; annotations := annotations a; examples := examples a;
     schemaHash := schemaHash a; searchText := searchText a; lastIndexedAt := 0 |}.

(** The table after the statements of a run that were carried out. *)
Definition statement_effect (t : list CatalogAction) (ev : event icall) : list CatalogAction :=
  match ev with
  | Ev X e x => match e in icall X return X -> list CatalogAction with
                | Statement f => fun r => match r with Ok _ => f t | Throw _ => t end
                | _ => fun _ => t
                end x
  end.
Definition table_after (tr : list (event icall)) (t : list CatalogAction) : list CatalogAction := fold_left statement_effect tr t.

Lemma upsert_elem a b t : NoDup (map actionId t) -> b ∈ upsert a t <-> b = a \/ b ∈ t /\ actionId b <> actionId a.
Proof.
  intros Hn. unfold upsert. destruct (existsb _ t) eqn:E.
  - apply existsb_exists in E as (c & Hc & Hca%str_eqb_eq). apply list_elem_of_In in Hc.
    rewrite list_elem_of_In, in_map_iff. split.
    + intros (d & Hd & Hin%list_elem_of_In). destruct (str_eqb (actionId d) (actionId a)) eqn:Ed; [by left|]. subst.
      apply str_eqb_neq in Ed. by right.
    + intros [->|[Hb Hne]]; [exists c; rewrite Hca, str_eqb_refl; split; [done|by apply list_elem_of_In]|].
      exists b. apply str_eqb_neq in Hne. rewrite Hne. split; [done|by apply list_elem_of_In].
  - rewrite elem_of_app, list_elem_of_singleton. split; [|tauto].
    intros [Hb|Hb]; [|by left]. right. split; [done|]. intros Hab. rewrite <-not_true_iff_false, existsb_exists in E.
    apply E. exists b. split; [by apply list_elem_of_In|by apply str_eqb_eq].
Qed.

Lemma upsert_ids a t : NoDup (map actionId t) -> NoDup (map actionId (upsert a t)).
Proof.
  intros Hn. unfold upsert. destruct (existsb _ t) eqn:E.
  - rewrite map_map. erewrite map_ext; [exact Hn|]. intros b. cbn. destruct (str_eqb _ _) eqn:Eb; [|done]. by apply str_eqb_eq in Eb.
  - rewrite map_app. apply NoDup_app. split_and! ; [done| |apply NoDup_singleton].
    intros i Hi ->%list_elem_of_singleton. rewrite <-not_true_iff_false, existsb_exists in E. apply E.
    apply list_elem_of_In, in_map_iff in Hi as (b & Hb & Hin). exists b. split; [done|by apply str_eqb_eq].
Qed.

Lemma bulkUpsert_spec l t : NoDup (map actionId l) -> NoDup (map actionId t) ->
  NoDup (map actionId (bulkUpsert l t)) /\ forall b, b ∈ bulkUpsert l t <-> b ∈ l \/ b ∈ t /\ actionId b ∉ map actionId l.
Proof.
  unfold bulkUpsert. revert t. induction l as [|a l IH]; cbn [fold_left map]; intros t Hl Ht.
  - split; [done|]. intros b. set_solver.
  - apply NoDup_cons in Hl as [Ha Hl]. destruct (IH (upsert a t) Hl (upsert_ids a t Ht)) as [H1 H2]. split; [done|].
    intros b. rewrite H2, upsert_elem by done. rewrite !elem_of_cons. split.
    + intros [Hb|[[->|[Hb Hne]] Hni]]; [by left; right|by left; left|right; split; [done|tauto]].
    + intros [[->|Hb]|[Hb Hni]]; [right; split; [by left|done]|by left|right; split; [right; split; [done|tauto]|tauto]].
Qed.

Lemma except_spec sid l t b : NoDup (map actionId t) ->
  b ∈ deleteByServerIdExcept sid (map actionId l) t <-> b ∈ t /\ (ca_serverId b <> sid \/ actionId b ∈ map actionId l).
Proof.
  intros Hn. unfold deleteByServerIdExcept, deleteByServerId.
  assert (Hne : negb (str_eqb (ca_serverId b) sid) = true <-> ca_serverId b <> sid) by (rewrite negb_true_iff; apply str_eqb_neq).
  assert (Hin : forall k, elem (actionId b) k = true <-> actionId b ∈ k).
  { intros k. unfold elem. rewrite existsb_exists. split; [by intros (y & Hy%list_elem_of_In & ->%str_eqb_eq)|].
    intros Hk. exists (actionId b). split; [by apply list_elem_of_In|apply str_eqb_refl]. }
  destruct (map actionId l) as [|i k] eqn:E; rewrite list_elem_of_In, filter_In, <-list_elem_of_In.
  - rewrite Hne. set_solver.
  - rewrite orb_true_iff, Hne, Hin. done.
Qed.

Section Rebuild.
Variable sha256 : string -> string.
Notation id_of := (action_id sha256).

(** Every row has the id of its server and its tool, and no two rows one. *)
Definition table_ok (t : list CatalogAction) : Prop :=
  NoDup (map actionId t) /\ Forall (fun a => actionId a = id_of (ca_serverId a) (originalName a)) t.

(** The ids of the actions in play tell them apart. *)
Definition distinct_ids (keys : list (string * string)) : Prop :=
  forall k k', k ∈ keys -> k' ∈ keys -> id_of (fst k) (snd k) = id_of (fst k') (snd k') -> k = k'.

Definition row_key (a : CatalogAction) : string * string := (ca_serverId a, originalName a).
Definition tool_key (sid : string) (t : CatalogTool) : string * string := (sid, ct_name t).

Lemma map_tools_runs sid tools tr l t : runs (map_tools sha256 sid tools) tr (Some l) ->
  table_after tr t = t /\ map strip l = map (fun x => strip (mapToolToCatalogAction sha256 0 sid x)) tools.
Proof using.
  revert tr l t. induction tools as [|x tools IH]; cbn [map_tools runs]; intros tr l t; [by intros [-> [= ->]]|].
  intros (now & tr' & -> & (tr1 & a & tr2 & -> & H1 & [-> [= ->]])%runs_bind_inv). unfold table_after. cbn. rewrite app_nil_r.
  destruct (IH tr1 a t H1) as [Ht Hm]. split; [exact Ht|]. rewrite Hm. done.
Qed.

(** What the manager answers about the tools of the server. *)
Definition finds (found : ServerTools) (ev : event icall) : Prop :=
  match ev with
  | Ev X e x => match e in icall X return X -> Prop with ToolsOf _ => fun f => f = found | _ => fun _ => True end x
  end.

Lemma run_statement_runs f {A} (k : Index A) tr a t : runs (run_statement f k) tr (Some (Ok a)) ->
  exists tr', runs k tr' (Some (Ok a)) /\ table_after tr t = table_after tr' (f t).
Proof using. intros ([u|e] & tr' & -> & H); [by exists tr'|by destruct H]. Qed.

(** What building makes of the table when it succeeds. *)
Lemma rebuild_effect sid tools tr n t : Forall (finds (Loaded tools)) tr -> runs (rebuildForServer sha256 sid) tr (Some (Ok n)) ->
  exists l, map strip l = map (fun x => strip (mapToolToCatalogAction sha256 0 sid x)) tools /\ n = Z.of_nat (length l)
    /\ table_after tr t = deleteByServerIdExcept sid (map actionId l) (bulkUpsert l t).
Proof using.
  intros Hf (found & tr0 & -> & Hr). apply Forall_cons in Hf as [Hf _]. cbn in Hf. subst found.
  apply runs_bind_inv in Hr as (tr1 & l & tr2 & -> & H1 & H2). destruct (map_tools_runs _ _ _ _ t H1) as [Ht Hm].
  exists l. split; [done|].
  assert (Hk : forall tr' t', runs (run_statement (deleteByServerIdExcept sid (map actionId l)) (Ret (Ok (Z.of_nat (length l))))) tr' (Some (Ok n)) ->
    n = Z.of_nat (length l) /\ table_after tr' t' = deleteByServerIdExcept sid (map actionId l) t').
  { intros tr' t' (tr'' & [-> [= <-]] & Hta)%(run_statement_runs _ _ _ _ t'). done. }
  assert (E : table_after (Ev ServerTools (ToolsOf sid) (Loaded tools) :: tr1 ++ tr2) t = table_after tr2 t).
  { unfold table_after. cbn [fold_left statement_effect]. rewrite fold_left_app. unfold table_after in Ht. by rewrite Ht. }
  rewrite E. destruct l as [|a l]; [by apply Hk|].
  destruct (run_statement_runs _ _ _ _ t H2) as (tr3 & H3 & ->). by apply Hk.
Qed.

Lemma strip_row a : actionId (strip a) = actionId a /\ ca_serverId (strip a) = ca_serverId a /\ originalName (strip a) = originalName a.
Proof using. done. Qed.

Lemma mapped_ids sid l tools : map strip l = map (fun x => strip (mapToolToCatalogAction sha256 0 sid x)) tools ->
  map actionId l = map (fun x => id_of sid (ct_name x)) tools /\ map row_key l = map (tool_key sid) tools.
Proof using.
  revert l. induction tools as [|x tools IH]; intros [|a l] H; try done.
  cbn [map] in *. assert (Hs := f_equal (hd (strip a)) H). assert (Hl := f_equal (@tl _) H). cbn [hd tl] in Hs, Hl.
  destruct (IH l Hl) as [-> ->]. unfold row_key, tool_key. split; f_equal; [exact (f_equal actionId Hs)|].
  f_equal; [exact (f_equal ca_serverId Hs)|exact (f_equal originalName Hs)].
Qed.

Lemma elem_of_map {A B} (f : A -> B) l y : y ∈ map f l <-> exists x, y = f x /\ x ∈ l.
Proof using.
  rewrite list_elem_of_In, in_map_iff. split; intros (x & H1 & H2); exists x; (split; [done|by apply list_elem_of_In]).
Qed.

Section Effect.
Context (sid : string) (tools : list CatalogTool) (t l : list CatalogAction).
Hypothesis Hm : map strip l = map (fun x => strip (mapToolToCatalogAction sha256 0 sid x)) tools.
Hypothesis Ht : table_ok t.
Hypothesis Hnames : NoDup (map ct_name tools).
Hypothesis Hd : distinct_ids (map row_key t ++ map (tool_key sid) tools).

Lemma rows_of_tools a : a ∈ l -> exists x, x ∈ tools /\ strip a = strip (mapToolToCatalogAction sha256 0 sid x).
Proof using Hm.
  intros Ha. assert (Hs : strip a ∈ map strip l) by (apply elem_of_map; by exists a).
  rewrite Hm in Hs. apply elem_of_map in Hs as (x & Hx & Hin). by exists x.
Qed.

Lemma row_of_tool x : x ∈ tools -> exists a, a ∈ l /\ strip a = strip (mapToolToCatalogAction sha256 0 sid x).
Proof using Hm.
  intros Hx. assert (Hs : strip (mapToolToCatalogAction sha256 0 sid x) ∈ map strip l).
  { rewrite Hm. apply (elem_of_map (fun x => strip (mapToolToCatalogAction sha256 0 sid x))). by exists x. }
  apply elem_of_map in Hs as (a & Ha & Hin). by exists a.
Qed.

Lemma rows_identified a : a ∈ l -> ca_serverId a = sid /\ actionId a = id_of (ca_serverId a) (originalName a).
Proof using Hm.
  intros (x & _ & Hx)%rows_of_tools. split; [exact (f_equal ca_serverId Hx)|].
  change (actionId (strip a) = id_of (ca_serverId (strip a)) (originalName (strip a))). by rewrite Hx.
Qed.

Lemma row_ids_nodup : NoDup (map actionId l).
Proof using Hm Hnames Hd.
  destruct (mapped_ids _ _ _ Hm) as [-> _]. clear Hm Ht. induction tools as [|x xs IH]; [constructor|]. cbn [map] in *.
  apply NoDup_cons in Hnames as [Hx Hn]. apply NoDup_cons. split.
  - intros (y & Hy & Hin)%elem_of_map. apply Hx. assert (E : tool_key sid x = tool_key sid y); [|injection E as ->; apply elem_of_map; by exists y].
    apply Hd; [set_solver| |done]. rewrite elem_of_app. right. right. apply elem_of_map. by exists y.
  - apply IH; [done|]. intros k k' Hk Hk'. apply Hd; set_solver.
Qed.

(** Only rows of the server share an id with a row of its tools. *)
Lemma foreign_ids a : a ∈ t -> ca_serverId a <> sid -> actionId a ∉ map actionId l.
Proof using Hm Ht Hd.
  destruct Ht as [_ Hok]. rewrite Forall_forall in Hok. destruct (mapped_ids _ _ _ Hm) as [_ Hkeys].
  intros Ha Hs (b & Hb & Hbl)%elem_of_map. destruct (rows_identified b Hbl) as [Hbs Hbi].
  apply Hs. assert (E : row_key a = row_key b); [|injection E as -> _; exact Hbs].
  apply Hd; [rewrite elem_of_app; left; apply elem_of_map; by exists a|rewrite elem_of_app, <-Hkeys; right; apply elem_of_map; by exists b|].
  cbn. by rewrite <-(Hok a Ha), Hb.
Qed.

Definition rebuilt : list CatalogAction := deleteByServerIdExcept sid (map actionId l) (bulkUpsert l t).

Lemma rebuilt_rows a : a ∈ rebuilt <-> a ∈ l \/ a ∈ t /\ ca_serverId a <> sid.
Proof using Hm Ht Hnames Hd.
  destruct (bulkUpsert_spec l t row_ids_nodup (proj1 Ht)) as [H1 H2]. unfold rebuilt. rewrite except_spec, H2 by done. split.
  - intros [[Ha|[Ha Hi]] Hc]; [by left|]. right. split; [done|]. by destruct Hc.
  - intros [Ha|[Ha Hs]]; [|by split; [right; split; [|by apply foreign_ids]|left]].
    split; [by left|]. right. apply elem_of_map. by exists a.
Qed.

Lemma rebuilt_ok : table_ok rebuilt.
Proof using Hm Ht Hnames Hd.
  split.
  - destruct (bulkUpsert_spec l t row_ids_nodup (proj1 Ht)) as [H1 _]. eapply sublist_NoDup; [exact H1|]. apply map_sublist.
    unfold rebuilt, deleteByServerIdExcept, deleteByServerId. destruct (map actionId l); apply filter_sublist.
  - apply Forall_forall. intros a [Ha|[Ha _]]%rebuilt_rows; [by apply rows_identified|]. destruct Ht as [_ Hok].
    rewrite Forall_forall in Hok. by apply Hok.
Qed.
End Effect.

(** Rebuilding a server's part of the catalogue, nothing else writing it
    meanwhile: if it succeeds on tools with names of their own, whose ids and
    those of the rows tell them apart, then afterwards the rows of the server
    are those of its tools, whatever was there before, the rows of other
    servers are untouched, ids are still unique, and the number of tools is
    what is returned. *)
Theorem rebuild_is_exact (sid : string) (tools : list CatalogTool) (tr : list (event icall)) (n : Z) (t : list CatalogAction) :
  Forall (finds (Loaded tools)) tr -> runs (rebuildForServer sha256 sid) tr (Some (Ok n)) ->
  table_ok t -> NoDup (map ct_name tools) -> distinct_ids (map row_key t ++ map (tool_key sid) tools) ->
  let t' := table_after tr t in
  table_ok t' /\ n = Z.of_nat (length tools)
  /\ (forall a, ca_serverId a <> sid -> a ∈ t' <-> a ∈ t)
  /\ (forall a, ca_serverId a = sid -> a ∈ t' -> exists x, x ∈ tools /\ strip a = strip (mapToolToCatalogAction sha256 0 sid x))
  /\ (forall x, x ∈ tools -> exists a, a ∈ t' /\ strip a = strip (mapToolToCatalogAction sha256 0 sid x)).
Proof using.
  intros Hf Hr Ht Hnames Hd. destruct (rebuild_effect _ _ _ _ t Hf Hr) as (l & Hm & -> & ->). cbn zeta. fold (rebuilt sid t l).
  pose proof (rebuilt_rows sid tools t l Hm Ht Hnames Hd) as H. split_and!.
  - by apply (rebuilt_ok sid tools).
  - f_equal. apply (f_equal length) in Hm. by rewrite !length_map in Hm.
  - intros a Ha. rewrite H. split; [|by right]. intros [Hl|[Hl _]]; [|done]. by apply (rows_identified sid tools l Hm) in Hl as [].
  - intros a Ha [Hl|[_ Hs]]%H; [by apply (rows_of_tools sid tools l Hm)|done].
  - intros x (a & Ha & E)%(row_of_tool sid tools l Hm). exists a. split; [apply H; by left|done].
Qed.
End Rebuild.

(** ** Running *)

Definition hybrid_config : json :=
  JObj [("directExposureRules", JArr [
    JObj [("match", JObj [("serverIds", JArr [JStr "files"]); ("riskLevels", JArr [JStr "low"])]); ("directCallable", JBool true)];
    JObj [("match", JObj [("riskLevels", JArr [JStr "high"])]); ("directCallable", JBool false)]])]%string.

Lemma validated_rules_decide_witness : validateDiscoveryProfileConfig hybrid_config = None
  /\ evaluateExposureRules (exposure_rules hybrid_config) "files" (Some "low"%string) false = Ok true.
Proof.
  assert (H : validateDiscoveryProfileConfig hybrid_config = None) by reflexivity. split; [exact H|].
  rewrite (validated_rules_decide hybrid_config "files" (Some "low"%string) false H). reflexivity.
Defined.

Definition tool (name : string) : CatalogTool :=
  {| ct_name := name; ct_title := None; ct_description := Some ("about " +:+ name); ct_inputSchema := JUndefined; ct_outputSchema := JUndefined;
     ct_annotations := JObj [("readOnlyHint", JBool true)]%string |}.

(** The digest of short texts is the text itself, here. *)
Definition row (sid name : string) : CatalogAction := mapToolToCatalogAction (fun s => s) 7 sid (tool name).

Definition search_all : CatalogSearchInput :=
  {| query := "t"; in_profileId := None; in_serverIds := None; riskMax := None; directCallableOnly := false; in_limit := Some 2; cursor := None |}.

Definition five_rows : list CatalogAction := map (row "s") ["t1"; "t2"; "t3"; "t4"; "t5"]%string.

Lemma pages_are_the_matches_witness :
  exists pages ranked, follow search_all "t" None (fun _ n => negb (str_eqb n "t3")) hybrid_config five_rows 6 None = Some (Ok pages)
    /\ concat pages = map (item_of hybrid_config) ranked
    /\ ranked ≡ₚ List.filter (matching search_all None (fun _ n => negb (str_eqb n "t3")) hybrid_config) five_rows
    /\ StronglySorted (fun a b => calculateRank b "t" <= calculateRank a "t") ranked
    /\ Forall (fun p => (length p <= 25)%nat) pages.
Proof. exact (pages_are_the_matches search_all "t" None (fun _ n => negb (str_eqb n "t3")) hybrid_config five_rows eq_refl). Defined.

Example two_pages : match follow search_all "t" None (fun _ n => negb (str_eqb n "t3")) hybrid_config five_rows 6 None with
  | Some (Ok pages) => map (map it_displayName) pages | _ => [] end = [["s.t1"; "s.t2"]; ["s.t4"; "s.t5"]]%string.
Proof. vm_compute. reflexivity. Qed.

Definition answer_tools (tools : list CatalogTool) (X : Type) (e : icall X) (w : unit) : X * unit :=
  (match e in icall X return X with
   | ToolsOf _ => Loaded tools
   | IndexNow => 9
   | AvailableServers => []
   | AllServers => Ok []
   | Statement _ => Ok tt
   end, w).

(** The server had the tools a and b and has b and c now. *)
Definition old_table : list CatalogAction := [row "s" "a"; row "s" "b"; row "o" "a"]%string.
Definition rebuild_trace : list (event icall) :=
  fst (fst (run_with (answer_tools [tool "b"; tool "c"]%string) (rebuildForServer (fun s => s) "s") tt)).

Lemma rebuild_is_exact_witness :
  table_ok (fun s => s) (table_after rebuild_trace old_table)
  /\ map displayName (table_after rebuild_trace old_table) = ["s.b"; "o.a"; "s.c"]%string.
Proof.
  split; [|vm_compute; reflexivity].
  refine (proj1 (rebuild_is_exact (fun s => s) "s" [tool "b"; tool "c"]%string rebuild_trace 2 old_table _ _ _ _ _)).
  - repeat constructor.
  - apply run_with_result. vm_compute. reflexivity.
  - split; [|repeat constructor]. apply (bool_decide_unpack (NoDup _)). vm_compute. exact I.
  - apply (bool_decide_unpack (NoDup _)). vm_compute. exact I.
  - assert (H : Forall (fun k => Forall (fun k' => action_id (fun s => s) (fst k) (snd k) = action_id (fun s => s) (fst k') (snd k') -> k = k')
      (map row_key old_table ++ map (tool_key "s") [tool "b"; tool "c"]%string)) (map row_key old_table ++ map (tool_key "s") [tool "b"; tool "c"]%string)).
    { repeat (constructor; [repeat (constructor; [vm_compute; congruence|]); constructor|]). constructor. }
    intros k k' Hk Hk'. rewrite Forall_forall in H. specialize (H k Hk). rewrite Forall_forall in H. by apply H.
Defined.

(** Two rebuildings of one server interleave: the first has seen the tools
    before a change, the second after it, and the first deletes last. *)
Example late_deletion_loses_a_tool :
  let before := [row "s" "a"]%string in
  let after := [row "s" "a"; row "s" "b"]%string in
  let statements := [bulkUpsert before; bulkUpsert after; deleteByServerIdExcept "s" (map actionId after); deleteByServerIdExcept "s" (map actionId before)] in
  map displayName (fold_left (fun t f => f t) statements []) = ["s.a"]%string.
Proof. vm_compute. reflexivity. Qed.

(** The id of an action is a digest of server and tool joined: other pairs
    have the same text. *)
Example ids_of_other_pairs sha256 : action_id sha256 "a" "b::c" = action_id sha256 "a::b" "c".
Proof. reflexivity. Qed.
