(* ===== verification/DiscoveryProfiles.v ===== *)
(** * Discovery profiles

    The profiles that say what is disclosed
    ([src/src/repositories/DiscoveryProfileRepository.ts]), the active one and
    its cache ([src/src/mcp/services/DiscoveryConfigService.ts]) and the
    requests of administrators
    ([src/src/controllers/handlers/DiscoveryHandler.ts]), as programs that
    interleave on one table and one cache. *)
From Stdlib Require Import Ascii ZArith Lia.
From stdpp Require Import base strings list sets.
From S2P Require Import Prelude Json JsMap ServerTypes Effects Interleaving AdminTypes Discovery DiscoveryCorrect.
Open Scope Z_scope.

(** ** Data *)

Record DiscoveryProfile : Type := {
  dp_id : string;
  dp_name : string;
  dp_description : option string;
  dp_mode : string;
  dp_enabled : bool;
  dp_isDefault : bool;
  dp_config : json;
  dp_instructionText : option string;
  dp_createdAt : Z;
  dp_updatedAt : Z
}.

(** What [create] and [update] hand to the database; an undefined field has
    its default, or stays. *)
Record ProfileData : Type := {
  pd_name : option string;
  pd_description : json;
  pd_mode : option string;
  pd_enabled : json;
  pd_isDefault : json;
  pd_config : json;
  pd_instructionText : json
}.

(** The service's fields. *)
Record ConfigService : Type := { cs_enabled : bool; cachedProfile : option DiscoveryProfile; cacheExpiry : Z }.

Inductive failure : Type := Refused (e : AdminError) | Failed (e : exn).
Definition reply (A : Type) : Type := result failure A.

Inductive dpcall : Type -> Type :=
| FindAll : dpcall (reply (list DiscoveryProfile))
| FindById (id : string) : dpcall (reply (option DiscoveryProfile))
| FindDefault : dpcall (reply (option DiscoveryProfile))
| CreateProfile (d : ProfileData) : dpcall (reply DiscoveryProfile)
| UpdateProfile (id : string) (d : ProfileData) : dpcall (reply DiscoveryProfile)
| DeleteProfile (id : string) : dpcall (reply DiscoveryProfile)
(* the transaction of [setDefault] *)
| MakeDefault (id : string) : dpcall (reply unit)
| ProfileNow : dpcall Z
| ReadService : dpcall ConfigService
| WriteService (f : ConfigService -> ConfigService) : dpcall unit
| FindRows : dpcall (reply (list CatalogAction))
| Reindex : dpcall (reply Z).

Definition Profiles (A : Type) : Type := prog dpcall (reply A).

Definition ask {A B} (e : dpcall (reply A)) (k : A -> Profiles B) : Profiles B :=
  call! r := e in match r with Ok a => k a | Throw x => Ret (Throw x) end.
Notation "'ask!' x ':=' e 'in' k" := (ask e (fun x => k))
  (at level 10, x name, e at level 100, k at level 200) : peta_scope.

(** ** The active profile *)

Definition PROFILE_CACHE_TTL_MS : Z := 10000.

Definition enabled_of (p : option DiscoveryProfile) : bool := match p with Some p => dp_enabled p | None => false end.

Definition set_enabled (b : bool) (s : ConfigService) : ConfigService :=
  {| cs_enabled := b; cachedProfile := cachedProfile s; cacheExpiry := cacheExpiry s |}.
Definition store_profile (p : option DiscoveryProfile) (expiry : Z) (s : ConfigService) : ConfigService :=
  {| cs_enabled := enabled_of p; cachedProfile := p; cacheExpiry := expiry |}.
Definition expire (s : ConfigService) : ConfigService :=
  {| cs_enabled := cs_enabled s; cachedProfile := cachedProfile s; cacheExpiry := 0 |}.

Definition invalidateCache {A} (k : prog dpcall A) : prog dpcall A := WriteService expire !; k.

Definition getActiveProfile : Profiles (option DiscoveryProfile) :=
  call! now := ProfileNow in
  call! s := ReadService in
  if now <? cacheExpiry s
  then WriteService (set_enabled (enabled_of (cachedProfile s))) !; Ret (Ok (cachedProfile s))
  else
    ask! profile := FindDefault in
    WriteService (store_profile profile (now + PROFILE_CACHE_TTL_MS)) !;
    Ret (Ok profile).

Definition getMode : Profiles DiscoveryMode :=
  await! profile := getActiveProfile in
  Ret (Ok match profile with
          | Some p => if dp_enabled p then default FLAT (mode_of (dp_mode p)) else FLAT
          | None => FLAT
          end).

(** [setDefault] *)
Definition setDefault (id : string) : Profiles DiscoveryProfile :=
  ask! done := MakeDefault id in
  ask! updated := FindById id in
  match updated with
  | Some p => Ret (Ok p)
  | None => Ret (Throw (Failed (Error ("Discovery profile not found after setDefault: " +:+ id))))
  end.

Definition no_data : ProfileData :=
  {| pd_name := None; pd_description := JUndefined; pd_mode := None; pd_enabled := JUndefined; pd_isDefault := JUndefined;
     pd_config := JUndefined; pd_instructionText := JUndefined |}.
Definition enabled_only (b : bool) : ProfileData :=
  {| pd_name := None; pd_description := JUndefined; pd_mode := None; pd_enabled := JBool b; pd_isDefault := JUndefined;
     pd_config := JUndefined; pd_instructionText := JUndefined |}.

(** [setGlobalConfig]; the result: enabled, and the id of the default. *)
Definition setGlobalConfig (enabled : bool) (defaultProfileId : option string) : Profiles (bool * option string) :=
  await! chosen := match is_nonempty defaultProfileId with
                   | Some id => await! p := setDefault id in Ret (Ok tt)
                   | None => Ret (Ok tt)
                   end in
  ask! active := FindDefault in
  await! updated := match active with
                    | Some p => ask! u := UpdateProfile (dp_id p) (enabled_only enabled) in Ret (Ok tt)
                    | None => Ret (Ok tt)
                    end in
  WriteService (set_enabled enabled) !;
  invalidateCache
    (ask! refreshed := FindDefault in
     let now_enabled := match refreshed with Some p => dp_enabled p | None => enabled end in
     WriteService (set_enabled now_enabled) !;
     Ret (Ok (now_enabled, option_map dp_id refreshed))).

(** ** Requests of administrators *)

Definition refuse {A} (m : string) : Profiles A := Ret (Throw (Refused {| admin_message := m; admin_code := INVALID_REQUEST |})).

Definition isDiscoveryMode (v : json) : option string :=
  match v with JStr s => match mode_of s with Some _ => Some s | None => None end | _ => None end.

(** [handleGetConfig]: enabled, the default's id, the mode. *)
Definition handleGetConfig : Profiles (bool * option string * string) :=
  ask! profile := FindDefault in
  match profile with
  | Some p => Ret (Ok (dp_enabled p, Some (dp_id p), dp_mode p))
  | None => call! s := ReadService in Ret (Ok (cs_enabled s, None, "FLAT"%string))
  end.

Definition handleSetConfig (data : json) : Profiles (bool * option string) :=
  match jfield_opt data "enabled" with
  | JBool enabled =>
      match jfield_opt data "defaultProfileId" with
      | JUndefined | JNull => setGlobalConfig enabled None
      | JStr id =>
          ask! profile := FindById id in
          match profile with
          | None => refuse ("Discovery profile not found: " +:+ id)
          | Some _ => setGlobalConfig enabled (Some id)
          end
      | _ => Ret (Throw (Failed (Error "PrismaClientValidationError")))
      end
  | _ => refuse "Missing required field: enabled"
  end.

(** The configuration, unless it is refused. *)
Definition config_error (data : json) : option string :=
  match jfield_opt data "config" with JUndefined => None | c => validateDiscoveryProfileConfig c end.

Definition profile_data (data : json) (name mode : option string) : ProfileData :=
  {| pd_name := name; pd_description := jfield_opt data "description"; pd_mode := mode; pd_enabled := jfield_opt data "enabled";
     pd_isDefault := jfield_opt data "isDefault"; pd_config := jfield_opt data "config"; pd_instructionText := jfield_opt data "instructionText" |}.

(** The end of [handleCreateProfile] and [handleUpdateProfile]. *)
Definition finish_saving (makeDefault : bool) (saved : DiscoveryProfile) (id : string) : Profiles DiscoveryProfile :=
  if makeDefault
  then
    await! p := setDefault id in
    invalidateCache (ask! refreshed := FindById id in Ret (Ok (default saved refreshed)))
  else invalidateCache (Ret (Ok saved)).

Definition handleCreateProfile (data : json) : Profiles DiscoveryProfile :=
  match jfield_opt data "name" with
  | JStr name =>
      if str_eqb (trim name) "" then refuse "Missing required field: name" else
      match isDiscoveryMode (jfield_opt data "mode") with
      | None => refuse "Invalid field: mode"
      | Some mode =>
          match config_error data with
          | Some e => refuse ("Invalid field: " +:+ e)
          | None =>
              ask! created := CreateProfile (profile_data data (Some (trim name)) (Some mode)) in
              finish_saving (js_truthy (jfield_opt data "isDefault")) created (dp_id created)
          end
      end
  | _ => refuse "Missing required field: name"
  end.

Definition handleGetProfiles : Profiles (list DiscoveryProfile) := ask! l := FindAll in Ret (Ok l).

Definition handleGetProfile (data : json) : Profiles DiscoveryProfile :=
  match jfield_opt data "id" with
  | JStr id =>
      if str_eqb id "" then refuse "Missing required field: id" else
      ask! p := FindById id in
      match p with None => refuse ("Discovery profile not found: " +:+ id) | Some p => Ret (Ok p) end
  | _ => refuse "Missing required field: id"
  end.

Definition handleUpdateProfile (data : json) : Profiles DiscoveryProfile :=
  match jfield_opt data "id" with
  | JStr id =>
      if str_eqb (trim id) "" then refuse "Missing required field: id" else
      ask! existing := FindById id in
      match existing with
      | None => refuse ("Discovery profile not found: " +:+ id)
      | Some _ =>
          let mode := jfield_opt data "mode" in
          match mode, isDiscoveryMode mode with
          | JUndefined, _ | _, Some _ =>
              let name := jfield_opt data "name" in
              if match name with JStr n => str_eqb (trim n) "" | _ => false end then refuse "Profile name cannot be blank" else
              match config_error data with
              | Some e => refuse ("Invalid field: " +:+ e)
              | None =>
                  match name with
                  | JUndefined | JStr _ =>
                      ask! updated := UpdateProfile id (profile_data data (option_map trim (as_text name)) (isDiscoveryMode mode)) in
                      finish_saving (match jfield_opt data "isDefault" with JBool b => b | _ => false end) updated id
                  | _ => Ret (Throw (Failed TypeError))
                  end
              end
          | _, None => refuse "Invalid field: mode"
          end
      end
  | _ => refuse "Missing required field: id"
  end.

Definition handleDeleteProfile (data : json) : Profiles DiscoveryProfile :=
  match jfield_opt data "id" with
  | JStr id =>
      if str_eqb id "" then refuse "Missing required field: id" else
      ask! existing := FindById id in
      match existing with
      | None => refuse ("Discovery profile not found: " +:+ id)
      | Some _ => ask! deleted := DeleteProfile id in invalidateCache (Ret (Ok deleted))
      end
  | _ => refuse "Missing required field: id"
  end.

(** ** Preview *)

Record DiscoveryPreviewResult : Type := {
  pv_mode : DiscoveryMode;
  directTools : list (string * string);
  hiddenTools : list (string * string * string);
  catalogToolsIncluded : list string
}.

Definition direct_entry (a : CatalogAction) : string * string := (default (displayName a) (wireName a), ca_serverId a).
Definition hidden_entry (a : CatalogAction) : string * string * string := (actionId a, displayName a, ca_serverId a).

(** The rows of a HYBRID profile, apart. *)
Fixpoint split_rows (rules : json) (l : list CatalogAction) : result exn (list CatalogAction * list CatalogAction) :=
  match l with
  | [] => Ok ([], [])
  | a :: l =>
      try! b := evaluateExposureRules rules (ca_serverId a) (riskLevel a) false in
      try! rest := split_rows rules l in
      Ok (if b : bool then (a :: fst rest, snd rest) else (fst rest, a :: snd rest))
  end.

Definition preview (mode : DiscoveryMode) (rules : json) (rows : list CatalogAction) : result exn DiscoveryPreviewResult :=
  match mode with
  | FLAT => Ok {| pv_mode := FLAT; directTools := map direct_entry rows; hiddenTools := []; catalogToolsIncluded := [] |}
  | STRICT => Ok {| pv_mode := STRICT; directTools := []; hiddenTools := map hidden_entry rows; catalogToolsIncluded := map la_name catalog_tools |}
  | HYBRID =>
      try! parts := split_rows rules rows in
      Ok {| pv_mode := HYBRID; directTools := map direct_entry (fst parts); hiddenTools := map hidden_entry (snd parts);
            catalogToolsIncluded := map la_name catalog_tools |}
  end.

Definition handlePreviewDiscovery (data : json) : Profiles DiscoveryPreviewResult :=
  let profileId := is_nonempty (as_text (jfield_opt data "profileId")) in
  ask! profile := (match profileId with Some id => FindById id | None => FindDefault end) in
  match profileId, profile with
  | Some id, None => refuse ("Discovery profile not found: " +:+ id)
  | _, _ =>
      ask! rows := FindRows in
      let shown := match profile with
                   | None => preview FLAT JUndefined rows
                   | Some p => preview (default FLAT (mode_of (dp_mode p))) (exposure_rules (dp_config p)) rows
                   end in
      Ret (match shown with Ok r => Ok r | Throw e => Throw (Failed e) end)
  end.

Definition handleReindexCatalog : Profiles Z := ask! n := Reindex in Ret (Ok n).

(** ** The table and the cache *)

Record ProfileWorld : Type := { profiles : list DiscoveryProfile; service : ConfigService }.

Definition set_profiles (l : list DiscoveryProfile) (w : ProfileWorld) : ProfileWorld := {| profiles := l; service := service w |}.

(** A field as the database takes it; [None] is refused. *)
Definition text_column (old : option string) (v : json) : option (option string) :=
  match v with JUndefined => Some old | JNull => Some None | JStr s => Some (Some s) | _ => None end.
Definition bool_column (old : bool) (v : json) : option bool := match v with JUndefined => Some old | JBool b => Some b | _ => None end.
Definition json_column (old v : json) : json := match v with JUndefined => old | _ => v end.

(** [p] with the fields of [d], written at [now]. *)
Definition with_data (d : ProfileData) (now : Z) (p : DiscoveryProfile) : option DiscoveryProfile :=
  match text_column (dp_description p) (pd_description d), bool_column (dp_enabled p) (pd_enabled d),
        bool_column (dp_isDefault p) (pd_isDefault d), text_column (dp_instructionText p) (pd_instructionText d) with
  | Some description, Some enabled, Some isDefault, Some text =>
      Some {| dp_id := dp_id p; dp_name := default (dp_name p) (pd_name d); dp_description := description; dp_mode := default (dp_mode p) (pd_mode d);
              dp_enabled := enabled; dp_isDefault := isDefault; dp_config := json_column (dp_config p) (pd_config d);
              dp_instructionText := text; dp_createdAt := dp_createdAt p; dp_updatedAt := now |}
  | _, _, _, _ => None
  end.

(** A row before the data of [create]. *)
Definition fresh_profile (id : string) (now : Z) : DiscoveryProfile :=
  {| dp_id := id; dp_name := ""; dp_description := None; dp_mode := "FLAT"; dp_enabled := false; dp_isDefault := false; dp_config := JNull;
     dp_instructionText := None; dp_createdAt := now; dp_updatedAt := now |}.

Definition replace_profile (p : DiscoveryProfile) (l : list DiscoveryProfile) : list DiscoveryProfile :=
  map (fun q => if str_eqb (dp_id q) (dp_id p) then p else q) l.
Definition name_free (p : DiscoveryProfile) (l : list DiscoveryProfile) : Prop :=
  forall q, q ∈ l -> dp_name q = dp_name p -> dp_id q = dp_id p.

Definition set_default (b : bool) (now : Z) (p : DiscoveryProfile) : DiscoveryProfile :=
  {| dp_id := dp_id p; dp_name := dp_name p; dp_description := dp_description p; dp_mode := dp_mode p; dp_enabled := dp_enabled p; dp_isDefault := b;
     dp_config := dp_config p; dp_instructionText := dp_instructionText p; dp_createdAt := dp_createdAt p; dp_updatedAt := now |}.

(** The transaction: the defaults are reset, the new one is set. *)
Definition made_default (id : string) (now : Z) (l : list DiscoveryProfile) : list DiscoveryProfile :=
  map (fun p => if str_eqb (dp_id p) id then set_default true now p else if dp_isDefault p then set_default false now p else p) l.

(** [findDefault]: the default updated last, any one of several. *)
Definition is_default (l : list DiscoveryProfile) (o : option DiscoveryProfile) : Prop :=
  match o with
  | None => forall p, p ∈ l -> dp_isDefault p = false
  | Some p => p ∈ l /\ dp_isDefault p = true /\ forall q, q ∈ l -> dp_isDefault q = true -> dp_updatedAt q <= dp_updatedAt p
  end.

Definition answers (X : Type) (e : dpcall X) (w : ProfileWorld) (x : X) (w' : ProfileWorld) : Prop :=
  match e in dpcall X return X -> Prop with
  | FindAll => fun r => reads (fun l => l ≡ₚ profiles w) w r w'
  | FindById id => fun r => reads (fun o => match o with Some p => p ∈ profiles w /\ dp_id p = id | None => forall p, p ∈ profiles w -> dp_id p <> id end) w r w'
  | FindDefault => fun r => reads (is_default (profiles w)) w r w'
  | CreateProfile d => fun r => writes (fun p s => exists id now, with_data d now (fresh_profile id now) = Some p
      /\ (forall q, q ∈ profiles w -> dp_id q <> id /\ dp_name q <> dp_name p) /\ s = set_profiles (profiles w ++ [p]) w) w r w'
  | UpdateProfile id d => fun r => writes (fun p s => exists q now, q ∈ profiles w /\ dp_id q = id /\ with_data d now q = Some p
      /\ name_free p (profiles w) /\ s = set_profiles (replace_profile p (profiles w)) w) w r w'
  | DeleteProfile id => fun r => writes (fun p s => p ∈ profiles w /\ dp_id p = id
      /\ s = set_profiles (List.filter (fun q => negb (str_eqb (dp_id q) id)) (profiles w)) w) w r w'
  | MakeDefault id => fun r => writes (fun _ s => exists now, (exists p, p ∈ profiles w /\ dp_id p = id) /\ s = set_profiles (made_default id now (profiles w)) w) w r w'
  | ReadService => fun x => x = service w /\ w' = w
  | WriteService f => fun _ => w' = {| profiles := profiles w; service := f (service w) |}
  | _ => fun _ => w' = w
  end x.

(** ** What is in the table *)

Definition valid_mode (s : string) : Prop := is_Some (mode_of s).
Definition valid_config (c : json) : Prop := validateDiscoveryProfileConfig c = None.

(** A profile that can be used: a name, a mode, and a configuration that
    passed validation, if it has one. *)
Record valid_profile (p : DiscoveryProfile) : Prop := {
  vp_name : dp_name p <> ""%string;
  vp_mode : valid_mode (dp_mode p);
  vp_config : dp_config p = JNull \/ valid_config (dp_config p)
}.

Definition given {A} (P : A -> Prop) (o : option A) : Prop := match o with Some a => P a | None => True end.

(** What may be written: to a row there is, and as a row. *)
Definition valid_data (d : ProfileData) : Prop :=
  given (fun n => n <> ""%string) (pd_name d) /\ given valid_mode (pd_mode d) /\ (pd_config d = JUndefined \/ valid_config (pd_config d)).

Definition writes_valid (ev : event dpcall) : Prop :=
  match ev with
  | Ev _ e _ => match e with
                | CreateProfile d => valid_data d /\ is_Some (pd_name d)
                | UpdateProfile _ d => valid_data d
                | _ => True
                end
  end.

Notation careful p := (wp (fun s _ => s) (fun _ ev => writes_valid ev) p tt (fun _ _ => True)).

Lemma careful_ask {A B} (e : dpcall (reply A)) (k : A -> Profiles B) :
  (forall x, writes_valid (Ev _ e x)) -> (forall a, careful (k a)) -> careful (ask e k).
Proof. intros He Hk. unfold ask. cbn [wp]. intros [a|x]; (split; [apply He|]); [apply Hk|done]. Qed.

Lemma careful_call {A X} (e : dpcall X) (k : X -> prog dpcall A) :
  (forall x, writes_valid (Ev _ e x)) -> (forall a, careful (k a)) -> careful (Vis _ e k).
Proof. intros He Hk x. split; [apply He|apply Hk]. Qed.

Lemma careful_await {A B} (p : Profiles A) (k : A -> Profiles B) : careful p -> (forall a, careful (k a)) -> careful (try_bind p k).
Proof. intros Hp Hk. apply wp_bind. eapply wp_mono; [exact Hp|]. intros [] [a|e] _; [apply Hk|done]. Qed.

Ltac carefully :=
  repeat first
    [ exact I
    | match goal with
      | |- forall _, _ => intros ?
      | |- careful (ask _ _) => apply careful_ask
      | |- careful (try_bind _ _) => apply careful_await
      | |- careful (invalidateCache _) => unfold invalidateCache
      | |- careful (Vis _ _ _) => apply careful_call
      | |- careful (if ?x then _ else _) => destruct x
      | |- careful (match ?x with _ => _ end) => destruct x
      end ].

Lemma setDefault_careful id : careful (setDefault id).
Proof. unfold setDefault. carefully. Qed.
Lemma setGlobalConfig_careful enabled id : careful (setGlobalConfig enabled id).
Proof.
  unfold setGlobalConfig. carefully; try apply setDefault_careful. split_and! ; [done|done|by left].
Qed.
Lemma finish_careful b p id : careful (finish_saving b p id).
Proof. unfold finish_saving. carefully. apply setDefault_careful. Qed.

Lemma valid_request data name mode : config_error data = None -> given (fun n => n <> ""%string) name -> given valid_mode mode -> valid_data (profile_data data name mode).
Proof.
  intros Hc Hn Hm. split_and! ; [done|done|]. unfold config_error in Hc. cbn [profile_data pd_config].
  destruct (jfield_opt data "config"); [by left|by right..].
Qed.

Lemma mode_valid v : given valid_mode (isDiscoveryMode v).
Proof. destruct v; cbn; try done. destruct (mode_of s) eqn:E; [|done]. by exists d. Qed.

Lemma create_careful data : careful (handleCreateProfile data).
Proof.
  unfold handleCreateProfile. destruct (jfield_opt data "name") as [| | | |name| |]; try done.
  destruct (str_eqb (trim name) "") eqn:En; [done|]. pose proof (mode_valid (jfield_opt data "mode")) as Hm.
  destruct (isDiscoveryMode _) as [mode|]; [|done]. destruct (config_error data) eqn:Ec; [done|].
  apply careful_ask; [|intros p; apply finish_careful]. intros x. split; [|by eexists].
  apply valid_request; [done|by apply str_eqb_neq|done].
Qed.

Lemma update_careful data : careful (handleUpdateProfile data).
Proof.
  unfold handleUpdateProfile. destruct (jfield_opt data "id") as [| | | |id| |]; try done. destruct (str_eqb (trim id) ""); [done|].
  apply careful_ask; [done|]. intros [p|]; [|done]. cbn zeta. pose proof (mode_valid (jfield_opt data "mode")) as Hm.
  assert (H : careful (if match jfield_opt data "name" with JStr n => str_eqb (trim n) "" | _ => false end then refuse "Profile name cannot be blank" else
    match config_error data with
    | Some e => refuse ("Invalid field: " +:+ e)
    | None => match jfield_opt data "name" with
              | JUndefined | JStr _ =>
                  ask! updated := UpdateProfile id (profile_data data (option_map trim (as_text (jfield_opt data "name"))) (isDiscoveryMode (jfield_opt data "mode"))) in
                  finish_saving (match jfield_opt data "isDefault" with JBool b => b | _ => false end) updated id
              | _ => Ret (Throw (Failed TypeError))
              end
    end)).
  { destruct (match jfield_opt data "name" with JStr _ => _ | _ => false end) eqn:En; [done|]. destruct (config_error data) eqn:Ec; [done|].
    destruct (jfield_opt data "name") as [| | | |n| |]; try done; (apply careful_ask; [|intros u; apply finish_careful]); intros x;
      (apply valid_request; [done| |done]); [done|by apply str_eqb_neq]. }
  destruct (jfield_opt data "mode"); try exact H; destruct (isDiscoveryMode _); try exact H; done.
Qed.

(** The programs that work on the profiles. *)
Inductive profile_program : forall A, Profiles A -> Prop :=
| PP_active : profile_program _ getActiveProfile
| PP_mode : profile_program _ getMode
| PP_get_config : profile_program _ handleGetConfig
| PP_set_config data : profile_program _ (handleSetConfig data)
| PP_create data : profile_program _ (handleCreateProfile data)
| PP_all : profile_program _ handleGetProfiles
| PP_get data : profile_program _ (handleGetProfile data)
| PP_update data : profile_program _ (handleUpdateProfile data)
| PP_delete data : profile_program _ (handleDeleteProfile data)
| PP_preview data : profile_program _ (handlePreviewDiscovery data)
| PP_reindex : profile_program _ handleReindexCatalog.

Lemma programs_careful A p : profile_program A p -> careful p.
Proof.
  destruct 1.
  - unfold getActiveProfile. carefully.
  - unfold getMode, getActiveProfile. carefully.
  - unfold handleGetConfig. carefully.
  - unfold handleSetConfig. carefully; apply setGlobalConfig_careful.
  - apply create_careful.
  - unfold handleGetProfiles. carefully.
  - unfold handleGetProfile, refuse. carefully.
  - apply update_careful.
  - unfold handleDeleteProfile, refuse. carefully.
  - unfold handlePreviewDiscovery, refuse. cbn zeta. destruct (is_nonempty _); carefully.
  - unfold handleReindexCatalog. carefully.
Qed.

Lemma program_writes A (p : Profiles A) tr ev : profile_program A p -> started p tr -> ev ∈ tr -> writes_valid ev.
Proof.
  intros Hp%programs_careful (rest & a & Hr) Hev. destruct (wp_runs _ _ _ _ _ _ _ _ Hp Hr) as [H _].
  apply list_elem_of_split in Hev as (pre & post & ->). apply (H pre ev (post ++ rest)). by rewrite <-app_assoc.
Qed.

Lemma with_data_valid d now p q : valid_data d -> with_data d now p = Some q -> (is_Some (pd_name d) \/ dp_name p <> ""%string) ->
  valid_mode (dp_mode p) -> dp_config p = JNull \/ valid_config (dp_config p) -> valid_profile q.
Proof.
  intros (Hn & Hm & Hc) Hq Hname Hmode Hconfig. unfold with_data in Hq.
  destruct (text_column _ _); [|done]. destruct (bool_column _ _); [|done]. destruct (bool_column _ _); [|done]. destruct (text_column _ _); [|done].
  injection Hq as <-. split; cbn.
  - destruct (pd_name d); cbn in *; [done|]. by destruct Hname as [[]|].
  - by destruct (pd_mode d).
  - destruct Hc as [->|Hc]; [done|]. right. by destruct (pd_config d).
Qed.

Lemma answers_valid X (e : dpcall X) w x w' : writes_valid (Ev X e x) -> answers X e w x w' -> Forall valid_profile (profiles w) -> Forall valid_profile (profiles w').
Proof.
  intros Hw Ha Hv. rewrite Forall_forall in Hv.
  destruct e; cbn in Ha; try (by destruct Ha as [-> _]; apply Forall_forall); try (by destruct Ha as [_ ->]; apply Forall_forall);
    try (by subst w'; apply Forall_forall).
  - destruct Hw as [Hw Hn]. apply writes_inv in Ha as [[-> _]|(p & (id & now & Hp & _ & ->) & _)]; [by apply Forall_forall|].
    cbn. apply Forall_app. split; [by apply Forall_forall|]. apply Forall_singleton.
    eapply with_data_valid; [exact Hw|exact Hp|by left|by exists FLAT|by left].
  - apply writes_inv in Ha as [[-> _]|(p & (q & now & Hq & _ & Hp & _ & ->) & _)]; [by apply Forall_forall|].
    cbn. apply Forall_forall. intros r (r' & -> & Hr)%list_elem_of_fmap. destruct (str_eqb _ _); [|by apply Hv].
    destruct (Hv q Hq) as [H1 H2 H3]. eapply with_data_valid; [exact Hw|exact Hp|by right|done|done].
  - apply writes_inv in Ha as [[-> _]|(p & (_ & _ & ->) & _)]; [by apply Forall_forall|]. cbn. apply Forall_forall.
    intros r [Hr _]%list_elem_of_In%filter_In. by apply Hv, list_elem_of_In.
  - apply writes_inv in Ha as [[-> _]|(p & (now & _ & ->) & _)]; [by apply Forall_forall|]. cbn. apply Forall_forall.
    intros r (q & -> & Hq)%list_elem_of_fmap. destruct (Hv q Hq) as [H1 H2 H3]. by destruct (str_eqb _ _), (dp_isDefault q).
Qed.

(** C25: Any number of these programs, interleaved in any way and with statements
    that fail or are reported as failed: every profile in the table can be
    used, so that evaluating its rules never throws and follows them. *)
Theorem profiles_stay_valid (w w' : ProfileWorld) (tr : list (nat * event dpcall)) :
  interleaving answers w tr w' -> (forall i, exists A p, profile_program A p /\ started p (of_thread i tr)) ->
  Forall valid_profile (profiles w) ->
  Forall valid_profile (profiles w')
  /\ forall p serverId riskLevel d, p ∈ profiles w' ->
       evaluateExposureRules (exposure_rules (dp_config p)) serverId riskLevel d = Ok (decision (typed_rules (dp_config p)) serverId riskLevel d).
Proof.
  intros Hi Hp Hv. assert (Hall : forall i ev, (i, ev) ∈ tr -> writes_valid ev).
  { intros i ev Hev%elem_of_thread. destruct (Hp i) as (A & p & H1 & H2). by eapply program_writes. }
  assert (H : Forall valid_profile (profiles w')).
  { clear Hp. induction Hi as [w|w i X e x w1 tr w2 Ha _ IH]; [done|]. apply IH.
    - eapply answers_valid; [|exact Ha|exact Hv]. apply (Hall i). by left.
    - intros j ev Hev. apply (Hall j). by right. }
  split; [exact H|]. intros p sid risk d Hin. rewrite Forall_forall in H. destruct (H p Hin) as [_ _ [E|Hc]]; [by rewrite E|].
  by apply validated_evaluation.
Qed.

(** After [setDefault]'s transaction one profile is the default, the chosen
    one. *)
Lemma one_default id now l p : p ∈ made_default id now l -> dp_isDefault p = true <-> dp_id p = id.
Proof.
  intros (q & -> & _)%list_elem_of_fmap. destruct (str_eqb (dp_id q) id) eqn:E; [by apply str_eqb_eq in E|].
  apply str_eqb_neq in E. destruct (dp_isDefault q) eqn:Ed; cbn; split; congruence.
Qed.

(** ** Running *)

Definition hybrid_data : json :=
  JObj [("name", JStr " team "); ("mode", JStr "HYBRID"); ("enabled", JBool true); ("config", hybrid_config)]%string.
Definition hybrid_profile : DiscoveryProfile :=
  {| dp_id := "p1"; dp_name := "team"; dp_description := None; dp_mode := "HYBRID"; dp_enabled := true; dp_isDefault := false;
     dp_config := hybrid_config; dp_instructionText := None; dp_createdAt := 5; dp_updatedAt := 5 |}.
Definition empty_world : ProfileWorld := {| profiles := []; service := {| cs_enabled := false; cachedProfile := None; cacheExpiry := 0 |} |}.
Definition creation : list (nat * event dpcall) :=
  [(0%nat, Ev _ (CreateProfile (profile_data hybrid_data (Some "team"%string) (Some "HYBRID"%string))) (Ok hybrid_profile)); (0%nat, Ev _ (WriteService expire) tt)].

Lemma profiles_stay_valid_witness :
  exists w', interleaving answers empty_world creation w' /\ hybrid_profile ∈ profiles w'
    /\ evaluateExposureRules (exposure_rules (dp_config hybrid_profile)) "files" (Some "low"%string) false = Ok true.
Proof.
  assert (Hi : interleaving answers empty_world creation (set_profiles [hybrid_profile] empty_world)).
  { eapply interleaving_call with (s1 := set_profiles [hybrid_profile] empty_world).
    - exists "p1"%string, 5. split; [reflexivity|]. split; [|reflexivity]. intros q Hq. by apply elem_of_nil in Hq.
    - eapply interleaving_call; [reflexivity|]. constructor. }
  exists (set_profiles [hybrid_profile] empty_world). split; [exact Hi|]. split; [by left|].
  assert (Ht : forall i, exists A p, profile_program A p /\ started p (of_thread i creation)).
  { intros i. destruct (decide (i = 0%nat)) as [->|Hne].
    - exists _, (handleCreateProfile hybrid_data). split; [constructor|]. exists [], (Ok hybrid_profile).
      apply run_with_result with (W := nat) (w := 0%nat) (answer := fun X e n =>
        (match e in dpcall X return X with
         | FindAll => Ok [] | FindById _ => Ok None | FindDefault => Ok None | CreateProfile _ => Ok hybrid_profile
         | UpdateProfile _ _ => Ok hybrid_profile | DeleteProfile _ => Ok hybrid_profile | MakeDefault _ => Ok tt
         | ProfileNow => 5 | ReadService => service empty_world | WriteService _ => tt | FindRows => Ok [] | Reindex => Ok 0 end, n)).
      vm_compute. reflexivity.
    - exists _, handleGetProfiles. split; [constructor|].
      assert (E : of_thread i creation = []) by (unfold of_thread; cbn; destruct i; [by destruct Hne|done]).
      rewrite E. exists [Ev _ FindAll (Ok [])], (Ok []). by exists (Ok []), []. }
  destruct (profiles_stay_valid _ _ _ Hi Ht (Forall_nil_2 _)) as [_ H].
  rewrite (H hybrid_profile "files"%string (Some "low"%string) false); [reflexivity|by left].
Defined.

(** A profile is read while it is being disabled: the cache is emptied before
    the old profile is stored in it, which is then used for ten seconds. *)
Example lost_invalidation :
  let old := set_default true 1 hybrid_profile in
  let new := {| dp_id := dp_id old; dp_name := dp_name old; dp_description := None; dp_mode := dp_mode old; dp_enabled := false; dp_isDefault := true;
                dp_config := dp_config old; dp_instructionText := None; dp_createdAt := 5; dp_updatedAt := 6 |} in
  let w := {| profiles := [old]; service := service empty_world |} in
  exists w', interleaving answers w
      [(0%nat, Ev _ ProfileNow 100); (0%nat, Ev _ ReadService (service w)); (0%nat, Ev _ FindDefault (Ok (Some old)));
       (1%nat, Ev _ (UpdateProfile "p1" (enabled_only false)) (Ok new)); (1%nat, Ev _ (WriteService expire) tt);
       (0%nat, Ev _ (WriteService (store_profile (Some old) (100 + PROFILE_CACHE_TTL_MS))) tt)] w'
    /\ profiles w' = [new] /\ cachedProfile (service w') = Some old /\ cacheExpiry (service w') = 10100.
Proof.
  cbn zeta. set (old := set_default true 1 hybrid_profile). set (new := Build_DiscoveryProfile _ _ _ _ _ _ _ _ _ _).
  exists {| profiles := [new]; service := store_profile (Some old) 10100 (expire (service empty_world)) |}.
  split; [|split; [reflexivity|split; reflexivity]].
  repeat first [eapply interleaving_call | apply interleaving_nil].
  - reflexivity.
  - by split.
  - split; [reflexivity|]. split; [by left|]. split; [done|]. intros q ->%list_elem_of_singleton _. done.
  - cbn. exists (set_default true 1 hybrid_profile), 6. split; [by left|]. split; [done|]. split; [reflexivity|]. split; [|reflexivity].
    intros q ->%list_elem_of_singleton _. done.
  - reflexivity.
  - reflexivity.
Qed.
