(* ===== verification/ModernRequests.v ===== *)
(** * Requests of the modern protocol

    What [src/src/mcp/modern/ModernMcpController.ts] decides about a request
    before it does anything: to which era of the protocol it belongs, whether
    it is valid, which headers mirror its parameters, what the user may reach
    and what a name means, what is listed, and what a subscription asks for
    and is told.  The access checks themselves are in [Access]. *)
From Stdlib Require String.
From Stdlib Require Import Ascii ZArith Lia.
From stdpp Require Import base strings list.
From S2P Require Import Prelude Json JsMap CacheSerializer ServerTypes Access.
Open Scope Z_scope.

(** ** Errors *)

(** [ModernMcpError]; [mm_other]: another thrown value, as a text, of which
    only the message counts. *)
Record ModernMcpError : Type := { httpStatus : Z; rpcCode : Z; mm_message : string; mm_data : option json; mm_other : option string }.

(** [ModernErrorCodes] *)
Definition CodeInvalidRequest : Z := -32600.
Definition CodeMethodNotFound : Z := -32601.
Definition CodeInvalidParams : Z := -32602.
Definition CodeInternalError : Z := -32603.
Definition CodeHeaderMismatch : Z := -32020.
Definition CodeUnsupportedProtocolVersion : Z := -32022.

Definition modern_error (httpStatus rpcCode : Z) (message : string) : ModernMcpError :=
  {| httpStatus := httpStatus; rpcCode := rpcCode; mm_message := message; mm_data := None; mm_other := None |}.
Definition reject {A} (httpStatus rpcCode : Z) (message : string) : result ModernMcpError A := Throw (modern_error httpStatus rpcCode message).

(** [toModernError] *)
Definition toModernError (e : ModernMcpError) : ModernMcpError :=
  match mm_other e with Some _ => modern_error 500 CodeInternalError (mm_message e) | None => e end.
(** [String(error)] *)
Definition error_string (e : ModernMcpError) : string :=
  match mm_other e with
  | Some s => s
  | None => "ModernMcpError" +:+ (if str_eqb (mm_message e) "" then "" else ": " +:+ mm_message e)
  end.

(** The body of an error response. *)
Definition modernErrorResponse (id : json) (e : ModernMcpError) : json :=
  JObj [("jsonrpc", JStr "2.0");
        ("error", JObj ([("code", JNum (rpcCode e)); ("message", JStr (mm_message e))] ++ match mm_data e with Some d => [("data", d)] | None => [] end));
        ("id", match id with JUndefined => JNull | i => i end)]%string.

Definition mbind {A B} (r : result ModernMcpError A) (k : A -> result ModernMcpError B) : result ModernMcpError B :=
  match r with Ok a => k a | Throw e => Throw e end.
Notation "'ok!' x ':=' r 'in' k" := (mbind r (fun x => k))
  (at level 10, x name, r at level 100, k at level 200) : peta_scope.
Notation "'must!' b 'else' e 'in' k" := (if b : bool then k else e)
  (at level 10, b at level 100, e at level 100, k at level 200) : peta_scope.

(** ** Requests *)

(** [path]: of the address, as the URL parser reads it; the names of headers
    are in lower case, of a repeated header the first value counts. *)
Record MRequest : Type := { mr_path : string; mr_httpMethod : string; mr_headers : list (string * string); mr_body : json }.

(** [MODERN_MCP_CONFIG], and the versions of the protocol library. *)
Record ModernConfig : Type := { mc_enabled : bool; supportedVersions : list string; sdkVersions : list string }.

Definition isJsonObject (v : json) : bool := match v with JObj _ => true | _ => false end.
Definition isJsonRpcId (v : json) : bool := match v with JStr _ | JNum _ => true | _ => false end.

(** ['k' in v] *)
Definition has_key (v : json) (k : string) : bool := match v with JObj kvs => bool_decide (is_Some (assoc k kvs)) | _ => false end.

Definition getHeader (r : MRequest) (name : string) : option string := assoc (to_lower name) (mr_headers r).
(** The header, if it is not empty. *)
Definition given_header (r : MRequest) (name : string) : option string :=
  match getHeader r name with Some v => if truthy_str v then Some v else None | None => None end.

Definition getBodyMethod (body : json) : option string := match jfield_opt body "method" with JStr m => Some m | _ => None end.
Definition extractId (body : json) : json := let i := jfield_opt body "id" in if isJsonRpcId i then i else JUndefined.

Definition one_of (s : string) (l : list string) : bool := existsb (str_eqb s) l.

Definition isMcpEndpoint (r : MRequest) : bool := one_of (mr_path r) ["/mcp"; "/mcp/"; "/mcp/public"; "/mcp/public/"]%string.
Definition isPublicEndpoint (r : MRequest) : bool := one_of (mr_path r) ["/mcp/public"; "/mcp/public/"]%string.

Definition isModernProtocolHeader (c : ModernConfig) (h : option string) : bool :=
  match h with
  | Some v => if negb (truthy_str v) then false else if one_of v (supportedVersions c) then true else negb (one_of v (sdkVersions c))
  | None => false
  end.

Definition isModernOnlyMethod (m : option string) : bool :=
  match m with Some m => one_of m ["server/discover"; "subscriptions/listen"]%string | None => false end.

Definition hasMcpParamHeader (r : MRequest) : bool := existsb (fun kv => starts_with "mcp-param-" (to_lower (fst kv))) (mr_headers r).

Definition is_given (o : option string) : bool := match o with Some _ => true | None => false end.

Definition hasModernSignal (c : ModernConfig) (r : MRequest) : bool :=
  isMcpEndpoint r
  && (isModernProtocolHeader c (getHeader r "mcp-protocol-version")
      || has_key (jfield_opt (mr_body r) "params") "_meta"
      || is_given (given_header r "mcp-method") || is_given (given_header r "mcp-name") || hasMcpParamHeader r
      || isModernOnlyMethod (getBodyMethod (mr_body r))).

Definition shouldPreferLegacy (has_session : string -> bool) (r : MRequest) : bool :=
  let m := getBodyMethod (mr_body r) in
  if bool_decide (m = Some "initialize"%string) then true
  else match given_header r "mcp-session-id" with
       | Some s => if isModernOnlyMethod m then false else has_session s
       | None => false
       end.

Definition shouldHandle (c : ModernConfig) (has_session : string -> bool) (r : MRequest) : bool :=
  isMcpEndpoint r && negb (shouldPreferLegacy has_session r) && hasModernSignal c r.

(** [rejectMixedEra]: [None], the request goes on. *)
Definition rejectMixedEra (c : ModernConfig) (has_session : string -> bool) (r : MRequest) : option ModernMcpError :=
  if negb (isMcpEndpoint r) then None
  else if shouldPreferLegacy has_session r then None
  else if hasModernSignal c r && is_given (given_header r "mcp-session-id")
  then Some (modern_error 400 CodeInvalidRequest "Mixed protocol-era signals: modern requests must not include Mcp-Session-Id")
  else if hasModernSignal c r && is_given (given_header r "last-event-id")
  then Some (modern_error 400 CodeInvalidRequest "Mixed protocol-era signals: modern POST requests must not include Last-Event-ID")
  else None.

(** ** Validation *)

Definition VERSION_KEY : string := "io.modelcontextprotocol/protocolVersion".
Definition CLIENT_INFO_KEY : string := "io.modelcontextprotocol/clientInfo".
Definition CLIENT_CAPABILITIES_KEY : string := "io.modelcontextprotocol/clientCapabilities".

(** [request]: its id, [JUndefined] for none, and its parameters. *)
Record ModernJsonRpcRequest : Type := { rq_id : json; rq_method : string; rq_params : option (list (string * json)) }.
Record ModernMeta : Type := { meta_version : string; meta_clientInfo : json; meta_capabilities : list (string * json) }.
Record ModernValidationResult : Type := { mv_request : ModernJsonRpcRequest; mv_meta : ModernMeta; mv_notification : bool }.

Definition requireParams (r : ModernJsonRpcRequest) : result ModernMcpError (list (string * json)) :=
  match rq_params r with Some p => Ok p | None => reject 400 CodeInvalidParams "params are required" end.
Definition field (k : string) (kvs : list (string * json)) : json := default JUndefined (assoc k kvs).
Definition requireString (v : json) (name : string) : result ModernMcpError string :=
  match v with JStr s => if str_eqb s "" then reject 400 CodeInvalidParams (name +:+ " is required") else Ok s
             | _ => reject 400 CodeInvalidParams (name +:+ " is required") end.

Definition acceptsModernResponse (accept : string) : bool :=
  let mediaTypes := map (fun part => to_lower (hd ""%string (split_on ";" (trim part)))) (split_on "," accept) in
  one_of "application/json" mediaTypes && one_of "text/event-stream" mediaTypes.

Definition isModernClientInfo (v : json) : bool :=
  match jfield_opt v "name", jfield_opt v "version" with JStr n, JStr w => isJsonObject v && truthy_str n && truthy_str w | _, _ => false end.

Definition requireModernMeta (r : ModernJsonRpcRequest) (protocolVersion : string) : result ModernMcpError ModernMeta :=
  let meta := match rq_params r with Some p => match field "_meta" p with JObj kvs => kvs | _ => [] end | None => [] end in
  let version := field VERSION_KEY meta in
  let clientInfo := field CLIENT_INFO_KEY meta in
  ok! v := match version with
           | JUndefined => Ok protocolVersion
           | JStr s => if str_eqb s "" then reject 400 CodeInvalidParams (VERSION_KEY +:+ " must be a non-empty string") else Ok s
           | _ => reject 400 CodeInvalidParams (VERSION_KEY +:+ " must be a non-empty string")
           end in
  must! match clientInfo with JUndefined => true | i => isModernClientInfo i end
    else reject 400 CodeInvalidParams ("Missing " +:+ CLIENT_INFO_KEY) in
  Ok {| meta_version := v; meta_clientInfo := clientInfo;
        meta_capabilities := match field CLIENT_CAPABILITIES_KEY meta with JObj kvs => kvs | _ => [] end |}.

(** *** Mirrored headers *)

Definition base64_value (c : ascii) : option Z :=
  let n := Z.of_nat (nat_of_ascii c) in
  if (65 <=? n) && (n <=? 90) then Some (n - 65)
  else if (97 <=? n) && (n <=? 122) then Some (n - 71)
  else if (48 <=? n) && (n <=? 57) then Some (n + 4)
  else if n =? 43 then Some 62 else if n =? 47 then Some 63 else None.

Definition byte_of (n : Z) : ascii := ascii_of_nat (Z.to_nat (n mod 256)).

(** [Buffer.from(s, 'base64')], for texts that are groups of four. *)
Fixpoint base64_decode (s : string) : string :=
  match s with
  | String a (String b (String c (String d s))) =>
      match base64_value a, base64_value b, base64_value c, base64_value d with
      | Some x, Some y, Some z, Some w =>
          String (byte_of (x * 4 + y / 16)) (String (byte_of (y * 16 + z / 4)) (String (byte_of (z * 64 + w)) (base64_decode s)))
      | Some x, Some y, Some z, None => String (byte_of (x * 4 + y / 16)) (String (byte_of (y * 16 + z / 4)) "")
      | Some x, Some y, None, _ => String (byte_of (x * 4 + y / 16)) ""
      | _, _, _, _ => ""
      end
  | _ => ""
  end.

Fixpoint drop_while (p : ascii -> bool) (s : string) : string :=
  match s with String c s' => if p c then drop_while p s' else s | EmptyString => "" end.

Definition is_base64_unit (c : ascii) : bool := match base64_value c with Some _ => true | None => false end.

(** What [/^=\?base64\?([A-Za-z0-9+/]*={0,2})\?=$/] captures. *)
Definition encoded_part (value : string) : option string :=
  if starts_with "=?base64?" value then
    let rest := str_drop 9 value in
    let n := (String.length rest - 2)%nat in
    let inner := str_take n rest in
    if (2 <=? String.length rest)%nat && str_eqb (str_drop n rest) "?="
       && one_of (drop_while is_base64_unit inner) [""; "="; "=="]%string
    then Some inner else None
  else None.

(** [decodeHeaderMirrorValue]; [None]: a text with units beyond the model's. *)
Definition decodeHeaderMirrorValue (value headerName : string) : result ModernMcpError (option string) :=
  match encoded_part value with
  | None => Ok (Some value)
  | Some inner =>
      if str_eqb inner "" || negb (String.length inner mod 4 =? 0)%nat
      then reject 400 CodeHeaderMismatch ("Invalid base64 " +:+ headerName +:+ " header value")
      else Ok (utf8_decode (base64_decode inner))
  end.

Definition named_methods : list string := ["tools/call"; "prompts/get"; "resources/read"]%string.

(** What [Mcp-Name] has to say. *)
Definition named_target (r : ModernJsonRpcRequest) : result ModernMcpError string :=
  ok! params := requireParams r in
  if str_eqb (rq_method r) "resources/read" then requireString (field "uri" params) "params.uri" else requireString (field "name" params) "params.name".

Definition validateNameHeader (http : MRequest) (r : ModernJsonRpcRequest) : result ModernMcpError unit :=
  if negb (one_of (rq_method r) named_methods) then Ok tt
  else match given_header http "mcp-name" with
       | None => Ok tt
       | Some header =>
           ok! expected := named_target r in
           ok! decoded := decodeHeaderMirrorValue header "Mcp-Name" in
           must! bool_decide (decoded = Some expected) else reject 400 CodeHeaderMismatch "Mcp-Name does not match request params" in
           Ok tt
       end.

Fixpoint mirrors_agree (http : MRequest) (params : list (string * json)) : result ModernMcpError unit :=
  match params with
  | [] => Ok tt
  | (key, value) :: params =>
      if negb (starts_with "Mcp-Param-" key) then mirrors_agree http params
      else must! bool_decide (getHeader http (to_lower key) = Some (js_String value))
             else reject 400 CodeHeaderMismatch (key +:+ " does not match request parameter") in
           mirrors_agree http params
  end.

Definition validateHeaderMirrors (http : MRequest) (r : ModernJsonRpcRequest) : result ModernMcpError unit :=
  match rq_params r with None => Ok tt | Some params => mirrors_agree http params end.

(** The parameters, of a tool call with arguments. *)
Definition normalized_params (method : string) (params : json) : result ModernMcpError (option (list (string * json))) :=
  match params with
  | JObj kvs =>
      if str_eqb method "tools/call" then
        match assoc "arguments" kvs with
        | Some (JObj _) => Ok (Some kvs)
        | Some _ => reject 400 CodeInvalidParams "params.arguments must be an object when present"
        | None => Ok (Some (obj_put "arguments" (JObj []) kvs))
        end
      else Ok (Some kvs)
  | _ => Ok None
  end.

Definition validate_body (body : json) : result ModernMcpError ModernJsonRpcRequest :=
  must! isJsonObject body else reject 400 CodeInvalidRequest "Modern MCP request body must be a single JSON-RPC object" in
  must! negb (has_key body "result" || has_key body "error") else reject 400 CodeInvalidRequest "JSON-RPC responses are not valid client requests" in
  match jfield_opt body "jsonrpc", jfield_opt body "method" with
  | JStr v, JStr method =>
      must! str_eqb v "2.0" else reject 400 CodeInvalidRequest "Invalid JSON-RPC request" in
      must! negb (has_key body "id") || isJsonRpcId (jfield_opt body "id") else reject 400 CodeInvalidRequest "Invalid JSON-RPC id" in
      must! match jfield_opt body "params" with JUndefined | JObj _ => true | _ => false end
        else reject 400 CodeInvalidParams "JSON-RPC params must be an object when present" in
      ok! params := normalized_params method (jfield_opt body "params") in
      Ok {| rq_id := jfield_opt body "id"; rq_method := method; rq_params := params |}
  | _, _ => reject 400 CodeInvalidRequest "Invalid JSON-RPC request"
  end.

Definition unsupported_version (c : ModernConfig) (message : string) (requested : json) : ModernMcpError :=
  {| httpStatus := 400; rpcCode := CodeUnsupportedProtocolVersion; mm_message := message;
     mm_data := Some (JObj [("supported", JArr (map JStr (supportedVersions c))); ("requested", requested)]%string); mm_other := None |}.

Definition validateRequest (c : ModernConfig) (http : MRequest) : result ModernMcpError ModernValidationResult :=
  ok! request := validate_body (mr_body http) in
  must! acceptsModernResponse (default ""%string (getHeader http "accept"))
    else reject 400 CodeInvalidRequest "Accept must include application/json and text/event-stream" in
  match given_header http "mcp-protocol-version" with
  | None => reject 400 CodeHeaderMismatch "MCP-Protocol-Version header is required"
  | Some protocolHeader =>
      ok! meta := requireModernMeta request protocolHeader in
      must! str_eqb protocolHeader (meta_version meta)
        else reject 400 CodeHeaderMismatch "MCP-Protocol-Version does not match request _meta protocolVersion" in
      must! one_of protocolHeader (supportedVersions c) else Throw (unsupported_version c "Unsupported MCP protocol version" (JStr protocolHeader)) in
      must! match given_header http "mcp-method" with Some m => str_eqb m (rq_method request) | None => true end
        else reject 400 CodeHeaderMismatch "Mcp-Method does not match JSON-RPC method" in
      ok! named := validateNameHeader http request in
      ok! mirrored := validateHeaderMirrors http request in
      Ok {| mv_request := request; mv_meta := meta; mv_notification := match rq_id request with JUndefined => true | _ => false end |}
  end.

(** ** Arguments in headers *)

(** An annotated argument: its path, the header's name. *)
Record HeaderAnnotation : Type := { an_path : list string; an_headerName : string }.

Definition own_annotation (childPath : list string) (s : json) : result ModernMcpError (list HeaderAnnotation) :=
  match jfield_opt s "x-mcp-header" with
  | JUndefined => Ok []
  | JStr h =>
      if str_eqb h "" then reject 400 CodeInvalidParams ("Invalid x-mcp-header annotation for " +:+ str_join "." childPath)
      else match jfield_opt s "type" with
           | JStr t =>
               if one_of t ["string"; "integer"; "boolean"]%string then Ok [{| an_path := childPath; an_headerName := h |}]
               else reject 400 CodeInvalidParams ("x-mcp-header annotation for " +:+ str_join "." childPath +:+ " requires string, integer, or boolean schema type")
           | _ => reject 400 CodeInvalidParams ("x-mcp-header annotation for " +:+ str_join "." childPath +:+ " requires string, integer, or boolean schema type")
           end
  | _ => reject 400 CodeInvalidParams ("Invalid x-mcp-header annotation for " +:+ str_join "." childPath)
  end.

(** [findHeaderAnnotations]: down the [properties]. *)
Fixpoint findHeaderAnnotations (path : list string) (schema : json) {struct schema} : result ModernMcpError (list HeaderAnnotation) :=
  match schema with
  | JObj kvs =>
      (fix in_properties (kvs : list (string * json)) :=
         match kvs with
         | [] => Ok []
         | (k, v) :: kvs =>
             if str_eqb "properties" k then
               match v with
               | JObj props =>
                   (fix each (props : list (string * json)) :=
                      match props with
                      | [] => Ok []
                      | (name, child) :: props =>
                          ok! here := (if isJsonObject child then
                                         ok! own := own_annotation (path ++ [name]) child in
                                         ok! below := findHeaderAnnotations (path ++ [name]) child in
                                         Ok (own ++ below)
                                       else Ok []) in
                          ok! rest := each props in
                          Ok (here ++ rest)
                      end) props
               | _ => Ok []
               end
             else in_properties kvs
         end) kvs
  | _ => Ok []
  end.

(** A character of a header's name. *)
Definition token_unit (c : ascii) : bool :=
  let n := nat_of_ascii c in
  ((48 <=? n) && (n <=? 57) || (65 <=? n) && (n <=? 90) || (97 <=? n) && (n <=? 122))%nat
  || existsb (Ascii.eqb c) (String.list_ascii_of_string "!#$%&'*+.^_`|~-").

Fixpoint all_units (p : ascii -> bool) (s : string) : bool := match s with EmptyString => true | String c s => p c && all_units p s end.

(** With the whole names of the headers, each once. *)
Fixpoint normalize_from (toolName : string) (seenHeaders : list string) (l : list HeaderAnnotation) : result ModernMcpError (list HeaderAnnotation) :=
  match l with
  | [] => Ok []
  | a :: l =>
      let headerName := "Mcp-Param-" +:+ an_headerName a in
      must! all_units token_unit (an_headerName a) && negb (str_eqb (an_headerName a) "")
        else reject 400 CodeInvalidParams ("Invalid x-mcp-header annotation for " +:+ toolName +:+ "." +:+ str_join "." (an_path a)) in
      must! negb (one_of (to_lower headerName) seenHeaders) else reject 400 CodeInvalidParams ("Duplicate x-mcp-header annotation for " +:+ headerName) in
      ok! rest := normalize_from toolName (to_lower headerName :: seenHeaders) l in
      Ok ({| an_path := an_path a; an_headerName := headerName |} :: rest)
  end.
Definition normalizeHeaderAnnotations (toolName : string) (l : list HeaderAnnotation) : result ModernMcpError (list HeaderAnnotation) :=
  normalize_from toolName [] l.

Definition tool_annotations (toolName : string) (inputSchema : json) : result ModernMcpError (list HeaderAnnotation) :=
  if isJsonObject inputSchema then ok! l := findHeaderAnnotations [] inputSchema in normalizeHeaderAnnotations toolName l else Ok [].

Definition hasValidHeaderAnnotations (toolName : string) (inputSchema : json) : bool :=
  match tool_annotations toolName inputSchema with Ok _ => true | Throw _ => false end.

Fixpoint getArgumentAtPath (current : json) (path : list string) : json :=
  match path with
  | [] => current
  | segment :: path => match current with JObj kvs => getArgumentAtPath (field segment kvs) path | _ => JUndefined end
  end.

Definition isHeaderMirrorValue (v : json) : bool := match v with JStr _ | JBool _ | JNum _ => true | _ => false end.

(** One annotation against the request. *)
Definition argument_mirrored (http : MRequest) (args : list (string * json)) (a : HeaderAnnotation) : result ModernMcpError unit :=
  let value := getArgumentAtPath (JObj args) (an_path a) in
  let propertyName := str_join "." (an_path a) in
  let mirrored := getHeader http (an_headerName a) in
  match value with
  | JUndefined | JNull =>
      match mirrored with
      | Some _ => reject 400 CodeHeaderMismatch (an_headerName a +:+ " must be omitted when tool argument " +:+ propertyName +:+ " is null or missing")
      | None => Ok tt
      end
  | _ =>
      must! isHeaderMirrorValue value
        else reject 400 CodeInvalidParams ("x-mcp-header argument " +:+ propertyName +:+ " must be a string, integer, or boolean") in
      ok! decoded := match mirrored with Some h => decodeHeaderMirrorValue h "Mcp-Param" | None => Ok None end in
      must! bool_decide (decoded = Some (js_String value))
        else reject 400 CodeHeaderMismatch (an_headerName a +:+ " does not match tool argument " +:+ propertyName) in
      Ok tt
  end.

Fixpoint arguments_mirrored (http : MRequest) (args : list (string * json)) (l : list HeaderAnnotation) : result ModernMcpError unit :=
  match l with
  | [] => Ok tt
  | a :: l => ok! u := argument_mirrored http args a in arguments_mirrored http args l
  end.

Definition validateToolHeaderAnnotations (http : MRequest) (toolName : string) (inputSchema : json) (args : list (string * json))
    : result ModernMcpError unit :=
  ok! l := tool_annotations toolName inputSchema in arguments_mirrored http args l.

(** ** The gateway as the request finds it *)

(** A connection: whether it is there, and of the legacy protocol; what the
    server says it can: [listChanged] of tools and prompts, [listChanged] and
    [subscribe] of resources, completions. *)
Record ModernCapabilities : Type := {
  has_connection : bool;
  legacy_connection : bool;
  cap_tools : option bool;
  cap_resources : option (bool * bool);
  cap_prompts : option bool;
  cap_completions : bool
}.

(** The server manager, with the schemas of tools, the MIME types of resources
    and the capabilities, by the id of the context. *)
Record Gateway : Type := {
  gw_manager : ServerManager;
  gw_schema : string -> string -> json;
  gw_mimeType : string -> string -> option string;
  gw_capabilities : string -> ModernCapabilities
}.

Section Reach.
Variable g : Gateway.
Variable session : Session.
Notation mgr := (gw_manager g).
Notation user := (session_userId session).

Definition modern_servers : list ServerContext := List.filter (modern_canAccessServer session) (manager_getAvailableServers mgr).

Definition gateway_context (sid : string) : option ServerContext := getServerContext mgr sid user.

(** [GatewayRoute] *)
Record GatewayRoute : Type := { rt_serverID : string; rt_originalName : string; rt_resourceName : option string }.

Definition context_by_id (id : string) : option ServerContext :=
  match getServerContextByID mgr id with
  | Some ctx => Some ctx
  | None => if truthy_str user then getTemporaryServerContextByID mgr id user else None
  end.

Definition parseGatewayName (name : string) : option GatewayRoute :=
  match last_index_of "_-_" name with
  | None => None
  | Some index =>
      match context_by_id (str_drop (index + 3) name) with
      | Some ctx =>
          let original := str_take index name in
          Some {| rt_serverID := serverID ctx; rt_originalName := original; rt_resourceName := findResourceName ctx original |}
      | None => None
      end
  end.

Definition findTool (ctx : ServerContext) (name : string) : option Tool := List.find (fun t => str_eqb (tool_name t) name) (tools_data ctx).
Definition findPrompt (ctx : ServerContext) (name : string) : option Prompt := List.find (fun p => str_eqb p name) (prompts_data ctx).
Definition findResource (ctx : ServerContext) (uri : string) : option Resource := List.find (fun r => str_eqb (resource_uri r) uri) (resources_data ctx).

(** The route a server offers for a plain name. *)
Definition offers_tool (name : string) (ctx : ServerContext) : option GatewayRoute :=
  match findTool ctx name with
  | Some t => if modern_can_use session ctx CapTool (tool_name t)
              then Some {| rt_serverID := serverID ctx; rt_originalName := tool_name t; rt_resourceName := None |} else None
  | None => None
  end.
Definition offers_prompt (name : string) (ctx : ServerContext) : option GatewayRoute :=
  match findPrompt ctx name with
  | Some p => if modern_can_use session ctx CapPrompt p
              then Some {| rt_serverID := serverID ctx; rt_originalName := p; rt_resourceName := None |} else None
  | None => None
  end.
Definition offers_resource (uri : string) (ctx : ServerContext) : option GatewayRoute :=
  match findResource ctx uri with
  | Some r => if modern_can_use session ctx CapResource (resource_name r)
              then Some {| rt_serverID := serverID ctx; rt_originalName := resource_uri r; rt_resourceName := Some (resource_name r) |} else None
  | None => None
  end.

(** The only route offered. *)
Definition only_route (offers : ServerContext -> option GatewayRoute) (l : list ServerContext) : option GatewayRoute :=
  match omap offers l with [r] => Some r | _ => None end.

Definition modern_resolveToolName (name : string) : option GatewayRoute :=
  match parseGatewayName name with
  | Some parsed =>
      match gateway_context (rt_serverID parsed) with
      | Some ctx =>
          match findTool ctx (rt_originalName parsed) with
          | Some t => if modern_can_use session ctx CapTool (tool_name t)
                      then Some {| rt_serverID := rt_serverID parsed; rt_originalName := tool_name t; rt_resourceName := None |} else None
          | None => None
          end
      | None => None
      end
  | None => only_route (offers_tool name) modern_servers
  end.

Definition resolvePromptName (name : string) : option GatewayRoute :=
  match parseGatewayName name with
  | Some parsed =>
      match gateway_context (rt_serverID parsed) with
      | Some ctx =>
          match findPrompt ctx (rt_originalName parsed) with
          | Some p => if modern_can_use session ctx CapPrompt p
                      then Some {| rt_serverID := rt_serverID parsed; rt_originalName := p; rt_resourceName := None |} else None
          | None => None
          end
      | None => None
      end
  | None => only_route (offers_prompt name) modern_servers
  end.

(** A name that is not empty. *)
Definition given_name (o : option string) : option string := if truthy_ostr o then o else None.

(** A resource by its server. *)
Definition parsed_resource (parsed : GatewayRoute) : option GatewayRoute :=
  match gateway_context (rt_serverID parsed) with
  | Some ctx =>
      match given_name (findResourceName ctx (rt_originalName parsed)) with
      | Some n => if modern_can_use session ctx CapResource n
                  then Some {| rt_serverID := rt_serverID parsed; rt_originalName := rt_originalName parsed; rt_resourceName := Some n |} else None
      | None => None
      end
  | None => None
  end.

Definition modern_resolveResourceUri (uri : string) : option GatewayRoute :=
  match parseGatewayName uri with
  | Some parsed => parsed_resource parsed
  | None => only_route (offers_resource uri) modern_servers
  end.

(** [serverIds]: the servers asked for, none for all. *)
Definition resolveResourceUriForSubscription (uri : string) (serverIds : list string) : option GatewayRoute :=
  let asked sid := match serverIds with [] => true | l => one_of sid l end in
  match parseGatewayName uri with
  | Some parsed => if asked (rt_serverID parsed) then parsed_resource parsed else None
  | None => only_route (offers_resource uri) (List.filter (fun ctx => asked (serverID ctx)) modern_servers)
  end.

(** ** Listings *)

(** A listed tool of the modern protocol. *)
Definition stripUiToolMeta (t : Tool) : option (list (string * json)) :=
  match tool_meta t with
  | None => None
  | Some meta => match List.filter (fun kv => negb (str_eqb (fst kv) "ui" || str_eqb (fst kv) "ui/resourceUri")) meta with [] => None | l => Some l end
  end.

Definition supportsMcpApps (capabilities : list (string * json)) : bool :=
  match jfield_opt (jfield_opt (field "extensions" capabilities) "io.modelcontextprotocol/ui") "mimeTypes" with
  | JArr l => existsb (fun v => match v with JStr s => str_eqb s "text/html;profile=mcp-app" | _ => false end) l
  | _ => false
  end.

Definition tool_level (ctx : ServerContext) (name : string) : option Z :=
  match getDangerLevel session (serverID ctx) name with Some d => Some d | None => context_getDangerLevel ctx name end.

Definition modern_list_tool (apps : bool) (ctx : ServerContext) (t : Tool) : ListedTool :=
  let level := tool_level ctx (tool_name t) in
  let original := if apps then getToolUiResourceUri t else None in
  {| listed_name := generateNewName (ctx_id ctx) (tool_name t);
     listed_readonly := readOnlyHint t || bool_decide (level = Some DangerLevel_Silent);
     listed_destructive := destructiveHint t || bool_decide (level = Some DangerLevel_Notification);
     listed_meta := if apps
                    then buildToolMetaWithProxiedResourceUri t
                           (if truthy_ostr original then Some (generateNewName (ctx_id ctx) (default ""%string original)) else None)
                    else stripUiToolMeta t |}.

Definition modern_lists_tool (ctx : ServerContext) (t : Tool) : bool :=
  modern_can_use session ctx CapTool (tool_name t) && hasValidHeaderAnnotations (tool_name t) (gw_schema g (ctx_id ctx) (tool_name t)).

(** The listings, before the runtime sorts them by name. *)
Definition modern_listTools (apps : bool) : list ListedTool :=
  flat_map (fun ctx => map (modern_list_tool apps ctx) (List.filter (modern_lists_tool ctx) (tools_data ctx))) modern_servers.
Definition modern_listResources : list Resource :=
  flat_map (fun ctx => map (fun r => {| resource_uri := generateNewName (ctx_id ctx) (resource_uri r); resource_name := resource_name r |})
    (List.filter (fun r => modern_can_use session ctx CapResource (resource_name r)) (resources_data ctx))) modern_servers.
Definition modern_listResourceTemplates : list ResourceTemplate :=
  flat_map (fun ctx => map (fun t => {| uriTemplate := generateNewName (ctx_id ctx) (uriTemplate t); template_name := template_name t |})
    (List.filter (fun t => modern_can_use session ctx CapResource (template_name t)) (templates_data ctx))) modern_servers.
Definition modern_listPrompts : list Prompt :=
  flat_map (fun ctx => map (generateNewName (ctx_id ctx)) (List.filter (modern_can_use session ctx CapPrompt) (prompts_data ctx))) modern_servers.

(** *** Capabilities *)

Definition caps (ctx : ServerContext) : ModernCapabilities := gw_capabilities g (ctx_id ctx).
Definition legacy_says (ctx : ServerContext) (b : bool) : bool := has_connection (caps ctx) && legacy_connection (caps ctx) && b.

Definition some_list {A B} (a b : option (list A)) (c : option B) : bool := match a, b, c with None, None, None => false | _, _, _ => true end.

(** What is announced: tools and prompts with [listChanged], resources with
    [listChanged] and [subscribe]. *)
Record ServerCapabilities : Type := {
  sv_tools : option bool;
  sv_resources : option (bool * bool);
  sv_prompts : option bool;
  sv_completions : bool;
  sv_ui : bool
}.

Definition says_list (o : option bool) : bool := default false o.

Definition add_server (acc : ServerCapabilities) (ctx : ServerContext) : ServerCapabilities :=
  let c := caps ctx in
  {| sv_tools := sv_tools acc;
     sv_resources :=
       if some_list (ctx_resources ctx) (cachedResources ctx) (cap_resources c)
          || some_list (ctx_templates ctx) (cachedTemplates ctx) (cap_resources c)
       then Some (fst (default (false, false) (sv_resources acc)) || legacy_says ctx (fst (default (false, false) (cap_resources c))),
                  snd (default (false, false) (sv_resources acc)) || legacy_says ctx (snd (default (false, false) (cap_resources c))))
       else sv_resources acc;
     sv_prompts :=
       if some_list (ctx_prompts ctx) (cachedPrompts ctx) (cap_prompts c)
       then Some (says_list (sv_prompts acc) || legacy_says ctx (says_list (cap_prompts c)))
       else sv_prompts acc;
     sv_completions := sv_completions acc || cap_completions c;
     sv_ui := sv_ui acc |}.

Definition is_app_resource (ctx : ServerContext) (r : Resource) : bool :=
  starts_with "ui://" (resource_uri r) && bool_decide (gw_mimeType g (ctx_id ctx) (resource_uri r) = Some "text/html;profile=mcp-app"%string)
  && modern_can_use session ctx CapResource (resource_name r).

Definition hasAvailableMcpApps : bool :=
  existsb (fun ctx =>
    let uris := map resource_uri (List.filter (is_app_resource ctx) (resources_data ctx)) in
    existsb (fun t => modern_can_use session ctx CapTool (tool_name t)
                      && match getToolUiResourceUri t with Some u => one_of u uris | None => false end) (tools_data ctx)) modern_servers.

Definition buildServerCapabilities (apps : bool) : ServerCapabilities :=
  let l := modern_servers in
  let tools := if existsb (fun ctx => some_list (ctx_tools ctx) (cachedTools ctx) (cap_tools (caps ctx))) l
               then Some (existsb (fun ctx => legacy_says ctx (says_list (cap_tools (caps ctx)))) l) else None in
  fold_left add_server l {| sv_tools := tools; sv_resources := None; sv_prompts := None; sv_completions := false; sv_ui := apps && hasAvailableMcpApps |}.
End Reach.

(** ** Scopes *)

(** [AuthContext]: the session's part, and the token. *)
Record ModernAuthContext : Type := {
  ac_session : Session;
  oauthClientId : option string;
  oauthScopes : option (list string);
  oauthAccessTokenExpiresAt : option Z;
  ac_expiresAt : option Z;
  ac_tenantId : option string
}.

Definition requireOAuthScope (a : ModernAuthContext) (scope : string) : result ModernMcpError unit :=
  if negb (truthy_ostr (oauthClientId a)) then Ok tt
  else if one_of scope (default [] (oauthScopes a)) then Ok tt
  else Throw {| httpStatus := 403; rpcCode := CodeInvalidRequest; mm_message := "OAuth scope required: " +:+ scope;
                mm_data := Some (JObj [("oauth", JObj [("error", JStr "insufficient_scope"); ("requiredScopes", JArr [JStr scope])])])%string;
                mm_other := None |}.

Definition ref_type (params : list (string * json)) : option string :=
  match field "ref" params with JObj r => match field "type" r with JStr t => Some t | _ => None end | _ => None end.

Definition requiredScopesForRequest (r : ModernJsonRpcRequest) : result ModernMcpError (list string) :=
  let m := rq_method r in
  if one_of m ["tools/list"; "tools/call"]%string then Ok ["mcp:tools"%string]
  else if one_of m ["resources/list"; "resources/templates/list"; "resources/read"]%string then Ok ["mcp:resources"%string]
  else if one_of m ["prompts/list"; "prompts/get"]%string then Ok ["mcp:prompts"%string]
  else if str_eqb m "completion/complete" then
    ok! params := requireParams r in
    match ref_type params with
    | None => reject 400 CodeInvalidParams "params.ref is required"
    | Some t =>
        if str_eqb t "ref/prompt" then Ok ["mcp:prompts"%string]
        else if str_eqb t "ref/resource" then Ok ["mcp:resources"%string]
        else reject 400 CodeInvalidParams ("Unsupported completion ref type: " +:+ t)
    end
  else Ok [].

Fixpoint require_scopes (a : ModernAuthContext) (l : list string) : result ModernMcpError unit :=
  match l with [] => Ok tt | s :: l => ok! u := requireOAuthScope a s in require_scopes a l end.

Definition enforceModernScopes (a : ModernAuthContext) (r : ModernJsonRpcRequest) : result ModernMcpError unit :=
  ok! scopes := requiredScopesForRequest r in require_scopes a scopes.

(** ** What a subscription asks for *)

(** [ModernSubscriptionFilter]: sets as lists. *)
Record SubscriptionFilter : Type := {
  sf_methods : list string;
  sf_serverIds : list string;
  sf_resourceUris : list string;
  sf_notifications : list (string * json)
}.

Definition TOOLS_CHANGED : string := "notifications/tools/list_changed".
Definition RESOURCES_CHANGED : string := "notifications/resources/list_changed".
Definition RESOURCE_UPDATED : string := "notifications/resources/updated".
Definition PROMPTS_CHANGED : string := "notifications/prompts/list_changed".
Definition SUBSCRIPTION_METHODS : list string := [TOOLS_CHANGED; RESOURCES_CHANGED; RESOURCE_UPDATED; PROMPTS_CHANGED].

Definition nonempty_text (v : json) : option string := match v with JStr s => if str_eqb s "" then None else Some s | _ => None end.
Definition all_nonempty (l : list json) : bool := forallb (fun v => match nonempty_text v with Some _ => true | None => false end) l.

Definition requireStringArrayFilter (params : list (string * json)) (key : string) : result ModernMcpError (list string) :=
  match field key params with
  | JUndefined => Ok []
  | JArr l => if all_nonempty l then Ok (omap nonempty_text l) else reject 400 CodeInvalidParams (key +:+ " must contain only non-empty strings")
  | _ => reject 400 CodeInvalidParams (key +:+ " must be an array of strings")
  end.

Definition optional_flag (n : list (string * json)) (key : string) : bool :=
  match field key n with JUndefined | JBool _ => true | _ => false end.

Definition buildSubscriptionNotifications (params : list (string * json)) : result ModernMcpError (list (string * json)) :=
  match field "notifications" params with
  | JUndefined => reject 400 CodeInvalidParams "params.notifications is required"
  | JObj n =>
      match List.find (fun k => negb (optional_flag n k)) ["toolsListChanged"; "promptsListChanged"; "resourcesListChanged"]%string with
      | Some k => reject 400 CodeInvalidParams ("notifications." +:+ k +:+ " must be a boolean")
      | None =>
          must! match field "resourceSubscriptions" n with JUndefined => true | JArr l => all_nonempty l | _ => false end
            else reject 400 CodeInvalidParams "notifications.resourceSubscriptions must be an array of non-empty strings" in
          Ok n
      end
  | _ => reject 400 CodeInvalidParams "notifications must be an object"
  end.

Definition filter_add (s : string) (l : list string) : list string := if one_of s l then l else l ++ [s].
Definition set_of (l : list string) : list string := fold_left (fun acc s => filter_add s acc) l [].

Definition wants (n : list (string * json)) (key : string) : bool := match field key n with JBool b => b | _ => false end.

Definition buildSubscriptionFilter (params : list (string * json)) : result ModernMcpError SubscriptionFilter :=
  ok! n := buildSubscriptionNotifications params in
  ok! methods := requireStringArrayFilter params "methods" in
  must! forallb (fun m => one_of m SUBSCRIPTION_METHODS) methods
    else reject 400 CodeInvalidParams ("Unsupported subscription methods: " +:+ str_join ", " (List.filter (fun m => negb (one_of m SUBSCRIPTION_METHODS)) methods)) in
  let subs := match field "resourceSubscriptions" n with JArr l => omap nonempty_text l | _ => [] end in
  let add b m l := if b : bool then filter_add m l else l in
  let requested := add (match subs with [] => false | _ => true end) RESOURCE_UPDATED
                     (add (wants n "resourcesListChanged") RESOURCES_CHANGED
                       (add (wants n "promptsListChanged") PROMPTS_CHANGED
                         (add (wants n "toolsListChanged") TOOLS_CHANGED (set_of methods)))) in
  ok! serverIds := requireStringArrayFilter params "serverIds" in
  ok! resourceUris := requireStringArrayFilter params "resourceUris" in
  Ok {| sf_methods := requested; sf_serverIds := set_of serverIds; sf_resourceUris := set_of (resourceUris ++ subs); sf_notifications := n |}.

Definition method_scope (m : string) : list string :=
  if str_eqb m TOOLS_CHANGED then ["mcp:tools"%string]
  else if str_eqb m RESOURCES_CHANGED || str_eqb m RESOURCE_UPDATED then ["mcp:resources"%string]
  else if str_eqb m PROMPTS_CHANGED then ["mcp:prompts"%string] else [].
Definition requiredScopesForSubscription (f : SubscriptionFilter) : list string := set_of (flat_map method_scope (sf_methods f)).
Definition enforceSubscriptionScopes (a : ModernAuthContext) (f : SubscriptionFilter) : result ModernMcpError unit :=
  require_scopes a (requiredScopesForSubscription f).

(** ** What a subscription is told *)

(** [ModernSubscriptionEvent] *)
Record SubscriptionEvent : Type := {
  se_method : string;
  se_serverId : option string;
  se_scopeId : option string;
  se_resourceUri : option string;
  se_params : list (string * json)
}.

Section Events.
Variable g : Gateway.
Variable session : Session.
Variable f : SubscriptionFilter.

Definition event_context (e : SubscriptionEvent) : option ServerContext :=
  match given_name (se_scopeId e) with
  | Some i => match getServerContextByID (gw_manager g) i with
              | Some ctx => Some ctx
              | None => getTemporaryServerContextByID (gw_manager g) i (session_userId session)
              end
  | None => match given_name (se_serverId e) with Some s => gateway_context g session s | None => None end
  end.

Definition subscriptionResourceUris (e : SubscriptionEvent) : list string :=
  match given_name (se_resourceUri e) with
  | None => []
  | Some u => u :: match event_context e with Some ctx => [generateNewName (ctx_id ctx) u] | None => [] end
  end.

Definition subscriptionMatches (e : SubscriptionEvent) : bool :=
  one_of (se_method e) (sf_methods f)
  && match sf_serverIds f with [] => true | l => match given_name (se_serverId e) with Some s => one_of s l | None => false end end
  && match sf_resourceUris f with [] => true | l => existsb (fun u => one_of u l) (subscriptionResourceUris e) end.

Definition canReceiveSubscriptionEvent (e : SubscriptionEvent) : bool :=
  match given_name (se_serverId e) with
  | None => true
  | Some _ =>
      match event_context e with
      | None => false
      | Some ctx =>
          modern_canAccessServer session ctx
          && match given_name (se_resourceUri e) with
             | None => true
             | Some u => match given_name (findResourceName ctx u) with
                         | Some n => modern_can_use session ctx CapResource n
                         | None => false
                         end
             end
      end
  end.

Definition rewriteSubscriptionParams (e : SubscriptionEvent) : list (string * json) :=
  match given_name (se_resourceUri e), given_name (se_serverId e), event_context e with
  | Some u, Some _, Some ctx => obj_put "uri" (JStr (generateNewName (ctx_id ctx) u)) (se_params e)
  | _, _, _ => se_params e
  end.

(** What the listener writes, if anything: the method and the parameters. *)
Definition told (e : SubscriptionEvent) : option (string * list (string * json)) :=
  if subscriptionMatches e && canReceiveSubscriptionEvent e then Some (se_method e, rewriteSubscriptionParams e) else None.
End Events.

(** [authExpirationMs] *)
Definition authExpirationMs (a : ModernAuthContext) (now : Z) : option Z :=
  let seconds := match oauthAccessTokenExpiresAt a with Some s => Some s | None => ac_expiresAt a end in
  match seconds with
  | Some s => if s =? 0 then None else Some (Z.max 0 (s * 1000 - now))
  | None => None
  end.

(** ** What an accepted request has been checked for *)

Lemma given_header_get http name v : given_header http name = Some v -> getHeader http name = Some v.
Proof. unfold given_header. destruct (getHeader http name); [|done]. by destruct (truthy_str s). Qed.

(** A rejected request was the client's fault. *)
Definition client_error (e : ModernMcpError) : Prop :=
  httpStatus e = 400 /\ In (rpcCode e) [CodeInvalidRequest; CodeInvalidParams; CodeHeaderMismatch; CodeUnsupportedProtocolVersion] /\ mm_other e = None.
Definition blames {A} (r : result ModernMcpError A) : Prop := forall e, r = Throw e -> client_error e.

Lemma blames_bind {A B} (r : result ModernMcpError A) (k : A -> result ModernMcpError B) : blames r -> (forall a, blames (k a)) -> blames (mbind r k).
Proof. intros Hr Hk. destruct r as [a|e]; [apply Hk|]. intros e' [= <-]. by apply Hr. Qed.
Lemma blames_ok {A} (a : A) : blames (Ok a).
Proof. by intros e. Qed.
Lemma blames_reject {A} code m : In code [CodeInvalidRequest; CodeInvalidParams; CodeHeaderMismatch] -> blames (@reject A 400 code m).
Proof. intros H e [= <-]. split; [done|]. split; [cbn in *; tauto|done]. Qed.

Ltac blame :=
  repeat first
    [ apply blames_ok
    | apply blames_reject; cbn; tauto
    | apply blames_bind; [|intros ?]
    | match goal with |- blames (match ?x with _ => _ end) => destruct x end ].

Lemma validation_blames (c : ModernConfig) (http : MRequest) : blames (validateRequest c http).
Proof.
  assert (Hs : forall v n, blames (requireString v n)) by (intros v n; unfold requireString; blame).
  assert (Hp : forall r, blames (requireParams r)) by (intros r; unfold requireParams; blame).
  unfold validateRequest. apply blames_bind; [unfold validate_body, normalized_params; blame|]. intros r.
  destruct (acceptsModernResponse _); [|blame]. destruct (given_header _ _) as [version|]; [|blame].
  apply blames_bind; [unfold requireModernMeta; blame|]. intros meta. destruct (str_eqb _ _); [|blame].
  destruct (one_of _ _); [|intros e [= <-]; split; [done|]; split; [cbn; tauto|done]].
  destruct (match given_header http "mcp-method" with Some m => _ | None => true end); [|blame].
  apply blames_bind; [unfold validateNameHeader, named_target, decodeHeaderMirrorValue; blame; auto|]. intros _.
  apply blames_bind; [|intros _; blame]. unfold validateHeaderMirrors. destruct (rq_params r) as [params|]; [|blame].
  induction params as [|[k v] params IH]; cbn [mirrors_agree]; blame; auto.
Qed.

Lemma validate_body_facts body r :
  validate_body body = Ok r ->
  getBodyMethod body = Some (rq_method r) /\ extractId body = rq_id r
  /\ (rq_id r = JUndefined <-> has_key body "id" = false)
  /\ jfield_opt body "jsonrpc" = JStr "2.0".
Proof.
  unfold validate_body. destruct (isJsonObject body) eqn:Eo; [|done]. destruct (negb (has_key body "result" || _)); [|done].
  destruct (jfield_opt body "jsonrpc") eqn:Ej; try done. destruct (jfield_opt body "method") eqn:Em; try done.
  destruct (str_eqb s "2.0") eqn:Ev; [|done]. apply bool_decide_eq_true in Ev as ->.
  destruct (negb (has_key body "id") || _) eqn:Ei; [|done]. destruct (match jfield_opt body "params" with JUndefined => true | _ => _ end); [|done].
  destruct (normalized_params s0 _) as [p|e]; [|done]. intros [= <-]. cbn [rq_method rq_id].
  unfold getBodyMethod, extractId. rewrite Em. split; [done|].
  assert (Hid : has_key body "id" = false -> jfield_opt body "id" = JUndefined).
  { unfold has_key, jfield_opt, jfield. destruct body; try done. intros H%bool_decide_eq_false. destruct (assoc "id" kvs); [|done]. by destruct H. }
  split; [|split; [split|done]].
  - destruct (isJsonRpcId _) eqn:Er; [done|]. destruct (has_key body "id"); [done|]. by rewrite Hid.
  - intros E. rewrite E in Ei. cbn in Ei. rewrite orb_false_r in Ei. by destruct (has_key body "id").
  - exact Hid.
Qed.

Lemma mirrors_agree_facts http params :
  mirrors_agree http params = Ok tt ->
  forall k v, In (k, v) params -> starts_with "Mcp-Param-" k = true -> getHeader http (to_lower k) = Some (js_String v).
Proof.
  induction params as [|[k v] params IH]; cbn [mirrors_agree]; [done|]. intros H k' v' [[= <- <-]|Hin] Hk.
  - rewrite Hk in H. cbn in H. destruct (bool_decide (getHeader http (to_lower k) = _)) eqn:E; [by apply bool_decide_eq_true in E|done].
  - destruct (negb _); [by apply (IH H)|]. destruct (bool_decide _); [by apply (IH H)|done].
Qed.

Lemma validateNameHeader_facts http r h :
  validateNameHeader http r = Ok tt -> In (rq_method r) named_methods -> given_header http "mcp-name" = Some h ->
  exists target, named_target r = Ok target /\ decodeHeaderMirrorValue h "Mcp-Name" = Ok (Some target).
Proof.
  unfold validateNameHeader. intros H Hm Hh. assert (one_of (rq_method r) named_methods = true) as Em.
  { unfold one_of. apply existsb_exists. exists (rq_method r). split; [done|apply str_eqb_refl]. }
  rewrite Em, Hh in H. cbn [negb] in H. destruct (named_target r) as [target|e]; [|done]. cbn in H.
  destruct (decodeHeaderMirrorValue h "Mcp-Name") as [d|e]; [|done]. cbn in H. exists target.
  destruct (bool_decide (d = Some target)) eqn:E; [|done]. by apply bool_decide_eq_true in E as ->.
Qed.

(** What the body says: its parameters and their [_meta]. *)
Definition body_params (body : json) : list (string * json) := match jfield_opt body "params" with JObj kvs => kvs | _ => [] end.
Definition body_meta (body : json) : list (string * json) := match field "_meta" (body_params body) with JObj kvs => kvs | _ => [] end.

(** The body's parameters are kept; a tool call without arguments gets none. *)
Definition kept_params (body : json) (method : string) : option (list (string * json)) :=
  match jfield_opt body "params" with
  | JObj kvs => Some (if str_eqb method "tools/call" && negb (bool_decide (is_Some (assoc "arguments" kvs)))
                      then obj_put "arguments" (JObj []) kvs else kvs)
  | _ => None
  end.

Lemma params_kept body r : validate_body body = Ok r -> rq_params r = kept_params body (rq_method r).
Proof.
  unfold validate_body. destruct (isJsonObject body); [|done]. destruct (negb (has_key body "result" || _)); [|done].
  destruct (jfield_opt body "jsonrpc"); try done. destruct (jfield_opt body "method") as [| | |?|method|?|?]; try done.
  destruct (str_eqb s "2.0"); [|done]. destruct (negb (has_key body "id") || _); [|done].
  destruct (match jfield_opt body "params" with JUndefined => true | _ => _ end); [|done].
  unfold kept_params, normalized_params. destruct (jfield_opt body "params") as [| | |?|?|?|kvs]; try (by intros [= <-]).
  destruct (str_eqb method "tools/call") eqn:Em; cbn [mbind andb].
  - destruct (assoc "arguments" kvs) as [[| | |?|?|?|?]|] eqn:Ea; try done; cbn [mbind]; intros [= <-]; cbn [rq_params rq_method]; rewrite Em; try done.
  - intros [= <-]. cbn [rq_params rq_method]. by rewrite Em.
Qed.

Lemma field_kept body r k : validate_body body = Ok r -> k <> "arguments"%string ->
  field k (default [] (rq_params r)) = field k (body_params body).
Proof.
  intros H Hk. rewrite (params_kept _ _ H). unfold kept_params, body_params. destruct (jfield_opt body "params") as [| | |?|?|?|kvs]; try done.
  cbn. destruct (_ && _); [|done]. unfold field. rewrite assoc_obj_put.
  destruct (str_eqb k "arguments") eqn:E; [by apply bool_decide_eq_true in E|done].
Qed.

Lemma pair_kept body r kv : validate_body body = Ok r -> In kv (body_params body) -> In kv (default [] (rq_params r)).
Proof.
  intros H Hin. rewrite (params_kept _ _ H). unfold kept_params, body_params in *. destruct (jfield_opt body "params") as [| | |?|?|?|kvs]; try done.
  cbn. destruct (str_eqb _ _ && _) eqn:E; [|done]. apply andb_true_iff in E as [_ E].
  destruct (bool_decide (is_Some (assoc "arguments" kvs))) eqn:Ea; [done|]. apply bool_decide_eq_false in Ea.
  apply list_elem_of_In. rewrite obj_put_fresh; [right; by apply list_elem_of_In|].
  intros Hk. apply Ea. destruct (assoc "arguments" kvs) eqn:En; [by eexists|]. by apply assoc_None in En.
Qed.

Lemma requireModernMeta_version body r version meta :
  validate_body body = Ok r -> requireModernMeta r version = Ok meta ->
  (field VERSION_KEY (body_meta body) = JUndefined /\ meta_version meta = version)
  \/ field VERSION_KEY (body_meta body) = JStr (meta_version meta).
Proof.
  intros Hb. pose proof (field_kept _ _ "_meta" Hb ltac:(done)) as Hf. unfold requireModernMeta, body_meta. rewrite <- Hf.
  replace (match rq_params r with Some p => match field "_meta" p with JObj kvs => kvs | _ => [] end | None => [] end)
    with (match field "_meta" (default [] (rq_params r)) with JObj kvs => kvs | _ => [] end) by (by destruct (rq_params r)).
  set (m := match field "_meta" (default [] (rq_params r)) with JObj kvs => kvs | _ => [] end).
  destruct (field VERSION_KEY m); try done; [|destruct (str_eqb s ""); [done|]]; cbn [mbind];
    (destruct (match field CLIENT_INFO_KEY m with JUndefined => true | _ => _ end); [|done]); intros [= <-]; [by left|by right].
Qed.

Definition target_field (method : string) : string := if str_eqb method "resources/read" then "uri" else "name".

Lemma named_target_facts body r target :
  validate_body body = Ok r -> named_target r = Ok target ->
  target <> ""%string /\ field (target_field (rq_method r)) (body_params body) = JStr target.
Proof.
  intros Hb. unfold named_target, requireParams, target_field. destruct (rq_params r) as [params|] eqn:Ep; [|done]. cbn [mbind].
  assert (Hs : forall k n, k <> "arguments"%string -> requireString (field k params) n = Ok target ->
    target <> ""%string /\ field k (body_params body) = JStr target).
  { intros k n Hk H. rewrite <- (field_kept _ _ k Hb Hk), Ep. change (default [] (Some params)) with params. unfold requireString in H.
    destruct (field k params); try done. destruct (str_eqb s "") eqn:Es; [done|]. injection H as ->. split; [|done].
    by apply bool_decide_eq_false in Es. }
  destruct (str_eqb (rq_method r) "resources/read"); by apply Hs.
Qed.


Definition modern_config : ModernConfig := {| mc_enabled := true; supportedVersions := ["2025-11-25"]; sdkVersions := ["2025-06-18"] |}%string.

(** [Mcp-Name] in base 64. *)
Definition ls_request : MRequest := {|
  mr_path := "/mcp"; mr_httpMethod := "POST";
  mr_headers := [("accept", "application/json, text/event-stream;q=0.9"); ("mcp-protocol-version", "2025-11-25");
                 ("mcp-method", "tools/call"); ("mcp-name", "=?base64?bHNfLV9fLV83?=")];
  mr_body := JObj [("jsonrpc", JStr "2.0"); ("id", JNum 1); ("method", JStr "tools/call");
                   ("params", JObj [("name", JStr "ls_-__-_7")])] |}%string.


(** ** What is listed can be named *)

Lemma listed_context g session ctx :
  manager_ok (gw_manager g) -> In ctx (modern_servers g session) -> visible (gw_manager g) (session_userId session) ctx.
Proof.
  intros Hok [Hin Ha]%filter_In. apply in_app_iff in Hin as [[Hin _]%filter_In|[Hin _]%filter_In]; [by left|]. exfalso.
  apply in_map_iff in Hin as ([k ctx'] & E & Hin). cbn in E. subst ctx'. pose proof (ok_temp _ Hok) as Ht. rewrite Forall_forall in Ht.
  destruct (Ht (k, ctx)) as (u & _ & _ & Hi); [by apply list_elem_of_In|]. cbn in Hi. unfold modern_canAccessServer in Ha.
  rewrite Hi in Ha. by destruct (ctx_enabled ctx), (is_available ctx).
Qed.

Lemma parse_listed g session ctx name :
  manager_ok (gw_manager g) -> truthy_str (session_userId session) = true -> In ctx (modern_servers g session) ->
  parseGatewayName g session (generateNewName (ctx_id ctx) name)
  = Some {| rt_serverID := serverID ctx; rt_originalName := name; rt_resourceName := findResourceName ctx name |}
  /\ gateway_context g session (serverID ctx) = Some ctx.
Proof.
  intros Hok Hu Hin. pose proof (listed_context _ _ _ Hok Hin) as Hv. split; [|by apply visible_getServerContext].
  pose proof (visible_all _ _ _ Hv) as Hall. pose proof (ok_numerals _ Hok) as Hnum. rewrite Forall_forall in Hnum.
  assert (Hid : str_mem "_" (ctx_id ctx) = false) by (by apply Hnum, list_elem_of_In).
  unfold parseGatewayName, generateNewName. rewrite last_index_name by done. rewrite str_take_app, str_drop_plus, str_drop_app.
  change (str_drop 3 ("_-_" +:+ ctx_id ctx)) with (ctx_id ctx).
  assert (context_by_id g session (ctx_id ctx) = Some ctx) as ->; [|done].
  pose proof (ok_ids _ Hok) as Hnd. unfold all_contexts in Hnd. rewrite map_app in Hnd. apply NoDup_app in Hnd as (Hn1 & _ & _).
  unfold context_by_id, getServerContextByID. rewrite (find_unique ctx_id _ _ ctx); try done.
  - destruct Hv as [Hv|[Ht _]]; [done|]. exfalso. apply filter_In in Hin as [_ Ha]. apply in_map_iff in Ht as ([k c'] & E & Ht).
    cbn in E. subst c'. pose proof (ok_temp _ Hok) as Hok'. rewrite Forall_forall in Hok'.
    destruct (Hok' (k, ctx)) as (u & _ & _ & Hi); [by apply list_elem_of_In|]. cbn in Hi. unfold modern_canAccessServer in Ha.
    rewrite Hi in Ha. by destruct (ctx_enabled ctx), (is_available ctx).
  - apply str_eqb_refl.
  - by intros y _ Hy%str_eqb_eq.
Qed.

Lemma find_by_key {A} (key : A -> string) (x : A) (l : list A) :
  In x l -> exists y, List.find (fun y => str_eqb (key y) (key x)) l = Some y /\ key y = key x.
Proof.
  intros H. destruct (List.find _ l) as [y|] eqn:E.
  - apply find_some in E as [_ E]. exists y. split; [done|]. by apply str_eqb_eq.
  - pose proof (find_none _ _ E x H) as Hx. cbn in Hx. by rewrite str_eqb_refl in Hx.
Qed.

(** Every tool and every prompt that is listed resolves, under its listed
    name, to itself on the server that offers it, and may be used there. *)
Theorem modern_listing_resolves (g : Gateway) (session : Session) (apps : bool) :
  manager_ok (gw_manager g) -> truthy_str (session_userId session) = true ->
  (forall t, In t (modern_listTools g session apps) -> exists ctx tool, In ctx (modern_servers g session) /\ In tool (tools_data ctx)
     /\ listed_name t = generateNewName (ctx_id ctx) (tool_name tool)
     /\ modern_resolveToolName g session (listed_name t)
        = Some {| rt_serverID := serverID ctx; rt_originalName := tool_name tool; rt_resourceName := None |}
     /\ modern_can_use_by_id (gw_manager g) session CapTool (serverID ctx) (tool_name tool) = true)
  /\ (forall p, In p (modern_listPrompts g session) -> exists ctx prompt, In ctx (modern_servers g session) /\ In prompt (prompts_data ctx)
     /\ p = generateNewName (ctx_id ctx) prompt
     /\ resolvePromptName g session p = Some {| rt_serverID := serverID ctx; rt_originalName := prompt; rt_resourceName := None |}
     /\ modern_can_use_by_id (gw_manager g) session CapPrompt (serverID ctx) prompt = true).
Proof.
  intros Hok Hu. split.
  - intros t (ctx & Hctx & Ht)%in_flat_map. apply in_map_iff in Ht as (tool & <- & Ht). apply filter_In in Ht as [Ht Hl].
    apply andb_true_iff in Hl as [Huse _]. destruct (parse_listed g session ctx (tool_name tool) Hok Hu Hctx) as [Hp Hc].
    exists ctx, tool. split_and! ; try done.
    + cbn [listed_name modern_list_tool]. unfold modern_resolveToolName. rewrite Hp. cbn [rt_serverID rt_originalName]. rewrite Hc.
      unfold findTool. destruct (find_by_key tool_name tool (tools_data ctx) Ht) as (y & -> & ->). by rewrite Huse.
    + unfold modern_can_use_by_id. unfold gateway_context in Hc. by rewrite Hc.
  - intros p (ctx & Hctx & Hp)%in_flat_map. apply in_map_iff in Hp as (prompt & <- & Hp). apply filter_In in Hp as [Hp Huse].
    destruct (parse_listed g session ctx prompt Hok Hu Hctx) as [Hparse Hc]. exists ctx, prompt. split_and! ; try done.
    + unfold resolvePromptName. rewrite Hparse. cbn [rt_serverID rt_originalName]. rewrite Hc.
      unfold findPrompt. destruct (find_by_key (fun s => s) prompt (prompts_data ctx) Hp) as (y & -> & ->). by rewrite Huse.
    + unfold modern_can_use_by_id. unfold gateway_context in Hc. by rewrite Hc.
Qed.

Definition idle_gateway : Gateway := {| gw_manager := ex_manager; gw_schema := fun _ _ => JNull; gw_mimeType := fun _ _ => None;
    gw_capabilities := fun _ => {| has_connection := false; legacy_connection := false; cap_tools := None; cap_resources := None;
                                   cap_prompts := None; cap_completions := false |} |}.

Lemma modern_listing_resolves_witness :
  modern_resolveToolName idle_gateway ex_session "ls_-__-_7"
  = Some {| rt_serverID := "files"; rt_originalName := "ls_-_"; rt_resourceName := None |}.
Proof.
  destruct (modern_listing_resolves idle_gateway ex_session false ex_manager_ok eq_refl) as [H _].
  destruct (H {| listed_name := "ls_-__-_7"; listed_readonly := true; listed_destructive := false; listed_meta := None |})
    as (ctx & tool & Hctx & Htool & Hn & Hr & _); [by left|].
  vm_compute in Hctx. destruct Hctx as [<-|[]]. cbn [listed_name] in Hr, Hn. rewrite Hr.
  change "ls_-__-_7"%string with (generateNewName "7" "ls_-_") in Hn. cbn [ctx_id] in Hn.
  apply generateNewName_inj in Hn as [_ <-]; reflexivity.
Defined.
