(* ===== verification/ModernCalls.v ===== *)
(** * Handling a request of the modern protocol

    From the HTTP request to the reply, as in
    [src/src/mcp/modern/ModernMcpController.ts]: the handlers of the methods,
    what they ask of the other components, and the life of a subscription.
    What a handler awaits may be answered in any way; what it does between two
    awaits sees one state of the server manager ([ReadGateway]).  Warnings and
    other log lines of the process are left out. *)
From Stdlib Require Import Ascii ZArith Lia.
From stdpp Require Import base strings list.
From S2P Require Import Prelude Json JsMap ServerTypes ApprovalRepository ApprovalService CacheKey CachePolicy CacheSerializer ResultCache Policy Effects ToolCall ProxyRequests Access ModernRequests.
Open Scope Z_scope.

(** ** The calls *)

(** A thrown value that is no [ModernMcpError]: its message and [String(error)]. *)
Record thrown : Type := { th_message : string; th_text : string }.

Definition other_error (e : thrown) : ModernMcpError :=
  {| httpStatus := 500; rpcCode := CodeInternalError; mm_message := th_message e; mm_data := None; mm_other := Some (th_text e) |}.

Definition TypeError_thrown : ModernMcpError := other_error {| th_message := "TypeError"; th_text := "TypeError" |}.

(** What is asked of a server. *)
Inductive Method : Type := MToolsCall | MResourcesRead | MPromptsGet | MComplete.

#[export] Instance Method_eq_dec : EqDecision Method.
Proof. solve_decision. Defined.

(** [executeWithCache]: answered, failed with an equal call, or to be asked. *)
Inductive cache_begun : Type := CacheServed (v : json) | CacheFailed (e : ModernMcpError) | CacheRun.

Inductive mcall : Type -> Type :=
(* server manager *)
| ReadGateway : mcall Gateway
| EnsureAvailable (sid : string) : mcall (result thrown unit)
| SubscribeTo (sid uri subscriptionId : string) : mcall (result thrown unit)
| UnsubscribeFrom (sid uri subscriptionId : string) : mcall unit
(* policy engine and approval service, whose failures to settle are ignored *)
| AskPolicy (p : PolicyEvaluateParams) : mcall (result thrown PolicyEvaluateResult)
| AskApproval (i : CreateApprovalInput) : mcall (result (string + thrown) ApprovalCheckResult)
| ClaimById (i : string) : mcall (result thrown ApprovalClaimResult)
| SettleExecuted (i : string) (r : json) : mcall unit
| SettleFailed (i error : string) : mcall unit
| NotifyCreated (i : string) : mcall unit
(* result cache *)
| ReadConfig (ctx : string) : mcall (ResultCacheConfig * ServerConfigCapabilities)
| BeginCached (c : CacheCall) : mcall cache_begun
| EndCached (c : CacheCall) (r : result ModernMcpError json) : mcall unit
(* the downstream connection *)
| IsConnected (ctx : string) : mcall bool
| AskServer (ctx : string) (m : Method) (params : list (string * json)) : mcall (result thrown json)
| ClearTimeouts (ctx : string) : mcall unit
(* request log *)
| LogModern (statusCode : Z) (error : option string) : mcall unit.

Definition MProg (A : Type) : Type := prog mcall (result ModernMcpError A).

Definition refuse {A} (httpStatus rpcCode : Z) (message : string) : MProg A := Ret (reject httpStatus rpcCode message).
Definition settled_as {A} (r : result ModernMcpError A) : MProg A := Ret r.

(** [c ? k : throw] *)
Notation "'need!' b 'else' e 'in' k" := (if b : bool then k else e)
  (at level 10, b at level 100, e at level 100, k at level 200) : peta_scope.

(** [context], less the response. *)
Record ModernRequestContext : Type := {
  mx_http : MRequest;
  mx_auth : ModernAuthContext;
  mx_capabilities : list (string * json);
  mx_uniformRequestId : string
}.

Section Handlers.
Variable x : ModernRequestContext.
Notation auth := (mx_auth x).
Notation session := (ac_session auth).
Notation user := (session_userId session).

(** ** Routing *)

Definition needs_input (g : Gateway) (sid : string) : bool :=
  match gateway_context g session sid with Some ctx => allowUserInput ctx | None => false end.

Definition user_input_error {A} (sid : string) : MProg A :=
  refuse 400 CodeInvalidRequest ("Server " +:+ sid +:+ " requires user input and is not available through sessionless modern MCP").

(** [ensureRoutableServer]: the gateway [g] is read without awaiting since the
    request was routed. *)
Definition ensureRoutableServer (g : Gateway) (sid kind : string) : MProg (Gateway * ServerContext) :=
  need! negb (needs_input g sid) else user_input_error sid in
  call! ready := EnsureAvailable sid in
  match ready with
  | Throw e => Ret (Throw (other_error e))
  | Ok _ =>
      call! g2 := ReadGateway in
      match gateway_context g2 session sid with
      | None => refuse 503 CodeInternalError ("No server available for " +:+ kind +:+ ": " +:+ sid)
      | Some ctx => need! negb (allowUserInput ctx) else user_input_error sid in Ret (Ok (g2, ctx))
      end
  end.

(** [downstreamMeta], and the copied parameters. *)
Definition downstreamMeta (params : list (string * json)) : json :=
  JObj (obj_put "petaModern" (JObj [("reverseRequests", JStr "unsupported")])
    (match field "_meta" params with JObj m => m | _ => [] end))%string.

Definition call_params (key original : string) (params : list (string * json)) : list (string * json) :=
  obj_put "_meta" (downstreamMeta params) (obj_put key (JStr original) params).

(** [requireClient], the request, [clearTimeout]. *)
Definition ask_server (ctx : ServerContext) (m : Method) (kind : string) (params : list (string * json)) : MProg json :=
  call! connected := IsConnected (ctx_id ctx) in
  need! connected else refuse 503 CodeInternalError ("No downstream client available for " +:+ kind) in
  call! r := AskServer (ctx_id ctx) m params in
  match r with
  | Ok raw => ClearTimeouts (ctx_id ctx) !; Ret (Ok raw)
  | Throw e => Ret (Throw (other_error e))
  end.

Definition modern_cache_call (op : CacheOperationType) (sid original : string) (policy : ResolvedCachePolicy) (params : json) : CacheCall :=
  {| c_operation := op; c_serverId := sid; c_entityId := original;
     c_scopeContext := {| ResultCache.userId := Some user; ResultCache.tenantId := ac_tenantId auth |};
     c_policy := policy; c_params := params |}.

(** [cachePolicy ? (await executeWithCache(...)).result : await execute()] *)
Definition maybe_cached (c : option CacheCall) (execute : MProg json) : MProg json :=
  match c with
  | None => execute
  | Some c =>
      call! b := BeginCached c in
      match b with
      | CacheServed v => Ret (Ok v)
      | CacheFailed e => Ret (Throw e)
      | CacheRun => bind! r := execute in EndCached c r !; Ret r
      end
  end.

(** ** Tool calls *)

Definition validateModernCallToolResult (v : json) : result ModernMcpError json :=
  must! is_json v && isJsonObject v else reject 500 CodeInternalError "Downstream tool returned an invalid JSON result" in
  must! match jfield_opt v "content" with JUndefined | JArr _ => true | _ => false end
    else reject 500 CodeInternalError "Downstream tool result content must be an array when present" in
  must! match jfield_opt v "isError" with JUndefined | JBool _ => true | _ => false end
    else reject 500 CodeInternalError "Downstream tool result isError must be a boolean when present" in
  Ok v.

Definition rate_limited_reply (m : string) : json :=
  text_reply ("Approval request rate limited: " +:+ m) false
    [("approval", JObj [("kind", JStr "approval_rate_limited"); ("status", JStr "rate_limited")]); ("retryAfterSeconds", JNum 60)]%string.

Definition row_id (o : option ApprovalRequest) : option string := ApprovalRepository.id <$> o.

Definition buildPendingApprovalResult (toolName : string) (check : ApprovalCheckResult) (policyVersion : Z) : MProg json :=
  let i := row_id (request check) in
  bind! notified := (match created check, i with true, Some i => NotifyCreated i !; Ret tt | _, _ => Ret tt end) in
  LogModern 202 (Some ("ApprovalPending: " +:+ default "pending"%string i)) !;
  Ret (Ok (text_reply ("Approval required before executing " +:+ toolName +:+ ". Request ID: " +:+ default "pending"%string i) false
    [("approval", JObj [("kind", JStr "approval_pending"); ("approvalRequestId", ostr_json i);
        ("requestHash", JStr (c_requestHash check));
        ("status", JStr (status_string (default Pending (ApprovalRepository.status <$> request check))));
        ("policyVersion", JNum policyVersion)])]%string)).

Definition claim_lost_reply (toolName i : string) (c : ApprovalClaimResult) : json :=
  text_reply ("Approval for " +:+ toolName +:+ " is already executing or completed. Request ID: " +:+ i) false
    [("approval", JObj [("kind", JStr "approval_pending");
        ("status", JStr (default "executing" (status_string ∘ ApprovalRepository.status <$> claim_request c)));
        ("approvalRequestId", JStr i)])]%string.

(** Approval: a reply, or the claimed request. *)
Definition modern_approval (sid original : string) (args : list (string * json)) (policy : PolicyEvaluateResult) : MProg (json + option string) :=
  call! r := AskApproval {| in_userId := user; in_serverId := Some sid; in_toolName := original; in_args := args;
                            in_policyVersion := Policy.policyVersion policy; in_uniformRequestId := Some (mx_uniformRequestId x);
                            in_expiresInMs := None |} in
  match r with
  | Throw (inl m) => Ret (Ok (inl (rate_limited_reply m)))
  | Throw (inr e) => Ret (Throw (other_error e))
  | Ok check =>
      if needsApproval check then await! v := buildPendingApprovalResult original check (Policy.policyVersion policy) in Ret (Ok (inl v))
      else match given_name (row_id (request check)) with
           | None => Ret (Ok (inr None))
           | Some i =>
               call! c := ClaimById i in
               match c with
               | Throw e => Ret (Throw (other_error e))
               | Ok c => if negb (claimed c) then Ret (Ok (inl (claim_lost_reply original i c)))
                         else Ret (Ok (inr (Some (default i (row_id (claim_request c))))))
               end
           end
  end.

(** The request is forwarded, logged, and the approval it ran under settled. *)
Definition modern_forward (ctx : ServerContext) (sid original : string) (args params : list (string * json)) (cached : bool)
    (claimedId : option string) : MProg json :=
  bind! policy := (if cached : bool then
                     call! cfg := ReadConfig (ctx_id ctx) in
                     Ret (resolveToolPolicy (snd cfg) original (fst cfg))
                   else Ret None) in
  bind! r := maybe_cached ((fun p => modern_cache_call OpTool sid original p (JObj args)) <$> policy)
               (await! raw := ask_server ctx MToolsCall "tool" (call_params "name" original params) in
                settled_as (validateModernCallToolResult raw)) in
  match r with
  | Ok v =>
      LogModern (if is_error_truthy v then 500 else 200) None !;
      match given_name claimedId with
      | Some i => SettleExecuted i v !; Ret (Ok v)
      | None => Ret (Ok v)
      end
  | Throw e =>
      bind! u := (match given_name claimedId with Some i => SettleFailed i (error_string e) !; Ret tt | None => Ret tt end) in
      LogModern 500 (Some (error_string e)) !;
      Ret (Throw e)
  end.

(** From the server to the reply. *)
Definition modern_execute (g : Gateway) (ctx : ServerContext) (sid original : string) (args params : list (string * json)) : MProg json :=
  await! checked := settled_as (match findTool ctx original with
                                | Some t => validateToolHeaderAnnotations (mx_http x) original (gw_schema g (ctx_id ctx) original) args
                                | None => Ok tt
                                end) in
  let level := effective_level (getDangerLevel session sid original) (context_getDangerLevel ctx original) in
  call! evaluated := AskPolicy (policy_params user {| cp_name := original; cp_arguments := Some args; cp_meta := None |} sid original level) in
  match evaluated with
  | Throw e => Ret (Throw (other_error e))
  | Ok policy =>
      let why := default "policy rule"%string (Policy.reason policy) in
      match Policy.decision policy with
      | Deny => LogModern 403 (Some ("PolicyDenied: " +:+ why)) !; refuse 403 CodeInvalidRequest ("Tool execution denied by policy: " +:+ why)
      | RequireApproval =>
          await! a := modern_approval sid original args policy in
          match a with
          | inl reply => Ret (Ok reply)
          | inr claimedId => modern_forward ctx sid original args params false claimedId
          end
      | Allow => modern_forward ctx sid original args params (level <? DangerLevel_Approval) None
      end
  end.

Definition object_args (params : list (string * json)) : list (string * json) := match field "arguments" params with JObj a => a | _ => [] end.

Definition callTool (r : ModernJsonRpcRequest) : MProg json :=
  await! params := settled_as (requireParams r) in
  need! negb (has_key (JObj params) "task")
    else refuse 400 CodeInvalidRequest "Task-augmented tool calls are not supported by the modern gateway" in
  await! toolName := settled_as (requireString (field "name" params) "params.name") in
  call! g := ReadGateway in
  match modern_resolveToolName g session toolName with
  | None => refuse 404 CodeInvalidParams ("Tool " +:+ toolName +:+ " not found")
  | Some route =>
      let sid := rt_serverID route in
      let original := rt_originalName route in
      need! modern_can_use_by_id (gw_manager g) session CapTool sid original
        else refuse 403 CodeInvalidParams ("Permission denied for tool: " +:+ toolName) in
      await! server := ensureRoutableServer g sid "tool" in
      modern_execute (fst server) (snd server) sid original (object_args params) params
  end.

(** ** Resources and prompts *)

(** The name permission is asked for. *)
Definition resource_target (route : GatewayRoute) : string := default (rt_originalName route) (rt_resourceName route).

Definition app_names (ctx : ServerContext) : AppNames :=
  {| app_id := ctx_id ctx; app_tools := map tool_name (tools_data ctx); app_resources := map resource_uri (resources_data ctx) |}.

Definition modern_rewrite_content (apps : bool) (server : option ServerContext) (content : json) : json :=
  let uri := match server, jfield_opt content "uri" with
             | Some ctx, JStr u => JStr (generateNewName (ctx_id ctx) u)
             | _, u => u
             end in
  let rs := match server with Some ctx => replacements (app_names ctx) | None => [] end in
  match jfield_opt content "text" with
  | JStr text => extend content [("uri", uri); ("text", JStr (if apps && is_html content then rewrite_text rs text else text))]%string
  | _ => extend content [("uri"%string, uri)]
  end.

Definition rewriteResourceResult (apps : bool) (server : option ServerContext) (v : json) : result ModernMcpError json :=
  match jfield_opt v "contents" with
  | JArr contents => Ok (extend v [("contents"%string, JArr (map (modern_rewrite_content apps server) contents))])
  | _ => Throw TypeError_thrown
  end.

Definition readResource (r : ModernJsonRpcRequest) : MProg json :=
  await! params := settled_as (requireParams r) in
  await! uri := settled_as (requireString (field "uri" params) "params.uri") in
  call! g := ReadGateway in
  match modern_resolveResourceUri g session uri with
  | None => refuse 400 CodeInvalidParams ("Invalid resource URI: " +:+ uri)
  | Some route =>
      let sid := rt_serverID route in
      let original := rt_originalName route in
      need! modern_can_use_by_id (gw_manager g) session CapResource sid (resource_target route)
        else refuse 403 CodeInvalidParams ("Permission denied for resource: " +:+ uri) in
      await! server := ensureRoutableServer g sid "resource" in
      let ctx := snd server in
      call! cfg := ReadConfig (ctx_id ctx) in
      let policy := resolveResourcePolicy (snd cfg) original (rt_resourceName route) (fst cfg) in
      await! raw := maybe_cached ((fun p => modern_cache_call OpResource sid original p (JObj params)) <$> policy)
                      (ask_server ctx MResourcesRead "resource" (call_params "uri" original params)) in
      call! g3 := ReadGateway in
      await! v := settled_as (rewriteResourceResult (supportsMcpApps (mx_capabilities x)) (gateway_context g3 session sid) raw) in
      LogModern 200 None !;
      Ret (Ok v)
  end.

Definition getPrompt (r : ModernJsonRpcRequest) : MProg json :=
  await! params := settled_as (requireParams r) in
  await! promptName := settled_as (requireString (field "name" params) "params.name") in
  call! g := ReadGateway in
  match resolvePromptName g session promptName with
  | None => refuse 400 CodeInvalidParams ("Invalid prompt name: " +:+ promptName)
  | Some route =>
      let sid := rt_serverID route in
      let original := rt_originalName route in
      need! modern_can_use_by_id (gw_manager g) session CapPrompt sid original
        else refuse 403 CodeInvalidParams ("Permission denied for prompt: " +:+ promptName) in
      await! server := ensureRoutableServer g sid "prompt" in
      let ctx := snd server in
      call! cfg := ReadConfig (ctx_id ctx) in
      let policy := resolvePromptPolicy (snd cfg) original (fst cfg) in
      await! v := maybe_cached ((fun p => modern_cache_call OpPrompt sid original p (field "arguments" params)) <$> policy)
                    (ask_server ctx MPromptsGet "prompt" (call_params "name" original params)) in
      LogModern 200 None !;
      Ret (Ok v)
  end.

(** ** Completions *)

Definition completion_argument (params : list (string * json)) : result ModernMcpError json :=
  match field "argument" params with
  | JObj a =>
      ok! n := requireString (field "name" a) "params.argument.name" in
      ok! v := requireString (field "value" a) "params.argument.value" in
      Ok (JObj [("name", JStr n); ("value", JStr v)])%string
  | _ => reject 400 CodeInvalidParams "params.argument is required"
  end.

Definition completion_params (isPrompt : bool) (original : string) (argument : json) (params : list (string * json)) : list (string * json) :=
  let ref := if isPrompt then JObj [("type", JStr "ref/prompt"); ("name", JStr original)]%string
             else JObj [("type", JStr "ref/resource"); ("uri", JStr original)]%string in
  obj_put "_meta" (downstreamMeta params) (obj_put "argument" argument (obj_put "ref" ref params)).

(** Whether the reference may be completed. *)
Definition may_complete (g : Gateway) (t : string) (route : GatewayRoute) : bool :=
  if str_eqb t "ref/prompt" then modern_can_use_by_id (gw_manager g) session CapPrompt (rt_serverID route) (rt_originalName route)
  else if str_eqb t "ref/resource" then modern_can_use_by_id (gw_manager g) session CapResource (rt_serverID route) (resource_target route)
  else true.

Definition complete (r : ModernJsonRpcRequest) : MProg json :=
  await! params := settled_as (requireParams r) in
  match ref_type params with
  | None => refuse 400 CodeInvalidParams "params.ref is required"
  | Some t =>
      let isPrompt := str_eqb t "ref/prompt" in
      let ref := match field "ref" params with JObj k => k | _ => [] end in
      await! name := settled_as (if isPrompt then requireString (field "name" ref) "params.ref.name" else requireString (field "uri" ref) "params.ref.uri") in
      call! g := ReadGateway in
      match (if isPrompt then resolvePromptName g session name else modern_resolveResourceUri g session name) with
      | None => refuse 400 CodeInvalidParams ("Invalid completion reference: " +:+ name)
      | Some route =>
          need! may_complete g t route
            else refuse 403 CodeInvalidParams ("Permission denied for " +:+ (if isPrompt then "prompt" else "resource") +:+ " completion: " +:+ name) in
          await! server := ensureRoutableServer g (rt_serverID route) "completion" in
          let ctx := snd server in
          call! connected := IsConnected (ctx_id ctx) in
          need! connected else refuse 503 CodeInternalError "No downstream client available for completion" in
          await! argument := settled_as (completion_argument params) in
          call! answer := AskServer (ctx_id ctx) MComplete (completion_params isPrompt (rt_originalName route) argument params) in
          match answer with
          | Throw e => Ret (Throw (other_error e))
          | Ok v => ClearTimeouts (ctx_id ctx) !; LogModern 200 None !; Ret (Ok v)
          end
      end
  end.

(** ** Subscriptions *)

(** [ModernResourceSubscription] *)
Record ResourceSubscription : Type := { rs_serverId : string; rs_resourceUri : string; rs_requestedUri : string }.

(** [cleanupModernResourceSubscriptions] *)
Fixpoint cleanupModernResourceSubscriptions (subscriptionId : string) (l : list ResourceSubscription) : prog mcall unit :=
  match l with
  | [] => Ret tt
  | s :: l => UnsubscribeFrom (rs_serverId s) (rs_resourceUri s) subscriptionId !; cleanupModernResourceSubscriptions subscriptionId l
  end.

(** Whether the server passes updates of its resources on. *)
Definition can_subscribe (g : Gateway) (sid : string) : bool :=
  match gateway_context g session sid with
  | Some ctx => legacy_says g ctx (snd (default (false, false) (cap_resources (caps g ctx))))
  | None => false
  end.

(** One address: [None], its server does not pass updates on. *)
Definition subscribe_one (f : SubscriptionFilter) (subscriptionId uri : string) : MProg (option ResourceSubscription) :=
  call! g := ReadGateway in
  match resolveResourceUriForSubscription g session uri (sf_serverIds f) with
  | None => refuse 400 CodeInvalidParams ("Invalid resource subscription URI: " +:+ uri)
  | Some route =>
      let sid := rt_serverID route in
      need! modern_can_use_by_id (gw_manager g) session CapResource sid (resource_target route)
        else refuse 403 CodeInvalidRequest ("Permission denied for resource subscription: " +:+ uri) in
      if negb (can_subscribe g sid) then Ret (Ok None)
      else
        call! r := SubscribeTo sid (rt_originalName route) subscriptionId in
        match r with
        | Throw e => Ret (Throw (other_error e))
        | Ok _ => Ret (Ok (Some {| rs_serverId := sid; rs_resourceUri := rt_originalName route; rs_requestedUri := uri |}))
        end
  end.

Fixpoint subscribe_each (f : SubscriptionFilter) (subscriptionId : string) (done : list ResourceSubscription) (uris : list string)
    : MProg (list ResourceSubscription) :=
  match uris with
  | [] => Ret (Ok done)
  | uri :: uris =>
      bind! r := subscribe_one f subscriptionId uri in
      match r with
      | Ok None => subscribe_each f subscriptionId done uris
      | Ok (Some s) => subscribe_each f subscriptionId (done ++ [s]) uris
      | Throw e => bind! u := cleanupModernResourceSubscriptions subscriptionId done in Ret (Throw e)
      end
  end.

Definition subscribeModernResources (f : SubscriptionFilter) (subscriptionId : string) : MProg (list ResourceSubscription) :=
  if negb (one_of RESOURCE_UPDATED (sf_methods f)) || bool_decide (sf_resourceUris f = []) then Ret (Ok [])
  else subscribe_each f subscriptionId [] (sf_resourceUris f).

(** An opened subscription; [sub_expiry]: what [setTimeout] is given. *)
Record Subscription : Type := {
  sub_id : json;
  sub_filter : SubscriptionFilter;
  sub_acknowledged : list (string * json);
  sub_downstream : list ResourceSubscription;
  sub_expiry : option Z
}.

Definition acknowledge (c : ServerCapabilities) (f : SubscriptionFilter) (l : list ResourceSubscription) : list (string * json) :=
  let flag key (b : bool) := if wants (sf_notifications f) key && b then [(key, JBool true)] else [] in
  flag "toolsListChanged"%string (says_list (sv_tools c)) ++ flag "promptsListChanged"%string (says_list (sv_prompts c))
  ++ flag "resourcesListChanged"%string (fst (default (false, false) (sv_resources c)))
  ++ match l with [] => [] | _ => [("resourceSubscriptions"%string, JArr (map (fun s => JStr (rs_requestedUri s)) l))] end.

(** [handleSubscriptionListen], up to the opened stream; [now]: the clock when
    it is opened. *)
Definition handleSubscriptionListen (now : Z) (r : ModernJsonRpcRequest) : MProg Subscription :=
  await! params := settled_as (requireParams r) in
  match rq_id r with
  | JUndefined => refuse 400 CodeInvalidRequest "subscriptions/listen requires a JSON-RPC id"
  | i =>
      await! f := settled_as (buildSubscriptionFilter params) in
      await! scoped := settled_as (enforceSubscriptionScopes auth f) in
      let subscriptionId := mx_uniformRequestId x +:+ ":" +:+ js_String i in
      await! l := subscribeModernResources f subscriptionId in
      call! g := ReadGateway in
      let c := buildServerCapabilities g session (supportsMcpApps (mx_capabilities x)) in
      Ret (Ok {| sub_id := i; sub_filter := f; sub_acknowledged := acknowledge c f l; sub_downstream := l;
                 sub_expiry := authExpirationMs auth now |})
  end.

(** ** Dispatch *)

(** A result before [cacheable]; the listings are typed. *)
Inductive MReply : Type :=
| RResult (v : json)
| RDiscover (c : ServerCapabilities)
| RTools (l : list ListedTool)
| RResources (l : list Access.Resource)
| RTemplates (l : list ResourceTemplate)
| RPrompts (l : list Access.Prompt).

Definition validateServerDiscoverParams (r : ModernJsonRpcRequest) : result ModernMcpError unit :=
  ok! params := requireParams r in
  must! forallb (fun kv => str_eqb (fst kv) "_meta") params else reject 400 CodeInvalidParams "server/discover params may only include _meta" in
  Ok tt.

Definition as_result (p : MProg json) : MProg MReply := await! v := p in Ret (Ok (RResult v)).

Definition dispatch (r : ModernJsonRpcRequest) : MProg MReply :=
  await! scoped := settled_as (enforceModernScopes auth r) in
  let m := rq_method r in
  let apps := supportsMcpApps (mx_capabilities x) in
  if str_eqb m "server/discover" then
    await! checked := settled_as (validateServerDiscoverParams r) in
    call! g := ReadGateway in Ret (Ok (RDiscover (buildServerCapabilities g session apps)))
  else if str_eqb m "tools/list" then call! g := ReadGateway in Ret (Ok (RTools (modern_listTools g session apps)))
  else if str_eqb m "resources/list" then call! g := ReadGateway in Ret (Ok (RResources (modern_listResources g session)))
  else if str_eqb m "resources/templates/list" then call! g := ReadGateway in Ret (Ok (RTemplates (modern_listResourceTemplates g session)))
  else if str_eqb m "prompts/list" then call! g := ReadGateway in Ret (Ok (RPrompts (modern_listPrompts g session)))
  else if str_eqb m "tools/call" then as_result (callTool r)
  else if str_eqb m "resources/read" then as_result (readResource r)
  else if str_eqb m "prompts/get" then as_result (getPrompt r)
  else if str_eqb m "completion/complete" then as_result (complete r)
  else refuse 404 CodeMethodNotFound ("Unknown modern MCP method: " +:+ m).
End Handlers.

(** ** Replies *)

(** [v ?? w] *)
Definition present_or (v w : json) : json := match v with JUndefined | JNull => w | _ => v end.

Record AppInfo : Type := { app_name : string; app_version : string }.

(** [cacheable], of an object. *)
Definition cacheable (info : AppInfo) (v : json) : json :=
  match v with
  | JObj _ =>
      let meta := match jfield_opt v "_meta" with JObj m => m | _ => [] end in
      extend v [("_meta", JObj (obj_put "io.modelcontextprotocol/serverInfo" (JObj [("name", JStr (app_name info)); ("version", JStr (app_version info))]) meta));
                ("resultType", present_or (jfield_opt v "resultType") (JStr "complete"));
                ("ttlMs", present_or (jfield_opt v "ttlMs") (JNum 0));
                ("cacheScope", present_or (jfield_opt v "cacheScope") (JStr "private"))]%string
  | v => v
  end.

(** [requiredScopesFromError]: for the challenge of the reply. *)
Definition requiredScopesFromError (e : ModernMcpError) : list string :=
  match mm_data e with
  | Some d => match jfield_opt (jfield_opt d "oauth") "requiredScopes" with JArr l => omap nonempty_text l | _ => [] end
  | None => []
  end.

Inductive HttpReply : Type :=
| Accepted202
| Replied (id : json) (r : MReply)
| Refused (status : Z) (challenge : list string) (body : json)
| Streaming (s : Subscription).

Definition sendModernError (id : json) (e : ModernMcpError) : HttpReply :=
  Refused (httpStatus e) (requiredScopesFromError e) (modernErrorResponse id e).

Definition reply_id (id : json) : json := match id with JUndefined => JNull | i => i end.

Definition buildContext (http : MRequest) (auth : option ModernAuthContext) (uid : string) (v : ModernValidationResult) : result ModernMcpError ModernRequestContext :=
  match auth with
  | None => reject 401 CodeInvalidRequest "Modern MCP authentication context is missing"
  | Some a => Ok {| mx_http := http; mx_auth := a; mx_capabilities := meta_capabilities (mv_meta v); mx_uniformRequestId := uid |}
  end.

(** What is refused before anything is awaited. *)
Definition admit_request (c : ModernConfig) (http : MRequest) (auth : option ModernAuthContext) (uid : string)
    : result ModernMcpError (ModernRequestContext * ModernValidationResult) :=
  must! mc_enabled c
    else Throw (unsupported_version c "MCP 2025-11-25 support is disabled" (match getHeader http "mcp-protocol-version" with Some v => JStr v | None => JNull end)) in
  must! str_eqb (mr_httpMethod http) "POST" else reject 405 CodeInvalidRequest "Modern MCP uses POST-only Streamable HTTP" in
  ok! v := validateRequest c http in
  ok! x := buildContext http auth uid v in
  Ok (x, v).

(** What an admitted request leads to. *)
Definition handle_admitted (now : Z) (x : ModernRequestContext) (v : ModernValidationResult) : MProg HttpReply :=
  let r := mv_request v in
  if mv_notification v then LogModern 202 None !; Ret (Ok Accepted202)
  else if str_eqb (rq_method r) "subscriptions/listen" then await! s := handleSubscriptionListen x now r in Ret (Ok (Streaming s))
  else await! m := dispatch x r in Ret (Ok (Replied (reply_id (rq_id r)) m)).

Definition handlePost (c : ModernConfig) (now : Z) (http : MRequest) (auth : option ModernAuthContext) (uid : string) : prog mcall HttpReply :=
  bind! r := (await! a := Ret (admit_request c http auth uid) in handle_admitted now (fst a) (snd a)) in
  match r with
  | Ok reply => Ret reply
  | Throw e => Ret (sendModernError (extractId (mr_body http)) (toModernError e))
  end.

(** ** The life of a subscription *)

(** The local variables of the handler: [closed], the heartbeat's interval, the
    timer of the token, the listener on the bus, [cleanedUp]. *)
Record SubState : Type := { ss_closed : bool; ss_heartbeat : bool; ss_timer : bool; ss_listening : bool; ss_cleanedUp : bool }.

Inductive SseOut : Type :=
| OutMessage (method : string) (params : list (string * json))
| OutHeartbeat
| OutComplete
| OutEnd
| OutCleanup.

(** What happens to an open stream: an event of the bus, with the gateway as
    it is then, the interval, the timer, the client. *)
Inductive SubEvent : Type := BusEvent (g : Gateway) (e : SubscriptionEvent) | Beat | TimerFired | ClientClosed.

Definition opened (s : Subscription) : SubState :=
  {| ss_closed := false; ss_heartbeat := true; ss_timer := match sub_expiry s with Some _ => true | None => false end;
     ss_listening := true; ss_cleanedUp := false |}.

Definition shut : SubState := {| ss_closed := true; ss_heartbeat := false; ss_timer := false; ss_listening := false; ss_cleanedUp := true |}.

Definition closeSubscription (auth_expired : bool) (st : SubState) : SubState * list SseOut :=
  if ss_closed st then (st, [])
  else (shut, (if ss_cleanedUp st then [] else [OutCleanup]) ++ (if auth_expired then [OutComplete] else []) ++ [OutEnd]).

Definition message_params (s : Subscription) (params : list (string * json)) : list (string * json) :=
  let meta := match field "_meta" params with JObj m => m | _ => [] end in
  obj_put "_meta" (JObj (obj_put "io.modelcontextprotocol/subscriptionId" (sub_id s) meta)) params.

Definition sub_step (session : Session) (s : Subscription) (st : SubState) (ev : SubEvent) : SubState * list SseOut :=
  match ev with
  | BusEvent g e =>
      (st, if ss_listening st
           then match told g session (sub_filter s) e with
                | Some (m, p) => [OutMessage m (message_params s p)]
                | None => []
                end
           else [])
  | Beat => (st, if ss_heartbeat st then [OutHeartbeat] else [])
  | TimerFired => if ss_timer st then closeSubscription true st else (st, [])
  | ClientClosed => closeSubscription false st
  end.

Fixpoint sub_run (session : Session) (s : Subscription) (st : SubState) (l : list SubEvent) : SubState * list SseOut :=
  match l with
  | [] => (st, [])
  | ev :: l =>
      let '(st1, out1) := sub_step session s st ev in
      let '(st2, out2) := sub_run session s st1 l in
      (st2, out1 ++ out2)
  end.

(** How long the runtime waits when given [ms]: what does not fit 32 bits
    counts as 1. *)
Definition timer_delay (ms : Z) : Z := if (ms <? 1) || (2147483647 <? ms) then 1 else ms.
