(* ===== verification/ModernSafety.v ===== *)
(** * What stands before a request of the modern protocol

    The protocol every run of [dispatch] ([ModernCalls]) follows, whatever the
    other components answer: scope, route and permission, policy and approval
    stand before the one request that a server may get; what an accepted
    request has been checked for ([ModernRequests]); and what a subscription
    is told. *)
From Stdlib Require Import Ascii ZArith Lia.
From stdpp Require Import base strings list.
From S2P Require Import Prelude Json JsMap ServerTypes ApprovalRepository ApprovalService CacheKey CachePolicy CacheSerializer ResultCache Policy Effects ToolCall ToolCallWorld ProxyRequests Access ModernRequests ModernCalls.
Open Scope Z_scope.

(** ** The protocol *)

(** The gateway as it was first and last read, the last verdict of the policy
    engine, the approval asked for and the row that came back with nothing
    left to approve, the request claimed and not yet settled (as asked, as
    returned), and the number of requests to servers. *)
Record mphase : Type := {
  first : option Gateway;
  latest : option Gateway;
  verdict : option (PolicyEvaluateParams * PolicyEvaluateResult);
  asked : option (CreateApprovalInput * option string);
  claim : option (string * string);
  requests : Z
}.

Definition start : mphase := {| first := None; latest := None; verdict := None; asked := None; claim := None; requests := 0 |}.

Definition saw (g : Gateway) (s : mphase) : mphase :=
  {| first := match first s with Some f => Some f | None => Some g end; latest := Some g; verdict := verdict s; asked := asked s;
     claim := claim s; requests := requests s |}.
Definition judged v (s : mphase) : mphase :=
  {| first := first s; latest := latest s; verdict := v; asked := asked s; claim := claim s; requests := requests s |}.
Definition set_asked a (s : mphase) : mphase :=
  {| first := first s; latest := latest s; verdict := verdict s; asked := a; claim := claim s; requests := requests s |}.
Definition set_claim c (s : mphase) : mphase :=
  {| first := first s; latest := latest s; verdict := verdict s; asked := asked s; claim := c; requests := requests s |}.
Definition counted (s : mphase) : mphase :=
  {| first := first s; latest := latest s; verdict := verdict s; asked := asked s; claim := claim s; requests := requests s + 1 |}.

Definition mphase_step (s : mphase) (ev : event mcall) : mphase :=
  match ev with
  | Ev X e x =>
      match e in mcall X return X -> mphase with
      | ReadGateway => fun g => saw g s
      | AskPolicy p => fun r => judged (match r with Ok v => Some (p, v) | Throw _ => None end) s
      | AskApproval i => fun r =>
          set_asked (match r with Ok c => if needsApproval c then None else Some (i, row_id (request c)) | Throw _ => None end) s
      | ClaimById i => fun r =>
          match r with
          | Ok c => if claimed c then set_claim (Some (i, default i (row_id (claim_request c)))) s else s
          | Throw _ => s
          end
      | SettleExecuted _ _ => fun _ => set_claim None s
      | SettleFailed _ _ => fun _ => set_claim None s
      | AskServer _ _ _ => fun _ => counted s
      | _ => fun _ => s
      end x
  end.

Definition mphase_of (tr : list (event mcall)) : mphase := fold_left mphase_step tr start.

Section Protocol.
Variable x : ModernRequestContext.
Variable r : ModernJsonRpcRequest.
(** Whether the approval service may answer that nothing is left to approve
    and name no request. *)
Variable lenient : Prop.
Notation session := (ac_session (mx_auth x)).
Notation user := (session_userId session).

Definition params : list (string * json) := default [] (rq_params r).
Definition named (key : string) (kvs : list (string * json)) : option string := nonempty_text (field key kvs).

(** A permitted route to what the request names. *)
Definition to_tool (g : Gateway) (route : GatewayRoute) : Prop :=
  exists name, named "name" params = Some name /\ modern_resolveToolName g session name = Some route
    /\ modern_can_use_by_id (gw_manager g) session CapTool (rt_serverID route) (rt_originalName route) = true.
Definition to_resource (g : Gateway) (uri : string) (route : GatewayRoute) : Prop :=
  modern_resolveResourceUri g session uri = Some route
  /\ modern_can_use_by_id (gw_manager g) session CapResource (rt_serverID route) (resource_target route) = true.
Definition to_prompt (g : Gateway) (name : string) (route : GatewayRoute) : Prop :=
  resolvePromptName g session name = Some route
  /\ modern_can_use_by_id (gw_manager g) session CapPrompt (rt_serverID route) (rt_originalName route) = true.

Definition reference : list (string * json) := match field "ref" params with JObj k => k | _ => [] end.

(** What the request is, and where it may go in [g]. *)
Definition routed (g : Gateway) (m : Method) (route : GatewayRoute) : Prop :=
  match m with
  | MToolsCall => rq_method r = "tools/call"%string /\ to_tool g route
  | MResourcesRead => rq_method r = "resources/read"%string /\ exists uri, named "uri" params = Some uri /\ to_resource g uri route
  | MPromptsGet => rq_method r = "prompts/get"%string /\ exists name, named "name" params = Some name /\ to_prompt g name route
  | MComplete => rq_method r = "completion/complete"%string
      /\ ((ref_type params = Some "ref/prompt"%string /\ exists name, named "name" reference = Some name /\ to_prompt g name route)
          \/ (ref_type params = Some "ref/resource"%string /\ exists uri, named "uri" reference = Some uri /\ to_resource g uri route))
  end.

(** The parameters a server gets. *)
Definition forwarded_params (m : Method) (route : GatewayRoute) (p : list (string * json)) : Prop :=
  match m with
  | MToolsCall | MPromptsGet => p = call_params "name" (rt_originalName route) params
  | MResourcesRead => p = call_params "uri" (rt_originalName route) params
  | MComplete => exists isPrompt argument, completion_argument params = Ok argument
                   /\ p = completion_params isPrompt (rt_originalName route) argument params
  end.

(** The policy engine and the approval service were asked about this call. *)
Definition judged_about (p : PolicyEvaluateParams) (route : GatewayRoute) : Prop :=
  pe_userId p = user /\ pe_serverId p = Some (rt_serverID route) /\ pe_toolName p = rt_originalName route /\ pe_args p = object_args params.
Definition approval_about (i : CreateApprovalInput) (v : PolicyEvaluateResult) (route : GatewayRoute) : Prop :=
  in_userId i = user /\ in_serverId i = Some (rt_serverID route) /\ in_toolName i = rt_originalName route
  /\ in_args i = object_args params /\ in_policyVersion i = Policy.policyVersion v.

Definition allowed (s : mphase) (route : GatewayRoute) : Prop :=
  claim s = None /\ exists p v, verdict s = Some (p, v) /\ judged_about p route /\ Policy.decision v = Allow.
(** Approved: the row the service named was claimed. *)
Definition approved (s : mphase) (route : GatewayRoute) : Prop :=
  exists p v i o, verdict s = Some (p, v) /\ judged_about p route /\ Policy.decision v = RequireApproval
    /\ asked s = Some (i, o) /\ approval_about i v route
    /\ match given_name o with None => lenient /\ claim s = None | Some row => exists k, claim s = Some (row, k) end.

(** Routed in the gateway first seen, to a server of the gateway last seen
    that needs no input of the user's. *)
Definition reached (s : mphase) (m : Method) (route : GatewayRoute) (ctx : ServerContext) : Prop :=
  exists g g2, first s = Some g /\ latest s = Some g2 /\ routed g m route
    /\ gateway_context g2 session (rt_serverID route) = Some ctx /\ allowUserInput ctx = false.

Definition cleared (s : mphase) (m : Method) (route : GatewayRoute) : Prop := m = MToolsCall -> allowed s route \/ approved s route.

Definition method_of_cache (op : CacheOperationType) : Method :=
  match op with OpTool => MToolsCall | OpPrompt => MPromptsGet | OpResource => MResourcesRead end.

Definition admitted (s : mphase) (ev : event mcall) : Prop :=
  match ev with
  | Ev _ e _ =>
      match e with
      | AskServer c m p =>
          exists route ctx, reached s m route ctx /\ c = ctx_id ctx /\ forwarded_params m route p /\ cleared s m route /\ requests s = 0
      | BeginCached c =>
          exists route ctx, reached s (method_of_cache (c_operation c)) route ctx /\ c_serverId c = rt_serverID route
            /\ c_entityId c = rt_originalName route /\ ResultCache.userId (c_scopeContext c) = Some user
            /\ (c_operation c = OpTool -> allowed s route)
      | AskApproval i => claim s = None /\ exists route p v, verdict s = Some (p, v) /\ judged_about p route
            /\ Policy.decision v = RequireApproval /\ approval_about i v route
      | ClaimById i => claim s = None /\ exists input, asked s = Some (input, Some i)
      | SettleExecuted i _ | SettleFailed i _ => snd <$> claim s = Some i
      | SubscribeTo _ _ _ | UnsubscribeFrom _ _ _ => False
      | _ => True
      end
  end.

Notation wpm := (wp mphase_step admitted).
Hypothesis unnamed_allowed : lenient.

(** How a run ends: a claim left unsettled came without an id. *)
Definition ended (s : mphase) : Prop := requests s <= 1 /\ match claim s with Some (_, k) => k = ""%string | None => True end.

Ltac quiet :=
  repeat first
    [ progress cbn [wp pbind mphase_step admitted fst snd settled_as refuse reject]
    | match goal with
      | |- wp _ _ (pbind _ _) _ _ => apply wp_bind
      | |- wp _ _ (try_bind _ _) _ _ => apply wp_bind
      | |- forall _, True /\ _ => intros ?; split; [exact I|]
      end ].

(** ** The parts *)

Lemma routed_server g sid kind s (Q : mphase -> result ModernMcpError (Gateway * ServerContext) -> Prop) :
  (forall e, Q s (Throw e)) ->
  (forall g2 e, Q (saw g2 s) (Throw e)) ->
  (forall g2 ctx, gateway_context g2 session sid = Some ctx -> allowUserInput ctx = false -> Q (saw g2 s) (Ok (g2, ctx))) ->
  wpm (ensureRoutableServer x g sid kind) s Q.
Proof using.
  intros H1 H2 H3. unfold ensureRoutableServer. destruct (negb _); [|apply H1]. quiet.
  destruct x0 as [u|e]; quiet; [|apply H1]. destruct (gateway_context x0 session sid) as [ctx|] eqn:E; quiet; [|apply H2].
  destruct (allowUserInput ctx) eqn:Ea; quiet; [apply H2|by apply H3].
Qed.

(** What the request counts is all that is left of it. *)
Lemma server_asked ctx m kind p s (Q : mphase -> result ModernMcpError json -> Prop) :
  (forall a, admitted s (Ev _ (AskServer (ctx_id ctx) m p) a)) ->
  (forall e, Q s (Throw e)) -> (forall v, Q (counted s) v) -> wpm (ask_server ctx m kind p) s Q.
Proof using.
  intros Ha H1 H2. unfold ask_server. quiet. destruct x0; quiet; [|apply H1].
  intros a. split; [exact (Ha a)|]. destruct a as [v|e]; quiet; apply H2.
Qed.

Lemma maybe_cached_ok c execute s (Q : mphase -> result ModernMcpError json -> Prop) :
  (forall c', c = Some c' -> forall b, admitted s (Ev _ (BeginCached c') b)) ->
  (forall v, Q s v) -> wpm execute s Q -> wpm (maybe_cached c execute) s Q.
Proof using.
  intros Ha HQ He. unfold maybe_cached. destruct c as [c|]; [|done]. cbn [wp]. intros b.
  split; [exact (Ha c eq_refl b)|]. cbn [mphase_step]. destruct b as [v|e|]; [apply HQ..|]. quiet.
  eapply wp_mono; [exact He|]. intros s' a Hq. by quiet.
Qed.

(** What asking the other components leaves as it was. *)
Definition quietly (s s' : mphase) : Prop := first s' = first s /\ latest s' = latest s /\ requests s' = requests s.

(** The claim a run holds is the one its handler settles. *)
Definition holds (s : mphase) (claimedId : option string) : Prop :=
  match claim s with Some (_, k) => claimedId = Some k | None => given_name claimedId = None end.

Lemma approval_ok route args v p s (Q : mphase -> result ModernMcpError (json + option string) -> Prop) :
  args = object_args params -> claim s = None -> verdict s = Some (p, v) -> judged_about p route -> Policy.decision v = RequireApproval ->
  (forall s' e, quietly s s' -> claim s' = None -> Q s' (Throw e)) ->
  (forall s' j, quietly s s' -> claim s' = None -> Q s' (Ok (inl j))) ->
  (forall s' o, quietly s s' -> approved s' route -> holds s' o -> Q s' (Ok (inr o))) ->
  wpm (modern_approval x (rt_serverID route) (rt_originalName route) args v) s Q.
Proof using unnamed_allowed.
  intros -> Hc Hv Hp Hd H1 H2 H3. unfold modern_approval. set (input := {| in_userId := user |}).
  assert (Hi : approval_about input v route) by (by split_and!). cbn [wp]. intros a. split; [split; [done|]; by exists route, p, v|].
  cbn [mphase_step]. destruct a as [check|[m|e]]; [|by apply H2|by apply H1].
  destruct (needsApproval check).
  { unfold buildPendingApprovalResult. quiet.
    assert (H : forall b, wpm (match b with true => Ret tt | false => Ret tt end) (set_asked None s) (fun s' (_ : unit) => s' = set_asked None s)) by (by intros []).
    destruct (created check), (row_id (request check)); quiet; by apply H2. }
  set (s1 := set_asked (Some (input, row_id (request check))) s).
  assert (Hap : forall c, match given_name (row_id (request check)) with None => lenient /\ c = None | Some row => exists k, c = Some (row, k) end ->
    approved (set_claim c s1) route).
  { intros c Hc'. exists p, v, input, (row_id (request check)). by split_and!. }
  destruct (given_name (row_id (request check))) as [i|] eqn:Eg.
  - cbn [wp mphase_step]. intros b. split.
    { split; [done|]. exists input. unfold given_name in Eg. destruct (truthy_ostr _); [|done]. by rewrite <- Eg. }
    destruct b as [c|e]; [|by apply H1]. destruct (claimed c); cbn [negb]; [|by apply H2].
    apply (H3 (set_claim (Some (i, default i (row_id (claim_request c)))) s1)); [done| |done]. apply Hap. by eexists.
  - cbn [wp]. apply H3; [done| |unfold holds; cbn; by rewrite Hc]. replace s1 with (set_claim None s1); [by apply Hap|].
    unfold set_claim, s1, set_asked. cbn. by rewrite Hc.
Qed.

(** Settling what is held. *)
Lemma settling_ok (k : string -> mcall unit) o s (Q : mphase -> unit -> Prop) :
  holds s o -> (forall i u, admitted s (Ev _ (k i) u) <-> snd <$> claim s = Some i) ->
  (forall i u, mphase_step s (Ev _ (k i) u) = set_claim None s) ->
  requests s <= 1 -> (forall s', ended s' -> Q s' tt) ->
  wpm (match given_name o with Some i => k i !; Ret tt | None => Ret tt end) s Q.
Proof using.
  intros Hh Ha Hs Hr HQ. unfold holds in Hh. destruct (given_name o) as [i|] eqn:Eg; cbn [wp].
  - intros u. assert (E : snd <$> claim s = Some i).
    { destruct (claim s) as [[a b]|]; [|congruence]. subst o. unfold given_name in Eg. cbn in Eg. destruct (truthy_str b); [by injection Eg as ->|done]. }
    split; [by apply Ha|]. rewrite Hs. apply HQ. split; [exact Hr|exact I].
  - apply HQ. split; [done|]. destruct (claim s) as [[a b]|]; [|done]. subst o. unfold given_name in Eg.
    unfold truthy_ostr, truthy_str in Eg. cbn in Eg. destruct (str_eqb b "") eqn:E; [by apply bool_decide_eq_true in E|done].
Qed.

Definition ends_well (Q : mphase -> result ModernMcpError json -> Prop) : Prop := forall s' a, ended s' -> Q s' a.

Lemma stops_here s (Q : mphase -> result ModernMcpError json -> Prop) a : ends_well Q -> requests s = 0 -> claim s = None -> Q s a.
Proof using. intros HQ Hr Hc. apply HQ. split; [lia|by rewrite Hc]. Qed.

Lemma modern_forward_ok route ctx claimedId cached s Q :
  reached s MToolsCall route ctx -> allowed s route \/ approved s route -> (cached = true -> allowed s route) ->
  requests s = 0 -> holds s claimedId -> ends_well Q ->
  wpm (modern_forward x ctx (rt_serverID route) (rt_originalName route) (object_args params) params cached claimedId) s Q.
Proof using.
  intros Hreach Hcl Hca H0 Hh HQ. unfold modern_forward. apply wp_bind.
  assert (Hask : forall a, admitted s (Ev _ (AskServer (ctx_id ctx) MToolsCall (call_params "name" (rt_originalName route) params)) a)).
  { intros a. exists route, ctx. split; [done|]. split; [done|]. split; [done|]. by split; [intros _|]. }
  assert (Hrest : forall s' (a : result ModernMcpError json), s' = s \/ s' = counted s -> wpm match a with
    | Ok v => LogModern (if is_error_truthy v then 500 else 200) None !;
              match given_name claimedId with Some i => SettleExecuted i v !; Ret (Ok v) | None => Ret (Ok v) end
    | Throw e => bind! u := (match given_name claimedId with Some i => SettleFailed i (error_string e) !; Ret tt | None => Ret tt end) in
                 LogModern 500 (Some (error_string e)) !; Ret (Throw e)
    end s' Q).
  { intros s' a Hs. assert (Hh' : holds s' claimedId) by (by destruct Hs as [->| ->]).
    assert (Hr : requests s' <= 1) by (destruct Hs as [->| ->]; cbn; lia).
    destruct a as [v|e]; quiet.
    - assert (H : wpm (match given_name claimedId with Some i => SettleExecuted i v !; Ret tt | None => Ret tt end) s' (fun s2 _ => Q s2 (Ok v))).
      { apply settling_ok with (k := fun i => SettleExecuted i v); try done. intros s2 He. by apply HQ. }
      by destruct (given_name claimedId).
    - apply settling_ok with (k := fun i => SettleFailed i (error_string e)); try done. intros s2 He. quiet. by apply HQ. }
  assert (Hbody : forall policy : option ResolvedCachePolicy, (policy <> None -> allowed s route) ->
    wpm (maybe_cached ((fun p => modern_cache_call x OpTool (rt_serverID route) (rt_originalName route) p (JObj (object_args params))) <$> policy)
      (await! raw := ask_server ctx MToolsCall "tool" (call_params "name" (rt_originalName route) params) in settled_as (validateModernCallToolResult raw)))
      s (fun s' _ => s' = s \/ s' = counted s)).
  { intros policy Hp. apply maybe_cached_ok; [|by left|].
    - intros c' Ec b. destruct policy as [pol|]; [|done]. injection Ec as <-. exists route, ctx. split_and! ; try done. intros _. by apply Hp.
    - apply wp_bind, server_asked; [done|by left|]. intros [v|e]; quiet; by right. }
  destruct cached; quiet; (eapply wp_mono; [apply Hbody|intros s' a Hs; by apply Hrest]); auto.
Qed.

Lemma modern_execute_ok g route ctx s Q :
  reached s MToolsCall route ctx -> requests s = 0 -> claim s = None -> ends_well Q ->
  wpm (modern_execute x g ctx (rt_serverID route) (rt_originalName route) (object_args params) params) s Q.
Proof using unnamed_allowed.
  intros Hreach H0 Hc HQ. unfold modern_execute.
  destruct (match findTool ctx (rt_originalName route) with Some t => _ | None => _ end) as [u|e]; quiet; [|by apply stops_here].
  destruct x0 as [v|e]; quiet; [|by apply HQ; split; [cbn; lia|cbn; by rewrite Hc]].
  set (pp := policy_params _ _ _ _ _). set (s1 := judged (Some (pp, v)) s). assert (Hp : judged_about pp route) by (by split_and!).
  destruct (Policy.decision v) eqn:Ed.
  - apply modern_forward_ok; try done; [left|intros _|by unfold holds; cbn; rewrite Hc]; (split; [done|]; by exists pp, v).
  - apply wp_bind. apply approval_ok with (p := pp); try done.
    + intros s' e (E1 & E2 & E3) Hc'. apply HQ. split; [rewrite E3; cbn; lia|by rewrite Hc'].
    + intros s' j (E1 & E2 & E3) Hc'. apply HQ. split; [rewrite E3; cbn; lia|by rewrite Hc'].
    + intros s' o (E1 & E2 & E3) Hap Hh. apply modern_forward_ok; try done; [|by right|by rewrite E3].
      destruct Hreach as (g1 & g2 & R1 & R2 & R). exists g1, g2. by rewrite E1, E2.
  - quiet. apply HQ. split; [cbn; lia|cbn; by rewrite Hc].
Qed.

Lemma require_string v name s : requireString v name = Ok s -> nonempty_text v = Some s.
Proof using. unfold requireString, nonempty_text. destruct v; try done. destruct (str_eqb s0 ""); [done|]. by intros [= ->]. Qed.

Lemma require_params p : requireParams r = Ok p -> p = params.
Proof using. unfold requireParams, params. destruct (rq_params r); [by intros [= ->]|done]. Qed.

(** A phase in which nothing but the gateway was looked at. *)
Definition fresh (s : mphase) : Prop := requests s = 0 /\ claim s = None.

(** Routed in the only gateway read so far. *)
Lemma server_reached g m route kind s (Q : mphase -> result ModernMcpError (Gateway * ServerContext) -> Prop) :
  first s = Some g -> fresh s -> routed g m route -> (forall s' e, ended s' -> Q s' (Throw e)) ->
  (forall g2 ctx, reached (saw g2 s) m route ctx -> Q (saw g2 s) (Ok (g2, ctx))) ->
  wpm (ensureRoutableServer x g (rt_serverID route) kind) s Q.
Proof using.
  intros Hf [H0 Hc] Hr HQ Hk. apply routed_server.
  - intros e. apply HQ. split; [lia|by rewrite Hc].
  - intros g2 e. apply HQ. split; [cbn; lia|cbn; by rewrite Hc].
  - intros g2 ctx E Ea. apply Hk. exists g, g2. split_and! ; try done. cbn. by rewrite Hf.
Qed.

(** The server is asked once and the run goes on. *)
Lemma asked_once route ctx m kind p c s (Q : mphase -> result ModernMcpError json -> Prop) :
  reached s m route ctx -> fresh s -> m <> MToolsCall -> forwarded_params m route p ->
  (forall c', c = Some c' -> method_of_cache (c_operation c') = m /\ c_serverId c' = rt_serverID route
     /\ c_entityId c' = rt_originalName route /\ ResultCache.userId (c_scopeContext c') = Some user) ->
  ends_well Q -> wpm (maybe_cached c (ask_server ctx m kind p)) s Q.
Proof using.
  intros Hr [H0 Hc] Hm Hp Hca Hk.
  assert (E0 : ended s) by (split; [lia|by rewrite Hc]). assert (E1 : ended (counted s)) by (split; [cbn; lia|cbn; by rewrite Hc]).
  apply maybe_cached_ok; [|by intros v; apply Hk|].
  - intros c' Ec b. destruct (Hca c' Ec) as (<- & E2 & E3 & E4). exists route, ctx. split_and! ; try done. intros Eo. by rewrite Eo in Hm.
  - apply server_asked; [|by intros e; apply Hk|by intros v; apply Hk].
    intros a. exists route, ctx. split; [done|]. split; [done|]. split; [done|]. by split; [intros ->|].
Qed.

Ltac params_given :=
  let E := fresh "E" in
  destruct (requireParams r) as [p|e] eqn:E;
  quiet; [apply require_params in E as ->|by apply stops_here].
Ltac text_given name H :=
  match goal with
  | |- context [requireString ?v ?n] =>
      destruct (requireString v n) as [name|e] eqn:H
  end; quiet; [apply require_string in H|by apply stops_here].

Lemma callTool_ok Q : rq_method r = "tools/call"%string -> ends_well Q -> wpm (callTool x r) start Q.
Proof using unnamed_allowed.
  intros Em HQ. unfold callTool. params_given. destruct (negb _); quiet; [|by apply stops_here]. text_given name En.
  rename x0 into g. destruct (modern_resolveToolName g session name) as [route|] eqn:Er; quiet; [|by apply stops_here].
  destruct (modern_can_use_by_id _ _ _ _ _) eqn:Eu; quiet; [|by apply stops_here].
  apply (server_reached g MToolsCall); [done|done| |intros s' e; apply HQ|].
  - split; [done|]. by exists name.
  - intros g2 ctx Hr. by apply modern_execute_ok.
Qed.

Lemma readResource_ok Q : rq_method r = "resources/read"%string -> ends_well Q -> wpm (readResource x r) start Q.
Proof using.
  intros Em HQ. unfold readResource. params_given. text_given uri En.
  rename x0 into g. destruct (modern_resolveResourceUri g session uri) as [route|] eqn:Er; quiet; [|by apply stops_here].
  destruct (modern_can_use_by_id _ _ _ _ _) eqn:Eu; quiet; [|by apply stops_here].
  apply (server_reached g MResourcesRead); [done|done| |intros s' e; apply HQ|].
  - split; [done|]. by exists uri.
  - intros g2 ctx Hr. quiet. apply asked_once with (route := route); try done.
    + intros c'. destruct (resolveResourcePolicy _ _ _ _); [|done]. by intros [= <-].
    + intros s' [v|e] He; quiet; [|by apply HQ].
      destruct (rewriteResourceResult _ _ _) as [w|e]; quiet; by apply HQ.
Qed.

Lemma getPrompt_ok Q : rq_method r = "prompts/get"%string -> ends_well Q -> wpm (getPrompt x r) start Q.
Proof using.
  intros Em HQ. unfold getPrompt. params_given. text_given name En.
  rename x0 into g. destruct (resolvePromptName g session name) as [route|] eqn:Er; quiet; [|by apply stops_here].
  destruct (modern_can_use_by_id _ _ _ _ _) eqn:Eu; quiet; [|by apply stops_here].
  apply (server_reached g MPromptsGet); [done|done| |intros s' e; apply HQ|].
  - split; [done|]. by exists name.
  - intros g2 ctx Hr. quiet. apply asked_once with (route := route); try done.
    + intros c'. destruct (resolvePromptPolicy _ _ _); [|done]. by intros [= <-].
    + intros s' [v|e] He; quiet; by apply HQ.
Qed.

Lemma completion_refs t :
  rq_method r = "completion/complete"%string -> enforceModernScopes (mx_auth x) r = Ok tt -> ref_type params = Some t ->
  t = "ref/prompt"%string \/ t = "ref/resource"%string.
Proof using.
  intros Em Hs Et. unfold enforceModernScopes, requiredScopesForRequest, requireParams in Hs. unfold params in Et. rewrite Em in Hs.
  destruct (rq_params r) as [p|]; [|done]. cbn in Hs, Et. rewrite Et in Hs.
  destruct (str_eqb t "ref/prompt") eqn:E1; [left; by apply bool_decide_eq_true in E1|].
  destruct (str_eqb t "ref/resource") eqn:E2; [right; by apply bool_decide_eq_true in E2|done].
Qed.

Lemma complete_ok Q :
  rq_method r = "completion/complete"%string -> enforceModernScopes (mx_auth x) r = Ok tt -> ends_well Q -> wpm (complete x r) start Q.
Proof using.
  intros Em Hs HQ. unfold complete. params_given.
  destruct (ref_type params) as [t|] eqn:Et; quiet; [|by apply stops_here].
  assert (Hend : forall g route isPrompt, routed g MComplete route -> wpm
    (await! server := ensureRoutableServer x g (rt_serverID route) "completion" in
     let ctx := snd server in
     call! connected := IsConnected (ctx_id ctx) in
     need! connected else refuse 503 CodeInternalError "No downstream client available for completion" in
     await! argument := settled_as (completion_argument params) in
     call! answer := AskServer (ctx_id ctx) MComplete (completion_params isPrompt (rt_originalName route) argument params) in
     match answer with
     | Throw e => Ret (Throw (other_error e))
     | Ok v => ClearTimeouts (ctx_id ctx) !; LogModern 200 None !; Ret (Ok v)
     end) (saw g start) Q).
  { intros g route isPrompt Hr. apply wp_bind, (server_reached g MComplete); [done|done|done|intros s' e; apply HQ|].
    intros g2 ctx Hreach. quiet. destruct x0; quiet; [|by apply stops_here].
    destruct (completion_argument params) as [argument|e] eqn:Ea; quiet; [|by apply stops_here].
    intros a. split.
    - exists route, ctx. split; [done|]. split; [done|]. split; [by exists isPrompt, argument|]. by split; [intros ?|].
    - destruct a as [v|e]; quiet; by apply HQ. }
  unfold may_complete. change (match field "ref" params with JObj k => k | _ => [] end) with reference.
  destruct (completion_refs t Em Hs Et) as [->| ->].
  - change (str_eqb "ref/prompt" "ref/prompt") with true. cbn match. text_given name En. rename x0 into g.
    destruct (resolvePromptName g session name) as [route|] eqn:Er; quiet; [|by apply stops_here].
    destruct (modern_can_use_by_id _ _ _ _ _) eqn:Eu; [|quiet; by apply stops_here].
    apply (Hend g route true). split; [done|]. left. split; [done|]. by exists name.
  - change (str_eqb "ref/resource" "ref/prompt") with false. change (str_eqb "ref/resource" "ref/resource") with true. cbn match.
    text_given uri En. rename x0 into g.
    destruct (modern_resolveResourceUri g session uri) as [route|] eqn:Er; quiet; [|by apply stops_here].
    destruct (modern_can_use_by_id _ _ _ _ _) eqn:Eu; [|quiet; by apply stops_here].
    apply (Hend g route false). split; [done|]. right. split; [done|]. by exists uri.
Qed.

Lemma dispatch_ok (Q : mphase -> result ModernMcpError MReply -> Prop) :
  enforceModernScopes (mx_auth x) r = Ok tt -> (forall s a, ended s -> Q s a) -> wpm (dispatch x r) start Q.
Proof using unnamed_allowed.
  intros Hs HQ. unfold dispatch, as_result. rewrite Hs. quiet.
  assert (H0 : ended start) by (by split; [cbn; lia|]).
  assert (H1 : forall g a, Q (saw g start) a) by (intros g a; apply HQ; by split; [cbn; lia|]).
  repeat match goal with |- context [str_eqb (rq_method r) ?s] => destruct (str_eqb (rq_method r) s) eqn:?E; quiet; try apply H1 end;
    try (match goal with E : str_eqb (rq_method r) _ = true |- _ => apply bool_decide_eq_true in E end).
  - destruct (validateServerDiscoverParams r) as [[]|e]; quiet; [apply H1|by apply HQ].
  - apply callTool_ok; [done|]. intros s' [v|e] He; quiet; by apply HQ.
  - apply readResource_ok; [done|]. intros s' [v|e] He; quiet; by apply HQ.
  - apply getPrompt_ok; [done|]. intros s' [v|e] He; quiet; by apply HQ.
  - apply complete_ok; [done..|]. intros s' [v|e] He; quiet; by apply HQ.
  - by apply HQ.
Qed.
End Protocol.

(** ** The end *)

Lemma dispatch_finishes x r : finishes (dispatch x r).
Proof.
  assert (Hens : forall g sid kind, finishes (ensureRoutableServer x g sid kind)) by (intros; unfold ensureRoutableServer, user_input_error, refuse; finish).
  assert (Hask : forall ctx m kind p, finishes (ask_server ctx m kind p)) by (intros; unfold ask_server, refuse; finish).
  assert (Hmaybe : forall c p, finishes p -> finishes (maybe_cached c p)) by (intros; unfold maybe_cached; finish; done).
  assert (Hfw : forall ctx sid o a p c i, finishes (modern_forward x ctx sid o a p c i)).
  { intros. unfold modern_forward. finish. apply Hmaybe. unfold settled_as. finish. apply Hask. }
  assert (Happ : forall sid o a v, finishes (modern_approval x sid o a v)).
  { intros. unfold modern_approval, buildPendingApprovalResult. finish. }
  assert (Hex : forall g ctx sid o a p, finishes (modern_execute x g ctx sid o a p)).
  { intros. unfold modern_execute, settled_as, refuse. finish; auto. }
  unfold dispatch, as_result, callTool, readResource, getPrompt, complete, settled_as, refuse. finish; auto.
Qed.

Lemma listen_finishes x now r : finishes (handleSubscriptionListen x now r).
Proof.
  unfold handleSubscriptionListen, subscribeModernResources, settled_as, refuse.
  assert (Hc : forall i l, finishes (cleanupModernResourceSubscriptions i l)) by (intros i l; induction l; cbn; auto).
  assert (He : forall f i l uris, finishes (subscribe_each x f i l uris)).
  { intros f i l uris. revert l. induction uris as [|u uris IH]; intros l; cbn [subscribe_each]; [done|].
    apply finishes_bind; [unfold subscribe_one, refuse; finish|]. intros [[s|]|e]; auto. apply finishes_bind; [apply Hc|done]. }
  finish; auto.
Qed.

Lemma post_ends c now http auth uid : finishes (handlePost c now http auth uid).
Proof.
  unfold handlePost. apply finishes_bind; [|by intros [reply|e]]. apply finishes_await; [done|]. intros [x v]. unfold handle_admitted. cbn [fst snd].
  destruct (mv_notification v); [done|]. destruct (str_eqb _ _); (apply finishes_await; [|done]); [apply listen_finishes|apply dispatch_finishes].
Qed.

(** What a request that is no subscription may do, once admitted as [v]. *)
Lemma admitted_request_ok now x v (Q : mphase -> result ModernMcpError HttpReply -> Prop) :
  rq_method (mv_request v) <> "subscriptions/listen"%string -> (forall s a, ended s -> Q s a) ->
  wp mphase_step (admitted x (mv_request v) True) (handle_admitted now x v) start Q.
Proof.
  intros Hm HQ. assert (H0 : ended start) by (by split; [cbn; lia|]). unfold handle_admitted.
  destruct (mv_notification v); [intros u; split; [exact I|by apply HQ]|].
  destruct (str_eqb _ _) eqn:E; [by apply bool_decide_eq_true in E|]. apply wp_bind.
  destruct (enforceModernScopes (mx_auth x) (mv_request v)) as [[]|e] eqn:Es.
  - apply dispatch_ok; [done..|]. intros s [m|e] He; by apply HQ.
  - unfold dispatch. rewrite Es. by apply HQ.
Qed.

(** Nothing is asked on behalf of a request whose scopes are missing. *)
Lemma scopes_first x r tr a : runs (dispatch x r) tr a -> tr <> [] -> enforceModernScopes (mx_auth x) r = Ok tt.
Proof.
  unfold dispatch. destruct (enforceModernScopes (mx_auth x) r) as [[]|e]; [done|]. by intros [-> _] H.
Qed.

Definition is_listen (v : ModernValidationResult) : bool := str_eqb (rq_method (mv_request v)) "subscriptions/listen".

(** The approval service names the request whenever it answers that nothing is
    left to approve: [checked_request_named] shows that it does. *)
Definition names_requests (tr : list (event mcall)) : Prop :=
  forall i c, In (Ev _ (AskApproval i) (Ok c)) tr -> needsApproval c = false -> given_name (row_id (request c)) <> None.

Lemma checked_request_named (sha256 : string -> string) (input : CreateApprovalInput) (env : call_env) (t t' : table)
    (c : ApprovalCheckResult) :
  checkOrCreateApproval sha256 input env t = (Ok c, t') -> exists row, request c = Some row.
Proof.
  unfold checkOrCreateApproval, mbnd, mmodify, mgets, mret, mthrow, mmap_err.
  destruct (canonical_args _) as [a|e]; [|done]. destruct (findActiveByRequestHash _ _ _) as [row|].
  - intros [= <- _]. by exists row.
  - destruct (_ <=? _); [done|]. destruct (_ <=? _); [done|].
    destruct (createOrGetPending _ _ _) as [[[cr row]|e] t1]; [|done].
    destruct (negb cr && _); intros [= <- _]; by exists row.
Qed.

Lemma asked_traced tr i o : asked (mphase_of tr) = Some (i, o) ->
  exists c, In (Ev _ (AskApproval i) (Ok c)) tr /\ needsApproval c = false /\ row_id (request c) = o.
Proof.
  induction tr as [|ev tr IH] using rev_ind; [done|]. unfold mphase_of. rewrite fold_left_app. cbn [fold_left].
  change (fold_left mphase_step tr start) with (mphase_of tr). intros H.
  assert (Hold : asked (mphase_of tr) = Some (i, o) -> exists c, In (Ev _ (AskApproval i) (Ok c)) (tr ++ [ev])
    /\ needsApproval c = false /\ row_id (request c) = o).
  { intros (c & Hc & Hn)%IH. exists c. split; [|done]. apply in_app_iff. by left. }
  destruct ev as [X e a]. destruct e; try (by apply Hold); cbn [mphase_step] in H.
  - destruct a as [c|]; [|done]. cbn in H. destruct (needsApproval c) eqn:En; [done|]. injection H as <- <-.
    exists c. split; [|done]. apply in_app_iff. right. by left.
  - destruct a as [c|]; [|by apply Hold]. destruct (claimed c); by apply Hold.
Qed.

(** With that promise, a request to a server is under a claimed approval. *)
Lemma admitted_strictly x r tr pre ev post :
  names_requests tr -> tr = pre ++ ev :: post -> admitted x r True (mphase_of pre) ev -> admitted x r False (mphase_of pre) ev.
Proof.
  intros Hn -> H. destruct ev as [X e a]. destruct e; try exact H.
  destruct H as (route & sc & Hr & Hc & Hp & Hcl & H0). exists route, sc. split_and! ; try done.
  intros Hm. destruct (Hcl Hm) as [Ha|(q & v & i & o & Hv & Hq & Hd & Ha & Hi & Hk)]; [by left|right].
  exists q, v, i, o. split_and! ; try done. destruct (given_name o) as [row|] eqn:Eo; [done|]. exfalso.
  apply asked_traced in Ha as (c & Hin & Hc0 & <-). apply (Hn i c); [|done..]. apply in_app_iff. by left.
Qed.

(** ** Subscriptions *)

Fixpoint forget (p : string * string) (l : list (string * string)) : list (string * string) :=
  match l with [] => [] | q :: l => if bool_decide (q = p) then l else q :: forget p l end.

(** The gateway last read, and what is subscribed to at the servers. *)
Definition listen_step (s : option Gateway * list (string * string)) (ev : event mcall) : option Gateway * list (string * string) :=
  match ev with
  | Ev X e x =>
      match e in mcall X return X -> option Gateway * list (string * string) with
      | ReadGateway => fun g => (Some g, snd s)
      | SubscribeTo sid uri _ => fun r => (fst s, match r with Ok _ => snd s ++ [(sid, uri)] | Throw _ => snd s end)
      | UnsubscribeFrom sid uri _ => fun _ => (fst s, forget (sid, uri) (snd s))
      | _ => fun _ => s
      end x
  end.

Definition subscribed (tr : list (event mcall)) : list (string * string) := snd (fold_left listen_step tr (None, [])).

Definition pair_of (s : ResourceSubscription) : string * string := (rs_serverId s, rs_resourceUri s).

Section Listen.
Variable x : ModernRequestContext.
Notation session := (ac_session (mx_auth x)).

(** A server is told about a resource the filter names and the user may use. *)
Definition listen_admitted (f : SubscriptionFilter) (s : option Gateway * list (string * string)) (ev : event mcall) : Prop :=
  match ev with
  | Ev _ e _ =>
      match e with
      | SubscribeTo sid uri _ =>
          exists g requested route, fst s = Some g /\ requested ∈ sf_resourceUris f
            /\ resolveResourceUriForSubscription g session requested (sf_serverIds f) = Some route
            /\ modern_can_use_by_id (gw_manager g) session CapResource sid (resource_target route) = true
            /\ sid = rt_serverID route /\ uri = rt_originalName route
      | AskServer _ _ _ | ClaimById _ => False
      | _ => True
      end
  end.

Notation wpl f := (wp listen_step (listen_admitted f)).

Lemma cleanup_ok f i l g (Q : option Gateway * list (string * string) -> unit -> Prop) :
  Q (g, []) tt -> wpl f (cleanupModernResourceSubscriptions i l) (g, map pair_of l) Q.
Proof using.
  intros HQ. induction l as [|s l IH]; cbn; [done|]. intros u. split; [exact I|]. by rewrite bool_decide_eq_true_2.
Qed.

Lemma subscribe_each_ok f i l uris g (Q : option Gateway * list (string * string) -> result ModernMcpError (list ResourceSubscription) -> Prop) :
  (forall u, u ∈ uris -> u ∈ sf_resourceUris f) -> (forall g' l', Q (g', map pair_of l') (Ok l')) -> (forall g' e, Q (g', []) (Throw e)) ->
  wpl f (subscribe_each x f i l uris) (g, map pair_of l) Q.
Proof using.
  revert l g. induction uris as [|u uris IH]; intros l g Hu Ho Ht; cbn [subscribe_each]; [apply Ho|]. apply wp_bind.
  assert (Hrest : forall u', u' ∈ uris -> u' ∈ sf_resourceUris f) by (intros u' H; apply Hu; by right).
  assert (Hthrow : forall g' e, wpl f (bind! u := cleanupModernResourceSubscriptions i l in Ret (Throw e)) (g', map pair_of l) Q).
  { intros g' e. apply wp_bind, cleanup_ok. apply Ht. }
  unfold subscribe_one. intros g'. split; [exact I|]. cbn [listen_step fst snd].
  destruct (resolveResourceUriForSubscription g' session u (sf_serverIds f)) as [route|] eqn:Er; cbn [wp refuse reject]; [|apply Hthrow].
  destruct (modern_can_use_by_id _ _ _ _ _) eqn:Eu; cbn [wp]; [|apply Hthrow].
  destruct (negb _); cbn [wp]; [by apply IH|]. intros a. split.
  - exists g', u, route. split_and! ; try done. apply Hu. by left.
  - cbn [listen_step fst snd]. destruct a as [v|e]; cbn [wp]; [|apply Hthrow].
    change [(rt_serverID route, rt_originalName route)]
      with (map pair_of [{| rs_serverId := rt_serverID route; rs_resourceUri := rt_originalName route; rs_requestedUri := u |}]).
    rewrite <- map_app. by apply IH.
Qed.

Lemma listen_ok now r f (Q : option Gateway * list (string * string) -> result ModernMcpError Subscription -> Prop) :
  (forall g e, Q (g, []) (Throw e)) ->
  (forall p, requireParams r = Ok p -> buildSubscriptionFilter p = Ok f -> enforceSubscriptionScopes (mx_auth x) f = Ok tt ->
     forall g i a l e, Q (g, map pair_of l)
       (Ok {| sub_id := i; sub_filter := f; sub_acknowledged := a; sub_downstream := l; sub_expiry := e |})) ->
  (forall p f', requireParams r = Ok p -> buildSubscriptionFilter p = Ok f' -> f' = f) ->
  wpl f (handleSubscriptionListen x now r) (None, []) Q.
Proof using.
  intros Ht Ho Hf. unfold handleSubscriptionListen. apply wp_bind. cbn [settled_as wp].
  destruct (requireParams r) as [p|e] eqn:Ep; cbn [wp]; [|apply Ht].
  assert (H : forall i, wpl f (await! f := settled_as (buildSubscriptionFilter p) in
      await! scoped := settled_as (enforceSubscriptionScopes (mx_auth x) f) in
      await! l := subscribeModernResources x f (mx_uniformRequestId x +:+ ":" +:+ js_String i) in
      call! g := ReadGateway in
      Ret (Ok {| sub_id := i; sub_filter := f;
                 sub_acknowledged := acknowledge (buildServerCapabilities g session (supportsMcpApps (mx_capabilities x))) f l;
                 sub_downstream := l; sub_expiry := authExpirationMs (mx_auth x) now |})) (None, []) Q).
  { intros i. apply wp_bind. cbn [settled_as wp]. destruct (buildSubscriptionFilter p) as [f'|e] eqn:Ef; cbn [wp]; [|apply Ht].
    pose proof (Hf p f' eq_refl Ef) as ->. apply wp_bind. cbn [settled_as wp].
    destruct (enforceSubscriptionScopes (mx_auth x) f) as [[]|e] eqn:Es; cbn [wp]; [|apply Ht]. apply wp_bind.
    assert (Hend : forall g l, wpl f (call! g := ReadGateway in
      Ret (Ok {| sub_id := i; sub_filter := f;
                 sub_acknowledged := acknowledge (buildServerCapabilities g session (supportsMcpApps (mx_capabilities x))) f l;
                 sub_downstream := l; sub_expiry := authExpirationMs (mx_auth x) now |})) (g, map pair_of l) Q).
    { intros g l g'. split; [exact I|]. cbn [wp listen_step fst snd]. by apply (Ho p). }
    unfold subscribeModernResources. destruct (_ || _); [by apply (Hend None [])|].
    apply (subscribe_each_ok f _ [] (sf_resourceUris f) None); [done|intros; apply Hend|intros; apply Ht]. }
  destruct (rq_id r); first [apply H | apply Ht].
Qed.
End Listen.

(** *** What is written *)

(** What an event of an open stream writes, and whether it closes the stream:
    with the token, or by the client. *)
Definition live (session : Session) (s : Subscription) (ev : SubEvent) : list SseOut :=
  match ev with
  | BusEvent g e =>
      if subscriptionMatches g session (sub_filter s) e && canReceiveSubscriptionEvent g session e
      then [OutMessage (se_method e) (message_params s (rewriteSubscriptionParams g session e))] else []
  | Beat => [OutHeartbeat]
  | TimerFired | ClientClosed => []
  end.

Definition closes (s : Subscription) (ev : SubEvent) : option bool :=
  match ev with
  | ClientClosed => Some false
  | TimerFired => match sub_expiry s with Some _ => Some true | None => None end
  | _ => None
  end.

(** The events before the stream is closed, and how it is. *)
Fixpoint until_closed (s : Subscription) (l : list SubEvent) : list SubEvent * option bool :=
  match l with
  | [] => ([], None)
  | ev :: l => match closes s ev with
               | Some b => ([], Some b)
               | None => let '(before, b) := until_closed s l in (ev :: before, b)
               end
  end.

Definition farewell (closed : option bool) : list SseOut :=
  match closed with
  | None => []
  | Some expired => OutCleanup :: (if expired then [OutComplete] else []) ++ [OutEnd]
  end.

Lemma shut_is_silent session s l : sub_run session s shut l = (shut, []).
Proof. induction l as [|[g e| | |] l IH]; cbn; rewrite ?IH; done. Qed.

Lemma stream_exact session s l :
  sub_run session s (opened s) l
  = (match snd (until_closed s l) with Some _ => shut | None => opened s end,
     flat_map (live session s) (fst (until_closed s l)) ++ farewell (snd (until_closed s l))).
Proof.
  induction l as [|ev l IH]; [done|]. cbn [sub_run until_closed]. destruct (closes s ev) as [b|] eqn:Ec.
  - destruct ev as [g e| | |]; cbn in Ec; try done; cbn [sub_step]; unfold opened at 1; cbn [ss_timer].
    + destruct (sub_expiry s); [|done]. injection Ec as <-. cbn. by rewrite shut_is_silent.
    + injection Ec as <-. cbn. by rewrite shut_is_silent.
  - assert (E : sub_step session s (opened s) ev = (opened s, live session s ev)).
    { destruct ev as [g e| | |]; cbn; try done; [unfold told; by destruct (_ && _)|cbn in Ec; by destruct (sub_expiry s)]. }
    rewrite E, IH. destruct (until_closed s l) as [before b]. cbn. by rewrite app_assoc.
Qed.

Lemma one_of_In s l : one_of s l = true <-> In s l.
Proof.
  unfold one_of. rewrite existsb_exists. split.
  - intros (t & H & E). apply bool_decide_eq_true in E. by subst.
  - intros H. exists s. split; [done|]. by apply bool_decide_eq_true.
Qed.

Lemma set_of_In s l : In s l -> In s (set_of l).
Proof.
  unfold set_of. intros H. assert (Hg : forall acc, In s l \/ In s acc -> In s (fold_left (fun acc s => filter_add s acc) l acc)); [|by apply Hg; left].
  clear H. induction l as [|t l IH]; cbn; intros acc; [by intros [[]|]|]. intros H. apply IH. unfold filter_add.
  destruct (one_of t acc) eqn:E.
  - destruct H as [[->|H]|H]; [right; by apply one_of_In|by left|by right].
  - rewrite in_app_iff. cbn. tauto.
Qed.

Lemma require_scopes_all a l s : require_scopes a l = Ok tt -> In s l -> requireOAuthScope a s = Ok tt.
Proof.
  induction l as [|t l IH]; cbn; [by intros _ []|]. destruct (requireOAuthScope a t) as [[]|e] eqn:E; [|done]. cbn.
  intros H [->|Hs]; [done|by apply IH].
Qed.

(** What may be told: an event of the filter's methods, of a server the user
    may use, about a resource the user may use. *)
Definition may_be_told (a : ModernAuthContext) (s : Subscription) (g : Gateway) (e : SubscriptionEvent) : Prop :=
  In (se_method e) (sf_methods (sub_filter s))
  /\ (forall scope, In scope (method_scope (se_method e)) -> requireOAuthScope a scope = Ok tt)
  /\ forall i, given_name (se_serverId e) = Some i -> exists ctx, event_context g (ac_session a) e = Some ctx
       /\ modern_canAccessServer (ac_session a) ctx = true
       /\ forall u, given_name (se_resourceUri e) = Some u -> exists n, findResourceName ctx u = Some n
            /\ modern_can_use (ac_session a) ctx CapResource n = true.

(** A notification is logged. *)
Lemma logged_only tr (a : result ModernMcpError HttpReply) :
  runs (LogModern 202 None !; Ret (Ok Accepted202)) tr (Some a) -> exists u, tr = [Ev _ (LogModern 202 None) u].
Proof. intros (u & tr' & -> & -> & _). by exists u. Qed.

(** A subscription whose filter or scopes are missing asks nothing. *)
Lemma listen_scoped x now r tr a :
  runs (handleSubscriptionListen x now r) tr (Some a) -> tr <> [] ->
  exists p f, rq_params r = Some p /\ buildSubscriptionFilter p = Ok f /\ enforceSubscriptionScopes (mx_auth x) f = Ok tt
    /\ forall pre ev post, tr = pre ++ ev :: post -> listen_admitted x f (fold_left listen_step pre (None, [])) ev.
Proof.
  intros Hr Hne. destruct (requireParams r) as [p|e] eqn:Ep.
  2: { unfold handleSubscriptionListen in Hr. rewrite Ep in Hr. by destruct Hr. }
  destruct (buildSubscriptionFilter p) as [f|e] eqn:Ef.
  2: { unfold handleSubscriptionListen in Hr. rewrite Ep in Hr. cbn in Hr. rewrite Ef in Hr. by destruct (rq_id r), Hr. }
  assert (Hs : enforceSubscriptionScopes (mx_auth x) f = Ok tt).
  { destruct (enforceSubscriptionScopes (mx_auth x) f) as [[]|e] eqn:Es; [done|]. unfold handleSubscriptionListen in Hr.
    rewrite Ep in Hr. cbn in Hr. rewrite Ef in Hr. cbn in Hr. rewrite Es in Hr. by destruct (rq_id r), Hr. }
  exists p, f. split; [unfold requireParams in Ep; destruct (rq_params r); [by injection Ep as ->|done]|]. split; [done|]. split; [done|].
  assert (Hwp := listen_ok x now r f (fun _ _ => True) (fun _ _ => I) (fun _ _ _ _ _ _ _ _ _ => I)
    (fun p' f' E E' => ltac:(congruence))). by destruct (wp_runs _ _ _ _ _ _ _ _ Hwp Hr) as [Ha _].
Qed.

(** C5: Every request of the modern protocol is answered, and nothing is asked
    of any component unless it is a valid POST of an authenticated user.  A
    notification is logged and nothing else is asked, whatever its method; of
    a subscription nothing is asked unless the token has the scopes of all
    that its filter names, and servers are asked only about resources that the
    filter names and the user may use; of any other request nothing unless the
    token has the scopes of its method.  Whatever the components answer, but
    for the one promise of the approval service that it names the request when
    it answers that nothing is left to approve ([checked_request_named]),
    every request that is no subscription makes at most one request to a
    server: the server that a permitted route led to, which needs no input of
    the user's, with the parameters of the request; for a tool call after a
    verdict of the policy engine on this very call that allows it, or that
    requires an approval, which was asked for this very call and whose row was
    claimed; the cache is asked about nothing else; and a claim is settled
    under the id it was claimed by. *)
Theorem modern_requests_cleared (c : ModernConfig) (now : Z) (http : MRequest) (auth : option ModernAuthContext) (uid : string)
    (tr : list (event mcall)) (r : option HttpReply) :
  runs (handlePost c now http auth uid) tr r -> names_requests tr ->
  r <> None
  /\ (tr <> [] -> exists x v, admit_request c http auth uid = Ok (x, v)
        /\ if mv_notification v then exists u, tr = [Ev _ (LogModern 202 None) u]
           else if is_listen v then
             exists p f, rq_params (mv_request v) = Some p /\ buildSubscriptionFilter p = Ok f
               /\ enforceSubscriptionScopes (mx_auth x) f = Ok tt
               /\ forall pre ev post, tr = pre ++ ev :: post -> listen_admitted x f (fold_left listen_step pre (None, [])) ev
           else enforceModernScopes (mx_auth x) (mv_request v) = Ok tt
             /\ (forall pre ev post, tr = pre ++ ev :: post -> admitted x (mv_request v) False (mphase_of pre) ev)
             /\ ended (mphase_of tr)).
Proof.
  intros Hr Hnm. destruct r as [reply|]; [|by apply (finishes_runs _ tr (post_ends c now http auth uid)) in Hr]. split; [done|]. intros Hne.
  destruct (runs_bind_inv _ _ _ _ _ Hr) as (tr1 & a & tr2 & -> & H1 & H2).
  assert (tr2 = []) as -> by (by destruct a, H2). rewrite app_nil_r in *. cbn in H1.
  destruct (admit_request c http auth uid) as [[x v]|e]; [|by destruct H1]. exists x, v. split; [done|]. cbn [fst snd] in H1.
  destruct (mv_notification v) eqn:Hn; [unfold handle_admitted in H1; rewrite Hn in H1; by apply logged_only in H1|].
  destruct (is_listen v) eqn:Hl.
  - unfold handle_admitted in H1. rewrite Hn in H1. unfold is_listen in Hl. rewrite Hl in H1.
    apply runs_await_inv in H1 as [(e & H1 & _)|(t1 & m & t2 & -> & H1 & [-> _])]; [by eapply listen_scoped|].
    rewrite app_nil_r in *. by eapply listen_scoped.
  - assert (Hm : rq_method (mv_request v) <> "subscriptions/listen"%string) by (unfold is_listen in Hl; by apply bool_decide_eq_false in Hl).
    destruct (wp_runs _ _ _ _ _ _ _ _ (admitted_request_ok now x v (fun s _ => ended s) Hm (fun s a H => H)) H1) as [Ha He].
    split; [|split; [intros pre ev post E; by eapply admitted_strictly, Ha|by apply (He a)]].
    unfold handle_admitted in H1. rewrite Hn in H1. unfold is_listen in Hl. rewrite Hl in H1.
    apply runs_await_inv in H1 as [(e & H1 & _)|(t1 & m & t2 & -> & H1 & [-> _])]; [by eapply scopes_first|].
    rewrite app_nil_r in Hne. by eapply scopes_first.
Qed.

(** C6: A subscription, once opened, was asked for with the scopes of all that
    it may be told; its servers were asked for exactly the resources it
    remembers, which its filter names and the user may use; what it writes is,
    event by event until it is closed, what its filter lets through of what
    the user may see at that moment; closing it cleans up once and ends the
    stream, with a last message if the token expired, and nothing follows. *)
Theorem subscription_tells_the_permitted (x : ModernRequestContext) (now : Z) (r : ModernJsonRpcRequest)
    (tr : list (event mcall)) (s : Subscription) (l : list SubEvent) :
  runs (handleSubscriptionListen x now r) tr (Some (Ok s)) ->
  (exists p, rq_params r = Some p /\ buildSubscriptionFilter p = Ok (sub_filter s))
  /\ subscribed tr = map pair_of (sub_downstream s)
  /\ (forall pre ev post, tr = pre ++ ev :: post -> listen_admitted x (sub_filter s) (fold_left listen_step pre (None, [])) ev)
  /\ snd (sub_run (ac_session (mx_auth x)) s (opened s) l)
     = flat_map (live (ac_session (mx_auth x)) s) (fst (until_closed s l)) ++ farewell (snd (until_closed s l))
  /\ forall m p, In (OutMessage m p) (snd (sub_run (ac_session (mx_auth x)) s (opened s) l)) ->
       exists g e, In (BusEvent g e) (fst (until_closed s l)) /\ m = se_method e
         /\ p = message_params s (rewriteSubscriptionParams g (ac_session (mx_auth x)) e) /\ may_be_told (mx_auth x) s g e.
Proof.
  intros Hr. rewrite stream_exact. cbn [snd].
  destruct (requireParams r) as [p|e] eqn:Ep.
  2: { unfold handleSubscriptionListen in Hr. rewrite Ep in Hr. by destruct Hr. }
  destruct (buildSubscriptionFilter p) as [f|e] eqn:Ef.
  2: { unfold handleSubscriptionListen in Hr. rewrite Ep in Hr. cbn in Hr. rewrite Ef in Hr. by destruct (rq_id r), Hr. }
  assert (Hwp := listen_ok x now r f (fun st a => match a with
    | Ok s => sub_filter s = f /\ enforceSubscriptionScopes (mx_auth x) f = Ok tt /\ snd st = map pair_of (sub_downstream s) | Throw _ => True end)
    (fun _ _ => I) (fun p' _ _ Hs g i a l e => conj eq_refl (conj Hs eq_refl))
    (fun p' f' E E' => ltac:(congruence))).
  destruct (wp_runs _ _ _ _ _ _ _ _ Hwp Hr) as [Ha Hq]. destruct (Hq _ eq_refl) as (Hf & Hs & Hl).
  split; [exists p; unfold requireParams in Ep; destruct (rq_params r); [injection Ep as ->; by subst f|done]|].
  split; [exact Hl|]. split; [by rewrite Hf|]. split; [done|].
  intros m q Hin. apply in_app_iff in Hin as [Hin|Hin].
  2: { exfalso. destruct (snd (until_closed s l)) as [[]|]; cbn in Hin; by repeat (destruct Hin as [Hin|Hin]; [discriminate Hin|]). }
  apply in_flat_map in Hin as ([g e| | |] & Hev & Hin); cbn in Hin; [|by destruct Hin|done|done].
  destruct (_ && _) eqn:E; [|done]. apply andb_true_iff in E as [E1 E2]. destruct Hin as [[= <- <-]|[]].
  exists g, e. split; [done|]. split; [done|]. split; [done|].
  unfold subscriptionMatches in E1. apply andb_true_iff in E1 as [E1 _]. apply andb_true_iff in E1 as [E1 _]. apply one_of_In in E1.
  split; [done|]. split.
  - intros scope Hsc. rewrite Hf in E1. eapply require_scopes_all; [exact Hs|]. apply set_of_In, in_flat_map. by exists (se_method e).
  - intros i Hi. unfold canReceiveSubscriptionEvent in E2. rewrite Hi in E2.
    destruct (event_context g (ac_session (mx_auth x)) e) as [ctx|]; [|done]. exists ctx. split; [done|].
    apply andb_true_iff in E2 as [E2 E3]. split; [done|]. intros u Hu. rewrite Hu in E3. unfold given_name in E3.
    destruct (truthy_ostr _); [|done]. destruct (findResourceName ctx u) as [n|]; [|done]. by exists n.
Qed.

(** ** Examples

    The gateway of [ToolCallWorld] behind the modern protocol; listing files
    needs an administrator's approval, who approves what is asked first. *)

Definition ls_policies : list ToolPolicySet :=
  [{| ps_id := "p1"; ps_serverId := None; version := 1; ps_status := "active";
      dsl := Some [{| rule_id := "r1"; priority := None; match_tool := Some "ls_-_"%string;
                      match_serverId := None; extract := []; when := [];
                      effect_decision := "REQUIRE_APPROVAL"; effect_reason := None |}];
      ps_createdAt := 0 |}].

Definition ann : Session := {| session_userId := "ann"; isAnonymous := false; permissions := []; userPreferences := [] |}.

Definition subscribing : ModernCapabilities :=
  {| has_connection := true; legacy_connection := true; cap_tools := Some true; cap_resources := Some (true, true);
     cap_prompts := None; cap_completions := false |}.

Definition ex_gateway : Gateway :=
  {| gw_manager := ex_manager; gw_schema := fun _ _ => JNull; gw_mimeType := fun _ _ => None; gw_capabilities := fun _ => subscribing |}.

Definition as_thrown (e : failure) : thrown := {| th_message := err_text e; th_text := "Error: " +:+ err_text e |}.

Definition modern_answer (X : Type) (e : mcall X) (w : World) : X * World :=
  match e in mcall X return X * World with
  | ReadGateway => (ex_gateway, w)
  | EnsureAvailable _ => (Ok tt, w)
  | SubscribeTo _ _ _ => (Ok tt, w)
  | UnsubscribeFrom _ _ _ => (tt, w)
  | AskPolicy p => (Ok (evaluate_in p w), w)
  | AskApproval i => let '(c, w) := check_in i w in
                     (match c with Ok c => Ok c | Throw (ApprovalRateLimitError m) => Throw (inl m)
                                 | Throw (RepositoryError m) => Throw (inr {| th_message := m; th_text := m |}) end, admin_step w)
  | ClaimById i => (Ok (fst (claimForExecutionById i (w_now w) (w_table w))), add_statement (SClaimId i (w_now w)) w)
  | SettleExecuted i r => (tt, add_statement (SMarkExecuted i (sanitizeExecutionResult r) (w_now w)) w)
  | SettleFailed i m => (tt, add_statement (SMarkFailed i m (w_now w)) w)
  | NotifyCreated _ => (tt, w)
  | ReadConfig _ => (cache_off, w)
  | BeginCached _ => (CacheRun, w)
  | EndCached _ _ => (tt, w)
  | IsConnected _ => (true, w)
  | AskServer _ _ _ =>
      match w_downstream w with
      | [] => (Throw {| th_message := "closed"; th_text := "Error: closed" |}, w)
      | r :: d => (match r with Ok v => Ok v | Throw e => Throw (as_thrown e) end, with_downstream d (w_timeouts w) w)
      end
  | ClearTimeouts _ => (tt, w)
  | LogModern _ _ => (tt, w)
  end.

Definition modern_world (d : list (result failure json)) : World :=
  {| w_mgr := ex_manager; w_session := ann; w_policies := ls_policies; w_history := []; w_now := 1000; w_downstream := d; w_timeouts := 0; w_nextId := 1 |}.

Definition ann_auth : ModernAuthContext :=
  {| ac_session := ann; oauthClientId := Some "app"; oauthScopes := Some ["mcp:tools"; "mcp:resources"];
     oauthAccessTokenExpiresAt := Some 2592001; ac_expiresAt := None; ac_tenantId := None |}%string.

Definition post_ls (w : World) := run_with modern_answer (handlePost modern_config 1000 ls_request (Some ann_auth) "u") w.

(** The first call asks for the approval, the second runs under it. *)
Definition after_asking (d : list (result failure json)) : World := snd (post_ls (modern_world d)).

Definition files_reply (isError : bool) : json := text_reply "files" isError [].

Example modern_call_approved :
  map ApprovalRepository.status (w_table (after_asking [Ok (files_reply false)])) = [Approved]
  /\ reply_of (post_ls (after_asking [Ok (files_reply false)])) = Some (Replied (JNum 1) (RResult (files_reply false)))
  /\ map ApprovalRepository.status (w_table (snd (post_ls (after_asking [Ok (files_reply false)])))) = [Executed].
Proof. vm_compute. repeat split; reflexivity. Qed.

Definition ls_trace : list (event mcall) := fst (fst (post_ls (after_asking [Ok (files_reply false)]))).

Lemma ls_runs : runs (handlePost modern_config 1000 ls_request (Some ann_auth) "u") ls_trace (Some (Replied (JNum 1) (RResult (files_reply false)))).
Proof. apply (run_with_result _ modern_answer). vm_compute. reflexivity. Qed.

Definition named_answer (ev : event mcall) : bool :=
  match ev with
  | Ev X e a => match e in mcall X return X -> bool with
                | AskApproval _ => fun r => match r with
                                            | Ok c => needsApproval c || bool_decide (given_name (row_id (request c)) <> None)
                                            | Throw _ => true
                                            end
                | _ => fun _ => true
                end a
  end.

Lemma named_answers tr : forallb named_answer tr = true -> names_requests tr.
Proof.
  intros H i c Hin Hc. rewrite forallb_forall in H. specialize (H _ Hin). cbn in H. rewrite Hc in H.
  by apply bool_decide_eq_true in H.
Qed.

Lemma modern_requests_cleared_witness :
  runs (handlePost modern_config 1000 ls_request (Some ann_auth) "u") ls_trace (Some (Replied (JNum 1) (RResult (files_reply false))))
  /\ names_requests ls_trace /\ requests (mphase_of ls_trace) = 1 /\ claim (mphase_of ls_trace) = None
  /\ exists x v, admit_request modern_config ls_request (Some ann_auth) "u" = Ok (x, v).
Proof.
  assert (Hn : names_requests ls_trace) by (apply named_answers; vm_compute; reflexivity).
  split; [exact ls_runs|]. split; [exact Hn|]. split; [vm_compute; reflexivity|]. split; [vm_compute; reflexivity|].
  destruct (modern_requests_cleared _ _ _ _ _ _ _ ls_runs Hn) as [_ H]. destruct H as (x & v & H & _); [vm_compute; discriminate|].
  exists x, v. exact H.
Defined.

(** *** A subscription *)

Definition secret : string := generateNewName "7" "file:///secret".

Definition listen_body : list (string * json) :=
  [("notifications", JObj [("toolsListChanged", JBool true); ("resourceSubscriptions", JArr [JStr secret])])]%string.
Definition listen_request : ModernJsonRpcRequest := {| rq_id := JNum 5; rq_method := "subscriptions/listen"; rq_params := Some listen_body |}.
Definition ann_context : ModernRequestContext :=
  {| mx_http := ls_request; mx_auth := ann_auth; mx_capabilities := []; mx_uniformRequestId := "u" |}.

Definition listening := run_with modern_answer (handleSubscriptionListen ann_context 1000 listen_request) (modern_world []).

Definition ann_filter : SubscriptionFilter :=
  {| sf_methods := [TOOLS_CHANGED; RESOURCE_UPDATED]; sf_serverIds := []; sf_resourceUris := [secret];
     sf_notifications := [("toolsListChanged", JBool true); ("resourceSubscriptions", JArr [JStr secret])] |}%string.

Definition ann_subscription : Subscription :=
  {| sub_id := JNum 5; sub_filter := ann_filter;
     sub_acknowledged := [("toolsListChanged", JBool true); ("resourceSubscriptions", JArr [JStr secret])];
     sub_downstream := [{| rs_serverId := "files"; rs_resourceUri := "file:///secret"; rs_requestedUri := secret |}];
     sub_expiry := Some 2592000000 |}%string.

Lemma listen_runs : runs (handleSubscriptionListen ann_context 1000 listen_request) (fst (fst listening)) (Some (Ok ann_subscription)).
Proof. apply (run_with_result _ modern_answer). vm_compute. reflexivity. Qed.

Definition updated : SubscriptionEvent :=
  {| se_method := RESOURCE_UPDATED; se_serverId := Some "files"; se_scopeId := None; se_resourceUri := Some "file:///secret";
     se_params := [("uri", JStr "file:///secret")] |}%string.
Definition tools_changed : SubscriptionEvent :=
  {| se_method := TOOLS_CHANGED; se_serverId := Some "files"; se_scopeId := None; se_resourceUri := None; se_params := [] |}%string.

Definition some_events : list SubEvent := [BusEvent ex_gateway updated; BusEvent ex_gateway tools_changed; TimerFired; Beat].

Lemma subscription_tells_the_permitted_witness :
  snd (sub_run ann ann_subscription (opened ann_subscription) some_events)
  = [OutMessage RESOURCE_UPDATED (message_params ann_subscription [("uri", JStr secret)]); OutCleanup; OutComplete; OutEnd]%string
  /\ subscribed (fst (fst listening)) = [("files", "file:///secret")]%string.
Proof.
  destruct (subscription_tells_the_permitted _ _ _ _ _ some_events listen_runs) as (_ & H1 & _ & H2 & _).
  split; [|vm_compute; reflexivity]. vm_compute in H2 |- *. exact H2.
Defined.

(** ** What is not meant *)

(** A change of the tools is acknowledged and never told, since the filter of
    the resources applies to it. *)
Example acknowledged_and_not_told :
  In ("toolsListChanged", JBool true)%string (sub_acknowledged ann_subscription)
  /\ told ex_gateway ann ann_filter tools_changed = None.
Proof. split; [by left|vm_compute; reflexivity]. Qed.

(** The token is good for thirty days; the subscription ends at once. *)
Example long_tokens_end_at_once : timer_delay (default 0 (sub_expiry ann_subscription)) = 1.
Proof. reflexivity. Qed.

(** An approved tool that reports an error is recorded as executed here, and
    as failed by [handleToolCall]. *)
Example tool_errors_recorded_differently :
  map ApprovalRepository.status (w_table (snd (post_ls (after_asking [Ok (files_reply true)])))) = [Executed]
  /\ map ApprovalRepository.status (w_table (snd (run_call send_mail [Ok (files_reply true)]))) = [Failed].
Proof. vm_compute. split; reflexivity. Qed.

(** The resource a template stands for is found by no name. *)
Definition templated : ServerContext :=
  {| ctx_id := "7"; serverID := "files"; ctx_enabled := true; status := Online; allowUserInput := false; anonymousAccess := false; publicAccess := true;
     ctx_userId := None; capabilitiesConfig := None; ctx_tools := None; cachedTools := None; ctx_resources := Some []; cachedResources := None;
     ctx_templates := Some [{| uriTemplate := "file:///{name}"; template_name := "file" |}]; cachedTemplates := None; ctx_prompts := None; cachedPrompts := None |}.
Definition templated_gateway : Gateway :=
  {| gw_manager := {| serverContexts := [("files", templated)]; temporaryServers := [] |}; gw_schema := fun _ _ => JNull;
     gw_mimeType := fun _ _ => None; gw_capabilities := fun _ => subscribing |}%string.

Example templates_resolve_to_nothing :
  map uriTemplate (modern_listResourceTemplates templated_gateway ann) = ["file:///{name}_-_7"]%string
  /\ modern_resolveResourceUri templated_gateway ann "file:///a_-_7" = None.
Proof. split; reflexivity. Qed.
