(* ===== verification/ServerAdmin.v ===== *)
(** * Administering servers

    The handlers of [src/src/controllers/handlers/ServerHandler.ts], with the
    statements of [src/src/repositories/ServerRepository.ts] they run and
    [getOAuthProvider] of [src/src/utils/AuthUtils.ts].  A handler is a
    program over the calls it makes to the database, the server manager, the
    sessions, the encryption and the providers; whatever their types allow may
    come back.  Lines of the process's log are left out. *)
From Stdlib Require Import Ascii ZArith Lia.
From stdpp Require Import base strings list.
From S2P Require Import Prelude Json JsMap Access Effects ServerTypes CapabilityDiff AdminTypes.
Open Scope Z_scope.

(** ** Data *)

(** A row with the columns [ServerTypes] leaves out. *)
Record ServerRow : Type := { columns : Server; anonymousAccess : bool; anonymousRateLimit : Z }.

(** What is thrown: an [AdminError], or anything else. *)
Inductive sfailure : Type := Admin (e : AdminError) | Other (message : string).

Definition admin {A} (m : string) (c : AdminErrorCode) : result sfailure A := Throw (Admin {| admin_message := m; admin_code := c |}).
Definition invalid {A} (m : string) : result sfailure A := admin m INVALID_REQUEST.

Inductive ListKind : Type := ToolList | ResourceList | PromptList.

(** [ExchangeResult] *)
Record ExchangeResult : Type := {
  ex_accessToken : string;
  ex_refreshToken : option string;
  ex_expiresAt : option Z;
  ex_apiDomain : option string;
  ex_raw : json
}.

(** A context of the server manager is referred to by its number. *)
Inductive scall : Type -> Type :=
(* the table *)
| FindServer (sid : json) : scall (result sfailure (option ServerRow))
| FindByProxy (proxyId : json) : scall (result sfailure (list ServerRow))
| FindServers (where_ : list (string * json)) : scall (result sfailure (list ServerRow))
| CountServers : scall (result sfailure Z)
| CreateRow (data : list (string * json)) : scall (result sfailure ServerRow)
| UpdateRow (sid : json) (data : list (string * json)) : scall (result sfailure ServerRow)
| DeleteRow (sid : json) : scall (result sfailure unit)
| DeleteRowsByProxy (proxyId : json) : scall (result sfailure Z)
| RemoveServerFromAllUsers (sid : json) : scall (result sfailure unit)
(* the server manager and its contexts *)
| GetContext (sid : string) : scall (option nat)
| GetTemporaryServers (sid : string) : scall (list nat)
| GetOwnerToken : scall (result sfailure string)
| ContextStatus (c : nat) : scall ServerStatus
| ContextTemplate (c : nat) : scall (option string)
| ContextUser (c : nat) : scall (option string * option string)
| ContextChanged (c : nat) : scall Changes
| SetEntity (c : nat) (row : ServerRow) : scall unit
| ClearConnection (c : nat) (s : ServerStatus) : scall unit
| AddServer (row : ServerRow) (token : string) : scall (result sfailure nat)
| AddSleepingServer (row : ServerRow) : scall (option nat)
| RemoveServer (sid : string) : scall (result sfailure (option nat))
| CloseTemporaryServers (sid : string) : scall (result sfailure unit)
| ReconnectServer (row : ServerRow) (token : string) : scall (result sfailure unit)
| StartReconnect (row : ServerRow) (token : string) : scall unit
| StartReconnectTemporary (row : ServerRow) (user token : option string) : scall unit
| UpdateCapabilitiesConfig (sid capabilities : string) : scall (result sfailure Changes)
| ConnectAllServers (token : string) : scall (result sfailure (list string * list string))
(* sessions, users, request log *)
| SessionsUsing (sid : string) : scall (list string)
| NotifyPermissionChanged (sid : string) : scall unit
| SendListChanged (session : string) (k : ListKind) : scall unit
| LogAdmin (params : json) : scall unit
(* encryption, providers, clock *)
| Decrypt (data key : string) : scall (result sfailure string)
| Encrypt (data key : string) : scall (result sfailure json)
| Hash (s : string) : scall (result sfailure string)
| PetaExchange (body : json) : scall (result sfailure (bool * json))
| ExchangeCode (context : json) : scall (result sfailure ExchangeResult)
| FetchIntercomRegion (accessToken : string) : scall (result sfailure json)
| DateNow : scall Z.

Definition SProg (A : Type) : Type := prog scall (result sfailure A).
Definition ask {A} (e : scall (result sfailure A)) : SProg A := perform e.
Definition given {A} (r : result sfailure A) : SProg A := Ret r.
Definition fail_with {A} (r : result sfailure A) : SProg A := Ret r.

(** [if (!b) throw e] *)
Notation "'unless!' b 'throw' e 'in' k" := (if b : bool then k else Ret e)
  (at level 10, b at level 100, e at level 100, k at level 200) : peta_scope.

Definition sid_of (r : ServerRow) : string := serverId (columns r).
Definition TypeError_ : sfailure := Other "TypeError".
Definition plain {A} (r : result exn A) : result sfailure A := match r with Ok a => Ok a | Throw e => Throw (Other (message e)) end.

(** [const {...} = data]: the fields of nothing are not read. *)
Definition destructured (data : json) : result sfailure (string -> json) :=
  match data with JUndefined | JNull => Throw TypeError_ | _ => Ok (jfield_opt data) end.

Definition parsed_json (s : string) : result sfailure json := match JSON_parse s with Some v => Ok v | None => Throw (Other "SyntaxError") end.
Definition stringify (v : json) : string := default "undefined"%string (JSON_stringify v).

Definition is_blank (s : string) : bool := str_eqb (trim s) "".
Definition is_filled (v : json) : bool := match v with JStr s => negb (is_blank s) | _ => false end.
Definition is_structure (v : json) : bool := match v with JObj _ | JArr _ => true | _ => false end.

(** [v ?? w] *)
Definition nullish_or (v w : json) : json := match v with JUndefined | JNull => w | _ => v end.
Definition present (v : json) : bool := match v with JUndefined => false | _ => true end.

(** ** Categories and kinds of authentication *)

(** [v === ServerAuthType.a] *)
Definition is_auth (v : json) (a : ServerAuthType) : bool := bool_decide (v = JNum (auth_number a)).
Definition is_category (v : json) (c : ServerCategory) : bool := bool_decide (v = JNum (category_number c)).

Definition valid_category (v : json) : bool := match v with JNum n => (1 <=? n) && (n <=? 5) | _ => false end.
Definition valid_auth (v : json) : bool := match v with JNum n => (1 <=? n) && (n <=? 17) | _ => false end.
Definition valid_rate (v : json) : bool := match v with JNum n => (1 <=? n) && (n <=? 1000) | _ => false end.

Definition getOAuthProvider (v : json) : option string :=
  if existsb (is_auth v) [GoogleAuth; GoogleCalendarAuth; GmailAuth; GoogleDocsAuth; GoogleSheetsAuth; GoogleFormsAuth] then Some "google"%string
  else if is_auth v NotionAuth then Some "notion"%string
  else if is_auth v FigmaAuth then Some "figma"%string
  else if is_auth v GithubAuth then Some "github"%string
  else if is_auth v ZendeskAuth then Some "zendesk"%string
  else if is_auth v CanvasAuth then Some "canvas"%string
  else if is_auth v CanvaAuth then Some "canva"%string
  else if is_auth v PipedriveAuth then Some "pipedrive"%string
  else if is_auth v HubSpotAuth then Some "hubspot"%string
  else if is_auth v IntercomAuth then Some "intercom"%string
  else if is_auth v SlackAuth then Some "slack"%string
  else None.

(** ** Telling users *)

Fixpoint send_changes (changed : Changes) (sessions : list string) : prog scall unit :=
  match sessions with
  | [] => Ret tt
  | s :: sessions =>
      bind! t := (if toolsChanged changed then SendListChanged s ToolList !; Ret tt else Ret tt) in
      bind! r := (if resourcesChanged changed then SendListChanged s ResourceList !; Ret tt else Ret tt) in
      bind! p := (if promptsChanged changed then SendListChanged s PromptList !; Ret tt else Ret tt) in
      send_changes changed sessions
  end.

Definition notifyUsersOfServerChange (sid : string) (sessions : list string) (changed : Changes) : prog scall unit :=
  NotifyPermissionChanged sid !; send_changes changed sessions.

Definition notify_by_context (sid : string) (c : nat) (sessions : list string) : prog scall unit :=
  call! changed := ContextChanged c in notifyUsersOfServerChange sid sessions changed.

(** What changed with a context, nothing without one. *)
Definition changed_with (c : option nat) : prog scall Changes :=
  match c with
  | Some c => call! changed := ContextChanged c in Ret changed
  | None => Ret {| toolsChanged := false; resourcesChanged := false; promptsChanged := false |}
  end.

(** ** Capabilities *)

(** [old.tools = old.tools || {}] and its siblings. *)
Definition all_kinds (old : json) : result exn json :=
  try! t := jget old "tools" in try! a := jset old "tools" (object_or_empty t) in
  try! r := jget a "resources" in try! b := jset a "resources" (object_or_empty r) in
  try! p := jget b "prompts" in jset b "prompts" (object_or_empty p).

Fixpoint set_all (target : json) (entries : list (string * json)) : result exn json :=
  match entries with
  | [] => Ok target
  | (k, v) :: entries => try! t := jset target k v in set_all t entries
  end.

(** The entries of one kind put into the old ones; whether there were any. *)
Definition merge_entries (kind : string) (new old : json) : result exn (json * bool) :=
  try! entries := jget new kind in
  match own_keys entries with
  | [] => Ok (old, false)
  | _ =>
      try! o := jget old kind in
      try! merged := set_all o (spread entries) in
      try! old := jset old kind merged in
      Ok (old, true)
  end.

Definition merge_cache_policies (new old : json) : result exn (json * bool) :=
  try! n := jget new "resourceCachePolicies" in
  if js_truthy n then
    try! o := jget old "resourceCachePolicies" in
    try! old := jset old "resourceCachePolicies" (extend (object_or_empty o) (spread n)) in
    Ok (old, true)
  else Ok (old, false).

Definition merge_capabilities (new old : json) : result exn (json * bool) :=
  try! o := all_kinds old in
  try! t := merge_entries "tools" new o in
  try! r := merge_entries "resources" new (fst t) in
  try! p := merge_entries "prompts" new (fst r) in
  try! c := merge_cache_policies new (fst p) in
  Ok (fst c, snd t || snd r || snd p || snd c).

Definition getUpdatedCapabilities (newCapabilities : json) (oldCapabilities : string) : result sfailure (option string) :=
  if negb (js_truthy newCapabilities) then Ok None
  else
    let newText := match newCapabilities with JStr s => s | v => stringify v end in
    if str_eqb newText oldCapabilities then Ok None
    else
      match (match newCapabilities with JStr s => parsed_json s | v => Ok v end),
            (if str_eqb oldCapabilities "" then Ok (JObj []) else parsed_json oldCapabilities) with
      | Ok new, Ok old =>
          match plain (merge_capabilities new old) with
          | Ok (merged, changed) => Ok (if changed then Some (stringify merged) else None)
          | Throw e => Throw e
          end
      | Throw e, _ => Throw e
      | _, Throw e => Throw e
      end.

(** [updateServerCapabilities] *)
Definition updateServerCapabilities (targetId capabilities : string) : SProg unit :=
  await! row := ask (UpdateRow (JStr targetId) [("capabilities", JStr capabilities)]%string) in
  await! changed := ask (UpdateCapabilitiesConfig targetId capabilities) in
  call! sessions := SessionsUsing targetId in
  bind! u := notifyUsersOfServerChange targetId sessions changed in
  Ret (Ok tt).

(** ** Launch configurations *)

Definition editable (c : ServerCategory) : bool :=
  bool_decide (c = RestApi) || bool_decide (c = CustomRemote) || bool_decide (c = CustomStdio).

Definition not_found {A} (targetId : json) : result sfailure A := admin ("Server " +:+ js_String targetId +:+ " not found") SERVER_NOT_FOUND.

(** The same template in the row and, if there is one, in the context. *)
Definition template_kept (row : ServerRow) (c : option nat) : prog scall bool :=
  match c with
  | Some c => call! t := ContextTemplate c in Ret (bool_decide (configTemplate (columns row) = t))
  | None => Ret false
  end.

(** [updateServerLaunchConfig]: whether the server was reconnected. *)
Definition updateServerLaunchConfig (targetId launchConfig_ : json) (token : string) : SProg bool :=
  await! found := ask (FindServer targetId) in
  match found with
  | None => fail_with (not_found targetId)
  | Some row =>
      unless! negb (allowUserInput (columns row)) || editable (category (columns row))
        throw (invalid ("Server " +:+ js_String targetId +:+ " is a template server and cannot be updated")) in
      call! context := GetContext (sid_of row) in
      bind! kept := (if bool_decide (launchConfig_ = JStr (launchConfig (columns row)))
                     then (if bool_decide (category (columns row) = RestApi) then template_kept row context else Ret true)
                     else Ret false) in
      if kept then Ret (Ok false)
      else
        await! updated := ask (UpdateRow targetId [("launchConfig"%string, launchConfig_)]) in
        match context with
        | None => Ret (Ok false)
        | Some c =>
            await! u := ask (ReconnectServer updated token) in
            call! sessions := SessionsUsing (sid_of row) in
            bind! told := notify_by_context (sid_of row) c sessions in
            Ret (Ok true)
        end
  end.

(** ** Starting, stopping *)

Definition handleStartServer (data : json) (token : string) : SProg unit :=
  await! f := given (destructured data) in
  let targetId := f "targetId"%string in
  await! found := ask (FindServer targetId) in
  match found with
  | None => fail_with (not_found targetId)
  | Some _ =>
      await! row := ask (UpdateRow targetId [("enabled"%string, JBool true)]) in
      if allowUserInput (columns row) then
        call! contexts := GetTemporaryServers (sid_of row) in
        bind! u := fold_right (fun c k => SetEntity c row !; k) (Ret tt) contexts in
        call! sessions := SessionsUsing (sid_of row) in
        bind! told := notifyUsersOfServerChange (sid_of row) sessions all_changed in
        Ret (Ok tt)
      else
        unless! negb (is_blank (launchConfig (columns row)))
          throw (invalid ("Cannot start template server " +:+ js_String targetId +:+ ". Users must configure it first through client.")) in
        await! c := ask (AddServer row token) in
        call! changed := ContextChanged c in
        call! sessions := SessionsUsing (sid_of row) in
        bind! told := notifyUsersOfServerChange (sid_of row) sessions changed in
        Ret (Ok tt)
  end.

Definition stopServer (targetId : json) : SProg unit :=
  await! found := ask (FindServer targetId) in
  match found with
  | None => fail_with (not_found targetId)
  | Some row =>
      call! sessions := SessionsUsing (sid_of row) in
      await! changed :=
        (if allowUserInput (columns row) then
           await! u := ask (CloseTemporaryServers (sid_of row)) in Ret (Ok all_changed)
         else
           await! c := ask (RemoveServer (sid_of row)) in
           bind! changed := changed_with c in Ret (Ok changed)) in
      await! u := ask (UpdateRow targetId [("enabled"%string, JBool false)]) in
      bind! told := notifyUsersOfServerChange (sid_of row) sessions changed in
      Ret (Ok tt)
  end.

Definition handleStopServer (data : json) : SProg unit :=
  await! f := given (destructured data) in stopServer (f "targetId"%string).

Definition handleUpdateServerCapabilities (data : json) : SProg unit :=
  await! f := given (destructured data) in
  let targetId := f "targetId"%string in
  await! found := ask (FindServer targetId) in
  match found with
  | None => fail_with (not_found targetId)
  | Some row =>
      await! updated := given (getUpdatedCapabilities (f "capabilities"%string) (configured_capabilities (columns row))) in
      match updated with
      | None => Ret (Ok tt)
      | Some capabilities =>
          await! u := updateServerCapabilities (sid_of row) capabilities in
          LogAdmin (JObj [("targetId", targetId); ("capabilities", f "capabilities")])%string !; Ret (Ok tt)
      end
  end.

Definition handleUpdateServerLaunchCmd (data : json) (token : string) : SProg unit :=
  await! f := given (destructured data) in
  await! u := updateServerLaunchConfig (f "targetId"%string) (f "launchConfig"%string) token in
  LogAdmin (JObj [("targetId", f "targetId")])%string !; Ret (Ok tt).

Fixpoint notify_started (servers : list string) : prog scall unit :=
  match servers with
  | [] => Ret tt
  | s :: servers =>
      call! c := GetContext s in
      call! sessions := SessionsUsing s in
      bind! changed := changed_with c in
      bind! told := notifyUsersOfServerChange s sessions changed in
      notify_started servers
  end.

Definition handleConnectAllServers (token : string) : SProg (list string * list string) :=
  await! r := ask (ConnectAllServers token) in
  bind! told := notify_started (fst r) in
  Ret (Ok r).

(** ** Templates *)

Definition is_plain_object (v : json) : bool := match v with JObj _ => true | _ => false end.

Definition restapi_template_ok (v : json) : bool :=
  match v with
  | JStr s => match JSON_parse s with
              | Some t => is_plain_object t && match jfield_opt t "apis" with JArr (first :: _) => is_plain_object first | _ => false end
              | None => false
              end
  | _ => false
  end.

Definition validateRestApiConfigTemplate (v : json) : result sfailure unit :=
  if restapi_template_ok v then Ok tt
  else invalid "Invalid RestApi configTemplate: expected a JSON object with a non-empty apis array whose first item is an object".

(** A blank text or [{}]. *)
Definition is_empty_text (v : json) : bool := match v with JStr s => is_blank s || str_eqb (trim s) "{}" | _ => true end.

Definition is_key_char (c : ascii) : bool :=
  let n := nat_of_ascii c in ((65 <=? n) && (n <=? 90) || (48 <=? n) && (n <=? 57) || (n =? 95))%nat.

(** [/YOUR_[A-Z0-9_]+/] *)
Fixpoint containsOAuthPlaceholder (s : string) : bool :=
  match s with
  | EmptyString => false
  | String _ s' =>
      (starts_with "YOUR_" s && match str_drop 5 s with String c _ => is_key_char c | EmptyString => false end)
      || containsOAuthPlaceholder s'
  end.

(** ** Exchanging an authorization code *)

(** The thrown value, unless it is an [AdminError]. *)
Definition exchange_failed : sfailure := Admin {| admin_message := "Failed to exchange OAuth code"; admin_code := INVALID_REQUEST |}.
Definition rethrown {A} (p : SProg A) : SProg A :=
  bind! r := p in Ret (match r with Throw (Other _) => Throw exchange_failed | r => r end).

(** What is exchanged: by whom, with which code. *)
Record Authorization : Type := {
  au_authType : json;
  au_provider : string;
  au_clientId : json;
  au_code : json;
  au_redirectUri : json;
  au_codeVerifier : json;
  au_tokenUrl : json;
  au_scope : json
}.

Definition for_zendesk (a : Authorization) : json := if is_auth (au_authType a) ZendeskAuth then au_scope a else JUndefined.
Definition needs_tokenUrl (a : Authorization) : bool := str_eqb (au_provider a) "zendesk" || str_eqb (au_provider a) "canvas".

(** The second half of the token, the id of the server and whether it takes
    users' input. *)
Definition exchange_key (token : string) (sid : json) (allowUserInput_ : bool) : string :=
  str_drop ((String.length token + 1) / 2) token +:+ js_String sid +:+ (if allowUserInput_ then "true" else "false").

(** With Peta's own client. *)
Definition peta_oauth (a : Authorization) (hashKey : string) : SProg json :=
  unless! negb (needs_tokenUrl a) || js_truthy (au_tokenUrl a) throw (invalid "Missing OAuth tokenUrl") in
  rethrown (
    await! response := ask (PetaExchange (JObj
      ([("clientId", au_clientId a); ("provider", JStr (au_provider a)); ("key", JStr hashKey); ("code", au_code a);
        ("redirectUri", au_redirectUri a); ("codeVerifier", au_codeVerifier a); ("scope", for_zendesk a)]%string
       ++ (if needs_tokenUrl a then [("tokenUrl"%string, au_tokenUrl a)] else [])))) in
    let answer := snd response in
    unless! fst response && js_truthy (jfield_opt answer "accessToken") && js_truthy (jfield_opt answer "expiresAt") throw (Throw exchange_failed) in
    Ret (Ok (JObj [("clientId", au_clientId a); ("key", JStr hashKey); ("accessToken", jfield_opt answer "accessToken");
                   ("expiresAt", jfield_opt answer "expiresAt")]%string))).

Definition INTERCOM_FAKE_REFRESH_TOKEN : string := "__INTERCOM_NO_REFRESH_TOKEN__".

Definition field_if (b : bool) (k : string) (v : json) : list (string * json) := if b then [(k, v)] else [].

Definition SLACK_TOKEN_ROTATION_REQUIRED_MESSAGE : string :=
  "Slack OAuth requires Token Rotation. Enable Token Rotation in Slack OAuth settings.".

(** The parts of the stored configuration that depend on the provider. *)
Definition provider_fields (a : Authorization) (r : ExchangeResult) (scope : list (string * json)) (region : json) (refreshEnds : option Z)
    : list (string * json) :=
  let for_ := is_auth (au_authType a) in
  field_if (for_ SlackAuth) "tokenMode" (JStr "user")
  ++ field_if (for_ IntercomAuth) "intercomRegion" region
  ++ field_if (for_ PipedriveAuth) "apiDomain" (JStr (default ""%string (ex_apiDomain r)))
  ++ field_if (for_ ZendeskAuth) "tokenUrl" (au_tokenUrl a)
  ++ (if for_ ZendeskAuth then scope else [])
  ++ match refreshEnds with Some t => [("refreshTokenExpiresAt"%string, JNum t)] | None => [] end.

(** The seconds a refresh token of Zendesk's lives, if told. *)
Definition refresh_lifetime (a : Authorization) (r : ExchangeResult) : option Z :=
  match jfield_opt (ex_raw r) "refresh_token_expires_in" with
  | JNum n => if is_auth (au_authType a) ZendeskAuth && negb (n =? 0) then Some n else None
  | _ => None
  end.

(** With a client of the owner's own; [base]: what is kept of the old
    configuration, [scope]: what is stored of it. *)
Definition custom_oauth (a : Authorization) (clientSecret : json) (base scope : list (string * json)) : SProg json :=
  let for_ := is_auth (au_authType a) in
  rethrown (
    await! r := ask (ExchangeCode (JObj
      [("provider", JStr (au_provider a)); ("tokenUrl", au_tokenUrl a); ("clientId", au_clientId a); ("clientSecret", clientSecret);
       ("code", au_code a); ("redirectUri", au_redirectUri a); ("codeVerifier", au_codeVerifier a); ("scope", for_zendesk a);
       ("tokenMode", if for_ SlackAuth then JStr "user" else JUndefined)]%string)) in
    let refreshed := truthy_ostr (ex_refreshToken r) in
    unless! negb (for_ SlackAuth) || refreshed throw (invalid SLACK_TOKEN_ROTATION_REQUIRED_MESSAGE) in
    unless! truthy_str (ex_accessToken r) && (refreshed || for_ IntercomAuth) throw (Throw exchange_failed) in
    let refreshToken := if refreshed then default ""%string (ex_refreshToken r) else INTERCOM_FAKE_REFRESH_TOKEN in
    bind! expiresAt := (match ex_expiresAt r with Some t => Ret t | None => call! now := DateNow in Ret (now + 30 * 24 * 60 * 60 * 1000) end) in
    await! region := (if for_ IntercomAuth then ask (FetchIntercomRegion (ex_accessToken r)) else Ret (Ok JUndefined)) in
    unless! negb (for_ PipedriveAuth) || truthy_ostr (ex_apiDomain r) throw (invalid "Pipedrive OAuth response missing api_domain") in
    bind! refreshEnds := (match refresh_lifetime a r with Some n => call! now := DateNow in Ret (Some (now + n * 1000)) | None => Ret None end) in
    Ret (Ok (extend (JObj base)
      ([("clientId", au_clientId a); ("clientSecret", clientSecret); ("accessToken", JStr (ex_accessToken r)); ("refreshToken", JStr refreshToken);
        ("expiresAt", JNum expiresAt)]%string
       ++ provider_fields a r scope region refreshEnds)))).

(** ** Creating *)

(** [s.trim()] of a text *)
Definition trimmed (v : json) : result sfailure string := match v with JStr s => Ok (trim s) | _ => Throw TypeError_ end.

(** [!v || v.trim() === ''] *)
Definition is_missing (v : json) : result sfailure bool :=
  if negb (js_truthy v) then Ok true else match trimmed v with Ok t => Ok (str_eqb t "") | Throw e => Throw e end.

Definition set_field (v : json) (k : string) (x : json) : result sfailure json := plain (jset v k x).
Definition read_field (v : json) (k : string) : result sfailure json := plain (jget v k).

Definition put_oauth (launch oauth : json) : result sfailure json := set_field launch "oauth" oauth.

(** [JSON.stringify(await encryptData(JSON.stringify(v), key))] *)
Definition encrypted_text (text key : string) : SProg json :=
  await! e := ask (Encrypt text key) in Ret (Ok (JStr (stringify e))).

Section Create.
Variable jwt_secret : option string.
Variable data : string -> json.
Variable token : string.

(** What the row will hold: whether Peta's client is used, the template, the
    launch configuration. *)
Record Prepared : Type := { pr_usePeta : bool; pr_template : json; pr_launch : json }.

(** A server the owner authenticates. *)
Definition owner_flow (launch oauth oauthConfig : json) (provider : string) : SProg Prepared :=
  let authType := data "authType"%string in
  let a := {| au_authType := authType; au_provider := provider; au_clientId := jfield_opt oauth "clientId"; au_code := jfield_opt oauth "code";
              au_redirectUri := jfield_opt oauth "redirectUri"; au_codeVerifier := jfield_opt oauth "codeVerifier";
              au_tokenUrl := jfield_opt oauthConfig "tokenUrl"; au_scope := jfield_opt oauthConfig "scope" |} in
  unless! js_truthy (au_code a) throw (invalid "Invalid OAuth code") in
  let usePeta := negb (is_auth authType IntercomAuth) && negb (is_auth authType SlackAuth)
                 && bool_decide (au_clientId a = jfield_opt oauthConfig "clientId") in
  await! newOauth :=
    (if usePeta then
       await! hashKey := ask (Hash (exchange_key token (data "serverId"%string) false)) in
       peta_oauth a hashKey
     else
       let clientSecret := jfield_opt oauth "clientSecret" in
       await! missing := given (is_missing clientSecret) in
       unless! negb missing throw (invalid "Invalid OAuth client secret") in
       custom_oauth a clientSecret [] [("scope"%string, au_scope a)]) in
  rethrown (
    await! launch := given (put_oauth launch newOauth) in
    await! text := encrypted_text (stringify launch) token in
    Ret (Ok {| pr_usePeta := usePeta; pr_template := nullish_or (data "configTemplate"%string) JNull; pr_launch := text |})).

(** A server every user authenticates. *)
Definition user_flow (decrypted : string) (template oauth oauthConfig : json) : SProg Prepared :=
  let authType := data "authType"%string in
  let own := is_auth authType IntercomAuth || is_auth authType SlackAuth
             || negb (bool_decide (jfield_opt oauth "clientId" = jfield_opt oauthConfig "userClientId")) in
  await! missing := (if own then given (is_missing (jfield_opt oauth "clientSecret")) else Ret (Ok false)) in
  unless! negb missing throw (invalid "Invalid OAuth client secret") in
  match jwt_secret with
  | None | Some EmptyString => fail_with (invalid "JWT_SECRET environment variable is required")
  | Some key =>
      await! text := encrypted_text decrypted key in
      await! redirect := given (trimmed (nullish_or (jfield_opt oauth "redirectUri") (JStr ""))) in
      await! config := given (set_field oauthConfig "deskClientId" (jfield_opt oauth "clientId")) in
      await! config := given (if starts_with "http" redirect then set_field config "redirectUri" (JStr redirect)
                              else plain (jdelete config "redirectUri")) in
      await! template := given (set_field template "oAuthConfig" config) in
      Ret (Ok {| pr_usePeta := negb own; pr_template := JStr (stringify template); pr_launch := text |})
  end.

Definition prepare_row (category : json) (allowUserInput_ : bool) : SProg Prepared :=
  let asIs := {| pr_usePeta := true; pr_template := nullish_or (data "configTemplate"%string) JNull; pr_launch := data "launchConfig"%string |} in
  if negb (is_category category Template) then Ret (Ok asIs)
  else
    await! template := given (parsed_json (match data "configTemplate"%string with JStr s => s | _ => "{}" end)) in
    await! oauthConfig := given (read_field template "oAuthConfig") in
    if negb (js_truthy oauthConfig && is_filled (jfield_opt oauthConfig "clientId")) then Ret (Ok asIs)
    else
      await! decrypted := ask (Decrypt (match data "launchConfig"%string with JStr s => s | _ => "" end) token) in
      await! launch := given (parsed_json decrypted) in
      await! oauth := given (read_field launch "oauth") in
      await! clientId := given (read_field oauth "clientId") in
      await! missing := given (is_missing clientId) in
      unless! negb missing throw (invalid "Missing required field: clientId") in
      match getOAuthProvider (data "authType"%string) with
      | None => fail_with (invalid "Invalid OAuth provider")
      | Some provider =>
          if allowUserInput_ then user_flow decrypted template oauth oauthConfig else owner_flow launch oauth oauthConfig provider
      end.

(** The checks of the request. *)
Definition create_checks (category : json) : result sfailure bool :=
  let allowUserInput_ := nullish_or (data "allowUserInput"%string) (JBool false) in
  if is_empty_text (data "launchConfig"%string) then invalid "launchConfig must be a string and cannot be empty"
  else if negb (valid_auth (nullish_or (data "authType"%string) (JNum (auth_number ApiKey)))) then invalid "Invalid authType"
  else match allowUserInput_ with
       | JBool input =>
           if negb (valid_category category) then invalid "Invalid category"
           else if present (data "anonymousRateLimit"%string) && negb (valid_rate (data "anonymousRateLimit"%string))
           then invalid "Invalid anonymousRateLimit: must be an integer between 1 and 1000 (per-source-IP, per-minute)"
           else if (input || is_category category Template || is_category category RestApi || is_category category Skills)
                   && is_empty_text (data "configTemplate"%string)
           then invalid "configTemplate is required for this server"
           else if is_category category RestApi
           then match validateRestApiConfigTemplate (data "configTemplate"%string) with Ok _ => Ok input | Throw e => Throw e end
           else Ok input
       | _ => invalid "Invalid allowUserInput"
       end.

Definition server_row_data (category : json) (input : bool) (p : Prepared) (created updated : Z) : list (string * json) :=
  let d k w := nullish_or (data k) w in
  [("serverId", data "serverId"); ("serverName", d "serverName" (JStr "")); ("enabled", d "enabled" (JBool true)); ("launchConfig", pr_launch p);
   ("capabilities", JStr (stringify (JObj [("tools", JObj []); ("resources", JObj []); ("prompts", JObj [])])));
   ("createdAt", d "createdAt" (JNum (created / 1000))); ("updatedAt", d "updatedAt" (JNum (updated / 1000)));
   ("allowUserInput", JBool input); ("proxyId", d "proxyId" (JNum 0)); ("toolTmplId", d "toolTmplId" JNull);
   ("authType", d "authType" (JNum (auth_number ApiKey))); ("configTemplate", pr_template p); ("category", category);
   ("lazyStartEnabled", data "lazyStartEnabled"); ("publicAccess", d "publicAccess" (JBool false)); ("usePetaOauthConfig", JBool (pr_usePeta p));
   ("anonymousAccess", d "anonymousAccess" (JBool false)); ("anonymousRateLimit", d "anonymousRateLimit" (JNum 10))]%string.

Definition create_server : SProg ServerRow :=
  unless! js_truthy (data "serverId"%string) throw (invalid "Missing required field: serverId") in
  await! existing := ask (FindServer (data "serverId"%string)) in
  match existing with
  | Some _ => fail_with (admin "Server already exists" SERVER_ALREADY_EXISTS)
  | None =>
      let category := data "category"%string in
      await! input := given (create_checks category) in
      await! p := prepare_row category input in
      call! created := DateNow in
      call! updated := DateNow in
      await! row := ask (CreateRow (server_row_data category input p created updated)) in
      LogAdmin (JObj [("serverId", data "serverId"); ("authType", data "authType")])%string !;
      Ret (Ok row)
  end.
End Create.

Definition handleCreateServer (jwt_secret : option string) (data : json) (token : string) : SProg ServerRow :=
  await! f := given (destructured data) in create_server jwt_secret f token.

(** ** Updating *)

(** [v !== undefined && v !== old] *)
Definition differs (v old : json) : bool := present v && negb (bool_decide (v = old)).

Definition rate_error {A} : result sfailure A :=
  invalid "Invalid anonymousRateLimit: must be an integer between 1 and 1000 (per-source-IP, per-minute)".

(** The text a launch configuration is stored as. *)
Definition launch_text (v : json) : string := match v with JStr s => s | v => stringify v end.

Definition template_update (row : ServerRow) (v : json) : result sfailure (list (string * json)) :=
  let c := columns row in
  match v with
  | JUndefined | JNull => Ok []
  | _ => if editable (category c)
         then match trimmed v with
              | Throw e => Throw e
              | Ok t => Ok (field_if (negb (str_eqb t "") && negb (bool_decide (configTemplate c = Some t))) "configTemplate" v)
              end
         else Ok []
  end.

(** The checks of the request, and what is to be written. *)
Definition update_data (row : ServerRow) (f : string -> json) : result sfailure (list (string * json)) :=
  let c := columns row in
  let launch := f "launchConfig"%string in
  if differs (f "allowUserInput"%string) (JBool (allowUserInput c)) then invalid "allowUserInput field is immutable after server creation"
  else if negb (editable (category c)) && present (f "configTemplate"%string) then invalid "configTemplate field is immutable after server creation"
  else if bool_decide (category c = RestApi) && present (f "configTemplate"%string) && negb (restapi_template_ok (f "configTemplate"%string))
  then match validateRestApiConfigTemplate (f "configTemplate"%string) with Ok _ => Ok [] | Throw e => Throw e end
  else if present launch && negb (str_eqb (launch_text launch) (launchConfig c)) && allowUserInput c && negb (editable (category c))
  then invalid "This type of server does not allow modification of the launch configuration."
  else match template_update row (f "configTemplate"%string) with
       | Throw e => Throw e
       | Ok template =>
           if present (f "anonymousRateLimit"%string) && negb (valid_rate (f "anonymousRateLimit"%string)) then rate_error
           else match getUpdatedCapabilities (f "capabilities"%string) (configured_capabilities c) with
                | Throw e => Throw e
                | Ok capabilities =>
                    let flag k old := field_if (differs (f k) old) k (f k) in
                    Ok (field_if (present (f "serverName"%string)) "serverName" (f "serverName"%string)
                        ++ field_if (present launch) "launchConfig" (JStr (launch_text launch))
                        ++ template
                        ++ flag "lazyStartEnabled"%string (JBool (lazyStartEnabled c))
                        ++ flag "publicAccess"%string (JBool (publicAccess c))
                        ++ flag "anonymousAccess"%string (JBool (anonymousAccess row))
                        ++ flag "anonymousRateLimit"%string (JNum (anonymousRateLimit row))
                        ++ match capabilities with Some t => [("capabilities"%string, JStr t)] | None => [] end
                        ++ [("enabled"%string, nullish_or (f "enabled"%string) (JBool (enabled c)))])
                end
       end.

(** *** Lazy start *)

Definition up (s : ServerStatus) : bool := bool_decide (s = Online) || bool_decide (s = Connecting).

(** Put to sleep unless it is up; the code says it twice. *)
Definition to_sleep (c : nat) : prog scall unit :=
  call! s := ContextStatus c in if up s then Ret tt else ClearConnection c Sleeping !; Ret tt.

Definition wakes (lazy : json) (old : bool) : bool := bool_decide (lazy = JBool false) && old.
Definition sleeps (lazy : json) (old : bool) : bool := bool_decide (lazy = JBool true) && negb old.

Definition update_temporary (row : ServerRow) (lazy : json) (old : bool) (c : nat) : SProg unit :=
  SetEntity c row !;
  await! woken :=
    (if wakes lazy old then
       call! s := ContextStatus c in
       if bool_decide (s = Sleeping) then
         await! owner := ask GetOwnerToken in
         if truthy_str owner then call! u := ContextUser c in StartReconnectTemporary row (fst u) (snd u) !; Ret (Ok tt) else Ret (Ok tt)
       else Ret (Ok tt)
     else Ret (Ok tt)) in
  if sleeps lazy old then bind! first := to_sleep c in bind! second := to_sleep c in Ret (Ok tt) else Ret (Ok tt).

Definition update_permanent (row : ServerRow) (lazy : json) (old : bool) (c : nat) : SProg unit :=
  SetEntity c row !;
  await! woken :=
    (if wakes lazy old then
       call! s := ContextStatus c in
       if bool_decide (s = Sleeping) then
         await! owner := ask GetOwnerToken in
         if truthy_str owner then await! again := ask GetOwnerToken in StartReconnect row again !; Ret (Ok tt) else Ret (Ok tt)
       else Ret (Ok tt)
     else Ret (Ok tt)) in
  if sleeps lazy old then bind! first := to_sleep c in bind! second := to_sleep c in Ret (Ok tt) else Ret (Ok tt).

Fixpoint each_context (f : nat -> prog scall unit) (l : list nat) : prog scall unit :=
  match l with [] => Ret tt | c :: l => bind! u := f c in each_context f l end.

(** Up to the first that throws. *)
Fixpoint try_each_context (f : nat -> SProg unit) (l : list nat) : SProg unit :=
  match l with [] => Ret (Ok tt) | c :: l => await! u := f c in try_each_context f l end.

(** [lazy]: present and different from the old one. *)
Definition updateLazyStartEnabled (existing new : ServerRow) (lazy : json) : SProg (option nat) :=
  let old := lazyStartEnabled (columns existing) in
  if negb (differs lazy (JBool old)) then Ret (Ok None)
  else if allowUserInput (columns existing) then
    call! contexts := GetTemporaryServers (sid_of existing) in
    await! u := try_each_context (update_temporary new lazy old) contexts in
    Ret (Ok None)
  else
    call! context := GetContext (sid_of existing) in
    match context with
    | Some c => await! u := update_permanent new lazy old c in Ret (Ok None)
    | None => if sleeps lazy old then call! c := AddSleepingServer new in Ret (Ok c) else Ret (Ok None)
    end.

(** *** What an update does to the running server *)

Definition write (data : list (string * json)) (k : string) : json := default JUndefined (assoc k data).

(** The server stays enabled. *)
Definition refresh_running (existing new : ServerRow) (data : list (string * json)) (token : string) : SProg (bool * option nat) :=
  let sid := sid_of existing in
  let lazy := write data "lazyStartEnabled" in
  match write data "capabilities", write data "launchConfig" with
  | JStr capabilities, JUndefined =>
      await! u := updateServerCapabilities sid capabilities in
      await! c := updateLazyStartEnabled existing new lazy in Ret (Ok (false, c))
  | _, JUndefined => await! c := updateLazyStartEnabled existing new lazy in Ret (Ok (false, c))
  | _, launch => await! reconnected := updateServerLaunchConfig (JStr sid) launch token in Ret (Ok (reconnected, None))
  end.

Definition set_entities (reconnected : bool) (row : ServerRow) (l : list nat) : prog scall unit :=
  each_context (fun c => if reconnected then Ret tt else SetEntity c row !; Ret tt) l.

Definition stays_enabled (existing new : ServerRow) (data : list (string * json)) (token : string) (public_changes : bool) : SProg (bool * option nat) :=
  let sid := sid_of existing in
  await! r := refresh_running existing new data token in
  let '(reconnected, lazy_context) := r in
  if allowUserInput (columns existing) then
    call! contexts := GetTemporaryServers sid in
    bind! u := set_entities reconnected new contexts in
    Ret (Ok (reconnected, if public_changes then match rev contexts with c :: _ => Some c | [] => lazy_context end else lazy_context))
  else
    call! context := GetContext sid in
    bind! u := set_entities reconnected new (match context with Some c => [c] | None => [] end) in
    Ret (Ok (reconnected, context)).

Definition gets_disabled (existing : ServerRow) : SProg (option nat) :=
  let sid := sid_of existing in
  if allowUserInput (columns existing) then
    call! contexts := GetTemporaryServers sid in
    await! u := ask (CloseTemporaryServers sid) in
    Ret (Ok (match contexts with c :: _ => Some c | [] => None end))
  else ask (RemoveServer sid).

(** What is told of the row. *)
Definition shown (row : ServerRow) : ServerRow :=
  let c := columns row in
  {| columns := {| serverId := serverId c; serverName := serverName c; enabled := enabled c; launchConfig := launchConfig c;
       configured_capabilities := configured_capabilities c; allowUserInput := allowUserInput c; publicAccess := publicAccess c;
       authType := authType c; category := category c;
       configTemplate := if bool_decide (category c = RestApi) then configTemplate c else None;
       transportType := None; lazyStartEnabled := lazyStartEnabled c; usePetaOauthConfig := usePetaOauthConfig c; proxyId := proxyId c;
       row_cachedTools := None; row_cachedResources := None; row_cachedResourceTemplates := None; row_cachedPrompts := None |};
     anonymousAccess := anonymousAccess row; anonymousRateLimit := anonymousRateLimit row |}.

Definition update_running (existing new : ServerRow) (data : list (string * json)) (token : string) (public_changes : bool) : SProg (bool * option nat) :=
  match enabled (columns existing), write data "enabled" with
  | true, JBool true => stays_enabled existing new data token public_changes
  | true, JBool false => await! c := gets_disabled existing in Ret (Ok (false, c))
  | false, JBool true => await! c := ask (AddServer new token) in Ret (Ok (false, Some c))
  | _, _ => Ret (Ok (false, None))
  end.

Definition handleUpdateServer (data : json) (token : string) : SProg ServerRow :=
  await! f := given (destructured data) in
  let sid := f "serverId"%string in
  unless! js_truthy sid throw (invalid "Missing required field: serverId") in
  await! found := ask (FindServer sid) in
  match found with
  | None => fail_with (admin "Server not found" SERVER_NOT_FOUND)
  | Some existing =>
      await! changes := given (update_data existing f) in
      await! new := ask (UpdateRow sid changes) in
      call! sessions := SessionsUsing (sid_of existing) in
      await! r := update_running existing new changes token (differs (f "publicAccess"%string) (JBool (publicAccess (columns existing)))) in
      await! refreshed := (if fst r then ask (FindServer sid) else Ret (Ok None)) in
      bind! told := (match snd r with Some c => notify_by_context (sid_of existing) c sessions | None => Ret tt end) in
      LogAdmin (JObj [("serverId", sid)])%string !;
      Ret (Ok (shown (default new refreshed)))
  end.

(** ** Deleting, listing *)

Definition handleDeleteServer (data : json) : SProg unit :=
  await! f := given (destructured data) in
  let sid := f "serverId"%string in
  unless! js_truthy sid throw (invalid "Missing required field: serverId") in
  await! found := ask (FindServer sid) in
  match found with
  | None => fail_with (admin "Server not found" SERVER_NOT_FOUND)
  | Some row =>
      await! cleaned := (if allowUserInput (columns row) then
                           await! u := ask (CloseTemporaryServers (sid_of row)) in ask (RemoveServerFromAllUsers sid)
                         else Ret (Ok tt)) in
      call! sessions := SessionsUsing (sid_of row) in
      await! deleted := ask (DeleteRow sid) in
      LogAdmin (JObj [("serverId", sid)])%string !;
      await! changed := (if allowUserInput (columns row) then Ret (Ok all_changed)
                         else await! c := ask (RemoveServer (sid_of row)) in bind! changed := changed_with c in Ret (Ok changed)) in
      bind! told := notifyUsersOfServerChange (sid_of row) sessions changed in
      Ret (Ok tt)
  end.

Fixpoint remove_servers (rows : list ServerRow) : SProg unit :=
  match rows with
  | [] => Ret (Ok tt)
  | row :: rows =>
      call! sessions := SessionsUsing (sid_of row) in
      await! c := ask (RemoveServer (sid_of row)) in
      await! told :=
        (match c with
         | Some c => bind! t := notify_by_context (sid_of row) c sessions in Ret (Ok tt)
         | None => if allowUserInput (columns row) then
                     await! u := ask (CloseTemporaryServers (sid_of row)) in
                     bind! t := notifyUsersOfServerChange (sid_of row) sessions all_changed in Ret (Ok tt)
                   else Ret (Ok tt)
         end) in
      remove_servers rows
  end.

Definition handleDeleteServersByProxy (data : json) : SProg Z :=
  await! f := given (destructured data) in
  let proxy := f "proxyId"%string in
  unless! present proxy throw (invalid "Missing required field: proxyId") in
  await! rows := ask (FindByProxy proxy) in
  await! removed := remove_servers rows in
  ask (DeleteRowsByProxy proxy).

Definition handleCountServers : SProg Z := ask CountServers.

(** A listed row: the caches are not selected, templates' templates are kept
    back. *)
Definition listed (row : ServerRow) : ServerRow :=
  let c := columns row in
  {| columns := {| serverId := serverId c; serverName := serverName c; enabled := enabled c; launchConfig := launchConfig c;
       configured_capabilities := configured_capabilities c; allowUserInput := allowUserInput c; publicAccess := publicAccess c;
       authType := authType c; category := category c;
       configTemplate := if bool_decide (category c = Template) then None else configTemplate c;
       transportType := transportType c; lazyStartEnabled := lazyStartEnabled c; usePetaOauthConfig := usePetaOauthConfig c; proxyId := proxyId c;
       row_cachedTools := None; row_cachedResources := None; row_cachedResourceTemplates := None; row_cachedPrompts := None |};
     anonymousAccess := anonymousAccess row; anonymousRateLimit := anonymousRateLimit row |}.

(** [data || {}] *)
Definition handleGetServers (data : json) : SProg (list ServerRow) :=
  let f := jfield_opt data in
  if js_truthy (f "serverId"%string) then
    await! found := ask (FindServer (f "serverId"%string)) in
    Ret (Ok (match found with Some row => [listed row] | None => [] end))
  else
    await! rows := ask (FindServers (field_if (present (f "proxyId"%string)) "proxyId" (f "proxyId"%string)
                                     ++ field_if (present (f "enabled"%string)) "enabled" (f "enabled"%string))) in
    Ret (Ok (map listed rows)).

(** ** Authorizing again *)

(** [ServerOAuthReauthConfig] *)
Record ReauthConfig : Type := {
  rc_authorizationUrl : string;
  rc_tokenUrl : string;
  rc_responseType : string;
  rc_scopes : option string;
  rc_extraParams : option json;
  rc_applyUrl : option string;
  rc_pkce : option json
}.

Record ReauthContext : Type := {
  rx_usesPeta : bool;
  rx_clientId : option string;
  rx_oAuthConfig : option ReauthConfig;
  rx_available : bool;
  rx_missingFields : list string
}.

Definition text_or_empty (v : json) : string := match v with JStr s => s | _ => "" end.
Definition text_given (v : json) : option string := match v with JStr s => Some s | _ => None end.
Definition filled_text (v : json) : option string := match v with JStr s => if is_blank s then None else Some s | _ => None end.
Definition object_given (v : json) : option json := if is_structure v then Some v else None.

Definition getOAuthScope (config : json) : option string :=
  match filled_text (jfield_opt config "scope") with Some s => Some s | None => filled_text (jfield_opt config "scopes") end.

Definition serializeServerOAuthReauthConfig (raw : json) : ReauthConfig :=
  {| rc_authorizationUrl := text_or_empty (jfield_opt raw "authorizationUrl"); rc_tokenUrl := text_or_empty (jfield_opt raw "tokenUrl");
     rc_responseType := text_or_empty (jfield_opt raw "responseType"); rc_scopes := getOAuthScope raw;
     rc_extraParams := object_given (jfield_opt raw "extraParams"); rc_applyUrl := text_given (jfield_opt raw "applyUrl");
     rc_pkce := object_given (jfield_opt raw "pkce") |}.

(** What the configuration lacks. *)
Definition missing_of_config (c : option ReauthConfig) : list string :=
  match c with
  | None => ["oAuthConfig"%string]
  | Some c =>
      (if str_eqb (rc_authorizationUrl c) "" || containsOAuthPlaceholder (rc_authorizationUrl c) then ["authorizationUrl"%string] else [])
      ++ (if str_eqb (rc_tokenUrl c) "" || containsOAuthPlaceholder (rc_tokenUrl c) then ["tokenUrl"%string] else [])
      ++ (if is_blank (rc_responseType c) then ["responseType"%string] else [])
  end.

(** The owner's own client, and what is missing of it. *)
Definition custom_client (launch : result sfailure json) : option string * list string :=
  match launch with
  | Throw _ => (None, ["launchConfig.oauth"]%string)
  | Ok v =>
      let oauth := jfield_opt v "oauth" in
      if is_structure oauth then
        let id := filled_text (jfield_opt oauth "clientId") in
        (id, (match id with Some _ => [] | None => ["clientId"]%string end)
             ++ (match filled_text (jfield_opt oauth "clientSecret") with Some _ => [] | None => ["clientSecret"]%string end))
      else (None, ["launchConfig.oauth"]%string)
  end.

Definition missing_of_row (row : ServerRow) : list string :=
  let c := columns row in
  (if bool_decide (category c = Template) then [] else ["category"%string]) ++ (if allowUserInput c then ["allowUserInput"%string] else [])
  ++ (if bool_decide (authType c = ApiKey) then ["authType"%string] else []).

(** [parsedConfigTemplate?.oAuthConfig] *)
Definition raw_oauth_config (row : ServerRow) : json :=
  match configTemplate (columns row) with
  | Some t => if is_blank t then JUndefined else match JSON_parse t with Some v => jfield_opt v "oAuthConfig" | None => JUndefined end
  | None => JUndefined
  end.

(** Each once, in order. *)
Fixpoint distinct (l : list string) : list string :=
  match l with [] => [] | s :: l => s :: List.filter (fun t => negb (str_eqb t s)) (distinct l) end.

Definition buildServerOAuthReauthContext (row : ServerRow) (token : string) : prog scall ReauthContext :=
  let raw := raw_oauth_config row in
  let config := if is_structure raw then Some (serializeServerOAuthReauthConfig raw) else None in
  bind! client :=
    (if usePetaOauthConfig (columns row) then Ret (filled_text (jfield_opt raw "clientId"), [])
     else
       call! decrypted := Decrypt (launchConfig (columns row)) token in
       Ret (custom_client (match decrypted with Ok s => parsed_json s | Throw e => Throw e end))) in
  let missing := missing_of_row row ++ missing_of_config config ++ snd client
                 ++ match fst client with Some _ => [] | None => ["clientId"]%string end in
  Ret {| rx_usesPeta := usePetaOauthConfig (columns row); rx_clientId := fst client; rx_oAuthConfig := config;
         rx_available := bool_decide (missing = []); rx_missingFields := distinct missing |}.

Definition needed_text (v : json) (name : string) : result sfailure string :=
  match v with JStr s => if str_eqb s "" then invalid ("Missing required field: " +:+ name) else Ok s
             | _ => invalid ("Missing required field: " +:+ name) end.

Definition handleGetServerOAuthReauthContext (data : json) (token : string) : SProg ReauthContext :=
  await! sid := given (needed_text (jfield_opt data "serverId") "serverId") in
  await! found := ask (FindServer (JStr sid)) in
  match found with
  | None => fail_with (admin "Server not found" SERVER_NOT_FOUND)
  | Some row => bind! x := buildServerOAuthReauthContext row token in Ret (Ok x)
  end.

(** The new configuration of the client, from the old. *)
Definition reauthorized (row : ServerRow) (x : ReauthContext) (c : ReauthConfig) (clientId code redirectUri : string) (verifier old : json)
    (provider token : string) : SProg json :=
  let scope := match rc_scopes c with Some s => JStr s | None => JUndefined end in
  let a := {| au_authType := JNum (auth_number (authType (columns row))); au_provider := provider; au_clientId := JStr clientId; au_code := JStr code;
              au_redirectUri := JStr redirectUri; au_codeVerifier := verifier; au_tokenUrl := JStr (rc_tokenUrl c); au_scope := scope |} in
  if rx_usesPeta x then
    await! hashKey := ask (Hash (exchange_key token (JStr (sid_of row)) (allowUserInput (columns row)))) in
    peta_oauth a hashKey
  else
    let clientSecret := jfield_opt old "clientSecret" in
    unless! is_filled clientSecret throw (invalid "Invalid OAuth client secret") in
    custom_oauth a clientSecret (spread old) (field_if (present scope) "scope" scope).

Definition reauthorize_allowed (row : ServerRow) : result sfailure unit :=
  let c := columns row in
  if negb (bool_decide (category c = Template)) then invalid "OAuth reauthorization is only supported for template servers"
  else if allowUserInput c then invalid "OAuth reauthorization is only supported for owner-configured servers"
  else if bool_decide (authType c = ApiKey) then invalid "OAuth reauthorization is not supported for API key authentication"
  else Ok tt.

Definition unavailable {A} (x : ReauthContext) : result sfailure A :=
  invalid ("OAuth reauthorization is unavailable: "
           +:+ (match rx_missingFields x with [] => "unknown reason" | l => str_join ", " l end)).

Definition handleReauthorizeServerOAuth (data : json) (token : string) : SProg (option ServerRow) :=
  await! sid := given (needed_text (jfield_opt data "serverId") "serverId") in
  await! code := given (needed_text (jfield_opt data "code") "code") in
  await! redirectUri := given (needed_text (jfield_opt data "redirectUri") "redirectUri") in
  let verifier := jfield_opt data "pkceVerifier" in
  unless! match verifier with JUndefined | JStr _ => true | _ => false end throw (invalid "Invalid pkceVerifier") in
  await! found := ask (FindServer (JStr sid)) in
  match found with
  | None => fail_with (admin "Server not found" SERVER_NOT_FOUND)
  | Some row =>
      await! fine := given (reauthorize_allowed row) in
      bind! x := buildServerOAuthReauthContext row token in
      match rx_available x, rx_oAuthConfig x, rx_clientId x with
      | true, Some c, Some clientId =>
          await! decrypted := ask (Decrypt (launchConfig (columns row)) token) in
          await! launch := given (parsed_json decrypted) in
          await! stored := given (read_field launch "oauth") in
          match getOAuthProvider (JNum (auth_number (authType (columns row)))) with
          | None => fail_with (invalid "Invalid OAuth provider")
          | Some provider =>
              await! oauth := reauthorized row x c clientId code redirectUri verifier (nullish_or stored (JObj [])) provider token in
              await! launch := given (put_oauth launch oauth) in
              await! text := encrypted_text (stringify launch) token in
              await! reconnected := updateServerLaunchConfig (JStr sid) text token in
              LogAdmin (JObj [("serverId", JStr sid); ("action", JStr "oauth_reauthorize")])%string !;
              ask (FindServer (JStr sid))
          end
      | _, _, _ => fail_with (unavailable x)
      end
  end.
