(* ===== verification/ServerAdminSafety.v ===== *)
(** * What administrators' requests do to servers

    Over the handlers of [ServerAdmin]: rows stay well-formed and what a
    server is stays as it was created, whatever the other components answer;
    an authorization is renewed only where it may be and what is stored of it
    is encrypted; and what updating and starting do that is not meant. *)
From Stdlib Require Import Ascii ZArith Lia.
From stdpp Require Import base strings list.
From S2P Require Import Prelude Json JsMap Access Effects ServerTypes CapabilityDiff AdminTypes LaunchConfig ServerAdmin.
Open Scope Z_scope.

(** ** The table *)

Definition template_json (r : ServerRow) : json := match configTemplate (columns r) with Some t => JStr t | None => JNull end.

(** A row as it may be: a rate in its range, a known category, and of a REST
    server a template that can be served. *)
Definition row_ok (r : ServerRow) : Prop :=
  1 <= anonymousRateLimit r <= 1000
  /\ 1 <= category_number (category (columns r)) <= 5 /\ 1 <= auth_number (authType (columns r)) <= 17
  /\ (category (columns r) = RestApi -> restapi_template_ok (template_json r) = true).

(** What a server is once and for all. *)
Definition same_kind (a b : ServerRow) : Prop :=
  category (columns a) = category (columns b) /\ allowUserInput (columns a) = allowUserInput (columns b)
  /\ authType (columns a) = authType (columns b) /\ usePetaOauthConfig (columns a) = usePetaOauthConfig (columns b).

#[export] Instance Server_eq_dec : EqDecision Server.
Proof. solve_decision. Defined.
#[export] Instance ServerRow_eq_dec : EqDecision ServerRow.
Proof. solve_decision. Defined.

Definition category_of (n : Z) : ServerCategory :=
  if n =? 1 then Template else if n =? 2 then CustomRemote else if n =? 3 then RestApi else if n =? 4 then Skills else if n =? 5 then CustomStdio
  else OtherCategory n.

(** Updating one column, as the database client does it: other types are
    refused, nothing is written for [undefined]. *)
Definition set_columns (r : ServerRow) (f : Server -> Server) : ServerRow :=
  {| columns := f (columns r); anonymousAccess := anonymousAccess r; anonymousRateLimit := anonymousRateLimit r |}.

Definition put_server (name launch caps : option string) (enabled_ input public lazy peta : option bool) (template : option (option string))
    (cat : option ServerCategory) (auth : option ServerAuthType) (s : Server) : Server :=
  {| serverId := serverId s; serverName := default (serverName s) name; enabled := default (enabled s) enabled_;
     launchConfig := default (launchConfig s) launch; configured_capabilities := default (configured_capabilities s) caps;
     allowUserInput := default (allowUserInput s) input; publicAccess := default (publicAccess s) public;
     authType := default (authType s) auth; category := default (category s) cat; configTemplate := default (configTemplate s) template;
     transportType := transportType s; lazyStartEnabled := default (lazyStartEnabled s) lazy;
     usePetaOauthConfig := default (usePetaOauthConfig s) peta; proxyId := proxyId s; row_cachedTools := row_cachedTools s;
     row_cachedResources := row_cachedResources s; row_cachedResourceTemplates := row_cachedResourceTemplates s;
     row_cachedPrompts := row_cachedPrompts s |}.

Definition update_column (k : string) (v : json) (r : ServerRow) : option ServerRow :=
  let text (f : string -> Server -> Server) := match v with JStr s => Some (set_columns r (f s)) | JUndefined => Some r | _ => None end in
  let flag (f : bool -> Server -> Server) := match v with JBool b => Some (set_columns r (f b)) | JUndefined => Some r | _ => None end in
  let number (f : Z -> ServerRow) := match v with JNum n => Some (f n) | JUndefined => Some r | _ => None end in
  if str_eqb k "serverName" then text (fun s => put_server (Some s) None None None None None None None None None None)
  else if str_eqb k "launchConfig" then text (fun s => put_server None (Some s) None None None None None None None None None)
  else if str_eqb k "capabilities" then text (fun s => put_server None None (Some s) None None None None None None None None)
  else if str_eqb k "enabled" then flag (fun b => put_server None None None (Some b) None None None None None None None)
  else if str_eqb k "allowUserInput" then flag (fun b => put_server None None None None (Some b) None None None None None None)
  else if str_eqb k "publicAccess" then flag (fun b => put_server None None None None None (Some b) None None None None None)
  else if str_eqb k "lazyStartEnabled" then flag (fun b => put_server None None None None None None (Some b) None None None None)
  else if str_eqb k "usePetaOauthConfig" then flag (fun b => put_server None None None None None None None (Some b) None None None)
  else if str_eqb k "configTemplate" then
    let put t := set_columns r (put_server None None None None None None None None (Some t) None None) in
    match v with JStr s => Some (put (Some s)) | JNull => Some (put None) | JUndefined => Some r | _ => None end
  else if str_eqb k "category" then number (fun n => set_columns r (put_server None None None None None None None None None (Some (category_of n)) None))
  else if str_eqb k "anonymousAccess" then
    match v with JBool b => Some {| columns := columns r; anonymousAccess := b; anonymousRateLimit := anonymousRateLimit r |} | JUndefined => Some r | _ => None end
  else if str_eqb k "anonymousRateLimit" then number (fun n => {| columns := columns r; anonymousAccess := anonymousAccess r; anonymousRateLimit := n |})
  else None.

Fixpoint apply_update (data : list (string * json)) (r : ServerRow) : option ServerRow :=
  match data with
  | [] => Some r
  | (k, v) :: data => match update_column k v r with Some r' => apply_update data r' | None => None end
  end.

(** The row was made of the data. *)
Definition created (data : list (string * json)) (r : ServerRow) : bool :=
  let d k := default JUndefined (assoc k data) in
  bool_decide (d "anonymousRateLimit"%string = JNum (anonymousRateLimit r))
  && bool_decide (d "authType"%string = JNum (auth_number (authType (columns r))))
  && match d "category"%string with JNum n => bool_decide (category (columns r) = category_of n) | _ => false end
  && bool_decide (nullish_or (d "configTemplate"%string) JNull = template_json r).

(** The row a request is about, as the database has it along a run; [None]
    once an answer was not the database's. *)
Definition table : Type := option (option ServerRow).

Definition table_step (s : table) (ev : event scall) : table :=
  match s with
  | None => None
  | Some t =>
      match ev with
      | Ev X e x =>
          match e in scall X return X -> table with
          | FindServer _ => fun r => match r with Ok found => if bool_decide (found = t) then Some t else None | Throw _ => Some t end
          | CreateRow data => fun r =>
              match r, t with Ok row, None => if created data row then Some (Some row) else None | Ok _, Some _ => None | Throw _, _ => Some t end
          | UpdateRow _ data => fun r =>
              match r with
              | Ok _ => match t with Some row => match apply_update data row with Some row' => Some (Some row') | None => None end | None => None end
              | Throw _ => Some t
              end
          | DeleteRow _ => fun r => match r with Ok _ => Some None | Throw _ => Some t end
          | DeleteRowsByProxy _ => fun r => match r with Ok _ => Some None | Throw _ => Some t end
          | _ => fun _ => Some t
          end x
      end
  end.

(** What may be written to a row of a category. *)
Definition entry_ok (c : ServerCategory) (kv : string * json) : bool :=
  let '(k, v) := kv in
  if existsb (str_eqb k) ["serverName"; "launchConfig"; "capabilities"; "enabled"; "publicAccess"; "lazyStartEnabled"; "anonymousAccess"]%string then true
  else if str_eqb k "anonymousRateLimit" then valid_rate v
  else if str_eqb k "configTemplate" then negb (bool_decide (c = RestApi)) || restapi_template_ok v
  else false.

Lemma set_columns_ok r f : row_ok r -> same_kind r (set_columns r f) -> configTemplate (f (columns r)) = configTemplate (columns r) -> row_ok (set_columns r f).
Proof.
  intros (H1 & H2 & H3 & H4) (E & _ & Ea & _) Et. cbn in E, Ea. unfold row_ok. cbn. rewrite <- E, <- Ea. unfold template_json. cbn. rewrite Et. tauto.
Qed.

Lemma update_column_ok k v r r' :
  entry_ok (category (columns r)) (k, v) = true -> update_column k v r = Some r' -> row_ok r -> row_ok r' /\ same_kind r r'.
Proof.
  intros He Hu Hr.
  assert (Hk : existsb (str_eqb k) ["serverName"; "launchConfig"; "capabilities"; "enabled"; "publicAccess"; "lazyStartEnabled"; "anonymousAccess";
      "anonymousRateLimit"; "configTemplate"]%string = true).
  { unfold entry_ok in He. cbn in He |- *. by repeat destruct (str_eqb k _). }
  apply existsb_exists in Hk as (key & Hin & ->%str_eqb_eq).
  assert (Hsame : same_kind r r) by by split_and!.
  repeat (destruct Hin as [<-|Hin]; [cbn in He, Hu|]); [..|done].
  1-6: destruct v; try discriminate; injection Hu as <-; try done; (split; [apply set_columns_ok; [done|by split_and!|done]|by split_and!]).
  - destruct v; try discriminate; injection Hu as <-; by split.
  - destruct v as [| | |n| | |]; try discriminate. injection Hu as <-. split; [|done].
    assert (H1 : (1 <=? n) && (n <=? 1000) = true) by exact He. apply andb_true_iff in H1 as [H1%Z.leb_le H2%Z.leb_le].
    destruct Hr as (_ & Hr). by split.
  - destruct Hr as (H1 & H2 & H3 & H4).
    destruct v as [| | | |s| |]; try discriminate; injection Hu as <-;
      (split; [|by split_and!]); refine (conj H1 (conj H2 (conj H3 _))); cbn; [done|..]; intros E; rewrite E in He; first [exact He|discriminate He].
Qed.

Lemma apply_update_ok data : forall r r',
  Forall (fun kv => entry_ok (category (columns r)) kv = true) data -> apply_update data r = Some r' -> row_ok r -> row_ok r' /\ same_kind r r'.
Proof.
  induction data as [|[k v] data IH]; cbn; intros r r' Hd Hu Hr; [injection Hu as <-; split; [done|by split_and!]|].
  apply Forall_cons in Hd as [He Hd]. destruct (update_column k v r) as [r1|] eqn:E1; [|done].
  destruct (update_column_ok _ _ _ _ He E1 Hr) as [Hr1 (K1 & K2 & K3 & K4)].
  destruct (IH r1 r') as [Hr' (L1 & L2 & L3 & L4)]; [by rewrite <- K1|done|done|].
  split; [done|]. split_and! ; congruence.
Qed.

(** ** Requests *)

Inductive request : Type :=
| StartServer | StopServer | UpdateServerCapabilities | UpdateServerLaunchCmd | ConnectAllServers_ | CreateServer | UpdateServer
| DeleteServer | DeleteServersByProxy | CountServers_ | GetServers | GetServerOAuthReauthContext | ReauthorizeServerOAuth.

Definition quietly {A} (p : SProg A) : prog scall unit := bind! r := p in Ret tt.

Definition serve (jwt_secret : option string) (req : request) (data : json) (token : string) : prog scall unit :=
  match req with
  | StartServer => quietly (handleStartServer data token)
  | StopServer => quietly (handleStopServer data)
  | UpdateServerCapabilities => quietly (handleUpdateServerCapabilities data)
  | UpdateServerLaunchCmd => quietly (handleUpdateServerLaunchCmd data token)
  | ConnectAllServers_ => quietly (handleConnectAllServers token)
  | CreateServer => quietly (handleCreateServer jwt_secret data token)
  | UpdateServer => quietly (handleUpdateServer data token)
  | DeleteServer => quietly (handleDeleteServer data)
  | DeleteServersByProxy => quietly (handleDeleteServersByProxy data)
  | CountServers_ => quietly handleCountServers
  | GetServers => quietly (handleGetServers data)
  | GetServerOAuthReauthContext => quietly (handleGetServerOAuthReauthContext data token)
  | ReauthorizeServerOAuth => quietly (handleReauthorizeServerOAuth data token)
  end.

(** ** Rows stay well-formed *)

Definition kept (t0 t : option ServerRow) : Prop :=
  match t0, t with Some a, Some b => same_kind a b | _, _ => True end.
Definition table_ok (t : option ServerRow) : Prop := match t with Some r => row_ok r | None => True end.

(** ** Invariants of a run

    A program keeps an invariant of what the past is summarised by when each
    of its calls does, and is allowed. *)
Section Keeps.
Context {St : Type} (step : St -> event scall -> St) (check : St -> event scall -> Prop) (Inv : St -> Prop).

Definition keeps {A} (p : prog scall A) : Prop := forall s, Inv s -> wp step check p s (fun s _ => Inv s).
Definition preserves {X} (e : scall X) : Prop := forall s x, Inv s -> check s (Ev X e x) /\ Inv (step s (Ev X e x)).

Lemma keeps_wp {A} (p : prog scall A) s (Q : St -> A -> Prop) : keeps p -> Inv s -> (forall s' a, Inv s' -> Q s' a) -> wp step check p s Q.
Proof using. intros Hp H HQ. eapply wp_mono; [by apply Hp|]. intros s' a. apply HQ. Qed.

Lemma keeps_ret {A} (a : A) : keeps (Ret a).
Proof using. by intros s H. Qed.

Lemma keeps_pbind {A B} (p : prog scall A) (k : A -> prog scall B) : keeps p -> (forall a, keeps (k a)) -> keeps (pbind p k).
Proof using. intros Hp Hk s H. apply wp_bind. eapply wp_mono; [by apply Hp|]. intros s' a H'. by apply Hk. Qed.

Lemma keeps_await {A B} (p : SProg A) (k : A -> SProg B) : keeps p -> (forall a, keeps (k a)) -> keeps (try_bind p k).
Proof using. intros Hp Hk. apply keeps_pbind; [done|]. intros [a|e]; [apply Hk|apply keeps_ret]. Qed.

Lemma keeps_vis {A X} (e : scall X) (k : X -> prog scall A) : preserves e -> (forall x, keeps (k x)) -> keeps (Vis X e k).
Proof using. intros He Hk s H x. destruct (He s x H) as [H1 H2]. split; [done|]. by apply Hk. Qed.

Lemma keeps_ask {A} (e : scall (result sfailure A)) : preserves e -> keeps (ask e).
Proof using. intros He. apply keeps_vis; [done|]. intros x. apply keeps_ret. Qed.
End Keeps.

Create HintDb keeps.

Ltac keep :=
  repeat first
    [ match goal with
      | |- preserves _ _ _ _ => solve [auto with keeps]
      | |- forall _, keeps _ _ _ _ => intros ?
      | |- keeps _ _ _ (Ret _) => apply keeps_ret
      | |- keeps _ _ _ (ask _) => apply keeps_ask
      | |- keeps _ _ _ (given _) => apply keeps_ret
      | |- keeps _ _ _ (fail_with _) => apply keeps_ret
      | |- keeps _ _ _ (Vis _ _ _) => apply keeps_vis
      | |- keeps _ _ _ (pbind _ _) => apply keeps_pbind
      | |- keeps _ _ _ (try_bind _ _) => apply keeps_await
      | |- keeps _ _ _ (let '(_, _) := ?x in _) => destruct x
      | |- keeps _ _ _ (if ?x then _ else _) => destruct x
      | |- keeps _ _ _ (match ?x with _ => _ end) => destruct x
      end
    | solve [auto with keeps] ].

(** Calls that no invariant here is about. *)
Definition quiet_call {X} (e : scall X) : bool :=
  match e with
  | FindServer _ | CreateRow _ | UpdateRow _ _ | DeleteRow _ | DeleteRowsByProxy _ | PetaExchange _ | ExchangeCode _ | Encrypt _ _ => false
  | _ => true
  end.
#[export] Hint Extern 0 (quiet_call _ = true) => reflexivity : keeps.

(** *** Programs of quiet calls *)

Section Quiet.
Context {St : Type} (step : St -> event scall -> St) (check : St -> event scall -> Prop) (Inv : St -> Prop).
Notation keeps := (keeps step check Inv).
Notation preserves := (preserves step check Inv).
Hypothesis quiet : forall X (e : scall X), quiet_call e = true -> preserves e.
#[local] Hint Resolve quiet : keeps.

Lemma send_changes_keeps changed l : keeps (send_changes changed l).
Proof using quiet. induction l as [|s l IH]; cbn [send_changes]; keep. Qed.
#[local] Hint Resolve send_changes_keeps : keeps.

Lemma notify_keeps sid l changed : keeps (notifyUsersOfServerChange sid l changed).
Proof using quiet. unfold notifyUsersOfServerChange. keep. Qed.
#[local] Hint Resolve notify_keeps : keeps.

Lemma notify_by_context_keeps sid c l : keeps (notify_by_context sid c l).
Proof using quiet. unfold notify_by_context. keep. Qed.
#[local] Hint Resolve notify_by_context_keeps : keeps.

Lemma changed_with_keeps c : keeps (changed_with c).
Proof using quiet. unfold changed_with. keep. Qed.
#[local] Hint Resolve changed_with_keeps : keeps.

Lemma notify_started_keeps l : keeps (notify_started l).
Proof using quiet. induction l as [|s l IH]; cbn [notify_started]; keep. Qed.

Lemma each_context_keeps f l : (forall c, keeps (f c)) -> keeps (each_context f l).
Proof using quiet. intros H. induction l as [|c l IH]; cbn [each_context]; keep. Qed.

Lemma try_each_context_keeps f l : (forall c, keeps (f c)) -> keeps (try_each_context f l).
Proof using quiet. intros H. induction l as [|c l IH]; cbn [try_each_context]; keep. Qed.

Lemma updateLazyStartEnabled_keeps a b v : keeps (updateLazyStartEnabled a b v).
Proof using quiet.
  assert (Hs : forall c, keeps (to_sleep c)) by (intros c; unfold to_sleep; keep).
  unfold updateLazyStartEnabled, update_temporary, update_permanent. keep.
  apply try_each_context_keeps. keep.
Qed.

Lemma set_entities_keeps b row l : keeps (set_entities b row l).
Proof using quiet. apply each_context_keeps. keep. Qed.

Lemma entities_keeps row l : keeps (fold_right (fun c k => Vis unit (SetEntity c row) (fun _ => k)) (Ret tt) l).
Proof using quiet. induction l; cbn; keep. Qed.

Lemma gets_disabled_keeps row : keeps (gets_disabled row).
Proof using quiet. unfold gets_disabled. keep. Qed.

Lemma remove_each_keeps l : keeps (remove_servers l).
Proof using quiet. induction l as [|s l IH]; cbn [remove_servers]; keep. Qed.

Lemma template_kept_keeps row c : keeps (template_kept row c).
Proof using quiet. unfold template_kept. keep. Qed.
#[local] Hint Resolve template_kept_keeps : keeps.

Lemma reauth_context_keeps row t : keeps (buildServerOAuthReauthContext row t).
Proof using quiet. unfold buildServerOAuthReauthContext. keep. Qed.

Lemma rethrown_keeps {A} (p : SProg A) : keeps p -> keeps (rethrown p).
Proof using quiet. intros H. unfold rethrown. keep. Qed.

(** *** Programs that find and write one row *)

Lemma updateServerCapabilities_keeps sid c : preserves (UpdateRow (JStr sid) [("capabilities"%string, JStr c)]) -> keeps (updateServerCapabilities sid c).
Proof using quiet. intros H. unfold updateServerCapabilities. keep. Qed.

Lemma updateServerLaunchConfig_keeps sid v t :
  preserves (FindServer sid) -> preserves (UpdateRow sid [("launchConfig"%string, v)]) -> keeps (updateServerLaunchConfig sid v t).
Proof using quiet. intros H1 H2. unfold updateServerLaunchConfig. keep. Qed.

(** *** Programs that exchange codes *)

Hypothesis encrypts : forall a b, preserves (Encrypt a b).
Hypothesis exchanges : forall b, preserves (PetaExchange b).
Hypothesis exchanges_own : forall b, preserves (ExchangeCode b).
#[local] Hint Resolve encrypts exchanges exchanges_own : keeps.

Lemma peta_oauth_keeps a k : keeps (peta_oauth a k).
Proof using quiet exchanges. unfold peta_oauth. keep. apply rethrown_keeps. keep. Qed.

Lemma custom_oauth_keeps a s b c : keeps (custom_oauth a s b c).
Proof using quiet exchanges_own. unfold custom_oauth. apply rethrown_keeps. keep. Qed.

Lemma encrypted_text_keeps a b : keeps (encrypted_text a b).
Proof using quiet encrypts. unfold encrypted_text. keep. Qed.
#[local] Hint Resolve peta_oauth_keeps custom_oauth_keeps encrypted_text_keeps : keeps.

Lemma prepare_keeps j d t c i : keeps (prepare_row j d t c i).
Proof using quiet encrypts exchanges exchanges_own. unfold prepare_row, user_flow, owner_flow. keep. apply rethrown_keeps. keep. Qed.

Lemma reauthorized_keeps row x c id code uri v old p t : keeps (reauthorized row x c id code uri v old p t).
Proof using quiet exchanges exchanges_own. unfold reauthorized. keep. Qed.
End Quiet.
#[export] Hint Resolve send_changes_keeps notify_keeps notify_by_context_keeps changed_with_keeps notify_started_keeps updateLazyStartEnabled_keeps
  set_entities_keeps entities_keeps gets_disabled_keeps remove_each_keeps template_kept_keeps reauth_context_keeps updateServerCapabilities_keeps
  updateServerLaunchConfig_keeps encrypted_text_keeps prepare_keeps reauthorized_keeps : keeps.

(** What comes after an answer that was not the table's. *)
Lemma wp_stray {A} (p : prog scall A) (Q : table -> A -> Prop) : (forall a, Q None a) -> wp table_step (fun _ _ => True) p None Q.
Proof. intros H. induction p as [a|X e k IH|]; cbn; [apply H|intros x; split; [done|apply IH]|done]. Qed.

(** *** What is written is fine *)

Section Kept.
Variable t0 : option ServerRow.

Definition Inv (s : table) : Prop := match s with Some t => table_ok t /\ kept t0 t | None => True end.

Notation keeps := (keeps table_step (fun _ _ => True) Inv).
Notation preserves := (preserves table_step (fun _ _ => True) Inv).

(** Calls that are not about the table. *)
Lemma quiet_preserves X (e : scall X) : quiet_call e = true -> preserves e.
Proof. intros H [t|] x Hs; (split; [done|]); [|exact I]. by destruct e. Qed.

Lemma encrypt_preserves a b : preserves (Encrypt a b).
Proof. by intros [t|] x Hs. Qed.

Lemma peta_preserves b : preserves (PetaExchange b).
Proof. by intros [t|] x Hs. Qed.

Lemma exchange_preserves b : preserves (ExchangeCode b).
Proof. by intros [t|] x Hs. Qed.

Lemma find_preserves sid : preserves (FindServer sid).
Proof. intros [t|] [found|e] H; (split; [done|]); cbn; try done. by case_bool_decide. Qed.

Lemma delete_preserves sid : preserves (DeleteRow sid).
Proof. intros [t|] [[]|e] H; (split; [done|]); cbn; try done. by destruct t0. Qed.

Lemma delete_proxy_preserves p : preserves (DeleteRowsByProxy p).
Proof. intros [t|] [n|e] H; (split; [done|]); cbn; try done. by destruct t0. Qed.

Lemma update_inv row r data : Inv (Some (Some row)) -> Forall (fun kv => entry_ok (category (columns row)) kv = true) data ->
  apply_update data row = Some r -> Inv (Some (Some r)).
Proof.
  intros [H1 H2] Hd E. destruct (apply_update_ok data row r Hd E H1) as [H3 (K1 & K2 & K3 & K4)].
  split; [done|]. destruct t0 as [r0|]; [|done]. destruct H2 as (L1 & L2 & L3 & L4). split_and! ; congruence.
Qed.

Lemma update_preserves sid data : (forall c, Forall (fun kv => entry_ok c kv = true) data) -> preserves (UpdateRow sid data).
Proof.
  intros Hd [[row|]|] [row'|e] H; (split; [done|]); cbn; try done.
  destruct (apply_update data row) as [r|] eqn:E; [|done]. by eapply update_inv.
Qed.

Lemma update_one_preserves sid k v : (forall c, entry_ok c (k, v) = true) -> preserves (UpdateRow sid [(k, v)]).
Proof. intros H. apply update_preserves. intros c. by constructor. Qed.
#[local] Hint Resolve quiet_preserves encrypt_preserves peta_preserves exchange_preserves find_preserves delete_preserves delete_proxy_preserves : keeps.
#[local] Hint Extern 0 (preserves (UpdateRow _ [_])) => (apply update_one_preserves; done) : keeps.

Lemma start_keeps data t : keeps (handleStartServer data t).
Proof. unfold handleStartServer. keep. Qed.

Lemma stop_keeps data : keeps (handleStopServer data).
Proof. unfold handleStopServer, stopServer. keep. Qed.

Lemma update_running_keeps a b d t c : keeps (update_running a b d t c).
Proof. unfold update_running, stays_enabled, refresh_running. keep. Qed.
#[local] Hint Resolve update_running_keeps : keeps.

(** *** Updating *)

Lemma field_if_ok c b k v : (b = true -> entry_ok c (k, v) = true) -> Forall (fun kv => entry_ok c kv = true) (field_if b k v).
Proof. intros H. destruct b; cbn; [|done]. constructor; [by apply H|done]. Qed.

Lemma template_update_ok row v l :
  (category (columns row) = RestApi -> present v = true -> restapi_template_ok v = true) ->
  template_update row v = Ok l -> Forall (fun kv => entry_ok (category (columns row)) kv = true) l.
Proof.
  intros Hr H. unfold template_update in H.
  assert (Hv : present v = true -> entry_ok (category (columns row)) ("configTemplate"%string, v) = true).
  { intros Hp. cbn. case_bool_decide as E; [cbn; by apply Hr|done]. }
  destruct v as [| | | |s| |]; try (injection H as <-; done);
    (destruct (editable _); [|injection H as <-; done]); cbn in H; try discriminate.
  injection H as <-. apply field_if_ok. intros _. by apply Hv.
Qed.

Lemma update_data_ok row f l :
  update_data row f = Ok l -> Forall (fun kv => entry_ok (category (columns row)) kv = true) l.
Proof.
  unfold update_data. set (c := category (columns row)). intros H.
  destruct (differs _ _); [discriminate|]. destruct (negb (editable c) && _); [discriminate|].
  destruct (bool_decide (c = RestApi) && present (f "configTemplate"%string) && _) eqn:E1.
  { unfold validateRestApiConfigTemplate in H. destruct (restapi_template_ok _); [by rewrite andb_false_r in E1|discriminate]. }
  destruct (_ && _ && negb (editable c)); [discriminate|].
  destruct (template_update _ _) as [template|] eqn:E2; [|discriminate].
  destruct (present (f "anonymousRateLimit"%string) && _) eqn:E3; [discriminate|].
  destruct (getUpdatedCapabilities _ _) as [capabilities|]; [|discriminate]. injection H as <-.
  rewrite !Forall_app. split_and! ; try (apply field_if_ok; done).
  - eapply template_update_ok; [|done]. intros Hc Hp. fold c in Hc. rewrite Hp, bool_decide_true in E1 by done.
    by apply negb_false_iff in E1.
  - apply field_if_ok. unfold differs. intros [Hp _]%andb_true_iff. rewrite Hp in E3. by apply negb_false_iff in E3.
  - destruct capabilities; by constructor.
  - by constructor.
Qed.

(** The row just found is the table's when its changes are written. *)
Lemma found_then_updated {A} sid sid' data row (k : result sfailure ServerRow -> prog scall A) s :
  Inv s -> Forall (fun kv => entry_ok (category (columns row)) kv = true) data -> (forall r, keeps (k r)) ->
  wp table_step (fun _ _ => True) (Vis _ (UpdateRow sid' data) k) (table_step s (Ev _ (FindServer sid) (Ok (Some row)))) (fun s _ => Inv s).
Proof.
  intros H Hd Hk r. split; [done|]. apply Hk. destruct s as [t|]; cbn; [|done]. case_bool_decide as E; [subst t|done].
  destruct r as [row'|e]; cbn; [|exact H]. destruct (apply_update data row) as [r|] eqn:E; [|exact I]. by eapply update_inv.
Qed.

Lemma update_keeps data t : keeps (handleUpdateServer data t).
Proof.
  unfold handleUpdateServer. apply keeps_await; [apply keeps_ret|intros f]. destruct (js_truthy _); [|apply keeps_ret].
  intros s H. apply wp_bind. intros found. split; [done|]. cbn [wp].
  destruct found as [[row|]|e]; [|by apply find_preserves..]. unfold given, try_bind at 1. cbn [pbind].
  destruct (update_data _ _) as [l|] eqn:E; [|by apply find_preserves].
  apply found_then_updated; [done|by eapply update_data_ok|]. intros [new|e]; keep.
Qed.

(** *** Creating *)

Definition create_row_ok (data : list (string * json)) : bool :=
  let d k := default JUndefined (assoc k data) in
  valid_rate (d "anonymousRateLimit"%string) && valid_auth (d "authType"%string) && valid_category (d "category"%string)
  && (negb (is_category (d "category"%string) RestApi) || restapi_template_ok (nullish_or (d "configTemplate"%string) JNull)).

Lemma category_of_number n : 1 <= n <= 5 -> category_number (category_of n) = n.
Proof.
  intros H. assert (E : n = 1 \/ n = 2 \/ n = 3 \/ n = 4 \/ n = 5) by lia. by repeat destruct E as [->|E]; subst.
Qed.

Lemma created_ok data row : create_row_ok data = true -> created data row = true -> row_ok row.
Proof.
  unfold create_row_ok, created. rewrite !andb_true_iff. intros [[[H1 H2] H3] H4] [[[E1 E2] E3] E4].
  apply bool_decide_eq_true in E1, E2, E4. rewrite E1 in H1. rewrite E2 in H2. rewrite E4 in H4.
  destruct (default JUndefined (assoc "category" data)) as [| | |n| | |]; try discriminate. apply bool_decide_eq_true in E3.
  cbn in H1, H2, H3. rewrite !andb_true_iff, !Z.leb_le in H1, H2, H3. unfold row_ok. rewrite E3, category_of_number by done.
  refine (conj H1 (conj H3 (conj H2 _))). intros Hc. assert (n = 3) as -> by (rewrite <- (category_of_number n), Hc by done; done).
  exact H4.
Qed.

Lemma create_checks_ok f category input (p : Prepared) c u :
  create_checks f category = Ok input -> (is_category category Template = false -> pr_template p = nullish_or (f "configTemplate"%string) JNull) ->
  create_row_ok (server_row_data f category input p c u) = true.
Proof.
  intros H Hp. unfold create_checks in H. destruct (is_empty_text _); [discriminate|].
  destruct (valid_auth _) eqn:Ea; [|discriminate]. destruct (nullish_or (f "allowUserInput"%string) _) as [|b| | | | |]; try discriminate.
  cbn [negb] in H. destruct (valid_category category) eqn:Ec; [|discriminate]. cbn [negb] in H.
  destruct (present _ && _) eqn:Er; [discriminate|]. destruct (_ && is_empty_text _); [discriminate|].
  change (valid_rate (nullish_or (f "anonymousRateLimit"%string) (JNum 10)) && valid_auth (nullish_or (f "authType"%string) (JNum (auth_number ApiKey)))
          && valid_category category && (negb (is_category category RestApi) || restapi_template_ok (nullish_or (pr_template p) JNull)) = true).
  rewrite Ea, Ec, !andb_true_r. apply andb_true_iff. split.
  - destruct (f "anonymousRateLimit"%string); try discriminate; try done. cbn in Er. by apply negb_false_iff in Er.
  - destruct (is_category category RestApi) eqn:E3; [cbn|done].
    assert (E1 : is_category category Template = false).
    { unfold is_category in *. apply bool_decide_eq_true in E3 as ->. done. }
    rewrite (Hp E1). unfold validateRestApiConfigTemplate in H. destruct (restapi_template_ok _) eqn:Et; [|discriminate].
    by destruct (f "configTemplate"%string).
Qed.

Lemma prepare_template j f t category input s :
  wp table_step (fun _ _ => True) (prepare_row j f t category input) s
    (fun s' r => s' = s /\ forall p, r = Ok p -> is_category category Template = false -> pr_template p = nullish_or (f "configTemplate"%string) JNull).
Proof.
  destruct (is_category category Template) eqn:E.
  - eapply wp_mono; [apply (prepare_keeps table_step (fun _ _ => True) (fun s' => s' = s)); [..|done]|cbn; by intros s' r ->].
    { intros X e He s' x ->. split; [done|]. destruct s; by destruct e. }
    all: by intros **; intros ? ? ->; destruct s.
  - unfold prepare_row. rewrite E. cbn. split; [done|]. by intros p [= <-].
Qed.

Lemma create_keeps j data t : table_ok t0 ->
  wp table_step (fun _ _ => True) (handleCreateServer j data t) (Some t0) (fun s _ => Inv s).
Proof.
  intros Hok. assert (H0 : Inv (Some t0)) by (split; [done|]; destruct t0; [by split_and!|done]).
  unfold handleCreateServer. destruct (destructured data) as [f|]; [|exact H0]. unfold try_bind at 1, given. cbn [pbind]. unfold create_server.
  destruct (js_truthy _); [|exact H0]. apply wp_bind. intros found. split; [done|]. cbn [wp].
  pose proof (proj2 (find_preserves (f "serverId"%string) (Some t0) found H0)) as H1.
  destruct found as [[row|]|e]; [exact H1| |exact H1]. cbn [table_step] in H1 |- *. case_bool_decide as E; [|by apply wp_stray].
  destruct (create_checks _ _) as [input|] eqn:Ec; [|exact H0]. unfold try_bind at 1, given. cbn [pbind]. apply wp_bind.
  eapply wp_mono; [apply prepare_template|]. cbn beta. intros s [p|e] [-> Hp]; [|exact H0].
  intros at_. split; [done|]. intros updated. split; [done|]. apply wp_bind. intros row. split; [done|].
  assert (H2 : Inv (table_step (Some t0) (Ev _ (CreateRow (server_row_data f (f "category"%string) input p at_ updated)) row))).
  { destruct row as [row|e]; cbn [table_step]; [|exact H0]. rewrite <- E. destruct (created _ _) eqn:Er; [|done].
    split; [|by unfold kept; rewrite <- E]. eapply created_ok; [|done]. by eapply create_checks_ok; [|by apply Hp]. }
  destruct row as [row|e]; [|exact H2]. intros u. split; [done|]. cbn [wp].
  change (table_step (table_step (Some t0) (Ev Z DateNow at_)) (Ev Z DateNow updated)) with (Some t0 : table).
  by destruct (table_step (Some t0) _).
Qed.

(** *** The others *)

Lemma others_keep j req data t : req <> CreateServer -> keeps (serve j req data t).
Proof.
  pose proof start_keeps. pose proof stop_keeps. pose proof update_keeps.
  intros Hreq. destruct req; try done; cbn [serve]; unfold quietly;
    try (unfold handleUpdateServerCapabilities, handleUpdateServerLaunchCmd, handleConnectAllServers, handleDeleteServer, handleDeleteServersByProxy,
      handleCountServers, handleGetServers, handleGetServerOAuthReauthContext, handleReauthorizeServerOAuth); keep.
Qed.

Lemma serve_inv j req data t tr : table_ok t0 -> runs (serve j req data t) tr (Some tt) -> Inv (fold_left table_step tr (Some t0)).
Proof.
  intros Hok Hr.
  assert (H : wp table_step (fun _ _ => True) (serve j req data t) (Some t0) (fun s _ => Inv s)).
  { assert (Hd : {req = CreateServer} + {req <> CreateServer}) by (destruct req; (by left) || by right).
    destruct Hd as [->|Hreq].
    - cbn [serve]. unfold quietly. apply wp_bind. eapply wp_mono; [by apply create_keeps|]. done.
    - apply others_keep; [done|]. split; [done|]. destruct t0; [by split_and!|done]. }
  eapply wp_runs in Hr as [_ HQ]; [|exact H]. by apply (HQ tt).
Qed.
End Kept.

(** ** Authorizing again *)

(** What a code was exchanged for: what was asked, and the answer. *)
Inductive Granted : Type :=
| FromPeta (asked answer : json)
| FromProvider (asked : json) (answer : ExchangeResult).

(** The rows found, in order; the texts the launch configuration of the first
    of them was decrypted to, and what the clock said, last first; how many
    codes were exchanged, and for what; what was last encrypted; and whether
    the row was written. *)
Record renewal : Type := {
  rn_rows : list ServerRow;
  rn_opened : list string;
  rn_clocks : list Z;
  rn_exchanges : Z;
  rn_granted : option Granted;
  rn_sealed : option json;
  rn_written : bool
}.

Definition renewal_start : renewal :=
  {| rn_rows := []; rn_opened := []; rn_clocks := []; rn_exchanges := 0; rn_granted := None; rn_sealed := None; rn_written := false |}.

Lemma jset_same (v w x : json) (k : string) : jset v k x = Ok w -> str_eqb k "__proto__" = false -> jfield_opt w k = x.
Proof.
  intros H Hk. destruct v; cbn in H; simplify_eq. unfold jfield_opt, jfield, obj_assign. rewrite Hk, assoc_obj_put. by rewrite str_eqb_refl.
Qed.

Lemma needed_text_some v name s : needed_text v name = Ok s -> JStr s = v.
Proof. destruct v as [| | | |t| |]; cbn; try done. destruct (str_eqb t ""); [done|]. by intros [= ->]. Qed.

Section Renewal.
Variables (data : json) (token : string).

Definition find_row (s : renewal) (row : ServerRow) : renewal :=
  {| rn_rows := rn_rows s ++ [row]; rn_opened := rn_opened s; rn_clocks := rn_clocks s; rn_exchanges := rn_exchanges s;
     rn_granted := rn_granted s; rn_sealed := rn_sealed s; rn_written := rn_written s |}.
Definition open_config (s : renewal) (text : string) : renewal :=
  {| rn_rows := rn_rows s; rn_opened := text :: rn_opened s; rn_clocks := rn_clocks s; rn_exchanges := rn_exchanges s;
     rn_granted := rn_granted s; rn_sealed := rn_sealed s; rn_written := rn_written s |}.
Definition tell_time (s : renewal) (now : Z) : renewal :=
  {| rn_rows := rn_rows s; rn_opened := rn_opened s; rn_clocks := now :: rn_clocks s; rn_exchanges := rn_exchanges s;
     rn_granted := rn_granted s; rn_sealed := rn_sealed s; rn_written := rn_written s |}.
Definition exchange (s : renewal) (g : option Granted) : renewal :=
  {| rn_rows := rn_rows s; rn_opened := rn_opened s; rn_clocks := rn_clocks s; rn_exchanges := rn_exchanges s + 1;
     rn_granted := g; rn_sealed := rn_sealed s; rn_written := rn_written s |}.
Definition seal (s : renewal) (e : json) : renewal :=
  {| rn_rows := rn_rows s; rn_opened := rn_opened s; rn_clocks := rn_clocks s; rn_exchanges := rn_exchanges s;
     rn_granted := rn_granted s; rn_sealed := Some e; rn_written := rn_written s |}.
Definition written (s : renewal) : renewal :=
  {| rn_rows := rn_rows s; rn_opened := rn_opened s; rn_clocks := rn_clocks s; rn_exchanges := rn_exchanges s;
     rn_granted := rn_granted s; rn_sealed := rn_sealed s; rn_written := true |}.

(** The row was found first, and the text is its launch configuration. *)
Definition configured (s : renewal) (text : string) : bool :=
  match rn_rows s with row :: _ => str_eqb text (launchConfig (columns row)) | [] => false end.

Definition renewal_step (s : renewal) (ev : event scall) : renewal :=
  match ev with
  | Ev X e x =>
      match e in scall X return X -> renewal with
      | FindServer _ => fun r => match r with Ok (Some row) => find_row s row | _ => s end
      | Decrypt text key => fun r =>
          match r with Ok plain => if configured s text && str_eqb key token then open_config s plain else s | Throw _ => s end
      | DateNow => fun now => tell_time s now
      | PetaExchange body => fun r => exchange s (match r with Ok (true, answer) => Some (FromPeta body answer) | _ => None end)
      | ExchangeCode body => fun r => exchange s (match r with Ok answer => Some (FromProvider body answer) | Throw _ => None end)
      | Encrypt _ _ => fun r => match r with Ok e => seal s e | Throw _ => s end
      | UpdateRow _ _ => fun r => match r with Ok _ => written s | Throw _ => s end
      | _ => fun _ => s
      end x
  end.

(** An owner-configured template server that its owner authorizes at a
    provider, where the template says, with the code of the request. *)
Definition renewable (row : ServerRow) (peta : bool) (body : json) : Prop :=
  category (columns row) = Template /\ allowUserInput (columns row) = false /\ authType (columns row) <> ApiKey
  /\ usePetaOauthConfig (columns row) = peta
  /\ getOAuthProvider (JNum (auth_number (authType (columns row)))) = text_given (jfield_opt body "provider")
  /\ (forall u, jfield_opt body "tokenUrl" = JStr u ->
        u = text_or_empty (jfield_opt (raw_oauth_config row) "tokenUrl") /\ u <> ""%string /\ containsOAuthPlaceholder u = false)
  /\ jfield_opt body "code" = jfield_opt data "code" /\ jfield_opt body "redirectUri" = jfield_opt data "redirectUri"
  /\ jfield_opt body "codeVerifier" = jfield_opt data "pkceVerifier".

(** A field of the authorization in a text that was opened. *)
Definition opened_field (s : renewal) (k : string) (v : json) : Prop :=
  exists plain launch, plain ∈ rn_opened s /\ JSON_parse plain = Some launch /\ jfield_opt (jfield_opt launch "oauth") k = v.

(** Peta's client is the template's; the owner's own is the one in the
    stored configuration, with its secret. *)
Definition right_client (s : renewal) (row : ServerRow) (peta : bool) (body : json) : Prop :=
  if peta then jfield_opt body "clientId" = jfield_opt (raw_oauth_config row) "clientId"
  else (opened_field s "clientId" (jfield_opt body "clientId") /\ is_filled (jfield_opt body "clientId") = true)
       /\ (opened_field s "clientSecret" (jfield_opt body "clientSecret") /\ is_filled (jfield_opt body "clientSecret") = true).

Definition may_exchange (s : renewal) (peta : bool) (body : json) : Prop :=
  rn_exchanges s = 0 /\ exists row, head (rn_rows s) = Some row /\ renewable row peta body /\ right_client s row peta body.

(** The tokens, the client and the expiry of an authorization are those the
    exchange gave; a provider that names no expiry grants thirty days, and
    only Intercom's may leave out the refresh token. *)
Definition carries (clocks : list Z) (g : Granted) (oauth : json) : Prop :=
  match g with
  | FromPeta body answer =>
      jfield_opt oauth "clientId" = jfield_opt body "clientId" /\ jfield_opt oauth "key" = jfield_opt body "key"
      /\ (jfield_opt oauth "accessToken" = jfield_opt answer "accessToken" /\ js_truthy (jfield_opt answer "accessToken") = true)
      /\ (jfield_opt oauth "expiresAt" = jfield_opt answer "expiresAt" /\ js_truthy (jfield_opt answer "expiresAt") = true)
  | FromProvider body r =>
      jfield_opt oauth "clientId" = jfield_opt body "clientId" /\ jfield_opt oauth "clientSecret" = jfield_opt body "clientSecret"
      /\ (jfield_opt oauth "accessToken" = JStr (ex_accessToken r) /\ ex_accessToken r <> ""%string)
      /\ (if truthy_ostr (ex_refreshToken r) then Some (jfield_opt oauth "refreshToken") = option_map JStr (ex_refreshToken r)
           else jfield_opt oauth "refreshToken" = JStr INTERCOM_FAKE_REFRESH_TOKEN /\ jfield_opt body "provider" = JStr "intercom")
      /\ exists ends, jfield_opt oauth "expiresAt" = JNum ends
           /\ match ex_expiresAt r with Some t => ends = t | None => exists now, now ∈ clocks /\ ends = now + 30 * 24 * 60 * 60 * 1000 end
  end.

(** What is encrypted is the configuration last opened with what the code was
    exchanged for, and nothing else of it changed. *)
Definition may_seal (s : renewal) (text key : string) : Prop :=
  key = token /\ rn_exchanges s = 1
  /\ exists g plain launch launch', rn_granted s = Some g /\ head (rn_opened s) = Some plain /\ JSON_parse plain = Some launch
      /\ text = stringify launch' /\ carries (rn_clocks s) g (jfield_opt launch' "oauth")
      /\ forall k, k <> "oauth"%string -> jfield_opt launch' k = jfield_opt launch k.

Definition renewal_check (s : renewal) (ev : event scall) : Prop :=
  match ev with
  | Ev _ e _ =>
      match e with
      | FindServer sid => sid = jfield_opt data "serverId"
      | PetaExchange body => may_exchange s true body
      | ExchangeCode body => may_exchange s false body
      | Encrypt text key => may_seal s text key
      | UpdateRow sid new =>
          sid = jfield_opt data "serverId" /\ exists e, rn_sealed s = Some e /\ new = [("launchConfig"%string, JStr (stringify e))]
      | CreateRow _ | DeleteRow _ | DeleteRowsByProxy _ => False
      | _ => True
      end
  end.

Notation wpr := (wp renewal_step renewal_check).

(** The client of the context. *)
Definition context_client (s : renewal) (row : ServerRow) (id : string) : Prop :=
  if usePetaOauthConfig (columns row) then jfield_opt (raw_oauth_config row) "clientId" = JStr id
  else opened_field s "clientId" (JStr id) /\ is_filled (JStr id) = true.

Lemma filled_text_some v t : filled_text v = Some t -> v = JStr t /\ is_filled v = true.
Proof using. destruct v as [| | | |s| |]; cbn; try done. destruct (is_blank s); [done|]. by intros [= ->]. Qed.

Lemma opened_more s plain k v : opened_field s k v -> opened_field (open_config s plain) k v.
Proof using. intros (p & l & Hp & H). exists p, l. split; [|done]. apply elem_of_cons. by right. Qed.

Lemma head_rows s row : head (rn_rows s) = Some row -> configured s (launchConfig (columns row)) = true.
Proof using. unfold configured. destruct (rn_rows s); [done|]. intros [= ->]. apply str_eqb_refl. Qed.

(** What opening the configuration of the row leaves. *)
Lemma opened_step s row plain : head (rn_rows s) = Some row ->
  renewal_step s (Ev _ (Decrypt (launchConfig (columns row)) token) (Ok plain)) = open_config s plain.
Proof using. intros H. cbn. by rewrite head_rows, str_eqb_refl. Qed.

Lemma custom_client_id s plain id missing : custom_client (parsed_json plain) = (Some id, missing) ->
  opened_field (open_config s plain) "clientId" (JStr id) /\ is_filled (JStr id) = true.
Proof using.
  unfold parsed_json. destruct (JSON_parse plain) as [v|] eqn:E; [|done]. cbn. destruct (is_structure _); [|done].
  intros [= H _]. apply filled_text_some in H as [H Hf]. rewrite H in Hf. split; [|done]. exists plain, v. split; [by left|]. by split.
Qed.

Definition context_ready (row : ServerRow) (s s' : renewal) (x : ReauthContext) : Prop :=
  (s' = s \/ exists plain, s' = open_config s plain)
  /\ (rx_available x = true -> missing_of_row row = [] /\ missing_of_config (rx_oAuthConfig x) = [])
  /\ (forall id, rx_clientId x = Some id -> context_client s' row id)
  /\ rx_usesPeta x = usePetaOauthConfig (columns row)
  /\ (forall c, rx_oAuthConfig x = Some c -> c = serializeServerOAuthReauthConfig (raw_oauth_config row)).

Lemma build_context_wp row s : head (rn_rows s) = Some row ->
  wpr (buildServerOAuthReauthContext row token) s (context_ready row s).
Proof using.
  intros Hs. unfold buildServerOAuthReauthContext. apply wp_bind.
  assert (Hk : forall s' client, (s' = s \/ exists plain, s' = open_config s plain) ->
    (forall id, fst client = Some id -> context_client s' row id) ->
    forall config, (forall c, config = Some c -> c = serializeServerOAuthReauthConfig (raw_oauth_config row)) ->
    context_ready row s s' {| rx_usesPeta := usePetaOauthConfig (columns row); rx_clientId := fst client; rx_oAuthConfig := config;
           rx_available := bool_decide (missing_of_row row ++ missing_of_config config ++ snd client
             ++ match fst client with Some _ => [] | None => ["clientId"%string] end = []);
           rx_missingFields := distinct (missing_of_row row ++ missing_of_config config ++ snd client
             ++ match fst client with Some _ => [] | None => ["clientId"%string] end) |}).
  { intros s' client Hs' Hc config Hf. split_and! ; cbn; [done| |done|done|done].
    intros H%bool_decide_eq_true. apply app_eq_nil in H as [H1 H]. by apply app_eq_nil in H as [H2 _]. }
  assert (Hf : forall c, (if is_structure (raw_oauth_config row) then Some (serializeServerOAuthReauthConfig (raw_oauth_config row)) else None) = Some c ->
    c = serializeServerOAuthReauthConfig (raw_oauth_config row)) by (intros c; destruct (is_structure _); congruence).
  unfold context_client in Hk. destruct (usePetaOauthConfig (columns row)) eqn:E.
  - apply (Hk s (_, _)); [by left|by intros id [H _]%filled_text_some|done].
  - intros [plain|e]; (split; [done|]); cbn [wp].
    + rewrite opened_step by done. apply (Hk (open_config s plain)); [right; by eexists| |done].
      intros id Hid. eapply custom_client_id. by rewrite <- Hid, <- surjective_pairing.
    + by apply (Hk s (None, _)); [left|..].
Qed.

(** What a code may be exchanged for. *)
Lemma missing_of_row_nil row : missing_of_row row = [] ->
  category (columns row) = Template /\ allowUserInput (columns row) = false /\ authType (columns row) <> ApiKey.
Proof using.
  unfold missing_of_row. case_bool_decide as E1; [|done]. destruct (allowUserInput (columns row)); [done|].
  case_bool_decide as E2; by intros.
Qed.

Lemma missing_of_config_nil c : missing_of_config (Some c) = [] -> rc_tokenUrl c <> ""%string /\ containsOAuthPlaceholder (rc_tokenUrl c) = false.
Proof using.
  cbn. intros [_ [H _]%app_eq_nil]%app_eq_nil. destruct (str_eqb (rc_tokenUrl c) "" || _) eqn:E; [done|].
  apply orb_false_iff in E as [E1%str_eqb_neq E2]. done.
Qed.

(** One code was exchanged, and what came of it sealed. *)
Definition sealed (e : json) (s : renewal) : Prop := rn_exchanges s = 1 /\ rn_sealed s = Some e.

(** It is stored, now or already. *)
Definition stored_is (e : json) (s : renewal) : Prop :=
  rn_written s = true \/ exists row, row ∈ rn_rows s /\ launchConfig (columns row) = stringify e.

Definition settled (e : json) (s : renewal) : Prop := sealed e s /\ stored_is e s.

Lemma quiet_settled e X (c : scall X) : quiet_call c = true -> preserves renewal_step renewal_check (settled e) c.
Proof using.
  intros Hc s x [H1 H2]. destruct c; try discriminate; try (by split); destruct x; cbn; try (by split).
  destruct (_ && _); by split.
Qed.

Lemma sealed_update e sid s : JStr sid = jfield_opt data "serverId" -> sealed e s ->
  wpr (updateServerLaunchConfig (JStr sid) (JStr (stringify e)) token) s (fun s r => forall b, r = Ok b -> settled e s).
Proof using.
  intros Hsid H. unfold updateServerLaunchConfig. apply wp_bind. intros [[row|]|f]; (split; [exact Hsid|]); [|done..].
  cbn [wp]. destruct (_ || _); [|done]. change (renewal_step s _) with (find_row s row).
  assert (H1 : sealed e (find_row s row)) by exact H. set (s1 := find_row s row) in *.
  assert (Hw : forall c, wpr (await! updated := ask (UpdateRow (JStr sid) [("launchConfig"%string, JStr (stringify e))]) in
      match c with
      | None => Ret (Ok false)
      | Some c =>
          await! u := ask (ReconnectServer updated token) in
          call! sessions := SessionsUsing (sid_of row) in
          bind! told := notify_by_context (sid_of row) c sessions in
          Ret (Ok true)
      end) s1 (fun s r => forall b : bool, r = Ok b -> settled e s)).
  { intros c. apply wp_bind. intros [updated|f]; (split; [split; [exact Hsid|]; exists e; split; [apply H1|done]|]); [|done]. cbn [wp].
    apply (keeps_wp _ _ (settled e)); [|split; [exact H1|by left]|by intros].
    pose proof (quiet_settled e). destruct c; keep. }
  intros context. split; [exact I|]. apply wp_bind. eapply (wp_mono _ _ _ _ s1 (fun s' (kept : bool) => s' = s1 /\ (kept = true -> settled e s1))).
  - case_bool_decide as E; [|by split].
    assert (Hs : settled e s1).
    { split; [exact H1|]. right. exists row. split; [apply elem_of_app; right; by left|]. by injection E. }
    case_bool_decide as Ec; [|by split]. unfold template_kept. destruct context as [c|]; [|by split]. intros t. by split.
  - intros s' [|] [-> Hk]; [|apply Hw]. intros b _. by apply Hk.
Qed.

Lemma rethrown_wp (p : SProg json) s (Q : renewal -> json -> Prop) :
  wpr p s (fun s' r => forall v, r = Ok v -> Q s' v) ->
  wpr (rethrown p) s (fun s' r => forall v, r = Ok v -> Q s' v).
Proof using. intros H. apply wp_bind. eapply wp_mono; [exact H|]. intros s' [v|[e|m]] Hr; [exact Hr|done..]. Qed.

(** The exchange of a renewal. *)
Record exchangeable (s : renewal) (row : ServerRow) (x : ReauthContext) (c : ReauthConfig) (id provider : string) : Prop := {
  xc_found : head (rn_rows s) = Some row;
  xc_first : rn_exchanges s = 0;
  xc_row : missing_of_row row = [];
  xc_config : missing_of_config (Some c) = [];
  xc_raw : c = serializeServerOAuthReauthConfig (raw_oauth_config row);
  xc_peta : rx_usesPeta x = usePetaOauthConfig (columns row);
  xc_client : context_client s row id;
  xc_provider : getOAuthProvider (JNum (auth_number (authType (columns row)))) = Some provider
}.

Lemma exchangeable_renewable s row x c id provider peta body :
  exchangeable s row x c id provider -> rx_usesPeta x = peta -> jfield_opt body "provider" = JStr provider ->
  (forall u, jfield_opt body "tokenUrl" = JStr u -> u = rc_tokenUrl c) ->
  jfield_opt body "code" = jfield_opt data "code" -> jfield_opt body "redirectUri" = jfield_opt data "redirectUri" ->
  jfield_opt body "codeVerifier" = jfield_opt data "pkceVerifier" ->
  renewable row peta body.
Proof using.
  intros [H0 H0' H1 H2 H3 H4 H5 H6] <- Hp Hu Hc Hr Hv. destruct (missing_of_row_nil row H1) as (A & B & C).
  destruct (missing_of_config_nil c H2) as [D E]. rewrite H3 in D, E. cbn in D, E. rewrite H4. split_and! ; try done; [by rewrite H6, Hp|].
  intros u ->%Hu. subst c. by split_and!.
Qed.

(** The exchange succeeded, and the new authorization carries its outcome. *)
Definition granted (s s' : renewal) (oauth : json) : Prop :=
  rn_exchanges s' = 1 /\ rn_opened s' = rn_opened s /\ exists g, rn_granted s' = Some g /\ carries (rn_clocks s') g oauth.

Lemma new_fields_nodup a r scope region ends :
  NoDup (keys ([("clientId", JNull); ("clientSecret", JNull); ("accessToken", JNull); ("refreshToken", JNull); ("expiresAt", JNull)]%string
    ++ provider_fields a r (field_if (present scope) "scope" scope) region ends)).
Proof using.
  unfold provider_fields, field_if. repeat (match goal with |- context [is_auth ?v ?k] => destruct (is_auth v k) end);
    destruct (present scope), ends; apply (bool_decide_unpack (NoDup _)); vm_compute; exact I.
Qed.

(** What is stored after an exchange at a provider. *)
Lemma new_field a r base scope region ends values k :
  NoDup (keys (values ++ provider_fields a r (field_if (present scope) "scope" scope) region ends)) ->
  forall v, assoc k values = Some v ->
  jfield_opt (extend (JObj base) (values ++ provider_fields a r (field_if (present scope) "scope" scope) region ends)) k = v.
Proof using.
  intros Hnd v Hv. rewrite assoc_extend by done. clear Hnd. revert Hv.
  induction values as [|[a' x'] l IH]; [done|]. cbn. destruct (str_eqb k a'); [by intros [= ->]|exact IH].
Qed.

Lemma intercom_provider (v : json) provider : is_auth v IntercomAuth = true -> getOAuthProvider v = Some provider -> provider = "intercom"%string.
Proof using. unfold is_auth. intros ->%bool_decide_eq_true. vm_compute. congruence. Qed.

Lemma custom_oauth_wp s row x c id provider a secret base scope :
  exchangeable s row x c id provider -> rx_usesPeta x = false ->
  getOAuthProvider (au_authType a) = Some (au_provider a) -> au_provider a = provider -> au_clientId a = JStr id ->
  au_tokenUrl a = JStr (rc_tokenUrl c) -> au_code a = jfield_opt data "code" -> au_redirectUri a = jfield_opt data "redirectUri" ->
  au_codeVerifier a = jfield_opt data "pkceVerifier" ->
  opened_field s "clientSecret" secret -> is_filled secret = true ->
  wpr (custom_oauth a secret base (field_if (present scope) "scope" scope)) s (fun s' r => forall v, r = Ok v -> granted s s' v).
Proof using.
  intros Hx Hpeta Hauth Hp Hid Hurl Hcode Huri Hver Hsec Hfill. unfold custom_oauth. apply rethrown_wp. apply wp_bind. intros answer. split.
  { split; [apply Hx|]. exists row. split; [apply Hx|]. pose proof (xc_client _ _ _ _ _ _ Hx) as Hc. unfold context_client in Hc.
    rewrite <- (xc_peta _ _ _ _ _ _ Hx), Hpeta in Hc. destruct Hc as [Hc1 Hc2]. split.
    - apply (exchangeable_renewable s row x c id provider); try done; cbn; [by rewrite Hp|].
      intros u. rewrite Hurl. by intros [= ->].
    - cbn [right_client]. cbn. rewrite Hid. done. }
  destruct answer as [r|e]; [|done]. cbn [wp renewal_step].
  match goal with |- context [FromProvider ?b r] => set (body := b) end. set (s1 := exchange s _).
  destruct (negb (is_auth (au_authType a) SlackAuth) || _); [|done]. destruct (truthy_str (ex_accessToken r) && _) eqn:Et; [|done].
  apply andb_true_iff in Et as [Et Er]. apply wp_bind.
  pose (ready (s2 : renewal) (t : Z) := rn_exchanges s2 = 1 /\ rn_opened s2 = rn_opened s /\ rn_granted s2 = Some (FromProvider body r)
    /\ match ex_expiresAt r with Some u => t = u | None => exists now, now ∈ rn_clocks s2 /\ t = now + 30 * 24 * 60 * 60 * 1000 end).
  assert (H1 : rn_exchanges s1 = 1) by (cbn; by rewrite (xc_first _ _ _ _ _ _ Hx)).
  eapply (wp_mono _ _ _ _ s1 ready).
  { unfold ready. destruct (ex_expiresAt r) as [t|]; [done|]. intros now. split; [exact I|]. split_and! ; try done.
    exists now. split; [by left|done]. }
  intros s2 t Ht. apply wp_bind. eapply (wp_mono _ _ _ _ s2 (fun s3 _ => s3 = s2)).
  { destruct (is_auth _ IntercomAuth); [by intros region|done]. }
  intros s3 [region|e] ->; [|done]. destruct (negb _ || _); [|done]. apply wp_bind.
  assert (Hend : forall ends s3, ready s3 t -> granted s s3 (extend (JObj base)
    ([("clientId", au_clientId a); ("clientSecret", secret); ("accessToken", JStr (ex_accessToken r));
      ("refreshToken", JStr (if truthy_ostr (ex_refreshToken r) then default ""%string (ex_refreshToken r) else INTERCOM_FAKE_REFRESH_TOKEN));
      ("expiresAt", JNum t)]%string ++ provider_fields a r (field_if (present scope) "scope" scope) region ends))).
  { intros ends s3 (E1 & E2 & E3 & E4). split; [done|]. split; [done|]. exists (FromProvider body r). split; [done|].
    match goal with |- context [extend (JObj base) (?vs ++ _)] =>
      assert (Hf : forall k v, assoc k vs = Some v ->
        jfield_opt (extend (JObj base) (vs ++ provider_fields a r (field_if (present scope) "scope" scope) region ends)) k = v)
        by (intros k v; apply new_field; exact (new_fields_nodup a r scope region ends))
    end.
    cbn [carries]. rewrite (Hf "clientId"%string _ eq_refl), (Hf "clientSecret"%string _ eq_refl), (Hf "accessToken"%string _ eq_refl),
      (Hf "refreshToken"%string _ eq_refl). split_and! ; try done.
    - intros E. by rewrite E in Et.
    - destruct (truthy_ostr (ex_refreshToken r)) eqn:E; [by destruct (ex_refreshToken r)|]. split; [done|].
      change (JStr (au_provider a) = JStr "intercom"). f_equal. by apply (intercom_provider (au_authType a)).
    - exists t. split; [by apply (Hf "expiresAt"%string)|exact E4]. }
  destruct (refresh_lifetime a r) as [n|]; [|intros v [= <-]; by apply Hend].
  intros now. split; [exact I|]. intros v [= <-]. apply Hend. destruct Ht as (E1 & E2 & E3 & E4). split_and! ; try done.
  destruct (ex_expiresAt r); [done|]. destruct E4 as (m & Hm & ->). exists m. split; [by right|done].
Qed.

Lemma reauthorized_wp s row x c id code uri verifier old provider :
  exchangeable s row x c id provider -> JStr code = jfield_opt data "code" -> JStr uri = jfield_opt data "redirectUri" ->
  verifier = jfield_opt data "pkceVerifier" ->
  (is_filled (jfield_opt old "clientSecret") = true -> opened_field s "clientSecret" (jfield_opt old "clientSecret")) ->
  wpr (reauthorized row x c id code uri verifier old provider token) s (fun s' r => forall v, r = Ok v -> granted s s' v).
Proof using.
  intros Hx Hcode Huri Hver Hold. unfold reauthorized. destruct (rx_usesPeta x) eqn:E.
  - apply wp_bind. intros [hashKey|e]; (split; [exact I|]); [|done]. unfold peta_oauth. destruct (_ || _); [|done].
    apply rethrown_wp. apply wp_bind. intros answer. split.
    + split; [apply Hx|]. exists row. split; [apply Hx|]. split.
      * apply (exchangeable_renewable s row x c id provider); try done. destruct (needs_tokenUrl _); by intros u [= Hu].
      * pose proof (xc_client _ _ _ _ _ _ Hx) as Hc. unfold context_client in Hc. by rewrite <- (xc_peta _ _ _ _ _ _ Hx), E in Hc.
    + destruct answer as [[ok answer]|e]; [|done]. cbn [wp fst snd]. destruct ok; [|done]. cbn [andb].
      destruct (_ && _) eqn:Et; [|done]. apply andb_true_iff in Et as [E1 E2]. intros v [= <-].
      split; [cbn; by rewrite (xc_first _ _ _ _ _ _ Hx)|]. split; [done|]. eexists. split; [done|]. done.
  - destruct (is_filled _) eqn:Ef; [|done]. apply (custom_oauth_wp s row x c id provider); try done; [apply Hx|by apply Hold].
Qed.

Lemma with_launch_wp text launch oauth sid s :
  JStr sid = jfield_opt data "serverId" -> rn_exchanges s = 1 -> head (rn_opened s) = Some text -> JSON_parse text = Some launch ->
  (exists g, rn_granted s = Some g /\ carries (rn_clocks s) g oauth) ->
  wpr (await! launch := given (put_oauth launch oauth) in
       await! text := encrypted_text (stringify launch) token in
       await! reconnected := updateServerLaunchConfig (JStr sid) text token in
       LogAdmin (JObj [("serverId", JStr sid); ("action", JStr "oauth_reauthorize")])%string !;
       ask (FindServer (JStr sid))) s (fun s' r => forall v, r = Ok v -> exists e, settled e s').
Proof using.
  intros Hsid H1 Ho Hp (g & Hg & Hc). unfold put_oauth, set_field, plain. destruct (jset launch "oauth" oauth) as [l|e] eqn:El; [|done].
  unfold try_bind at 1, given. cbn [pbind]. unfold encrypted_text. apply wp_bind. apply wp_bind. intros e. split.
  { split; [done|]. split; [done|]. exists g, text, launch, l. split_and! ; try done.
    - by rewrite (jset_same _ _ _ _ El eq_refl).
    - intros k Hk. by eapply jset_field. }
  destruct e as [e|e]; [|done]. cbn [wp]. apply wp_bind. eapply wp_mono; [apply (sealed_update e); [done|by split]|].
  intros s' [reconnected|f] Hs; [|done]. destruct (Hs reconnected eq_refl) as [H2 H3]. intros u. split; [exact I|].
  intros found. split; [exact Hsid|]. intros v _. exists e. destruct found as [[row|]|f]; cbn; try by split.
  split; [exact H2|]. destruct H3 as [H3|(row' & Hr & Hl)]; [by left|right]. exists row'. split; [|done]. apply elem_of_app. by left.
Qed.

Lemma reauthorize_wp :
  wpr (handleReauthorizeServerOAuth data token) renewal_start (fun s' r => forall v, r = Ok v -> exists e, settled e s').
Proof using.
  unfold handleReauthorizeServerOAuth, try_bind at 1 2 3, given. cbn [pbind].
  destruct (needed_text (jfield_opt data "serverId") _) as [sid|e] eqn:Esid; [|done]. cbn [pbind].
  destruct (needed_text (jfield_opt data "code") _) as [code|e] eqn:Ecode; [|done]. cbn [pbind].
  destruct (needed_text (jfield_opt data "redirectUri") _) as [uri|e] eqn:Euri; [|done]. cbn [pbind].
  apply needed_text_some in Esid, Ecode, Euri.
  set (ok := match jfield_opt data "pkceVerifier" with JUndefined | JStr _ => true | _ => false end). destruct ok; [|done].
  apply wp_bind. intros [[row|]|e]; (split; [exact Esid|]); [|done..]. cbn [wp].
  change (renewal_step renewal_start _) with (find_row renewal_start row). set (s := find_row renewal_start row).
  assert (Hs : head (rn_rows s) = Some row) by done.
  unfold try_bind at 1. destruct (reauthorize_allowed row) as [u|e]; [|done]. cbn [pbind].
  apply wp_bind. eapply wp_mono; [by apply build_context_wp|]. intros s1 x (Hs1 & Hav & Hc & Hp & Hcfg).
  assert (H1 : head (rn_rows s1) = Some row /\ rn_exchanges s1 = 0) by (destruct Hs1 as [->|[p ->]]; done). destruct H1 as [H1 H1'].
  destruct (rx_available x); [|done]. destruct (rx_oAuthConfig x) as [c|]; [|done]. destruct (rx_clientId x) as [id|]; [|done].
  destruct (Hav eq_refl) as [Hrow Hconf]. apply wp_bind. intros [plain_|e]; (split; [exact I|]); [|done]. cbn [wp].
  rewrite opened_step by done. set (s2 := open_config s1 plain_).
  unfold try_bind at 1, given, parsed_json. destruct (JSON_parse plain_) as [launch|] eqn:Epl; [|done]. cbn [pbind].
  unfold try_bind at 1. destruct (read_field launch "oauth") as [stored|e] eqn:Est; [|done]. cbn [pbind].
  destruct (getOAuthProvider _) as [provider|] eqn:Eg; [|done].
  apply wp_bind. eapply wp_mono; [apply (reauthorized_wp s2); try done|].
  - split; try done; [by apply Hcfg|]. specialize (Hc id eq_refl). unfold context_client in *.
    destruct (usePetaOauthConfig (columns row)); [done|]. destruct Hc as [Hc1 Hc2]. split; [by apply opened_more|done].
  - intros Hf. exists plain_, launch. split; [by left|]. split; [done|]. unfold read_field, plain in Est.
    destruct (jget launch "oauth") as [o|] eqn:Eo; [|done]. injection Est as <-. rewrite (jget_field _ _ _ Eo). by destruct o.
  - intros s3 [oauth|e] Hg; [|done]. destruct (Hg oauth eq_refl) as (G1 & G2 & G3).
    by apply (with_launch_wp plain_); [|..|rewrite G2| |].
Qed.
End Renewal.

(** ** Theorems *)

(** C28: Whatever an administrator asks, with whatever parameters, and whatever
    the server manager, the sessions, the encryption and the providers
    answer: the row the request is about, well-formed before (a rate between
    1 and 1000, a known category and kind of authentication, of a REST server
    a template with an API), is well-formed after; and what the server is
    (category, kind of authentication, who configures it, whose client) never
    changes.  The database is assumed to answer with its contents and to
    refuse columns of the wrong type. *)
Theorem server_rows_stay_valid jwt_secret req data token tr before after :
  table_ok before ->
  runs (serve jwt_secret req data token) tr (Some tt) ->
  fold_left table_step tr (Some before) = Some after ->
  table_ok after /\ kept before after.
Proof. intros Hok Hr Ht. pose proof (serve_inv before jwt_secret req data token tr Hok Hr) as H. by rewrite Ht in H. Qed.


(** ** A world to run in

    One row and the contexts of its server; what is encrypted is put into an
    envelope.  For examples. *)
Module World.

Record world : Type := { w_row : option ServerRow; w_context : option nat; w_temporary : list nat }.

Definition with_row (w : world) (r : option ServerRow) : world := {| w_row := r; w_context := w_context w; w_temporary := w_temporary w |}.
Definition put_context (w : world) (c : option nat) : world := {| w_row := w_row w; w_context := c; w_temporary := w_temporary w |}.

Definition none_changed : Changes := {| toolsChanged := false; resourcesChanged := false; promptsChanged := false |}.

Definition answer (X : Type) (e : scall X) (w : world) : X * world :=
  match e in scall X return X * world with
  | FindServer _ => (Ok (w_row w), w)
  | FindByProxy _ | FindServers _ => (Ok match w_row w with Some r => [r] | None => [] end, w)
  | CountServers => (Ok 1, w)
  | CreateRow _ => (Throw (Other "no row"), w)
  | UpdateRow _ data =>
      match w_row w with
      | Some r => match apply_update data r with Some r' => (Ok r', with_row w (Some r')) | None => (Throw (Other "invalid data"), w) end
      | None => (Throw (Other "no row"), w)
      end
  | DeleteRow _ => (Ok tt, with_row w None)
  | DeleteRowsByProxy _ => (Ok 1, with_row w None)
  | RemoveServerFromAllUsers _ => (Ok tt, w)
  | GetContext _ => (w_context w, w)
  | GetTemporaryServers _ => (w_temporary w, w)
  | GetOwnerToken => (Ok "token"%string, w)
  | ContextStatus _ => (Online, w)
  | ContextTemplate _ => (match w_row w with Some r => configTemplate (columns r) | None => None end, w)
  | ContextUser _ => ((None, None), w)
  | ContextChanged _ => (all_changed, w)
  | SetEntity _ _ | ClearConnection _ _ => (tt, w)
  | AddServer _ _ => (Ok 1%nat, put_context w (Some 1%nat))
  | AddSleepingServer _ => (Some 1%nat, put_context w (Some 1%nat))
  | RemoveServer _ => (Ok (w_context w), put_context w None)
  | CloseTemporaryServers _ => (Ok tt, {| w_row := w_row w; w_context := w_context w; w_temporary := [] |})
  | ReconnectServer _ _ => (Ok tt, w)
  | StartReconnect _ _ | StartReconnectTemporary _ _ _ => (tt, w)
  | UpdateCapabilitiesConfig _ _ => (Ok match w_context w with Some _ => all_changed | None => none_changed end, w)
  | ConnectAllServers _ => (Ok ([], []), w)
  | SessionsUsing _ => ([], w)
  | NotifyPermissionChanged _ | SendListChanged _ _ | LogAdmin _ => (tt, w)
  | Decrypt data _ => (Ok data, w)
  | Encrypt data _ => (Ok (JObj [("data"%string, JStr data)]), w)
  | Hash s => (Ok s, w)
  | PetaExchange _ => (Ok (true, JObj [("accessToken", JStr "at"); ("expiresAt", JNum 2000)]%string), w)
  | ExchangeCode _ => (Ok {| ex_accessToken := "at"; ex_refreshToken := Some "rt"%string; ex_expiresAt := Some 2000; ex_apiDomain := None; ex_raw := JObj [] |}, w)
  | FetchIntercomRegion _ => (Ok (JStr "us"), w)
  | DateNow => (1000, w)
  end.

Definition run {A} (p : prog scall A) (w : world) := run_with answer p w.
Definition trace {A} (p : prog scall A) (w : world) : list (event scall) := fst (fst (run p w)).
Definition left {A} (p : prog scall A) (w : world) : world := snd (run p w).

Definition row (cat : ServerCategory) (auth : ServerAuthType) (launch : string) (template : option string) (enabled_ input : bool) : ServerRow :=
  {| columns := {| serverId := "s1"; serverName := "S"; enabled := enabled_; launchConfig := launch; configured_capabilities := "{}";
       allowUserInput := input; publicAccess := false; authType := auth; category := cat; configTemplate := template; transportType := None;
       lazyStartEnabled := false; usePetaOauthConfig := false; proxyId := 0; row_cachedTools := None; row_cachedResources := None;
       row_cachedResourceTemplates := None; row_cachedPrompts := None |};
     anonymousAccess := false; anonymousRateLimit := 10 |}.

(** The server manager is asked to connect, again or anew. *)
Definition connects (ev : event scall) : bool :=
  match ev with
  | Ev _ e _ => match e with AddServer _ _ | ReconnectServer _ _ | StartReconnect _ _ | StartReconnectTemporary _ _ _ => true | _ => false end
  end.

Definition tells_context (ev : event scall) : bool :=
  match ev with Ev _ e _ => match e with UpdateCapabilitiesConfig _ _ => true | _ => false end end.

Definition cleans_users (ev : event scall) : bool :=
  match ev with Ev _ e _ => match e with RemoveServerFromAllUsers _ => true | _ => false end end.

(** *** Requests *)

Definition request_with (fields : list (string * json)) : json := JObj (("serverId", JStr "s1") :: ("targetId", JStr "s1") :: fields)%string.
Definition new_launch : list (string * json) := [("launchConfig", JStr "new")]%string.
Definition new_tool : list (string * json) := [("capabilities", JObj [("tools", JObj [("t", JObj [("enabled", JBool false)])])])]%string.
Definition new_rate : list (string * json) := [("anonymousRateLimit", JNum 20)]%string.
Definition on : list (string * json) := [("enabled", JBool true)]%string.

(** A remote server that runs, one that does not and has no configuration,
    and a template that users configure. *)
Definition remote : world := {| w_row := Some (row CustomRemote ApiKey "old" None true false); w_context := Some 1%nat; w_temporary := [] |}.
Definition unconfigured : world := {| w_row := Some (row CustomRemote ApiKey "" None false false); w_context := None; w_temporary := [] |}.
Definition template : world := {| w_row := Some (row Template NotionAuth "x" None false true); w_context := None; w_temporary := [2%nat] |}.

Definition updating (fields : list (string * json)) : prog scall unit := serve None UpdateServer (request_with fields) "t".

(** A new launch configuration sent with an update of a running server is
    stored, but the server is not reconnected: the row has been written when
    the change is looked for. *)
Example launch_config_not_applied :
  existsb connects (trace (updating new_launch) remote) = false
  /\ option_map (fun r => launchConfig (columns r)) (w_row (left (updating new_launch) remote)) = Some "new"%string
  /\ existsb connects (trace (serve None UpdateServerLaunchCmd (request_with new_launch) "t") remote) = true.
Proof. by vm_compute. Qed.

(** Nor does the running server learn of capabilities sent along with it. *)
Example capabilities_not_applied :
  existsb tells_context (trace (updating (new_tool ++ new_launch)) remote) = false
  /\ existsb tells_context (trace (updating new_tool) remote) = true.
Proof. by vm_compute. Qed.

(** Enabling a server that users configure connects the owner's row when it
    is done by an update, not when it is done by a start. *)
Example enabling_connects_template :
  existsb connects (trace (updating on) template) = true
  /\ existsb connects (trace (serve None StartServer (request_with []) "t") template) = false.
Proof. by vm_compute. Qed.

(** A start that is refused for the missing configuration leaves the server
    enabled. *)
Example refused_start_enables :
  (exists e, snd (fst (run (handleStartServer (request_with []) "t") unconfigured)) = Some (Throw (Admin e)) /\ admin_code e = INVALID_REQUEST)
  /\ option_map (fun r => enabled (columns r)) (w_row (left (handleStartServer (request_with []) "t") unconfigured)) = Some true.
Proof. split; [eexists; split|]; by vm_compute. Qed.

(** Deleting a proxy's servers leaves users' configurations of them. *)
Example proxy_deletion_keeps_configurations :
  existsb cleans_users (trace (serve None DeleteServersByProxy (JObj [("proxyId", JNum 0)])%string "t") template) = false
  /\ existsb cleans_users (trace (serve None DeleteServer (request_with []) "t") template) = true.
Proof. by vm_compute. Qed.

(** A template server of Notion's, with its own client. *)
Definition notion_template : string :=
  stringify (JObj [("oAuthConfig", JObj [("authorizationUrl", JStr "https://a"); ("tokenUrl", JStr "https://t"); ("responseType", JStr "code")])])%string.
Definition notion_launch : string := stringify (JObj [("oauth", JObj [("clientId", JStr "id"); ("clientSecret", JStr "secret")])])%string.
Definition notion : world := {| w_row := Some (row Template NotionAuth notion_launch (Some notion_template) true false); w_context := Some 1%nat; w_temporary := [] |}.
Definition renew_request : json := request_with [("code", JStr "c"); ("redirectUri", JStr "https://r")]%string.
End World.

Lemma server_rows_stay_valid_witness :
  option_map anonymousRateLimit (World.w_row (World.left (World.updating World.new_rate) World.remote)) = Some 20
  /\ table_ok (World.w_row (World.left (World.updating World.new_rate) World.remote))
  /\ kept (World.w_row World.remote) (World.w_row (World.left (World.updating World.new_rate) World.remote)).
Proof.
  split; [by vm_compute|].
  refine (server_rows_stay_valid None UpdateServer (World.request_with World.new_rate) "t" (World.trace (World.updating World.new_rate) World.remote) _ _ _ _ _).
  - cbn. unfold row_ok. cbn. split; [lia|]. split; [lia|]. by split; [lia|].
  - apply run_with_result. by vm_compute.
  - by vm_compute.
Defined.

