(* ===== verification/ProviderTokens.v ===== *)
(** * Tokens of OAuth providers

    [src/src/mcp/oauth/]: the exchange of an authorization code, with an
    adapter per provider; [src/src/mcp/auth/]: the strategies that keep an
    access token fresh.  Requests over the network, the text of a response and
    the clock are calls; what a response says is whatever a provider sends.
    A configuration is a JavaScript object.  A number that may be [NaN] is an
    [option Z]; stored in a configuration it is [null], which every reader of
    a configuration treats alike.  Everything thrown is an [Error]. *)
From Stdlib Require Import Ascii ZArith Lia.
From stdpp Require Import base strings list.
From S2P Require Import Prelude Json JsMap CacheSerializer Effects ServerTypes.
Open Scope Z_scope.

(** ** The network *)

Inductive HttpMethod : Type := GET | POST.

(** A form ([URLSearchParams]) or a JSON text. *)
Inductive RequestBody : Type := Form (fields : list (string * string)) | JsonText (v : json) | NoBody.

Record ProviderRequest : Type := { rq_headers : list (string * string); rq_body : RequestBody }.

Inductive pcall : Type -> Type :=
| Fetch (url : string) (m : HttpMethod) (r : ProviderRequest) : pcall (result exn Z)
| ResponseText : pcall (result exn string)
| ClockNow : pcall Z.

Definition PProg (F A : Type) : Type := prog pcall (result F A).

Definition response_ok (status : Z) : bool := (200 <=? status) && (status <=? 299).

(** ** Values *)

(** [Number(v)]; of the texts, whole decimal numbers are numbers here. *)
Definition number_of_text (s : string) : option Z :=
  let t := trim s in
  if str_eqb t "" then Some 0
  else let '(negative, digits) := sign_and_rest t in
       if str_eqb (take_while is_digit digits) digits then option_map (fun n => if negative then - n else n) (parse_nat digits) else None.

Definition to_number (v : json) : option Z :=
  match v with
  | JUndefined => None
  | JNull => Some 0
  | JBool b => Some (if b then 1 else 0)
  | JNum n => Some n
  | v => number_of_text (js_String v)
  end.

Definition number_json (n : option Z) : json := match n with Some n => JNum n | None => JNull end.

(** [now + seconds * 1000] *)
Definition later (now : Z) (seconds : option Z) : option Z := option_map (fun s => now + s * 1000) seconds.

Definition number_given (v : json) : option Z := match v with JNum n => Some n | _ => None end.
Definition blank (s : string) : bool := str_eqb (trim s) "".
Definition text_with_content (v : json) : option string := match v with JStr s => if blank s then None else Some s | _ => None end.
Definition only_text (v : json) : option string := match v with JStr s => Some s | _ => None end.

(** [`${v}`] *)
Definition shown_as (v : json) : string := js_String v.

(** [Buffer.from(s).toString('base64')] *)
Definition base64_digit (n : Z) : ascii :=
  ascii_of_nat (Z.to_nat (if n <? 26 then n + 65 else if n <? 52 then n + 71 else if n <? 62 then n - 4 else if n =? 62 then 43 else 47)).

Definition unit_of (c : ascii) : Z := Z.of_nat (nat_of_ascii c).

Fixpoint base64_bytes (s : string) : string :=
  match s with
  | String a (String b (String c s)) =>
      let n := unit_of a * 65536 + unit_of b * 256 + unit_of c in
      String (base64_digit (n / 262144)) (String (base64_digit (n / 4096 mod 64))
        (String (base64_digit (n / 64 mod 64)) (String (base64_digit (n mod 64)) (base64_bytes s))))
  | String a (String b EmptyString) =>
      let n := unit_of a * 1024 + unit_of b * 4 in
      String (base64_digit (n / 4096)) (String (base64_digit (n / 64 mod 64)) (String (base64_digit (n mod 64)) "="))
  | String a EmptyString =>
      let n := unit_of a * 16 in String (base64_digit (n / 64)) (String (base64_digit (n mod 64)) "==")
  | EmptyString => ""
  end.
Definition base64_encode (s : string) : string := base64_bytes (utf8_encode s).

Definition basic (id secret : json) : string * string :=
  ("Authorization", "Basic " +:+ base64_encode (shown_as id +:+ ":" +:+ shown_as secret))%string.
Definition form_type : string * string := ("Content-Type", "application/x-www-form-urlencoded")%string.
Definition json_type : string * string := ("Content-Type", "application/json")%string.
Definition accept_json : string * string := ("Accept", "application/json")%string.

Definition form (fields : list (string * json)) : RequestBody := Form (map (fun kv => (fst kv, shown_as (snd kv))) fields).

(** ** Exchanging a code *)

Module Exchange.

(** [ExchangeContext] *)
Record ExchangeContext : Type := {
  provider : string;
  tokenUrl : json;
  clientId : json;
  clientSecret : json;
  code : json;
  redirectUri : json;
  codeVerifier : json;
  scope : json;
  tokenMode : json
}.

Inductive OAuthExchangeErrorType : Type := HttpFailure | ParseFailure | UnknownProvider.

Record OAuthExchangeError : Type := {
  e_message : string;
  e_type : OAuthExchangeErrorType;
  e_provider : string;
  e_status : option Z;
  e_responseBody : option string
}.

(** Thrown: an [OAuthExchangeError], or another error. *)
Inductive failure : Type := ExchangeFailed (e : OAuthExchangeError) | OtherError (e : exn).

Definition http_error (p : string) (status : Z) (body : string) : failure :=
  ExchangeFailed {| e_message := "OAuth token exchange failed for " +:+ p +:+ ": HTTP " +:+ z_to_string status; e_type := HttpFailure; e_provider := p;
                    e_status := Some status; e_responseBody := Some body |}.
Definition parse_error (p body : string) : failure :=
  ExchangeFailed {| e_message := "Failed to parse OAuth response for " +:+ p; e_type := ParseFailure; e_provider := p; e_status := None;
                    e_responseBody := Some body |}.
Definition unknown_provider (p : string) : failure :=
  ExchangeFailed {| e_message := "Unknown OAuth provider: " +:+ p; e_type := UnknownProvider; e_provider := p; e_status := None; e_responseBody := None |}.
Definition missing_token (p m : string) (data : json) : failure :=
  ExchangeFailed {| e_message := m; e_type := ParseFailure; e_provider := p; e_status := None; e_responseBody := JSON_stringify data |}.

(** [NormalizedTokenResponse] *)
Record NormalizedTokenResponse : Type := {
  n_accessToken : string;
  n_refreshToken : option string;
  n_apiDomain : option string;
  n_expiresIn : option Z
}.

(** [ProviderAdapter] *)
Record ProviderAdapter : Type := {
  a_name : string;
  a_tokenUrl : option string;
  a_getTokenUrl : option (ExchangeContext -> string);
  a_buildRequest : ExchangeContext -> ProviderRequest;
  a_parseResponse : option (json -> ExchangeContext -> result failure NormalizedTokenResponse);
  a_defaultExpiresIn : option Z
}.

Definition adapter (name : string) (url : option string) (default_ : option Z) (build : ExchangeContext -> ProviderRequest) : ProviderAdapter :=
  {| a_name := name; a_tokenUrl := url; a_getTokenUrl := None; a_buildRequest := build; a_parseResponse := None; a_defaultExpiresIn := default_ |}.

Definition given (k : string) (v : json) : list (string * json) := if js_truthy v then [(k, v)] else [].
Definition grant : string * json := ("grant_type", JStr "authorization_code")%string.
Definition client (c : ExchangeContext) : list (string * json) := [("client_id", clientId c); ("client_secret", clientSecret c)]%string.
Definition code_and_uri (c : ExchangeContext) : list (string * json) := [("code", code c); ("redirect_uri", redirectUri c)]%string.
Definition verifier (c : ExchangeContext) : list (string * json) := given "code_verifier" (codeVerifier c).

Definition canvaAdapter := adapter "canva" (Some "https://api.canva.com/rest/v1/oauth/token"%string) None (fun c =>
  {| rq_headers := [form_type; basic (clientId c) (clientSecret c)]; rq_body := form (grant :: code_and_uri c ++ verifier c) |}).
Definition canvasAdapter := adapter "canvas" None None (fun c =>
  {| rq_headers := [form_type]; rq_body := form (grant :: client c ++ code_and_uri c ++ verifier c) |}).
Definition figmaAdapter := adapter "figma" (Some "https://api.figma.com/v1/oauth/token"%string) None (fun c =>
  {| rq_headers := [form_type; basic (clientId c) (clientSecret c)]; rq_body := form (grant :: code_and_uri c) |}).
Definition githubAdapter := adapter "github" (Some "https://github.com/login/oauth/access_token"%string) (Some (8 * 60 * 60)) (fun c =>
  {| rq_headers := [form_type; accept_json]; rq_body := form (client c ++ code_and_uri c ++ verifier c) |}).
Definition googleAdapter := adapter "google" (Some "https://oauth2.googleapis.com/token"%string) None (fun c =>
  {| rq_headers := [form_type]; rq_body := form (grant :: client c ++ code_and_uri c ++ verifier c) |}).
Definition hubspotAdapter := adapter "hubspot" (Some "https://api.hubapi.com/oauth/v3/token"%string) (Some (30 * 60)) (fun c =>
  {| rq_headers := [form_type]; rq_body := form (grant :: client c ++ code_and_uri c) |}).
Definition intercomAdapter := adapter "intercom" (Some "https://api.intercom.io/auth/eagle/token"%string) None (fun c =>
  {| rq_headers := [form_type]; rq_body := form (("code"%string, code c) :: client c) |}).
Definition notionAdapter := adapter "notion" (Some "https://api.notion.com/v1/oauth/token"%string) (Some (30 * 24 * 60 * 60)) (fun c =>
  {| rq_headers := [json_type; basic (clientId c) (clientSecret c)]; rq_body := JsonText (JObj (grant :: code_and_uri c)) |}).
Definition pipedriveAdapter := adapter "pipedrive" (Some "https://oauth.pipedrive.com/oauth/token"%string) None (fun c =>
  {| rq_headers := [accept_json; form_type; basic (clientId c) (clientSecret c)]; rq_body := form (grant :: code_and_uri c) |}).
Definition stripeAdapter := adapter "stripe" (Some "https://api.stripe.com/v1/oauth/token"%string) None (fun c =>
  {| rq_headers := [form_type; basic (clientSecret c) (JStr "")]; rq_body := form [grant; ("code"%string, code c)] |}).
Definition zendeskAdapter := adapter "zendesk" None None (fun c =>
  {| rq_headers := [json_type];
     rq_body := JsonText (JObj (grant :: client c ++ code_and_uri c
                  ++ [("expires_in", JNum 172800); ("refresh_token_expires_in", JNum 7776000)]%string ++ given "scope" (scope c) ++ verifier c)) |}).

Definition object_or_none (v : json) : option json := match v with JObj _ | JArr _ => Some v | _ => None end.

(** Whose token is meant: ['user'], ['bot'] or anything else given. *)
Definition slack_mode (mode : json) (user_has_token : bool) : json :=
  match mode with
  | JStr m => if str_eqb m "auto" then (if user_has_token then JStr "user" else JStr "bot") else mode
  | JUndefined | JNull => JStr "user"
  | _ => mode
  end.

Definition is_user_mode (mode : json) : bool := bool_decide (mode = JStr "user").

Definition normalizeSlackTokenResponse (data : json) (c : ExchangeContext) : result failure NormalizedTokenResponse :=
  let authedUser := object_or_none (jfield_opt data "authed_user") in
  let mode := slack_mode (tokenMode c) (match authedUser with Some u => is_string (jfield_opt u "access_token") | None => false end) in
  let payload := if is_user_mode mode then default (JObj []) authedUser else data in
  match text_with_content (jfield_opt payload "access_token") with
  | None => Throw (missing_token (provider c)
      ("Slack OAuth response missing " +:+ (if is_user_mode mode then "authed_user.access_token" else "access_token")
       +:+ " for tokenMode='" +:+ shown_as mode +:+ "'") data)
  | Some t => Ok {| n_accessToken := t; n_refreshToken := only_text (jfield_opt payload "refresh_token"); n_apiDomain := None;
                    n_expiresIn := number_given (jfield_opt payload "expires_in") |}
  end.

Definition slackAdapter : ProviderAdapter :=
  {| a_name := "slack"; a_tokenUrl := Some "https://slack.com/api/oauth.v2.access"%string; a_getTokenUrl := None;
     a_buildRequest := fun c => {| rq_headers := [form_type]; rq_body := form (("code"%string, code c) :: client c ++ [("redirect_uri"%string, redirectUri c)]) |};
     a_parseResponse := Some normalizeSlackTokenResponse; a_defaultExpiresIn := Some (12 * 60 * 60) |}.

Definition providers : list (string * ProviderAdapter) :=
  [("google", googleAdapter); ("notion", notionAdapter); ("figma", figmaAdapter); ("github", githubAdapter); ("stripe", stripeAdapter);
   ("zendesk", zendeskAdapter); ("canvas", canvasAdapter); ("canva", canvaAdapter); ("pipedrive", pipedriveAdapter); ("hubspot", hubspotAdapter);
   ("intercom", intercomAdapter); ("slack", slackAdapter)]%string.

Definition getProviderAdapter (p : string) : result failure ProviderAdapter :=
  match assoc (to_lower p) providers with Some a => Ok a | None => Throw (unknown_provider p) end.

Definition resolveTokenUrl (c : ExchangeContext) (a : ProviderAdapter) : result failure string :=
  if js_truthy (tokenUrl c) then Ok (shown_as (tokenUrl c))
  else match a_getTokenUrl a with
       | Some f => Ok (f c)
       | None =>
           match a_tokenUrl a with
           | Some u => Ok u
           | None => Throw (ExchangeFailed {| e_message := "No token URL available for provider '" +:+ provider c
                                                +:+ "'. This provider requires ctx.tokenUrl to be specified.";
                                              e_type := HttpFailure; e_provider := provider c; e_status := None; e_responseBody := None |})
           end
       end.

Definition fetch_error (p : string) (e : exn) : failure :=
  ExchangeFailed {| e_message := "OAuth token exchange failed for " +:+ p +:+ ": " +:+ message e; e_type := HttpFailure; e_provider := p;
                    e_status := None; e_responseBody := None |}.

Definition parsed_body (p raw : string) : result failure json :=
  if str_eqb raw "" then Ok (JObj []) else match JSON_parse raw with Some v => Ok v | None => Throw (parse_error p raw) end.

(** [oauthHttpPost]; the answer's data *)
Definition oauthHttpPost (url : string) (r : ProviderRequest) (p : string) : PProg failure json :=
  call! response := Fetch url POST r in
  match response with
  | Throw e => Ret (Throw (fetch_error p e))
  | Ok status =>
      call! text := ResponseText in
      match text with
      | Throw e => Ret (Throw (OtherError e))
      | Ok raw =>
          await! data := Ret (parsed_body p raw) in
          if negb (response_ok status) then Ret (Throw (http_error p status raw))
          else match jget data "error" with
               | Throw e => Ret (Throw (OtherError e))
               | Ok error => Ret (if js_truthy error then Throw (parse_error p raw) else Ok data)
               end
      end
  end.

Definition normalizeTokenResponse (data : json) (c : ExchangeContext) (a : ProviderAdapter) : result failure NormalizedTokenResponse :=
  match a_parseResponse a with
  | Some parse => parse data c
  | None =>
      match text_with_content (jfield_opt data "access_token") with
      | None => Throw (missing_token (provider c) "No access token found in response" data)
      | Some t => Ok {| n_accessToken := t; n_refreshToken := only_text (jfield_opt data "refresh_token");
                        n_apiDomain := text_with_content (jfield_opt data "api_domain"); n_expiresIn := number_given (jfield_opt data "expires_in") |}
      end
  end.

(** [ExchangeResult] *)
Record ExchangeResult : Type := {
  x_accessToken : string;
  x_refreshToken : option string;
  x_apiDomain : option string;
  x_expiresIn : option Z;
  x_expiresAt : option Z;
  x_raw : json
}.

Definition resolveExpires (response default_ : option Z) : prog pcall (option Z * option Z) :=
  match (match response with Some n => Some n | None => default_ end) with
  | None => Ret (None, None)
  | Some n => call! now := ClockNow in Ret (Some n, Some (now + n * 1000))
  end.

Definition exchangeAuthorizationCode (c : ExchangeContext) : PProg failure ExchangeResult :=
  await! a := Ret (getProviderAdapter (provider c)) in
  await! url := Ret (resolveTokenUrl c a) in
  await! data := oauthHttpPost url (a_buildRequest a c) (provider c) in
  await! n := Ret (normalizeTokenResponse data c a) in
  bind! e := resolveExpires (n_expiresIn n) (a_defaultExpiresIn a) in
  Ret (Ok {| x_accessToken := n_accessToken n; x_refreshToken := n_refreshToken n; x_apiDomain := n_apiDomain n; x_expiresIn := fst e;
             x_expiresAt := snd e; x_raw := data |}).
End Exchange.

(** ** Keeping a token fresh *)

Module Strategy.

(** A configuration, as the object it is. *)
Definition config : Type := list (string * json).
Definition conf (k : string) (c : config) : json := default JUndefined (assoc k c).
Definition set_conf (k : string) (v : json) (c : config) : config := obj_put k v c.
Definition pick (ks : list string) (c : config) : config := map (fun k => (k, conf k c)) ks.

(** [StrategyToken] *)
Record StrategyToken : Type := { accessToken : json; expiresIn : option Z; expiresAt : option Z }.

Record state : Type := { cfg : config; configChanged : bool }.

(** What the response grants: the token and the seconds it lives. *)
Record Granted : Type := { g_accessToken : json; g_expiresIn : option Z }.

(** The parts in which the strategies differ: what a configuration needs, the
    request, what a response has to hold, and what is kept of it ([expiresAt]
    given); [None]: nothing is kept. *)
Record AuthStrategy : Type := {
  s_label : string;
  s_required : list string;
  s_endpoint : config -> string;
  s_request : config -> ProviderRequest;
  s_granted : config -> json -> result exn Granted;
  s_keep : option (config -> json -> Granted -> option Z -> prog pcall config);
  s_current : config -> config
}.

Definition EXPIRY_BUFFER : Z := 5 * 60 * 1000.

(** [validateConfig] *)
Definition validateConfig (label : string) (required : list string) (c : config) : result exn unit :=
  match List.find (fun k => negb (js_truthy (conf k c))) required with
  | Some k => Throw (Error (label +:+ " OAuth: " +:+ k +:+ " is required"))
  | None => Ok tt
  end.

Definition new_strategy (S : AuthStrategy) (c : config) : result exn state :=
  match validateConfig (s_label S) (s_required S) c with Ok _ => Ok {| cfg := c; configChanged := false |} | Throw e => Throw e end.

(** The token of the configuration, if it is good for five more minutes. *)
Definition cached (c : config) (now : Z) : option StrategyToken :=
  match to_number (conf "expiresAt" c) with
  | Some at_ => if now <? at_ - EXPIRY_BUFFER
                then Some {| accessToken := conf "accessToken" c; expiresIn := Some ((at_ - now) / 1000); expiresAt := Some at_ |} else None
  | None => None
  end.

Definition has_cache (c : config) : bool := js_truthy (conf "accessToken" c) && js_truthy (conf "expiresAt" c).

(** [try { ... } catch (error) { throw new Error(`... error: ${error.message}`) }] *)
Definition refresh_failed (label : string) (e : exn) : exn := Error (label +:+ " OAuth token refresh error: " +:+ message e).

(** The request and the data of its response. *)
Definition request_token (S : AuthStrategy) (c : config) : PProg exn json :=
  call! response := Fetch (s_endpoint S c) POST (s_request S c) in
  match response with
  | Throw e => Ret (Throw e)
  | Ok status =>
      call! text := ResponseText in
      match text with
      | Throw e => Ret (Throw e)
      | Ok raw =>
          if negb (response_ok status)
          then Ret (Throw (Error (s_label S +:+ " OAuth token refresh failed (" +:+ z_to_string status +:+ "): " +:+ raw)))
          else Ret (match JSON_parse raw with Some v => Ok v | None => Throw SyntaxError end)
      end
  end.

Definition fresh_token (S : AuthStrategy) (st : state) : PProg exn (StrategyToken * state) :=
  await! data := request_token S (cfg st) in
  await! g := Ret (s_granted S (cfg st) data) in
  call! now := ClockNow in
  let at_ := later now (g_expiresIn g) in
  bind! st := (match s_keep S with
               | Some keep => bind! c := keep (cfg st) data g at_ in Ret {| cfg := c; configChanged := true |}
               | None => Ret st
               end) in
  Ret (Ok ({| accessToken := g_accessToken g; expiresIn := g_expiresIn g; expiresAt := at_ |}, st)).

(** The cached token, or else a fresh one. *)
Definition from_cache_or (st : state) (fresh : PProg exn (StrategyToken * state)) : PProg exn (StrategyToken * state) :=
  if has_cache (cfg st) then
    call! now := ClockNow in
    match cached (cfg st) now with Some t => Ret (Ok (t, st)) | None => fresh end
  else fresh.

(** [refreshToken]; [getInitialToken] is the same. *)
Definition refreshToken (S : AuthStrategy) (st : state) : PProg exn (StrategyToken * state) :=
  from_cache_or st (bind! r := fresh_token S st in
                 Ret (match r with Ok x => Ok x | Throw e => Throw (refresh_failed (s_label S) e) end)).

Definition getCurrentOAuthConfig (S : AuthStrategy) (st : state) : option config :=
  match s_keep S with
  | Some _ => if configChanged st then Some (s_current S (cfg st)) else None
  | None => None
  end.

Definition markConfigAsPersisted (st : state) : state := {| cfg := cfg st; configChanged := false |}.

(** *** The providers' parts

    Each class is its record here: run by the functions above, it is the whole
    of [getInitialToken], [refreshToken] and [getCurrentOAuthConfig]. *)

Definition basic_auth (c : config) : string * string := basic (conf "clientId" c) (conf "clientSecret" c).
Definition refresh_grant : string * json := ("grant_type", JStr "refresh_token")%string.
Definition refresh_field (c : config) : string * json := ("refresh_token"%string, conf "refreshToken" c).
Definition client_fields (c : config) : list (string * json) := [("client_id", conf "clientId" c); ("client_secret", conf "clientSecret" c)]%string.

Definition missing_field {A} (label field : string) : result exn A := Throw (Error (label +:+ " OAuth token refresh failed: missing " +:+ field)).

(** [data.k], which has to be there. *)
Definition needed (label : string) (data : json) (k : string) : result exn json :=
  try! v := jget data k in if js_truthy v then Ok v else missing_field label k.

(** [typeof data.expires_in === 'number' ? data.expires_in : default] *)
Definition expires_or (data : json) (default_ : option Z) : option Z :=
  match jfield_opt data "expires_in" with JNum n => Some n | _ => default_ end.

Definition credentials : list string := ["clientId"; "clientSecret"; "refreshToken"]%string.
Definition stored : list string := ["clientId"; "clientSecret"; "refreshToken"; "accessToken"; "expiresAt"]%string.

Definition keep_token (g : Granted) (at_ : option Z) (c : config) : config :=
  set_conf "expiresAt" (number_json at_) (set_conf "accessToken" (g_accessToken g) c).

(** [if (data.refresh_token) this.config.refreshToken = data.refresh_token] *)
Definition rotate (v : json) (c : config) : config := if js_truthy v then set_conf "refreshToken" v c else c.

Definition canva : AuthStrategy :=
  {| s_label := "Canva"; s_required := credentials; s_endpoint := fun _ => "https://api.canva.com/rest/v1/oauth/token"%string;
     s_request := fun c => {| rq_headers := [form_type; basic_auth c]; rq_body := form [refresh_grant; refresh_field c] |};
     s_granted := fun _ data =>
       try! t := needed "Canva" data "access_token" in
       try! r := needed "Canva" data "refresh_token" in
       Ok {| g_accessToken := t; g_expiresIn := expires_or data (Some (4 * 60 * 60)) |};
     s_keep := Some (fun c data g at_ => Ret (set_conf "refreshToken" (jfield_opt data "refresh_token") (keep_token g at_ c)));
     s_current := pick stored |}.

Definition figma : AuthStrategy :=
  {| s_label := "Figma"; s_required := credentials; s_endpoint := fun _ => "https://api.figma.com/v1/oauth/refresh"%string;
     s_request := fun c => {| rq_headers := [form_type; basic_auth c]; rq_body := form [refresh_field c] |};
     s_granted := fun _ data =>
       try! e := jget data "expires_in" in
       Ok {| g_accessToken := jfield_opt data "access_token"; g_expiresIn := to_number e |};
     s_keep := Some (fun c _ g at_ => Ret (keep_token g at_ c));
     s_current := pick stored |}.

Definition github : AuthStrategy :=
  {| s_label := "GitHub"; s_required := credentials; s_endpoint := fun _ => "https://github.com/login/oauth/access_token"%string;
     s_request := fun c => {| rq_headers := [form_type; accept_json]; rq_body := form (client_fields c ++ [refresh_grant; refresh_field c]) |};
     s_granted := fun _ data =>
       try! t := needed "GitHub" data "access_token" in
       Ok {| g_accessToken := t; g_expiresIn := expires_or data (Some (8 * 60 * 60)) |};
     s_keep := Some (fun c data g at_ =>
       let c := rotate (jfield_opt data "refresh_token") (keep_token g at_ c) in
       match jfield_opt data "refresh_token_expires_in" with
       | JNum n => call! now := ClockNow in Ret (set_conf "refreshTokenExpiresAt" (JNum (now + n * 1000)) c)
       | _ => Ret c
       end);
     s_current := pick (stored ++ ["refreshTokenExpiresAt"%string]) |}.

Definition google : AuthStrategy :=
  {| s_label := "Google"; s_required := credentials; s_endpoint := fun _ => "https://oauth2.googleapis.com/token"%string;
     s_request := fun c => {| rq_headers := [form_type]; rq_body := form (client_fields c ++ [refresh_field c; refresh_grant]) |};
     s_granted := fun _ data =>
       try! e := jget data "expires_in" in
       Ok {| g_accessToken := jfield_opt data "access_token"; g_expiresIn := to_number e |};
     s_keep := None; s_current := pick [] |}.

Definition hubspot : AuthStrategy :=
  {| s_label := "HubSpot"; s_required := credentials; s_endpoint := fun _ => "https://api.hubapi.com/oauth/v3/token"%string;
     s_request := fun c => {| rq_headers := [form_type]; rq_body := form (refresh_grant :: client_fields c ++ [refresh_field c]) |};
     s_granted := fun _ data =>
       try! t := needed "HubSpot" data "access_token" in
       Ok {| g_accessToken := t; g_expiresIn := expires_or data (Some (30 * 60)) |};
     s_keep := Some (fun c data g at_ => Ret (rotate (jfield_opt data "refresh_token") (keep_token g at_ c)));
     s_current := pick stored |}.

Definition notion : AuthStrategy :=
  {| s_label := "Notion"; s_required := credentials; s_endpoint := fun _ => "https://api.notion.com/v1/oauth/token"%string;
     s_request := fun c => {| rq_headers := [accept_json; json_type; basic_auth c]; rq_body := JsonText (JObj [refresh_grant; refresh_field c]) |};
     s_granted := fun _ data =>
       try! t := jget data "access_token" in
       Ok {| g_accessToken := t; g_expiresIn := Some (30 * 24 * 60 * 60) |};
     s_keep := Some (fun c data g at_ => Ret (set_conf "refreshToken" (jfield_opt data "refresh_token") (keep_token g at_ c)));
     s_current := pick stored |}.

Definition pipedrive : AuthStrategy :=
  {| s_label := "Pipedrive"; s_required := credentials; s_endpoint := fun _ => "https://oauth.pipedrive.com/oauth/token"%string;
     s_request := fun c => {| rq_headers := [accept_json; form_type; basic_auth c]; rq_body := form [refresh_grant; refresh_field c] |};
     s_granted := fun _ data =>
       try! t := needed "Pipedrive" data "access_token" in
       Ok {| g_accessToken := t; g_expiresIn := expires_or data (Some (60 * 60)) |};
     s_keep := Some (fun c data g at_ =>
       let c := match text_with_content (jfield_opt data "api_domain") with
                | Some d => set_conf "apiDomain" (JStr d) (keep_token g at_ c)
                | None => set_conf "apiDomain" (conf "apiDomain" c) (keep_token g at_ c)
                end in
       Ret (rotate (jfield_opt data "refresh_token") c));
     s_current := pick (stored ++ ["apiDomain"%string]) |}.

(** [normalizeResponse]: where the token is. *)
Definition slack_payload (c : config) (data : json) : json :=
  let user := if js_truthy (jfield_opt data "authed_user") then Exchange.object_or_none (jfield_opt data "authed_user") else None in
  let mode := Exchange.slack_mode (conf "tokenMode" c) (match user with Some u => js_truthy (jfield_opt u "access_token") | None => false end) in
  if Exchange.is_user_mode mode then default JUndefined user else data.

Definition slack_missing (c : config) (data : json) : string :=
  let user := if js_truthy (jfield_opt data "authed_user") then Exchange.object_or_none (jfield_opt data "authed_user") else None in
  let mode := Exchange.slack_mode (conf "tokenMode" c) (match user with Some u => js_truthy (jfield_opt u "access_token") | None => false end) in
  (if Exchange.is_user_mode mode then "authed_user.access_token" else "access_token") +:+ " for tokenMode='" +:+ shown_as mode +:+ "'".

(** [v ?? w] *)
Definition or_value (v w : json) : json := match v with JUndefined | JNull => w | _ => v end.

Definition slack : AuthStrategy :=
  {| s_label := "Slack"; s_required := credentials; s_endpoint := fun _ => "https://slack.com/api/oauth.v2.access"%string;
     s_request := fun c => {| rq_headers := [form_type]; rq_body := form (refresh_grant :: client_fields c ++ [refresh_field c]) |};
     s_granted := fun c data =>
       try! _ := jget data "authed_user" in
       let payload := slack_payload c data in
       let t := jfield_opt payload "access_token" in
       if js_truthy t then Ok {| g_accessToken := t; g_expiresIn := to_number (or_value (jfield_opt payload "expires_in") (JNum (12 * 60 * 60))) |}
       else missing_field "Slack" (slack_missing c data);
     s_keep := Some (fun c data g at_ =>
       Ret (rotate (jfield_opt (slack_payload c data) "refresh_token")
              (set_conf "tokenMode" (or_value (conf "tokenMode" c) (JStr "user")) (keep_token g at_ c))));
     s_current := fun c => pick stored c ++ [("tokenMode"%string, or_value (conf "tokenMode" c) (JStr "user"))] |}.

Definition zendesk_lifetime (c : config) : json := or_value (conf "expiresInSeconds" c) (JNum 172800).
Definition zendesk_refresh_lifetime (c : config) : json := or_value (conf "refreshTokenExpiresInSeconds" c) (JNum 7776000).

Definition zendesk_fields : list string :=
  ["clientId"; "clientSecret"; "refreshToken"; "tokenUrl"; "scope"; "accessToken"; "expiresAt"; "refreshTokenExpiresAt"; "expiresInSeconds";
   "refreshTokenExpiresInSeconds"]%string.

Definition zendesk : AuthStrategy :=
  {| s_label := "Zendesk"; s_required := credentials ++ ["tokenUrl"%string]; s_endpoint := fun c => shown_as (conf "tokenUrl" c);
     s_request := fun c =>
       {| rq_headers := [json_type; accept_json];
          rq_body := JsonText (JObj ([refresh_grant; refresh_field c] ++ client_fields c
                       ++ [("expires_in", zendesk_lifetime c); ("refresh_token_expires_in", zendesk_refresh_lifetime c)]%string
                       ++ (if js_truthy (conf "scope" c) then [("scope"%string, conf "scope" c)] else []))) |};
     s_granted := fun c data =>
       try! t := needed "Zendesk" data "access_token" in
       try! r := needed "Zendesk" data "refresh_token" in
       Ok {| g_accessToken := t; g_expiresIn := expires_or data (to_number (zendesk_lifetime c)) |};
     s_keep := Some (fun c data g at_ =>
       let kept := set_conf "refreshToken" (jfield_opt data "refresh_token") (keep_token g at_ c) in
       let seconds := match jfield_opt data "refresh_token_expires_in" with JNum n => Some n | _ => to_number (zendesk_refresh_lifetime c) end in
       call! now := ClockNow in Ret (set_conf "refreshTokenExpiresAt" (number_json (later now seconds)) kept));
     s_current := pick zendesk_fields |}.

(** [AuthStrategyFactory.create], for the strategies of this form: which one,
    and what it gets of the configuration. *)
Definition create (a : ServerAuthType) (c : config) : option (AuthStrategy * config) :=
  match a with
  | GoogleAuth | GoogleCalendarAuth | GmailAuth | GoogleDocsAuth | GoogleSheetsAuth | GoogleFormsAuth => Some (google, pick credentials c)
  | NotionAuth => Some (notion, pick stored c)
  | FigmaAuth => Some (figma, pick stored c)
  | GithubAuth => Some (github, pick (stored ++ ["refreshTokenExpiresAt"%string]) c)
  | CanvaAuth => Some (canva, pick stored c)
  | ZendeskAuth => Some (zendesk, pick zendesk_fields c)
  | PipedriveAuth => Some (pipedrive, pick (stored ++ ["apiDomain"%string]) c)
  | HubSpotAuth => Some (hubspot, pick stored c)
  | SlackAuth => Some (slack, pick (stored ++ ["tokenMode"%string]) c)
  | IntercomAuth | ApiKey | CanvasAuth | OtherAuth _ => None
  end.

(** *** Intercom *)

(** Its tokens have no lifetime: one is asked about, and taken for good for a
    while. *)
Definition INTERCOM_ME_ENDPOINT : string := "https://api.intercom.io/me".
Definition INTERCOM_SYNTHETIC_EXPIRES_IN : Z := 30 * 24 * 60 * 60.
Definition RETRYABLE_ERROR_CODES : list string := ["rate_limit_exceeded"; "retry_after"]%string.
Definition INVALID_TOKEN_ERROR_CODES : list string :=
  ["token_revoked"; "token_blocked"; "token_not_found"; "token_unauthorized"; "token_expired"]%string.

Record Classification : Type := { invalidToken : bool; retryable : bool; errorCodes : list string; parsed : bool }.

Definition code_of (error : json) : list string :=
  match jfield_opt error "code" with JStr s => if truthy_str s then [s] else [] | _ => [] end.

Definition extractErrorCodes (body : string) : bool * list string :=
  if blank body then (false, [])
  else match JSON_parse body with
       | None | Some JNull => (false, [])
       | Some v => (true, match jfield_opt v "errors" with JArr l => flat_map code_of l | _ => [] end)
       end.

Definition mentions (codes : list string) (found : list string) : bool := existsb (fun c => existsb (str_eqb c) codes) found.

Definition classifyIntercomTokenError (body : string) (status : Z) : Classification :=
  let '(parsed, codes) := extractErrorCodes body in
  let verdict invalid retry := {| invalidToken := invalid; retryable := retry; errorCodes := codes; parsed := parsed |} in
  if 500 <=? status then verdict false true
  else if mentions RETRYABLE_ERROR_CODES codes then verdict false true
  else if mentions INVALID_TOKEN_ERROR_CODES codes then verdict true false
  else if ((status =? 401) || (status =? 403)) && negb parsed then verdict true false
  else if ((status =? 401) || (status =? 403)) && bool_decide (codes = []) then verdict true false
  else verdict false false.

Definition IntercomInvalidTokenError (m : string) : exn := {| class := IntercomInvalidTokenErrorClass; message := m |}.

Definition metadata_failed (status : Z) (body : string) : exn :=
  if invalidToken (classifyIntercomTokenError body status)
  then IntercomInvalidTokenError ("Intercom token validation failed (" +:+ z_to_string status +:+ ")")
  else Error ("Intercom token metadata request failed (" +:+ z_to_string status +:+ "): " +:+ body).

(** [fetchIntercomTokenMetadata]: the region *)
Definition fetchIntercomTokenMetadata (token : json) : PProg exn string :=
  call! response := Fetch INTERCOM_ME_ENDPOINT GET
    {| rq_headers := [("accept", "application/json"); ("authorization", "Bearer " +:+ shown_as token)]%string; rq_body := NoBody |} in
  match response with
  | Throw e => Ret (Throw (Error ("Intercom token metadata request failed: " +:+ message e)))
  | Ok status =>
      call! text := ResponseText in
      match text with
      | Throw e => Ret (Throw e)
      | Ok body =>
          if negb (response_ok status) then Ret (Throw (metadata_failed status body))
          else match JSON_parse body with
               | None => Ret (Throw (Error "Intercom token metadata response is not valid JSON"))
               | Some v =>
                   await! app := Ret (jget v "app") in
                   match text_with_content (jfield_opt app "region") with
                   | Some region => Ret (Ok (trim region))
                   | None => Ret (Throw (Error "Intercom token metadata response missing app.region"))
                   end
               end
      end
  end.

Definition new_intercom (c : config) : result exn state :=
  match validateConfig "Intercom" ["clientId"; "clientSecret"; "accessToken"]%string c with
  | Ok _ => Ok {| cfg := c; configChanged := false |}
  | Throw e => Throw e
  end.

Definition intercom_refreshToken (st : state) : PProg exn (StrategyToken * state) :=
  from_cache_or st (
    await! region := fetchIntercomTokenMetadata (conf "accessToken" (cfg st)) in
    call! now := ClockNow in
    let at_ := now + INTERCOM_SYNTHETIC_EXPIRES_IN * 1000 in
    Ret (Ok ({| accessToken := conf "accessToken" (cfg st); expiresIn := Some INTERCOM_SYNTHETIC_EXPIRES_IN; expiresAt := Some at_ |},
             {| cfg := set_conf "intercomRegion" (JStr region) (set_conf "expiresAt" (JNum at_) (cfg st)); configChanged := true |}))).

Definition intercom_current (st : state) : option config :=
  if configChanged st then Some (pick (stored ++ ["intercomRegion"%string]) (cfg st)) else None.

(** *** Peta's own client *)

Section Peta.
(** [PETA_AUTH_CONFIG.BASE_URL], the kind of provider of the server, and its
    template. *)
Variable BASE_URL : string.
Variable oauth_provider : option string.
Variable configTemplate : option string.

Definition normalizeExpiresAt (n : Z) : Z := if n <? 10000000000 then n * 1000 else n.

(** The fields are [userToken], [clientId], [key], [accessToken] and
    [expiresAt], which is a number if given. *)
Definition new_peta (c : config) : result exn config :=
  if negb (js_truthy (conf "userToken" c)) || match conf "userToken" c with JStr s => blank s | _ => false end
  then Throw (Error "Peta OAuth: userToken is required")
  else match validateConfig "Peta" ["clientId"; "key"]%string c with
       | Throw e => Throw e
       | Ok _ => Ok (match conf "expiresAt" c with
                     | JUndefined => c
                     | v => set_conf "expiresAt" (number_json (option_map normalizeExpiresAt (to_number v))) c
                     end)
       end.

Definition template_token_url : json :=
  match configTemplate with
  | None | Some EmptyString => JUndefined
  | Some t => match JSON_parse t with
              | Some v => match text_with_content (jfield_opt (jfield_opt v "oAuthConfig") "tokenUrl") with Some u => JStr u | None => JUndefined end
              | None => JUndefined
              end
  end.

Definition peta_body (p : string) (c : config) : json :=
  JObj ([("clientId", conf "clientId" c); ("provider", JStr p); ("key", conf "key" c)]%string
        ++ (if (str_eqb p "zendesk" || str_eqb p "canvas") && js_truthy template_token_url then [("tokenUrl"%string, template_token_url)] else [])).

(** [new Date(v)], which has to be one when it is logged; a text that spells
    a date is not read here. *)
Definition date_of (v : json) : option Z :=
  match v with
  | JNum _ | JBool _ => match to_number v with Some n => if Z.abs n <=? 8640000000000000 then Some n else None | None => None end
  | _ => None
  end.

Definition peta_failed : exn := Error "Failed to refresh OAuth token".

(** [refreshTokenFromPeta]; whatever goes wrong with the request, the same is
    said. *)
Definition refreshTokenFromPeta (c : config) : PProg exn StrategyToken :=
  match oauth_provider with
  | None => Ret (Throw (Error "Invalid OAuth provider"))
  | Some p =>
      call! response := Fetch (BASE_URL +:+ "/v1/oauth/refresh") POST {| rq_headers := [json_type]; rq_body := JsonText (peta_body p c) |} in
      match response with
      | Throw _ => Ret (Throw peta_failed)
      | Ok status =>
          call! text := ResponseText in
          match text with
          | Throw _ => Ret (Throw peta_failed)
          | Ok raw =>
              match JSON_parse raw with
              | None => Ret (Throw peta_failed)
              | Some data =>
                  if negb (response_ok status && js_truthy (jfield_opt data "accessToken") && js_truthy (jfield_opt data "expiresAt"))
                  then Ret (Throw peta_failed)
                  else
                    call! now := ClockNow in
                    match date_of (jfield_opt data "expiresAt") with
                    | Some at_ => Ret (Ok {| accessToken := jfield_opt data "accessToken"; expiresIn := Some (Z.max 0 ((at_ - now) / 1000));
                                             expiresAt := Some at_ |})
                    | None => Ret (Throw peta_failed)
                    end
              end
          end
      end
  end.

Definition peta_refreshToken (c : config) : PProg exn (StrategyToken * config) :=
  let fresh :=
    await! t := refreshTokenFromPeta c in
    Ret (Ok (t, set_conf "expiresAt" (number_json (expiresAt t)) (set_conf "accessToken" (accessToken t) c))) in
  if has_cache c then
    call! now := ClockNow in
    match to_number (conf "expiresAt" c) with
    | Some at_ =>
        if now <? at_ - EXPIRY_BUFFER then
          call! again := ClockNow in
          Ret (Ok ({| accessToken := conf "accessToken" c; expiresIn := Some ((at_ - again) / 1000); expiresAt := Some at_ |}, c))
        else fresh
    | None => fresh
    end
  else fresh.
End Peta.
End Strategy.
