(* ===== verification/ProviderSafety.v ===== *)
(** * What the tokens of providers are worth

    Over [ProviderTokens]: what an exchange sends where and what its success
    means, what refreshing keeps, and that a persisted configuration goes on
    where it stopped. *)
From Stdlib Require Import Ascii ZArith Lia.
From stdpp Require Import base strings list.
From S2P Require Import Prelude Json JsMap CacheSerializer Effects ServerTypes ProviderTokens.
Open Scope Z_scope.

(** ** Runs by their traces *)

Definition traced (s : list (event pcall)) (ev : event pcall) : list (event pcall) := s ++ [ev].

Lemma traced_all tr s : fold_left traced tr s = s ++ tr.
Proof. revert s. induction tr as [|ev tr IH]; cbn; intros s; [by rewrite app_nil_r|]. rewrite IH. unfold traced. by rewrite <- app_assoc. Qed.

(** What holds of every request and of the run as a whole. *)
Lemma traced_runs {A} (p : prog pcall A) check Q tr r :
  wp traced check p [] Q -> runs p tr (Some r) -> (forall pre ev post, tr = pre ++ ev :: post -> check pre ev) /\ Q tr r.
Proof.
  intros H Hr. eapply wp_runs in Hr as [H1 H2]; [|exact H]. split.
  - intros pre ev post E. specialize (H1 pre ev post E). by rewrite traced_all in H1.
  - specialize (H2 r eq_refl). by rewrite traced_all in H2.
Qed.

(** ** Exchanging *)

Section Exchange.
Import Exchange.

Definition header (k : string) (r : ProviderRequest) : option string := assoc k (rq_headers r).
Definition body_field (k : string) (r : ProviderRequest) : json :=
  match rq_body r with
  | Form l => match assoc k l with Some s => JStr s | None => JUndefined end
  | JsonText v => jfield_opt v k
  | NoBody => JUndefined
  end.

(** The code is in the body, and the client's secret in the body or in the
    header for it. *)
Definition carries (c : ExchangeContext) (r : ProviderRequest) : Prop :=
  js_String (body_field "code" r) = js_String (code c)
  /\ (js_String (body_field "client_secret" r) = js_String (clientSecret c)
      \/ header "Authorization" r = Some (snd (basic (clientId c) (clientSecret c)))
      \/ header "Authorization" r = Some (snd (basic (clientSecret c) (JStr "")))).

Lemma adapters_carry p a c : getProviderAdapter p = Ok a -> carries c (a_buildRequest a c).
Proof.
  unfold getProviderAdapter. destruct (assoc _ providers) as [b|] eqn:E; [|done]. intros [= <-].
  apply assoc_In in E. unfold providers in E.
  repeat (destruct E as [E|E]; [injection E as _ <-; split; [reflexivity|]; first [left; reflexivity|right; left; reflexivity|right; right; reflexivity]|]).
  done.
Qed.

(** Where a code is sent. *)
Lemma adapters_https p a u : getProviderAdapter p = Ok a -> a_tokenUrl a = Some u -> starts_with "https://" u = true.
Proof.
  unfold getProviderAdapter. destruct (assoc _ providers) as [b|] eqn:E; [|done]. intros [= <-].
  apply assoc_In in E. unfold providers in E.
  repeat (destruct E as [E|E]; [injection E as _ <-; by intros [= <-]|]). done.
Qed.

Lemma adapters_static p a : getProviderAdapter p = Ok a -> a_getTokenUrl a = None.
Proof.
  unfold getProviderAdapter. destruct (assoc _ providers) as [b|] eqn:E; [|done]. intros [= <-].
  apply assoc_In in E. unfold providers in E. repeat (destruct E as [E|E]; [by injection E as _ <-|]). done.
Qed.

Lemma adapters_parse p a f : getProviderAdapter p = Ok a -> a_parseResponse a = Some f -> f = normalizeSlackTokenResponse.
Proof.
  unfold getProviderAdapter. destruct (assoc _ providers) as [b|] eqn:E; [|done]. intros [= <-].
  apply assoc_In in E. unfold providers in E. repeat (destruct E as [E|E]; [injection E as _ <-; by intros [= <-]|]). done.
Qed.

Definition exchange_url (c : ExchangeContext) (u : string) : Prop :=
  if js_truthy (tokenUrl c) then u = js_String (tokenUrl c)
  else exists a, getProviderAdapter (provider c) = Ok a /\ a_tokenUrl a = Some u /\ starts_with "https://" u = true.

Definition exchange_check (c : ExchangeContext) (pre : list (event pcall)) (ev : event pcall) : Prop :=
  match ev with
  | Ev _ e _ => match e with Fetch u m r => pre = [] /\ m = POST /\ exchange_url c u /\ carries c r | _ => True end
  end.

(** Where a response has the grant: of Slack's, with the user it speaks of
    when the user's token is meant; otherwise on top. *)
Definition grant_in (c : ExchangeContext) (data : json) : json :=
  let user := jfield_opt data "authed_user" in
  if str_eqb (to_lower (provider c)) "slack" && is_user_mode (slack_mode (tokenMode c) (is_string (jfield_opt user "access_token"))) then user else data.

(** The seconds a token lives when the response does not say. *)
Definition default_lifetimes : list (string * Z) :=
  [("github", 8 * 60 * 60); ("hubspot", 30 * 60); ("notion", 30 * 24 * 60 * 60); ("slack", 12 * 60 * 60)]%string.

Definition lifetime_of (c : ExchangeContext) (data : json) : option Z :=
  match jfield_opt (grant_in c data) "expires_in" with JNum n => Some n | _ => assoc (to_lower (provider c)) default_lifetimes end.

(** The run of an exchange that succeeds: the response, and the clock. *)
Definition exchanged (c : ExchangeContext) (tr : list (event pcall)) (x : ExchangeResult) : Prop :=
  exists u r status raw,
    response_ok status = true /\ JSON_parse raw = Some (x_raw x) /\ js_truthy (jfield_opt (x_raw x) "error") = false
    /\ jfield_opt (grant_in c (x_raw x)) "access_token" = JStr (x_accessToken x) /\ blank (x_accessToken x) = false
    /\ x_refreshToken x = only_text (jfield_opt (grant_in c (x_raw x)) "refresh_token")
    /\ x_expiresIn x = lifetime_of c (x_raw x)
    /\ match x_expiresIn x with
       | None => x_expiresAt x = None /\ tr = [Ev _ (Fetch u POST r) (Ok status); Ev _ ResponseText (Ok raw)]
       | Some n => exists now, x_expiresAt x = Some (now + n * 1000)
           /\ tr = [Ev _ (Fetch u POST r) (Ok status); Ev _ ResponseText (Ok raw); Ev _ ClockNow now]
       end.

Definition exchange_outcome (c : ExchangeContext) (tr : list (event pcall)) (r : result failure ExchangeResult) : Prop :=
  match r with
  | Ok x => exchanged c tr x
  | Throw (ExchangeFailed e) => e_provider e = provider c
  | Throw (OtherError _) => True
  end.

Lemma text_with_content_some v t : text_with_content v = Some t -> v = JStr t /\ blank t = false.
Proof. destruct v as [| | | |s| |]; cbn; try done. destruct (blank s) eqn:E; [done|]. by intros [= <-]. Qed.

Lemma assoc_key {A} k (l : list (string * A)) v : assoc k l = Some v -> In (k, v) l.
Proof. induction l as [|[k' v'] l IH]; cbn; [done|]. destruct (str_eqb k k') eqn:E; [apply str_eqb_eq in E as <-; intros [= <-]; by left|]. intros H. right. by apply IH. Qed.

Lemma slack_only p a f : getProviderAdapter p = Ok a -> a_parseResponse a = Some f -> to_lower p = "slack"%string.
Proof.
  unfold getProviderAdapter. destruct (assoc _ providers) as [b|] eqn:E; [|done]. intros [= <-].
  apply assoc_key in E. unfold providers in E. repeat (destruct E as [E|E]; [injection E as E1 <-; by intros|]). done.
Qed.

Lemma slack_parses p a : getProviderAdapter p = Ok a -> a_parseResponse a = None -> str_eqb (to_lower p) "slack" = false.
Proof.
  unfold getProviderAdapter. destruct (str_eqb (to_lower p) "slack") eqn:E; [|done]. apply str_eqb_eq in E as ->.
  by intros [= <-].
Qed.

Lemma adapter_default p a : getProviderAdapter p = Ok a -> a_defaultExpiresIn a = assoc (to_lower p) default_lifetimes.
Proof.
  unfold getProviderAdapter. destruct (assoc _ providers) as [b|] eqn:E; [|done]. intros [= <-].
  apply assoc_key in E. unfold providers in E. repeat (destruct E as [E|E]; [by injection E as <- <-|]). done.
Qed.

(** What is read of an object or of nothing. *)
Lemma object_field v k : jfield_opt (default (JObj []) (object_or_none v)) k = jfield_opt v k.
Proof. by destruct v. Qed.

Lemma object_token v : match object_or_none v with Some u => is_string (jfield_opt u "access_token") | None => false end = is_string (jfield_opt v "access_token").
Proof. by destruct v. Qed.

Lemma normalized_grant c a data n : getProviderAdapter (provider c) = Ok a -> normalizeTokenResponse data c a = Ok n ->
  jfield_opt (grant_in c data) "access_token" = JStr (n_accessToken n) /\ blank (n_accessToken n) = false
  /\ n_refreshToken n = only_text (jfield_opt (grant_in c data) "refresh_token")
  /\ match n_expiresIn n with Some n => Some n | None => a_defaultExpiresIn a end = lifetime_of c data.
Proof.
  intros Ha H. unfold lifetime_of. rewrite <- (adapter_default _ _ Ha). unfold grant_in, normalizeTokenResponse in *. destruct (a_parseResponse a) as [f|] eqn:Ef.
  - rewrite (slack_only _ _ _ Ha Ef), (adapters_parse _ _ _ Ha Ef) in *. unfold normalizeSlackTokenResponse in H.
    rewrite object_token in H. cbn [str_eqb andb]. change (str_eqb "slack" "slack") with true. cbn [andb].
    destruct (is_user_mode _); [rewrite !object_field in H|];
      (destruct (text_with_content _) as [t|] eqn:Et; [|done]); injection H as <-; apply text_with_content_some in Et as [Et Hb];
      (split_and! ; [done|done|done|cbn [n_expiresIn]; by destruct (jfield_opt _ "expires_in")]).
  - rewrite (slack_parses _ _ Ha Ef). cbn [andb]. destruct (text_with_content _) as [t|] eqn:Et; [|done]. injection H as <-.
    apply text_with_content_some in Et as [Et Hb]. split_and! ; [done|done|done|cbn [n_expiresIn]; by destruct (jfield_opt _ "expires_in")].
Qed.

Lemma normalized_fails c a data e : getProviderAdapter (provider c) = Ok a -> normalizeTokenResponse data c a = Throw e -> exchange_outcome c [] (Throw e).
Proof.
  intros Ha H. unfold normalizeTokenResponse in H. destruct (a_parseResponse a) as [f|] eqn:Ef.
  - rewrite (adapters_parse _ _ _ Ha Ef) in H. unfold normalizeSlackTokenResponse in H. destruct (text_with_content _); [done|]. by injection H as <-.
  - destruct (text_with_content _); [done|]. by injection H as <-.
Qed.

Lemma resolved_url c a u : getProviderAdapter (provider c) = Ok a -> resolveTokenUrl c a = Ok u -> exchange_url c u.
Proof.
  intros Ha H. unfold resolveTokenUrl in H. unfold exchange_url. destruct (js_truthy (tokenUrl c)); [by injection H as <-|].
  rewrite (adapters_static _ _ Ha) in H. destruct (a_tokenUrl a) as [v|] eqn:Eu; [|done]. injection H as <-. exists a.
  split_and! ; [done|done|by eapply adapters_https].
Qed.

Lemma parsed_fails c raw e tr : parsed_body (provider c) raw = Throw e -> exchange_outcome c tr (Throw e).
Proof. unfold parsed_body. destruct (str_eqb raw ""); [done|]. destruct (JSON_parse raw); [done|]. by intros [= <-]. Qed.

(** A response without a body grants nothing. *)
Lemma parsed_data c p raw data t : parsed_body p raw = Ok data -> jfield_opt (grant_in c data) "access_token" = JStr t -> JSON_parse raw = Some data.
Proof.
  unfold parsed_body. destruct (str_eqb raw ""); [intros [= <-]|by destruct (JSON_parse raw); intros [= <-]].
  unfold grant_in. by destruct (_ && _).
Qed.

Lemma exchange_wp c : wp traced (exchange_check c) (exchangeAuthorizationCode c) [] (exchange_outcome c).
Proof.
  unfold exchangeAuthorizationCode. unfold try_bind at 1. cbn [pbind].
  destruct (getProviderAdapter (provider c)) as [a|e] eqn:Ea.
  2: { cbn. unfold getProviderAdapter in Ea. destruct (assoc _ _); [done|]. by injection Ea as <-. }
  unfold try_bind at 1. cbn [pbind]. destruct (resolveTokenUrl c a) as [u|e] eqn:Eu.
  2: { cbn. unfold resolveTokenUrl in Eu. rewrite (adapters_static _ _ Ea) in Eu. destruct (js_truthy _), (a_tokenUrl a); try done. by injection Eu as <-. }
  intros [status|e]; (split; [split_and! ; [done|done|by eapply resolved_url|by eapply adapters_carry]|]); [|done].
  intros [raw|e]; (split; [exact I|]); [|done].
  destruct (parsed_body (provider c) raw) as [data|e] eqn:Er; [|by eapply parsed_fails].
  unfold try_bind at 1. cbn [pbind]. destruct (response_ok status) eqn:Es; [|done]. cbn [negb].
  destruct (jget data "error") as [err|e] eqn:Ej; [|done]. cbn [pbind]. destruct (js_truthy err) eqn:Et; [done|].
  unfold try_bind at 1. cbn [pbind]. destruct (normalizeTokenResponse data c a) as [n|e] eqn:En; [|by eapply normalized_fails].
  destruct (normalized_grant _ _ _ _ Ea En) as (Htok & Hb & Href & Hlife).
  assert (Hd : JSON_parse raw = Some data) by (by eapply parsed_data).
  assert (He : js_truthy (jfield_opt data "error") = false) by (unfold jget, jfield_opt in *; destruct (jfield data "error"); by simplify_eq).
  unfold resolveExpires. rewrite Hlife. destruct (lifetime_of c data) as [m|] eqn:El; cbn.
  - intros now. split; [exact I|]. exists u, (a_buildRequest a c), status, raw. split_and! ; try done. by exists now.
  - exists u, (a_buildRequest a c), status, raw. by split_and!.
Qed.
End Exchange.

(** ** Refreshing *)

Section Refresh.
Import Strategy.

(** All strategies of the common form, and those that look at what they are
    granted. *)
Definition careful : list AuthStrategy := [canva; github; hubspot; pipedrive; slack; zendesk].
Definition strategies : list AuthStrategy := careful ++ [figma; google; notion].

Definition valid (S : AuthStrategy) (c : config) : Prop := Forall (fun k => js_truthy (conf k c) = true) (s_required S).

Lemma validate_valid S c : validateConfig (s_label S) (s_required S) c = Ok tt <-> valid S c.
Proof.
  unfold validateConfig, valid. induction (s_required S) as [|k ks IH]; cbn; [done|].
  destruct (js_truthy (conf k c)) eqn:E; cbn.
  - rewrite IH. split; [by constructor|by intros [_ H]%Forall_cons].
  - split; [done|]. intros [H _]%Forall_cons. congruence.
Qed.

Lemma conf_set k k' v c : conf k (set_conf k' v c) = if str_eqb k k' then v else conf k c.
Proof. unfold conf, set_conf. rewrite assoc_obj_put. by destruct (str_eqb k k'). Qed.

Lemma conf_keep k g at_ c : conf k (keep_token g at_ c) =
  if str_eqb k "expiresAt" then number_json at_ else if str_eqb k "accessToken" then g_accessToken g else conf k c.
Proof. unfold keep_token. by rewrite !conf_set. Qed.

Lemma conf_rotate k v c : conf k (rotate v c) = if js_truthy v && str_eqb k "refreshToken" then v else conf k c.
Proof. unfold rotate. destruct (js_truthy v); [by rewrite conf_set|done]. Qed.

Lemma rotate_truthy v c : js_truthy (conf "refreshToken" c) = true -> js_truthy (conf "refreshToken" (rotate v c)) = true.
Proof. rewrite conf_rotate. destruct (js_truthy v) eqn:E; cbn; [done|auto]. Qed.

(** What a strategy sends. *)
Definition carries_refresh (c : config) (r : ProviderRequest) : Prop :=
  js_String (body_field "refresh_token" r) = js_String (conf "refreshToken" c)
  /\ (js_String (body_field "client_secret" r) = js_String (conf "clientSecret" c) \/ header "Authorization" r = Some (snd (basic_auth c))).

Lemma strategies_carry S c : In S strategies -> carries_refresh c (s_request S c).
Proof.
  intros H. cbn in H. repeat (destruct H as [<-|H]; [split; [reflexivity|]; first [left; reflexivity|right; reflexivity]|]). done.
Qed.

(** What is granted. *)
Lemma careful_grants S c data g : In S careful -> s_granted S c data = Ok g -> js_truthy (g_accessToken g) = true.
Proof.
  assert (Hn : forall label k (v : json), needed label data k = Ok v -> js_truthy v = true).
  { intros label k v. unfold needed. destruct (jget data k) as [w|]; cbn; [|done]. destruct (js_truthy w) eqn:E; [by intros [= <-]|done]. }
  intros H. cbn in H. repeat (destruct H as [<-|H]; [cbn|]); [..|done].
  all: try (destruct (needed _ data "access_token") as [t|] eqn:E1; cbn; [|done]; try (destruct (needed _ data "refresh_token"); cbn; [|done]);
            intros [= <-]; by eapply Hn).
  destruct (jget data "authed_user"); cbn; [|done]. destruct (js_truthy _) eqn:E; [by intros [= <-]|done].
Qed.

Lemma needed_field label data k v : needed label data k = Ok v -> jfield_opt data k = v /\ js_truthy v = true.
Proof.
  unfold needed, jget, jfield_opt. destruct (jfield data k) as [w|]; cbn; [|done]. destruct (js_truthy w) eqn:E; [by intros [= <-]|done].
Qed.

(** Where the grant is: of Slack's, the user's when it is meant. *)
Definition payload (S : AuthStrategy) (c : config) (data : json) : json :=
  if str_eqb (s_label S) "Slack" then slack_payload c data else data.

(** The seconds a token lives when a response gives no number. *)
Definition usual_lifetime (S : AuthStrategy) (c : config) : option Z :=
  if str_eqb (s_label S) "Zendesk" then to_number (zendesk_lifetime c)
  else assoc (s_label S) [("Canva", 4 * 60 * 60); ("GitHub", 8 * 60 * 60); ("HubSpot", 30 * 60); ("Pipedrive", 60 * 60)]%string.

(** The seconds a token lives: Notion's always thirty days; Figma's and
    Google's what the response says, whatever it is; Slack's that, or twelve
    hours; others' the number in the response, or else the usual. *)
Definition granted_lifetime (S : AuthStrategy) (c : config) (data : json) : option Z :=
  let said := jfield_opt (payload S c data) "expires_in" in
  if str_eqb (s_label S) "Notion" then Some (30 * 24 * 60 * 60)
  else if str_eqb (s_label S) "Figma" || str_eqb (s_label S) "Google" then to_number said
  else if str_eqb (s_label S) "Slack" then to_number (or_value said (JNum (12 * 60 * 60)))
  else match said with JNum n => Some n | _ => usual_lifetime S c end.

(** The refresh token from now on: the one in the response if there is one;
    Figma's never changes, Notion's is taken even when it is missing. *)
Definition next_refresh (S : AuthStrategy) (c : config) (data : json) : json :=
  let r := jfield_opt (payload S c data) "refresh_token" in
  if str_eqb (s_label S) "Figma" then conf "refreshToken" c
  else if str_eqb (s_label S) "Notion" || js_truthy r then r else conf "refreshToken" c.

Lemma granted_from S c data g : In S strategies -> s_granted S c data = Ok g ->
  g_accessToken g = jfield_opt (payload S c data) "access_token" /\ g_expiresIn g = granted_lifetime S c data.
Proof.
  assert (Hn : forall label (k : json -> result exn Granted), (try! t := needed label data "access_token" in k t) = Ok g ->
    k (jfield_opt data "access_token") = Ok g).
  { intros label k H. destruct (needed label data "access_token") as [t|] eqn:E; [|done]. by apply needed_field in E as [-> _]. }
  assert (Hj : forall k' (k : json -> result exn Granted), (try! t := jget data k' in k t) = Ok g -> k (jfield_opt data k') = Ok g).
  { intros k' k H. unfold jget, jfield_opt in *. by destruct (jfield data k'). }
  intros HS Hg. cbn in HS.
  repeat (destruct HS as [<-|HS]; [cbn [s_granted canva figma github google hubspot notion pipedrive slack zendesk] in Hg|]); [..|done];
    try (apply Hn in Hg); try (apply Hj in Hg); try (destruct (needed _ data "refresh_token"); [|done]); cbn [rbind] in Hg.
  5: { destruct (js_truthy _); [|done]. by injection Hg as <-. }
  all: by injection Hg as <-.
Qed.

(** What stays as it was. *)
Definition untouched : list string := ["clientId"; "clientSecret"; "tokenUrl"; "scope"; "expiresInSeconds"; "refreshTokenExpiresInSeconds"]%string.

Definition kept_base (c : config) (g : Granted) (at_ : option Z) (c' : config) : Prop :=
  conf "accessToken" c' = g_accessToken g /\ conf "expiresAt" c' = number_json at_
  /\ Forall (fun k => conf k c' = conf k c) untouched.

(** What is kept of a grant. *)
Definition kept_well (S : AuthStrategy) (c : config) (data : json) (g : Granted) (at_ : option Z) (c' : config) : Prop :=
  kept_base c g at_ c' /\ conf "refreshToken" c' = next_refresh S c data.

Definition only_clock (s s' : list (event pcall)) : Prop := s' = s \/ exists now, s' = s ++ [Ev _ ClockNow now].

Lemma base_keep c g at_ : kept_base c g at_ (keep_token g at_ c).
Proof. split_and! ; [by rewrite conf_keep..|]. repeat constructor; by rewrite conf_keep. Qed.

Lemma base_set c g at_ c' k v :
  existsb (str_eqb k) (["accessToken"; "expiresAt"]%string ++ untouched) = false ->
  kept_base c g at_ c' -> kept_base c g at_ (set_conf k v c').
Proof.
  intros Hk (H1 & H2 & H3).
  assert (Hne : forall k', In k' (["accessToken"; "expiresAt"]%string ++ untouched) -> conf k' (set_conf k v c') = conf k' c').
  { intros k' Hin. rewrite conf_set. destruct (str_eqb k' k) eqn:E; [|done]. apply str_eqb_eq in E as ->.
    assert (existsb (str_eqb k) (["accessToken"; "expiresAt"]%string ++ untouched) = true); [|congruence].
    apply existsb_exists. exists k. by rewrite str_eqb_refl. }
  split_and! ; [rewrite Hne; [done|by cbn; auto]..|].
  apply List.Forall_forall. intros k' Hin. rewrite Hne; [by apply (proj1 (List.Forall_forall _ _) H3)|apply in_or_app; by right].
Qed.

Lemma base_rotate c g at_ c' v : kept_base c g at_ c' -> kept_base c g at_ (rotate v c').
Proof. intros H. unfold rotate. destruct (js_truthy v); [by apply base_set|done]. Qed.

Lemma careless S : In S [figma; google; notion] -> ~ In S careful.
Proof. intros H1 H2. cbn in H1, H2. repeat destruct H1 as [<-|H1]; try done; repeat (destruct H2 as [H2|H2]; [by apply (f_equal s_label) in H2|]); done. Qed.

Lemma needed_refresh label data g (k : json -> result exn Granted) :
  (try! r := needed label data "refresh_token" in k r) = Ok g -> js_truthy (jfield_opt data "refresh_token") = true.
Proof. intros H. destruct (needed label data "refresh_token") as [v|] eqn:E; [|done]. by apply needed_field in E as [<- ?]. Qed.

Lemma keep_wp S keep c data g at_ check s :
  In S strategies -> s_granted S c data = Ok g -> s_keep S = Some keep -> (forall pre now, check pre (Ev _ ClockNow now)) ->
  wp traced check (keep c data g at_) s (fun s' c' => only_clock s s' /\ kept_well S c data g at_ c').
Proof.
  intros HS Hg Hk Hc.
  assert (Hclock : forall now, only_clock s (traced s (Ev _ ClockNow now))) by (intros now; right; by exists now).
  assert (Hsame : only_clock s s) by by left.
  pose proof (base_keep c g at_) as H0.
  cbn in HS. repeat (destruct HS as [<-|HS]; [cbn [s_granted s_keep canva figma github google hubspot notion pipedrive slack zendesk] in Hg, Hk; try discriminate Hk; injection Hk as <-|]); [..|done].
  - assert (Hr : js_truthy (jfield_opt data "refresh_token") = true).
    { destruct (needed _ data "access_token"); cbn [rbind] in Hg; [exact (needed_refresh _ _ _ _ Hg)|done]. }
    split; [done|]. split; [by apply base_set|]. rewrite conf_set. unfold next_refresh.
    change (payload canva c data) with data. by rewrite Hr, orb_true_r.
  - assert (Hx : forall c', conf "refreshToken" c' = next_refresh github c data -> kept_base c g at_ c' -> kept_well github c data g at_ c') by by split.
    assert (Hrot : conf "refreshToken" (rotate (jfield_opt data "refresh_token") (keep_token g at_ c)) = next_refresh github c data).
    { rewrite conf_rotate, conf_keep. cbn. by rewrite andb_true_r. }
    cbn beta zeta. destruct (jfield_opt data "refresh_token_expires_in"); try (split; [done|]; by apply Hx, base_rotate).
    intros now. split; [apply Hc|]. split; [done|]. apply Hx; [by rewrite conf_set|by apply base_set, base_rotate].
  - split; [done|]. split; [by apply base_rotate|]. rewrite conf_rotate, conf_keep. cbn. by rewrite andb_true_r.
  - split; [done|]. cbn beta zeta. split; [apply base_rotate; destruct (text_with_content _); by apply base_set|].
    rewrite conf_rotate. cbn. rewrite andb_true_r. destruct (text_with_content _); rewrite conf_set, conf_keep; reflexivity.
  - split; [done|]. split; [by apply base_rotate, base_set|]. rewrite conf_rotate, conf_set, conf_keep. cbn. by rewrite andb_true_r.
  - assert (Hr : js_truthy (jfield_opt data "refresh_token") = true).
    { destruct (needed _ data "access_token"); cbn [rbind] in Hg; [exact (needed_refresh _ _ _ _ Hg)|done]. }
    intros now. split; [apply Hc|]. split; [done|]. split; [by apply base_set, base_set|]. rewrite !conf_set.
    unfold next_refresh. change (payload zendesk c data) with data. by rewrite Hr, orb_true_r.
  - split; [done|]. split; [done|]. by rewrite conf_keep.
  - split; [done|]. split; [by apply base_set|]. by rewrite conf_set.
Qed.

(** *** The run of a refresh *)

(** Nothing cached that could be used: nothing asked yet, or the clock told
    so. *)
Definition not_cached (c : config) (pre : list (event pcall)) : Prop :=
  (has_cache c = false /\ pre = []) \/ (has_cache c = true /\ exists now, pre = [Ev _ ClockNow now] /\ cached c now = None).

Definition refresh_check (S : AuthStrategy) (c : config) (pre : list (event pcall)) (ev : event pcall) : Prop :=
  match ev with
  | Ev _ e _ =>
      match e with
      | Fetch u m r => not_cached c pre /\ u = s_endpoint S c /\ m = POST /\ r = s_request S c /\ carries_refresh c r
      | _ => True
      end
  end.

Definition from_cache (st : state) (tr : list (event pcall)) (t : StrategyToken) (st' : state) : Prop :=
  st' = st /\ has_cache (cfg st) = true /\ exists now, tr = [Ev _ ClockNow now] /\ cached (cfg st) now = Some t.

(** A fresh token is the response's, good from when it was read for as long as
    it is granted; it is kept with what else is granted, if anything is, and
    flagged to be persisted. *)
Definition from_provider (S : AuthStrategy) (st : state) (tr : list (event pcall)) (t : StrategyToken) (st' : state) : Prop :=
  exists pre status raw data now rest,
    tr = pre ++ Ev _ (Fetch (s_endpoint S (cfg st)) POST (s_request S (cfg st))) (Ok status) :: Ev _ ResponseText (Ok raw) :: Ev _ ClockNow now :: rest
    /\ not_cached (cfg st) pre /\ only_clock [] rest
    /\ response_ok status = true /\ JSON_parse raw = Some data
    /\ accessToken t = jfield_opt (payload S (cfg st) data) "access_token"
    /\ expiresIn t = granted_lifetime S (cfg st) data /\ expiresAt t = option_map (fun seconds => now + seconds * 1000) (expiresIn t)
    /\ (In S careful -> js_truthy (accessToken t) = true)
    /\ match s_keep S with
       | None => st' = st
       | Some _ =>
           configChanged st' = true /\ conf "accessToken" (cfg st') = accessToken t /\ conf "expiresAt" (cfg st') = number_json (expiresAt t)
           /\ conf "refreshToken" (cfg st') = next_refresh S (cfg st) data
           /\ Forall (fun k => conf k (cfg st') = conf k (cfg st)) untouched
           /\ (In S careful -> js_truthy (conf "refreshToken" (cfg st)) = true -> js_truthy (conf "refreshToken" (cfg st')) = true)
       end.

Definition refresh_outcome (S : AuthStrategy) (st : state) (tr : list (event pcall)) (r : result exn (StrategyToken * state)) : Prop :=
  match r with
  | Ok (t, st') => from_cache st tr t st' \/ from_provider S st tr t st'
  | Throw e => starts_with (s_label S +:+ " OAuth token refresh error: ") (message e) = true
  end.

Lemma careful_refresh S c data : In S careful -> js_truthy (conf "refreshToken" c) = true -> js_truthy (next_refresh S c data) = true.
Proof.
  intros HS Hc. cbn in HS. unfold next_refresh.
  repeat (destruct HS as [<-|HS]; [cbn -[payload]; by destruct (js_truthy (jfield_opt (payload _ c data) "refresh_token")) eqn:E|]). done.
Qed.

Lemma fresh_wp S st pre : In S strategies -> not_cached (cfg st) pre ->
  wp traced (refresh_check S (cfg st)) (fresh_token S st) pre (fun tr r => match r with Ok (t, st') => from_provider S st tr t st' | Throw _ => True end).
Proof.
  intros HS Hpre. unfold fresh_token, request_token. apply wp_bind.
  intros [status|e]; (split; [split_and! ; [done..|by apply strategies_carry]|]); [|exact I].
  intros [raw|e]; (split; [exact I|]); [|exact I]. destruct (response_ok status) eqn:Es; [|exact I]. cbn [negb wp].
  destruct (JSON_parse raw) as [data|] eqn:Er; [|exact I]. unfold try_bind at 1. cbn [pbind].
  destruct (s_granted S (cfg st) data) as [g|e] eqn:Eg; [|exact I]. intros now. split; [exact I|]. apply wp_bind.
  assert (Hg : In S careful -> js_truthy (g_accessToken g) = true) by (intros Hc; by eapply careful_grants).
  destruct (granted_from S (cfg st) data g HS Eg) as [Ga Ge]. unfold traced. rewrite <- !app_assoc. cbn [app].
  destruct (s_keep S) as [keep|] eqn:Ek.
  - apply wp_bind. eapply wp_mono; [by eapply (keep_wp S keep)|]. cbn. intros s' c' [Hs [(K1 & K2 & K3) K4]].
    assert (Hrest : exists rest, only_clock [] rest /\ s' = pre ++ Ev _ (Fetch (s_endpoint S (cfg st)) POST (s_request S (cfg st))) (Ok status)
      :: Ev _ ResponseText (Ok raw) :: Ev _ ClockNow now :: rest).
    { destruct Hs as [->|[n ->]]; [exists []; split; [by left|done]|]. exists [Ev _ ClockNow n]. split; [right; by exists n|]. by rewrite <- app_assoc. }
    destruct Hrest as (rest & Hrest & ->). exists pre, status, raw, data, now, rest. rewrite Ek. split_and! ; try done.
    intros HS' Hc. change (js_truthy (conf "refreshToken" c') = true). rewrite K4. by apply careful_refresh.
  - exists pre, status, raw, data, now, []. rewrite Ek. split_and! ; try done. by left.
Qed.

Lemma strategy_refresh_wp S st : In S strategies -> wp traced (refresh_check S (cfg st)) (refreshToken S st) [] (refresh_outcome S st).
Proof.
  intros HS. unfold refreshToken, from_cache_or.
  assert (Hf : forall pre, not_cached (cfg st) pre -> wp traced (refresh_check S (cfg st))
    (bind! r := fresh_token S st in Ret (match r with Ok x => Ok x | Throw e => Throw (refresh_failed (s_label S) e) end)) pre (refresh_outcome S st)).
  { intros pre Hpre. apply wp_bind. eapply wp_mono; [by apply fresh_wp|]. intros s' [[t st']|e] H; [by right|]. cbn.
    rewrite <- str_app_assoc. apply starts_with_app. }
  destruct (has_cache (cfg st)) eqn:Ec; [|apply Hf; by left].
  intros now. split; [exact I|]. destruct (cached (cfg st) now) as [t|] eqn:Et.
  - left. split_and! ; [done|done|]. by exists now.
  - apply Hf. right. split; [done|]. by exists now.
Qed.

(** *** A persisted configuration *)

Lemma create_listed a S c0 c : create a c0 = Some (S, c) -> In S strategies.
Proof. intros H. destruct a; cbn [create] in H; try discriminate H; injection H as <- _; unfold strategies, careful; cbn; tauto. Qed.

(** What the factory makes of a saved configuration is what was saved, as far
    as it matters. *)
Lemma saved_agrees a S keep c0 c c' : create a c0 = Some (S, c) -> s_keep S = Some keep ->
  exists c2, create a (s_current S c') = Some (S, c2)
    /\ Forall (fun k => conf k c2 = conf k c') (s_required S ++ ["accessToken"; "expiresAt"]%string).
Proof.
  intros H HS.
  destruct a; cbn [create] in H; try discriminate H; injection H as HE _; subst S; try discriminate HS;
    (eexists; split; [reflexivity|]; repeat (constructor; [reflexivity|]); constructor).
Qed.

Lemma valid_kept S c c' : In S strategies -> Forall (fun k => conf k c' = conf k c) untouched -> js_truthy (conf "refreshToken" c') = true ->
  valid S c -> valid S c'.
Proof.
  intros HS H3 H4 Hv. unfold valid in *.
  assert (Hu : forall k, In k untouched -> conf k c' = conf k c) by exact (proj1 (List.Forall_forall _ _) H3).
  assert (Hreq : Forall (fun k => In k ("refreshToken"%string :: untouched)) (s_required S)).
  { cbn in HS. repeat (destruct HS as [<-|HS]; [repeat (constructor; [cbn; tauto|]); constructor|]). done. }
  rewrite List.Forall_forall in Hv, Hreq |- *. intros k Hk. destruct (Hreq k Hk) as [<-|Hin]; [done|].
  rewrite Hu by done. by apply Hv.
Qed.

Lemma needs_refresh S c : In S strategies -> valid S c -> js_truthy (conf "refreshToken" c) = true.
Proof.
  intros HS Hv. apply (proj1 (List.Forall_forall _ _) Hv). cbn in HS.
  repeat (destruct HS as [<-|HS]; [cbn; tauto|]). done.
Qed.

Lemma new_strategy_valid S c st : new_strategy S c = Ok st <-> valid S c /\ st = {| cfg := c; configChanged := false |}.
Proof.
  unfold new_strategy. rewrite <- validate_valid. destruct (validateConfig _ _ c) as [[]|e]; [split; [by intros [= <-]|by intros [_ ->]]|by split; [|intros [? _]]].
Qed.

(** A cached token is used. *)
Lemma cached_run S c at_ now : js_truthy (conf "accessToken" c) = true -> conf "expiresAt" c = JNum at_ -> at_ <> 0 -> now < at_ - EXPIRY_BUFFER ->
  runs (refreshToken S {| cfg := c; configChanged := false |}) [Ev _ ClockNow now]
    (Some (Ok ({| accessToken := conf "accessToken" c; expiresIn := Some ((at_ - now) / 1000); expiresAt := Some at_ |},
               {| cfg := c; configChanged := false |}))).
Proof.
  intros Ha He H0 Hn. unfold refreshToken, from_cache_or, has_cache, cfg. rewrite Ha, He. cbn [js_truthy].
  replace (negb (at_ =? 0)) with true by (symmetry; apply negb_true_iff; by apply Z.eqb_neq). cbn [andb].
  exists now, []. split; [done|]. unfold cached. rewrite He. cbn [to_number].
  replace (now <? at_ - EXPIRY_BUFFER) with true by (symmetry; by apply Z.ltb_lt). done.
Qed.
End Refresh.

(** ** Theorems *)


(** C31: Refreshing, for every strategy but Intercom's and Peta's and whatever
    the provider answers: the
    cached token is returned, without a request, exactly when it is good for
    five more minutes; otherwise one request goes to the strategy's address
    with the refresh token and the credentials of the configuration.  The
    token returned then is the one in the response, and it expires as many
    seconds after the response was read as the response grants, or as usual
    with the provider; it is stored with that expiry and with the refresh
    token that replaces the old one, and flagged to be persisted (Google's is
    not stored at all), the credentials staying as they are; the strategies
    that look at what they get never return or store a token that is empty,
    nor lose the refresh token; every failure says whose it is. *)
Theorem tokens_refresh_soundly S st tr r :
  In S strategies -> runs (Strategy.refreshToken S st) tr (Some r) ->
  (forall pre ev post, tr = pre ++ ev :: post -> refresh_check S (Strategy.cfg st) pre ev) /\ refresh_outcome S st tr r.
Proof. intros HS. apply traced_runs. by apply strategy_refresh_wp. Qed.

(** C32: A token that was refreshed outlives its strategy: from the
    configuration that is persisted the factory makes a strategy that returns
    the same token without a request, until five minutes before it expires.
    That goes for every strategy of the factory that stores what it gets
    (Intercom's and Peta's are other code, Google's stores nothing); of
    Figma's and Notion's, which do not look at what they get, when the
    response did hold a token and left a refresh token. *)
Theorem persisted_tokens_resume a S c0 c st tr t st' at_ now :
  Strategy.create a c0 = Some (S, c) -> Strategy.new_strategy S c = Ok st ->
  runs (Strategy.refreshToken S st) tr (Some (Ok (t, st'))) -> Strategy.configChanged st' = true ->
  In S careful \/ (js_truthy (Strategy.accessToken t) = true /\ js_truthy (Strategy.conf "refreshToken" (Strategy.cfg st')) = true) ->
  Strategy.expiresAt t = Some at_ -> at_ <> 0 -> now < at_ - Strategy.EXPIRY_BUFFER ->
  exists saved c2 st2,
    Strategy.getCurrentOAuthConfig S st' = Some saved /\ Strategy.create a saved = Some (S, c2) /\ Strategy.new_strategy S c2 = Ok st2
    /\ runs (Strategy.refreshToken S st2) [Ev _ ClockNow now]
         (Some (Ok ({| Strategy.accessToken := Strategy.accessToken t; Strategy.expiresIn := Some ((at_ - now) / 1000);
                       Strategy.expiresAt := Some at_ |}, st2))).
Proof.
  intros Hc Hn Hr Hch HS Hat H0 Hnow. apply new_strategy_valid in Hn as [Hv ->]. pose proof (create_listed _ _ _ _ Hc) as Hall.
  apply (traced_runs _ _ _ _ _ (strategy_refresh_wp S _ Hall)) in Hr as [_ [(-> & _)|Hp]]; [done|].
  destruct Hp as (pre & status & raw & data & at0 & rest & _ & _ & _ & _ & _ & _ & _ & _ & Ht & Hk).
  destruct (Strategy.s_keep S) as [keep|] eqn:Ek; [|by subst st']. destruct Hk as (_ & K1 & K2 & _ & K3 & K4).
  assert (Htok : js_truthy (Strategy.accessToken t) = true) by (destruct HS as [HS|[HS _]]; [by apply Ht|done]).
  assert (Href : js_truthy (Strategy.conf "refreshToken" (Strategy.cfg st')) = true).
  { destruct HS as [HS|[_ HS]]; [|done]. apply K4; [done|]. by eapply needs_refresh. }
  destruct (saved_agrees a S keep c0 c (Strategy.cfg st') Hc Ek) as (c2 & Hc2 & Hagree).
  rewrite Forall_app in Hagree. destruct Hagree as [Hreq Hagree]. apply Forall_cons in Hagree as [E1 Hagree]. apply Forall_cons in Hagree as [E2 _].
  exists (Strategy.s_current S (Strategy.cfg st')), c2, {| Strategy.cfg := c2; Strategy.configChanged := false |}.
  pose proof (valid_kept _ _ _ Hall K3 Href Hv) as Hv'. split_and! .
  - unfold Strategy.getCurrentOAuthConfig. by rewrite Ek, Hch.
  - done.
  - apply new_strategy_valid. split; [|done]. unfold valid in *. rewrite Forall_forall in Hreq, Hv' |- *. intros k Hin. rewrite Hreq by done. by apply Hv'.
  - rewrite <- K1, <- E1. apply cached_run; [by rewrite E1, K1| |done|done]. by rewrite E2, K2, Hat.
Qed.

(** ** A provider to run against *)

Module Provider.

(** Every response is the same; the clock stands still. *)
Definition answer (status : Z) (raw : string) (now : Z) (X : Type) (e : pcall X) (w : unit) : X * unit :=
  match e in pcall X return X * unit with
  | Fetch _ _ _ => (Ok status, w)
  | ResponseText => (Ok raw, w)
  | ClockNow => (now, w)
  end.

Definition run {A} (status : Z) (v : json) (now : Z) (p : prog pcall A) := run_with (answer status (default ""%string (JSON_stringify v)) now) p tt.
Definition trace {A} status v now (p : prog pcall A) : list (event pcall) := fst (fst (run status v now p)).
Definition result_of {A} status v now (p : prog pcall A) : option A := snd (fst (run status v now p)).

Definition code_of (provider_ : string) : Exchange.ExchangeContext :=
  {| Exchange.provider := provider_; Exchange.tokenUrl := JUndefined; Exchange.clientId := JStr "id"; Exchange.clientSecret := JStr "secret";
     Exchange.code := JStr "code"; Exchange.redirectUri := JStr "https://r"; Exchange.codeVerifier := JUndefined; Exchange.scope := JUndefined;
     Exchange.tokenMode := JUndefined |}.

Definition granted : json := JObj [("access_token", JStr "at"); ("refresh_token", JStr "rt2"); ("expires_in", JNum 3600)]%string.
Definition old_config : Strategy.config :=
  [("clientId", JStr "id"); ("clientSecret", JStr "secret"); ("refreshToken", JStr "rt"); ("accessToken", JStr "old"); ("expiresAt", JNum 1000)]%string.
Definition fresh (c : Strategy.config) : Strategy.state := {| Strategy.cfg := c; Strategy.configChanged := false |}.

Definition refreshed (S : Strategy.AuthStrategy) (v : json) := result_of 200 v 5000 (Strategy.refreshToken S (fresh old_config)).
Definition token_of {A} (r : option (result exn (Strategy.StrategyToken * A))) : option Strategy.StrategyToken :=
  match r with Some (Ok (t, _)) => Some t | _ => None end.

Example credentials_encoded : base64_encode "id:secret" = "aWQ6c2VjcmV0"%string /\ base64_encode "id:s" = "aWQ6cw=="%string.
Proof. by vm_compute. Qed.

(** Three strategies do not look at what they get: an answer without a token
    is taken for one; Notion's also loses its refresh token. *)
Example empty_answers_accepted :
  map (fun S => option_map Strategy.accessToken (token_of (refreshed S (JObj [])))) [Strategy.notion; Strategy.figma; Strategy.google]
    = [Some JUndefined; Some JUndefined; Some JUndefined]
  /\ (exists t st, refreshed Strategy.notion (JObj []) = Some (Ok (t, st)) /\ Strategy.conf "refreshToken" (Strategy.cfg st) = JUndefined)
  /\ option_map Strategy.expiresAt (token_of (refreshed Strategy.google (JObj [("access_token", JStr "at")]%string))) = Some None.
Proof. split_and! ; [by vm_compute| |by vm_compute]. eexists _, _. split; by vm_compute. Qed.

(** The strategy of Peta's client takes seconds for seconds in its
    configuration, and for milliseconds in an answer. *)
Example peta_seconds_in_answers :
  let config n := [("userToken", JStr "u"); ("clientId", JStr "id"); ("key", JStr "k"); ("accessToken", JStr "at"); ("expiresAt", JNum n)]%string in
  option_map (Strategy.conf "expiresAt") (match Strategy.new_peta (config 2000000000) with Ok c => Some c | Throw _ => None end) = Some (JNum 2000000000000)
  /\ option_map Strategy.expiresAt (token_of (result_of 200 (JObj [("accessToken", JStr "at"); ("expiresAt", JNum 2000000000)]%string) 1900000000000
       (Strategy.peta_refreshToken "http://peta-auth:7788" (Some "google"%string) None (config 0)))) = Some (Some 2000000000).
Proof. by vm_compute. Qed.
End Provider.

Definition google_result : Exchange.ExchangeResult :=
  {| Exchange.x_accessToken := "at"; Exchange.x_refreshToken := Some "rt2"%string; Exchange.x_apiDomain := None; Exchange.x_expiresIn := Some 3600;
     Exchange.x_expiresAt := Some 3605000; Exchange.x_raw := Provider.granted |}.


(** What the strategies with rotating refresh tokens return and keep. *)
Definition new_token : Strategy.StrategyToken :=
  {| Strategy.accessToken := JStr "at"; Strategy.expiresIn := Some 3600; Strategy.expiresAt := Some 3605000 |}.
Definition new_state : Strategy.state :=
  {| Strategy.cfg := [("clientId", JStr "id"); ("clientSecret", JStr "secret"); ("refreshToken", JStr "rt2"); ("accessToken", JStr "at");
                      ("expiresAt", JNum 3605000)]%string;
     Strategy.configChanged := true |}.

Lemma tokens_refresh_soundly_witness :
  In Strategy.hubspot strategies
  /\ refresh_outcome Strategy.hubspot (Provider.fresh Provider.old_config)
       (Provider.trace 200 Provider.granted 5000 (Strategy.refreshToken Strategy.hubspot (Provider.fresh Provider.old_config)))
       (Ok (new_token, new_state)).
Proof.
  split; [cbn; tauto|].
  refine (proj2 (tokens_refresh_soundly Strategy.hubspot (Provider.fresh Provider.old_config) _ (Ok (new_token, new_state)) _ _)); [cbn; tauto|].
  apply run_with_result. by vm_compute.
Defined.

Lemma persisted_tokens_resume_witness :
  exists saved c2 st2,
    Strategy.create CanvaAuth saved = Some (Strategy.canva, c2) /\ Strategy.new_strategy Strategy.canva c2 = Ok st2
    /\ runs (Strategy.refreshToken Strategy.canva st2) [Ev _ ClockNow 6000]
         (Some (Ok ({| Strategy.accessToken := JStr "at"; Strategy.expiresIn := Some 3599; Strategy.expiresAt := Some 3605000 |}, st2))).
Proof.
  destruct (persisted_tokens_resume CanvaAuth Strategy.canva Provider.old_config Provider.old_config (Provider.fresh Provider.old_config)
    (Provider.trace 200 Provider.granted 5000 (Strategy.refreshToken Strategy.canva (Provider.fresh Provider.old_config)))
    new_token new_state 3605000 6000 eq_refl) as (saved & c2 & st2 & _ & H2 & H3 & H4).
  - reflexivity.
  - apply run_with_result. by vm_compute.
  - reflexivity.
  - left. cbn. tauto.
  - reflexivity.
  - lia.
  - unfold Strategy.EXPIRY_BUFFER. lia.
  - by exists saved, c2, st2.
Defined.
